(* ===== verification/_CoqProject ===== *)
-Q . S2P
Prelude.v
Alloc.v
Mpool.v
CString.v
VString.v
Vector.v
MHeap.v
Timer.v
Queue.v
QueueConc.v
HTable.v
RBTree.v
RBMap.v
Digest.v
Encode.v
WebSocket.v
HttpWs.v
Mqtt.v
MqttEnc.v
Scanner.v
Http.v
HttpMsg.v
Redis.v
Json.v
JsonText.v
JsonBack.v
