(* ===== verification/Prelude.v ===== *)
(** * VoxLib: a verification library

    VoxLib is a C library for network programs: a memory pool, containers, strings,
    timers and queues, digests and encoders, and the protocol code on top of them. This
    development translates the parts below from their C source into executable Rocq
    definitions and proves what each promises to its callers.

    ** The files, and how they depend on each other

    - Prelude.v (this file): machine integers, arrays with checked access, loops, byte
      order; the tactics [zlia], [dlia], [case_one] and the rewrite database [zlen].
    - Alloc.v: the interface of a memory pool, the class [MPool] with the laws
      [MPoolLaws], on which every container is verified; objects made of two blocks;
      [took], [evolves] and the pool [logged] that records refused allocations; [bump], a
      minimal instance.
    - Mpool.v: src/vox_mpool.c, the memory pool, proved to meet that interface
      ([mpool_pool], [mpool_laws]) over any malloc and free that meet it.
    - CString.v: the functions of <string.h> and <ctype.h> the library calls.
    - VString.v: src/vox_string.c. A [vox_string] refines the list of its bytes.
    - Vector.v: src/vox_vector.c. A [vox_vector] refines a list.
    - MHeap.v: src/vox_mheap.c. A [vox_mheap] refines a priority queue.
    - Timer.v: src/vox_timer.c with the timer heap of src/vox_loop.c.
    - Queue.v, QueueConc.v: src/vox_queue.c, called by one thread, and the slot ring under
      every interleaving of producers and consumers.
    - HTable.v: src/vox_htable.c. A [vox_htable] refines a finite map.
    - RBTree.v, RBMap.v: src/vox_rbtree.c, the operations on a store of nodes, and the proof
      that a [vox_rbtree] refines a finite map.
    - Digest.v, Encode.v: src/vox_crypto.c: MD5, SHA-1, SHA-256 and HMAC; Base64 and CRC-32.
    - WebSocket.v: src/websocket/vox_websocket.c, frames; it parses out of a [vox_string].
    - HttpWs.v: src/http/vox_http_ws.c, the message layer of a WebSocket connection, on
      top of the frames, the strings and (in its concrete run) the pool of Mpool.v.
    - Mqtt.v, MqttEnc.v: src/mqtt/vox_mqtt_parser.c, the streaming parser of MQTT packets
      and the encoders, with the proof that the parser reads back what they write.
    - Scanner.v: src/vox_scanner.c, character sets, the scanner of a text, and streams of
      chunks. The scanner refines a position in a text.
    - Http.v: src/http/vox_http_parser.c, the streaming parser of HTTP messages on top of
      the scanner, and the loop of src/http/vox_http_server.c that feeds it.
    - HttpMsg.v: whole requests through the parser of Http.v: what is written is read back.
    - Redis.v: src/redis/vox_redis_parser.c, the streaming parser of Redis replies, which
      gathers its lines in a [vox_string].
    - Json.v, JsonText.v, JsonBack.v: src/vox_json.c: the parser of JSON documents, on the
      scanner, and the access to their trees; the functions that build trees and write them
      as text; the proof of what the parser reads back of such a text.

    Each operation is one Definition with the name of its C function; a comment before it
    names the file and, where it is a part of a function, the lines. A struct is a Record
    with the fields of the source.

    ** Conventions of the models

    - An integer is a [Z]; where the C operation can leave its width the wrap-around is
      written out ([u8], [u16], [u32], [u64], [s32], [s64]). The machine is 64-bit and
      little-endian.
    - [None] is undefined behaviour (an access outside an array or a block, a wrong kind of
      cell) or a loop that has run out of fuel. So a theorem that an operation is [Some]
      says that it is memory safe and ends. Error codes and NULL results are values.
    - Memory that is used but not initialised has the arbitrary content [junk].
    - A NULL test of a handle (the struct an operation works on) is discharged by typing:
      the model takes the struct itself. NULL tests of elements, arguments and results of
      allocations are kept.
    - A block is a list of cells at an address; the pool knows the live blocks and their
      sizes ([mp_live]). Theorems on memory say which blocks an operation takes and gives
      back, so that leaks and double releases show.
    - A block that was given back is gone: reading it is undefined. The red-black tree does
      that once; its operations have an argument [keeps] for what such a read finds.
    - A [char] is a byte from 0 to 255 where its sign does not matter; where it is given to
      a function of ctype.h without a cast a byte from 128 on is undefined ([hex4]).
    - Pointer arguments of strings are [Null], [Mem] (some memory) or [Own] (into the
      string's own block, where aliasing matters).
    - Writes to a connection and other effects are output traces. Callbacks that act on the
      component (timers) are lists of calls chosen from the state; those of the
      MQTT, HTTP and Redis parsers are functions of the user's own state.
    - What the code takes from elsewhere is an argument: the output of vsnprintf, the random
      mask key of a frame, the success of vox_mutex_create, the clock.
    - Sequentially consistent interleaving of the atomic accesses in QueueConc.v.
    - Load factors, [double] in C, are fractions. The numbers of a JSON document are
      binary64 numbers ([spec_float]); strtod and the format "%.15g" are arguments.

    ** Fuel and bounds

    Loops bounded by a counter run it; the others have fuel, and the theorems show that it
    is enough: probing is bounded by the capacity, heap walks by the height, list walks in
    the pool by the number of cells, replacing by the length of the text, the frame loop by
    the bytes in the buffer (each frame takes at least two), the loop of the MQTT parser by
    the bytes it is given, the rounds, header lines and trailers of the HTTP parser by the
    unread bytes of its buffer, the growth of that buffer by 64 steps (each is at least a
    quarter, the limit is 1 MiB), the loop of the Redis parser by twice the bytes it is
    given, the nesting, the elements and the strings of a JSON document by the length of
    its text, walks of the tree by the number of its nodes. Capacities are assumed below
    2^58 to 2^62 where doubling or multiplying by a cell size must not wrap; what happens
    beyond is stated by theorems of its own ([vector_reserve_overflow],
    [string_wrapped_sizes], [mpool_count_overflow], [update_4gib_diverges]).

    ** What the theorems show

    - Refinement: every operation of a container does to its abstract value what the
      specification says, on every branch, or is refused by the pool and changes nothing
      ([vector_refines_list], [string_refines_bytes], [mheap_refines_pq],
      [queue_refines_fifo], [htable_refines_map], [timer_api_refines],
      [rbtree_refines_map], [mpool_implements], [ws_chunking], [scanner_refines_text]).
    - Life: creation, growth and destruction take and give back exactly the blocks they
      own ([vector_lifecycle], [string_lifecycle], [queue_lifecycle], [htable_lifecycle],
      [rbtree_lifecycle], [mpool_lifecycle], [mqtt_parser_safe], [http_execute_safe],
      [redis_execute_safe], [json_parse_safe], [json_to_string_text]).
    - Balance: [rbtree_balance] holds for insertions and for deletions that splice out no
      black node without children; the Example [rbtree_degenerates] shows what is left of
      it with the others.
    - Order and time: [mheap_drain_sorted], [process_expired_sound] for any order of the
      timers, [process_expired_loop_order] for the one that the loop installs. What would
      hold with the order of vox_timer.c, which nothing installs, is
      [process_expired_complete] and [next_timeout_spec].
    - Concurrency: [mpsc_linearizable] and [mpsc_refusals].
    - Equivalence with reference definitions: [digest_streaming], [hmac_rfc2104],
      [crc32_ok], [ws_utf8], [string_search]; [mqtt_chunking]: what the parser does depends
      only on the bytes, not on the reads.
    - Round trips: [base64_roundtrip], [base64url_roundtrip], [hex_roundtrip],
      [ws_roundtrip], [mqtt_roundtrip], [http_request_parsed], [redis_reply_parsed],
      [json_roundtrip], with [plain_document] and [integer_form] on what comes back exactly.
    - Errors and limits: [hmac_long_keys_ignored], [ws_close_frame], [mpsc_refusals],
      [mqtt_partial_length_lost], [charset_ranges], [http_buffer_overflow],
      [json_serialize_buffer], [json_int_defined] and the overflow
      theorems named above; the Examples at the end of Http.v, Redis.v and the JSON files
      evaluate the parsers on messages that arrive in several reads and on replies they
      get wrong; [redis_text_shifted].

    ** Not modelled

    System calls and what is built around them (the event loop's backends, sockets, TCP,
    UDP, TLS, DNS, files, processes, threads and mutexes, logging, the database clients),
    the coroutines' context switches, and the network side of the HTTP, WebSocket, MQTT and
    Redis clients and servers. Of src/http/vox_http_ws.c the upgrade handshake and the
    public send functions are left out; of src/vox_crypto.c the random bytes; of
    src/vox_mpool.c the printing of statistics; of src/vox_json.c the reading of a file and
    the printing of a tree.

    Not reached, though it could be modelled the same way: the router,
    the table of MIME types and the parser of form data of the HTTP part, INI, XML,
    TOML and the regular expressions. *)

From Stdlib Require Export ZArith Lia.
From stdpp Require Export base numbers option gmap list.

#[global] Open Scope Z_scope.

(** ** Machine integers

    Every C integer is a [Z]; an operation that can leave its width is followed
    by the wrap-around of the width. *)

Definition SIZE_MAX : Z := 2 ^ 64 - 1.
Definition PTRDIFF_MAX : Z := 2 ^ 63 - 1.

Definition u8 (x : Z) : Z := x mod 2 ^ 8.
Definition u16 (x : Z) : Z := x mod 2 ^ 16.
Definition u32 (x : Z) : Z := x mod 2 ^ 32.
Definition u64 (x : Z) : Z := x mod 2 ^ 64.

(** Conversion to a two's complement [int] and [int64_t]. *)
Definition s32 (x : Z) : Z := (x + 2 ^ 31) mod 2 ^ 32 - 2 ^ 31.
Definition s64 (x : Z) : Z := (x + 2 ^ 63) mod 2 ^ 64 - 2 ^ 63.

(** A [void *] value is a [Z]; [NULL] is 0. *)
Definition NULL : Z := 0.

(** ** Arrays

    A C array is the list of its cells. Access is partial: [None] is an access
    outside the block, the undefined behaviour of the C code. *)

Definition zlen {A} (l : list A) : Z := Z.of_nat (length l).

Definition arr_get {A} (l : list A) (i : Z) : option A :=
  if decide (0 <= i) then l !! Z.to_nat i else None.

Definition arr_set {A} (l : list A) (i : Z) (x : A) : option (list A) :=
  if decide (0 <= i < zlen l) then Some (<[Z.to_nat i := x]> l) else None.

(** [memcpy] (and, with [dst = src], [memmove]) of [n] cells. *)
Definition arr_blit {A} (dst : list A) (di : Z) (src : list A) (si n : Z) : option (list A) :=
  if decide (0 <= n /\ 0 <= di /\ di + n <= zlen dst /\ 0 <= si /\ si + n <= zlen src)
  then Some (take (Z.to_nat di) dst ++ take (Z.to_nat n) (drop (Z.to_nat si) src)
             ++ drop (Z.to_nat (di + n)) dst)
  else None.

(** [memset] of [n] cells from [di]. *)
Definition arr_fill {A} (dst : list A) (di n : Z) (x : A) : option (list A) :=
  arr_blit dst di (replicate (Z.to_nat n) x) 0 n.

(** ** Notations and tactics of the development *)

Declare Scope vox_scope.
Delimit Scope vox_scope with vox.
Notation "l .[ i ]" := (arr_get l i) (at level 1, left associativity, format "l .[ i ]") : vox_scope.
Notation "l .[ i <- x ]" := (arr_set l i x)
  (at level 1, left associativity, format "l .[ i  <-  x ]") : vox_scope.
Notation "'guard!' b ; k" := (if b then k else None)
  (at level 10, b at level 100, k at level 200) : vox_scope.
#[global] Open Scope vox_scope.

Create HintDb vox discriminated.

(** Case analysis on the innermost test of the goal. *)
Ltac case_one :=
  match goal with
  | |- context [decide ?P] => destruct (decide P)
  | |- context [Z.eqb ?a ?b] => destruct (Z.eqb_spec a b)
  | |- context [Z.ltb ?a ?b] => destruct (Z.ltb_spec a b)
  | |- context [Z.leb ?a ?b] => destruct (Z.leb_spec a b)
  end.

(** The same on a hypothesis. *)
Ltac case_one_in H :=
  match type of H with
  | context [decide ?P] => destruct (decide P)
  | context [Z.eqb ?a ?b] => destruct (Z.eqb_spec a b)
  | context [Z.ltb ?a ?b] => destruct (Z.ltb_spec a b)
  | context [Z.leb ?a ?b] => destruct (Z.leb_spec a b)
  end.

(** ** Lemmas on wrap-around *)

Lemma u64_small x : 0 <= x < 2 ^ 64 -> u64 x = x.
Proof. apply Z.mod_small. Qed.
Lemma u32_small x : 0 <= x < 2 ^ 32 -> u32 x = x.
Proof. apply Z.mod_small. Qed.
Lemma u16_small x : 0 <= x < 2 ^ 16 -> u16 x = x.
Proof. apply Z.mod_small. Qed.
Lemma u8_small x : 0 <= x < 2 ^ 8 -> u8 x = x.
Proof. apply Z.mod_small. Qed.
Lemma u64_range x : 0 <= u64 x < 2 ^ 64.
Proof. apply Z.mod_pos_bound; lia. Qed.
Lemma u32_range x : 0 <= u32 x < 2 ^ 32.
Proof. apply Z.mod_pos_bound; lia. Qed.
Lemma u8_range x : 0 <= u8 x < 2 ^ 8.
Proof. apply Z.mod_pos_bound; lia. Qed.

Lemma s32_small x : - 2 ^ 31 <= x < 2 ^ 31 -> s32 x = x.
Proof. intros H. unfold s32. rewrite Z.mod_small by lia. lia. Qed.
Lemma s64_small x : - 2 ^ 63 <= x < 2 ^ 63 -> s64 x = x.
Proof. intros H. unfold s64. rewrite Z.mod_small by lia. lia. Qed.

(** ** Lemmas on arrays *)

Section arrays.
Context {A : Type}.
Implicit Types (l : list A) (x : A).

Lemma zlen_nonneg l : 0 <= zlen l.
Proof. unfold zlen. lia. Qed.
Lemma zlen_nil : zlen ([] : list A) = 0.
Proof. done. Qed.
Lemma zlen_cons x l : zlen (x :: l) = 1 + zlen l.
Proof. unfold zlen. cbn [length]. lia. Qed.
Lemma zlen_app l1 l2 : zlen (l1 ++ l2) = zlen l1 + zlen l2.
Proof. unfold zlen. rewrite length_app. lia. Qed.
Lemma zlen_replicate n x : zlen (replicate n x) = Z.of_nat n.
Proof. unfold zlen. by rewrite length_replicate. Qed.
Lemma zlen_insert l i x : zlen (<[i := x]> l) = zlen l.
Proof. unfold zlen. by rewrite length_insert. Qed.
Lemma zlen_take l n : zlen (take n l) = Z.min (Z.of_nat n) (zlen l).
Proof. unfold zlen. rewrite length_take. lia. Qed.
Lemma zlen_drop l n : zlen (drop n l) = Z.max 0 (zlen l - Z.of_nat n).
Proof. unfold zlen. rewrite length_drop. lia. Qed.

Lemma arr_get_Some l i : 0 <= i < zlen l -> exists x, l.[i] = Some x.
Proof.
  intros H. unfold arr_get, zlen in *. rewrite decide_True by lia.
  apply lookup_lt_is_Some_2. lia.
Qed.

Lemma arr_get_lookup l i : 0 <= i -> l.[i] = l !! Z.to_nat i.
Proof. intros H. unfold arr_get. by rewrite decide_True. Qed.

Lemma arr_get_range l i x : l.[i] = Some x -> 0 <= i < zlen l.
Proof.
  unfold arr_get, zlen. case_decide; [|done]. intros H1%lookup_lt_Some. lia.
Qed.

Lemma arr_set_ok l i x : 0 <= i < zlen l -> l.[i <- x] = Some (<[Z.to_nat i := x]> l).
Proof. intros H. unfold arr_set. by rewrite decide_True. Qed.

Lemma arr_get_insert l i j x :
  0 <= i < zlen l -> 0 <= j ->
  arr_get (<[Z.to_nat i := x]> l) j = if decide (i = j) then Some x else l.[j].
Proof.
  intros Hi Hj. rewrite !arr_get_lookup by lia. unfold zlen in Hi.
  case_decide as E.
  - subst. apply list_lookup_insert_eq. lia.
  - apply list_lookup_insert_ne. lia.
Qed.

Lemma arr_blit_ok (dst src : list A) di si n :
  0 <= n -> 0 <= di -> di + n <= zlen dst -> 0 <= si -> si + n <= zlen src ->
  arr_blit dst di src si n
  = Some (take (Z.to_nat di) dst ++ take (Z.to_nat n) (drop (Z.to_nat si) src)
          ++ drop (Z.to_nat (di + n)) dst).
Proof. intros. unfold arr_blit. by rewrite decide_True. Qed.

(** Access to an array cut at the position of the access. *)
Lemma arr_get_app l1 x l2 i : i = zlen l1 -> (l1 ++ x :: l2).[i] = Some x.
Proof.
  intros ->. rewrite arr_get_lookup by apply zlen_nonneg. unfold zlen. rewrite Nat2Z.id.
  by apply list_lookup_middle.
Qed.

Lemma arr_get_app_l l1 l2 i : i < zlen l1 -> (l1 ++ l2).[i] = l1.[i].
Proof.
  intros Hi. unfold arr_get. case_decide; [|done]. apply lookup_app_l. unfold zlen in Hi. lia.
Qed.

Lemma arr_set_app l1 x l2 i y : i = zlen l1 -> (l1 ++ x :: l2).[i <- y] = Some (l1 ++ y :: l2).
Proof.
  intros ->. rewrite arr_set_ok.
  - unfold zlen. rewrite Nat2Z.id. by rewrite insert_app_r_alt, Nat.sub_diag by lia.
  - rewrite zlen_app, zlen_cons. pose proof (zlen_nonneg l1). pose proof (zlen_nonneg l2). lia.
Qed.

Lemma arr_blit_app l1 mid l2 (src : list A) di si n :
  di = zlen l1 -> zlen mid = n -> 0 <= si -> si + n <= zlen src ->
  arr_blit (l1 ++ mid ++ l2) di src si n
  = Some (l1 ++ take (Z.to_nat n) (drop (Z.to_nat si) src) ++ l2).
Proof.
  intros -> Hn Hs Hb. pose proof (zlen_nonneg l1). pose proof (zlen_nonneg mid). pose proof (zlen_nonneg l2).
  rewrite arr_blit_ok by (rewrite ?zlen_app; lia). f_equal. unfold zlen in *. rewrite Nat2Z.id.
  rewrite take_app_length. do 2 f_equal.
  rewrite app_assoc. apply drop_app_length'. rewrite length_app. lia.
Qed.

(** The same source from its start. *)
Lemma arr_blit_app0 l1 mid l2 (src rest : list A) di n :
  di = zlen l1 -> zlen mid = n -> zlen src = n ->
  arr_blit (l1 ++ mid ++ l2) di (src ++ rest) 0 n = Some (l1 ++ src ++ l2).
Proof.
  intros Hd Hm Hs. rewrite (arr_blit_app _ _ _ _ _ _ n) by (rewrite ?zlen_app; pose proof (zlen_nonneg rest); lia).
  change (Z.to_nat 0) with 0%nat. rewrite drop_0. do 3 f_equal.
  rewrite take_app_le by (unfold zlen in *; lia). apply take_ge. unfold zlen in *. lia.
Qed.

Lemma arr_blit_len (dst src dst' : list A) di si n :
  arr_blit dst di src si n = Some dst' -> zlen dst' = zlen dst.
Proof.
  unfold arr_blit. case_decide as H; [|done]. intros [= <-].
  unfold zlen in *. rewrite !length_app, length_take, length_drop, length_take, length_drop. lia.
Qed.
End arrays.

Create Rewrite HintDb zlen.
#[export] Hint Rewrite @zlen_nil @zlen_cons @zlen_app @zlen_replicate @zlen_insert
  @zlen_take @zlen_drop : zlen.

(** Normalise array lengths and finish by linear arithmetic. *)
Ltac zlen_simpl := autorewrite with zlen in *.
Ltac zlia := zlen_simpl; unfold zlen in *; lia.

(** Linear arithmetic with division and remainder by constants. *)
Ltac dlia := Z.to_euclidean_division_equations; lia.

(** ** Counted loops *)

(** [for (i = lo; i < lo + n; i++) body]. *)
Fixpoint for_ {A} (n : nat) (i : Z) (body : Z -> A -> option A) (s : A) : option A :=
  match n with
  | O => Some s
  | S n => s ← body i s; for_ n (i + 1) body s
  end.

Lemma for_inv {A} (Q : Z -> A -> Prop) n i body (s : A) :
  Q i s -> (forall j s, i <= j < i + Z.of_nat n -> Q j s -> exists s', body j s = Some s' /\ Q (j + 1) s') ->
  exists s', for_ n i body s = Some s' /\ Q (i + Z.of_nat n) s'.
Proof.
  revert i s. induction n as [|n IH]; intros i s HQ Hb.
  - exists s. split; [done|]. by replace (i + Z.of_nat 0) with i by lia.
  - cbn [for_]. destruct (Hb i s) as (s1 & -> & HQ1); [lia|done|]. cbn [mbind option_bind].
    destruct (IH (i + 1) s1 HQ1) as (s2 & -> & HQ2); [intros j t Hj; apply Hb; lia|].
    exists s2. split; [done|]. by replace (i + Z.of_nat (S n)) with (i + 1 + Z.of_nat n) by lia.
Qed.

Lemma for_total {A} n lo body (s : A) :
  (forall j s, lo <= j < lo + Z.of_nat n -> exists s', body j s = Some s') ->
  exists s', for_ n lo body s = Some s'.
Proof.
  intros Hb. destruct (for_inv (fun _ _ => True) n lo body s) as (s' & -> & _); [done| |by eexists].
  intros j t Hj _. destruct (Hb j t Hj) as [t' ->]. by exists t'.
Qed.

(** ** Defined results

    [ok e Q]: [e] is defined and its result satisfies [Q]. *)

Definition ok {A} (e : option A) (Q : A -> Prop) : Prop :=
  match e with Some x => Q x | None => False end.

Lemma ok_bind {A B} (e : option A) (k : A -> option B) Q R :
  ok e Q -> (forall x, Q x -> ok (k x) R) -> ok (x ← e; k x) R.
Proof. destruct e as [x|]; cbn; [|done]. intros HQ Hk. by apply Hk. Qed.

Lemma ok_mono {A} (e : option A) (Q R : A -> Prop) : ok e Q -> (forall x, Q x -> R x) -> ok e R.
Proof. destruct e; cbn; auto. Qed.

Lemma ok_Some {A} (e : option A) Q : ok e Q -> exists x, e = Some x /\ Q x.
Proof. destruct e as [x|]; cbn; [|done]. eauto. Qed.

(** The first step of a sequence, by the lemma that describes it. *)
Ltac ok_step lem :=
  match goal with |- ok (mbind _ _) _ => eapply ok_bind; [eapply lem|cbv beta] end.

(** ** Rounding up to a power of two

    The shifts vox_queue.c and vox_htable.c round a capacity up with: every bit
    below the highest one is set. *)
Definition smear (n : Z) : Z :=
  let n := Z.lor n (Z.shiftr n 1) in
  let n := Z.lor n (Z.shiftr n 2) in
  let n := Z.lor n (Z.shiftr n 4) in
  let n := Z.lor n (Z.shiftr n 8) in
  let n := Z.lor n (Z.shiftr n 16) in
  Z.lor n (Z.shiftr n 32).

(** The top [m] bits of a number whose highest bit is [k] are set. *)
Definition top_set (k m x : Z) : Prop :=
  (forall i, 0 <= i -> k - m < i <= k -> Z.testbit x i = true) /\
  (forall i, k < i -> Z.testbit x i = false).

Lemma top_set_step k m x :
  0 <= m -> top_set k m x -> top_set k (2 * m) (Z.lor x (Z.shiftr x m)).
Proof.
  intros Hm [Hin Hout]. split; intros i.
  - intros Hi Hk. rewrite Z.lor_spec, Z.shiftr_spec by lia.
    destruct (decide (k - m < i)); [by rewrite Hin by lia|].
    rewrite (Hin (i + m)) by lia. by rewrite orb_true_r.
  - intros Hi. rewrite Z.lor_spec, Hout by lia. cbn.
    destruct (decide (0 <= i)); [|by rewrite Z.testbit_neg_r by lia].
    rewrite Z.shiftr_spec by lia. by rewrite Hout by lia.
Qed.

Lemma smear_spec n : 0 < n < 2 ^ 64 -> smear n = 2 ^ (Z.log2 n + 1) - 1.
Proof.
  intros Hn. assert (Z.log2 n < 64) by (apply Z.log2_lt_pow2; lia).
  pose proof (Z.log2_nonneg n) as Hk. set (k := Z.log2 n) in *.
  assert (top_set k 1 n) as H1.
  { split; intros i.
    - intros Hi ?. replace i with (Z.log2 n) by (fold k; lia). apply Z.bit_log2. lia.
    - intros Hi. destruct (decide (0 <= i)); [|by rewrite Z.testbit_neg_r by lia].
      apply Z.bits_above_log2; [lia|done]. }
  do 6 (apply top_set_step in H1; [|lia]). cbn in H1. destruct H1 as [Hin Hout].
  replace (2 ^ (k + 1) - 1) with (Z.ones (k + 1)) by (rewrite Z.ones_equiv; lia).
  apply Z.bits_inj'. intros i Hi. destruct (decide (i <= k)) as [Hle|Hgt].
  - rewrite Z.ones_spec_low by lia. apply Hin; lia.
  - rewrite Z.ones_spec_high by lia. apply Hout. lia.
Qed.

Lemma smear_ge n : 0 < n < 2 ^ 64 -> n <= smear n.
Proof. intros Hn. rewrite smear_spec by done. pose proof (Z.log2_spec n). rewrite Z.add_1_r. lia. Qed.

(** [n & (n - 1) == 0] tests for a power of two. *)
Lemma land_pred_pow2 n : 0 < n -> Z.land n (n - 1) = 0 -> n = 2 ^ Z.log2 n.
Proof.
  intros Hn E. pose proof (Z.log2_spec n Hn) as [Hle Hlt].
  destruct (decide (n = 2 ^ Z.log2 n)) as [|Hne]; [done|exfalso].
  assert (Z.log2 (n - 1) = Z.log2 n) as Hl.
  { apply Z.log2_unique; [apply Z.log2_nonneg|]. lia. }
  assert (Z.testbit (Z.land n (n - 1)) (Z.log2 n) = true) as Hb.
  { rewrite Z.land_spec, Z.bit_log2 by done. rewrite <-Hl. apply Z.bit_log2.
    assert (0 < 2 ^ Z.log2 n) by (apply Z.pow_pos_nonneg; [lia|apply Z.log2_nonneg]). lia. }
  by rewrite E, Z.bits_0 in Hb.
Qed.

(** ** Bytes and words *)

(** The bytes of a string literal, without a terminator. *)
Definition bytes_of (s : String.string) : list Z :=
  (fun a => Z.of_nat (Ascii.nat_of_ascii a)) <$> String.list_ascii_of_string s.

(** A list of bytes read as a little-endian number. *)
Fixpoint le_combine (l : list Z) : Z :=
  match l with [] => 0 | b :: l => b + 2 ^ 8 * le_combine l end.

(** A list of bytes read as a big-endian number. *)
Definition be_combine (l : list Z) : Z := foldl (fun acc b => acc * 2 ^ 8 + b) 0 l.

(** [n] cells of [l] from [i] on; [None]: some of them outside the block. *)
Definition arr_slice {A} (l : list A) (i n : Z) : option (list A) :=
  if decide (0 <= i /\ 0 <= n /\ i + n <= zlen l)
  then Some (take (Z.to_nat n) (drop (Z.to_nat i) l)) else None.

Definition is_bytes (l : list Z) : Prop := Forall (fun b => 0 <= b < 2 ^ 8) l.

Lemma arr_slice_Some {A} (l : list A) i n :
  0 <= i -> 0 <= n -> i + n <= zlen l ->
  exists s, arr_slice l i n = Some s /\ zlen s = n.
Proof.
  intros. unfold arr_slice. rewrite decide_True by done. eexists. split; [done|]. zlia.
Qed.

Lemma arr_slice_app_l {A} (l1 l2 : list A) i n :
  i + n <= zlen l1 -> arr_slice (l1 ++ l2) i n = arr_slice l1 i n.
Proof.
  intros Hb. unfold arr_slice. pose proof (zlen_nonneg l2).
  destruct (decide (0 <= i /\ 0 <= n)) as [[Hi Hn]|Hno].
  - rewrite !decide_True by (rewrite ?zlen_app; lia). unfold zlen in *.
    rewrite drop_app_le, take_app_le by (rewrite ?length_drop; lia). done.
  - rewrite !decide_False by lia. done.
Qed.

(** A slice cut out in the middle. *)
Lemma arr_slice_mid {A} (a t b : list A) i n :
  i = zlen a -> n = zlen t -> arr_slice (a ++ t ++ b) i n = Some t.
Proof.
  intros -> ->. pose proof (zlen_nonneg a). pose proof (zlen_nonneg t). pose proof (zlen_nonneg b).
  unfold arr_slice. rewrite decide_True by (rewrite !zlen_app; lia). unfold zlen.
  by rewrite !Nat2Z.id, drop_app_length, take_app_length.
Qed.

Lemma le_combine_range l : is_bytes l -> 0 <= le_combine l < 2 ^ (8 * zlen l).
Proof.
  induction 1 as [|b l Hb Hl IH]; cbn [le_combine]; [done|].
  rewrite zlen_cons. replace (8 * (1 + zlen l)) with (8 + 8 * zlen l) by lia.
  pose proof (zlen_nonneg l). rewrite Z.pow_add_r by lia. change (2 ^ 8) with 256 in *. nia.
Qed.

(** The [n] low bytes of a number, least significant first. *)
Fixpoint le_split (n : nat) (x : Z) : list Z :=
  match n with O => [] | S n => x mod 2 ^ 8 :: le_split n (x / 2 ^ 8) end.
Definition be_split (n : nat) (x : Z) : list Z := rev (le_split n x).

Lemma le_split_length n x : length (le_split n x) = n.
Proof. revert x. induction n as [|n IH]; intros x; cbn; [done|]. by rewrite IH. Qed.
Lemma be_split_length n x : length (be_split n x) = n.
Proof. unfold be_split. by rewrite length_rev, le_split_length. Qed.

Lemma le_split_bytes n x : is_bytes (le_split n x).
Proof.
  revert x. induction n as [|n IH]; intros x; cbn [le_split]; [by apply Forall_nil|].
  apply Forall_cons. split; [|apply IH]. apply Z.mod_pos_bound. lia.
Qed.
Lemma be_split_bytes n x : is_bytes (be_split n x).
Proof. apply Forall_rev, le_split_bytes. Qed.

Lemma le_combine_split n x : 0 <= x < 2 ^ (8 * Z.of_nat n) -> le_combine (le_split n x) = x.
Proof.
  revert x. induction n as [|n IH]; intros x Hx; cbn [le_split le_combine]; [cbn in Hx; lia|].
  rewrite IH; [pose proof (Z.div_mod x (2 ^ 8)); lia|].
  replace (8 * Z.of_nat (S n)) with (8 * Z.of_nat n + 8) in Hx by lia. rewrite Z.pow_add_r in Hx by lia.
  split; [apply Z.div_pos; lia|]. apply Z.div_lt_upper_bound; lia.
Qed.

Lemma le_split_combine l : is_bytes l -> le_split (length l) (le_combine l) = l.
Proof.
  induction 1 as [|b l Hb Hl IH]; cbn [le_split le_combine length]; [done|]. f_equal.
  - rewrite Z.mul_comm, Z.mod_add by lia. by apply Z.mod_small.
  - rewrite Z.mul_comm, Z.div_add, (Z.div_small b) by lia. done.
Qed.

(** Putting bytes and digits together with shifts and [|]. *)
Lemma testbit_small x n i : 0 <= x < 2 ^ n -> n <= i -> Z.testbit x i = false.
Proof.
  intros Hx Hi. destruct (decide (0 <= n)) as [Hn|]; [|rewrite Z.pow_neg_r in Hx by lia; lia].
  rewrite <-(Z.mod_small x (2 ^ n)) by done. by apply Z.mod_pow2_bits_high.
Qed.

Lemma lor_add x y n : 0 <= n -> x mod 2 ^ n = 0 -> 0 <= y < 2 ^ n -> Z.lor x y = x + y.
Proof.
  intros Hn Hx Hy. rewrite <-Z.add_lor_land. replace (Z.land x y) with 0; [lia|].
  symmetry. apply Z.bits_inj'. intros i Hi. rewrite Z.land_spec, Z.bits_0.
  destruct (decide (i < n)); [|by rewrite (testbit_small y n i), andb_false_r by lia].
  rewrite <-(Z.mod_pow2_bits_low x n i), Hx by lia. by rewrite Z.bits_0.
Qed.

Lemma lor_shiftl x y n : 0 <= n -> 0 <= y < 2 ^ n -> Z.lor (Z.shiftl x n) y = x * 2 ^ n + y.
Proof.
  intros Hn Hy. rewrite Z.shiftl_mul_pow2 by done. apply (lor_add _ _ n); [done| |done].
  apply Z.mod_mul. apply Z.pow_nonzero; lia.
Qed.

Lemma land_low x n : 0 <= n -> Z.land x (Z.ones n) = x mod 2 ^ n.
Proof. intros Hn. by apply Z.land_ones. Qed.

(** ** Rings of power-of-two size *)

(** Positions less than a turn apart are in different cells. *)
Lemma mod_window cap j k : 0 < cap -> Z.abs (j - k) < cap -> j mod cap = k mod cap -> j = k.
Proof.
  intros Hc Hd E. pose proof (Z.div_mod j cap ltac:(lia)). pose proof (Z.div_mod k cap ltac:(lia)).
  assert (j - k = cap * (j / cap - k / cap)) as Hx by lia.
  assert (j / cap - k / cap = 0) by nia. lia.
Qed.

(** The masks of a power-of-two capacity. *)
Definition pow2 (cap : Z) : Prop := exists k, 0 <= k <= 60 /\ cap = 2 ^ k.

Lemma pow2_pos cap : pow2 cap -> 0 < cap <= 2 ^ 60.
Proof.
  intros (k & Hk & ->). split; [apply Z.pow_pos_nonneg; lia|]. apply Z.pow_le_mono_r; lia.
Qed.

Lemma land_mask x cap : pow2 cap -> Z.land x (cap - 1) = x mod cap.
Proof.
  intros (k & Hk & ->). replace (2 ^ k - 1) with (Z.ones k) by (rewrite Z.ones_equiv; lia).
  apply Z.land_ones. lia.
Qed.
