(* ===== verification/Alloc.v ===== *)
(** * The memory-pool interface

    Every container of the library gets its memory from a [vox_mpool_t]. This
    file states what they rely on as a type class, [MPool] with its laws
    [MPoolLaws]; the containers are verified against the class, and Mpool.v
    proves that the pool of vox_mpool.c is an instance. [bump] is a second,
    minimal instance on which concrete runs are evaluated. *)

From S2P Require Import Prelude.

(** A pool: allocation returns [NULL] or a block, [mp_live] maps every live
    block to its usable size and [mp_inv] is the pool's invariant. *)
Class MPool (P : Type) := {
  mp_alloc : P -> Z -> P * Z;
  mp_free : P -> Z -> P;
  mp_live : P -> gmap Z Z;
  mp_inv : P -> Prop;
}.

(** What an allocation of [n] bytes promises. *)
Definition alloc_ok {P} `{MPool P} (p : P) (n : Z) (p' : P) (a : Z) : Prop :=
  (a = NULL /\ mp_live p' = mp_live p) \/
  (a <> NULL /\ 0 < n <= PTRDIFF_MAX /\ mp_live p !! a = None /\
   exists m, n <= m /\ mp_live p' = <[a := m]> (mp_live p)).

Class MPoolLaws (P : Type) `{MPool P} := {
  mp_alloc_spec (p : P) n p' a :
    mp_inv p -> 0 <= n < 2 ^ 64 -> mp_alloc p n = (p', a) ->
    mp_inv p' /\ alloc_ok p n p' a;
  mp_free_spec (p : P) a :
    mp_inv p -> is_Some (mp_live p !! a) ->
    mp_inv (mp_free p a) /\ mp_live (mp_free p a) = delete a (mp_live p);
  mp_free_null (p : P) : mp_free p NULL = p;
  mp_disjoint (p : P) a b m n :
    mp_inv p -> a <> b -> mp_live p !! a = Some m -> mp_live p !! b = Some n ->
    a + m <= b \/ b + n <= a;
  mp_range (p : P) a m :
    mp_inv p -> mp_live p !! a = Some m -> 0 < a /\ a + m < 2 ^ 64;
}.

(** ** Arrays from a pool

    [alloc_cells junk p n sz] is [vox_mpool_alloc(p, n * sz)] used as an array
    of cells of [sz] bytes: the byte count wraps at 64 bits as in C, so the block
    holds [u64 (n * sz) / sz] cells; their first content is indeterminate. *)
Definition alloc_cells {P A} `{MPool P} (junk : A) (p : P) (n sz : Z) : P * Z * list A :=
  let bytes := u64 (n * sz) in
  let '(p', a) := mp_alloc p bytes in
  (p', a, if a =? NULL then [] else replicate (Z.to_nat (bytes / sz)) junk).

Section laws.
Context {P : Type} `{MPoolLaws P}.

Lemma alloc_cells_spec {A} (junk : A) (p : P) n sz p' a l :
  mp_inv p -> 0 < sz -> 0 <= n -> n * sz < 2 ^ 64 ->
  alloc_cells junk p n sz = (p', a, l) ->
  mp_inv p' /\ alloc_ok p (n * sz) p' a /\
  (a <> NULL -> zlen l = n /\ n * sz <= PTRDIFF_MAX).
Proof.
  intros Hp Hsz Hn Hb. unfold alloc_cells.
  rewrite u64_small by nia.
  destruct (mp_alloc p (n * sz)) as [p1 a1] eqn:E. intros [= <- <- <-].
  destruct (mp_alloc_spec p (n * sz) p1 a1 Hp) as [Hp1 Hok]; [nia|done|].
  split; [done|]. split; [done|]. intros Ha.
  rewrite (proj2 (Z.eqb_neq a1 NULL)) by done.
  rewrite Z.div_mul by lia. autorewrite with zlen.
  destruct Hok as [[? _]|(_ & ? & _)]; [done|]. lia.
Qed.

(** [NULL] is never live. *)
Lemma live_nonnull (p : P) a : mp_inv p -> is_Some (mp_live p !! a) -> a <> NULL.
Proof.
  intros Hp Ha ->. destruct (mp_free_spec p NULL Hp Ha) as [_ Hl]. rewrite mp_free_null in Hl.
  rewrite Hl, lookup_delete_eq in Ha. by destruct Ha.
Qed.

(** Replacing a live block [old] by a fresh one: what every container's growth
    does to the set of live blocks. *)
Lemma mp_replace_spec (p p' : P) n a old :
  mp_inv p' -> alloc_ok p n p' a -> a <> NULL -> is_Some (mp_live p !! old) ->
  a <> old /\ mp_inv (mp_free p' old) /\
  exists m, n <= m /\ mp_live (mp_free p' old) = <[a := m]> (delete old (mp_live p)).
Proof.
  intros Hp' [[? _]|(_ & _ & Hfr & m & Hm & Hl)] Ha Hold; [done|].
  assert (a <> old) as Hne. { intros ->. rewrite Hfr in Hold. by destruct Hold. }
  split; [done|].
  destruct (mp_free_spec p' old Hp') as [Hi Hl'].
  { rewrite Hl, lookup_insert_ne by done. done. }
  split; [done|]. exists m. split; [done|].
  by rewrite Hl', Hl, delete_insert_ne.
Qed.

(** ** Objects of two blocks

    A container is a struct at [self] whose field points to an array at [at_]. Its
    life is the same three steps everywhere: create both blocks, move the array to
    a larger block, release both. *)

Definition owned (p : P) (self at_ : Z) : Prop :=
  is_Some (mp_live p !! at_) /\ is_Some (mp_live p !! self) /\ at_ <> self.

(** The live blocks that are not the container's. *)
Definition frame (p : P) (self at_ : Z) : gmap Z Z := delete self (delete at_ (mp_live p)).

Lemma frame_lookup (p : P) self at_ b n :
  frame p self at_ !! b = Some n <-> b <> self /\ b <> at_ /\ mp_live p !! b = Some n.
Proof. unfold frame. rewrite !lookup_delete_Some. split; intros; destruct_and?; split_and!; congruence. Qed.

Lemma owned_live (p p' : P) self at_ :
  mp_live p' = mp_live p -> owned p self at_ -> owned p' self at_ /\ frame p' self at_ = frame p self at_.
Proof. intros Hl. unfold owned, frame. by rewrite Hl. Qed.

Lemma create_blocks {A} (junk : A) (p p1 p2 : P) struct_sz n sz self at_ cells :
  mp_inv p -> 0 <= struct_sz < 2 ^ 64 -> mp_alloc p struct_sz = (p1, self) -> self <> NULL ->
  0 < sz -> 0 <= n -> n * sz < 2 ^ 64 ->
  alloc_cells junk p1 n sz = (p2, at_, cells) -> at_ <> NULL ->
  mp_inv p2 /\ owned p2 self at_ /\ frame p2 self at_ = mp_live p /\
  zlen cells = n /\ n * sz <= PTRDIFF_MAX.
Proof.
  intros Hp Hs E1 Hself Hsz Hn Hb E2 Hat.
  destruct (mp_alloc_spec p struct_sz p1 self Hp Hs E1) as [Hp1 [[? _]|(_ & _ & Hfr1 & m1 & _ & Hl1)]];
    [done|].
  destruct (alloc_cells_spec junk p1 n sz p2 at_ cells Hp1 Hsz Hn Hb E2)
    as (Hp2 & [[? _]|(_ & _ & Hfr2 & m2 & _ & Hl2)] & Hc); [done|].
  assert (at_ <> self) as Hne. { intros ->. by rewrite Hl1, lookup_insert_eq in Hfr2. }
  split; [done|]. split; [|split; [|by apply Hc]].
  - split_and!; [| |done].
    + rewrite Hl2, lookup_insert_eq. done.
    + rewrite Hl2, lookup_insert_ne, Hl1, lookup_insert_eq by done. done.
  - unfold frame. rewrite Hl2, delete_insert_id by done. by rewrite Hl1, delete_insert_id.
Qed.

(** A creation that fails after the struct was allocated gives the struct back. *)
Lemma create_refused {A} (junk : A) (p p1 p2 : P) struct_sz n sz self cells :
  mp_inv p -> 0 <= struct_sz < 2 ^ 64 -> mp_alloc p struct_sz = (p1, self) -> self <> NULL ->
  0 < sz -> 0 <= n -> n * sz < 2 ^ 64 ->
  alloc_cells junk p1 n sz = (p2, NULL, cells) ->
  mp_inv (mp_free p2 self) /\ mp_live (mp_free p2 self) = mp_live p.
Proof.
  intros Hp Hs E1 Hself Hsz Hn Hb E2.
  destruct (mp_alloc_spec p struct_sz p1 self Hp Hs E1) as [Hp1 [[? _]|(_ & _ & Hfr1 & m1 & _ & Hl1)]];
    [done|].
  destruct (alloc_cells_spec junk p1 n sz p2 NULL cells Hp1 Hsz Hn Hb E2)
    as (Hp2 & [[_ Hl2]|[? _]] & _); [|done].
  destruct (mp_free_spec p2 self Hp2) as [Hf Hlf].
  { rewrite Hl2, Hl1, lookup_insert_eq. done. }
  split; [done|]. by rewrite Hlf, Hl2, Hl1, delete_insert_id.
Qed.

Lemma grow_cells {A} (junk : A) (p p1 : P) self old n sz a cells :
  mp_inv p -> owned p self old -> 0 < sz -> 0 <= n -> n * sz < 2 ^ 64 ->
  alloc_cells junk p n sz = (p1, a, cells) ->
  (a = NULL /\ mp_inv p1 /\ mp_live p1 = mp_live p /\ mp_alloc p (n * sz) = (p1, NULL)) \/
  (a <> NULL /\ zlen cells = n /\ n * sz <= PTRDIFF_MAX /\ mp_inv (mp_free p1 old) /\
   owned (mp_free p1 old) self a /\ frame (mp_free p1 old) self a = frame p self old).
Proof.
  intros Hp (Hold & Hself & Hne) Hsz Hn Hb Ha.
  destruct (alloc_cells_spec junk p n sz p1 a cells Hp Hsz Hn Hb Ha) as (Hp1 & Hok & Hc).
  destruct (decide (a = NULL)) as [->|Hnn].
  { left. destruct Hok as [[_ Hl]|[? _]]; [|done]. split_and!; [done..|].
    revert Ha. unfold alloc_cells. rewrite u64_small by nia.
    destruct (mp_alloc p _) as [p2 a2]. congruence. }
  right. destruct (Hc Hnn) as [Hlc Hmax].
  destruct (mp_replace_spec p p1 (n * sz) a old Hp1 Hok Hnn Hold) as (Hao & Hinv & m & _ & Hl).
  assert (mp_live p !! a = None) as Hfr by (destruct Hok as [[? _]|(_ & _ & ? & _)]; done).
  assert (a <> self) as Has. { intros E. rewrite <-E, Hfr in Hself. by destruct Hself. }
  split_and!; [done..| |].
  - split_and!; [| |done].
    + rewrite Hl, lookup_insert_eq. done.
    + rewrite Hl, lookup_insert_ne, lookup_delete_ne by done. done.
  - unfold frame. rewrite Hl, delete_insert_eq.
    rewrite (delete_id (delete _ _) a); [done|]. by rewrite lookup_delete_ne by done.
Qed.

Lemma destroy_blocks (p : P) self at_ :
  mp_inv p -> owned p self at_ ->
  mp_inv (mp_free (mp_free p at_) self) /\
  mp_live (mp_free (mp_free p at_) self) = frame p self at_.
Proof.
  intros Hp (Hat & Hself & Hne).
  destruct (mp_free_spec p at_ Hp Hat) as [Hp1 Hl1].
  destruct (mp_free_spec (mp_free p at_) self Hp1) as [Hp2 Hl2].
  { by rewrite Hl1, lookup_delete_ne by done. }
  split; [done|]. unfold frame. by rewrite Hl2, Hl1.
Qed.
(** ** Objects of many blocks *)

Lemma lookup_foldr_delete (m : gmap Z Z) l k :
  foldr delete m l !! k = if decide (k ∈ l) then None else m !! k.
Proof.
  induction l as [|a l IH]; cbn; [done|].
  destruct (decide (k = a)) as [->|Hne].
  - rewrite lookup_delete_eq, decide_True by (by left). done.
  - rewrite lookup_delete_ne, IH by done.
    assert (k ∈ a :: l <-> k ∈ l) by (rewrite elem_of_cons; tauto).
    repeat case_decide; tauto || done.
Qed.

Lemma foldr_delete_perm (m : gmap Z Z) l l' : l ≡ₚ l' -> foldr delete m l = foldr delete m l'.
Proof.
  intros Hp. apply map_eq. intros k. rewrite !lookup_foldr_delete.
  assert (k ∈ l <-> k ∈ l') by (by rewrite Hp). repeat case_decide; tauto || done.
Qed.

Lemma release_blocks (p : P) bs :
  mp_inv p -> NoDup bs -> (forall b, b ∈ bs -> is_Some (mp_live p !! b)) ->
  mp_inv (foldl mp_free p bs) /\ mp_live (foldl mp_free p bs) = foldr delete (mp_live p) bs.
Proof.
  revert p. induction bs as [|b bs IH]; intros p Hp Hnd Hl; cbn; [done|].
  apply NoDup_cons in Hnd as [Hb Hnd].
  destruct (mp_free_spec p b Hp) as [Hp1 Hl1]; [apply Hl; by left|].
  destruct (IH (mp_free p b)) as [Hp2 Hl2]; [done|done| |].
  - intros c Hc. rewrite Hl1, lookup_delete_ne by (by intros ->). apply Hl. by right.
  - split; [done|]. rewrite Hl2, Hl1. apply map_eq. intros k.
    rewrite lookup_foldr_delete, (lookup_delete (foldr delete _ _)), lookup_delete, lookup_foldr_delete.
    repeat case_decide; done.
Qed.

(** [took p p' bs]: [p'] is [p] with the blocks [bs] allocated. *)
Record took (p p' : P) (bs : list Z) : Prop := {
  tk_inv : mp_inv p';
  tk_nodup : NoDup bs;
  tk_live b : b ∈ bs -> is_Some (mp_live p' !! b);
  tk_fresh b : b ∈ bs -> mp_live p !! b = None;
  tk_rest : foldr delete (mp_live p') bs = mp_live p;
}.

Lemma took_nil (p : P) : mp_inv p -> took p p [].
Proof. intros Hp. constructor; [done|apply NoDup_nil_2|by intros b ?%elem_of_nil..|done]. Qed.

Lemma took_of_live (p p' : P) : mp_inv p' -> mp_live p' = mp_live p -> took p p' [].
Proof. intros Hp Hl. constructor; [done|apply NoDup_nil_2|by intros b ?%elem_of_nil..|done]. Qed.

Lemma took_perm (p p' : P) bs cs : took p p' bs -> bs ≡ₚ cs -> took p p' cs.
Proof.
  intros [Hp Hn Hl Hf Hr] Hc. constructor; [done|by rewrite <-Hc| | |].
  - intros b. rewrite <-Hc. apply Hl.
  - intros b. rewrite <-Hc. apply Hf.
  - by rewrite <-(foldr_delete_perm _ _ _ Hc).
Qed.

(** The order of the blocks does not matter. *)
#[export] Instance took_proper (p p' : P) : Proper (Permutation ==> iff) (took p p').
Proof. intros bs cs Hc. split; intros Ht; eapply took_perm; [done|done|done|by symmetry]. Qed.

Lemma took_alloc (p p' : P) n a :
  mp_inv p -> 0 <= n < 2 ^ 64 -> mp_alloc p n = (p', a) -> a <> NULL -> took p p' [a].
Proof.
  intros Hp Hn E Ha. destruct (mp_alloc_spec p n p' a Hp Hn E) as [Hp' [[? _]|(_ & _ & Hf & m & _ & Hl)]];
    [done|].
  constructor; [done|apply NoDup_singleton| | |].
  - intros b ->%list_elem_of_singleton. by rewrite Hl, lookup_insert_eq.
  - by intros b ->%list_elem_of_singleton.
  - cbn. by rewrite Hl, delete_insert_id.
Qed.

Lemma took_refused (p p' : P) n :
  mp_inv p -> 0 <= n < 2 ^ 64 -> mp_alloc p n = (p', NULL) -> took p p' [].
Proof.
  intros Hp Hn E. destruct (mp_alloc_spec p n p' NULL Hp Hn E) as [Hp' [[_ Hl]|[? _]]]; [|done].
  constructor; [done|apply NoDup_nil_2|by intros b ?%elem_of_nil..|done].
Qed.

Lemma took_app (p p1 p2 : P) bs cs : took p p1 bs -> took p1 p2 cs -> took p p2 (cs ++ bs).
Proof.
  intros [H1 Hn1 Hl1 Hf1 Hr1] [H2 Hn2 Hl2 Hf2 Hr2].
  assert (Hdis : forall b, b ∈ bs -> b ∉ cs).
  { intros b Hb Hc. destruct (Hl1 b Hb) as [? E]. by rewrite (Hf2 b Hc) in E. }
  assert (Hkeep : forall b, b ∉ cs -> mp_live p2 !! b = mp_live p1 !! b).
  { intros b Hb. rewrite <-Hr2, lookup_foldr_delete. by rewrite decide_False. }
  constructor; [done| | | |].
  - apply NoDup_app. split; [done|]. split; [|done]. intros b Hc Hb. by apply (Hdis b).
  - intros b [Hc|Hb]%elem_of_app; [by apply Hl2|]. rewrite Hkeep by auto. by apply Hl1.
  - intros b [Hc|Hb]%elem_of_app; [|by apply Hf1].
    rewrite <-Hr1, lookup_foldr_delete. case_decide; [done|]. by apply Hf2.
  - rewrite (foldr_delete_perm _ _ (bs ++ cs)) by apply Permutation_app_comm.
    by rewrite foldr_app, Hr2.
Qed.

Lemma took_free (p p' : P) b bs : took p p' (b :: bs) -> took p (mp_free p' b) bs.
Proof.
  intros [Hp Hn Hl Hf Hr]. apply NoDup_cons in Hn as [Hb Hn].
  destruct (mp_free_spec p' b Hp) as [Hi Hl']; [apply Hl; by left|].
  constructor; [done|done| |intros c Hc; apply Hf; by right|].
  - intros c Hc. rewrite Hl', lookup_delete_ne by (by intros ->). apply Hl. by right.
  - rewrite <-Hr, Hl'. cbn. apply map_eq. intros k.
    rewrite lookup_foldr_delete, !lookup_delete, lookup_foldr_delete. repeat case_decide; done.
Qed.

(** Giving everything back, in any order. *)
Lemma took_release (p p' : P) bs cs :
  took p p' bs -> bs ≡ₚ cs ->
  mp_inv (foldl mp_free p' cs) /\ mp_live (foldl mp_free p' cs) = mp_live p.
Proof.
  intros [Hp Hn Hl _ Hr] Hc. destruct (release_blocks p' cs) as [Hi Hl']; [done|by rewrite <-Hc| |].
  { intros b Hb. apply Hl. by rewrite Hc. }
  split; [done|]. by rewrite Hl', <-Hr, (foldr_delete_perm _ _ _ Hc).
Qed.

Lemma alloc_cells_refused {A} (junk : A) (p p' : P) n sz l :
  alloc_cells junk p n sz = (p', NULL, l) -> mp_alloc p (u64 (n * sz)) = (p', NULL).
Proof. unfold alloc_cells. destruct (mp_alloc p _). by intros [= <- <- <-]. Qed.

Lemma took_cells {A} (junk : A) (p p' : P) n sz a l :
  mp_inv p -> alloc_cells junk p n sz = (p', a, l) ->
  (a = NULL /\ took p p' []) \/
  (a <> NULL /\ took p p' [a] /\ l = replicate (Z.to_nat (u64 (n * sz) / sz)) junk).
Proof.
  intros Hp. unfold alloc_cells. destruct (mp_alloc p _) as [p1 a1] eqn:E. intros [= <- <- <-].
  pose proof (u64_range (n * sz)). destruct (Z.eqb_spec a1 NULL) as [->|Ha].
  - left. split; [done|]. by eapply took_refused.
  - right. split; [done|]. split; [|done]. by eapply took_alloc.
Qed.
End laws.

(** ** A pool that remembers refusals

    [evolves p p']: [p'] comes from [p] by allocations and releases. [logged P] is the
    pool [P] with a flag that is set by the first refused allocation and stays set:
    what holds as long as memory lasts is stated as "the flag is not set". *)

Definition pool_step {P} `{MPool P} (p p' : P) : Prop :=
  (exists n a, mp_alloc p n = (p', a)) \/ (exists a, p' = mp_free p a).
Definition evolves {P} `{MPool P} : P -> P -> Prop := rtc pool_step.

Lemma evolves_alloc {P} `{MPool P} (p p' : P) n a : mp_alloc p n = (p', a) -> evolves p p'.
Proof. intros E. apply rtc_once. left. eauto. Qed.
Lemma evolves_free {P} `{MPool P} (p : P) a : evolves p (mp_free p a).
Proof. apply rtc_once. right. eauto. Qed.
Lemma evolves_cells {P A} `{MPool P} (junk : A) (p p' : P) n sz a l :
  alloc_cells junk p n sz = (p', a, l) -> evolves p p'.
Proof.
  unfold alloc_cells. destruct (mp_alloc p _) as [q b] eqn:E. intros [= <- <- <-]. by eapply evolves_alloc.
Qed.

Record logged (P : Type) := Logged { lg_pool : P; lg_refused : bool }.
Arguments Logged {P}.
Arguments lg_pool {P}.
Arguments lg_refused {P}.

Section logged.
Context {P : Type} `{MPoolLaws P}.

#[export] Instance logged_pool : MPool (logged P) := {|
  mp_alloc := fun p n => let '(q, a) := mp_alloc (lg_pool p) n in (Logged q (lg_refused p || (a =? NULL)), a);
  mp_free := fun p a => Logged (mp_free (lg_pool p) a) (lg_refused p);
  mp_live := fun p => mp_live (lg_pool p);
  mp_inv := fun p => mp_inv (lg_pool p) |}.

#[export] Instance logged_laws : MPoolLaws (logged P).
Proof.
  split; cbn.
  - intros [p b] n p' a Hp Hn. cbn. destruct (mp_alloc p n) as [q a'] eqn:E. intros [= <- <-]. cbn.
    exact (mp_alloc_spec p n q a' Hp Hn E).
  - intros [p b] a. cbn. apply mp_free_spec.
  - intros [p b]. cbn. by rewrite mp_free_null.
  - intros [p b] a b' m n. cbn. apply mp_disjoint.
  - intros [p b] a m. cbn. apply mp_range.
Qed.

Lemma refused_stays (p p' : logged P) : evolves p p' -> lg_refused p = true -> lg_refused p' = true.
Proof.
  induction 1 as [|p q r [(n & a & E)|(a & ->)] _ IH]; [done| |].
  - intros Hp. apply IH. cbn in E. destruct (mp_alloc (lg_pool p) n) as [q' a']. injection E as <- <-. cbn. by rewrite Hp.
  - intros Hp. by apply IH.
Qed.

Lemma refused_logged (p p' : logged P) n : mp_alloc p n = (p', NULL) -> lg_refused p' = true.
Proof.
  cbn. destruct (mp_alloc (lg_pool p) n) as [q a]. intros [= <- ->]. cbn. by rewrite orb_true_r.
Qed.
End logged.

(** ** A minimal instance

    A bump allocator over a bounded address range, for concrete runs. *)
Record bump := Bump { bump_next : Z; bump_limit : Z; bump_live : gmap Z Z }.

Definition bump_alloc (p : bump) (n : Z) : bump * Z :=
  if decide (0 < n /\ bump_next p + n <= bump_limit p)
  then (Bump (bump_next p + n) (bump_limit p) (<[bump_next p := n]> (bump_live p)), bump_next p)
  else (p, NULL).

Definition bump_free (p : bump) (a : Z) : bump :=
  if a =? NULL then p else Bump (bump_next p) (bump_limit p) (delete a (bump_live p)).

Definition bump_inv (p : bump) : Prop :=
  0 < bump_next p <= bump_limit p /\ bump_limit p <= PTRDIFF_MAX /\
  (forall a m, bump_live p !! a = Some m -> 0 < a /\ 0 < m /\ a + m <= bump_next p) /\
  (forall a b m n, a <> b -> bump_live p !! a = Some m -> bump_live p !! b = Some n ->
     a + m <= b \/ b + n <= a).

#[export] Instance bump_pool : MPool bump := {|
  mp_alloc := bump_alloc; mp_free := bump_free; mp_live := bump_live; mp_inv := bump_inv |}.

#[export] Instance bump_laws : MPoolLaws bump.
Proof.
  split; cbn.
  - intros p n p' a (Hpos & Hlim & Hin & Hdis) Hn. unfold bump_alloc.
    case_decide as E; intros [= <- <-]; cbn.
    + assert (bump_live p !! bump_next p = None) as Hfr.
      { destruct (bump_live p !! bump_next p) as [m|] eqn:Em; [|done]. apply Hin in Em. lia. }
      split; [|right; unfold NULL; cbn; repeat split; try done; try lia; by exists n].
      unfold bump_inv; cbn. split; [lia|]. split; [done|]. split.
      * intros a m. rewrite lookup_insert_Some. intros [[<- <-]|[_ Hm%Hin]]; lia.
      * intros a b m k Hne. rewrite !lookup_insert_Some.
        intros [[<- <-]|[_ Hm]] [[<- <-]|[_ Hk]]; try done.
        -- apply Hin in Hk. lia.
        -- apply Hin in Hm. lia.
        -- eauto.
    + split; [done|]. by left.
  - intros p a (Hpos & Hlim & Hin & Hdis) [m Hm].
    assert (a <> NULL) by (apply Hin in Hm; unfold NULL; lia).
    unfold bump_free. rewrite (proj2 (Z.eqb_neq a NULL)) by done. cbn. split; [|done].
    unfold bump_inv; cbn. split; [done|]. split; [done|]. split.
    + intros b k [_ Hk]%lookup_delete_Some. eauto.
    + intros b c k1 k2 Hne [_ ?]%lookup_delete_Some [_ ?]%lookup_delete_Some. eauto.
  - done.
  - intros p a b m n (_ & _ & _ & Hdis) ???. eauto.
  - intros p a m (Hpos & Hlim & Hin & _) Hm%Hin. unfold PTRDIFF_MAX in Hlim. lia.
Qed.

(** An empty pool on [n] bytes. *)
Definition bump_new (n : Z) : bump := Bump 4096 (4096 + n) ∅.

Lemma bump_new_inv n : 0 <= n < 2 ^ 32 -> mp_inv (bump_new n).
Proof.
  intros Hn. unfold mp_inv; cbn. unfold bump_inv, PTRDIFF_MAX; cbn.
  split; [lia|]. split; [lia|]. split.
  - by intros ?? ?%lookup_empty_Some.
  - by intros ????? ?%lookup_empty_Some.
Qed.
