(* ===== verification/Mpool.v ===== *)
(** * vox_mpool.c: the memory pool

    Ten slots of blocks of fixed size, carved out of chunks from malloc, and blocks of
    more than 8 KiB that have a chunk of their own. The structures the pool threads
    through the memory it manages (the links of the free lists, the metadata in front of
    a block, the chunk nodes) are cells of an explicit store, so that a block's metadata
    and its free-list link share their address, as in the code. malloc and free are any
    heap that meets the interface of Alloc.v; the pool is proved to meet it too. *)

From stdpp Require Import functions.
From S2P Require Import Prelude Alloc.

Module Mpool.

(** src/vox_mpool.c:16-19: BLOCK_SIZES *)
Definition BLOCK_SIZES : list Z := [16; 32; 64; 128; 256; 512; 1024; 2048; 4096; 8192].
Definition INITIAL_BLOCK_COUNT : Z := 64.

Definition sizeof_chunk : Z := 24.
Definition sizeof_meta : Z := 8.
Definition sizeof_large : Z := 16.
(** Ten slots of 48 bytes, the counters and a mutex of 40 bytes. *)
Definition sizeof_mpool : Z := 560.

(** What the pool keeps in memory: the link of a free block, the metadata of a block in
    use (both in the 8 bytes before the user's bytes), a chunk node, the header of a
    large block.

    src/vox_mpool.c:24-48: vox_block_header_t *)
Inductive cell :=
| Header (next : Z)
| Meta (slot_idx : Z)
| Chunk (next prev memory : Z)
| Large (size chunk : Z).

#[export] Instance cell_eq_dec : EqDecision cell.
Proof. solve_decision. Defined.

(** src/vox_mpool.c:51-58: vox_pool_slot_t *)
Record vox_pool_slot := {
  block_size : Z;
  user_size : Z;
  free_list : Z;
  chunks : Z;
  total_blocks : Z;
  free_blocks : Z;
}.

(** The pool, the heap it takes memory from, the cells it keeps there ([mem]) and the
    bytes of the users' blocks ([bytes]).

    src/vox_mpool.c:61-69: struct vox_mpool *)
Record vox_mpool {H : Type} := {
  self : Z;
  slots : list vox_pool_slot;
  total_used : Z;
  large_chunks : Z;
  thread_safe : bool;
  initial_block_count : Z;
  heap : H;
  mem : gmap Z cell;
  bytes : Z -> Z;
}.
Arguments vox_mpool : clear implicits.

Section setters.
Context {H : Type}.
Implicit Type p : vox_mpool H.

Definition with_heap p (h : H) (m : gmap Z cell) : vox_mpool H :=
  {| self := self p; slots := slots p; total_used := total_used p; large_chunks := large_chunks p;
     thread_safe := thread_safe p; initial_block_count := initial_block_count p; heap := h; mem := m; bytes := bytes p |}.
Definition with_slots p (s : list vox_pool_slot) : vox_mpool H :=
  {| self := self p; slots := s; total_used := total_used p; large_chunks := large_chunks p;
     thread_safe := thread_safe p; initial_block_count := initial_block_count p; heap := heap p; mem := mem p; bytes := bytes p |}.
Definition with_used p (n : Z) : vox_mpool H :=
  {| self := self p; slots := slots p; total_used := n; large_chunks := large_chunks p;
     thread_safe := thread_safe p; initial_block_count := initial_block_count p; heap := heap p; mem := mem p; bytes := bytes p |}.
Definition with_large p (c : Z) : vox_mpool H :=
  {| self := self p; slots := slots p; total_used := total_used p; large_chunks := c;
     thread_safe := thread_safe p; initial_block_count := initial_block_count p; heap := heap p; mem := mem p; bytes := bytes p |}.
Definition with_bytes p (b : Z -> Z) : vox_mpool H :=
  {| self := self p; slots := slots p; total_used := total_used p; large_chunks := large_chunks p;
     thread_safe := thread_safe p; initial_block_count := initial_block_count p; heap := heap p; mem := mem p; bytes := b |}.
End setters.

Definition with_free (s : vox_pool_slot) (fl free : Z) : vox_pool_slot :=
  {| block_size := block_size s; user_size := user_size s; free_list := fl; chunks := chunks s;
     total_blocks := total_blocks s; free_blocks := free |}.

(** ** The store *)

Definition header_next (m : gmap Z cell) (a : Z) : option Z :=
  match m !! a with Some (Header n) => Some n | _ => None end.
Definition get_meta (m : gmap Z cell) (a : Z) : option Z :=
  match m !! a with Some (Meta i) => Some i | _ => None end.
Definition get_chunk (m : gmap Z cell) (a : Z) : option (Z * Z * Z) :=
  match m !! a with Some (Chunk n p c) => Some (n, p, c) | _ => None end.
Definition get_large (m : gmap Z cell) (a : Z) : option (Z * Z) :=
  match m !! a with Some (Large s c) => Some (s, c) | _ => None end.

(** Writing into memory the pool already uses. *)
Definition overwrite (m : gmap Z cell) (a : Z) (c : cell) : option (gmap Z cell) :=
  match m !! a with Some _ => Some (<[a := c]> m) | None => None end.

Section operations.
Context {H : Type} `{MPool H} (junk : Z).
Implicit Types (p : vox_mpool H) (h : H) (m : gmap Z cell).

(** Writing [n] bytes into the block [base] that malloc returned: they must lie in it. *)
Definition write_new h (base : Z) m (a n : Z) (c : cell) : option (gmap Z cell) :=
  match mp_live h !! base with
  | Some k => if (base <=? a) && (a + n <=? base + k) then Some (<[a := c]> m) else None
  | None => None
  end.

(** [free(base)]: what the store kept in the block is gone. *)
Definition release h m (base : Z) : H * gmap Z cell :=
  let size := default 0 (mp_live h !! base) in
  (mp_free h base, filter (fun ac => ~ (base <= ac.1 < base + size)) m).

(** src/vox_mpool.c: vox_mpool_get_slot_index *)
Definition vox_mpool_get_slot_index (size : Z) : Z :=
  if size <=? 16 then 0 else
  if size <=? 32 then 1 else
  if size <=? 64 then 2 else
  if size <=? 128 then 3 else
  if size <=? 256 then 4 else
  if size <=? 512 then 5 else
  if size <=? 1024 then 6 else
  if size <=? 2048 then 7 else
  if size <=? 4096 then 8 else
  if size <=? 8192 then 9 else -1.

(** One round of the loop that links the blocks of a new chunk: the store, the first and
    the last block, the next block.

    src/vox_mpool.c:137-146: vox_mpool_expand_slot *)
Definition link_block h (memory block_size_ i : Z) (s : gmap Z cell * Z * Z * Z) : option (gmap Z cell * Z * Z * Z) :=
  let '(m, first, last, header) := s in
  '(m, first) ← (if i =? 0 then Some (m, header)
                 else m ← write_new h memory m last 8 (Header header); Some (m, first));
  Some (m, first, header, header + block_size_).

(** src/vox_mpool.c: vox_mpool_expand_slot *)
Definition vox_mpool_expand_slot h m (slot : vox_pool_slot) (block_count : Z)
  : option (H * gmap Z cell * vox_pool_slot * Z) :=
  let block_size_ := block_size slot in
  let chunk_size := u64 (block_size_ * block_count) in
  let '(h, memory) := mp_alloc h (u64 (chunk_size + sizeof_chunk)) in
  if memory =? NULL then Some (h, m, slot, -1) else
  let chunk_memory := memory + sizeof_chunk in
  m ← write_new h memory m memory sizeof_chunk (Chunk (chunks slot) junk chunk_memory);
  '(m, first, last, _) ←
    for_ (Z.to_nat block_count) 0 (link_block h memory block_size_) (m, NULL, NULL, chunk_memory);
  '(m, fl) ← (if negb (last =? NULL) then m ← write_new h memory m last 8 (Header (free_list slot)); Some (m, first)
              else Some (m, free_list slot));
  Some (h, m, {| block_size := block_size slot; user_size := user_size slot; free_list := fl; chunks := memory;
                 total_blocks := u64 (total_blocks slot + block_count);
                 free_blocks := u64 (free_blocks slot + block_count) |}, 0).

(** [mutex_ok]: whether vox_mutex_create succeeds. A config is [(thread_safe, initial_block_count)].

    src/vox_mpool.c: vox_mpool_create_with_config *)
Definition vox_mpool_create_with_config h (config : option (bool * Z)) (mutex_ok : bool) : H * option (vox_mpool H) :=
  let '(h, pool) := mp_alloc h sizeof_mpool in
  if pool =? NULL then (h, None) else
  let safe := match config with Some (safe, _) => safe | None => false end in
  if safe && negb mutex_ok then (mp_free h pool, None) else
  let count := match config with Some (_, n) => if 0 <? n then n else INITIAL_BLOCK_COUNT | None => INITIAL_BLOCK_COUNT end in
  (h, Some {| self := pool;
              slots := map (fun size => {| block_size := size + sizeof_meta; user_size := size; free_list := NULL;
                                           chunks := NULL; total_blocks := 0; free_blocks := 0 |}) BLOCK_SIZES;
              total_used := 0; large_chunks := NULL; thread_safe := safe; initial_block_count := count;
              heap := h; mem := ∅; bytes := fun _ => junk |}).

(** src/vox_mpool.c: vox_mpool_create *)
Definition vox_mpool_create h : H * option (vox_mpool H) :=
  vox_mpool_create_with_config h (Some (false, 0)) true.

(** [c->prev = prev] and [c->next = next] for a chunk node. *)
Definition set_prev m (c prev : Z) : option (gmap Z cell) :=
  '(n, _, k) ← get_chunk m c; Some (<[c := Chunk n prev k]> m).
Definition set_next m (c next : Z) : option (gmap Z cell) :=
  '(_, b, k) ← get_chunk m c; Some (<[c := Chunk next b k]> m).

(** A block of more than 8 KiB.

    src/vox_mpool.c:214-254: vox_mpool_alloc_internal *)
Definition alloc_large p (size : Z) : option (vox_mpool H * Z) :=
  let header_size := sizeof_chunk + sizeof_large + sizeof_meta in
  if SIZE_MAX - header_size <? size then Some (p, NULL) else
  let '(h, memory) := mp_alloc (heap p) (u64 (header_size + size)) in
  if memory =? NULL then Some (with_heap p h (mem p), NULL) else
  let large_header := memory + sizeof_chunk in
  m ← write_new h memory (mem p) large_header sizeof_large (Large size memory);
  let meta := large_header + sizeof_large in
  m ← write_new h memory m meta sizeof_meta (Meta 255);
  m ← write_new h memory m memory sizeof_chunk (Chunk (large_chunks p) NULL large_header);
  m ← (if large_chunks p =? NULL then Some m else set_prev m (large_chunks p) memory);
  let p := with_large (with_heap p h m) memory in
  Some (with_used p (u64 (total_used p + size)), meta + sizeof_meta).

(** src/vox_mpool.c: vox_mpool_alloc_internal *)
Definition vox_mpool_alloc_internal p (size : Z) : option (vox_mpool H * Z) :=
  if size =? 0 then Some (p, NULL) else
  let slot_idx := vox_mpool_get_slot_index size in
  if slot_idx <? 0 then alloc_large p size else
  slot ← (slots p).[slot_idx];
  '(p, slot, rc) ←
    (if free_list slot =? NULL then
       '(h, m, slot, rc) ← vox_mpool_expand_slot (heap p) (mem p) slot (initial_block_count p);
       ss ← (slots p).[slot_idx <- slot];
       Some (with_slots (with_heap p h m) ss, slot, rc)
     else Some (p, slot, 0));
  if negb (rc =? 0) then Some (p, NULL) else
  let block := free_list slot in
  next ← header_next (mem p) block;
  ss ← (slots p).[slot_idx <- with_free slot next (u64 (free_blocks slot - 1))];
  m ← overwrite (mem p) block (Meta (u8 slot_idx));
  let p := with_slots (with_heap p (heap p) m) ss in
  Some (with_used p (u64 (total_used p + user_size slot)), block + sizeof_meta).

(** The lock is taken and given back around the internal version.

    src/vox_mpool.c: vox_mpool_alloc *)
Definition vox_mpool_alloc p (size : Z) : option (vox_mpool H * Z) :=
  if size =? 0 then Some (p, NULL) else vox_mpool_alloc_internal p size.

(** A large block: its chunk node leaves the list and the memory goes back to the heap.

    src/vox_mpool.c:299-321: vox_mpool_free_internal *)
Definition free_large p (meta : Z) : option (vox_mpool H) :=
  let large_header := meta - sizeof_large in
  '(size, chunk) ← get_large (mem p) large_header;
  '(next, prev, _) ← get_chunk (mem p) chunk;
  '(m, head) ← (if negb (prev =? NULL) then m ← set_next (mem p) prev next; Some (m, large_chunks p)
                else Some (mem p, next));
  m ← (if negb (next =? NULL) then set_prev m next prev else Some m);
  let '(h, m) := release (heap p) m (large_header - sizeof_chunk) in
  let p := with_large (with_heap p h m) head in
  Some (with_used p (u64 (total_used p - size))).

(** src/vox_mpool.c: vox_mpool_free_internal *)
Definition vox_mpool_free_internal p (ptr : Z) : option (vox_mpool H) :=
  if ptr =? NULL then Some p else
  let meta := ptr - sizeof_meta in
  slot_idx ← get_meta (mem p) meta;
  if slot_idx =? 255 then free_large p meta else
  if 10 <=? slot_idx then Some p else
  slot ← (slots p).[slot_idx];
  m ← overwrite (mem p) meta (Header (free_list slot));
  ss ← (slots p).[slot_idx <- with_free slot meta (u64 (free_blocks slot + 1))];
  let p := with_slots (with_heap p (heap p) m) ss in
  Some (with_used p (u64 (total_used p - user_size slot))).

(** src/vox_mpool.c: vox_mpool_free *)
Definition vox_mpool_free p (ptr : Z) : option (vox_mpool H) :=
  if ptr =? NULL then Some p else vox_mpool_free_internal p ptr.

(** src/vox_mpool.c: vox_mpool_get_size *)
Definition vox_mpool_get_size p (ptr : Z) : option Z :=
  if ptr =? NULL then Some 0 else
  slot_idx ← get_meta (mem p) (ptr - sizeof_meta);
  if slot_idx =? 255 then '(size, _) ← get_large (mem p) (ptr - sizeof_meta - sizeof_large); Some size else
  if 10 <=? slot_idx then Some 0 else
  slot ← (slots p).[slot_idx]; Some (user_size slot).

(** [memcpy(dst, src, n)] on the users' bytes; the blocks are different, so they do not overlap. *)
Definition copy_bytes (b : Z -> Z) (dst src n : Z) : Z -> Z :=
  fun a => if (dst <=? a) && (a <? dst + n) then b (src + (a - dst)) else b a.

(** src/vox_mpool.c: vox_mpool_realloc *)
Definition vox_mpool_realloc p (ptr new_size : Z) : option (vox_mpool H * Z) :=
  if ptr =? NULL then vox_mpool_alloc p new_size else
  if new_size =? 0 then p ← vox_mpool_free p ptr; Some (p, NULL) else
  let meta := ptr - sizeof_meta in
  old_slot_idx ← get_meta (mem p) meta;
  if negb (old_slot_idx =? 255) && (10 <=? old_slot_idx) then Some (p, NULL) else
  old_size ← (if old_slot_idx =? 255 then '(size, _) ← get_large (mem p) (meta - sizeof_large); Some size
              else slot ← (slots p).[old_slot_idx]; Some (user_size slot));
  let new_slot_idx := vox_mpool_get_slot_index new_size in
  if (old_slot_idx =? new_slot_idx) && (old_slot_idx <? 10) then Some (p, ptr) else
  '(p, new_ptr) ← vox_mpool_alloc_internal p new_size;
  if new_ptr =? NULL then Some (p, NULL) else
  let copy_size := if (old_size =? 0) || (new_size <? old_size) then new_size else old_size in
  let p := if 0 <? copy_size then with_bytes p (copy_bytes (bytes p) new_ptr ptr copy_size) else p in
  p ← vox_mpool_free_internal p ptr;
  Some (p, new_ptr).

(** [while (c) { next = c->next; free(where(c)); c = next; }] over a list of chunk nodes. *)
Fixpoint free_chunks (fuel : nat) (where_ : Z -> Z -> Z) h m (c : Z) : option (H * gmap Z cell) :=
  if c =? NULL then Some (h, m) else
  match fuel with
  | O => None
  | S fuel =>
      '(next, _, memory) ← get_chunk m c;
      let '(h, m) := release h m (where_ c memory) in
      free_chunks fuel where_ h m next
  end.

(** Every block of a chunk goes on the free list.

    src/vox_mpool.c:467-486: vox_mpool_reset *)
Fixpoint refill (fuel : nat) m (count bs fl c : Z) : option (gmap Z cell * Z) :=
  if c =? NULL then Some (m, fl) else
  match fuel with
  | O => None
  | S fuel =>
      '(next, _, memory) ← get_chunk m c;
      '(m, fl, _) ← for_ (Z.to_nat count) 0 (fun _ '(m, fl, ptr) =>
                      m ← overwrite m ptr (Header fl); Some (m, ptr, ptr + bs)) (m, fl, memory);
      refill fuel m count bs fl next
  end.

(** Each loop over chunk nodes is bounded by the number of cells in the store.

    src/vox_mpool.c: vox_mpool_reset *)
Definition vox_mpool_reset p : option (vox_mpool H) :=
  let fuel := size (mem p) in
  '(h, m) ← free_chunks fuel (fun c _ => c) (heap p) (mem p) (large_chunks p);
  let p := with_large (with_heap p h m) NULL in
  p ← for_ 10 0 (fun i p =>
        slot ← (slots p).[i];
        '(m, fl) ← refill fuel (mem p) (initial_block_count p) (block_size slot) NULL (chunks slot);
        ss ← (slots p).[i <- with_free slot fl (total_blocks slot)];
        Some (with_slots (with_heap p (heap p) m) ss)) p;
  Some (with_used p 0).

(** src/vox_mpool.c: vox_mpool_destroy *)
Definition vox_mpool_destroy p : option H :=
  let fuel := size (mem p) in
  '(h, m) ← for_ 10 0 (fun i '(h, m) =>
              slot ← (slots p).[i]; free_chunks fuel (fun c _ => c) h m (chunks slot)) (heap p, mem p);
  '(h, m) ← free_chunks fuel (fun _ memory => memory - sizeof_chunk) h m (large_chunks p);
  Some (mp_free h (self p)).
End operations.

(** ** The blocks in use

    The pool has no list of them: a block is in use when there is metadata in front of
    it. Its size is that of its slot, or what the large header says. *)

Definition usable (m : gmap Z cell) (k : Z) : option Z :=
  match m !! k with
  | Some (Meta i) => if i =? 255 then fst <$> get_large m (k - sizeof_large) else BLOCK_SIZES.[i]
  | _ => None
  end.

Definition live_of (m : gmap Z cell) : gmap Z Z :=
  kmap (fun k => k + sizeof_meta) (map_imap (fun k _ => usable m k) m).

#[local] Instance shift_inj n : Inj (=) (=) (fun k : Z => k + n).
Proof. intros x y. lia. Qed.

Lemma live_of_lookup m a : live_of m !! a = usable m (a - sizeof_meta).
Proof.
  unfold live_of. replace a with (a - sizeof_meta + sizeof_meta) at 1 by lia.
  rewrite (lookup_kmap (fun k => k + sizeof_meta)). rewrite map_lookup_imap. unfold usable.
  by destruct (m !! (a - sizeof_meta)).
Qed.

(** The bytes in use. *)
Definition msum (l : gmap Z Z) : Z := map_fold (fun _ v s => v + s) 0 l.

Lemma msum_insert l a v : l !! a = None -> msum (<[a := v]> l) = v + msum l.
Proof. intros Ha. unfold msum. rewrite map_fold_insert_L; [done|lia|done]. Qed.

Lemma msum_delete l a v : l !! a = Some v -> msum (delete a l) = msum l - v.
Proof.
  intros Ha. pose proof (msum_insert (delete a l) a v (lookup_delete_eq _ _)) as E.
  rewrite insert_delete_id in E by done. lia.
Qed.

(** ** Linked structures in the store *)

Fixpoint hchain (m : gmap Z cell) (a : Z) (l : list Z) : Prop :=
  match l with [] => a = NULL | b :: l => a = b /\ exists n, m !! b = Some (Header n) /\ hchain m n l end.
Fixpoint cchain (m : gmap Z cell) (a : Z) (l : list Z) : Prop :=
  match l with
  | [] => a = NULL
  | c :: l => a = c /\ exists n pv, m !! c = Some (Chunk n pv (c + sizeof_chunk)) /\ cchain m n l
  end.
Fixpoint dchain (m : gmap Z cell) (prev a : Z) (l : list Z) : Prop :=
  match l with
  | [] => a = NULL
  | c :: l => a = c /\ exists n, m !! c = Some (Chunk n prev (c + sizeof_chunk)) /\ dchain m c n l
  end.

Lemma hchain_frame m m' a l : (forall b, b ∈ l -> m' !! b = m !! b) -> hchain m a l -> hchain m' a l.
Proof.
  revert a. induction l as [|b l IH]; intros a Hm; cbn; [done|]. intros (-> & n & E & Hc). split; [done|].
  exists n. rewrite Hm by (by left). split; [done|]. apply IH; [|done]. intros c Hc'. apply Hm. by right.
Qed.
Lemma cchain_frame m m' a l : (forall b, b ∈ l -> m' !! b = m !! b) -> cchain m a l -> cchain m' a l.
Proof.
  revert a. induction l as [|b l IH]; intros a Hm; cbn; [done|]. intros (-> & n & pv & E & Hc). split; [done|].
  exists n, pv. rewrite Hm by (by left). split; [done|]. apply IH; [|done]. intros c Hc'. apply Hm. by right.
Qed.
Lemma dchain_frame m m' prev a l : (forall b, b ∈ l -> m' !! b = m !! b) -> dchain m prev a l -> dchain m' prev a l.
Proof.
  revert prev a. induction l as [|b l IH]; intros prev a Hm; cbn; [done|]. intros (-> & n & E & Hc). split; [done|].
  exists n. rewrite Hm by (by left). split; [done|]. apply IH; [|done]. intros c Hc'. apply Hm. by right.
Qed.

Lemma hchain_head m a l : hchain m a l -> (forall b, b ∈ l -> b <> NULL) -> a = NULL -> l = [].
Proof. destruct l as [|b l]; [done|]. intros [-> _] Hb Ha. exfalso. apply (Hb b); [by left|done]. Qed.

(** ** The layout of a pool

    [sm]: the chunks of the slots with their slot, newest first; [fr i]: the free list of
    slot [i]; [lg]: the chunk nodes of the large blocks, in list order. *)

Definition bs (i : Z) : Z := 2 ^ (4 + i) + sizeof_meta.
Definition chunks_of (sm : list (Z * Z)) (i : Z) : list Z := fst <$> filter (fun ci => ci.2 = i) sm.
Definition is_block (count : Z) (sm : list (Z * Z)) (i b : Z) : Prop :=
  exists c j, (c, i) ∈ sm /\ 0 <= j < count /\ b = c + sizeof_chunk + j * bs i.

Class Heap (H : Type) `{MPool H} := {
  heap_laws :: MPoolLaws H;
  heap_positive (h : H) a n : mp_inv h -> mp_live h !! a = Some n -> 0 < a;
}.

Section layout.
Context {H : Type} `{Heap H} (h0 : H).
Implicit Types (p : vox_mpool H) (h : H) (m : gmap Z cell) (sm : list (Z * Z)) (fr : Z -> list Z) (lg : list Z).

(** A block the heap gave out, of at least [n] bytes. *)
Definition region h (c n : Z) : Prop := exists k, mp_live h !! c = Some k /\ n <= k.

Definition slot_ok m count sm fr (i : Z) (s : vox_pool_slot) : Prop :=
  block_size s = bs i /\ user_size s = 2 ^ (4 + i) /\ hchain m (free_list s) (fr i) /\
  cchain m (chunks s) (chunks_of sm i) /\
  total_blocks s = u64 (count * zlen (chunks_of sm i)) /\ free_blocks s = u64 (zlen (fr i)).

(** [h0]: the heap before the pool was created. *)
Record pool_inv p sm fr lg : Prop := {
  pi_heap0 : mp_inv h0;
  pi_took : took h0 (heap p) (self p :: map fst sm ++ lg);
  pi_count : 1 <= initial_block_count p <= 2 ^ 40;
  pi_slots : zlen (slots p) = 10;
  pi_slot i s : (slots p).[i] = Some s -> slot_ok (mem p) (initial_block_count p) sm fr i s;
  pi_small c i : (c, i) ∈ sm -> 0 <= i < 10 /\ region (heap p) c (sizeof_chunk + initial_block_count p * bs i);
  pi_block i b : is_block (initial_block_count p) sm i b -> b ∈ fr i \/ mem p !! b = Some (Meta i);
  pi_free i b : b ∈ fr i -> is_block (initial_block_count p) sm i b;
  pi_nodup i : NoDup (fr i);
  pi_list : dchain (mem p) NULL (large_chunks p) lg;
  pi_large c : c ∈ lg -> exists n, mem p !! (c + 24) = Some (Large n c) /\ mem p !! (c + 40) = Some (Meta 255) /\
    region (heap p) c (48 + n) /\ 8192 < n;
  pi_cells a x : mem p !! a = Some x -> (exists i, (a, i) ∈ sm) \/ (exists i, is_block (initial_block_count p) sm i a) \/
    (exists c, c ∈ lg /\ (a = c \/ a = c + 24 \/ a = c + 40));
  pi_used : total_used p = u64 (msum (live_of (mem p)));
}.

(** ** Where the cells are *)

(** [a] is the cell at offset [o] of the chunk [c]. *)
Definition spot count sm lg (a c o : Z) : Prop :=
  a = c + o /\
  ((exists i, (c, i) ∈ sm /\ 0 <= i < 10 /\ (o = 0 \/ exists j, 0 <= j < count /\ o = sizeof_chunk + j * bs i)) \/
   (c ∈ lg /\ (o = 0 \/ o = 24 \/ o = 40))).

Lemma bs_range i : 0 <= i < 10 -> 24 <= bs i <= 8200.
Proof.
  intros Hi. unfold bs, sizeof_meta. assert (2 ^ 4 <= 2 ^ (4 + i)) by (apply Z.pow_le_mono_r; lia).
  assert (2 ^ (4 + i) <= 2 ^ 13) by (apply Z.pow_le_mono_r; lia). lia.
Qed.

Lemma region_inv p sm fr lg : pool_inv p sm fr lg -> mp_inv (heap p).
Proof. intros Hp. apply (pi_took _ _ _ _ Hp). Qed.

Lemma owner_same h c1 n1 c2 n2 o1 o2 :
  mp_inv h -> region h c1 n1 -> region h c2 n2 -> 0 <= o1 < n1 -> 0 <= o2 < n2 -> c1 + o1 = c2 + o2 -> c1 = c2.
Proof.
  intros Hh (k1 & E1 & HA) (k2 & E2 & HB) Ho1 Ho2 E. destruct (decide (c1 = c2)) as [|Hne]; [done|exfalso].
  destruct (mp_disjoint h c1 c2 k1 k2 Hh Hne E1 E2); lia.
Qed.

Lemma spot_in p sm fr lg a c o : pool_inv p sm fr lg -> spot (initial_block_count p) sm lg a c o ->
  exists n, region (heap p) c n /\ 0 <= o < n.
Proof.
  intros Hp (_ & [(i & Hc & Hi & Ho)|(Hc & Ho)]).
  - destruct (pi_small _ _ _ _ Hp c i Hc) as [_ Hr]. eexists. split; [exact Hr|].
    pose proof (bs_range i Hi). pose proof (pi_count _ _ _ _ Hp). unfold sizeof_chunk in *.
    destruct Ho as [->|(j & Hj & ->)]; nia.
  - destruct (pi_large _ _ _ _ Hp c Hc) as (n & _ & _ & Hr & Hn). exists (48 + n). split; [done|]. lia.
Qed.

Lemma spot_unique p sm fr lg a c o c' o' : pool_inv p sm fr lg ->
  spot (initial_block_count p) sm lg a c o -> spot (initial_block_count p) sm lg a c' o' -> c = c' /\ o = o'.
Proof.
  intros Hp HA HB. destruct (spot_in _ _ _ _ _ _ _ Hp HA) as (n1 & R1 & L1).
  destruct (spot_in _ _ _ _ _ _ _ Hp HB) as (n2 & R2 & L2). destruct HA as [-> _], HB as [E _].
  assert (c = c') as <- by (apply (owner_same (heap p) c n1 c' n2 o o'); [by eapply region_inv|done|done|lia..]). lia.
Qed.

(** A chunk has one kind. *)
Lemma chunk_kind p sm fr lg : pool_inv p sm fr lg ->
  (forall c i i', (c, i) ∈ sm -> (c, i') ∈ sm -> i = i') /\ (forall c i, (c, i) ∈ sm -> c ∉ lg) /\ NoDup lg /\ NoDup (map fst sm).
Proof.
  intros Hp. destruct (pi_took _ _ _ _ Hp) as [_ Hnd _ _ _]. apply NoDup_cons in Hnd as [_ Hnd].
  apply NoDup_app in Hnd as (Hs & Hd & Hl). split_and!; [|intros c i Hc; apply Hd; by apply (list_elem_of_fmap_2 fst) in Hc|done|done].
  clear -Hs. induction sm as [|[c0 i0] sm IH]; [by intros ??? ?%elem_of_nil|]. cbn in Hs.
  apply NoDup_cons in Hs as [Hn Hs]. intros c i i'. rewrite !elem_of_cons.
  assert (forall k, (c0, k) ∉ sm) as Hno by (intros k Hk; apply Hn; by apply (list_elem_of_fmap_2 fst) in Hk).
  intros [E1|E1] [E2|E2]; try (injection E1 as -> ->); try (injection E2 as -> ->); [congruence|by apply Hno in E2|by apply Hno in E1|].
  by eapply IH.
Qed.

Lemma block_spot p sm fr lg i b : pool_inv p sm fr lg -> is_block (initial_block_count p) sm i b ->
  exists c j, (c, i) ∈ sm /\ 0 <= i < 10 /\ 0 <= j < initial_block_count p /\
    spot (initial_block_count p) sm lg b c (sizeof_chunk + j * bs i).
Proof.
  intros Hp (c & j & Hc & Hj & ->). destruct (pi_small _ _ _ _ Hp c i Hc) as [Hi _]. exists c, j.
  split_and!; try lia; [done|]. split; [lia|]. left. exists i. split; [done|]. split; [done|]. right. eauto.
Qed.

Lemma block_slot p sm fr lg i i' b : pool_inv p sm fr lg ->
  is_block (initial_block_count p) sm i b -> is_block (initial_block_count p) sm i' b -> i = i'.
Proof.
  intros Hp HA HB. destruct (block_spot _ _ _ _ _ _ Hp HA) as (c & j & Hc & _ & _ & S1).
  destruct (block_spot _ _ _ _ _ _ Hp HB) as (c' & j' & Hc' & _ & _ & S2).
  destruct (spot_unique _ _ _ _ _ _ _ _ _ Hp S1 S2) as [<- _]. by eapply (chunk_kind _ _ _ _ Hp).
Qed.

(** A block is no chunk node and no part of a large block. *)
Lemma block_not_chunk p sm fr lg i b c i' : pool_inv p sm fr lg ->
  is_block (initial_block_count p) sm i b -> (c, i') ∈ sm -> b <> c.
Proof.
  intros Hp HA Hc ->. destruct (block_spot _ _ _ _ _ _ Hp HA) as (c0 & j & Hc0 & Hi & Hj & S1).
  destruct (spot_unique p sm fr lg c c0 (sizeof_chunk + j * bs i) c 0 Hp S1) as [_ E].
  - split; [lia|]. left. exists i'. split; [done|]. split; [by eapply pi_small|by left].
  - pose proof (bs_range i Hi). unfold sizeof_chunk in *. nia.
Qed.

Lemma block_not_large p sm fr lg i b c o : pool_inv p sm fr lg ->
  is_block (initial_block_count p) sm i b -> c ∈ lg -> o = 0 \/ o = 24 \/ o = 40 -> b <> c + o.
Proof.
  intros Hp HA Hc Ho ->. destruct (block_spot _ _ _ _ _ _ Hp HA) as (c0 & j & Hc0 & Hi & Hj & S1).
  destruct (spot_unique p sm fr lg (c + o) c0 (sizeof_chunk + j * bs i) c o Hp S1) as [-> _].
  - split; [lia|]. right. done.
  - by eapply (chunk_kind _ _ _ _ Hp).
Qed.

(** ** A block changes hands *)

Lemma hchain_in m a l b : hchain m a l -> b ∈ l -> exists n, m !! b = Some (Header n).
Proof.
  revert a. induction l as [|x l IH]; intros a Hc Hb; [by apply elem_of_nil in Hb|]. destruct Hc as (-> & n & E & Hc).
  apply elem_of_cons in Hb as [->|Hb]; [by eexists|]. by eapply IH.
Qed.
Lemma cchain_in m a l b : cchain m a l -> b ∈ l -> exists n pv, m !! b = Some (Chunk n pv (b + sizeof_chunk)).
Proof.
  revert a. induction l as [|x l IH]; intros a Hc Hb; [by apply elem_of_nil in Hb|]. destruct Hc as (-> & n & pv & E & Hc).
  apply elem_of_cons in Hb as [->|Hb]; [by do 2 eexists|]. by eapply IH.
Qed.
Lemma dchain_in m pv a l b : dchain m pv a l -> b ∈ l -> exists n q, m !! b = Some (Chunk n q (b + sizeof_chunk)).
Proof.
  revert pv a. induction l as [|x l IH]; intros pv a Hc Hb; [by apply elem_of_nil in Hb|]. destruct Hc as (-> & n & E & Hc).
  apply elem_of_cons in Hb as [->|Hb]; [by do 2 eexists|]. by eapply IH.
Qed.

Lemma chunks_of_in sm i c : c ∈ chunks_of sm i <-> (c, i) ∈ sm.
Proof.
  unfold chunks_of. rewrite list_elem_of_fmap. split.
  - intros ([c' i'] & -> & [E Hin]%list_elem_of_filter). cbn in E. by subst.
  - intros Hin. exists (c, i). split; [done|]. by apply list_elem_of_filter.
Qed.

Lemma pool_slot_get p sm fr lg i : pool_inv p sm fr lg -> 0 <= i < 10 -> exists s, (slots p).[i] = Some s.
Proof. intros Hp Hi. apply arr_get_Some. by rewrite (pi_slots _ _ _ _ Hp). Qed.

Lemma block_value p sm fr lg i b : pool_inv p sm fr lg -> is_block (initial_block_count p) sm i b ->
  (b ∈ fr i /\ (exists n, mem p !! b = Some (Header n))) \/ (~ b ∈ fr i /\ mem p !! b = Some (Meta i)).
Proof.
  intros Hp Hb. destruct (block_spot _ _ _ _ _ _ Hp Hb) as (c & j & _ & Hi & _).
  destruct (pool_slot_get _ _ _ _ i Hp Hi) as [s Hs]. destruct (pi_slot _ _ _ _ Hp i s Hs) as (_ & _ & Hc & _).
  destruct (decide (b ∈ fr i)) as [Hin|Hout]; [left|right]; (split; [done|]).
  - by eapply hchain_in.
  - by destruct (pi_block _ _ _ _ Hp i b Hb).
Qed.

(** Cells of blocks of one slot, the slot's free list and the count of the bytes in use change. *)
Lemma update_blocks p sm fr lg i s m f l used :
  pool_inv p sm fr lg -> (slots p).[i] = Some s ->
  (forall a, is_block (initial_block_count p) sm i a \/ m !! a = mem p !! a) ->
  hchain m f l -> NoDup l -> (forall b, b ∈ l -> is_block (initial_block_count p) sm i b) ->
  (forall b, is_block (initial_block_count p) sm i b -> b ∈ l \/ m !! b = Some (Meta i)) ->
  used = u64 (msum (live_of m)) -> exists ss,
  (slots p).[i <- with_free s f (u64 (zlen l))] = Some ss /\
  pool_inv (with_used (with_slots (with_heap p (heap p) m) ss) used) sm (<[i := l]> fr) lg.
Proof.
  intros Hp Hs Hm' Hch Hnd Hl Hbl Hu. pose proof (arr_get_range _ _ _ Hs) as Hr. eexists. rewrite arr_set_ok by done. split; [done|].
  assert (Hm : forall a, ~ is_block (initial_block_count p) sm i a -> m !! a = mem p !! a) by (intros a Ha; by destruct (Hm' a)).
  assert (Hck : forall c k, (c, k) ∈ sm -> m !! c = mem p !! c).
  { intros c k Hc. apply Hm. intros Hb. by apply (block_not_chunk _ _ _ _ _ _ _ _ Hp Hb Hc). }
  assert (Hlg : forall c o, c ∈ lg -> o = 0 \/ o = 24 \/ o = 40 -> m !! (c + o) = mem p !! (c + o)).
  { intros c o Hc Ho. apply Hm. intros Hb. by apply (block_not_large _ _ _ _ _ _ _ _ Hp Hb Hc Ho). }
  assert (Hother : forall k b, k <> i -> is_block (initial_block_count p) sm k b -> m !! b = mem p !! b).
  { intros k b Hk Hb. apply Hm. intros Hb'. apply Hk. by eapply block_slot. }
  destruct (pi_slot _ _ _ _ Hp i s Hs) as (S1 & S2 & _ & S4 & S5 & _).
  constructor; cbn [heap self initial_block_count slots mem large_chunks total_used with_used with_slots with_heap]; try apply Hp.
  - rewrite zlen_insert. apply Hp.
  - intros k s' Hget. pose proof (arr_get_range _ _ _ Hget) as Hk0. rewrite zlen_insert in Hk0. revert Hget.
    rewrite arr_get_insert by lia. case_decide as Ek.
    + subst k. intros [= <-]. unfold slot_ok. rewrite fn_lookup_insert.
      cbn [block_size user_size free_list chunks total_blocks free_blocks with_free]. split_and!; try done.
      eapply cchain_frame; [|exact S4]. intros c Hc%chunks_of_in. by eapply Hck.
    + intros Hk. destruct (pi_slot _ _ _ _ Hp k s' Hk) as (K1 & K2 & K3 & K4 & K5 & K6).
      unfold slot_ok. rewrite fn_lookup_insert_ne by done. split_and!; try done.
      * eapply hchain_frame; [|exact K3]. intros c Hc%(pi_free _ _ _ _ Hp). by apply (Hother k).
      * eapply cchain_frame; [|exact K4]. intros c Hc%chunks_of_in. by eapply Hck.
  - intros k b' Hb'. destruct (decide (k = i)) as [->|Hk].
    + rewrite fn_lookup_insert. by apply Hbl.
    + rewrite fn_lookup_insert_ne by done. rewrite (Hother k) by done. by apply Hp.
  - intros k b'. destruct (decide (k = i)) as [->|Hk].
    + rewrite fn_lookup_insert. apply Hl.
    + rewrite fn_lookup_insert_ne by done. apply Hp.
  - intros k. destruct (decide (k = i)) as [->|Hk]; [by rewrite fn_lookup_insert|]. rewrite fn_lookup_insert_ne by done. apply Hp.
  - eapply dchain_frame; [|apply Hp]. intros c Hc. pose proof (Hlg c 0 Hc ltac:(auto)) as E. by rewrite Z.add_0_r in E.
  - intros c Hc. destruct (pi_large _ _ _ _ Hp c Hc) as (n & E1 & E2 & R). exists n. rewrite !Hlg by auto. done.
  - intros a y Ha. destruct (Hm' a) as [?|E]; [right; left; eauto|]. rewrite E in Ha. by eapply Hp.
  - done.
Qed.

(** The cell of one block. *)
Lemma update_block p sm fr lg i s b x f l used :
  let m := <[b := x]> (mem p) in
  pool_inv p sm fr lg -> (slots p).[i] = Some s -> is_block (initial_block_count p) sm i b ->
  hchain m f l -> NoDup l -> (forall b', b' ∈ l -> is_block (initial_block_count p) sm i b') ->
  (forall b', is_block (initial_block_count p) sm i b' -> b' ∈ l \/ m !! b' = Some (Meta i)) ->
  used = u64 (msum (live_of m)) -> exists ss,
  (slots p).[i <- with_free s f (u64 (zlen l))] = Some ss /\
  pool_inv (with_used (with_slots (with_heap p (heap p) m) ss) used) sm (<[i := l]> fr) lg.
Proof.
  intros m Hp Hs Hb. apply update_blocks; [done|done|]. intros a. destruct (decide (b = a)) as [<-|Hne]; [by left|].
  right. by apply lookup_insert_ne.
Qed.

(** ** What the users see *)

Lemma sizes_get i : 0 <= i < 10 -> BLOCK_SIZES.[i] = Some (2 ^ (4 + i)).
Proof. intros Hi. assert (i = 0 \/ i = 1 \/ i = 2 \/ i = 3 \/ i = 4 \/ i = 5 \/ i = 6 \/ i = 7 \/ i = 8 \/ i = 9) as E by lia.
  by destruct E as [->|[->|[->|[->|[->|[->|[->|[->|[->| ->]]]]]]]]].
Qed.

Lemma live_update m m' b (o : option Z) :
  usable m' b = o -> (forall k, k <> b -> usable m' k = usable m k) ->
  live_of m' = match o with Some v => <[b + sizeof_meta := v]> (live_of m) | None => delete (b + sizeof_meta) (live_of m) end.
Proof.
  intros Hb Hk. apply map_eq. intros a. rewrite live_of_lookup.
  destruct (decide (a = b + sizeof_meta)) as [->|Hne].
  - replace (b + sizeof_meta - sizeof_meta) with b by lia. rewrite Hb.
    destruct o; by rewrite ?lookup_insert_eq, ?lookup_delete_eq.
  - rewrite Hk by lia. destruct o; rewrite ?lookup_insert_ne, ?lookup_delete_ne by lia; by rewrite live_of_lookup.
Qed.

(** Writing a cell that is no large header, over one that was none. *)
Lemma usable_insert_ne m b x k :
  get_large m b = None -> (forall n c, x <> Large n c) -> k <> b -> usable (<[b := x]> m) k = usable m k.
Proof.
  intros Hb Hx Hk. unfold usable. rewrite lookup_insert_ne by done. destruct (m !! k) as [[| | |]|]; try done.
  case_one; [|done]. f_equal. unfold get_large in *. destruct (decide (b = k - sizeof_large)) as [->|Hne].
  - rewrite lookup_insert_eq, Hb. destruct x as [| | |n c]; try done. by destruct (Hx n c).
  - by rewrite lookup_insert_ne.
Qed.

Lemma live_put m b i : 0 <= i < 10 -> get_large m b = None ->
  live_of (<[b := Meta i]> m) = <[b + sizeof_meta := 2 ^ (4 + i)]> (live_of m).
Proof.
  intros Hi Hb. apply (live_update m _ b (Some (2 ^ (4 + i)))); [|intros k; by apply usable_insert_ne].
  unfold usable. rewrite lookup_insert_eq, (proj2 (Z.eqb_neq i 255)) by lia. by apply sizes_get.
Qed.

Lemma live_drop m b n : get_large m b = None -> live_of (<[b := Header n]> m) = delete (b + sizeof_meta) (live_of m).
Proof.
  intros Hb. apply (live_update m _ b None); [|intros k; by apply usable_insert_ne].
  unfold usable. by rewrite lookup_insert_eq.
Qed.

(** Taking the first block of a free list. *)
Lemma pop_ok p sm fr lg i s b l :
  pool_inv p sm fr lg -> 0 <= i < 10 -> (slots p).[i] = Some s -> fr i = b :: l -> exists next ss,
  free_list s = b /\ header_next (mem p) b = Some next /\
  (slots p).[i <- with_free s next (u64 (free_blocks s - 1))] = Some ss /\
  overwrite (mem p) b (Meta (u8 i)) = Some (<[b := Meta i]> (mem p)) /\
  live_of (mem p) !! (b + sizeof_meta) = None /\
  live_of (<[b := Meta i]> (mem p)) = <[b + sizeof_meta := 2 ^ (4 + i)]> (live_of (mem p)) /\
  pool_inv (with_used (with_slots (with_heap p (heap p) (<[b := Meta i]> (mem p))) ss) (u64 (total_used p + user_size s)))
    sm (<[i := l]> fr) lg.
Proof.
  intros Hp Hi Hs Hf. destruct (pi_slot _ _ _ _ Hp i s Hs) as (_ & Hus & Hch & _ & _ & Hfb). rewrite Hf in Hch.
  destruct Hch as (Hfl & next & Hb & Hch). assert (b ∈ fr i) as Hin by (rewrite Hf; by left).
  pose proof (pi_free _ _ _ _ Hp i b Hin) as Hblk. pose proof (pi_nodup _ _ _ _ Hp i) as Hnd. rewrite Hf in Hnd.
  apply NoDup_cons in Hnd as [Hnb Hnd].
  assert (get_large (mem p) b = None) as Hlg by (unfold get_large; by rewrite Hb).
  pose proof (live_put (mem p) b i Hi Hlg) as Hlive.
  assert (live_of (mem p) !! (b + sizeof_meta) = None) as Hnone.
  { rewrite live_of_lookup. replace (b + sizeof_meta - sizeof_meta) with b by lia. unfold usable. by rewrite Hb. }
  destruct (update_block p sm fr lg i s b (Meta i) next l (u64 (total_used p + user_size s)) Hp Hs Hblk) as (ss & Hss & Hp').
  - eapply hchain_frame; [|exact Hch]. intros c Hc. apply lookup_insert_ne. by intros ->.
  - done.
  - intros b' Hb'. apply (pi_free _ _ _ _ Hp). rewrite Hf. by right.
  - intros b' Hb'. destruct (decide (b' = b)) as [->|Hne]; [right; apply lookup_insert_eq|].
    rewrite lookup_insert_ne by done. destruct (pi_block _ _ _ _ Hp i b' Hb') as [Hb2|?]; [|by right]. left.
    rewrite Hf in Hb2. by apply elem_of_cons in Hb2 as [?|?].
  - rewrite Hlive, msum_insert by done. rewrite (pi_used _ _ _ _ Hp), Hus. unfold u64.
    rewrite Zplus_mod_idemp_l. f_equal. lia.
  - exists next, ss. split; [done|]. split; [unfold header_next; by rewrite Hb|]. split.
    { rewrite <-Hss. do 2 f_equal. rewrite Hfb, Hf, zlen_cons. unfold u64. rewrite Zminus_mod_idemp_l. f_equal. lia. }
    split; [|by split_and!]. unfold overwrite. rewrite Hb. by rewrite u8_small by lia.
Qed.

(** Giving a block back to its slot. *)
Lemma push_ok p sm fr lg i s b :
  pool_inv p sm fr lg -> 0 <= i < 10 -> (slots p).[i] = Some s -> mem p !! b = Some (Meta i) -> exists ss,
  overwrite (mem p) b (Header (free_list s)) = Some (<[b := Header (free_list s)]> (mem p)) /\
  (slots p).[i <- with_free s b (u64 (free_blocks s + 1))] = Some ss /\
  live_of (<[b := Header (free_list s)]> (mem p)) = delete (b + sizeof_meta) (live_of (mem p)) /\
  pool_inv (with_used (with_slots (with_heap p (heap p) (<[b := Header (free_list s)]> (mem p))) ss) (u64 (total_used p - user_size s)))
    sm (<[i := b :: fr i]> fr) lg.
Proof.
  intros Hp Hi Hs Hb. destruct (pi_slot _ _ _ _ Hp i s Hs) as (_ & Hus & Hch & _ & _ & Hfb).
  assert (get_large (mem p) b = None) as Hlg by (unfold get_large; by rewrite Hb).
  pose proof (live_drop (mem p) b (free_list s) Hlg) as Hlive.
  assert (is_block (initial_block_count p) sm i b) as Hblk.
  { destruct (pi_cells _ _ _ _ Hp b _ Hb) as [[k Hk]|[[k Hk]|(c & Hc & E)]].
    - exfalso. destruct (pi_small _ _ _ _ Hp b k Hk) as [Hk10 _]. destruct (pool_slot_get _ _ _ _ k Hp Hk10) as [s' Hs'].
      destruct (pi_slot _ _ _ _ Hp k s' Hs') as (_ & _ & _ & Hcc & _). apply chunks_of_in in Hk.
      destruct (cchain_in _ _ _ _ Hcc Hk) as (? & ? & ?). congruence.
    - destruct (block_value _ _ _ _ _ _ Hp Hk) as [[_ [n E]]|[_ E]]; [congruence|]. rewrite Hb in E. by injection E as ->.
    - exfalso. destruct (pi_large _ _ _ _ Hp c Hc) as (n & E1 & E2 & _). destruct E as [->|[->| ->]].
      + destruct (dchain_in _ _ _ _ _ (pi_list _ _ _ _ Hp) Hc) as (? & ? & ?). congruence.
      + congruence.
      + rewrite Hb in E2. injection E2 as ->. lia. }
  assert (b ∉ fr i) as Hnb.
  { intros Hin. destruct (hchain_in _ _ _ _ Hch Hin) as [n E]. congruence. }
  destruct (update_block p sm fr lg i s b (Header (free_list s)) b (b :: fr i) (u64 (total_used p - user_size s)) Hp Hs Hblk)
    as (ss & Hss & Hp').
  - split; [done|]. exists (free_list s). split; [apply lookup_insert_eq|]. eapply hchain_frame; [|exact Hch].
    intros c Hc. apply lookup_insert_ne. by intros ->.
  - apply NoDup_cons. split; [done|apply Hp].
  - intros b' [->|Hb']%elem_of_cons; [done|]. by apply Hp.
  - intros b' Hb'. destruct (decide (b' = b)) as [->|Hne]; [left; by left|]. rewrite lookup_insert_ne by done.
    destruct (pi_block _ _ _ _ Hp i b' Hb'); [left; by right|by right].
  - rewrite Hlive, (msum_delete _ _ (2 ^ (4 + i))).
    + rewrite (pi_used _ _ _ _ Hp), Hus. unfold u64. by rewrite Zminus_mod_idemp_l.
    + rewrite live_of_lookup. replace (b + sizeof_meta - sizeof_meta) with b by lia. unfold usable.
      rewrite Hb, (proj2 (Z.eqb_neq i 255)) by lia. by apply sizes_get.
  - exists ss. split; [unfold overwrite; by rewrite Hb|]. split.
    { rewrite <-Hss. do 2 f_equal. rewrite Hfb, zlen_cons. unfold u64. rewrite Zplus_mod_idemp_l. f_equal. lia. }
    by split.
Qed.

(** ** A slot gets a new chunk *)

Definition chunk_blocks (count c i : Z) : list Z := (fun j => c + sizeof_chunk + j * bs i) <$> seqZ 0 count.

Lemma chunk_blocks_in count c i b : b ∈ chunk_blocks count c i <-> exists j, 0 <= j < count /\ b = c + sizeof_chunk + j * bs i.
Proof.
  unfold chunk_blocks. rewrite list_elem_of_fmap. setoid_rewrite elem_of_seqZ. split; intros (j & ? & ?); exists j; split; try done; lia.
Qed.

Lemma chunk_blocks_nodup count c i : 0 <= i < 10 -> NoDup (chunk_blocks count c i).
Proof.
  intros Hi. pose proof (bs_range i Hi). unfold chunk_blocks. apply NoDup_fmap_2_strong; [|apply NoDup_seqZ].
  intros x y _ _ E. nia.
Qed.

Lemma chunk_blocks_zlen count c i : 0 <= count -> zlen (chunk_blocks count c i) = count.
Proof. intros Hc. unfold zlen, chunk_blocks. rewrite length_fmap, length_seqZ. lia. Qed.

(** Headers that point to each other, block by block. *)
Lemma hchain_blocks m base step fl l n k :
  (forall j, k <= j < k + Z.of_nat n -> m !! (base + j * step) = Some (Header (if j + 1 =? k + Z.of_nat n then fl else base + (j + 1) * step))) ->
  hchain m fl l ->
  hchain m (if n is O then fl else base + k * step) (((fun j => base + j * step) <$> seqZ k (Z.of_nat n)) ++ l).
Proof.
  revert k. induction n as [|n IH]; intros k Hm Hl; [done|]. rewrite seqZ_cons by lia.
  rewrite fmap_cons. cbn [app hchain]. split; [done|]. rewrite (Hm k) by lia. eexists. split; [done|].
  replace (Z.pred (Z.of_nat (S n))) with (Z.of_nat n) by lia. specialize (IH (Z.succ k)).
  destruct n as [|n].
  - cbn. rewrite Z.eqb_refl. done.
  - rewrite (proj2 (Z.eqb_neq (k + 1) _)) by lia. replace (base + (k + 1) * step) with (base + Z.succ k * step) by lia.
    apply IH; [|done]. intros j Hj. rewrite Hm by lia. do 3 f_equal.
    destruct (Z.eqb_spec (j + 1) (k + Z.of_nat (S (S n)))), (Z.eqb_spec (j + 1) (Z.succ k + Z.of_nat (S n))); lia || done.
Qed.

(** The loop that links the blocks. *)
Lemma link_blocks h c k m step count :
  mp_live h !! c = Some k -> 8 <= step -> 1 <= count -> sizeof_chunk + step * count <= k -> exists m',
  for_ (Z.to_nat count) 0 (link_block h c step) (m, NULL, NULL, c + sizeof_chunk)
  = Some (m', c + sizeof_chunk, c + sizeof_chunk + (count - 1) * step, c + sizeof_chunk + count * step) /\
  (forall j, 0 <= j < count - 1 -> m' !! (c + sizeof_chunk + j * step) = Some (Header (c + sizeof_chunk + (j + 1) * step))) /\
  (forall a, (forall j, 0 <= j < count - 1 -> a <> c + sizeof_chunk + j * step) -> m' !! a = m !! a).
Proof.
  intros Hk Hst Hc Hfit. set (B := c + sizeof_chunk) in *.
  destruct (for_inv (fun i '(m1, first, last, ptr) => ptr = B + i * step /\ (i = 0 -> m1 = m /\ first = NULL /\ last = NULL) /\
      (0 < i -> first = B /\ last = B + (i - 1) * step) /\
      (forall j, 0 <= j < i - 1 -> m1 !! (B + j * step) = Some (Header (B + (j + 1) * step))) /\
      (forall a, (forall j, 0 <= j < i - 1 -> a <> B + j * step) -> m1 !! a = m !! a))
    (Z.to_nat count) 0 (link_block h c step) (m, NULL, NULL, B)) as ([[[m' first] last] ptr] & -> & Hptr & _ & Hpos & Hlk & Hoth).
  - split_and!; [lia|done|lia|lia|done].
  - intros i [[[m1 first] last] ptr] Hi (-> & Hz & Hp & Hlk & Hoth). unfold link_block. destruct (Z.eqb_spec i 0) as [->|Hne].
    + destruct (Hz eq_refl) as (-> & -> & ->). cbn [mbind option_bind]. eexists. split; [done|].
      split_and!; [lia|lia|intros _; split; lia|lia|done].
    + destruct (Hp ltac:(lia)) as [-> ->]. unfold write_new. rewrite Hk.
      rewrite (proj2 (Z.leb_le c _)), (proj2 (Z.leb_le _ (c + k))) by (unfold B, sizeof_chunk in *; nia). cbn [andb mbind option_bind].
      eexists. split; [done|]. split_and!; [lia|lia|intros _; split; lia| |].
      * intros j Hj. destruct (decide (j = i - 1)) as [->|Hji].
        -- rewrite lookup_insert_eq. do 3 f_equal. lia.
        -- rewrite lookup_insert_ne by nia. apply Hlk. lia.
      * intros a Ha. rewrite lookup_insert_ne by (intros E; apply (Ha (i - 1)); lia). apply Hoth. intros j Hj. apply Ha. lia.
  - rewrite Z.add_0_l, Z2Nat.id in Hptr, Hpos, Hlk, Hoth by lia. destruct (Hpos ltac:(lia)) as [-> ->]. rewrite Hptr. exists m'.
    split; [done|]. by split.
Qed.

Lemma took_region h h' c x n : took h h' [c] -> region h x n -> region h' x n.
Proof.
  intros [_ _ _ Hf Hr] (k & E & Hn). exists k. split; [|done]. specialize (Hf c ltac:(by left)). cbn in Hr.
  rewrite <-Hr, lookup_delete_ne in E; [done|]. intros ->. congruence.
Qed.

Lemma cells_spot p sm fr lg a x : pool_inv p sm fr lg -> mem p !! a = Some x ->
  exists c o, spot (initial_block_count p) sm lg a c o.
Proof.
  intros Hp [[i Hi]|[[i Hi]|(c & Hc & E)]]%(pi_cells _ _ _ _ Hp).
  - exists a, 0. split; [lia|]. left. exists i. split; [done|]. split; [by eapply pi_small|by left].
  - destruct (block_spot _ _ _ _ _ _ Hp Hi) as (c & j & _ & _ & _ & Hs). eauto.
  - exists c. destruct E as [->|[->| ->]]; [exists 0|exists 24|exists 40]; (split; [lia|right; auto]).
Qed.

(** The store has nothing in a block the heap has just given out. *)
Lemma fresh_cells p sm fr lg h c k a : pool_inv p sm fr lg -> took (heap p) h [c] -> mp_live h !! c = Some k ->
  c <= a < c + k -> mem p !! a = None.
Proof.
  intros Hp Ht Hk Ha. destruct (mem p !! a) as [x|] eqn:E; [exfalso|done].
  destruct (cells_spot _ _ _ _ _ _ Hp E) as (c' & o & Hs). destruct (spot_in _ _ _ _ _ _ _ Hp Hs) as (n & Hr & Ho).
  destruct Hs as [-> _]. assert (region h c k) as Hrc by (by exists k).
  assert (c = c') as <-.
  { apply (owner_same h c k c' n (c' + o - c) o); [by apply Ht|done|by eapply took_region|lia..]. }
  destruct Hr as (k' & E' & _). pose proof (tk_fresh _ _ _ Ht c ltac:(by left)). congruence.
Qed.

Lemma hchain_mono m m' a l : m ⊆ m' -> hchain m a l -> hchain m' a l.
Proof.
  intros Hm Hc. eapply hchain_frame; [|exact Hc]. intros b Hb. destruct (hchain_in _ _ _ _ Hc Hb) as [n E].
  rewrite E. by eapply lookup_weaken.
Qed.
Lemma cchain_mono m m' a l : m ⊆ m' -> cchain m a l -> cchain m' a l.
Proof.
  intros Hm Hc. eapply cchain_frame; [|exact Hc]. intros b Hb. destruct (cchain_in _ _ _ _ Hc Hb) as (n & pv & E).
  rewrite E. by eapply lookup_weaken.
Qed.
Lemma dchain_mono m m' pv a l : m ⊆ m' -> dchain m pv a l -> dchain m' pv a l.
Proof.
  intros Hm Hc. eapply dchain_frame; [|exact Hc]. intros b Hb. destruct (dchain_in _ _ _ _ _ Hc Hb) as (n & q & E).
  rewrite E. by eapply lookup_weaken.
Qed.

(** Cells in fresh memory that are no metadata leave the blocks in use as they were. *)
Lemma live_extend m m' : m ⊆ m' ->
  (forall a, m !! a = None -> forall x, m' !! a = Some x -> (exists n, x = Header n) \/ (exists n q k, x = Chunk n q k)) ->
  (forall a, m !! a = Some (Meta 255) -> exists s c, m !! (a - sizeof_large) = Some (Large s c)) ->
  live_of m' = live_of m.
Proof.
  intros Hsub Hnew Hlg. apply map_eq. intros a. rewrite !live_of_lookup. set (k := a - sizeof_meta). unfold usable.
  destruct (m !! k) as [x|] eqn:E.
  - rewrite (lookup_weaken _ _ _ _ E Hsub). destruct x as [|i| |]; try done. destruct (Z.eqb_spec i 255) as [->|]; [|done].
    destruct (Hlg k E) as (s & c & El). unfold get_large. by rewrite El, (lookup_weaken _ _ _ _ El Hsub).
  - destruct (m' !! k) as [x|] eqn:E'; [|done]. destruct (Hnew k E x E') as [(n & ->)|(n & q & c & ->)]; done.
Qed.

Lemma large_meta p sm fr lg a : pool_inv p sm fr lg -> mem p !! a = Some (Meta 255) ->
  exists c n, c ∈ lg /\ a = c + 40 /\ mem p !! (c + 24) = Some (Large n c).
Proof.
  intros Hp E. destruct (pi_cells _ _ _ _ Hp a _ E) as [[k Hk]|[[k Hk]|(c & Hc & Ea)]].
  - exfalso. destruct (pi_small _ _ _ _ Hp a k Hk) as [Hk10 _]. destruct (pool_slot_get _ _ _ _ k Hp Hk10) as [s' Hs'].
    destruct (pi_slot _ _ _ _ Hp k s' Hs') as (_ & _ & _ & Hcc & _). apply chunks_of_in in Hk.
    destruct (cchain_in _ _ _ _ Hcc Hk) as (? & ? & ?). congruence.
  - exfalso. destruct (block_spot _ _ _ _ _ _ Hp Hk) as (_ & _ & _ & Hi & _).
    destruct (block_value _ _ _ _ _ _ Hp Hk) as [[_ [n E']]|[_ E']]; [congruence|]. rewrite E in E'. injection E' as <-. lia.
  - destruct (pi_large _ _ _ _ Hp c Hc) as (n & E1 & E2 & _). exists c, n. split; [done|]. destruct Ea as [->|[->| ->]]; [|congruence|done].
    destruct (dchain_in _ _ _ _ _ (pi_list _ _ _ _ Hp) Hc) as (? & ? & ?). congruence.
Qed.

(** The pool with a new chunk for slot [i], all of whose blocks are free. *)
Lemma add_chunk p sm fr lg i s h c k m' s' jk :
  pool_inv p sm fr lg -> 0 <= i < 10 -> (slots p).[i] = Some s -> fr i = [] ->
  took (heap p) h [c] -> mp_live h !! c = Some k -> sizeof_chunk + initial_block_count p * bs i <= k ->
  mem p ⊆ m' -> m' !! c = Some (Chunk (chunks s) jk (c + sizeof_chunk)) ->
  hchain m' (c + sizeof_chunk) (chunk_blocks (initial_block_count p) c i) ->
  (forall a x, m' !! a = Some x -> mem p !! a = Some x \/ a = c \/ a ∈ chunk_blocks (initial_block_count p) c i) ->
  s' = {| block_size := block_size s; user_size := user_size s; free_list := c + sizeof_chunk; chunks := c;
          total_blocks := u64 (total_blocks s + initial_block_count p);
          free_blocks := u64 (free_blocks s + initial_block_count p) |} -> exists ss,
  (slots p).[i <- s'] = Some ss /\ live_of m' = live_of (mem p) /\
  pool_inv (with_slots (with_heap p h m') ss) ((c, i) :: sm) (<[i := chunk_blocks (initial_block_count p) c i]> fr) lg.
Proof.
  intros Hp Hi Hs Hfr Ht Hk Hfit Hsub Hc Hch Hall ->. set (count := initial_block_count p) in *.
  set (bl := chunk_blocks count c i) in *. pose proof (arr_get_range _ _ _ Hs) as Hr. eexists. rewrite arr_set_ok by done. split; [done|].
  pose proof (pi_count _ _ _ _ Hp) as Hcnt. fold count in Hcnt.
  assert (Hco : forall j, chunks_of ((c, i) :: sm) j = if decide (j = i) then c :: chunks_of sm i else chunks_of sm j).
  { intros j. unfold chunks_of. rewrite filter_cons. cbn [snd]. repeat case_decide; subst; done. }
  assert (Hblk : forall j b, is_block count ((c, i) :: sm) j b <-> (j = i /\ b ∈ bl) \/ is_block count sm j b).
  { intros j b. subst bl. rewrite chunk_blocks_in. split.
    - intros (c' & j' & [[= -> ->]|Hin]%elem_of_cons & Hj & ->); [left; split; [done|by exists j']|right; by exists c', j'].
    - intros [[-> (j' & Hj & ->)]|(c' & j' & Hin & Hj & ->)]; [exists c, j'; split; [by left|done]|exists c', j'; split; [by right|done]]. }
  assert (Hlive : live_of m' = live_of (mem p)).
  { apply live_extend; [done| |].
    - intros a Ha x Hx. destruct (Hall a x Hx) as [?|[->|Hb]]; [congruence|rewrite Hc in Hx; injection Hx as <-; eauto|].
      destruct (hchain_in _ _ _ _ Hch Hb) as [n E]. rewrite E in Hx. injection Hx as <-. eauto.
    - intros a Ha. destruct (large_meta _ _ _ _ _ Hp Ha) as (c' & n & _ & -> & E). exists n, c'.
      by replace (c' + 40 - sizeof_large) with (c' + 24) by (unfold sizeof_large; lia). }
  split; [exact Hlive|].
  destruct (pi_slot _ _ _ _ Hp i s Hs) as (S1 & S2 & S3 & S4 & S5 & S6).
  constructor; cbn [heap self initial_block_count slots mem large_chunks total_used with_slots with_heap]; try apply Hp.
  - eapply took_perm; [eapply took_app; [apply Hp|exact Ht]|]. cbn. by rewrite Permutation_swap.
  - rewrite zlen_insert. apply Hp.
  - intros j s' Hget. pose proof (arr_get_range _ _ _ Hget) as Hj0. rewrite zlen_insert in Hj0. revert Hget.
    rewrite arr_get_insert by lia. unfold slot_ok. rewrite Hco. case_decide as Ej.
    + subst j. intros [= <-]. rewrite fn_lookup_insert, decide_True by done.
      cbn [block_size user_size free_list chunks total_blocks free_blocks]. split_and!; [done|done|done| | |].
      * split; [done|]. do 2 eexists. split; [exact Hc|]. by eapply cchain_mono.
      * rewrite S5, zlen_cons. fold count. unfold u64. rewrite Zplus_mod_idemp_l. f_equal. lia.
      * rewrite S6, Hfr. subst bl. rewrite chunk_blocks_zlen by lia. done.
    + intros Hget. rewrite fn_lookup_insert_ne, decide_False by done.
      destruct (pi_slot _ _ _ _ Hp j s' Hget) as (K1 & K2 & K3 & K4 & K5 & K6). split_and!; try done.
      * by eapply hchain_mono.
      * by eapply cchain_mono.
  - intros c' j [[= -> ->]|Hin]%elem_of_cons; [split; [done|by exists k]|].
    destruct (pi_small _ _ _ _ Hp c' j Hin) as [? ?]. split; [done|]. by eapply took_region.
  - intros j b [[-> Hb]|Hb]%Hblk; [left; by rewrite fn_lookup_insert|].
    destruct (pi_block _ _ _ _ Hp j b Hb) as [Hin|E]; [|right; by eapply lookup_weaken].
    left. rewrite fn_lookup_insert_ne; [done|]. intros <-. rewrite Hfr in Hin. by apply elem_of_nil in Hin.
  - intros j b Hb. apply Hblk. destruct (decide (i = j)) as [<-|Hne].
    + rewrite fn_lookup_insert in Hb. by left.
    + rewrite fn_lookup_insert_ne in Hb by done. right. by apply Hp.
  - intros j. destruct (decide (i = j)) as [<-|Hne].
    + rewrite fn_lookup_insert. by apply chunk_blocks_nodup.
    + rewrite fn_lookup_insert_ne by done. apply Hp.
  - eapply dchain_mono; [done|apply Hp].
  - intros c' Hc'. destruct (pi_large _ _ _ _ Hp c' Hc') as (n & E1 & E2 & R & Hn). exists n.
    split_and!; [by eapply lookup_weaken|by eapply lookup_weaken|by eapply took_region|done].
  - intros a x Ha. destruct (Hall a x Ha) as [E|[->|Hb]].
    + destruct (pi_cells _ _ _ _ Hp a x E) as [[j Hj]|[[j Hj]|?]]; [left; exists j; by right|right; left; exists j; apply Hblk; by right|by right; right].
    + left. exists i. by left.
    + right. left. exists i. apply Hblk. by left.
  - rewrite Hlive. apply Hp.
Qed.

(** ** Large blocks *)

(** What the slots need of a pool whose large blocks change. *)
Lemma inv_large p sm fr lg p' lg' :
  pool_inv p sm fr lg -> self p' = self p -> slots p' = slots p -> initial_block_count p' = initial_block_count p ->
  took h0 (heap p') (self p :: map fst sm ++ lg') ->
  (forall c i n, (c, i) ∈ sm -> region (heap p) c n -> region (heap p') c n) ->
  (forall c i, (c, i) ∈ sm -> mem p' !! c = mem p !! c) ->
  (forall i b, is_block (initial_block_count p) sm i b -> mem p' !! b = mem p !! b) ->
  dchain (mem p') NULL (large_chunks p') lg' ->
  (forall c, c ∈ lg' -> exists n, mem p' !! (c + 24) = Some (Large n c) /\ mem p' !! (c + 40) = Some (Meta 255) /\
     region (heap p') c (48 + n) /\ 8192 < n) ->
  (forall a x, mem p' !! a = Some x -> (exists y, mem p !! a = Some y /\ forall c o, c ∈ lg -> o = 0 \/ o = 24 \/ o = 40 -> a <> c + o) \/
     (exists c, c ∈ lg' /\ (a = c \/ a = c + 24 \/ a = c + 40))) ->
  total_used p' = u64 (msum (live_of (mem p'))) -> pool_inv p' sm fr lg'.
Proof.
  intros Hp Es Ess Ec Ht Hreg Hsm Hblk Hd Hlg Hcells Hu. constructor; rewrite ?Es, ?Ess, ?Ec; try done; try apply Hp.
  - intros i s Hs. destruct (pi_slot _ _ _ _ Hp i s Hs) as (K1 & K2 & K3 & K4 & K5 & K6). split_and!; try done.
    + eapply hchain_frame; [|exact K3]. intros b Hb%(pi_free _ _ _ _ Hp). by eapply Hblk.
    + eapply cchain_frame; [|exact K4]. intros c Hc%chunks_of_in. by eapply Hsm.
  - intros c i Hc. destruct (pi_small _ _ _ _ Hp c i Hc). split; [done|]. by eapply Hreg.
  - intros i b Hb. rewrite (Hblk i b Hb). by apply Hp.
  - intros a x Ha. destruct (Hcells a x Ha) as [(y & Hy & Hno)|?]; [|by right; right].
    destruct (pi_cells _ _ _ _ Hp a y Hy) as [?|[?|(c & Hc & E)]]; [by left|by right; left|exfalso].
    destruct E as [->|[->| ->]]; [apply (Hno c 0 Hc); lia|eapply (Hno c 24 Hc); lia|eapply (Hno c 40 Hc); lia].
Qed.

(** A refused request to the heap. *)
Lemma refused_inv p sm fr lg h n :
  pool_inv p sm fr lg -> 0 <= n < 2 ^ 64 -> mp_alloc (heap p) n = (h, NULL) -> pool_inv (with_heap p h (mem p)) sm fr lg.
Proof.
  intros Hp Hn E. pose proof (took_refused _ _ _ (region_inv _ _ _ _ Hp) Hn E) as Ht.
  assert (Hreg : forall x n, region (heap p) x n -> region h x n).
  { intros x k (q & Eq & Hq). exists q. split; [|done]. destruct Ht as [_ _ _ _ Hrest]. cbn in Hrest. by rewrite Hrest. }
  constructor; cbn [heap self initial_block_count slots mem large_chunks total_used with_heap]; try apply Hp.
  - apply (took_app _ _ _ _ [] (pi_took _ _ _ _ Hp) Ht).
  - intros c k Hin. destruct (pi_small _ _ _ _ Hp c k Hin). auto.
  - intros c Hin. destruct (pi_large _ _ _ _ Hp c Hin) as (k & ? & ? & ? & ?). exists k. auto.
Qed.

Lemma large_spot p sm fr lg c o : c ∈ lg -> o = 0 \/ o = 24 \/ o = 40 -> spot (initial_block_count p) sm lg (c + o) c o.
Proof. intros Hc Ho. split; [done|]. by right. Qed.

Lemma large_value p sm fr lg c : pool_inv p sm fr lg -> c ∈ lg -> exists n q, mem p !! c = Some (Chunk n q (c + sizeof_chunk)).
Proof. intros Hp Hc. exact (dchain_in _ _ _ _ _ (pi_list _ _ _ _ Hp) Hc). Qed.

(** Linking a new first node. *)
Lemma link_large m lg a c pv : dchain m pv a lg -> NoDup lg -> (forall b, b ∈ lg -> b <> NULL) -> exists m',
  (if a =? NULL then Some m else set_prev m a c) = Some m' /\ dchain m' c a lg /\
  (forall b, b ∉ lg -> m' !! b = m !! b) /\
  (forall b, is_Some (m' !! b) <-> is_Some (m !! b)) /\ (forall b x, (forall n q k, x <> Chunk n q k) -> m' !! b = Some x <-> m !! b = Some x).
Proof.
  intros Hd Hnd Hnn. destruct lg as [|d l].
  { cbn in Hd. subst a. exists m. by split_and!. }
  destruct Hd as (-> & n & E & Hd). apply NoDup_cons in Hnd as [Hn Hnd].
  rewrite (proj2 (Z.eqb_neq d NULL)) by (apply Hnn; by left). unfold set_prev, get_chunk. rewrite E. cbn [mbind option_bind].
  exists (<[d := Chunk n c (d + sizeof_chunk)]> m). split; [done|]. split; [|split; [|split]].
  - split; [done|]. exists n. rewrite lookup_insert_eq. split; [done|]. eapply dchain_frame; [|exact Hd].
    intros b Hb. apply lookup_insert_ne. by intros ->.
  - intros b Hb. apply lookup_insert_ne. intros ->. apply Hb. by left.
  - intros b. destruct (decide (d = b)) as [->|Hne]; [rewrite lookup_insert_eq, E; by split; eexists|by rewrite lookup_insert_ne].
  - intros b x Hx. destruct (decide (d = b)) as [->|Hne]; [|by rewrite lookup_insert_ne].
    rewrite lookup_insert_eq, E. split; intros [= <-]; by destruct (Hx _ _ _ eq_refl).
Qed.

(** Growing a slot whose free list is empty. *)
Lemma expand_ok junk p sm fr lg i s :
  pool_inv p sm fr lg -> 0 <= i < 10 -> (slots p).[i] = Some s -> fr i = [] -> exists h m s' rc,
  vox_mpool_expand_slot junk (heap p) (mem p) s (initial_block_count p) = Some (h, m, s', rc) /\
  exists ss, (slots p).[i <- s'] = Some ss /\ live_of m = live_of (mem p) /\
  ((rc = -1 /\ pool_inv (with_slots (with_heap p h m) ss) sm fr lg /\ evolves (heap p) h) \/
   (rc = 0 /\ exists c, ss.[i] = Some s' /\ chunk_blocks (initial_block_count p) c i <> [] /\ evolves (heap p) h /\
      pool_inv (with_slots (with_heap p h m) ss) ((c, i) :: sm) (<[i := chunk_blocks (initial_block_count p) c i]> fr) lg)).
Proof.
  intros Hp Hi Hs Hfr. set (count := initial_block_count p) in *. pose proof (pi_count _ _ _ _ Hp) as Hcnt. fold count in Hcnt.
  destruct (pi_slot _ _ _ _ Hp i s Hs) as (Hbs & _ & Hfl & _). rewrite Hfr in Hfl. cbn in Hfl.
  pose proof (bs_range i Hi) as Hbr. pose proof (arr_get_range _ _ _ Hs) as Hr.
  unfold vox_mpool_expand_slot. rewrite Hbs, Hfl. rewrite (u64_small (bs i * count)), (u64_small (_ + sizeof_chunk)) by (unfold sizeof_chunk; nia).
  destruct (mp_alloc (heap p) (bs i * count + sizeof_chunk)) as [h c] eqn:E.
  assert (0 <= bs i * count + sizeof_chunk < 2 ^ 64) as Hsz by (unfold sizeof_chunk; nia).
  pose proof (region_inv _ _ _ _ Hp) as Hh. pose proof (evolves_alloc _ _ _ _ E) as Hev.
  destruct (Z.eqb_spec c NULL) as [->|Hc].
  { exists h, (mem p), s, (-1). split; [done|]. rewrite arr_set_ok by done. eexists. split; [done|]. split; [done|]. left.
    split; [done|]. split; [|done].
    assert (<[Z.to_nat i := s]> (slots p) = slots p) as ->.
    { apply list_insert_id. by rewrite arr_get_lookup in Hs by lia. }
    exact (refused_inv _ _ _ _ _ _ Hp Hsz E). }
  pose proof (took_alloc _ _ _ _ Hh Hsz E Hc) as Ht.
  destruct (mp_alloc_spec _ _ _ _ Hh Hsz E) as [_ [[? _]|(_ & _ & Hnone & k & Hk & Hl)]]; [done|].
  assert (mp_live h !! c = Some k) as Hlk by (by rewrite Hl, lookup_insert_eq).
  assert (sizeof_chunk + bs i * count <= k) as Hfit by lia.
  assert (0 < c) as Hcpos by (eapply (heap_positive h); [apply Ht|exact Hlk]).
  set (m1 := <[c := Chunk (chunks s) junk (c + sizeof_chunk)]> (mem p)).
  assert (write_new h c (mem p) c sizeof_chunk (Chunk (chunks s) junk (c + sizeof_chunk)) = Some m1) as ->.
  { unfold write_new. rewrite Hlk, (proj2 (Z.leb_le c c)), (proj2 (Z.leb_le _ (c + k))) by (unfold sizeof_chunk in *; nia). done. }
  cbn [mbind option_bind].
  destruct (link_blocks h c k m1 (bs i) count Hlk ltac:(lia) ltac:(lia) Hfit) as (m2 & -> & Hlnk & Hoth). cbn [mbind option_bind].
  set (B := c + sizeof_chunk) in *. assert (0 < B + (count - 1) * bs i) as Hlast by (unfold B, sizeof_chunk; nia).
  rewrite (proj2 (Z.eqb_neq _ NULL)) by (unfold NULL; lia). cbn [negb].
  assert (write_new h c m2 (B + (count - 1) * bs i) 8 (Header NULL) = Some (<[B + (count - 1) * bs i := Header NULL]> m2)) as ->.
  { unfold write_new. rewrite Hlk, (proj2 (Z.leb_le c _)), (proj2 (Z.leb_le _ (c + k))) by (unfold B, sizeof_chunk in *; nia). done. }
  cbn [mbind option_bind]. set (m3 := <[B + (count - 1) * bs i := Header NULL]> m2).
  assert (Hin : forall j, 0 <= j < count -> c <= B + j * bs i < c + k) by (intros j Hj; unfold B, sizeof_chunk in *; nia).
  assert (Hout : forall a, a ∉ chunk_blocks count c i -> a <> c -> m3 !! a = mem p !! a).
  { intros a Ha Hac. unfold m3. rewrite lookup_insert_ne by (intros <-; apply Ha, chunk_blocks_in; exists (count - 1); split; [lia|done]).
    rewrite Hoth; [by apply lookup_insert_ne|]. intros j Hj ->. apply Ha, chunk_blocks_in. exists j. split; [lia|done]. }
  do 4 eexists. split; [done|].
  edestruct (add_chunk p sm fr lg i s h c k m3) as (ss & Hss & Hlive & Hp'); [done|done|done|done|exact Ht|exact Hlk|fold count; lia|..|done|].
  - apply map_subseteq_spec. intros a x Ha. rewrite Hout; [done|..].
    + intros (j & Hj & ->)%chunk_blocks_in. fold B in Ha. rewrite (fresh_cells _ _ _ _ _ _ _ _ Hp Ht Hlk) in Ha; [done|]. by apply Hin.
    + intros ->. rewrite (fresh_cells _ _ _ _ _ _ _ _ Hp Ht Hlk) in Ha; [done|]. unfold sizeof_chunk in *. nia.
  - unfold m3. rewrite lookup_insert_ne by (unfold B, sizeof_chunk; nia).
    rewrite Hoth by (intros j Hj; unfold B, sizeof_chunk; nia). apply lookup_insert_eq.
  - fold count B. unfold chunk_blocks. rewrite <-(app_nil_r (_ <$> _)), <-(Z2Nat.id count) by lia.
    replace B with (if Z.to_nat count is O then NULL else B + 0 * bs i) by (destruct (Z.to_nat count) eqn:Ez; lia).
    apply hchain_blocks; [|done]. intros j Hj. fold B. rewrite Z2Nat.id in * by lia. unfold m3.
    destruct (Z.eqb_spec (j + 1) (0 + count)) as [Ej|Ej].
    + replace j with (count - 1) by lia. by rewrite lookup_insert_eq.
    + rewrite lookup_insert_ne by nia. rewrite Hlnk by lia. done.
  - intros a x Ha. destruct (decide (a ∈ chunk_blocks count c i)); [by right; right|]. destruct (decide (a = c)); [by right; left|].
    left. by rewrite <-Hout.
  - rewrite Hbs in Hss. exists ss. split; [exact Hss|]. split; [exact Hlive|]. right. split; [done|]. exists c. split.
    { rewrite arr_set_ok in Hss by done. injection Hss as <-. rewrite arr_get_insert by lia. by rewrite decide_True. }
    split; [|by split]. intros E0. apply (f_equal zlen) in E0. rewrite chunk_blocks_zlen in E0 by lia. change (zlen (@nil Z)) with 0 in E0. lia.
Qed.

Lemma lg_nonnull p sm fr lg c : pool_inv p sm fr lg -> c ∈ lg -> 0 < c.
Proof.
  intros Hp Hc. destruct (pi_large _ _ _ _ Hp c Hc) as (n & _ & _ & (k & Hk & _) & _).
  eapply heap_positive; [by eapply region_inv|exact Hk].
Qed.

(** What an allocation does to the pool: [alloc_ok] of the interface. *)
Definition allocated p (size : Z) (r : option (vox_mpool H * Z)) : Prop :=
  exists p' a sm fr lg, r = Some (p', a) /\ pool_inv p' sm fr lg /\ evolves (heap p) (heap p') /\ self p' = self p /\
    bytes p' = bytes p /\ initial_block_count p' = initial_block_count p /\
  ((a = NULL /\ live_of (mem p') = live_of (mem p)) \/
   (0 < a /\ 0 < size <= PTRDIFF_MAX /\ live_of (mem p) !! a = None /\
    exists n, size <= n /\ live_of (mem p') = <[a := n]> (live_of (mem p)) /\
      (8192 < size -> n = size) /\ (size <= 8192 -> n = 2 ^ (4 + vox_mpool_get_slot_index size)))).

(** The cells of a new large block. *)
Definition large_cells (m : gmap Z cell) (c size next : Z) : gmap Z cell :=
  <[c := Chunk next NULL (c + 24)]> (<[c + 40 := Meta 255]> (<[c + 24 := Large size c]> m)).

Lemma write_large h m c k size next : mp_live h !! c = Some k -> 48 <= k ->
  (m ← write_new h c m (c + sizeof_chunk) sizeof_large (Large size c);
   m ← write_new h c m (c + sizeof_chunk + sizeof_large) sizeof_meta (Meta 255);
   write_new h c m c sizeof_chunk (Chunk next NULL (c + sizeof_chunk))) = Some (large_cells m c size next).
Proof.
  intros Hk H48. unfold write_new, sizeof_chunk, sizeof_large, sizeof_meta. rewrite Hk.
  rewrite (proj2 (Z.leb_le c (c + 24))), (proj2 (Z.leb_le (c + 24 + 16) (c + k))) by lia. cbn [andb mbind option_bind].
  rewrite (proj2 (Z.leb_le c (c + 24 + 16))), (proj2 (Z.leb_le (c + 24 + 16 + 8) (c + k))) by lia. cbn [andb mbind option_bind].
  rewrite (proj2 (Z.leb_le c c)), (proj2 (Z.leb_le (c + 24) (c + k))) by lia. cbn [andb].
  unfold large_cells. by replace (c + 24 + 16) with (c + 40) by lia.
Qed.

Lemma large_cells_get m c size next :
  large_cells m c size next !! c = Some (Chunk next NULL (c + 24)) /\
  large_cells m c size next !! (c + 24) = Some (Large size c) /\
  large_cells m c size next !! (c + 40) = Some (Meta 255) /\
  (forall a, a <> c -> a <> c + 24 -> a <> c + 40 -> large_cells m c size next !! a = m !! a).
Proof.
  unfold large_cells. split; [apply lookup_insert_eq|]. split; [|split].
  - rewrite !lookup_insert_ne by lia. apply lookup_insert_eq.
  - rewrite lookup_insert_ne by lia. apply lookup_insert_eq.
  - intros a ???. by rewrite !lookup_insert_ne by lia.
Qed.

(** The new block joins what the users see; [m4] may differ in links of chunk nodes. *)
Lemma live_linked p sm fr lg c size next m4 :
  pool_inv p sm fr lg -> (forall a, a = c \/ a = c + 24 \/ a = c + 40 -> mem p !! a = None) ->
  (forall b x, (forall n q k, x <> Chunk n q k) -> m4 !! b = Some x <-> large_cells (mem p) c size next !! b = Some x) ->
  live_of m4 = <[c + 48 := size]> (live_of (mem p)).
Proof.
  intros Hp Hfresh Hnc. destruct (large_cells_get (mem p) c size next) as (Hc0 & Hc24 & Hc40 & Hold).
  set (m3 := large_cells (mem p) c size next) in *.
  assert (Hkeep : forall a x, mem p !! a = Some x -> m3 !! a = Some x).
  { intros a x Ha. rewrite Hold; [done|..]; intros ->; rewrite Hfresh in Ha by tauto; done. }
  replace (c + 48) with (c + 40 + sizeof_meta) by (unfold sizeof_meta; lia). apply (live_update _ _ (c + 40) (Some size)).
  { unfold usable. rewrite (proj2 (Hnc (c + 40) (Meta 255) ltac:(done)) Hc40). change (255 =? 255) with true. cbv iota.
    replace (c + 40 - sizeof_large) with (c + 24) by (unfold sizeof_large; lia). unfold get_large.
    by rewrite (proj2 (Hnc (c + 24) (Large size c) ltac:(done)) Hc24). }
  intros a Ha. unfold usable.
  assert (Hback : forall j, m4 !! a = Some (Meta j) -> mem p !! a = Some (Meta j)).
  { intros j Ex. apply Hnc in Ex; [|done]. rewrite <-Ex. symmetry. apply Hold; [intros ->; congruence..|done]. }
  destruct (mem p !! a) as [y|] eqn:Ey.
  - destruct y as [n|j|n q kk|n q].
    + by rewrite (proj2 (Hnc a (Header n) ltac:(done)) (Hkeep _ _ Ey)).
    + rewrite (proj2 (Hnc a (Meta j) ltac:(done)) (Hkeep _ _ Ey)). destruct (Z.eqb_spec j 255) as [->|]; [|done].
      destruct (large_meta _ _ _ _ _ Hp Ey) as (c' & n & Hc' & -> & El).
      replace (c' + 40 - sizeof_large) with (c' + 24) by (unfold sizeof_large; lia). unfold get_large. rewrite El.
      by rewrite (proj2 (Hnc (c' + 24) (Large n c') ltac:(done)) (Hkeep _ _ El)).
    + destruct (m4 !! a) as [[|j| |]|]; try done. by specialize (Hback j eq_refl).
    + by rewrite (proj2 (Hnc a (Large n q) ltac:(done)) (Hkeep _ _ Ey)).
  - destruct (m4 !! a) as [[|j| |]|]; try done. by specialize (Hback j eq_refl).
Qed.

(** The pool with a new large block whose node is linked in front. *)
Lemma add_large p sm fr lg h c k size m4 :
  pool_inv p sm fr lg -> took (heap p) h [c] -> mp_live h !! c = Some k -> 48 + size <= k -> 8192 < size ->
  dchain m4 c (large_chunks p) lg ->
  (forall b, b ∉ lg -> m4 !! b = large_cells (mem p) c size (large_chunks p) !! b) ->
  (forall b x, (forall n q k, x <> Chunk n q k) -> m4 !! b = Some x <-> large_cells (mem p) c size (large_chunks p) !! b = Some x) ->
  live_of (mem p) !! (c + 48) = None /\ live_of m4 = <[c + 48 := size]> (live_of (mem p)) /\
  pool_inv (with_used (with_large (with_heap p h m4) c) (u64 (total_used p + size))) sm fr (c :: lg).
Proof.
  intros Hp Ht Hlk Hfit Hbig Hd Hm4 Hnc. destruct (chunk_kind _ _ _ _ Hp) as (_ & Hsl & Hndl & _).
  assert (Hfresh : forall a, c <= a < c + k -> mem p !! a = None) by (intros a; by apply (fresh_cells p sm fr lg h)).
  pose proof (live_linked p sm fr lg c size (large_chunks p) m4 Hp ltac:(intros; apply Hfresh; lia) Hnc) as Hlive.
  destruct (large_cells_get (mem p) c size (large_chunks p)) as (Hc0 & Hc24 & Hc40 & Hold). set (m3 := large_cells _ _ _ _) in *.
  assert (Hkeep : forall a x, mem p !! a = Some x -> m3 !! a = Some x).
  { intros a x Ha. rewrite Hold; [done|..]; intros ->; rewrite Hfresh in Ha by lia; done. }
  assert (Hcl : c ∉ lg).
  { intros Hin. destruct (pi_large _ _ _ _ Hp c Hin) as (n & _ & _ & (q & Hq & _) & _).
    pose proof (tk_fresh _ _ _ Ht c ltac:(by left)). congruence. }
  assert (Hfree : live_of (mem p) !! (c + 48) = None).
  { rewrite live_of_lookup. unfold usable, sizeof_meta. by rewrite Hfresh by lia. }
  split; [done|]. split; [done|].
  apply (inv_large p sm fr lg); try done; cbn [heap mem large_chunks total_used with_heap with_large with_used].
  - eapply took_perm; [eapply took_app; [apply Hp|exact Ht]|]. cbn. solve_Permutation.
  - intros c' i n _. by eapply took_region.
  - intros c' i Hc'. rewrite Hm4 by (by eapply Hsl). destruct (pi_small _ _ _ _ Hp c' i Hc') as [Hi _].
    destruct (pool_slot_get _ _ _ _ i Hp Hi) as [s Hs]. destruct (pi_slot _ _ _ _ Hp i s Hs) as (_ & _ & _ & Hcc & _).
    apply chunks_of_in in Hc'. destruct (cchain_in _ _ _ _ Hcc Hc') as (? & ? & Ev). rewrite Ev. by apply Hkeep.
  - intros i b Hb. rewrite Hm4.
    + destruct (block_value _ _ _ _ _ _ Hp Hb) as [[_ [n Ev]]|[_ Ev]]; rewrite Ev; by apply Hkeep.
    + intros Hin. apply (block_not_large _ _ _ _ _ _ b 0 Hp Hb Hin); lia.
  - split; [done|]. exists (large_chunks p). split; [|done]. rewrite Hm4 by done. exact Hc0.
  - intros c' [->|Hin]%elem_of_cons.
    + exists size. split_and!; [by apply Hnc|by apply Hnc|exists k; split; [done|lia]|lia].
    + destruct (pi_large _ _ _ _ Hp c' Hin) as (n & E1 & E2 & R & Hn). exists n.
      split_and!; [apply Hnc; [done|by apply Hkeep]..|by eapply took_region|done].
  - intros a x Ha. destruct (decide (Exists (fun c' => a = c' \/ a = c' + 24 \/ a = c' + 40) (c :: lg))) as [Hex|Hex].
    + right. apply Exists_exists in Hex as (c' & ? & ?). eauto.
    + left. rewrite Exists_exists in Hex. assert (Hno : forall c', c' ∈ c :: lg -> a <> c' /\ a <> c' + 24 /\ a <> c' + 40).
      { intros c' Hc'. split_and!; intros ->; apply Hex; exists c'; auto. }
      destruct (Hno c ltac:(by left)) as (? & ? & ?).
      rewrite Hm4, Hold in Ha by (done || (intros Hin; by destruct (Hno a ltac:(by right)))). exists x. split; [done|].
      intros c' o Hc' Ho ->. destruct (Hno c' ltac:(by right)) as (? & ? & ?). lia.
  - rewrite Hlive, msum_insert by done. rewrite (pi_used _ _ _ _ Hp). unfold u64. rewrite Zplus_mod_idemp_l. f_equal. lia.
Qed.

Lemma alloc_large_ok p sm fr lg size : pool_inv p sm fr lg -> 8192 < size < 2 ^ 64 -> allocated p size (alloc_large p size).
Proof.
  intros Hp Hsize. pose proof (region_inv _ _ _ _ Hp) as Hh. destruct (chunk_kind _ _ _ _ Hp) as (_ & _ & Hndl & _).
  unfold alloc_large. change (sizeof_chunk + sizeof_large + sizeof_meta) with 48.
  destruct (Z.ltb_spec (SIZE_MAX - 48) size) as [Hov|Hno].
  { exists p, NULL, sm, fr, lg. split; [done|]. split; [done|]. split; [apply rtc_refl|]. split_and!; try done. by left. }
  unfold SIZE_MAX in Hno. rewrite u64_small by lia. destruct (mp_alloc (heap p) (48 + size)) as [h c] eqn:E.
  pose proof (evolves_alloc _ _ _ _ E) as Hev. assert (0 <= 48 + size < 2 ^ 64) as Hsz by lia.
  destruct (Z.eqb_spec c NULL) as [->|Hc].
  { exists (with_heap p h (mem p)), NULL, sm, fr, lg. split; [done|]. split; [exact (refused_inv _ _ _ _ _ _ Hp Hsz E)|].
    split; [done|]. split_and!; try done. by left. }
  pose proof (took_alloc _ _ _ _ Hh Hsz E Hc) as Ht.
  destruct (mp_alloc_spec _ _ _ _ Hh Hsz E) as [Hh' [[? _]|(_ & Hmax & _ & k & Hk & Hl)]]; [done|].
  assert (mp_live h !! c = Some k) as Hlk by (by rewrite Hl, lookup_insert_eq).
  assert (0 < c) as Hcpos by (eapply (heap_positive h); [done|exact Hlk]).
  pose proof (write_large h (mem p) c k size (large_chunks p) Hlk ltac:(lia)) as Hw.
  apply bind_Some in Hw as (m1 & Hw1 & Hw). rewrite Hw1. cbn [mbind option_bind].
  apply bind_Some in Hw as (m2 & Hw2 & Hw). rewrite Hw2. cbn [mbind option_bind]. rewrite Hw. cbn [mbind option_bind].
  destruct (link_large (large_cells (mem p) c size (large_chunks p)) lg (large_chunks p) c NULL) as (m4 & -> & Hd & Hm4 & _ & Hnc); [|done| |].
  { eapply dchain_frame; [|apply Hp]. intros b Hb. destruct (large_value _ _ _ _ _ Hp Hb) as (n & q & Ev).
    apply (large_cells_get (mem p)); intros ->; rewrite (fresh_cells _ _ _ _ _ _ _ _ Hp Ht Hlk) in Ev; done || lia. }
  { intros b Hb. pose proof (lg_nonnull _ _ _ _ _ Hp Hb). unfold NULL. lia. }
  cbn [mbind option_bind].
  destruct (add_large p sm fr lg h c k size m4 Hp Ht Hlk ltac:(lia) ltac:(lia) Hd Hm4 Hnc) as (Hfree & Hlive & Hp').
  replace (c + sizeof_chunk + sizeof_large + sizeof_meta) with (c + 48) by (unfold sizeof_chunk, sizeof_large, sizeof_meta; lia).
  do 5 eexists. split; [done|]. split; [exact Hp'|]. split; [done|]. do 3 (split; [done|]).
  right. split; [lia|]. split; [lia|]. split; [done|]. exists size. split; [lia|]. split; [done|]. split; [done|lia].
Qed.

(** Taking a node out of the list. *)
Fixpoint dseg (m : gmap Z cell) (prev a : Z) (l : list Z) (last next : Z) : Prop :=
  match l with
  | [] => last = prev /\ a = next
  | c :: l => a = c /\ exists n, m !! c = Some (Chunk n prev (c + sizeof_chunk)) /\ dseg m c n l last next
  end.

Lemma dchain_split m prev a l1 c l2 : dchain m prev a (l1 ++ c :: l2) -> exists q n,
  dseg m prev a l1 q c /\ m !! c = Some (Chunk n q (c + sizeof_chunk)) /\ dchain m c n l2.
Proof.
  revert prev a. induction l1 as [|b l1 IH]; intros prev a; cbn.
  - intros (-> & n & E & Hd). exists prev, n. by split_and!.
  - intros (-> & n & E & Hd). destruct (IH _ _ Hd) as (q & n' & Hs & ? & ?). exists q, n'. split; [|done]. split; [done|]. by exists n.
Qed.

Lemma dseg_join m prev a l1 q b l2 : dseg m prev a l1 q b -> dchain m q b l2 -> dchain m prev a (l1 ++ l2).
Proof.
  revert prev a. induction l1 as [|c l1 IH]; intros prev a; cbn; [by intros [-> ->]|].
  intros (-> & n & E & Hs) Hd. split; [done|]. exists n. split; [done|]. by apply IH.
Qed.

Lemma dseg_frame m m' prev a l q b : (forall x, x ∈ l -> m' !! x = m !! x) -> dseg m prev a l q b -> dseg m' prev a l q b.
Proof.
  revert prev a. induction l as [|c l IH]; intros prev a Hm; cbn; [done|]. intros (-> & n & E & Hs). split; [done|]. exists n.
  rewrite Hm by (by left). split; [done|]. apply IH; [|done]. intros x Hx. apply Hm. by right.
Qed.

(** The last node of a segment points elsewhere. *)
Lemma dseg_retarget m prev a c l q b b' : dseg m prev a (c :: l) q b -> NoDup (c :: l) -> exists k,
  q ∈ c :: l /\ m !! q = Some (Chunk b k (q + sizeof_chunk)) /\
  dseg (<[q := Chunk b' k (q + sizeof_chunk)]> m) prev a (c :: l) q b'.
Proof.
  revert prev a c. induction l as [|d l IH]; intros prev a c Hs Hnd.
  - destruct Hs as (-> & n & E & -> & ->). exists prev. split; [by left|]. split; [done|]. split; [done|]. exists b'.
    by rewrite lookup_insert_eq.
  - destruct Hs as (-> & n & E & Hs). apply NoDup_cons in Hnd as [Hn Hnd].
    destruct (IH _ _ _ Hs Hnd) as (k & Hq & Eq & Hs'). exists k. split; [by right|]. split; [done|]. split; [done|].
    exists n. split; [|done]. rewrite lookup_insert_ne; [done|]. intros ->. done.
Qed.

Lemma unlink_large m a l1 c l2 :
  dchain m NULL a (l1 ++ c :: l2) -> NoDup (l1 ++ c :: l2) -> (forall b, b ∈ l1 ++ c :: l2 -> b <> NULL) -> exists n q m1 head m2,
  get_chunk m c = Some (n, q, c + sizeof_chunk) /\
  (if negb (q =? NULL) then m ← set_next m q n; Some (m, a) else Some (m, n)) = Some (m1, head) /\
  (if negb (n =? NULL) then set_prev m1 n q else Some m1) = Some m2 /\
  dchain m2 NULL head (l1 ++ l2) /\
  (forall b, b ∉ l1 ++ l2 -> m2 !! b = m !! b) /\
  (forall b x, (forall n q k, x <> Chunk n q k) -> m2 !! b = Some x <-> m !! b = Some x).
Proof.
  intros Hd Hnd Hnn. destruct (dchain_split _ _ _ _ _ _ Hd) as (q & n & Hs & E & Hd2).
  apply NoDup_app in Hnd as (Hnd1 & Hdis & Hnd2). apply NoDup_cons in Hnd2 as [Hc2 Hnd2].
  assert (Hx : exists m1 head, (if negb (q =? NULL) then m ← set_next m q n; Some (m, a) else Some (m, n)) = Some (m1, head) /\
    dseg m1 NULL head l1 q n /\ (forall b, b ∉ l1 -> m1 !! b = m !! b) /\
    (forall b x, (forall n q k, x <> Chunk n q k) -> m1 !! b = Some x <-> m !! b = Some x)).
  { destruct l1 as [|d l1].
    - destruct Hs as [-> ->]. exists m, n. by split_and!.
    - destruct (dseg_retarget _ _ _ _ _ _ _ n Hs Hnd1) as (k & Hq & Eq & Hs').
      rewrite (proj2 (Z.eqb_neq q NULL)) by (apply Hnn, elem_of_app; by left). cbn [negb].
      unfold set_next, get_chunk. rewrite Eq. cbn [mbind option_bind]. do 2 eexists. split; [done|]. split; [done|]. split.
      + intros b Hb. apply lookup_insert_ne. by intros ->.
      + intros b x Hx. destruct (decide (q = b)) as [->|Hne]; [|by rewrite lookup_insert_ne].
        rewrite lookup_insert_eq, Eq. split; intros [= <-]; by destruct (Hx _ _ _ eq_refl). }
  destruct Hx as (m1 & head & Hset1 & Hs1 & Hout1 & Hnc1).
  assert (Hd1 : dchain m1 c n l2).
  { eapply dchain_frame; [|exact Hd2]. intros b Hb. apply Hout1. intros Hb1. apply (Hdis b Hb1). by right. }
  destruct (link_large m1 l2 n q c Hd1 Hnd2) as (m2 & Hset2 & Hd' & Hout2 & _ & Hnc2).
  { intros b Hb. apply Hnn, elem_of_app. by right; right. }
  exists n, q, m1, head, m2. split; [unfold get_chunk; by rewrite E|]. split; [done|]. split.
  { rewrite <-Hset2. by destruct (n =? NULL). }
  split; [|split].
  - apply (dseg_join _ _ _ _ q n); [|done]. eapply dseg_frame; [|exact Hs1]. intros x Hx. apply Hout2. intros Hx2.
    apply (Hdis x Hx). by right.
  - intros b Hb. rewrite elem_of_app in Hb. rewrite Hout2, Hout1 by tauto. done.
  - intros b x Hx. by rewrite Hnc2, Hnc1.
Qed.

(** Cells outside a released block stay. *)
Lemma outside p sm fr lg a c o c' k : pool_inv p sm fr lg ->
  spot (initial_block_count p) sm lg a c o -> mp_live (heap p) !! c' = Some k -> c <> c' -> ~ (c' <= a < c' + k).
Proof.
  intros Hp Hs Hk Hne Ha. destruct (spot_in _ _ _ _ _ _ _ Hp Hs) as (n & R & Ho). destruct Hs as [-> _]. apply Hne.
  apply (owner_same (heap p) c n c' k o (c + o - c')); [by eapply region_inv|done|by exists k|lia..].
Qed.

Definition freed p (ptr : Z) (r : option (vox_mpool H)) : Prop :=
  exists p' sm fr lg, r = Some p' /\ pool_inv p' sm fr lg /\ evolves (heap p) (heap p') /\ self p' = self p /\
    bytes p' = bytes p /\ initial_block_count p' = initial_block_count p /\
    live_of (mem p') = delete ptr (live_of (mem p)).

Lemma released h m c k : mp_live h !! c = Some k ->
  release h m c = (mp_free h c, filter (fun ac => ~ (c <= ac.1 < c + k)) m).
Proof. intros E. unfold release. by rewrite E. Qed.

(** Freeing a large block changes what the users see at its address only. *)
Lemma live_unlinked p sm fr lg c k m2 :
  pool_inv p sm fr lg -> c ∈ lg -> mp_live (heap p) !! c = Some k -> 48 <= k ->
  (forall b x, (forall n q k, x <> Chunk n q k) -> m2 !! b = Some x <-> mem p !! b = Some x) ->
  live_of (filter (fun ac => ~ (c <= ac.1 < c + k)) m2) = delete (c + 48) (live_of (mem p)).
Proof.
  intros Hp Hc Hk H48 Hnc. set (m3 := filter _ m2).
  replace (c + 48) with (c + 40 + sizeof_meta) by (unfold sizeof_meta; lia).
  assert (Hin : forall a, c <= a < c + k -> m3 !! a = None).
  { intros a Ha. apply map_lookup_filter_None. right. intros x _ Hno. by apply Hno. }
  assert (Hkeep : forall a x, mem p !! a = Some x -> (forall n q k, x <> Chunk n q k) -> ~ (c <= a < c + k) -> m3 !! a = Some x).
  { intros a x Ha Hx Ho. apply map_lookup_filter_Some. split; [by apply Hnc|done]. }
  apply (live_update _ _ (c + 40) None).
  - unfold usable. by rewrite Hin by lia.
  - intros a Ha. unfold usable. destruct (m3 !! a) as [x|] eqn:Ex.
    + apply map_lookup_filter_Some in Ex as [Ex Hout]. cbn in Hout. destruct x as [n|j|n q kk|n q].
      * apply Hnc in Ex; [|done]. by rewrite Ex.
      * apply Hnc in Ex; [|done]. rewrite Ex. destruct (Z.eqb_spec j 255) as [->|]; [|done].
        destruct (large_meta _ _ _ _ _ Hp Ex) as (c' & n & Hc' & -> & El).
        replace (c' + 40 - sizeof_large) with (c' + 24) by (unfold sizeof_large; lia). unfold get_large. rewrite El.
        rewrite (Hkeep _ _ El); [done|done|].
        apply (outside p sm fr lg _ c' 24 c k Hp); [apply (large_spot p sm fr); auto|done|]. intros ->. lia.
      * destruct (mem p !! a) as [y|] eqn:Ey; [|done]. destruct y as [|j| |]; try done.
        apply (Hnc a (Meta j)) in Ey; [congruence|done].
      * apply Hnc in Ex; [|done]. by rewrite Ex.
    + destruct (mem p !! a) as [y|] eqn:Ey; [|done]. destruct y as [|j| |]; try done.
      destruct (decide (c <= a < c + k)) as [Hio|Hout]; [|rewrite (Hkeep _ _ Ey) in Ex by done; done].
      exfalso. destruct (cells_spot _ _ _ _ _ _ Hp Ey) as (c' & o & Hs).
      destruct (decide (c' = c)) as [->|Hne]; [|by apply (outside p sm fr lg _ _ _ _ _ Hp Hs Hk Hne)].
      destruct Hs as [-> [(i & Hi & _)|(_ & Ho)]]; [by eapply (chunk_kind _ _ _ _ Hp)|].
      destruct (large_value _ _ _ _ _ Hp Hc) as (n & q & E0). destruct (pi_large _ _ _ _ Hp c Hc) as (s & E24 & _).
      destruct Ho as [->|[->| ->]]; [rewrite Z.add_0_r in Ey; congruence|congruence|lia].
Qed.

Lemma free_large_ok p sm fr lg c : pool_inv p sm fr lg -> c ∈ lg -> freed p (c + 48) (free_large p (c + 40)).
Proof.
  intros Hp Hc. pose proof (region_inv _ _ _ _ Hp) as Hh. destruct (chunk_kind _ _ _ _ Hp) as (_ & Hsl & Hndl & _).
  destruct (pi_large _ _ _ _ Hp c Hc) as (size & E24 & E40 & (k & Hk & Hsz) & Hbig).
  unfold free_large. replace (c + 40 - sizeof_large) with (c + 24) by (unfold sizeof_large; lia).
  unfold get_large at 1. rewrite E24. cbn [mbind option_bind].
  apply list_elem_of_split in Hc as Hsplit. destruct Hsplit as (l1 & l2 & ->).
  destruct (unlink_large (mem p) (large_chunks p) l1 c l2 (pi_list _ _ _ _ Hp) Hndl) as (n & q & m1 & head & m2 & Eg & E1 & E2 & Hd & Hout & Hnc).
  { intros b Hb. pose proof (lg_nonnull _ _ _ _ _ Hp Hb). unfold NULL. lia. }
  rewrite Eg. cbn [mbind option_bind]. rewrite E1. cbn [mbind option_bind]. rewrite E2. cbn [mbind option_bind].
  replace (c + 24 - sizeof_chunk) with c by (unfold sizeof_chunk; lia). rewrite (released _ _ _ _ Hk).
  pose proof (live_unlinked p sm fr _ c k m2 Hp Hc Hk ltac:(lia) Hnc) as Hlive. set (m3 := filter _ m2) in *.
  assert (Hother : forall c' o, spot (initial_block_count p) sm (l1 ++ c :: l2) (c' + o) c' o -> c' <> c ->
    (c' + o) ∉ l1 ++ l2 -> m3 !! (c' + o) = mem p !! (c' + o)).
  { intros c' o Hs Hne Hn. unfold m3. rewrite map_lookup_filter. rewrite Hout by done.
    destruct (mem p !! (c' + o)) as [x|]; [|done]. cbn [mbind option_bind]. rewrite option_guard_True; [done|].
    by apply (outside p sm fr _ _ _ _ _ _ Hp Hs Hk Hne). }
  assert (Hsub : forall b, b ∈ l1 ++ l2 -> b ∈ l1 ++ c :: l2) by (intros b; rewrite !elem_of_app, elem_of_cons; tauto).
  assert (Hcn : c ∉ l1 ++ l2).
  { apply NoDup_app in Hndl as (_ & Hdis & Hnd2). apply NoDup_cons in Hnd2 as [? _]. rewrite elem_of_app.
    intros [Hi|Hi]; [apply (Hdis c Hi); by left|done]. }
  assert (Htk : took h0 (mp_free (heap p) c) (self p :: map fst sm ++ l1 ++ l2)).
  { apply took_free. eapply took_perm; [apply Hp|]. rewrite !app_assoc, <-Permutation_middle. cbn. by rewrite Permutation_swap. }
  assert (Hreg : forall x n, x <> c -> region (heap p) x n -> region (mp_free (heap p) c) x n).
  { intros x y Hne (z & Ez & Hz). exists z. split; [|done].
    destruct (mp_free_spec (heap p) c Hh) as [_ ->]; [by eexists|]. by rewrite lookup_delete_ne by done. }
  eexists _, sm, fr, (l1 ++ l2). split; [done|]. split; [|split; [apply evolves_free|done]].
  apply (inv_large p sm fr (l1 ++ c :: l2)); try done; cbn [heap mem large_chunks total_used with_heap with_large with_used].
  - intros c' i y Hin. apply Hreg. intros ->. by eapply Hsl.
  - intros c' i Hin. destruct (pi_small _ _ _ _ Hp c' i Hin) as [Hi _]. pose proof (Hother c' 0) as Ho. rewrite Z.add_0_r in Ho.
    apply Ho; [split; [lia|left; eauto 6]|intros ->; by eapply Hsl|intros Hb; by apply (Hsl c' i Hin), Hsub].
  - intros i b Hb. destruct (block_spot _ _ _ _ _ _ Hp Hb) as (c' & j & Hin & _ & _ & Hs). pose proof Hs as [Eb _]. rewrite Eb in Hs |- *.
    apply Hother; [done|intros ->; by eapply Hsl|]. rewrite <-Eb. intros Hi.
    apply (block_not_large _ _ _ _ _ _ b 0 Hp Hb (Hsub b Hi)); lia.
  - eapply dchain_frame; [|exact Hd]. intros b Hb. unfold m3. rewrite map_lookup_filter.
    destruct (m2 !! b) as [x|]; [|done]. cbn [mbind option_bind]. rewrite option_guard_True; [done|].
    apply (outside p sm fr (l1 ++ c :: l2) b b 0 c k Hp); [|done|by intros ->].
    split; [lia|]. right. split; [by apply Hsub|by left].
  - intros c' Hin. destruct (pi_large _ _ _ _ Hp c' (Hsub _ Hin)) as (y & F24 & F40 & R & Hy). exists y.
    assert (c' <> c) as Hne by (intros ->; done).
    assert (Hl : forall o x, o = 0 \/ o = 24 \/ o = 40 -> (forall n q k, x <> Chunk n q k) -> mem p !! (c' + o) = Some x -> m3 !! (c' + o) = Some x).
    { intros o x Ho Hx Ex. apply map_lookup_filter_Some. split; [by apply Hnc|].
      apply (outside p sm fr (l1 ++ c :: l2) _ c' o c k Hp); [apply (large_spot p sm fr); auto|done|done]. }
    split_and!; [by apply Hl; auto|by apply Hl; auto|by apply Hreg|done].
  - intros a x Ha. apply map_lookup_filter_Some in Ha as [Ha Hno]. cbn in Hno.
    destruct (decide (Exists (fun c' => a = c' \/ a = c' + 24 \/ a = c' + 40) (l1 ++ l2))) as [Hex|Hex].
    + right. apply Exists_exists in Hex as (c' & ? & ?). eauto.
    + left. assert (a ∉ l1 ++ l2) as Hni by (intros Hi; apply Hex, Exists_exists; exists a; auto).
      rewrite Hout in Ha by done. exists x. split; [done|]. intros c' o Hc' Ho ->.
      destruct (decide (c' = c)) as [->|Hne]; [apply Hno; lia|]. apply Hex, Exists_exists. exists c'.
      split; [|lia]. rewrite elem_of_app, elem_of_cons in Hc'. rewrite elem_of_app. tauto.
  - rewrite Hlive, (msum_delete _ _ size).
    + rewrite (pi_used _ _ _ _ Hp). unfold u64. by rewrite Zminus_mod_idemp_l.
    + rewrite live_of_lookup. replace (c + 48 - sizeof_meta) with (c + 40) by (unfold sizeof_meta; lia). unfold usable. rewrite E40.
      replace (c + 40 - sizeof_large) with (c + 24) by (unfold sizeof_large; lia). unfold get_large. by rewrite E24.
Qed.

(** ** The operations *)

Lemma slot_index size : 0 < size ->
  (8192 < size /\ vox_mpool_get_slot_index size = -1) \/
  (size <= 8192 /\ 0 <= vox_mpool_get_slot_index size < 10 /\ size <= 2 ^ (4 + vox_mpool_get_slot_index size)).
Proof.
  intros Hs. unfold vox_mpool_get_slot_index.
  repeat (match goal with |- context[size <=? ?k] => destruct (Z.leb_spec size k) end); try (right; split; [lia|split; [lia|cbn; lia]]).
  left. lia.
Qed.

Lemma block_positive p sm fr lg i b : pool_inv p sm fr lg -> is_block (initial_block_count p) sm i b -> 0 < b.
Proof.
  intros Hp (c & j & Hc & Hj & ->). destruct (pi_small _ _ _ _ Hp c i Hc) as [Hi (k & Hk & _)].
  pose proof (heap_positive _ _ _ (region_inv _ _ _ _ Hp) Hk). pose proof (bs_range i Hi). unfold sizeof_chunk. nia.
Qed.

Lemma free_list_null p sm fr lg i s : pool_inv p sm fr lg -> (slots p).[i] = Some s ->
  free_list s = NULL <-> fr i = [].
Proof.
  intros Hp Hs. destruct (pi_slot _ _ _ _ Hp i s Hs) as (_ & _ & Hch & _). destruct (fr i) as [|b l] eqn:E; [done|].
  destruct Hch as [-> _]. split; [|done]. intros Hb. exfalso.
  pose proof (block_positive p sm fr lg i b Hp) as Hpos. rewrite Hb in Hpos. unfold NULL in Hpos.
  assert (0 < 0); [|lia]. apply Hpos. apply (pi_free _ _ _ _ Hp). rewrite E, Hb. by left.
Qed.

(** Taking a block from a slot that has one. *)
Lemma take_block p sm fr lg size i s :
  pool_inv p sm fr lg -> 0 < size -> vox_mpool_get_slot_index size = i -> size <= 8192 ->
  (slots p).[i] = Some s -> fr i <> [] ->
  allocated p size
    (next ← header_next (mem p) (free_list s);
     ss ← (slots p).[i <- with_free s next (u64 (free_blocks s - 1))];
     m ← overwrite (mem p) (free_list s) (Meta (u8 i));
     let p := with_slots (with_heap p (heap p) m) ss in
     Some (with_used p (u64 (total_used p + user_size s)), free_list s + sizeof_meta)).
Proof.
  intros Hp Hsz Hidx Hle Hs Hne. destruct (slot_index size Hsz) as [[? _]|(_ & Hi & Hfit)]; [lia|]. rewrite Hidx in Hi, Hfit.
  destruct (fr i) as [|b l] eqn:Ef; [done|].
  destruct (pop_ok p sm fr lg i s b l Hp Hi Hs Ef) as (next & ss & -> & -> & E1 & E2 & Hfree & Hlive & Hp'). cbn [mbind option_bind].
  rewrite E1. cbn [mbind option_bind]. rewrite E2. cbn [mbind option_bind].
  do 5 eexists. split; [done|]. split; [exact Hp'|]. split; [apply rtc_refl|]. do 3 (split; [done|]). right.
  pose proof (block_positive p sm fr lg i b Hp ltac:(apply (pi_free _ _ _ _ Hp); rewrite Ef; by left)) as Hb.
  split; [unfold sizeof_meta; lia|]. split; [unfold PTRDIFF_MAX; lia|]. split; [done|]. exists (2 ^ (4 + i)).
  split; [done|]. split; [exact Hlive|]. split; [lia|]. intros _. by rewrite Hidx.
Qed.

Lemma allocated_from p q size r : live_of (mem q) = live_of (mem p) -> evolves (heap p) (heap q) -> self q = self p ->
  bytes q = bytes p -> initial_block_count q = initial_block_count p -> allocated q size r -> allocated p size r.
Proof.
  intros Hl He Hs Hb Hc (p' & a & sm & fr & lg & Hr & Hp & He' & Hs' & Hb' & Hc' & Hres).
  exists p', a, sm, fr, lg. rewrite Hl in Hres. split; [done|]. split; [done|]. split; [by etrans|].
  split; [congruence|]. split; [congruence|]. split; [congruence|done].
Qed.

Lemma alloc_internal_ok junk p sm fr lg size : pool_inv p sm fr lg -> 0 <= size < 2 ^ 64 ->
  allocated p size (vox_mpool_alloc_internal junk p size).
Proof.
  intros Hp Hsize. unfold vox_mpool_alloc_internal. destruct (Z.eqb_spec size 0) as [->|Hne].
  { exists p, NULL, sm, fr, lg. split; [done|]. split; [done|]. split; [apply rtc_refl|]. split_and!; try done. by left. }
  destruct (slot_index size ltac:(lia)) as [[Hbig ->]|(Hsmall & Hi & Hfit)].
  { change (-1 <? 0) with true. cbv iota. eapply alloc_large_ok; [done|lia]. }
  set (i := vox_mpool_get_slot_index size) in *. rewrite (proj2 (Z.ltb_ge i 0)) by lia.
  destruct (pool_slot_get _ _ _ _ _ Hp Hi) as [s Hs]. rewrite Hs. cbn [mbind option_bind].
  destruct (Z.eqb_spec (free_list s) NULL) as [Hnull|Hnn].
  2:{ cbn [mbind option_bind Z.eqb negb]. apply (take_block p sm fr lg); try done; [lia|].
      intros Hf. apply Hnn. by eapply free_list_null. }
  apply (free_list_null p sm fr lg i s Hp Hs) in Hnull.
  destruct (expand_ok junk p sm fr lg i s Hp Hi Hs Hnull) as (h & m & s' & rc & -> & ss & Hss & Hlive & Hres).
  cbn [mbind option_bind]. rewrite Hss. cbn [mbind option_bind].
  destruct Hres as [(-> & Hp' & Hev)|(-> & c & Hget & Hbl & Hev & Hp')].
  - change (-1 =? 0) with false. cbn [negb]. do 5 eexists. split; [done|]. split; [exact Hp'|]. split; [exact Hev|].
    do 3 (split; [done|]). by left.
  - change (0 =? 0) with true. cbn [negb]. eapply (allocated_from p (with_slots (with_heap p h m) ss)); try done.
    apply (take_block _ _ _ _ _ _ _ Hp'); try done; [lia|]. by rewrite fn_lookup_insert.
Qed.

Lemma alloc_okk junk p sm fr lg size : pool_inv p sm fr lg -> 0 <= size < 2 ^ 64 -> allocated p size (vox_mpool_alloc junk p size).
Proof.
  intros Hp Hs. unfold vox_mpool_alloc. destruct (Z.eqb_spec size 0) as [->|]; [|by eapply alloc_internal_ok].
  exists p, NULL, sm, fr, lg. split; [done|]. split; [done|]. split; [apply rtc_refl|]. split_and!; try done. by left.
Qed.

(** The two kinds of block in use. *)
Lemma live_cases p sm fr lg a n : pool_inv p sm fr lg -> live_of (mem p) !! a = Some n ->
  (exists i, 0 <= i < 10 /\ mem p !! (a - sizeof_meta) = Some (Meta i) /\ is_block (initial_block_count p) sm i (a - sizeof_meta) /\ n = 2 ^ (4 + i)) \/
  (exists c, c ∈ lg /\ a = c + 48 /\ mem p !! (c + 24) = Some (Large n c) /\ mem p !! (c + 40) = Some (Meta 255)).
Proof.
  intros Hp. rewrite live_of_lookup. unfold usable. set (k := a - sizeof_meta).
  destruct (mem p !! k) as [[|j| |]|] eqn:E; try done. destruct (Z.eqb_spec j 255) as [->|Hj].
  - destruct (large_meta _ _ _ _ _ Hp E) as (c & n' & Hc & Ek & El).
    replace (k - sizeof_large) with (c + 24) by (unfold sizeof_large; lia). unfold get_large. rewrite El. intros [= <-].
    right. exists c. split; [done|]. split; [unfold k, sizeof_meta in Ek; lia|]. split; [done|]. by rewrite <-Ek.
  - intros Hn. left. pose proof (arr_get_range _ _ _ Hn) as Hr. change (zlen BLOCK_SIZES) with 10 in Hr. exists j.
    rewrite sizes_get in Hn by done. injection Hn as <-. split; [done|]. split; [done|]. split; [|done].
    destruct (pi_cells _ _ _ _ Hp k _ E) as [[i Hi]|[[i Hi]|(c & Hc & Ea)]].
    + exfalso. destruct (pi_small _ _ _ _ Hp k i Hi) as [Hi10 _]. destruct (pool_slot_get _ _ _ _ i Hp Hi10) as [s' Hs'].
      destruct (pi_slot _ _ _ _ Hp i s' Hs') as (_ & _ & _ & Hcc & _). apply chunks_of_in in Hi.
      destruct (cchain_in _ _ _ _ Hcc Hi) as (? & ? & ?). congruence.
    + destruct (block_value _ _ _ _ _ _ Hp Hi) as [[_ [n' E']]|[_ E']]; [congruence|]. rewrite E in E'. by injection E' as ->.
    + exfalso. destruct (pi_large _ _ _ _ Hp c Hc) as (n' & E1 & E2 & _). destruct Ea as [Ea|[Ea|Ea]]; rewrite Ea in E.
      * destruct (large_value _ _ _ _ _ Hp Hc) as (? & ? & ?). congruence.
      * congruence.
      * congruence.
Qed.

Lemma free_internal_ok p sm fr lg a : pool_inv p sm fr lg -> is_Some (live_of (mem p) !! a) -> freed p a (vox_mpool_free_internal p a).
Proof.
  intros Hp [n Hn]. unfold vox_mpool_free_internal. destruct (live_cases _ _ _ _ _ _ Hp Hn) as [(i & Hi & E & Hb & ->)|(c & Hc & -> & E24 & E40)].
  - pose proof (block_positive _ _ _ _ _ _ Hp Hb) as Hpos. rewrite (proj2 (Z.eqb_neq a NULL)) by (unfold NULL, sizeof_meta in *; lia).
    unfold get_meta. rewrite E. cbn [mbind option_bind]. rewrite (proj2 (Z.eqb_neq i 255)), (proj2 (Z.leb_gt 10 i)) by lia.
    destruct (pool_slot_get _ _ _ _ i Hp Hi) as [s Hs]. rewrite Hs. cbn [mbind option_bind].
    destruct (push_ok p sm fr lg i s _ Hp Hi Hs E) as (ss & -> & E2 & Hl & Hp'). cbn [mbind option_bind]. rewrite E2. cbn [mbind option_bind].
    do 4 eexists. split; [done|]. split; [exact Hp'|]. split; [apply rtc_refl|]. do 3 (split; [done|]). cbn [mem with_used with_slots with_heap].
    rewrite Hl. f_equal. lia.
  - pose proof (lg_nonnull _ _ _ _ _ Hp Hc) as Hpos. rewrite (proj2 (Z.eqb_neq _ NULL)) by (unfold NULL; lia).
    replace (c + 48 - sizeof_meta) with (c + 40) by (unfold sizeof_meta; lia). unfold get_meta. rewrite E40. cbn [mbind option_bind].
    change (255 =? 255) with true. cbv iota. by eapply free_large_ok.
Qed.

(** The users' blocks do not overlap. *)
(** The block of the heap a live block lies in. *)
Lemma live_in p sm fr lg a (m : Z) : pool_inv p sm fr lg -> live_of (mem p) !! a = Some m ->
  exists c o r, mp_live (heap p) !! c = Some r /\ a = c + o /\ 0 <= o /\ o + m <= r /\
    ((exists i j, (c, i) ∈ sm /\ 0 <= i < 10 /\ o = 32 + j * bs i /\ m + 8 = bs i) \/ (c ∈ lg /\ o = 48)).
Proof.
  intros Hp Hx. destruct (live_cases _ _ _ _ _ _ Hp Hx) as [(i & Hi & _ & (c & j & Hc & Hj & E) & ->)|(c & Hc & -> & E24 & _)].
  - destruct (pi_small _ _ _ _ Hp c i Hc) as [_ (r & Hr & Hfit)]. pose proof (bs_range i Hi).
    exists c, (32 + j * bs i), r. unfold sizeof_meta, sizeof_chunk in *. split; [done|]. split; [lia|]. split; [nia|].
    assert (bs i = 2 ^ (4 + i) + 8) as Eb by done. split; [nia|]. left. exists i, j. split; [done|]. split; [done|]. split; [done|lia].
  - destruct (pi_large _ _ _ _ Hp c Hc) as (k & F24 & _ & (r & Hr & Hfit) & Hk). rewrite E24 in F24. injection F24 as <-.
    exists c, 48, r. split; [done|]. split; [done|]. split; [lia|]. split; [lia|]. by right.
Qed.

Lemma live_disjoint p sm fr lg a b (m n : Z) : pool_inv p sm fr lg -> a <> b ->
  live_of (mem p) !! a = Some m -> live_of (mem p) !! b = Some n -> a + m <= b \/ b + n <= a.
Proof.
  intros Hp Hne Ha Hb. pose proof (region_inv _ _ _ _ Hp) as Hh. destruct (chunk_kind _ _ _ _ Hp) as (Hfun & Hsl & _).
  destruct (live_in _ _ _ _ _ _ Hp Ha) as (c & o & r & Hc & -> & Ho & Hf & Hk),
    (live_in _ _ _ _ _ _ Hp Hb) as (c' & o' & r' & Hc' & -> & Ho' & Hf' & Hk').
  destruct (decide (c = c')) as [<-|Hcc]; [|destruct (mp_disjoint _ c c' r r' Hh Hcc Hc Hc'); lia].
  destruct Hk as [(i & j & Hi & Hi10 & -> & Hm)|[Hl ->]], Hk' as [(i' & j' & Hi' & _ & -> & Hn)|[Hl' ->]].
  - rewrite (Hfun _ _ _ Hi' Hi) in *. assert (j <> j') by (intros ->; done). nia.
  - exfalso. by eapply Hsl.
  - exfalso. by eapply Hsl.
  - done.
Qed.

(** [vox_mpool_realloc]: the block moves or stays; its bytes, as far as they fit, and
    the other blocks' bytes are kept; a refusal leaves everything as it was. *)
Lemma realloc_move junk p sm fr lg a n size :
  pool_inv p sm fr lg -> live_of (mem p) !! a = Some n -> 0 < size < 2 ^ 64 ->
  (forall i, mem p !! (a - sizeof_meta) = Some (Meta i) -> i <> vox_mpool_get_slot_index size) -> exists p' b sm' fr' lg',
  vox_mpool_realloc junk p a size = Some (p', b) /\ pool_inv p' sm' fr' lg' /\ evolves (heap p) (heap p') /\
  ((b = NULL /\ live_of (mem p') = live_of (mem p) /\ bytes p' = bytes p) \/
   (exists k, size <= k /\ b <> a /\ live_of (mem p) !! b = None /\ live_of (mem p') = <[b := k]> (delete a (live_of (mem p))) /\
    (forall i, 0 <= i < Z.min n size -> bytes p' (b + i) = bytes p (a + i)) /\
    (forall x y i, live_of (mem p) !! x = Some y -> 0 <= i < y -> bytes p' (x + i) = bytes p (x + i)))).
Proof.
  intros Hp Ha Hs Hidx. unfold vox_mpool_realloc.
  assert (0 < a) as Hapos.
  { destruct (live_cases _ _ _ _ _ _ Hp Ha) as [(i & _ & _ & Hb & _)|(c & Hc & -> & _)].
    - pose proof (block_positive _ _ _ _ _ _ Hp Hb). unfold sizeof_meta in *. lia.
    - pose proof (lg_nonnull _ _ _ _ _ Hp Hc). lia. }
  rewrite (proj2 (Z.eqb_neq a NULL)), (proj2 (Z.eqb_neq size 0)) by (unfold NULL; lia).
  (* the metadata of the old block *)
  assert (Hold : exists i, get_meta (mem p) (a - sizeof_meta) = Some i /\ negb (i =? 255) && (10 <=? i) = false /\
    (if i =? 255 then '(size, _) ← get_large (mem p) (a - sizeof_meta - sizeof_large); Some size
     else slot ← (slots p).[i]; Some (user_size slot)) = Some n /\
    (i =? vox_mpool_get_slot_index size) && (i <? 10) = false /\ 0 < n).
  { destruct (live_cases _ _ _ _ _ _ Hp Ha) as [(i & Hi & E & _ & ->)|(c & Hc & -> & E24 & E40)].
    - exists i. unfold get_meta. rewrite E. split; [done|]. rewrite (proj2 (Z.eqb_neq i 255)), (proj2 (Z.leb_gt 10 i)) by lia. split; [done|].
      destruct (pool_slot_get _ _ _ _ i Hp Hi) as [s Es]. rewrite Es. destruct (pi_slot _ _ _ _ Hp i s Es) as (_ & Hu & _).
      cbn [mbind option_bind]. rewrite Hu. split; [done|]. rewrite (proj2 (Z.eqb_neq i _)) by (by apply Hidx). split; [done|].
      apply Z.pow_pos_nonneg; lia.
    - exists 255. replace (c + 48 - sizeof_meta) with (c + 40) by (unfold sizeof_meta; lia). unfold get_meta. rewrite E40. split; [done|].
      split; [done|]. replace (c + 40 - sizeof_large) with (c + 24) by (unfold sizeof_large; lia). unfold get_large. rewrite E24.
      split; [done|]. split; [by rewrite andb_false_r|]. destruct (pi_large _ _ _ _ Hp c Hc) as (k & F24 & _ & _ & Hk). rewrite E24 in F24. injection F24 as <-. lia. }
  destruct Hold as (i & -> & Hok & Hsz & Hdiff & Hn). cbn [mbind option_bind]. rewrite Hok, Hsz. cbn [mbind option_bind]. rewrite Hdiff.
  destruct (alloc_internal_ok junk p sm fr lg size Hp ltac:(lia)) as (q & b & sm1 & fr1 & lg1 & -> & Hq & Hev & _ & Hby & _ & Hres).
  cbn [mbind option_bind]. destruct Hres as [[-> Hl]|(Hb & Hs2 & Hfree & k & Hk & Hl & _)].
  { exists q, NULL, sm1, fr1, lg1. change (NULL =? NULL) with true. split; [done|]. split; [done|]. split; [done|]. by left. }
  rewrite (proj2 (Z.eqb_neq b NULL)), (proj2 (Z.eqb_neq n 0)) by (unfold NULL; lia). cbn [orb].
  set (cp := if size <? n then size else n). assert (cp = Z.min n size) as Hcp by (subst cp; destruct (Z.ltb_spec size n); lia).
  rewrite (proj2 (Z.ltb_lt 0 cp)) by lia. set (q2 := with_bytes q _).
  assert (b <> a) as Hba by (intros ->; congruence).
  assert (pool_inv q2 sm1 fr1 lg1) as Hq2 by (destruct Hq; constructor; done).
  assert (live_of (mem q2) !! a = Some n) as Ha2 by (cbn [mem q2 with_bytes]; by rewrite Hl, lookup_insert_ne).
  destruct (free_internal_ok q2 sm1 fr1 lg1 a Hq2 ltac:(by eexists)) as (p' & sm2 & fr2 & lg2 & -> & Hp' & Hev' & _ & Hby' & _ & Hl').
  cbn [mbind option_bind]. exists p', b, sm2, fr2, lg2. split; [done|]. split; [done|]. split; [by etrans|]. right. exists k.
  split; [done|]. split; [done|]. split; [done|]. split.
  { rewrite Hl'. cbn [mem q2 with_bytes]. rewrite Hl. by rewrite delete_insert_ne. }
  assert (live_of (mem q) !! b = Some k) as Hbk by (by rewrite Hl, lookup_insert_eq).
  rewrite Hby'. cbn [bytes q2 with_bytes]. rewrite Hby. unfold copy_bytes. split.
  - intros j Hj. rewrite (proj2 (Z.leb_le b _)), (proj2 (Z.ltb_lt (b + j) _)) by lia. cbn [andb]. f_equal. lia.
  - intros x y j Hx Hj. assert (x <> b) as Hxb by (intros ->; congruence).
    assert (live_of (mem q) !! x = Some y) as Hx' by (by rewrite Hl, lookup_insert_ne).
    destruct (live_disjoint _ _ _ _ x b y k Hq Hxb Hx' Hbk).
    + by rewrite (proj2 (Z.leb_gt b _)) by lia.
    + rewrite (proj2 (Z.ltb_ge (x + j) _)) by lia. by rewrite andb_false_r.
Qed.

(** ** Giving whole chunks back *)

Lemma dchain_cchain m pv a l : dchain m pv a l -> cchain m a l.
Proof.
  revert pv a. induction l as [|c l IH]; intros pv a; cbn; [done|]. intros (-> & n & E & Hd). split; [done|]. eauto.
Qed.

Lemma chain_size m a l : cchain m a l -> NoDup l -> (length l <= size m)%nat.
Proof.
  intros Hc Hnd. rewrite <-(size_list_to_set (C := gset Z) l) by done. rewrite <-size_dom. apply subseteq_size.
  intros x Hx. apply elem_of_list_to_set in Hx. apply elem_of_dom. destruct (cchain_in _ _ _ _ Hc Hx) as (n & pv & ->). done.
Qed.

(** [a] is in no block of [l]. *)
Definition clear_of h (l : list Z) (a : Z) : Prop := forall x k, x ∈ l -> mp_live h !! x = Some k -> ~ (x <= a < x + k).

Lemma free_chunks_ok where_ fuel l h m c :
  cchain m c l -> NoDup l -> (length l <= fuel)%nat -> (forall x, x ∈ l -> where_ x (x + sizeof_chunk) = x) -> mp_inv h ->
  (forall x, x ∈ l -> region h x sizeof_chunk) -> exists m',
  free_chunks fuel where_ h m c = Some (foldl mp_free h l, m') /\ (forall a, clear_of h l a -> m' !! a = m !! a) /\
  (forall a, m' !! a = m !! a \/ m' !! a = None) /\
  (forall a x k, x ∈ l -> mp_live h !! x = Some k -> x <= a < x + k -> m' !! a = None).
Proof.
  revert h m c fuel. induction l as [|x l IH]; intros h m c fuel Hc Hnd Hf Hw Hh Hr.
  - cbn in Hc. subst c. exists m. split; [by destruct fuel|]. split; [done|]. split; [auto|]. by intros a x k ?%elem_of_nil.
  - destruct Hc as (-> & n & pv & E & Hc). apply NoDup_cons in Hnd as [Hx Hnd]. destruct fuel as [|fuel]; [cbn in Hf; lia|].
    destruct (Hr x ltac:(by left)) as (k & Hk & Hk24). pose proof (heap_positive _ _ _ Hh Hk) as Hpos.
    cbn [free_chunks]. rewrite (proj2 (Z.eqb_neq x NULL)) by (unfold NULL; lia). unfold get_chunk. rewrite E. cbn [mbind option_bind].
    rewrite Hw by (by left). rewrite (released _ _ _ _ Hk). destruct (mp_free_spec h x Hh ltac:(by eexists)) as [Hh1 Hl1].
    assert (Hlive : forall y z, y ∈ l -> mp_live (mp_free h x) !! y = Some z <-> mp_live h !! y = Some z).
    { intros y z Hy. rewrite Hl1, lookup_delete_ne; [done|]. by intros ->. }
    assert (Hout : forall a, ~ (x <= a < x + k) -> filter (fun ac => ~ (x <= ac.1 < x + k)) m !! a = m !! a).
    { intros a Ha. rewrite map_lookup_filter. destruct (m !! a) as [y|]; [|done]. cbn [mbind option_bind]. by rewrite option_guard_True. }
    destruct (IH (mp_free h x) (filter (fun ac => ~ (x <= ac.1 < x + k)) m) n fuel) as (m' & -> & Hm' & Hor & Hins); [|done|cbn in Hf; lia| |done| |].
    + eapply cchain_frame; [|exact Hc]. intros y Hy. apply Hout. intros Hin.
      destruct (Hr y ltac:(by right)) as (z & Hz & Hz24). assert (x <> y) as Hne by (by intros ->).
      unfold sizeof_chunk in *. destruct (mp_disjoint h x y k z Hh Hne Hk Hz); lia.
    + intros y Hy. apply Hw. by right.
    + intros y Hy. destruct (Hr y ltac:(by right)) as (z & Hz & ?). exists z. by rewrite Hlive.
    + exists m'. split; [done|].
      assert (Hin : forall a, x <= a < x + k -> filter (fun ac => ~ (x <= ac.1 < x + k)) m !! a = None).
      { intros a Ha. apply map_lookup_filter_None. right. intros y _ Hno. by apply Hno. }
      split; [|split].
      2:{ intros a. destruct (Hor a) as [->|?]; [|by right]. destruct (decide (x <= a < x + k)) as [Ha|Ha]; [right; auto|left; auto]. }
      2:{ intros a y z [->|Hy]%elem_of_cons Hz Ha; [|apply (Hins a y z Hy); [by apply Hlive|done]].
          rewrite Hk in Hz. injection Hz as <-. destruct (Hor a) as [->|?]; [auto|done]. }
      intros a Ha. rewrite Hm'.
      * apply Hout. apply (Ha x k); [by left|done].
      * intros y z Hy Hz. apply (Ha y z); [by right|by apply Hlive].
Qed.

(** The chunks of the first slots. *)
Definition slots_upto sm (i : Z) : list Z := seqZ 0 i ≫= chunks_of sm.

Lemma slots_upto_succ sm i : 0 <= i -> slots_upto sm (i + 1) = slots_upto sm i ++ chunks_of sm i.
Proof.
  intros Hi. unfold slots_upto. rewrite seqZ_app by lia. rewrite bind_app. f_equal.
  rewrite (seqZ_cons (0 + i) 1), (seqZ_nil (Z.succ (0 + i))) by lia. cbn. by rewrite app_nil_r.
Qed.

Lemma slots_upto_all sm : (forall c i, (c, i) ∈ sm -> 0 <= i < 10) -> slots_upto sm 10 ≡ₚ map fst sm.
Proof.
  unfold slots_upto. intros Hsm. assert (Hall : Forall (fun ci => ci.2 ∈ seqZ 0 10) sm).
  { apply Forall_forall. intros [c i] Hin. apply elem_of_seqZ. apply Hsm in Hin. cbn. lia. }
  clear Hsm. induction Hall as [|[c i] sm Hi _ IH]; [done|]. cbn [map fst snd] in *. rewrite <-IH. clear IH.
  assert (Hco : forall j, chunks_of ((c, i) :: sm) j = if decide (j = i) then c :: chunks_of sm i else chunks_of sm j).
  { intros j. unfold chunks_of. rewrite filter_cons. cbn [snd]. repeat case_decide; subst; done. }
  pose proof (NoDup_seqZ 0 10) as Hnd. apply list_elem_of_split in Hi as (l1 & l2 & E). rewrite E in *.
  apply NoDup_app in Hnd as (_ & Hd & Hnd2). apply NoDup_cons in Hnd2 as [Hn2 _].
  assert (Hskip : forall l, i ∉ l -> l ≫= chunks_of ((c, i) :: sm) = l ≫= chunks_of sm).
  { induction l as [|j l IHl]; intros Hni; [done|]. rewrite !bind_cons, Hco, decide_False by (intros ->; apply Hni; by left).
    f_equal. apply IHl. intros Hin. apply Hni. by right. }
  rewrite !bind_app, !bind_cons, Hco, decide_True by done. rewrite !Hskip; [|done|intros Hin; apply (Hd i Hin); by left].
  cbn [app]. by rewrite <-Permutation_middle.
Qed.

Lemma base_region p sm fr lg c : pool_inv p sm fr lg -> c ∈ map fst sm ++ lg -> region (heap p) c sizeof_chunk.
Proof.
  intros Hp [Hc|Hc]%elem_of_app.
  - apply list_elem_of_fmap in Hc as ([c' i] & -> & Hin). destruct (pi_small _ _ _ _ Hp c' i Hin) as [Hi (k & Hk & Hf)].
    exists k. split; [done|]. pose proof (bs_range i Hi). pose proof (pi_count _ _ _ _ Hp). nia.
  - destruct (pi_large _ _ _ _ Hp c Hc) as (n & _ & _ & (k & Hk & Hf) & Hn). exists k. split; [done|]. unfold sizeof_chunk. lia.
Qed.

(** A chunk node is in no other block. *)
Lemma clear_node p sm fr lg l c : pool_inv p sm fr lg -> c ∈ map fst sm ++ lg -> c ∉ l ->
  clear_of (heap p) l c.
Proof.
  intros Hp Hc Hn x k Hx Hk Hin. destruct (base_region _ _ _ _ _ Hp Hc) as (z & Hz & Hz24).
  assert (x <> c) as Hne by (by intros ->). unfold sizeof_chunk in *.
  destruct (mp_disjoint _ x c k z (region_inv _ _ _ _ Hp) Hne Hk Hz); lia.
Qed.

(** Giving back a list of chunks of the pool, some already gone. *)
Lemma free_more p sm fr lg done_ l m where_ fuel c :
  pool_inv p sm fr lg -> NoDup (done_ ++ l) -> (forall x, x ∈ done_ ++ l -> x ∈ map fst sm ++ lg) ->
  cchain (mem p) c l -> (length l <= fuel)%nat -> (forall x, x ∈ l -> where_ x (x + sizeof_chunk) = x) ->
  (forall a, clear_of (heap p) done_ a -> m !! a = mem p !! a) -> exists m',
  free_chunks fuel where_ (foldl mp_free (heap p) done_) m c = Some (foldl mp_free (heap p) (done_ ++ l), m') /\
  (forall a, clear_of (heap p) (done_ ++ l) a -> m' !! a = mem p !! a).
Proof.
  intros Hp Hnd Hsub Hc Hf Hw Hm. apply NoDup_app in Hnd as (Hnd1 & Hdis & Hnd2).
  pose proof (region_inv _ _ _ _ Hp) as Hh.
  assert (Hreg : forall x, x ∈ done_ ++ l -> region (heap p) x sizeof_chunk) by (intros x Hx; eapply base_region; [exact Hp|by apply Hsub]).
  destruct (release_blocks (heap p) done_ Hh Hnd1) as [Hh1 Hl1].
  { intros b Hb. destruct (Hreg b) as (k & -> & _); [apply elem_of_app; by left|by eexists]. }
  assert (Hlive : forall y, y ∈ l -> mp_live (foldl mp_free (heap p) done_) !! y = mp_live (heap p) !! y).
  { intros y Hy. rewrite Hl1, lookup_foldr_delete, decide_False; [done|]. intros Hin. by apply (Hdis y). }
  destruct (free_chunks_ok where_ fuel l (foldl mp_free (heap p) done_) m c) as (m' & -> & Hm' & _); [|done..| |].
  - eapply cchain_frame; [|exact Hc]. intros y Hy. apply Hm. eapply clear_node; [exact Hp|apply Hsub, elem_of_app; by right|].
    intros Hin. by apply (Hdis y).
  - intros x Hx. destruct (Hreg x) as (k & Hk & Hkk); [apply elem_of_app; by right|]. exists k. by rewrite Hlive.
  - exists m'. rewrite foldl_app. split; [done|]. intros a Ha. rewrite Hm'.
    + apply Hm. intros x k Hx. apply Ha. apply elem_of_app. by left.
    + intros x k Hx Hk. rewrite Hlive in Hk by done. apply Ha; [apply elem_of_app; by right|done].
Qed.

Lemma slots_upto_in sm i x : x ∈ slots_upto sm i -> x ∈ map fst sm.
Proof.
  unfold slots_upto. intros (j & Hx & _)%list_elem_of_bind. apply chunks_of_in in Hx. by apply (list_elem_of_fmap_2 fst) in Hx.
Qed.

Lemma pool_destroy_ok p sm fr lg : pool_inv p sm fr lg -> exists h,
  vox_mpool_destroy p = Some h /\ mp_inv h /\ mp_live h = mp_live h0 /\ evolves (heap p) h.
Proof.
  intros Hp. unfold vox_mpool_destroy. destruct (chunk_kind _ _ _ _ Hp) as (_ & Hsl & Hndl & Hnds).
  assert (Hall : slots_upto sm 10 ≡ₚ map fst sm) by (apply slots_upto_all; intros c i Hin; by eapply pi_small).
  assert (Hnda : NoDup (slots_upto sm 10)) by (by rewrite Hall).
  assert (Hpre : forall i, 0 <= i <= 10 -> exists r, slots_upto sm 10 = slots_upto sm i ++ r).
  { intros i Hi. exists (seqZ i (10 - i) ≫= chunks_of sm). unfold slots_upto. rewrite <-bind_app.
    replace 10 with (i + (10 - i)) at 1 by lia. by rewrite (seqZ_app 0 i (10 - i)) by lia. }
  destruct (for_inv (fun i '(h, m) => h = foldl mp_free (heap p) (slots_upto sm i) /\
      forall a, clear_of (heap p) (slots_upto sm i) a -> m !! a = mem p !! a) 10 0
    (fun i '(h, m) => slot ← (slots p).[i]; free_chunks (size (mem p)) (fun c _ => c) h m (chunks slot)) (heap p, mem p))
    as ([h m] & Hloop & -> & Hm); [done| |].
  { intros i [h m] Hi (-> & Hm). destruct (pool_slot_get p sm fr lg i Hp ltac:(lia)) as [s Hs]. rewrite Hs. cbn [mbind option_bind].
    destruct (pi_slot _ _ _ _ Hp i s Hs) as (_ & _ & _ & Hcc & _).
    assert (NoDup (slots_upto sm i ++ chunks_of sm i)) as Hnd.
    { rewrite <-slots_upto_succ by lia. destruct (Hpre (i + 1) ltac:(lia)) as [r Er]. rewrite Er in Hnda. by apply NoDup_app in Hnda as (? & _). }
    destruct (free_more p sm fr lg (slots_upto sm i) (chunks_of sm i) m (fun c _ => c) (size (mem p)) (chunks s) Hp Hnd) as (m' & -> & Hm').
    - intros x [Hx|Hx]%elem_of_app; apply elem_of_app; left; [by eapply slots_upto_in|].
      apply chunks_of_in in Hx. by apply (list_elem_of_fmap_2 fst) in Hx.
    - done.
    - eapply chain_size; [exact Hcc|]. by apply NoDup_app in Hnd as (_ & _ & ?).
    - done.
    - done.
    - eexists. split; [done|]. rewrite slots_upto_succ by lia. by split. }
  change (0 + Z.of_nat 10) with 10 in *. rewrite Hloop. cbn [mbind option_bind].
  destruct (free_more p sm fr lg (slots_upto sm 10) lg m (fun _ memory => memory - sizeof_chunk) (size (mem p)) (large_chunks p) Hp)
    as (m' & -> & _).
  - apply NoDup_app. split; [done|]. split; [|done]. intros x Hx%slots_upto_in. apply list_elem_of_fmap in Hx as ([c i] & -> & Hin). by eapply Hsl.
  - intros x [Hx|Hx]%elem_of_app; apply elem_of_app; [left; by eapply slots_upto_in|by right].
  - eapply dchain_cchain, Hp.
  - eapply chain_size; [eapply dchain_cchain, Hp|done].
  - intros x _. lia.
  - done.
  - cbn [mbind option_bind]. eexists. split; [done|].
    destruct (took_release h0 (heap p) _ (slots_upto sm 10 ++ lg ++ [self p]) (pi_took _ _ _ _ Hp)) as [Hi Hl].
    { rewrite Hall. by rewrite app_assoc, <-Permutation_cons_append. }
    rewrite app_assoc, foldl_app in Hi, Hl. split; [exact Hi|]. split; [exact Hl|].
    assert (Hev : forall l q, evolves q (foldl mp_free q l)).
    { induction l as [|x l IH]; intros q; [apply rtc_refl|]. cbn. etrans; [apply evolves_free|apply IH]. }
    etrans; [apply (Hev (slots_upto sm 10 ++ lg))|apply evolves_free].
Qed.

(** ** Reset *)

Lemma elem_of_rev (l : list Z) x : x ∈ rev l <-> x ∈ l.
Proof. rewrite rev_alt. apply elem_of_reverse. Qed.

Lemma hchain_snoc_block m fl l b : hchain m fl l -> b ∉ l -> hchain (<[b := Header fl]> m) b (b :: l).
Proof.
  intros Hc Hb. split; [done|]. exists fl. rewrite lookup_insert_eq. split; [done|]. eapply hchain_frame; [|exact Hc].
  intros x Hx. apply lookup_insert_ne. by intros ->.
Qed.

(** One chunk's blocks go on the free list, the last one first. *)
Lemma refill_chunk m fl l count c i :
  0 <= i < 10 -> 0 <= count -> hchain m fl l -> (forall b, b ∈ chunk_blocks count c i -> is_Some (m !! b)) ->
  (forall b, b ∈ chunk_blocks count c i -> b ∉ l) -> exists m' fl' e,
  for_ (Z.to_nat count) 0 (fun _ '(m, fl, ptr) => m ← overwrite m ptr (Header fl); Some (m, ptr, ptr + bs i)) (m, fl, c + sizeof_chunk)
  = Some (m', fl', e) /\ hchain m' fl' (rev (chunk_blocks count c i) ++ l) /\
  (forall a, a ∉ chunk_blocks count c i -> m' !! a = m !! a) /\
  (forall a, is_Some (m !! a) -> is_Some (m' !! a)).
Proof.
  intros Hi Hc Hch Hsome Hno. pose proof (bs_range i Hi) as Hbs.
  assert (Hsub : forall j b, 0 <= j <= count -> b ∈ chunk_blocks j c i -> b ∈ chunk_blocks count c i).
  { intros j b Hj. rewrite !chunk_blocks_in. intros (k & ? & ->). exists k. split; [lia|done]. }
  assert (Hsnoc : forall j, 0 <= j -> chunk_blocks (j + 1) c i = chunk_blocks j c i ++ [c + sizeof_chunk + j * bs i]).
  { intros j Hj. unfold chunk_blocks. rewrite seqZ_app, fmap_app by lia.
    by rewrite (seqZ_cons (0 + j) 1), (seqZ_nil (Z.succ (0 + j))) by lia. }
  destruct (for_inv (fun j '(m1, fl1, ptr) => ptr = c + sizeof_chunk + j * bs i /\ hchain m1 fl1 (rev (chunk_blocks j c i) ++ l) /\
      (forall a, a ∉ chunk_blocks j c i -> m1 !! a = m !! a) /\ (forall a, is_Some (m !! a) -> is_Some (m1 !! a)))
    (Z.to_nat count) 0 (fun _ '(m, fl, ptr) => m ← overwrite m ptr (Header fl); Some (m, ptr, ptr + bs i)) (m, fl, c + sizeof_chunk))
    as ([[m' fl'] e] & -> & _ & Hch' & Hout & Hdom).
  - split_and!; [lia|done|done|done].
  - intros j [[m1 fl1] ptr] Hj (-> & H1' & H2' & H3'). set (b := c + sizeof_chunk + j * bs i) in *.
    assert (b ∈ chunk_blocks count c i) as Hb by (apply chunk_blocks_in; exists j; split; [lia|done]).
    assert (b ∉ chunk_blocks j c i) as Hnb by (rewrite chunk_blocks_in; intros (k & Hk & Ek); unfold b in Ek; nia).
    destruct (H3' b (Hsome b Hb)) as [x Ex]. unfold overwrite. rewrite Ex. cbn [mbind option_bind]. eexists. split; [done|].
    rewrite Hsnoc by lia. split; [unfold b; lia|]. split.
    { rewrite rev_app_distr. cbn [rev app]. apply hchain_snoc_block; [done|]. rewrite elem_of_app, elem_of_rev.
      intros [?|?]; [done|by apply (Hno b)]. }
    split.
    + intros a. rewrite not_elem_of_app, list_elem_of_singleton. intros [Ha Hne]. rewrite lookup_insert_ne by done. by apply H2'.
    + intros a Ha. destruct (decide (b = a)) as [->|Hne]; [by rewrite lookup_insert_eq|]. rewrite lookup_insert_ne by done. by apply H3'.
  - rewrite Z.add_0_l, Z2Nat.id in Hch', Hout by lia. by exists m', fl', e.
Qed.

Lemma refill_ok count i fuel cs m fl l c :
  0 <= i < 10 -> 0 <= count -> cchain m c cs -> (length cs <= fuel)%nat -> hchain m fl l ->
  (forall x, x ∈ cs -> x <> NULL) ->
  (forall b, b ∈ cs ≫= (fun c => chunk_blocks count c i) -> is_Some (m !! b) /\ (b ∉ l) /\ (b ∉ cs)) ->
  NoDup (cs ≫= (fun c => chunk_blocks count c i)) -> exists m' fl',
  refill fuel m count (bs i) fl c = Some (m', fl') /\
  hchain m' fl' (rev (cs ≫= (fun c => chunk_blocks count c i)) ++ l) /\
  (forall a, a ∉ cs ≫= (fun c => chunk_blocks count c i) -> m' !! a = m !! a).
Proof.
  intros Hi Hc. revert m fl l c fuel. induction cs as [|x cs IH]; intros m fl l c fuel Hcc Hf Hch Hnn Hb Hnd.
  - cbn in Hcc. subst c. exists m, fl. by destruct fuel.
  - rewrite bind_cons in *. set (B := chunk_blocks count x i) in *. destruct Hcc as (-> & n & pv & E & Hcc).
    destruct fuel as [|fuel]; [cbn in Hf; lia|]. cbn [refill]. rewrite (proj2 (Z.eqb_neq x NULL)) by (apply Hnn; by left).
    unfold get_chunk. rewrite E. cbn [mbind option_bind]. apply NoDup_app in Hnd as (_ & Hdis & Hnd).
    destruct (refill_chunk m fl l count x i Hi Hc Hch) as (m1 & fl1 & e & -> & Hch1 & Hout1 & Hdom1).
    { intros b Hin. apply Hb, elem_of_app. by left. } { intros b Hin. apply Hb, elem_of_app. by left. }
    cbn [mbind option_bind]. fold B in Hch1, Hout1.
    destruct (IH m1 fl1 (rev B ++ l) n fuel) as (m' & fl' & -> & Hch' & Hout').
    + eapply cchain_frame; [|exact Hcc]. intros y Hy. apply Hout1. intros Hin. apply (Hb y); [apply elem_of_app; by left|by right].
    + cbn in Hf. lia.
    + done.
    + intros y Hy. apply Hnn. by right.
    + intros b Hin. destruct (Hb b) as (Hs & Hl & Hcs); [apply elem_of_app; by right|]. split; [by apply Hdom1|]. split.
      * rewrite elem_of_app, elem_of_rev. intros [?|?]; [by apply (Hdis b)|done].
      * intros ?. apply Hcs. by right.
    + done.
    + exists m', fl'. split; [done|]. split.
      * by rewrite rev_app_distr, <-app_assoc.
      * intros a. rewrite not_elem_of_app. intros [? ?]. rewrite Hout' by done. by apply Hout1.
Qed.

Lemma free_larges p sm fr lg : pool_inv p sm fr lg -> exists h m,
  free_chunks (size (mem p)) (fun c _ => c) (heap p) (mem p) (large_chunks p) = Some (h, m) /\
  evolves (heap p) h /\
  pool_inv (with_used (with_large (with_heap p h m) NULL) (u64 (msum (live_of m)))) sm fr [].
Proof.
  intros Hp. destruct (chunk_kind _ _ _ _ Hp) as (_ & Hsl & Hndl & _). pose proof (region_inv _ _ _ _ Hp) as Hh.
  assert (Hbase : forall x, x ∈ lg -> region (heap p) x sizeof_chunk).
  { intros x Hx. eapply base_region; [exact Hp|]. apply elem_of_app. by right. }
  destruct (free_chunks_ok (fun c _ => c) (size (mem p)) lg (heap p) (mem p) (large_chunks p)) as (m & -> & Hm & Hor & Hins); [|done| |done|done|done|].
  { eapply dchain_cchain, Hp. } { eapply chain_size; [eapply dchain_cchain, Hp|done]. }
  do 2 eexists. split; [done|].
  assert (Hev : forall l q, evolves q (foldl mp_free q l)).
  { induction l as [|x l IH]; intros q; [apply rtc_refl|]. cbn. etrans; [apply evolves_free|apply IH]. }
  split; [apply Hev|].
  destruct (release_blocks (heap p) lg Hh Hndl) as [Hh1 Hl1].
  { intros b Hb. destruct (Hbase b Hb) as (k & -> & _). by eexists. }
  assert (Htk : forall l q, took h0 q (self p :: map fst sm ++ l) -> took h0 (foldl mp_free q l) (self p :: map fst sm ++ [])).
  { induction l as [|x l IH]; intros q Hq; [done|]. cbn [foldl]. apply IH. apply took_free. eapply took_perm; [exact Hq|].
    rewrite <-Permutation_middle. by rewrite Permutation_swap. }
  assert (Hspot : forall a c o, spot (initial_block_count p) sm lg a c o -> c ∉ lg -> m !! a = mem p !! a).
  { intros a c o Hs Hc. apply Hm. intros x k Hx Hk. apply (outside p sm fr lg a c o x k Hp Hs Hk). by intros ->. }
  apply (inv_large p sm fr lg); try done; cbn [heap mem large_chunks total_used with_heap with_large with_used].
  - apply Htk, Hp.
  - intros c i n Hc (k & Hk & Hn). exists k. split; [|done]. rewrite Hl1, lookup_foldr_delete, decide_False; [done|by eapply Hsl].
  - intros c i Hc. destruct (pi_small _ _ _ _ Hp c i Hc) as [Hi _]. apply (Hspot c c 0); [|by eapply Hsl].
    split; [lia|]. left. eauto 6.
  - intros i b Hb. destruct (block_spot _ _ _ _ _ _ Hp Hb) as (c & j & Hc & _ & _ & Hs). apply (Hspot _ _ _ Hs). by eapply Hsl.
  - by intros c ?%elem_of_nil.
  - intros a x Ha. left. exists x. split; [destruct (Hor a); congruence|]. intros c o Hc Ho ->.
    destruct (pi_large _ _ _ _ Hp c Hc) as (n & _ & _ & (k & Hk & Hf) & Hn).
    rewrite (Hins (c + o) c k Hc Hk) in Ha; [done|]. lia.
Qed.

Lemma all_blocks_in p sm fr lg i b : pool_inv p sm fr lg ->
  b ∈ chunks_of sm i ≫= (fun c => chunk_blocks (initial_block_count p) c i) <-> is_block (initial_block_count p) sm i b.
Proof.
  intros Hp. rewrite list_elem_of_bind. setoid_rewrite chunk_blocks_in. setoid_rewrite chunks_of_in. unfold is_block.
  split; [intros (c & (j & Hj & E) & Hc)|intros (c & j & Hc & Hj & E)]; eauto 7.
Qed.

Lemma chunks_nodup p sm fr lg i : pool_inv p sm fr lg -> NoDup (chunks_of sm i).
Proof.
  intros Hp. destruct (chunk_kind _ _ _ _ Hp) as (_ & _ & _ & Hnd). unfold chunks_of.
  revert Hnd. clear. induction sm as [|[c j] sm IH]; [done|]. cbn [map fst]. intros [Hn Hnd]%NoDup_cons. rewrite filter_cons.
  case_decide; [|by apply IH]. rewrite fmap_cons. apply NoDup_cons. split; [|by apply IH]. cbn.
  intros ([c' j'] & -> & [_ Hin]%list_elem_of_filter)%list_elem_of_fmap. apply Hn. by apply (list_elem_of_fmap_2 fst) in Hin.
Qed.

Lemma all_blocks_nodup p sm fr lg i : pool_inv p sm fr lg -> 0 <= i < 10 ->
  NoDup (chunks_of sm i ≫= (fun c => chunk_blocks (initial_block_count p) c i)).
Proof.
  intros Hp Hi. apply NoDup_bind.
  - intros c c' b Hc%chunks_of_in Hc'%chunks_of_in (j & Hj & E)%chunk_blocks_in (j' & Hj' & E')%chunk_blocks_in.
    apply (spot_unique p sm fr lg b c (sizeof_chunk + j * bs i) c' (sizeof_chunk + j' * bs i) Hp).
    + split; [lia|]. left. exists i. split; [done|]. split; [done|]. right. eauto.
    + split; [lia|]. left. exists i. split; [done|]. split; [done|]. right. eauto.
  - intros c _. by apply chunk_blocks_nodup.
  - by eapply chunks_nodup.
Qed.

Lemma bind_zlen count i cs : 0 <= count -> zlen (cs ≫= (fun c => chunk_blocks count c i)) = count * zlen cs.
Proof.
  intros Hc. induction cs as [|c cs IH]; [by rewrite Z.mul_0_r|]. rewrite bind_cons, zlen_app, chunk_blocks_zlen, IH, zlen_cons by done. lia.
Qed.

(** One slot of [vox_mpool_reset]. *)
Lemma reset_slot fuel p sm fr i s u :
  pool_inv (with_used p u) sm fr [] -> (length (chunks_of sm i) <= fuel)%nat -> 0 <= i < 10 -> (slots p).[i] = Some s -> exists m fl ss fl',
  refill fuel (mem p) (initial_block_count p) (block_size s) NULL (chunks s) = Some (m, fl) /\
  (slots p).[i <- with_free s fl (total_blocks s)] = Some ss /\
  (forall b, is_block (initial_block_count p) sm i b -> b ∈ fl') /\
  pool_inv (with_used (with_slots (with_heap p (heap p) m) ss) (u64 (msum (live_of m)))) sm (<[i := fl']> fr) [].
Proof.
  intros Hp Hfuel Hi Hs. set (p0 := with_used p u) in *. destruct (pi_slot _ _ _ _ Hp i s Hs) as (Hbs & _ & _ & Hcc & Htb & _).
  pose proof (pi_count _ _ _ _ Hp) as Hcnt. cbn [initial_block_count p0 with_used] in Hcnt.
  change (initial_block_count p0) with (initial_block_count p) in *. change (mem p0) with (mem p) in *.
  pose proof (all_blocks_nodup p0 sm fr [] i Hp Hi) as Hnd. change (initial_block_count p0) with (initial_block_count p) in Hnd.
  set (B := chunks_of sm i ≫= _) in Hnd.
  assert (HB : forall b, b ∈ B <-> is_block (initial_block_count p) sm i b) by (intros b; exact (all_blocks_in p0 sm fr [] i b Hp)).
  pose proof (chunks_nodup _ _ _ _ i Hp) as Hndc.
  destruct (refill_ok (initial_block_count p) i fuel (chunks_of sm i) (mem p) NULL [] (chunks s)) as (m & fl & Hx & Hch & Hout);
    [done|lia|done|done|done| | |exact Hnd|].
  { intros x Hx%chunks_of_in. destruct (pi_small _ _ _ _ Hp x i Hx) as [_ (k & Hk & _)].
    pose proof (heap_positive _ _ _ (region_inv _ _ _ _ Hp) Hk). unfold NULL. lia. }
  { intros b Hb. apply HB in Hb. split; [|split; [by intros ?%elem_of_nil|]].
    - destruct (block_value _ _ _ _ _ _ Hp Hb) as [[_ [n E]]|[_ E]]; eexists; exact E.
    - intros Hc%chunks_of_in. by apply (block_not_chunk _ _ _ _ _ _ _ _ Hp Hb Hc). }
  fold B in Hch, Hout. rewrite app_nil_r in Hch. rewrite Hbs.
  destruct (update_blocks p0 sm fr [] i s m fl (rev B) (u64 (msum (live_of m))) Hp Hs) as (ss & Hss & Hp'); [| |..|done|].
  - intros a. destruct (decide (a ∈ B)) as [Ha|Ha]; [left; by apply HB|right; by apply Hout].
  - done.
  - rewrite rev_alt. change (rev_append B []) with (reverse B). by rewrite reverse_Permutation.
  - intros b Hb. apply (proj1 (HB b)). by apply (proj1 (elem_of_rev _ _)).
  - intros b Hb. left. apply (proj2 (elem_of_rev _ _)). exact (proj2 (HB b) Hb).
  - exists m, fl, ss, (rev B). split; [done|]. split.
    { rewrite <-Hss. do 2 f_equal. rewrite Htb. f_equal. unfold B. rewrite <-bind_zlen with (i := i) by lia. unfold zlen. by rewrite length_rev. }
    split; [intros b Hb; apply (proj2 (elem_of_rev _ _)); exact (proj2 (HB b) Hb)|exact Hp'].
Qed.

Lemma reset_ok p sm fr lg : pool_inv p sm fr lg -> exists p' fr',
  vox_mpool_reset p = Some p' /\ pool_inv p' sm fr' [] /\ live_of (mem p') = ∅ /\ total_used p' = 0 /\
  evolves (heap p) (heap p') /\ bytes p' = bytes p.
Proof.
  intros Hp. destruct (free_larges p sm fr lg Hp) as (h & m & Hx & Hev & Hp1). unfold vox_mpool_reset. rewrite Hx. cbn [mbind option_bind].
  assert (Hfuel : forall i, 0 <= i < 10 -> (length (chunks_of sm i) <= size (mem p))%nat).
  { intros i Hi. destruct (pool_slot_get p sm fr lg i Hp Hi) as [s Hs]. destruct (pi_slot _ _ _ _ Hp i s Hs) as (_ & _ & _ & Hcc & _).
    eapply chain_size; [exact Hcc|by eapply chunks_nodup]. }
  destruct (for_inv (fun i p' => heap p' = h /\ bytes p' = bytes p /\ initial_block_count p' = initial_block_count p /\
      exists u fr', pool_inv (with_used p' u) sm fr' [] /\
      forall j b, 0 <= j < i -> is_block (initial_block_count p) sm j b -> b ∈ fr' j) 10 0
    (fun i p' => slot ← (slots p').[i];
        '(m, fl) ← refill (size (mem p)) (mem p') (initial_block_count p') (block_size slot) NULL (chunks slot);
        ss ← (slots p').[i <- with_free slot fl (total_blocks slot)];
        Some (with_slots (with_heap p' (heap p') m) ss)) (with_large (with_heap p h m) NULL))
    as (p' & Hloop & Hheap & Hby & Hcn & u & fr' & Hp' & Hall).
  - split; [done|]. split; [done|]. split; [done|]. exists (u64 (msum (live_of m))), fr. split; [exact Hp1|lia].
  - intros i p1 Hi (Hh1 & Hb1 & Hc1 & u & fr1 & Hq & Hbl). destruct (pool_slot_get _ _ _ _ i Hq ltac:(lia)) as [s Hs]. cbn [slots with_used] in Hs.
    rewrite Hs. cbn [mbind option_bind].
    destruct (reset_slot (size (mem p)) p1 sm fr1 i s u Hq (Hfuel i ltac:(lia)) ltac:(lia) Hs) as (m1 & fl & ss & fl' & -> & E2 & Hin & Hq').
    cbn [mbind option_bind]. rewrite E2. cbn [mbind option_bind]. eexists. split; [done|]. split; [done|]. split; [done|]. split; [done|].
    exists (u64 (msum (live_of m1))), (<[i := fl']> fr1). split; [exact Hq'|]. intros j b Hj Hb.
    destruct (decide (i = j)) as [<-|Hne]; [rewrite fn_lookup_insert; apply Hin; by rewrite Hc1|]. rewrite fn_lookup_insert_ne by done.
    apply Hbl; [lia|done].
  - rewrite Hloop. cbn [mbind option_bind]. eexists _, fr'. split; [done|].
    assert (live_of (mem p') = ∅) as Hlive.
    { apply map_empty. intros a. destruct (live_of (mem p') !! a) as [n|] eqn:E; [exfalso|done].
      change (mem p') with (mem (with_used p' u)) in E. destruct (live_cases _ _ _ _ _ _ Hp' E) as [(i & Hi & Em & Hb & _)|(c & Hc & _)].
      - cbn [initial_block_count with_used] in Hb. rewrite Hcn in Hb. specialize (Hall i _ Hi Hb).
        destruct (pool_slot_get _ _ _ _ i Hp' Hi) as [s Hs]. destruct (pi_slot _ _ _ _ Hp' i s Hs) as (_ & _ & Hch & _).
        destruct (hchain_in _ _ _ _ Hch Hall) as [n' En]. cbn [mem with_used] in *. congruence.
      - by apply elem_of_nil in Hc. }
    split; [|split; [exact Hlive|split; [done|split; [cbn; by rewrite Hheap|exact Hby]]]].
    destruct Hp'. constructor; try done. cbn [total_used with_used mem]. by rewrite Hlive.
Qed.
End layout.

(** ** Creation *)

Section creation.
Context {H : Type} `{Heap H} (junk : Z).

Definition config_ok (config : option (bool * Z)) : Prop := forall safe n, config = Some (safe, n) -> 0 <= n <= 2 ^ 40.

Lemma pool_create_ok (h : H) config mutex_ok : mp_inv h -> config_ok config -> exists h' o,
  vox_mpool_create_with_config junk h config mutex_ok = (h', o) /\
  match o with
  | Some p => pool_inv h p [] (fun _ => []) [] /\ live_of (mem p) = ∅ /\ total_used p = 0 /\ evolves h (heap p)
  | None => mp_inv h' /\ mp_live h' = mp_live h
  end.
Proof.
  intros Hh Hc. unfold vox_mpool_create_with_config. destruct (mp_alloc h sizeof_mpool) as [h1 a] eqn:E.
  assert (0 <= sizeof_mpool < 2 ^ 64) as Hsz by (unfold sizeof_mpool; lia).
  destruct (Z.eqb_spec a NULL) as [->|Ha].
  { do 2 eexists. split; [done|]. destruct (mp_alloc_spec _ _ _ _ Hh Hsz E) as [? [[_ ?]|[? _]]]; done. }
  pose proof (took_alloc _ _ _ _ Hh Hsz E Ha) as Ht.
  set (safe := match config with Some (s, _) => s | None => false end).
  set (count := match config with Some (_, n) => if 0 <? n then n else INITIAL_BLOCK_COUNT | None => INITIAL_BLOCK_COUNT end).
  assert (1 <= count <= 2 ^ 40) as Hcount.
  { subst count. destruct config as [[s n]|]; [|by unfold INITIAL_BLOCK_COUNT]. specialize (Hc s n eq_refl).
    destruct (Z.ltb_spec 0 n); [lia|by unfold INITIAL_BLOCK_COUNT]. }
  destruct (safe && negb mutex_ok).
  { do 2 eexists. split; [done|]. pose proof (took_free _ _ _ _ Ht) as [Hi _ _ _ Hl]. cbn in Hl. done. }
  do 2 eexists. split; [done|]. cbn [mem total_used heap].
  assert (live_of ∅ = ∅) as Hl by (apply map_empty; intros k; by rewrite live_of_lookup).
  split; [|split; [exact Hl|split; [done|by eapply evolves_alloc]]].
  constructor; cbn [heap self initial_block_count slots mem large_chunks total_used map app]; try done.
  - intros i s Hs. pose proof (arr_get_range _ _ _ Hs) as Hr. change (zlen _) with 10 in Hr.
    assert (i = 0 \/ i = 1 \/ i = 2 \/ i = 3 \/ i = 4 \/ i = 5 \/ i = 6 \/ i = 7 \/ i = 8 \/ i = 9) as Ei by lia.
    destruct Ei as [->|[->|[->|[->|[->|[->|[->|[->|[->| ->]]]]]]]]]; injection Hs as <-;
      (split; [done|]; split; [done|]; split; [done|]; split; [done|]; split; [|done]);
      cbn [total_blocks]; change (zlen (chunks_of [] _)) with 0; by rewrite Z.mul_0_r.
  - by intros c i ?%elem_of_nil.
  - by intros i b (c & j & ?%elem_of_nil & _).
  - by intros i b ?%elem_of_nil.
  - intros i. apply NoDup_nil_2.
  - by intros c ?%elem_of_nil.
Qed.
End creation.

(** ** The pool meets the interface *)

Section pool.
Context {H : Type} `{Heap H} (junk : Z).
Implicit Types (p : vox_mpool H) (h : H).

(** A pool created on some heap, after any operations. *)
Definition pool_ok p : Prop := exists h0 sm fr lg, pool_inv h0 p sm fr lg.

#[export] Instance mpool_pool : MPool (vox_mpool H) := {|
  mp_alloc := fun p n => default (p, NULL) (vox_mpool_alloc junk p n);
  mp_free := fun p a => default p (vox_mpool_free p a);
  mp_live := fun p => live_of (mem p);
  mp_inv := pool_ok |}.

Lemma pool_alloc p n : pool_ok p -> 0 <= n < 2 ^ 64 -> exists p' a,
  vox_mpool_alloc junk p n = Some (p', a) /\ pool_ok p' /\ alloc_ok p n p' a /\
  (a <> NULL -> mp_live p' !! a = Some (if n <=? 8192 then 2 ^ (4 + vox_mpool_get_slot_index n) else n)).
Proof.
  intros (h0 & sm & fr & lg & Hp) Hn.
  destruct (alloc_okk h0 junk p sm fr lg n Hp Hn) as (p' & a & sm' & fr' & lg' & E & Hp' & _ & _ & _ & _ & Hres).
  exists p', a. split; [done|]. split; [by exists h0, sm', fr', lg'|].
  destruct Hres as [[-> Hl]|(Ha & Hs & Hf & k & Hk & Hl & Hbig & Hsmall)]; [split; [by left|done]|].
  split; [right; split; [unfold NULL; lia|]; split; [lia|]; split; [done|]; by exists k|].
  intros _. cbn [mp_live mpool_pool]. rewrite Hl, lookup_insert_eq. destruct (Z.leb_spec n 8192); f_equal; auto.
Qed.

Lemma pool_free p a : pool_ok p -> is_Some (mp_live p !! a) -> exists p',
  vox_mpool_free p a = Some p' /\ pool_ok p' /\ mp_live p' = delete a (mp_live p) /\ bytes p' = bytes p.
Proof.
  intros (h0 & sm & fr & lg & Hp) Ha. unfold vox_mpool_free.
  destruct (free_internal_ok h0 p sm fr lg a Hp Ha) as (p' & sm' & fr' & lg' & E & Hp' & _ & _ & Hb & _ & Hl).
  destruct (Z.eqb_spec a NULL) as [->|]; [unfold vox_mpool_free_internal in E; cbn in E; injection E as <-|];
    (eexists; split; [done || exact E|]; split; [by exists h0, sm', fr', lg'|]; by split).
Qed.

#[export] Instance mpool_laws : MPoolLaws (vox_mpool H).
Proof.
  split.
  - intros p n p' a Hp Hn E. cbn in Hp, E. destruct (pool_alloc p n Hp Hn) as (q & b & Ex & Hq & Hok & _).
    rewrite Ex in E. cbn in E. injection E as <- <-. by split.
  - intros p a Hp Ha. destruct (pool_free p a Hp Ha) as (q & Ex & Hq & Hl & _). cbn. rewrite Ex. by split.
  - done.
  - intros p a b m n (h0 & sm & fr & lg & Hp) Hab Ha Hb. by eapply live_disjoint.
  - intros p a m (h0 & sm & fr & lg & Hp) Ha. destruct (live_in _ _ _ _ _ _ _ Hp Ha) as (c & o & r & Hc & -> & Ho & Hf & _).
    destruct (mp_range _ c r (region_inv _ _ _ _ _ Hp) Hc). lia.
Qed.

Lemma pool_get_size p a n : pool_ok p -> mp_live p !! a = Some n -> vox_mpool_get_size p a = Some n.
Proof.
  intros (h0 & sm & fr & lg & Hp) Ha. unfold vox_mpool_get_size.
  destruct (live_cases _ _ _ _ _ _ _ Hp Ha) as [(i & Hi & E & Hb & ->)|(c & Hc & -> & E24 & E40)].
  - pose proof (block_positive _ _ _ _ _ _ _ Hp Hb). rewrite (proj2 (Z.eqb_neq a NULL)) by (unfold NULL, sizeof_meta in *; lia).
    unfold get_meta. rewrite E. cbn [mbind option_bind]. rewrite (proj2 (Z.eqb_neq i 255)), (proj2 (Z.leb_gt 10 i)) by lia.
    destruct (pool_slot_get _ _ _ _ _ i Hp Hi) as [s Hs]. rewrite Hs. cbn [mbind option_bind]. f_equal.
    by destruct (pi_slot _ _ _ _ _ Hp i s Hs) as (_ & ? & _).
  - pose proof (lg_nonnull _ _ _ _ _ _ Hp Hc). rewrite (proj2 (Z.eqb_neq _ NULL)) by (unfold NULL; lia).
    replace (c + 48 - sizeof_meta) with (c + 40) by (unfold sizeof_meta; lia). unfold get_meta. rewrite E40. cbn [mbind option_bind].
    change (255 =? 255) with true. cbv iota. replace (c + 40 - sizeof_large) with (c + 24) by (unfold sizeof_large; lia).
    unfold get_large. by rewrite E24.
Qed.

(** C1: [vox_mpool_alloc] and [vox_mpool_free] implement the interface the containers
    rely on, whatever lists of free blocks, chunks and large blocks the pool has built
    up in its memory. An allocation never touches memory outside the blocks malloc gave
    the pool; it returns NULL and changes no block in use, or a block that was not in
    use, disjoint from every block in use, of the slot's size or, above 8 KiB, of exactly
    the requested size. Freeing a block in use removes it and nothing else.
    [vox_mpool_get_size] reports the block's size and the statistics the sum of them. *)
Theorem mpool_implements p :
  pool_ok p ->
  (forall n, 0 <= n < 2 ^ 64 -> exists p' a, vox_mpool_alloc junk p n = Some (p', a) /\ pool_ok p' /\ alloc_ok p n p' a /\
     (a <> NULL -> mp_live p' !! a = Some (if n <=? 8192 then 2 ^ (4 + vox_mpool_get_slot_index n) else n))) /\
  (forall a, is_Some (mp_live p !! a) -> exists p', vox_mpool_free p a = Some p' /\ pool_ok p' /\
     mp_live p' = delete a (mp_live p) /\ bytes p' = bytes p) /\
  (forall a n, mp_live p !! a = Some n -> vox_mpool_get_size p a = Some n) /\
  (forall a b m n, a <> b -> mp_live p !! a = Some m -> mp_live p !! b = Some n -> a + m <= b \/ b + n <= a) /\
  total_used p = u64 (msum (mp_live p)).
Proof.
  intros Hp. split; [intros n; by apply pool_alloc|]. split; [intros a; by apply pool_free|].
  split; [intros a n; by apply pool_get_size|]. split.
  - intros a b m n Hab Ha Hb. by apply (mp_disjoint p).
  - destruct Hp as (h0 & sm & fr & lg & Hp). apply Hp.
Qed.

(** What [vox_mpool_realloc] promises. *)
Definition realloc_ok p (ptr n size : Z) p' (b : Z) : Prop :=
  (b = ptr /\ p' = p /\ size <= n) \/
  (b = NULL /\ mp_live p' = mp_live p /\ bytes p' = bytes p) \/
  (exists k, size <= k /\ b <> ptr /\ mp_live p !! b = None /\ mp_live p' = <[b := k]> (delete ptr (mp_live p)) /\
    (forall i, 0 <= i < Z.min n size -> bytes p' (b + i) = bytes p (ptr + i)) /\
    (forall x y i, mp_live p !! x = Some y -> 0 <= i < y -> bytes p' (x + i) = bytes p (x + i))).

(** The new size belongs to the block's slot. *)
Lemma realloc_same h0 p sm fr lg ptr n size :
  pool_inv h0 p sm fr lg -> mp_live p !! ptr = Some n -> 0 < size < 2 ^ 64 ->
  mem p !! (ptr - sizeof_meta) = Some (Meta (vox_mpool_get_slot_index size)) ->
  vox_mpool_realloc junk p ptr size = Some (p, ptr) /\ size <= n.
Proof.
  intros Hp Ha Hs E. cbn [mp_live mpool_pool] in Ha. pose proof Ha as Hu. rewrite live_of_lookup in Hu. unfold usable in Hu. rewrite E in Hu.
  destruct (slot_index size ltac:(lia)) as [[_ Ei]|(Hle & Hi & Hfit)]; [by rewrite Ei in Hu|].
  set (i := vox_mpool_get_slot_index size) in *. rewrite (proj2 (Z.eqb_neq i 255)), sizes_get in Hu by lia. injection Hu as <-.
  split; [|done]. unfold vox_mpool_realloc. destruct (live_cases _ _ _ _ _ _ _ Hp Ha) as [(j & Hj & _ & Hb & _)|(c & _ & -> & _ & E40)].
  - pose proof (block_positive _ _ _ _ _ _ _ Hp Hb). rewrite (proj2 (Z.eqb_neq ptr NULL)), (proj2 (Z.eqb_neq size 0)) by (unfold NULL, sizeof_meta in *; lia).
    unfold get_meta. rewrite E. cbn [mbind option_bind]. rewrite (proj2 (Z.eqb_neq i 255)), (proj2 (Z.leb_gt 10 i)) by lia. cbn [negb andb].
    destruct (pool_slot_get _ _ _ _ _ i Hp Hi) as [s Es]. rewrite Es. cbn [mbind option_bind]. fold i. rewrite Z.eqb_refl.
    by rewrite (proj2 (Z.ltb_lt i 10)) by lia.
  - exfalso. replace (c + 48 - sizeof_meta) with (c + 40) in E by (unfold sizeof_meta; lia). rewrite E40 in E. injection E as E. lia.
Qed.

Lemma pool_realloc h0 p sm fr lg ptr n size : pool_inv h0 p sm fr lg -> mp_live p !! ptr = Some n -> 0 < size < 2 ^ 64 ->
  exists p' b sm' fr' lg', vox_mpool_realloc junk p ptr size = Some (p', b) /\ pool_inv h0 p' sm' fr' lg' /\ realloc_ok p ptr n size p' b.
Proof.
  intros Hp Ha Hs. destruct (decide (mem p !! (ptr - sizeof_meta) = Some (Meta (vox_mpool_get_slot_index size)))) as [E|E].
  - destruct (realloc_same h0 p sm fr lg ptr n size Hp Ha Hs E) as [Ex Hle]. exists p, ptr, sm, fr, lg.
    split; [done|]. split; [done|]. by left.
  - destruct (realloc_move h0 junk p sm fr lg ptr n size Hp Ha Hs) as (p' & b & sm' & fr' & lg' & Ex & Hp' & _ & Hres); [congruence|].
    exists p', b, sm', fr', lg'. split; [done|]. split; [done|]. right. exact Hres.
Qed.

(** [vox_mpool_realloc] of a block in use leaves it where it is when the new size
    belongs to the same slot; otherwise it returns NULL and leaves everything as it was,
    or a fresh block of at least the new size that holds the old block's bytes as far as
    they fit, and gives the old block back; no byte of any other block changes. NULL
    allocates, size 0 frees. *)
Theorem mpool_realloc p ptr size :
  pool_ok p -> ptr = NULL \/ is_Some (mp_live p !! ptr) -> 0 <= size < 2 ^ 64 ->
  exists p' b, vox_mpool_realloc junk p ptr size = Some (p', b) /\ pool_ok p' /\
    if ptr =? NULL then alloc_ok p size p' b
    else if size =? 0 then b = NULL /\ mp_live p' = delete ptr (mp_live p)
    else forall n, mp_live p !! ptr = Some n -> realloc_ok p ptr n size p' b.
Proof.
  intros Hp Hptr Hs. destruct (Z.eqb_spec ptr NULL) as [->|Hn].
  { destruct (pool_alloc p size Hp Hs) as (p' & a & E & Hp' & Hok & _). by exists p', a. }
  destruct Hptr as [?|[n Hl]]; [done|]. destruct (Z.eqb_spec size 0) as [->|Hz].
  - destruct (pool_free p ptr Hp ltac:(by eexists)) as (p' & E & Hp' & Hl' & _). exists p', NULL. unfold vox_mpool_realloc.
    rewrite (proj2 (Z.eqb_neq ptr NULL)) by done. cbn [Z.eqb]. rewrite E. by split.
  - destruct Hp as (h0 & sm & fr & lg & Hp).
    destruct (pool_realloc h0 p sm fr lg ptr n size Hp Hl ltac:(lia)) as (p' & b & sm' & fr' & lg' & E & Hp' & Hok). exists p', b.
    split; [done|]. split; [by exists h0, sm', fr', lg'|]. intros n' Hn'. rewrite Hl in Hn'. by injection Hn' as <-.
Qed.

(** ** The life of a pool *)

Inductive pool_op := Alloc (n : Z) | Free (a : Z) | Realloc (a n : Z) | Reset.

(** The calls a user may make: blocks are freed once, and while in use. *)
Definition op_ok p (op : pool_op) : Prop :=
  match op with
  | Alloc n => 0 <= n < 2 ^ 64
  | Free a => a = NULL \/ is_Some (mp_live p !! a)
  | Realloc a n => (a = NULL \/ is_Some (mp_live p !! a)) /\ 0 <= n < 2 ^ 64
  | Reset => True
  end.

Definition pool_exec p (op : pool_op) : option (vox_mpool H) :=
  match op with
  | Alloc n => '(p, _) ← vox_mpool_alloc junk p n; Some p
  | Free a => vox_mpool_free p a
  | Realloc a n => '(p, _) ← vox_mpool_realloc junk p a n; Some p
  | Reset => vox_mpool_reset p
  end.

Inductive runs : vox_mpool H -> list pool_op -> vox_mpool H -> Prop :=
| runs_nil p : runs p [] p
| runs_cons p op p1 ops p2 : op_ok p op -> pool_exec p op = Some p1 -> runs p1 ops p2 -> runs p (op :: ops) p2.

(** Every call keeps the invariant, over the same heap. *)
Lemma pool_exec_ok h0 p sm fr lg op : pool_inv h0 p sm fr lg -> op_ok p op -> exists p' sm' fr' lg',
  pool_exec p op = Some p' /\ pool_inv h0 p' sm' fr' lg'.
Proof.
  intros Hp Hop. destruct op as [n|a|a n|]; cbn [pool_exec op_ok] in *.
  - destruct (alloc_okk h0 junk p sm fr lg n Hp Hop) as (p' & a & sm' & fr' & lg' & -> & Hp' & _). cbn. eauto 8.
  - unfold vox_mpool_free. destruct (Z.eqb_spec a NULL) as [->|Hn]; [eauto 8|]. destruct Hop as [?|Ha]; [done|].
    destruct (free_internal_ok h0 p sm fr lg a Hp Ha) as (p' & sm' & fr' & lg' & -> & Hp' & _). eauto 8.
  - destruct Hop as [Ha Hn]. destruct (Z.eqb_spec a NULL) as [->|Hna].
    { destruct (alloc_okk h0 junk p sm fr lg n Hp Hn) as (p' & b & sm' & fr' & lg' & E & Hp' & _).
      unfold vox_mpool_realloc. cbn [Z.eqb NULL]. rewrite E. cbn. eauto 8. }
    destruct Ha as [?|[m Ha]]; [done|]. destruct (decide (n = 0)) as [->|Hnz].
    { unfold vox_mpool_realloc, vox_mpool_free. rewrite (proj2 (Z.eqb_neq a NULL)) by done. cbn [Z.eqb].
      destruct (free_internal_ok h0 p sm fr lg a Hp ltac:(by eexists)) as (p' & sm' & fr' & lg' & -> & Hp' & _). cbn. eauto 8. }
        destruct (pool_realloc h0 p sm fr lg a m n Hp Ha ltac:(lia)) as (p' & b & sm' & fr' & lg' & -> & Hp' & _). cbn. eauto 8.
  - destruct (reset_ok h0 p sm fr lg Hp) as (p' & fr' & E & Hp' & _). eauto 8.
Qed.

Lemma runs_ok h0 p ops p' : runs p ops p' -> (exists sm fr lg, pool_inv h0 p sm fr lg) -> exists sm fr lg, pool_inv h0 p' sm fr lg.
Proof.
  induction 1 as [p|p op p1 ops p2 Hop Hx _ IH]; [done|]. intros (sm & fr & lg & Hp). apply IH.
  destruct (pool_exec_ok h0 p sm fr lg op Hp Hop) as (q & sm' & fr' & lg' & E & Hq). rewrite E in Hx. injection Hx as <-. eauto.
Qed.

(** C2: A pool made by [vox_mpool_create_with_config] (with at most 2^40 blocks per
    chunk), after any sequence of allocations, releases, reallocations and resets: every
    further call runs without undefined behaviour; [vox_mpool_reset] leaves no block in
    use and the statistics at 0; and [vox_mpool_destroy] gives everything the pool ever
    took back to the heap. A creation that fails takes nothing. *)
Theorem mpool_lifecycle h config mutex_ok :
  mp_inv h -> config_ok config ->
  match vox_mpool_create_with_config junk h config mutex_ok with
  | (h1, None) => mp_inv h1 /\ mp_live h1 = mp_live h
  | (_, Some p) => forall ops p', runs p ops p' ->
      (forall op, op_ok p' op -> is_Some (pool_exec p' op)) /\
      (exists q, vox_mpool_reset p' = Some q /\ mp_live q = ∅ /\ total_used q = 0 /\ pool_ok q) /\
      (exists h', vox_mpool_destroy p' = Some h' /\ mp_inv h' /\ mp_live h' = mp_live h)
  end.
Proof.
  intros Hh Hc. destruct (pool_create_ok junk h config mutex_ok Hh Hc) as (h1 & o & -> & Ho). destruct o as [p|]; [|done].
  intros ops p' Hr. destruct Ho as (Hp & _). destruct (runs_ok h p ops p' Hr) as (sm & fr & lg & Hp'); [eauto|].
  split; [|split].
  - intros op Hop. destruct (pool_exec_ok h p' sm fr lg op Hp' Hop) as (q & _ & _ & _ & -> & _). by eexists.
  - destruct (reset_ok h p' sm fr lg Hp') as (q & fr' & -> & Hq & Hl & Hu & _). exists q. split; [done|]. split; [done|]. split; [done|].
    by exists h, sm, fr', [].
  - destruct (pool_destroy_ok h p' sm fr lg Hp') as (h' & -> & Hi & Hl & _). eauto.
Qed.
End pool.

(** ** Concrete runs *)

#[export] Instance bump_heap : Heap bump.
Proof. split; [exact _|]. intros h a n (_ & _ & Hin & _) Ha. by destruct (Hin a n Ha). Qed.

#[export] Instance mpool_bump : MPool (vox_mpool bump) := mpool_pool 0.
#[export] Instance mpool_bump_laws : MPoolLaws (vox_mpool bump) := mpool_laws 0.

(** A pool of 4 blocks per chunk on a heap of 64 KiB. *)
Definition ex_created : bump * option (vox_mpool bump) :=
  vox_mpool_create_with_config 0 (bump_new 65536) (Some (false, 4)) true.
Definition no_pool : vox_mpool bump :=
  {| self := 0; slots := []; total_used := 0; large_chunks := 0; thread_safe := false; initial_block_count := 1;
     heap := bump_new 0; mem := ∅; bytes := fun _ => 0 |}.
Definition ex_mpool : vox_mpool bump := default no_pool ex_created.2.

Lemma ex_pool_config_ok : config_ok (Some (false, 4)).
Proof. intros s n [= _ <-]. lia. Qed.

Lemma ex_mpool_ok : pool_ok ex_mpool.
Proof.
  destruct (pool_create_ok 0 (bump_new 65536) (Some (false, 4)) true (bump_new_inv 65536 ltac:(lia)) ex_pool_config_ok) as (h & o & E & Ho).
  unfold ex_mpool, ex_created. rewrite E. destruct o as [p|]; [|by vm_compute in E]. destruct Ho as (Hp & _). cbn.
  by exists (bump_new 65536), [], (fun _ => []), [].
Qed.

(** 100 bytes are served from the slot of 128-byte blocks. *)
Lemma mpool_implements_witness : pool_ok ex_mpool /\ exists p' a,
  vox_mpool_alloc 0 ex_mpool 100 = Some (p', a) /\ alloc_ok ex_mpool 100 p' a /\ a = 4096 + 560 + 24 + 8 /\ mp_live p' !! a = Some 128.
Proof.
  split; [exact ex_mpool_ok|]. destruct (mpool_implements 0 ex_mpool ex_mpool_ok) as [Ha _].
  destruct (Ha 100 ltac:(lia)) as (p' & a & E & _ & Hok & Hsz). exists p', a. split; [exact E|]. split; [exact Hok|].
  assert (a = 4688) as -> by (clear -E; revert E; vm_compute (vox_mpool_alloc 0 ex_mpool 100); by intros [= _ <-]).
  split; [done|]. by apply Hsz.
Defined.

Definition ex_after : option (vox_mpool bump * Z) := vox_mpool_alloc 0 ex_mpool 100.
Definition ex_mpool1 : vox_mpool bump := default ex_mpool (fst <$> ex_after).

Lemma ex_mpool1_ok : pool_ok ex_mpool1 /\ mp_live ex_mpool1 !! 4688 = Some 128.
Proof.
  destruct (pool_alloc 0 ex_mpool 100 ex_mpool_ok ltac:(lia)) as (p' & a & E & Hp & _ & Hsz).
  unfold ex_mpool1, ex_after. rewrite E. cbn. split; [exact Hp|].
  assert (a = 4688) as -> by (clear -E; revert E; vm_compute (vox_mpool_alloc 0 ex_mpool 100); by intros [= _ <-]).
  by apply Hsz.
Qed.

(** Growing it to 9000 bytes moves it to a block of its own. *)
Lemma mpool_realloc_witness : exists p' b,
  vox_mpool_realloc 0 ex_mpool1 4688 9000 = Some (p', b) /\ b <> 4688 /\ b <> NULL /\ realloc_ok 0 ex_mpool1 4688 128 9000 p' b.
Proof.
  destruct (mpool_realloc 0 ex_mpool1 4688 9000 (proj1 ex_mpool1_ok) (or_intror (mk_is_Some _ _ (proj2 ex_mpool1_ok))) ltac:(lia))
    as (p' & b & E & _ & Hr).
  exists p', b. split; [exact E|].
  assert (b = 5272) as Hb by (assert (snd <$> vox_mpool_realloc 0 ex_mpool1 4688 9000 = Some 5272) as Hv by (vm_compute; reflexivity); rewrite E in Hv; by injection Hv).
  split; [by rewrite Hb|]. split; [by rewrite Hb|]. exact (Hr 128 (proj2 ex_mpool1_ok)).
Defined.

Lemma mpool_lifecycle_witness : mp_inv (bump_new 65536) /\ config_ok (Some (false, 4)) /\
  exists p h', vox_mpool_create_with_config 0 (bump_new 65536) (Some (false, 4)) true = (heap p, Some p) /\
    vox_mpool_destroy p = Some h' /\ mp_live h' = mp_live (bump_new 65536).
Proof.
  split; [exact (bump_new_inv 65536 ltac:(lia))|]. split; [exact ex_pool_config_ok|].
  pose proof (mpool_lifecycle 0 (bump_new 65536) (Some (false, 4)) true (bump_new_inv 65536 ltac:(lia)) ex_pool_config_ok) as Hl.
  assert (ex_created = (heap ex_mpool, Some ex_mpool)) as E by (vm_compute; reflexivity). unfold ex_created in E. rewrite E in Hl.
  destruct (Hl [] ex_mpool (runs_nil _ _)) as (_ & _ & h' & Ed & _ & Hlive). exists ex_mpool, h'. split; [exact E|]. by split.
Defined.

(** With 2^61 blocks per chunk the size of a chunk of 24-byte blocks wraps to 0: malloc
    is asked for the 24 bytes of the chunk node, and linking the blocks writes past it. *)
Lemma mpool_count_overflow h m s h1 c :
  block_size s = 24 -> mp_alloc h 24 = (h1, c) -> c <> NULL -> mp_live h1 !! c = Some 24 ->
  @vox_mpool_expand_slot bump _ 0 h m s (2 ^ 61) = None.
Proof.
  intros Hb Ha Hc Hl. assert (exists k, Z.to_nat (2 ^ 61) = S (S k)) as [k Hk] by (exists (Z.to_nat (2 ^ 61 - 2)); lia).
  unfold vox_mpool_expand_slot. rewrite Hk. clear Hk. rewrite Hb. change (u64 (u64 (24 * 2 ^ 61) + sizeof_chunk)) with 24.
  rewrite Ha. rewrite (proj2 (Z.eqb_neq c NULL)) by done. unfold sizeof_chunk.
  assert (forall x, write_new h1 c m c 24 x = Some (<[c := x]> m)) as ->.
  { intros x. unfold write_new. by rewrite Hl, (proj2 (Z.leb_le c c)), (proj2 (Z.leb_le (c + 24) (c + 24))) by lia. }
  cbn [mbind option_bind].
  cbn [for_ link_block mbind option_bind Z.eqb].
  change (0 + 1 =? 0) with false. cbv iota. unfold write_new. rewrite Hl. rewrite (proj2 (Z.leb_le c (c + 24))) by lia.
  by rewrite (proj2 (Z.leb_gt (c + 24 + 8) (c + 24))) by lia.
Qed.
End Mpool.
