(* ===== verification/CString.v ===== *)
(** * The C string functions the library calls

    [strlen], [memcmp], [strstr] and the character classes of the C standard
    library, on memory given as the cells from a pointer to the end of its block. A
    read past the block is [None]; a byte is a number from 0 to 255. *)

From S2P Require Import Prelude.

Module CString.

(** The index of the first 0. *)
Fixpoint strlen (s : list Z) : option Z :=
  match s with [] => None | c :: s => if c =? 0 then Some 0 else n ← strlen s; Some (1 + n) end.

(** Only the sign of the result of [memcmp] is specified: it is -1, 0 or 1 here. *)
Fixpoint compare_cells (a b : list Z) : Z :=
  match a, b with
  | x :: a, y :: b => if x <? y then -1 else if y <? x then 1 else compare_cells a b
  | _, _ => 0
  end.

Definition memcmp (a b : list Z) (n : Z) : option Z :=
  a ← arr_slice a 0 n; b ← arr_slice b 0 n; Some (compare_cells a b).

Fixpoint starts_with (t s : list Z) : bool :=
  match t, s with
  | [], _ => true
  | x :: t, y :: s => (x =? y) && starts_with t s
  | _ :: _, [] => false
  end.

(** The first position at which [t] occurs, counted from [i]; [Some None]: none
    before the terminator. *)
Fixpoint find_sub (t s : list Z) (i : Z) : option (option Z) :=
  if starts_with t s then Some (Some i) else
  match s with
  | [] => None
  | c :: s => if c =? 0 then Some None else find_sub t s (i + 1)
  end.

Definition strstr (s sub : list Z) : option (option Z) :=
  n ← strlen sub; find_sub (take (Z.to_nat n) sub) s 0.

(** The "C" locale. *)
Definition tolower (c : Z) : Z := if (65 <=? c) && (c <=? 90) then c + 32 else c.
Definition toupper (c : Z) : Z := if (97 <=? c) && (c <=? 122) then c - 32 else c.
Definition isspace (c : Z) : bool := (c =? 32) || (9 <=? c) && (c <=? 13).
Definition isdigit (c : Z) : bool := (48 <=? c) && (c <=? 57).

(** ** Lemmas *)

Definition no_nul (t : list Z) : Prop := Forall (fun c => c <> 0) t.

Lemma strlen_app text rest : no_nul text -> strlen (text ++ 0 :: rest) = Some (zlen text).
Proof.
  induction 1 as [|c text Hc _ IH]; [done|]. cbn [app strlen].
  rewrite (proj2 (Z.eqb_neq c 0)) by done. rewrite IH. cbn [mbind option_bind]. by rewrite zlen_cons.
Qed.

Lemma strlen_Some l n :
  strlen l = Some n -> exists text rest, l = text ++ 0 :: rest /\ no_nul text /\ n = zlen text.
Proof.
  revert n. induction l as [|c l IH]; intros n; cbn [strlen]; [done|].
  destruct (Z.eqb_spec c 0) as [->|Hc].
  - intros [= <-]. exists [], l. split_and!; [done|by constructor|done].
  - destruct (strlen l) as [m|]; cbn [mbind option_bind]; [|done]. intros [= <-].
    destruct (IH m eq_refl) as (t & r & -> & Ht & ->). exists (c :: t), r.
    split_and!; [done|by constructor|by rewrite zlen_cons].
Qed.

Lemma strlen_range l n : strlen l = Some n -> 0 <= n < zlen l.
Proof.
  intros (t & r & -> & _ & ->)%strlen_Some. rewrite zlen_app, zlen_cons.
  pose proof (zlen_nonneg t). pose proof (zlen_nonneg r). lia.
Qed.

Lemma compare_cells_refl l : compare_cells l l = 0.
Proof. induction l as [|x l IH]; cbn; [done|]. by rewrite Z.ltb_irrefl. Qed.

Lemma compare_cells_eq a b : length a = length b -> compare_cells a b = 0 <-> a = b.
Proof.
  revert b. induction a as [|x a IH]; intros [|y b] Hl; try done; cbn.
  injection Hl as Hl. destruct (Z.ltb_spec x y); [split; [done|]; intros [=]; lia|].
  destruct (Z.ltb_spec y x); [split; [done|]; intros [=]; lia|].
  assert (x = y) as <- by lia. rewrite IH by done. split; congruence.
Qed.

Lemma starts_with_spec t s : starts_with t s = true <-> t `prefix_of` s.
Proof.
  revert s. induction t as [|x t IH]; intros s; cbn.
  { split; [|done]. intros _. apply prefix_nil. }
  destruct s as [|y s]; cbn.
  - split; [done|]. intros [k Hk]. done.
  - rewrite andb_true_iff, Z.eqb_eq, IH. split.
    + intros [-> Hp]. by apply prefix_cons.
    + intros Hp. split; [by eapply prefix_cons_inv_1|by eapply prefix_cons_inv_2].
Qed.

Lemma starts_with_take t s : starts_with t s = bool_decide (take (length t) s = t).
Proof.
  apply eq_iff_eq_true. rewrite bool_decide_eq_true, starts_with_spec. split.
  - intros [k ->]. by rewrite take_app_length.
  - intros <-. eexists. by rewrite take_drop.
Qed.
End CString.
