(* ===== verification/VString.v ===== *)
(** * vox_string.c: strings

    The string object of src/vox_string.c over the pool interface, its abstract
    specification as operations on the list of the bytes, and the refinement between
    the two; searching and replacing against their declarative meaning. *)

From S2P Require Import Prelude Alloc CString.

Module VString.
Import CString.

Definition VOX_STRING_DEFAULT_INITIAL_CAPACITY : Z := 32.
Definition sizeof_string : Z := 32.

(** src/vox_string.c:75-80: struct vox_string
    [self] is the address of the struct, [data_at] the value of the pointer [data]
    and [data] the cells of the block it points to. *)
Record vox_string := {
  self : Z;
  data_at : Z;
  data : list Z;
  length_ : Z;
  capacity : Z;
}.

Definition with_text (s : vox_string) (l : list Z) (n : Z) : vox_string :=
  {| self := self s; data_at := data_at s; data := l; length_ := n; capacity := capacity s |}.
Definition with_block (s : vox_string) (a : Z) (l : list Z) (c : Z) : vox_string :=
  {| self := self s; data_at := a; data := l; length_ := length_ s; capacity := c |}.

(** ** Pointer arguments

    A [const char *] argument is [NULL], a pointer to memory outside the string's
    block, or a pointer into the string's own block, at an index. *)
Inductive ptr := Null | Mem (l : list Z) | Own (i : Z).

(** The cells from the pointer to the end of its block, at the time of the call. *)
Definition cells_at (s : vox_string) (q : ptr) : list Z :=
  match q with Null => [] | Mem l => l | Own i => drop (Z.to_nat i) (data s) end.

Definition is_null (q : ptr) : bool := match q with Null => true | _ => false end.

(** [memcpy(s->data + off, q, n)] where [q] was computed while the block was [at0]:
    reading a block that has been freed since, and overlapping regions, are
    undefined. *)
Definition memcpy_in (at0 : Z) (s : vox_string) (off : Z) (q : ptr) (n : Z) : option (list Z) :=
  match q with
  | Null => None
  | Mem l => arr_blit (data s) off l 0 n
  | Own i =>
      guard! (data_at s =? at0) && ((off + n <=? i) || (i + n <=? off));
      arr_blit (data s) off (data s) i n
  end.

(** The [switch] over small sizes: cells [n - 1] down to 0, one assignment each. *)
Fixpoint copy_down (n : nat) (get : list Z -> Z -> option Z) (dst : list Z) (off : Z) : option (list Z) :=
  match n with
  | O => Some dst
  | S n =>
      c ← get dst (Z.of_nat n);
      dst ← dst.[off + Z.of_nat n <- c];
      copy_down n get dst off
  end.

Definition switch_copy (at0 : Z) (s : vox_string) (off : Z) (q : ptr) (n : Z) : option (list Z) :=
  match q with
  | Null => None
  | Mem l => copy_down (Z.to_nat n) (fun _ k => l.[k]) (data s) off
  | Own i => guard! data_at s =? at0;
             copy_down (Z.to_nat n) (fun dst k => dst.[i + k]) (data s) off
  end.

(** ** String views *)

(** src/vox_string.h:25-28: vox_strview_t *)
Record strview := StrView { sv_ptr : ptr; sv_len : Z }.

(** src/vox_string.c: vox_strview_from_cstr *)
Definition vox_strview_from_cstr (s : vox_string) (cstr : ptr) : option strview :=
  if is_null cstr then Some (StrView Null 0) else
  n ← strlen (cells_at s cstr); Some (StrView cstr n).

(** src/vox_string.c: vox_strview_from_ptr *)
Definition vox_strview_from_ptr (q : ptr) (len : Z) : strview :=
  if is_null q then StrView Null 0 else StrView q len.

(** src/vox_string.c: vox_strview_empty *)
Definition vox_strview_empty (sv : option strview) : bool :=
  match sv with None => true | Some v => is_null (sv_ptr v) || (sv_len v =? 0) end.

(** The comparison both view functions end with. *)
Definition compare_prefix (a : list Z) (la : Z) (b : list Z) (lb : Z) : option Z :=
  let min_len := if la <? lb then la else lb in
  result ← memcmp a b min_len;
  Some (if negb (result =? 0) then result
        else if la <? lb then -1 else if lb <? la then 1 else 0).

(** Views on memory outside a string.

    src/vox_string.c: vox_strview_compare *)
Definition vox_strview_compare (sv1 sv2 : option (list Z * Z)) : option Z :=
  match sv1, sv2 with
  | None, None => Some 0
  | None, Some _ => Some (-1)
  | Some _, None => Some 1
  | Some (p1, l1), Some (p2, l2) => compare_prefix p1 l1 p2 l2
  end.

(** src/vox_string.c: vox_strview_compare_cstr *)
Definition vox_strview_compare_cstr (sv : option (list Z * Z)) (cstr : option (list Z)) : option Z :=
  match sv, cstr with
  | None, None => Some 0
  | None, Some _ => Some (-1)
  | Some _, None => Some 1
  | Some (p1, l1), Some c => cstr_len ← strlen c; compare_prefix p1 l1 c cstr_len
  end.

(** ** Operations *)

(** The tests of the first bytes, one by one, before [strlen] is called. *)
Fixpoint test_bytes (cells : list Z) (n : nat) (i : Z) : option Z :=
  match n with
  | O => strlen cells
  | S n => c ← cells.[i]; if c =? 0 then Some i else test_bytes cells n (i + 1)
  end.

(** src/vox_string.c: fast_strlen *)
Definition fast_strlen (cells : list Z) : option Z := test_bytes cells 16 0.

Section operations.
Context {P : Type} `{MPool P}.
(** The content of uninitialised memory. *)
Context (junk : Z).
Implicit Types (p : P) (str : vox_string).

(** src/vox_string.c: ensure_capacity *)
Definition ensure_capacity p str (needed : Z) : option (P * vox_string * Z) :=
  let required := u64 (length_ str + needed + 1) in
  if required <=? capacity str then Some (p, str, 0) else
  let new_capacity :=
    if capacity str =? 0 then VOX_STRING_DEFAULT_INITIAL_CAPACITY else capacity str in
  let sized :=
    if required <=? u64 (new_capacity * 2) then Some (u64 (new_capacity * 2))
    else let target := u64 (smear (u64 (required - 1)) + 1) in
         if target <? required then None else Some target in
  match sized with
  | None => Some (p, str, -1)
  | Some new_capacity =>
      let '(p, a, new_data) := alloc_cells junk p new_capacity 1 in
      if a =? NULL then Some (p, str, -1) else
      '(p, new_data) ←
        (if negb (data_at str =? NULL) then
           let copy_len := u64 (length_ str + 1) in
           new_data ← (if copy_len <=? 16
                       then copy_down (Z.to_nat copy_len) (fun _ k => (data str).[k]) new_data 0
                       else arr_blit new_data 0 (data str) 0 copy_len);
           Some (mp_free p (data_at str), new_data)
         else new_data ← new_data.[0 <- 0]; Some (p, new_data));
      Some (p, with_block str a new_data new_capacity, 0)
  end.

(** [config]: the field [initial_capacity].

    src/vox_string.c: vox_string_create_with_config *)
Definition vox_string_create_with_config p (config : option Z) : option (P * option vox_string) :=
  let '(p, str_at) := mp_alloc p sizeof_string in
  if str_at =? NULL then Some (p, None) else
  let initial_capacity :=
    match config with
    | Some c => if 0 <? c then c else VOX_STRING_DEFAULT_INITIAL_CAPACITY
    | None => VOX_STRING_DEFAULT_INITIAL_CAPACITY
    end in
  let '(p, a, cells) := alloc_cells junk p initial_capacity 1 in
  if a =? NULL then Some (mp_free p str_at, None) else
  cells ← cells.[0 <- 0];
  Some (p, Some {| self := str_at; data_at := a; data := cells; length_ := 0;
                   capacity := initial_capacity |}).

(** src/vox_string.c: vox_string_create *)
Definition vox_string_create p : option (P * option vox_string) :=
  vox_string_create_with_config p None.

(** src/vox_string.c: vox_string_clear *)
Definition vox_string_clear str : option vox_string :=
  cells ← (if negb (data_at str =? NULL) then (data str).[0 <- 0] else Some (data str));
  Some (with_text str cells 0).

(** src/vox_string.c: vox_string_destroy *)
Definition vox_string_destroy p str : P :=
  let p := if negb (data_at str =? NULL) then mp_free p (data_at str) else p in
  mp_free p (self str).

(** src/vox_string.c: vox_string_length *)
Definition vox_string_length str : Z := length_ str.
(** src/vox_string.c: vox_string_capacity *)
Definition vox_string_capacity str : Z := capacity str.
(** src/vox_string.c: vox_string_empty *)
Definition vox_string_empty str : bool := length_ str =? 0.
(** src/vox_string.c: vox_string_data *)
Definition vox_string_data str : list Z := data str.
(** src/vox_string.c: vox_string_cstr *)
Definition vox_string_cstr str : list Z := if data_at str =? NULL then [0] else data str.

(** src/vox_string.c: vox_string_set_data *)
Definition vox_string_set_data p str (q : ptr) (len : Z) : option (P * vox_string * Z) :=
  if is_null q || (len =? 0) then
    if is_null q && (len =? 0) then str ← vox_string_clear str; Some (p, str, 0)
    else Some (p, str, -1)
  else
  let at0 := data_at str in
  '(p, str, rc) ← ensure_capacity p str len;
  if negb (rc =? 0) then Some (p, str, -1) else
  cells ← memcpy_in at0 str 0 q len;
  cells ← cells.[len <- 0];
  Some (p, with_text str cells len, 0).

(** src/vox_string.c: vox_string_set *)
Definition vox_string_set p str (cstr : ptr) : option (P * vox_string * Z) :=
  if is_null cstr then str ← vox_string_clear str; Some (p, str, 0) else
  n ← fast_strlen (cells_at str cstr); vox_string_set_data p str cstr n.

(** src/vox_string.c: vox_string_set_view *)
Definition vox_string_set_view p str (view : option strview) : option (P * vox_string * Z) :=
  match view with
  | Some v =>
      if vox_strview_empty view then str ← vox_string_clear str; Some (p, str, 0)
      else vox_string_set_data p str (sv_ptr v) (sv_len v)
  | None => str ← vox_string_clear str; Some (p, str, 0)
  end.

(** src/vox_string.c: vox_string_append_data *)
Definition vox_string_append_data p str (q : ptr) (len : Z) : option (P * vox_string * Z) :=
  if is_null q || (len =? 0) then Some (p, str, -1) else
  let at0 := data_at str in
  '(p, str, rc) ← ensure_capacity p str len;
  if negb (rc =? 0) then Some (p, str, -1) else
  cells ← (if len <=? 16 then switch_copy at0 str (length_ str) q len
           else memcpy_in at0 str (length_ str) q len);
  let n := u64 (length_ str + len) in
  cells ← cells.[n <- 0];
  Some (p, with_text str cells n, 0).

(** src/vox_string.c: vox_string_append *)
Definition vox_string_append p str (cstr : ptr) : option (P * vox_string * Z) :=
  if is_null cstr then Some (p, str, -1) else
  n ← fast_strlen (cells_at str cstr); vox_string_append_data p str cstr n.

(** src/vox_string.c: vox_string_append_view *)
Definition vox_string_append_view p str (view : option strview) : option (P * vox_string * Z) :=
  match view with
  | Some v => if vox_strview_empty view then Some (p, str, -1)
              else vox_string_append_data p str (sv_ptr v) (sv_len v)
  | None => Some (p, str, -1)
  end.

(** [None]: [other] is the string itself.

    src/vox_string.c: vox_string_append_string *)
Definition vox_string_append_string p str (other : option vox_string) : option (P * vox_string * Z) :=
  let len := match other with Some o => length_ o | None => length_ str end in
  if len =? 0 then Some (p, str, 0) else
  let view := vox_strview_from_ptr
                (match other with Some o => Mem (data o) | None => Own 0 end) len in
  vox_string_append_view p str (Some view).

(** src/vox_string.c: vox_string_append_char *)
Definition vox_string_append_char p str (ch : Z) : option (P * vox_string * Z) :=
  '(p, str, rc) ← ensure_capacity p str 1;
  if negb (rc =? 0) then Some (p, str, -1) else
  cells ← (data str).[length_ str <- ch];
  let n := u64 (length_ str + 1) in
  cells ← cells.[n <- 0];
  Some (p, with_text str cells n, 0).

(** [vsnprintf(dst + off, size, fmt, args)] where [out] is the formatted text, or
    [None] for an encoding error. *)
Definition vsnprintf (dst : list Z) (off size : Z) (out : option (list Z)) : option (list Z * Z) :=
  match out with
  | None => Some (dst, -1)
  | Some t =>
      let m := Z.min (zlen t) (size - 1) in
      dst ← arr_blit dst off t 0 m; dst ← dst.[off + m <- 0]; Some (dst, zlen t)
  end.

(** src/vox_string.c: vox_string_append_vformat *)
Definition vox_string_append_vformat p str (out : option (list Z)) : option (P * vox_string * Z) :=
  '(buf, n) ← vsnprintf (replicate 256 junk) 0 256 out;
  if n <? 0 then Some (p, str, -1) else
  if n <? 256 then vox_string_append_data p str (Mem buf) n else
  let needed := n + 1 in
  '(p, str, rc) ← ensure_capacity p str needed;
  if negb (rc =? 0) then Some (p, str, -1) else
  let available := u64 (capacity str - length_ str) in
  if available =? 0 then Some (p, str, -1) else
  '(cells, n) ← vsnprintf (data str) (length_ str) available out;
  if (n <? 0) || (available <=? n) then Some (p, with_text str cells (length_ str), -1) else
  let len := u64 (length_ str + n) in
  cells ← cells.[len <- 0];
  Some (p, with_text str cells len, n).

(** src/vox_string.c: vox_string_append_format *)
Definition vox_string_append_format p str (out : option (list Z)) : option (P * vox_string * Z) :=
  vox_string_append_vformat p str out.

(** src/vox_string.c: vox_string_insert_data *)
Definition vox_string_insert_data p str (pos : Z) (q : ptr) (len : Z) : option (P * vox_string * Z) :=
  if is_null q || (len =? 0) then Some (p, str, -1) else
  if length_ str <? pos then Some (p, str, -1) else
  let at0 := data_at str in
  '(p, str, rc) ← ensure_capacity p str len;
  if negb (rc =? 0) then Some (p, str, -1) else
  cells ← (if pos <? length_ str
           then arr_blit (data str) (u64 (pos + len)) (data str) pos (length_ str - pos)
           else Some (data str));
  cells ← memcpy_in at0 (with_text str cells (length_ str)) pos q len;
  let n := u64 (length_ str + len) in
  cells ← cells.[n <- 0];
  Some (p, with_text str cells n, 0).

(** src/vox_string.c: vox_string_insert *)
Definition vox_string_insert p str (pos : Z) (cstr : ptr) : option (P * vox_string * Z) :=
  if is_null cstr then Some (p, str, -1) else
  n ← fast_strlen (cells_at str cstr); vox_string_insert_data p str pos cstr n.

(** src/vox_string.c: vox_string_insert_view *)
Definition vox_string_insert_view p str (pos : Z) (view : option strview)
  : option (P * vox_string * Z) :=
  match view with
  | Some v => if vox_strview_empty view then Some (p, str, -1)
              else vox_string_insert_data p str pos (sv_ptr v) (sv_len v)
  | None => Some (p, str, -1)
  end.

(** src/vox_string.c: vox_string_remove *)
Definition vox_string_remove str (pos len : Z) : option (vox_string * Z) :=
  if length_ str <=? pos then Some (str, -1) else
  let len := if length_ str <? u64 (pos + len) then length_ str - pos else len in
  if len =? 0 then Some (str, 0) else
  cells ← (if u64 (pos + len) <? length_ str
           then arr_blit (data str) pos (data str) (u64 (pos + len)) (u64 (length_ str - pos - len))
           else Some (data str));
  let n := u64 (length_ str - len) in
  cells ← cells.[n <- 0];
  Some (with_text str cells n, 0).

(** src/vox_string.c: vox_string_at *)
Definition vox_string_at str (index : Z) : option Z :=
  if length_ str <=? index then Some 0 else (data str).[index].

(** src/vox_string.c: vox_string_set_char *)
Definition vox_string_set_char str (index ch : Z) : option (vox_string * Z) :=
  if length_ str <=? index then Some (str, -1) else
  cells ← (data str).[index <- ch];
  Some (with_text str cells (length_ str), 0).

(** src/vox_string.c: vox_string_find *)
Definition vox_string_find str (substr : ptr) (start_pos : Z) : option Z :=
  if is_null substr || (length_ str <=? start_pos) then Some SIZE_MAX else
  found ← strstr (drop (Z.to_nat start_pos) (data str)) (cells_at str substr);
  Some (match found with None => SIZE_MAX | Some i => start_pos + i end).

(** The loop [for (i = from; i != SIZE_MAX; i--)]: [n] is [i + 1]. *)
Fixpoint rfind_loop (cells sub : list Z) (substr_len : Z) (n : nat) : option Z :=
  match n with
  | O => Some SIZE_MAX
  | S n =>
      here ← arr_slice cells (Z.of_nat n) substr_len;
      c ← memcmp here sub substr_len;
      if c =? 0 then Some (Z.of_nat n) else rfind_loop cells sub substr_len n
  end.

(** src/vox_string.c: vox_string_rfind *)
Definition vox_string_rfind str (substr : ptr) (start_pos : Z) : option Z :=
  if is_null substr then Some SIZE_MAX else
  substr_len ← fast_strlen (cells_at str substr);
  if (substr_len =? 0) || (length_ str <? substr_len) then Some SIZE_MAX else
  let search_len := if start_pos =? SIZE_MAX then length_ str else u64 (start_pos + 1) in
  if search_len <? substr_len then Some SIZE_MAX else
  rfind_loop (data str) (cells_at str substr) substr_len (Z.to_nat (search_len - substr_len + 1)).

(** src/vox_string.c: vox_string_replace_at *)
Definition vox_string_replace_at p str (pos len : Z) (new_str : ptr) : option (P * vox_string * Z) :=
  if is_null new_str || (length_ str <=? pos) then Some (p, str, -1) else
  let len := if length_ str <? u64 (pos + len) then length_ str - pos else len in
  new_len ← fast_strlen (cells_at str new_str);
  let at0 := data_at str in
  if new_len =? len then
    cells ← memcpy_in at0 str pos new_str new_len;
    Some (p, with_text str cells (length_ str), 0)
  else
  '(p, str, rc) ← (if len <? new_len then ensure_capacity p str (new_len - len) else Some (p, str, 0));
  if negb (rc =? 0) then Some (p, str, -1) else
  cells ← arr_blit (data str) (u64 (pos + new_len)) (data str) (u64 (pos + len))
            (u64 (length_ str - pos - len));
  cells ← memcpy_in at0 (with_text str cells (length_ str)) pos new_str new_len;
  let n := u64 (length_ str + (new_len - len)) in
  cells ← cells.[n <- 0];
  Some (p, with_text str cells n, 0).

(** [while (true)]: one round per fuel. A count beyond [INT_MAX] is undefined. *)
Fixpoint replace_loop (fuel : nat) p str (old_str new_str : ptr) (old_len new_len pos count : Z)
  : option (P * vox_string * Z) :=
  match fuel with
  | O => None
  | S fuel =>
      pos ← vox_string_find str old_str pos;
      if pos =? SIZE_MAX then Some (p, str, count) else
      '(p, str, rc) ← vox_string_replace_at p str pos old_len new_str;
      if negb (rc =? 0) then Some (p, str, -1) else
      guard! count + 1 <? 2 ^ 31;
      replace_loop fuel p str old_str new_str old_len new_len (u64 (pos + new_len)) (count + 1)
  end.

(** Both arguments are outside the string's block.

    src/vox_string.c: vox_string_replace *)
Definition vox_string_replace (fuel : nat) p str (old_str new_str : option (list Z))
  : option (P * vox_string * Z) :=
  match old_str, new_str with
  | Some old_str, Some new_str =>
      old_len ← fast_strlen old_str;
      new_len ← fast_strlen new_str;
      if old_len =? 0 then Some (p, str, 0) else
      replace_loop fuel p str (Mem old_str) (Mem new_str) old_len new_len 0 0
  | _, _ => Some (p, str, -1)
  end.

(** src/vox_string.c: vox_string_compare *)
Definition vox_string_compare (str1 str2 : option vox_string) : option Z :=
  match str1, str2 with
  | None, None => Some 0
  | None, Some _ => Some (-1)
  | Some _, None => Some 1
  | Some s1, Some s2 =>
      if negb (length_ s1 =? length_ s2) then Some (if length_ s1 <? length_ s2 then -1 else 1)
      else if length_ s1 =? 0 then Some 0
      else memcmp (data s1) (data s2) (length_ s1)
  end.

(** src/vox_string.c: vox_string_compare_cstr *)
Definition vox_string_compare_cstr (str : option vox_string) (cstr : option (list Z)) : option Z :=
  match str, cstr with
  | None, None => Some 0
  | None, Some _ => Some (-1)
  | Some _, None => Some 1
  | Some s, Some c =>
      cstr_len ← strlen c;
      if negb (length_ s =? cstr_len) then Some (if length_ s <? cstr_len then -1 else 1)
      else if length_ s =? 0 then Some 0
      else memcmp (data s) c (length_ s)
  end.

(** src/vox_string.c: vox_string_from_data *)
Definition vox_string_from_data p (q : option (list Z)) (len : Z) : option (P * option vox_string) :=
  '(p, created) ← vox_string_create p;
  match created, q with
  | None, _ => Some (p, None)
  | Some str, Some l =>
      if 0 <? len then
        '(p, str, rc) ← vox_string_set_data p str (Mem l) len;
        if negb (rc =? 0) then Some (vox_string_destroy p str, None) else Some (p, Some str)
      else Some (p, Some str)
  | Some str, None => Some (p, Some str)
  end.

(** src/vox_string.c: vox_string_from_cstr *)
Definition vox_string_from_cstr p (cstr : option (list Z)) : option (P * option vox_string) :=
  match cstr with
  | None => vox_string_create p
  | Some c => len ← strlen c; vox_string_from_data p (Some c) len
  end.

(** src/vox_string.c: vox_string_clone *)
Definition vox_string_clone p (src : vox_string) : option (P * option vox_string) :=
  '(p, created) ← vox_string_create p;
  match created with
  | None => Some (p, None)
  | Some dst =>
      if 0 <? length_ src then
        '(p, dst, rc) ← vox_string_set_data p dst (Mem (data src)) (length_ src);
        if negb (rc =? 0) then Some (vox_string_destroy p dst, None) else Some (p, Some dst)
      else Some (p, Some dst)
  end.

(** src/vox_string.c: vox_string_substr *)
Definition vox_string_substr p str (pos len : Z) : option (P * option vox_string) :=
  if length_ str <=? pos then Some (p, None) else
  let len := if (len =? SIZE_MAX) || (length_ str <? u64 (pos + len)) then length_ str - pos else len in
  vox_string_from_data p (Some (drop (Z.to_nat pos) (data str))) len.

(** [for (i = 0; i < length; i++) data[i] = f(data[i])] *)
Definition map_text (f : Z -> Z) str : option vox_string :=
  if data_at str =? NULL then Some str else
  cells ← for_ (Z.to_nat (length_ str)) 0
            (fun i cells => c ← arr_get cells i; cells.[i <- f c]) (data str);
  Some (with_text str cells (length_ str)).

(** src/vox_string.c: vox_string_tolower *)
Definition vox_string_tolower str : option vox_string := map_text tolower str.
(** src/vox_string.c: vox_string_toupper *)
Definition vox_string_toupper str : option vox_string := map_text toupper str.

(** The two scanning loops of [vox_string_trim]; [n] bounds their rounds. *)
Fixpoint skip_left (n : nat) (cells : list Z) (i stop : Z) : option Z :=
  match n with
  | O => Some i
  | S n => if stop <=? i then Some i else
           c ← cells.[i]; if isspace c then skip_left n cells (i + 1) stop else Some i
  end.

Fixpoint skip_right (n : nat) (cells : list Z) (start i : Z) : option Z :=
  match n with
  | O => Some i
  | S n => if i <=? start then Some i else
           c ← cells.[i - 1]; if isspace c then skip_right n cells start (i - 1) else Some i
  end.

(** src/vox_string.c: vox_string_trim *)
Definition vox_string_trim str : option vox_string :=
  if (data_at str =? NULL) || (length_ str =? 0) then Some str else
  let n := Z.to_nat (length_ str) in
  start ← skip_left n (data str) 0 (length_ str);
  stop ← skip_right n (data str) start (length_ str);
  if (0 <? start) || (stop <? length_ str) then
    cells ← (if start <? stop then arr_blit (data str) 0 (data str) start (stop - start)
             else Some (data str));
    cells ← cells.[stop - start <- 0];
    Some (with_text str cells (stop - start))
  else Some str.

(** src/vox_string.c: vox_string_reserve *)
Definition vox_string_reserve p str (cap : Z) : option (P * vox_string * Z) :=
  if cap <=? capacity str then Some (p, str, 0) else
  let '(p, a, new_data) := alloc_cells junk p cap 1 in
  if a =? NULL then Some (p, str, -1) else
  '(p, new_data) ←
    (if negb (data_at str =? NULL) then
       new_data ← arr_blit new_data 0 (data str) 0 (u64 (length_ str + 1));
       Some (mp_free p (data_at str), new_data)
     else new_data ← new_data.[0 <- 0]; Some (p, new_data));
  Some (p, with_block str a new_data cap, 0).

(** src/vox_string.c: vox_string_resize *)
Definition vox_string_resize p str (new_size : Z) : option (P * vox_string * Z) :=
  if new_size =? length_ str then Some (p, str, 0) else
  if new_size <? length_ str then
    cells ← (data str).[new_size <- 0];
    Some (p, with_text str cells new_size, 0)
  else
  '(p, str, rc) ← ensure_capacity p str (new_size - length_ str);
  if negb (rc =? 0) then Some (p, str, -1) else
  cells ← arr_fill (data str) (length_ str) (new_size - length_ str) 32;
  cells ← cells.[new_size <- 0];
  Some (p, with_text str cells new_size, 0).
End operations.

(** ** One call, as data *)

Inductive string_op :=
| Clear | Length | Empty
| SetData (q : ptr) (len : Z) | Set_ (q : ptr) | SetView (v : option strview)
| AppendData (q : ptr) (len : Z) | Append (q : ptr) | AppendView (v : option strview)
| AppendString (o : vox_string) | AppendChar (ch : Z) | AppendFormat (out : option (list Z))
| InsertData (pos : Z) (q : ptr) (len : Z) | Insert (pos : Z) (q : ptr)
| InsertView (pos : Z) (v : option strview)
| Remove (pos len : Z) | At (index : Z) | SetChar (index ch : Z)
| ReplaceAt (pos len : Z) (q : ptr) | Replace (old_str new_str : option (list Z))
| ToLower | ToUpper | Trim | Reserve (cap : Z) | Resize (n : Z).

Section run.
Context {P : Type} `{MPool P} (junk : Z).

(** The state and the value returned (0 for [void]). The rounds of [Replace] are
    bounded by the length of the string. *)
Definition string_exec (p : P) (str : vox_string) (op : string_op) : option (P * vox_string * Z) :=
  let pure (r : option (vox_string * Z)) := '(s, n) ← r; Some (p, s, n) in
  let void (r : option vox_string) := s ← r; Some (p, s, 0) in
  match op with
  | Clear => void (vox_string_clear str)
  | Length => Some (p, str, vox_string_length str)
  | Empty => Some (p, str, Z.b2z (vox_string_empty str))
  | SetData q len => vox_string_set_data junk p str q len
  | Set_ q => vox_string_set junk p str q
  | SetView v => vox_string_set_view junk p str v
  | AppendData q len => vox_string_append_data junk p str q len
  | Append q => vox_string_append junk p str q
  | AppendView v => vox_string_append_view junk p str v
  | AppendString o => vox_string_append_string junk p str (Some o)
  | AppendChar ch => vox_string_append_char junk p str ch
  | AppendFormat out => vox_string_append_format junk p str out
  | InsertData pos q len => vox_string_insert_data junk p str pos q len
  | Insert pos q => vox_string_insert junk p str pos q
  | InsertView pos v => vox_string_insert_view junk p str pos v
  | Remove pos len => pure (vox_string_remove str pos len)
  | At i => c ← vox_string_at str i; Some (p, str, c)
  | SetChar i ch => pure (vox_string_set_char str i ch)
  | ReplaceAt pos len q => vox_string_replace_at junk p str pos len q
  | Replace o n => vox_string_replace junk (S (Z.to_nat (length_ str))) p str o n
  | ToLower => void (vox_string_tolower str)
  | ToUpper => void (vox_string_toupper str)
  | Trim => void (vox_string_trim str)
  | Reserve c => vox_string_reserve junk p str c
  | Resize n => vox_string_resize junk p str n
  end.
End run.

(** ** The specification: operations on the list of the bytes *)

(** The bytes an argument denotes: the first [len] cells, or up to the terminator;
    [None] for [NULL]. *)
Definition bytes_of (q : ptr) (len : Z) : option (list Z) :=
  match q with Mem l => Some (take (Z.to_nat len) l) | _ => None end.
Definition cstr_of (l : list Z) : list Z := take (Z.to_nat (default 0 (strlen l))) l.
Definition text_of (q : ptr) : option (list Z) :=
  match q with Mem l => Some (cstr_of l) | _ => None end.
Definition view_of (v : option strview) : option (list Z) :=
  v ← v; match bytes_of (sv_ptr v) (sv_len v) with Some (c :: t) => Some (c :: t) | _ => None end.

(** Assignment of an empty text and every kind of insertion of one are refused. *)
Definition set_spec (c : list Z) (d : option (list Z)) : list Z * Z :=
  match d with None => ([], 0) | Some [] => (c, -1) | Some t => (t, 0) end.
Definition insert_spec (c : list Z) (pos : Z) (d : option (list Z)) : list Z * Z :=
  match d with
  | None | Some [] => (c, -1)
  | Some t => if zlen c <? pos then (c, -1)
              else (take (Z.to_nat pos) c ++ t ++ drop (Z.to_nat pos) c, 0)
  end.

(** The leftmost occurrence of [t] in a text, looked for up to the first 0. *)
Fixpoint find_in (t c : list Z) (i : Z) : option Z :=
  if starts_with t c then Some i else
  match c with [] => None | x :: c => if x =? 0 then None else find_in t c (i + 1) end.

(** Replace the leftmost occurrence, then go on after it, at most [k] times. *)
Fixpoint replace_upto (k : nat) (o n c : list Z) : list Z * Z :=
  match k with
  | O => (c, 0)
  | S k =>
      match find_in o c 0 with
      | None => (c, 0)
      | Some i =>
          let '(r, m) := replace_upto k o n (drop (Z.to_nat i + length o) c) in
          (take (Z.to_nat i) c ++ n ++ r, 1 + m)
      end
  end.

Fixpoint drop_spaces (c : list Z) : list Z :=
  match c with [] => [] | x :: c' => if isspace x then drop_spaces c' else c end.
Definition trim_spec (c : list Z) : list Z := rev (drop_spaces (rev (drop_spaces c))).

(** New content and value returned. *)
Definition string_spec (c : list Z) (op : string_op) : list Z * Z :=
  match op with
  | Clear => ([], 0)
  | Length => (c, zlen c)
  | Empty => (c, Z.b2z (zlen c =? 0))
  | SetData q len => if is_null q && negb (len =? 0) then (c, -1) else set_spec c (bytes_of q len)
  | Set_ q => set_spec c (text_of q)
  | SetView v => set_spec c (view_of v)
  | AppendData q len => insert_spec c (zlen c) (bytes_of q len)
  | Append q => insert_spec c (zlen c) (text_of q)
  | AppendView v => insert_spec c (zlen c) (view_of v)
  | AppendString o => (c ++ take (Z.to_nat (length_ o)) (data o), 0)
  | AppendChar ch => (c ++ [ch], 0)
  | AppendFormat out =>
      match out with
      | None | Some [] => (c, -1)
      | Some t => (c ++ t, if zlen t <? 256 then 0 else zlen t)
      end
  | InsertData pos q len => insert_spec c pos (bytes_of q len)
  | Insert pos q => insert_spec c pos (text_of q)
  | InsertView pos v => insert_spec c pos (view_of v)
  | Remove pos len =>
      if zlen c <=? pos then (c, -1)
      else (take (Z.to_nat pos) c ++ drop (Z.to_nat (pos + len)) c, 0)
  | At i => (c, default 0 c.[i])
  | SetChar i ch => if zlen c <=? i then (c, -1) else (<[Z.to_nat i := ch]> c, 0)
  | ReplaceAt pos len q =>
      match text_of q with
      | None => (c, -1)
      | Some t => if zlen c <=? pos then (c, -1)
                  else (take (Z.to_nat pos) c ++ t ++ drop (Z.to_nat (pos + len)) c, 0)
      end
  | Replace (Some o) (Some n) =>
      match cstr_of o with [] => (c, 0) | t => replace_upto (length c) t (cstr_of n) c end
  | Replace _ _ => (c, -1)
  | ToLower => (map tolower c, 0)
  | ToUpper => (map toupper c, 0)
  | Trim => (trim_spec c, 0)
  | Reserve _ => (c, 0)
  | Resize n => (take (Z.to_nat n) (c ++ replicate (Z.to_nat n - length c) 32), 0)
  end.

(** ** The arguments the refinement covers

    Text comes from outside the string's block, has the length the call says, and is
    terminated where the call looks for the end; [size_t] sums do not wrap; the
    number of replacements fits in an [int]. *)
Definition mem_ok (q : ptr) (len : Z) : Prop :=
  match q with Null => 0 <= len | Mem l => 0 <= len <= 2 ^ 62 /\ len <= zlen l | Own _ => False end.
Definition str_ok (l : list Z) : Prop := exists n, strlen l = Some n /\ n <= 2 ^ 62.
Definition cstr_ok (q : ptr) : Prop :=
  match q with Null => True | Mem l => str_ok l | Own _ => False end.
Definition view_ok (v : option strview) : Prop :=
  match v with None => True | Some v => mem_ok (sv_ptr v) (sv_len v) end.

Definition op_args_ok (c : list Z) (op : string_op) : Prop :=
  match op with
  | SetData q len | AppendData q len => mem_ok q len
  | InsertData pos q len => 0 <= pos < 2 ^ 64 /\ mem_ok q len
  | Set_ q | Append q => cstr_ok q
  | Insert pos q => 0 <= pos < 2 ^ 64 /\ cstr_ok q
  | SetView v | AppendView v => view_ok v
  | InsertView pos v => 0 <= pos < 2 ^ 64 /\ view_ok v
  | AppendString o => 0 <= length_ o <= 2 ^ 62 /\ length_ o <= zlen (data o)
  | AppendFormat out => match out with Some t => zlen t < 2 ^ 31 | None => True end
  | Remove pos len => 0 <= pos /\ 0 <= len /\ pos + len < 2 ^ 64
  | ReplaceAt pos len q => 0 <= pos /\ 0 <= len /\ pos + len < 2 ^ 64 /\ cstr_ok q
  | At i | SetChar i _ => 0 <= i < 2 ^ 64
  | Replace o n => zlen c < 2 ^ 31 /\ (forall l, o = Some l -> str_ok l) /\ (forall l, n = Some l -> str_ok l)
  | Reserve cap => 0 <= cap < 2 ^ 64
  | Resize n => 0 <= n <= 2 ^ 62
  | _ => True
  end.

(** The calls that may have to allocate. *)
Definition may_allocate (op : string_op) : bool :=
  match op with
  | Clear | Length | Empty | Remove _ _ | At _ | SetChar _ _ | ToLower | ToUpper | Trim => false
  | _ => true
  end.

(** What a refused allocation leaves: the text as it was, or, in a replacement, the
    text with the first occurrences replaced. *)
Definition refused_text (c : list Z) (op : string_op) (c' : list Z) : Prop :=
  match op with
  | Replace (Some o) (Some n) => exists k, c' = (replace_upto k (cstr_of o) (cstr_of n) c).1
  | _ => c' = c
  end.
(** ** Lemmas on the copying loops and the scans *)

Lemma copy_down_app (get : list Z -> Z -> option Z) (a mid d src : list Z) off n :
  (forall dst k, 0 <= k < Z.of_nat n -> get dst k = src.[k]) ->
  Z.of_nat n <= zlen src -> off = zlen a -> length mid = n ->
  copy_down n get (a ++ mid ++ d) off = Some (a ++ take n src ++ d).
Proof.
  intros Hg Hn -> Hm. revert mid d Hm Hn Hg. induction n as [|n IH]; intros mid d Hm Hn Hg.
  { destruct mid; [|done]. done. }
  destruct mid as [|m0 mid'] using rev_ind; [done|]. clear IHmid'. rewrite length_app in Hm. cbn in Hm.
  cbn [copy_down]. rewrite Hg by lia. destruct (arr_get_Some src (Z.of_nat n)) as [c Hc]; [lia|].
  rewrite Hc. cbn [mbind option_bind]. rewrite <-app_assoc, app_assoc. cbn [app].
  rewrite arr_set_app by (rewrite zlen_app; unfold zlen; lia). cbn [mbind option_bind].
  rewrite <-app_assoc. rewrite (IH mid' (c :: d)) by (lia || (intros; apply Hg; lia)). do 2 f_equal.
  rewrite arr_get_lookup, Nat2Z.id in Hc by lia. rewrite (take_S_r _ _ _ Hc). by rewrite <-app_assoc.
Qed.

(** From an outside block, both ways of copying are [memcpy]. *)
Lemma copy_mem at0 s q l (a mid d : list Z) off n :
  q = Mem l -> data s = a ++ mid ++ d -> off = zlen a -> zlen mid = n -> 0 <= n <= zlen l ->
  (if n <=? 16 then switch_copy at0 s off q n else memcpy_in at0 s off q n)
    = Some (a ++ take (Z.to_nat n) l ++ d) /\
  memcpy_in at0 s off q n = Some (a ++ take (Z.to_nat n) l ++ d).
Proof.
  intros -> Hd -> Hm Hn. cbn. rewrite Hd.
  assert (arr_blit (a ++ mid ++ d) (zlen a) l 0 n = Some (a ++ take (Z.to_nat n) l ++ d)) as Hb.
  { rewrite (arr_blit_app _ _ _ _ _ _ n) by lia. done. }
  split; [|done]. case_one; [|done]. apply copy_down_app; [done|lia|done|unfold zlen in *; lia].
Qed.

(** [fast_strlen] is [strlen]. *)
Lemma test_bytes_ok l n k i :
  strlen l = Some n -> 0 <= i <= n -> test_bytes l k i = Some n.
Proof.
  intros E. pose proof (strlen_range _ _ E) as Hr. revert i. induction k as [|k IH]; intros i Hi; [done|].
  apply strlen_Some in E as E'. destruct E' as (t & r & El & Ht & Hn). cbn [test_bytes].
  destruct (decide (i = n)) as [->|Hne].
  - rewrite El, arr_get_app by lia. done.
  - destruct (arr_get_Some t i) as [c Hc]; [lia|].
    assert (l.[i] = Some c) as ->.
    { rewrite El. rewrite arr_get_lookup in * by lia. by apply lookup_app_l_Some. }
    cbn [mbind option_bind]. rewrite (proj2 (Z.eqb_neq c 0)); [apply IH; lia|].
    unfold no_nul in Ht. rewrite Forall_forall in Ht. apply Ht.
    rewrite arr_get_lookup in Hc by lia. by eapply list_elem_of_lookup_2.
Qed.

Lemma fast_strlen_ok l n : strlen l = Some n -> fast_strlen l = Some n.
Proof. intros E. apply test_bytes_ok; [done|]. pose proof (strlen_range _ _ E). lia. Qed.

Lemma str_ok_cstr l : str_ok l ->
  fast_strlen l = Some (zlen (cstr_of l)) /\ no_nul (cstr_of l) /\ zlen (cstr_of l) <= 2 ^ 62 /\
  zlen (cstr_of l) <= zlen l /\ take (Z.to_nat (zlen (cstr_of l))) l = cstr_of l /\
  strlen l = Some (zlen (cstr_of l)).
Proof.
  intros (n & Hn & Hb). pose proof (strlen_range _ _ Hn) as Hr.
  assert (zlen (cstr_of l) = n) as Hz.
  { unfold cstr_of. rewrite Hn. cbn. zlia. }
  rewrite Hz. split_and!; [by apply fast_strlen_ok| |lia..| |done].
  - apply strlen_Some in Hn as Hn'. destruct Hn' as (t & r & -> & Ht & ->). unfold cstr_of. rewrite Hn. cbn.
    unfold zlen. by rewrite Nat2Z.id, take_app_length.
  - unfold cstr_of. by rewrite Hn.
Qed.

Lemma starts_with_app t c rest : no_nul t -> starts_with t (c ++ 0 :: rest) = starts_with t c.
Proof.
  intros Ht. revert c. induction Ht as [|x t Hx _ IH]; intros [|y c]; cbn; [done..| |by rewrite IH].
  by rewrite (proj2 (Z.eqb_neq x 0)).
Qed.

Lemma find_sub_in t c rest i : no_nul t -> find_sub t (c ++ 0 :: rest) i = Some (find_in t c i).
Proof.
  intros Ht. revert i. induction c as [|x c IH]; intros i; cbn [app find_sub find_in].
  - pose proof (starts_with_app t [] rest Ht) as Hs. cbn in Hs. rewrite Hs. by destruct (starts_with t []).
  - pose proof (starts_with_app t (x :: c) rest Ht) as Hs. cbn [app] in Hs. rewrite Hs.
    destruct (starts_with t (x :: c)); [done|]. destruct (x =? 0); [done|]. by rewrite IH.
Qed.

Lemma find_in_shift t c i : find_in t c i = (fun j => j + i) <$> find_in t c 0.
Proof.
  revert i. induction c as [|x c IH]; intros i; cbn [find_in].
  - by destruct (starts_with t []).
  - destruct (starts_with t (x :: c)); [done|]. destruct (x =? 0); [done|].
    rewrite (IH (i + 1)), (IH (0 + 1)). destruct (find_in t c 0); cbn; [|done]. f_equal. lia.
Qed.

Lemma find_in_range t c i :
  find_in t c 0 = Some i -> 0 <= i /\ i + zlen t <= zlen c /\ take (length t) (drop (Z.to_nat i) c) = t.
Proof.
  revert i. induction c as [|x c IH]; intros i; cbn [find_in].
  - destruct t; cbn; [|done]. intros [= <-]. done.
  - destruct (starts_with t (x :: c)) eqn:E.
    + intros [= <-]. apply starts_with_spec in E as [k Hk]. rewrite drop_0, Hk, take_app_length.
      split_and!; [done| |done]. rewrite zlen_app. pose proof (zlen_nonneg k). lia.
    + destruct (x =? 0); [done|]. rewrite find_in_shift. destruct (find_in t c 0) as [j|]; [|done].
      intros [= <-]. destruct (IH j eq_refl) as (Hj & Hl & Ht). rewrite zlen_cons.
      split_and!; [lia..|]. replace (Z.to_nat (j + (0 + 1))) with (S (Z.to_nat j)) by lia. done.
Qed.
Section refinement.
Context {P : Type} `{MPoolLaws P} (junk : Z).
Implicit Types (p : P) (s : vox_string) (c : list Z).

(** The invariant: the block holds the text, its terminator and spare cells, and
    both blocks of the string are live in the pool. *)
Record str_inv p s c : Prop := {
  si_pool : mp_inv p;
  si_data : exists rest, data s = c ++ 0 :: rest;
  si_len : length_ s = zlen c;
  si_cap : zlen (data s) = capacity s;
  si_max : capacity s <= PTRDIFF_MAX;
  si_owned : owned p (self s) (data_at s);
}.

(** The blocks of the pool that do not belong to the string. *)
Definition others p s : gmap Z Z := frame p (self s) (data_at s).

(** [s'] in [p'] is the same string, with text [c'], and no other block changed. *)
Definition str_keep p s p' s' c' : Prop :=
  str_inv p' s' c' /\ others p' s' = others p s /\ self s' = self s /\ evolves p p'.

(** Why a call was refused: by the pool, or because no block is that large. *)
Definition refused p' c : Prop :=
  (exists q n, mp_inv q /\ 0 < n /\ mp_alloc q n = (p', NULL)) \/ 2 ^ 62 <= zlen c.

Lemma str_keep_refl p s c : str_inv p s c -> str_keep p s p s c.
Proof. intros Hi. split_and!; [done..|apply rtc_refl]. Qed.

Lemma str_keep_trans p1 s1 p2 s2 c2 p3 s3 c3 :
  str_keep p1 s1 p2 s2 c2 -> str_keep p2 s2 p3 s3 c3 -> str_keep p1 s1 p3 s3 c3.
Proof. intros (_ & ? & ? & ?) (? & ? & ? & ?). split_and!; [done|congruence..|by etrans]. Qed.

Lemma str_inv_room p s c : str_inv p s c -> zlen c + 1 <= capacity s /\ capacity s < 2 ^ 63 /\ 0 <= zlen c.
Proof.
  intros [_ [rest Hd] _ Hc Hm _]. rewrite Hd, zlen_app, zlen_cons in Hc.
  pose proof (zlen_nonneg rest). pose proof (zlen_nonneg c). unfold PTRDIFF_MAX in Hm. lia.
Qed.

Lemma str_inv_nonnull p s c : str_inv p s c -> (data_at s =? NULL) = false.
Proof.
  intros [Hp _ _ _ _ (Hat & _)]. apply Z.eqb_neq. by apply (live_nonnull p).
Qed.

(** Writing another text and its terminator into the block. *)
Lemma str_inv_text p s c c' rest n :
  str_inv p s c -> zlen (c' ++ 0 :: rest) = capacity s -> n = zlen c' ->
  str_keep p s p (with_text s (c' ++ 0 :: rest) n) c'.
Proof. intros [] Hz ->. split_and!; [constructor|..]; try done. by exists rest. Qed.

(** The cells after the text: [m] of them to be overwritten, and the terminator. *)
Lemma spare_cells p s c m :
  str_inv p s c -> 0 <= m -> zlen c + m + 1 <= capacity s ->
  exists mid x rest, data s = c ++ mid ++ x :: rest /\ zlen mid = m.
Proof.
  intros [_ [rest Hd] _ Hc _ _] Hm Hcap. rewrite Hd in Hc. rewrite Hd.
  rewrite zlen_app in Hc.
  exists (take (Z.to_nat m) (0 :: rest)).
  destruct (drop (Z.to_nat m) (0 :: rest)) as [|x r] eqn:E.
  - pose proof (zlen_drop (0 :: rest) (Z.to_nat m)) as Hz. rewrite E in Hz. unfold zlen in *. cbn [length] in *. lia.
  - exists x, r. split; [by rewrite <-E, take_drop|]. rewrite zlen_take. lia.
Qed.

(** Moving the text to a block of [C] bytes. *)
Lemma move_spec p s c C p1 a cells :
  str_inv p s c -> zlen c + 1 <= C < 2 ^ 64 -> alloc_cells junk p C 1 = (p1, a, cells) ->
  (a = NULL /\ str_keep p s p1 s c /\ mp_alloc p C = (p1, NULL)) \/
  (a <> NULL /\ exists rest, copy_down (Z.to_nat (zlen c + 1)) (fun _ k => (data s).[k]) cells 0
      = Some (c ++ 0 :: rest) /\
   arr_blit cells 0 (data s) 0 (zlen c + 1) = Some (c ++ 0 :: rest) /\
   str_keep p s (mp_free p1 (data_at s)) (with_block s a (c ++ 0 :: rest) C) c).
Proof.
  intros Hi HC Ha. pose proof Hi as [Hp [rest0 Hd] Hl Hcap Hmax Hown].
  pose proof (zlen_nonneg c) as Hc0.
  destruct (grow_cells junk p p1 (self s) (data_at s) C 1 a cells Hp Hown)
    as [(-> & Hp1 & Hlv & Hn)|(Hnn & Hlc & Hle & Hp1 & Hown' & Hf)]; [lia..|done| |].
  - left. rewrite Z.mul_1_r in Hn. destruct (owned_live p p1 _ _ Hlv Hown) as [Ho Hfr].
    split_and!; [done| |done]. split_and!; [constructor|..]; try done; [by exists rest0|].
    by eapply evolves_alloc.
  - right. split; [done|]. exists (drop (Z.to_nat (zlen c + 1)) cells).
    assert (Hsplit : cells = [] ++ take (Z.to_nat (zlen c + 1)) cells ++ drop (Z.to_nat (zlen c + 1)) cells)
      by (cbn; by rewrite take_drop).
    assert (Htk : take (Z.to_nat (zlen c + 1)) (data s) = c ++ [0]).
    { rewrite Hd. replace (Z.to_nat (zlen c + 1)) with (length (c ++ [0])) by (rewrite length_app; unfold zlen; cbn; lia).
      rewrite (app_assoc c [0] rest0 : c ++ 0 :: rest0 = _). apply take_app_length. }
    assert (Hfin : c ++ 0 :: drop (Z.to_nat (zlen c + 1)) cells
                 = [] ++ take (Z.to_nat (zlen c + 1)) (data s) ++ drop (Z.to_nat (zlen c + 1)) cells).
    { rewrite Htk. cbn. by rewrite <-app_assoc. }
    assert (zlen c + 1 <= zlen (data s)) as Hroom by (rewrite Hd, zlen_app, zlen_cons; pose proof (zlen_nonneg rest0); lia).
    rewrite Hfin. split_and!.
    + rewrite Hsplit at 1. apply copy_down_app; [done|lia|done|].
      rewrite length_take. unfold zlen in *. lia.
    + rewrite Hsplit at 1. rewrite (arr_blit_app _ _ _ _ _ _ (zlen c + 1)); [by rewrite drop_0|done| |lia..].
      rewrite zlen_take. lia.
    + rewrite <-Hfin. split; [|split_and!; [done|done|etrans; [by eapply evolves_cells|apply evolves_free]]].
      constructor; cbn [self data_at data length_ capacity with_block];
        [done|by eexists|done| |lia|done].
      rewrite zlen_app, zlen_cons, zlen_drop. lia.
Qed.

(** [ensure_capacity] makes room or changes nothing. *)
Lemma ensure_capacity_spec p s c needed :
  str_inv p s c -> 0 <= needed <= 2 ^ 62 -> exists p' s' rc,
  ensure_capacity junk p s needed = Some (p', s', rc) /\ str_keep p s p' s' c /\
  ((rc = 0 /\ zlen c + needed + 1 <= capacity s') \/ (rc = -1 /\ refused p' c)).
Proof.
  intros Hi Hn. pose proof (str_inv_room p s c Hi) as (Hr & Hc63 & Hc0).
  pose proof Hi as [Hp _ Hl _ _ _]. unfold ensure_capacity. rewrite Hl, u64_small by lia.
  set (required := zlen c + needed + 1). destruct (Z.leb_spec required (capacity s)) as [Hle|Hgt].
  { do 3 eexists. split_and!; [done| by apply str_keep_refl|]. left. lia. }
  rewrite (proj2 (Z.eqb_neq (capacity s) 0)) by lia. rewrite (u64_small (capacity s * 2)) by lia.
  set (sized := if _ : bool then _ else _).
  assert ((exists C, sized = Some C /\ required <= C < 2 ^ 64) \/ (sized = None /\ 2 ^ 62 <= zlen c)) as Hs.
  { subst sized. destruct (Z.leb_spec required (capacity s * 2)); [left; eexists; split; [done|]; lia|].
    cbv zeta. rewrite (u64_small (required - 1)) by lia.
    pose proof (smear_ge (required - 1) ltac:(lia)) as Hge.
    pose proof (u64_range (smear (required - 1) + 1)) as Hu.
    destruct (Z.ltb_spec (u64 (smear (required - 1) + 1)) required) as [Hov|];
      [right|left; eexists; split; [done|]; lia].
    split; [done|]. destruct (decide (zlen c < 2 ^ 62)) as [Hlt|]; [exfalso|lia].
    assert (smear (required - 1) < 2 ^ 63) as Hsm.
    { rewrite smear_spec by lia. assert (Z.log2 (required - 1) < 63) by (apply Z.log2_lt_pow2; lia).
      assert (2 ^ (Z.log2 (required - 1) + 1) <= 2 ^ 63) by (apply Z.pow_le_mono_r; lia). lia. }
    rewrite u64_small in *; lia. }
  destruct Hs as [(C & -> & HC)|[-> Hbig]].
  2:{ do 3 eexists. split_and!; [done|by apply str_keep_refl|]. right. split; [done|]. by right. }
  destruct (alloc_cells junk p C 1) as [[p1 a] cells] eqn:E. pose proof E as E'.
  destruct (move_spec p s c C p1 a cells Hi ltac:(lia) E)
    as [(-> & Hk & Hnull)|(Hnn & rest & Hcd & Hbl & Hk)].
  - do 3 eexists. split_and!; [done|done|]. right. split; [done|]. left. exists p, C. split_and!; [done|lia|done].
  - rewrite (proj2 (Z.eqb_neq a NULL)) by done. rewrite (str_inv_nonnull p s c Hi). cbn [negb].
    rewrite (u64_small (zlen c + 1)) by lia. rewrite Hcd, Hbl.
    assert (forall b : bool, (if b then Some (c ++ 0 :: rest) else Some (c ++ 0 :: rest)) = Some (c ++ 0 :: rest))
      as -> by (by intros []). cbn.
    do 3 eexists. split_and!; [done|done|]. left. cbn. lia.
Qed.

(** What a call ends with, relative to the specification. *)
Definition op_result p s c op : Prop :=
  exists p' s' r c', string_exec junk p s op = Some (p', s', r) /\ str_keep p s p' s' c' /\
    ((c', r) = string_spec c op \/
     (may_allocate op = true /\ r = -1 /\ refused_text c op c' /\ refused p' c')).

Lemma str_done_result p s c op p' s' r c' :
  string_exec junk p s op = Some (p', s', r) -> str_keep p s p' s' c' ->
  (c', r) = string_spec c op -> op_result p s c op.
Proof. intros. do 4 eexists. eauto. Qed.

(** A call that changes nothing. *)
Lemma str_unchanged_result p s c op r :
  str_inv p s c -> string_exec junk p s op = Some (p, s, r) -> (c, r) = string_spec c op ->
  op_result p s c op.
Proof. intros. eapply str_done_result; [done|by apply str_keep_refl|done]. Qed.

(** The same contract for the building blocks: the result is [spec], or the
    allocation was refused and the text kept. *)
Definition step_ok p s c (run : option (P * vox_string * Z)) (spec : list Z * Z) : Prop :=
  exists p' s' r c', run = Some (p', s', r) /\ str_keep p s p' s' c' /\
    ((c', r) = spec \/ (r = -1 /\ c' = c /\ refused p' c)).

Lemma step_result p s c op :
  step_ok p s c (string_exec junk p s op) (string_spec c op) -> may_allocate op = true ->
  (forall c', c' = c -> refused_text c op c') -> op_result p s c op.
Proof.
  intros (p' & s' & r & c' & Hx & Hk & [Hs|(-> & -> & Href)]) Hm Ht; do 4 eexists; split_and!;
    [done|done|by left|done|done|]. right. split_and!; [done|done|by apply Ht|done].
Qed.
(** [memmove] of the tail [b] of the used part to another place after [a]. *)
Lemma blit_tail (D a m b z : list Z) si di :
  D = a ++ m ++ b ++ z -> si = zlen a + zlen m -> zlen a <= di -> di + zlen b < zlen D ->
  exists w x z', arr_blit D di D si (zlen b) = Some (a ++ w ++ b ++ x :: z') /\
    zlen w = di - zlen a /\ zlen (a ++ w ++ b ++ x :: z') = zlen D.
Proof.
  intros HD Hsi Hdi Hroom. pose proof (zlen_nonneg a). pose proof (zlen_nonneg b). pose proof (zlen_nonneg m).
  pose proof (zlen_nonneg z). assert (zlen D = zlen a + zlen m + zlen b + zlen z) as Hz by (rewrite HD, !zlen_app; lia).
  assert (Hpre : take (Z.to_nat di) D = a ++ drop (length a) (take (Z.to_nat di) D)).
  { rewrite <-(take_drop (length a) (take (Z.to_nat di) D)) at 1. f_equal.
    rewrite take_take, Nat.min_l by (unfold zlen in *; lia). by rewrite HD, take_app_length. }
  assert (Hb : take (Z.to_nat (zlen b)) (drop (Z.to_nat si) D) = b).
  { rewrite HD, app_assoc, drop_app_length' by (rewrite length_app; unfold zlen in *; lia).
    unfold zlen. by rewrite Nat2Z.id, take_app_length. }
  exists (drop (length a) (take (Z.to_nat di) D)).
  destruct (drop (Z.to_nat (di + zlen b)) D) as [|x z'] eqn:E.
  { apply (f_equal length) in E. rewrite length_drop in E. cbn in E. unfold zlen in *. lia. }
  exists x, z'. assert (arr_blit D di D si (zlen b)
    = Some (a ++ drop (length a) (take (Z.to_nat di) D) ++ b ++ x :: z')) as Hbl.
  { rewrite arr_blit_ok by lia. rewrite Hb, E. by rewrite Hpre at 1; rewrite <-app_assoc. }
  split_and!; [done| |by eapply arr_blit_len]. rewrite zlen_drop, zlen_take. unfold zlen in *. lia.
Qed.

(** Writing the terminator where [x] is. *)
Lemma terminate p s0 p1 s c c' x rest n :
  str_keep p s0 p1 s c -> zlen (c' ++ x :: rest) = capacity s -> n = zlen c' -> n < 2 ^ 64 ->
  exists l, (c' ++ x :: rest).[n <- 0] = Some l /\ str_keep p s0 p1 (with_text s l n) c'.
Proof.
  intros Hk Hz Hn _. eexists. split; [by apply arr_set_app|].
  eapply str_keep_trans; [exact Hk|]. destruct Hk as (Hi & _ & _).
  apply (str_inv_text _ _ c); [done| |done]. rewrite zlen_app, zlen_cons in *. lia.
Qed.

(** A call that needs room for [needed] more bytes and then ends in [spec]. *)
Lemma grow_step p s c needed (k : P -> vox_string -> option (P * vox_string * Z)) spec :
  str_inv p s c -> 0 <= needed <= 2 ^ 62 ->
  (forall p1 s1, str_keep p s p1 s1 c -> zlen c + needed + 1 <= capacity s1 ->
     step_ok p s c (k p1 s1) spec) ->
  step_ok p s c ('(p1, s1, rc) ← ensure_capacity junk p s needed;
                 if negb (rc =? 0) then Some (p1, s1, -1) else k p1 s1) spec.
Proof.
  intros Hi Hn Hk. destruct (ensure_capacity_spec p s c needed Hi Hn) as (p1 & s1 & rc & -> & Hkeep & Hrc).
  cbn [mbind option_bind]. destruct Hrc as [[-> Hroom]|[-> Href]]; cbn [negb Z.eqb].
  - by apply Hk.
  - do 4 eexists. split_and!; [done..|]. by right.
Qed.

Lemma step_done p s c p' s' r c' spec :
  str_keep p s p' s' c' -> (c', r) = spec -> step_ok p s c (Some (p', s', r)) spec.
Proof. intros. do 4 eexists. eauto. Qed.

Lemma step_same p s c r spec : str_inv p s c -> (c, r) = spec -> step_ok p s c (Some (p, s, r)) spec.
Proof. intros. eapply step_done; [by apply str_keep_refl|done]. Qed.

(** The bytes of an argument that is not empty. *)
Lemma mem_bytes (l : list Z) len :
  0 < len <= zlen l -> exists x t, take (Z.to_nat len) l = x :: t /\ zlen (x :: t) = len.
Proof.
  intros Hl. destruct (take (Z.to_nat len) l) as [|x t] eqn:E.
  - apply (f_equal length) in E. rewrite length_take in E. unfold zlen in *. cbn in E. lia.
  - exists x, t. split; [done|]. rewrite <-E, zlen_take. lia.
Qed.

Lemma insert_spec_some c pos x t :
  pos <= zlen c -> insert_spec c pos (Some (x :: t)) = (take (Z.to_nat pos) c ++ (x :: t) ++ drop (Z.to_nat pos) c, 0).
Proof. intros Hp. cbn. by rewrite (proj2 (Z.ltb_ge _ _)). Qed.

Lemma insert_data_ok p s c pos q len :
  str_inv p s c -> 0 <= pos -> mem_ok q len ->
  step_ok p s c (vox_string_insert_data junk p s pos q len) (insert_spec c pos (bytes_of q len)).
Proof.
  intros Hi Hpos Hq. pose proof Hi as [_ _ Hl _ _ _]. unfold vox_string_insert_data.
  destruct q as [|l|]; [by apply step_same| |done]. destruct Hq as [Hlen Hlz]. cbn [is_null orb bytes_of].
  destruct (Z.eqb_spec len 0) as [->|Hne]; [by apply step_same|].
  destruct (mem_bytes l len ltac:(lia)) as (x & t & Et & Hz). rewrite Et.
  destruct (Z.ltb_spec (length_ s) pos) as [Hgt|Hle].
  { apply step_same; [done|]. cbn. by rewrite (proj2 (Z.ltb_lt _ _)) by lia. }
  apply grow_step; [done|lia|]. intros p1 s1 Hk Hroom.
  pose proof Hk as [Hi1 _]. pose proof Hi1 as [_ [rest Hd] Hl1 Hc1 _ _].
  pose proof (str_inv_room _ _ _ Hi1) as (_ & ? & ?).
  set (a := take (Z.to_nat pos) c). set (b := drop (Z.to_nat pos) c).
  assert (zlen a = pos) as Ha by (subst a; rewrite zlen_take; lia).
  assert (zlen b = zlen c - pos) as Hb by (subst b; rewrite zlen_drop; lia).
  destruct (blit_tail (data s1) a [] b (0 :: rest) pos (pos + len)) as (w & y & z' & Hbl & Hw & Hzz);
    [rewrite Hd; cbn; rewrite app_assoc; subst a b; by rewrite take_drop|rewrite Ha, zlen_nil; lia|lia|lia|].
  rewrite (u64_small (pos + len)), (u64_small (length_ s1 + len)) by lia.
  assert (exists w y z', (if pos <? length_ s1 then arr_blit (data s1) (pos + len) (data s1) pos (length_ s1 - pos)
            else Some (data s1)) = Some (a ++ w ++ b ++ y :: z') /\ zlen w = len /\
            zlen (a ++ w ++ b ++ y :: z') = zlen (data s1)) as (w' & y' & z'' & -> & Hw' & Hzz').
  { case_one; [exists w, y, z'; split_and!; [|lia|done]; rewrite Hl1, <-Hb; done|].
    destruct (spare_cells p1 s1 c len Hi1) as (mid & y1 & r1 & Hd1 & Hm); [lia..|].
    assert (b = []) as -> by (apply nil_length_inv; unfold zlen in *; lia).
    assert (a = c) as -> by (subst a; apply take_ge; unfold zlen in *; lia).
    exists mid, y1, r1. cbn [app]. split_and!; [by rewrite Hd1|done|by rewrite Hd1]. }
  cbn [mbind option_bind memcpy_in with_text data data_at].
  rewrite (arr_blit_app _ _ _ _ _ _ len) by (rewrite ?zlen_app; lia). change (Z.to_nat 0) with 0%nat.
  rewrite drop_0, Et. cbn [mbind option_bind].
  rewrite (app_assoc (x :: t)), (app_assoc a).
  destruct (terminate p s p1 s1 c (a ++ (x :: t) ++ b) y' z'' (length_ s1 + len)) as (l' & -> & Hk');
    [done|rewrite !zlen_app, !zlen_cons in *; lia|rewrite !zlen_app in *; lia|lia|].
  cbn [mbind option_bind]. eapply step_done; [exact Hk'|]. rewrite insert_spec_some by lia. done.
Qed.

Lemma insert_spec_end c x t : insert_spec c (zlen c) (Some (x :: t)) = (c ++ x :: t, 0).
Proof.
  rewrite insert_spec_some by lia. unfold zlen. rewrite Nat2Z.id.
  by rewrite firstn_all, drop_all, app_nil_r.
Qed.

Lemma append_data_ok p s c q len :
  str_inv p s c -> mem_ok q len ->
  step_ok p s c (vox_string_append_data junk p s q len) (insert_spec c (zlen c) (bytes_of q len)).
Proof.
  intros Hi Hq. unfold vox_string_append_data.
  destruct q as [|l|]; [by apply step_same| |done]. destruct Hq as [Hlen Hlz]. cbn [is_null orb bytes_of].
  destruct (Z.eqb_spec len 0) as [->|Hne]; [by apply step_same|].
  destruct (mem_bytes l len ltac:(lia)) as (x & t & Et & Hz).
  apply grow_step; [done|lia|]. intros p1 s1 Hk Hroom.
  pose proof Hk as [Hi1 _]. pose proof Hi1 as [_ _ Hl1 Hc1 _ _].
  pose proof (str_inv_room _ _ _ Hi1) as (_ & ? & ?).
  destruct (spare_cells p1 s1 c len Hi1) as (mid & y & r & Hd1 & Hm); [lia..|].
  destruct (copy_mem (data_at s) s1 (Mem l) l c mid (y :: r) (length_ s1) len) as [-> _]; [done..|lia|].
  rewrite Et. cbn [mbind option_bind]. rewrite (u64_small (length_ s1 + len)) by lia.
  rewrite app_assoc.
  destruct (terminate p s p1 s1 c (c ++ x :: t) y r (length_ s1 + len)) as (l' & -> & Hk');
    [done|rewrite Hd1, !zlen_app, !zlen_cons in *; lia|rewrite !zlen_app in *; lia|lia|].
  cbn [mbind option_bind]. eapply step_done; [exact Hk'|]. by rewrite insert_spec_end.
Qed.

Lemma str_clear_ok p s c :
  str_inv p s c -> exists s', vox_string_clear s = Some s' /\ str_keep p s p s' [].
Proof.
  intros Hi. unfold vox_string_clear. rewrite (str_inv_nonnull p s c Hi). cbn [negb].
  pose proof (str_inv_room _ _ _ Hi) as (Hr & _ & Hc0). pose proof Hi as [_ _ _ Hc _ _].
  destruct (data s) as [|y r] eqn:Ed; [unfold zlen in *; cbn in *; lia|].
  destruct (terminate p s p s c [] y r 0) as (l & Hset & Hk); [by apply str_keep_refl|done|done|lia|].
  cbn [app] in Hset. rewrite Hset. cbn. eauto.
Qed.

(** [NULL] with length 0, like an empty view, clears the string. *)
Lemma clear_step p s c :
  str_inv p s c -> step_ok p s c (s' ← vox_string_clear s; Some (p, s', 0)) ([], 0).
Proof.
  intros Hi. destruct (str_clear_ok p s c Hi) as (s' & -> & Hk). by eapply step_done.
Qed.

Lemma set_data_ok p s c q len :
  str_inv p s c -> mem_ok q len ->
  step_ok p s c (vox_string_set_data junk p s q len) (string_spec c (SetData q len)).
Proof.
  intros Hi Hq. unfold vox_string_set_data. cbn [string_spec].
  destruct q as [|l|]; [| |done].
  { cbn [is_null orb andb bytes_of set_spec]. destruct (Z.eqb_spec len 0); cbn [negb].
    - by apply clear_step.
    - by apply step_same. }
  destruct Hq as [Hlen Hlz]. cbn [is_null orb andb bytes_of].
  destruct (Z.eqb_spec len 0) as [->|Hne]; [by apply step_same|].
  destruct (mem_bytes l len ltac:(lia)) as (x & t & Et & Hz). rewrite Et. cbn [set_spec].
  apply grow_step; [done|lia|]. intros p1 s1 Hk Hroom.
  pose proof Hk as [Hi1 _]. pose proof Hi1 as [_ _ Hl1 Hc1 _ _].
  pose proof (str_inv_room _ _ _ Hi1) as (_ & ? & ?).
  assert (exists mid y r, data s1 = [] ++ mid ++ y :: r /\ zlen mid = len) as (mid & y & r & Hd1 & Hm).
  { exists (take (Z.to_nat len) (data s1)). destruct (drop (Z.to_nat len) (data s1)) as [|y r] eqn:E.
    - apply (f_equal length) in E. rewrite length_drop in E. unfold zlen in *. cbn in E. lia.
    - exists y, r. cbn. rewrite <-E, take_drop. split; [done|]. rewrite zlen_take. lia. }
  destruct (copy_mem (data_at s) s1 (Mem l) l [] mid (y :: r) 0 len) as [_ Hcp]; [done..|lia|].
  rewrite Hcp, Et. cbn [mbind option_bind app].
  destruct (terminate p s p1 s1 c (x :: t) y r len) as (l' & Hset & Hk');
    [done|rewrite Hd1 in Hc1; cbn [app] in Hc1; rewrite !zlen_app, !zlen_cons in *; lia|lia|lia|].
  cbn [app] in Hset. rewrite Hset. cbn [mbind option_bind]. by eapply step_done.
Qed.

Lemma replace_at_spec_mid c pos len :
  0 <= pos < zlen c -> 0 <= len -> exists a m b, c = a ++ m ++ b /\ zlen a = pos /\
  a = take (Z.to_nat pos) c /\ b = drop (Z.to_nat (pos + len)) c /\
  zlen m = (if zlen c <? pos + len then zlen c - pos else len) /\ zlen a + zlen m + zlen b = zlen c.
Proof.
  intros Hp Hl. exists (take (Z.to_nat pos) c), (take (Z.to_nat len) (drop (Z.to_nat pos) c)),
    (drop (Z.to_nat (pos + len)) c).
  assert (drop (Z.to_nat (pos + len)) c = drop (Z.to_nat len) (drop (Z.to_nat pos) c)) as Hd
    by (rewrite drop_drop; f_equal; lia).
  split_and!; [by rewrite Hd, !take_drop|rewrite zlen_take; lia|done|done| |].
  - rewrite zlen_take, zlen_drop. case_one; lia.
  - rewrite !zlen_take, !zlen_drop. lia.
Qed.

Lemma replace_at_ok p s c pos len q t :
  str_inv p s c -> 0 <= pos < zlen c -> 0 <= len -> pos + len < 2 ^ 64 ->
  cstr_ok q -> text_of q = Some t ->
  step_ok p s c (vox_string_replace_at junk p s pos len q)
    (take (Z.to_nat pos) c ++ t ++ drop (Z.to_nat (pos + len)) c, 0).
Proof.
  intros Hi Hp Hlen Hsum Hq Ht. destruct q as [|l|]; [done| |done]. injection Ht as <-.
  destruct (str_ok_cstr l Hq) as (Hfs & _ & Hmax & Hfit & Htk & _).
  destruct (replace_at_spec_mid c pos len Hp Hlen) as (a & m & b & Hc & Ha & <- & <- & Hm & Hsz).
  pose proof Hi as [_ [rest Hd] Hl Hcap _ _]. pose proof (str_inv_room _ _ _ Hi) as (? & ? & ?).
  unfold vox_string_replace_at. cbn [is_null orb cells_at]. rewrite Hl, (u64_small (pos + len)) by lia.
  rewrite (proj2 (Z.leb_gt _ _)) by lia. cbv zeta. rewrite <-Hm, Hfs. cbn [mbind option_bind].
  set (n := zlen (cstr_of l)) in *. pose proof (zlen_nonneg m). pose proof (zlen_nonneg b).
  assert (0 <= n) as Hn0 by apply zlen_nonneg.
  destruct (Z.eqb_spec n (zlen m)) as [E|E].
  - destruct (copy_mem (data_at s) s (Mem l) l a m (b ++ 0 :: rest) pos n) as [_ Hcp];
      [done|by rewrite Hd, Hc, <-!app_assoc|done|done|lia|].
    rewrite Hcp. cbn [mbind option_bind]. eapply step_done; [|done]. fold n. rewrite Htk.
    rewrite (app_assoc (cstr_of l)), (app_assoc a).
    apply (str_inv_text p s c); [done| |rewrite !zlen_app; fold n; lia].
    rewrite Hd, Hc in Hcap. rewrite !zlen_app, zlen_cons in *. fold n. lia.
  - assert (Hgo : forall p1 s1, str_keep p s p1 s1 c -> zlen a + n + zlen b < capacity s1 ->
      step_ok p s c
        (cells ← arr_blit (data s1) (u64 (pos + n)) (data s1) (u64 (pos + zlen m)) (u64 (length_ s1 - pos - zlen m));
         cells ← memcpy_in (data_at s) (with_text s1 cells (length_ s1)) pos (Mem l) n;
         cells ← cells.[u64 (length_ s1 + (n - zlen m)) <- 0];
         Some (p1, with_text s1 cells (u64 (length_ s1 + (n - zlen m))), 0)) (a ++ cstr_of l ++ b, 0)).
    { intros p1 s1 Hk Hroom. pose proof Hk as [Hi1 _]. pose proof Hi1 as [_ [rest1 Hd1] Hl1 Hc1 _ _].
      pose proof (str_inv_room _ _ _ Hi1) as (? & ? & ?).
      rewrite Hl1, (u64_small (pos + n)), (u64_small (pos + zlen m)), (u64_small (zlen c - pos - zlen m)),
        (u64_small (zlen c + (n - zlen m))) by lia.
      destruct (blit_tail (data s1) a m b (0 :: rest1) (pos + zlen m) (pos + n)) as (w & y & z' & Hbl & Hw & Hzz);
        [by rewrite Hd1, Hc, <-!app_assoc|lia..|].
      replace (zlen c - pos - zlen m) with (zlen b) by lia. rewrite Hbl. cbn [mbind option_bind].
      destruct (copy_mem (data_at s) (with_text s1 (a ++ w ++ b ++ y :: z') (zlen c)) (Mem l) l a w (b ++ y :: z') pos n)
        as [_ Hcp]; [done|done|done|lia|lia|].
      rewrite Hcp. cbn [mbind option_bind]. fold n in Htk. rewrite Htk.
      rewrite (app_assoc (cstr_of l)), (app_assoc a).
      destruct (terminate p s p1 s1 c (a ++ cstr_of l ++ b) y z' (zlen c + (n - zlen m))) as (l' & -> & Hk');
        [done|rewrite !zlen_app, !zlen_cons in *; fold n; lia|rewrite !zlen_app; fold n; lia|lia|].
      cbn [mbind option_bind]. by eapply step_done. }
    destruct (Z.ltb_spec (zlen m) n).
    + apply grow_step; [done|lia|]. intros p1 s1 Hk Hroom. apply Hgo; [done|lia].
    + cbn [mbind option_bind negb Z.eqb]. apply Hgo; [by apply str_keep_refl|lia].
Qed.

(** ** The callers that measure their argument *)

Lemma text_mem q len : mem_ok q len -> forall t, bytes_of q len = Some t -> zlen t <= len.
Proof.
  destruct q; cbn; [done| |done]. intros [? ?] t [= <-]. rewrite zlen_take. lia.
Qed.

Lemma cstr_mem_ok l : str_ok l -> mem_ok (Mem l) (zlen (cstr_of l)) /\
  bytes_of (Mem l) (zlen (cstr_of l)) = Some (cstr_of l).
Proof.
  intros Hl. destruct (str_ok_cstr l Hl) as (_ & _ & ? & ? & Ht & _).
  pose proof (zlen_nonneg (cstr_of l)). cbn. rewrite Ht. by split_and!.
Qed.

(** An empty view is the empty argument of every call but [set_view]. *)
Lemma view_cases v : view_ok (Some v) ->
  (vox_strview_empty (Some v) = true /\ view_of (Some v) = None) \/
  (vox_strview_empty (Some v) = false /\ mem_ok (sv_ptr v) (sv_len v) /\
   view_of (Some v) = bytes_of (sv_ptr v) (sv_len v) /\ exists x t, view_of (Some v) = Some (x :: t)).
Proof.
  destruct v as [[|l|] len]; cbn; [by left| |done]. intros [Hl Hz].
  destruct (Z.eqb_spec len 0) as [->|Hne]; [by left|right].
  destruct (mem_bytes l len ltac:(lia)) as (x & t & -> & _).
  split_and!; [done|lia..|done|by eexists _, _].
Qed.

Lemma set_spec_data c q len : mem_ok q len -> (exists x t, bytes_of q len = Some (x :: t)) ->
  string_spec c (SetData q len) = set_spec c (bytes_of q len).
Proof. destruct q; cbn; [|done|done]. intros _ (? & ? & [=]). Qed.

Lemma str_set_ok p s c q : str_inv p s c -> cstr_ok q ->
  step_ok p s c (vox_string_set junk p s q) (set_spec c (text_of q)).
Proof.
  intros Hi Hq. unfold vox_string_set. destruct q as [|l|]; [by apply clear_step| |done].
  cbn [is_null cells_at text_of]. destruct (str_ok_cstr l Hq) as (-> & _). cbn [mbind option_bind].
  destruct (cstr_mem_ok l Hq) as [Hm Hb]. pose proof (set_data_ok p s c _ _ Hi Hm) as Hs.
  cbn [string_spec is_null andb] in Hs. by rewrite Hb in Hs.
Qed.

Lemma set_view_ok p s c v : str_inv p s c -> view_ok v ->
  step_ok p s c (vox_string_set_view junk p s v) (set_spec c (view_of v)).
Proof.
  intros Hi Hv. destruct v as [v|]; [|by apply clear_step]. unfold vox_string_set_view.
  destruct (view_cases v Hv) as [[-> ->]|(-> & Hm & He & Hne)]; [by apply clear_step|].
  rewrite He in Hne. rewrite He, <-set_spec_data by done. by apply set_data_ok.
Qed.

Lemma append_ok p s c q : str_inv p s c -> cstr_ok q ->
  step_ok p s c (vox_string_append junk p s q) (insert_spec c (zlen c) (text_of q)).
Proof.
  intros Hi Hq. unfold vox_string_append. destruct q as [|l|]; [by apply step_same| |done].
  cbn [is_null cells_at text_of]. destruct (str_ok_cstr l Hq) as (-> & _). cbn [mbind option_bind].
  destruct (cstr_mem_ok l Hq) as [Hm <-]. by apply append_data_ok.
Qed.

Lemma append_view_ok p s c v : str_inv p s c -> view_ok v ->
  step_ok p s c (vox_string_append_view junk p s v) (insert_spec c (zlen c) (view_of v)).
Proof.
  intros Hi Hv. destruct v as [v|]; [|by apply step_same]. unfold vox_string_append_view.
  destruct (view_cases v Hv) as [[-> ->]|(-> & Hm & -> & _)]; [by apply step_same|].
  by apply append_data_ok.
Qed.

Lemma insert_ok p s c pos q : str_inv p s c -> 0 <= pos -> cstr_ok q ->
  step_ok p s c (vox_string_insert junk p s pos q) (insert_spec c pos (text_of q)).
Proof.
  intros Hi Hp Hq. unfold vox_string_insert. destruct q as [|l|]; [by apply step_same| |done].
  cbn [is_null cells_at text_of]. destruct (str_ok_cstr l Hq) as (-> & _). cbn [mbind option_bind].
  destruct (cstr_mem_ok l Hq) as [Hm <-]. by apply insert_data_ok.
Qed.

Lemma insert_view_ok p s c pos v : str_inv p s c -> 0 <= pos -> view_ok v ->
  step_ok p s c (vox_string_insert_view junk p s pos v) (insert_spec c pos (view_of v)).
Proof.
  intros Hi Hp Hv. destruct v as [v|]; [|by apply step_same]. unfold vox_string_insert_view.
  destruct (view_cases v Hv) as [[-> ->]|(-> & Hm & -> & _)]; [by apply step_same|].
  by apply insert_data_ok.
Qed.

Lemma append_string_ok p s c o : str_inv p s c -> op_args_ok c (AppendString o) ->
  step_ok p s c (vox_string_append_string junk p s (Some o)) (string_spec c (AppendString o)).
Proof.
  intros Hi [Hl Hz]. unfold vox_string_append_string. cbn [string_spec].
  destruct (Z.eqb_spec (length_ o) 0) as [E|E].
  { apply step_same; [done|]. rewrite E. change (Z.to_nat 0) with 0%nat. by rewrite take_0, app_nil_r. }
  cbv zeta. cbn [vox_strview_from_ptr is_null].
  pose proof (append_view_ok p s c (Some (StrView (Mem (data o)) (length_ o))) Hi ltac:(done)) as Hs.
  unfold view_of in Hs. cbn [mbind option_bind sv_ptr sv_len bytes_of] in Hs.
  destruct (mem_bytes (data o) (length_ o) ltac:(lia)) as (x & t & Et & _). rewrite Et in *.
  by rewrite insert_spec_end in Hs.
Qed.

Lemma append_char_ok p s c ch : str_inv p s c ->
  step_ok p s c (vox_string_append_char junk p s ch) (c ++ [ch], 0).
Proof.
  intros Hi. unfold vox_string_append_char. apply grow_step; [done|lia|]. intros p1 s1 Hk Hroom.
  pose proof Hk as [Hi1 _]. pose proof Hi1 as [_ _ Hl1 Hc1 _ _].
  pose proof (str_inv_room _ _ _ Hi1) as (? & ? & ?).
  destruct (spare_cells p1 s1 c 1 Hi1) as (mid & y & r & Hd1 & Hm); [lia..|].
  destruct mid as [|m0 [|]]; try (unfold zlen in Hm; cbn in Hm; lia). cbn [app] in Hd1.
  rewrite Hd1, Hl1, arr_set_app by done. cbn [mbind option_bind]. rewrite (u64_small (zlen c + 1)) by lia.
  rewrite (app_assoc c [ch] (y :: r) : c ++ ch :: y :: r = _).
  destruct (terminate p s p1 s1 c (c ++ [ch]) y r (zlen c + 1)) as (l' & -> & Hk');
    [done|rewrite Hd1 in Hc1; rewrite !zlen_app, !zlen_cons in *; lia|rewrite zlen_app; done|lia|].
  cbn [mbind option_bind]. by eapply step_done.
Qed.

Lemma append_format_ok p s c out : str_inv p s c -> op_args_ok c (AppendFormat out) ->
  step_ok p s c (vox_string_append_format junk p s out) (string_spec c (AppendFormat out)).
Proof.
  intros Hi Ho. unfold vox_string_append_format, vox_string_append_vformat. cbn [string_spec].
  destruct out as [t|]; [|by apply step_same]. cbn in Ho. cbn [vsnprintf].
  pose proof (zlen_nonneg t) as Ht0.
  assert (exists buf, (buf0 ← arr_blit (replicate 256 junk) 0 t 0 (Z.min (zlen t) (256 - 1));
     buf1 ← buf0.[0 + Z.min (zlen t) (256 - 1) <- 0]; Some (buf1, zlen t)) = Some (buf, zlen t) /\
     (zlen t < 256 -> zlen t <= zlen buf /\ take (length t) buf = t)) as (buf & -> & Hbuf).
  { set (m := Z.min (zlen t) (256 - 1)). assert (0 <= m <= 255) as Hm by lia.
    assert (replicate 256 junk = [] ++ replicate (Z.to_nat m) junk ++ junk :: replicate (Z.to_nat (255 - m)) junk) as ->.
    { cbn [app]. change (junk :: replicate (Z.to_nat (255 - m)) junk) with (replicate (S (Z.to_nat (255 - m))) junk).
      rewrite <-replicate_add. f_equal. lia. }
    rewrite (arr_blit_app _ _ _ _ _ _ m); [|done|rewrite zlen_replicate; lia|lia..]. change (Z.to_nat 0) with 0%nat.
    rewrite drop_0. cbn [mbind option_bind app].
    rewrite arr_set_app by (rewrite zlen_take; lia). cbn [mbind option_bind]. eexists. split; [done|].
    intros Hlt. rewrite zlen_app, zlen_take. pose proof (zlen_nonneg (0 :: replicate (Z.to_nat (255 - m)) junk)).
    assert (m = zlen t) as -> by lia. split; [lia|].
    rewrite (take_ge t) by (unfold zlen; lia). apply take_app_length. }
  cbn [mbind option_bind]. rewrite (proj2 (Z.ltb_ge (zlen t) 0)) by lia.
  destruct (Z.ltb_spec (zlen t) 256) as [Hs|Hs].
  - destruct (Hbuf Hs) as [Hb1 Hb2].
    pose proof (append_data_ok p s c (Mem buf) (zlen t) Hi ltac:(cbn; lia)) as Hap. cbn [bytes_of] in Hap.
    unfold zlen in Hap at 3. rewrite Nat2Z.id, Hb2 in Hap. destruct t as [|x t]; [done|].
    by rewrite insert_spec_end in Hap.
  - destruct t as [|x t]; [unfold zlen in Hs; cbn in Hs; lia|]. set (u := x :: t) in *.
    apply grow_step; [done|lia|]. intros p1 s1 Hk Hroom.
    pose proof Hk as [Hi1 _]. pose proof Hi1 as [_ _ Hl1 Hc1 _ _].
    pose proof (str_inv_room _ _ _ Hi1) as (? & ? & ?).
    rewrite Hl1, (u64_small (capacity s1 - zlen c)) by lia.
    rewrite (proj2 (Z.eqb_neq (capacity s1 - zlen c) 0)) by lia.
    destruct (spare_cells p1 s1 c (zlen u) Hi1) as (mid & y & r & Hd1 & Hm); [lia..|].
    rewrite Z.min_l by lia. rewrite Hd1.
    rewrite (arr_blit_app c mid (y :: r) u (zlen c) 0 (zlen u)) by (done || lia).
    change (Z.to_nat 0) with 0%nat. rewrite drop_0, (take_ge u) by (unfold zlen; lia).
    cbn [mbind option_bind]. rewrite (app_assoc c u). rewrite arr_set_app by (rewrite zlen_app; done).
    cbn [mbind option_bind]. rewrite (proj2 (Z.ltb_ge (zlen u) 0)), (proj2 (Z.leb_gt _ (zlen u))) by lia. cbn [orb].
    rewrite (u64_small (zlen c + zlen u)) by lia.
    destruct (terminate p s p1 s1 c (c ++ u) 0 r (zlen c + zlen u)) as (l' & -> & Hk');
      [done|rewrite Hd1 in Hc1; rewrite !zlen_app, !zlen_cons in *; lia|by rewrite zlen_app|lia|].
    cbn [mbind option_bind]. by eapply step_done.
Qed.

(** ** Operations inside the block *)

Lemma remove_ok p s c pos len : str_inv p s c -> op_args_ok c (Remove pos len) ->
  op_result p s c (Remove pos len).
Proof.
  intros Hi (Hpos & Hlen & Hsum). pose proof Hi as [_ [rest Hd] Hl Hcap _ _].
  pose proof (str_inv_room _ _ _ Hi) as (? & ? & ?).
  destruct (Z.leb_spec (zlen c) pos) as [Hge|Hlt].
  { eapply str_unchanged_result; [done| |]; cbn; unfold vox_string_remove; rewrite ?Hl, (proj2 (Z.leb_le _ _)) by done; done. }
  destruct (replace_at_spec_mid c pos len ltac:(lia) Hlen) as (a & m & b & Hc & Ha & Ea & Eb & Hm & Hsz).
  pose proof (zlen_nonneg m). pose proof (zlen_nonneg b).
  assert (Hspec : string_spec c (Remove pos len) = (a ++ b, 0)).
  { cbn. rewrite (proj2 (Z.leb_gt _ _)) by done. by rewrite <-Ea, <-Eb. }
  assert (Hx : exists l, vox_string_remove s pos len = Some (l, 0) /\ str_keep p s p l (a ++ b)).
  { unfold vox_string_remove. rewrite Hl, (u64_small (pos + len)) by lia.
    rewrite (proj2 (Z.leb_gt _ _)) by lia. cbv zeta. rewrite <-Hm.
    destruct (Z.eqb_spec (zlen m) 0) as [E|E].
    - eexists. split; [done|]. assert (m = []) as -> by (apply nil_length_inv; unfold zlen in *; lia).
      replace (a ++ b) with c by (by rewrite Hc). by apply str_keep_refl.
    - rewrite (u64_small (pos + zlen m)), (u64_small (zlen c - pos - zlen m)), (u64_small (zlen c - zlen m)) by lia.
      assert (exists y z, (if pos + zlen m <? zlen c
                then arr_blit (data s) pos (data s) (pos + zlen m) (zlen c - pos - zlen m) else Some (data s))
              = Some ((a ++ b) ++ y :: z) /\ zlen ((a ++ b) ++ y :: z) = zlen (data s)) as (y & z & -> & Hz).
      { case_one.
        - destruct (blit_tail (data s) a m b (0 :: rest) (pos + zlen m) pos) as (w & y & z & Hbl & Hw & Hzz);
            [by rewrite Hd, Hc, <-!app_assoc|lia..|].
          assert (w = []) as -> by (apply nil_length_inv; unfold zlen in *; lia).
          replace (zlen c - pos - zlen m) with (zlen b) by lia. exists y, z. by rewrite Hbl, <-app_assoc.
        - assert (b = []) as -> by (apply nil_length_inv; unfold zlen in *; lia).
          rewrite app_nil_r in *. destruct m as [|m0 m]; [done|]. exists m0, (m ++ 0 :: rest).
          rewrite Hd, Hc. by rewrite <-!app_assoc. }
      cbn [mbind option_bind].
      destruct (terminate p s p s c (a ++ b) y z (zlen c - zlen m)) as (l & -> & Hk);
        [by apply str_keep_refl|lia|rewrite zlen_app; lia|lia|]. cbn [mbind option_bind]. eauto. }
  destruct Hx as (l & Hx & Hk). eapply str_done_result; [|exact Hk|by rewrite Hspec].
  cbn. by rewrite Hx.
Qed.

Lemma str_get p s c i : str_inv p s c -> 0 <= i < zlen c -> (data s).[i] = c.[i].
Proof.
  intros [_ [rest ->] _ _ _ _] Hr. rewrite !arr_get_lookup by lia.
  apply lookup_app_l. unfold zlen in Hr. lia.
Qed.

Lemma at_ok p s c i : str_inv p s c -> 0 <= i -> op_result p s c (At i).
Proof.
  intros Hi Hr. pose proof Hi as [_ _ Hl _ _ _]. eapply str_unchanged_result; [done| |done]. cbn.
  unfold vox_string_at. rewrite Hl. destruct (Z.leb_spec (zlen c) i).
  - assert (c.[i] = None) as ->; [|done]. rewrite arr_get_lookup by lia. apply lookup_ge_None_2. unfold zlen in *. lia.
  - rewrite (str_get p s c) by (done || lia). destruct (arr_get_Some c i) as [x ->]; [lia|]. done.
Qed.

Lemma set_char_ok p s c i ch : str_inv p s c -> 0 <= i -> op_result p s c (SetChar i ch).
Proof.
  intros Hi Hr. pose proof Hi as [_ [rest Hd] Hl Hcap _ _].
  destruct (Z.leb_spec (zlen c) i).
  - eapply str_unchanged_result; [done| |]; cbn; unfold vox_string_set_char;
      rewrite ?Hl, (proj2 (Z.leb_le _ _)) by done; done.
  - eapply (str_done_result _ _ _ _ p (with_text s (<[Z.to_nat i := ch]> c ++ 0 :: rest) (zlen c))).
    + cbn. unfold vox_string_set_char. rewrite Hl, (proj2 (Z.leb_gt _ _)) by done. rewrite Hd.
      rewrite arr_set_ok by (rewrite zlen_app; pose proof (zlen_nonneg (0 :: rest)); lia). cbn.
      rewrite insert_app_l by (unfold zlen in *; lia). done.
    + apply (str_inv_text p s c); [done| |by rewrite zlen_insert].
      rewrite <-Hcap, Hd, !zlen_app. by rewrite zlen_insert.
    + cbn. by rewrite (proj2 (Z.leb_gt _ _)).
Qed.

Lemma map_text_ok p s c f : str_inv p s c ->
  exists s', map_text f s = Some s' /\ str_keep p s p s' (map f c).
Proof.
  intros Hi. pose proof Hi as [_ [rest Hd] Hl Hcap _ _]. unfold map_text.
  rewrite (str_inv_nonnull p s c Hi), Hl.
  destruct (for_inv (fun i cells => cells = map f (take (Z.to_nat i) c) ++ drop (Z.to_nat i) c ++ 0 :: rest)
    (Z.to_nat (zlen c)) 0 (fun i cells => x ← arr_get cells i; cells.[i <- f x]) (data s))
    as (cells & -> & Hcells); [done| |].
  - intros j cells Hj ->. destruct (arr_get_Some c j) as [x Hx]; [lia|].
    rewrite arr_get_lookup in Hx by lia. rewrite (drop_S _ _ _ Hx).
    change ((x :: drop (S (Z.to_nat j)) c) ++ 0 :: rest) with (x :: (drop (S (Z.to_nat j)) c ++ 0 :: rest)).
    assert (j = zlen (map f (take (Z.to_nat j) c))) as Hz.
    { unfold zlen. rewrite length_map, length_take. unfold zlen in Hj. lia. }
    rewrite arr_get_app by done. cbn [mbind option_bind]. rewrite arr_set_app by done.
    eexists. split; [done|]. replace (Z.to_nat (j + 1)) with (S (Z.to_nat j)) by lia.
    rewrite (take_S_r _ _ _ Hx), map_app, <-app_assoc. done.
  - cbn [mbind option_bind]. eexists. split; [done|].
    assert (Z.to_nat (0 + Z.of_nat (Z.to_nat (zlen c))) = length c) as E by (unfold zlen; lia).
    rewrite E, firstn_all, drop_all in Hcells. cbn in Hcells. subst cells.
    assert (zlen (map f c) = zlen c) as Hmz by (unfold zlen; by rewrite length_map).
    apply (str_inv_text p s c); [done| |done]. rewrite <-Hcap, Hd, !zlen_app. by rewrite Hmz.
Qed.

Lemma drop_spaces_split c : exists a, c = a ++ drop_spaces c /\ zlen a = zlen c - zlen (drop_spaces c).
Proof.
  induction c as [|x c (a & Hc & Hz)]; cbn [drop_spaces]; [by exists []|].
  destruct (isspace x).
  - exists (x :: a). split; [cbn; by rewrite <-Hc|]. rewrite !zlen_cons. lia.
  - exists []. split; [done|]. unfold zlen. cbn. lia.
Qed.

Lemma skip_left_ok n pre mid post stop :
  (length mid <= n)%nat -> stop = zlen pre + zlen mid ->
  skip_left n (pre ++ mid ++ post) (zlen pre) stop = Some (stop - zlen (drop_spaces mid)).
Proof.
  revert pre mid stop. induction n as [|n IH]; intros pre mid stop Hn ->; cbn [skip_left].
  { destruct mid; [|cbn in Hn; lia]. unfold zlen. cbn. f_equal. lia. }
  destruct mid as [|x mid].
  { rewrite (proj2 (Z.leb_le _ _)) by (unfold zlen; cbn; lia). unfold zlen. cbn. f_equal. lia. }
  rewrite zlen_cons. pose proof (zlen_nonneg mid). rewrite (proj2 (Z.leb_gt _ _)) by lia.
  cbn [app]. rewrite arr_get_app by done. cbn [mbind option_bind drop_spaces].
  destruct (isspace x); [|rewrite zlen_cons; f_equal; lia].
  specialize (IH (pre ++ [x]) mid (zlen pre + (1 + zlen mid))). rewrite zlen_app, <-app_assoc in IH.
  change (zlen [x]) with 1 in IH. cbn in Hn. apply IH; lia.
Qed.

Lemma skip_right_ok n pre mid post start i :
  (length mid <= n)%nat -> start = zlen pre -> i = zlen pre + zlen mid ->
  skip_right n (pre ++ mid ++ post) start i = Some (start + zlen (drop_spaces (rev mid))).
Proof.
  intros Hn -> ->. revert mid post Hn. induction n as [|n IH]; intros mid post Hn; cbn [skip_right].
  { destruct mid; [|cbn in Hn; lia]. done. }
  destruct mid as [|x mid _] using rev_ind.
  { rewrite (proj2 (Z.leb_le _ _)) by (unfold zlen; cbn; lia). done. }
  rewrite zlen_app. change (zlen [x]) with 1. pose proof (zlen_nonneg mid).
  rewrite (proj2 (Z.leb_gt _ _)) by lia. rewrite <-(app_assoc mid). cbn [app].
  replace (zlen pre + (zlen mid + 1) - 1) with (zlen (pre ++ mid)) by (rewrite zlen_app; lia).
  rewrite (app_assoc pre), arr_get_app by done. cbn [mbind option_bind].
  rewrite rev_app_distr. cbn [rev app drop_spaces]. destruct (isspace x).
  - rewrite <-app_assoc, zlen_app. apply IH. rewrite length_app in Hn. cbn in Hn. lia.
  - f_equal. rewrite zlen_cons. unfold zlen. rewrite length_rev. lia.
Qed.

Lemma trim_ok p s c : str_inv p s c ->
  exists s', vox_string_trim s = Some s' /\ str_keep p s p s' (trim_spec c).
Proof.
  intros Hi. pose proof Hi as [_ [rest Hd] Hl Hcap _ _]. pose proof (str_inv_room _ _ _ Hi) as (? & ? & ?).
  unfold vox_string_trim. rewrite (str_inv_nonnull p s c Hi), Hl. cbn [orb].
  destruct (Z.eqb_spec (zlen c) 0) as [E|E].
  { eexists. split; [done|]. assert (c = []) as -> by (apply nil_length_inv; unfold zlen in *; lia).
    by apply str_keep_refl. }
  destruct (drop_spaces_split c) as (a & Hc & Ha). set (mid := drop_spaces c) in *.
  destruct (drop_spaces_split (rev mid)) as (b & Hm & Hb). set (t := drop_spaces (rev mid)) in *.
  assert (Hmid : mid = rev t ++ rev b) by (by rewrite <-rev_app_distr, <-Hm, rev_involutive).
  assert (Htrim : trim_spec c = rev t) by done.
  assert (zlen (rev mid) = zlen mid) as Hrz by (unfold zlen; by rewrite length_rev).
  assert (zlen (rev t) = zlen t) as Htz by (unfold zlen; by rewrite length_rev).
  pose proof (zlen_nonneg t). pose proof (zlen_nonneg a). pose proof (zlen_nonneg b).
  assert (skip_left (Z.to_nat (zlen c)) (data s) 0 (zlen c) = Some (zlen a)) as ->.
  { rewrite Hd. pose proof (skip_left_ok (Z.to_nat (zlen c)) [] c (0 :: rest) (zlen c)) as Hs.
    cbn [app] in Hs. change (zlen (@nil Z)) with 0 in Hs. rewrite Hs by (unfold zlen; lia).
    fold mid. f_equal. lia. }
  cbn [mbind option_bind].
  assert (skip_right (Z.to_nat (zlen c)) (data s) (zlen a) (zlen c) = Some (zlen a + zlen t)) as ->.
  { assert (data s = a ++ mid ++ 0 :: rest) as -> by (rewrite Hd; rewrite Hc at 1; by rewrite <-app_assoc).
    unfold t.
    apply skip_right_ok; [unfold zlen in *; lia|done|lia]. }
  cbn [mbind option_bind]. rewrite Htrim. replace (zlen a + zlen t - zlen a) with (zlen t) by lia.
  destruct ((0 <? zlen a) || (zlen a + zlen t <? zlen c)) eqn:Eb.
  2:{ apply orb_false_iff in Eb as [E1%Z.ltb_ge E2%Z.ltb_ge]. eexists. split; [done|].
      assert (a = []) as Ea by (apply nil_length_inv; unfold zlen in *; lia).
      assert (b = []) as Eb by (apply nil_length_inv; unfold zlen in *; lia).
      assert (c = rev t) as <- by (rewrite Hc, Ea, Hmid, Eb; cbn; by rewrite app_nil_r).
      by apply str_keep_refl. }
  assert (exists y z, (if zlen a <? zlen a + zlen t then arr_blit (data s) 0 (data s) (zlen a) (zlen t)
                       else Some (data s)) = Some (rev t ++ y :: z) /\ zlen (rev t ++ y :: z) = zlen (data s))
    as (y & z & -> & Hz).
  { case_one.
    - destruct (blit_tail (data s) [] a (rev t) (rev b ++ 0 :: rest) (zlen a) 0) as (w & y & z & Hbl & Hw & Hzz);
        [rewrite Hd, Hc, Hmid; cbn; by rewrite <-!app_assoc|done|done|lia|].
      assert (w = []) as -> by (apply nil_length_inv; unfold zlen in *; cbn in *; lia).
      rewrite Htz in Hbl. exists y, z. by rewrite Hbl.
    - assert (t = []) as -> by (apply nil_length_inv; unfold zlen in *; lia). cbn.
      destruct (data s) as [|y z]; [unfold zlen in *; cbn in *; lia|]. by exists y, z. }
  cbn [mbind option_bind].
  destruct (terminate p s p s c (rev t) y z (zlen t)) as (l & -> & Hk);
    [by apply str_keep_refl|lia|lia|lia|]. cbn [mbind option_bind]. eauto.
Qed.

Lemma reserve_ok p s c cap : str_inv p s c -> 0 <= cap < 2 ^ 64 ->
  step_ok p s c (vox_string_reserve junk p s cap) (c, 0).
Proof.
  intros Hi Hr. pose proof (str_inv_room _ _ _ Hi) as (? & ? & ?). pose proof Hi as [Hp _ Hl _ _ _].
  unfold vox_string_reserve. destruct (Z.leb_spec cap (capacity s)); [by apply step_same|].
  destruct (alloc_cells junk p cap 1) as [[p1 a] cells] eqn:E.
  destruct (move_spec p s c cap p1 a cells Hi ltac:(lia) E)
    as [(-> & Hk & Hnull)|(Hnn & rest & _ & Hbl & Hk)].
  - do 4 eexists. split_and!; [done|exact Hk|].
    right. split_and!; [done..|]. left. exists p, cap. split_and!; [done|lia|done].
  - rewrite (proj2 (Z.eqb_neq a NULL)) by done. rewrite (str_inv_nonnull p s c Hi), Hl. cbn [negb].
    rewrite (u64_small (zlen c + 1)), Hbl by lia. cbn [mbind option_bind]. by eapply step_done.
Qed.

Lemma str_resize_ok p s c n : str_inv p s c -> 0 <= n <= 2 ^ 62 ->
  step_ok p s c (vox_string_resize junk p s n) (string_spec c (Resize n)).
Proof.
  intros Hi Hn. pose proof Hi as [_ [rest Hd] Hl Hcap _ _]. pose proof (str_inv_room _ _ _ Hi) as (? & ? & ?).
  unfold vox_string_resize. rewrite Hl. cbn [string_spec].
  destruct (Z.eqb_spec n (zlen c)) as [->|Hne].
  { apply step_same; [done|]. rewrite take_app_le by (unfold zlen; lia). rewrite take_ge by (unfold zlen; lia). done. }
  destruct (Z.ltb_spec n (zlen c)) as [Hlt|Hge].
  - rewrite take_app_le by (unfold zlen in *; lia).
    destruct (drop (Z.to_nat n) c) as [|x r] eqn:E.
    { apply (f_equal length) in E. rewrite length_drop in E. unfold zlen in *. cbn in E. lia. }
    assert (data s = take (Z.to_nat n) c ++ x :: r ++ 0 :: rest) as ->.
    { rewrite Hd. rewrite <-(take_drop (Z.to_nat n) c) at 1. by rewrite E, <-app_assoc. }
    destruct (terminate p s p s c (take (Z.to_nat n) c) x (r ++ 0 :: rest) n) as (l & -> & Hk);
      [by apply str_keep_refl| |rewrite zlen_take; lia|lia|by eapply step_done].
    rewrite <-Hcap, Hd. rewrite <-(take_drop (Z.to_nat n) c) at 2. by rewrite E, <-app_assoc.
  - rewrite take_app_ge by (unfold zlen in *; lia). rewrite take_ge
      by (rewrite length_replicate; unfold zlen; lia).
    apply grow_step; [done|lia|]. intros p1 s1 Hk Hroom.
    pose proof Hk as [Hi1 _]. pose proof Hi1 as [_ _ Hl1 Hc1 _ _].
    destruct (spare_cells p1 s1 c (n - zlen c) Hi1) as (mid & y & r & Hd1 & Hm); [lia..|].
    unfold arr_fill. rewrite Hd1, Hl1.
    rewrite (arr_blit_app c mid (y :: r) _ (zlen c) 0 (n - zlen c)) by (rewrite ?zlen_replicate; lia || done).
    change (Z.to_nat 0) with 0%nat. rewrite drop_0, take_ge by (rewrite length_replicate; lia).
    cbn [mbind option_bind]. replace (Z.to_nat n - length c)%nat with (Z.to_nat (n - zlen c)) by (unfold zlen; lia).
    set (sp := replicate (Z.to_nat (n - zlen c)) 32).
    assert (zlen sp = n - zlen c) as Hsp by (subst sp; rewrite zlen_replicate; lia).
    rewrite (app_assoc c sp).
    destruct (terminate p s p1 s1 c (c ++ sp) y r n) as (l' & -> & Hk');
      [done|rewrite Hd1 in Hc1; rewrite !zlen_app, !zlen_cons in *; lia|rewrite zlen_app; lia|lia|].
    cbn [mbind option_bind]. by eapply step_done.
Qed.

(** ** Searching and replacing *)

Lemma find_ok p s c l start :
  str_inv p s c -> str_ok l -> 0 <= start ->
  vox_string_find s (Mem l) start = Some
    (if zlen c <=? start then SIZE_MAX
     else match find_in (cstr_of l) (drop (Z.to_nat start) c) 0 with
          | None => SIZE_MAX | Some i => start + i end).
Proof.
  intros [_ [rest Hd] Hl _ _ _] Hs Hst. destruct (str_ok_cstr l Hs) as (_ & Hnn & _ & _ & Htk & Hsl).
  unfold vox_string_find. cbn [is_null orb cells_at]. rewrite Hl.
  destruct (Z.leb_spec (zlen c) start); [done|]. unfold strstr. rewrite Hsl. cbn [mbind option_bind].
  rewrite Htk, Hd. rewrite drop_app_le by (unfold zlen in *; lia). rewrite find_sub_in by done. done.
Qed.

Lemma find_in_nil t : t <> [] -> find_in t [] 0 = None.
Proof. by destruct t. Qed.

(** One replacement inside the text [d ++ r]. *)
Lemma replace_split (d r o : list Z) i :
  find_in o r 0 = Some i ->
  take (Z.to_nat (zlen d + i)) (d ++ r) = d ++ take (Z.to_nat i) r /\
  drop (Z.to_nat (zlen d + i + zlen o)) (d ++ r) = drop (Z.to_nat i + length o) r /\
  zlen (take (Z.to_nat i) r) = i /\ zlen (drop (Z.to_nat i + length o) r) = zlen r - i - zlen o.
Proof.
  intros (Hi & Hl & _)%find_in_range. split_and!.
  - rewrite take_app_ge by (unfold zlen in *; lia). do 2 f_equal. unfold zlen. lia.
  - rewrite drop_app_ge by (unfold zlen in *; lia). f_equal. unfold zlen. lia.
  - rewrite zlen_take. pose proof (zlen_nonneg o). lia.
  - rewrite zlen_drop. unfold zlen in *. lia.
Qed.

Lemma replace_loop_ok lo ln k :
  str_ok lo -> str_ok ln -> cstr_of lo <> [] -> forall fuel p s d r count,
  str_inv p s (d ++ r) -> (length r < fuel)%nat -> (length r <= k)%nat -> 0 <= count ->
  count + zlen r < 2 ^ 31 ->
  exists p' s' n' c',
    replace_loop junk fuel p s (Mem lo) (Mem ln) (zlen (cstr_of lo)) (zlen (cstr_of ln)) (zlen d) count
      = Some (p', s', n') /\ str_keep p s p' s' c' /\
    ((c' = d ++ (replace_upto k (cstr_of lo) (cstr_of ln) r).1 /\
      n' = count + (replace_upto k (cstr_of lo) (cstr_of ln) r).2) \/
     (n' = -1 /\ refused p' c' /\ exists j, c' = d ++ (replace_upto j (cstr_of lo) (cstr_of ln) r).1)).
Proof.
  intros Hlo Hln Hne. set (o := cstr_of lo) in *. set (n := cstr_of ln).
  assert (0 < zlen o) as Ho0.
  { destruct o as [|x o']; [done|]. rewrite zlen_cons. pose proof (zlen_nonneg o'). lia. }
  revert k. intros k0 fuel. revert k0. induction fuel as [|fuel IH]; intros k p s d r count Hi Hf Hk Hc Hb; [lia|].
  pose proof (str_inv_room _ _ _ Hi) as (? & ? & ?). pose proof (zlen_nonneg d). pose proof (zlen_nonneg r).
  assert (Hstop : find_in o r 0 = None -> replace_upto k o n r = (r, 0)).
  { intros E. destruct k; [done|]. cbn. by rewrite E. }
  cbn [replace_loop]. rewrite (find_ok p s (d ++ r) lo (zlen d)) by done. fold o. cbn [mbind option_bind].
  rewrite drop_app_length' by (unfold zlen; lia). rewrite zlen_app in *.
  destruct (find_in o r 0) as [i|] eqn:Ef.
  2:{ rewrite (Hstop eq_refl). exists p, s, count, (d ++ r). split; [by destruct (zlen d + zlen r <=? zlen d)|].
      split; [by apply str_keep_refl|]. left. split; [done|]. cbn. lia. }
  pose proof (find_in_range _ _ _ Ef) as (Hi0 & Hil & _).
  destruct (replace_split d r o i Ef) as (Htk & Hdr & Hzt & Hzd).
  rewrite (proj2 (Z.leb_gt _ _)) by lia. rewrite (proj2 (Z.eqb_neq _ _)) by (unfold SIZE_MAX; lia).
  destruct (replace_at_ok p s (d ++ r) (zlen d + i) (zlen o) (Mem ln) n Hi)
    as (p1 & s1 & rc & c1 & -> & Hk1 & Hres); [rewrite zlen_app; lia|lia|lia|done|done|].
  cbn [mbind option_bind]. destruct Hres as [[= -> ->]|(-> & -> & Href)]; cbn [negb Z.eqb].
  2:{ exists p1, s1, (-1), (d ++ r). split_and!; [done..|]. right. split_and!; [done..|].
      exists 0%nat. done. }
  rewrite (proj2 (Z.ltb_lt (count + 1) _)) by lia.
  rewrite Htk, Hdr in Hk1. set (r' := drop (Z.to_nat i + length o) r) in *.
  set (d' := d ++ take (Z.to_nat i) r ++ n).
  assert (Hd' : (d ++ take (Z.to_nat i) r) ++ n ++ r' = d' ++ r') by (subst d'; by rewrite <-!app_assoc).
  rewrite Hd' in Hk1. pose proof Hk1 as [Hi1 _]. pose proof (str_inv_room _ _ _ Hi1) as (? & ? & ?).
  assert (zlen d' = zlen d + i + zlen n) as Hzd' by (subst d'; rewrite !zlen_app; lia).
  rewrite zlen_app in *. pose proof (zlen_nonneg r').
  pose proof (zlen_nonneg n). rewrite u64_small by lia. rewrite <-Hzd'. destruct k as [|k]; [unfold zlen in *; lia|].
  destruct (IH k p1 s1 d' r' (count + 1) Hi1) as (p2 & s2 & n2 & c2 & -> & Hk2 & Hres);
    [unfold zlen in *; lia..|].
  exists p2, s2, n2, c2. split_and!; [done|by apply (str_keep_trans _ _ _ _ _ _ _ _ Hk1)..|].
  cbn [replace_upto]. rewrite Ef. fold r'.
  destruct (replace_upto k o n r') as [t m] eqn:Et. cbn [fst snd] in Hres |- *.
  destruct Hres as [[-> ->]|(-> & Href & j & ->)]; [left|right].
  - split; [subst d'; by rewrite <-!app_assoc|lia].
  - split_and!; [done|done|]. exists (S j). cbn [replace_upto]. rewrite Ef. fold r'.
    destruct (replace_upto j o n r') as [t' m']. cbn. subst d'. by rewrite <-!app_assoc.
Qed.

Lemma replace_ok p s c o n : str_inv p s c -> op_args_ok c (Replace o n) -> op_result p s c (Replace o n).
Proof.
  intros Hi (Hb & Ho & Hn). destruct o as [lo|]; [|by eapply str_unchanged_result].
  destruct n as [ln|]; [|by eapply str_unchanged_result]. specialize (Ho lo eq_refl). specialize (Hn ln eq_refl).
  destruct (str_ok_cstr lo Ho) as (Hfo & _). destruct (str_ok_cstr ln Hn) as (Hfn & _).
  pose proof Hi as [_ _ Hl _ _ _].
  assert (Hx : string_exec junk p s (Replace (Some lo) (Some ln)) =
    if zlen (cstr_of lo) =? 0 then Some (p, s, 0) else
    replace_loop junk (S (Z.to_nat (zlen c))) p s (Mem lo) (Mem ln) (zlen (cstr_of lo)) (zlen (cstr_of ln)) 0 0).
  { cbn [string_exec]. unfold vox_string_replace. rewrite Hfo, Hfn. cbn [mbind option_bind]. by rewrite Hl. }
  destruct (cstr_of lo) as [|x o'] eqn:Eo.
  { eapply str_unchanged_result; [done|by rewrite Hx|]. cbn [string_spec]. by rewrite Eo. }
  rewrite (proj2 (Z.eqb_neq _ _)) in Hx by (rewrite zlen_cons; pose proof (zlen_nonneg o'); lia).
  rewrite <-Eo in Hx.
  destruct (replace_loop_ok lo ln (length c) Ho Hn ltac:(by rewrite Eo) (S (Z.to_nat (zlen c))) p s [] c 0)
    as (p' & s' & r & c' & Hr & Hk & Hres); [done|unfold zlen; lia|lia|lia|lia|].
  exists p', s', r, c'. split_and!; [by rewrite Hx|done..|].
  destruct Hres as [[-> ->]|(-> & Href & j & ->)]; [left|right].
  - rewrite Z.add_0_l. cbn [string_spec app]. by rewrite <-surjective_pairing, Eo.
  - split_and!; [done|done| |done]. by exists j.
Qed.

(** [t] is in [c] at position [i]. *)
Definition occurs (t c : list Z) (i : Z) : Prop :=
  0 <= i /\ take (length t) (drop (Z.to_nat i) c) = t.

Lemma occurs_range t c i : occurs t c i -> t <> [] -> i + zlen t <= zlen c.
Proof.
  intros [Hi Ht] Hne. apply (f_equal length) in Ht. rewrite length_take, length_drop in Ht.
  assert (length t <> 0%nat) by (by destruct t). unfold zlen. lia.
Qed.

Lemma find_in_least t c i j :
  find_in t c 0 = Some i -> 0 <= j < i -> ~ occurs t c j.
Proof.
  revert i j. induction c as [|x c IH]; intros i j; cbn [find_in].
  - destruct (starts_with t []); [intros [= <-]; lia|done].
  - destruct (starts_with t (x :: c)) eqn:E; [intros [= <-]; lia|].
    destruct (x =? 0); [done|]. rewrite find_in_shift. destruct (find_in t c 0) as [k|]; [|done].
    intros [= <-] Hj [_ Ht]. destruct (decide (j = 0)) as [->|Hne].
    + cbn in Ht. rewrite starts_with_take in E. by apply bool_decide_eq_false in E.
    + apply (IH k (j - 1) eq_refl); [lia|]. split; [lia|].
      replace (Z.to_nat j) with (S (Z.to_nat (j - 1))) in Ht by lia. done.
Qed.

(** Nothing found: every occurrence is behind a 0 byte. *)
Lemma find_in_none t c j :
  find_in t c 0 = None -> occurs t c j -> exists k, 0 <= k < j /\ c.[k] = Some 0.
Proof.
  revert j. induction c as [|x c IH]; intros j; cbn [find_in].
  - destruct (starts_with t []) eqn:E; [done|]. intros _ [_ Ht]. rewrite drop_nil, take_nil in Ht.
    by rewrite <-Ht in E.
  - destruct (starts_with t (x :: c)) eqn:E; [done|]. rewrite starts_with_take in E.
    apply bool_decide_eq_false in E. intros Hf [Hj Ht].
    destruct (decide (j = 0)) as [->|Hne]; [by cbn in Ht|].
    destruct (Z.eqb_spec x 0) as [->|Hx]; [exists 0; split; [lia|done]|].
    rewrite find_in_shift in Hf. destruct (find_in t c 0) as [k|]; [done|].
    destruct (IH (j - 1) eq_refl) as (k & Hk & Hg).
    { split; [lia|]. replace (Z.to_nat j) with (S (Z.to_nat (j - 1))) in Ht by lia. done. }
    exists (k + 1). split; [lia|]. rewrite arr_get_lookup in * by lia.
    by replace (Z.to_nat (k + 1)) with (S (Z.to_nat k)) by lia.
Qed.

Lemma occurs_drop t c k i : 0 <= k -> 0 <= i -> occurs t (drop (Z.to_nat k) c) i <-> occurs t c (k + i).
Proof.
  intros Hs Hi. unfold occurs. rewrite drop_drop.
  replace (Z.to_nat k + Z.to_nat i)%nat with (Z.to_nat (k + i)) by lia. split; intros [? ?]; split; done || lia.
Qed.

Lemma text_drop_get c j k : 0 <= j -> 0 <= k -> (drop (Z.to_nat j) c).[k] = c.[j + k].
Proof.
  intros. rewrite !arr_get_lookup, lookup_drop by lia. f_equal. lia.
Qed.

(** One comparison of [vox_string_rfind]. *)
Lemma rfind_here c rest t l i :
  no_nul t -> t <> [] -> 0 <= i -> i + zlen t <= zlen c + 1 -> take (Z.to_nat (zlen t)) l = t ->
  zlen t <= zlen l ->
  exists here r, arr_slice (c ++ 0 :: rest) i (zlen t) = Some here /\ memcmp here l (zlen t) = Some r /\
    (r = 0 <-> occurs t c i).
Proof.
  intros Hnn Hne Hi Hb Ht Hl. pose proof (zlen_nonneg t). pose proof (zlen_nonneg rest).
  destruct (arr_slice_Some (c ++ 0 :: rest) i (zlen t)) as (here & Hs & Hz);
    [lia|lia|rewrite zlen_app, zlen_cons; lia|].
  exists here, (compare_cells here t). split; [done|]. unfold memcmp, arr_slice.
  rewrite !decide_True by lia. change (Z.to_nat 0) with 0%nat. rewrite !drop_0, Ht. cbn [mbind option_bind].
  rewrite (take_ge here) by (unfold zlen in *; lia). split; [done|].
  rewrite compare_cells_eq by (unfold zlen in *; lia).
  unfold arr_slice in Hs. case_decide as Hd; [|done]. injection Hs as <-.
  unfold occurs. unfold zlen at 1. rewrite Nat2Z.id.
  destruct (decide (i + zlen t <= zlen c)) as [Hle|Hgt].
  - rewrite drop_app_le, take_app_le by (rewrite ?length_drop; unfold zlen in *; lia). split; [by split|by intros [_ ?]].
  - split.
    + intros E. exfalso. rewrite drop_app_le in E by (unfold zlen in *; destruct t; cbn in *; [done|lia]).
      assert (length t = length (drop (Z.to_nat i) c) + 1)%nat as El
        by (rewrite length_drop; unfold zlen in *; destruct t; cbn in *; [done|lia]).
      rewrite El, take_app_add in E. cbn in E. rewrite <-E in Hnn.
      apply Forall_app in Hnn as [_ Hx]. by apply Forall_cons in Hx as [? _].
    + intros Ho. pose proof (occurs_range t c i Ho Hne). lia.
Qed.

Lemma rfind_loop_ok c rest t l n :
  no_nul t -> t <> [] -> take (Z.to_nat (zlen t)) l = t -> zlen t <= zlen l ->
  Z.of_nat n - 1 + zlen t <= zlen c + 1 -> zlen c < SIZE_MAX ->
  exists r, rfind_loop (c ++ 0 :: rest) l (zlen t) n = Some r /\
    ((r = SIZE_MAX /\ forall i, 0 <= i < Z.of_nat n -> ~ occurs t c i) \/
     (r <> SIZE_MAX /\ 0 <= r < Z.of_nat n /\ occurs t c r /\ forall i, r < i < Z.of_nat n -> ~ occurs t c i)).
Proof.
  intros Hnn Hne Ht Hl. induction n as [|n IH]; intros Hb Hc.
  { eexists. split; [done|]. left. split; [done|]. lia. }
  cbn [rfind_loop].
  destruct (rfind_here c rest t l (Z.of_nat n)) as (here & x & -> & Hm & Hx); [done|done|lia|lia|done|done|].
  cbn [mbind option_bind]. rewrite Hm. cbn [mbind option_bind]. destruct (Z.eqb_spec x 0) as [E|E].
  - eexists. split; [done|]. right. apply Hx in E. pose proof (occurs_range t c _ E Hne). pose proof (zlen_nonneg t).
    split_and!; [lia|lia|lia|done|]. intros i Hi. lia.
  - destruct IH as (r & -> & Hr); [lia|done|]. eexists. split; [done|].
    assert (forall i, i = Z.of_nat n -> ~ occurs t c i) as Hno by (intros i -> Ho; apply E, Hx, Ho).
    destruct Hr as [[-> Hr]|(Hr0 & Hr1 & Hr2 & Hr3)]; [left|right].
    + split; [done|]. intros i Hi. destruct (decide (i = Z.of_nat n)); [by apply Hno|]. apply Hr. lia.
    + split_and!; [done|lia|lia|done|]. intros i Hi. destruct (decide (i = Z.of_nat n)); [by apply Hno|].
      apply Hr3. lia.
Qed.

(** ** The simulation, creation and destruction *)

Lemma str_op_ok p s c op : str_inv p s c -> op_args_ok c op -> op_result p s c op.
Proof.
  intros Hi Ha. pose proof Hi as [_ _ Hl _ _ _].
  assert (Hstep : step_ok p s c (string_exec junk p s op) (string_spec c op) -> may_allocate op = true ->
    match op with Replace _ _ => False | _ => True end -> op_result p s c op).
  { intros Hs Hm Hr. apply step_result; [done|done|]. by destruct op. }
  destruct op as [| | |q len|q|v|q len|q|v|o|ch|out|pos q len|pos q|pos v|pos len|i|i ch|pos len q|o n| | | |cap|n];
    cbn [op_args_ok] in Ha.
  - destruct (str_clear_ok p s c Hi) as (s' & E & Hk). eapply str_done_result; [cbn; by rewrite E|exact Hk|done].
  - eapply str_unchanged_result; [done|done|]. cbn. unfold vox_string_length. by rewrite Hl.
  - eapply str_unchanged_result; [done|done|]. cbn. unfold vox_string_empty. by rewrite Hl.
  - apply Hstep; [by apply set_data_ok|done|done].
  - apply Hstep; [by apply str_set_ok|done|done].
  - apply Hstep; [by apply set_view_ok|done|done].
  - apply Hstep; [by apply append_data_ok|done|done].
  - apply Hstep; [by apply append_ok|done|done].
  - apply Hstep; [by apply append_view_ok|done|done].
  - apply Hstep; [by apply append_string_ok|done|done].
  - apply Hstep; [by apply append_char_ok|done|done].
  - apply Hstep; [by apply append_format_ok|done|done].
  - apply Hstep; [apply insert_data_ok; [done|lia|apply Ha]|done|done].
  - apply Hstep; [apply insert_ok; [done|lia|apply Ha]|done|done].
  - apply Hstep; [apply insert_view_ok; [done|lia|apply Ha]|done|done].
  - by apply remove_ok.
  - apply at_ok; [done|lia].
  - apply set_char_ok; [done|lia].
  - apply Hstep; [|done|done]. destruct Ha as (Hp & Hn & Hs & Hq). cbn [string_exec string_spec].
    destruct q as [|l|]; [by apply step_same| |done]. cbn [text_of].
    destruct (Z.leb_spec (zlen c) pos).
    + unfold vox_string_replace_at. rewrite Hl, (proj2 (Z.leb_le _ _)) by done. by apply step_same.
    + by apply replace_at_ok.
  - by apply replace_ok.
  - destruct (map_text_ok p s c tolower Hi) as (s' & E & Hk).
    eapply str_done_result; [cbn; unfold vox_string_tolower; by rewrite E|exact Hk|done].
  - destruct (map_text_ok p s c toupper Hi) as (s' & E & Hk).
    eapply str_done_result; [cbn; unfold vox_string_toupper; by rewrite E|exact Hk|done].
  - destruct (trim_ok p s c Hi) as (s' & E & Hk). eapply str_done_result; [cbn; by rewrite E|exact Hk|done].
  - apply Hstep; [by apply reserve_ok|done|done].
  - apply Hstep; [by apply str_resize_ok|done|done].
Qed.

(** A new object, or nothing taken from the pool. *)
Definition made p p' c (o : option vox_string) : Prop :=
  match o with
  | Some s => str_inv p' s c /\ others p' s = mp_live p
  | None => mp_inv p' /\ mp_live p' = mp_live p
  end.

Lemma str_create_ok p config :
  mp_inv p -> (forall n, config = Some n -> 0 <= n < 2 ^ 64) ->
  exists p' o, vox_string_create_with_config junk p config = Some (p', o) /\ made p p' [] o.
Proof.
  intros Hp Hcfg. unfold vox_string_create_with_config.
  destruct (mp_alloc p sizeof_string) as [p1 at1] eqn:E1.
  assert (0 <= sizeof_string < 2 ^ 64) as Hsz by (unfold sizeof_string; lia).
  destruct (Z.eqb_spec at1 NULL) as [->|Hat].
  { do 2 eexists. split; [done|]. destruct (mp_alloc_spec p _ p1 NULL Hp Hsz E1) as [Hi [[_ Hl]|[? _]]]; done. }
  set (cap := match config with Some c => _ | None => _ end).
  assert (0 < cap < 2 ^ 64) as Hcap.
  { unfold cap, VOX_STRING_DEFAULT_INITIAL_CAPACITY. destruct config as [c|]; [|lia].
    specialize (Hcfg c eq_refl). case_one; lia. }
  clearbody cap. destruct (alloc_cells junk p1 cap 1) as [[p2 a] cells] eqn:E2.
  destruct (Z.eqb_spec a NULL) as [->|Ha].
  { do 2 eexists. split; [done|]. eapply create_refused; [done|exact Hsz|done|done| | | |done]; lia. }
  destruct (create_blocks junk p p1 p2 sizeof_string cap 1 at1 a cells)
    as (Hp2 & Hown & Hf & Hlen & Hmax); try done; try lia.
  destruct cells as [|x r]; [unfold zlen in Hlen; cbn in Hlen; lia|].
  pose proof (arr_set_app [] x r 0 0 eq_refl) as Hset. cbn [app] in Hset. rewrite Hset. cbn [mbind option_bind].
  do 2 eexists. split; [done|]. split; [|done].
  constructor; cbn [self data_at data length_ capacity]; [done|by exists r|done| |lia|done].
  rewrite zlen_cons in *. lia.
Qed.

Lemma str_destroy_ok p s c : str_inv p s c ->
  mp_inv (vox_string_destroy p s) /\ mp_live (vox_string_destroy p s) = others p s.
Proof.
  intros Hi. unfold vox_string_destroy. rewrite (str_inv_nonnull p s c Hi). cbn [negb].
  destruct Hi as [Hp _ _ _ _ Hown]. by apply destroy_blocks.
Qed.

(** A created string that is given a text, or destroyed when it cannot hold it. *)
Lemma fill_made p p1 s l len :
  made p p1 [] (Some s) -> 0 < len <= 2 ^ 62 -> len <= zlen l -> exists p' o,
  ('(p, s, rc) ← vox_string_set_data junk p1 s (Mem l) len;
   if negb (rc =? 0) then Some (vox_string_destroy p s, None) else Some (p, Some s)) = Some (p', o) /\
  made p p' (take (Z.to_nat len) l) o.
Proof.
  intros [Hi Ho] Hl Hz.
  destruct (set_data_ok p1 s [] (Mem l) len Hi) as (p2 & s2 & rc & c2 & -> & Hk & Hres); [cbn; lia|].
  destruct (mem_bytes l len ltac:(lia)) as (x & t & Et & _). cbn [string_spec is_null andb bytes_of] in Hres.
  rewrite Et in *. cbn [set_spec mbind option_bind] in *. destruct Hk as (Hi2 & Ho2 & _).
  destruct Hres as [[= -> ->]|(-> & -> & _)]; cbn [negb Z.eqb].
  - do 2 eexists. split; [done|]. split; [done|congruence].
  - do 2 eexists. split; [done|]. destruct (str_destroy_ok p2 s2 [] Hi2) as [? Hl2]. split; [done|congruence].
Qed.

Lemma from_data_ok p l len : mp_inv p -> 0 <= len <= 2 ^ 62 -> len <= zlen l ->
  exists p' o, vox_string_from_data junk p (Some l) len = Some (p', o) /\ made p p' (take (Z.to_nat len) l) o.
Proof.
  intros Hp Hl Hz. unfold vox_string_from_data, vox_string_create.
  destruct (str_create_ok p None Hp) as (p1 & o & -> & Hm); [done|]. cbn [mbind option_bind].
  destruct o as [s|]; [|by do 2 eexists].
  destruct (Z.ltb_spec 0 len) as [Hlt|Hge]; [by apply fill_made; [..|lia|]|].
  assert (len = 0) as -> by lia. by do 2 eexists.
Qed.

(** [vox_string_clone] and [vox_string_substr] make strings of their own. *)
Lemma clone_ok p s c : str_inv p s c -> zlen c <= 2 ^ 62 ->
  exists p' o, vox_string_clone junk p s = Some (p', o) /\ made p p' c o.
Proof.
  intros Hi Hz. pose proof Hi as [Hp [rest Hd] Hl _ _ _]. unfold vox_string_clone, vox_string_create.
  destruct (str_create_ok p None Hp) as (p1 & o & -> & Hm); [done|]. cbn [mbind option_bind].
  destruct o as [d|]; [|by do 2 eexists]. rewrite Hl.
  assert (take (Z.to_nat (zlen c)) (data s) = c) as Ht.
  { rewrite Hd. unfold zlen. by rewrite Nat2Z.id, take_app_length. }
  destruct (Z.ltb_spec 0 (zlen c)) as [Hlt|Hge].
  - pose proof (fill_made p p1 d (data s) (zlen c) Hm) as Hf. rewrite Ht in Hf. apply Hf; [lia|]. rewrite Hd, zlen_app. pose proof (zlen_nonneg (0 :: rest)). lia.
  - assert (c = []) as -> by (apply nil_length_inv; unfold zlen in *; lia). by do 2 eexists.
Qed.

Lemma substr_ok p s c pos len : str_inv p s c -> zlen c <= 2 ^ 62 -> 0 <= pos -> 0 <= len ->
  pos + len < 2 ^ 64 \/ len = SIZE_MAX ->
  exists p' o, vox_string_substr junk p s pos len = Some (p', o) /\
  (if zlen c <=? pos then p' = p /\ o = None
   else made p p' (take (Z.to_nat len) (drop (Z.to_nat pos) c)) o).
Proof.
  intros Hi Hz Hp Hlen Hsum. pose proof Hi as [Hpi [rest Hd] Hl _ _ _]. unfold vox_string_substr. rewrite Hl.
  destruct (Z.leb_spec (zlen c) pos); [by do 2 eexists|]. cbv zeta.
  set (n := if (len =? SIZE_MAX) || _ then _ else _).
  assert (n = Z.min len (zlen c - pos)) as Hn.
  { subst n. destruct (Z.eqb_spec len SIZE_MAX) as [->|Hne]; cbn [orb]; [unfold SIZE_MAX; lia|].
    destruct Hsum as [Hs|]; [|done]. rewrite u64_small by lia. case_one; lia. }
  destruct (from_data_ok p (drop (Z.to_nat pos) (data s)) n Hpi) as (p' & o & -> & Hm); [lia| |].
  { rewrite zlen_drop, Hd, zlen_app, zlen_cons. pose proof (zlen_nonneg rest). lia. }
  do 2 eexists. split; [done|]. replace (take (Z.to_nat len) (drop (Z.to_nat pos) c))
    with (take (Z.to_nat n) (drop (Z.to_nat pos) (data s))); [done|].
  rewrite Hd, drop_app_le by (unfold zlen in *; lia).
  rewrite take_app_le by (rewrite length_drop; unfold zlen in *; lia).
  destruct (decide (len <= zlen c - pos)); [by replace n with len by lia|].
  rewrite !take_ge by (rewrite length_drop; unfold zlen in *; lia). done.
Qed.

(** The text of a string. *)
Definition text s : list Z := take (Z.to_nat (length_ s)) (data s).

Lemma text_inv p s c : str_inv p s c -> text s = c.
Proof.
  intros [_ [rest Hd] Hl _ _ _]. unfold text. rewrite Hl, Hd. unfold zlen.
  by rewrite Nat2Z.id, take_app_length.
Qed.

(** One call with permitted arguments. *)
Definition call (a b : P * vox_string) : Prop :=
  exists op r, op_args_ok (text a.2) op /\ string_exec junk a.1 a.2 op = Some (b, r).

Lemma calls_inv p s c b : str_inv p s c -> rtc call (p, s) b ->
  str_inv b.1 b.2 (text b.2) /\ others b.1 b.2 = others p s.
Proof.
  intros Hi Hr. remember (p, s) as a eqn:Ea. revert p s c Ea Hi.
  induction Hr as [a|a b d (op & r & Ha & Hx) _ IH]; intros p s c -> Hi; cbn [fst snd] in *.
  - by rewrite (text_inv p s c Hi).
  - rewrite (text_inv p s c Hi) in Ha. destruct (str_op_ok p s c op Hi Ha) as (p' & s' & r' & c' & Hx' & Hk & _).
    rewrite Hx in Hx'. injection Hx' as -> _. destruct Hk as (Hi' & Ho & _).
    destruct (IH p' s' c' eq_refl Hi') as [? ?]. split; [done|congruence].
Qed.

(** ** Several strings in one pool *)

Definition apart (s1 s2 : vox_string) : Prop :=
  (self s1 <> self s2 /\ self s1 <> data_at s2) /\ (data_at s1 <> self s2 /\ data_at s1 <> data_at s2).

Lemma apart_sym s1 s2 : apart s1 s2 -> apart s2 s1.
Proof. unfold apart. intros; destruct_and?; split_and!; congruence. Qed.

(** A string keeps its blocks when everything but another object's blocks is kept. *)
Lemma inv_framed p p' s c a b a' b' :
  str_inv p s c -> mp_inv p' -> frame p' a' b' = frame p a b ->
  self s <> a -> self s <> b -> data_at s <> a -> data_at s <> b ->
  str_inv p' s c /\ self s <> a' /\ self s <> b' /\ data_at s <> a' /\ data_at s <> b'.
Proof.
  intros [Hp Hd Hl Hc Hm ([n Hat] & [m Hself] & Hne)] Hp' Hf H1 H2 H3 H4.
  assert (frame p a b !! data_at s = Some n) as Hx by (by apply frame_lookup).
  assert (frame p a b !! self s = Some m) as Hy by (by apply frame_lookup).
  rewrite <-Hf in Hx, Hy. apply frame_lookup in Hx as (? & ? & Hx), Hy as (? & ? & Hy).
  split; [|done]. constructor; [done|done|done|done|done|]. by split_and!; [eexists|eexists|].
Qed.

Lemma keep_other p s1 c1 p' s1' c1' s2 c2 :
  str_keep p s1 p' s1' c1' -> str_inv p s2 c2 -> apart s1 s2 -> str_inv p s1 c1 ->
  str_inv p' s2 c2 /\ apart s1' s2.
Proof.
  intros (Hi' & Ho & Hs & _) H2 Ha Hi. unfold others in Ho. unfold apart in Ha. destruct_and!.
  destruct (inv_framed p p' s2 c2 _ _ _ _ H2 (si_pool _ _ _ Hi') Ho) as (? & ? & ? & ? & ?); try congruence.
  split; [done|]. unfold apart. split_and!; congruence.
Qed.

Lemma made_other p p' c s s1 c1 :
  made p p' c (Some s) -> str_inv p s1 c1 -> str_inv p' s1 c1 /\ apart s1 s.
Proof.
  intros [Hi Ho] [Hp Hd Hl Hc Hm ([n Hat] & [m Hself] & Hne)].
  rewrite <-Ho in Hat, Hself. apply frame_lookup in Hat as (? & ? & Hat), Hself as (? & ? & Hself).
  split; [|by split_and!]. constructor; [apply Hi|done|done|done|done|].
  by split_and!; [eexists|eexists|].
Qed.

(** Allocating or giving back a block that is no part of it. *)
Lemma took_other p p' bs s c : took p p' bs -> str_inv p s c ->
  str_inv p' s c /\ (forall b, b ∈ bs -> b <> self s /\ b <> data_at s).
Proof.
  intros [Hp' _ _ Hfr Hr] [Hp Hd Hl Hc Hm ([n Hat] & [m Hself] & Hne)].
  assert (forall b k, mp_live p !! b = Some k -> mp_live p' !! b = Some k) as Hup.
  { intros b k Hb. rewrite <-Hr, lookup_foldr_delete in Hb. by case_decide. }
  split.
  - constructor; [done|done|done|done|done|]. split_and!; [eexists; by apply Hup|eexists; by apply Hup|done].
  - intros b Hb. specialize (Hfr b Hb). split; intros ->; congruence.
Qed.

(** Appending a string to itself: [vox_string_append_string(str, str)] reads the old
    block after it has been freed whenever the text has to move. *)
Lemma self_append_freed p s c p' s' :
  str_inv p s c -> 0 < zlen c -> capacity s < 2 * zlen c + 1 ->
  ensure_capacity junk p s (zlen c) = Some (p', s', 0) -> data_at s' <> data_at s ->
  vox_string_append_string junk p s None = None.
Proof.
  intros Hi Hc Hcap He Hm. pose proof Hi as [_ _ Hl _ _ _].
  unfold vox_string_append_string. rewrite Hl, (proj2 (Z.eqb_neq _ _)) by lia. cbv zeta.
  cbn [vox_strview_from_ptr is_null]. unfold vox_string_append_view, vox_strview_empty. cbn [sv_ptr sv_len is_null orb].
  rewrite (proj2 (Z.eqb_neq (zlen c) 0)) by lia. unfold vox_string_append_data. cbn [is_null orb].
  rewrite (proj2 (Z.eqb_neq (zlen c) 0)) by lia. rewrite He. cbn [mbind option_bind negb Z.eqb].
  unfold switch_copy, memcpy_in. rewrite (proj2 (Z.eqb_neq _ _)) by done. cbn [andb]. by destruct (_ <=? 16).
Qed.

(** The length of what [remove] leaves when [pos + len] wraps to [pos - 1]. *)
Lemma remove_to_end p s c pos :
  str_inv p s c -> 1 <= pos < zlen c -> zlen c + 2 <= capacity s ->
  exists s', vox_string_remove s pos SIZE_MAX = Some (s', 0) /\
    str_inv p s' (take (Z.to_nat pos) c ++ drop (Z.to_nat (pos - 1)) c).
Proof.
  intros Hi Hp Hcap. pose proof Hi as [_ [rest Hd] Hl Hc _ _]. pose proof (str_inv_room _ _ _ Hi) as (? & ? & ?).
  unfold vox_string_remove. rewrite Hl, (proj2 (Z.leb_gt _ _)) by lia. cbv zeta.
  assert (u64 (pos + SIZE_MAX) = pos - 1) as ->.
  { unfold u64, SIZE_MAX. replace (pos + (2 ^ 64 - 1)) with (pos - 1 + 1 * 2 ^ 64) by lia.
    rewrite Z.mod_add by lia. apply Z.mod_small. lia. }
  rewrite (proj2 (Z.ltb_ge _ _)) by lia. cbn [Z.eqb]. change (SIZE_MAX =? 0) with false. cbn [negb].
  assert (u64 (pos + SIZE_MAX) = pos - 1) as ->.
  { unfold u64, SIZE_MAX. replace (pos + (2 ^ 64 - 1)) with (pos - 1 + 1 * 2 ^ 64) by lia.
    rewrite Z.mod_add by lia. apply Z.mod_small. lia. }
  rewrite (proj2 (Z.ltb_lt _ _)) by lia.
  assert (u64 (zlen c - pos - SIZE_MAX) = zlen c - (pos - 1)) as ->.
  { unfold u64, SIZE_MAX. replace (zlen c - pos - (2 ^ 64 - 1)) with (zlen c - (pos - 1) + (-1) * 2 ^ 64) by lia.
    rewrite Z.mod_add by lia. apply Z.mod_small. lia. }
  assert (u64 (zlen c - SIZE_MAX) = zlen c + 1) as ->.
  { unfold u64, SIZE_MAX. replace (zlen c - (2 ^ 64 - 1)) with (zlen c + 1 + (-1) * 2 ^ 64) by lia.
    rewrite Z.mod_add by lia. apply Z.mod_small. lia. }
  set (a := take (Z.to_nat (pos - 1)) c). set (b := drop (Z.to_nat (pos - 1)) c).
  assert (zlen a = pos - 1) as Ha by (subst a; rewrite zlen_take; lia).
  assert (zlen b = zlen c - (pos - 1)) as Hb by (subst b; rewrite zlen_drop; lia).
  destruct (lookup_lt_is_Some_2 c (Z.to_nat (pos - 1))) as [x Hx]; [unfold zlen in *; lia|].
  assert (Htk : take (Z.to_nat pos) c = a ++ [x]).
  { replace (Z.to_nat pos) with (S (Z.to_nat (pos - 1))) by lia. by apply take_S_r. }
  destruct (spare_cells p s c 1 Hi) as (mid & y & r & Hd1 & Hmid); [lia..|].
  destruct mid as [|m0 [|]]; try (unfold zlen in Hmid; cbn in Hmid; lia). cbn [app] in Hd1.
  assert (Hbl : arr_blit (data s) pos (data s) (pos - 1) (zlen c - (pos - 1)) = Some ((a ++ [x] ++ b) ++ y :: r)).
  { rewrite arr_blit_ok by (rewrite ?Hc; lia). rewrite <-Hb.
    replace (pos + zlen b) with (zlen (c ++ [m0])) by (rewrite zlen_app; change (zlen [m0]) with 1; lia).
    rewrite Hd1. rewrite take_app_le by (unfold zlen in *; lia). rewrite Htk.
    rewrite (drop_app_le c) by (unfold zlen in *; lia). fold b.
    rewrite take_app_le by (unfold zlen; lia). rewrite (take_ge b) by (unfold zlen; lia).
    rewrite (app_assoc c [m0] (y :: r) : c ++ m0 :: y :: r = _).
    unfold zlen at 1. rewrite Nat2Z.id, drop_app_length. by rewrite <-!app_assoc. }
  rewrite Hbl. cbn [mbind option_bind].
  destruct (terminate p s p s c (a ++ [x] ++ b) y r (zlen c + 1)) as (l & -> & Hk & _);
    [by apply str_keep_refl| |rewrite !zlen_app; change (zlen [x]) with 1; lia|lia|].
  { apply arr_blit_len in Hbl. lia. }
  cbn [mbind option_bind]. eexists. split; [done|]. by rewrite Htk, <-app_assoc.
Qed.

(** C21: Each operation of vox_string.c, started on a well-formed string with text from outside
    it and with sizes within the bounds that follow, never accesses memory out of bounds, keeps
    the string well formed (text, terminator, capacity) and every other block of the pool as it
    was, and returns and leaves exactly what the specification on byte lists says: assignment,
    insertion, removal, replacement of the leftmost occurrences from left to right, trimming,
    case mapping, resizing. The only other outcome is a call that had to allocate and was
    refused: it returns -1 and leaves the text as it was, or, for vox_string_replace, with the
    first occurrences already replaced. The bounds: a text argument or a new size of at most
    2^62 bytes; in remove and replace_at, position plus length below 2^64; replace only on
    texts below 2^31, formatted output below 2^31. Beyond them the code is wrong:
    string_wrapped_sizes shows it for remove and resize. *)
Theorem string_refines_bytes p s c op :
  str_inv p s c -> op_args_ok c op ->
  exists p' s' r c', string_exec junk p s op = Some (p', s', r) /\ str_keep p s p' s' c' /\
    ((c', r) = string_spec c op \/
     (may_allocate op = true /\ r = -1 /\ refused_text c op c' /\ refused p' c')).
Proof. apply str_op_ok. Qed.

(** A string's life is safe and leaks nothing: from creation through any
    sequence of calls, each next call with permitted arguments succeeds in bounds, and
    destruction leaves the pool with the live blocks it had before the creation. *)
Theorem string_lifecycle p config p1 s b :
  mp_inv p -> (forall n, config = Some n -> 0 <= n < 2 ^ 64) ->
  vox_string_create_with_config junk p config = Some (p1, Some s) ->
  rtc call (p1, s) b ->
  (forall op, op_args_ok (text b.2) op -> is_Some (string_exec junk b.1 b.2 op)) /\
  mp_inv (vox_string_destroy b.1 b.2) /\ mp_live (vox_string_destroy b.1 b.2) = mp_live p.
Proof.
  intros Hp Hcfg Hc Hr. destruct (str_create_ok p config Hp Hcfg) as (p1' & o & Hc' & Hm).
  rewrite Hc in Hc'. injection Hc' as <- <-. destruct Hm as [Hi Ho].
  destruct (calls_inv p1 s [] b Hi Hr) as [Hi' Ho']. split.
  - intros op Ha. destruct (str_op_ok _ _ _ op Hi' Ha) as (p' & s' & r & c' & -> & _). done.
  - destruct (str_destroy_ok _ _ _ Hi') as [? Hl]. split; [done|]. by rewrite Hl, Ho', Ho.
Qed.

(** C22: Searching, for a substring of at most 2^62 bytes. [vox_string_find] returns the least
    position from [start] on at which the substring occurs, or [SIZE_MAX] when every occurrence
    (if there is any) lies behind a 0 byte of the text or [start] is not inside it.
    [vox_string_rfind], given a [start] that is [SIZE_MAX] or not greater than the length (a
    greater one is read from out of bounds: string_wrapped_sizes), returns the greatest
    position at which a non-empty substring occurs that ends at [start] or before, or
    [SIZE_MAX] when there is none. *)
Theorem string_search p s c l start :
  str_inv p s c -> str_ok l -> 0 <= start ->
  (exists r, vox_string_find s (Mem l) start = Some r /\
     ((r = SIZE_MAX /\ (zlen c <= start \/ forall i, start <= i -> occurs (cstr_of l) c i ->
                          exists k, start <= k < i /\ c.[k] = Some 0)) \/
      (start <= r < zlen c /\ occurs (cstr_of l) c r /\ forall i, start <= i < r -> ~ occurs (cstr_of l) c i))) /\
  (cstr_of l <> [] -> start = SIZE_MAX \/ start <= zlen c ->
   exists r, vox_string_rfind s (Mem l) start = Some r /\
   let fits i := occurs (cstr_of l) c i /\ (start = SIZE_MAX \/ i + zlen (cstr_of l) <= start + 1) in
     ((r = SIZE_MAX /\ forall i, ~ fits i) \/ (r <> SIZE_MAX /\ fits r /\ forall i, r < i -> ~ fits i))).
Proof.
  intros Hi Hl Hst. pose proof (str_inv_room _ _ _ Hi) as (? & ? & ?).
  destruct (str_ok_cstr l Hl) as (Hfs & Hnn & _ & Hfit & Htk & _). set (t := cstr_of l) in *.
  pose proof (zlen_nonneg t). split.
  - rewrite (find_ok p s c) by done. fold t. eexists. split; [done|].
    destruct (Z.leb_spec (zlen c) start) as [Hge|Hlt]; [left; split; [done|by left]|].
    destruct (find_in t (drop (Z.to_nat start) c) 0) as [i|] eqn:Ef; [right|left].
    + destruct (find_in_range _ _ _ Ef) as (Hi0 & Hir & Ht). rewrite zlen_drop in Hir.
      assert (occurs t c (start + i)) as Ho by (apply occurs_drop; [lia..|by split]).
      assert (t = [] -> i = 0) as Hnil.
      { intros E. destruct (decide (i = 0)) as [|Hne]; [done|exfalso].
        apply (find_in_least t _ i 0 Ef); [lia|]. rewrite E. split; [lia|done]. }
      split_and!; [lia| |done|].
      * destruct t as [|x t']; [rewrite Hnil by done; lia|]. pose proof (occurs_range _ _ _ Ho ltac:(done)).
        rewrite zlen_cons in *. pose proof (zlen_nonneg t'). lia.
      * intros j Hj Hoj. replace j with (start + (j - start)) in Hoj by lia.
        apply occurs_drop in Hoj; [|lia..]. by apply (find_in_least t _ i (j - start) Ef); [lia|].
    + split; [done|]. right. intros j Hj Hoj. replace j with (start + (j - start)) in Hoj by lia.
      apply occurs_drop in Hoj; [|lia..]. destruct (find_in_none t _ _ Ef Hoj) as (k & Hk & Hg).
      exists (start + k). split; [lia|]. rewrite <-text_drop_get by lia. done.
  - intros Hne Hs. unfold vox_string_rfind. cbn [is_null cells_at]. rewrite Hfs. cbn [mbind option_bind].
    pose proof Hi as [_ [rest Hd] Hlen _ _ _]. rewrite Hlen.
    assert (0 < zlen t) as Ht0. { destruct t; [done|]. rewrite zlen_cons. pose proof (zlen_nonneg t). lia. }
    rewrite (proj2 (Z.eqb_neq (zlen t) 0)) by lia. cbn [orb].
    assert (Hfits : forall i, occurs t c i -> 0 <= i /\ i + zlen t <= zlen c).
    { intros i Ho. split; [apply Ho|]. by apply occurs_range. }
    destruct (Z.ltb_spec (zlen c) (zlen t)) as [Hsh|Hle].
    { eexists. split; [done|]. left. split; [done|]. intros i [Ho _]. apply Hfits in Ho. lia. }
    set (n := if start =? SIZE_MAX then _ else _).
    assert (n = if decide (start = SIZE_MAX) then zlen c else start + 1) as Hn.
    { subst n. destruct (Z.eqb_spec start SIZE_MAX); case_decide; try done. apply u64_small. lia. }
    assert (n <= zlen c + 1) as Hnb by (rewrite Hn; case_decide; lia).
    assert (forall i, (start = SIZE_MAX \/ i + zlen t <= start + 1) -> occurs t c i -> i + zlen t <= n) as Hin.
    { intros i Hor Ho. apply Hfits in Ho. rewrite Hn. case_decide; [lia|]. destruct Hor; [done|lia]. }
    destruct (Z.ltb_spec n (zlen t)) as [Hsh|Hge].
    { eexists. split; [done|]. left. split; [done|]. intros i [Ho Hor]. pose proof (Hin i Hor Ho).
      apply Hfits in Ho. lia. }
    rewrite Hd. destruct (rfind_loop_ok c rest t l (Z.to_nat (n - zlen t + 1)) Hnn Hne Htk Hfit)
      as (r & -> & Hr); [lia|unfold SIZE_MAX; lia|]. eexists. split; [done|].
    destruct Hr as [[-> Hr]|(Hr0 & Hr1 & Hr2 & Hr3)]; [left|right].
    + split; [done|]. intros i [Ho Hor]. pose proof (Hin i Hor Ho). apply (Hr i); [|done]. apply Hfits in Ho. lia.
    + split_and!; [done|done| |].
      * destruct (decide (start = SIZE_MAX)); [by left|right]. lia.
      * intros i Hi' [Ho Hor]. pose proof (Hin i Hor Ho). apply (Hr3 i); [|done]. lia.
Qed.

(** Three sums of vox_string.c wrap or are not checked. [vox_string_remove(pos,
    SIZE_MAX)], "remove to the end" in the idiom of [vox_string_substr], succeeds from
    any position after the first by making the text one byte longer, with the byte
    before [pos] doubled; [vox_string_resize(SIZE_MAX)] writes spaces past its block;
    [vox_string_rfind] with a start behind the block reads past it. *)
Theorem string_wrapped_sizes p s c :
  str_inv p s c ->
  (forall pos, 1 <= pos < zlen c -> zlen c + 2 <= capacity s ->
     exists s', vox_string_remove s pos SIZE_MAX = Some (s', 0) /\
       str_inv p s' (take (Z.to_nat pos) c ++ drop (Z.to_nat (pos - 1)) c)) /\
  vox_string_resize junk p s SIZE_MAX = None /\
  (forall l start, str_ok l -> 0 < zlen (cstr_of l) <= zlen c -> capacity s <= start < SIZE_MAX ->
     vox_string_rfind s (Mem l) start = None).
Proof.
  intros Hi. pose proof Hi as [_ [rest Hd] Hl Hc _ _]. pose proof (str_inv_room _ _ _ Hi) as (? & ? & ?).
  split_and!; [intros pos ??; by apply remove_to_end| |].
  - unfold vox_string_resize. rewrite Hl, (proj2 (Z.eqb_neq _ _)) by (unfold SIZE_MAX; lia).
    rewrite (proj2 (Z.ltb_ge _ _)) by (unfold SIZE_MAX; lia). unfold ensure_capacity. rewrite Hl.
    replace (zlen c + (SIZE_MAX - zlen c) + 1) with (0 + 1 * 2 ^ 64) by (unfold SIZE_MAX; lia).
    unfold u64 at 1. rewrite Z.mod_add by lia. change (0 mod 2 ^ 64) with 0. rewrite (proj2 (Z.leb_le _ _)) by lia.
    cbn [mbind option_bind negb Z.eqb]. unfold arr_fill, arr_blit. rewrite decide_False; [done|].
    rewrite Hl, Hc. unfold SIZE_MAX. lia.
  - intros l start Hs Ht Hst. destruct (str_ok_cstr l Hs) as (Hfs & _). unfold vox_string_rfind.
    cbn [is_null cells_at]. rewrite Hfs. cbn [mbind option_bind]. rewrite Hl.
    rewrite (proj2 (Z.eqb_neq _ _)), (proj2 (Z.ltb_ge _ _)), (proj2 (Z.eqb_neq _ _)) by lia. cbn [orb].
    rewrite u64_small by (unfold SIZE_MAX in *; lia). rewrite (proj2 (Z.ltb_ge _ _)) by lia.
    destruct (Z.to_nat (start + 1 - zlen (cstr_of l) + 1)) as [|n] eqn:En; [lia|]. cbn [rfind_loop].
    unfold arr_slice. rewrite decide_False; [done|]. lia.
Qed.
End refinement.

(** ** Concrete runs *)

(** "banana", a terminator and "na". *)
Definition banana : list Z := [98; 97; 110; 97; 110; 97; 0].
Definition na : list Z := [110; 97; 0].
Definition tt_ : list Z := [116; 116; 116; 0].

Definition no_string : vox_string := {| self := 0; data_at := 0; data := []; length_ := 0; capacity := 0 |}.
Definition ex_made : option (bump * option vox_string) := vox_string_from_data 0 (bump_new 4096) (Some banana) 6.
Definition ex_pool : bump := default (bump_new 4096) (fst <$> ex_made).
Definition ex_str : vox_string := default no_string (r ← ex_made; r.2).

Lemma ex_str_inv : str_inv ex_pool ex_str [98; 97; 110; 97; 110; 97].
Proof.
  destruct (from_data_ok 0 (bump_new 4096) banana 6 (bump_new_inv 4096 ltac:(lia)) ltac:(lia) ltac:(done))
    as (p' & o & E & Hm). unfold ex_pool, ex_str, ex_made. rewrite E. cbn [fmap option_fmap option_map fst snd default mbind option_bind id].
  revert E. vm_compute (vox_string_from_data 0 _ _ _). intros [= <- <-]. exact (proj1 Hm).
Qed.

Lemma str_ok_na : str_ok na.
Proof. exists 2. split; [reflexivity|lia]. Qed.
Lemma str_ok_tt : str_ok tt_.
Proof. exists 3. split; [reflexivity|lia]. Qed.

(** Each "na" becomes "ttt"; the greatest and the least position of "na". *)
Example replace_banana :
  ('(_, s, r) ← string_exec 0 ex_pool ex_str (Replace (Some na) (Some tt_)); Some (text s, r))
    = Some ([98; 97; 116; 116; 116; 116; 116; 116], 2) /\
  vox_string_find ex_str (Mem na) 0 = Some 2 /\ vox_string_rfind ex_str (Mem na) SIZE_MAX = Some 4.
Proof. split_and!; reflexivity. Qed.

(** Neither an empty assignment nor an empty append is accepted. *)
Example empty_refused :
  snd <$> string_exec 0 ex_pool ex_str (Set_ (Mem [0])) = Some (-1) /\
  snd <$> string_exec 0 ex_pool ex_str (Append (Mem [0])) = Some (-1).
Proof. split; reflexivity. Qed.

Lemma replace_args : op_args_ok [98; 97; 110; 97; 110; 97] (Replace (Some na) (Some tt_)).
Proof. split; [done|]. split; intros l [= <-]; [exact str_ok_na|exact str_ok_tt]. Qed.

Lemma string_refines_bytes_witness :
  str_inv ex_pool ex_str [98; 97; 110; 97; 110; 97] /\
  op_args_ok [98; 97; 110; 97; 110; 97] (Replace (Some na) (Some tt_)) /\
  exists p' s' r c', string_exec 0 ex_pool ex_str (Replace (Some na) (Some tt_)) = Some (p', s', r) /\
    str_keep ex_pool ex_str p' s' c' /\ c' = [98; 97; 116; 116; 116; 116; 116; 116].
Proof.
  split; [exact ex_str_inv|]. split; [exact replace_args|].
  destruct (string_refines_bytes 0 ex_pool ex_str _ _ ex_str_inv replace_args) as (p' & s' & r & c' & E & Hk & _).
  exists p', s', r, c'. split; [exact E|]. split; [exact Hk|]. rewrite <-(text_inv _ _ _ (proj1 Hk)).
  revert E. vm_compute. by intros [= _ <- _].
Defined.

Definition ex_created : option (bump * option vox_string) := vox_string_create 0 (bump_new 4096).
Definition ex_pool0 : bump := default (bump_new 4096) (fst <$> ex_created).
Definition ex_str0 : vox_string := default no_string (r ← ex_created; r.2).
Definition ex_after : bump * vox_string :=
  default (ex_pool0, ex_str0) (fst <$> string_exec 0 ex_pool0 ex_str0 (AppendChar 33)).

Lemma ex_calls : rtc (call 0) (ex_pool0, ex_str0) ex_after.
Proof. apply rtc_once. exists (AppendChar 33), 0. split; [done|]. vm_compute. reflexivity. Qed.

Lemma string_lifecycle_witness :
  mp_inv (bump_new 4096) /\
  mp_live (vox_string_destroy ex_after.1 ex_after.2) = mp_live (bump_new 4096).
Proof.
  split; [exact (bump_new_inv 4096 ltac:(lia))|].
  apply (string_lifecycle 0 (bump_new 4096) None ex_pool0 ex_str0 ex_after (bump_new_inv 4096 ltac:(lia)));
    [done|vm_compute; reflexivity|exact ex_calls].
Defined.

Lemma string_search_witness :
  str_inv ex_pool ex_str [98; 97; 110; 97; 110; 97] /\ str_ok na /\
  exists r, vox_string_find ex_str (Mem na) 3 = Some r /\ r = 4.
Proof.
  split; [exact ex_str_inv|]. split; [exact str_ok_na|].
  destruct (string_search ex_pool ex_str _ na 3 ex_str_inv str_ok_na ltac:(lia)) as [(r & E & _) _].
  exists r. split; [exact E|]. revert E. vm_compute. by intros [= <-].
Defined.

Lemma string_wrapped_sizes_witness :
  str_inv ex_pool ex_str [98; 97; 110; 97; 110; 97] /\ vox_string_resize 0 ex_pool ex_str SIZE_MAX = None.
Proof.
  split; [exact ex_str_inv|]. exact (proj1 (proj2 (string_wrapped_sizes 0 ex_pool ex_str _ ex_str_inv))).
Defined.
End VString.
