(* ===== verification/Vector.v ===== *)
(** * vox_vector.c: the growable array

    The operations of src/vox_vector.c on the struct [vox_vector], its abstract
    specification as operations on a list, and the refinement between the two. *)

From S2P Require Import Prelude Alloc.

Module Vector.

Definition VOX_VECTOR_DEFAULT_INITIAL_CAPACITY : Z := 16.
(** [sizeof(vox_vector_t)] and [sizeof(void * )]. *)
Definition sizeof_vector : Z := 40.
Definition sizeof_ptr : Z := 8.

(** src/vox_vector.c:15-21: struct vox_vector
    [self] is the address of the struct, [elements_at] the value of the pointer
    [elements] and [elements] the cells of the block it points to; [elem_free]
    says whether a release callback is configured. *)
Record vox_vector := {
  self : Z;
  elements_at : Z;
  elements : list Z;
  size : Z;
  capacity : Z;
  elem_free : bool;
}.

Definition with_elements (v : vox_vector) (l : list Z) : vox_vector :=
  {| self := self v; elements_at := elements_at v; elements := l; size := size v;
     capacity := capacity v; elem_free := elem_free v |}.

Definition with_size (v : vox_vector) (n : Z) : vox_vector :=
  {| self := self v; elements_at := elements_at v; elements := elements v; size := n;
     capacity := capacity v; elem_free := elem_free v |}.

Definition with_array (v : vox_vector) (a : Z) (l : list Z) (c : Z) : vox_vector :=
  {| self := self v; elements_at := a; elements := l; size := size v;
     capacity := c; elem_free := elem_free v |}.

Section operations.
Context {P : Type} `{MPool P}.
(** The content of uninitialised memory. *)
Context (junk : Z).
Implicit Types (p : P) (vec : vox_vector).

(** src/vox_vector.c: expand_vector *)
Definition expand_vector p vec : option (P * vox_vector * Z) :=
  let new_capacity := u64 (capacity vec * 2) in
  if new_capacity <? capacity vec then Some (p, vec, -1) else
  let '(p, a, new_elements) := alloc_cells junk p new_capacity sizeof_ptr in
  if a =? NULL then Some (p, vec, -1) else
  new_elements ← arr_blit new_elements 0 (elements vec) 0 (size vec);
  let p := mp_free p (elements_at vec) in
  Some (p, with_array vec a new_elements new_capacity, 0).

(** The configuration: initial capacity and whether [elem_free] is set. *)
Record vox_vector_config := { initial_capacity : Z; config_elem_free : bool }.

(** src/vox_vector.c: vox_vector_create_with_config *)
Definition vox_vector_create_with_config p (config : option vox_vector_config)
  : P * option vox_vector :=
  let '(p, vec_at) := mp_alloc p sizeof_vector in
  if vec_at =? NULL then (p, None) else
  let cap :=
    match config with
    | Some c => if 0 <? initial_capacity c then initial_capacity c
                else VOX_VECTOR_DEFAULT_INITIAL_CAPACITY
    | None => VOX_VECTOR_DEFAULT_INITIAL_CAPACITY
    end in
  let ef := match config with Some c => config_elem_free c | None => false end in
  let '(p, a, cells) := alloc_cells junk p cap sizeof_ptr in
  if a =? NULL then (mp_free p vec_at, None) else
  (p, Some {| self := vec_at; elements_at := a; elements := cells; size := 0;
              capacity := cap; elem_free := ef |}).

(** src/vox_vector.c: vox_vector_create *)
Definition vox_vector_create p : P * option vox_vector :=
  vox_vector_create_with_config p None.

(** src/vox_vector.c: vox_vector_push *)
Definition vox_vector_push p vec (elem : Z) : option (P * vox_vector * Z) :=
  if elem =? NULL then Some (p, vec, -1) else
  '(p, vec, rc) ← (if capacity vec <=? size vec then expand_vector p vec
                   else Some (p, vec, 0));
  if negb (rc =? 0) then Some (p, vec, -1) else
  cells ← (elements vec).[size vec <- elem];
  Some (p, with_size (with_elements vec cells) (size vec + 1), 0).

(** src/vox_vector.c: vox_vector_pop *)
Definition vox_vector_pop vec : option (vox_vector * Z) :=
  if size vec =? 0 then Some (vec, NULL) else
  let vec := with_size vec (size vec - 1) in
  e ← (elements vec).[size vec];
  Some (vec, e).

(** src/vox_vector.c: vox_vector_insert *)
Definition vox_vector_insert p vec (index elem : Z) : option (P * vox_vector * Z) :=
  if elem =? NULL then Some (p, vec, -1) else
  if size vec <? index then Some (p, vec, -1) else
  '(p, vec, rc) ← (if capacity vec <=? size vec then expand_vector p vec
                   else Some (p, vec, 0));
  if negb (rc =? 0) then Some (p, vec, -1) else
  cells ← (if index <? size vec
           then arr_blit (elements vec) (index + 1) (elements vec) index (size vec - index)
           else Some (elements vec));
  cells ← cells.[index <- elem];
  Some (p, with_size (with_elements vec cells) (size vec + 1), 0).

(** src/vox_vector.c: vox_vector_remove *)
Definition vox_vector_remove vec (index : Z) : option (vox_vector * Z) :=
  if size vec <=? index then Some (vec, NULL) else
  elem ← (elements vec).[index];
  cells ← (if index <? size vec - 1
           then arr_blit (elements vec) index (elements vec) (index + 1) (size vec - index - 1)
           else Some (elements vec));
  Some (with_size (with_elements vec cells) (size vec - 1), elem).

(** src/vox_vector.c: vox_vector_get *)
Definition vox_vector_get vec (index : Z) : option Z :=
  if size vec <=? index then Some NULL else (elements vec).[index].

(** The list of the arguments of the calls of [elem_free] is an output.

    src/vox_vector.c: vox_vector_set *)
Definition vox_vector_set vec (index elem : Z) : option (vox_vector * list Z * Z) :=
  if size vec <=? index then Some (vec, [], -1) else
  old ← (elements vec).[index];
  let freed := if elem_free vec && negb (old =? NULL) then [old] else [] in
  cells ← (elements vec).[index <- elem];
  Some (with_elements vec cells, freed, 0).

(** src/vox_vector.c: vox_vector_size *)
Definition vox_vector_size vec : Z := size vec.
(** src/vox_vector.c: vox_vector_capacity *)
Definition vox_vector_capacity vec : Z := capacity vec.
(** src/vox_vector.c: vox_vector_empty *)
Definition vox_vector_empty vec : bool := size vec =? 0.

(** The loop [for (i = from; i < size; i++) if (elements[i]) elem_free(elements[i])]
    over [n] elements from [i]. *)
Fixpoint free_elements (l : list Z) (i : Z) (n : nat) : option (list Z) :=
  match n with
  | O => Some []
  | S n =>
      e ← l.[i];
      rest ← free_elements l (i + 1) n;
      Some (if e =? NULL then rest else e :: rest)
  end.

(** src/vox_vector.c: vox_vector_clear *)
Definition vox_vector_clear vec : option (vox_vector * list Z) :=
  freed ← (if elem_free vec then free_elements (elements vec) 0 (Z.to_nat (size vec))
           else Some []);
  Some (with_size vec 0, freed).

(** The doubling loop of [vox_vector_resize]; [Some None] is the overflow exit. *)
Fixpoint grow_capacity (fuel : nat) (cap new_capacity new_size : Z) : option (option Z) :=
  if new_capacity <? new_size then
    match fuel with
    | O => None
    | S fuel =>
        let new_capacity := u64 (new_capacity * 2) in
        if new_capacity <? cap then Some None
        else grow_capacity fuel cap new_capacity new_size
    end
  else Some (Some new_capacity).

(** src/vox_vector.c: vox_vector_resize *)
Definition vox_vector_resize p vec (new_size : Z) : option (P * vox_vector * list Z * Z) :=
  if new_size <? size vec then
    freed ← (if elem_free vec
             then free_elements (elements vec) new_size (Z.to_nat (size vec - new_size))
             else Some []);
    Some (p, with_size vec new_size, freed, 0)
  else if capacity vec <? new_size then
    grown ← grow_capacity 64 (capacity vec) (capacity vec) new_size;
    match grown with
    | None => Some (p, vec, [], -1)
    | Some new_capacity =>
        let '(p, a, new_elements) := alloc_cells junk p new_capacity sizeof_ptr in
        if a =? NULL then Some (p, vec, [], -1) else
        new_elements ← arr_blit new_elements 0 (elements vec) 0 (size vec);
        new_elements ← arr_fill new_elements (size vec) (new_capacity - size vec) NULL;
        let p := mp_free p (elements_at vec) in
        Some (p, with_size (with_array vec a new_elements new_capacity) new_size, [], 0)
    end
  else
    cells ← arr_fill (elements vec) (size vec) (new_size - size vec) NULL;
    Some (p, with_size (with_elements vec cells) new_size, [], 0).

(** src/vox_vector.c: vox_vector_reserve *)
Definition vox_vector_reserve p vec (cap : Z) : option (P * vox_vector * Z) :=
  if cap <=? capacity vec then Some (p, vec, 0) else
  let '(p, a, new_elements) := alloc_cells junk p cap sizeof_ptr in
  if a =? NULL then Some (p, vec, -1) else
  new_elements ← arr_blit new_elements 0 (elements vec) 0 (size vec);
  let p := mp_free p (elements_at vec) in
  Some (p, with_array vec a new_elements cap, 0).

(** The visited elements with their indices, in order; the count returned.

    src/vox_vector.c: vox_vector_foreach *)
Definition vox_vector_foreach vec : option (list (Z * Z) * Z) :=
  (fix loop (i : Z) (n : nat) (count : Z) :=
     match n with
     | O => Some ([], count)
     | S n =>
         e ← (elements vec).[i];
         '(visited, c) ← loop (i + 1) n (count + 1);
         Some ((e, i) :: visited, c)
     end) 0 (Z.to_nat (size vec)) 0.

(** src/vox_vector.c: vox_vector_destroy *)
Definition vox_vector_destroy p vec : option (P * list Z) :=
  freed ← (if elem_free vec then free_elements (elements vec) 0 (Z.to_nat (size vec))
           else Some []);
  let p := mp_free p (elements_at vec) in
  Some (mp_free p (self vec), freed).
End operations.

(** ** One call, as data *)

Inductive vector_op :=
| Push (elem : Z) | Pop | Insert (index elem : Z) | Remove (index : Z)
| Get (index : Z) | Set_ (index elem : Z) | Resize (new_size : Z)
| Reserve (cap : Z) | Clear | Size | Empty.

Section run.
Context {P : Type} `{MPool P} (junk : Z).

(** The state, the value returned (0 for [void]) and the [elem_free] calls. *)
Definition vector_exec (p : P) (vec : vox_vector) (op : vector_op)
  : option (P * vox_vector * Z * list Z) :=
  match op with
  | Push e => '(p, v, r) ← vox_vector_push junk p vec e; Some (p, v, r, [])
  | Pop => '(v, r) ← vox_vector_pop vec; Some (p, v, r, [])
  | Insert i e => '(p, v, r) ← vox_vector_insert junk p vec i e; Some (p, v, r, [])
  | Remove i => '(v, r) ← vox_vector_remove vec i; Some (p, v, r, [])
  | Get i => r ← vox_vector_get vec i; Some (p, vec, r, [])
  | Set_ i e => '(v, fr, r) ← vox_vector_set vec i e; Some (p, v, r, fr)
  | Resize n => '(p, v, fr, r) ← vox_vector_resize junk p vec n; Some (p, v, r, fr)
  | Reserve c => '(p, v, r) ← vox_vector_reserve junk p vec c; Some (p, v, r, [])
  | Clear => '(v, fr) ← vox_vector_clear vec; Some (p, v, 0, fr)
  | Size => Some (p, vec, vox_vector_size vec, [])
  | Empty => Some (p, vec, Z.b2z (vox_vector_empty vec), [])
  end.
End run.

(** ** The specification: operations on a list *)

Definition nonnull (l : list Z) : list Z := filter (fun e => e <> NULL) l.

(** New content, value returned, elements released. *)
Definition vector_spec (ef : bool) (l : list Z) (op : vector_op) : list Z * Z * list Z :=
  match op with
  | Push e => if e =? NULL then (l, -1, []) else (l ++ [e], 0, [])
  | Pop => match last l with Some e => (take (length l - 1) l, e, []) | None => (l, NULL, []) end
  | Insert i e =>
      if (e =? NULL) || (zlen l <? i) then (l, -1, [])
      else (take (Z.to_nat i) l ++ e :: drop (Z.to_nat i) l, 0, [])
  | Remove i => match l.[i] with
                | Some e => (delete (Z.to_nat i) l, e, [])
                | None => (l, NULL, [])
                end
  | Get i => (l, default NULL l.[i], [])
  | Set_ i e => match l.[i] with
                | Some old => (<[Z.to_nat i := e]> l, 0, if ef then nonnull [old] else [])
                | None => (l, -1, [])
                end
  | Resize n => (take (Z.to_nat n) (l ++ replicate (Z.to_nat n - length l) NULL), 0,
                 if ef then nonnull (drop (Z.to_nat n) l) else [])
  | Reserve _ => (l, 0, [])
  | Clear => ([], 0, if ef then nonnull l else [])
  | Size => (l, zlen l, [])
  | Empty => (l, Z.b2z (zlen l =? 0), [])
  end.

(** The calls that may have to allocate, and the arguments the refinement covers:
    indices are [size_t] values, and the byte count of a requested array does not
    wrap. *)
Definition may_allocate (op : vector_op) : bool :=
  match op with Push _ | Insert _ _ | Resize _ | Reserve _ => true | _ => false end.

Definition op_args_ok (op : vector_op) : Prop :=
  match op with
  | Insert i _ | Remove i | Get i | Set_ i _ => 0 <= i < 2 ^ 64
  | Resize n | Reserve n => 0 <= n <= 2 ^ 60
  | _ => True
  end.

Section refinement.
Context {P : Type} `{MPoolLaws P} (junk : Z).
Implicit Types (p : P) (vec : vox_vector).

Definition contents vec : list Z := take (Z.to_nat (size vec)) (elements vec).

(** The invariant: the array block has [capacity] cells of which [size] are in
    use, and both blocks of the vector are live in the pool. *)
Record vec_inv p vec : Prop := {
  vi_pool : mp_inv p;
  vi_size : 0 <= size vec <= capacity vec;
  vi_cap : 0 < capacity vec /\ capacity vec * sizeof_ptr <= PTRDIFF_MAX;
  vi_cells : zlen (elements vec) = capacity vec;
  vi_owned : owned p (self vec) (elements_at vec);
}.

(** The blocks of the pool that do not belong to the vector. *)
Definition others p vec : gmap Z Z := frame p (self vec) (elements_at vec).

(** [vec'] in [p'] is the same vector, still well formed, and no other block of
    the pool changed. *)
Definition vec_keep p vec p' vec' : Prop :=
  vec_inv p' vec' /\ others p' vec' = others p vec /\
  elem_free vec' = elem_free vec /\ self vec' = self vec.

Lemma vec_keep_refl p vec : vec_inv p vec -> vec_keep p vec p vec.
Proof. intros Hi. by repeat split; try apply Hi. Qed.

Lemma contents_length p vec : vec_inv p vec -> length (contents vec) = Z.to_nat (size vec).
Proof.
  intros [_ ? _ Hc _]. unfold contents. rewrite length_take.
  unfold zlen in Hc. lia.
Qed.

Lemma contents_zlen p vec : vec_inv p vec -> zlen (contents vec) = size vec.
Proof. intros Hi. unfold zlen. rewrite (contents_length p vec Hi). destruct Hi. lia. Qed.

Lemma contents_get p vec i :
  vec_inv p vec -> 0 <= i < size vec -> (contents vec).[i] = (elements vec).[i].
Proof.
  intros Hi Hr. rewrite !arr_get_lookup by lia. unfold contents.
  apply lookup_take_lt. lia.
Qed.

(** A vector whose cells and size changed, in the same blocks. *)
Lemma vec_inv_cells p vec l n :
  vec_inv p vec -> zlen l = capacity vec -> 0 <= n <= capacity vec ->
  vec_keep p vec p (with_size (with_elements vec l) n).
Proof. intros [] Hl Hn. by split_and!; [constructor| | |]. Qed.

Lemma vec_inv_size p vec n :
  vec_inv p vec -> 0 <= n <= capacity vec -> vec_keep p vec p (with_size vec n).
Proof. intros [] Hn. by split_and!; [constructor| | |]. Qed.

(** Moving the array to a new block of [c] cells. *)
Lemma realloc_spec p vec c p1 a cells :
  vec_inv p vec -> 0 < c -> size vec <= c -> c * sizeof_ptr < 2 ^ 64 ->
  alloc_cells junk p c sizeof_ptr = (p1, a, cells) ->
  (a = NULL /\ vec_keep p vec p1 vec /\ mp_alloc p (c * sizeof_ptr) = (p1, NULL)) \/
  (a <> NULL /\ exists l, arr_blit cells 0 (elements vec) 0 (size vec) = Some l /\
  vec_keep p vec (mp_free p1 (elements_at vec)) (with_array vec a l c) /\
  contents (with_array vec a l c) = contents vec).
Proof.
  intros Hi Hc Hs Hb Ha. pose proof Hi as [Hp Hsz Hcap Hlen Hown].
  destruct (grow_cells junk p p1 (self vec) (elements_at vec) c sizeof_ptr a cells Hp Hown)
    as [(-> & Hp1 & Hl & Hn)|(Hnn & Hlc & Hmax & Hp1 & Hown' & Hf)];
    [unfold sizeof_ptr in *; lia..|done| |].
  - left. destruct (owned_live p p1 _ _ Hl Hown) as [Ho Hfr].
    split_and!; [done| |done]. by split_and!; [constructor| | |].
  - right. split; [done|]. eexists. split; [apply arr_blit_ok; lia|].
    split; [split_and!; [constructor; cbn; try done|done..]|].
    + lia.
    + zlia.
    + unfold contents; cbn. rewrite Z.add_0_l, drop_0.
      change (Z.to_nat 0) with 0%nat. rewrite take_0, app_nil_l.
      rewrite take_app_le; [by rewrite take_take, Nat.min_id|].
      rewrite length_take. unfold zlen in *. lia.
Qed.

(** [expand_vector] makes room for one more element or changes nothing. *)
Lemma expand_vector_spec p vec :
  vec_inv p vec -> exists p' vec' rc,
  expand_vector junk p vec = Some (p', vec', rc) /\ vec_keep p vec p' vec' /\
  contents vec' = contents vec /\ size vec' = size vec /\
  ((rc = 0 /\ size vec' < capacity vec') \/
   (rc = -1 /\ exists n, 0 < n /\ mp_alloc p n = (p', NULL))).
Proof.
  intros Hi. pose proof Hi as [Hp Hsz Hcap Hlen Hown].
  unfold expand_vector. rewrite u64_small by (unfold sizeof_ptr, PTRDIFF_MAX in *; lia).
  rewrite (proj2 (Z.ltb_ge _ _)) by lia.
  destruct (alloc_cells junk p (capacity vec * 2) sizeof_ptr) as [[p1 a] cells] eqn:E.
  eapply realloc_spec in E as [(-> & Hk & Hn)|(Hnn & l & Hl & Hk & Hc)];
    [| |done|unfold sizeof_ptr, PTRDIFF_MAX in *; lia..].
  - cbn. do 3 eexists. split_and!; [done..|]. right. split; [done|].
    eexists; split; [|done]. unfold sizeof_ptr. lia.
  - rewrite (proj2 (Z.eqb_neq a NULL)) by done. rewrite Hl. cbn.
    do 3 eexists. split_and!; [done..|]. left. cbn. lia.
Qed.

(** Contents after writing at the end of the used part. *)
Lemma take_insert_end (l : list Z) n e :
  0 <= n < zlen l -> take (Z.to_nat (n + 1)) (<[Z.to_nat n := e]> l) = take (Z.to_nat n) l ++ [e].
Proof.
  intros Hn. replace (Z.to_nat (n + 1)) with (S (Z.to_nat n)) by lia.
  unfold zlen in Hn. erewrite take_S_r by (apply list_lookup_insert_eq; lia).
  by rewrite take_insert_ge by lia.
Qed.

(** [memmove] one cell up from [i], then a write at [i]: insertion. *)
Lemma blit_insert (l : list Z) i n e :
  0 <= i <= n -> n < zlen l -> exists l1 l2,
  (if i <? n then arr_blit l (i + 1) l i (n - i) else Some l) = Some l1 /\
  l1.[i <- e] = Some l2 /\ zlen l2 = zlen l /\
  take (Z.to_nat (n + 1)) l2
  = take (Z.to_nat i) (take (Z.to_nat n) l) ++ e :: drop (Z.to_nat i) (take (Z.to_nat n) l).
Proof.
  intros Hi Hn. destruct (Z.ltb_spec i n) as [Hin|Hin].
  - rewrite arr_blit_ok by lia. eexists _, _. split; [done|].
    assert (Hz : zlen (take (Z.to_nat (i + 1)) l ++
       take (Z.to_nat (n - i)) (drop (Z.to_nat i) l) ++ drop (Z.to_nat (i + 1 + (n - i))) l)
       = zlen l) by zlia.
    rewrite arr_set_ok by lia. split; [done|]. split; [by rewrite zlen_insert|].
    replace (Z.to_nat (i + 1)) with (S (Z.to_nat i)) by lia.
    destruct (lookup_lt_is_Some_2 l (Z.to_nat i)) as [x Hx]; [unfold zlen in *; lia|].
    rewrite (take_S_r _ _ _ Hx), <-app_assoc. unfold zlen in Hn.
    rewrite insert_app_r_alt by (rewrite length_take; lia).
    rewrite length_take, Nat.min_l, Nat.sub_diag by lia. cbn.
    rewrite take_app_ge by (rewrite length_take; lia).
    rewrite length_take, Nat.min_l by lia. rewrite take_take, Nat.min_l by lia. f_equal.
    replace (Z.to_nat (n + 1) - Z.to_nat i)%nat with (S (Z.to_nat n - Z.to_nat i)) by lia.
    cbn. f_equal. rewrite take_app_le by (rewrite length_take, length_drop; lia).
    rewrite take_take, skipn_firstn_comm. f_equal. lia.
  - assert (i = n) as -> by lia. eexists _, _. split; [done|].
    rewrite arr_set_ok by lia. split; [done|]. split; [by rewrite zlen_insert|].
    rewrite take_insert_end by lia. rewrite take_take, Nat.min_id. f_equal.
    by rewrite drop_ge by (rewrite length_take; lia).
Qed.

(** [memmove] one cell down onto [i]: deletion. *)
Lemma blit_remove (l : list Z) i n :
  0 <= i < n -> n <= zlen l -> exists l1,
  (if i <? n - 1 then arr_blit l i l (i + 1) (n - i - 1) else Some l) = Some l1 /\
  zlen l1 = zlen l /\
  take (Z.to_nat (n - 1)) l1 = delete (Z.to_nat i) (take (Z.to_nat n) l).
Proof.
  intros Hi Hn. rewrite delete_take_drop. unfold zlen in Hn.
  destruct (Z.ltb_spec i (n - 1)) as [Hin|Hin].
  - rewrite arr_blit_ok by (unfold zlen; lia). eexists. split; [done|]. split; [zlia|].
    rewrite take_app_ge by (rewrite length_take; lia).
    rewrite length_take, Nat.min_l by lia. rewrite take_take, Nat.min_l by lia. f_equal.
    rewrite take_app_le by (rewrite length_take, length_drop; lia).
    rewrite take_take, skipn_firstn_comm. f_equal; [lia|f_equal; lia].
  - eexists. split; [done|]. split; [done|]. assert (i = n - 1) as -> by lia.
    rewrite take_take, Nat.min_l by lia.
    rewrite (drop_ge _ (S _)) by (rewrite length_take; lia). by rewrite app_nil_r.
Qed.

Lemma free_elements_ok (l : list Z) n i :
  0 <= i -> i + Z.of_nat n <= zlen l ->
  free_elements l i n = Some (nonnull (take n (drop (Z.to_nat i) l))).
Proof.
  revert i. induction n as [|n IH]; intros i Hi Hn; cbn [free_elements]; [done|].
  destruct (arr_get_Some l i) as [e He]; [lia|]. rewrite He. cbn.
  rewrite IH by lia. cbn. rewrite arr_get_lookup in He by lia.
  rewrite (drop_S _ _ _ He). replace (Z.to_nat (i + 1)) with (S (Z.to_nat i)) by lia.
  unfold nonnull. rewrite firstn_cons, filter_cons. case_decide as E.
  - by rewrite (proj2 (Z.eqb_neq e NULL)) by done.
  - destruct (Z.eqb_spec e NULL); done.
Qed.

(** What a call ends with, relative to the specification. *)
Definition op_result p vec op : Prop :=
  exists p' vec' r freed,
    vector_exec junk p vec op = Some (p', vec', r, freed) /\ vec_keep p vec p' vec' /\
    ((contents vec', r, freed) = vector_spec (elem_free vec) (contents vec) op \/
     (may_allocate op = true /\ (contents vec', r, freed) = (contents vec, -1, []) /\
      exists n, 0 < n /\ mp_alloc p n = (p', NULL))).

Lemma done_result p vec op p' vec' r freed :
  vector_exec junk p vec op = Some (p', vec', r, freed) -> vec_keep p vec p' vec' ->
  (contents vec', r, freed) = vector_spec (elem_free vec) (contents vec) op ->
  op_result p vec op.
Proof. intros. do 4 eexists. eauto. Qed.

Lemma refused_result p vec op p' vec' n :
  vector_exec junk p vec op = Some (p', vec', -1, []) -> vec_keep p vec p' vec' ->
  contents vec' = contents vec -> may_allocate op = true ->
  0 < n -> mp_alloc p n = (p', NULL) -> op_result p vec op.
Proof.
  intros ?? Hc ???. do 4 eexists. split_and!; [done..|]. right.
  split_and!; [done|by rewrite Hc|eauto].
Qed.

Lemma vec_keep_trans p1 v1 p2 v2 p3 v3 :
  vec_keep p1 v1 p2 v2 -> vec_keep p2 v2 p3 v3 -> vec_keep p1 v1 p3 v3.
Proof. intros (_ & ? & ? & ?) (? & ? & ? & ?). split_and!; congruence. Qed.

(** Push and Insert share the growth step and the write of one cell. *)
Lemma insert_result p vec i e :
  vec_inv p vec -> e <> NULL -> 0 <= i <= size vec ->
  op_result p vec (Insert i e).
Proof.
  intros Hi He Hr. pose proof (contents_zlen p vec Hi) as Hlen.
  assert (Hspec : vector_spec (elem_free vec) (contents vec) (Insert i e)
    = (take (Z.to_nat i) (contents vec) ++ e :: drop (Z.to_nat i) (contents vec), 0, [])).
  { cbn [vector_spec]. rewrite (proj2 (Z.eqb_neq _ _)) by done.
    by rewrite (proj2 (Z.ltb_ge _ _)) by lia. }
  assert (exists p' vec' rc,
    (if capacity vec <=? size vec then expand_vector junk p vec else Some (p, vec, 0))
      = Some (p', vec', rc) /\ vec_keep p vec p' vec' /\
    contents vec' = contents vec /\ size vec' = size vec /\
    ((rc = 0 /\ size vec' < capacity vec') \/
     (rc = -1 /\ exists n, 0 < n /\ mp_alloc p n = (p', NULL))))
    as (p' & vec' & rc & Hg & Hk & Hc & Hs & Hrc).
  { destruct (Z.leb_spec (capacity vec) (size vec)).
    - by apply expand_vector_spec.
    - do 3 eexists. split_and!; [done|by apply vec_keep_refl|done..|]. left. lia. }
  pose proof Hk as [Hi' _].
  destruct Hrc as [[-> Hcap]|[-> (n & Hn & Hnull)]].
  - destruct (blit_insert (elements vec') i (size vec') e) as (l1 & l2 & Hb & Hset & Hz & Ht);
      [lia|destruct Hi'; lia|].
    eapply (done_result _ _ _ _ (with_size (with_elements vec' l2) (size vec' + 1))).
    + cbn [vector_exec]. unfold vox_vector_insert.
      rewrite (proj2 (Z.eqb_neq _ _)) by done. rewrite (proj2 (Z.ltb_ge _ _)) by lia.
      rewrite Hg. cbn. rewrite Hb. cbn. rewrite Hset. done.
    + eapply vec_keep_trans; [done|]. apply vec_inv_cells; [done|..]; destruct Hi'; lia.
    + rewrite Hspec. f_equal. f_equal. rewrite <-Hc. exact Ht.
  - eapply (refused_result _ _ _ p' vec'); [|done..].
    cbn [vector_exec]. unfold vox_vector_insert.
    rewrite (proj2 (Z.eqb_neq _ _)) by done. rewrite (proj2 (Z.ltb_ge _ _)) by lia.
    rewrite Hg. done.
Qed.

(** [vox_vector_push] is [vox_vector_insert] at the end. *)
Lemma push_insert p vec e :
  size vec < 2 ^ 64 -> vector_exec junk p vec (Push e) = vector_exec junk p vec (Insert (size vec) e).
Proof.
  intros Hs. cbn [vector_exec]. unfold vox_vector_push, vox_vector_insert.
  destruct (e =? NULL); [done|]. rewrite Z.ltb_irrefl.
  assert (forall o : option (P * vox_vector * Z),
    (forall p' v rc, o = Some (p', v, rc) -> size v = size vec) ->
    ('(p, v, rc) ← o; if negb (rc =? 0) then Some (p, v, -1) else
       cells ← (elements v).[size v <- e];
       Some (p, with_size (with_elements v cells) (size v + 1), 0))
    = ('(p, v, rc) ← o; if negb (rc =? 0) then Some (p, v, -1) else
       cells ← (if size vec <? size v
           then arr_blit (elements v) (size vec + 1) (elements v) (size vec) (size v - size vec)
           else Some (elements v));
       cells ← cells.[size vec <- e];
       Some (p, with_size (with_elements v cells) (size v + 1), 0))) as Heq.
  { intros [[[p' v] rc]|] Ho; [|done]. cbn. rewrite (Ho _ _ _ eq_refl), Z.ltb_irrefl. done. }
  rewrite Heq; [done|]. intros p' v rc. destruct (capacity vec <=? size vec); [|congruence].
  unfold expand_vector. destruct (_ <? _); [congruence|].
  destruct (alloc_cells _ _ _ _) as [[p1 a] cells]. destruct (a =? NULL); [congruence|].
  destruct (arr_blit _ _ _ _ _); cbn; [|done]. by intros [= _ <- _].
Qed.

Lemma push_result p vec e : vec_inv p vec -> op_result p vec (Push e).
Proof.
  intros Hi. destruct (decide (e = NULL)) as [->|He].
  { eapply done_result; [done|by apply vec_keep_refl|done]. }
  pose proof Hi as [_ Hs [_ Hc] _ _]. unfold sizeof_ptr, PTRDIFF_MAX in Hc.
  destruct (insert_result p vec (size vec) e Hi He) as (p' & v' & r & fr & Hx & Hk & Hres); [lia|].
  exists p', v', r, fr. rewrite push_insert by lia. split_and!; [done..|].
  pose proof (contents_zlen p vec Hi) as Hlen.
  destruct Hres as [Hres|(_ & ? & ?)]; [left|right; done]. rewrite Hres.
  cbn [vector_spec]. rewrite (proj2 (Z.eqb_neq _ _)) by done. cbn.
  rewrite Hlen, Z.ltb_irrefl.
  by rewrite take_ge, drop_ge by (rewrite (contents_length p vec Hi); lia).
Qed.

(** The content when nothing but the pool's bookkeeping changed. *)
Lemma unchanged_result p vec op r :
  vec_inv p vec -> vector_exec junk p vec op = Some (p, vec, r, []) ->
  (contents vec, r, []) = vector_spec (elem_free vec) (contents vec) op -> op_result p vec op.
Proof. intros. eapply done_result; [done|by apply vec_keep_refl|done]. Qed.

Lemma insert_any_result p vec i e :
  vec_inv p vec -> 0 <= i -> op_result p vec (Insert i e).
Proof.
  intros Hi Hr. pose proof (contents_zlen p vec Hi) as Hlen.
  destruct (Z.eqb_spec e NULL) as [->|He]; [by eapply unchanged_result|].
  destruct (decide (i <= size vec)); [by apply insert_result; [..|lia]|].
  eapply unchanged_result; [done| |]; cbn; unfold vox_vector_insert; cbn;
    rewrite (proj2 (Z.eqb_neq _ _)) by done; rewrite (proj2 (Z.ltb_lt _ _)) by lia; done.
Qed.

Lemma pop_result p vec : vec_inv p vec -> op_result p vec Pop.
Proof.
  intros Hi. pose proof Hi as [_ Hs _ Hc _].
  pose proof (contents_length p vec Hi) as Hlen.
  destruct (Z.eqb_spec (size vec) 0) as [E|E].
  - eapply unchanged_result; [done| |]; cbn; unfold vox_vector_pop; cbn;
      rewrite ?(proj2 (Z.eqb_eq _ _) E); [done|].
    assert (contents vec = []) as -> by (apply nil_length_inv; lia). done.
  - destruct (arr_get_Some (elements vec) (size vec - 1)) as [e He]; [lia|].
    eapply (done_result _ _ _ p (with_size vec (size vec - 1)) e []).
    + cbn [vector_exec]. unfold vox_vector_pop.
      rewrite (proj2 (Z.eqb_neq _ _)) by done. cbn. by rewrite He.
    + apply vec_inv_size; [done|lia].
    + cbn. rewrite last_lookup, Hlen.
      rewrite <-(contents_get p) in He by (done || lia). rewrite arr_get_lookup in He by lia.
      replace (pred (Z.to_nat (size vec))) with (Z.to_nat (size vec - 1)) by lia.
      rewrite He. unfold contents; cbn. rewrite take_take. repeat f_equal. lia.
Qed.

Lemma contents_get_out p vec i : vec_inv p vec -> size vec <= i -> (contents vec).[i] = None.
Proof.
  intros Hi Hr. unfold arr_get. case_decide; [|done].
  apply lookup_ge_None_2. rewrite (contents_length p vec Hi). lia.
Qed.

Lemma index_cases p vec i :
  vec_inv p vec -> 0 <= i ->
  ((size vec <=? i) = true /\ (contents vec).[i] = None) \/
  ((size vec <=? i) = false /\ 0 <= i < size vec /\
   exists e, (contents vec).[i] = Some e /\ (elements vec).[i] = Some e).
Proof.
  intros Hi Hr. destruct (Z.leb_spec (size vec) i); [left|right].
  - split; [done|]. by eapply contents_get_out.
  - split_and!; [done|done|done|]. pose proof Hi as [_ Hs _ Hc _].
    destruct (arr_get_Some (elements vec) i) as [e He]; [lia|]. exists e.
    by rewrite (contents_get p) by (done || lia).
Qed.

Lemma remove_result p vec i : vec_inv p vec -> 0 <= i -> op_result p vec (Remove i).
Proof.
  intros Hi Hr. pose proof Hi as [_ Hs _ Hc _].
  destruct (index_cases p vec i Hi Hr) as [[E Hn]|(E & Hin & e & He & He')].
  - eapply unchanged_result; [done| |]; cbn; unfold vox_vector_remove; by rewrite ?E, ?Hn.
  - destruct (blit_remove (elements vec) i (size vec)) as (l1 & Hb & Hz & Ht); [lia..|].
    eapply (done_result _ _ _ p (with_size (with_elements vec l1) (size vec - 1)) e []).
    + cbn. unfold vox_vector_remove. rewrite E, He'. cbn. by rewrite Hb.
    + apply vec_inv_cells; [done|lia..].
    + cbn. rewrite He. unfold contents at 1; cbn. by rewrite Ht.
Qed.

Lemma get_result p vec i : vec_inv p vec -> 0 <= i -> op_result p vec (Get i).
Proof.
  intros Hi Hr. destruct (index_cases p vec i Hi Hr) as [[E Hn]|(E & _ & e & He & He')];
    (eapply unchanged_result; [done| |]; cbn; unfold vox_vector_get;
     rewrite ?E, ?Hn, ?He, ?He'; done).
Qed.

Lemma set_result p vec i e : vec_inv p vec -> 0 <= i -> op_result p vec (Set_ i e).
Proof.
  intros Hi Hr. pose proof Hi as [_ Hs _ Hc _].
  destruct (index_cases p vec i Hi Hr) as [[E Hn]|(E & Hin & old & He & He')].
  - eapply unchanged_result; [done| |]; cbn; unfold vox_vector_set; by rewrite ?E, ?Hn.
  - eapply (done_result _ _ _ p (with_elements vec (<[Z.to_nat i := e]> (elements vec))) 0
              (if elem_free vec && negb (old =? NULL) then [old] else [])).
    + cbn. unfold vox_vector_set. rewrite E, He'. cbn. by rewrite arr_set_ok by lia.
    + assert (Hk := vec_inv_cells p vec (<[Z.to_nat i := e]> (elements vec)) (size vec) Hi).
      rewrite zlen_insert in Hk. exact (Hk Hc Hs).
    + cbn [vector_spec]. rewrite He. unfold contents; cbn [elements size with_elements].
      rewrite take_insert_lt by lia. f_equal.
      destruct (elem_free vec); [|done]. unfold nonnull. rewrite filter_cons.
      destruct (Z.eqb_spec old NULL); by case_decide.
Qed.

Lemma clear_result p vec : vec_inv p vec -> op_result p vec Clear.
Proof.
  intros Hi. pose proof Hi as [_ Hs Hcap Hc _].
  eapply (done_result _ _ _ p (with_size vec 0) 0
            (if elem_free vec then nonnull (contents vec) else [])).
  - cbn. unfold vox_vector_clear. destruct (elem_free vec); [|done].
    rewrite free_elements_ok by lia. cbn. done.
  - apply vec_inv_size; [done|lia].
  - done.
Qed.

Lemma reserve_result p vec c : vec_inv p vec -> 0 <= c <= 2 ^ 60 -> op_result p vec (Reserve c).
Proof.
  intros Hi Hr. pose proof Hi as [_ Hs Hcap Hc _].
  destruct (Z.leb_spec c (capacity vec)) as [Hle|Hlt].
  { eapply unchanged_result; [done| |done]. cbn. unfold vox_vector_reserve.
    by rewrite (proj2 (Z.leb_le _ _)). }
  destruct (alloc_cells junk p c sizeof_ptr) as [[p1 a] cells] eqn:E.
  pose proof E as E'.
  eapply realloc_spec in E' as [(-> & Hk & Hn)|(Hnn & l & Hl & Hk & Hco)];
    [| |done|unfold sizeof_ptr, PTRDIFF_MAX in *; lia..].
  - eapply (refused_result _ _ _ p1 vec (c * sizeof_ptr)); [|done..|unfold sizeof_ptr; lia|done].
    cbn. unfold vox_vector_reserve. rewrite (proj2 (Z.leb_gt _ _)) by done. by rewrite E.
  - eapply done_result; [|done|].
    + cbn. unfold vox_vector_reserve. rewrite (proj2 (Z.leb_gt _ _)) by done. rewrite E.
      rewrite (proj2 (Z.eqb_neq a NULL)) by done. rewrite Hl. done.
    + cbn. by rewrite Hco.
Qed.

(** The doubling loop ends within 64 rounds at a capacity that is large enough
    and less than twice what is asked for. *)
Lemma grow_capacity_ok fuel cap nc n :
  0 < nc -> cap <= nc -> nc < 2 * n -> n <= 2 ^ 60 -> n <= nc * 2 ^ Z.of_nat fuel ->
  exists c, grow_capacity fuel cap nc n = Some (Some c) /\ n <= c < 2 * n /\ nc <= c.
Proof.
  revert nc. induction fuel as [|fuel IH]; intros nc Hp Hcap Hnc Hn Hf; cbn [grow_capacity].
  - rewrite (proj2 (Z.ltb_ge _ _)) by lia. eexists. split; [done|]. lia.
  - destruct (Z.ltb_spec nc n) as [E|E]; [|eexists; split; [done|]; lia].
    rewrite u64_small by lia. rewrite (proj2 (Z.ltb_ge _ _)) by lia.
    destruct (IH (nc * 2)) as (c & Hc & ?); [lia..| |].
    + rewrite Nat2Z.inj_succ, Z.pow_succ_r in Hf by lia. lia.
    + exists c. split; [done|]. lia.
Qed.

(** Contents after [memset] of the cells from [size] on. *)
Lemma fill_contents (l l' : list Z) s n m :
  0 <= s <= n -> n <= s + m -> arr_fill l s m NULL = Some l' ->
  zlen l' = zlen l /\
  take (Z.to_nat n) l' = take (Z.to_nat s) l ++ replicate (Z.to_nat (n - s)) NULL.
Proof.
  intros Hs Hn Hf. split; [by eapply arr_blit_len|].
  unfold arr_fill, arr_blit in Hf. case_decide as E; [|done]. injection Hf as <-.
  autorewrite with zlen in E. change (Z.to_nat 0) with 0%nat. rewrite drop_0.
  unfold zlen in E.
  rewrite take_app_ge by (rewrite length_take; lia). rewrite length_take, Nat.min_l by lia.
  f_equal. rewrite take_app_le by (rewrite length_take, length_replicate; lia).
  rewrite take_take, take_replicate. f_equal. lia.
Qed.

Lemma arr_fill_Some (l : list Z) s n :
  0 <= n -> 0 <= s -> s + n <= zlen l -> exists l', arr_fill l s n NULL = Some l'.
Proof.
  intros. unfold arr_fill. rewrite arr_blit_ok; [by eexists|..]; rewrite ?zlen_replicate; lia.
Qed.

Lemma resize_result p vec n : vec_inv p vec -> 0 <= n <= 2 ^ 60 -> op_result p vec (Resize n).
Proof.
  intros Hi Hr. pose proof Hi as [_ Hs Hcap Hc _].
  pose proof (contents_length p vec Hi) as Hlen.
  assert (Hgrow : size vec <= n ->
    vector_spec (elem_free vec) (contents vec) (Resize n)
    = (contents vec ++ replicate (Z.to_nat (n - size vec)) NULL, 0, [])).
  { intros Hge. cbn. rewrite Hlen. rewrite (drop_ge (contents vec)) by lia.
    rewrite take_app_ge by lia. rewrite Hlen, take_replicate.
    replace (Z.to_nat n - Z.to_nat (size vec))%nat with (Z.to_nat (n - size vec)) by lia.
    rewrite Nat.min_id. by destruct (elem_free vec). }
  destruct (Z.ltb_spec n (size vec)) as [Hlt|Hge].
  - eapply (done_result _ _ _ p (with_size vec n) 0
              (if elem_free vec then nonnull (drop (Z.to_nat n) (contents vec)) else [])).
    + cbn. unfold vox_vector_resize. rewrite (proj2 (Z.ltb_lt _ _)) by done.
      destruct (elem_free vec); [|done]. rewrite free_elements_ok by lia. cbn.
      unfold contents. rewrite skipn_firstn_comm. repeat f_equal. lia.
    + apply vec_inv_size; [done|lia].
    + cbn. rewrite take_app_le by lia. unfold contents at 1; cbn.
      unfold contents. by rewrite take_take, Nat.min_l by lia.
  - specialize (Hgrow Hge). destruct (Z.ltb_spec (capacity vec) n) as [Hbig|Hsmall].
    + destruct (grow_capacity_ok 64 (capacity vec) (capacity vec) n) as (c & Hg & Hcn & _);
        [lia..|change (2 ^ Z.of_nat 64) with (2 ^ 64); lia|].
      destruct (alloc_cells junk p c sizeof_ptr) as [[p1 a] cells] eqn:E. pose proof E as E'.
      eapply realloc_spec in E' as [(-> & Hk & Hn)|(Hnn & l & Hl & Hk & Hco)];
        [| |done|unfold sizeof_ptr, PTRDIFF_MAX in *; lia..].
      * eapply (refused_result _ _ _ p1 vec (c * sizeof_ptr)); [|done..|unfold sizeof_ptr; lia|done].
        cbn. unfold vox_vector_resize. rewrite (proj2 (Z.ltb_ge n _)) by done.
        rewrite (proj2 (Z.ltb_lt _ n)) by done. rewrite Hg. cbn. by rewrite E.
      * destruct Hk as (Hk & Hk'). pose proof Hk as [_ Hs' _ Hc' _]. cbn in Hs', Hc'.
        destruct (arr_fill_Some l (size vec) (c - size vec)) as [l' Hl']; [lia..|].
        destruct (fill_contents l l' (size vec) n (c - size vec)) as [Hz Ht]; [lia..|done|].
        eapply (done_result _ _ _ _
          (with_size (with_elements (with_array vec a l c) l') n)).
        -- cbn. unfold vox_vector_resize. rewrite (proj2 (Z.ltb_ge n _)) by done.
           rewrite (proj2 (Z.ltb_lt _ n)) by done. rewrite Hg. cbn. rewrite E.
           rewrite (proj2 (Z.eqb_neq a NULL)) by done. rewrite Hl. cbn. rewrite Hl'. done.
        -- eapply vec_keep_trans; [split; [exact Hk|exact Hk']|].
           apply vec_inv_cells; [done|cbn; lia..].
        -- rewrite Hgrow. unfold contents at 1; cbn. rewrite Ht. f_equal. f_equal.
           rewrite <-Hco. done.
    + destruct (arr_fill_Some (elements vec) (size vec) (n - size vec)) as [l' Hl']; [lia..|].
      destruct (fill_contents (elements vec) l' (size vec) n (n - size vec)) as [Hz Ht];
        [lia..|done|].
      eapply (done_result _ _ _ p (with_size (with_elements vec l') n)).
      * cbn. unfold vox_vector_resize. rewrite (proj2 (Z.ltb_ge n _)) by done.
        rewrite (proj2 (Z.ltb_ge _ n)) by done. rewrite Hl'. done.
      * apply vec_inv_cells; [done|lia..].
      * rewrite Hgrow. unfold contents at 1; cbn. by rewrite Ht.
Qed.

(** The simulation of one call. *)
Lemma op_ok p vec op : vec_inv p vec -> op_args_ok op -> op_result p vec op.
Proof.
  intros Hi Ha. destruct op; cbn in Ha.
  - by apply push_result.
  - by apply pop_result.
  - apply insert_any_result; [done|lia].
  - apply remove_result; [done|lia].
  - apply get_result; [done|lia].
  - apply set_result; [done|lia].
  - by apply resize_result.
  - by apply reserve_result.
  - by apply clear_result.
  - eapply unchanged_result; [done|done|]. cbn. by rewrite (contents_zlen p).
  - eapply unchanged_result; [done|done|]. cbn. by rewrite (contents_zlen p).
Qed.

(** A sequence of calls. *)
Fixpoint vector_run p vec (ops : list vector_op) : option (P * vox_vector) :=
  match ops with
  | [] => Some (p, vec)
  | op :: ops => '(p, vec, _, _) ← vector_exec junk p vec op; vector_run p vec ops
  end.

Lemma run_ok p vec ops :
  vec_inv p vec -> Forall op_args_ok ops ->
  exists p' vec', vector_run p vec ops = Some (p', vec') /\ vec_keep p vec p' vec'.
Proof.
  intros Hi Ha. revert p vec Hi. induction Ha as [|op ops Hop _ IH]; intros p vec Hi; cbn.
  - do 2 eexists. split; [done|]. by apply vec_keep_refl.
  - destruct (op_ok p vec op Hi Hop) as (p1 & v1 & r & fr & -> & Hk & _). cbn.
    destruct (IH p1 v1) as (p2 & v2 & -> & Hk2); [apply Hk|].
    do 2 eexists. split; [done|]. by eapply vec_keep_trans.
Qed.

(** Creation: the two blocks of the vector are the only new blocks. *)
Lemma create_ok p config p' vec :
  mp_inv p -> (forall c, config = Some c -> initial_capacity c <= 2 ^ 60) ->
  vox_vector_create_with_config junk p config = (p', Some vec) ->
  vec_inv p' vec /\ others p' vec = mp_live p /\ contents vec = [] /\ 
  elem_free vec = match config with Some c => config_elem_free c | None => false end.
Proof.
  intros Hp Hcfg. unfold vox_vector_create_with_config.
  destruct (mp_alloc p sizeof_vector) as [p1 at1] eqn:E1.
  destruct (Z.eqb_spec at1 NULL) as [|Hat]; [done|].
  set (cap := match config with Some c => _ | None => _ end).
  assert (0 < cap <= 2 ^ 60) as Hcap.
  { unfold cap, VOX_VECTOR_DEFAULT_INITIAL_CAPACITY. destruct config as [c|]; [|lia].
    specialize (Hcfg c eq_refl). case_one; lia. }
  clearbody cap. destruct (alloc_cells junk p1 cap sizeof_ptr) as [[p2 a] cells] eqn:E2.
  destruct (Z.eqb_spec a NULL) as [|Ha]; [done|]. intros [= <- <-].
  destruct (create_blocks junk p p1 p2 sizeof_vector cap sizeof_ptr at1 a cells)
    as (Hp2 & Hown & Hf & Hlen & Hmax); try done; try (unfold sizeof_ptr; lia).
  split_and!; [constructor; cbn|done|done|done]; try done; lia.
Qed.

Lemma destroy_ok p vec :
  vec_inv p vec -> exists p',
  vox_vector_destroy p vec
    = Some (p', if elem_free vec then nonnull (contents vec) else []) /\
  mp_inv p' /\ mp_live p' = others p vec.
Proof.
  intros [Hp Hs _ Hc Hown]. unfold vox_vector_destroy.
  assert ((if elem_free vec then free_elements (elements vec) 0 (Z.to_nat (size vec)) else Some [])
    = Some (if elem_free vec then nonnull (contents vec) else [])) as ->.
  { destruct (elem_free vec); [|done]. rewrite free_elements_ok by lia. done. }
  cbn. eexists. split; [done|]. by apply destroy_blocks.
Qed.

(** A walk meets the elements in order, each with its index. *)
Lemma vector_foreach_ok p vec : vec_inv p vec ->
  vox_vector_foreach vec = Some (zip (contents vec) (seqZ 0 (size vec)), size vec).
Proof.
  intros Hi. pose proof (vi_size p vec Hi) as Hs. pose proof (vi_cells p vec Hi) as Hc. unfold vox_vector_foreach, contents.
  match goal with |- ?L 0 _ 0 = _ => set (loop := L) end.
  assert (forall n i count, 0 <= i -> i + Z.of_nat n <= zlen (elements vec) ->
    loop i n count = Some (zip (take n (drop (Z.to_nat i) (elements vec))) (seqZ i (Z.of_nat n)), count + Z.of_nat n)) as Hloop.
  { induction n as [|n IH]; intros i count Hi0 Hn; [cbn; by rewrite Z.add_0_r|].
    destruct (lookup_lt_is_Some_2 (elements vec) (Z.to_nat i)) as [e E]; [unfold zlen in Hn; lia|].
    cbn [loop]. rewrite arr_get_lookup, E by done. cbn [mbind option_bind]. fold loop. rewrite IH by lia. cbn [mbind option_bind].
    rewrite (drop_S _ _ _ E), Nat2Z.inj_succ, (seqZ_cons i (Z.succ (Z.of_nat n))), Z.pred_succ by lia. cbn [take zip zip_with].
    replace (Z.to_nat (i + 1)) with (S (Z.to_nat i)) by lia. replace (Z.succ i) with (i + 1) by lia. do 2 f_equal. lia. }
  rewrite Hloop by lia. change (Z.to_nat 0) with O. rewrite drop_0, Z2Nat.id by lia. done.
Qed.

(** C3: Each call of vox_vector.c on a well-formed vector - push, pop, insert, remove,
    get, set, clear, size, empty, and a resize or reserve to at most 2^60 elements, with
    any index - never accesses memory outside its array, keeps the vector well formed
    and every other block of the pool as it was, and returns, leaves and releases exactly
    what the list specification says; the only other outcome is a call that has to
    allocate, whose allocation the pool refused: it returns -1 and changes nothing. A
    walk whose visitor leaves the vector alone meets every element with its index, in
    order, and the capacity is at least the number of elements. (Above 2^60 elements
    the size in bytes wraps: vector_reserve_overflow shows a write out of bounds.) *)
Theorem vector_refines_list p vec op :
  vec_inv p vec -> op_args_ok op ->
  (exists p' vec' r freed,
    vector_exec junk p vec op = Some (p', vec', r, freed) /\ vec_keep p vec p' vec' /\
    ((contents vec', r, freed) = vector_spec (elem_free vec) (contents vec) op \/
     (may_allocate op = true /\ (contents vec', r, freed) = (contents vec, -1, []) /\
      exists n, 0 < n /\ mp_alloc p n = (p', NULL)))) /\
  vox_vector_foreach vec = Some (zip (contents vec) (seqZ 0 (zlen (contents vec))), zlen (contents vec)) /\
  zlen (contents vec) <= vox_vector_capacity vec.
Proof.
  intros Hi Ha. split; [by apply op_ok|]. rewrite (contents_zlen p vec Hi). split; [by apply (vector_foreach_ok p)|].
  apply (vi_size p vec Hi).
Qed.

(** A vector's life leaks nothing: from creation through any sequence of
    calls to destruction nothing faults, the [elem_free] callback of the
    destruction gets exactly the elements still held, and the pool ends with the
    live blocks it started with. *)
Theorem vector_lifecycle p config p1 vec ops :
  mp_inv p -> (forall c, config = Some c -> initial_capacity c <= 2 ^ 60) ->
  vox_vector_create_with_config junk p config = (p1, Some vec) ->
  Forall op_args_ok ops ->
  exists p2 vec' p3,
    vector_run p1 vec ops = Some (p2, vec') /\
    vox_vector_destroy p2 vec'
      = Some (p3, if elem_free vec then nonnull (contents vec') else []) /\
    mp_inv p3 /\ mp_live p3 = mp_live p.
Proof.
  intros Hp Hcfg Hc Ha. destruct (create_ok _ _ _ _ Hp Hcfg Hc) as (Hi & Ho & _ & _).
  destruct (run_ok p1 vec ops Hi Ha) as (p2 & vec' & Hr & Hi' & Ho' & Hef & _).
  destruct (destroy_ok p2 vec' Hi') as (p3 & Hd & Hp3 & Hl). rewrite Hef in Hd.
  exists p2, vec', p3. split_and!; [done..|]. by rewrite Hl, Ho', Ho.
Qed.

(** [vox_vector_reserve] does not check that [capacity * sizeof(void * )]
    fits in [size_t]: asked for 2^61 + 1 elements it requests 8 bytes, and when
    the pool grants them it copies the elements of any vector of two or more past
    the end of the new block. *)
Theorem vector_reserve_overflow p vec p' a :
  vec_inv p vec -> 2 <= size vec -> capacity vec < 2 ^ 61 ->
  mp_alloc p 8 = (p', a) -> a <> NULL ->
  vox_vector_reserve junk p vec (2 ^ 61 + 1) = None.
Proof.
  intros Hi Hs Hc Ha Hnn. unfold vox_vector_reserve, alloc_cells, sizeof_ptr.
  rewrite (proj2 (Z.leb_gt _ _)) by lia.
  change (u64 ((2 ^ 61 + 1) * 8)) with 8. rewrite Ha.
  rewrite (proj2 (Z.eqb_neq a NULL)) by done. unfold arr_blit.
  rewrite decide_False; [done|]. rewrite zlen_replicate.
  change (Z.of_nat (Z.to_nat (8 / 8))) with 1. lia.
Qed.
End refinement.

(** ** Concrete runs *)

Definition ex_config : vox_vector_config := {| initial_capacity := 2; config_elem_free := true |}.
Definition ex_pool : bump := (vox_vector_create_with_config 0 (bump_new 4096) (Some ex_config)).1.
Definition ex_vec : vox_vector :=
  default {| self := 0; elements_at := 0; elements := []; size := 0; capacity := 0; elem_free := false |}
    (vox_vector_create_with_config 0 (bump_new 4096) (Some ex_config)).2.

Lemma ex_created : vox_vector_create_with_config 0 (bump_new 4096) (Some ex_config) = (ex_pool, Some ex_vec).
Proof. reflexivity. Qed.

Lemma ex_config_ok c : Some ex_config = Some c -> initial_capacity c <= 2 ^ 60.
Proof. by intros [= <-]. Qed.

Lemma ex_inv : vec_inv ex_pool ex_vec.
Proof.
  exact (proj1 (create_ok 0 (bump_new 4096) (Some ex_config) _ _ (bump_new_inv 4096 ltac:(lia))
           ex_config_ok ex_created)).
Qed.

(** Three pushes into capacity 2: the array has grown, nothing was lost. *)
Definition ex_run : option (bump * vox_vector) :=
  vector_run 0 ex_pool ex_vec [Push 11; Push 22; Push 33; Insert 1 44].

Example ex_run_contents :
  (contents ∘ snd) <$> ex_run = Some [11; 44; 22; 33] /\ (capacity ∘ snd) <$> ex_run = Some 4.
Proof. split; reflexivity. Qed.

Definition ex_pool2 : bump := default ex_pool (fst <$> ex_run).
Definition ex_vec2 : vox_vector := default ex_vec (snd <$> ex_run).

Lemma ex_args : Forall op_args_ok [Push 11; Push 22; Push 33; Insert 1 44].
Proof. repeat constructor; cbn; lia. Qed.

Lemma ex_inv2 : vec_inv ex_pool2 ex_vec2.
Proof.
  destruct (run_ok 0 ex_pool ex_vec _ ex_inv ex_args) as (p' & v' & Hr & Hi & _).
  unfold ex_pool2, ex_vec2, ex_run. rewrite Hr. exact Hi.
Qed.

Lemma vector_refines_list_witness :
  vec_inv ex_pool2 ex_vec2 /\ op_args_ok (Insert 1 7) /\
  exists p' vec' r freed,
    vector_exec 0 ex_pool2 ex_vec2 (Insert 1 7) = Some (p', vec', r, freed) /\
    contents vec' = [11; 7; 44; 22; 33].
Proof.
  split; [exact ex_inv2|]. split; [cbn; lia|].
  destruct (vector_refines_list 0 ex_pool2 ex_vec2 (Insert 1 7) ex_inv2 ltac:(cbn; lia))
    as [(p' & v' & r & fr & E & _) _]. exists p', v', r, fr. split; [exact E|].
  revert E. vm_compute. intros [= _ <- _ _]. reflexivity.
Defined.

Lemma vector_lifecycle_witness :
  mp_inv (bump_new 4096) /\ exists p2 vec' p3,
    vector_run 0 ex_pool ex_vec [Push 11; Push 22; Push 33; Insert 1 44] = Some (p2, vec') /\
    vox_vector_destroy p2 vec'
      = Some (p3, if elem_free ex_vec then nonnull (contents vec') else []) /\
    mp_inv p3 /\ mp_live p3 = mp_live (bump_new 4096).
Proof.
  split; [exact (bump_new_inv 4096 ltac:(lia))|].
  exact (vector_lifecycle 0 (bump_new 4096) (Some ex_config) ex_pool ex_vec _
           (bump_new_inv 4096 ltac:(lia)) ex_config_ok ex_created ex_args).
Defined.

Lemma vector_reserve_overflow_witness :
  vec_inv ex_pool2 ex_vec2 /\ vox_vector_reserve 0 ex_pool2 ex_vec2 (2 ^ 61 + 1) = None.
Proof.
  split; [exact ex_inv2|].
  apply (vector_reserve_overflow 0 ex_pool2 ex_vec2 (mp_alloc ex_pool2 8).1 (mp_alloc ex_pool2 8).2
           ex_inv2); [vm_compute; discriminate|vm_compute; reflexivity|reflexivity|vm_compute; discriminate].
Defined.

End Vector.
