(* ===== verification/MHeap.v ===== *)
(** * vox_mheap.c: the binary min-heap

    The operations of src/vox_mheap.c on the struct [vox_mheap], the heap order as
    its invariant, and what each operation does to the multiset of elements. The
    event loop keeps its timers in such a heap (Timer.v). *)

From Stdlib Require Import Sorting.Sorted.
From S2P Require Import Prelude Alloc.

Module MHeap.

Definition VOX_MHEAP_DEFAULT_INITIAL_CAPACITY : Z := 16.
Definition sizeof_mheap : Z := 48.
Definition sizeof_ptr : Z := 8.

(** src/vox_mheap.c:17-24: struct vox_mheap *)
Record vox_mheap := {
  self : Z;
  elements_at : Z;
  elements : list Z;
  size : Z;
  capacity : Z;
  cmp_func : Z -> Z -> Z;
  elem_free : bool;
}.

Definition with_elements (h : vox_mheap) (l : list Z) (n : Z) : vox_mheap :=
  {| self := self h; elements_at := elements_at h; elements := l; size := n;
     capacity := capacity h; cmp_func := cmp_func h; elem_free := elem_free h |}.

Definition with_array (h : vox_mheap) (a : Z) (l : list Z) (c : Z) : vox_mheap :=
  {| self := self h; elements_at := a; elements := l; size := size h;
     capacity := c; cmp_func := cmp_func h; elem_free := elem_free h |}.

(** src/vox_mheap.c: default_cmp *)
Definition default_cmp (elem1 elem2 : Z) : Z :=
  if elem1 <? elem2 then -1 else if elem2 <? elem1 then 1 else 0.

(** src/vox_mheap.c: parent *)
Definition parent (i : Z) : Z := u64 (i - 1) / 2.
(** src/vox_mheap.c: left_child *)
Definition left_child (i : Z) : Z := u64 (2 * i + 1).
(** src/vox_mheap.c: right_child *)
Definition right_child (i : Z) : Z := u64 (2 * i + 2).

(** [temp = l[i]; l[i] = l[j]; l[j] = temp] *)
Definition swap_cells (l : list Z) (i j : Z) : option (list Z) :=
  temp ← l.[i]; y ← l.[j]; l ← l.[i <- y]; l.[j <- temp].

(** The loops run with fuel; [None] is an access outside the array or lack of fuel.

    src/vox_mheap.c: heapify_up *)
Fixpoint heapify_up (fuel : nat) (cmp : Z -> Z -> Z) (l : list Z) (index : Z) : option (list Z) :=
  match fuel with
  | O => None
  | S fuel =>
      if 0 <? index then
        let p := parent index in
        x ← l.[index]; y ← l.[p];
        if 0 <=? cmp x y then Some l else
        l ← swap_cells l index p;
        heapify_up fuel cmp l p
      else Some l
  end.

(** The smaller of [smallest] and the child at [c]. *)
Definition pick (cmp : Z -> Z -> Z) (l : list Z) (n smallest c : Z) : option Z :=
  if c <? n then
    x ← l.[c]; y ← l.[smallest];
    Some (if cmp x y <? 0 then c else smallest)
  else Some smallest.

(** src/vox_mheap.c: heapify_down *)
Fixpoint heapify_down (fuel : nat) (cmp : Z -> Z -> Z) (l : list Z) (n index : Z)
  : option (list Z) :=
  match fuel with
  | O => None
  | S fuel =>
      smallest ← pick cmp l n index (left_child index);
      smallest ← pick cmp l n smallest (right_child index);
      if smallest =? index then Some l else
      l ← swap_cells l index smallest;
      heapify_down fuel cmp l n smallest
  end.

(** One round per element is enough fuel for either loop. *)
Definition loop_fuel (n : Z) : nat := S (Z.to_nat n).
#[global] Arguments loop_fuel : simpl never.

Section operations.
Context {P : Type} `{MPool P}.
Context (junk : Z).
Implicit Types (p : P) (heap : vox_mheap).

(** src/vox_mheap.c: expand_heap *)
Definition expand_heap p heap : option (P * vox_mheap * Z) :=
  let new_capacity := u64 (capacity heap * 2) in
  if new_capacity <? capacity heap then Some (p, heap, -1) else
  let '(p, a, new_elements) := alloc_cells junk p new_capacity sizeof_ptr in
  if a =? NULL then Some (p, heap, -1) else
  new_elements ← arr_blit new_elements 0 (elements heap) 0 (size heap);
  let p := mp_free p (elements_at heap) in
  Some (p, with_array heap a new_elements new_capacity, 0).

Record vox_mheap_config := {
  initial_capacity : Z;
  config_cmp_func : option (Z -> Z -> Z);
  config_elem_free : bool;
}.

(** src/vox_mheap.c: vox_mheap_create_with_config *)
Definition vox_mheap_create_with_config p (config : option vox_mheap_config)
  : P * option vox_mheap :=
  let '(p, heap_at) := mp_alloc p sizeof_mheap in
  if heap_at =? NULL then (p, None) else
  let cap :=
    match config with
    | Some c => if 0 <? initial_capacity c then initial_capacity c
                else VOX_MHEAP_DEFAULT_INITIAL_CAPACITY
    | None => VOX_MHEAP_DEFAULT_INITIAL_CAPACITY
    end in
  let cmp := match config with
             | Some c => default default_cmp (config_cmp_func c)
             | None => default_cmp
             end in
  let ef := match config with Some c => config_elem_free c | None => false end in
  let '(p, a, cells) := alloc_cells junk p cap sizeof_ptr in
  if a =? NULL then (mp_free p heap_at, None) else
  (p, Some {| self := heap_at; elements_at := a; elements := cells; size := 0;
              capacity := cap; cmp_func := cmp; elem_free := ef |}).

(** src/vox_mheap.c: vox_mheap_create *)
Definition vox_mheap_create p : P * option vox_mheap := vox_mheap_create_with_config p None.

(** src/vox_mheap.c: vox_mheap_push *)
Definition vox_mheap_push p heap (elem : Z) : option (P * vox_mheap * Z) :=
  if elem =? NULL then Some (p, heap, -1) else
  '(p, heap, rc) ← (if capacity heap <=? size heap then expand_heap p heap
                    else Some (p, heap, 0));
  if negb (rc =? 0) then Some (p, heap, -1) else
  l ← (elements heap).[size heap <- elem];
  let n := size heap + 1 in
  l ← heapify_up (loop_fuel n) (cmp_func heap) l (n - 1);
  Some (p, with_elements heap l n, 0).

(** src/vox_mheap.c: vox_mheap_peek *)
Definition vox_mheap_peek heap : option Z :=
  if size heap =? 0 then Some NULL else (elements heap).[0].

(** src/vox_mheap.c: vox_mheap_pop *)
Definition vox_mheap_pop heap : option (vox_mheap * Z) :=
  if size heap =? 0 then Some (heap, NULL) else
  min_elem ← (elements heap).[0];
  e ← (elements heap).[size heap - 1];
  l ← (elements heap).[0 <- e];
  let n := size heap - 1 in
  l ← (if 0 <? n then heapify_down (loop_fuel n) (cmp_func heap) l n 0 else Some l);
  Some (with_elements heap l n, min_elem).

(** src/vox_mheap.c: vox_mheap_size *)
Definition vox_mheap_size heap : Z := size heap.
(** src/vox_mheap.c: vox_mheap_empty *)
Definition vox_mheap_empty heap : bool := size heap =? 0.

(** The elements of [l] from [i] on, [n] of them: the loops that visit or release. *)
Fixpoint walk (l : list Z) (i : Z) (n : nat) : option (list Z) :=
  match n with
  | O => Some []
  | S n => e ← l.[i]; rest ← walk l (i + 1) n; Some (e :: rest)
  end.

(** The calls of [elem_free], in order, are an output.

    src/vox_mheap.c: vox_mheap_clear *)
Definition vox_mheap_clear heap : option (vox_mheap * list Z) :=
  freed ← (if elem_free heap
           then filter (fun e => e <> NULL) <$> walk (elements heap) 0 (Z.to_nat (size heap))
           else Some []);
  Some (with_elements heap (elements heap) 0, freed).

(** src/vox_mheap.c: vox_mheap_destroy *)
Definition vox_mheap_destroy p heap : option (P * list Z) :=
  freed ← (if elem_free heap
           then filter (fun e => e <> NULL) <$> walk (elements heap) 0 (Z.to_nat (size heap))
           else Some []);
  let p := mp_free p (elements_at heap) in
  Some (mp_free p (self heap), freed).

(** src/vox_mheap.c: vox_mheap_foreach *)
Definition vox_mheap_foreach heap : option (list Z * Z) :=
  visited ← walk (elements heap) 0 (Z.to_nat (size heap));
  Some (visited, size heap).

(** The first index from [i] on, among [n], that holds [elem]. *)
Fixpoint find_index (l : list Z) (elem i : Z) (n : nat) : option (option Z) :=
  match n with
  | O => Some None
  | S n => e ← l.[i]; if e =? elem then Some (Some i) else find_index l elem (i + 1) n
  end.

(** [heapify_down] gets [index] by value, so the test [index == old_index] after it
    always holds and the upward pass runs whenever [index > 0].

    src/vox_mheap.c: vox_mheap_remove *)
Definition vox_mheap_remove heap (elem : Z) : option (vox_mheap * Z) :=
  if (elem =? NULL) || (size heap =? 0) then Some (heap, -1) else
  found ← find_index (elements heap) elem 0 (Z.to_nat (size heap));
  match found with
  | None => Some (heap, -1)
  | Some index =>
      if index =? size heap - 1 then Some (with_elements heap (elements heap) (size heap - 1), 0)
      else
        e ← (elements heap).[size heap - 1];
        l ← (elements heap).[index <- e];
        let n := size heap - 1 in
        let old_index := index in
        l ← heapify_down (loop_fuel n) (cmp_func heap) l n index;
        l ← (if (index =? old_index) && (0 <? index)
             then heapify_up (loop_fuel n) (cmp_func heap) l index else Some l);
        Some (with_elements heap l n, 0)
  end.
End operations.

(** ** Order and shape *)

(** The contract of a comparison function: its sign is antisymmetric and "not
    greater" is transitive (a total preorder). *)
Class CmpLaws (cmp : Z -> Z -> Z) : Prop := {
  cmp_sign a b : cmp a b < 0 <-> 0 < cmp b a;
  cmp_trans a b c : cmp a b <= 0 -> cmp b c <= 0 -> cmp a c <= 0;
}.

#[export] Instance default_cmp_laws : CmpLaws default_cmp.
Proof.
  split; intros *; unfold default_cmp; repeat case_one; lia.
Qed.

(** The value at an index. *)
Definition hv (l : list Z) (i : Z) : Z := default NULL l.[i].

Definition par (k : Z) : Z := (k - 1) / 2.

(** The heap order on the first [n] cells. *)
Definition heap_ordered (cmp : Z -> Z -> Z) (l : list Z) (n : Z) : Prop :=
  forall k, 0 < k < n -> cmp (hv l (par k)) (hv l k) <= 0.

(** [l'] is [l] with its first [n] cells permuted. *)
Definition rearranged (l l' : list Z) (n : Z) : Prop :=
  zlen l' = zlen l /\ take (Z.to_nat n) l' ≡ₚ take (Z.to_nat n) l.

Lemma rearranged_refl l n : rearranged l l n.
Proof. by split. Qed.
Lemma rearranged_trans l1 l2 l3 n : rearranged l1 l2 n -> rearranged l2 l3 n -> rearranged l1 l3 n.
Proof. intros [? H1] [? H2]. split; [congruence|]. by rewrite H2, H1. Qed.
#[export] Hint Resolve rearranged_refl : vox.

Lemma hv_get l i : 0 <= i < zlen l -> l.[i] = Some (hv l i).
Proof. intros Hi. unfold hv. destruct (arr_get_Some l i Hi) as [x ->]. done. Qed.

Lemma par_children k i : 0 < k -> par k = i <-> (k = 2 * i + 1 \/ k = 2 * i + 2).
Proof. intros Hk. unfold par. split; intros; dlia. Qed.

Lemma par_range k : 0 < k -> 0 <= par k < k.
Proof. intros Hk. unfold par. dlia. Qed.

(** Reading the cells of an array after one write, and after [swap_cells]. *)
Lemma hv_insert l i x k :
  0 <= i < zlen l -> 0 <= k ->
  hv (<[Z.to_nat i := x]> l) k = if decide (i = k) then x else hv l k.
Proof. intros Hi Hk. unfold hv. rewrite arr_get_insert by done. by case_decide. Qed.

Lemma swap_cells_ok l i j n :
  0 <= i < n -> 0 <= j < n -> n <= zlen l ->
  exists l', swap_cells l i j = Some l' /\ rearranged l l' n /\
    forall k, 0 <= k ->
      hv l' k = if decide (k = j) then hv l i else if decide (k = i) then hv l j else hv l k.
Proof.
  intros Hi Hj Hn. unfold swap_cells. rewrite !hv_get by lia. cbn.
  rewrite arr_set_ok by lia. cbn. rewrite arr_set_ok by (rewrite zlen_insert; lia).
  eexists. split; [done|]. split; [split|].
  - by rewrite !zlen_insert.
  - rewrite !take_insert_lt by lia.
    apply Permutation_insert_swap; rewrite lookup_take_lt by lia.
    + rewrite <-arr_get_lookup by lia. apply hv_get. lia.
    + rewrite <-arr_get_lookup by lia. apply hv_get. lia.
  - intros k Hk. rewrite !hv_insert by (rewrite ?zlen_insert; lia).
    repeat case_decide; subst; done.
Qed.

Section order.
Context (cmp : Z -> Z -> Z) `{!CmpLaws cmp}.
Implicit Types l : list Z.

Lemma cmp_flip a b : 0 <= cmp a b <-> cmp b a <= 0.
Proof. pose proof (cmp_sign a b). lia. Qed.

Lemma cmp_refl a : cmp a a <= 0.
Proof. pose proof (cmp_sign a a). lia. Qed.

(** Ordered except that the cell [i] may be smaller than its parent. *)
Definition up_inv l (n i : Z) : Prop :=
  (forall k, 0 < k < n -> k <> i -> cmp (hv l (par k)) (hv l k) <= 0) /\
  (forall k, 0 < k < n -> par k = i -> 0 < i -> cmp (hv l (par i)) (hv l k) <= 0).

(** Ordered except that the cell [i] may be greater than its children. *)
Definition down_inv l (n i : Z) : Prop :=
  (forall k, 0 < k < n -> par k <> i -> cmp (hv l (par k)) (hv l k) <= 0) /\
  (forall k, 0 < k < n -> par k = i -> 0 < i -> cmp (hv l (par i)) (hv l k) <= 0).

Lemma up_step l l' n i :
  0 < i < n -> up_inv l n i -> cmp (hv l i) (hv l (par i)) < 0 ->
  (forall k, 0 <= k ->
     hv l' k = if decide (k = par i) then hv l i
               else if decide (k = i) then hv l (par i) else hv l k) ->
  up_inv l' n (par i).
Proof.
  intros Hi [H1 H2] Hlt Hv. pose proof (par_range i ltac:(lia)) as Hp.
  assert (Hlt' : cmp (hv l i) (hv l (par i)) <= 0) by lia.
  split.
  - intros k Hk Hkp. pose proof (par_range k ltac:(lia)) as Hpk.
    rewrite !Hv by lia. rewrite (decide_False (P := k = par i)) by done.
    destruct (decide (k = i)) as [->|Hki]; [by rewrite decide_True|].
    destruct (decide (par k = par i)) as [E|E].
    + eapply cmp_trans; [exact Hlt'|]. rewrite <-E. apply H1; lia.
    + case_decide as E'; [|apply H1; lia]. apply H2; lia.
  - intros k Hk Hkp Hp0. pose proof (par_range (par i) Hp0) as Hpp.
    rewrite !Hv by lia. rewrite (decide_False (P := k = par i)) by (pose proof (par_range k); lia).
    rewrite (decide_False (P := par (par i) = par i)) by lia.
    rewrite (decide_False (P := par (par i) = i)) by lia.
    assert (Hg : cmp (hv l (par (par i))) (hv l (par i)) <= 0) by (apply H1; lia).
    case_decide; [done|]. eapply cmp_trans; [exact Hg|]. rewrite <-Hkp. apply H1; lia.
Qed.

Lemma heapify_up_ok fuel l n i :
  0 <= i < n -> n <= zlen l -> n <= 2 ^ 60 -> up_inv l n i -> i < Z.of_nat fuel ->
  exists l', heapify_up fuel cmp l i = Some l' /\ heap_ordered cmp l' n /\ rearranged l l' n.
Proof.
  revert l i. induction fuel as [|fuel IH]; intros l i Hi Hn Hb Hinv Hf; [lia|]. cbn [heapify_up].
  destruct (Z.ltb_spec 0 i) as [Hpos|Hz].
  - assert (parent i = par i) as -> by (unfold parent, par; by rewrite u64_small by lia).
    pose proof (par_range i Hpos) as Hp. rewrite !hv_get by lia. cbn.
    destruct (Z.leb_spec 0 (cmp (hv l i) (hv l (par i)))) as [Hge|Hlt].
    + eexists. split; [done|]. split; [|auto with vox]. intros k Hk.
      destruct (decide (k = i)) as [->|]; [by apply cmp_flip|]. by apply Hinv.
    + destruct (swap_cells_ok l i (par i) n) as (l1 & -> & Hr & Hv); [lia..|]. cbn.
      destruct (IH l1 (par i)) as (l2 & Hu & Ho & Hr2); [lia|destruct Hr; lia|lia| |lia|].
      { apply (up_step l l1 n i); [lia|done..]. }
      exists l2. split; [done|]. split; [done|]. by eapply rearranged_trans.
  - assert (i = 0) as -> by lia. eexists. split; [done|]. split; [|auto with vox].
    intros k Hk. apply Hinv; lia.
Qed.

Lemma cmp_lt_le a b c : cmp a b < 0 -> cmp b c <= 0 -> cmp a c < 0.
Proof.
  intros H1 H2. destruct (Z.ltb_spec (cmp a c) 0) as [|Hge]; [done|].
  apply cmp_flip in Hge. pose proof (cmp_trans b c a H2 Hge). pose proof (cmp_sign a b). lia.
Qed.

Lemma pick_ok l n s c :
  0 <= s < n -> 0 <= c -> n <= zlen l ->
  exists s', pick cmp l n s c = Some s' /\
    (s' = s \/ s' = c /\ c < n /\ cmp (hv l c) (hv l s) < 0) /\
    cmp (hv l s') (hv l s) <= 0 /\ (c < n -> cmp (hv l s') (hv l c) <= 0).
Proof.
  intros Hs Hc Hn. unfold pick. destruct (Z.ltb_spec c n) as [E|E].
  - rewrite !hv_get by lia. cbn. eexists. split; [done|].
    destruct (Z.ltb_spec (cmp (hv l c) (hv l s)) 0) as [Hlt|Hge].
    + split; [right; lia|]. split; [lia|]. intros _. apply cmp_refl.
    + split; [by left|]. split; [apply cmp_refl|]. intros _. by apply cmp_flip.
  - eexists. split; [done|]. split; [by left|]. split; [apply cmp_refl|lia].
Qed.

(** The index of the smallest of a cell and its children. *)
Lemma pick_smallest l n i :
  0 <= i < n -> n <= zlen l -> n <= 2 ^ 60 ->
  exists s1 s, pick cmp l n i (left_child i) = Some s1 /\
    pick cmp l n s1 (right_child i) = Some s /\
    (s = i \/ i < s < n /\ par s = i /\ cmp (hv l s) (hv l i) < 0) /\
    forall k, 0 < k < n -> par k = i -> cmp (hv l s) (hv l k) <= 0.
Proof.
  intros Hi Hn Hb. unfold left_child, right_child. rewrite !u64_small by lia.
  destruct (pick_ok l n i (2 * i + 1)) as (s1 & E1 & H1 & L1 & C1); [lia..|].
  destruct (pick_ok l n s1 (2 * i + 2)) as (s & E2 & H2 & L2 & C2); [lia..|].
  exists s1, s. split; [done|]. split; [done|]. split.
  - destruct H2 as [->|(-> & ? & ?)].
    + destruct H1 as [->|(-> & ? & ?)]; [by left|right].
      split; [lia|]. split; [apply par_children; lia|done].
    + right. split; [lia|]. split; [apply par_children; lia|]. by eapply cmp_lt_le.
  - intros k Hk Hpk. apply par_children in Hpk as [->| ->]; [|apply C2; lia|lia].
    eapply cmp_trans; [exact L2|]. apply C1. lia.
Qed.

Lemma down_step l l' n i s :
  0 <= i < n -> i < s < n -> par s = i -> down_inv l n i ->
  cmp (hv l s) (hv l i) <= 0 ->
  (forall k, 0 < k < n -> par k = i -> cmp (hv l s) (hv l k) <= 0) ->
  (forall k, 0 <= k ->
     hv l' k = if decide (k = s) then hv l i else if decide (k = i) then hv l s else hv l k) ->
  down_inv l' n s.
Proof.
  intros Hi Hs Hps [H1 H2] Hle Hmin Hv. split.
  - intros k Hk Hpk. pose proof (par_range k ltac:(lia)). rewrite !Hv by lia.
    rewrite (decide_False (P := par k = s)) by done.
    destruct (decide (par k = i)) as [E|E].
    + case_decide; [done|]. rewrite decide_False by lia. by apply Hmin.
    + rewrite (decide_False (P := k = s)) by congruence.
      case_decide; [subst k; apply H2; lia|]. by apply H1.
  - intros k Hk Hpk Hs0. pose proof (par_range k ltac:(lia)). rewrite Hps, !Hv by lia.
    rewrite (decide_False (P := i = s)), (decide_True (P := i = i)) by lia.
    rewrite decide_False, decide_False by lia. rewrite <-Hpk. apply H1; lia.
Qed.

Lemma heapify_down_ok fuel l n i :
  0 <= i < n -> n <= zlen l -> n <= 2 ^ 60 -> down_inv l n i -> n - i <= Z.of_nat fuel ->
  exists l', heapify_down fuel cmp l n i = Some l' /\ heap_ordered cmp l' n /\ rearranged l l' n.
Proof.
  revert l i. induction fuel as [|fuel IH]; intros l i Hi Hn Hb Hinv Hf; [lia|]. cbn [heapify_down].
  destruct (pick_smallest l n i) as (s1 & s & -> & E2 & Hs & Hmin); [lia..|]. cbn. rewrite E2. cbn.
  destruct (Z.eqb_spec s i) as [->|Hne].
  - eexists. split; [done|]. split; [|auto with vox]. intros k Hk.
    destruct (decide (par k = i)) as [<-|]; [by apply Hmin|]. by apply Hinv.
  - destruct Hs as [?|(Hsn & Hps & Hlt)]; [done|].
    destruct (swap_cells_ok l i s n) as (l1 & -> & Hr & Hv); [lia..|]. cbn.
    destruct (IH l1 s) as (l2 & Hu & Ho & Hr2); [lia|destruct Hr; lia|lia| |lia|].
    { apply (down_step l l1 n i s); try done; lia. }
    exists l2. split; [done|]. split; [done|]. by eapply rearranged_trans.
Qed.

(** On an ordered heap the upward pass finds nothing to do. *)
Lemma heapify_up_id fuel l n i :
  0 <= i < n -> n <= zlen l -> n <= 2 ^ 60 -> heap_ordered cmp l n ->
  heapify_up (S fuel) cmp l i = Some l.
Proof.
  intros Hi Hn Hb Ho. cbn [heapify_up]. destruct (Z.ltb_spec 0 i) as [Hpos|]; [|done].
  assert (parent i = par i) as -> by (unfold parent, par; by rewrite u64_small by lia).
  pose proof (par_range i Hpos) as Hp. rewrite !hv_get by lia. cbn.
  by rewrite (proj2 (Z.leb_le _ _)) by (apply cmp_flip, Ho; lia).
Qed.

(** The root is a minimum. *)
Lemma root_min l n k : heap_ordered cmp l n -> 0 <= k < n -> cmp (hv l 0) (hv l k) <= 0.
Proof.
  intros Ho. induction k as [k IH] using (well_founded_induction (Z.lt_wf 0)). intros Hk.
  destruct (decide (k = 0)) as [->|]; [apply cmp_refl|].
  pose proof (par_range k ltac:(lia)). eapply cmp_trans; [apply (IH (par k)); lia|]. apply Ho. lia.
Qed.
End order.

(** ** One call, and the priority queue it implements *)

Inductive mheap_op :=
| HPush (elem : Z) | HPop | HPeek | HRemove (elem : Z) | HClear | HSize | HEmpty.

Definition mheap_exec {P} `{MPool P} (junk : Z) (p : P) (h : vox_mheap) (op : mheap_op)
  : option (P * vox_mheap * Z) :=
  match op with
  | HPush e => vox_mheap_push junk p h e
  | HPop => '(h, r) ← vox_mheap_pop h; Some (p, h, r)
  | HPeek => r ← vox_mheap_peek h; Some (p, h, r)
  | HRemove e => '(h, r) ← vox_mheap_remove h e; Some (p, h, r)
  | HClear => '(h, _) ← vox_mheap_clear h; Some (p, h, 0)
  | HSize => Some (p, h, vox_mheap_size h)
  | HEmpty => Some (p, h, Z.b2z (vox_mheap_empty h))
  end.

(** [minimum cmp l m]: no element of [l] is smaller than [m]. *)
Definition minimum (cmp : Z -> Z -> Z) (l : list Z) (m : Z) : Prop := forall x, x ∈ l -> cmp m x <= 0.

(** The bag [l], the call, the bag after it and the value returned. *)
Inductive pq_spec (cmp : Z -> Z -> Z) (l : list Z) : mheap_op -> list Z -> Z -> Prop :=
| pq_push_null : pq_spec cmp l (HPush NULL) l (-1)
| pq_push e l' : e <> NULL -> l' ≡ₚ e :: l -> pq_spec cmp l (HPush e) l' 0
| pq_pop_empty : l = [] -> pq_spec cmp l HPop [] NULL
| pq_pop m l' : l ≡ₚ m :: l' -> minimum cmp l m -> pq_spec cmp l HPop l' m
| pq_peek_empty : l = [] -> pq_spec cmp l HPeek [] NULL
| pq_peek m : m ∈ l -> minimum cmp l m -> pq_spec cmp l HPeek l m
| pq_remove_absent e : e = NULL \/ e ∉ l -> pq_spec cmp l (HRemove e) l (-1)
| pq_remove e l' : e <> NULL -> l ≡ₚ e :: l' -> pq_spec cmp l (HRemove e) l' 0
| pq_clear : pq_spec cmp l HClear [] 0
| pq_size : pq_spec cmp l HSize l (zlen l)
| pq_empty : pq_spec cmp l HEmpty l (Z.b2z (zlen l =? 0)).

Section refinement.
Context {P : Type} `{MPoolLaws P} (junk : Z).
Implicit Types (p : P) (h : vox_mheap).

Definition contents h : list Z := take (Z.to_nat (size h)) (elements h).

Record mheap_inv p h : Prop := {
  hi_pool : mp_inv p;
  hi_size : 0 <= size h <= capacity h;
  hi_cap : 0 < capacity h /\ capacity h * sizeof_ptr <= PTRDIFF_MAX;
  hi_cells : zlen (elements h) = capacity h;
  hi_order : heap_ordered (cmp_func h) (elements h) (size h);
  hi_owned : owned p (self h) (elements_at h);
}.

(** The same heap object, well formed, every other block of the pool untouched. *)
Definition heap_keep p h p' h' : Prop :=
  mheap_inv p' h' /\ cmp_func h' = cmp_func h /\ self h' = self h /\
  frame p' (self h') (elements_at h') = frame p (self h) (elements_at h).

Lemma heap_keep_refl p h : mheap_inv p h -> heap_keep p h p h.
Proof. intros Hi. by repeat split; try apply Hi. Qed.

Lemma mheap_inv_cells p h l n :
  mheap_inv p h -> 0 <= n <= capacity h -> zlen l = capacity h -> heap_ordered (cmp_func h) l n ->
  heap_keep p h p (with_elements h l n).
Proof. intros [] ???. by split; [constructor|]. Qed.

Lemma heap_contents_zlen p h : mheap_inv p h -> zlen (contents h) = size h.
Proof. intros [_ ? _ Hc _ _]. unfold contents. rewrite zlen_take. lia. Qed.

Lemma contents_hv p h x :
  mheap_inv p h -> x ∈ contents h <-> exists k, 0 <= k < size h /\ hv (elements h) k = x.
Proof.
  intros [_ Hs _ Hc _ _]. unfold contents, zlen in *. rewrite list_elem_of_lookup. split.
  - intros [i Hi]. apply lookup_take_Some in Hi as [Hx Hlt]. exists (Z.of_nat i).
    split; [lia|]. unfold hv. rewrite arr_get_lookup, Nat2Z.id, Hx by lia. done.
  - intros (k & Hk & <-). exists (Z.to_nat k). rewrite lookup_take_lt by lia.
    rewrite <-arr_get_lookup by lia. apply hv_get. unfold zlen. lia.
Qed.

Lemma root_minimum `{!CmpLaws (cmp_func h)} p :
  mheap_inv p h -> 0 < size h ->
  hv (elements h) 0 ∈ contents h /\ minimum (cmp_func h) (contents h) (hv (elements h) 0).
Proof.
  intros Hi Hs. pose proof Hi as [_ ? _ Hc Ho _]. split.
  - apply (contents_hv p); [done|]. exists 0. split; [lia|done].
  - intros x (k & Hk & <-)%(contents_hv p); [|done]. by eapply root_min.
Qed.

(** [expand_heap] makes room or changes nothing. *)
Lemma expand_heap_spec p h :
  mheap_inv p h -> exists p' h' rc,
  expand_heap junk p h = Some (p', h', rc) /\ heap_keep p h p' h' /\
  contents h' = contents h /\ size h' = size h /\
  ((rc = 0 /\ size h' < capacity h') \/ (rc = -1 /\ exists n, 0 < n /\ mp_alloc p n = (p', NULL))).
Proof.
  intros Hi. pose proof Hi as [Hp Hsz Hcap Hlen Ho Hown].
  unfold expand_heap. rewrite u64_small by (unfold sizeof_ptr, PTRDIFF_MAX in *; lia).
  rewrite (proj2 (Z.ltb_ge _ _)) by lia.
  destruct (alloc_cells junk p (capacity h * 2) sizeof_ptr) as [[p1 a] cells] eqn:E.
  eapply (grow_cells junk p p1 (self h) (elements_at h)) in E as
    [(-> & Hp1 & Hl & Hn)|(Hnn & Hlc & Hmax & Hp1 & Hown' & Hf)];
    [| |done|done|unfold sizeof_ptr, PTRDIFF_MAX in *; lia..].
  - destruct (owned_live p p1 _ _ Hl Hown) as [Ho' Hfr]. cbn. do 3 eexists.
    split_and!; [done|by split; [constructor|]|done|done|]. right. split; [done|].
    eexists; split; [|done]. unfold sizeof_ptr. lia.
  - rewrite (proj2 (Z.eqb_neq a NULL)) by done. rewrite arr_blit_ok by lia. cbn.
    rewrite Z.add_0_l, drop_0. change (Z.to_nat 0) with 0%nat. rewrite take_0, app_nil_l.
    set (l' := take _ (elements h) ++ _).
    assert (Hhv : forall k, 0 <= k < size h -> hv l' k = hv (elements h) k).
    { intros k Hk. unfold hv, l'. rewrite !arr_get_lookup by lia.
      rewrite lookup_app_l by (rewrite length_take; unfold zlen in *; lia).
      by rewrite lookup_take_lt by lia. }
    do 3 eexists. split; [done|]. split; [split; [constructor; cbn; try done|done]|].
    + lia.
    + lia.
    + unfold l'. zlia.
    + intros k Hk. pose proof (par_range k ltac:(lia)). rewrite !Hhv by lia. by apply Ho.
    + split; [|split; [done|left; cbn; lia]]. unfold contents, l'; cbn.
      rewrite take_app_le by (rewrite length_take; unfold zlen in *; lia).
      by rewrite take_take, Nat.min_id.
Qed.

Definition heap_result p h op : Prop :=
  exists p' h' r, mheap_exec junk p h op = Some (p', h', r) /\ heap_keep p h p' h' /\
    (pq_spec (cmp_func h) (contents h) op (contents h') r \/
     (exists e, op = HPush e) /\ contents h' ≡ₚ contents h /\ r = -1 /\
      exists n, 0 < n /\ mp_alloc p n = (p', NULL)).

(** Adding a cell at the end of an ordered heap. *)
Lemma append_up_inv cmp l n e :
  0 <= n < zlen l -> heap_ordered cmp l n -> up_inv cmp (<[Z.to_nat n := e]> l) (n + 1) n.
Proof.
  intros Hn Ho. split.
  - intros k Hk Hne. pose proof (par_range k ltac:(lia)). rewrite !hv_insert by lia.
    rewrite !decide_False by lia. apply Ho. lia.
  - intros k Hk Hpk. apply par_children in Hpk; lia.
Qed.

Lemma heap_push_result `{!CmpLaws (cmp_func h)} p e : mheap_inv p h -> heap_result p h (HPush e).
Proof.
  intros Hi. destruct (Z.eqb_spec e NULL) as [->|He].
  { do 3 eexists. split; [done|]. split; [by apply heap_keep_refl|]. left. constructor. }
  assert (exists p' h' rc,
    (if capacity h <=? size h then expand_heap junk p h else Some (p, h, 0)) = Some (p', h', rc) /\
    heap_keep p h p' h' /\ contents h' = contents h /\ size h' = size h /\
    ((rc = 0 /\ size h' < capacity h') \/ (rc = -1 /\ exists n, 0 < n /\ mp_alloc p n = (p', NULL))))
    as (p' & h' & rc & Hg & Hk & Hc & Hs & Hrc).
  { destruct (Z.leb_spec (capacity h) (size h)); [by apply expand_heap_spec|].
    do 3 eexists. split; [done|]. split; [by apply heap_keep_refl|]. repeat split. left. lia. }
  pose proof Hk as (Hi' & Hcmp & Hself & Hf). pose proof Hi' as [_ Hsz Hcap Hlen Ho _].
  unfold heap_result. cbn [mheap_exec]. unfold vox_mheap_push.
  rewrite (proj2 (Z.eqb_neq _ _)) by done. rewrite Hg. cbn.
  destruct Hrc as [[-> Hroom]|[-> (n & Hn & Hnull)]]; cbn.
  - rewrite arr_set_ok by lia. cbn. rewrite Hcmp in Ho |- *.
    destruct (heapify_up_ok (cmp_func h) (loop_fuel (size h' + 1)) 
      (<[Z.to_nat (size h') := e]> (elements h')) (size h' + 1) (size h' + 1 - 1))
      as (l' & Hup & Ho' & Hz & Hperm);
      [lia|rewrite zlen_insert; lia|unfold sizeof_ptr, PTRDIFF_MAX in *; lia| |unfold loop_fuel; lia|].
    { replace (size h' + 1 - 1) with (size h') by lia. apply append_up_inv; [lia|done]. }
    rewrite Hup. cbn. do 3 eexists. split; [done|]. split.
    + rewrite zlen_insert in Hz. rewrite <-Hcmp in Ho'.
      destruct (mheap_inv_cells p' h' l' (size h' + 1) Hi') as (Hi2 & ?); [lia..|done|].
      split; [done|]. by split.
    + left. apply pq_push; [done|]. unfold contents at 1; cbn. rewrite Hperm, <-Hc.
      unfold contents. replace (Z.to_nat (size h' + 1)) with (S (Z.to_nat (size h'))) by lia.
      unfold zlen in *. erewrite take_S_r by (apply list_lookup_insert_eq; lia).
      rewrite take_insert_ge by lia. by rewrite Permutation_app_comm.
  - do 3 eexists. split; [done|]. split; [done|]. right. split; [by eexists|].
    split; [by rewrite Hc|]. split; [done|]. by eexists.
Qed.

(** Replacing a cell by the last one and dropping the end: the bag loses exactly
    that cell. *)
Lemma drop_last_perm (l : list Z) n i :
  0 <= i < n - 1 -> n <= zlen l ->
  take (Z.to_nat n) l ≡ₚ
  hv l i :: take (Z.to_nat (n - 1)) (<[Z.to_nat i := hv l (n - 1)]> l).
Proof.
  intros Hi Hn. unfold zlen in Hn.
  assert (Hx : l !! Z.to_nat i = Some (hv l i))
    by (rewrite <-arr_get_lookup by lia; apply hv_get; unfold zlen; lia).
  assert (Hy : l !! Z.to_nat (n - 1) = Some (hv l (n - 1)))
    by (rewrite <-arr_get_lookup by lia; apply hv_get; unfold zlen; lia).
  replace (Z.to_nat n) with (S (Z.to_nat (n - 1))) by lia.
  rewrite (take_S_r _ _ _ Hy). rewrite take_insert_lt by lia.
  assert (Hx' : take (Z.to_nat (n - 1)) l !! Z.to_nat i = Some (hv l i))
    by (rewrite lookup_take_lt by lia; done).
  rewrite (delete_Permutation _ _ _ Hx') at 1. rewrite delete_take_drop.
  rewrite insert_take_drop by (rewrite length_take; lia).
  cbn [app]. apply perm_skip. rewrite <-app_assoc. apply Permutation_app_head.
  by rewrite Permutation_app_comm.
Qed.

Lemma contents_tail h n :
  1 <= n -> size h = n -> n <= zlen (elements h) ->
  contents h ≡ₚ hv (elements h) (n - 1) :: take (Z.to_nat (n - 1)) (elements h).
Proof.
  intros Hn Hs Hl. unfold contents, zlen in *. rewrite Hs.
  replace (Z.to_nat n) with (S (Z.to_nat (n - 1))) by lia.
  rewrite (take_S_r _ _ (hv (elements h) (n - 1))).
  - by rewrite Permutation_app_comm.
  - rewrite <-arr_get_lookup by lia. apply hv_get. unfold zlen. lia.
Qed.

Lemma heap_pop_result `{!CmpLaws (cmp_func h)} p : mheap_inv p h -> heap_result p h HPop.
Proof.
  intros Hi. pose proof Hi as [_ Hsz Hcap Hlen Ho _]. unfold heap_result. cbn [mheap_exec].
  unfold vox_mheap_pop. destruct (Z.eqb_spec (size h) 0) as [E|E].
  { do 3 eexists. split; [done|]. split; [by apply heap_keep_refl|]. left.
    assert (contents h = []) as -> by (unfold contents; by rewrite E). by constructor. }
  destruct (root_minimum p Hi) as [Hin Hmin]; [lia|].
  rewrite !hv_get by lia. cbn. rewrite arr_set_ok by lia. cbn.
  set (l1 := <[_ := _]> (elements h)).
  assert (zlen l1 = capacity h) as Hl1 by (unfold l1; by rewrite zlen_insert).
  destruct (Z.ltb_spec 0 (size h - 1)) as [E1|E1].
  - destruct (heapify_down_ok (cmp_func h) (loop_fuel (size h - 1)) l1 (size h - 1) 0)
      as (l2 & -> & Ho2 & Hz2 & Hp2);
      [lia|lia|unfold sizeof_ptr, PTRDIFF_MAX in *; lia| |unfold loop_fuel; lia|].
    { split; [|lia]. intros k Hk Hpk. pose proof (par_range k ltac:(lia)). unfold l1.
      change 0%nat with (Z.to_nat 0). rewrite !hv_insert by lia. rewrite !decide_False by lia.
      apply Ho. lia. }
    cbn. do 3 eexists. split; [done|]. split; [apply mheap_inv_cells; [done|lia..|done]|].
    left. apply pq_pop; [|done]. unfold contents at 2; cbn. rewrite Hp2.
    apply (drop_last_perm (elements h) (size h) 0); lia.
  - cbn. assert (size h = 1) as Hs1 by lia. rewrite Hs1. change (1 - 1) with 0.
    do 3 eexists. split; [done|]. split.
    + apply mheap_inv_cells; [done|lia..|]. intros k Hk. lia.
    + left. apply pq_pop; [|done]. rewrite (contents_tail h 1) by lia. done.
Qed.

Lemma peek_result `{!CmpLaws (cmp_func h)} p : mheap_inv p h -> heap_result p h HPeek.
Proof.
  intros Hi. pose proof Hi as [_ Hsz Hcap Hlen Ho _]. unfold heap_result. cbn [mheap_exec].
  unfold vox_mheap_peek. destruct (Z.eqb_spec (size h) 0) as [E|E].
  { do 3 eexists. split; [done|]. split; [by apply heap_keep_refl|]. left.
    assert (contents h = []) as -> by (unfold contents; by rewrite E). by constructor. }
  rewrite hv_get by lia. cbn. destruct (root_minimum p Hi) as [Hin Hmin]; [lia|].
  do 3 eexists. split; [done|]. split; [by apply heap_keep_refl|]. left. by constructor.
Qed.

Lemma find_index_ok (l : list Z) e i n :
  0 <= i -> i + Z.of_nat n <= zlen l ->
  exists r, find_index l e i n = Some r /\
    match r with
    | Some j => i <= j < i + Z.of_nat n /\ hv l j = e
    | None => forall j, i <= j < i + Z.of_nat n -> hv l j <> e
    end.
Proof.
  revert i. induction n as [|n IH]; intros i Hi Hn; cbn [find_index].
  - eexists. split; [done|]. cbn. lia.
  - rewrite hv_get by lia. cbn. destruct (Z.eqb_spec (hv l i) e) as [E|E].
    + eexists. split; [done|]. cbn. split; [lia|done].
    + destruct (IH (i + 1)) as (r & -> & Hr); [lia..|]. exists r. split; [done|].
      destruct r as [j|]; [split; [lia|apply Hr]|]. intros j Hj.
      destruct (decide (j = i)) as [->|]; [done|]. apply Hr. lia.
Qed.

(** After the last cell moved to [i], either it is not smaller than the parent and
    the downward pass restores the order, or it is smaller and only the upward
    pass has something to do. *)
Lemma replace_restore cmp `{!CmpLaws cmp} (l : list Z) n i x :
  0 <= i < n -> n <= zlen l -> n <= 2 ^ 60 -> heap_ordered cmp l n ->
  let l0 := <[Z.to_nat i := x]> l in
  exists l1 l2, heapify_down (loop_fuel n) cmp l0 n i = Some l1 /\
    (if 0 <? i then heapify_up (loop_fuel n) cmp l1 i else Some l1) = Some l2 /\
    heap_ordered cmp l2 n /\ rearranged l0 l2 n.
Proof.
  intros Hi Hn Hb Ho l0.
  assert (Hz : zlen l0 = zlen l) by apply zlen_insert.
  assert (Hv : forall k, 0 <= k -> hv l0 k = if decide (i = k) then x else hv l k)
    by (intros; apply hv_insert; lia).
  destruct (decide (i = 0 \/ cmp (hv l (par i)) x <= 0)) as [Hup|Hdn].
  - destruct (heapify_down_ok cmp (loop_fuel n) l0 n i) as (l1 & E & Ho1 & Hr);
      [lia|lia|lia| |unfold loop_fuel; lia|].
    { split.
      - intros k Hk Hpk. pose proof (par_range k ltac:(lia)). rewrite !Hv by lia.
        rewrite (decide_False (P := i = par k)) by lia.
        case_decide; [subst k|by apply Ho]. destruct Hup; [lia|done].
      - intros k Hk Hpk Hi0. pose proof (par_range k ltac:(lia)). pose proof (par_range i Hi0).
        rewrite !Hv by lia. rewrite !decide_False by lia.
        eapply cmp_trans; [apply (Ho i); lia|]. rewrite <-Hpk. apply Ho. lia. }
    exists l1, l1. split; [done|]. split; [|done].
    destruct (0 <? i); [|done]. destruct Hr as [? _]. apply (heapify_up_id cmp _ l1 n i); [lia..|done].
  - assert (Hi0 : 0 < i) by lia. pose proof (par_range i Hi0) as Hpi.
    assert (Hlt : cmp x (hv l (par i)) <= 0) by (apply (cmp_flip cmp); lia).
    assert (Hg : forall k, 0 < k < n -> par k = i -> cmp (hv l (par i)) (hv l k) <= 0).
    { intros k Hk Hpk. eapply cmp_trans; [apply (Ho i); lia|]. rewrite <-Hpk. apply Ho. lia. }
    assert (Ed : heapify_down (loop_fuel n) cmp l0 n i = Some l0).
    { unfold loop_fuel. cbn [heapify_down].
      destruct (pick_smallest cmp l0 n i) as (s1 & s & -> & E2 & Hs & Hmin); [lia..|].
      cbn. rewrite E2. cbn. destruct (Z.eqb_spec s i) as [|Hne]; [done|]. exfalso.
      destruct Hs as [?|(Hsn & Hps & Hs)]; [done|].
      rewrite !Hv, decide_False, decide_True in Hs by lia.
      assert (cmp x (hv l s) <= 0) by (eapply cmp_trans; [exact Hlt|]; apply Hg; lia).
      pose proof (cmp_sign (hv l s) x). lia. }
    destruct (heapify_up_ok cmp (loop_fuel n) l0 n i) as (l2 & E & Ho2 & Hr);
      [lia|lia|lia| |unfold loop_fuel; lia|].
    { split.
      - intros k Hk Hki. pose proof (par_range k ltac:(lia)). rewrite !Hv by lia.
        rewrite (decide_False (P := i = k)) by lia.
        case_decide; [subst i|by apply Ho]. eapply cmp_trans; [exact Hlt|]. apply Hg; lia.
      - intros k Hk Hpk _. pose proof (par_range k ltac:(lia)). rewrite !Hv by lia.
        rewrite !decide_False by lia. by apply Hg. }
    exists l0, l2. split; [done|]. rewrite (proj2 (Z.ltb_lt 0 i)) by lia. by rewrite E.
Qed.

Lemma heap_remove_result `{!CmpLaws (cmp_func h)} p e : mheap_inv p h -> heap_result p h (HRemove e).
Proof.
  intros Hi. pose proof Hi as [_ Hsz Hcap Hlen Ho _]. unfold heap_result. cbn [mheap_exec].
  unfold vox_mheap_remove.
  assert (Habs : e = NULL \/ e ∉ contents h ->
    exists p' h' r, Some (p, h, -1) = Some (p', h', r) /\ heap_keep p h p' h' /\
      (pq_spec (cmp_func h) (contents h) (HRemove e) (contents h') r \/
       (exists e0, HRemove e = HPush e0) /\ contents h' ≡ₚ contents h /\ r = -1 /\
        exists n, 0 < n /\ mp_alloc p n = (p', NULL))).
  { intros Ha. do 3 eexists. split; [done|]. split; [by apply heap_keep_refl|]. left. by constructor. }
  destruct (Z.eqb_spec e NULL) as [->|He]; [cbn; by apply Habs; left|].
  destruct (Z.eqb_spec (size h) 0) as [E0|E0]; cbn.
  { apply Habs. right. unfold contents. rewrite E0. cbn. apply not_elem_of_nil. }
  destruct (find_index_ok (elements h) e 0 (Z.to_nat (size h))) as (r & -> & Hr); [lia..|]. cbn.
  destruct r as [i|].
  2:{ apply Habs. right. intros (k & Hk & Hx)%(contents_hv p); [|done]. apply (Hr k); [lia|done]. }
  destruct Hr as [Hi' Hx]. destruct (Z.eqb_spec i (size h - 1)) as [E|E].
  - do 3 eexists. split; [done|]. split.
    + apply mheap_inv_cells; [done|lia..|]. intros k Hk. apply Ho. lia.
    + left. apply pq_remove; [done|]. rewrite (contents_tail h (size h)) by lia.
      rewrite <-E, Hx. done.
  - rewrite hv_get by lia. cbn. rewrite arr_set_ok by lia. cbn.
    assert (Hon : heap_ordered (cmp_func h) (elements h) (size h - 1)) by (intros k Hk; apply Ho; lia).
    destruct (replace_restore (cmp_func h) (elements h) (size h - 1) i (hv (elements h) (size h - 1)))
      as (l1 & l2 & Ed & Eu & Ho2 & Hz & Hp2);
      [lia|lia|unfold sizeof_ptr, PTRDIFF_MAX in *; lia|done|].
    rewrite Ed. cbn. rewrite Z.eqb_refl. cbn [andb]. rewrite Eu. cbn.
    rewrite zlen_insert in Hz. do 3 eexists. split; [done|].
    split; [apply mheap_inv_cells; [done|lia..|done]|]. left. apply pq_remove; [done|].
    unfold contents at 2; cbn. rewrite Hp2, <-Hx. apply drop_last_perm; lia.
Qed.

Lemma walk_ok (l : list Z) i n :
  0 <= i -> i + Z.of_nat n <= zlen l -> walk l i n = Some (take n (drop (Z.to_nat i) l)).
Proof.
  revert i. induction n as [|n IH]; intros i Hi Hn; cbn [walk]; [done|].
  destruct (arr_get_Some l i) as [e He]; [lia|]. rewrite He. cbn. rewrite IH by lia. cbn.
  rewrite arr_get_lookup in He by lia. rewrite (drop_S _ _ _ He).
  by replace (Z.to_nat (i + 1)) with (S (Z.to_nat i)) by lia.
Qed.

Lemma heap_clear_result p h : mheap_inv p h -> heap_result p h HClear.
Proof.
  intros Hi. pose proof Hi as [_ Hsz Hcap Hlen Ho _]. unfold heap_result. cbn [mheap_exec].
  unfold vox_mheap_clear. rewrite walk_ok by lia.
  assert (forall f : list Z, exists p' h' r, Some (p, with_elements h (elements h) 0, 0) = Some (p', h', r) /\
    heap_keep p h p' h' /\ (pq_spec (cmp_func h) (contents h) HClear (contents h') r \/
    (exists e0, HClear = HPush e0) /\ contents h' ≡ₚ contents h /\ r = -1 /\
        exists n, 0 < n /\ mp_alloc p n = (p', NULL))) as Hc.
  { intros _. do 3 eexists. split; [done|]. split; [|left; constructor].
    apply mheap_inv_cells; [done|lia..|]. intros k Hk. lia. }
  destruct (elem_free h); cbn; by apply (Hc []).
Qed.

(** The simulation of one call. *)
Lemma heap_op_ok `{!CmpLaws (cmp_func h)} p op : mheap_inv p h -> heap_result p h op.
Proof.
  intros Hi. destruct op.
  - by apply heap_push_result.
  - by apply heap_pop_result.
  - by apply peek_result.
  - by apply heap_remove_result.
  - by apply heap_clear_result.
  - do 3 eexists. split; [done|]. split; [by apply heap_keep_refl|]. left.
    unfold vox_mheap_size. rewrite <-(heap_contents_zlen p h Hi). constructor.
  - do 3 eexists. split; [done|]. split; [by apply heap_keep_refl|]. left.
    unfold vox_mheap_empty. rewrite <-(heap_contents_zlen p h Hi). constructor.
Qed.


(** Creation gives an empty heap that owns exactly its two blocks. *)
Lemma heap_create_ok p config p' h :
  mp_inv p -> (forall c, config = Some c -> initial_capacity c <= 2 ^ 60) ->
  vox_mheap_create_with_config junk p config = (p', Some h) ->
  mheap_inv p' h /\ contents h = [] /\ frame p' (self h) (elements_at h) = mp_live p.
Proof.
  intros Hp Hcfg. unfold vox_mheap_create_with_config.
  destruct (mp_alloc p sizeof_mheap) as [p1 at1] eqn:E1.
  destruct (Z.eqb_spec at1 NULL) as [|Hat]; [done|].
  set (cap := match config with Some c => if 0 <? _ then _ else _ | None => _ end).
  assert (0 < cap <= 2 ^ 60) as Hcap.
  { unfold cap, VOX_MHEAP_DEFAULT_INITIAL_CAPACITY. destruct config as [c|]; [|lia].
    specialize (Hcfg c eq_refl). case_one; lia. }
  clearbody cap. destruct (alloc_cells junk p1 cap sizeof_ptr) as [[p2 a] cells] eqn:E2.
  destruct (Z.eqb_spec a NULL) as [|Ha]; [done|]. intros [= <- <-].
  destruct (create_blocks junk p p1 p2 sizeof_mheap cap sizeof_ptr at1 a cells)
    as (Hp2 & Hown & Hf & Hlen & Hmax); try done; try (unfold sizeof_ptr; lia).
  split; [|done]. constructor; cbn; try done; try lia. intros k Hk. lia.
Qed.

(** A sequence of calls. *)
Fixpoint mheap_run p h (ops : list mheap_op) : option (P * vox_mheap * list Z) :=
  match ops with
  | [] => Some (p, h, [])
  | op :: ops =>
      '(p, h, r) ← mheap_exec junk p h op;
      '(p, h, rs) ← mheap_run p h ops;
      Some (p, h, r :: rs)
  end.

Lemma mheap_run_ok p h ops :
  CmpLaws (cmp_func h) -> mheap_inv p h ->
  exists p' h' rs, mheap_run p h ops = Some (p', h', rs) /\ heap_keep p h p' h'.
Proof.
  revert p h. induction ops as [|op ops IH]; intros p h Hcmp Hi; cbn.
  - do 3 eexists. split; [done|]. by apply heap_keep_refl.
  - destruct (heap_op_ok p op Hi) as (p1 & h1 & r & -> & (Hi1 & Hc1 & Hs1 & Hf1) & _). cbn.
    destruct (IH p1 h1) as (p2 & h2 & rs & -> & (Hi2 & Hc2 & Hs2 & Hf2)); [by rewrite Hc1|done|].
    cbn. do 3 eexists. split; [done|]. split; [done|]. split_and!; congruence.
Qed.

(** [n] successive pops. *)
Fixpoint drain (n : nat) h : option (list Z * vox_mheap) :=
  match n with
  | O => Some ([], h)
  | S n => '(h, m) ← vox_mheap_pop h; '(ms, h) ← drain n h; Some (m :: ms, h)
  end.

Lemma drain_ok n p h :
  CmpLaws (cmp_func h) -> mheap_inv p h -> length (contents h) = n ->
  exists ms h', drain n h = Some (ms, h') /\ ms ≡ₚ contents h /\
    StronglySorted (fun a b => cmp_func h a b <= 0) ms /\ contents h' = [].
Proof.
  revert h. induction n as [|n IH]; intros h Hcmp Hi Hn; cbn.
  - apply nil_length_inv in Hn. do 2 eexists. split; [done|]. rewrite Hn.
    split; [done|]. split; [constructor|done].
  - destruct (heap_pop_result p Hi) as (p1 & h1 & m & He & (Hi1 & Hc1 & _) & [Hspec|([e ?] & _)]); [|done].
    cbn [mheap_exec] in He.
    destruct (vox_mheap_pop h) as [[h1' m']|]; [|done]. cbn in He. injection He as <- -> ->. cbn.
    inversion Hspec as [| |E|m' l' Hperm Hmin| | | | | | |]; subst; [by rewrite E in Hn|].
    destruct (IH h1) as (ms & h2 & -> & Hms & Hsort & Hend); [by rewrite Hc1|done| |].
    { apply Permutation_length in Hperm. cbn in Hperm. lia. }
    cbn. do 2 eexists. split; [done|]. split; [by rewrite Hms|]. split; [|done].
    rewrite Hc1 in Hsort. constructor; [done|]. apply Forall_forall. intros x Hx.
    apply Hmin. rewrite Hperm. right. by rewrite <-Hms.
Qed.

(** ** Elements that all compare equal

    Then nothing is ever moved up or down: push appends, and pop puts the last element in
    the place of the first. *)

(** The rest of a line whose head left: the last one comes to the front. *)
Definition refill (q : list Z) : list Z :=
  match last q with Some b => b :: take (length q - 1) q | None => [] end.

Lemma refill_snoc q b : refill (q ++ [b]) = b :: q.
Proof. unfold refill. rewrite last_snoc, length_app. cbn. by rewrite Nat.add_sub, take_app_length. Qed.

Lemma heapify_down_flat fuel cmp l n :
  0 < n <= zlen l -> (forall x y, x ∈ take (Z.to_nat n) l -> y ∈ take (Z.to_nat n) l -> cmp x y = 0) ->
  heapify_down (S fuel) cmp l n 0 = Some l.
Proof.
  intros Hn Hflat. cbn [heapify_down].
  assert (forall c, 0 <= c -> pick cmp l n 0 c = Some 0) as Hpick.
  { intros c Hc. unfold pick. destruct (Z.ltb_spec c n); [|done]. rewrite !hv_get by lia. cbn [mbind option_bind].
    assert (forall i, 0 <= i < n -> hv l i ∈ take (Z.to_nat n) l) as Hin.
    { intros i Hi. apply (list_elem_of_lookup_2 _ (Z.to_nat i)). rewrite lookup_take_lt by lia.
      rewrite <-arr_get_lookup by lia. apply hv_get. lia. }
    by rewrite (Hflat (hv l c) (hv l 0)) by (apply Hin; lia). }
  rewrite (Hpick (left_child 0)) by done. cbn [mbind option_bind]. rewrite (Hpick (right_child 0)) by done. done.
Qed.

Lemma pop_flat p h a q :
  mheap_inv p h -> contents h = a :: q -> (forall x y, x ∈ contents h -> y ∈ contents h -> cmp_func h x y = 0) ->
  exists h', vox_mheap_pop h = Some (h', a) /\ contents h' = refill q.
Proof.
  intros Hi Hc Hflat. pose proof Hi as [_ Hsz Hcap Hlen _ _]. unfold contents in Hc.
  pose proof (take_drop (Z.to_nat (size h)) (elements h)) as Hd. rewrite Hc in Hd.
  set (rest := drop _ _) in Hd.
  assert (size h = 1 + zlen q) as Hs.
  { apply (f_equal length) in Hc. rewrite length_take in Hc. unfold zlen in *. cbn in Hc. lia. }
  pose proof (zlen_nonneg q). unfold vox_mheap_pop. rewrite (proj2 (Z.eqb_neq _ _)), <-Hd by lia.
  destruct q as [|b q _] using rev_ind.
  - cbn in Hs. rewrite Hs. cbn. eexists. split; [done|]. unfold contents. cbn. done.
  - pose proof (zlen_nonneg q). rewrite zlen_app, zlen_cons, zlen_nil in *. rewrite refill_snoc.
    change ((a :: q ++ [b]) ++ rest) with (a :: ((q ++ [b]) ++ rest)). rewrite <-app_assoc. cbn [app].
    rewrite (arr_get_app [] a _ 0 eq_refl : (a :: q ++ b :: rest).[0] = _). cbn [mbind option_bind].
    rewrite (arr_get_app (a :: q) b rest (size h - 1) ltac:(rewrite zlen_cons; lia) : (a :: q ++ b :: rest).[_] = _). cbn [mbind option_bind].
    rewrite arr_set_ok by (rewrite zlen_cons; pose proof (zlen_nonneg (q ++ b :: rest)); lia). cbn [mbind option_bind Z.to_nat]. cbn [list_insert insert].
    rewrite (proj2 (Z.ltb_lt _ _)) by lia.
    assert (take (Z.to_nat (size h - 1)) (b :: q ++ b :: rest) = b :: q) as Ht.
    { replace (Z.to_nat (size h - 1)) with (S (length q)) by (unfold zlen in *; lia). cbn. by rewrite take_app_length. }
    unfold loop_fuel. rewrite heapify_down_flat.
    + cbn [mbind option_bind]. eexists. split; [done|]. unfold contents. cbn. exact Ht.
    + split; [lia|]. change (size h - 1 <= zlen (b :: q ++ b :: rest)).
      rewrite zlen_cons, zlen_app, zlen_cons. pose proof (zlen_nonneg rest). lia.
    + change (forall x y, x ∈ take (Z.to_nat (size h - 1)) (b :: q ++ b :: rest) ->
        y ∈ take (Z.to_nat (size h - 1)) (b :: q ++ b :: rest) -> cmp_func h x y = 0). rewrite Ht.
      assert (forall x, x ∈ b :: q -> x ∈ contents h) as Hin.
      { intros x. unfold contents. rewrite Hc, !elem_of_cons, elem_of_app, list_elem_of_singleton. tauto. }
      intros x y Hx Hy. by apply Hflat; apply Hin.
Qed.

Lemma push_flat p h a :
  mheap_inv p h -> a <> NULL -> size h < capacity h ->
  (forall x, x ∈ contents h -> cmp_func h a x = 0) ->
  exists h', vox_mheap_push junk p h a = Some (p, h', 0) /\ contents h' = contents h ++ [a].
Proof.
  intros Hi Ha Hroom Hflat. pose proof Hi as [_ Hsz Hcap Hlen _ _]. unfold vox_mheap_push.
  rewrite (proj2 (Z.eqb_neq _ _)), (proj2 (Z.leb_gt _ _)) by done. cbn [mbind option_bind].
  rewrite Z.eqb_refl. cbn [negb]. rewrite arr_set_ok by lia. cbn [mbind option_bind].
  assert (take (Z.to_nat (size h + 1)) (<[Z.to_nat (size h) := a]> (elements h)) = contents h ++ [a]) as Ht.
  { unfold contents. replace (Z.to_nat (size h + 1)) with (S (Z.to_nat (size h))) by lia.
    erewrite take_S_r by (apply list_lookup_insert_eq; unfold zlen in *; lia). by rewrite take_insert_ge. }
  replace (size h + 1 - 1) with (size h) by lia. unfold loop_fuel. cbn [heapify_up].
  destruct (Z.ltb_spec 0 (size h)) as [Hpos|Hpos].
  - assert (parent (size h) = par (size h)) as -> by (unfold parent, par; rewrite u64_small; [done|unfold sizeof_ptr, PTRDIFF_MAX in *; lia]).
    pose proof (par_range (size h) Hpos) as Hpar. rewrite !hv_get by (rewrite zlen_insert; lia). cbn [mbind option_bind].
    rewrite !hv_insert, decide_True, decide_False by lia.
    rewrite Hflat; [|apply (contents_hv p h); [done|]; exists (par (size h)); split; [lia|done]].
    cbn. eexists. split; [done|]. unfold contents at 1. cbn. exact Ht.
  - cbn. eexists. split; [done|]. unfold contents at 1. cbn. exact Ht.
Qed.

(** C4: A heap of vox_mheap.c is a priority queue: started on a well-formed heap
    whose comparison function is a total preorder, every operation stays inside the
    array, keeps the heap order, the size bookkeeping and every other block of the
    pool, and acts on the bag of elements as specified: push adds the element, pop
    and peek return a least element, remove takes out exactly one occurrence, and a
    push whose growth the pool refused returns -1 with the bag unchanged. *)
Theorem mheap_refines_pq p h op :
  CmpLaws (cmp_func h) -> mheap_inv p h ->
  exists p' h' r, mheap_exec junk p h op = Some (p', h', r) /\ heap_keep p h p' h' /\
    (pq_spec (cmp_func h) (contents h) op (contents h') r \/
     (exists e, op = HPush e) /\ contents h' ≡ₚ contents h /\ r = -1 /\
      exists n, 0 < n /\ mp_alloc p n = (p', NULL)).
Proof. intros Hcmp Hi. by apply heap_op_ok. Qed.

(** C5: After any sequence of operations, popping until the heap is empty yields
    every element still held, exactly once each, in non-decreasing order. *)
Theorem mheap_drain_sorted p h ops :
  CmpLaws (cmp_func h) -> mheap_inv p h ->
  exists p' h' rs, mheap_run p h ops = Some (p', h', rs) /\
  exists ms h2, drain (length (contents h')) h' = Some (ms, h2) /\
    ms ≡ₚ contents h' /\ StronglySorted (fun a b => cmp_func h a b <= 0) ms /\ contents h2 = [].
Proof.
  intros Hcmp Hi. destruct (mheap_run_ok p h ops Hcmp Hi) as (p' & h' & rs & Hr & (Hi' & Hc' & _)).
  do 3 eexists. split; [done|]. rewrite <-Hc'. eapply drain_ok; [by rewrite Hc'|done|done].
Qed.
End refinement.

(** ** Concrete runs *)

Definition ex_config : vox_mheap_config :=
  {| initial_capacity := 2; config_cmp_func := None; config_elem_free := false |}.
Definition ex_dummy : vox_mheap :=
  {| self := 0; elements_at := 0; elements := []; size := 0; capacity := 0;
     cmp_func := default_cmp; elem_free := false |}.
Definition ex_created := vox_mheap_create_with_config 0 (bump_new 4096) (Some ex_config).
Definition ex_ops : list mheap_op := [HPush 30; HPush 10; HPush 20; HPush 5; HRemove 10].

Definition ex_pool : bump := ex_created.1.
Definition ex_heap : vox_mheap := default ex_dummy ex_created.2.

Lemma heap_ex_inv : mheap_inv ex_pool ex_heap.
Proof.
  refine (proj1 (heap_create_ok 0 (bump_new 4096) (Some ex_config) _ _ (bump_new_inv 4096 ltac:(lia)) _ _)).
  - by intros c [= <-].
  - reflexivity.
Qed.

Lemma ex_cmp_laws : CmpLaws (cmp_func ex_heap).
Proof. exact default_cmp_laws. Qed.

Lemma mheap_refines_pq_witness :
  CmpLaws (cmp_func ex_heap) /\ mheap_inv ex_pool ex_heap /\
  exists p' h' r, mheap_exec 0 ex_pool ex_heap (HPush 7) = Some (p', h', r) /\
    contents h' = [7] /\ r = 0.
Proof.
  split; [exact ex_cmp_laws|]. split; [exact heap_ex_inv|].
  destruct (mheap_refines_pq 0 ex_pool ex_heap (HPush 7) ex_cmp_laws heap_ex_inv) as (p' & h' & r & E & _).
  exists p', h', r. split; [exact E|]. revert E. vm_compute. intros [= _ <- <-]. split; reflexivity.
Defined.

Lemma mheap_drain_sorted_witness :
  mheap_inv ex_pool ex_heap /\
  exists p' h' rs, mheap_run 0 ex_pool ex_heap ex_ops = Some (p', h', rs) /\
  (exists ms h2, drain (length (contents h')) h' = Some (ms, h2) /\
    ms ≡ₚ contents h' /\ StronglySorted (fun a b => cmp_func ex_heap a b <= 0) ms /\
    contents h2 = []) /\
  fst <$> drain 3 h' = Some [5; 20; 30].
Proof.
  split; [exact heap_ex_inv|].
  destruct (mheap_drain_sorted 0 ex_pool ex_heap ex_ops ex_cmp_laws heap_ex_inv) as (p' & h' & rs & E & Hd).
  exists p', h', rs. split; [exact E|]. split; [exact Hd|].
  assert (('(_, h, _) ← mheap_run 0 ex_pool ex_heap ex_ops; fst <$> drain 3 h) = Some [5; 20; 30]) as Hv
    by (vm_compute; reflexivity).
  rewrite E in Hv. exact Hv.
Defined.

End MHeap.
