(* ===== verification/Timer.v ===== *)
(** * vox_timer.c: the timers of an event loop

    The timer functions of src/vox_timer.c over the loop's timer heap
    (src/vox_loop.c, MHeap.v). The timers are objects in memory that the heap
    holds by address and that the heap's comparison function reads, so the model
    has an explicit store of timers. A callback is user code: what it does to
    timers is a list of calls of the timer functions, chosen from the state. *)

From Stdlib Require Import Sorting.Sorted.
From S2P Require Import Prelude Alloc MHeap.

Module Timer.
Import MHeap.

(** src/vox_timer.h:25-32: struct vox_timer *)
Record vox_timer := {
  t_loop : Z;
  timeout : Z;
  repeat_us : Z;
  callback : Z;
  user_data : Z;
  active : bool;
}.

Definition zero_timer : vox_timer :=
  {| t_loop := NULL; timeout := 0; repeat_us := 0; callback := NULL; user_data := NULL;
     active := false |}.

Definition set_active (t : vox_timer) (b : bool) : vox_timer :=
  {| t_loop := t_loop t; timeout := timeout t; repeat_us := repeat_us t;
     callback := callback t; user_data := user_data t; active := b |}.
Definition set_timeout (t : vox_timer) (x : Z) : vox_timer :=
  {| t_loop := t_loop t; timeout := x; repeat_us := repeat_us t;
     callback := callback t; user_data := user_data t; active := active t |}.
Definition set_repeat (t : vox_timer) (x : Z) : vox_timer :=
  {| t_loop := t_loop t; timeout := timeout t; repeat_us := x;
     callback := callback t; user_data := user_data t; active := active t |}.

(** The memory of the timers, by address. *)
Abbreviation timer_mem := (gmap Z vox_timer).
Definition timer_at (m : timer_mem) (a : Z) : vox_timer := default zero_timer (m !! a).

(** The comparison function vox_timer.c defines (and does not use).

    src/vox_timer.c: timer_cmp *)
Definition timer_cmp (m : timer_mem) (a b : Z) : Z :=
  if timeout (timer_at m a) <? timeout (timer_at m b) then -1
  else if timeout (timer_at m b) <? timeout (timer_at m a) then 1 else 0.

(** The comparison function the loop installs: it reads the objects through a
    struct whose first field is the timeout, so it compares the first 64-bit word
    of [struct vox_timer], the loop pointer.

    src/vox_loop.c: timer_cmp *)
Definition loop_timer_cmp (m : timer_mem) (a b : Z) : Z :=
  if t_loop (timer_at m a) <? t_loop (timer_at m b) then -1
  else if t_loop (timer_at m b) <? t_loop (timer_at m a) then 1 else 0.

(** The part of [struct vox_loop] the timers use, with the pool the heap grows in
    and the timers' memory. [cmp_fn] is the heap's comparison function, which reads
    that memory.

    src/vox_loop.c:86-115: struct vox_loop *)
Record vox_loop (P : Type) := {
  pool : P;
  loop_at : Z;
  loop_time : Z;
  timers : vox_mheap;
  mem : timer_mem;
  cmp_fn : timer_mem -> Z -> Z -> Z;
}.
#[global] Arguments pool {P}.
#[global] Arguments loop_at {P}.
#[global] Arguments loop_time {P}.
#[global] Arguments timers {P}.
#[global] Arguments mem {P}.
#[global] Arguments cmp_fn {P}.

Definition with_cmp (h : vox_mheap) (f : Z -> Z -> Z) : vox_mheap :=
  {| self := self h; elements_at := elements_at h; elements := elements h; size := size h;
     capacity := capacity h; cmp_func := f; elem_free := elem_free h |}.

Section operations.
Context {P : Type} `{MPool P}.
Context (junk : Z).
Implicit Types L : vox_loop P.

(** The timer heap with its comparison function reading the present memory. *)
Definition heap_view L : vox_mheap := with_cmp (timers L) (cmp_fn L (mem L)).

Definition set_heap L (p : P) (h : vox_mheap) : vox_loop P :=
  {| pool := p; loop_at := loop_at L; loop_time := loop_time L; timers := h; mem := mem L;
     cmp_fn := cmp_fn L |}.
Definition set_mem L (a : Z) (t : vox_timer) : vox_loop P :=
  {| pool := pool L; loop_at := loop_at L; loop_time := loop_time L; timers := timers L;
     mem := <[a := t]> (mem L); cmp_fn := cmp_fn L |}.
Definition set_time L (now : Z) : vox_loop P :=
  {| pool := pool L; loop_at := loop_at L; loop_time := now; timers := timers L;
     mem := mem L; cmp_fn := cmp_fn L |}.

Definition timers_push L (a : Z) : option (vox_loop P * Z) :=
  '(p, h, rc) ← vox_mheap_push junk (pool L) (heap_view L) a; Some (set_heap L p h, rc).
Definition timers_remove L (a : Z) : option (vox_loop P) :=
  '(h, _) ← vox_mheap_remove (heap_view L) a; Some (set_heap L (pool L) h).
Definition timers_pop L : option (vox_loop P) :=
  '(h, _) ← vox_mheap_pop (heap_view L); Some (set_heap L (pool L) h).

(** src/vox_loop.c: vox_loop_now *)
Definition vox_loop_now L : Z := loop_time L.

(** src/vox_timer.c: vox_timer_init *)
Definition vox_timer_init L (a loop : Z) : vox_loop P * Z :=
  if (a =? NULL) || (loop =? NULL) then (L, -1) else
  (set_mem L a {| t_loop := loop; timeout := 0; repeat_us := 0; callback := NULL;
                  user_data := NULL; active := false |}, 0).

(** The timer's loop is the one modelled; any other is outside the model.

    src/vox_timer.c: vox_timer_stop *)
Definition vox_timer_stop L (a : Z) : option (vox_loop P * Z) :=
  if a =? NULL then Some (L, -1) else
  t ← mem L !! a;
  if negb (active t) then Some (L, -1) else
  let L := set_mem L a (set_active t false) in
  guard! t_loop t =? loop_at L;
  L ← timers_remove L a;
  Some (L, 0).

(** src/vox_timer.c: vox_timer_start *)
Definition vox_timer_start L (a timeout_ms repeat_ms cb ud : Z) : option (vox_loop P * Z) :=
  if a =? NULL then Some (L, -1) else
  t ← mem L !! a;
  if (t_loop t =? NULL) || (cb =? NULL) then Some (L, -1) else
  guard! t_loop t =? loop_at L;
  L ← (if active t then fst <$> vox_timer_stop L a else Some L);
  let now := vox_loop_now L in
  let t := {| t_loop := t_loop t; timeout := u64 (now + u64 (timeout_ms * 1000));
              repeat_us := u64 (repeat_ms * 1000); callback := cb; user_data := ud;
              active := true |} in
  let L := set_mem L a t in
  '(L, rc) ← timers_push L a;
  if negb (rc =? 0) then Some (set_mem L a (set_active t false), -1) else
  Some (L, 0).

(** src/vox_timer.c: vox_timer_again *)
Definition vox_timer_again L (a : Z) : option (vox_loop P * Z) :=
  if a =? NULL then Some (L, -1) else
  t ← mem L !! a;
  if t_loop t =? NULL then Some (L, -1) else
  if negb (active t) then Some (L, -1) else
  if repeat_us t =? 0 then Some (L, -1) else
  guard! t_loop t =? loop_at L;
  L ← timers_remove L a;
  let now := vox_loop_now L in
  let t := set_timeout t (u64 (now + repeat_us t)) in
  let L := set_mem L a t in
  '(L, rc) ← timers_push L a;
  if negb (rc =? 0) then Some (set_mem L a (set_active t false), -1) else
  Some (L, 0).

(** src/vox_timer.c: vox_timer_is_active *)
Definition vox_timer_is_active L (a : Z) : option bool :=
  if a =? NULL then Some false else t ← mem L !! a; Some (active t).

(** src/vox_timer.c: vox_timer_get_repeat *)
Definition vox_timer_get_repeat L (a : Z) : option Z :=
  if a =? NULL then Some 0 else t ← mem L !! a; Some (repeat_us t / 1000).

(** src/vox_timer.c: vox_timer_set_repeat *)
Definition vox_timer_set_repeat L (a repeat_ms : Z) : option (vox_loop P * Z) :=
  if a =? NULL then Some (L, -1) else
  t ← mem L !! a;
  Some (set_mem L a (set_repeat t (u64 (repeat_ms * 1000))), 0).

(** src/vox_timer.c: vox_timer_destroy *)
Definition vox_timer_destroy L (a : Z) : option (vox_loop P) :=
  if a =? NULL then Some L else
  t ← mem L !! a;
  L ← (if active t then fst <$> vox_timer_stop L a else Some L);
  Some (set_mem L a zero_timer).

(** The calls a program or a callback makes. *)
Inductive timer_op :=
| TInit (a : Z)
| TStart (a timeout_ms repeat_ms cb ud : Z)
| TStop (a : Z)
| TAgain (a : Z)
| TIsActive (a : Z)
| TGetRepeat (a : Z)
| TSetRepeat (a repeat_ms : Z)
| TDestroy (a : Z).

Definition timer_exec L (op : timer_op) : option (vox_loop P * Z) :=
  match op with
  | TInit a => Some (vox_timer_init L a (loop_at L))
  | TStart a ms rep cb ud => vox_timer_start L a ms rep cb ud
  | TStop a => vox_timer_stop L a
  | TAgain a => vox_timer_again L a
  | TIsActive a => b ← vox_timer_is_active L a; Some (L, Z.b2z b)
  | TGetRepeat a => r ← vox_timer_get_repeat L a; Some (L, r)
  | TSetRepeat a ms => vox_timer_set_repeat L a ms
  | TDestroy a => L ← vox_timer_destroy L a; Some (L, 0)
  end.

Fixpoint timer_run L (ops : list timer_op) : option (vox_loop P * list Z) :=
  match ops with
  | [] => Some (L, [])
  | op :: ops =>
      '(L, r) ← timer_exec L op; '(L, rs) ← timer_run L ops; Some (L, r :: rs)
  end.

(** A callback invocation: the timer, the function, its argument and the deadline
    that had passed. *)
Record fired := Fired { f_timer : Z; f_cb : Z; f_data : Z; f_deadline : Z }.

(** What the callback [cb] invoked on timer [a] with data [ud] does in a state. *)
Context (script : vox_loop P -> Z -> Z -> Z -> list timer_op).

(** src/vox_timer.c:182-214: vox_timer_process_expired *)
Fixpoint process_loop (fuel : nat) (now : Z) L : option (vox_loop P * list fired) :=
  match fuel with
  | O => None
  | S fuel =>
      if vox_mheap_empty (timers L) then Some (L, []) else
      a ← vox_mheap_peek (timers L);
      if a =? NULL then Some (L, []) else
      t ← mem L !! a;
      if negb (active t) then L ← timers_pop L; process_loop fuel now L else
      if now <? timeout t then Some (L, []) else
      L ← timers_pop L;
      '(L, ev) ← (if callback t =? NULL then Some (L, []) else
                  '(L, _) ← timer_run L (script L (callback t) a (user_data t));
                  Some (L, [Fired a (callback t) (user_data t) (timeout t)]));
      t ← mem L !! a;
      L ← (if (0 <? repeat_us t) && active t
           then fst <$> timers_push (set_mem L a (set_timeout t (u64 (now + repeat_us t)))) a
           else Some (set_mem L a (set_active t false)));
      '(L, evs) ← process_loop fuel now L;
      Some (L, ev ++ evs)
  end.

(** src/vox_timer.c:169-180: vox_timer_process_expired *)
Definition vox_timer_process_expired (fuel : nat) L : option (vox_loop P * list fired) :=
  process_loop fuel (vox_loop_now L) L.

(** src/vox_timer.c:228-236: vox_timer_get_next_timeout *)
Fixpoint skip_inactive (fuel : nat) L (a : Z) : option (vox_loop P * option Z) :=
  match fuel with
  | O => None
  | S fuel =>
      if a =? NULL then Some (L, None) else
      t ← mem L !! a;
      if active t then Some (L, Some a) else
      L ← timers_pop L;
      if vox_mheap_empty (timers L) then Some (L, None) else
      a ← vox_mheap_peek (timers L);
      skip_inactive fuel L a
  end.

(** src/vox_timer.c: vox_timer_get_next_timeout *)
Definition vox_timer_get_next_timeout L : option (vox_loop P * Z) :=
  if vox_mheap_empty (timers L) then Some (L, -1) else
  a ← vox_mheap_peek (timers L);
  '(L, r) ← skip_inactive (loop_fuel (size (timers L))) L a;
  match r with
  | None => Some (L, -1)
  | Some a =>
      t ← mem L !! a;
      let now := vox_loop_now L in
      if timeout t <=? now then Some (L, 0) else
      let diff := u64 (timeout t - now) in
      Some (L, s32 (diff / 1000))
  end.
End operations.

(** ** The order of the heap *)

(** A comparison function that orders timers by a number computed from their
    deadline and their loop. *)
Class TimerOrder (f : timer_mem -> Z -> Z -> Z) := {
  order_key : vox_timer -> Z;
  order_key_ext t t' : timeout t = timeout t' -> t_loop t = t_loop t' -> order_key t = order_key t';
  order_cmp m a b : f m a b = default_cmp (order_key (timer_at m a)) (order_key (timer_at m b));
}.

#[export] Instance timer_cmp_order : TimerOrder timer_cmp.
Proof. by refine {| order_key := timeout |}. Defined.

#[export] Instance loop_timer_cmp_order : TimerOrder loop_timer_cmp.
Proof. by refine {| order_key := t_loop |}. Defined.

Lemma order_laws f `{!TimerOrder f} m : CmpLaws (f m).
Proof.
  split; intros *; rewrite !order_cmp; [apply cmp_sign|apply cmp_trans].
Qed.

Lemma order_le f `{!TimerOrder f} m a b :
  f m a b <= 0 <-> order_key (timer_at m a) <= order_key (timer_at m b).
Proof. rewrite order_cmp. unfold default_cmp. repeat case_one; lia. Qed.

(** ** The invariant *)

Section timers.
Context {P : Type} `{MPoolLaws P} (junk : Z).
Implicit Types L : vox_loop P.

Definition pending L : list Z := contents (timers L).
Definition heap_ok L : Prop := mheap_inv (pool L) (heap_view L).

(** What an operation on timers leaves alone: the loop, its clock and every block of
    the pool that is not the heap's. *)
Definition loop_same L L' : Prop :=
  loop_at L' = loop_at L /\ loop_time L' = loop_time L /\ cmp_fn L' = cmp_fn L /\
  self (timers L') = self (timers L) /\
  frame (pool L') (self (timers L')) (elements_at (timers L'))
  = frame (pool L) (self (timers L)) (elements_at (timers L)).

(** The heap holds exactly the active timers, each once. *)
Record timers_ok L : Prop := {
  to_heap : heap_ok L;
  to_nodup : NoDup (pending L);
  to_mapped a : a ∈ pending L -> is_Some (mem L !! a);
  to_active a t : mem L !! a = Some t -> a ∈ pending L <-> active t = true;
  to_loop a t : mem L !! a = Some t ->
    (t_loop t = loop_at L /\ (active t = true -> callback t <> NULL)) \/
    (t_loop t = NULL /\ active t = false);
  to_null : mem L !! NULL = None /\ loop_at L <> NULL;
}.

Lemma loop_same_refl L : loop_same L L.
Proof. by repeat split. Qed.
Lemma loop_same_trans L1 L2 L3 : loop_same L1 L2 -> loop_same L2 L3 -> loop_same L1 L3.
Proof. intros (?&?&?&?&?) (?&?&?&?&?). repeat split; congruence. Qed.
Lemma loop_same_mem L L' a t : loop_same L L' -> loop_same L (set_mem L' a t).
Proof. done. Qed.

Lemma with_cmp_id (h : vox_mheap) f : cmp_func h = f -> with_cmp h f = h.
Proof. destruct h. by intros <-. Qed.

Lemma view_change p (h : vox_mheap) f g :
  mheap_inv p (with_cmp h f) ->
  (forall x y, x ∈ contents h -> y ∈ contents h -> g x y = f x y) ->
  mheap_inv p (with_cmp h g).
Proof.
  intros Hi Hg. pose proof Hi as [? ? ? ? Ho ?]. constructor; try done. cbn in *.
  intros k Hk. pose proof (par_range k ltac:(lia)). rewrite Hg; [by apply Ho| |].
  - apply (contents_hv p (with_cmp h f)); [done|]. exists (par k). cbn. split; [lia|done].
  - apply (contents_hv p (with_cmp h f)); [done|]. exists k. cbn. split; [lia|done].
Qed.

Section ordered.
Context (f : timer_mem -> Z -> Z -> Z) `{!TimerOrder f}.

Lemma heap_set_mem L a t :
  cmp_fn L = f -> heap_ok L ->
  (a ∉ pending L \/ order_key t = order_key (timer_at (mem L) a)) -> heap_ok (set_mem L a t).
Proof.
  intros Hf Hi Ha. unfold heap_ok, heap_view in *. cbn. eapply view_change; [exact Hi|].
  intros x y Hx Hy. rewrite Hf, !order_cmp.
  assert (Hk : forall z, z ∈ contents (timers L) ->
    order_key (timer_at (<[a:=t]> (mem L)) z) = order_key (timer_at (mem L) z)).
  { intros z Hz. unfold timer_at at 1. destruct (decide (z = a)) as [->|Hne].
    - rewrite lookup_insert_eq. destruct Ha; [by exfalso|done].
    - by rewrite lookup_insert_ne. }
  by rewrite !Hk.
Qed.

Lemma timers_remove_ok L a :
  cmp_fn L = f -> heap_ok L -> a <> NULL -> a ∈ pending L ->
  exists L', timers_remove L a = Some L' /\ heap_ok L' /\ loop_same L L' /\ mem L' = mem L /\
    pending L ≡ₚ a :: pending L'.
Proof.
  intros Hf Hi Hnn Ha. unfold timers_remove.
  assert (CmpLaws (cmp_func (heap_view L))) as Hc by (cbn; rewrite Hf; by apply order_laws).
  destruct (heap_op_ok junk (pool L) (HRemove a) Hi) as (p' & h' & r & He & Hk & Hspec).
  cbn [mheap_exec] in He. destruct (vox_mheap_remove (heap_view L) a) as [[h1 r1]|]; [|done].
  cbn in He. injection He as <- -> ->. cbn. destruct Hk as (Hi' & Hcmp & Hself & Hfr).
  eexists. split; [done|]. split; [|split; [|split; [done|]]].
  - unfold heap_ok, heap_view. cbn. by rewrite with_cmp_id.
  - by repeat split.
  - destruct Hspec as [Hspec|([? ?] & _)]; [|done].
    inversion Hspec as [| | | | | |? [?|?]|? ? ? Hp| | |]; subst; done.
Qed.

Lemma timers_push_ok L a :
  cmp_fn L = f -> heap_ok L -> a <> NULL ->
  exists L' rc, timers_push junk L a = Some (L', rc) /\ heap_ok L' /\ loop_same L L' /\
    mem L' = mem L /\
    ((rc = 0 /\ pending L' ≡ₚ a :: pending L) \/
     (rc = -1 /\ pending L' ≡ₚ pending L /\ exists n, 0 < n /\ mp_alloc (pool L) n = (pool L', NULL))) /\
    (size (timers L) < capacity (timers L) -> rc = 0).
Proof.
  intros Hf Hi Hnn. unfold timers_push.
  assert (CmpLaws (cmp_func (heap_view L))) as Hc by (cbn; rewrite Hf; by apply order_laws).
  destruct (heap_op_ok junk (pool L) (HPush a) Hi) as (p' & h' & r & He & Hk & Hspec).
  cbn [mheap_exec] in He. rewrite He. cbn. destruct Hk as (Hi' & Hcmp & Hself & Hfr).
  do 2 eexists. split; [done|]. split; [|split; [|split; [done|split]]].
  - unfold heap_ok, heap_view. cbn. by rewrite with_cmp_id.
  - by repeat split.
  - destruct Hspec as [Hspec|(_ & Hp & -> & Hn)]; [left|by right].
    inversion Hspec as [|? ? ? Hp| | | | | | | | |]; subst; done.
  - intros Hroom. revert He. unfold vox_mheap_push. rewrite (proj2 (Z.eqb_neq _ _)) by done.
    cbn. rewrite (proj2 (Z.leb_gt _ _)) by done. cbn.
    destruct (arr_set _ _ _); cbn; [|done]. destruct (heapify_up _ _ _ _); cbn; [|done]. congruence.
Qed.

(** The root of a non-empty heap: what peek shows and pop takes. *)
Lemma timers_root L :
  cmp_fn L = f -> heap_ok L -> vox_mheap_empty (timers L) = false ->
  exists a L', vox_mheap_peek (timers L) = Some a /\ timers_pop L = Some L' /\
    heap_ok L' /\ loop_same L L' /\ mem L' = mem L /\ pending L ≡ₚ a :: pending L' /\
    size (timers L') < capacity (timers L') /\
    forall b, b ∈ pending L -> order_key (timer_at (mem L) a) <= order_key (timer_at (mem L) b).
Proof.
  intros Hf Hi He. unfold vox_mheap_empty in He. apply Z.eqb_neq in He.
  assert (CmpLaws (cmp_func (heap_view L))) as Hc by (cbn; rewrite Hf; by apply order_laws).
  pose proof (heap_contents_zlen (pool L) (heap_view L) Hi) as Hz.
  change (zlen (contents (timers L)) = size (timers L)) in Hz.
  pose proof (hi_size _ _ Hi) as Hsz. cbn in Hsz.
  destruct (root_minimum (pool L) Hi) as [Hin Hmin]; [cbn; lia|]. cbn in Hmin.
  destruct (heap_op_ok junk (pool L) HPop Hi) as (p' & h' & r & Hx & Hk & Hspec).
  cbn [mheap_exec] in Hx. unfold timers_pop.
  assert (r = hv (elements (timers L)) 0 /\ capacity h' = capacity (timers L)) as [-> Hcap].
  { revert Hx. unfold vox_mheap_pop. cbn. rewrite (proj2 (Z.eqb_neq _ _)) by done.
    rewrite (hv_get _ 0) by (pose proof (hi_cells _ _ Hi); cbn in *; lia). cbn.
    destruct (arr_get _ _); cbn; [|done]. destruct (arr_set _ _ _); cbn; [|done].
    case_match; [destruct (heapify_down _ _ _ _ _); cbn; [|done]|cbn];
      by intros [= _ <- <-]. }
  destruct (vox_mheap_pop (heap_view L)) as [[h1 r1]|]; [|done]. cbn in Hx.
  injection Hx as <- -> ->. cbn. destruct Hk as (Hi' & Hcmp & Hself & Hfr).
  destruct Hspec as [Hspec|([? ?] & _)]; [|done].
  assert (contents (timers L) ≡ₚ hv (elements (timers L)) 0 :: contents h') as Hp.
  { inversion Hspec as [| |E| | | | | | | |]; subst; [|done].
    change (contents (timers L) = []) in E. rewrite E, zlen_nil in Hz. lia. }
  exists (hv (elements (timers L)) 0). eexists. split.
  { unfold vox_mheap_peek. rewrite (proj2 (Z.eqb_neq _ _)) by done.
    apply hv_get. pose proof (hi_cells _ _ Hi). cbn in *. lia. }
  split; [done|]. split; [|split; [|split; [done|split; [done|split]]]].
  - unfold heap_ok, heap_view. cbn. by rewrite with_cmp_id.
  - by repeat split.
  - cbn. pose proof (heap_contents_zlen _ h' Hi') as Hz'. rewrite Hcap, <-Hz'.
    apply Permutation_length in Hp. cbn in Hp. unfold zlen in *. lia.
  - intros b Hb. rewrite <-order_le, <-Hf. by apply Hmin.
Qed.

(** Rebuilding the invariant after one timer changed. *)
Lemma timers_ok_update L L' a t rest :
  timers_ok L -> heap_ok L' -> loop_at L' = loop_at L -> a <> NULL ->
  mem L' = <[a := t]> (mem L) ->
  (pending L ≡ₚ a :: rest \/ (pending L ≡ₚ rest /\ a ∉ rest)) ->
  pending L' ≡ₚ (if active t then a :: rest else rest) ->
  ((t_loop t = loop_at L /\ (active t = true -> callback t <> NULL)) \/
   (t_loop t = NULL /\ active t = false)) ->
  timers_ok L'.
Proof.
  intros [_ Hnd Hmap Hact Hloop [Hnull Hnn]] Hh Hat Ha Hm Hrest Hp Hlt.
  assert (NoDup rest /\ a ∉ rest) as [Hnr Har].
  { destruct Hrest as [Hr|[Hr ?]]; [|by rewrite Hr in Hnd].
    rewrite Hr in Hnd. apply NoDup_cons in Hnd. by destruct Hnd. }
  assert (Hin : forall b, b <> a -> b ∈ pending L <-> b ∈ rest).
  { intros b Hb. destruct Hrest as [->|[-> _]]; [|done].
    rewrite elem_of_cons. split; [by intros [?|?]|by right]. }
  assert (Hin' : forall b, b ∈ pending L' <-> (b = a /\ active t = true) \/ (b <> a /\ b ∈ rest)).
  { intros b. rewrite Hp. destruct (active t); [rewrite elem_of_cons|];
      destruct (decide (b = a)) as [->|]; clear -Har n || clear -Har; intuition congruence. }
  constructor; [done| | | | |].
  - rewrite Hp. destruct (active t); [by apply NoDup_cons|done].
  - intros b Hb. rewrite Hm. destruct (decide (b = a)) as [->|Hne].
    + rewrite lookup_insert_eq. done.
    + rewrite lookup_insert_ne by done. apply Hmap, Hin; [done|].
      apply Hin' in Hb as [[? _]|[_ ?]]; done.
  - intros b u. rewrite Hm, lookup_insert_Some, Hin'. intros [[<- <-]|[Hne Hu]].
    + split; [by intros [[_ ?]|[? _]]|by left].
    + rewrite <-(Hact b u Hu), (Hin b) by done. split; [by intros [[? _]|[_ ?]]|].
      right. by split.
  - intros b u. rewrite Hm, Hat, lookup_insert_Some. intros [[<- <-]|[_ Hu]]; [done|by eapply Hloop].
  - rewrite Hm, Hat, lookup_insert_ne by done. done.
Qed.

Lemma pending_split L a t :
  timers_ok L -> mem L !! a = Some t -> active t = true -> a ∈ pending L.
Proof. intros Hok Ht Ha. by eapply to_active. Qed.

Lemma pending_rest L a t :
  timers_ok L -> mem L !! a = Some t -> active t = false -> a ∉ pending L.
Proof. intros Hok Ht Ha Hin. eapply to_active in Hin; [|done..]. congruence. Qed.

Lemma timers_ok_nonnull L a : timers_ok L -> is_Some (mem L !! a) -> a <> NULL.
Proof. intros [_ _ _ _ _ [Hn _]] Ha ->. rewrite Hn in Ha. by destruct Ha. Qed.

(** A change of a timer that keeps its place in the heap. *)
Lemma timers_ok_set L a t t' :
  cmp_fn L = f -> timers_ok L -> mem L !! a = Some t ->
  active t' = active t -> t_loop t' = t_loop t ->
  (active t = true -> callback t' <> NULL /\ timeout t' = timeout t) ->
  timers_ok (set_mem L a t').
Proof.
  intros Hf Hok Ht Ha Hl Hc. pose proof (timers_ok_nonnull L a Hok ltac:(by eexists)) as Hnn.
  assert (heap_ok (set_mem L a t')) as Hh.
  { apply heap_set_mem; [done|apply Hok|]. destruct (active t) eqn:E.
    - right. apply order_key_ext; unfold timer_at; rewrite Ht; [by apply Hc|done].
    - left. by eapply pending_rest. }
  assert (exists rest, (pending L ≡ₚ a :: rest \/ (pending L ≡ₚ rest /\ a ∉ rest)) /\
    pending L ≡ₚ (if active t' then a :: rest else rest)) as (rest & Hr & Hp).
  { rewrite Ha. destruct (active t) eqn:E.
    - pose proof (pending_split L a t Hok Ht E) as Hin.
      apply elem_of_Permutation in Hin as [rest Hr]. exists rest. by split; [left|].
    - exists (pending L). split; [right|done]. split; [done|]. by eapply pending_rest. }
  apply (timers_ok_update L (set_mem L a t') a t' rest); try done.
  destruct (to_loop L Hok a t Ht) as [[? ?]|[? ?]]; [left|right]; rewrite Hl, Ha.
  - split; [done|]. intros E. by apply Hc.
  - done.
Qed.

(** The pool refused the growth of the heap. *)
Definition refused (p p' : P) : Prop := exists n, 0 < n /\ mp_alloc p n = (p', NULL).

(** Storing an armed timer [t] and pushing it, when the heap holds every active
    timer but [a]. *)
Lemma arm_ok L0 L a t :
  cmp_fn L = f -> timers_ok L0 -> heap_ok L -> loop_at L = loop_at L0 -> mem L = mem L0 ->
  a <> NULL ->
  (pending L0 ≡ₚ a :: pending L \/ (pending L0 ≡ₚ pending L /\ a ∉ pending L)) ->
  active t = true -> t_loop t = loop_at L -> callback t <> NULL ->
  exists L' rc, timers_push junk (set_mem L a t) a = Some (L', rc) /\ loop_same L L' /\
    (size (timers L) < capacity (timers L) -> rc = 0) /\
    ((rc = 0 /\ timers_ok L' /\ mem L' = <[a := t]> (mem L) /\ pending L' ≡ₚ a :: pending L) \/
     (rc = -1 /\ refused (pool L) (pool L') /\
      timers_ok (set_mem L' a (set_active t false)) /\
      mem (set_mem L' a (set_active t false)) = <[a := set_active t false]> (mem L))).
Proof.
  intros Hf Hok Hh Hat Hm Hnn Hrest Ha Hl Hcb.
  assert (a ∉ pending L) as Hfresh.
  { destruct Hrest as [Hr|[_ ?]]; [|done]. pose proof (to_nodup _ Hok) as Hnd.
    rewrite Hr in Hnd. apply NoDup_cons in Hnd. by destruct Hnd. }
  destruct (timers_push_ok (set_mem L a t) a Hf) as (L' & rc & -> & Hh' & Hs & Hm' & Hrc & Hroom);
    [|done|].
  { apply heap_set_mem; [done|done|by left]. }
  cbn in Hm'. exists L', rc. split; [done|]. split; [done|]. split; [done|].
  destruct Hrc as [[-> Hp]|(-> & Hp & Hn)]; [left|right].
  - split; [done|]. split; [|done].
    apply (timers_ok_update L0 L' a t (pending L)); try done.
    + rewrite <-Hat. apply Hs.
    + by rewrite Hm', Hm.
    + by rewrite Ha.
    + left. by rewrite <-Hat.
  - split; [done|]. split; [done|].
    assert (mem (set_mem L' a (set_active t false)) = <[a := set_active t false]> (mem L)) as Hm2.
    { cbn. by rewrite Hm', insert_insert_eq. }
    split; [|done].
    apply (timers_ok_update L0 _ a (set_active t false) (pending L)); try done.
    + apply heap_set_mem; [|done|].
      * destruct Hs as (_ & _ & -> & _). done.
      * right. apply order_key_ext; unfold timer_at; by rewrite Hm', lookup_insert_eq.
    + cbn. rewrite <-Hat. apply Hs.
    + by rewrite Hm2, Hm.
    + left. cbn. by rewrite <-Hat.
Qed.

Lemma stop_ok L a t :
  cmp_fn L = f -> timers_ok L -> mem L !! a = Some t -> active t = true ->
  exists L', vox_timer_stop L a = Some (L', 0) /\ timers_ok L' /\ loop_same L L' /\
    mem L' = <[a := set_active t false]> (mem L) /\ pending L ≡ₚ a :: pending L'.
Proof.
  intros Hf Hok Ht Ha. pose proof (timers_ok_nonnull L a Hok ltac:(by eexists)) as Hnn.
  pose proof (pending_split L a t Hok Ht Ha) as Hin.
  unfold vox_timer_stop. rewrite (proj2 (Z.eqb_neq _ _)) by done. rewrite Ht. cbn.
  rewrite Ha. cbn. destruct (to_loop L Hok a t Ht) as [[Hl Hcb]|[_ ?]]; [|congruence].
  rewrite Hl, Z.eqb_refl. set (L1 := set_mem L a (set_active t false)).
  destruct (timers_remove_ok L1 a Hf) as (L' & -> & Hh & Hs & Hm & Hp); [|done|done|].
  { apply heap_set_mem; [done|apply Hok|]. right. apply order_key_ext; unfold timer_at; by rewrite Ht. }
  cbn. exists L'. split; [done|]. split; [|done].
  apply (timers_ok_update L L' a (set_active t false) (pending L')); try done.
  - apply Hs.
  - by left.
  - left. done.
Qed.

(** ** The timer functions against their specification *)

(** What a call does to the timers of the loop [loop] at time [now], when the pool
    refuses nothing; [None]: the address is no timer. *)
Definition timer_step (loop now : Z) (m : timer_mem) (op : timer_op) : option (timer_mem * Z) :=
  match op with
  | TInit a =>
      Some (if a =? NULL then (m, -1) else
            (<[a := {| t_loop := loop; timeout := 0; repeat_us := 0; callback := NULL;
                       user_data := NULL; active := false |}]> m, 0))
  | TStart a ms rep cb ud =>
      if a =? NULL then Some (m, -1) else t ← m !! a;
      if (t_loop t =? NULL) || (cb =? NULL) then Some (m, -1) else
      Some (<[a := {| t_loop := loop; timeout := u64 (now + ms * 1000);
                      repeat_us := u64 (rep * 1000); callback := cb; user_data := ud;
                      active := true |}]> m, 0)
  | TStop a =>
      if a =? NULL then Some (m, -1) else t ← m !! a;
      if active t then Some (<[a := set_active t false]> m, 0) else Some (m, -1)
  | TAgain a =>
      if a =? NULL then Some (m, -1) else t ← m !! a;
      if active t && negb (repeat_us t =? 0)
      then Some (<[a := set_timeout t (u64 (now + repeat_us t))]> m, 0) else Some (m, -1)
  | TIsActive a => if a =? NULL then Some (m, 0) else t ← m !! a; Some (m, Z.b2z (active t))
  | TGetRepeat a => if a =? NULL then Some (m, 0) else t ← m !! a; Some (m, repeat_us t / 1000)
  | TSetRepeat a ms =>
      if a =? NULL then Some (m, -1) else t ← m !! a;
      Some (<[a := set_repeat t (u64 (ms * 1000))]> m, 0)
  | TDestroy a =>
      if a =? NULL then Some (m, 0) else t ← m !! a; Some (<[a := zero_timer]> m, 0)
  end.

(** The timer a call arms: it ends up inactive when the pool refuses. *)
Definition armed_by (op : timer_op) : option Z :=
  match op with TStart a _ _ _ _ | TAgain a => Some a | _ => None end.

(** The timer is not initialised while it runs, which would lose it in the heap. *)
Definition op_pre L (op : timer_op) : Prop :=
  match op with
  | TInit a => forall t, mem L !! a = Some t -> active t = false
  | TStart a _ _ _ _ | TStop a | TAgain a | TIsActive a | TGetRepeat a | TSetRepeat a _
  | TDestroy a => a = NULL \/ is_Some (mem L !! a)
  end.

Definition op_done L (op : timer_op) : Prop :=
  exists L' rc, timer_exec junk L op = Some (L', rc) /\ timers_ok L' /\ loop_same L L' /\
  exists m r, timer_step (loop_at L) (loop_time L) (mem L) op = Some (m, r) /\
    ((mem L' = m /\ rc = r) \/
     (rc = -1 /\ refused (pool L) (pool L') /\
      exists a, armed_by op = Some a /\ mem L' = <[a := set_active (timer_at m a) false]> m)).

Lemma op_done_same L op rc :
  timers_ok L -> timer_exec junk L op = Some (L, rc) ->
  timer_step (loop_at L) (loop_time L) (mem L) op = Some (mem L, rc) -> op_done L op.
Proof.
  intros Hok He Hs. exists L, rc. split; [done|]. split; [done|].
  split; [apply loop_same_refl|]. exists (mem L), rc. split; [done|]. by left.
Qed.

Lemma remove_pool L a L' : timers_remove L a = Some L' -> pool L' = pool L.
Proof.
  unfold timers_remove. destruct (vox_mheap_remove _ _) as [[? ?]|]; [|done]. by intros [= <-].
Qed.

Lemma stop_pool L a L' r : vox_timer_stop L a = Some (L', r) -> pool L' = pool L.
Proof.
  unfold vox_timer_stop. case_match; [by intros [= <- _]|].
  destruct (mem L !! a) as [t|]; cbn; [|done]. case_match; [by intros [= <- _]|].
  case_match; [|done]. destruct (timers_remove _ _) as [L1|] eqn:E; cbn; [|done].
  intros [= <- _]. by apply remove_pool in E.
Qed.

Lemma init_done L a : cmp_fn L = f -> timers_ok L -> op_pre L (TInit a) -> op_done L (TInit a).
Proof.
  intros Hf Hok Hpre. cbn in Hpre. destruct (to_null L Hok) as [Hn Hl].
  destruct (Z.eqb_spec a NULL) as [->|Ha].
  { eapply op_done_same; [done|reflexivity|reflexivity]. }
  set (t := {| t_loop := loop_at L; timeout := 0; repeat_us := 0; callback := NULL;
               user_data := NULL; active := false |}).
  assert (a ∉ pending L) as Hnin.
  { intros Hin. destruct (to_mapped L Hok a Hin) as [u Hu].
    eapply to_active in Hin; [|done..]. specialize (Hpre u Hu). congruence. }
  exists (set_mem L a t), 0. split.
  { cbn. unfold vox_timer_init. by rewrite !(proj2 (Z.eqb_neq _ _)). }
  split; [|split; [by apply loop_same_mem, loop_same_refl|]].
  - apply (timers_ok_update L _ a t (pending L)); try done.
    + apply heap_set_mem; [done|apply Hok|by left].
    + by right.
    + by left.
  - exists (<[a := t]> (mem L)), 0. split; [|by left]. cbn. by rewrite (proj2 (Z.eqb_neq _ _)).
Qed.

Lemma stop_done L a : cmp_fn L = f -> timers_ok L -> op_pre L (TStop a) -> op_done L (TStop a).
Proof.
  intros Hf Hok [->|[t Ht]]; [eapply op_done_same; [done|reflexivity|reflexivity]|].
  pose proof (timers_ok_nonnull L a Hok ltac:(by eexists)) as Hnn.
  destruct (active t) eqn:Ea.
  - destruct (stop_ok L a t Hf Hok Ht Ea) as (L' & E & Hok' & Hs & Hm & _).
    exists L', 0. split; [done|]. split; [done|]. split; [done|].
    eexists _, 0. split; [|by left]. cbn. rewrite (proj2 (Z.eqb_neq _ _)), Ht by done. cbn.
    by rewrite Ea.
  - eapply (op_done_same _ _ (-1)); [done| |]; cbn; [unfold vox_timer_stop|];
      rewrite (proj2 (Z.eqb_neq _ _)), Ht by done; cbn; by rewrite Ea.
Qed.

Lemma destroy_done L a :
  cmp_fn L = f -> timers_ok L -> op_pre L (TDestroy a) -> op_done L (TDestroy a).
Proof.
  intros Hf Hok [->|[t Ht]]; [eapply op_done_same; [done|reflexivity|reflexivity]|].
  pose proof (timers_ok_nonnull L a Hok ltac:(by eexists)) as Hnn.
  assert (exists L1, (if active t then fst <$> vox_timer_stop L a else Some L) = Some L1 /\
    timers_ok L1 /\ loop_same L L1 /\ cmp_fn L1 = f /\ mem L1 = <[a := set_active t false]> (mem L))
    as (L1 & E1 & Hok1 & Hs1 & Hf1 & Hm1).
  { destruct (active t) eqn:Ea.
    - destruct (stop_ok L a t Hf Hok Ht Ea) as (L' & -> & Hok' & Hs & Hm & _). exists L'.
      split; [done|]. split; [done|]. split; [done|]. split; [|done]. rewrite <-Hf. apply Hs.
    - exists L. split_and!; try done. rewrite insert_id; [done|]. rewrite Ht. f_equal.
      by destruct t; cbn in *; subst. }
  assert (Hat : mem L1 !! a = Some (set_active t false)) by (by rewrite Hm1, lookup_insert_eq).
  exists (set_mem L1 a zero_timer), 0. split.
  { cbn. unfold vox_timer_destroy. rewrite (proj2 (Z.eqb_neq _ _)), Ht by done. cbn. by rewrite E1. }
  split; [|split; [done|]].
  - apply (timers_ok_update L1 _ a zero_timer (pending L1)); try done.
    + apply heap_set_mem; [done|apply Hok1|left]. by eapply pending_rest.
    + right. split; [done|]. by eapply pending_rest.
    + by right.
  - eexists _, 0. split; [|left; done]. cbn.
    rewrite (proj2 (Z.eqb_neq _ _)), Ht by done. cbn. by rewrite Hm1, insert_insert_eq.
Qed.

Lemma start_done L a ms rep cb ud :
  cmp_fn L = f -> timers_ok L -> op_pre L (TStart a ms rep cb ud) -> op_done L (TStart a ms rep cb ud).
Proof.
  intros Hf Hok [->|[t Ht]]; [eapply op_done_same; [done|reflexivity|reflexivity]|].
  pose proof (timers_ok_nonnull L a Hok ltac:(by eexists)) as Hnn.
  destruct ((t_loop t =? NULL) || (cb =? NULL)) eqn:En.
  { eapply (op_done_same _ _ (-1)); [done| |]; cbn; [unfold vox_timer_start|];
      rewrite (proj2 (Z.eqb_neq _ _)), Ht by done; cbn; by rewrite En. }
  pose proof En as [Hl0 Hcb]%orb_false_iff. apply Z.eqb_neq in Hl0, Hcb.
  destruct (to_loop L Hok a t Ht) as [[Hl _]|[? _]]; [|done].
  assert (exists L1, (if active t then fst <$> vox_timer_stop L a else Some L) = Some L1 /\
    timers_ok L1 /\ loop_same L L1 /\ cmp_fn L1 = f /\ (a ∉ pending L1) /\
    mem L1 = <[a := set_active t false]> (mem L) /\ pool L1 = pool L)
    as (L1 & E1 & Hok1 & Hs1 & Hf1 & Hnin & Hm1 & Hp1).
  { destruct (active t) eqn:Ea.
    - destruct (stop_ok L a t Hf Hok Ht Ea) as (L' & E & Hok' & Hs & Hm & _). exists L'.
      rewrite E. split; [done|]. split; [done|]. split; [done|].
      split; [rewrite <-Hf; apply Hs|]. split; [|split; [done|by eapply stop_pool]].
      eapply (pending_rest L' a (set_active t false)); [done| |done]. by rewrite Hm, lookup_insert_eq.
    - exists L. split_and!; try done; [by eapply pending_rest|].
      rewrite insert_id; [done|]. rewrite Ht. f_equal. by destruct t; cbn in *; subst. }
  cbn [timer_exec]. unfold op_done. cbn [timer_exec]. unfold vox_timer_start.
  rewrite (proj2 (Z.eqb_neq a NULL)), Ht by done. cbn. rewrite En, Hl, Z.eqb_refl, E1. cbn.
  set (t2 := {| active := true |}).
  assert (timeout t2 = u64 (loop_time L + ms * 1000)) as Htm.
  { unfold t2, vox_loop_now; cbn. destruct Hs1 as (_ & -> & _). unfold u64.
    by rewrite Zplus_mod_idemp_r. }
  destruct (arm_ok L1 L1 a t2) as (L2 & rc & -> & Hs2 & _ & Hrc); try done.
  { apply Hok1. } { by right. } { cbn. symmetry. apply Hs1. }
  assert (Hstep : exists m, m = <[a := t2]> (mem L1) /\
    m = <[a := {| t_loop := t_loop t; timeout := u64 (loop_time L + ms * 1000);
         repeat_us := u64 (rep * 1000); callback := cb; user_data := ud; active := true |}]> (mem L)).
  { eexists. split; [done|]. rewrite Hm1, insert_insert_eq. f_equal. rewrite <-Htm, Hl. done. }
  destruct Hstep as (m & Em1 & Em2).
  assert (Hstep' : timer_step (loop_at L) (loop_time L) (mem L) (TStart a ms rep cb ud) = Some (m, 0)).
  { cbn. rewrite (proj2 (Z.eqb_neq a NULL)), Ht by done. cbn. by rewrite En, Em2, Hl. }
  pose proof (loop_same_trans _ _ _ Hs1 Hs2) as Hs.
  destruct Hrc as [(-> & Hok2 & Hm2 & _)|(-> & Hr & Hok2 & Hm2)]; cbn.
  - do 2 eexists. split; [done|]. split; [done|]. split; [done|].
    exists m, 0. split; [exact Hstep'|]. left. by rewrite Hm2, Em1.
  - do 2 eexists. split; [done|]. split; [done|]. split; [done|].
    exists m, 0. split; [exact Hstep'|]. right. split; [done|].
    rewrite <-Hp1. split; [done|]. eexists. split; [done|]. rewrite Hm2, Em1.
    unfold timer_at. by rewrite lookup_insert_eq, insert_insert_eq.
Qed.

Lemma again_done L a : cmp_fn L = f -> timers_ok L -> op_pre L (TAgain a) -> op_done L (TAgain a).
Proof.
  intros Hf Hok [->|[t Ht]]; [eapply op_done_same; [done|reflexivity|reflexivity]|].
  pose proof (timers_ok_nonnull L a Hok ltac:(by eexists)) as Hnn.
  destruct (active t && negb (repeat_us t =? 0)) eqn:Ec.
  2:{ eapply (op_done_same _ _ (-1)); [done| |]; cbn; [unfold vox_timer_again|];
      rewrite (proj2 (Z.eqb_neq _ _)), Ht by done; cbn; [|by rewrite Ec].
      apply andb_false_iff in Ec. destruct (t_loop t =? NULL); [done|].
      destruct (active t); cbn; [|done]. destruct Ec as [?|Ec%negb_false_iff]; [done|]. by rewrite Ec. }
  assert (Hstep : timer_step (loop_at L) (loop_time L) (mem L) (TAgain a)
    = Some (<[a := set_timeout t (u64 (loop_time L + repeat_us t))]> (mem L), 0)).
  { cbn. rewrite (proj2 (Z.eqb_neq a NULL)), Ht by done. cbn. by rewrite Ec. }
  apply andb_true_iff in Ec as [Ea Er%negb_true_iff].
  destruct (to_loop L Hok a t Ht) as [[Hl Hcb]|[_ ?]]; [|congruence].
  destruct (timers_remove_ok L a Hf) as (L1 & E1 & Hh1 & Hs1 & Hm1 & Hp1);
    [apply Hok|done|by eapply pending_split|].
  unfold op_done. cbn [timer_exec]. unfold vox_timer_again.
  rewrite (proj2 (Z.eqb_neq a NULL)), Ht by done. cbn.
  rewrite Hl, (proj2 (Z.eqb_neq (loop_at L) NULL)) by apply (to_null L Hok).
  rewrite Ea, Er, Z.eqb_refl, E1. cbn.
  set (t2 := set_timeout t (u64 (vox_loop_now L1 + repeat_us t))).
  assert (t2 = set_timeout t (u64 (loop_time L + repeat_us t))) as Ht2.
  { unfold t2, vox_loop_now. by destruct Hs1 as (_ & -> & _). }
  destruct (arm_ok L L1 a t2) as (L2 & rc & -> & Hs2 & _ & Hrc); try done.
  { rewrite <-Hf. apply Hs1. } { apply Hs1. } { by left. }
  { cbn. rewrite Hl. symmetry. apply Hs1. } { by apply Hcb. }
  pose proof (loop_same_trans _ _ _ Hs1 Hs2) as Hs.
  destruct Hrc as [(-> & Hok2 & Hm2 & _)|(-> & Hr & Hok2 & Hm2)]; cbn.
  - do 2 eexists. split; [done|]. split; [done|]. split; [done|].
    eexists _, 0. split; [exact Hstep|]. left. by rewrite Hm2, Hm1, Ht2.
  - do 2 eexists. split; [done|]. split; [done|]. split; [done|].
    eexists _, 0. split; [exact Hstep|]. right. split; [done|].
    rewrite <-(remove_pool L a L1 E1). split; [done|]. exists a. split; [done|].
    rewrite Hm2, Hm1, <-Ht2. unfold timer_at. by rewrite lookup_insert_eq, insert_insert_eq.
Qed.

Lemma set_repeat_done L a ms :
  cmp_fn L = f -> timers_ok L -> op_pre L (TSetRepeat a ms) -> op_done L (TSetRepeat a ms).
Proof.
  intros Hf Hok [->|[t Ht]]; [eapply op_done_same; [done|reflexivity|reflexivity]|].
  pose proof (timers_ok_nonnull L a Hok ltac:(by eexists)) as Hnn.
  exists (set_mem L a (set_repeat t (u64 (ms * 1000)))), 0. split.
  { cbn. unfold vox_timer_set_repeat. by rewrite (proj2 (Z.eqb_neq _ _)), Ht. }
  split; [|split; [by apply loop_same_mem, loop_same_refl|]].
  - apply (timers_ok_set L a t); try done. intros Ea.
    destruct (to_loop L Hok a t Ht) as [[_ Hcb]|[_ ?]]; [|congruence]. split; [by apply Hcb|done].
  - eexists _, 0. split; [|left; done]. cbn. by rewrite (proj2 (Z.eqb_neq _ _)), Ht.
Qed.

Lemma api_done L op : cmp_fn L = f -> timers_ok L -> op_pre L op -> op_done L op.
Proof.
  intros Hf Hok Hpre. destruct op.
  - by apply init_done.
  - by apply start_done.
  - by apply stop_done.
  - by apply again_done.
  - destruct Hpre as [->|[t Ht]]; [eapply op_done_same; [done|reflexivity|reflexivity]|].
    pose proof (timers_ok_nonnull L a Hok ltac:(by eexists)) as Hnn.
    eapply (op_done_same _ _ (Z.b2z (active t))); [done| |]; cbn; [unfold vox_timer_is_active|];
      by rewrite (proj2 (Z.eqb_neq _ _)), Ht.
  - destruct Hpre as [->|[t Ht]]; [eapply op_done_same; [done|reflexivity|reflexivity]|].
    pose proof (timers_ok_nonnull L a Hok ltac:(by eexists)) as Hnn.
    eapply (op_done_same _ _ (repeat_us t / 1000)); [done| |]; cbn; [unfold vox_timer_get_repeat|];
      by rewrite (proj2 (Z.eqb_neq _ _)), Ht.
  - by apply set_repeat_done.
  - by apply destroy_done.
Qed.

(** ** Firing *)

(** A callback that leaves the timers alone. *)
Definition quiet : vox_loop P -> Z -> Z -> Z -> list timer_op := fun _ _ _ _ => [].

(** What firing does to a timer. *)
Definition fire (now : Z) (t : vox_timer) : vox_timer :=
  if 0 <? repeat_us t then set_timeout t (u64 (now + repeat_us t)) else set_active t false.

Definition due (now : Z) (m : timer_mem) (a : Z) : Prop := timeout (timer_at m a) <= now.
#[global] Instance due_dec now m a : Decision (due now m a).
Proof. unfold due. apply _. Defined.

(** Re-arming does not wrap around the clock. *)
Definition no_wrap (now : Z) (m : timer_mem) : Prop :=
  0 <= now /\ forall a t, m !! a = Some t -> 0 <= repeat_us t /\ now + repeat_us t < 2 ^ 64.

Definition event_of (m : timer_mem) (a : Z) : fired :=
  let t := timer_at m a in Fired a (callback t) (user_data t) (timeout t).

(** What a pass over the heap [L] fires, in order: [l]. *)
Record fires (now : Z) L (l : list Z) L' : Prop := {
  fi_ok : timers_ok L';
  fi_same : loop_same L L';
  fi_nodup : NoDup l;
  fi_due a : a ∈ l -> a ∈ pending L /\ due now (mem L) a;
  fi_mem a : mem L' !! a = if decide (a ∈ l) then fire now <$> mem L !! a else mem L !! a;
  fi_order : StronglySorted
    (fun a b => order_key (timer_at (mem L) a) <= order_key (timer_at (mem L) b)) l;
  fi_head : pending L' = [] \/
    exists a, a ∈ pending L' /\ ~ due now (mem L') a /\
      forall b, b ∈ pending L' ->
        order_key (timer_at (mem L') a) <= order_key (timer_at (mem L') b);
}.

Lemma fire_key_due now m a t :
  no_wrap now m -> m !! a = Some t -> 0 < repeat_us t -> ~ due now (<[a := fire now t]> m) a.
Proof.
  intros [Hn Hw] Ht Hr. destruct (Hw a t Ht). unfold due, timer_at, fire.
  rewrite lookup_insert_eq. rewrite (proj2 (Z.ltb_lt _ _)) by done. cbn.
  rewrite u64_small by lia. lia.
Qed.

Lemma timer_at_other m a b t : b <> a -> timer_at (<[a := t]> m) b = timer_at m b.
Proof. intros Hb. unfold timer_at. by rewrite lookup_insert_ne. Qed.

(** One round of the loop on a due root. *)
Lemma fire_round L L0 a t now :
  cmp_fn L = f -> timers_ok L -> no_wrap now (mem L) ->
  heap_ok L0 -> loop_same L L0 -> mem L0 = mem L -> pending L ≡ₚ a :: pending L0 ->
  size (timers L0) < capacity (timers L0) ->
  mem L !! a = Some t -> active t = true ->
  exists L1,
    (if (0 <? repeat_us t) && active t
     then fst <$> timers_push junk (set_mem L0 a (set_timeout t (u64 (now + repeat_us t)))) a
     else Some (set_mem L0 a (set_active t false))) = Some L1 /\
    timers_ok L1 /\ loop_same L L1 /\ mem L1 = <[a := fire now t]> (mem L) /\
    pending L1 ≡ₚ (if 0 <? repeat_us t then a :: pending L0 else pending L0).
Proof.
  intros Hf Hok Hw Hh0 Hs0 Hm0 Hp0 Hroom Ht Ha.
  pose proof (timers_ok_nonnull L a Hok ltac:(by eexists)) as Hnn.
  destruct (to_loop L Hok a t Ht) as [[Hl Hcb]|[_ ?]]; [|congruence].
  assert (Hf0 : cmp_fn L0 = f) by (rewrite <-Hf; apply Hs0).
  rewrite Ha, andb_true_r. unfold fire. destruct (Z.ltb_spec 0 (repeat_us t)).
  - destruct (arm_ok L L0 a (set_timeout t (u64 (now + repeat_us t))))
      as (L1 & rc & -> & Hs1 & Hrc0 & [(-> & Hok1 & Hm1 & Hp1)|(-> & _)]); try done.
    { apply Hs0. } { by left. } { cbn. rewrite Hl. symmetry. apply Hs0. } { by apply Hcb. }
    2:{ by specialize (Hrc0 Hroom). }
    exists L1. split; [done|]. split; [done|]. split; [by eapply loop_same_trans|].
    by rewrite Hm1, Hm0.
  - exists (set_mem L0 a (set_active t false)). split; [done|].
    split; [|split; [by apply loop_same_mem|by cbn; rewrite Hm0]].
    assert (a ∉ pending L0) as Hnin.
    { pose proof (to_nodup _ Hok) as Hnd. rewrite Hp0 in Hnd. apply NoDup_cons in Hnd. by destruct Hnd. }
    apply (timers_ok_update L _ a (set_active t false) (pending L0)); try done.
    + by apply heap_set_mem; [|done|left].
    + apply Hs0.
    + cbn. by rewrite Hm0.
    + by left.
    + by left.
Qed.

(** One due timer less. *)
Lemma due_count now L L0 L1 a t :
  timers_ok L -> no_wrap now (mem L) -> mem L !! a = Some t -> due now (mem L) a ->
  pending L ≡ₚ a :: pending L0 -> mem L1 = <[a := fire now t]> (mem L) ->
  pending L1 ≡ₚ (if 0 <? repeat_us t then a :: pending L0 else pending L0) ->
  length (filter (due now (mem L)) (pending L))
  = S (length (filter (due now (mem L1)) (pending L1))) /\
  (forall b, b ∈ pending L1 -> due now (mem L1) b -> b <> a /\ b ∈ pending L /\ due now (mem L) b).
Proof.
  intros Hok Hw Ht Hd Hp Hm1 Hp1.
  assert (a ∉ pending L0) as Hnin.
  { pose proof (to_nodup _ Hok) as Hnd. rewrite Hp in Hnd. apply NoDup_cons in Hnd. by destruct Hnd. }
  assert (Hd1 : forall b, b ∈ pending L0 -> due now (mem L1) b <-> due now (mem L) b).
  { intros b Hb. unfold due. rewrite Hm1, timer_at_other by (by intros ->). done. }
  assert (Hna : 0 < repeat_us t -> ~ due now (mem L1) a) by (rewrite Hm1; by apply fire_key_due).
  assert (Hfil : filter (due now (mem L1)) (pending L1) ≡ₚ filter (due now (mem L)) (pending L0)).
  { assert (Hx : filter (due now (mem L1)) (pending L0) = filter (due now (mem L)) (pending L0)).
    { clear -Hd1. induction (pending L0) as [|b l IH]; [done|]. rewrite !filter_cons.
      assert (due now (mem L1) b <-> due now (mem L) b) by (apply Hd1; left).
      rewrite IH by (intros; apply Hd1; by right).
      repeat case_decide; tauto. }
    rewrite Hp1. destruct (Z.ltb_spec 0 (repeat_us t)); [|by rewrite Hx].
    rewrite filter_cons_False by auto. by rewrite Hx. }
  split.
  - rewrite Hfil, Hp. by rewrite filter_cons_True.
  - intros b Hb Hdb. rewrite Hp1 in Hb.
    assert (b ∈ pending L0) as Hb0.
    { destruct (Z.ltb_spec 0 (repeat_us t)); [|done].
      apply elem_of_cons in Hb as [->|?]; [exfalso; by apply Hna|done]. }
    split; [by intros ->|]. split; [rewrite Hp; by right|]. by apply Hd1.
Qed.

Lemma no_wrap_fire now L a t :
  no_wrap now (mem L) -> mem L !! a = Some t -> no_wrap now (<[a := fire now t]> (mem L)).
Proof.
  intros [Hn Hw] Ht. split; [done|]. intros b u. rewrite lookup_insert_Some.
  intros [[<- <-]|[_ Hu]]; [|by apply (Hw b)]. destruct (Hw a t Ht). unfold fire. by case_match.
Qed.

Lemma fires_cons now L L1 L' a t l :
  timers_ok L -> mem L !! a = Some t -> due now (mem L) a -> a ∈ pending L ->
  loop_same L L1 -> mem L1 = <[a := fire now t]> (mem L) ->
  (forall b, b ∈ pending L1 -> due now (mem L1) b -> b <> a /\ b ∈ pending L /\ due now (mem L) b) ->
  (forall b, b ∈ pending L -> order_key (timer_at (mem L) a) <= order_key (timer_at (mem L) b)) ->
  fires now L1 l L' ->
  fires now L (a :: l) L' /\ event_of (mem L1) <$> l = event_of (mem L) <$> l.
Proof.
  intros Hok Ht Hd Hin Hs Hm Hback Hmin [Hok' Hs' Hnd Hdue Hmem Hord Hhead].
  assert (Hl : forall b, b ∈ l -> b <> a /\ b ∈ pending L /\ due now (mem L) b)
    by (intros b Hb; destruct (Hdue b Hb); by apply Hback).
  assert (Hkey : forall b, b ∈ l -> timer_at (mem L1) b = timer_at (mem L) b)
    by (intros b Hb; rewrite Hm; apply timer_at_other; by apply Hl).
  split; [constructor; [done|by eapply loop_same_trans| | | | |done]|].
  - apply NoDup_cons. split; [|done]. intros Ha. by destruct (Hl a Ha).
  - intros b. rewrite elem_of_cons. intros [->|Hb]; [done|]. by apply Hl.
  - intros b. rewrite Hmem, Hm. destruct (decide (b = a)) as [->|Hne].
    + rewrite (decide_False (P := a ∈ l)) by (intros Ha; by destruct (Hl a Ha)).
      rewrite decide_True by left. by rewrite lookup_insert_eq, Ht.
    + rewrite lookup_insert_ne by done.
      assert (b ∈ a :: l <-> b ∈ l) by (rewrite elem_of_cons; tauto).
      repeat case_decide; tauto || done.
  - constructor.
    + clear -Hord Hkey. induction Hord as [|b l Hs IH Hall]; constructor.
      * apply IH. intros c Hc. apply Hkey. by right.
      * rewrite Forall_forall in *. intros c Hc. specialize (Hall c Hc). cbn in Hall.
        rewrite !Hkey in Hall by (by left || by right). done.
    + apply Forall_forall. intros b Hb. by apply Hmin, Hl.
  - apply list_fmap_ext. intros i b Hb. unfold event_of. rewrite Hkey; [done|].
    by eapply list_elem_of_lookup_2.
Qed.

Lemma fires_nil now L :
  timers_ok L ->
  (pending L = [] \/ exists a, a ∈ pending L /\ ~ due now (mem L) a /\
     forall b, b ∈ pending L -> order_key (timer_at (mem L) a) <= order_key (timer_at (mem L) b)) ->
  fires now L [] L.
Proof.
  intros Hok Hhead. constructor; [done|apply loop_same_refl|apply NoDup_nil_2| |done|constructor|done].
  by intros a ?%elem_of_nil.
Qed.

Lemma process_ok fuel now L :
  cmp_fn L = f -> timers_ok L -> no_wrap now (mem L) ->
  (length (filter (due now (mem L)) (pending L)) < fuel)%nat ->
  exists L' l, process_loop junk quiet fuel now L = Some (L', event_of (mem L) <$> l) /\ fires now L l L'.
Proof.
  revert L. induction fuel as [|fuel IH]; intros L Hf Hok Hw Hfuel; [lia|].
  cbn [process_loop].
  destruct (vox_mheap_empty (timers L)) eqn:He.
  { exists L, []. split; [done|]. apply fires_nil; [done|]. left.
    unfold vox_mheap_empty in He. apply Z.eqb_eq in He. unfold pending, contents. by rewrite He. }
  destruct (timers_root L Hf (to_heap _ Hok) He)
    as (a & L0 & -> & Hpop & Hh0 & Hs0 & Hm0 & Hp0 & Hroom & Hmin). cbn.
  assert (a ∈ pending L) as Hin by (rewrite Hp0; by left).
  destruct (to_mapped L Hok a Hin) as [t Ht].
  pose proof (timers_ok_nonnull L a Hok ltac:(by eexists)) as Hnn.
  pose proof (proj1 (to_active L Hok a t Ht) Hin) as Ha.
  rewrite (proj2 (Z.eqb_neq _ _)), Ht by done. cbn. rewrite Ha. cbn.
  destruct (Z.ltb_spec now (timeout t)) as [Hlate|Hdue].
  { exists L, []. split; [done|]. apply fires_nil; [done|]. right. exists a. split; [done|].
    split; [|done]. unfold due, timer_at. rewrite Ht. cbn. lia. }
  assert (due now (mem L) a) as Hd by (unfold due, timer_at; by rewrite Ht).
  destruct (to_loop L Hok a t Ht) as [[Hl Hcb]|[_ ?]]; [|congruence].
  rewrite Hpop. cbn. rewrite (proj2 (Z.eqb_neq _ _)) by (by apply Hcb). cbn.
  rewrite Hm0, Ht. cbn.
  destruct (fire_round L L0 a t now) as (L1 & E1 & Hok1 & Hs1 & Hm1 & Hp1); try done.
  rewrite <-Hm0 in Hm1. cbn in E1. rewrite E1. cbn. rewrite Hm0 in Hm1.
  destruct (due_count now L L0 L1 a t) as [Hcnt Hback]; try done.
  destruct (IH L1) as (L' & l & -> & Hfi); [|done| |lia|].
  { rewrite <-Hf. apply Hs1. } { rewrite Hm1. by apply no_wrap_fire. }
  cbn. destruct (fires_cons now L L1 L' a t l) as [Hfi' Hev]; try done.
  exists L', (a :: l). split; [|done]. rewrite Hev. cbn. unfold event_of at 2, timer_at.
  by rewrite Ht.
Qed.

(** ** Sequences of calls *)

(** A call on an initialised timer [a]. *)
Definition call_on (op : timer_op) (a : Z) : Prop :=
  match op with
  | TInit _ => False
  | TStart b _ _ _ _ | TStop b | TAgain b | TIsActive b | TGetRepeat b | TSetRepeat b _
  | TDestroy b => b = a
  end.

Lemma timer_step_dom loop now m op m' r a :
  timer_step loop now m op = Some (m', r) -> is_Some (m !! a) -> is_Some (m' !! a).
Proof.
  intros E Ha.
  assert (m' = m \/ exists b t, m' = <[b := t]> m) as [->|(b & t & ->)]; [|done|].
  { revert E. clear Ha. destruct op; cbn; (destruct (_ =? NULL); [intros [= <- _]; by left|]);
      [intros [= <- _]; right; by do 2 eexists| | | | | | |];
      (destruct (m !! _) as [t|]; cbn; [|done]); repeat case_match; intros E; simplify_eq;
      first [by left|right; by do 2 eexists]. }
  destruct (decide (b = a)) as [->|]; [by rewrite lookup_insert_eq|by rewrite lookup_insert_ne].
Qed.

Lemma timer_run_ok L ops :
  cmp_fn L = f -> timers_ok L ->
  Forall (fun op => exists a, call_on op a /\ is_Some (mem L !! a)) ops ->
  exists L' rs, timer_run junk L ops = Some (L', rs) /\ timers_ok L' /\ loop_same L L'.
Proof.
  intros Hf Hok Hall. revert L Hf Hok Hall. induction ops as [|op ops IH]; intros L Hf Hok Hall; cbn.
  - do 2 eexists. split; [done|]. split; [done|]. apply loop_same_refl.
  - apply Forall_cons in Hall as [(a & Hc & Ha) Hall].
    destruct (api_done L op Hf Hok) as (L1 & rc & -> & Hok1 & Hs1 & m & r & Hst & Hm).
    { destruct op; cbn in *; subst; (done || by right). }
    cbn. destruct (IH L1) as (L' & rs & -> & Hok' & Hs'); [|done| |].
    + rewrite <-Hf. apply Hs1.
    + eapply Forall_impl; [exact Hall|]. intros op' (b & Hb & Hbm). exists b. split; [done|].
      pose proof (timer_step_dom _ _ _ _ _ _ b Hst Hbm) as Hd.
      destruct Hm as [[-> _]|(_ & _ & c & _ & ->)]; [done|].
      destruct (decide (c = b)) as [->|]; [by rewrite lookup_insert_eq|by rewrite lookup_insert_ne].
    + cbn. do 2 eexists. split; [done|]. split; [done|]. by eapply loop_same_trans.
Qed.
End ordered.

(** ** Theorems *)

(** C6: On a loop whose heap holds exactly the active timers, every timer function called on
    NULL or on a timer in memory - vox_timer_init also on new memory, but not on a timer that
    is armed, which it would mark inactive and leave in the heap: init_armed_lost - is defined,
    keeps that invariant, the clock and every other block of the pool, and changes the timers
    as specified: start arms the timer at now + timeout (at 64 bits), replacing an armed one;
    stop and destroy disarm it; again re-arms a repeating timer at now + repeat; a start or
    again whose heap growth the pool refused returns -1 and leaves the timer inactive and out
    of the heap. The order the heap keeps may be that of vox_timer.c or the one vox_loop.c
    installs. *)
Theorem timer_api_refines f `{!TimerOrder f} L op :
  cmp_fn L = f -> timers_ok L -> op_pre L op ->
  exists L' rc, timer_exec junk L op = Some (L', rc) /\ timers_ok L' /\ loop_same L L' /\
  exists m r, timer_step (loop_at L) (loop_time L) (mem L) op = Some (m, r) /\
    ((mem L' = m /\ rc = r) \/
     (rc = -1 /\ refused (pool L) (pool L') /\
      exists a, armed_by op = Some a /\ mem L' = <[a := set_active (timer_at m a) false]> m)).
Proof. intros Hf Hok Hpre. exact (api_done f L op Hf Hok Hpre). Qed.

Lemma due_bound now L :
  timers_ok L -> (length (filter (due now (mem L)) (pending L)) < loop_fuel (size (timers L)))%nat.
Proof.
  intros Hok. pose proof (length_filter (due now (mem L)) (pending L)) as Hl.
  pose proof (heap_contents_zlen (pool L) (heap_view L) (to_heap _ Hok)) as Hz.
  change (zlen (pending L) = size (timers L)) in Hz. unfold loop_fuel, zlen in *. lia.
Qed.

Lemma fires_all now L l L' :
  cmp_fn L = timer_cmp -> timers_ok L -> fires timer_cmp now L l L' ->
  (forall a, a ∈ l <-> a ∈ pending L /\ due now (mem L) a) /\
  (forall a, a ∈ pending L' -> ~ due now (mem L') a).
Proof.
  intros Hf Hok [Hok' Hs Hnd Hdue Hmem Hord Hhead].
  assert (Hlate : forall a, a ∈ pending L' -> ~ due now (mem L') a).
  { intros a Ha. destruct Hhead as [E|(b & Hb & Hnb & Hmin)]; [rewrite E in Ha; by apply elem_of_nil in Ha|].
    specialize (Hmin a Ha). cbn in Hmin. unfold due in *. lia. }
  split; [|done]. intros a. split; [apply Hdue|]. intros [Ha Hd].
  destruct (decide (a ∈ l)) as [|Hn]; [done|]. exfalso.
  destruct (to_mapped L Hok a Ha) as [t Ht]. pose proof (Hmem a) as Hma.
  rewrite decide_False, Ht in Hma by done.
  apply (Hlate a).
  - apply (to_active L' Hok' a t Hma). by apply (to_active L Hok a t Ht).
  - unfold due, timer_at in *. by rewrite Hma, <-Ht.
Qed.

(** C7: With callbacks that leave the timers alone and no wrap-around of the clock,
    a pass over the expired timers terminates whatever order the heap keeps: each
    timer fires at most once, only when it was armed and its deadline had passed;
    a repeating timer is re-armed at now + repeat, any other becomes inactive, no
    other timer changes; and the pass stops only on an empty heap or on a root whose
    deadline has not passed. *)
Theorem process_expired_sound f `{!TimerOrder f} L :
  cmp_fn L = f -> timers_ok L -> no_wrap (loop_time L) (mem L) ->
  exists L' l,
    vox_timer_process_expired junk quiet (loop_fuel (size (timers L))) L
      = Some (L', event_of (mem L) <$> l) /\
    timers_ok L' /\ loop_same L L' /\ NoDup l /\
    (forall a, a ∈ l -> a ∈ pending L /\ due (loop_time L) (mem L) a) /\
    (forall a, mem L' !! a = if decide (a ∈ l) then fire (loop_time L) <$> mem L !! a
                             else mem L !! a) /\
    (pending L' = [] \/ exists a, a ∈ pending L' /\ ~ due (loop_time L) (mem L') a).
Proof.
  intros Hf Hok Hw.
  destruct (process_ok f _ (loop_time L) L Hf Hok Hw (due_bound _ _ Hok)) as (L' & l & E & []).
  exists L', l. split; [exact E|]. split_and!; try done.
  destruct fi_head0 as [|(a & ? & ? & _)]; [by left|right; by exists a].
Qed.

(** The first of the line is what peek shows. *)
Lemma pending_first L :
  timers_ok L -> size (timers L) <> 0 -> exists a q, vox_mheap_peek (timers L) = Some a /\ pending L = a :: q.
Proof.
  intros Hok He. pose proof (hi_size _ _ (to_heap _ Hok)) as Hsz. pose proof (hi_cells _ _ (to_heap _ Hok)) as Hz.
  cbn in Hsz, Hz. unfold vox_mheap_peek. rewrite (proj2 (Z.eqb_neq _ _)), arr_get_lookup by lia.
  unfold pending, contents. destruct (elements (timers L)) as [|x l]; [rewrite zlen_nil in Hz; lia|].
  replace (Z.to_nat (size (timers L))) with (S (Z.to_nat (size (timers L) - 1))) by lia. by eexists _, _.
Qed.

(** The root of a well-formed heap is an active timer: nothing is skipped. *)
Lemma skip_root n L a t :
  a <> NULL -> mem L !! a = Some t -> active t = true ->
  skip_inactive (loop_fuel n) L a = Some (L, Some a).
Proof.
  intros Hnn Ht Ha. unfold loop_fuel. cbn [skip_inactive]. rewrite (proj2 (Z.eqb_neq _ _)), Ht by done. cbn.
  by rewrite Ha.
Qed.

Lemma next_timeout_first L :
  timers_ok L ->
  vox_timer_get_next_timeout L = Some (L, match pending L with
    | [] => -1
    | a :: _ => let d := timeout (timer_at (mem L) a) in
                if d <=? loop_time L then 0 else s32 (u64 (d - loop_time L) / 1000)
    end).
Proof.
  intros Hok. unfold vox_timer_get_next_timeout, vox_mheap_empty. pose proof (to_heap _ Hok) as Hh.
  destruct (Z.eqb_spec (size (timers L)) 0) as [He|He].
  { unfold pending, contents. by rewrite He. }
  destruct (pending_first L Hok He) as (a & q & Hpeek & Hp). rewrite Hpeek, Hp. cbn [mbind option_bind].
  assert (a ∈ pending L) as Hin by (rewrite Hp; by left). destruct (to_mapped L Hok a Hin) as [t Ht].
  rewrite (skip_root _ L a t); [|by apply (timers_ok_nonnull L a Hok); eexists|done|by apply (to_active L Hok a t Ht)].
  cbn [mbind option_bind]. unfold timer_at. rewrite Ht. cbn. unfold vox_loop_now. by destruct (timeout t <=? loop_time L).
Qed.

(** A pass over a line of timers: while the first is due it fires, the last one takes its
    place, and if it repeats it goes to the end, re-armed. The timers that fired, and the line
    that is left. *)
Fixpoint line_pass (n : nat) (now : Z) (m : timer_mem) (q : list Z) : list Z * list Z :=
  match n, q with
  | S n, a :: rest =>
      let t := timer_at m a in
      if now <? timeout t then ([], q) else
      let '(l, rest') := line_pass n now (<[a := fire now t]> m)
                          (refill rest ++ if 0 <? repeat_us t then [a] else []) in
      (a :: l, rest')
  | _, _ => ([], q)
  end.

(** The timers in the heap of a loop that compares their loops: equal. *)
Definition all_ours L : Prop := forall a, a ∈ pending L -> t_loop (timer_at (mem L) a) = loop_at L.

Lemma timers_all_ours L : timers_ok L -> all_ours L.
Proof.
  intros Hok a Ha. destruct (to_mapped L Hok a Ha) as [t Ht]. unfold timer_at. rewrite Ht. cbn.
  pose proof (proj1 (to_active L Hok a t Ht) Ha). destruct (to_loop L Hok a t Ht) as [[? _]|[_ ?]]; congruence.
Qed.

Lemma ours_equal m l a b : t_loop (timer_at m a) = l -> t_loop (timer_at m b) = l -> loop_timer_cmp m a b = 0.
Proof. intros Ha Hb. unfold loop_timer_cmp. by rewrite Ha, Hb, Z.ltb_irrefl. Qed.

Lemma timers_pop_flat L L0 a q :
  cmp_fn L = loop_timer_cmp -> timers_ok L -> pending L = a :: q -> timers_pop L = Some L0 -> pending L0 = refill q.
Proof.
  intros Hf Hok Hp. pose proof (timers_all_ours L Hok) as Ho.
  destruct (pop_flat (pool L) (heap_view L) a q (to_heap _ Hok) Hp) as (h' & E & Hc).
  { cbn. rewrite Hf. intros x y Hx Hy. by apply (ours_equal _ (loop_at L)); apply Ho. }
  unfold timers_pop. rewrite E. cbn. by intros [= <-].
Qed.

Lemma timers_push_flat L L' a r :
  cmp_fn L = loop_timer_cmp -> heap_ok L -> all_ours L -> t_loop (timer_at (mem L) a) = loop_at L -> a <> NULL ->
  size (timers L) < capacity (timers L) -> timers_push junk L a = Some (L', r) -> pending L' = pending L ++ [a].
Proof.
  intros Hf Hh Ho Ha Hnn Hroom.
  destruct (push_flat junk (pool L) (heap_view L) a Hh Hnn Hroom) as (h' & E & Hc).
  { cbn. rewrite Hf. intros x Hx. apply (ours_equal _ (loop_at L)); [done|by apply Ho]. }
  unfold timers_push. rewrite E. cbn. by intros [= <- _].
Qed.

(** One round of the loop on a due head, as [fire_round], with the line in order. *)
Lemma fire_round_flat L L0 L1 a q t now :
  cmp_fn L = loop_timer_cmp -> timers_ok L -> pending L = a :: q -> timers_pop L = Some L0 ->
  heap_ok L0 -> loop_same L L0 -> mem L0 = mem L -> pending L ≡ₚ a :: pending L0 ->
  size (timers L0) < capacity (timers L0) -> mem L !! a = Some t -> active t = true ->
  (if (0 <? repeat_us t) && active t
   then fst <$> timers_push junk (set_mem L0 a (set_timeout t (u64 (now + repeat_us t)))) a
   else Some (set_mem L0 a (set_active t false))) = Some L1 ->
  pending L1 = refill q ++ if 0 <? repeat_us t then [a] else [].
Proof.
  intros Hf Hok Hp Hpop Hh0 Hs0 Hm0 Hp0 Hroom Ht Ha. rewrite Ha, andb_true_r.
  pose proof (timers_pop_flat L L0 a q Hf Hok Hp Hpop) as Hq.
  pose proof (timers_all_ours L Hok) as Ho. assert (a ∈ pending L) as Hin by (rewrite Hp; by left).
  pose proof (Ho a Hin) as Hla. unfold timer_at in Hla. rewrite Ht in Hla. cbn in Hla.
  assert (Hf0 : cmp_fn L0 = loop_timer_cmp) by (rewrite <-Hf; apply Hs0).
  assert (loop_at L0 = loop_at L) as Hl0 by apply Hs0.
  destruct (0 <? repeat_us t).
  - set (t' := set_timeout t _). destruct (timers_push junk (set_mem L0 a t') a) as [[L2 r]|] eqn:E; [|done].
    cbn [fmap option_fmap option_map fst]. intros [= <-].
    apply timers_push_flat in E; [rewrite E; change (pending L0 ++ [a] = refill q ++ [a]); by rewrite Hq|done| | | |by apply (timers_ok_nonnull L a Hok); eexists|done].
    + apply (heap_set_mem loop_timer_cmp); [done|done|]. right. cbn. unfold timer_at. by rewrite Hm0, Ht.
    + intros b Hb. cbn. rewrite Hl0. unfold timer_at. destruct (decide (b = a)) as [->|Hne].
      * by rewrite lookup_insert_eq.
      * rewrite lookup_insert_ne, Hm0 by done. apply Ho. rewrite Hp0. by right.
    + cbn. rewrite Hl0. unfold timer_at. by rewrite lookup_insert_eq.
  - intros [= <-]. rewrite app_nil_r. by rewrite <-Hq.
Qed.

Lemma process_flat fuel now L L' ev :
  cmp_fn L = loop_timer_cmp -> timers_ok L -> no_wrap now (mem L) ->
  process_loop junk quiet fuel now L = Some (L', ev) ->
  (f_timer <$> ev, pending L') = line_pass fuel now (mem L) (pending L).
Proof.
  revert L ev. induction fuel as [|fuel IH]; intros L ev Hf Hok Hw; [done|]. cbn [process_loop line_pass].
  destruct (vox_mheap_empty (timers L)) eqn:He.
  { intros [= <- <-]. unfold vox_mheap_empty in He. apply Z.eqb_eq in He. unfold pending, contents. by rewrite He. }
  destruct (timers_root loop_timer_cmp L Hf (to_heap _ Hok) He)
    as (a & L0 & Hpeek & Hpop & Hh0 & Hs0 & Hm0 & Hp0 & Hroom & _).
  destruct (pending_first L Hok) as (a' & q & Hpeek' & Hp).
  { unfold vox_mheap_empty in He. by apply Z.eqb_neq. }
  rewrite Hpeek in Hpeek'. injection Hpeek' as <-.
  rewrite Hpeek. cbn [mbind option_bind]. assert (a ∈ pending L) as Hin by (rewrite Hp; by left).
  destruct (to_mapped L Hok a Hin) as [t Ht].
  pose proof (timers_ok_nonnull L a Hok ltac:(by eexists)) as Hnn.
  pose proof (proj1 (to_active L Hok a t Ht) Hin) as Ha.
  rewrite (proj2 (Z.eqb_neq _ _)), Ht by done. cbn [mbind option_bind]. rewrite Ha, Hp. cbn [negb].
  assert (timer_at (mem L) a = t) as -> by (unfold timer_at; by rewrite Ht).
  destruct (now <? timeout t); [by intros [= <- <-]; rewrite Hp|].
  destruct (to_loop L Hok a t Ht) as [[Hl Hcb]|[_ ?]]; [|congruence].
  rewrite Hpop. cbn [mbind option_bind]. rewrite (proj2 (Z.eqb_neq _ _)) by (by apply Hcb).
  assert (timer_run junk L0 (quiet L0 (callback t) a (user_data t)) = Some (L0, [])) as -> by reflexivity.
  cbn [mbind option_bind]. rewrite Hm0, Ht. cbn [mbind option_bind].
  destruct (fire_round loop_timer_cmp L L0 a t now) as (L1 & E1 & Hok1 & Hs1 & Hm1 & _); try done.
  rewrite E1. cbn [mbind option_bind].
  destruct (process_loop junk quiet fuel now L1) as [[L2 evs]|] eqn:E2; [|done]. cbn [mbind option_bind].
  intros [= -> <-]. apply IH in E2; [| |done|].
  - rewrite Hm1, (fire_round_flat L L0 L1 a q t now) in E2 by done. cbn. destruct (line_pass _ _ _ _) as [l rest'].
    by injection E2 as -> ->.
  - rewrite <-Hf. apply Hs1.
  - rewrite Hm1. by apply no_wrap_fire.
Qed.

(** C8: What the loop of vox_loop.c does with its timers. Its comparison function compares
    the loops of two timers instead of their deadlines, so all timers in the heap are equal
    and the heap is a line, in the order of its array. With callbacks that leave the timers
    alone and no wrap-around of the clock, a pass fires the first timer of the line as long as
    that one is due; the last of the line takes its place, and a repeating timer goes to the
    end; the timers fired, their order and the line left are those of [line_pass]. Nothing
    behind a first timer that is not due fires, however long it is due, and the time to the
    next timeout is that of the first timer. *)
Theorem process_expired_loop_order L :
  cmp_fn L = loop_timer_cmp -> timers_ok L -> no_wrap (loop_time L) (mem L) ->
  exists L' l,
    vox_timer_process_expired junk quiet (loop_fuel (size (timers L))) L
      = Some (L', event_of (mem L) <$> l) /\ timers_ok L' /\
    (l, pending L') = line_pass (loop_fuel (size (timers L))) (loop_time L) (mem L) (pending L) /\
    (forall a q, pending L = a :: q -> ~ due (loop_time L) (mem L) a -> l = [] /\ pending L' = pending L) /\
    vox_timer_get_next_timeout L = Some (L, match pending L with
      | [] => -1
      | a :: _ => let d := timeout (timer_at (mem L) a) in
                  if d <=? loop_time L then 0 else s32 (u64 (d - loop_time L) / 1000)
      end).
Proof.
  intros Hf Hok Hw.
  destruct (process_ok loop_timer_cmp _ (loop_time L) L Hf Hok Hw (due_bound _ _ Hok)) as (L' & l & E & Hfi).
  pose proof (process_flat _ _ _ _ _ Hf Hok Hw E) as Hl.
  rewrite <-list_fmap_compose, (list_fmap_id l : f_timer ∘ event_of (mem L) <$> l = l) in Hl.
  exists L', l. split; [exact E|]. split; [apply Hfi|]. split; [exact Hl|]. split.
  - intros a q Hp Hd. unfold loop_fuel in Hl. cbn [line_pass] in Hl. rewrite Hp in Hl |- *.
    rewrite (proj2 (Z.ltb_lt _ _)) in Hl by (unfold due in Hd; lia). by injection Hl.
  - by apply next_timeout_first.
Qed.

(** If the heap were ordered by deadline, as the comparison function of vox_timer.c would
    order it, a pass would fire exactly the timers whose deadline has passed, in the order of
    their deadlines. The loop does not install that function. *)
Theorem process_expired_complete L :
  cmp_fn L = timer_cmp -> timers_ok L -> no_wrap (loop_time L) (mem L) ->
  exists L' l,
    vox_timer_process_expired junk quiet (loop_fuel (size (timers L))) L
      = Some (L', event_of (mem L) <$> l) /\ timers_ok L' /\ NoDup l /\
    (forall a, a ∈ l <-> a ∈ pending L /\ due (loop_time L) (mem L) a) /\
    StronglySorted (fun a b => timeout (timer_at (mem L) a) <= timeout (timer_at (mem L) b)) l /\
    (forall a, a ∈ pending L' -> ~ due (loop_time L) (mem L') a).
Proof.
  intros Hf Hok Hw.
  destruct (process_ok timer_cmp _ (loop_time L) L Hf Hok Hw (due_bound _ _ Hok)) as (L' & l & E & Hfi).
  destruct (fires_all _ _ _ _ Hf Hok Hfi) as [Hall Hlate].
  exists L', l. split; [exact E|]. split_and!; try done; apply Hfi.
Qed.

(** The time the loop would sleep with a heap ordered by deadline: -1 without timers, 0 when the
    earliest deadline has passed, else the rest of the time to the earliest
    deadline in whole milliseconds, cut to an int; when that fits, the sleep never
    passes a deadline. *)
Theorem next_timeout_spec L :
  cmp_fn L = timer_cmp -> timers_ok L -> 0 <= loop_time L ->
  (forall a t, mem L !! a = Some t -> timeout t < 2 ^ 64) ->
  exists r, vox_timer_get_next_timeout L = Some (L, r) /\
    ((pending L = [] /\ r = -1) \/
     exists a, a ∈ pending L /\
       (forall b, b ∈ pending L -> timeout (timer_at (mem L) a) <= timeout (timer_at (mem L) b)) /\
       let d := timeout (timer_at (mem L) a) in
       r = (if d <=? loop_time L then 0 else s32 ((d - loop_time L) / 1000)) /\
       (d - loop_time L < 1000 * 2 ^ 31 ->
        0 <= r /\ forall b, b ∈ pending L -> loop_time L < timeout (timer_at (mem L) b) ->
          loop_time L + r * 1000 <= timeout (timer_at (mem L) b))).
Proof.
  intros Hf Hok Hnow Hmax. unfold vox_timer_get_next_timeout.
  destruct (vox_mheap_empty (timers L)) eqn:He.
  { eexists. split; [done|]. left. split; [|done]. unfold vox_mheap_empty in He.
    apply Z.eqb_eq in He. unfold pending, contents. by rewrite He. }
  destruct (timers_root timer_cmp L Hf (to_heap _ Hok) He)
    as (a & L0 & -> & _ & _ & _ & _ & Hp0 & _ & Hmin). cbn.
  assert (a ∈ pending L) as Hin by (rewrite Hp0; by left).
  destruct (to_mapped L Hok a Hin) as [t Ht].
  rewrite (skip_root _ L a t);
    [|by eapply timers_ok_nonnull; [|by eexists]|done|by eapply to_active]. cbn.
  rewrite Ht. cbn. unfold vox_loop_now.
  assert (timer_at (mem L) a = t) as Eat by (unfold timer_at; by rewrite Ht).
  specialize (Hmax a t Ht). cbn in Hmin. rewrite Eat in Hmin.
  exists (if timeout t <=? loop_time L then 0 else s32 (u64 (timeout t - loop_time L) / 1000)).
  split; [by case_match|]. right. exists a. rewrite Eat. split; [done|]. split; [done|].
  destruct (Z.leb_spec (timeout t) (loop_time L)) as [Hle|Hgt].
  - split; [done|]. intros _. split; [done|]. intros b Hb ?. lia.
  - rewrite u64_small by lia. split; [done|]. intros Hd.
    assert (0 <= (timeout t - loop_time L) / 1000 < 2 ^ 31) as Hq.
    { split; [apply Z.div_pos; lia|apply Z.div_lt_upper_bound; lia]. }
    rewrite s32_small by lia. split; [lia|]. intros b Hb _. specialize (Hmin b Hb).
    pose proof (Z.mul_div_le (timeout t - loop_time L) 1000). lia.
Qed.
End timers.

(** ** Concrete runs *)

Definition ex_config : vox_mheap_config :=
  {| initial_capacity := 4; config_cmp_func := None; config_elem_free := false |}.
Definition ex_created := vox_mheap_create_with_config 0 (bump_new 8192) (Some ex_config).
Definition ex_heap : vox_mheap := default MHeap.ex_dummy ex_created.2.

Definition idle : vox_timer :=
  {| t_loop := 7; timeout := 0; repeat_us := 0; callback := NULL; user_data := NULL; active := false |}.

(** A loop at time 1 s with three initialised timers. *)
Definition ex_loop (f : timer_mem -> Z -> Z -> Z) : vox_loop bump :=
  {| pool := ex_created.1; loop_at := 7; loop_time := 1000000; timers := ex_heap;
     mem := {[ 100 := idle; 200 := idle; 300 := idle ]}; cmp_fn := f |}.

Lemma ex_mem a t : mem (ex_loop timer_cmp) !! a = Some t -> a <> NULL /\ t = idle.
Proof.
  cbn. rewrite !lookup_insert_Some, lookup_singleton_Some. unfold NULL.
  intros [[<- <-]|[_ [[<- <-]|[_ [<- <-]]]]]; done.
Qed.

Lemma ex_loop_ok f : timers_ok (ex_loop f).
Proof.
  destruct (heap_create_ok 0 (bump_new 8192) (Some ex_config) ex_created.1 ex_heap)
    as (Hi & Hc & _); [by apply bump_new_inv|by intros c [= <-]|by vm_compute|].
  assert (pending (ex_loop f) = []) as Hp by done.
  constructor.
  - unfold heap_ok, heap_view. eapply (view_change _ _ (cmp_func ex_heap)).
    + by rewrite with_cmp_id.
    + intros x y Hx. change (x ∈ pending (ex_loop f)) in Hx. rewrite Hp in Hx.
      by apply elem_of_nil in Hx.
  - rewrite Hp. apply NoDup_nil_2.
  - intros a Ha. rewrite Hp in Ha. by apply elem_of_nil in Ha.
  - intros a t Ht. apply ex_mem in Ht as [_ ->]. rewrite Hp. split; [by intros ?%elem_of_nil|done].
  - intros a t Ht. apply ex_mem in Ht as [_ ->]. by left.
  - done.
Qed.

(** A one-shot timer in 50 ms, a repeating one in 10 ms, and one that is stopped. *)
Definition ex_calls : list timer_op :=
  [TStart 100 50 0 11 0; TStart 200 10 20 12 0; TStart 300 30 0 13 0; TStop 300].

Definition ex_run f (now : Z) : vox_loop bump :=
  set_time (default (ex_loop f) (fst <$> timer_run 0 (ex_loop f) ex_calls)) now.

Lemma ex_run_ok f `{!TimerOrder f} now : timers_ok (ex_run f now).
Proof.
  destruct (timer_run_ok 0 f (ex_loop f) ex_calls) as (L & rs & E & [] & _); [done|apply ex_loop_ok| |].
  - repeat constructor; eexists; (split; [reflexivity|]); by eexists.
  - unfold ex_run. rewrite E. by constructor.
Qed.

Lemma ex_run_mem f now a t :
  f = timer_cmp \/ f = loop_timer_cmp -> mem (ex_run f now) !! a = Some t ->
  0 <= repeat_us t <= 20000 /\ timeout t <= 1050000.
Proof.
  intros Hf Ht. apply elem_of_map_to_list, list_elem_of_In in Ht.
  destruct Hf as [-> | ->]; vm_compute in Ht;
  repeat destruct Ht as [Ht|Ht]; try done; injection Ht as _ <-; cbn; lia.
Qed.

Lemma ex_no_wrap f now :
  f = timer_cmp \/ f = loop_timer_cmp -> 0 <= now < 2 ^ 60 -> no_wrap now (mem (ex_run f now)).
Proof.
  intros Hf Hn. split; [lia|]. intros a t Ht. apply (ex_run_mem f) in Ht; [|done].
  change (2 ^ 64) with (2 ^ 60 * 16). lia.
Qed.

Lemma timer_api_refines_witness :
  timers_ok (ex_run timer_cmp 1000000) /\ op_pre (ex_run timer_cmp 1000000) (TAgain 200) /\
  exists L' rc, timer_exec 0 (ex_run timer_cmp 1000000) (TAgain 200) = Some (L', rc) /\
    timers_ok L' /\ rc = 0 /\ pending L' = [200; 100].
Proof.
  assert (Hpre : op_pre (ex_run timer_cmp 1000000) (TAgain 200)) by (right; by eexists).
  split; [apply ex_run_ok, _|]. split; [exact Hpre|].
  destruct (timer_api_refines 0 timer_cmp (ex_run timer_cmp 1000000) (TAgain 200))
    as (L' & rc & E & Hok & _); [reflexivity|apply ex_run_ok, _|exact Hpre|].
  exists L', rc. split; [exact E|]. split; [exact Hok|].
  assert ((fun x => (snd x, pending (fst x))) <$> timer_exec 0 (ex_run timer_cmp 1000000) (TAgain 200)
    = Some (0, [200; 100])) as Hv by (vm_compute; reflexivity).
  rewrite E in Hv. injection Hv as -> ->. split; reflexivity.
Defined.

Lemma process_expired_sound_witness :
  timers_ok (ex_run loop_timer_cmp 1060000) /\
  exists L' l,
    vox_timer_process_expired 0 quiet (loop_fuel 2) (ex_run loop_timer_cmp 1060000)
      = Some (L', event_of (mem (ex_run loop_timer_cmp 1060000)) <$> l) /\
    timers_ok L' /\ NoDup l.
Proof.
  split; [apply ex_run_ok, _|].
  destruct (process_expired_sound 0 loop_timer_cmp (ex_run loop_timer_cmp 1060000))
    as (L' & l & E & Hok & _ & Hnd & _);
    [reflexivity|apply ex_run_ok, _|apply (ex_no_wrap loop_timer_cmp); [by right|cbn; lia]|].
  exists L', l. split; [exact E|]. split; [exact Hok|exact Hnd].
Defined.

Lemma process_expired_complete_witness :
  timers_ok (ex_run timer_cmp 1060000) /\
  exists L' l,
    vox_timer_process_expired 0 quiet (loop_fuel 2) (ex_run timer_cmp 1060000)
      = Some (L', event_of (mem (ex_run timer_cmp 1060000)) <$> l) /\
    timers_ok L' /\ event_of (mem (ex_run timer_cmp 1060000)) <$> l
      = [Fired 200 12 0 1010000; Fired 100 11 0 1050000].
Proof.
  split; [apply ex_run_ok, _|].
  destruct (process_expired_complete 0 (ex_run timer_cmp 1060000))
    as (L' & l & E & Hok & _);
    [reflexivity|apply ex_run_ok, _|apply (ex_no_wrap timer_cmp); [by left|cbn; lia]|].
  exists L', l. split; [exact E|]. split; [exact Hok|].
  assert (snd <$> vox_timer_process_expired 0 quiet (loop_fuel 2) (ex_run timer_cmp 1060000)
    = Some [Fired 200 12 0 1010000; Fired 100 11 0 1050000]) as Hv by (vm_compute; reflexivity).
  change (loop_fuel (size (timers (ex_run timer_cmp 1060000)))) with (loop_fuel 2) in E.
  rewrite E in Hv. injection Hv as Hv. exact Hv.
Defined.

Lemma process_expired_loop_order_witness :
  timers_ok (ex_run loop_timer_cmp 1060000) /\
  exists L' l,
    vox_timer_process_expired 0 quiet (loop_fuel 2) (ex_run loop_timer_cmp 1060000)
      = Some (L', event_of (mem (ex_run loop_timer_cmp 1060000)) <$> l) /\
    timers_ok L' /\ l = [100; 200] /\ pending L' = [200].
Proof.
  split; [apply ex_run_ok, _|].
  destruct (process_expired_loop_order 0 (ex_run loop_timer_cmp 1060000))
    as (L' & l & E & Hok & Hl & _);
    [reflexivity|apply ex_run_ok, _|apply (ex_no_wrap loop_timer_cmp); [by right|cbn; lia]|].
  exists L', l. split; [exact E|]. split; [exact Hok|].
  assert (line_pass (loop_fuel (size (timers (ex_run loop_timer_cmp 1060000)))) 1060000
    (mem (ex_run loop_timer_cmp 1060000)) (pending (ex_run loop_timer_cmp 1060000)) = ([100; 200], [200])) as Hv
    by (vm_compute; reflexivity).
  change (loop_time (ex_run loop_timer_cmp 1060000)) with 1060000 in Hl. rewrite Hv in Hl.
  injection Hl as -> ->. split; reflexivity.
Defined.

Lemma next_timeout_spec_witness :
  timers_ok (ex_run timer_cmp 1000500) /\
  exists r, vox_timer_get_next_timeout (ex_run timer_cmp 1000500)
    = Some (ex_run timer_cmp 1000500, r) /\ r = 9.
Proof.
  split; [apply ex_run_ok, _|].
  destruct (next_timeout_spec 0 (ex_run timer_cmp 1000500)) as (r & E & _);
    [reflexivity|apply ex_run_ok, _|cbn; lia| |].
  { intros a t Ht. apply (ex_run_mem timer_cmp) in Ht; [|by left].
    change (2 ^ 64) with (1050000 + 18446744073708501616). lia. }
  exists r. split; [exact E|].
  assert (snd <$> vox_timer_get_next_timeout (ex_run timer_cmp 1000500) = Some 9) as Hv
    by (vm_compute; reflexivity).
  rewrite E in Hv. injection Hv as ->. reflexivity.
Defined.

(** ** What the loop does with its own comparison function *)

(** With the comparison function the loop installs all its timers are equal, so the
    timer started first (due in 50 ms) stays at the root: 20 ms after the start the
    pass fires nothing although timer 200 was due after 10 ms, and the loop would
    sleep another 30 ms. *)
Lemma loop_order_delays_timer :
  due 1020000 (mem (ex_run loop_timer_cmp 1020000)) 200 /\
  active (timer_at (mem (ex_run loop_timer_cmp 1020000)) 200) = true /\
  snd <$> vox_timer_process_expired 0 quiet 4 (ex_run loop_timer_cmp 1020000) = Some [] /\
  snd <$> vox_timer_get_next_timeout (ex_run loop_timer_cmp 1020000) = Some 30 /\
  snd <$> vox_timer_process_expired 0 quiet 4 (ex_run timer_cmp 1020000)
    = Some [Fired 200 12 0 1010000].
Proof. repeat split; vm_compute; done. Qed.

(** [vox_timer_init] on a timer that is armed: it is still in the heap, but inactive, and
    the loop it is armed on will drop it without firing. *)
Example init_armed_lost :
  let L := ex_run loop_timer_cmp 1060000 in
  let L' := (vox_timer_init L 100 7).1 in
  active (timer_at (mem L) 100) = true /\ pending L' = [100; 200] /\ active (timer_at (mem L') 100) = false /\
  ('(_, ev) ← vox_timer_process_expired 0 quiet 4 L'; Some (map f_timer ev)) = Some [200].
Proof. repeat split; vm_compute; done. Qed.

(** A one-shot timer whose callback starts it again: the start succeeds inside the
    callback, but the pass clears [active] after the callback, so the timer sits in
    the heap as stopped and never fires again. *)
Definition restarts : vox_loop bump -> Z -> Z -> Z -> list timer_op :=
  fun _ cb a ud => if cb =? 11 then [TStart a 50 0 cb ud] else [].

Lemma restart_in_callback_lost :
  ('(L, ev) ← vox_timer_process_expired 0 restarts 6 (ex_run timer_cmp 1060000);
   Some (ev, active (timer_at (mem L) 100), timeout (timer_at (mem L) 100), bool_decide (100 ∈ pending L)))
  = Some ([Fired 200 12 0 1010000; Fired 100 11 0 1050000], false, 1110000, true).
Proof. vm_compute. done. Qed.

End Timer.
