(* ===== verification/Queue.v ===== *)
(** * vox_queue.c: the three queues, run by one thread

    The operations of src/vox_queue.c on the struct [vox_queue], for its three
    types: the growing ring buffer, the single-producer single-consumer ring of
    fixed capacity and the ring of slots with sequence numbers. This file is about
    calls that run to completion one after the other; QueueConc.v is about the
    interleavings of the slot ring's threads. *)

From S2P Require Import Prelude Alloc.

Module Queue.

Definition VOX_QUEUE_DEFAULT_INITIAL_CAPACITY : Z := 16.
Definition sizeof_queue : Z := 104.
Definition sizeof_ptr : Z := 8.
Definition sizeof_slot : Z := 16.
Definition sizeof_atomic_long : Z := 16.

(** src/vox_queue.h:20-24: vox_queue_type_t *)
Inductive vox_queue_type := NORMAL | SPSC | MPSC.

#[export] Instance vox_queue_type_eq_dec : EqDecision vox_queue_type.
Proof. solve_decision. Defined.

(** An atomic counter: its block and its value.

    src/vox_atomic.c:176-179: struct vox_atomic_long *)
Record vox_atomic_long := Atomic { atomic_at : Z; atomic_value : Z }.

(** src/vox_queue.c:20-23: vox_queue_slot_t *)
Record vox_queue_slot := Slot { slot_data : Z; sequence : vox_atomic_long }.

(** src/vox_queue.c:26-43: struct vox_queue *)
Record vox_queue := {
  self : Z;
  type : vox_queue_type;
  elements_at : Z;
  elements : list Z;
  slots_at : Z;
  slots : list vox_queue_slot;
  capacity : Z;
  elem_free : bool;
  size : Z;
  head : Z;
  tail : Z;
  atomic_head : vox_atomic_long;
  atomic_tail : vox_atomic_long;
  mask : Z;
}.

Definition with_ring (q : vox_queue) (a : Z) (l : list Z) (c n h t : Z) : vox_queue :=
  {| self := self q; type := type q; elements_at := a; elements := l; slots_at := slots_at q;
     slots := slots q; capacity := c; elem_free := elem_free q; size := n; head := h; tail := t;
     atomic_head := atomic_head q; atomic_tail := atomic_tail q; mask := mask q |}.

Definition with_atomics (q : vox_queue) (l : list Z) (s : list vox_queue_slot)
  (ah at_ : vox_atomic_long) : vox_queue :=
  {| self := self q; type := type q; elements_at := elements_at q; elements := l;
     slots_at := slots_at q; slots := s; capacity := capacity q; elem_free := elem_free q;
     size := size q; head := head q; tail := tail q; atomic_head := ah; atomic_tail := at_;
     mask := mask q |}.

(** ** Atomic counters, between the steps of other threads *)

(** src/vox_atomic.c: vox_atomic_long_load *)
Definition vox_atomic_long_load (a : vox_atomic_long) : Z := atomic_value a.
(** src/vox_atomic.c: vox_atomic_long_load_acquire *)
Definition vox_atomic_long_load_acquire (a : vox_atomic_long) : Z := atomic_value a.
(** src/vox_atomic.c: vox_atomic_long_store *)
Definition vox_atomic_long_store (a : vox_atomic_long) (v : Z) : vox_atomic_long :=
  Atomic (atomic_at a) v.
(** src/vox_atomic.c: vox_atomic_long_store_release *)
Definition vox_atomic_long_store_release (a : vox_atomic_long) (v : Z) : vox_atomic_long :=
  Atomic (atomic_at a) v.
(** The value the caller expected is read back into [expected] on failure; the
    callers do not use it.

    src/vox_atomic.c: vox_atomic_long_compare_exchange *)
Definition vox_atomic_long_compare_exchange (a : vox_atomic_long) (expected desired : Z)
  : vox_atomic_long * bool :=
  if atomic_value a =? expected then (Atomic (atomic_at a) desired, true) else (a, false).

(** An [int64_t] masked with a [size_t], used as an index. *)
Definition masked (x m : Z) : Z := Z.land (u64 x) m.

(** Rounding up to a power of two.

    src/vox_queue.c:124-138: vox_queue_create_with_config *)
Definition round_capacity (cap : Z) : Z :=
  if Z.land cap (cap - 1) =? 0 then cap else u64 (smear (cap - 1) + 1).

Section operations.
Context {P : Type} `{MPool P}.
Context (junk : Z).
Implicit Types (p : P) (queue : vox_queue).

(** src/vox_queue.c: expand_queue *)
Definition expand_queue p queue : option (P * vox_queue * Z) :=
  let new_capacity := u64 (capacity queue * 2) in
  if new_capacity <? capacity queue then Some (p, queue, -1) else
  let '(p, a, new_elements) := alloc_cells junk p new_capacity sizeof_ptr in
  if a =? NULL then Some (p, queue, -1) else
  new_elements ←
    (if head queue <? tail queue
     then arr_blit new_elements 0 (elements queue) (head queue) (size queue)
     else if 0 <? size queue then
       let first_part := u64 (capacity queue - head queue) in
       l ← arr_blit new_elements 0 (elements queue) (head queue) first_part;
       arr_blit l first_part (elements queue) 0 (tail queue)
     else Some new_elements);
  let p := mp_free p (elements_at queue) in
  Some (p, with_ring queue a new_elements new_capacity (size queue) 0 (size queue), 0).

(** The loop that reserves a slot; [None]: it found no stable slot with the fuel.

    src/vox_queue.c:231-259: vox_queue_enqueue *)
Fixpoint mpsc_reserve (fuel : nat) queue : option (vox_queue * option Z) :=
  match fuel with
  | O => None
  | S fuel =>
      let pos := vox_atomic_long_load (atomic_tail queue) in
      slot ← (slots queue).[masked pos (mask queue)];
      let seq := vox_atomic_long_load_acquire (sequence slot) in
      let diff := s64 (seq - pos) in
      if diff =? 0 then
        let '(t, ok) := vox_atomic_long_compare_exchange (atomic_tail queue) pos (s64 (pos + 1)) in
        let queue := with_atomics queue (elements queue) (slots queue) (atomic_head queue) t in
        if (ok : bool) then Some (queue, Some pos) else mpsc_reserve fuel queue
      else if diff <? 0 then Some (queue, None)
      else mpsc_reserve fuel queue
  end.

(** src/vox_queue.c: vox_queue_enqueue *)
Definition vox_queue_enqueue (fuel : nat) p queue (elem : Z) : option (P * vox_queue * Z) :=
  if elem =? NULL then Some (p, queue, -1) else
  match type queue with
  | SPSC =>
      let tail := vox_atomic_long_load (atomic_tail queue) in
      let head := vox_atomic_long_load_acquire (atomic_head queue) in
      let next_tail := s64 (masked (tail + 1) (mask queue)) in
      if next_tail =? head then Some (p, queue, -1) else
      l ← (elements queue).[tail <- elem];
      Some (p, with_atomics queue l (slots queue) (atomic_head queue)
                 (vox_atomic_long_store_release (atomic_tail queue) next_tail), 0)
  | MPSC =>
      '(queue, r) ← mpsc_reserve fuel queue;
      match r with
      | None => Some (p, queue, -1)
      | Some pos =>
          let i := masked pos (mask queue) in
          slot ← (slots queue).[i];
          let slot := Slot elem (vox_atomic_long_store_release (sequence slot) (s64 (pos + 1))) in
          s ← (slots queue).[i <- slot];
          Some (p, with_atomics queue (elements queue) s (atomic_head queue) (atomic_tail queue), 0)
      end
  | NORMAL =>
      '(p, queue, rc) ← (if capacity queue <=? size queue then expand_queue p queue
                         else Some (p, queue, 0));
      if negb (rc =? 0) then Some (p, queue, -1) else
      l ← (elements queue).[tail queue <- elem];
      Some (p, with_ring queue (elements_at queue) l (capacity queue) (size queue + 1)
                 (head queue) (u64 (tail queue + 1) mod capacity queue), 0)
  end.

(** src/vox_queue.c:310-344: vox_queue_dequeue *)
Fixpoint mpsc_dequeue (fuel : nat) queue : option (vox_queue * Z) :=
  match fuel with
  | O => None
  | S fuel =>
      let pos := vox_atomic_long_load (atomic_head queue) in
      let tail := vox_atomic_long_load (atomic_tail queue) in
      if pos =? tail then Some (queue, NULL) else
      let i := masked pos (mask queue) in
      slot ← (slots queue).[i];
      let seq := vox_atomic_long_load_acquire (sequence slot) in
      let diff := s64 (seq - (pos + 1)) in
      if diff <? 0 then mpsc_dequeue fuel queue else
      let '(h, ok) := vox_atomic_long_compare_exchange (atomic_head queue) pos (s64 (pos + 1)) in
      let queue := with_atomics queue (elements queue) (slots queue) h (atomic_tail queue) in
      if negb ok then mpsc_dequeue fuel queue else
      slot ← (slots queue).[i];
      let elem := slot_data slot in
      let slot := Slot (slot_data slot)
        (vox_atomic_long_store_release (sequence slot) (s64 (pos + capacity queue))) in
      s ← (slots queue).[i <- slot];
      Some (with_atomics queue (elements queue) s (atomic_head queue) (atomic_tail queue), elem)
  end.

(** src/vox_queue.c: vox_queue_dequeue *)
Definition vox_queue_dequeue (fuel : nat) queue : option (vox_queue * Z) :=
  match type queue with
  | SPSC =>
      let head := vox_atomic_long_load (atomic_head queue) in
      let tail := vox_atomic_long_load_acquire (atomic_tail queue) in
      if head =? tail then Some (queue, NULL) else
      elem ← (elements queue).[head];
      let next_head := s64 (masked (head + 1) (mask queue)) in
      Some (with_atomics queue (elements queue) (slots queue)
              (vox_atomic_long_store_release (atomic_head queue) next_head) (atomic_tail queue), elem)
  | MPSC => mpsc_dequeue fuel queue
  | NORMAL =>
      if size queue =? 0 then Some (queue, NULL) else
      elem ← (elements queue).[head queue];
      Some (with_ring queue (elements_at queue) (elements queue) (capacity queue) (size queue - 1)
              (u64 (head queue + 1) mod capacity queue) (tail queue), elem)
  end.

(** src/vox_queue.c: vox_queue_peek *)
Definition vox_queue_peek queue : option Z :=
  match type queue with
  | SPSC =>
      let head := vox_atomic_long_load (atomic_head queue) in
      let tail := vox_atomic_long_load_acquire (atomic_tail queue) in
      if head =? tail then Some NULL else (elements queue).[head]
  | MPSC =>
      let pos := vox_atomic_long_load (atomic_head queue) in
      let tail := vox_atomic_long_load (atomic_tail queue) in
      if pos =? tail then Some NULL else
      slot ← (slots queue).[masked pos (mask queue)];
      let seq := vox_atomic_long_load_acquire (sequence slot) in
      let diff := s64 (seq - (pos + 1)) in
      if diff <? 0 then Some NULL else Some (slot_data slot)
  | NORMAL => if size queue =? 0 then Some NULL else (elements queue).[head queue]
  end.

(** src/vox_queue.c: vox_queue_size *)
Definition vox_queue_size queue : Z :=
  match type queue with
  | NORMAL => size queue
  | SPSC | MPSC =>
      let head := vox_atomic_long_load (atomic_head queue) in
      let tail := vox_atomic_long_load (atomic_tail queue) in
      let size := s64 (tail - head) in
      if size <? 0 then 0 else
      if s64 (capacity queue) <? size then capacity queue else size
  end.

(** src/vox_queue.c: vox_queue_capacity *)
Definition vox_queue_capacity queue : Z := capacity queue.

(** src/vox_queue.c: vox_queue_empty *)
Definition vox_queue_empty queue : bool :=
  match type queue with
  | NORMAL => size queue =? 0
  | SPSC | MPSC =>
      vox_atomic_long_load (atomic_head queue) =? vox_atomic_long_load (atomic_tail queue)
  end.

(** src/vox_queue.c: vox_queue_full *)
Definition vox_queue_full queue : bool :=
  match type queue with
  | SPSC =>
      let head := vox_atomic_long_load (atomic_head queue) in
      let tail := vox_atomic_long_load (atomic_tail queue) in
      let next_tail := s64 (masked (tail + 1) (mask queue)) in
      next_tail =? head
  | MPSC =>
      let head := vox_atomic_long_load (atomic_head queue) in
      let tail := vox_atomic_long_load (atomic_tail queue) in
      let size := s64 (tail - head) in
      if size <? 0 then false else s64 (capacity queue) <=? size
  | NORMAL => capacity queue <=? size queue
  end.

(** The loops over the elements. *)

(** [count] cells from [idx] on, around the array. *)
Fixpoint walk_ring (l : list Z) (cap idx : Z) (count : nat) : option (list Z) :=
  match count with
  | O => Some []
  | S count =>
      e ← l.[idx]; rest ← walk_ring l cap (u64 (idx + 1) mod cap) count; Some (e :: rest)
  end.

(** From [head] until [tail], masked. *)
Fixpoint walk_spsc (fuel : nat) (l : list Z) (m head tail : Z) : option (list Z) :=
  match fuel with
  | O => None
  | S fuel =>
      if head =? tail then Some [] else
      e ← l.[head]; rest ← walk_spsc fuel l m (s64 (masked (head + 1) m)) tail; Some (e :: rest)
  end.

(** The ready slots from [head], [count] of them; with [reset], their data is
    cleared. *)
Fixpoint walk_slots (s : list vox_queue_slot) (m head : Z) (count : nat) (reset : bool)
  : option (list vox_queue_slot * list Z) :=
  match count with
  | O => Some (s, [])
  | S count =>
      slot ← s.[masked head m];
      if (atomic_value (sequence slot) =? head + 1) && (negb reset || negb (slot_data slot =? NULL)) then
        s ← (if reset then s.[masked head m <- Slot NULL (sequence slot)] else Some s);
        '(s, rest) ← walk_slots s m (head + 1) count reset;
        Some (s, slot_data slot :: rest)
      else walk_slots s m (head + 1) count reset
  end.

(** [sequence[i] = i; data = NULL] for every slot. *)
Fixpoint reset_slots (s : list vox_queue_slot) (i : Z) : list vox_queue_slot :=
  match s with
  | [] => []
  | slot :: s => Slot NULL (vox_atomic_long_store (sequence slot) i) :: reset_slots s (i + 1)
  end.

Definition spsc_fuel queue : nat := S (Z.to_nat (capacity queue)).
#[global] Arguments spsc_fuel : simpl never.

(** The calls of [elem_free], in order, are an output.

    src/vox_queue.c: vox_queue_clear *)
Definition vox_queue_clear queue : option (vox_queue * list Z) :=
  match type queue with
  | SPSC =>
      freed ← (if elem_free queue then
        filter (fun e => e <> NULL) <$>
          walk_spsc (spsc_fuel queue) (elements queue) (mask queue)
            (vox_atomic_long_load (atomic_head queue)) (vox_atomic_long_load_acquire (atomic_tail queue))
        else Some []);
      Some (with_atomics queue (elements queue) (slots queue)
              (vox_atomic_long_store (atomic_head queue) 0)
              (vox_atomic_long_store (atomic_tail queue) 0), freed)
  | MPSC =>
      let head := vox_atomic_long_load (atomic_head queue) in
      let tail := vox_atomic_long_load (atomic_tail queue) in
      '(s, freed) ← (if elem_free queue
        then walk_slots (slots queue) (mask queue) head (Z.to_nat (tail - head)) true
        else Some (slots queue, []));
      Some (with_atomics queue (elements queue) (reset_slots s 0)
              (vox_atomic_long_store (atomic_head queue) 0)
              (vox_atomic_long_store (atomic_tail queue) 0), freed)
  | NORMAL =>
      freed ← (if elem_free queue then
        filter (fun e => e <> NULL) <$>
          walk_ring (elements queue) (capacity queue) (head queue) (Z.to_nat (size queue))
        else Some []);
      Some (with_ring queue (elements_at queue) (elements queue) (capacity queue) 0 0 0, freed)
  end.

(** The elements visited, in order, and the count returned.

    src/vox_queue.c: vox_queue_foreach *)
Definition vox_queue_foreach queue : option (list Z * Z) :=
  visited ←
    match type queue with
    | SPSC => walk_spsc (spsc_fuel queue) (elements queue) (mask queue)
        (vox_atomic_long_load (atomic_head queue)) (vox_atomic_long_load_acquire (atomic_tail queue))
    | MPSC =>
        let head := vox_atomic_long_load (atomic_head queue) in
        let tail := vox_atomic_long_load (atomic_tail queue) in
        guard! head <=? tail;
        snd <$> walk_slots (slots queue) (mask queue) head (Z.to_nat (tail - head)) false
    | NORMAL => walk_ring (elements queue) (capacity queue) (head queue) (Z.to_nat (size queue))
    end;
  Some (visited, zlen visited).

(** ** Creation and destruction *)

(** src/vox_atomic.c: vox_atomic_long_create *)
Definition vox_atomic_long_create p (v : Z) : P * option vox_atomic_long :=
  let '(p, a) := mp_alloc p sizeof_atomic_long in
  if a =? NULL then (p, None) else (p, Some (Atomic a v)).

(** src/vox_atomic.c: vox_atomic_long_destroy *)
Definition vox_atomic_long_destroy p (a : vox_atomic_long) : P := mp_free p (atomic_at a).

Definition destroy_opt p (a : option vox_atomic_long) : P :=
  match a with Some a => vox_atomic_long_destroy p a | None => p end.

Definition destroy_sequences p (s : list vox_queue_slot) : P :=
  foldl (fun p slot => vox_atomic_long_destroy p (sequence slot)) p s.

(** The slots from [i] on, [n] of them; a failed creation gives back the sequences
    made so far. [None]: a slot outside the block.

    src/vox_queue.c:171-186: vox_queue_create_with_config *)
Fixpoint create_slots p (cells : list vox_queue_slot) (i : Z) (n : nat)
  : option (P * option (list vox_queue_slot)) :=
  match n with
  | O => Some (p, Some cells)
  | S n =>
      let '(p, a) := vox_atomic_long_create p i in
      match a with
      | None => Some (destroy_sequences p (take (Z.to_nat i) cells), None)
      | Some a => cells ← cells.[i <- Slot NULL a]; create_slots p cells (i + 1) n
      end
  end.

Record vox_queue_config := {
  config_type : vox_queue_type;
  initial_capacity : Z;
  config_elem_free : bool;
}.

Definition no_atomic : vox_atomic_long := Atomic NULL 0.

(** src/vox_queue.c:86-202: vox_queue_create_with_config *)
Definition vox_queue_create_with_config p (config : option vox_queue_config)
  : option (P * option vox_queue) :=
  let '(p, q_at) := mp_alloc p sizeof_queue in
  if q_at =? NULL then Some (p, None) else
  let ty := match config with Some c => config_type c | None => NORMAL end in
  let icap := match config with
              | Some c => if 0 <? initial_capacity c then initial_capacity c
                          else VOX_QUEUE_DEFAULT_INITIAL_CAPACITY
              | None => VOX_QUEUE_DEFAULT_INITIAL_CAPACITY
              end in
  let ef := match config with Some c => config_elem_free c | None => false end in
  if negb (bool_decide (ty = NORMAL)) &&
     match config with Some c => initial_capacity c =? 0 | None => false end
  then Some (mp_free p q_at, None) else
  let base := {| self := q_at; type := ty; elements_at := NULL; elements := []; slots_at := NULL;
                 slots := []; capacity := icap; elem_free := ef; size := 0; head := 0; tail := 0;
                 atomic_head := no_atomic; atomic_tail := no_atomic; mask := 0 |} in
  if bool_decide (ty = NORMAL) then
    let '(p, a, cells) := alloc_cells 0 p icap sizeof_ptr in
    if a =? NULL then Some (mp_free p q_at, None) else
    Some (p, Some (with_ring base a cells icap 0 0 0))
  else
    let cap := round_capacity icap in
    let '(p, ah) := vox_atomic_long_create p 0 in
    let '(p, at_) := vox_atomic_long_create p 0 in
    match ah, at_ with
    | Some ah, Some at_ =>
        let q l la s sa :=
          {| self := q_at; type := ty; elements_at := la; elements := l; slots_at := sa;
             slots := s; capacity := cap; elem_free := ef; size := 0; head := 0; tail := 0;
             atomic_head := ah; atomic_tail := at_; mask := u64 (cap - 1) |} in
        if bool_decide (ty = MPSC) then
          let '(p, sa, cells) := alloc_cells (Slot junk no_atomic) p cap sizeof_slot in
          if sa =? NULL
          then Some (mp_free (vox_atomic_long_destroy (vox_atomic_long_destroy p ah) at_) q_at, None) else
          '(p, s) ← create_slots p cells 0 (Z.to_nat cap);
          match s with
          | None =>
              let p := mp_free p sa in
              Some (mp_free (vox_atomic_long_destroy (vox_atomic_long_destroy p ah) at_) q_at, None)
          | Some s => Some (p, Some (q [] NULL s sa))
          end
        else
          let '(p, a, cells) := alloc_cells 0 p cap sizeof_ptr in
          if a =? NULL
          then Some (mp_free (vox_atomic_long_destroy (vox_atomic_long_destroy p ah) at_) q_at, None)
          else Some (p, Some (q cells a [] NULL))
    | _, _ => Some (mp_free (destroy_opt (destroy_opt p ah) at_) q_at, None)
    end.

(** src/vox_queue.c: vox_queue_create *)
Definition vox_queue_create p : option (P * option vox_queue) := vox_queue_create_with_config p None.

(** src/vox_queue.c: vox_queue_destroy *)
Definition vox_queue_destroy p queue : option (P * list Z) :=
  '(queue, freed) ← vox_queue_clear queue;
  let p := if atomic_at (atomic_head queue) =? NULL then p
           else vox_atomic_long_destroy p (atomic_head queue) in
  let p := if atomic_at (atomic_tail queue) =? NULL then p
           else vox_atomic_long_destroy p (atomic_tail queue) in
  let p := if slots_at queue =? NULL then p else
           mp_free (destroy_sequences p (slots queue)) (slots_at queue) in
  let p := if elements_at queue =? NULL then p else mp_free p (elements_at queue) in
  Some (mp_free p (self queue), freed).
End operations.

(** ** Rings

    [ring g cap h n]: the [n] values from position [h] on of a ring of [cap] cells
    read by [g]. *)
Fixpoint ring (g : Z -> Z) (cap h : Z) (n : nat) : list Z :=
  match n with
  | O => []
  | S n => g (h mod cap) :: ring g cap (h + 1) n
  end.

Lemma ring_length g cap h n : length (ring g cap h n) = n.
Proof. revert h. induction n as [|n IH]; intros h; cbn; [done|]. by rewrite IH. Qed.

Lemma ring_zlen g cap h n : zlen (ring g cap h n) = Z.of_nat n.
Proof. unfold zlen. by rewrite ring_length. Qed.

Lemma ring_ext g g' cap h n :
  (forall j, h <= j < h + Z.of_nat n -> g (j mod cap) = g' (j mod cap)) ->
  ring g cap h n = ring g' cap h n.
Proof.
  revert h. induction n as [|n IH]; intros h Hg; cbn; [done|].
  rewrite Hg by lia. f_equal. apply IH. intros j Hj. apply Hg. lia.
Qed.

Lemma ring_snoc g cap h n :
  ring g cap h (S n) = ring g cap h n ++ [g ((h + Z.of_nat n) mod cap)].
Proof.
  revert h. induction n as [|n IH]; intros h.
  - cbn. do 3 f_equal. lia.
  - change (ring g cap h (S (S n))) with (g (h mod cap) :: ring g cap (h + 1) (S n)).
    rewrite IH. cbn. do 5 f_equal. lia.
Qed.

Lemma ring_mod g cap h n : 0 < cap -> ring g cap (h mod cap) n = ring g cap h n.
Proof.
  intros Hc. assert (forall h k, h mod cap = k mod cap -> ring g cap h n = ring g cap k n) as Hx.
  { clear h. induction n as [|n IH]; intros h k E; cbn; [done|]. rewrite E. f_equal. apply IH.
    rewrite (Z.add_mod h), (Z.add_mod k), E by lia. done. }
  apply Hx. by rewrite Z.mod_mod by lia.
Qed.

Lemma ring_app g cap h n m : ring g cap h (n + m) = ring g cap h n ++ ring g cap (h + Z.of_nat n) m.
Proof.
  revert h. induction n as [|n IH]; intros h; cbn; [f_equal; lia|]. rewrite IH. do 3 f_equal. lia.
Qed.

Definition cell (l : list Z) (i : Z) : Z := default NULL l.[i].
Definition slot_cell (s : list vox_queue_slot) (i : Z) : Z := default NULL (slot_data <$> s.[i]).

Lemma cell_get l i : 0 <= i < zlen l -> l.[i] = Some (cell l i).
Proof. intros Hi. unfold cell. destruct (arr_get_Some l i Hi) as [x ->]. done. Qed.

Lemma cell_insert l i x k :
  0 <= i < zlen l -> 0 <= k -> cell (<[Z.to_nat i := x]> l) k = if decide (i = k) then x else cell l k.
Proof. intros Hi Hk. unfold cell. rewrite arr_get_insert by done. by case_decide. Qed.

(** A contiguous part of the array is a slice. *)
Lemma ring_slice l h n :
  0 <= h -> h + Z.of_nat n <= zlen l -> ring (cell l) (zlen l) h n = take n (drop (Z.to_nat h) l).
Proof.
  revert h. induction n as [|n IH]; intros h Hh Hn; cbn; [done|].
  rewrite Z.mod_small by lia. pose proof (cell_get l h ltac:(lia)) as Hc.
  rewrite arr_get_lookup in Hc by lia. rewrite (drop_S _ _ _ Hc). cbn. f_equal.
  rewrite IH by lia. do 2 f_equal. lia.
Qed.

(** Writing the cell just behind the contents appends to them. *)
Lemma ring_push l cap h n x :
  zlen l = cap -> 0 <= Z.of_nat n < cap -> 0 <= h ->
  ring (cell (<[Z.to_nat ((h + Z.of_nat n) mod cap) := x]> l)) cap h (S n)
  = ring (cell l) cap h n ++ [x].
Proof.
  intros Hl Hn Hh. pose proof (Z.mod_pos_bound (h + Z.of_nat n) cap ltac:(lia)).
  rewrite ring_snoc. f_equal.
  - apply ring_ext. intros j Hj. pose proof (Z.mod_pos_bound j cap ltac:(lia)).
    rewrite cell_insert by lia. apply decide_False. intros E. symmetry in E.
    apply mod_window in E; lia.
  - rewrite cell_insert by lia. by rewrite decide_True.
Qed.

Lemma masked_mod x cap : pow2 cap -> 0 <= x < 2 ^ 64 -> masked x (cap - 1) = x mod cap.
Proof. intros Hc Hx. unfold masked. rewrite u64_small by done. by apply land_mask. Qed.

(** ** One call, and the FIFO it implements *)

Inductive queue_op :=
| QEnqueue (elem : Z) | QDequeue | QPeek | QSize | QCapacity | QEmpty | QFull | QClear | QForeach.

(** The value returned, and the elements freed or visited. *)
Definition queue_exec {P} `{MPool P} (junk : Z) (fuel : nat) (p : P) (q : vox_queue) (op : queue_op)
  : option (P * vox_queue * Z * list Z) :=
  match op with
  | QEnqueue e => '(p, q, r) ← vox_queue_enqueue junk fuel p q e; Some (p, q, r, [])
  | QDequeue => '(q, r) ← vox_queue_dequeue fuel q; Some (p, q, r, [])
  | QPeek => r ← vox_queue_peek q; Some (p, q, r, [])
  | QSize => Some (p, q, vox_queue_size q, [])
  | QCapacity => Some (p, q, vox_queue_capacity q, [])
  | QEmpty => Some (p, q, Z.b2z (vox_queue_empty q), [])
  | QFull => Some (p, q, Z.b2z (vox_queue_full q), [])
  | QClear => '(q, freed) ← vox_queue_clear q; Some (p, q, 0, freed)
  | QForeach => '(visited, n) ← vox_queue_foreach q; Some (p, q, n, visited)
  end.

(** How many elements a queue can hold before enqueue fails. *)
Definition bound (ty : vox_queue_type) (cap : Z) : option Z :=
  match ty with NORMAL => None | SPSC => Some (cap - 1) | MPSC => Some cap end.

Definition is_full (ty : vox_queue_type) (cap n : Z) : bool :=
  match ty with NORMAL | MPSC => cap <=? n | SPSC => cap - 1 <=? n end.

(** The FIFO [l] of a queue of type [ty] and capacity [cap]. *)
Definition fifo_step (ty : vox_queue_type) (cap : Z) (ef : bool) (l : list Z) (op : queue_op)
  : list Z * Z * list Z :=
  match op with
  | QEnqueue e =>
      if e =? NULL then (l, -1, []) else
      match bound ty cap with
      | Some b => if b <=? zlen l then (l, -1, []) else (l ++ [e], 0, [])
      | None => (l ++ [e], 0, [])
      end
  | QDequeue => match l with [] => ([], NULL, []) | x :: l => (l, x, []) end
  | QPeek => (l, match l with [] => NULL | x :: _ => x end, [])
  | QSize => (l, zlen l, [])
  | QCapacity => (l, cap, [])
  | QEmpty => (l, Z.b2z (zlen l =? 0), [])
  | QFull => (l, Z.b2z (is_full ty cap (zlen l)), [])
  | QClear => ([], 0, if ef then filter (fun e => e <> NULL) l else [])
  | QForeach => (l, zlen l, l)
  end.

Definition contents (q : vox_queue) : list Z :=
  match type q with
  | NORMAL => ring (cell (elements q)) (capacity q) (head q) (Z.to_nat (size q))
  | SPSC => ring (cell (elements q)) (capacity q) (atomic_value (atomic_head q))
      (Z.to_nat ((atomic_value (atomic_tail q) - atomic_value (atomic_head q)) mod capacity q))
  | MPSC => ring (slot_cell (slots q)) (capacity q) (atomic_value (atomic_head q))
      (Z.to_nat (atomic_value (atomic_tail q) - atomic_value (atomic_head q)))
  end.

(** The blocks of a queue, the last to be released first. *)
Definition blocks (q : vox_queue) : list Z :=
  match type q with
  | NORMAL => [self q; elements_at q]
  | SPSC => [self q; elements_at q; atomic_at (atomic_tail q); atomic_at (atomic_head q)]
  | MPSC => self q :: slots_at q ::
      reverse ((fun s => atomic_at (sequence s)) <$> slots q)
      ++ [atomic_at (atomic_tail q); atomic_at (atomic_head q)]
  end.

Definition normal_ok (q : vox_queue) : Prop :=
  0 < capacity q /\ capacity q * sizeof_ptr <= PTRDIFF_MAX /\ zlen (elements q) = capacity q /\
  0 <= head q < capacity q /\ 0 <= size q <= capacity q /\
  tail q = (head q + size q) mod capacity q.

Definition spsc_ok (q : vox_queue) : Prop :=
  pow2 (capacity q) /\ mask q = capacity q - 1 /\ zlen (elements q) = capacity q /\
  0 <= atomic_value (atomic_head q) < capacity q /\ 0 <= atomic_value (atomic_tail q) < capacity q.

(** The sequence number of the slot for position [pos]. *)
Definition seq_of (s : list vox_queue_slot) (cap pos : Z) : option Z :=
  atomic_value ∘ sequence <$> s.[pos mod cap].

Definition mpsc_ok (q : vox_queue) : Prop :=
  let h := atomic_value (atomic_head q) in
  let t := atomic_value (atomic_tail q) in
  pow2 (capacity q) /\ 2 <= capacity q /\ mask q = capacity q - 1 /\ zlen (slots q) = capacity q /\
  0 <= h <= t /\ t <= h + capacity q /\ t <= 2 ^ 62 /\
  (forall pos, h <= pos < t -> seq_of (slots q) (capacity q) pos = Some (pos + 1)) /\
  (forall pos, t <= pos < h + capacity q -> seq_of (slots q) (capacity q) pos = Some pos).

Definition shape_ok (q : vox_queue) : Prop :=
  match type q with NORMAL => normal_ok q | SPSC => spsc_ok q | MPSC => mpsc_ok q end.

(** The pointers a type of queue does not use are [NULL]. *)
Definition null_ok (q : vox_queue) : Prop :=
  match type q with
  | NORMAL => slots_at q = NULL /\ atomic_at (atomic_head q) = NULL /\ atomic_at (atomic_tail q) = NULL
  | SPSC => slots_at q = NULL
  | MPSC => elements_at q = NULL
  end.

Lemma normal_null q a l c n h t : type q = NORMAL -> null_ok q -> null_ok (with_ring q a l c n h t).
Proof. unfold null_ok; cbn. by intros ->. Qed.

Section refinement.
Context {P : Type} `{MPoolLaws P} (junk : Z).
Implicit Types (p : P) (q : vox_queue).

Record queue_ok p q : Prop := {
  qi_pool : mp_inv p;
  qi_shape : shape_ok q;
  qi_null : null_ok q;
  qi_live : forall b, b ∈ blocks q -> is_Some (mp_live p !! b);
  qi_nodup : NoDup (blocks q);
}.

(** The same queue, well formed, every other block of the pool untouched. *)
Definition queue_keep p q p' q' : Prop :=
  queue_ok p' q' /\ type q' = type q /\ self q' = self q /\ elem_free q' = elem_free q /\
  (type q <> NORMAL -> capacity q' = capacity q) /\
  foldr delete (mp_live p') (blocks q') = foldr delete (mp_live p) (blocks q).

Lemma queue_keep_refl p q : queue_ok p q -> queue_keep p q p q.
Proof. intros Hi. by repeat split; try apply Hi. Qed.

(** A call that changes neither the pool nor the blocks. *)
Lemma queue_keep_shape p q q' :
  queue_ok p q -> shape_ok q' -> type q' = type q -> self q' = self q ->
  elem_free q' = elem_free q -> capacity q' = capacity q -> blocks q' = blocks q ->
  (null_ok q -> null_ok q') -> queue_keep p q p q'.
Proof.
  intros [Hp _ Hnull Hl Hn] Hs Ht Hself He Hc Hb Hnn. split; [|by rewrite Hb].
  constructor; [done|done|by apply Hnn|by rewrite Hb..].
Qed.

Definition op_ok p q (op : queue_op) : Prop :=
  exists p' q' r out, queue_exec junk 1 p q op = Some (p', q', r, out) /\ queue_keep p q p' q' /\
    ((contents q', r, out) = fifo_step (type q) (capacity q) (elem_free q) (contents q) op \/
     (type q = NORMAL /\ (exists e, op = QEnqueue e) /\ contents q' = contents q /\ r = -1 /\
      exists n, 0 < n /\ mp_alloc p n = (p', NULL))).

(** Calls that only look. *)
Lemma look_ok p q op r out :
  queue_ok p q -> queue_exec junk 1 p q op = Some (p, q, r, out) ->
  fifo_step (type q) (capacity q) (elem_free q) (contents q) op = (contents q, r, out) ->
  op_ok p q op.
Proof.
  intros Hi He Hf. exists p, q, r, out. split; [done|]. split; [by apply queue_keep_refl|].
  left. by rewrite Hf.
Qed.

Lemma change_ok p q q' op r out :
  queue_ok p q -> queue_exec junk 1 p q op = Some (p, q', r, out) ->
  shape_ok q' -> type q' = type q -> self q' = self q ->
  elem_free q' = elem_free q -> capacity q' = capacity q -> blocks q' = blocks q ->
  fifo_step (type q) (capacity q) (elem_free q) (contents q) op = (contents q', r, out) ->
  (null_ok q -> null_ok q') -> op_ok p q op.
Proof.
  intros Hi He Hs Ht Hself Hef Hc Hb Hf Hnn. exists p, q', r, out. split; [done|].
  split; [by apply queue_keep_shape|]. left. by rewrite Hf.
Qed.

(** *** The growing ring *)

Lemma normal_owned p q : queue_ok p q -> type q = NORMAL -> owned p (self q) (elements_at q).
Proof.
  intros [_ _ _ Hl Hn] Ht. unfold blocks in *. rewrite Ht in *.
  apply NoDup_cons in Hn as [Hn _]. split_and!.
  - apply Hl. right. by left.
  - apply Hl. by left.
  - intros E. apply Hn. rewrite E. by left.
Qed.

Lemma normal_queue_ok p q :
  type q = NORMAL -> mp_inv p -> normal_ok q -> null_ok q -> owned p (self q) (elements_at q) ->
  queue_ok p q.
Proof.
  intros Ht Hp Hn Hnull (Hat & Hself & Hne). constructor; [done|by unfold shape_ok; rewrite Ht|done| |];
    unfold blocks; rewrite Ht.
  - intros b. rewrite !elem_of_cons, elem_of_nil. by intros [->|[->|[]]].
  - apply NoDup_cons. split; [|apply NoDup_singleton]. rewrite list_elem_of_singleton. auto.
Qed.

Lemma full_ring l h :
  0 <= h < zlen l ->
  ring (cell l) (zlen l) h (Z.to_nat (zlen l)) = drop (Z.to_nat h) l ++ take (Z.to_nat h) l.
Proof.
  intros Hh. replace (Z.to_nat (zlen l)) with (Z.to_nat (zlen l - h) + Z.to_nat h)%nat by lia.
  rewrite ring_app, ring_slice by lia. rewrite take_ge by (rewrite length_drop; unfold zlen; lia).
  f_equal. rewrite <-ring_mod by lia.
  replace (h + Z.of_nat (Z.to_nat (zlen l - h))) with (zlen l) by lia.
  rewrite Z.mod_same, ring_slice by lia. by rewrite drop_0.
Qed.

Lemma expand_cells (l new : list Z) h :
  0 <= h < zlen l -> zlen new = 2 * zlen l ->
  exists l', (l1 ← arr_blit new 0 l h (zlen l - h); arr_blit l1 (zlen l - h) l 0 h) = Some l' /\
    zlen l' = 2 * zlen l /\ take (length l) l' = drop (Z.to_nat h) l ++ take (Z.to_nat h) l.
Proof.
  intros Hh Hn. rewrite arr_blit_ok by lia. cbn [mbind option_bind].
  change (Z.to_nat 0) with 0%nat. rewrite take_0, Z.add_0_l. cbn [app].
  rewrite (take_ge (drop _ _)) by (rewrite length_drop; unfold zlen; lia).
  rewrite arr_blit_ok by zlia. eexists. split; [done|]. unfold zlen in *.
  change (Z.to_nat 0) with 0%nat. rewrite drop_0.
  assert (Hd : length (drop (Z.to_nat h) l) = Z.to_nat (Z.of_nat (length l) - h))
    by (rewrite length_drop; lia).
  rewrite take_app_le, take_ge by lia. rewrite drop_app, (drop_ge (drop _ _)) by lia. cbn [app].
  rewrite drop_drop, Hd. split.
  - rewrite !length_app, Hd, length_take, length_drop. lia.
  - rewrite app_assoc, take_app_length' ; [done|].
    rewrite length_app, Hd, length_take. lia.
Qed.

Lemma expand_queue_ok p q :
  queue_ok p q -> type q = NORMAL -> size q = capacity q ->
  exists p' q' rc, expand_queue junk p q = Some (p', q', rc) /\ queue_keep p q p' q' /\
    contents q' = contents q /\
    ((rc = 0 /\ size q' < capacity q') \/
     (rc = -1 /\ exists n, 0 < n /\ mp_alloc p n = (p', NULL))).
Proof.
  intros Hi Ht Hfull. pose proof (normal_owned p q Hi Ht) as Hown.
  pose proof (qi_shape _ _ Hi) as Hs. unfold shape_ok in Hs. rewrite Ht in Hs.
  destruct Hs as (Hc & Hmax & Hlen & Hh & Hsz & Htl). unfold sizeof_ptr, PTRDIFF_MAX in Hmax.
  unfold expand_queue. rewrite u64_small by lia. rewrite (proj2 (Z.ltb_ge _ _)) by lia.
  destruct (alloc_cells junk p (capacity q * 2) sizeof_ptr) as [[p1 a] cells] eqn:E.
  eapply (grow_cells junk p p1 (self q) (elements_at q)) in E as
    [(-> & Hp1 & Hl & Hn)|(Hnn & Hlc & Hmax' & Hp1 & Hown' & Hf)];
    [| |apply Hi|done|unfold sizeof_ptr; lia..].
  - cbn. do 3 eexists. split; [done|]. split; [|split; [done|right; split; [done|]]].
    + split; [|repeat split]; [|by rewrite Hl].
      constructor; [done|apply Hi|apply Hi|rewrite Hl; apply Hi|apply Hi].
    + eexists. split; [|done]. unfold sizeof_ptr. lia.
  - rewrite (proj2 (Z.eqb_neq a NULL)) by done.
    assert (tail q = head q) as Htl'.
    { rewrite Htl, Hfull. rewrite <-Z.add_mod_idemp_r, Z.mod_same, Z.add_0_r by lia.
      by apply Z.mod_small. }
    rewrite Htl', Z.ltb_irrefl, (proj2 (Z.ltb_lt 0 _)) by lia.
    rewrite u64_small by lia. rewrite <-Hlen.
    destruct (expand_cells (elements q) cells (head q)) as (l' & E & Hl' & Htk); [lia..|].
    cbn zeta. rewrite E. cbn.
    do 3 eexists. split; [done|]. split; [|split; [|left; cbn; lia]].
    + split; [|repeat split]; [|by rewrite Ht|].
      * apply normal_queue_ok; [done|done| |by apply normal_null; [|apply Hi]|done]. unfold normal_ok; cbn.
        unfold sizeof_ptr in *. split_and!; try lia. rewrite Z.mod_small; lia.
      * cbn. unfold blocks; cbn. rewrite Ht. exact Hf.
    + unfold contents; cbn. rewrite Ht, Hfull, <-Hlen, Z.mul_comm, <-Hl'.
      rewrite full_ring by lia. rewrite ring_slice by lia. rewrite <-Htk.
      unfold zlen. by rewrite Nat2Z.id.
Qed.

Lemma normal_enqueue_ok p q e : queue_ok p q -> type q = NORMAL -> op_ok p q (QEnqueue e).
Proof.
  intros Hi Ht. destruct (Z.eqb_spec e NULL) as [->|He].
  { by apply (look_ok p q _ (-1) []). }
  assert (exists p' q' rc,
    (if capacity q <=? size q then expand_queue junk p q else Some (p, q, 0)) = Some (p', q', rc) /\
    queue_keep p q p' q' /\ contents q' = contents q /\
    ((rc = 0 /\ size q' < capacity q') \/ (rc = -1 /\ exists n, 0 < n /\ mp_alloc p n = (p', NULL))))
    as (p' & q' & rc & Hg & Hk & Hc & Hrc).
  { pose proof (qi_shape _ _ Hi) as Hs. unfold shape_ok in Hs. rewrite Ht in Hs.
    destruct Hs as (_ & _ & _ & _ & Hsz & _).
    destruct (Z.leb_spec (capacity q) (size q)); [apply expand_queue_ok; [done|done|lia]|].
    do 3 eexists. split; [done|]. split; [by apply queue_keep_refl|]. by split; [|left]. }
  unfold op_ok. cbn [queue_exec fifo_step]. unfold vox_queue_enqueue. rewrite Ht, Hg.
  rewrite (proj2 (Z.eqb_neq _ _)) by done. cbn.
  destruct Hrc as [[-> Hroom]|[-> Hn]]; cbn.
  2:{ do 4 eexists. split; [done|]. split; [done|]. right. split; [done|]. split; [by eexists|]. done. }
  destruct Hk as (Hi' & Hty & Hself & Hef & _ & Hf). rewrite Ht in Hty.
  pose proof (normal_owned p' q' Hi' Hty) as Hown.
  pose proof (qi_shape _ _ Hi') as Hs. unfold shape_ok in Hs. rewrite Hty in Hs.
  destruct Hs as (Hcap & Hmax & Hlen & Hh & Hsz & Htl).
  pose proof (Z.mod_pos_bound (head q' + size q') (capacity q') Hcap) as Hb.
  rewrite arr_set_ok by lia. cbn. unfold sizeof_ptr, PTRDIFF_MAX in Hmax.
  rewrite u64_small by lia.
  do 4 eexists. split; [done|]. split; [|left].
  - split; [|cbn; repeat split; [congruence|done|done|by rewrite Ht|]].
    + apply normal_queue_ok; [done|apply Hi'| |exact (qi_null _ _ Hi')|done]. unfold normal_ok; cbn.
      rewrite zlen_insert. unfold sizeof_ptr, PTRDIFF_MAX. split_and!; try lia.
      rewrite Htl, Z.add_mod_idemp_l by lia. f_equal. lia.
    + unfold blocks in *; cbn. rewrite Hty in *. rewrite Ht in *. exact Hf.
  - do 2 f_equal. rewrite <-Hc. unfold contents; cbn. rewrite Hty, Htl.
    replace (Z.to_nat (size q' + 1)) with (S (Z.to_nat (size q'))) by lia.
    replace (head q' + size q') with (head q' + Z.of_nat (Z.to_nat (size q'))) by lia.
    apply ring_push; lia.
Qed.

Lemma walk_ring_ok l h n :
  0 <= h < zlen l -> zlen l < 2 ^ 63 -> walk_ring l (zlen l) h n = Some (ring (cell l) (zlen l) h n).
Proof.
  revert h. induction n as [|n IH]; intros h Hh Hm; cbn [walk_ring ring]; [done|].
  rewrite cell_get by lia. cbn. rewrite u64_small by lia.
  pose proof (Z.mod_pos_bound (h + 1) (zlen l) ltac:(lia)). rewrite IH by lia. cbn.
  by rewrite (Z.mod_small h), ring_mod by lia.
Qed.

Lemma normal_op_ok p q op : queue_ok p q -> type q = NORMAL -> op_ok p q op.
Proof.
  intros Hi Ht. pose proof (qi_shape _ _ Hi) as Hs. unfold shape_ok in Hs. rewrite Ht in Hs.
  destruct Hs as (Hcap & Hmax & Hlen & Hh & Hsz & Htl). unfold sizeof_ptr, PTRDIFF_MAX in Hmax.
  assert (Hc : contents q = ring (cell (elements q)) (capacity q) (head q) (Z.to_nat (size q)))
    by (unfold contents; by rewrite Ht).
  assert (Hz : zlen (contents q) = size q) by (rewrite Hc, ring_zlen; lia).
  assert (Hw : walk_ring (elements q) (capacity q) (head q) (Z.to_nat (size q)) = Some (contents q)).
  { rewrite Hc, <-Hlen. apply walk_ring_ok; lia. }
  destruct op.
  - by apply normal_enqueue_ok.
  - destruct (Z.eq_dec (size q) 0) as [E|E].
    { assert (contents q = []) as Hnil by (rewrite Hc, E; done).
      eapply (look_ok p q _ NULL []); [done| |cbn; by rewrite Hnil].
      cbn. unfold vox_queue_dequeue. by rewrite Ht, E. }
    replace (Z.to_nat (size q)) with (S (Z.to_nat (size q - 1))) in Hc by lia. cbn in Hc.
    rewrite Z.mod_small in Hc by lia.
    eapply (change_ok p q); [done| | | | | | | | |].
    + cbn. unfold vox_queue_dequeue. rewrite Ht, (proj2 (Z.eqb_neq _ _)), cell_get by lia. done.
    + unfold shape_ok; cbn. rewrite Ht. unfold normal_ok; cbn. rewrite u64_small by lia.
      pose proof (Z.mod_pos_bound (head q + 1) (capacity q) Hcap). unfold sizeof_ptr, PTRDIFF_MAX.
      split_and!; try lia. rewrite Htl, Z.add_mod_idemp_l by lia. f_equal. lia.
    + done.
    + done.
    + done.
    + done.
    + done.
    + rewrite Hc. unfold contents; cbn. rewrite Ht, u64_small, ring_mod by lia. done.
    + done.
  - eapply look_ok; [done| |cbn; reflexivity]. cbn. unfold vox_queue_peek. rewrite Ht.
    destruct (Z.eqb_spec (size q) 0) as [E|E]; [by rewrite Hc, E|].
    replace (Z.to_nat (size q)) with (S (Z.to_nat (size q - 1))) in Hc by lia. rewrite Hc. cbn.
    by rewrite Z.mod_small, cell_get by lia.
  - eapply look_ok; [done| |cbn; reflexivity]. cbn. unfold vox_queue_size. by rewrite Ht, Hz.
  - by eapply look_ok.
  - eapply look_ok; [done| |cbn; reflexivity]. cbn. unfold vox_queue_empty. by rewrite Ht, Hz.
  - eapply look_ok; [done| |cbn; reflexivity]. cbn. unfold vox_queue_full. by rewrite Ht, Hz.
  - eapply (change_ok p q); [done| | | | | | | | |].
    + cbn. unfold vox_queue_clear. rewrite Ht, Hw.
      instantiate (1 := if elem_free q then filter (fun e => e <> NULL) (contents q) else []).
      by destruct (elem_free q).
    + unfold shape_ok; cbn. rewrite Ht. unfold normal_ok; cbn. unfold sizeof_ptr, PTRDIFF_MAX.
      split_and!; lia || done.
    + done.
    + done.
    + done.
    + done.
    + done.
    + unfold contents at 2; cbn. by rewrite Ht.
    + done.
  - eapply look_ok; [done| |cbn; reflexivity]. cbn. unfold vox_queue_foreach. by rewrite Ht, Hw.
Qed.

(** *** The single-producer single-consumer ring *)

Lemma spsc_next cap x : pow2 cap -> 0 <= x < cap -> s64 (masked (x + 1) (cap - 1)) = (x + 1) mod cap.
Proof.
  intros Hp Hx. pose proof (pow2_pos cap Hp). rewrite masked_mod by (done || lia).
  pose proof (Z.mod_pos_bound (x + 1) cap ltac:(lia)). apply s64_small. lia.
Qed.

(** The number of elements between two indices. *)
Definition span (cap h t : Z) : Z := (t - h) mod cap.

Lemma span_next cap h t :
  0 < cap -> 0 <= h < cap -> 0 <= t < cap ->
  ((t + 1) mod cap = h <-> span cap h t = cap - 1) /\
  (span cap h t <> cap - 1 -> span cap h ((t + 1) mod cap) = span cap h t + 1) /\
  (span cap h t <> 0 -> span cap ((h + 1) mod cap) t = span cap h t - 1) /\
  (span cap h t = 0 <-> h = t) /\ (h + span cap h t) mod cap = t /\ 0 <= span cap h t < cap.
Proof.
  intros Hc Hh Ht. unfold span. pose proof (Z.mod_pos_bound (t - h) cap Hc) as Hb.
  assert (Hts : (h + (t - h) mod cap) mod cap = t).
  { rewrite Z.add_mod_idemp_r by lia. rewrite Z.mod_small; lia. }
  assert (Hn : (t + 1) mod cap = (h + ((t - h) mod cap + 1)) mod cap).
  { rewrite Z.add_assoc. rewrite <-(Z.add_mod_idemp_l (h + _) 1), Hts by lia. done. }
  assert (Hh0 : h mod cap = h) by (by apply Z.mod_small).
  split_and!; try done; try lia.
  - rewrite Hn. split; intros E.
    + destruct (decide ((t - h) mod cap + 1 = cap)); [lia|].
      assert (h + ((t - h) mod cap + 1) = h); [|lia].
      apply (mod_window cap); [lia|lia|]. by rewrite Hh0.
    + replace (h + ((t - h) mod cap + 1)) with (h + 1 * cap) by lia. by rewrite Z.mod_add by lia.
  - intros Hne. rewrite Zminus_mod_idemp_l. replace (t + 1 - h) with (t - h + 1) by lia.
    rewrite <-Z.add_mod_idemp_l by lia. apply Z.mod_small. lia.
  - intros Hne. rewrite Zminus_mod_idemp_r. replace (t - (h + 1)) with (t - h - 1) by lia.
    rewrite <-Zminus_mod_idemp_l. apply Z.mod_small. lia.
  - split; [|intros ->; by rewrite Z.sub_diag, Z.mod_0_l by lia].
    intros E. rewrite E, Z.add_0_r in Hts. lia.
Qed.

Lemma walk_spsc_ok l cap h t fuel :
  pow2 cap -> zlen l = cap -> 0 <= h < cap -> 0 <= t < cap ->
  (Z.to_nat (span cap h t) < fuel)%nat ->
  walk_spsc fuel l (cap - 1) h t = Some (ring (cell l) cap h (Z.to_nat (span cap h t))).
Proof.
  intros Hp Hl. pose proof (pow2_pos cap Hp). revert h. induction fuel as [|fuel IH]; intros h Hh Ht Hf; [lia|].
  destruct (span_next cap h t) as (_ & _ & Hdec & Hz & Hts & Hb); [lia..|].
  cbn [walk_spsc]. destruct (Z.eqb_spec h t) as [E|E].
  { by rewrite (proj2 Hz E). }
  assert (span cap h t <> 0) as Hne by tauto. specialize (Hdec Hne).
  pose proof (Z.mod_pos_bound (h + 1) cap ltac:(lia)).
  rewrite cell_get, spsc_next by (done || lia). cbn [mbind option_bind].
  rewrite IH, Hdec by lia. cbn.
  replace (Z.to_nat (span cap h t)) with (S (Z.to_nat (span cap h t - 1))) by lia. cbn.
  by rewrite (Z.mod_small h), ring_mod by lia.
Qed.

Lemma spsc_op_ok p q op :
  queue_ok p q -> type q = SPSC -> op <> QSize -> op_ok p q op.
Proof.
  intros Hi Hty Hsize. pose proof (qi_shape _ _ Hi) as Hs. unfold shape_ok in Hs. rewrite Hty in Hs.
  destruct Hs as (Hp & Hm & Hlen & Hh & Ht). pose proof (pow2_pos _ Hp) as Hcap.
  set (h := atomic_value (atomic_head q)) in *. set (t := atomic_value (atomic_tail q)) in *.
  destruct (span_next (capacity q) h t) as (Hfull & Hinc & Hdec & Hz & Hts & Hb); [lia..|].
  assert (Hc : contents q = ring (cell (elements q)) (capacity q) h (Z.to_nat (span (capacity q) h t)))
    by (unfold contents; by rewrite Hty).
  assert (Hn : zlen (contents q) = span (capacity q) h t) by (rewrite Hc, ring_zlen; lia).
  assert (Hw : walk_spsc (spsc_fuel q) (elements q) (mask q) h t = Some (contents q)).
  { rewrite Hc, Hm. apply walk_spsc_ok; try done. unfold spsc_fuel. lia. }
  assert (Hnext : s64 (masked (t + 1) (mask q)) = (t + 1) mod capacity q)
    by (rewrite Hm; by apply spsc_next).
  pose proof (Z.mod_pos_bound (t + 1) (capacity q) ltac:(lia)) as Htb.
  pose proof (Z.mod_pos_bound (h + 1) (capacity q) ltac:(lia)) as Hhb.
  destruct op as [e| | | | | | | |]; [..|done| | | | |].
  - destruct (Z.eqb_spec e NULL) as [->|He]; [by apply (look_ok p q _ (-1) [])|].
    destruct (Z.eq_dec ((t + 1) mod capacity q) h) as [E|E].
    + eapply look_ok; [done| |].
      * cbn. unfold vox_queue_enqueue, vox_atomic_long_load, vox_atomic_long_load_acquire.
        fold h t. rewrite Hty, Hnext, (proj2 (Z.eqb_neq _ _)), (proj2 (Z.eqb_eq _ _)) by done. done.
      * cbn. rewrite (proj2 (Z.eqb_neq _ _)), Hty by done. cbn.
        rewrite (proj2 (Z.leb_le _ _)); [done|]. rewrite Hn. tauto || (apply Hfull in E; lia).
    + assert (span (capacity q) h t <> capacity q - 1) as Hne by tauto. specialize (Hinc Hne).
      eapply (change_ok p q); [done| | | | | | | | |].
      * cbn. unfold vox_queue_enqueue, vox_atomic_long_load, vox_atomic_long_load_acquire.
        fold h t. rewrite Hty, Hnext, !(proj2 (Z.eqb_neq _ _)), arr_set_ok by (done || lia). done.
      * unfold shape_ok; cbn. rewrite Hty. unfold spsc_ok; cbn. rewrite zlen_insert. done.
      * done.
      * done.
      * done.
      * done.
      * unfold blocks; cbn. by rewrite Hty.
      * cbn. rewrite (proj2 (Z.eqb_neq _ _)), Hty by done. cbn.
        rewrite (proj2 (Z.leb_gt _ _)) by lia. do 2 f_equal.
        unfold contents at 2; cbn. rewrite Hty. fold h t. fold (span (capacity q) h ((t + 1) mod capacity q)).
        rewrite Hinc, Hc.
        replace (Z.to_nat (span (capacity q) h t + 1)) with (S (Z.to_nat (span (capacity q) h t))) by lia.
        pose proof (ring_push (elements q) (capacity q) h (Z.to_nat (span (capacity q) h t)) e) as Hrp.
        rewrite Z2Nat.id, Hts in Hrp by lia. symmetry. apply Hrp; lia.
      * done.
  - destruct (Z.eq_dec h t) as [E|E].
    + eapply look_ok; [done| |].
      * cbn. unfold vox_queue_dequeue, vox_atomic_long_load, vox_atomic_long_load_acquire.
        fold h t. rewrite Hty, (proj2 (Z.eqb_eq _ _)) by done. done.
      * rewrite Hc, (proj2 Hz E). done.
    + assert (span (capacity q) h t <> 0) as Hne by tauto. specialize (Hdec Hne).
      replace (Z.to_nat (span (capacity q) h t)) with (S (Z.to_nat (span (capacity q) h t - 1))) in Hc by lia.
      cbn in Hc. rewrite (Z.mod_small h) in Hc by lia.
      assert (Hnh : s64 (masked (h + 1) (mask q)) = (h + 1) mod capacity q)
        by (rewrite Hm; by apply spsc_next).
      eapply (change_ok p q); [done| | | | | | | | |].
      * cbn. unfold vox_queue_dequeue, vox_atomic_long_load, vox_atomic_long_load_acquire.
        fold h t. rewrite Hty, (proj2 (Z.eqb_neq _ _)), cell_get, Hnh by (done || lia). done.
      * unfold shape_ok; cbn. rewrite Hty. unfold spsc_ok; cbn. done.
      * done.
      * done.
      * done.
      * done.
      * unfold blocks; cbn. by rewrite Hty.
      * rewrite Hc. unfold contents; cbn. rewrite Hty. fold t.
        fold (span (capacity q) ((h + 1) mod capacity q) t). by rewrite Hdec, ring_mod by lia.
      * done.
  - eapply look_ok; [done| |cbn; reflexivity].
    cbn. unfold vox_queue_peek, vox_atomic_long_load, vox_atomic_long_load_acquire. fold h t.
    rewrite Hty. destruct (Z.eqb_spec h t) as [E|E]; [by rewrite Hc, (proj2 Hz E)|].
    assert (span (capacity q) h t <> 0) as Hne by tauto.
    replace (Z.to_nat (span (capacity q) h t)) with (S (Z.to_nat (span (capacity q) h t - 1))) in Hc by lia.
    rewrite Hc. cbn. by rewrite (Z.mod_small h), cell_get by lia.
  - by eapply look_ok.
  - eapply look_ok; [done| |cbn; reflexivity]. cbn. unfold vox_queue_empty, vox_atomic_long_load.
    fold h t. rewrite Hty, Hn. do 4 f_equal.
    apply eq_bool_prop_intro. rewrite !Is_true_true, !Z.eqb_eq. tauto.
  - eapply look_ok; [done| |cbn; reflexivity]. cbn. unfold vox_queue_full, vox_atomic_long_load.
    fold h t. rewrite Hty, Hn, Hnext. cbn. do 4 f_equal.
    apply eq_bool_prop_intro. rewrite !Is_true_true, Z.eqb_eq, Z.leb_le, Hfull. lia.
  - eapply (change_ok p q); [done| | | | | | | | |].
    + cbn. unfold vox_queue_clear, vox_atomic_long_load, vox_atomic_long_load_acquire. fold h t.
      rewrite Hty, Hw.
      instantiate (1 := if elem_free q then filter (fun e => e <> NULL) (contents q) else []).
      by destruct (elem_free q).
    + unfold shape_ok; cbn. rewrite Hty. unfold spsc_ok; cbn. split_and!; done || lia.
    + done.
    + done.
    + done.
    + done.
    + unfold blocks; cbn. by rewrite Hty.
    + unfold contents at 2; cbn. by rewrite Hty.
    + done.
  - eapply look_ok; [done| |cbn; reflexivity].
    cbn. unfold vox_queue_foreach, vox_atomic_long_load, vox_atomic_long_load_acquire. fold h t.
    by rewrite Hty, Hw.
Qed.

(** *** The ring of slots *)

Lemma seq_of_slot s cap pos v :
  0 < cap -> seq_of s cap pos = Some v ->
  exists slot, s.[pos mod cap] = Some slot /\ atomic_value (sequence slot) = v.
Proof.
  intros Hc. unfold seq_of. destruct (s.[pos mod cap]) as [slot|] eqn:E; [|done].
  cbn. intros [= <-]. by exists slot.
Qed.

(** Writing one slot of the ring. *)
Lemma seq_of_insert s cap i slot pos :
  zlen s = cap -> 0 < cap ->
  seq_of (<[Z.to_nat (i mod cap) := slot]> s) cap pos
  = if decide (i mod cap = pos mod cap) then Some (atomic_value (sequence slot)) else seq_of s cap pos.
Proof.
  intros Hl Hc. unfold seq_of. pose proof (Z.mod_pos_bound i cap Hc).
  pose proof (Z.mod_pos_bound pos cap Hc). rewrite arr_get_insert by lia. by case_decide.
Qed.

Lemma slot_cell_insert s cap i slot pos :
  zlen s = cap -> 0 < cap ->
  slot_cell (<[Z.to_nat (i mod cap) := slot]> s) (pos mod cap)
  = if decide (i mod cap = pos mod cap) then slot_data slot else slot_cell s (pos mod cap).
Proof.
  intros Hl Hc. unfold slot_cell. pose proof (Z.mod_pos_bound i cap Hc).
  pose proof (Z.mod_pos_bound pos cap Hc). rewrite arr_get_insert by lia. by case_decide.
Qed.

(** Replacing a slot by one with the same counter object keeps the counters. *)
Lemma insert_sequences (s : list vox_queue_slot) (i : nat) slot slot' :
  s !! i = Some slot -> atomic_at (sequence slot') = atomic_at (sequence slot) ->
  (fun s => atomic_at (sequence s)) <$> <[i := slot']> s = (fun s => atomic_at (sequence s)) <$> s.
Proof.
  intros Hs E. rewrite list_fmap_insert. apply list_insert_id. rewrite list_lookup_fmap, Hs. cbn. by rewrite E.
Qed.

Lemma walk_slots_ok s cap h n reset :
  pow2 cap -> zlen s = cap -> 0 <= h -> h + Z.of_nat n < 2 ^ 63 -> Z.of_nat n <= cap ->
  (forall pos, h <= pos < h + Z.of_nat n -> seq_of s cap pos = Some (pos + 1)) ->
  exists s', walk_slots s (cap - 1) h n reset
      = Some (s', if reset then filter (fun e => e <> NULL) (ring (slot_cell s) cap h n)
                  else ring (slot_cell s) cap h n) /\
    zlen s' = zlen s /\
    ((fun s => atomic_at (sequence s)) <$> s') = ((fun s => atomic_at (sequence s)) <$> s).
Proof.
  intros Hp. pose proof (pow2_pos cap Hp) as Hc. revert s h.
  induction n as [|n IH]; intros s h Hl Hh Hm Hn Hseq; cbn [walk_slots ring].
  { exists s. by destruct reset. }
  rewrite masked_mod by (done || lia).
  destruct (seq_of_slot s cap h (h + 1)) as (slot & Hs & Hv); [lia|apply Hseq; lia|].
  rewrite Hs. cbn [mbind option_bind]. rewrite Hv, Z.eqb_refl. cbn [andb].
  assert (Hcell : slot_cell s (h mod cap) = slot_data slot) by (unfold slot_cell; by rewrite Hs).
  pose proof (Z.mod_pos_bound h cap ltac:(lia)) as Hb.
  destruct reset; cbn [negb orb].
  - destruct (Z.eqb_spec (slot_data slot) NULL) as [E|E]; cbn [negb].
    + destruct (IH s (h + 1)) as (s' & -> & Hz & Hsq); [lia..| |]. { intros pos Hpos. apply Hseq. lia. }
      exists s'. split; [|done]. do 2 f_equal. rewrite Hcell, E. by rewrite filter_cons_False by tauto.
    + rewrite arr_set_ok by lia. cbn [mbind option_bind].
      destruct (IH (<[Z.to_nat (h mod cap) := Slot NULL (sequence slot)]> s) (h + 1)) as (s' & -> & Hz & Hsq);
        [by rewrite zlen_insert|lia..| |].
      { intros pos Hpos. rewrite seq_of_insert by lia. rewrite decide_False; [apply Hseq; lia|].
        intros E'. apply mod_window in E'; lia. }
      cbn [mbind option_bind]. exists s'. split; [|split].
      * do 2 f_equal. rewrite Hcell, filter_cons_True by done. do 2 f_equal.
        apply ring_ext. intros j Hj. rewrite slot_cell_insert by lia. apply decide_False.
        intros E'. apply mod_window in E'; lia.
      * by rewrite Hz, zlen_insert.
      * rewrite Hsq. apply (insert_sequences _ _ slot); [|done]. by rewrite <-arr_get_lookup by lia.
  - cbn [mbind option_bind].
    destruct (IH s (h + 1)) as (s' & -> & Hz & Hsq); [lia..| |]. { intros pos Hpos. apply Hseq. lia. }
    cbn [mbind option_bind]. exists s'. split; [|done]. by rewrite Hcell.
Qed.

Lemma reset_slots_spec s i :
  zlen (reset_slots s i) = zlen s /\
  ((fun s => atomic_at (sequence s)) <$> reset_slots s i) = ((fun s => atomic_at (sequence s)) <$> s) /\
  forall k, (k < length s)%nat ->
    atomic_value ∘ sequence <$> reset_slots s i !! k = Some (i + Z.of_nat k).
Proof.
  revert i. induction s as [|slot s IH]; intros i; cbn.
  - split; [done|]. split; [done|]. intros k Hk. lia.
  - destruct (IH (i + 1)) as (Hz & Ha & Hk). split; [|split].
    + by rewrite !zlen_cons, Hz.
    + f_equal. exact Ha.
    + intros [|k] Hlt; cbn; [f_equal; lia|]. rewrite Hk by lia. f_equal. lia.
Qed.

Lemma seq_of_reset s cap pos :
  zlen s = cap -> 0 <= pos < cap -> seq_of (reset_slots s 0) cap pos = Some pos.
Proof.
  intros Hl Hpos. unfold seq_of. rewrite Z.mod_small, arr_get_lookup by lia.
  destruct (reset_slots_spec s 0) as (_ & _ & Hk). unfold zlen in Hl.
  rewrite Hk by lia. f_equal. lia.
Qed.

(** The counters of a slot ring. *)
Definition mpsc_head q : Z := atomic_value (atomic_head q).
Definition mpsc_tail q : Z := atomic_value (atomic_tail q).

Lemma mpsc_masked q pos : mpsc_ok q -> 0 <= pos < 2 ^ 63 -> masked pos (mask q) = pos mod capacity q.
Proof. intros (Hp & _ & -> & _) Hpos. apply masked_mod; [done|lia]. Qed.

Lemma mpsc_blocks q q' :
  type q' = type q -> type q = MPSC -> self q' = self q -> slots_at q' = slots_at q ->
  atomic_at (atomic_head q') = atomic_at (atomic_head q) ->
  atomic_at (atomic_tail q') = atomic_at (atomic_tail q) ->
  ((fun s => atomic_at (sequence s)) <$> slots q') = ((fun s => atomic_at (sequence s)) <$> slots q) ->
  blocks q' = blocks q.
Proof.
  intros Ht Hm Hs Ha Hh Htl Hsq. unfold blocks. rewrite Ht, Hm, Hs, Ha, Hh, Htl. by rewrite Hsq.
Qed.

Lemma mpsc_enqueue_ok p q e :
  queue_ok p q -> type q = MPSC -> mpsc_tail q < 2 ^ 62 -> op_ok p q (QEnqueue e).
Proof.
  intros Hi Hty Hmax. pose proof (qi_shape _ _ Hi) as Hs. unfold shape_ok in Hs. rewrite Hty in Hs.
  pose proof Hs as (Hp & Hc2 & Hm & Hl & Hht & Hth & Htm & Hready & Hfree).
  pose proof (pow2_pos _ Hp) as Hcap. unfold mpsc_tail in Hmax.
  set (h := atomic_value (atomic_head q)) in *. set (t := atomic_value (atomic_tail q)) in *.
  assert (Hc : contents q = ring (slot_cell (slots q)) (capacity q) h (Z.to_nat (t - h)))
    by (unfold contents; by rewrite Hty).
  assert (Hn : zlen (contents q) = t - h) by (rewrite Hc, ring_zlen; lia).
  destruct (Z.eqb_spec e NULL) as [->|He]; [by apply (look_ok p q _ (-1) [])|].
  pose proof (Z.mod_pos_bound t (capacity q) ltac:(lia)) as Htb.
  assert (Hmt : masked t (mask q) = t mod capacity q) by (apply mpsc_masked; [done|lia]).
  destruct (Z.eq_dec t (h + capacity q)) as [E|E].
  - assert (seq_of (slots q) (capacity q) t = Some (h + 1)) as Hst.
    { unfold seq_of. rewrite E. replace (h + capacity q) with (h + 1 * capacity q) by lia.
      rewrite Z.mod_add by lia. apply (Hready h). lia. }
    destruct (seq_of_slot (slots q) (capacity q) t (h + 1) ltac:(lia) Hst) as (slot & Hg & Hv).
    eapply look_ok; [done| |].
    + cbn. unfold vox_queue_enqueue. rewrite Hty, (proj2 (Z.eqb_neq _ _)) by done. cbn [mpsc_reserve].
      unfold vox_atomic_long_load, vox_atomic_long_load_acquire. fold t.
      rewrite Hmt, Hg. cbn. rewrite Hv, s64_small by lia.
      rewrite (proj2 (Z.eqb_neq _ _)), (proj2 (Z.ltb_lt _ _)) by lia. done.
    + cbn. rewrite (proj2 (Z.eqb_neq _ _)), Hty by done. cbn.
      by rewrite (proj2 (Z.leb_le _ _)) by lia.
  - destruct (seq_of_slot (slots q) (capacity q) t t ltac:(lia) (Hfree t ltac:(lia))) as (slot & Hg & Hv).
    eapply (change_ok p q); [done| | | | | | | | |].
    + cbn. unfold vox_queue_enqueue. rewrite Hty, (proj2 (Z.eqb_neq _ _)) by done. cbn [mpsc_reserve].
      unfold vox_atomic_long_load, vox_atomic_long_load_acquire. fold t.
      rewrite Hmt, Hg. cbn [mbind option_bind]. rewrite Hv, Z.sub_diag. change (s64 0 =? 0) with true.
      unfold vox_atomic_long_compare_exchange. fold t. rewrite (Z.eqb_refl t). cbn.
      rewrite Hmt, Hg. cbn. rewrite arr_set_ok, (s64_small (t + 1)) by lia. done.
    + unfold shape_ok; cbn. rewrite Hty. unfold mpsc_ok; cbn. fold h. rewrite zlen_insert.
      split_and!; try done; try lia.
      * intros pos Hpos. rewrite seq_of_insert by lia. case_decide as Em.
        -- cbn. apply mod_window in Em; [by subst|lia..].
        -- apply Hready. destruct (decide (pos = t)) as [->|]; [done|lia].
      * intros pos Hpos. rewrite seq_of_insert by lia. rewrite decide_False; [apply Hfree; lia|].
        intros Em. apply mod_window in Em; lia.
    + done.
    + done.
    + done.
    + done.
    + apply mpsc_blocks; try done. cbn. apply (insert_sequences _ _ slot); [|done].
      by rewrite <-arr_get_lookup by lia.
    + cbn. rewrite (proj2 (Z.eqb_neq _ _)), Hty by done. cbn.
      rewrite (proj2 (Z.leb_gt _ _)) by lia. do 2 f_equal.
      unfold contents at 2; cbn. rewrite Hty. fold h.
      replace (Z.to_nat (t + 1 - h)) with (S (Z.to_nat (t - h))) by lia.
      rewrite ring_snoc, Hc. replace (h + Z.of_nat (Z.to_nat (t - h))) with t by lia. f_equal.
      * apply ring_ext. intros j Hj. rewrite slot_cell_insert by lia. rewrite decide_False; [done|].
        intros Em. apply mod_window in Em; lia.
      * rewrite slot_cell_insert by lia. by rewrite decide_True.
    + done.
Qed.

Lemma mpsc_dequeue_ok p q : queue_ok p q -> type q = MPSC -> op_ok p q QDequeue.
Proof.
  intros Hi Hty. pose proof (qi_shape _ _ Hi) as Hs. unfold shape_ok in Hs. rewrite Hty in Hs.
  pose proof Hs as (Hp & Hc2 & Hm & Hl & Hht & Hth & Htm & Hready & Hfree).
  pose proof (pow2_pos _ Hp) as Hcap.
  set (h := atomic_value (atomic_head q)) in *. set (t := atomic_value (atomic_tail q)) in *.
  assert (Hc : contents q = ring (slot_cell (slots q)) (capacity q) h (Z.to_nat (t - h)))
    by (unfold contents; by rewrite Hty).
  destruct (Z.eq_dec h t) as [E|E].
  { assert (contents q = []) as Hnil by (rewrite Hc, E, Z.sub_diag; done).
    eapply (look_ok p q _ NULL []); [done| |cbn; by rewrite Hnil].
    cbn. unfold vox_queue_dequeue. rewrite Hty. cbn. unfold vox_atomic_long_load. fold h t.
    by rewrite (proj2 (Z.eqb_eq h t)). }
  pose proof (Z.mod_pos_bound h (capacity q) ltac:(lia)) as Hhb.
  assert (Hmh : masked h (mask q) = h mod capacity q) by (apply mpsc_masked; [done|lia]).
  destruct (seq_of_slot (slots q) (capacity q) h (h + 1) ltac:(lia) (Hready h ltac:(lia))) as (slot & Hg & Hv).
  replace (Z.to_nat (t - h)) with (S (Z.to_nat (t - (h + 1)))) in Hc by lia. cbn in Hc.
  assert (Hcell : slot_cell (slots q) (h mod capacity q) = slot_data slot)
    by (unfold slot_cell; by rewrite Hg).
  rewrite Hcell in Hc.
  eapply (change_ok p q); [done| | | | | | | | |].
  - cbn. unfold vox_queue_dequeue. rewrite Hty. cbn [mpsc_dequeue].
    unfold vox_atomic_long_load, vox_atomic_long_load_acquire. fold h t.
    rewrite (proj2 (Z.eqb_neq h t)), Hmh, Hg by done. cbn [mbind option_bind].
    rewrite Hv, Z.sub_diag. change (s64 0 <? 0) with false.
    unfold vox_atomic_long_compare_exchange. fold h. rewrite (Z.eqb_refl h). cbn.
    rewrite Hg. cbn. rewrite arr_set_ok, (s64_small (h + 1)), (s64_small (h + capacity q)) by lia. done.
  - unfold shape_ok; cbn. rewrite Hty. unfold mpsc_ok; cbn. fold t. rewrite zlen_insert.
    split_and!; try done; try lia.
    + intros pos Hpos. rewrite seq_of_insert by lia. rewrite decide_False; [apply Hready; lia|].
      intros Em. apply mod_window in Em; lia.
    + intros pos Hpos. rewrite seq_of_insert by lia.
      destruct (decide (pos = h + capacity q)) as [->|Hne].
      * rewrite decide_True; [done|]. rewrite <-(Z.mod_add h 1) by lia. f_equal. lia.
      * rewrite decide_False; [apply Hfree; lia|]. intros Em. apply mod_window in Em; lia.
  - done.
  - done.
  - done.
  - done.
  - apply mpsc_blocks; try done. cbn. apply (insert_sequences _ _ slot); [|done].
    by rewrite <-arr_get_lookup by lia.
  - rewrite Hc. cbn. do 2 f_equal. unfold contents; cbn. rewrite Hty. fold t.
    apply ring_ext. intros j Hj. rewrite slot_cell_insert by lia. rewrite decide_False; [done|].
    intros Em. apply mod_window in Em; lia.
  - done.
Qed.

Lemma mpsc_clear_ok p q : queue_ok p q -> type q = MPSC -> op_ok p q QClear.
Proof.
  intros Hi Hty. pose proof (qi_shape _ _ Hi) as Hs. unfold shape_ok in Hs. rewrite Hty in Hs.
  pose proof Hs as (Hp & Hc2 & Hm & Hl & Hht & Hth & Htm & Hready & Hfree).
  pose proof (pow2_pos _ Hp) as Hcap.
  destruct (walk_slots_ok (slots q) (capacity q) (mpsc_head q) (Z.to_nat (mpsc_tail q - mpsc_head q)) true)
    as (s' & Hw & Hz & Hsq); [done|done|unfold mpsc_head, mpsc_tail; lia..| |].
  { intros pos Hpos. apply Hready. unfold mpsc_head, mpsc_tail in Hpos. lia. }
  set (s := if elem_free q then s' else slots q).
  assert (zlen s = capacity q /\
    ((fun s => atomic_at (sequence s)) <$> s) = ((fun s => atomic_at (sequence s)) <$> slots q))
    as [Hzs Hss] by (unfold s; destruct (elem_free q); split; congruence).
  destruct (reset_slots_spec s 0) as (Hzr & Hsr & _).
  apply (change_ok p q (with_atomics q (elements q) (reset_slots s 0)
    (vox_atomic_long_store (atomic_head q) 0) (vox_atomic_long_store (atomic_tail q) 0)) QClear 0
    (if elem_free q then filter (fun e => e <> NULL) (contents q) else [])); [done| | | | | | | | |].
  - cbn. unfold vox_queue_clear. rewrite Hty. unfold vox_atomic_long_load. rewrite Hm.
    unfold mpsc_head, mpsc_tail in Hw. rewrite Hw.
    unfold s, contents. rewrite Hty. by destruct (elem_free q).
  - unfold shape_ok; cbn. rewrite Hty. unfold mpsc_ok; cbn. split_and!; try done; try lia.
    intros pos Hpos. by apply seq_of_reset.
  - done.
  - done.
  - done.
  - done.
  - apply mpsc_blocks; try done. cbn. by rewrite Hsr.
  - unfold contents at 2; cbn. by rewrite Hty.
  - done.
Qed.

Lemma mpsc_op_ok p q op :
  queue_ok p q -> type q = MPSC -> mpsc_tail q < 2 ^ 62 -> op_ok p q op.
Proof.
  intros Hi Hty Hmax. pose proof (qi_shape _ _ Hi) as Hs. unfold shape_ok in Hs. rewrite Hty in Hs.
  pose proof Hs as (Hp & Hc2 & Hm & Hl & Hht & Hth & Htm & Hready & Hfree).
  pose proof (pow2_pos _ Hp) as Hcap.
  destruct op; [by apply mpsc_enqueue_ok|by apply mpsc_dequeue_ok| | | | | |by apply mpsc_clear_ok|];
  set (h := atomic_value (atomic_head q)) in *; set (t := atomic_value (atomic_tail q)) in *;
  (assert (Hc : contents q = ring (slot_cell (slots q)) (capacity q) h (Z.to_nat (t - h)))
    by (unfold contents; by rewrite Hty));
  (assert (Hn : zlen (contents q) = t - h) by (rewrite Hc, ring_zlen; lia));
  (eapply look_ok; [done| |cbn; reflexivity]); cbn.
  - unfold vox_queue_peek. rewrite Hty. unfold vox_atomic_long_load, vox_atomic_long_load_acquire.
    fold h t. destruct (Z.eqb_spec h t) as [E|E].
    { rewrite Hc, E, Z.sub_diag. done. }
    rewrite (mpsc_masked q h) by (done || lia).
    destruct (seq_of_slot (slots q) (capacity q) h (h + 1) ltac:(lia) (Hready h ltac:(lia))) as (slot & Hg & Hv).
    rewrite Hg. cbn. rewrite Hv, Z.sub_diag. cbn. rewrite Hc.
    replace (Z.to_nat (t - h)) with (S (Z.to_nat (t - (h + 1)))) by lia. cbn.
    unfold slot_cell. by rewrite Hg.
  - unfold vox_queue_size. rewrite Hty. unfold vox_atomic_long_load. fold h t. rewrite Hn.
    rewrite !s64_small by lia. rewrite !(proj2 (Z.ltb_ge _ _)) by lia. done.
  - done.
  - unfold vox_queue_empty. rewrite Hty. unfold vox_atomic_long_load. fold h t. rewrite Hn.
    do 4 f_equal. apply eq_bool_prop_intro. rewrite !Is_true_true, !Z.eqb_eq. lia.
  - unfold vox_queue_full. rewrite Hty. unfold vox_atomic_long_load. fold h t. rewrite Hn.
    rewrite !s64_small by lia. by rewrite (proj2 (Z.ltb_ge _ _)) by lia.
  - unfold vox_queue_foreach. rewrite Hty. unfold vox_atomic_long_load. fold h t.
    rewrite (proj2 (Z.leb_le _ _)), Hm by lia.
    destruct (walk_slots_ok (slots q) (capacity q) h (Z.to_nat (t - h)) false)
      as (s' & -> & _); [done|done|lia..| |].
    { intros pos Hpos. apply Hready. lia. }
    cbn. by rewrite Hc.
Qed.

(** *** Life of a queue *)

Lemma atomic_create_took p v p' r :
  mp_inv p -> vox_atomic_long_create p v = (p', r) ->
  match r with
  | None => took p p' []
  | Some a => took p p' [atomic_at a] /\ atomic_value a = v
  end.
Proof.
  intros Hp. unfold vox_atomic_long_create. destruct (mp_alloc p sizeof_atomic_long) as [p1 a] eqn:E.
  destruct (Z.eqb_spec a NULL) as [->|Ha]; intros [= <- <-].
  - by eapply took_refused; [| |exact E].
  - split; [|done]. by eapply took_alloc; [| |exact E|].
Qed.

Definition addresses (s : list vox_queue_slot) : list Z := (fun s => atomic_at (sequence s)) <$> s.

Lemma destroy_sequences_eq p s : destroy_sequences p s = foldl mp_free p (addresses s).
Proof.
  unfold destroy_sequences, addresses, vox_atomic_long_destroy. revert p.
  induction s as [|slot s IH]; intros p; cbn; [done|]. apply IH.
Qed.

Lemma create_slots_ok p0 p cells i n :
  took p0 p (reverse (addresses (take i cells))) -> (i + n <= length cells)%nat ->
  (forall k, (k < i)%nat -> atomic_value ∘ sequence <$> cells !! k = Some (Z.of_nat k)) ->
  exists p' r, create_slots p cells (Z.of_nat i) n = Some (p', r) /\
    match r with
    | None => took p0 p' []
    | Some s => took p0 p' (reverse (addresses (take (i + n) s))) /\ length s = length cells /\
        forall k, (k < i + n)%nat -> atomic_value ∘ sequence <$> s !! k = Some (Z.of_nat k)
    end.
Proof.
  revert p cells i. induction n as [|n IH]; intros p cells i Ht Hl Hv; cbn [create_slots].
  { do 2 eexists. split; [done|]. cbn. rewrite Nat.add_0_r. done. }
  destruct (vox_atomic_long_create p (Z.of_nat i)) as [p1 r] eqn:E.
  apply atomic_create_took in E; [|apply Ht]. destruct r as [a|].
  - destruct E as [Ht1 Ha]. rewrite arr_set_ok by (unfold zlen; lia). cbn.
    replace (Z.of_nat i + 1) with (Z.of_nat (S i)) by lia. rewrite Nat2Z.id.
    set (cells1 := <[i := Slot NULL a]> cells).
    destruct (IH p1 cells1 (S i)) as (p' & r & Er & Hr).
    + unfold cells1. rewrite (take_S_r _ _ (Slot NULL a)) by (apply list_lookup_insert_eq; lia).
      rewrite take_insert_ge by lia. unfold addresses. rewrite fmap_app, reverse_app. cbn.
      by eapply (took_app p0 p p1 _ [atomic_at a]).
    + unfold cells1. rewrite length_insert. lia.
    + intros k Hk. unfold cells1. destruct (decide (k = i)) as [->|Hne].
      * rewrite list_lookup_insert_eq by lia. cbn. by rewrite Ha.
      * rewrite list_lookup_insert_ne by done. apply Hv. lia.
    + exists p', r. split; [done|]. destruct r as [s|]; [|done].
      replace (i + S n)%nat with (S i + n)%nat by lia. unfold cells1 in Hr.
      rewrite length_insert in Hr. done.
  - do 2 eexists. split; [done|]. rewrite Nat2Z.id, destroy_sequences_eq.
    destruct (took_release p0 p1 (reverse (addresses (take i cells))) (addresses (take i cells))).
    + eapply (took_app p0 p p1 _ []); done.
    + apply reverse_Permutation.
    + by apply took_of_live.
Qed.

Lemma round_capacity_pow2 c :
  0 < c <= 2 ^ 58 -> pow2 (round_capacity c) /\ c <= round_capacity c <= 2 ^ 58.
Proof.
  intros Hc. unfold round_capacity. destruct (Z.eqb_spec (Z.land c (c - 1)) 0) as [E|E].
  - apply land_pred_pow2 in E; [|lia]. split; [|lia]. exists (Z.log2 c). split; [|done].
    split; [apply Z.log2_nonneg|]. assert (Z.log2 c < 60) by (apply Z.log2_lt_pow2; lia). lia.
  - assert (c <> 1) as Hne by (by intros ->).
    pose proof (smear_ge (c - 1) ltac:(lia)) as Hge. rewrite smear_spec in * by lia.
    assert (Z.log2 (c - 1) < 58) by (apply Z.log2_lt_pow2; lia).
    pose proof (Z.log2_nonneg (c - 1)).
    assert (2 ^ (Z.log2 (c - 1) + 1) <= 2 ^ 58) by (apply Z.pow_le_mono_r; lia).
    replace (2 ^ (Z.log2 (c - 1) + 1) - 1 + 1) with (2 ^ (Z.log2 (c - 1) + 1)) in * by lia.
    rewrite u64_small by lia. split; [|lia]. exists (Z.log2 (c - 1) + 1). split; [lia|done].
Qed.

(** The configurations the theorems are about: sizes that do not wrap, and at least
    two slots for the slot ring. *)
Definition config_ok (config : option vox_queue_config) : Prop :=
  forall c, config = Some c ->
    0 <= initial_capacity c <= 2 ^ 58 /\ (config_type c = MPSC -> initial_capacity c <> 1).

Definition config_ty (config : option vox_queue_config) : vox_queue_type :=
  match config with Some c => config_type c | None => NORMAL end.

Definition created p (ty : vox_queue_type) (r : P * option vox_queue) : Prop :=
  match r.2 with
  | Some q => queue_ok r.1 q /\ contents q = [] /\ took p r.1 (blocks q) /\
      type q = ty /\ mpsc_tail q = 0
  | None => took p r.1 []
  end.

Lemma created_intro p p' q :
  took p p' (blocks q) -> shape_ok q -> null_ok q -> contents q = [] -> mpsc_tail q = 0 ->
  created p (type q) (p', Some q).
Proof. intros Ht Hs Hn Hc Hm. split; [|done]. constructor; try done; apply Ht. Qed.

Lemma created_none p ty p' bs cs :
  took p p' bs -> bs ≡ₚ cs -> created p ty (foldl mp_free p' cs, None).
Proof. intros Ht Hc. destruct (took_release p p' bs cs Ht Hc). by apply took_of_live. Qed.

Lemma replicate_cells p p' n a l :
  mp_inv p -> 0 < n <= 2 ^ 60 -> alloc_cells 0 p n sizeof_ptr = (p', a, l) ->
  (a = NULL /\ took p p' []) \/ (a <> NULL /\ took p p' [a] /\ zlen l = n).
Proof.
  intros Hp Hn E. unfold sizeof_ptr in *. destruct (took_cells _ _ _ _ _ _ _ Hp E) as [?|(Ha & Ht & ->)]; [by left|].
  right. split; [done|]. split; [done|]. rewrite u64_small by lia. rewrite Z.div_mul by lia. rewrite zlen_replicate. lia.
Qed.

Lemma slot_cells p p' n a l :
  mp_inv p -> 0 < n <= 2 ^ 59 -> alloc_cells (Slot junk no_atomic) p n sizeof_slot = (p', a, l) ->
  (a = NULL /\ took p p' []) \/ (a <> NULL /\ took p p' [a] /\ zlen l = n).
Proof.
  intros Hp Hn E. unfold sizeof_slot in *. destruct (took_cells _ _ _ _ _ _ _ Hp E) as [?|(Ha & Ht & ->)]; [by left|].
  right. split; [done|]. split; [done|]. rewrite u64_small by lia. rewrite Z.div_mul by lia. rewrite zlen_replicate. lia.
Qed.

Lemma create_normal p config :
  mp_inv p -> config_ok config ->
  config_ty config = NORMAL ->
  exists r, vox_queue_create_with_config junk p config = Some r /\ created p (config_ty config) r.
Proof.
  intros Hp Hc Hty. unfold vox_queue_create_with_config.
  destruct (mp_alloc p sizeof_queue) as [p1 qa] eqn:E1.
  destruct (Z.eqb_spec qa NULL) as [->|Hq].
  { eexists. split; [done|]. by eapply took_refused; [| |exact E1]. }
  eapply took_alloc in E1 as Ht1; [|done|done|done].
  change (match config with Some c => config_type c | None => NORMAL end) with (config_ty config).
  rewrite Hty.
  rewrite (bool_decide_eq_true_2 (NORMAL = NORMAL)) by done. cbn [negb andb].
  set (icap := match config with Some c => if 0 <? _ then _ else _ | None => _ end).
  assert (Hi : 0 < icap <= 2 ^ 59).
  { unfold icap, VOX_QUEUE_DEFAULT_INITIAL_CAPACITY. destruct config as [c|]; [|lia].
    destruct (Hc c eq_refl) as [? _]. case_one; lia. }
  destruct (alloc_cells 0 p1 icap sizeof_ptr) as [[p2 a] cells] eqn:E2.
  apply replicate_cells in E2 as [[-> Ht2]|(Ha & Ht2 & Hl)]; [| |apply Ht1|lia].
  - cbn. eexists. split; [done|].
    by apply (created_none p _ p2 [qa] [qa]); [eapply (took_app p p1 p2 [qa] [])|].
  - pose proof (took_app _ _ _ _ _ Ht1 Ht2) as Ht. rewrite (proj2 (Z.eqb_neq a NULL)) by done.
    eexists. split; [done|]. apply created_intro.
    + eapply took_perm; [exact Ht|]. unfold blocks; cbn. apply Permutation_swap.
    + unfold shape_ok; cbn. unfold normal_ok; cbn. unfold sizeof_ptr, PTRDIFF_MAX.
      split_and!; try lia. by rewrite Z.mod_small by lia.
    + unfold null_ok; cbn. done.
    + done.
    + done.
Qed.

(** The two counters of the lock-free types. *)
Lemma create_counters p0 ty p1 qa p2 ah p3 at_ :
  took p0 p1 [qa] -> vox_atomic_long_create p1 0 = (p2, ah) -> vox_atomic_long_create p2 0 = (p3, at_) ->
  match ah, at_ with
  | Some ah, Some at_ => took p0 p3 [atomic_at at_; atomic_at ah; qa] /\
      atomic_value ah = 0 /\ atomic_value at_ = 0
  | _, _ => created p0 ty (mp_free (destroy_opt (destroy_opt p3 ah) at_) qa, None)
  end.
Proof.
  intros Ht E1 E2. apply atomic_create_took in E1; [|apply Ht].
  assert (mp_inv p2) as Hp2 by (destruct ah; [destruct E1 as [E1 _]|]; apply E1).
  apply atomic_create_took in E2; [|done].
  destruct ah as [ah|]; [destruct E1 as [E1 Hv1]|]; (destruct at_ as [at_|]; [destruct E2 as [E2 Hv2]|]).
  - split; [|done]. eapply (took_app p0 p2 p3 _ [_]); [|done]. by eapply (took_app p0 p1 p2 _ [_]).
  - apply (created_none p0 ty p3 [atomic_at ah; qa] [atomic_at ah; qa]); [|done].
    eapply (took_app p0 p2 p3 _ []); [|done]. by eapply (took_app p0 p1 p2 _ [_]).
  - apply (created_none p0 ty p3 [atomic_at at_; qa] [atomic_at at_; qa]); [|done].
    eapply (took_app p0 p2 p3 _ [_]); [|done]. by eapply (took_app p0 p1 p2 _ []).
  - apply (created_none p0 ty p3 [qa] [qa]); [|done].
    eapply (took_app p0 p2 p3 _ []); [|done]. by eapply (took_app p0 p1 p2 _ []).
Qed.

Lemma perm_blocks (x : list Z) a b c d : x ++ [a; b; c; d] ≡ₚ d :: a :: x ++ [b; c].
Proof.
  rewrite (Permutation_app_comm x [a; b; c; d]), (Permutation_app_comm x [b; c]). cbn.
  symmetry. apply (Permutation_middle [a; b; c] x d).
Qed.

Lemma create_lock_free p c :
  mp_inv p -> config_ok (Some c) -> config_type c <> NORMAL ->
  exists r, vox_queue_create_with_config junk p (Some c) = Some r /\ created p (config_type c) r.
Proof.
  intros Hp Hc Hty. unfold vox_queue_create_with_config.
  destruct (mp_alloc p sizeof_queue) as [p1 qa] eqn:E1.
  destruct (Z.eqb_spec qa NULL) as [->|Hq].
  { eexists. split; [done|]. by eapply took_refused; [| |exact E1]. }
  eapply took_alloc in E1 as Ht1; [|done|done|done].
  rewrite bool_decide_eq_false_2 by done. cbn [negb andb].
  destruct (Z.eqb_spec (initial_capacity c) 0) as [E0|E0].
  { eexists. split; [done|]. by apply (created_none p _ p1 [qa] [qa]). }
  destruct (Hc c eq_refl) as [Hic Hone]. rewrite (proj2 (Z.ltb_lt 0 _)) by lia.
  destruct (round_capacity_pow2 (initial_capacity c)) as [Hpow Hr]; [lia|].
  cbn zeta. set (cap := round_capacity (initial_capacity c)) in *.
  destruct (vox_atomic_long_create p1 0) as [p2 ah] eqn:E2.
  destruct (vox_atomic_long_create p2 0) as [p3 at_] eqn:E3.
  pose proof (create_counters p (config_type c) p1 qa p2 ah p3 at_ Ht1 E2 E3) as Hcnt.
  destruct ah as [ah|]; [|by eexists]. destruct at_ as [at_|]; [|by eexists].
  destruct Hcnt as (Ht & Hvh & Hvt). rewrite u64_small by lia.
  destruct (decide (config_type c = MPSC)) as [Hm|Hs].
  - rewrite bool_decide_eq_true_2 by done.
    destruct (alloc_cells (Slot junk no_atomic) p3 cap sizeof_slot) as [[p4 sa] cells] eqn:E4.
    apply slot_cells in E4 as [[-> Ht4]|(Ha & Ht4 & Hl)]; [| |apply Ht|lia].
    { eexists. split; [done|].
      apply (created_none p _ p4 [atomic_at at_; atomic_at ah; qa] [atomic_at ah; atomic_at at_; qa]);
        [by eapply (took_app p p3 p4 _ [])|apply Permutation_swap]. }
    rewrite (proj2 (Z.eqb_neq sa NULL)) by done. cbn [mbind option_bind].
    pose proof (took_app _ _ _ _ _ Ht Ht4) as Ht4'. cbn in Ht4'.
    destruct (create_slots_ok p4 p4 cells 0 (Z.to_nat cap)) as (p5 & r & E5 & Hr5);
      [apply took_nil, Ht4|unfold zlen in Hl; lia|lia|].
    change (Z.of_nat 0) with 0 in E5. rewrite E5. cbn [mbind option_bind]. destruct r as [s|].
    + destruct Hr5 as (Ht5 & Hl5 & Hv). cbn in Ht5, Hv. rewrite take_ge in Ht5 by (unfold zlen in *; lia).
      pose proof (took_app _ _ _ _ _ Ht4' Ht5) as Ht5'. eexists. split; [done|]. apply created_intro.
      * eapply took_perm; [exact Ht5'|]. unfold blocks; cbn. rewrite Hm. fold (addresses s).
        apply perm_blocks.
      * unfold shape_ok; cbn. rewrite Hm. unfold mpsc_ok; cbn. rewrite Hvh, Hvt.
        specialize (Hone Hm). unfold zlen in *. split_and!; try done; try lia.
        intros pos Hpos. unfold seq_of. rewrite Z.mod_small, arr_get_lookup by lia.
        rewrite Hv by lia. f_equal. lia.
      * unfold null_ok; cbn. by rewrite Hm.
      * unfold contents; cbn. by rewrite Hm, Hvh, Hvt.
      * done.
    + eexists. split; [done|].
      apply (created_none p _ p5 (sa :: [atomic_at at_; atomic_at ah; qa])
               [sa; atomic_at ah; atomic_at at_; qa]);
        [by eapply (took_app p p4 p5 _ [])|apply perm_skip, Permutation_swap].
  - rewrite bool_decide_eq_false_2 by done.
    assert (config_type c = SPSC) as Hsp by (by destruct (config_type c)).
    destruct (alloc_cells 0 p3 cap sizeof_ptr) as [[p4 a] cells] eqn:E4.
    apply replicate_cells in E4 as [[-> Ht4]|(Ha & Ht4 & Hl)]; [| |apply Ht|lia].
    { eexists. split; [done|].
      apply (created_none p _ p4 [atomic_at at_; atomic_at ah; qa] [atomic_at ah; atomic_at at_; qa]);
        [by eapply (took_app p p3 p4 _ [])|apply Permutation_swap]. }
    rewrite (proj2 (Z.eqb_neq a NULL)) by done.
    pose proof (took_app _ _ _ _ _ Ht Ht4) as Ht4'. cbn in Ht4'.
    eexists. split; [done|]. apply created_intro.
    + eapply took_perm; [exact Ht4'|]. unfold blocks; cbn. rewrite Hsp.
      symmetry. apply (Permutation_middle [a; atomic_at at_; atomic_at ah] []).
    + unfold shape_ok; cbn. rewrite Hsp. unfold spsc_ok; cbn. rewrite Hvh, Hvt.
      split_and!; try done; lia.
    + unfold null_ok; cbn. by rewrite Hsp.
    + unfold contents; cbn. rewrite Hsp, Hvh, Hvt. by rewrite Z.mod_0_l by lia.
    + done.
Qed.

Lemma clear_op_ok p q : queue_ok p q -> op_ok p q QClear.
Proof.
  intros Hi. destruct (type q) eqn:Ht; [by apply normal_op_ok|by apply spsc_op_ok|by apply mpsc_clear_ok].
Qed.

Lemma destroy_queue_ok p q :
  queue_ok p q ->
  exists p', vox_queue_destroy p q
    = Some (p', if elem_free q then filter (fun e => e <> NULL) (contents q) else []) /\
    mp_inv p' /\ mp_live p' = foldr delete (mp_live p) (blocks q).
Proof.
  intros Hi. destruct (clear_op_ok p q Hi) as (p' & q' & r & out & E & Hk & Hspec).
  cbn in E. unfold vox_queue_destroy. destruct (vox_queue_clear q) as [[q1 freed]|]; [|done].
  cbn in E. injection E as <- <- <- <-. cbn.
  destruct Hspec as [Hspec|(_ & [? ?] & _)]; [|done]. cbn in Hspec. injection Hspec as _ ->.
  destruct Hk as (Hi1 & Hty & Hself & Hef & _ & <-).
  destruct (release_blocks p (reverse (blocks q1))) as [Hinv Hlive];
    [apply Hi1|by rewrite reverse_Permutation; apply Hi1| |].
  { intros b Hb. apply (qi_live _ _ Hi1). by rewrite <-elem_of_reverse. }
  rewrite (foldr_delete_perm _ (reverse (blocks q1)) (blocks q1)) in Hlive
    by apply reverse_Permutation.
  assert (Hfree : forall (p : P) a, (if a =? NULL then p else mp_free p a) = mp_free p a).
  { intros p1 a. destruct (Z.eqb_spec a NULL) as [->|]; [by rewrite mp_free_null|done]. }
  pose proof (qi_null _ _ Hi1) as Hnull. unfold null_ok in Hnull. unfold vox_atomic_long_destroy.
  eexists. split; [done|]. rewrite !Hfree, destroy_sequences_eq, <-Hlive.
  assert (Hst : slots_at q1 = NULL -> forall p1 : P,
    (if slots_at q1 =? NULL then p1 else mp_free (foldl mp_free p1 (addresses (slots q1))) (slots_at q1)) = p1)
    by (intros -> p1; done).
  assert (Hsn : foldl mp_free p (reverse (blocks q1)) =
    mp_free (mp_free (if slots_at q1 =? NULL
       then mp_free (mp_free p (atomic_at (atomic_head q1))) (atomic_at (atomic_tail q1))
       else mp_free (foldl mp_free (mp_free (mp_free p (atomic_at (atomic_head q1)))
              (atomic_at (atomic_tail q1))) (addresses (slots q1))) (slots_at q1)) (elements_at q1)) (self q1)).
  { unfold blocks. destruct (type q1) eqn:Ht1.
    - destruct Hnull as (Hs & Hh & Htl). rewrite Hst by done. rewrite Hh, Htl, !mp_free_null. done.
    - rewrite Hst by done. done.
    - rewrite Hnull, mp_free_null. fold (addresses (slots q1)).
      rewrite !reverse_cons, reverse_app, reverse_involutive. cbn.
      rewrite !foldl_app. cbn. rewrite (proj2 (Z.eqb_neq (slots_at q1) NULL)); [done|].
      apply (live_nonnull p); [apply Hi1|]. apply (qi_live _ _ Hi1). unfold blocks. rewrite Ht1.
      right. by left. }
  rewrite Hsn in Hinv. rewrite Hsn. done.
Qed.

(** Each call advances the tail counter by at most one. *)
Lemma tail_step p q op p' q' r out :
  type q = MPSC -> 0 <= mpsc_tail q < 2 ^ 62 -> queue_exec junk 1 p q op = Some (p', q', r, out) ->
  mpsc_tail q' <= mpsc_tail q + 1.
Proof.
  intros Hty Ht. unfold mpsc_tail in *.
  destruct op; cbn; try (intros E; simplify_option_eq; lia).
  - unfold vox_queue_enqueue. rewrite Hty. case_match; [intros [= _ <- _ _]; lia|]. cbn [mpsc_reserve].
    unfold vox_atomic_long_load. destruct (arr_get _ _) as [slot|]; cbn; [|done].
    destruct (s64 _ =? 0) eqn:Ed.
    + unfold vox_atomic_long_compare_exchange. rewrite Z.eqb_refl. cbn.
      destruct (arr_get _ _) as [slot'|]; cbn; [|done]. destruct (arr_set _ _ _); cbn; [|done].
      intros [= _ <- _ _]. cbn. rewrite s64_small; lia.
    + destruct (s64 _ <? 0); cbn; [|done]. intros [= _ <- _ _]. lia.
  - unfold vox_queue_dequeue. rewrite Hty. cbn [mpsc_dequeue].
    case_match; [intros [= _ <- _ _]; lia|].
    destruct (arr_get _ _) as [slot|]; cbn; [|done]. destruct (s64 _ <? 0); [done|].
    unfold vox_atomic_long_compare_exchange, vox_atomic_long_load. rewrite Z.eqb_refl. cbn.
    destruct (arr_get _ _) as [slot'|]; cbn; [|done]. destruct (arr_set _ _ _); cbn; [|done].
    intros [= _ <- _ _]. cbn. lia.
  - unfold vox_queue_clear. rewrite Hty.
    destruct (if elem_free q then _ else _) as [[s f]|]; cbn; [|done]. intros [= _ <- _ _]. cbn. lia.
  - destruct (vox_queue_foreach q) as [[v n]|]; cbn; [|done]. intros [= _ <- _ _]. lia.
Qed.

(** [vox_queue_size] of the two-thread ring subtracts masked indices, which is not
    the number of elements once the tail has wrapped; the slot ring's counters are
    64-bit numbers that the program does not exhaust. *)
Definition op_pre q (op : queue_op) : Prop :=
  (op = QSize -> type q <> SPSC) /\ (type q = MPSC -> mpsc_tail q < 2 ^ 62).

Lemma queue_op_ok p q op : queue_ok p q -> op_pre q op -> op_ok p q op.
Proof.
  intros Hi [Hs Hm]. destruct (type q) eqn:Ht.
  - by apply normal_op_ok.
  - apply spsc_op_ok; [done|done|]. intros ->. by apply Hs.
  - apply mpsc_op_ok; [done|done|]. by apply Hm.
Qed.

Fixpoint queue_run p q (ops : list queue_op) : option (P * vox_queue * list Z) :=
  match ops with
  | [] => Some (p, q, [])
  | op :: ops =>
      '(p, q, r, _) ← queue_exec junk 1 p q op; '(p, q, rs) ← queue_run p q ops; Some (p, q, r :: rs)
  end.

Lemma queue_run_ok p q ops :
  queue_ok p q -> (type q = SPSC -> QSize ∉ ops) ->
  (type q = MPSC -> mpsc_tail q + zlen ops <= 2 ^ 62) ->
  exists p' q' rs, queue_run p q ops = Some (p', q', rs) /\ queue_keep p q p' q'.
Proof.
  revert p q. induction ops as [|op ops IH]; intros p q Hi Hsize Hmax; cbn.
  { do 3 eexists. split; [done|]. by apply queue_keep_refl. }
  rewrite zlen_cons in Hmax. pose proof (zlen_nonneg ops).
  destruct (queue_op_ok p q op Hi) as (p1 & q1 & r & out & E & Hk & _).
  { split; [intros -> Ht; apply (Hsize Ht); by left|]. intros Ht. specialize (Hmax Ht). lia. }
  rewrite E. cbn. destruct Hk as (Hi1 & Ht1 & Hs1 & He1 & Hc1 & Hf1).
  destruct (IH p1 q1) as (p2 & q2 & rs & -> & (Hi2 & Ht2 & Hs2 & He2 & Hc2 & Hf2)); [done| | |].
  - rewrite Ht1. intros Ht Hin. apply (Hsize Ht). by right.
  - rewrite Ht1. intros Ht. specialize (Hmax Ht).
    pose proof (qi_shape _ _ Hi) as Hsh. unfold shape_ok in Hsh. rewrite Ht in Hsh.
    destruct Hsh as (_ & _ & _ & _ & Hht & _ & _).
    pose proof (tail_step p q op p1 q1 r out Ht) as Hst. unfold mpsc_tail in *.
    specialize (Hst ltac:(lia) E). lia.
  - cbn. do 3 eexists. split; [done|]. split; [done|]. split_and!; try congruence.
    intros Hn. rewrite Hc2 by congruence. by apply Hc1.
Qed.


Lemma create_queue_ok p config :
  mp_inv p -> config_ok config ->
  exists r, vox_queue_create_with_config junk p config = Some r /\ created p (config_ty config) r.
Proof.
  intros Hp Hc. destruct config as [c|]; [|by apply create_normal].
  destruct (decide (config_type c = NORMAL)); [by apply create_normal|by apply create_lock_free].
Qed.

(** C15: A queue of any type, used by one thread, leaks nothing. It is created for at most 2^58
    elements, and not as a slot ring for one (which overwrites its element:
    mpsc_capacity_one). A creation that fails gives back all it had allocated; one that
    succeeds gives an empty well-formed queue, on which any sequence of fewer than 2^62 calls
    runs to completion - enqueue, dequeue, peek, size, capacity, empty, full, clear and the
    walk, but not the size of a two-thread ring (spsc_size_wrapped). Destroying the queue
    afterwards hands the remaining elements to the free function in order, if there is one, and
    leaves the pool with exactly the blocks it had before the creation. *)
Theorem queue_lifecycle p config ops :
  mp_inv p -> config_ok config -> zlen ops < 2 ^ 62 ->
  (config_ty config = SPSC -> QSize ∉ ops) ->
  exists p1 r, vox_queue_create_with_config junk p config = Some (p1, r) /\
  match r with
  | None => mp_inv p1 /\ mp_live p1 = mp_live p
  | Some q =>
      queue_ok p1 q /\ contents q = [] /\ type q = config_ty config /\
      exists p2 q2 rs, queue_run p1 q ops = Some (p2, q2, rs) /\
      exists p3, vox_queue_destroy p2 q2
        = Some (p3, if elem_free q then filter (fun e => e <> NULL) (contents q2) else []) /\
        mp_inv p3 /\ mp_live p3 = mp_live p
  end.
Proof.
  intros Hp Hc Hlen Hsz. destruct (create_queue_ok p config Hp Hc) as ([p1 r] & E & Hcr).
  exists p1, r. split; [done|]. unfold created in Hcr. cbn in Hcr. destruct r as [q|].
  2:{ split; [apply Hcr|]. exact (tk_rest _ _ _ Hcr). }
  destruct Hcr as (Hi & Hnil & Ht & Hty & Htl). split; [done|]. split; [done|]. split; [done|].
  destruct (queue_run_ok p1 q ops Hi) as (p2 & q2 & rs & Er & Hk).
  - intros Hs. apply Hsz. congruence.
  - intros _. cbn in Htl. lia.
  - do 3 eexists. split; [done|]. destruct Hk as (Hi2 & _ & _ & He & _ & Hf).
    destruct (destroy_queue_ok p2 q2 Hi2) as (p3 & Ed & Hp3 & Hl3). exists p3.
    rewrite He in Ed. split; [done|]. split; [done|]. rewrite Hl3, Hf. apply Ht.
Qed.
End refinement.

(** ** Concrete runs *)

Definition ex_config (ty : vox_queue_type) (cap : Z) : vox_queue_config :=
  {| config_type := ty; initial_capacity := cap; config_elem_free := true |}.

Definition ex_created (ty : vox_queue_type) (cap : Z) : bump * option vox_queue :=
  default (bump_new 0, None)
    (vox_queue_create_with_config 0 (bump_new 4096) (Some (ex_config ty cap))).

Definition ex_dummy : vox_queue :=
  {| self := 0; type := NORMAL; elements_at := 0; elements := []; slots_at := 0; slots := [];
     capacity := 0; elem_free := false; size := 0; head := 0; tail := 0;
     atomic_head := no_atomic; atomic_tail := no_atomic; mask := 0 |}.

Definition ex_pool ty cap : bump := (ex_created ty cap).1.
Definition ex_queue ty cap : vox_queue := default ex_dummy (ex_created ty cap).2.

Lemma ex_queue_config_ok ty cap : 2 <= cap <= 2 ^ 20 -> config_ok (Some (ex_config ty cap)).
Proof. intros Hc c [= <-]. cbn. split; [lia|]. intros _. lia. Qed.

Lemma ex_queue_ok : queue_ok (ex_pool MPSC 3) (ex_queue MPSC 3) /\ mpsc_tail (ex_queue MPSC 3) = 0.
Proof.
  destruct (create_queue_ok 0 (bump_new 4096) (Some (ex_config MPSC 3)) (bump_new_inv 4096 ltac:(lia))
              (ex_queue_config_ok MPSC 3 ltac:(lia))) as ([p r] & E & Hc).
  unfold ex_pool, ex_queue, ex_created. rewrite E. cbn.
  assert (is_Some r) as [q ->].
  { assert ((fun r => bool_decide (is_Some (snd r))) <$>
      vox_queue_create_with_config 0 (bump_new 4096) (Some (ex_config MPSC 3)) = Some true) as Hv
      by (vm_compute; reflexivity).
    rewrite E in Hv. injection Hv as Hv. by apply bool_decide_eq_true in Hv. }
  split; apply Hc.
Qed.


(** Three elements pass through a ring of two cells that has to grow. *)
Definition ex_ops : list queue_op :=
  [QEnqueue 11; QEnqueue 12; QDequeue; QEnqueue 13; QEnqueue 14; QPeek; QSize; QForeach].

Lemma queue_lifecycle_witness :
  mp_inv (bump_new 4096) /\ config_ok (Some (ex_config NORMAL 2)) /\
  exists p1 r, vox_queue_create_with_config 0 (bump_new 4096) (Some (ex_config NORMAL 2)) = Some (p1, r) /\
  match r with
  | None => False
  | Some q => exists p2 q2 rs, queue_run 0 p1 q ex_ops = Some (p2, q2, rs) /\
      rs = [0; 0; 11; 0; 0; 12; 3; 3] /\
      exists p3, vox_queue_destroy p2 q2
        = Some (p3, if elem_free q then filter (fun e => e <> NULL) (contents q2) else []) /\
        mp_live p3 = ∅
  end.
Proof.
  split; [by apply bump_new_inv|]. split; [by apply ex_queue_config_ok|].
  destruct (queue_lifecycle 0 (bump_new 4096) (Some (ex_config NORMAL 2)) ex_ops)
    as (p1 & r & E & Hr);
    [by apply bump_new_inv|by apply ex_queue_config_ok|by vm_compute|done|].
  exists p1, r. split; [exact E|].
  assert (('(p, r) ← vox_queue_create_with_config 0 (bump_new 4096) (Some (ex_config NORMAL 2));
    q ← r; snd <$> queue_run 0 p q ex_ops) = Some [0; 0; 11; 0; 0; 12; 3; 3]) as Hv
    by (vm_compute; reflexivity).
  rewrite E in Hv. destruct r as [q|]; [|discriminate].
  destruct Hr as (_ & _ & _ & p2 & q2 & rs & Er & p3 & Ed & _ & Hl).
  exists p2, q2, rs. split; [exact Er|]. cbn [mbind option_bind] in Hv. rewrite Er in Hv.
  injection Hv as Hv. split; [exact Hv|]. exists p3. split; [exact Ed|exact Hl].
Defined.

(** ** Outside the contract *)

(** With a capacity of one the sequence number of the full slot equals the next
    position: the enqueue into the full queue succeeds and overwrites the element,
    and after one dequeue the consumer spins for ever on a slot that never becomes
    ready (here: for 100 rounds). *)
Lemma mpsc_capacity_one :
  let q := ex_queue MPSC 1 in let p := ex_pool MPSC 1 in
  ('(p, q, rs) ← queue_run 0 p q [QEnqueue 5; QEnqueue 6; QDequeue; QSize]; Some rs)
  = Some [0; 0; 6; 1] /\
  ('(p, q, rs) ← queue_run 0 p q [QEnqueue 5; QEnqueue 6; QDequeue]; vox_queue_dequeue 100 q) = None.
Proof. split; vm_compute; reflexivity. Qed.

(** The size of the two-thread ring is reported as 0 when the tail has wrapped
    below the head. *)
Lemma spsc_size_wrapped :
  ('(p, q, rs) ← queue_run 0 (ex_pool SPSC 4) (ex_queue SPSC 4)
     [QEnqueue 1; QEnqueue 2; QEnqueue 3; QDequeue; QDequeue; QEnqueue 4; QEnqueue 5];
   Some (contents q, vox_queue_size q)) = Some ([3; 4; 5], 0).
Proof. vm_compute. reflexivity. Qed.

End Queue.
