(* ===== verification/QueueConc.v ===== *)
(** * vox_queue.c: the slot ring under interleaving

    Any number of producers and consumers run vox_queue_enqueue and
    vox_queue_dequeue of a queue of type MPSC, one access to shared memory at a
    time, in any order (sequentially consistent interleaving; the code's acquire and
    release orders are at least that strong for the accesses they order). The state
    carries a log of the elements in the order their positions were reserved. *)

From S2P Require Import Prelude Alloc Queue.

Module QueueConc.
Import Queue.

(** Where a thread is inside a call, with the locals it holds. *)
Inductive pc :=
| Idle
| PTail (elem : Z)                  (* enqueue: before loading the tail *)
| PSeq (elem pos : Z)               (* before loading the slot's sequence *)
| PCas (elem pos : Z)               (* before the compare-and-exchange of the tail *)
| PWrite (elem pos : Z)             (* position reserved, before [slot->data = elem] *)
| PPublish (elem pos : Z)           (* before storing the sequence *)
| CHead                             (* dequeue: before loading the head *)
| CTail (pos : Z)                   (* before loading the tail *)
| CSeq (pos : Z)                    (* before loading the slot's sequence *)
| CCas (pos : Z)                    (* before the compare-and-exchange of the head *)
| CRead (pos : Z)                   (* position claimed, before [elem = slot->data] *)
| CRelease (pos elem : Z)           (* before storing the sequence *)
| Ret (r : Z).                      (* returned *)

(** What a step does to the history. *)
Inductive event := Silent | Reserve (elem : Z) | Take (pos elem : Z).

Definition set_slot (q : vox_queue) (pos : Z) (slot : vox_queue_slot) : option vox_queue :=
  s ← (slots q).[masked pos (mask q) <- slot];
  Some (with_atomics q (elements q) s (atomic_head q) (atomic_tail q)).

(** One access to shared memory of vox_queue_enqueue.

    src/vox_queue.c:231-268: vox_queue_enqueue *)
Definition enqueue_step (q : vox_queue) (c : pc) : option (vox_queue * pc * event) :=
  match c with
  | PTail e => Some (q, PSeq e (vox_atomic_long_load (atomic_tail q)), Silent)
  | PSeq e pos =>
      slot ← (slots q).[masked pos (mask q)];
      let seq := vox_atomic_long_load_acquire (sequence slot) in
      let diff := s64 (seq - pos) in
      Some (q, if diff =? 0 then PCas e pos else if diff <? 0 then Ret (-1) else PTail e, Silent)
  | PCas e pos =>
      let '(t, ok) := vox_atomic_long_compare_exchange (atomic_tail q) pos (s64 (pos + 1)) in
      let q := with_atomics q (elements q) (slots q) (atomic_head q) t in
      Some (if (ok : bool) then (q, PWrite e pos, Reserve e) else (q, PTail e, Silent))
  | PWrite e pos =>
      slot ← (slots q).[masked pos (mask q)];
      q ← set_slot q pos (Slot e (sequence slot));
      Some (q, PPublish e pos, Silent)
  | PPublish e pos =>
      slot ← (slots q).[masked pos (mask q)];
      q ← set_slot q pos
        (Slot (slot_data slot) (vox_atomic_long_store_release (sequence slot) (s64 (pos + 1))));
      Some (q, Ret 0, Silent)
  | _ => None
  end.

(** One access to shared memory of vox_queue_dequeue.

    src/vox_queue.c:310-344: vox_queue_dequeue *)
Definition dequeue_step (q : vox_queue) (c : pc) : option (vox_queue * pc * event) :=
  match c with
  | CHead => Some (q, CTail (vox_atomic_long_load (atomic_head q)), Silent)
  | CTail pos =>
      let tail := vox_atomic_long_load (atomic_tail q) in
      Some (q, if pos =? tail then Ret NULL else CSeq pos, Silent)
  | CSeq pos =>
      slot ← (slots q).[masked pos (mask q)];
      let seq := vox_atomic_long_load_acquire (sequence slot) in
      let diff := s64 (seq - (pos + 1)) in
      Some (q, if diff <? 0 then CHead else CCas pos, Silent)
  | CCas pos =>
      let '(h, ok) := vox_atomic_long_compare_exchange (atomic_head q) pos (s64 (pos + 1)) in
      let q := with_atomics q (elements q) (slots q) h (atomic_tail q) in
      Some (q, if (ok : bool) then CRead pos else CHead, Silent)
  | CRead pos =>
      slot ← (slots q).[masked pos (mask q)];
      Some (q, CRelease pos (slot_data slot), Take pos (slot_data slot))
  | CRelease pos e =>
      slot ← (slots q).[masked pos (mask q)];
      q ← set_slot q pos (Slot (slot_data slot)
        (vox_atomic_long_store_release (sequence slot) (s64 (pos + capacity q))));
      Some (q, Ret e, Silent)
  | _ => None
  end.

Definition thread_step (q : vox_queue) (c : pc) : option (vox_queue * pc * event) :=
  match c with
  | PTail _ | PSeq _ _ | PCas _ _ | PWrite _ _ | PPublish _ _ => enqueue_step q c
  | CHead | CTail _ | CSeq _ | CCas _ | CRead _ | CRelease _ _ => dequeue_step q c
  | Idle | Ret _ => None
  end.

(** The shared queue, the threads, the elements in reservation order and the
    (position, element) pairs the consumers have read, in order. *)
Record mstate := MState {
  mq : vox_queue;
  threads : gmap nat pc;
  log : list Z;
  taken : list (Z * Z);
}.

Definition apply_event (ev : event) (log : list Z) (taken : list (Z * Z)) : list Z * list (Z * Z) :=
  match ev with
  | Silent => (log, taken)
  | Reserve e => (log ++ [e], taken)
  | Take pos e => (log, taken ++ [(pos, e)])
  end.

(** A step of thread [i]; a thread outside a call may start one. *)
Inductive mstep : mstate -> mstate -> Prop :=
| step_call_enqueue st i c e :
    threads st !! i = Some c -> (c = Idle \/ exists r, c = Ret r) -> e <> NULL ->
    mstep st (MState (mq st) (<[i := PTail e]> (threads st)) (log st) (taken st))
| step_call_dequeue st i c :
    threads st !! i = Some c -> (c = Idle \/ exists r, c = Ret r) ->
    mstep st (MState (mq st) (<[i := CHead]> (threads st)) (log st) (taken st))
| step_thread st i c q c' ev :
    threads st !! i = Some c -> thread_step (mq st) c = Some (q, c', ev) ->
    mstep st (MState q (<[i := c']> (threads st))
                (apply_event ev (log st) (taken st)).1 (apply_event ev (log st) (taken st)).2).

(** ** The invariant *)

(** The position a thread has reserved, respectively claimed. *)
Definition reserved_pos (c : pc) : option Z :=
  match c with PWrite _ pos | PPublish _ pos => Some pos | _ => None end.
Definition claimed_pos (c : pc) : option Z :=
  match c with CRead pos | CRelease pos _ => Some pos | _ => None end.

Definition seq_at (q : vox_queue) (pos : Z) : option Z := seq_of (slots q) (capacity q) pos.
Definition data_at (q : vox_queue) (pos : Z) : Z := slot_cell (slots q) (pos mod capacity q).
Definition logged (l : list Z) (pos e : Z) : Prop := l.[pos] = Some e.

(** What a thread knows at each point of its call. *)
Definition pc_ok (q : vox_queue) (l : list Z) (c : pc) : Prop :=
  let h := mpsc_head q in
  let t := mpsc_tail q in
  match c with
  | Idle | Ret _ | CHead | PTail _ => True
  | PSeq _ pos => 0 <= pos <= t
  | PCas _ pos => 0 <= pos <= t /\ (t = pos -> seq_at q pos = Some pos)
  | PWrite e pos => h <= pos < t /\ seq_at q pos = Some pos /\ logged l pos e
  | PPublish e pos => h <= pos < t /\ seq_at q pos = Some pos /\ logged l pos e /\ data_at q pos = e
  | CTail pos => 0 <= pos <= h
  | CSeq pos => 0 <= pos <= h /\ pos < t
  | CCas pos => 0 <= pos <= h /\ pos < t /\ (h = pos -> seq_at q pos = Some (pos + 1))
  | CRead pos => 0 <= pos < h /\ t <= pos + capacity q /\ seq_at q pos = Some (pos + 1) /\
      logged l pos (data_at q pos)
  | CRelease pos e => 0 <= pos < h /\ t <= pos + capacity q /\ seq_at q pos = Some (pos + 1) /\
      logged l pos e
  end.

Record minv (st : mstate) : Prop := {
  mi_type : type (mq st) = MPSC;
  mi_pow : pow2 (capacity (mq st)) /\ 2 <= capacity (mq st);
  mi_mask : mask (mq st) = capacity (mq st) - 1;
  mi_slots : zlen (slots (mq st)) = capacity (mq st);
  mi_range : 0 <= mpsc_head (mq st) <= mpsc_tail (mq st) /\
    mpsc_tail (mq st) <= mpsc_head (mq st) + capacity (mq st) /\ mpsc_tail (mq st) <= 2 ^ 62;
  mi_log : zlen (log st) = mpsc_tail (mq st);
  (** positions in the queue: being filled by one thread, or ready *)
  mi_in pos : mpsc_head (mq st) <= pos < mpsc_tail (mq st) ->
    (seq_at (mq st) pos = Some (pos + 1) /\ logged (log st) pos (data_at (mq st) pos)) \/
    (seq_at (mq st) pos = Some pos /\
     exists i c, threads st !! i = Some c /\ reserved_pos c = Some pos);
  (** positions ahead: free, or still being emptied by one thread *)
  mi_out pos : mpsc_tail (mq st) <= pos < mpsc_head (mq st) + capacity (mq st) ->
    seq_at (mq st) pos = Some pos \/
    (seq_at (mq st) pos = Some (pos - capacity (mq st) + 1) /\
     exists i c, threads st !! i = Some c /\ claimed_pos c = Some (pos - capacity (mq st)));
  mi_pc i c : threads st !! i = Some c -> pc_ok (mq st) (log st) c;
  mi_excl i j c d pos : i <> j -> threads st !! i = Some c -> threads st !! j = Some d ->
    (reserved_pos c = Some pos -> reserved_pos d <> Some pos) /\
    (claimed_pos c = Some pos -> claimed_pos d <> Some pos);
  (** what was read *)
  mi_taken pos e : (pos, e) ∈ taken st -> 0 <= pos < mpsc_head (mq st) /\ logged (log st) pos e;
  mi_taken_once : NoDup (taken st).*1;
  mi_taken_all pos : 0 <= pos < mpsc_head (mq st) ->
    pos ∈ (taken st).*1 \/ exists i, threads st !! i = Some (CRead pos);
  mi_unread i pos : threads st !! i = Some (CRead pos) -> pos ∉ (taken st).*1;
}.

(** ** The steps keep the invariant *)

Lemma seq_at_turn q pos : 0 < capacity q -> seq_at q (pos + capacity q) = seq_at q pos.
Proof.
  intros Hc. unfold seq_at, seq_of. replace (pos + capacity q) with (pos + 1 * capacity q) by lia.
  by rewrite Z.mod_add by lia.
Qed.

Lemma with_atomics_id q :
  with_atomics q (elements q) (slots q) (atomic_head q) (atomic_tail q) = q.
Proof. by destruct q. Qed.

Lemma logged_app l l' pos e : logged l pos e -> logged (l ++ l') pos e.
Proof.
  unfold logged. intros Hl. pose proof (arr_get_range _ _ _ Hl) as Hr.
  rewrite arr_get_lookup in * by lia. by apply lookup_app_l_Some.
Qed.

Lemma logged_end l e : logged (l ++ [e]) (zlen l) e.
Proof.
  unfold logged, zlen. rewrite arr_get_lookup, Nat2Z.id by lia. by apply list_lookup_middle.
Qed.

(** Another thread's position is still held by it after a step of thread [i]. *)
Lemma held_update (f : pc -> option Z) (ts : gmap nat pc) i c c' pos :
  ts !! i = Some c -> (f c = Some pos -> f c' = Some pos) ->
  (exists j d, ts !! j = Some d /\ f d = Some pos) ->
  exists j d, <[i := c']> ts !! j = Some d /\ f d = Some pos.
Proof.
  intros Hi Hf (j & d & Hj & Hd). destruct (decide (j = i)) as [->|Hne].
  - exists i, c'. rewrite lookup_insert_eq. split; [done|]. apply Hf. congruence.
  - exists j, d. by rewrite lookup_insert_ne.
Qed.

Section steps.
Context (st : mstate) (Hst : minv st).
#[local] Abbreviation q := (mq st).
#[local] Abbreviation cap := (capacity (mq st)).
#[local] Abbreviation h := (mpsc_head (mq st)).
#[local] Abbreviation t := (mpsc_tail (mq st)).

Lemma minv_cap : 2 <= cap <= 2 ^ 60.
Proof. destruct (mi_pow _ Hst) as [Hp Hc]. pose proof (pow2_pos _ Hp). lia. Qed.

Lemma minv_masked pos : 0 <= pos < 2 ^ 63 -> masked pos (mask q) = pos mod cap.
Proof.
  intros Hpos. rewrite (mi_mask _ Hst). apply masked_mod; [apply (mi_pow _ Hst)|lia].
Qed.

Lemma minv_slot pos : exists slot, (slots q).[pos mod cap] = Some slot /\
  seq_at q pos = Some (atomic_value (sequence slot)) /\ data_at q pos = slot_data slot.
Proof.
  pose proof minv_cap as Hc. pose proof (Z.mod_pos_bound pos cap ltac:(lia)) as Hb.
  destruct (arr_get_Some (slots q) (pos mod cap)) as [slot Hs].
  { rewrite (mi_slots _ Hst). lia. }
  exists slot. split; [done|]. unfold seq_at, seq_of, data_at, slot_cell. by rewrite Hs.
Qed.

(** Every sequence number is that of a position less than a turn from the head. *)
Lemma minv_seq pos : exists s, seq_at q pos = Some s /\ h - cap <= s <= h + cap.
Proof.
  pose proof minv_cap as Hc. destruct (mi_range _ Hst) as ((Hh0 & Hht) & Hth & _).
  set (p := h + (pos - h) mod cap). pose proof (Z.mod_pos_bound (pos - h) cap ltac:(lia)) as Hb.
  assert (seq_at q pos = seq_at q p) as ->.
  { unfold seq_at, seq_of. do 2 f_equal. unfold p. rewrite Z.add_mod_idemp_r by lia.
    f_equal. lia. }
  destruct (decide (p < t)) as [Hlt|Hge].
  - destruct (mi_in _ Hst p) as [[E _]|[E _]]; [lia| |]; rewrite E;
      eexists; (split; [done|unfold p in *; lia]).
  - destruct (mi_out _ Hst p) as [E|[E _]]; [lia| |]; rewrite E;
      eexists; (split; [done|unfold p in *; lia]).
Qed.

Lemma minv_free pos : seq_at q pos = Some pos -> t <= pos -> pos <= t -> t < h + cap.
Proof.
  intros Hs H1 H2. assert (pos = t) as -> by lia. pose proof minv_cap as Hc.
  destruct (mi_range _ Hst) as (Hht & Hth & _).
  destruct (decide (t = h + cap)) as [E|]; [exfalso|lia].
  rewrite E in Hs. rewrite seq_at_turn in Hs by lia.
  destruct (mi_in _ Hst h) as [[E' _]|[E' _]]; [lia| |];
    rewrite Hs in E'; injection E' as E'; lia.
Qed.

(** A step that changes neither the queue nor what its thread holds. *)
Lemma local_step i c c' :
  threads st !! i = Some c ->
  reserved_pos c = None -> claimed_pos c = None -> reserved_pos c' = None -> claimed_pos c' = None ->
  pc_ok q (log st) c' ->
  minv (MState q (<[i := c']> (threads st)) (log st) (taken st)).
Proof.
  intros Hi Hr Hcl Hr' Hcl' Hok. destruct Hst. constructor; cbn; try done.
  - intros pos Hpos. destruct (mi_in0 pos Hpos) as [|[Hs Hh]]; [by left|right].
    split; [done|]. eapply held_update; [done|congruence|done].
  - intros pos Hpos. destruct (mi_out0 pos Hpos) as [|[Hs Hh]]; [by left|right].
    split; [done|]. eapply held_update; [done|congruence|done].
  - intros j d. rewrite lookup_insert_Some. intros [[<- <-]|[_ Hj]]; [done|by eapply mi_pc0].
  - intros j k d e pos Hjk. rewrite !lookup_insert_Some.
    intros [[<- <-]|[Hne Hj]] [[<- <-]|[Hne' Hk]]; [done|split; congruence..|exact (mi_excl0 j k d e pos Hjk Hj Hk)].
  - intros pos Hpos. destruct (mi_taken_all0 pos Hpos) as [|[j Hj]]; [by left|right].
    exists j. rewrite lookup_insert_ne; [done|]. intros ->. rewrite Hi in Hj. injection Hj as ->. done.
  - intros j pos. rewrite lookup_insert_Some. intros [[<- ->]|[_ Hj]]; [done|by eapply mi_unread0].
Qed.

Lemma excl_insert i c' :
  (forall j d pos, j <> i -> threads st !! j = Some d ->
    (reserved_pos c' = Some pos -> reserved_pos d <> Some pos) /\
    (claimed_pos c' = Some pos -> claimed_pos d <> Some pos)) ->
  forall j k d e pos, j <> k -> <[i := c']> (threads st) !! j = Some d ->
    <[i := c']> (threads st) !! k = Some e ->
    (reserved_pos d = Some pos -> reserved_pos e <> Some pos) /\
    (claimed_pos d = Some pos -> claimed_pos e <> Some pos).
Proof.
  intros Hnew j k d e pos Hjk. rewrite !lookup_insert_Some.
  intros [[<- <-]|[Hne Hj]] [[<- <-]|[Hne' Hk]]; [done|exact (Hnew k e pos (not_eq_sym Hne') Hk)| |].
  - destruct (Hnew j d pos (not_eq_sym Hne) Hj) as [H1 H2].
    split; intros E1 E2; [by apply H1|by apply H2].
  - exact (mi_excl _ Hst j k d e pos Hjk Hj Hk).
Qed.

(** The thread in [c] held its position exclusively before the step. *)
Lemma excl_keep i c c' :
  threads st !! i = Some c ->
  (forall pos, reserved_pos c' = Some pos -> reserved_pos c = Some pos) ->
  (forall pos, claimed_pos c' = Some pos -> claimed_pos c = Some pos) ->
  forall j d pos, j <> i -> threads st !! j = Some d ->
    (reserved_pos c' = Some pos -> reserved_pos d <> Some pos) /\
    (claimed_pos c' = Some pos -> claimed_pos d <> Some pos).
Proof.
  intros Hi Hr Hc j d pos Hne Hj.
  destruct (mi_excl _ Hst i j c d pos ltac:(done) Hi Hj) as [H1 H2]. naive_solver.
Qed.

(** [CRead] positions after a step of a thread that reads nothing. *)
Lemma taken_keep i c c' :
  threads st !! i = Some c -> (forall pos, c <> CRead pos) -> (forall pos, c' <> CRead pos) ->
  (forall pos, 0 <= pos < h ->
    pos ∈ (taken st).*1 \/ exists j, <[i := c']> (threads st) !! j = Some (CRead pos)) /\
  (forall j pos, <[i := c']> (threads st) !! j = Some (CRead pos) -> pos ∉ (taken st).*1).
Proof.
  intros Hi Hc Hc'. split.
  - intros pos Hpos. destruct (mi_taken_all _ Hst pos Hpos) as [|[j Hj]]; [by left|right].
    exists j. rewrite lookup_insert_ne; [done|]. intros ->. rewrite Hi in Hj. injection Hj as ->. by eapply Hc.
  - intros j pos. rewrite lookup_insert_Some. intros [[<- E]|[_ Hj]]; [by destruct (Hc' pos)|].
    by eapply mi_unread.
Qed.

(** The tail's compare-and-exchange. *)
Definition advance_tail : vox_queue :=
  with_atomics q (elements q) (slots q) (atomic_head q) (Atomic (atomic_at (atomic_tail q)) (t + 1)).

Lemma reserve_step i e :
  threads st !! i = Some (PCas e t) -> t < 2 ^ 62 ->
  minv (MState advance_tail (<[i := PWrite e t]> (threads st)) (log st ++ [e]) (taken st)).
Proof.
  intros Hi Hmax. pose proof minv_cap as Hcap.
  destruct (mi_pc _ Hst i _ Hi) as [Hp0 Hfree]. specialize (Hfree eq_refl).
  pose proof (minv_free t Hfree ltac:(lia) ltac:(lia)) as Hroom.
  pose proof (mi_range _ Hst) as (Hht & Hth & Htm). pose proof (mi_log _ Hst) as Hlog.
  destruct (taken_keep i (PCas e t) (PWrite e t) Hi) as [Hta Hun]; [done..|].
  constructor; cbn -[Z.pow]; try apply Hst.
  - unfold mpsc_head, mpsc_tail in *; cbn. lia.
  - unfold mpsc_tail in *; cbn. rewrite zlen_app, zlen_cons, zlen_nil. lia.
  - intros pos Hpos. change (h <= pos < t + 1) in Hpos.
    destruct (decide (pos = t)) as [->|Hne].
    + right. split; [done|]. exists i, (PWrite e t). by rewrite lookup_insert_eq.
    + destruct (mi_in _ Hst pos) as [[Hs Hl]|[Hs Hh]]; [lia| |].
      * left. split; [done|]. by apply logged_app.
      * right. split; [done|]. eapply held_update; [done| |done]. done.
  - intros pos Hpos. change (t + 1 <= pos < h + cap) in Hpos.
    destruct (mi_out _ Hst pos) as [|[Hs Hh]]; [lia|by left|right]. split; [done|].
    eapply held_update; [done| |done]. done.
  - intros j d. rewrite lookup_insert_Some. intros [[<- <-]|[Hne Hj]].
    + split; [change (h <= t < t + 1); lia|]. split; [done|].
      rewrite <-Hlog. apply logged_end.
    + pose proof (mi_pc _ Hst j d Hj) as Hd.
      destruct d; cbn in *; change (mpsc_tail advance_tail) with (t + 1);
        change (mpsc_head advance_tail) with h; try done; try lia.
      * destruct Hd as (? & ? & Hl). split; [lia|]. split; [done|]. by apply logged_app.
      * destruct Hd as (? & ? & Hl & ?). split; [lia|]. split; [done|]. split; [by apply logged_app|done].
      * destruct Hd as (? & ? & ?). split; [lia|]. split; [lia|done].
      * destruct Hd as (? & Hw & Hs & Hl). split; [lia|]. split; [|split; [done|by apply logged_app]].
        destruct (decide (t = pos + cap)) as [E|]; [exfalso|lia].
        rewrite E, seq_at_turn, Hs in Hfree by lia. injection Hfree as Hx. lia.
      * destruct Hd as (? & Hw & Hs & Hl). split; [lia|]. split; [|split; [done|by apply logged_app]].
        destruct (decide (t = pos + cap)) as [E|]; [exfalso|lia].
        rewrite E, seq_at_turn, Hs in Hfree by lia. injection Hfree as Hx. lia.
  - apply excl_insert. intros j d pos Hne Hj. split; [|done]. intros [= <-] Hd.
    pose proof (mi_pc _ Hst j d Hj) as Hok.
    destruct d; cbn in *; try done; injection Hd as ->; destruct Hok as [? _]; lia.
  - intros pos e' He. destruct (mi_taken _ Hst pos e' He) as [? Hl]. split; [done|by apply logged_app].
  - done.
  - done.
Qed.

(** Writing the slot of a position. *)
Definition put (pos : Z) (slot : vox_queue_slot) : vox_queue :=
  with_atomics q (elements q) (<[Z.to_nat (pos mod cap) := slot]> (slots q)) (atomic_head q)
    (atomic_tail q).

Lemma set_slot_ok pos slot : 0 <= pos < 2 ^ 63 -> set_slot q pos slot = Some (put pos slot).
Proof.
  intros Hpos. pose proof minv_cap. pose proof (Z.mod_pos_bound pos cap ltac:(lia)).
  unfold set_slot. rewrite minv_masked, arr_set_ok by (rewrite ?(mi_slots _ Hst); lia). done.
Qed.

Lemma put_same pos slot :
  seq_at (put pos slot) pos = Some (atomic_value (sequence slot)) /\ data_at (put pos slot) pos = slot_data slot.
Proof.
  pose proof minv_cap. pose proof (mi_slots _ Hst). unfold seq_at, data_at. cbn.
  rewrite seq_of_insert, slot_cell_insert by (done || lia). by rewrite !decide_True.
Qed.

Lemma put_far pos slot p :
  Z.abs (p - pos) < cap -> p <> pos ->
  seq_at (put pos slot) p = seq_at q p /\ data_at (put pos slot) p = data_at q p.
Proof.
  intros Hd Hne. pose proof minv_cap. pose proof (mi_slots _ Hst). unfold seq_at, data_at. cbn.
  rewrite seq_of_insert, slot_cell_insert by (done || lia).
  rewrite !decide_False by (intros E; apply mod_window in E; lia). done.
Qed.

(** Other threads do not see a write to a position a producer holds. *)
Lemma pc_ok_put_reserved i j c d pos slot :
  threads st !! i = Some c -> reserved_pos c = Some pos -> h <= pos < t -> seq_at q pos = Some pos ->
  j <> i -> threads st !! j = Some d -> pc_ok (put pos slot) (log st) d.
Proof.
  intros Hi Hc Hpos Hs Hne Hj. pose proof (mi_pc _ Hst j d Hj) as Hd. pose proof minv_cap.
  pose proof (mi_range _ Hst) as (Hht & Hth & _).
  destruct (mi_excl _ Hst i j c d pos ltac:(done) Hi Hj) as [Hex _]. specialize (Hex Hc).
  destruct d as [|e|e p|e p|e p|e p| |p|p|p|p|p e|r]; cbn in *; try done;
    change (mpsc_head (put pos slot)) with h; change (mpsc_tail (put pos slot)) with t.
  - destruct Hd as [Hp Hf]. split; [done|]. intros E. specialize (Hf E).
    pose proof (minv_free p Hf ltac:(lia) ltac:(lia)). destruct (put_far pos slot p) as [-> _]; [lia..|done].
  - destruct Hd as (Hp & Hq & Hl). destruct (put_far pos slot p) as [-> _]; [lia|congruence|done].
  - destruct Hd as (Hp & Hq & Hl & Hx). destruct (put_far pos slot p) as [-> ->]; [lia|congruence|done].
  - destruct Hd as (Hp & Hq & Hf). split; [done|]. split; [done|]. intros E. specialize (Hf E).
    assert (p <> pos) by (intros ->; rewrite Hs in Hf; injection Hf; lia).
    destruct (put_far pos slot p) as [-> _]; [lia..|done].
  - destruct Hd as (Hp & Hw & Hq & Hl). destruct (put_far pos slot p) as [-> ->]; [lia..|done].
  - destruct Hd as (Hp & Hw & Hq & Hl). destruct (put_far pos slot p) as [-> _]; [lia..|done].
Qed.

(** The frame of a step of a producer that holds [pos]. *)
Lemma reserved_frame i c c' pos slot :
  threads st !! i = Some c -> reserved_pos c = Some pos -> claimed_pos c = None ->
  claimed_pos c' = None -> (forall p, reserved_pos c' = Some p -> p = pos) ->
  h <= pos < t -> seq_at q pos = Some pos ->
  pc_ok (put pos slot) (log st) c' ->
  ((seq_at (put pos slot) pos = Some (pos + 1) /\ logged (log st) pos (data_at (put pos slot) pos)) \/
   (seq_at (put pos slot) pos = Some pos /\ reserved_pos c' = Some pos)) ->
  minv (MState (put pos slot) (<[i := c']> (threads st)) (log st) (taken st)).
Proof.
  intros Hi Hr Hcl Hcl' Hr' Hpos Hs Hok Hin. pose proof minv_cap.
  pose proof (mi_range _ Hst) as (Hht & Hth & Htm).
  destruct (taken_keep i c c' Hi) as [Hta Hun]; [by intros ? ->..|].
  constructor; cbn -[Z.pow]; try apply Hst; try done.
  - by rewrite zlen_insert, (mi_slots _ Hst).
  - intros p Hp. change (h <= p < t) in Hp. destruct (decide (p = pos)) as [->|Hne].
    + destruct Hin as [?|[? ?]]; [by left|right]. split; [done|]. exists i, c'. by rewrite lookup_insert_eq.
    + destruct (put_far pos slot p) as [-> ->]; [lia..|].
      destruct (mi_in _ Hst p Hp) as [|[Hsp Hh]]; [by left|right]. split; [done|].
      eapply held_update; [done|congruence|done].
  - intros p Hp. change (t <= p < h + cap) in Hp. destruct (put_far pos slot p) as [-> _]; [lia..|].
    destruct (mi_out _ Hst p Hp) as [|[Hsp Hh]]; [by left|right]. split; [done|].
    eapply held_update; [done|congruence|done].
  - intros j d. rewrite lookup_insert_Some. intros [[<- <-]|[Hne Hj]]; [done|].
    by apply (pc_ok_put_reserved i j c d pos slot).
  - apply excl_insert. apply (excl_keep i c); [done| |congruence].
    intros p Hp. by rewrite (Hr' p Hp).
Qed.

Lemma write_step i e pos slot :
  threads st !! i = Some (PWrite e pos) -> atomic_value (sequence slot) = pos ->
  minv (MState (put pos (Slot e (sequence slot))) (<[i := PPublish e pos]> (threads st)) (log st) (taken st)).
Proof.
  intros Hi Hv. destruct (mi_pc _ Hst i _ Hi) as (Hpos & Hs & Hl).
  destruct (put_same pos (Slot e (sequence slot))) as [Hps Hpd]. cbn in Hps, Hpd. rewrite Hv in Hps.
  eapply reserved_frame; [done|done|done|done|by intros ? [= ->]|done|done| |right; done].
  split; [done|]. split; [done|]. by split.
Qed.

Lemma publish_step i e pos slot :
  threads st !! i = Some (PPublish e pos) -> slot_data slot = e -> atomic_value (sequence slot) = pos + 1 ->
  minv (MState (put pos slot) (<[i := Ret 0]> (threads st)) (log st) (taken st)).
Proof.
  intros Hi Hd Hv. destruct (mi_pc _ Hst i _ Hi) as (Hpos & Hs & Hl & Hdat).
  destruct (put_same pos slot) as [Hps Hpd]. rewrite Hv in Hps. rewrite Hd in Hpd.
  eapply reserved_frame; [done|done|done|done|done|done|done|done|left]. split; [done|]. by rewrite Hpd.
Qed.

(** A consumer gives its slot back. *)
Lemma release_step i e pos slot :
  threads st !! i = Some (CRelease pos e) -> atomic_value (sequence slot) = pos + cap ->
  minv (MState (put pos slot) (<[i := Ret e]> (threads st)) (log st) (taken st)).
Proof.
  intros Hi Hv. destruct (mi_pc _ Hst i _ Hi) as (Hpos & Hw & Hs & Hl). pose proof minv_cap.
  pose proof (mi_range _ Hst) as (Hht & Hth & Htm).
  destruct (put_same pos slot) as [Hps _]. rewrite Hv in Hps.
  destruct (taken_keep i (CRelease pos e) (Ret e) Hi) as [Hta Hun]; [done..|].
  constructor; cbn -[Z.pow]; try apply Hst; try done.
  - by rewrite zlen_insert, (mi_slots _ Hst).
  - intros p Hp. change (h <= p < t) in Hp. destruct (put_far pos slot p) as [-> ->]; [lia..|].
    destruct (mi_in _ Hst p Hp) as [|[Hsp Hh]]; [by left|right]. split; [done|].
    eapply held_update; [done|done|done].
  - intros p Hp. change (t <= p < h + cap) in Hp. change (capacity (put pos slot)) with cap.
    destruct (decide (p = pos + cap)) as [->|Hne].
    + left. replace cap with (capacity (put pos slot)) at 1 by done. by rewrite seq_at_turn by (cbn; lia).
    + assert (Hfar : seq_at (put pos slot) p = seq_at q p).
      { pose proof (seq_at_turn (put pos slot) (p - cap) ltac:(cbn; lia)) as E1.
        pose proof (seq_at_turn q (p - cap) ltac:(lia)) as E2.
        change (capacity (put pos slot)) with cap in E1.
        replace (p - cap + cap) with p in E1, E2 by lia. rewrite E1, E2. apply put_far; lia. }
      rewrite Hfar. destruct (mi_out _ Hst p Hp) as [|[Hsp Hh]]; [by left|right]. split; [done|].
      eapply held_update; [done| |done]. intros [= E]. lia.
  - intros j d. rewrite lookup_insert_Some. intros [[<- <-]|[Hne Hj]]; [done|].
    pose proof (mi_pc _ Hst j d Hj) as Hd.
    destruct (mi_excl _ Hst i j _ d pos Hne Hi Hj) as [_ Hex]. specialize (Hex eq_refl).
    destruct d as [|e'|e' p|e' p|e' p|e' p| |p|p|p|p|p e'|r]; cbn in *; try done;
      change (mpsc_head (put pos slot)) with h; change (mpsc_tail (put pos slot)) with t;
      change (capacity (put pos slot)) with cap.
    + destruct Hd as [Hp Hf]. split; [done|]. intros E. specialize (Hf E).
      pose proof (minv_free p Hf ltac:(lia) ltac:(lia)).
      assert (p <> pos + cap).
      { intros ->. rewrite seq_at_turn, Hs in Hf by lia. injection Hf. lia. }
      destruct (put_far pos slot p) as [-> _]; [lia..|done].
    + destruct Hd as (Hp & Hq & Hlg). destruct (put_far pos slot p) as [-> _]; [lia..|done].
    + destruct Hd as (Hp & Hq & Hlg & Hx). destruct (put_far pos slot p) as [-> ->]; [lia..|done].
    + destruct Hd as (Hp & Hq & Hf). split; [done|]. split; [done|]. intros E. specialize (Hf E).
      destruct (put_far pos slot p) as [-> _]; [lia..|done].
    + destruct Hd as (Hp & Hwp & Hq & Hlg).
      destruct (put_far pos slot p) as [-> ->]; [lia|congruence|done].
    + destruct Hd as (Hp & Hwp & Hq & Hlg).
      destruct (put_far pos slot p) as [-> _]; [lia|congruence|done].
  - apply excl_insert. by apply (excl_keep i (CRelease pos e)).
Qed.

(** The head's compare-and-exchange. *)
Definition advance_head : vox_queue :=
  with_atomics q (elements q) (slots q) (Atomic (atomic_at (atomic_head q)) (h + 1)) (atomic_tail q).

Lemma claim_step i :
  threads st !! i = Some (CCas h) ->
  minv (MState advance_head (<[i := CRead h]> (threads st)) (log st) (taken st)).
Proof.
  intros Hi. destruct (mi_pc _ Hst i _ Hi) as (Hp & Hlt & Hs). specialize (Hs eq_refl).
  pose proof minv_cap. pose proof (mi_range _ Hst) as (Hht & Hth & Htm).
  assert (Hlog : logged (log st) h (data_at q h)).
  { destruct (mi_in _ Hst h) as [[_ ?]|[Hs' _]]; [lia|done|]. rewrite Hs in Hs'. injection Hs'. lia. }
  constructor; cbn -[Z.pow]; try apply Hst.
  - change (0 <= h + 1 <= t /\ t <= h + 1 + cap /\ t <= 2 ^ 62). lia.
  - intros p Hp'. change (h + 1 <= p < t) in Hp'.
    destruct (mi_in _ Hst p) as [|[Hsp Hh]]; [lia|by left|right]. split; [done|].
    eapply held_update; [done|done|done].
  - intros p Hp'. change (t <= p < h + 1 + cap) in Hp'. change (capacity advance_head) with cap.
    destruct (decide (p = h + cap)) as [->|Hne].
    + right. split.
      * change (seq_at advance_head (h + cap)) with (seq_at q (h + cap)).
        rewrite seq_at_turn, Hs by lia. f_equal. lia.
      * exists i, (CRead h). rewrite lookup_insert_eq. split; [done|]. cbn. f_equal. lia.
    + destruct (mi_out _ Hst p) as [|[Hsp Hh]]; [lia|by left|right]. split; [done|].
      eapply held_update; [done|done|done].
  - intros j d. rewrite lookup_insert_Some. intros [[<- <-]|[Hne Hj]].
    + change (0 <= h < h + 1 /\ t <= h + cap /\ seq_at q h = Some (h + 1) /\
              logged (log st) h (data_at q h)). split_and!; try done; lia.
    + pose proof (mi_pc _ Hst j d Hj) as Hd.
      destruct d as [|e'|e' p|e' p|e' p|e' p| |p|p|p|p|p e'|r]; cbn in *; try done;
        change (mpsc_head advance_head) with (h + 1); change (mpsc_tail advance_head) with t;
        change (capacity advance_head) with cap; try lia.
      * destruct Hd as (Hp' & Hq & Hl). split; [|done].
        assert (p <> h) by (intros ->; rewrite Hs in Hq; injection Hq; lia). lia.
      * destruct Hd as (Hp' & Hq & Hl). split; [|done].
        assert (p <> h) by (intros ->; rewrite Hs in Hq; injection Hq; lia). lia.
      * destruct Hd as (Hp' & Hw & Hq). split; [lia|]. by split.
      * destruct Hd as (Hp' & Hw & Hq). split; [lia|]. by split.
  - apply excl_insert. intros j d p Hne Hj. split; [done|]. intros [= <-] Hd.
    pose proof (mi_pc _ Hst j d Hj) as Hok.
    destruct d; cbn in *; try done; injection Hd as ->; destruct Hok as [? _]; lia.
  - intros p e He. destruct (mi_taken _ Hst p e He) as [? Hl]. split; [|done].
    change (0 <= p < h + 1). lia.
  - intros p Hp'. change (0 <= p < h + 1) in Hp'. destruct (decide (p = h)) as [->|Hne].
    + right. exists i. by rewrite lookup_insert_eq.
    + destruct (mi_taken_all _ Hst p) as [|[j Hj]]; [lia|by left|right]. exists j.
      rewrite lookup_insert_ne; [done|]. intros ->. by rewrite Hi in Hj.
  - intros j p. rewrite lookup_insert_Some. intros [[<- [= <-]]|[_ Hj]]; [|by eapply mi_unread].
    intros Hin. apply list_elem_of_fmap in Hin as ([p' e] & Ep & Hin). cbn in Ep. subst.
    destruct (mi_taken _ Hst _ e Hin). lia.
Qed.

(** A consumer reads the element it claimed. *)
Lemma read_step i pos :
  threads st !! i = Some (CRead pos) ->
  minv (MState q (<[i := CRelease pos (data_at q pos)]> (threads st)) (log st)
          (taken st ++ [(pos, data_at q pos)])).
Proof.
  intros Hi. destruct (mi_pc _ Hst i _ Hi) as (Hpos & Hw & Hs & Hl).
  pose proof (mi_unread _ Hst i pos Hi) as Hun.
  constructor; cbn -[Z.pow]; try apply Hst.
  - intros p Hp. destruct (mi_in _ Hst p Hp) as [|[Hsp Hh]]; [by left|right]. split; [done|].
    eapply held_update; [done|done|done].
  - intros p Hp. destruct (mi_out _ Hst p Hp) as [|[Hsp Hh]]; [by left|right]. split; [done|].
    eapply held_update; [done|done|done].
  - intros j d. rewrite lookup_insert_Some. intros [[<- <-]|[_ Hj]]; [done|by eapply mi_pc].
  - apply excl_insert. by apply (excl_keep i (CRead pos)).
  - intros p e [He|He]%elem_of_app; [by apply (mi_taken _ Hst)|].
    apply list_elem_of_singleton in He as [= -> ->]. done.
  - rewrite fmap_app. apply NoDup_app. split; [apply Hst|]. split; [|apply NoDup_singleton].
    intros p Hp ->%list_elem_of_singleton. done.
  - intros p Hp. rewrite fmap_app, elem_of_app.
    destruct (mi_taken_all _ Hst p Hp) as [|[j Hj]]; [by left; left|].
    destruct (decide (j = i)) as [->|Hne].
    + rewrite Hi in Hj. injection Hj as <-. left. right. by left.
    + right. exists j. by rewrite lookup_insert_ne.
  - intros j p. rewrite lookup_insert_Some. intros [[<- E]|[Hne Hj]]; [done|].
    rewrite fmap_app, elem_of_app. intros [Hp|Hp%list_elem_of_singleton].
    + by apply (mi_unread _ Hst j p Hj).
    + cbn in Hp. subst p. destruct (mi_excl _ Hst i j _ _ pos Hne Hi Hj) as [_ Hex]. by apply Hex.
Qed.

Lemma bump_cas (a : vox_atomic_long) (x v : Z) :
  vox_atomic_long_compare_exchange a x v
  = if decide (atomic_value a = x) then (Atomic (atomic_at a) v, true) else (a, false).
Proof. unfold vox_atomic_long_compare_exchange. case_decide; case_one; done. Qed.

(** What the comparison of a sequence number with a position tells. *)
Lemma seq_diff pos k s :
  0 <= pos <= 2 ^ 62 -> 0 <= k <= 1 -> seq_at q pos = Some s -> s64 (s - (pos + k)) = s - (pos + k).
Proof.
  intros Hpos Hk Hs. destruct (minv_seq pos) as (s' & E & Hb). rewrite Hs in E. injection E as <-.
  pose proof minv_cap. destruct (mi_range _ Hst) as (Hht & Hth & Htm). apply s64_small. lia.
Qed.

Lemma enqueue_step_ok i c q' c' ev :
  threads st !! i = Some c -> enqueue_step q c = Some (q', c', ev) ->
  zlen (apply_event ev (log st) (taken st)).1 <= 2 ^ 62 ->
  minv (MState q' (<[i := c']> (threads st)) (apply_event ev (log st) (taken st)).1
          (apply_event ev (log st) (taken st)).2).
Proof.
  intros Hi E Hmax. pose proof (mi_pc _ Hst i c Hi) as Hok. pose proof minv_cap.
  pose proof (mi_range _ Hst) as (Hht & Hth & Htm). pose proof (mi_log _ Hst) as Hlog.
  destruct c as [|e|e pos|e pos|e pos|e pos| |pos|pos|pos|pos|pos e|r]; cbn in E; try done.
  - injection E as <- <- <-. apply (local_step i (PTail e)); try done. cbn. unfold vox_atomic_long_load.
    fold (mpsc_tail q). lia.
  - rewrite minv_masked in E by (cbn in Hok; lia).
    destruct (minv_slot pos) as (slot & Hs & Hsq & Hd). rewrite Hs in E. cbn in E.
    injection E as <- <- <-. unfold vox_atomic_long_load_acquire.
    pose proof (seq_diff pos 0 _ ltac:(cbn in Hok; lia) ltac:(lia) Hsq) as Hdf.
    rewrite Z.add_0_r in Hdf. rewrite Hdf.
    apply (local_step i (PSeq e pos)); try done; repeat case_one; try done.
    cbn in *. split; [done|]. intros _. rewrite Hsq. f_equal. lia.
  - rewrite bump_cas in E. case_decide as Et; injection E as <- <- <-.
    + fold (mpsc_tail q) in Et. subst pos. cbn in Hmax. rewrite zlen_app, zlen_cons, zlen_nil in Hmax.
      rewrite s64_small by lia. apply reserve_step; [done|lia].
    + rewrite with_atomics_id. by apply (local_step i (PCas e pos)).
  - cbn in Hok. destruct Hok as (Hpos & Hsq & Hl). rewrite minv_masked in E by lia.
    destruct (minv_slot pos) as (slot & Hs & Hsq' & Hd). rewrite Hs in E. cbn in E.
    rewrite set_slot_ok in E by lia. cbn in E. injection E as <- <- <-.
    apply write_step; [done|]. congruence.
  - cbn in Hok. destruct Hok as (Hpos & Hsq & Hl & Hdat). rewrite minv_masked in E by lia.
    destruct (minv_slot pos) as (slot & Hs & Hsq' & Hd). rewrite Hs in E. cbn in E.
    rewrite set_slot_ok in E by lia. cbn in E. injection E as <- <- <-.
    apply (publish_step i e); [done|cbn; congruence|cbn; apply s64_small; lia].
Qed.

Lemma dequeue_step_ok i c q' c' ev :
  threads st !! i = Some c -> dequeue_step q c = Some (q', c', ev) ->
  minv (MState q' (<[i := c']> (threads st)) (apply_event ev (log st) (taken st)).1
          (apply_event ev (log st) (taken st)).2).
Proof.
  intros Hi E. pose proof (mi_pc _ Hst i c Hi) as Hok. pose proof minv_cap.
  pose proof (mi_range _ Hst) as (Hht & Hth & Htm).
  destruct c as [|e|e pos|e pos|e pos|e pos| |pos|pos|pos|pos|pos e|r]; cbn in E; try done.
  - injection E as <- <- <-. apply (local_step i CHead); try done. cbn. unfold vox_atomic_long_load.
    fold (mpsc_head q). lia.
  - injection E as <- <- <-. unfold vox_atomic_long_load. fold (mpsc_tail q).
    apply (local_step i (CTail pos)); try done; case_one; try done. cbn in *. lia.
  - cbn in Hok. rewrite minv_masked in E by lia.
    destruct (minv_slot pos) as (slot & Hs & Hsq & Hd). rewrite Hs in E. cbn in E.
    injection E as <- <- <-. unfold vox_atomic_long_load_acquire.
    rewrite (seq_diff pos 1 _ ltac:(lia) ltac:(lia) Hsq).
    apply (local_step i (CSeq pos)); try done; case_one; try done.
    cbn. split; [lia|]. split; [lia|]. intros Eh. subst pos.
    destruct (mi_in _ Hst h) as [[E' _]|[E' _]]; [lia|done|]. exfalso.
    rewrite Hsq in E'. injection E' as E'. lia.
  - rewrite bump_cas in E. case_decide as Eh; injection E as <- <- <-.
    + fold (mpsc_head q) in Eh. subst pos. rewrite s64_small by lia. by apply claim_step.
    + rewrite with_atomics_id. by apply (local_step i (CCas pos)).
  - cbn in Hok. destruct Hok as (Hpos & Hw & Hsq & Hl). rewrite minv_masked in E by lia.
    destruct (minv_slot pos) as (slot & Hs & Hsq' & Hd). rewrite Hs in E. cbn in E.
    injection E as <- <- <-. rewrite <-Hd. by apply read_step.
  - cbn in Hok. destruct Hok as (Hpos & Hw & Hsq & Hl). rewrite minv_masked in E by lia.
    destruct (minv_slot pos) as (slot & Hs & Hsq' & Hd). rewrite Hs in E. cbn in E.
    rewrite set_slot_ok in E by lia. cbn in E. injection E as <- <- <-.
    apply release_step; [done|]. cbn. apply s64_small. lia.
Qed.
End steps.

(** ** Runs *)

Lemma mstep_minv st st' : minv st -> mstep st st' -> zlen (log st') <= 2 ^ 62 -> minv st'.
Proof.
  intros Hst Hs Hmax. revert Hst Hmax.
  destruct Hs as [st i c e Hi Hc He|st i c Hi Hc|st i c q c' ev Hi E]; intros Hst Hmax.
  - apply (local_step _ Hst i c); [done|..]; by destruct Hc as [->|[r ->]].
  - apply (local_step _ Hst i c); [done|..]; by destruct Hc as [->|[r ->]].
  - destruct c; try done; first [by eapply enqueue_step_ok|by eapply dequeue_step_ok].
Qed.

Lemma mstep_log st st' : mstep st st' -> zlen (log st) <= zlen (log st').
Proof.
  intros [?|?|st0 i c q c' ev Hi E]; cbn; [lia..|]. destruct ev; cbn; zlia.
Qed.

(** A fresh slot ring and threads outside any call. *)
Definition initial (st : mstate) : Prop :=
  type (mq st) = MPSC /\ mpsc_ok (mq st) /\ mpsc_head (mq st) = 0 /\ mpsc_tail (mq st) = 0 /\
  (forall i c, threads st !! i = Some c -> c = Idle) /\ log st = [] /\ taken st = [].

Lemma initial_minv st : initial st -> minv st.
Proof.
  intros (Hty & Hq & Hh & Ht & Hth & Hl & Htk). pose proof Hq as (Hp & Hc2 & Hm & Hz & _ & _ & _ & _ & Hfree).
  fold (mpsc_head (mq st)) (mpsc_tail (mq st)) in Hfree. 
  constructor; rewrite ?Hh, ?Ht, ?Hl, ?Htk; try done; try lia.
  - intros pos Hpos. left. apply Hfree. lia.
  - intros i c Hi. apply Hth in Hi as ->. done.
  - intros i j c d pos Hij Hi Hj. apply Hth in Hi as ->. done.
  - by intros pos e ?%elem_of_nil.
  - apply NoDup_nil_2.
  - intros i pos Hi. apply Hth in Hi. done.
Qed.

Lemma reachable_minv st st' :
  initial st -> rtc mstep st st' -> zlen (log st') <= 2 ^ 62 -> minv st'.
Proof.
  intros Hi Hr. apply initial_minv in Hi. induction Hr as [st|st1 st2 st3 Hs Hr IH]; [done|].
  intros Hmax. apply IH; [|done]. eapply mstep_minv; [done..|].
  assert (zlen (log st2) <= zlen (log st3)); [|lia].
  clear -Hr. induction Hr as [|x y z Hs Hr IH]; [lia|]. apply mstep_log in Hs. lia.
Qed.

(** No thread is inside a call. *)
Definition quiescent (st : mstate) : Prop :=
  forall i c, threads st !! i = Some c -> c = Idle \/ exists r, c = Ret r.

Lemma ring_logged g cap l (n : nat) (h : Z) :
  0 <= h -> h + Z.of_nat n = zlen l ->
  (forall pos, h <= pos < h + Z.of_nat n -> l.[pos] = Some (g (pos mod cap))) ->
  ring g cap h n = drop (Z.to_nat h) l.
Proof.
  revert h. induction n as [|n IH]; intros h Hh Hn Hg; cbn.
  - symmetry. apply drop_ge. unfold zlen in Hn. lia.
  - pose proof (Hg h ltac:(lia)) as Hx. rewrite arr_get_lookup in Hx by lia.
    rewrite (drop_S _ _ _ Hx), IH; [|lia..|intros; apply Hg; lia].
    f_equal. f_equal. lia.
Qed.

Lemma quiescent_contents st :
  minv st -> quiescent st -> contents (mq st) = drop (Z.to_nat (mpsc_head (mq st))) (log st).
Proof.
  intros Hst Hq. destruct (mi_range _ Hst) as (Hht & _ & _). pose proof (mi_log _ Hst) as Hl.
  unfold contents. rewrite (mi_type _ Hst). fold (mpsc_head (mq st)) (mpsc_tail (mq st)).
  apply ring_logged; [lia..|]. intros pos Hpos.
  destruct (mi_in _ Hst pos) as [[_ Hx]|[_ (i & c & Hi & Hr)]]; [lia|exact Hx|exfalso].
  by destruct (Hq i c Hi) as [->|[r ->]].
Qed.

Lemma quiescent_taken st :
  minv st -> quiescent st -> (taken st).*2 ≡ₚ take (Z.to_nat (mpsc_head (mq st))) (log st).
Proof.
  intros Hst Hq. destruct (mi_range _ Hst) as (Hht & _ & _). pose proof (mi_log _ Hst) as Hl.
  set (n := Z.to_nat (mpsc_head (mq st))).
  set (l0 := imap (fun k e => (Z.of_nat k, e)) (take n (log st))).
  assert (l0.*2 = take n (log st)) as <-.
  { unfold l0. rewrite fmap_imap. change (imap (const id) (take n (log st)) = take n (log st)).
    rewrite imap_const. apply list_fmap_id. }
  apply (fmap_Permutation snd). apply NoDup_Permutation.
  - apply (NoDup_fmap_1 fst), (mi_taken_once _ Hst).
  - apply (NoDup_fmap_1 fst). unfold l0. rewrite fmap_imap.
    apply NoDup_alt. intros i j x. rewrite !list_lookup_imap.
    destruct (take n (log st) !! i); [|done]. destruct (take n (log st) !! j); [|done].
    cbn. intros [= <-] [= E]. lia.
  - intros [pos e]. split.
    + intros He. destruct (mi_taken _ Hst pos e He) as [Hp Hx].
      apply list_elem_of_lookup. exists (Z.to_nat pos). unfold l0, logged in *.
      rewrite arr_get_lookup in Hx by lia. rewrite list_lookup_imap, lookup_take_lt, Hx by lia.
      cbn. by rewrite Z2Nat.id by lia.
    + intros [k Hk]%list_elem_of_lookup. unfold l0 in Hk. rewrite list_lookup_imap in Hk.
      destruct (take n (log st) !! k) as [e'|] eqn:Ek; [|done]. cbn in Hk. injection Hk as <- ->.
      apply lookup_take_Some in Ek as [Hk Hlt].
      destruct (mi_taken_all _ Hst (Z.of_nat k)) as [Hin|[i Hi]]; [lia| |].
      * apply list_elem_of_fmap in Hin as ([p e'] & Ep & Hin). cbn in Ep. subst p.
        destruct (mi_taken _ Hst _ _ Hin) as [_ Hx]. unfold logged in Hx.
        rewrite arr_get_lookup, Nat2Z.id, Hk in Hx by lia. congruence.
      * by destruct (Hq i _ Hi) as [?|[r ?]].
Qed.

(** A refused enqueue has seen the tail at its position and that position's slot
    still occupied by the element a turn before. *)
Lemma passed_seq st pos s :
  minv st -> 0 <= pos < mpsc_head (mq st) -> seq_at (mq st) pos = Some s -> pos + 1 <= s.
Proof.
  intros Hst Hpos Hs. pose proof (minv_cap _ Hst) as Hc.
  destruct (mi_range _ Hst) as (Hht & Hth & _).
  set (h := mpsc_head (mq st)) in *. set (cap := capacity (mq st)) in *.
  set (p := h + (pos - h) mod cap). pose proof (Z.mod_pos_bound (pos - h) cap ltac:(lia)) as Hb.
  pose proof (Z.div_mod (pos - h) cap ltac:(lia)) as Hdm.
  assert ((pos - h) / cap < 0) by (apply Z.div_lt_upper_bound; lia).
  assert (pos + cap <= p) as Hp by (unfold p; nia).
  assert (seq_at (mq st) pos = seq_at (mq st) p) as E.
  { unfold seq_at, seq_of. fold cap. do 2 f_equal. unfold p. rewrite Z.add_mod_idemp_r by lia.
    f_equal. lia. }
  rewrite E in Hs. destruct (decide (p < mpsc_tail (mq st))) as [Hlt|Hge].
  - destruct (mi_in _ Hst p) as [[E' _]|[E' _]]; [fold h; unfold p in *; lia| |];
      rewrite Hs in E'; injection E' as ->; lia.
  - destruct (mi_out _ Hst p) as [E'|[E' _]]; [fold h cap; unfold p in *; lia| |];
      rewrite Hs in E'; injection E' as ->; fold cap; lia.
Qed.

(** ** Theorems *)

(** C10: However the threads of a slot ring of at least two slots are interleaved
    (below 2^62 reserved positions), an element is read at most once and is exactly
    the one enqueued at its position, positions being read only after the head has
    passed them; and whenever no thread is inside a call, the elements read are the
    first [head] elements enqueued, each exactly once, and the queue holds the others
    in the order in which their positions were reserved: nothing is lost, duplicated
    or reordered. *)
Theorem mpsc_linearizable st st' :
  initial st -> rtc mstep st st' -> zlen (log st') <= 2 ^ 62 ->
  (forall pos e, (pos, e) ∈ taken st' -> 0 <= pos < mpsc_head (mq st') /\ (log st').[pos] = Some e) /\
  NoDup (taken st').*1 /\
  (quiescent st' ->
    (taken st').*2 ≡ₚ take (Z.to_nat (mpsc_head (mq st'))) (log st') /\
    contents (mq st') = drop (Z.to_nat (mpsc_head (mq st'))) (log st')).
Proof.
  intros Hi Hr Hmax. pose proof (reachable_minv _ _ Hi Hr Hmax) as Hst.
  split; [apply Hst|]. split; [apply Hst|]. intros Hq.
  split; [by apply quiescent_taken|by apply quiescent_contents].
Qed.

(** C11: Calls fail only for a reason: a dequeue returns NULL only at a moment when
    the queue is empty, and an enqueue returns -1 only at a moment when its position
    is the tail and either all slots hold elements or a consumer has not yet given
    back the slot of the position a turn before. *)
Theorem mpsc_refusals st st' i :
  initial st -> rtc mstep st st' -> zlen (log st') <= 2 ^ 62 ->
  (forall pos q' ev, threads st' !! i = Some (CTail pos) ->
     thread_step (mq st') (CTail pos) = Some (q', Ret NULL, ev) ->
     mpsc_head (mq st') = mpsc_tail (mq st')) /\
  (forall e pos q' ev, threads st' !! i = Some (PSeq e pos) ->
     thread_step (mq st') (PSeq e pos) = Some (q', Ret (-1), ev) ->
     pos = mpsc_tail (mq st') /\
     (mpsc_tail (mq st') = mpsc_head (mq st') + capacity (mq st') \/
      exists j c, threads st' !! j = Some c /\
        claimed_pos c = Some (mpsc_tail (mq st') - capacity (mq st')))).
Proof.
  intros Hi Hr Hmax. pose proof (reachable_minv _ _ Hi Hr Hmax) as Hst. clear Hi Hr st.
  destruct (mi_range _ Hst) as (Hht & Hth & Htm). split.
  - intros pos q' ev Ht E. pose proof (mi_pc _ Hst i _ Ht) as Hok. cbn in Hok, E.
    unfold vox_atomic_long_load in E. fold (mpsc_tail (mq st')) in E.
    destruct (Z.eqb_spec pos (mpsc_tail (mq st'))); [lia|done].
  - intros e pos q' ev Ht E. pose proof (mi_pc _ Hst i _ Ht) as Hok. cbn in Hok, E.
    rewrite (minv_masked _ Hst) in E by lia.
    destruct (minv_slot _ Hst pos) as (slot & Hs & Hsq & _). rewrite Hs in E. cbn in E.
    unfold vox_atomic_long_load_acquire in E. set (s := atomic_value (sequence slot)) in *.
    pose proof (seq_diff _ Hst pos 0 s ltac:(lia) ltac:(lia) Hsq) as Hd. rewrite Z.add_0_r in Hd.
    rewrite Hd in E. destruct (Z.eqb_spec (s - pos) 0) as [|H0]; [done|].
    destruct (Z.ltb_spec (s - pos) 0) as [Hlt|]; [|done].
    assert (pos = mpsc_tail (mq st')) as ->.
    { destruct (decide (pos < mpsc_head (mq st'))) as [Hp|Hp].
      - pose proof (passed_seq _ pos s Hst ltac:(lia) Hsq). lia.
      - destruct (decide (pos = mpsc_tail (mq st'))) as [|Hne]; [done|].
        destruct (mi_in _ Hst pos) as [[E' _]|[E' _]]; [lia| |];
          rewrite Hsq in E'; injection E' as E'; lia. }
    split; [done|].
    destruct (decide (mpsc_tail (mq st') = mpsc_head (mq st') + capacity (mq st'))) as [|Hne]; [by left|].
    right. destruct (mi_out _ Hst (mpsc_tail (mq st'))) as [E'|[_ Hh]]; [lia| |done].
    rewrite Hsq in E'. injection E' as E'. lia.
Qed.

(** ** A concrete run *)

(** A schedule: which thread starts which call, or takes its next step. *)
Inductive action := AEnqueue (i : nat) (e : Z) | ADequeue (i : nat) | AStep (i : nat).

Definition outside (c : pc) : bool := match c with Idle | Ret _ => true | _ => false end.

Definition act (st : mstate) (a : action) : option mstate :=
  match a with
  | AEnqueue i e =>
      c ← threads st !! i; guard! outside c && negb (e =? NULL);
      Some (MState (mq st) (<[i := PTail e]> (threads st)) (log st) (taken st))
  | ADequeue i =>
      c ← threads st !! i; guard! outside c;
      Some (MState (mq st) (<[i := CHead]> (threads st)) (log st) (taken st))
  | AStep i =>
      c ← threads st !! i; '(q, c', ev) ← thread_step (mq st) c;
      Some (MState q (<[i := c']> (threads st))
              (apply_event ev (log st) (taken st)).1 (apply_event ev (log st) (taken st)).2)
  end.

Fixpoint schedule (st : mstate) (l : list action) : option mstate :=
  match l with [] => Some st | a :: l => st ← act st a; schedule st l end.

Lemma outside_spec c : outside c = true -> c = Idle \/ exists r, c = Ret r.
Proof. destruct c; try done; [by left|right; by eexists]. Qed.

Lemma schedule_steps st l st' : schedule st l = Some st' -> rtc mstep st st'.
Proof.
  revert st. induction l as [|a l IH]; intros st; cbn; [by intros [= ->]|].
  destruct (act st a) as [st1|] eqn:E; cbn; [|done]. intros Hs.
  eapply rtc_l; [|by apply IH]. destruct a as [i e|i|i]; cbn in E;
    destruct (threads st !! i) as [c|] eqn:Hi; cbn in E; try done.
  - destruct (outside c) eqn:Ho; cbn in E; [|done]. destruct (Z.eqb_spec e NULL); [done|].
    injection E as <-. eapply step_call_enqueue; [done|by apply outside_spec|done].
  - destruct (outside c) eqn:Ho; [|done]. injection E as <-.
    eapply step_call_dequeue; [done|by apply outside_spec].
  - destruct (thread_step (mq st) c) as [[[q c'] ev]|] eqn:Et; cbn in E; [|done].
    injection E as <-. by eapply step_thread.
Qed.

Definition ex_state : mstate :=
  MState (ex_queue MPSC 3) {[ 0%nat := Idle; 1%nat := Idle; 2%nat := Idle ]} [] [].

Lemma ex_initial : initial ex_state.
Proof.
  destruct ex_queue_ok as [Hok Ht]. pose proof (qi_shape _ _ Hok) as Hs.
  split; [done|]. split; [exact Hs|]. split; [by vm_compute|]. split; [exact Ht|].
  split; [|done]. intros i c. cbn. rewrite !lookup_insert_Some, lookup_singleton_Some.
  by intros [[_ <-]|[_ [[_ <-]|[_ [_ <-]]]]].
Qed.

(** Two producers race for the first position, the loser retries; the consumer waits
    for the first element to be published. *)
Definition ex_schedule : list action :=
  [AEnqueue 0 10; AEnqueue 1 20; AStep 0; AStep 1; AStep 0; AStep 1; AStep 1; AStep 0;
   ADequeue 2; AStep 2; AStep 2; AStep 2; AStep 1; AStep 1; AStep 0; AStep 0; AStep 0; AStep 0; AStep 0;
   AStep 2; AStep 2; AStep 2; AStep 2; AStep 2; AStep 2].

Lemma mpsc_linearizable_witness :
  initial ex_state /\ exists st', schedule ex_state ex_schedule = Some st' /\
    (taken st').*2 = [20] /\ contents (mq st') = [10] /\
    (forall pos e, (pos, e) ∈ taken st' -> 0 <= pos < mpsc_head (mq st') /\ (log st').[pos] = Some e).
Proof.
  split; [exact ex_initial|].
  destruct (schedule ex_state ex_schedule) as [st'|] eqn:E; [|by vm_compute in E].
  exists st'. split; [reflexivity|].
  assert ((fun st => ((taken st).*2, contents (mq st), zlen (log st))) <$> schedule ex_state ex_schedule
    = Some ([20], [10], 2)) as Hv by (vm_compute; reflexivity).
  rewrite E in Hv. injection Hv as Ht Hc Hl. split; [exact Ht|]. split; [exact Hc|].
  apply (mpsc_linearizable ex_state st' ex_initial (schedule_steps _ _ _ E)). rewrite Hl. lia.
Defined.

Lemma mpsc_refusals_witness :
  initial ex_state /\
  exists st', schedule ex_state [ADequeue 2; AStep 2] = Some st' /\
    threads st' !! 2%nat = Some (CTail 0) /\ mpsc_head (mq st') = mpsc_tail (mq st').
Proof.
  split; [exact ex_initial|].
  destruct (schedule ex_state [ADequeue 2; AStep 2]) as [st'|] eqn:E; [|by vm_compute in E].
  exists st'. split; [reflexivity|].
  assert ((fun st => (threads st !! 2%nat, snd <$> (fst <$> thread_step (mq st) (CTail 0)), zlen (log st))) <$>
    schedule ex_state [ADequeue 2; AStep 2] = Some (Some (CTail 0), Some (Ret NULL), 0)) as Hv
    by (vm_compute; reflexivity).
  rewrite E in Hv. injection Hv as Ht Hs Hl. split; [exact Ht|].
  refine (proj1 (mpsc_refusals ex_state st' 2 ex_initial (schedule_steps _ _ _ E) ltac:(rewrite Hl; lia))
            0 (mq st') Silent Ht _).
  exact (f_equal (fun c => Some (mq st', c, Silent)) Hs).
Defined.

End QueueConc.
