(* ===== verification/HTable.v ===== *)
(** * vox_htable.c: the hash table

    Open addressing with linear probing, tombstones and growth by doubling
    (src/vox_htable.c), refined to a finite map from keys to values, and the wyhash
    function it hashes with by default.

    A key is the list of its bytes; [key_len] is its length. A [double] load factor
    is a fraction: the capacity is a power of two, so the division
    [total_used / capacity] is exact as long as the table has fewer than 2^53
    entries. *)

From S2P Require Import Prelude Alloc.

Module HTable.

Definition VOX_HTABLE_DEFAULT_INITIAL_CAPACITY : Z := 16.
Definition sizeof_htable : Z := 80.
Definition sizeof_entry : Z := 32.

Inductive entry_status := EMPTY | DELETED | OCCUPIED.

#[export] Instance entry_status_eq_dec : EqDecision entry_status.
Proof. solve_decision. Defined.

(** [key] is the memory [key_at] points to.

    src/vox_htable.c:24-29: vox_htable_entry_t *)
Record vox_htable_entry := Entry {
  status : entry_status;
  key_at : Z;
  key : list Z;
  key_len : Z;
  value : Z;
}.

(** An entry of zeroed memory. *)
Definition no_entry : vox_htable_entry := Entry EMPTY NULL [] 0 NULL.

(** A load factor: a fraction. *)
Record load_factor := Fraction { num : Z; den : Z }.

(** src/vox_htable.c:32-43: struct vox_htable *)
Record vox_htable := {
  self : Z;
  entries_at : Z;
  entries : list vox_htable_entry;
  capacity : Z;
  size : Z;
  deleted_count : Z;
  load_factor_threshold : load_factor;
  hash_func : list Z -> option Z;
  key_cmp : list Z -> list Z -> Z -> option Z;
  key_free : bool;
  value_free : bool;
}.

Definition with_entries (h : vox_htable) (es : list vox_htable_entry) (n d : Z) : vox_htable :=
  {| self := self h; entries_at := entries_at h; entries := es; capacity := capacity h; size := n;
     deleted_count := d; load_factor_threshold := load_factor_threshold h;
     hash_func := hash_func h; key_cmp := key_cmp h; key_free := key_free h;
     value_free := value_free h |}.

Definition with_table (h : vox_htable) (a : Z) (es : list vox_htable_entry) (c n d : Z) : vox_htable :=
  {| self := self h; entries_at := a; entries := es; capacity := c; size := n;
     deleted_count := d; load_factor_threshold := load_factor_threshold h;
     hash_func := hash_func h; key_cmp := key_cmp h; key_free := key_free h;
     value_free := value_free h |}.

(** ** wyhash *)

Definition wyp0 : Z := 0xa0761d6478bd642f.
Definition wyp1 : Z := 0xe7037ed1a0b428db.
Definition wyp2 : Z := 0x8ebc6af09c88c6e3.
Definition wyp3 : Z := 0x589965cc75374cc3.
Definition wyp4 : Z := 0x1d8e4e27c47d124f.

(** Reads at offset [p] of the key; on a little-endian machine.

    src/vox_htable.c: _wyr8 *)
Definition wyr8 (k : list Z) (p : Z) : option Z := le_combine <$> arr_slice k p 8.
(** src/vox_htable.c: _wyr4 *)
Definition wyr4 (k : list Z) (p : Z) : option Z := le_combine <$> arr_slice k p 4.
(** src/vox_htable.c: _wyr3 *)
Definition wyr3 (k : list Z) (p n : Z) : option Z :=
  x ← k.[p]; y ← k.[p + Z.shiftr n 1]; z ← k.[p + n - 1];
  Some (Z.lor (Z.lor (Z.shiftl x 16) (Z.shiftl y 8)) z).

Definition mul64 (x y : Z) : Z := u64 (x * y).

(** The loop of 24 bytes a round.

    src/vox_htable.c:97-107: wyhash *)
Fixpoint wyhash_long (fuel : nat) (k : list Z) (p i s s1 s2 : Z) : option (Z * Z * Z * Z * Z) :=
  match fuel with
  | O => None
  | S fuel =>
      x ← wyr8 k p; y ← wyr8 k (p + 8); z ← wyr8 k (p + 16);
      let s := mul64 (Z.lxor s (mul64 x wyp0)) wyp1 in
      let s1 := mul64 (Z.lxor s1 (mul64 y wyp0)) wyp1 in
      let s2 := mul64 (Z.lxor s2 (mul64 z wyp0)) wyp1 in
      let p := p + 24 in
      let i := i - 24 in
      if 48 <? i then wyhash_long fuel k p i s s1 s2 else Some (p, i, s, s1, s2)
  end.

(** The loop of 8 bytes a round.

    src/vox_htable.c:108-112: wyhash *)
Fixpoint wyhash_words (fuel : nat) (k : list Z) (p i s : Z) : option (Z * Z * Z) :=
  match fuel with
  | O => None
  | S fuel =>
      if 16 <? i then
        x ← wyr8 k p;
        wyhash_words fuel k (p + 8) (i - 8) (mul64 (Z.lxor s (mul64 x wyp0)) wyp1)
      else Some (p, i, s)
  end.

Definition wyhash_fuel (k : list Z) : nat := S (length k).
#[global] Arguments wyhash_fuel : simpl never.

(** src/vox_htable.c:117-131: wyhash *)
Definition wyhash_mix (a b s : Z) : Z :=
  let a := Z.lxor a wyp2 in
  let b := Z.lxor b wyp3 in
  let a := mul64 a wyp0 in
  let b := mul64 b wyp1 in
  let a := Z.lxor (Z.lor (u64 (Z.shiftl a 32)) (Z.shiftr a 32)) b in
  let a := mul64 a wyp0 in
  let s := Z.lxor s a in
  let s := mul64 s wyp0 in
  let s := Z.lxor s (Z.shiftr s 32) in
  let s := mul64 s wyp1 in
  let s := Z.lxor s (Z.shiftr s 32) in
  let s := mul64 s wyp4 in
  Z.lxor s (Z.shiftr s 32).

(** src/vox_htable.c: wyhash *)
Definition wyhash (k : list Z) (len seed : Z) : option Z :=
  '(a, b, s) ←
    (if len <=? 16 then
       if 4 <=? len then
         let offset := if 8 <=? len then Z.shiftl (Z.shiftr len 3) 2 else 0 in
         v1 ← wyr4 k 0; v2 ← wyr4 k offset;
         v3 ← wyr4 k (len - 4); v4 ← wyr4 k (len - 4 - offset);
         Some (Z.lor (Z.shiftl v1 32) v2, Z.lor (Z.shiftl v3 32) v4, seed)
       else if 0 <? len then a ← wyr3 k 0 len; Some (a, 0, seed)
       else Some (0, 0, seed)
     else
       '(p, i, s) ←
         (if 48 <? len then
            '(p, i, s, s1, s2) ← wyhash_long (wyhash_fuel k) k 0 len seed seed seed;
            Some (p, i, Z.lxor s (Z.lxor s1 s2))
          else Some (0, len, seed));
       '(p, i, s) ← wyhash_words (wyhash_fuel k) k p i s;
       a ← wyr8 k (p + i - 16); b ← wyr8 k (p + i - 8);
       Some (a, b, s));
  Some (wyhash_mix a b s).

(** src/vox_htable.c: default_hash_func *)
Definition default_hash_func (k : list Z) : option Z := wyhash k (zlen k) 0.

(** The sign of the first difference among [n] bytes. *)
Fixpoint memcmp (a b : list Z) (n : nat) : option Z :=
  match n with
  | O => Some 0
  | S n =>
      match a, b with
      | x :: a, y :: b => if x =? y then memcmp a b n else Some (if x <? y then -1 else 1)
      | _, _ => None
      end
  end.

(** src/vox_htable.c: default_key_cmp *)
Definition default_key_cmp (key1 key2 : list Z) (n : Z) : option Z := memcmp key1 key2 (Z.to_nat n).

(** src/vox_htable.c: next_power_of_two *)
Definition next_power_of_two (n : Z) : Z :=
  if n =? 0 then 1 else u64 (smear (n - 1) + 1).

(** ** Probing *)

(** src/vox_htable.c: hash_index *)
Definition hash_index (htable : vox_htable) (k : list Z) : option Z :=
  hash ← hash_func htable k; Some (Z.land hash (u64 (capacity htable - 1))).

(** src/vox_htable.c: needs_resize *)
Definition needs_resize (htable : vox_htable) : bool :=
  if capacity htable =? 0 then false else
  let total_used := u64 (size htable + deleted_count htable) in
  num (load_factor_threshold htable) * capacity htable
  <=? total_used * den (load_factor_threshold htable).

(** The index of the entry returned; [Some None] is a NULL entry.

    src/vox_htable.c:237-271: find_entry *)
Fixpoint probe (fuel : nat) (htable : vox_htable) (start index : Z) (first_deleted : option Z)
  (k : list Z) (for_insert : bool) : option (option Z) :=
  match fuel with
  | O => None
  | S fuel =>
      e ← (entries htable).[index];
      if decide (status e = EMPTY) then
        Some (Some (if for_insert then default index first_deleted else index))
      else
        let first_deleted :=
          if decide (status e = DELETED)
          then match first_deleted with None => Some index | Some d => Some d end
          else first_deleted in
        hit ← (if decide (status e = OCCUPIED) then
                 if key_len e =? zlen k then
                   c ← key_cmp htable (key e) k (zlen k); Some (c =? 0)
                 else Some false
               else Some false);
        if (hit : bool) then Some (Some index) else
        let index := Z.land (u64 (index + 1)) (u64 (capacity htable - 1)) in
        if index =? start then Some None
        else probe fuel htable start index first_deleted k for_insert
  end.

Definition probe_fuel (htable : vox_htable) : nat := S (Z.to_nat (capacity htable)).
#[global] Arguments probe_fuel : simpl never.

(** src/vox_htable.c: find_entry *)
Definition find_entry (htable : vox_htable) (k : list Z) (for_insert : bool) : option (option Z) :=
  index ← hash_index htable k;
  probe (probe_fuel htable) htable index index None k for_insert.

Section operations.
Context {P : Type} `{MPool P}.
Context (junk : vox_htable_entry).
Implicit Types (p : P) (htable : vox_htable).

(** The loop that moves the occupied entries; [Some (_, false)] when one found no
    place.

    src/vox_htable.c:204-222: vox_htable_resize *)
Fixpoint reinsert htable (old : list vox_htable_entry) : option (vox_htable * bool) :=
  match old with
  | [] => Some (htable, true)
  | e :: old =>
      if decide (status e = OCCUPIED) then
        r ← find_entry htable (key e) true;
        match r with
        | None => Some (htable, false)
        | Some i =>
            es ← (entries htable).[i <- Entry OCCUPIED (key_at e) (key e) (key_len e) (value e)];
            reinsert (with_entries htable es (size htable + 1) (deleted_count htable)) old
        end
      else reinsert htable old
  end.

(** src/vox_htable.c: vox_htable_resize *)
Definition vox_htable_resize p htable (new_capacity : Z) : option (P * vox_htable * Z) :=
  if new_capacity <? size htable then Some (p, htable, -1) else
  if new_capacity <? capacity htable then Some (p, htable, -1) else
  let old_entries := entries htable in
  let '(p, a, cells) := alloc_cells junk p new_capacity sizeof_entry in
  if a =? NULL then Some (p, htable, -1) else
  cells ← arr_fill cells 0 new_capacity no_entry;
  let fresh := with_table htable a cells new_capacity 0 0 in
  '(filled, ok) ← reinsert fresh old_entries;
  if (ok : bool) then Some (mp_free p (entries_at htable), filled, 0)
  else Some (mp_free p a,
             with_table filled (entries_at htable) old_entries (capacity htable) (size htable)
               (deleted_count filled), -1).

Record vox_htable_config := {
  initial_capacity : Z;
  config_load_factor : load_factor;
  config_hash_func : option (list Z -> option Z);
  config_key_cmp : option (list Z -> list Z -> Z -> option Z);
  config_key_free : bool;
  config_value_free : bool;
}.

Definition VOX_HTABLE_DEFAULT_LOAD_FACTOR : load_factor := Fraction 3 4.

(** [load_factor > 0.0 && load_factor <= 1.0] *)
Definition valid_factor (l : load_factor) : bool := (0 <? num l) && (num l <=? den l).

(** src/vox_htable.c: vox_htable_create_with_config *)
Definition vox_htable_create_with_config p (config : option vox_htable_config)
  : option (P * option vox_htable) :=
  let '(p, h_at) := mp_alloc p sizeof_htable in
  if h_at =? NULL then Some (p, None) else
  let cap := match config with
             | Some c => if 0 <? initial_capacity c then next_power_of_two (initial_capacity c)
                         else VOX_HTABLE_DEFAULT_INITIAL_CAPACITY
             | None => VOX_HTABLE_DEFAULT_INITIAL_CAPACITY
             end in
  let lf := match config with
            | Some c => if valid_factor (config_load_factor c) then config_load_factor c
                        else VOX_HTABLE_DEFAULT_LOAD_FACTOR
            | None => VOX_HTABLE_DEFAULT_LOAD_FACTOR
            end in
  let hf := match config with
            | Some c => default default_hash_func (config_hash_func c)
            | None => default_hash_func
            end in
  let kc := match config with
            | Some c => default default_key_cmp (config_key_cmp c)
            | None => default_key_cmp
            end in
  let kf := match config with Some c => config_key_free c | None => false end in
  let vf := match config with Some c => config_value_free c | None => false end in
  let '(p, a, cells) := alloc_cells junk p cap sizeof_entry in
  if a =? NULL then Some (mp_free p h_at, None) else
  cells ← arr_fill cells 0 cap no_entry;
  Some (p, Some {| self := h_at; entries_at := a; entries := cells; capacity := cap; size := 0;
                   deleted_count := 0; load_factor_threshold := lf; hash_func := hf;
                   key_cmp := kc; key_free := kf; value_free := vf |}).

(** src/vox_htable.c: vox_htable_create *)
Definition vox_htable_create p : option (P * option vox_htable) :=
  vox_htable_create_with_config p None.

(** A call of a free function, in order: an output. *)
Inductive freed := FreeKey (a : Z) | FreeValue (v : Z).

(** [if (key_free && entry->key) ...; if (value_free && entry->value) ...] *)
Definition free_entry htable (e : vox_htable_entry) : list freed :=
  (if key_free htable && negb (key_at e =? NULL) then [FreeKey (key_at e)] else [])
  ++ (if value_free htable && negb (value e =? NULL) then [FreeValue (value e)] else []).

(** src/vox_htable.c: vox_htable_set *)
Definition vox_htable_set p htable (k : list Z) (v : Z)
  : option (P * vox_htable * Z * list freed) :=
  if zlen k =? 0 then Some (p, htable, -1, []) else
  '(p, htable, rc) ← (if needs_resize htable
                      then vox_htable_resize p htable (u64 (capacity htable * 2))
                      else Some (p, htable, 0));
  if negb (rc =? 0) then Some (p, htable, -1, []) else
  r ← find_entry htable k true;
  match r with
  | None => Some (p, htable, -1, [])
  | Some i =>
      e ← (entries htable).[i];
      if decide (status e = OCCUPIED) then
        let out := if value_free htable && negb (value e =? NULL) then [FreeValue (value e)] else [] in
        es ← (entries htable).[i <- Entry OCCUPIED (key_at e) (key e) (key_len e) v];
        Some (p, with_entries htable es (size htable) (deleted_count htable), 0, out)
      else
        let '(htable, out) :=
          if decide (status e = DELETED)
          then (with_entries htable (entries htable) (size htable) (u64 (deleted_count htable - 1)),
                free_entry htable e)
          else (htable, []) in
        let '(p, key_copy) := mp_alloc p (zlen k) in
        if key_copy =? NULL then Some (p, htable, -1, out) else
        es ← (entries htable).[i <- Entry OCCUPIED key_copy k (zlen k) v];
        Some (p, with_entries htable es (size htable + 1) (deleted_count htable), 0, out)
  end.

(** src/vox_htable.c: vox_htable_get *)
Definition vox_htable_get htable (k : list Z) : option Z :=
  if zlen k =? 0 then Some NULL else
  r ← find_entry htable k false;
  match r with
  | None => Some NULL
  | Some i =>
      e ← (entries htable).[i];
      if decide (status e = OCCUPIED) then Some (value e) else Some NULL
  end.

(** src/vox_htable.c: vox_htable_delete *)
Definition vox_htable_delete htable (k : list Z) : option (vox_htable * Z * list freed) :=
  if zlen k =? 0 then Some (htable, -1, []) else
  r ← find_entry htable k false;
  match r with
  | None => Some (htable, -1, [])
  | Some i =>
      e ← (entries htable).[i];
      if decide (status e <> OCCUPIED) then Some (htable, -1, []) else
      es ← (entries htable).[i <- Entry DELETED NULL [] 0 NULL];
      Some (with_entries htable es (size htable - 1) (u64 (deleted_count htable + 1)), 0,
            free_entry htable e)
  end.

(** src/vox_htable.c: vox_htable_contains *)
Definition vox_htable_contains htable (k : list Z) : option bool :=
  v ← vox_htable_get htable k; Some (negb (v =? NULL)).

(** src/vox_htable.c: vox_htable_size *)
Definition vox_htable_size htable : Z := size htable.
(** src/vox_htable.c: vox_htable_empty *)
Definition vox_htable_empty htable : bool := size htable =? 0.

(** The entries from [i] on, [n] of them. *)
Fixpoint walk_entries (es : list vox_htable_entry) (i : Z) (n : nat) : option (list vox_htable_entry) :=
  match n with
  | O => Some []
  | S n => e ← es.[i]; rest ← walk_entries es (i + 1) n; Some (e :: rest)
  end.

Definition cleared (e : vox_htable_entry) : vox_htable_entry :=
  if decide (status e = EMPTY) then e else Entry EMPTY NULL [] 0 NULL.

(** src/vox_htable.c: vox_htable_clear *)
Definition vox_htable_clear htable : option (vox_htable * list freed) :=
  es ← walk_entries (entries htable) 0 (Z.to_nat (capacity htable));
  let out := e ← es; if decide (status e = OCCUPIED) then free_entry htable e else [] in
  es ← arr_blit (entries htable) 0 (cleared <$> es) 0 (capacity htable);
  Some (with_entries htable es 0 0, out).

(** src/vox_htable.c: vox_htable_destroy *)
Definition vox_htable_destroy p htable : option (P * list freed) :=
  es ← walk_entries (entries htable) 0 (Z.to_nat (capacity htable));
  let out := e ← es; if decide (status e = EMPTY) then [] else free_entry htable e in
  let p := mp_free p (entries_at htable) in
  Some (mp_free p (self htable), out).

(** The entries visited, in order.

    src/vox_htable.c: vox_htable_foreach *)
Definition vox_htable_foreach htable : option (list (list Z * Z) * Z) :=
  es ← walk_entries (entries htable) 0 (Z.to_nat (capacity htable));
  let visited := e ← es; if decide (status e = OCCUPIED) then [(key e, value e)] else [] in
  Some (visited, zlen visited).

(** src/vox_htable.c: vox_htable_stats *)
Definition vox_htable_stats htable : Z * Z * load_factor :=
  (capacity htable, size htable,
   if 0 <? capacity htable then Fraction (size htable) (capacity htable) else Fraction 0 1).
End operations.

(** ** Keys, entries and paths *)

Definition key_ok (k : list Z) : Prop := is_bytes k /\ 0 < zlen k < 2 ^ 63.

(** What the table asks of its functions: the hash is a 64-bit number, and comparing
    two keys of the same length gives 0 exactly when they are equal. *)
Record funcs_ok (hf : list Z -> option Z) (kc : list Z -> list Z -> Z -> option Z) : Prop := {
  fo_hash k : key_ok k -> exists v, hf k = Some v /\ 0 <= v < 2 ^ 64;
  fo_cmp a b : key_ok a -> key_ok b -> zlen a = zlen b ->
    exists c, kc a b (zlen b) = Some c /\ (c = 0 <-> a = b);
}.

(** The entry in a slot. *)
Definition slot (es : list vox_htable_entry) (i : Z) : vox_htable_entry := default no_entry es.[i].

Lemma slot_get es i : 0 <= i < zlen es -> es.[i] = Some (slot es i).
Proof. intros Hi. unfold slot. destruct (arr_get_Some es i Hi) as [x ->]. done. Qed.

Lemma slot_insert es i x k :
  0 <= i < zlen es -> 0 <= k ->
  slot (<[Z.to_nat i := x]> es) k = if decide (i = k) then x else slot es k.
Proof. intros Hi Hk. unfold slot. rewrite arr_get_insert by done. by case_decide. Qed.

Definition occupied (e : vox_htable_entry) : Prop := status e = OCCUPIED.
#[export] Instance occupied_dec e : Decision (occupied e).
Proof. unfold occupied. apply _. Defined.
#[global] Typeclasses Opaque occupied.

(** The slots probed for [k] before reaching [i] are not empty. *)
Definition path_to (h : vox_htable) (k : list Z) (i : Z) : Prop :=
  exists s, hash_index h k = Some s /\ 0 <= s < capacity h /\
    forall j, 0 <= j < (i - s) mod capacity h ->
      status (slot (entries h) ((s + j) mod capacity h)) <> EMPTY.

(** The table holds exactly the map [m], from a key to the address of the table's copy
    of it and its value. *)
Record table_ok (h : vox_htable) (m : gmap (list Z) (Z * Z)) : Prop := {
  to_funcs : funcs_ok (hash_func h) (key_cmp h);
  to_cap : pow2 (capacity h) /\ capacity h * sizeof_entry <= PTRDIFF_MAX;
  to_cells : zlen (entries h) = capacity h;
  to_entry i : 0 <= i < capacity h -> occupied (slot (entries h) i) ->
    let e := slot (entries h) i in
    key_ok (key e) /\ key_len e = zlen (key e) /\ m !! key e = Some (key_at e, value e) /\ path_to h (key e) i;
  to_map k a v : m !! k = Some (a, v) ->
    exists i, 0 <= i < capacity h /\ occupied (slot (entries h) i) /\
      key (slot (entries h) i) = k /\ key_at (slot (entries h) i) = a /\
      value (slot (entries h) i) = v;
  to_vacant i : 0 <= i < capacity h -> ~ occupied (slot (entries h) i) ->
    key_at (slot (entries h) i) = NULL /\ value (slot (entries h) i) = NULL;
  to_uniq i j : 0 <= i < capacity h -> 0 <= j < capacity h ->
    occupied (slot (entries h) i) -> occupied (slot (entries h) j) ->
    key (slot (entries h) i) = key (slot (entries h) j) -> i = j;
  to_size : size h = Z.of_nat (base.size m);
  to_deleted : 0 <= deleted_count h < 2 ^ 64;
}.

Section probing.
Context (h : vox_htable) (m : gmap (list Z) (Z * Z)) (Hok : table_ok h m).
#[local] Abbreviation cap := (capacity h).
#[local] Abbreviation cell i := (slot (entries h) i).

Lemma table_cap : 0 < cap < 2 ^ 58.
Proof.
  destruct (to_cap _ _ Hok) as [Hp Hm]. pose proof (pow2_pos _ Hp).
  unfold sizeof_entry, PTRDIFF_MAX in Hm. lia.
Qed.

Lemma mask_mod x : Z.land x (u64 (cap - 1)) = x mod cap.
Proof.
  pose proof table_cap. rewrite u64_small by lia. apply land_mask, (to_cap _ _ Hok).
Qed.

Lemma hash_index_ok k : key_ok k -> exists s, hash_index h k = Some s /\ 0 <= s < cap.
Proof.
  intros Hk. pose proof table_cap. destruct (fo_hash _ _ (to_funcs _ _ Hok) k Hk) as (v & Hv & Hr).
  exists (v mod cap). unfold hash_index. rewrite Hv. cbn. rewrite mask_mod. split; [done|].
  apply Z.mod_pos_bound. lia.
Qed.

(** Whether the entry in a slot is that of [k]. *)
Definition hit k i : Prop := occupied (cell i) /\ key (cell i) = k.

Lemma key_test k i :
  key_ok k -> 0 <= i < cap -> occupied (cell i) ->
  exists b, (if key_len (cell i) =? zlen k
             then c ← key_cmp h (key (cell i)) k (zlen k); Some (c =? 0) else Some false) = Some b /\
    (b = true <-> key (cell i) = k).
Proof.
  intros Hk Hi Ho. destruct (to_entry _ _ Hok i Hi Ho) as (Hke & Hl & _). rewrite Hl.
  destruct (Z.eqb_spec (zlen (key (cell i))) (zlen k)) as [E|E].
  - destruct (fo_cmp _ _ (to_funcs _ _ Hok) _ _ Hke Hk E) as (c & -> & Hc). cbn.
    eexists. split; [done|]. by rewrite Z.eqb_eq.
  - eexists. split; [done|]. split; [done|]. intros Hx. by rewrite Hx in E.
Qed.

(** A key that was not met before the first empty slot, or in a whole turn, is not in
    the table. *)
Lemma absent_before k s j :
  hash_index h k = Some s -> 0 <= s < cap -> 0 <= j <= cap ->
  (forall j', 0 <= j' < j -> ~ hit k ((s + j') mod cap)) ->
  (j = cap \/ status (cell ((s + j) mod cap)) = EMPTY) ->
  m !! k = None.
Proof.
  intros Hs Hr Hj Hmiss Hend. pose proof table_cap.
  destruct (m !! k) as [[a v]|] eqn:E; [exfalso|done].
  destruct (to_map _ _ Hok k a v E) as (i & Hi & Ho & Hk & _).
  destruct (to_entry _ _ Hok i Hi Ho) as (_ & _ & _ & (s' & Hs' & _ & Hpath)).
  rewrite Hk, Hs in Hs'. injection Hs' as <-.
  pose proof (Z.mod_pos_bound (i - s) cap ltac:(lia)) as Hd.
  assert (Hid : (s + (i - s) mod cap) mod cap = i).
  { rewrite Z.add_mod_idemp_r by lia. rewrite Z.mod_small; lia. }
  destruct (decide ((i - s) mod cap < j)) as [Hlt|Hge].
  - apply (Hmiss ((i - s) mod cap)); [lia|]. rewrite Hid. by split.
  - destruct Hend as [->|He]; [lia|].
    destruct (decide (j = (i - s) mod cap)) as [->|].
    + rewrite Hid in He. unfold occupied in Ho. congruence.
    + apply (Hpath j); [lia|done].
Qed.

Definition found (k : list Z) (for_insert : bool) (r : option Z) : Prop :=
  match r with
  | Some i => 0 <= i < cap /\
      ((hit k i /\ m !! k = Some (key_at (cell i), value (cell i))) \/
       (m !! k = None /\ path_to h k i /\
        (status (cell i) = EMPTY \/ (for_insert = true /\ status (cell i) = DELETED))))
  | None => m !! k = None /\ forall i, 0 <= i < cap -> status (cell i) <> EMPTY
  end.

Lemma dist_mod s j : 0 <= s < cap -> 0 <= j < cap -> ((s + j) mod cap - s) mod cap = j.
Proof.
  intros Hs Hj. rewrite Zminus_mod_idemp_l. replace (s + j - s) with j by lia. by apply Z.mod_small.
Qed.

Lemma probe_ok k fi s fuel j fd :
  key_ok k -> hash_index h k = Some s -> 0 <= s < cap -> 0 <= j < cap ->
  cap - j < Z.of_nat fuel ->
  (forall j', 0 <= j' < j ->
     status (cell ((s + j') mod cap)) <> EMPTY /\ ~ hit k ((s + j') mod cap)) ->
  match fd with
  | None => True
  | Some d => exists j', 0 <= j' < j /\ d = (s + j') mod cap /\ status (cell d) = DELETED
  end ->
  exists r, probe fuel h s ((s + j) mod cap) fd k fi = Some r /\ found k fi r.
Proof.
  intros Hk Hs Hsr. pose proof table_cap as Hcap. revert j fd.
  induction fuel as [|fuel IH]; intros j fd Hj Hf Hpast Hfd; [lia|].
  pose proof (Z.mod_pos_bound (s + j) cap ltac:(lia)) as Hi. set (i := (s + j) mod cap) in *.
  assert (Hpath : forall j0, 0 <= j0 <= j -> path_to h k ((s + j0) mod cap)).
  { intros j0 Hj0. exists s. split; [done|]. split; [done|]. intros j' Hj'.
    rewrite dist_mod in Hj' by lia. apply Hpast. lia. }
  cbn [probe]. rewrite slot_get by (rewrite (to_cells _ _ Hok); lia). cbn [mbind option_bind].
  destruct (decide (status (cell i) = EMPTY)) as [He|He].
  { assert (m !! k = None) as Hm.
    { eapply (absent_before k s j); [done|done|lia|by intros; apply Hpast|by right]. }
    eexists. split; [done|]. destruct fi; [|by split; [lia|right; split_and!; [|apply Hpath; lia|left]]].
    destruct fd as [d|]; cbn.
    - destruct Hfd as (j' & Hj' & -> & Hd). split; [apply Z.mod_pos_bound; lia|right].
      split; [done|]. split; [apply Hpath; lia|by right].
    - split; [lia|right]. split; [done|]. split; [apply Hpath; lia|by left]. }
  set (fd' := if decide (status (cell i) = DELETED) then _ else fd).
  assert (Hfd' : match fd' with
    | None => True
    | Some d => exists j', 0 <= j' < j + 1 /\ d = (s + j') mod cap /\ status (cell d) = DELETED end).
  { unfold fd'. destruct (decide (status (cell i) = DELETED)) as [Hd|];
      (destruct fd as [d|]; [destruct Hfd as (j' & ? & ? & ?); exists j'; split_and!; (done || lia)|]); [|done].
    exists j. split; [lia|done]. }
  clearbody fd'.
  assert (exists b, (if decide (status (cell i) = OCCUPIED) then
      if key_len (cell i) =? zlen k
      then c ← key_cmp h (key (cell i)) k (zlen k); Some (c =? 0) else Some false
    else Some false) = Some b /\ (b = true <-> hit k i)) as (b & -> & Hb).
  { destruct (decide (status (cell i) = OCCUPIED)) as [Ho|Ho].
    - destruct (key_test k i Hk Hi Ho) as (b & Eb & Hb). exists b. split; [exact Eb|].
      unfold hit. rewrite Hb. unfold occupied. tauto.
    - exists false. split; [done|]. split; [done|]. by intros [? _]. }
  cbn [mbind option_bind]. destruct b.
  { exists (Some i). split; [done|]. split; [lia|left]. pose proof (proj1 Hb eq_refl) as Hh.
    split; [done|]. destruct Hh as [Ho Hke]. destruct (to_entry _ _ Hok i Hi Ho) as (_ & _ & Hm & _).
    by rewrite <-Hke. }
  assert (Hnh : ~ hit k i) by (intros Hh; by apply Hb in Hh).
  rewrite u64_small by lia. rewrite mask_mod.
  assert (Hnext : (i + 1) mod cap = (s + (j + 1)) mod cap).
  { unfold i. rewrite Z.add_mod_idemp_l by lia. f_equal. lia. }
  assert (Hpast' : forall j', 0 <= j' < j + 1 ->
    status (cell ((s + j') mod cap)) <> EMPTY /\ ~ hit k ((s + j') mod cap)).
  { intros j' Hj'. destruct (decide (j' = j)) as [->|]; [done|]. apply Hpast. lia. }
  rewrite Hnext. destruct (Z.eqb_spec ((s + (j + 1)) mod cap) s) as [Ew|Ew].
  - assert (j + 1 = cap) as Hj1.
    { destruct (decide (j + 1 = cap)) as [|]; [done|].
      assert (s + (j + 1) = s); [|lia]. apply (mod_window cap); [lia|lia|].
      rewrite Ew. symmetry. by apply Z.mod_small. }
    rewrite Hj1 in Hpast'. eexists. split; [done|]. split.
    + eapply (absent_before k s cap); [done|done|lia|by intros; apply Hpast'|by left].
    + intros i' Hi'. pose proof (Z.mod_pos_bound (i' - s) cap ltac:(lia)).
      replace i' with ((s + (i' - s) mod cap) mod cap);
        [apply Hpast'; lia|]. rewrite Z.add_mod_idemp_r by lia. rewrite Z.mod_small; lia.
  - apply IH; [|lia|done|done].
    destruct (decide (j + 1 = cap)) as [Hj1|]; [|lia]. exfalso. apply Ew. rewrite Hj1.
    replace (s + cap) with (s + 1 * cap) by lia. rewrite Z.mod_add by lia. by apply Z.mod_small.
Qed.

Lemma find_entry_ok k fi : key_ok k -> exists r, find_entry h k fi = Some r /\ found k fi r.
Proof.
  intros Hk. destruct (hash_index_ok k Hk) as (s & Hs & Hr). unfold find_entry. rewrite Hs. cbn.
  pose proof table_cap.
  assert ((s + 0) mod cap = s) as E by (rewrite Z.add_0_r; by apply Z.mod_small).
  pose proof (probe_ok k fi s (probe_fuel h) 0 None) as Hp. rewrite E in Hp. apply Hp; [done|done|done|lia|unfold probe_fuel; lia| |done].
  intros j' Hj'. lia.
Qed.
End probing.

(** ** What a write to one slot does *)

Lemma path_mono h h' k i :
  hash_func h' = hash_func h -> capacity h' = capacity h ->
  (forall j, 0 <= j < capacity h -> status (slot (entries h') j) = EMPTY ->
     status (slot (entries h) j) = EMPTY) ->
  path_to h k i -> path_to h' k i.
Proof.
  intros Hf Hc Hst (s & Hs & Hr & Hp). exists s. unfold hash_index in *. rewrite Hf, Hc.
  split; [done|]. split; [done|]. intros j Hj He. apply (Hp j Hj), Hst; [|done].
  apply Z.mod_pos_bound. lia.
Qed.

(** The table with the entry of slot [i] replaced. *)
Definition with_slot (h : vox_htable) (i : Z) (e : vox_htable_entry) (n d : Z) : vox_htable :=
  with_entries h (<[Z.to_nat i := e]> (entries h)) n d.

Section update.
Context (h : vox_htable) (m : gmap (list Z) (Z * Z)) (Hok : table_ok h m).
#[local] Abbreviation cap := (capacity h).
#[local] Abbreviation cell i := (slot (entries h) i).

Lemma with_slot_cell i e n d j :
  0 <= i < cap -> 0 <= j ->
  slot (entries (with_slot h i e n d)) j = if decide (i = j) then e else cell j.
Proof. intros Hi Hj. cbn. apply slot_insert; [|done]. rewrite (to_cells _ _ Hok). lia. Qed.

Lemma with_slot_path i e n d k j :
  0 <= i < cap -> status e <> EMPTY -> path_to h k j -> path_to (with_slot h i e n d) k j.
Proof.
  intros Hi He. apply path_mono; [done|done|]. intros j' Hj'. rewrite with_slot_cell by lia.
  by case_decide.
Qed.

(** Occupying slot [i] with [k], absent from the table or already there. *)
Lemma table_put i k v a n d :
  key_ok k -> 0 <= i < cap -> path_to h k i ->
  (m !! k = None /\ ~ occupied (cell i) /\ n = size h + 1 \/ hit h k i /\ n = size h) ->
  0 <= d < 2 ^ 64 ->
  table_ok (with_slot h i (Entry OCCUPIED a k (zlen k) v) n d) (<[k := (a, v)]> m).
Proof.
  intros Hk Hi Hpath Hcase Hd. set (e := Entry OCCUPIED a k (zlen k) v).
  set (h' := with_slot h i e n d).
  assert (Hcell : forall j, 0 <= j < cap -> slot (entries h') j = if decide (i = j) then e else cell j)
    by (intros j Hj; apply with_slot_cell; lia).
  assert (Hother : forall j, 0 <= j < cap -> j <> i -> occupied (cell j) -> key (cell j) <> k).
  { intros j Hj Hne Ho Ek. destruct Hcase as [(Hm & _)|[[Hoi Hki] _]].
    - destruct (to_entry _ _ Hok j Hj Ho) as (_ & _ & Hx & _). rewrite Ek, Hm in Hx. done.
    - apply Hne. apply (to_uniq _ _ Hok); [done|done|done|done|congruence]. }
  constructor; [exact (to_funcs _ _ Hok)|exact (to_cap _ _ Hok)| |intros j Hj|intros k' a' v'|intros j Hj|intros j1 j2 Hj1 Hj2| |exact Hd].
  - cbn. rewrite zlen_insert. exact (to_cells _ _ Hok).
  - change (capacity h') with cap in Hj. rewrite Hcell by done. case_decide as E.
    + subst j. intros _. split; [done|]. split; [done|]. split; [by rewrite lookup_insert_eq|].
      by apply with_slot_path.
    + intros Ho. destruct (to_entry _ _ Hok j Hj Ho) as (Hke & Hl & Hm & Hp).
      split; [done|]. split; [done|]. split; [|by apply with_slot_path].
      rewrite lookup_insert_ne; [done|]. intros Ek. symmetry in Ek. by apply (Hother j).
  - change (capacity h') with cap. rewrite lookup_insert_Some. intros [[<- [= <- <-]]|[Hne Hm]].
    + exists i. rewrite Hcell, decide_True by done. done.
    + destruct (to_map _ _ Hok k' a' v' Hm) as (j & Hj & Ho & Hkj & Hv). exists j.
      split; [done|]. rewrite Hcell by done. rewrite decide_False; [done|]. intros <-.
      destruct Hcase as [(_ & Hno & _)|[[_ Hki] _]]; [done|congruence].
  - change (capacity h') with cap in Hj. rewrite Hcell by done. case_decide; [done|].
    by apply (to_vacant _ _ Hok).
  - change (capacity h') with cap in Hj1, Hj2. rewrite !Hcell by done.
    repeat case_decide; subst; try done; intros Ho1 Ho2 Ek; cbn in Ek.
    + exfalso. by apply (Hother j2).
    + exfalso. by apply (Hother j1).
    + by apply (to_uniq _ _ Hok).
  - cbn. destruct Hcase as [(Hm & _ & ->)|[[Ho Hki] ->]].
    + rewrite map_size_insert_None by done. rewrite (to_size _ _ Hok). lia.
    + destruct (to_entry _ _ Hok i Hi Ho) as (_ & _ & Hm & _). rewrite Hki in Hm.
      rewrite map_size_insert_Some by (rewrite Hm; done). exact (to_size _ _ Hok).
Qed.

(** Making a tombstone of the entry of [k]. *)
Lemma table_remove i k d :
  0 <= i < cap -> hit h k i -> 0 <= d < 2 ^ 64 ->
  table_ok (with_slot h i (Entry DELETED NULL [] 0 NULL) (size h - 1) d) (delete k m).
Proof.
  intros Hi [Ho Hki] Hd. set (e := Entry DELETED NULL [] 0 NULL).
  set (h' := with_slot h i e (size h - 1) d).
  assert (Hcell : forall j, 0 <= j < cap -> slot (entries h') j = if decide (i = j) then e else cell j)
    by (intros j Hj; apply with_slot_cell; lia).
  destruct (to_entry _ _ Hok i Hi Ho) as (_ & _ & Hmk & _). rewrite Hki in Hmk.
  constructor; [exact (to_funcs _ _ Hok)|exact (to_cap _ _ Hok)| |intros j Hj|intros k' a' v'|intros j Hj|intros j1 j2 Hj1 Hj2| |exact Hd].
  - cbn. rewrite zlen_insert. exact (to_cells _ _ Hok).
  - change (capacity h') with cap in Hj. rewrite Hcell by done. case_decide as E; [done|].
    intros Hoj. destruct (to_entry _ _ Hok j Hj Hoj) as (Hke & Hl & Hm & Hp).
    split; [done|]. split; [done|]. split; [|by apply with_slot_path].
    rewrite lookup_delete_ne; [done|]. intros Ek. apply E.
    apply (to_uniq _ _ Hok); [done|done|done|done|congruence].
  - change (capacity h') with cap. rewrite lookup_delete_Some. intros [Hne Hm].
    destruct (to_map _ _ Hok k' a' v' Hm) as (j & Hj & Hoj & Hkj & Hv). exists j.
    split; [done|]. rewrite Hcell by done. rewrite decide_False; [done|]. intros <-. congruence.
  - change (capacity h') with cap in Hj. rewrite Hcell by done. case_decide; [done|].
    by apply (to_vacant _ _ Hok).
  - change (capacity h') with cap in Hj1, Hj2. rewrite !Hcell by done.
    repeat case_decide; subst; try done. intros Ho1 Ho2 Ek. by apply (to_uniq _ _ Hok).
  - cbn. rewrite map_size_delete_Some by (rewrite Hmk; done). rewrite (to_size _ _ Hok).
    assert (base.size m <> 0%nat); [|lia]. intros E. apply map_size_empty_inv in E. subst m.
    by rewrite lookup_empty in Hmk.
Qed.
End update.

(** A table of empty slots. *)
Lemma table_empty h :
  funcs_ok (hash_func h) (key_cmp h) -> pow2 (capacity h) -> capacity h * sizeof_entry <= PTRDIFF_MAX ->
  zlen (entries h) = capacity h -> (forall i, 0 <= i < capacity h -> status (slot (entries h) i) = EMPTY /\
    key_at (slot (entries h) i) = NULL /\ value (slot (entries h) i) = NULL) ->
  size h = 0 -> 0 <= deleted_count h < 2 ^ 64 -> table_ok h ∅.
Proof.
  intros Hf Hp Hc Hz He Hs Hd.
  assert (Hno : forall i, 0 <= i < capacity h -> ~ occupied (slot (entries h) i)).
  { intros i Hi Ho. unfold occupied in Ho. destruct (He i Hi) as [Ee _]. congruence. }
  constructor; try done.
  - intros i Hi Ho. by destruct (Hno i Hi).
  - intros i Hi _. apply (He i Hi).
  - intros i j Hi Hj Ho. by destruct (Hno i Hi).
Qed.

(** ** Counting slots *)

Lemma keys_nodup (es : list vox_htable_entry) :
  (forall i j x y, es !! i = Some x -> es !! j = Some y -> occupied x -> occupied y ->
     key x = key y -> i = j) ->
  NoDup (key <$> filter occupied es).
Proof.
  induction es as [|e es IH]; intros Hu; [apply NoDup_nil_2|].
  assert (NoDup (key <$> filter occupied es)) as Hn.
  { apply IH. intros i j x y Hx Hy Ho1 Ho2 E. specialize (Hu (S i) (S j) x y Hx Hy Ho1 Ho2 E). lia. }
  rewrite filter_cons. case_decide as Ho; [|done]. rewrite fmap_cons. apply NoDup_cons. split; [|done].
  intros Hin. apply list_elem_of_fmap in Hin as (y & Ey & Hy). apply list_elem_of_filter in Hy as [Hoy Hy].
  apply list_elem_of_lookup in Hy as [j Hj]. specialize (Hu 0%nat (S j) e y eq_refl Hj Ho Hoy Ey). lia.
Qed.

(** The map of the occupied entries of a list. *)
Definition pairs (es : list vox_htable_entry) : list (list Z * (Z * Z)) :=
  (fun e => (key e, (key_at e, value e))) <$> filter occupied es.
Definition collect (es : list vox_htable_entry) : gmap (list Z) (Z * Z) := list_to_map (pairs es).

Lemma pairs_keys es : (pairs es).*1 = key <$> filter occupied es.
Proof. unfold pairs. rewrite <-list_fmap_compose. done. Qed.

Lemma slot_lookup es (i : nat) x : es !! i = Some x -> slot es (Z.of_nat i) = x.
Proof. intros Hx. unfold slot. by rewrite arr_get_lookup, Nat2Z.id, Hx by lia. Qed.

Lemma table_keys h m : table_ok h m -> NoDup (key <$> filter occupied (entries h)).
Proof.
  intros Hok. apply keys_nodup. intros i j x y Hx Hy Hox Hoy E.
  pose proof (lookup_lt_Some _ _ _ Hx). pose proof (lookup_lt_Some _ _ _ Hy).
  pose proof (to_cells _ _ Hok) as Hz. unfold zlen in Hz.
  apply Nat2Z.inj. apply (to_uniq _ _ Hok); [lia|lia|..];
    rewrite ?(slot_lookup _ i x Hx), ?(slot_lookup _ j y Hy); done.
Qed.

Lemma table_collect h m : table_ok h m -> collect (entries h) = m.
Proof.
  intros Hok. pose proof (table_keys h m Hok) as Hnd. pose proof (to_cells _ _ Hok) as Hz.
  apply map_eq. intros k. apply option_eq. intros [a v]. unfold collect.
  rewrite <-elem_of_list_to_map by (by rewrite pairs_keys). split.
  - intros Hin. unfold pairs in Hin. apply list_elem_of_fmap in Hin as (e & [= -> -> ->] & He).
    apply list_elem_of_filter in He as [Ho He]. apply list_elem_of_lookup in He as [i Hi].
    pose proof (lookup_lt_Some _ _ _ Hi). unfold zlen in Hz.
    pose proof (slot_lookup _ i e Hi) as Hs.
    destruct (to_entry _ _ Hok (Z.of_nat i)) as (_ & _ & Hm & _); [lia|by rewrite Hs|].
    by rewrite Hs in Hm.
  - intros Hm. destruct (to_map _ _ Hok k a v Hm) as (i & Hi & Ho & <- & <- & <-).
    unfold pairs. apply list_elem_of_fmap. exists (slot (entries h) i). split; [done|].
    apply list_elem_of_filter. split; [done|].
    pose proof (slot_get (entries h) i) as Hg. rewrite arr_get_lookup in Hg by lia.
    eapply list_elem_of_lookup_2. apply Hg. lia.
Qed.

Lemma table_count h m : table_ok h m -> length (filter occupied (entries h)) = base.size m.
Proof.
  intros Hok. rewrite <-(table_collect h m Hok) at 1. unfold collect.
  assert (NoDup (pairs (entries h)).*1) as Hn by (rewrite pairs_keys; by eapply table_keys).
  pose proof (Permutation_length (map_to_list_to_map (M := gmap (list Z)) _ Hn)) as Hl.
  rewrite length_map_to_list in Hl. rewrite Hl. unfold pairs. by rewrite length_fmap.
Qed.

(** ** Growth *)

(** No tombstones. *)
Definition clean (h : vox_htable) : Prop :=
  forall i, 0 <= i < capacity h -> status (slot (entries h) i) <> DELETED.

Lemma slot_of_lookup h i e :
  zlen (entries h) = capacity h -> entries h !! i = Some e ->
  0 <= Z.of_nat i < capacity h /\ slot (entries h) (Z.of_nat i) = e.
Proof.
  intros Hz Hi. pose proof (lookup_lt_Some _ _ _ Hi). unfold zlen in Hz.
  split; [lia|]. by apply slot_lookup.
Qed.

Lemma filter_all {A} (Q : A -> Prop) `{forall x, Decision (Q x)} (l : list A) :
  Forall Q l -> filter Q l = l.
Proof. induction 1 as [|x l Hx _ IH]; [done|]. by rewrite filter_cons, decide_True, IH. Qed.

(** A key of a clean table with room to spare always finds a slot. *)
Lemma find_entry_clean h m k fi :
  table_ok h m -> clean h -> key_ok k -> Z.of_nat (base.size m) < capacity h ->
  exists i, find_entry h k fi = Some (Some i) /\ found h m k fi (Some i).
Proof.
  intros Hok Hc Hk Hs. destruct (find_entry_ok h m Hok k fi Hk) as ([i|] & Hr & Hf); [by exists i|].
  exfalso. destruct Hf as [_ Hfull].
  assert (Forall occupied (entries h)) as Hall.
  { apply Forall_lookup. intros i e Hi.
    destruct (slot_of_lookup h i e (to_cells _ _ Hok) Hi) as [Hr' He].
    specialize (Hc _ Hr'). specialize (Hfull _ Hr'). rewrite He in Hc, Hfull. unfold occupied.
    by destruct (status e). }
  pose proof (table_count h m Hok) as Hl. rewrite (filter_all occupied) in Hl by done.
  pose proof (to_cells _ _ Hok). unfold zlen in *. lia.
Qed.

Lemma reinsert_ok old h m :
  table_ok h m -> clean h ->
  Forall (fun e => occupied e -> key_ok (key e) /\ key_len e = zlen (key e)) old ->
  NoDup (key <$> filter occupied old) ->
  (forall e, e ∈ old -> occupied e -> m !! key e = None) ->
  Z.of_nat (base.size m) + zlen (filter occupied old) <= capacity h ->
  exists h', reinsert h old = Some (h', true) /\ table_ok h' (collect old ∪ m) /\ clean h' /\
    h' = with_entries h (entries h') (size h') (deleted_count h).
Proof.
  revert h m. induction old as [|e old IH]; intros h m Hok Hc Hks Hnd Hfr Hroom.
  { exists h. split; [done|]. unfold collect. cbn. rewrite map_empty_union. by destruct h. }
  apply Forall_cons in Hks as [Hke Hks]. cbn [reinsert].
  assert (Hskip : forall e', e' ∈ old -> occupied e' -> m !! key e' = None)
    by (intros e' He'; apply Hfr; by right).
  unfold collect, pairs. rewrite filter_cons in *. destruct (decide (occupied e)) as [Ho|Ho].
  2:{ rewrite decide_False by done. by apply IH. }
  rewrite decide_True by done. rewrite fmap_cons in *. cbn [list_to_map foldr fst snd].
  rewrite zlen_cons in Hroom. pose proof (zlen_nonneg (filter occupied old)).
  apply NoDup_cons in Hnd as [Hni Hnd].
  destruct (Hke Ho) as [Hk Hl]. assert (m !! key e = None) as Hm by (apply Hfr; [by left|done]).
  destruct (find_entry_clean h m (key e) true Hok Hc Hk ltac:(lia)) as (i & -> & Hi & Hcase).
  cbn [mbind option_bind]. rewrite arr_set_ok by (rewrite (to_cells _ _ Hok); lia).
  cbn [mbind option_bind]. rewrite Hl.
  fold (with_slot h i (Entry OCCUPIED (key_at e) (key e) (zlen (key e)) (value e)) (size h + 1)
          (deleted_count h)).
  destruct Hcase as [[_ Hx]|(_ & Hpath & Hst)]; [congruence|].
  assert (~ occupied (slot (entries h) i)) as Hno.
  { unfold occupied. destruct Hst as [->|[_ ->]]; done. }
  pose proof (table_put h m Hok i (key e) (value e) (key_at e) (size h + 1) (deleted_count h) Hk Hi
    Hpath (or_introl (conj Hm (conj Hno eq_refl))) (to_deleted _ _ Hok)) as Hok'.
  set (h1 := with_slot _ _ _ _ _) in *.
  destruct (IH h1 (<[key e := (key_at e, value e)]> m) Hok') as (h' & Hr & Hok2 & Hc2 & E2);
    [|done|done| |rewrite map_size_insert_None by done; change (capacity h1) with (capacity h); lia|].
  - intros j Hj. unfold h1. change (capacity h1) with (capacity h) in Hj.
    rewrite (with_slot_cell h m Hok) by lia. case_decide; [done|]. by apply Hc.
  - intros e' He' Ho'. rewrite lookup_insert_ne; [by apply Hskip|]. intros E. apply Hni.
    rewrite E. apply list_elem_of_fmap_2, list_elem_of_filter. done.
  - exists h'. split; [done|]. split; [|split; [done|]].
    + assert (list_to_map (M := gmap (list Z) (Z * Z)) (pairs old) !! key e = None) as Hn.
      { apply not_elem_of_list_to_map_1. by rewrite pairs_keys. }
      change ((fun e0 => (key e0, (key_at e0, value e0))) <$> filter occupied old) with (pairs old).
      rewrite <-insert_union_l, insert_union_r by exact Hn. exact Hok2.
    + rewrite E2 at 1. done.
Qed.

Lemma clean_fill a n : 0 <= n -> zlen (A := vox_htable_entry) a = n ->
  arr_fill a 0 n no_entry = Some (replicate (Z.to_nat n) no_entry).
Proof.
  intros Hn Ha. unfold arr_fill. rewrite arr_blit_ok by zlia. f_equal.
  rewrite Z.add_0_l, (drop_ge a) by zlia. change (Z.to_nat 0) with 0%nat.
  rewrite drop_0, take_0, app_nil_r, firstn_all2 by (rewrite length_replicate; lia). done.
Qed.

Lemma slot_blank n i : slot (replicate n no_entry) i = no_entry.
Proof.
  unfold slot, arr_get. case_decide; [|done].
  destruct (replicate n no_entry !! Z.to_nat i) as [e|] eqn:E; [|done].
  by apply lookup_replicate in E as [-> _].
Qed.

Lemma table_keys_ok h m :
  table_ok h m -> Forall (fun e => occupied e -> key_ok (key e) /\ key_len e = zlen (key e)) (entries h).
Proof.
  intros Hok. apply Forall_lookup. intros i e Hi Ho.
  destruct (slot_of_lookup h i e (to_cells _ _ Hok) Hi) as [Hr He].
  destruct (to_entry _ _ Hok _ Hr) as (? & ? & _); rewrite He in *; done.
Qed.

(** The addresses of the copies of the keys. *)
Definition copies (m : gmap (list Z) (Z * Z)) : list Z := (fun kv => kv.2.1) <$> map_to_list m.

Section growth.
Context {P : Type} `{MPoolLaws P} (junk : vox_htable_entry).
Implicit Types (p : P) (h : vox_htable).

(** Since [p0] the pool gave the table its two blocks, the copies of the keys of [m],
    and the copies [R] of the keys that have left the table. *)
Record htable_ok p0 p h (R : list Z) (m : gmap (list Z) (Z * Z)) : Prop := {
  ho_took : took p0 p (self h :: entries_at h :: R ++ copies m);
  ho_table : table_ok h m;
  ho_factor : valid_factor (load_factor_threshold h) = true;
}.

Lemma htable_size h m : table_ok h m -> 0 <= size h <= capacity h.
Proof.
  intros Hok. rewrite (to_size _ _ Hok), <-(table_count h m Hok).
  pose proof (length_filter occupied (entries h)). pose proof (to_cells _ _ Hok). unfold zlen in *. lia.
Qed.

(** What the operations never change. *)
Definition same_config h h' : Prop :=
  self h' = self h /\ key_free h' = key_free h /\ value_free h' = value_free h /\
  load_factor_threshold h' = load_factor_threshold h.

Lemma resize_ok p0 p h R m n :
  htable_ok p0 p h R m -> pow2 n -> capacity h <= n < 2 ^ 59 ->
  exists p' h' rc, vox_htable_resize junk p h n = Some (p', h', rc) /\ htable_ok p0 p' h' R m /\
    same_config h h' /\
    ((rc = 0 /\ clean h' /\ deleted_count h' = 0 /\ capacity h' = n) \/
     (rc = -1 /\ h' = h /\ mp_alloc p (n * sizeof_entry) = (p', NULL))).
Proof.
  intros [Htook Hok Hfac] Hn Hcap. pose proof (table_cap h m Hok) as Hc. pose proof (tk_inv _ _ _ Htook) as Hp.
  pose proof (pow2_pos n Hn) as Hn'. pose proof (htable_size h m Hok) as Hsz.
  assert (u64 (n * sizeof_entry) = n * sizeof_entry) as Hu by (apply u64_small; unfold sizeof_entry; lia).
  unfold vox_htable_resize. rewrite (proj2 (Z.ltb_ge n (size h))), (proj2 (Z.ltb_ge n (capacity h))) by lia.
  destruct (alloc_cells junk p n sizeof_entry) as [[p1 a] cells] eqn:Ea.
  destruct (took_cells junk p p1 n sizeof_entry a cells Hp Ea) as [(-> & Ht)|(Ha & Ht & Hcells)].
  { cbn. exists p1, h, (-1). split; [done|]. split; [|split; [done|right; split_and!; try done]].
    - constructor; [exact (took_app _ _ _ _ _ Htook Ht)|done|done].
    - rewrite <-Hu. by eapply alloc_cells_refused. }
  assert (n * sizeof_entry <= PTRDIFF_MAX /\ zlen cells = n) as [Hmax Hlen].
  { destruct (alloc_cells_spec junk p n sizeof_entry p1 a cells Hp) as (_ & _ & Hx);
      [done|lia|unfold sizeof_entry; lia|done|]. by destruct (Hx Ha). }
  rewrite (proj2 (Z.eqb_neq a NULL)) by done. rewrite (clean_fill cells n) by lia.
  cbn [mbind option_bind].
  set (fresh := with_table h a (replicate (Z.to_nat n) no_entry) n 0 0).
  assert (table_ok fresh ∅) as Hf.
  { apply table_empty; try done; [exact (to_funcs _ _ Hok)|cbn; zlia|].
    intros i _. cbn. by rewrite slot_blank. }
  pose proof (table_count h m Hok) as Hcnt. pose proof (to_size _ _ Hok).
  destruct (reinsert_ok (entries h) fresh ∅ Hf) as (h' & -> & Hok' & Hc' & Eh).
  { intros i _. change (entries fresh) with (replicate (Z.to_nat n) no_entry). by rewrite slot_blank. }
  { by eapply table_keys_ok. } { by eapply table_keys. } { done. }
  { rewrite map_size_empty. change (capacity fresh) with n. unfold zlen. lia. }
  rewrite (table_collect h m Hok), map_union_empty in Hok'. cbn [mbind option_bind].
  assert (self h' = self h /\ entries_at h' = a /\ capacity h' = n /\ deleted_count h' = 0 /\
    key_free h' = key_free h /\ value_free h' = value_free h /\
    load_factor_threshold h' = load_factor_threshold h) as (Es & Ee & Ec & Ed & Ek & Ev & El)
    by (rewrite Eh; done).
  exists (mp_free p1 (entries_at h)), h', 0.
  split; [done|]. split; [|by split; [|left]].
  constructor; [|done|by rewrite El]. rewrite Es, Ee. apply took_free.
  refine (took_perm _ _ _ _ (took_app _ _ _ _ _ Htook Ht) _). cbn. solve_Permutation.
Qed.
End growth.

(** ** Tombstones and room *)

Definition is_status (s : entry_status) (e : vox_htable_entry) : Prop := status e = s.
#[export] Instance is_status_dec s e : Decision (is_status s e).
Proof. unfold is_status. apply _. Defined.
#[global] Typeclasses Opaque is_status.

(** [deleted_count] counts the tombstones. *)
Definition counts_ok (h : vox_htable) : Prop :=
  deleted_count h = zlen (filter (is_status DELETED) (entries h)).

Lemma count_statuses es :
  zlen (filter occupied es) + zlen (filter (is_status DELETED) es) + zlen (filter (is_status EMPTY) es)
  = zlen es.
Proof.
  induction es as [|e es IH]; [done|]. rewrite !filter_cons.
  assert (occupied e <-> status e = OCCUPIED) as E1 by done.
  assert (forall s, is_status s e <-> status e = s) as E2 by done.
  pose proof (E2 EMPTY). pose proof (E2 DELETED). clear E2.
  destruct (status e); repeat case_decide; zlen_simpl; (lia || exfalso; intuition congruence).
Qed.

Lemma count_insert {A} (Q : A -> Prop) `{forall x, Decision (Q x)} (l : list A) i x y :
  l !! i = Some y ->
  zlen (filter Q (<[i := x]> l)) + (if decide (Q y) then 1 else 0)
  = zlen (filter Q l) + (if decide (Q x) then 1 else 0).
Proof.
  revert i. induction l as [|z l IH]; intros [|i]; try done.
  - intros [= ->]. change (<[0%nat := x]> (y :: l)) with (x :: l). rewrite !filter_cons. repeat case_decide; zlen_simpl; lia.
  - intros Hy. change (<[S i := x]> (z :: l)) with (z :: <[i := x]> l). rewrite !filter_cons. specialize (IH i Hy).
    destruct (decide (Q z)); zlen_simpl; lia.
Qed.

Lemma count_slot h m i e n d s :
  table_ok h m -> 0 <= i < capacity h ->
  zlen (filter (is_status s) (entries (with_slot h i e n d)))
  + (if decide (status (slot (entries h) i) = s) then 1 else 0)
  = zlen (filter (is_status s) (entries h)) + (if decide (status e = s) then 1 else 0).
Proof.
  intros Hok Hi. pose proof (slot_get (entries h) i) as Hg.
  rewrite arr_get_lookup in Hg by lia. rewrite <-(to_cells _ _ Hok) in Hi.
  pose proof (count_insert (is_status s) (entries h) (Z.to_nat i) e _ (Hg Hi)) as Hc.
  cbn. assert (forall e', is_status s e' <-> status e' = s) as E by done.
  pose proof (E e). pose proof (E (slot (entries h) i)). clear E. repeat case_decide; (lia || tauto).
Qed.

Lemma counts_clean h m : table_ok h m -> clean h -> deleted_count h = 0 -> counts_ok h.
Proof.
  intros Hok Hc Hd. unfold counts_ok. rewrite Hd. symmetry.
  destruct (filter (is_status DELETED) (entries h)) as [|e l] eqn:E; [done|exfalso].
  assert (e ∈ filter (is_status DELETED) (entries h)) as Hin by (rewrite E; by left).
  apply list_elem_of_filter in Hin as [Hs Hin]. apply list_elem_of_lookup in Hin as [i Hi].
  destruct (slot_of_lookup h i e (to_cells _ _ Hok) Hi) as [Hr He]. apply (Hc _ Hr). by rewrite He.
Qed.

(** Fewer entries and tombstones than slots leave an empty slot. *)
Definition roomy (h : vox_htable) : Prop :=
  exists i, 0 <= i < capacity h /\ status (slot (entries h) i) = EMPTY.

Lemma roomy_count h m :
  table_ok h m -> size h + zlen (filter (is_status DELETED) (entries h)) < capacity h -> roomy h.
Proof.
  intros Hok Hlt. pose proof (count_statuses (entries h)) as Hsum.
  pose proof (table_count h m Hok) as Hcnt. pose proof (to_cells _ _ Hok) as Hz.
  pose proof (to_size _ _ Hok) as Hs. unfold zlen at 1 in Hsum. rewrite Hcnt in Hsum.
  destruct (filter (is_status EMPTY) (entries h)) as [|e l] eqn:E.
  { change (zlen (A := vox_htable_entry) []) with 0 in Hsum. lia. }
  assert (e ∈ filter (is_status EMPTY) (entries h)) as Hin by (rewrite E; by left).
  apply list_elem_of_filter in Hin as [He Hin]. apply list_elem_of_lookup in Hin as [i Hi].
  destruct (slot_of_lookup h i e Hz Hi) as [Hr Hslot]. exists (Z.of_nat i). split; [done|]. by rewrite Hslot.
Qed.

(** A table below its load factor has an empty slot. *)
Lemma roomy_factor h m :
  table_ok h m -> valid_factor (load_factor_threshold h) = true -> counts_ok h ->
  needs_resize h = false -> roomy h.
Proof.
  intros Hok Hv Hc Hn. pose proof (table_cap h m Hok) as Hcap. pose proof (count_statuses (entries h)) as Hsum.
  pose proof (table_count h m Hok) as Hcnt. pose proof (to_cells _ _ Hok) as Hz.
  pose proof (to_size _ _ Hok) as Hs. unfold zlen at 1 in Hsum. rewrite Hcnt in Hsum.
  pose proof (zlen_nonneg (filter (is_status DELETED) (entries h))).
  pose proof (zlen_nonneg (filter (is_status EMPTY) (entries h))).
  unfold valid_factor in Hv. apply andb_true_iff in Hv as [Hv1%Z.ltb_lt Hv2%Z.leb_le].
  unfold needs_resize in Hn. rewrite (proj2 (Z.eqb_neq (capacity h) 0)) in Hn by lia.
  rewrite Hc, u64_small in Hn by lia. apply Z.leb_gt in Hn.
  apply (roomy_count h m Hok). nia.
Qed.

Lemma copies_insert m k a v : m !! k = None -> copies (<[k := (a, v)]> m) ≡ₚ a :: copies m.
Proof. intros Hm. unfold copies. by rewrite map_to_list_insert. Qed.

Lemma copies_delete m k a v : m !! k = Some (a, v) -> copies m ≡ₚ a :: copies (delete k m).
Proof. intros Hm. unfold copies. by rewrite <-(map_to_list_delete m k (a, v)). Qed.

Lemma copies_update m k a v v' : m !! k = Some (a, v) -> copies (<[k := (a, v')]> m) ≡ₚ copies m.
Proof.
  intros Hm. rewrite (copies_delete _ k a v') by (by rewrite lookup_insert_eq).
  rewrite delete_insert_eq. by rewrite <-(copies_delete m k a v).
Qed.

Lemma pow2_double c : pow2 c -> c < 2 ^ 58 -> pow2 (c * 2).
Proof.
  intros (k & Hk & ->) Hc. apply Z.pow_lt_mono_r_iff in Hc; [|lia|lia].
  exists (k + 1). split; [lia|]. rewrite Z.pow_add_r by lia. lia.
Qed.

Lemma table_deleted h m d :
  table_ok h m -> 0 <= d < 2 ^ 64 -> table_ok (with_entries h (entries h) (size h) d) m.
Proof. intros [] Hd. by constructor. Qed.

Section storing.
Context {P : Type} `{MPoolLaws P} (junk : vox_htable_entry).
Implicit Types (p : P) (h : vox_htable).

Definition refused p' : Prop := exists p n, mp_alloc p n = (p', NULL).

Lemma grow_ok p0 p h R m :
  htable_ok p0 p h R m ->
  exists p' h' rc,
    (if needs_resize h then vox_htable_resize junk p h (u64 (capacity h * 2)) else Some (p, h, 0))
    = Some (p', h', rc) /\ htable_ok p0 p' h' R m /\ same_config h h' /\
    ((rc = 0 /\ (counts_ok h -> counts_ok h' /\ roomy h')) \/
     (rc = -1 /\ h' = h /\ refused p')).
Proof.
  intros Hh. pose proof (ho_table _ _ _ _ _ Hh) as Hok. pose proof (table_cap h m Hok) as Hc.
  destruct (needs_resize h) eqn:Hn.
  - rewrite u64_small by lia.
    destruct (resize_ok junk p0 p h R m (capacity h * 2) Hh) as (p' & h' & rc & E & Hh' & Hsame & Hcase);
      [apply pow2_double; [apply (to_cap _ _ Hok)|lia]|lia|].
    exists p', h', rc. split; [done|]. split; [done|]. split; [done|].
    destruct Hcase as [(-> & Hcl & Hd & Hcap)|(-> & -> & Hr)]; [left|right].
    + split; [done|]. intros _. pose proof (ho_table _ _ _ _ _ Hh') as Hok'.
      pose proof (counts_clean h' m Hok' Hcl Hd) as Hcnt. split; [done|].
      apply (roomy_count h' m Hok'). rewrite <-Hcnt, Hd, Hcap, (to_size _ _ Hok'), <-(to_size _ _ Hok).
      pose proof (htable_size h m Hok). lia.
    + split; [done|]. split; [done|]. by eexists _, _.
  - exists p, h, 0. split; [done|]. split; [done|]. split; [done|]. left. split; [done|].
    intros Hcnt. split; [done|]. eapply roomy_factor; try done. apply Hh.
Qed.

Definition freed_value h (v : Z) : list freed :=
  if value_free h && negb (v =? NULL) then [FreeValue v] else [].
Definition freed_key h (a : Z) : list freed :=
  if key_free h && negb (a =? NULL) then [FreeKey a] else [].

(** The value a set replaces. *)
Definition replaced h (old : option (Z * Z)) : list freed :=
  match old with Some (_, v) => freed_value h v | None => [] end.

Lemma free_vacant h m i :
  table_ok h m -> 0 <= i < capacity h -> ~ occupied (slot (entries h) i) ->
  free_entry h (slot (entries h) i) = [].
Proof.
  intros Hok Hi Ho. unfold free_entry. destruct (to_vacant _ _ Hok i Hi Ho) as [-> ->].
  by rewrite !andb_false_r.
Qed.

(** Writing the entry of an absent key, or the new value of a present one. *)
Lemma put_ok p0 p p' h R m k v a i n d :
  htable_ok p0 p h R m -> key_ok k -> 0 <= i < capacity h -> path_to h k i -> 0 <= d < 2 ^ 64 ->
  (m !! k = None /\ ~ occupied (slot (entries h) i) /\ n = size h + 1 /\ took p p' [a] \/
   hit h k i /\ n = size h /\ p' = p /\ a = key_at (slot (entries h) i)) ->
  htable_ok p0 p' (with_slot h i (Entry OCCUPIED a k (zlen k) v) n d) R (<[k := (a, v)]> m).
Proof.
  intros [Ht Hok Hfac] Hk Hi Hpath Hd Hcase. constructor; [| |done].
  - cbn. destruct Hcase as [(Hm & _ & _ & Ht')|([Ho Hke] & _ & -> & ->)].
    + refine (took_perm _ _ _ _ (took_app _ _ _ _ _ Ht Ht') _). rewrite (copies_insert m k a v Hm).
      solve_Permutation.
    + destruct (to_entry _ _ Hok i Hi Ho) as (_ & _ & Hm & _). rewrite Hke in Hm.
      by rewrite (copies_update m k _ _ v Hm).
  - apply table_put; try done. tauto.
Qed.

Lemma set_ok p0 p h R m k v :
  htable_ok p0 p h R m -> key_ok k ->
  exists p' h' rc out, vox_htable_set junk p h k v = Some (p', h', rc, out) /\ same_config h h' /\
    ((rc = 0 /\ out = replaced h (m !! k) /\ (counts_ok h -> counts_ok h') /\
      exists a, htable_ok p0 p' h' R (<[k := (a, v)]> m) /\ (forall b w, m !! k = Some (b, w) -> a = b)) \/
     (rc = -1 /\ out = [] /\ htable_ok p0 p' h' R m /\ (counts_ok h -> refused p'))).
Proof.
  intros Hh Hk. pose proof Hk as [_ Hlen]. unfold vox_htable_set. rewrite (proj2 (Z.eqb_neq (zlen k) 0)) by lia.
  destruct (grow_ok p0 p h R m Hh) as (p1 & h1 & rc & -> & Hh1 & (Es & Ek & Ev & El) & Hcase).
  cbn [mbind option_bind]. destruct Hcase as [(-> & Hroom)|(-> & -> & Href)].
  2:{ cbn. eexists _, _, _, _. split; [done|]. split; [done|]. right. by split_and!. }
  change (negb (0 =? 0)) with false. cbn match.
  pose proof (ho_table _ _ _ _ _ Hh1) as Hok. pose proof (ho_took _ _ _ _ _ Hh1) as Ht.
  pose proof (ho_factor _ _ _ _ _ Hh1) as Hfac.
  destruct (find_entry_ok h1 m Hok k true Hk) as ([i|] & -> & Hf); cbn [mbind option_bind].
  2:{ eexists _, _, _, _. split; [done|]. split; [done|]. right. split_and!; try done.
      intros Hc. destruct (Hroom Hc) as [_ (i & Hi & He)]. destruct Hf as [_ Hf]. by destruct (Hf i Hi). }
  destruct Hf as [Hi Hf]. assert (0 <= i < zlen (entries h1)) as Hiz by (rewrite (to_cells _ _ Hok); lia).
  rewrite slot_get by done. cbn [mbind option_bind].
  pose proof (count_slot h1 m i) as Hcount.
  destruct Hf as [[[Ho Hke] Hm]|(Hm & Hpath & Hst)].
  - rewrite decide_True by done. rewrite arr_set_ok by done. cbn [mbind option_bind].
    destruct (to_entry _ _ Hok i Hi Ho) as (_ & Hl & _ & Hpath). rewrite Hke in Hpath, Hl. rewrite Hke, Hl.
    eexists _, _, _, _. split; [done|]. split; [done|]. left. split; [done|].
    rewrite Hm. split; [cbn; unfold freed_value; by rewrite Ev|]. split.
    + intros Hc. destruct (Hroom Hc) as [Hc1 _]. unfold counts_ok in *. cbn.
      specialize (Hcount (Entry OCCUPIED (key_at (slot (entries h1) i)) k (zlen k) v) (size h1)
        (deleted_count h1) DELETED Hok Hi). cbn in Hcount. rewrite Ho in Hcount. cbn in Hcount.
      rewrite Hc1. cbn. lia.
    + exists (key_at (slot (entries h1) i)). split; [|by intros b w [= <- _]].
      eapply (put_ok p0 p1); try done; [apply (to_deleted _ _ Hok)|]. right. by split_and!.
  - assert (~ occupied (slot (entries h1) i)) as Hno.
    { unfold occupied. destruct Hst as [->|[_ ->]]; done. }
    rewrite decide_False by done. pose proof (free_vacant h1 m i Hok Hi Hno) as Hfree.
    set (d := if decide (status (slot (entries h1) i) = DELETED) then u64 (deleted_count h1 - 1)
              else deleted_count h1).
    assert (0 <= d < 2 ^ 64) as Hd.
    { unfold d. case_decide; [apply u64_range|apply (to_deleted _ _ Hok)]. }
    replace (if decide (status (slot (entries h1) i) = DELETED) then _ else _)
      with (with_entries h1 (entries h1) (size h1) d, @nil freed)
      by (rewrite Hfree; unfold d; case_decide; [done|by destruct h1]).
    cbn beta match. destruct (mp_alloc p1 (zlen k)) as [p2 a] eqn:Ea.
    assert (mp_inv p1) as Hp1 by apply (tk_inv _ _ _ Ht).
    destruct (Z.eqb_spec a NULL) as [->|Ha].
    + eexists _, _, _, _. split; [done|]. split; [done|]. right. split; [done|]. split; [done|].
      split; [|intros _; by eexists _, _]. constructor; [|by apply table_deleted|done].
      refine (took_app _ _ _ _ [] Ht _). eapply took_refused; [done| |done]. lia.
    + cbn [entries with_entries]. rewrite arr_set_ok by done. cbn [mbind option_bind].
      eexists _, _, _, _. split; [done|]. split; [done|]. left. rewrite Hm.
      split; [done|]. split; [done|]. split.
      * intros Hc. destruct (Hroom Hc) as [Hc1 _]. unfold counts_ok in *. cbn.
        specialize (Hcount (Entry OCCUPIED a k (zlen k) v) (size h1) d DELETED Hok Hi). cbn in Hcount.
        pose proof (zlen_nonneg (filter (is_status DELETED)
          (<[Z.to_nat i := Entry OCCUPIED a k (zlen k) v]> (entries h1)))).
        pose proof (to_deleted _ _ Hok). unfold d.
        rewrite (decide_False (P := OCCUPIED = DELETED)) in Hcount by done.
        destruct (decide (status (slot (entries h1) i) = DELETED)); [|lia]. rewrite u64_small; lia.
      * exists a. split; [|done]. eapply (put_ok p0 p1 p2 h1); try done. left. split_and!; try done.
        eapply took_alloc; [done| |done|done]. lia.
Qed.
End storing.

(** ** The other operations *)

Section reading.
Context (h : vox_htable) (m : gmap (list Z) (Z * Z)) (Hok : table_ok h m).

Definition value_of (o : option (Z * Z)) : Z := match o with Some (_, v) => v | None => NULL end.

Lemma no_empty_key k : zlen k = 0 -> m !! k = None.
Proof.
  intros Hz. destruct (m !! k) as [[a v]|] eqn:E; [exfalso|done].
  destruct (to_map _ _ Hok k a v E) as (i & Hi & Ho & Ek & _).
  destruct (to_entry _ _ Hok i Hi Ho) as ([_ Hlen] & _). rewrite Ek in Hlen. lia.
Qed.

Lemma get_ok k : is_bytes k -> zlen k < 2 ^ 63 -> vox_htable_get h k = Some (value_of (m !! k)).
Proof.
  intros Hb Hz. unfold vox_htable_get. destruct (Z.eqb_spec (zlen k) 0) as [E|E].
  { by rewrite (no_empty_key k E). }
  assert (key_ok k) as Hk by (split; [done|]; pose proof (zlen_nonneg k); lia).
  destruct (find_entry_ok h m Hok k false Hk) as ([i|] & -> & Hf); cbn [mbind option_bind].
  - destruct Hf as [Hi Hf]. rewrite slot_get by (rewrite (to_cells _ _ Hok); lia). cbn [mbind option_bind].
    destruct Hf as [[[Ho _] ->]|(-> & _ & [He|[? _]])]; [by rewrite decide_True| |done].
    rewrite decide_False; [done|]. by rewrite He.
  - by destruct Hf as [-> _].
Qed.

Lemma walk_from (es : list vox_htable_entry) i n :
  (i + n)%nat = length es -> walk_entries es (Z.of_nat i) n = Some (drop i es).
Proof.
  revert i. induction n as [|n IH]; intros i Hl; cbn [walk_entries].
  - by rewrite drop_ge by lia.
  - rewrite arr_get_lookup by lia. rewrite Nat2Z.id.
    destruct (es !! i) as [e|] eqn:E; [|apply lookup_ge_None in E; lia]. cbn [mbind option_bind].
    replace (Z.of_nat i + 1) with (Z.of_nat (S i)) by lia. rewrite IH by lia. cbn [mbind option_bind].
    by rewrite (drop_S _ _ _ E).
Qed.

Lemma walk_all : walk_entries (entries h) 0 (Z.to_nat (capacity h)) = Some (entries h).
Proof. rewrite <-(to_cells _ _ Hok). unfold zlen. rewrite Nat2Z.id. by apply (walk_from _ 0). Qed.

Lemma pairs_perm : pairs (entries h) ≡ₚ map_to_list m.
Proof.
  rewrite <-(table_collect h m Hok). unfold collect. rewrite map_to_list_to_map; [done|].
  rewrite pairs_keys. by eapply table_keys.
Qed.

Lemma bind_filter {A B} (Q : A -> Prop) `{forall x, Decision (Q x)} (f : A -> list B) (l : list A) :
  (x ← l; if decide (Q x) then f x else []) = x ← filter Q l; f x.
Proof.
  induction l as [|x l IH]; [done|]. rewrite filter_cons. cbn. rewrite IH. by case_decide.
Qed.

(** The calls of the free functions for a table that holds [m]. *)
Definition freed_pair (kv : list Z * (Z * Z)) : list freed := freed_key h kv.2.1 ++ freed_value h kv.2.2.
Definition free_all : list freed := x ← map_to_list m; freed_pair x.

Lemma free_occupied : (e ← entries h; if decide (occupied e) then free_entry h e else []) ≡ₚ free_all.
Proof.
  rewrite bind_filter. unfold free_all. rewrite <-pairs_perm. unfold pairs.
  rewrite list_fmap_bind. done.
Qed.
End reading.

Lemma blit_all {A} (dst src : list A) n :
  zlen dst = n -> zlen src = n -> arr_blit dst 0 src 0 n = Some src.
Proof.
  intros Hd Hs. pose proof (zlen_nonneg dst). rewrite arr_blit_ok by lia. f_equal.
  change (Z.to_nat 0) with 0%nat. rewrite take_0, drop_0, (drop_ge dst), app_nil_r by zlia.
  cbn. apply firstn_all2. zlia.
Qed.

Section operating.
Context {P : Type} `{MPoolLaws P} (junk : vox_htable_entry).
Implicit Types (p : P) (h : vox_htable).

Lemma delete_ok p0 p h R m k :
  htable_ok p0 p h R m -> is_bytes k -> zlen k < 2 ^ 63 ->
  match m !! k with
  | None => vox_htable_delete h k = Some (h, -1, [])
  | Some (a, v) => exists h', vox_htable_delete h k = Some (h', 0, freed_key h a ++ freed_value h v) /\
      htable_ok p0 p h' (a :: R) (delete k m) /\ same_config h h' /\ (counts_ok h -> counts_ok h')
  end.
Proof.
  intros [Ht Hok Hfac] Hb Hz. unfold vox_htable_delete. destruct (Z.eqb_spec (zlen k) 0) as [E|E].
  { by rewrite (no_empty_key h m Hok k E). }
  assert (key_ok k) as Hk by (split; [done|]; pose proof (zlen_nonneg k); lia).
  destruct (find_entry_ok h m Hok k false Hk) as ([i|] & -> & Hf); cbn [mbind option_bind].
  2:{ by destruct Hf as [-> _]. }
  destruct Hf as [Hi Hf]. rewrite slot_get by (rewrite (to_cells _ _ Hok); lia). cbn [mbind option_bind].
  destruct Hf as [[[Ho Hke] Hm]|(-> & _ & [He|[? _]])]; [rewrite Hm| |done].
  2:{ rewrite decide_True; [done|]. by rewrite He. }
  rewrite decide_False by (intros Hx; by apply Hx).
  rewrite arr_set_ok by (rewrite (to_cells _ _ Hok); lia). cbn [mbind option_bind].
  pose proof (table_remove h m Hok i k (u64 (deleted_count h + 1)) Hi (conj Ho Hke) (u64_range _)) as Hok'.
  eexists. split; [reflexivity|]. split; [|split; [done|]].
  - constructor; [|exact Hok'|done]. cbn. rewrite (copies_delete m k _ _ Hm) in Ht.
    refine (took_perm _ _ _ _ Ht _). solve_Permutation.
  - pose proof (count_slot h m i (Entry DELETED NULL [] 0 NULL) (size h - 1) (u64 (deleted_count h + 1))
      DELETED Hok Hi) as Hcount.
    rewrite (decide_True (P := status (Entry DELETED NULL [] 0 NULL) = DELETED)) in Hcount by done.
    rewrite (decide_False (P := status (slot (entries h) i) = DELETED)) in Hcount by (by rewrite Ho).
    intros Hc. unfold counts_ok in *. cbn [deleted_count with_entries].
    pose proof (table_cap h m Hok). pose proof (count_statuses (entries h)).
    pose proof (to_cells _ _ Hok). pose proof (zlen_nonneg (filter occupied (entries h))).
    pose proof (zlen_nonneg (filter (is_status EMPTY) (entries h))).
    unfold with_slot in Hcount. cbn [entries with_entries] in Hcount |- *. pose proof (zlen_nonneg (filter (is_status DELETED) (entries h))).
    rewrite u64_small; lia.
Qed.

Lemma clear_ok p0 p h R m :
  htable_ok p0 p h R m ->
  exists h' out, vox_htable_clear h = Some (h', out) /\ out ≡ₚ free_all h m /\
    htable_ok p0 p h' (copies m ++ R) ∅ /\ same_config h h' /\ counts_ok h'.
Proof.
  intros [Ht Hok Hfac]. unfold vox_htable_clear. rewrite (walk_all h m Hok). cbn [mbind option_bind].
  rewrite blit_all by (unfold zlen; rewrite ?length_fmap; apply (to_cells _ _ Hok)).
  cbn [mbind option_bind].
  assert (Hslot : forall i, 0 <= i < capacity h ->
    slot (cleared <$> entries h) i = cleared (slot (entries h) i)).
  { intros i Hi. unfold slot. rewrite !arr_get_lookup, list_lookup_fmap by lia.
    by destruct (entries h !! Z.to_nat i). }
  assert (Hempty : forall i, 0 <= i < capacity h -> status (slot (cleared <$> entries h) i) = EMPTY /\
    key_at (slot (cleared <$> entries h) i) = NULL /\ value (slot (cleared <$> entries h) i) = NULL).
  { intros i Hi. rewrite Hslot by done. unfold cleared. case_decide as E; [|done].
    split; [done|]. apply (to_vacant _ _ Hok i Hi). unfold occupied. by rewrite E. }
  assert (table_ok (with_entries h (cleared <$> entries h) 0 0) ∅) as Hok'.
  { apply table_empty; [apply (to_funcs _ _ Hok)|apply (to_cap _ _ Hok)..| |done|done|done].
    unfold zlen. cbn. rewrite length_fmap. apply (to_cells _ _ Hok). }
  eexists _, _. split; [reflexivity|]. split; [by apply free_occupied|].
  split; [|split; [done|]].
  - constructor; [|exact Hok'|done]. cbn. refine (took_perm _ _ _ _ Ht _).
    unfold copies at 3. rewrite map_to_list_empty. cbn. solve_Permutation.
  - eapply counts_clean; [exact Hok'| |done]. intros i Hi. cbn. destruct (Hempty i Hi) as [-> _]. done.
Qed.

Lemma ht_destroy_ok p0 p h R m :
  htable_ok p0 p h R m ->
  exists p' out, vox_htable_destroy p h = Some (p', out) /\ out ≡ₚ free_all h m /\
    took p0 p' (R ++ copies m).
Proof.
  intros [Ht Hok Hfac]. unfold vox_htable_destroy. rewrite (walk_all h m Hok). cbn [mbind option_bind].
  eexists _, _. split; [reflexivity|]. split.
  - rewrite <-(free_occupied h m Hok).
    assert (forall e, e ∈ entries h ->
      (if decide (status e = EMPTY) then [] else free_entry h e)
      = (if decide (occupied e) then free_entry h e else [])) as Hsame.
    { intros e He. apply list_elem_of_lookup in He as [i Hi].
      destruct (slot_of_lookup h i e (to_cells _ _ Hok) Hi) as [Hr He].
      destruct (decide (occupied e)) as [Ho|Ho].
      - rewrite decide_False; [done|]. by rewrite Ho.
      - rewrite <-He, (free_vacant h m _ Hok Hr) by (by rewrite He). by case_decide. }
    revert Hsame. generalize (entries h) as es. induction es as [|e es IH]; intros Hs; [done|].
    cbn. rewrite Hs by (by left). f_equiv. apply IH. intros e' He'. apply Hs. by right.
  - apply (took_free _ _ (self h)), (took_free _ _ (entries_at h)). refine (took_perm _ _ _ _ Ht _). solve_Permutation.
Qed.

Lemma foreach_ok h m :
  table_ok h m -> exists l, vox_htable_foreach h = Some (l, size h) /\ l ≡ₚ map_to_list (snd <$> m).
Proof.
  intros Hok. unfold vox_htable_foreach. rewrite (walk_all h m Hok). cbn [mbind option_bind].
  assert ((e ← entries h; if decide (status e = OCCUPIED) then [(key e, value e)] else [])
    = prod_map id snd <$> pairs (entries h)) as ->.
  { etrans; [apply (bind_filter occupied)|]. unfold pairs. rewrite <-list_fmap_compose.
    induction (filter occupied (entries h)) as [|e es IH]; [done|]. cbn. by f_equal. }
  eexists. split.
  - f_equal. f_equal. unfold zlen, pairs. rewrite !length_fmap, (table_count h m Hok). symmetry.
    apply (to_size _ _ Hok).
  - rewrite (pairs_perm h m Hok). by rewrite map_to_list_fmap.
Qed.
End operating.

(** ** The default functions *)

Lemma lxor_range x y n : 0 <= n -> 0 <= x < 2 ^ n -> 0 <= y < 2 ^ n -> 0 <= Z.lxor x y < 2 ^ n.
Proof.
  intros Hn Hx Hy. assert (0 <= Z.lxor x y) as H0 by (apply Z.lxor_nonneg; lia). split; [done|].
  replace (Z.lxor x y) with (Z.lxor x y mod 2 ^ n); [apply Z.mod_pos_bound; apply Z.pow_pos_nonneg; lia|].
  apply Z.bits_inj'. intros i Hi. destruct (decide (i < n)).
  - by rewrite Z.mod_pow2_bits_low by lia.
  - rewrite Z.mod_pow2_bits_high, Z.lxor_spec by lia.
    rewrite <-(Z.mod_small x (2 ^ n)), <-(Z.mod_small y (2 ^ n)) by lia.
    by rewrite !Z.mod_pow2_bits_high by lia.
Qed.

Section wyhash_total.
Context (k : list Z).

Lemma wyr8_ok p : 0 <= p -> p + 8 <= zlen k -> exists v, wyr8 k p = Some v.
Proof.
  intros. unfold wyr8. destruct (arr_slice_Some k p 8) as (s & -> & _); [lia..|]. by eexists.
Qed.
Lemma wyr4_ok p : 0 <= p -> p + 4 <= zlen k -> exists v, wyr4 k p = Some v.
Proof.
  intros. unfold wyr4. destruct (arr_slice_Some k p 4) as (s & -> & _); [lia..|]. by eexists.
Qed.

Lemma wyhash_long_ok fuel p i s s1 s2 :
  0 <= p -> p + i = zlen k -> 48 < i < Z.of_nat fuel ->
  exists p' i' t t1 t2, wyhash_long fuel k p i s s1 s2 = Some (p', i', t, t1, t2) /\
    0 <= p' /\ p' + i' = zlen k /\ 24 < i'.
Proof.
  revert p i s s1 s2. induction fuel as [|fuel IH]; intros p i s s1 s2 Hp Hsum Hi; [lia|].
  cbn [wyhash_long]. destruct (wyr8_ok p) as [x ->]; [lia..|]. destruct (wyr8_ok (p + 8)) as [y ->]; [lia..|].
  destruct (wyr8_ok (p + 16)) as [z ->]; [lia..|]. cbn [mbind option_bind].
  destruct (Z.ltb_spec 48 (i - 24)).
  - apply IH; lia.
  - do 5 eexists. split; [done|]. lia.
Qed.

Lemma wyhash_words_ok fuel p i s :
  0 <= p -> p + i = zlen k -> i < Z.of_nat fuel -> 0 < i ->
  exists p' i' t, wyhash_words fuel k p i s = Some (p', i', t) /\ p' + i' = zlen k.
Proof.
  revert p i s. induction fuel as [|fuel IH]; intros p i s Hp Hsum Hi Hpos; [lia|].
  cbn [wyhash_words]. destruct (Z.ltb_spec 16 i); [|by do 3 eexists].
  destruct (wyr8_ok p) as [x ->]; [lia..|]. cbn [mbind option_bind]. apply IH; lia.
Qed.

(** No read of the hash is outside the key, and both its loops end. *)
Lemma wyhash_ok seed : exists v, wyhash k (zlen k) seed = Some v /\ 0 <= v < 2 ^ 64.
Proof.
  assert (Hmix : forall a b s, 0 <= wyhash_mix a b s < 2 ^ 64).
  { intros a b s. unfold wyhash_mix, mul64. cbv zeta. set (x := u64 (_ * wyp4)).
    assert (0 <= x < 2 ^ 64) by apply u64_range. apply lxor_range; [lia|done|].
    rewrite Z.shiftr_div_pow2 by lia. dlia. }
  pose proof (zlen_nonneg k) as Hk. unfold wyhash.
  destruct (Z.leb_spec (zlen k) 16) as [H16|H16].
  - destruct (Z.leb_spec 4 (zlen k)) as [H4|H4].
    + set (off := if 8 <=? zlen k then _ else 0).
      assert (0 <= off <= zlen k - 4) as Hoff.
      { unfold off. destruct (Z.leb_spec 8 (zlen k)); [|lia].
        rewrite Z.shiftl_mul_pow2, Z.shiftr_div_pow2 by lia. dlia. }
      destruct (wyr4_ok 0) as [v1 ->]; [lia..|]. destruct (wyr4_ok off) as [v2 ->]; [lia..|].
      destruct (wyr4_ok (zlen k - 4)) as [v3 ->]; [lia..|].
      destruct (wyr4_ok (zlen k - 4 - off)) as [v4 ->]; [lia..|]. cbn [mbind option_bind].
      eexists. split; [done|apply Hmix].
    + destruct (Z.ltb_spec 0 (zlen k)); [|eexists; split; [done|apply Hmix]].
      unfold wyr3. destruct (arr_get_Some k 0) as [x ->]; [lia|].
      destruct (arr_get_Some k (0 + Z.shiftr (zlen k) 1)) as [y ->].
      { rewrite Z.shiftr_div_pow2 by lia. dlia. }
      destruct (arr_get_Some k (0 + zlen k - 1)) as [z ->]; [lia|]. cbn [mbind option_bind].
      eexists. split; [done|apply Hmix].
  - assert (exists p i t, (if 48 <? zlen k then
        '(p, i, s, s1, s2) ← wyhash_long (wyhash_fuel k) k 0 (zlen k) seed seed seed;
        Some (p, i, Z.lxor s (Z.lxor s1 s2)) else Some (0, zlen k, seed)) = Some (p, i, t) /\
      0 <= p /\ p + i = zlen k /\ 0 < i) as (p & i & t & -> & Hp & Hsum & Hi).
    { destruct (Z.ltb_spec 48 (zlen k)); [|do 3 eexists; split; [done|lia]].
      destruct (wyhash_long_ok (wyhash_fuel k) 0 (zlen k) seed seed seed)
        as (p & i & t & t1 & t2 & -> & ?); [lia|lia|unfold wyhash_fuel, zlen in *; lia|].
      do 3 eexists. split; [done|lia]. }
    cbn [mbind option_bind].
    destruct (wyhash_words_ok (wyhash_fuel k) p i t) as (p' & i' & t' & -> & Hsum');
      [lia|lia|unfold wyhash_fuel, zlen in *; lia|lia|]. cbn [mbind option_bind].
    destruct (wyr8_ok (p' + i' - 16)) as [a ->]; [lia..|].
    destruct (wyr8_ok (p' + i' - 8)) as [b ->]; [lia..|]. cbn [mbind option_bind].
    eexists. split; [done|apply Hmix].
Qed.
End wyhash_total.

Lemma memcmp_ok a b n :
  length a = n -> length b = n -> exists c, memcmp a b n = Some c /\ (c = 0 <-> a = b).
Proof.
  revert a b. induction n as [|n IH]; intros [|x a] [|y b] Ha Hb; try done; cbn [memcmp].
  - by exists 0.
  - destruct (Z.eqb_spec x y) as [->|Hne].
    + destruct (IH a b) as (c & -> & Hc); [cbn in *; lia..|]. exists c. split; [done|].
      rewrite Hc. split; congruence.
    + eexists. split; [done|]. split; [by case_one|]. congruence.
Qed.

Lemma default_funcs_ok : funcs_ok default_hash_func default_key_cmp.
Proof.
  split.
  - intros k _. apply wyhash_ok.
  - intros a b _ _ Hl. unfold default_key_cmp. apply memcmp_ok; unfold zlen in *; lia.
Qed.

Lemma next_power_of_two_ok n : 0 <= n <= 2 ^ 58 -> pow2 (next_power_of_two n) /\ n <= next_power_of_two n /\
  (0 < n -> next_power_of_two n < 2 * n).
Proof.
  intros Hn. unfold next_power_of_two. destruct (Z.eqb_spec n 0) as [->|Hne].
  { split; [by exists 0|lia]. }
  destruct (decide (n = 1)) as [->|]. { split; [by exists 0|]. change (u64 (smear (1 - 1) + 1)) with 1. lia. }
  rewrite smear_spec by lia. pose proof (Z.log2_spec (n - 1) ltac:(lia)) as [Hlo Hhi].
  assert (Z.log2 (n - 1) < 58) by (apply Z.log2_lt_pow2; lia). pose proof (Z.log2_nonneg (n - 1)).
  replace (2 ^ (Z.log2 (n - 1) + 1) - 1 + 1) with (2 ^ (Z.log2 (n - 1) + 1)) by lia.
  assert (2 ^ (Z.log2 (n - 1) + 1) <= 2 ^ 58) by (apply Z.pow_le_mono_r; lia).
  rewrite u64_small by lia. rewrite <-Z.add_1_r in Hhi. split; [|].
  - exists (Z.log2 (n - 1) + 1). split; [lia|done].
  - rewrite Z.pow_add_r in * by lia. lia.
Qed.

(** ** Refinement to a finite map *)

Section refinement.
Context {P : Type} `{MPoolLaws P} (junk : vox_htable_entry).
Implicit Types (p : P) (h : vox_htable).

Definition config_ok (config : option vox_htable_config) : Prop :=
  match config with
  | None => True
  | Some c => 0 <= initial_capacity c <= 2 ^ 58 /\
      funcs_ok (default default_hash_func (config_hash_func c)) (default default_key_cmp (config_key_cmp c))
  end.

Lemma ht_create_ok p config :
  mp_inv p -> config_ok config ->
  exists p' r, vox_htable_create_with_config junk p config = Some (p', r) /\
    match r with
    | None => took p p' []
    | Some h => htable_ok p p' h [] ∅ /\ counts_ok h /\
        key_free h = match config with Some c => config_key_free c | None => false end /\
        value_free h = match config with Some c => config_value_free c | None => false end
    end.
Proof.
  intros Hp Hcfg. unfold vox_htable_create_with_config.
  destruct (mp_alloc p sizeof_htable) as [p1 at1] eqn:E1.
  destruct (Z.eqb_spec at1 NULL) as [->|Hat].
  { eexists _, _. split; [done|]. eapply (took_refused p p1 sizeof_htable); [done|unfold sizeof_htable; lia|done]. }
  assert (took p p1 [at1]) as Ht1
    by (eapply took_alloc; [done| |done|done]; unfold sizeof_htable; lia).
  set (cap := match config with Some c => _ | None => _ end).
  set (lf := match config with Some c => _ | None => _ end).
  set (hf := match config with Some c => _ | None => _ end).
  set (kc := match config with Some c => _ | None => _ end).
  assert (pow2 cap /\ cap <= 2 ^ 58) as [Hcap Hcap'].
  { assert (pow2 16) by (by exists 4). subst cap. destruct config as [c|]; [|done].
    destruct Hcfg as [Hc _]. destruct (Z.ltb_spec 0 (initial_capacity c)); [|done].
    destruct (next_power_of_two_ok (initial_capacity c)) as (Hp2 & _ & Hlt); [lia|]. split; [done|].
    specialize (Hlt ltac:(lia)). destruct Hp2 as (j & Hj & Ej). rewrite Ej in *.
    apply Z.pow_le_mono_r; [lia|]. destruct (decide (j <= 58)); [done|].
    assert (2 ^ 59 <= 2 ^ j) by (apply Z.pow_le_mono_r; lia). lia. }
  assert (funcs_ok hf kc) as Hf.
  { subst hf kc. destruct config as [c|]; [apply Hcfg|apply default_funcs_ok]. }
  assert (valid_factor lf = true) as Hlf.
  { subst lf. destruct config as [c|]; [|done]. by destruct (valid_factor (config_load_factor c)) eqn:E. }
  clearbody cap lf hf kc. pose proof (pow2_pos cap Hcap) as Hpos.
  destruct (alloc_cells junk p1 cap sizeof_entry) as [[p2 a] cells] eqn:E2.
  destruct (took_cells junk p1 p2 cap sizeof_entry a cells (tk_inv _ _ _ Ht1) E2)
    as [(-> & Ht2)|(Ha & Ht2 & _)].
  { cbn. eexists _, _. split; [done|]. apply took_free. exact (took_app _ _ _ _ _ Ht1 Ht2). }
  destruct (alloc_cells_spec junk p1 cap sizeof_entry p2 a cells (tk_inv _ _ _ Ht1))
    as (_ & _ & Hx); [done|lia|unfold sizeof_entry; lia|done|]. destruct (Hx Ha) as [Hlen Hmax].
  rewrite (proj2 (Z.eqb_neq a NULL)) by done. rewrite (clean_fill cells cap) by lia.
  cbn [mbind option_bind]. eexists _, _. split; [done|]. cbn.
  assert (table_ok {| self := at1; entries_at := a; entries := replicate (Z.to_nat cap) no_entry;
    capacity := cap; size := 0; deleted_count := 0; load_factor_threshold := lf; hash_func := hf;
    key_cmp := kc; key_free := match config with Some c => config_key_free c | None => false end;
    value_free := match config with Some c => config_value_free c | None => false end |} ∅) as Hok.
  { apply table_empty; try done; cbn; [zlia|]. intros i _. by rewrite slot_blank. }
  split; [|split; [|done]].
  - constructor; [|exact Hok|done]. cbn. unfold copies. rewrite map_to_list_empty. cbn.
    refine (took_perm _ _ _ _ (took_app _ _ _ _ _ Ht1 Ht2) _). cbn. solve_Permutation.
  - eapply counts_clean; [exact Hok| |done]. intros i _. cbn. by rewrite slot_blank.
Qed.

(** A call of the interface. *)
Inductive htable_op :=
  | Set_ (k : list Z) (v : Z) | Get (k : list Z) | Delete (k : list Z) | Contains (k : list Z)
  | Size | Empty | Clear | Foreach.

Inductive htable_result :=
  | Rc (r : Z) | Ptr (v : Z) | Flag (b : bool) | Visited (l : list (list Z * Z)) (n : Z).

Definition htable_exec p h (op : htable_op) : option (P * vox_htable * htable_result * list freed) :=
  match op with
  | Set_ k v => '(p, h, rc, out) ← vox_htable_set junk p h k v; Some (p, h, Rc rc, out)
  | Get k => v ← vox_htable_get h k; Some (p, h, Ptr v, [])
  | Delete k => '(h, rc, out) ← vox_htable_delete h k; Some (p, h, Rc rc, out)
  | Contains k => b ← vox_htable_contains h k; Some (p, h, Flag b, [])
  | Size => Some (p, h, Rc (vox_htable_size h), [])
  | Empty => Some (p, h, Flag (vox_htable_empty h), [])
  | Clear => '(h, out) ← vox_htable_clear h; Some (p, h, Rc 0, out)
  | Foreach => '(l, n) ← vox_htable_foreach h; Some (p, h, Visited l n, [])
  end.

Definition op_key (op : htable_op) : list Z :=
  match op with Set_ k _ | Get k | Delete k | Contains k => k | _ => [] end.
Definition op_ok (op : htable_op) : Prop := is_bytes (op_key op) /\ zlen (op_key op) < 2 ^ 63.

(** What each call does to a finite map, from a key to the copy made of it and its
    value; [R]: the copies of keys that left the map. *)
Definition htable_spec h (m : gmap (list Z) (Z * Z)) (R : list Z) (op : htable_op)
  (m' : gmap (list Z) (Z * Z)) (R' : list Z) (r : htable_result) (out : list freed) : Prop :=
  match op with
  | Set_ k v =>
      R' = R /\ r = Rc 0 /\ out = replaced h (m !! k) /\ zlen k <> 0 /\
      exists a, m' = <[k := (a, v)]> m /\ (forall b w, m !! k = Some (b, w) -> a = b)
  | Get k => m' = m /\ R' = R /\ out = [] /\ r = Ptr (value_of (m !! k))
  | Delete k =>
      m' = delete k m /\
      match m !! k with
      | Some (a, v) => R' = a :: R /\ r = Rc 0 /\ out = freed_key h a ++ freed_value h v
      | None => R' = R /\ r = Rc (-1) /\ out = []
      end
  | Contains k => m' = m /\ R' = R /\ out = [] /\ r = Flag (negb (value_of (m !! k) =? NULL))
  | Size => m' = m /\ R' = R /\ out = [] /\ r = Rc (Z.of_nat (base.size m))
  | Empty => m' = m /\ R' = R /\ out = [] /\ r = Flag (bool_decide (m = ∅))
  | Clear => m' = ∅ /\ R' = copies m ++ R /\ r = Rc 0 /\ out ≡ₚ free_all h m
  | Foreach => m' = m /\ R' = R /\ out = [] /\
      exists l, r = Visited l (zlen l) /\ l ≡ₚ map_to_list (snd <$> m)
  end.

Lemma exec_ok p0 p h R m op :
  htable_ok p0 p h R m -> op_ok op ->
  exists p' h' r out R' m',
    htable_exec p h op = Some (p', h', r, out) /\ htable_ok p0 p' h' R' m' /\ same_config h h' /\
    (counts_ok h -> counts_ok h' \/ refused p') /\
    (htable_spec h m R op m' R' r out \/
     (exists k v, op = Set_ k v /\ r = Rc (-1) /\ out = [] /\ m' = m /\ R' = R /\
        (counts_ok h -> zlen k = 0 \/ refused p'))).
Proof.
  intros Hh [Hb Hz]. pose proof (ho_table _ _ _ _ _ Hh) as Hok.
  destruct op as [k v|k|k|k| | | |]; cbn [op_key] in Hb, Hz; cbn [htable_exec].
  - destruct (decide (zlen k = 0)) as [E|E].
    { unfold vox_htable_set. rewrite (proj2 (Z.eqb_eq (zlen k) 0)) by done. cbn.
      exists p, h, (Rc (-1)), [], R, m. do 3 (split; [done|]). split; [tauto|]. right. exists k, v.
      split_and!; try done. by left. }
    assert (key_ok k) as Hk by (split; [done|]; pose proof (zlen_nonneg k); lia).
    destruct (set_ok junk p0 p h R m k v Hh Hk) as (p' & h' & rc & out & -> & Hsame & Hcase).
    cbn [mbind option_bind]. destruct Hcase as [(-> & -> & Hc & a & Hh' & Ha)|(-> & -> & Hh' & Hr)].
    + eexists p', h', _, _, R, _. split; [done|]. split; [exact Hh'|]. split; [done|].
      split; [tauto|]. left. cbn. split_and!; try done. by exists a.
    + exists p', h', (Rc (-1)), [], R, m. do 3 (split; [done|]). split; [tauto|]. right. exists k, v.
      split_and!; try done. tauto.
  - rewrite (get_ok h m Hok k Hb Hz). cbn. eexists p, h, _, _, R, m. do 3 (split; [done|]). split; [tauto|by left].
  - pose proof (delete_ok p0 p h R m k Hh Hb Hz) as Hd. destruct (m !! k) as [[a v]|] eqn:Em.
    + destruct Hd as (h' & -> & Hh' & Hsame & Hc). cbn [mbind option_bind].
      eexists p, h', _, _, _, _. split; [done|]. split; [exact Hh'|]. split; [done|]. split; [tauto|].
      left. cbn. by rewrite Em.
    + rewrite Hd. cbn. eexists p, h, _, _, R, m. do 3 (split; [done|]). split; [tauto|]. left.
      cbn. rewrite Em, delete_id by done. done.
  - unfold vox_htable_contains. rewrite (get_ok h m Hok k Hb Hz). cbn.
    eexists p, h, _, _, R, m. do 3 (split; [done|]). split; [tauto|by left].
  - eexists p, h, _, _, R, m. do 3 (split; [done|]). split; [tauto|]. left. cbn. split_and!; try done.
    unfold vox_htable_size. by rewrite (to_size _ _ Hok).
  - eexists p, h, _, _, R, m. do 3 (split; [done|]). split; [tauto|]. left. cbn. split_and!; try done.
    unfold vox_htable_empty. rewrite (to_size _ _ Hok). f_equal. case_bool_decide as E.
    + by rewrite E, map_size_empty.
    + apply Z.eqb_neq. intros Hs. apply E, map_size_empty_inv. lia.
  - destruct (clear_ok p0 p h R m Hh) as (h' & out & -> & Hout & Hh' & Hsame & Hc). cbn.
    eexists p, h', _, out, _, _. split; [done|]. split; [exact Hh'|]. split; [done|]. split; [tauto|].
    left. by split_and!.
  - destruct (foreach_ok h m Hok) as (l & -> & Hl). cbn.
    eexists p, h, _, _, R, m. do 3 (split; [done|]). split; [tauto|]. left. split_and!; try done. exists l.
    split; [|done]. f_equal. unfold zlen. rewrite Hl, length_map_to_list, map_size_fmap.
    apply (to_size _ _ Hok).
Qed.
End refinement.

(** ** The life of a table *)

(** The keys and the values given to the free functions. *)
Definition freed_keys (out : list freed) : list Z :=
  omap (fun f => match f with FreeKey a => Some a | FreeValue _ => None end) out.
Definition freed_values (out : list freed) : list Z :=
  omap (fun f => match f with FreeKey _ => None | FreeValue v => Some v end) out.
Definition nonnull (l : list Z) : list Z := filter (fun v => v <> NULL) l.

(** The values of a table. *)
Definition values (m : gmap (list Z) (Z * Z)) : list Z := (fun kv => kv.2.2) <$> map_to_list m.

(** The value a call stored. *)
Definition stored (op : htable_op) (r : htable_result) : list Z :=
  match op, r with Set_ _ v, Rc 0 => [v] | _, _ => [] end.

Section ledger.
Context (h : vox_htable).

Lemma freed_keys_pair a v : a <> NULL ->
  freed_keys (freed_key h a ++ freed_value h v) = if key_free h then [a] else [].
Proof.
  intros Ha. unfold freed_keys, freed_key, freed_value. rewrite (proj2 (Z.eqb_neq a NULL)) by done.
  destruct (key_free h), (value_free h), (v =? NULL); done.
Qed.

Lemma freed_values_value v : freed_values (freed_value h v) = if value_free h then nonnull [v] else [].
Proof.
  unfold freed_values, freed_value, nonnull. rewrite filter_cons, filter_nil.
  destruct (value_free h), (Z.eqb_spec v NULL); cbn [andb negb omap list_omap];
    rewrite ?decide_True, ?decide_False by auto; done.
Qed.

Lemma freed_values_pair a v :
  freed_values (freed_key h a ++ freed_value h v) = if value_free h then nonnull [v] else [].
Proof.
  rewrite <-freed_values_value. unfold freed_values, freed_key. rewrite omap_app.
  by destruct (key_free h), (a =? NULL).
Qed.

Lemma freed_keys_all m : Forall (fun a => a <> NULL) (copies m) ->
  freed_keys (free_all h m) = if key_free h then copies m else [].
Proof.
  unfold free_all, copies. generalize (map_to_list m) as l. induction l as [|[k [a v]] l IH]; intros Hn.
  - by destruct (key_free h).
  - rewrite fmap_cons in *. apply Forall_cons in Hn as [Ha Hn]. cbn [mbind list_bind].
    unfold freed_keys in *. rewrite omap_app. rewrite (IH Hn).
    etrans; [apply (f_equal (fun x => x ++ _)), (freed_keys_pair a v Ha)|]. by destruct (key_free h).
Qed.

Lemma freed_values_all m :
  freed_values (free_all h m) = if value_free h then nonnull (values m) else [].
Proof.
  unfold free_all, values. generalize (map_to_list m) as l. induction l as [|[k [a v]] l IH].
  - by destruct (value_free h).
  - rewrite fmap_cons. cbn [mbind list_bind]. unfold freed_values in *. rewrite omap_app, IH.
    etrans; [apply (f_equal (fun x => x ++ _)), (freed_values_pair a v)|].
    destruct (value_free h); [|done]. unfold nonnull. rewrite (filter_cons _ _ (_ <$> l)).
    rewrite filter_cons, filter_nil. cbn. by case_decide.
Qed.

Lemma values_insert m k a v : m !! k = None -> values (<[k := (a, v)]> m) ≡ₚ v :: values m.
Proof. intros Hm. unfold values. by rewrite map_to_list_insert. Qed.
Lemma values_delete m k a v : m !! k = Some (a, v) -> values m ≡ₚ v :: values (delete k m).
Proof. intros Hm. unfold values. by rewrite <-(map_to_list_delete m k (a, v)). Qed.
Lemma values_update m k a b v w : m !! k = Some (b, w) -> w :: values (<[k := (a, v)]> m) ≡ₚ v :: values m.
Proof.
  intros Hm. rewrite (values_delete _ k a v) by (by rewrite lookup_insert_eq).
  rewrite delete_insert_eq, (values_delete m k b w) by done. apply Permutation_swap.
Qed.

(** What a call releases, and what it leaves to be released. *)
Definition balanced (m : gmap (list Z) (Z * Z)) (R : list Z) (vs : list Z)
  (m' : gmap (list Z) (Z * Z)) (R' : list Z) (out : list freed) : Prop :=
  (exists gone, R' ≡ₚ gone ++ R /\ freed_keys out ≡ₚ (if key_free h then gone else [])) /\
  (exists gone, gone ++ values m' ≡ₚ values m ++ vs /\
     freed_values out ≡ₚ (if value_free h then nonnull gone else [])).

Lemma balanced_same m R : balanced m R [] m R [].
Proof.
  split; exists []; (split; [by rewrite ?app_nil_r|]);
    [by destruct (key_free h)|by destruct (value_free h)].
Qed.

Lemma balanced_trans m R vs m1 R1 out vs' m2 R2 out' :
  balanced m R vs m1 R1 out -> balanced m1 R1 vs' m2 R2 out' ->
  balanced m R (vs ++ vs') m2 R2 (out ++ out').
Proof.
  intros [(g1 & HR1 & Hk1) (w1 & Hw1 & Hv1)] [(g2 & HR2 & Hk2) (w2 & Hw2 & Hv2)]. split.
  - exists (g1 ++ g2). split; [rewrite HR2, HR1; solve_Permutation|].
    unfold freed_keys in *. rewrite omap_app, Hk1, Hk2. by destruct (key_free h).
  - exists (w1 ++ w2). split.
    + rewrite <-(assoc_L (++)), Hw2, (assoc_L (++)), Hw1. solve_Permutation.
    + unfold freed_values in *. rewrite omap_app, Hv1, Hv2. unfold nonnull. rewrite filter_app.
      by destruct (value_free h).
Qed.

Lemma spec_balanced m R op m' R' r out :
  Forall (fun a => a <> NULL) (copies m) ->
  htable_spec h m R op m' R' r out -> balanced m R (stored op r) m' R' out.
Proof.
  intros Hn. destruct op as [k v|k|k|k| | | |]; cbn [htable_spec stored];
    try (intros (-> & -> & -> & Hr); apply balanced_same).
  - intros (-> & -> & -> & _ & a & -> & Ha). cbn. split.
    + exists []. split; [done|]. destruct (m !! k) as [[b w]|]; cbn; [|by destruct (key_free h)].
      unfold freed_keys, freed_value. by destruct (key_free h), (value_free h), (w =? NULL).
    + destruct (m !! k) as [[b w]|] eqn:E; cbn.
      * exists [w]. rewrite freed_values_value. split; [|done]. cbn.
        rewrite (values_update m k a b v w E). solve_Permutation.
      * exists []. split; [|by destruct (value_free h)]. cbn. rewrite (values_insert m k a v E).
        solve_Permutation.
  - intros [-> Hd]. destruct (m !! k) as [[a v]|] eqn:E.
    + destruct Hd as (-> & -> & ->). split.
      * exists [a]. split; [done|]. rewrite freed_keys_pair; [done|].
        rewrite Forall_forall in Hn. apply Hn. rewrite (copies_delete m k a v E). by left.
      * exists [v]. rewrite freed_values_pair, app_nil_r. split; [|done].
        by rewrite (values_delete m k a v E).
    + destruct Hd as (-> & -> & ->). rewrite delete_id by done. apply balanced_same.
  - intros (-> & -> & -> & Hout). split.
    + exists (copies m). split; [done|]. 
      assert (freed_keys out ≡ₚ freed_keys (free_all h m)) as -> by (unfold freed_keys; by rewrite Hout).
      by rewrite freed_keys_all.
    + exists (values m). unfold values at 2. rewrite map_to_list_empty. split; [done|].
      assert (freed_values out ≡ₚ freed_values (free_all h m)) as ->
        by (unfold freed_values; by rewrite Hout).
      by rewrite freed_values_all.
Qed.
End ledger.

Section lifecycle.
Context {P : Type} `{MPoolLaws P} (junk : vox_htable_entry).
Implicit Types (p : P) (h : vox_htable).

(** A sequence of calls, with the calls of the free functions and the values stored. *)
Fixpoint htable_run p h (ops : list htable_op) : option (P * vox_htable * list freed * list Z) :=
  match ops with
  | [] => Some (p, h, [], [])
  | op :: ops =>
      '(p, h, r, out) ← htable_exec junk p h op;
      '(p, h, outs, vs) ← htable_run p h ops;
      Some (p, h, out ++ outs, stored op r ++ vs)
  end.

Lemma copies_nonnull p0 p h R m :
  htable_ok p0 p h R m -> Forall (fun a => a <> NULL) (copies m).
Proof.
  intros [Ht _ _]. apply Forall_forall. intros a Ha. apply (live_nonnull p); [apply (tk_inv _ _ _ Ht)|].
  apply (tk_live _ _ _ Ht). do 2 right. apply elem_of_app. by right.
Qed.

Lemma balanced_config h h' m R vs m' R' out :
  same_config h h' -> balanced h' m R vs m' R' out -> balanced h m R vs m' R' out.
Proof. intros (_ & Hk & Hv & _). unfold balanced. by rewrite Hk, Hv. Qed.

Lemma ht_run_ok p0 p h R m ops :
  htable_ok p0 p h R m -> Forall op_ok ops ->
  exists p' h' outs vs R' m', htable_run p h ops = Some (p', h', outs, vs) /\
    htable_ok p0 p' h' R' m' /\ same_config h h' /\ balanced h m R vs m' R' outs.
Proof.
  intros Hh Hops. revert p h R m Hh. induction Hops as [|op ops Hop _ IH]; intros p h R m Hh.
  - exists p, h, [], [], R, m. split; [done|]. split; [done|]. split; [done|]. apply balanced_same.
  - destruct (exec_ok junk p0 p h R m op Hh Hop)
      as (p1 & h1 & r & out & R1 & m1 & E & Hh1 & Hs1 & _ & Hcase).
    destruct (IH p1 h1 R1 m1 Hh1) as (p2 & h2 & outs & vs & R2 & m2 & E2 & Hh2 & Hs2 & Hb2).
    exists p2, h2, (out ++ outs), (stored op r ++ vs), R2, m2. cbn [htable_run].
    rewrite E. cbn [mbind option_bind]. rewrite E2. cbn [mbind option_bind].
    split; [done|]. split; [done|]. split.
    { destruct Hs1 as (? & ? & ? & ?), Hs2 as (? & ? & ? & ?). split_and!; congruence. }
    eapply balanced_trans; [|by eapply balanced_config].
    destruct Hcase as [Hspec|(k & v & -> & -> & -> & -> & -> & _)]; [|apply balanced_same].
    by eapply spec_balanced; [eapply copies_nonnull|].
Qed.

(** C12: Each call on a well-formed table never accesses memory outside it, always
    returns (probing ends even with no empty slot left), keeps the table well formed
    and every other block of the pool as it was, and does what the specification says
    to the finite map the table holds: the new map, the result and the calls of the
    free functions. A set with a non-empty key can fail only where the pool refused
    an allocation, as long as the count of tombstones is right; only a refused
    allocation can make it wrong. *)
Theorem htable_refines_map p0 p h R m op :
  htable_ok p0 p h R m -> op_ok op ->
  exists p' h' r out R' m',
    htable_exec junk p h op = Some (p', h', r, out) /\ htable_ok p0 p' h' R' m' /\ same_config h h' /\
    (counts_ok h -> counts_ok h' \/ refused p') /\
    (htable_spec h m R op m' R' r out \/
     (exists k v, op = Set_ k v /\ r = Rc (-1) /\ out = [] /\ m' = m /\ R' = R /\
        (counts_ok h -> zlen k = 0 \/ refused p'))).
Proof. apply exec_ok. Qed.

(** The life of a table, from its creation through any calls to its destruction,
    never faults and gives its two blocks back; of what it allocated only the copies
    of the keys are left, and [key_free], when there is one, was called exactly once
    on each; [value_free], when there is one, was called exactly once on every value
    but NULL that was ever stored. Without [key_free] every copy is leaked. *)
Theorem htable_lifecycle p config p1 h ops :
  mp_inv p -> config_ok config ->
  vox_htable_create_with_config junk p config = Some (p1, Some h) -> Forall op_ok ops ->
  exists p2 h2 outs vs p3 outs' left_,
    htable_run p1 h ops = Some (p2, h2, outs, vs) /\
    vox_htable_destroy p2 h2 = Some (p3, outs') /\
    took p p3 left_ /\
    freed_keys (outs ++ outs') ≡ₚ (if key_free h then left_ else []) /\
    freed_values (outs ++ outs') ≡ₚ (if value_free h then nonnull vs else []).
Proof.
  intros Hp Hcfg Hc Hops. destruct (ht_create_ok junk p config Hp Hcfg) as (p1' & r & E & Hr).
  rewrite Hc in E. injection E as <- <-. destruct Hr as (Hh & _).
  destruct (ht_run_ok p p1 h [] ∅ ops Hh Hops)
    as (p2 & h2 & outs & vs & R & m & E & Hh2 & (_ & Hk & Hv & _) & (gk & HR & Hgk) & (gv & Hm & Hgv)).
  destruct (ht_destroy_ok p p2 h2 R m Hh2) as (p3 & outs' & E' & Hout & Ht).
  exists p2, h2, outs, vs, p3, outs', (R ++ copies m). split; [done|]. split; [done|]. split; [done|].
  unfold freed_keys, freed_values in *. rewrite !omap_app, Hout, Hgk, Hgv.
  pose proof (freed_keys_all h2 m (copies_nonnull _ _ _ _ _ Hh2)) as Ek.
  pose proof (freed_values_all h2 m) as Ev. unfold freed_keys, freed_values in Ek, Ev.
  rewrite Ek, Ev, Hk, Hv. split.
  - rewrite app_nil_r in HR. destruct (key_free h); [by rewrite HR|done].
  - destruct (value_free h); [|done]. unfold nonnull. rewrite <-filter_app, Hm. done.
Qed.
End lifecycle.

(** The default hash reads only bytes of the key and both its loops end, whatever
    the key's length, and its result is a 64-bit number; with the default comparison
    it gives the table what it asks of its functions. *)
Theorem default_functions_ok :
  funcs_ok default_hash_func default_key_cmp /\
  (forall k seed, exists v, wyhash k (zlen k) seed = Some v /\ 0 <= v < 2 ^ 64).
Proof. split; [exact default_funcs_ok|]. intros k seed. apply wyhash_ok. Qed.

(** ** Concrete runs *)

Definition ex_config : vox_htable_config :=
  {| initial_capacity := 4; config_load_factor := Fraction 3 4; config_hash_func := None;
     config_key_cmp := None; config_key_free := true; config_value_free := true |}.

Definition ex_create : option (bump * option vox_htable) :=
  vox_htable_create_with_config no_entry (bump_new 4096) (Some ex_config).
Definition ex_none : vox_htable :=
  {| self := 0; entries_at := 0; entries := []; capacity := 0; size := 0; deleted_count := 0;
     load_factor_threshold := Fraction 1 1; hash_func := default_hash_func;
     key_cmp := default_key_cmp; key_free := false; value_free := false |}.
Definition ex_pool : bump := default (bump_new 0) (fst <$> ex_create).
Definition ex_table : vox_htable := default ex_none (c ← ex_create; c.2).

Lemma ex_ht_created : ex_create = Some (ex_pool, Some ex_table).
Proof.
  assert (match ex_create with Some (_, Some _) => true | _ => false end = true) as E
    by (vm_compute; reflexivity).
  unfold ex_pool, ex_table. by destruct ex_create as [[p [h|]]|].
Qed.

Lemma ex_ht_config_ok : config_ok (Some ex_config).
Proof. split; [cbn; lia|]. apply default_funcs_ok. Qed.

Lemma ex_ok : htable_ok (bump_new 4096) ex_pool ex_table [] ∅ /\ counts_ok ex_table.
Proof.
  destruct (ht_create_ok no_entry (bump_new 4096) (Some ex_config)) as (p & r & E & Hr);
    [by apply bump_new_inv|exact ex_ht_config_ok|].
  fold ex_create in E. rewrite ex_ht_created in E. injection E as <- <-. destruct Hr as (? & ? & _). done.
Qed.

(** Growth past the load factor, an update, a deletion, a tombstone taken again. *)
Definition ex_ops : list htable_op :=
  [Set_ [1] 10; Set_ [2] 20; Set_ [3] 30; Set_ [4] 40; Set_ [1] 11; Delete [2]; Delete [9]; Set_ [2] 21;
   Get [1]; Get [2]; Contains [4]; Clear; Set_ [5; 6; 7; 8; 9] 50].

Lemma ex_ops_ok : Forall op_ok ex_ops.
Proof. repeat constructor; cbn; lia. Qed.

Lemma ex_set_ok : op_ok (Set_ [7] 70).
Proof. split; [|done]. by apply Forall_singleton. Qed.

Lemma htable_refines_map_witness :
  exists p' h' r out, htable_exec no_entry ex_pool ex_table (Set_ [7] 70) = Some (p', h', r, out) /\ r = Rc 0.
Proof.
  destruct ex_ok as [Hok _]. destruct (htable_refines_map no_entry (bump_new 4096) ex_pool ex_table [] ∅
    (Set_ [7] 70) Hok) as (p' & h' & r & out & R' & m' & E & _).
  - exact ex_set_ok.
  - exists p', h', r, out. split; [exact E|].
    assert ((fun x => x.1.2) <$> htable_exec no_entry ex_pool ex_table (Set_ [7] 70) = Some (Rc 0)) as Er
      by (vm_compute; reflexivity).
    rewrite E in Er. by injection Er.
Defined.

Lemma htable_lifecycle_witness :
  exists p2 h2 outs vs p3 outs' left_,
    htable_run no_entry ex_pool ex_table ex_ops = Some (p2, h2, outs, vs) /\
    vox_htable_destroy p2 h2 = Some (p3, outs') /\ took (bump_new 4096) p3 left_ /\
    freed_keys (outs ++ outs') ≡ₚ left_ /\ freed_values (outs ++ outs') ≡ₚ nonnull vs /\
    vs = [10; 20; 30; 40; 11; 21; 50].
Proof.
  destruct (htable_lifecycle no_entry (bump_new 4096) (Some ex_config) ex_pool ex_table ex_ops)
    as (p2 & h2 & outs & vs & p3 & outs' & l & E & E' & Ht & Hk & Hv);
    [by apply bump_new_inv|exact ex_ht_config_ok|exact ex_ht_created|exact ex_ops_ok|].
  exists p2, h2, outs, vs, p3, outs', l. split; [exact E|]. split; [exact E'|]. split; [exact Ht|].
  split; [exact Hk|]. split; [exact Hv|].
  assert (snd <$> htable_run no_entry ex_pool ex_table ex_ops = Some [10; 20; 30; 40; 11; 21; 50]) as Er
    by (vm_compute; reflexivity).
  rewrite E in Er. by injection Er.
Defined.

(** A set that takes a tombstone's slot and is then refused the copy of its key leaves
    the tombstone but takes it off the count. *)
Lemma failed_set_loses_tombstone :
  let p := bump_new 209 in
  (fun x => (x.1.1, deleted_count x.1.2, zlen (filter (is_status DELETED) (entries x.1.2)))) <$>
    (c ← vox_htable_create_with_config no_entry p (Some ex_config);
     h ← c.2;
     '(p, h, _, _) ← htable_run no_entry c.1 h [Set_ [1] 10; Delete [1]];
     '(p, h, rc, _) ← vox_htable_set no_entry p h [1] 11;
     Some (rc, h, tt))
  = Some (-1, 0, 1).
Proof. vm_compute. reflexivity. Qed.

(** A key stored with the value NULL is not contained. *)
Lemma null_value_not_contained :
  (x ← htable_run no_entry ex_pool ex_table [Set_ [1] NULL]; vox_htable_contains x.1.1.2 [1]) = Some false.
Proof. vm_compute. reflexivity. Qed.
End HTable.
