(* ===== verification/RBTree.v ===== *)
(** * vox_rbtree.c: the red-black tree

    Nodes with parent pointers (src/vox_rbtree.c), as a store from addresses to nodes:
    [tree !! a] is the node at address [a] and [None], undefined behaviour, for NULL
    and for what is not a node of the tree. The tree is refined to a finite map from
    keys to values, visited in the order of the keys: by length, then by [key_cmp].

    The fix-up after an insertion restores the red-black balance; the fix-up after a
    deletion does not always, and the theorems say when. *)

From S2P Require Import Prelude Alloc CString.
Import CString.

Module RBTree.

Definition sizeof_rbtree : Z := 48.
Definition sizeof_node : Z := 56.

Inductive colour := VOX_RBTREE_RED | VOX_RBTREE_BLACK.
#[local] Abbreviation RED := VOX_RBTREE_RED.
#[local] Abbreviation BLACK := VOX_RBTREE_BLACK.

#[export] Instance colour_eq_dec : EqDecision colour.
Proof. solve_decision. Defined.

(** [key] is the memory [key_at] points to.

    src/vox_rbtree.c:18-26: vox_rbtree_node_t *)
Record vox_rbtree_node := Node {
  color : colour;
  parent : Z;
  left : Z;
  right : Z;
  key_at : Z;
  key : list Z;
  key_len : Z;
  value : Z;
}.

(** [nodes] is the memory of the tree's nodes.

    src/vox_rbtree.c:29-36: struct vox_rbtree *)
Record vox_rbtree := {
  self : Z;
  root : Z;
  size : Z;
  key_cmp : list Z -> list Z -> Z -> option Z;
  key_free : bool;
  value_free : bool;
  nodes : gmap Z vox_rbtree_node;
}.

#[export] Instance rbtree_lookup : Lookup Z vox_rbtree_node vox_rbtree := fun a tree => nodes tree !! a.

Definition with_heap (tree : vox_rbtree) (r : Z) (m : gmap Z vox_rbtree_node) : vox_rbtree :=
  {| self := self tree; root := r; size := size tree; key_cmp := key_cmp tree;
     key_free := key_free tree; value_free := value_free tree; nodes := m |}.

Definition with_size (tree : vox_rbtree) (n : Z) : vox_rbtree :=
  {| self := self tree; root := root tree; size := n; key_cmp := key_cmp tree;
     key_free := key_free tree; value_free := value_free tree; nodes := nodes tree |}.

(** ** Assignments to a field of a node *)

Definition set_root (tree : vox_rbtree) (a : Z) : vox_rbtree := with_heap tree a (nodes tree).

Definition set_node (tree : vox_rbtree) (a : Z) (n : vox_rbtree_node) : vox_rbtree :=
  with_heap tree (root tree) (<[a := n]> (nodes tree)).

Definition set_left (tree : vox_rbtree) (a l : Z) : option vox_rbtree :=
  n ← tree !! a;
  Some (set_node tree a (Node (color n) (parent n) l (right n) (key_at n) (key n) (key_len n) (value n))).

Definition set_right (tree : vox_rbtree) (a r : Z) : option vox_rbtree :=
  n ← tree !! a;
  Some (set_node tree a (Node (color n) (parent n) (left n) r (key_at n) (key n) (key_len n) (value n))).

Definition set_parent (tree : vox_rbtree) (a p : Z) : option vox_rbtree :=
  n ← tree !! a;
  Some (set_node tree a (Node (color n) p (left n) (right n) (key_at n) (key n) (key_len n) (value n))).

Definition set_value (tree : vox_rbtree) (a v : Z) : option vox_rbtree :=
  n ← tree !! a;
  Some (set_node tree a (Node (color n) (parent n) (left n) (right n) (key_at n) (key n) (key_len n) v)).

(** ** Colours *)

(** src/vox_rbtree.c: get_color *)
Definition get_color (tree : vox_rbtree) (node : Z) : option colour :=
  if node =? NULL then Some BLACK else color <$> tree !! node.

(** src/vox_rbtree.c: set_color *)
Definition set_color (tree : vox_rbtree) (node : Z) (c : colour) : option vox_rbtree :=
  if node =? NULL then Some tree else
  n ← tree !! node;
  Some (set_node tree node (Node c (parent n) (left n) (right n) (key_at n) (key n) (key_len n) (value n))).

(** src/vox_rbtree.c: is_red *)
Definition is_red (tree : vox_rbtree) (node : Z) : option bool :=
  if node =? NULL then Some false else n ← tree !! node; Some (bool_decide (color n = RED)).

(** src/vox_rbtree.c: is_black *)
Definition is_black (tree : vox_rbtree) (node : Z) : option bool :=
  if node =? NULL then Some true else n ← tree !! node; Some (bool_decide (color n = BLACK)).

(** ** Rotations *)

(** The child of [up] that was [u] becomes [v]: written out in both rotations and in
    transplant.

    src/vox_rbtree.c:304-310: transplant *)
Definition replace_child (tree : vox_rbtree) (u up v : Z) : option vox_rbtree :=
  if up =? NULL then Some (set_root tree v) else
  l ← left <$> tree !! up;
  if u =? l then set_left tree up v else set_right tree up v.

(** src/vox_rbtree.c: left_rotate *)
Definition left_rotate (tree : vox_rbtree) (x : Z) : option vox_rbtree :=
  y ← right <$> tree !! x;
  yl ← left <$> tree !! y;
  tree ← set_right tree x yl;
  tree ← (if yl =? NULL then Some tree else set_parent tree yl x);
  xp ← parent <$> tree !! x;
  tree ← set_parent tree y xp;
  tree ← replace_child tree x xp y;
  tree ← set_left tree y x;
  set_parent tree x y.

(** src/vox_rbtree.c: right_rotate *)
Definition right_rotate (tree : vox_rbtree) (y : Z) : option vox_rbtree :=
  x ← left <$> tree !! y;
  xr ← right <$> tree !! x;
  tree ← set_left tree y xr;
  tree ← (if xr =? NULL then Some tree else set_parent tree xr y);
  yp ← parent <$> tree !! y;
  tree ← set_parent tree x yp;
  tree ← replace_child tree y yp x;
  tree ← set_right tree x y;
  set_parent tree y x.

(** ** Searching *)

(** src/vox_rbtree.c:115-137: find_node *)
Fixpoint find_loop (fuel : nat) (tree : vox_rbtree) (k : list Z) (node : Z) : option Z :=
  match fuel with
  | O => None
  | S fuel =>
      if node =? NULL then Some NULL else
      n ← tree !! node;
      if negb (zlen k =? key_len n) then
        if zlen k <? key_len n then find_loop fuel tree k (left n) else find_loop fuel tree k (right n)
      else
        cmp ← key_cmp tree k (key n) (zlen k);
        if cmp =? 0 then Some node
        else if cmp <? 0 then find_loop fuel tree k (left n)
        else find_loop fuel tree k (right n)
  end.

(** More rounds than a path down the tree has nodes. *)
Definition tree_fuel (tree : vox_rbtree) : nat := S (S (base.size (nodes tree))).
#[global] Arguments tree_fuel : simpl never.

(** src/vox_rbtree.c: find_node *)
Definition find_node (tree : vox_rbtree) (k : list Z) : option Z :=
  find_loop (tree_fuel tree) tree k (root tree).

(** src/vox_rbtree.c:142-145: min_node *)
Fixpoint min_loop (fuel : nat) (tree : vox_rbtree) (node : Z) : option Z :=
  match fuel with
  | O => None
  | S fuel =>
      if node =? NULL then Some node else
      l ← left <$> tree !! node;
      if l =? NULL then Some node else min_loop fuel tree l
  end.

(** src/vox_rbtree.c: min_node *)
Definition min_node (tree : vox_rbtree) (node : Z) : option Z := min_loop (tree_fuel tree) tree node.

(** src/vox_rbtree.c:150-153: max_node *)
Fixpoint max_loop (fuel : nat) (tree : vox_rbtree) (node : Z) : option Z :=
  match fuel with
  | O => None
  | S fuel =>
      if node =? NULL then Some node else
      r ← right <$> tree !! node;
      if r =? NULL then Some node else max_loop fuel tree r
  end.

(** src/vox_rbtree.c: max_node *)
Definition max_node (tree : vox_rbtree) (node : Z) : option Z := max_loop (tree_fuel tree) tree node.

(** ** The fix-up after an insertion *)

(** src/vox_rbtree.c:158-204: insert_fixup *)
Fixpoint insert_fixup_loop (fuel : nat) (tree : vox_rbtree) (node : Z) : option vox_rbtree :=
  match fuel with
  | O => None
  | S fuel =>
      if node =? root tree then Some tree else
      p ← parent <$> tree !! node;
      b ← is_red tree p;
      if negb b then Some tree else
      g ← parent <$> tree !! p;
      gl ← left <$> tree !! g;
      if p =? gl then
        uncle ← right <$> tree !! g;
        b ← is_red tree uncle;
        if (b : bool) then
          tree ← set_color tree p BLACK;
          tree ← set_color tree uncle BLACK;
          tree ← set_color tree g RED;
          insert_fixup_loop fuel tree g
        else
          pr ← right <$> tree !! p;
          '(tree, node) ← (if node =? pr then tree ← left_rotate tree p; Some (tree, p)
                           else Some (tree, node));
          p ← parent <$> tree !! node;
          tree ← set_color tree p BLACK;
          g ← parent <$> tree !! p;
          tree ← set_color tree g RED;
          tree ← right_rotate tree g;
          insert_fixup_loop fuel tree node
      else
        uncle ← left <$> tree !! g;
        b ← is_red tree uncle;
        if (b : bool) then
          tree ← set_color tree p BLACK;
          tree ← set_color tree uncle BLACK;
          tree ← set_color tree g RED;
          insert_fixup_loop fuel tree g
        else
          pl ← left <$> tree !! p;
          '(tree, node) ← (if node =? pl then tree ← right_rotate tree p; Some (tree, p)
                           else Some (tree, node));
          p ← parent <$> tree !! node;
          tree ← set_color tree p BLACK;
          g ← parent <$> tree !! p;
          tree ← set_color tree g RED;
          tree ← left_rotate tree g;
          insert_fixup_loop fuel tree node
  end.

(** src/vox_rbtree.c: insert_fixup *)
Definition insert_fixup (tree : vox_rbtree) (node : Z) : option vox_rbtree :=
  tree ← insert_fixup_loop (tree_fuel tree) tree node;
  set_color tree (root tree) BLACK.

(** ** The fix-up after a deletion *)

(** [!sibling || (is_black(sibling->left) && is_black(sibling->right))] *)
Definition black_children (tree : vox_rbtree) (sibling : Z) : option bool :=
  if sibling =? NULL then Some true else
  n ← tree !! sibling;
  b ← is_black tree (left n);
  if (b : bool) then is_black tree (right n) else Some false.

(** [is_left = (node && parent && node == parent->left)] *)
Definition left_child_of (tree : vox_rbtree) (node p : Z) : option bool :=
  if (node =? NULL) || (p =? NULL) then Some false else
  l ← left <$> tree !! p; Some (node =? l).

(** One round with [is_left]; the result is the tree and the new [node], [parent] and
    [is_left].

    src/vox_rbtree.c:214-253: delete_fixup *)
Definition fixup_left (tree : vox_rbtree) (p : Z) : option (vox_rbtree * Z * Z * bool) :=
  sibling ← right <$> tree !! p;
  b ← is_red tree sibling;
  '(tree, sibling) ←
    (if (b : bool) then
       tree ← set_color tree sibling BLACK;
       tree ← set_color tree p RED;
       tree ← left_rotate tree p;
       sibling ← right <$> tree !! p;
       Some (tree, sibling)
     else Some (tree, sibling));
  b ← black_children tree sibling;
  if (b : bool) then
    tree ← set_color tree sibling RED;
    pp ← parent <$> tree !! p;
    is_left ← left_child_of tree p pp;
    Some (tree, p, pp, is_left)
  else
    sr ← right <$> tree !! sibling;
    b ← is_black tree sr;
    '(tree, sibling) ←
      (if (b : bool) then
         sl ← left <$> tree !! sibling;
         tree ← set_color tree sl BLACK;
         tree ← set_color tree sibling RED;
         tree ← right_rotate tree sibling;
         sibling ← right <$> tree !! p;
         Some (tree, sibling)
       else Some (tree, sibling));
    tree ← (if sibling =? NULL then Some tree else
              c ← get_color tree p;
              tree ← set_color tree sibling c;
              tree ← set_color tree p BLACK;
              sr ← right <$> tree !! sibling;
              tree ← set_color tree sr BLACK;
              left_rotate tree p);
    Some (tree, root tree, p, false).

(** One round without.

    src/vox_rbtree.c:256-295: delete_fixup *)
Definition fixup_right (tree : vox_rbtree) (p : Z) : option (vox_rbtree * Z * Z * bool) :=
  sibling ← left <$> tree !! p;
  b ← is_red tree sibling;
  '(tree, sibling) ←
    (if (b : bool) then
       tree ← set_color tree sibling BLACK;
       tree ← set_color tree p RED;
       tree ← right_rotate tree p;
       sibling ← left <$> tree !! p;
       Some (tree, sibling)
     else Some (tree, sibling));
  b ← black_children tree sibling;
  if (b : bool) then
    tree ← set_color tree sibling RED;
    pp ← parent <$> tree !! p;
    is_left ← left_child_of tree p pp;
    Some (tree, p, pp, is_left)
  else
    sl ← left <$> tree !! sibling;
    b ← is_black tree sl;
    '(tree, sibling) ←
      (if (b : bool) then
         sr ← right <$> tree !! sibling;
         tree ← set_color tree sr BLACK;
         tree ← set_color tree sibling RED;
         tree ← left_rotate tree sibling;
         sibling ← left <$> tree !! p;
         Some (tree, sibling)
       else Some (tree, sibling));
    tree ← (if sibling =? NULL then Some tree else
              c ← get_color tree p;
              tree ← set_color tree sibling c;
              tree ← set_color tree p BLACK;
              sl ← left <$> tree !! sibling;
              tree ← set_color tree sl BLACK;
              right_rotate tree p);
    Some (tree, root tree, p, false).

(** src/vox_rbtree.c:211-299: delete_fixup *)
Fixpoint delete_fixup_loop (fuel : nat) (tree : vox_rbtree) (node p : Z) (is_left : bool)
  : option vox_rbtree :=
  match fuel with
  | O => None
  | S fuel =>
      if node =? root tree then set_color tree node BLACK else
      b ← is_black tree node;
      if negb b || (p =? NULL) then set_color tree node BLACK else
      '(tree, node, p, is_left) ← (if is_left then fixup_left tree p else fixup_right tree p);
      delete_fixup_loop fuel tree node p is_left
  end.

(** src/vox_rbtree.c: delete_fixup *)
Definition delete_fixup (tree : vox_rbtree) (node p : Z) (is_left : bool) : option vox_rbtree :=
  delete_fixup_loop (tree_fuel tree) tree node p is_left.

(** src/vox_rbtree.c: transplant *)
Definition transplant (tree : vox_rbtree) (u v : Z) : option vox_rbtree :=
  up ← parent <$> tree !! u;
  tree ← replace_child tree u up v;
  if v =? NULL then Some tree else
  up ← parent <$> tree !! u;
  set_parent tree v up.

(** ** The interface *)

Section operations.
Context {P : Type} `{MPool P}.
Implicit Types (p : P) (tree : vox_rbtree).

(** src/vox_rbtree.c: default_key_cmp *)
Definition default_key_cmp (key1 key2 : list Z) (n : Z) : option Z := memcmp key1 key2 n.

Record vox_rbtree_config := {
  config_key_cmp : option (list Z -> list Z -> Z -> option Z);
  config_key_free : bool;
  config_value_free : bool;
}.

(** src/vox_rbtree.c: vox_rbtree_create_with_config *)
Definition vox_rbtree_create_with_config p (config : option vox_rbtree_config) : P * option vox_rbtree :=
  let '(p, a) := mp_alloc p sizeof_rbtree in
  if a =? NULL then (p, None) else
  (p, Some {| self := a; root := NULL; size := 0;
              key_cmp := match config with
                         | Some c => default default_key_cmp (config_key_cmp c)
                         | None => default_key_cmp
                         end;
              key_free := match config with Some c => config_key_free c | None => false end;
              value_free := match config with Some c => config_value_free c | None => false end;
              nodes := ∅ |}).

(** src/vox_rbtree.c: vox_rbtree_create *)
Definition vox_rbtree_create p : P * option vox_rbtree := vox_rbtree_create_with_config p None.

(** A call of a free function, in order: an output. *)
Inductive freed := FreeKey (a : Z) | FreeValue (v : Z).

Definition free_value tree (v : Z) : list freed :=
  if value_free tree && negb (v =? NULL) then [FreeValue v] else [].
Definition free_key tree (a : Z) : list freed :=
  if key_free tree && negb (a =? NULL) then [FreeKey a] else [].

(** The way down to the place of a key: its node, or NULL with the last node met and the
    last comparison.

    src/vox_rbtree.c:362-391: vox_rbtree_insert *)
Fixpoint insert_loop (fuel : nat) tree (k : list Z) (par node cmp : Z) : option (Z * Z * Z) :=
  match fuel with
  | O => None
  | S fuel =>
      if node =? NULL then Some (par, node, cmp) else
      n ← tree !! node;
      if negb (zlen k =? key_len n) then
        if zlen k <? key_len n then insert_loop fuel tree k node (left n) (-1)
        else insert_loop fuel tree k node (right n) 1
      else
        cmp ← key_cmp tree k (key n) (zlen k);
        if cmp =? 0 then Some (par, node, cmp)
        else if cmp <? 0 then insert_loop fuel tree k node (left n) cmp
        else insert_loop fuel tree k node (right n) cmp
  end.

(** src/vox_rbtree.c: vox_rbtree_insert *)
Definition vox_rbtree_insert p tree (k : list Z) (v : Z) : option (P * vox_rbtree * Z * list freed) :=
  if zlen k =? 0 then Some (p, tree, -1, []) else
  '(par, node, cmp) ← insert_loop (tree_fuel tree) tree k NULL (root tree) 0;
  if negb (node =? NULL) then
    old ← value <$> tree !! node;
    tree' ← set_value tree node v;
    Some (p, tree', 0, free_value tree old)
  else
    let '(p, new_node) := mp_alloc p sizeof_node in
    if new_node =? NULL then Some (p, tree, -1, []) else
    let '(p, key_copy) := mp_alloc p (zlen k) in
    if key_copy =? NULL then Some (mp_free p new_node, tree, -1, []) else
    let tree := set_node tree new_node (Node RED par NULL NULL key_copy k (zlen k) v) in
    tree ← (if par =? NULL then Some (set_root tree new_node)
            else if cmp <? 0 then set_left tree par new_node
            else set_right tree par new_node);
    let tree := with_size tree (u64 (size tree + 1)) in
    tree ← insert_fixup tree new_node;
    Some (p, tree, 0, []).

(** src/vox_rbtree.c: vox_rbtree_find *)
Definition vox_rbtree_find tree (k : list Z) : option Z :=
  if zlen k =? 0 then Some NULL else
  node ← find_node tree k;
  if node =? NULL then Some NULL else value <$> tree !! node.

(** The node's place is taken by its child, or by the least node of its right subtree.
    The result is the tree with the [y] and [x] of the code and [y_original_color].

    src/vox_rbtree.c:443-486: vox_rbtree_delete *)
Definition unlink tree (node : Z) : option (vox_rbtree * Z * Z * colour) :=
  n ← tree !! node;
  if left n =? NULL then
    tree ← transplant tree node (right n); Some (tree, node, right n, color n)
  else if right n =? NULL then
    tree ← transplant tree node (left n); Some (tree, node, left n, color n)
  else
    y ← min_node tree (right n);
    ny ← tree !! y;
    let y_original_color := color ny in
    let x := right ny in
    tree ← (if negb (parent ny =? node) then
              tree ← transplant tree y (right ny);
              r ← right <$> tree !! node;
              tree ← set_right tree y r;
              if r =? NULL then Some tree else set_parent tree r y
            else if x =? NULL then Some tree else set_parent tree x y);
    tree ← transplant tree node y;
    l ← left <$> tree !! node;
    tree ← set_left tree y l;
    tree ← (if l =? NULL then Some tree else set_parent tree l y);
    c ← color <$> tree !! node;
    tree ← set_color tree y c;
    Some (tree, y, x, y_original_color).

(** Whether the bytes of a block can still be read, unchanged, just after [vox_mpool_free]
    has taken it back. C gives such a read no meaning: [false]. The pool of vox_mpool.c only
    writes the header in front of a block and keeps the memory: [true]. *)
Variable keeps : bool.

(** Where the fix-up starts, after [node] was given back to the pool: it is not in [tree]
    any more, and [last] is what it held. [y] can be [node], and its parent is read.

    src/vox_rbtree.c:504-519: vox_rbtree_delete *)
Definition fixup_place tree (node : Z) (last : option vox_rbtree_node) (y x : Z) (is_left_child : bool)
  : option (Z * bool) :=
  if negb (x =? NULL) then
    xp ← parent <$> tree !! x;
    is_left ← left_child_of tree x xp;
    Some (xp, is_left)
  else
    yp ← parent <$> (if y =? node then if keeps then last else None else tree !! y);
    if yp =? node then Some (y, is_left_child)
    else is_left ← left_child_of tree y yp; Some (yp, is_left).

(** [node] leaves the memory of the tree when the pool takes it back.

    src/vox_rbtree.c: vox_rbtree_delete *)
Definition vox_rbtree_delete p tree (k : list Z) : option (P * vox_rbtree * Z * list freed) :=
  if zlen k =? 0 then Some (p, tree, -1, []) else
  node ← find_node tree k;
  if node =? NULL then Some (p, tree, -1, []) else
  n ← tree !! node;
  let key_to_free := key_at n in
  let value_to_free := value n in
  is_left_child ← left_child_of tree node (parent n);
  '(tree, y, x, y_original_color) ← unlink tree node;
  let out := free_key tree key_to_free ++ free_value tree value_to_free in
  let p := mp_free p key_to_free in
  let p := mp_free p node in
  let last := tree !! node in
  let tree := with_heap tree (root tree) (delete node (nodes tree)) in
  let tree := with_size tree (u64 (size tree - 1)) in
  tree ← (if decide (y_original_color = BLACK) then
            '(fixup_parent, fixup_is_left) ← fixup_place tree node last y x is_left_child;
            delete_fixup tree x fixup_parent fixup_is_left
          else Some tree);
  Some (p, tree, 0, out).

(** src/vox_rbtree.c: vox_rbtree_contains *)
Definition vox_rbtree_contains tree (k : list Z) : option bool :=
  v ← vox_rbtree_find tree k; Some (negb (v =? NULL)).

(** src/vox_rbtree.c: vox_rbtree_size *)
Definition vox_rbtree_size tree : Z := size tree.
(** src/vox_rbtree.c: vox_rbtree_empty *)
Definition vox_rbtree_empty tree : bool := size tree =? 0.

(** src/vox_rbtree.c:546-548: vox_rbtree_clear *)
Fixpoint clear_loop (fuel : nat) p tree (out : list freed) : option (P * vox_rbtree * list freed) :=
  match fuel with
  | O => None
  | S fuel =>
      if root tree =? NULL then Some (p, tree, out) else
      k ← key <$> tree !! root tree;
      '(p, tree, _, o) ← vox_rbtree_delete p tree k;
      clear_loop fuel p tree (out ++ o)
  end.

(** src/vox_rbtree.c: vox_rbtree_clear *)
Definition vox_rbtree_clear p tree : option (P * vox_rbtree * list freed) :=
  clear_loop (tree_fuel tree) p tree [].

(** src/vox_rbtree.c: vox_rbtree_destroy *)
Definition vox_rbtree_destroy p tree : option (P * list freed) :=
  '(p, tree, out) ← vox_rbtree_clear p tree;
  Some (mp_free p (self tree), out).

(** ** Walks

    The calls of [visit], in order, and the count. *)

(** src/vox_rbtree.c: inorder_recursive *)
Fixpoint inorder_recursive (fuel : nat) tree (node : Z) : option (list (list Z * Z) * Z) :=
  match fuel with
  | O => None
  | S fuel =>
      if node =? NULL then Some ([], 0) else
      n ← tree !! node;
      '(l1, c1) ← inorder_recursive fuel tree (left n);
      '(l2, c2) ← inorder_recursive fuel tree (right n);
      Some (l1 ++ [(key n, value n)] ++ l2, u64 (u64 (c1 + 1) + c2))
  end.

(** src/vox_rbtree.c: preorder_recursive *)
Fixpoint preorder_recursive (fuel : nat) tree (node : Z) : option (list (list Z * Z) * Z) :=
  match fuel with
  | O => None
  | S fuel =>
      if node =? NULL then Some ([], 0) else
      n ← tree !! node;
      '(l1, c1) ← preorder_recursive fuel tree (left n);
      '(l2, c2) ← preorder_recursive fuel tree (right n);
      Some ([(key n, value n)] ++ l1 ++ l2, u64 (u64 (1 + c1) + c2))
  end.

(** src/vox_rbtree.c: postorder_recursive *)
Fixpoint postorder_recursive (fuel : nat) tree (node : Z) : option (list (list Z * Z) * Z) :=
  match fuel with
  | O => None
  | S fuel =>
      if node =? NULL then Some ([], 0) else
      n ← tree !! node;
      '(l1, c1) ← postorder_recursive fuel tree (left n);
      '(l2, c2) ← postorder_recursive fuel tree (right n);
      Some (l1 ++ l2 ++ [(key n, value n)], u64 (u64 (c1 + c2) + 1))
  end.

(** src/vox_rbtree.c: vox_rbtree_inorder *)
Definition vox_rbtree_inorder tree : option (list (list Z * Z) * Z) :=
  inorder_recursive (tree_fuel tree) tree (root tree).
(** src/vox_rbtree.c: vox_rbtree_preorder *)
Definition vox_rbtree_preorder tree : option (list (list Z * Z) * Z) :=
  preorder_recursive (tree_fuel tree) tree (root tree).
(** src/vox_rbtree.c: vox_rbtree_postorder *)
Definition vox_rbtree_postorder tree : option (list (list Z * Z) * Z) :=
  postorder_recursive (tree_fuel tree) tree (root tree).

(** The key written to the arguments, and its address; [Some None] is the result -1.

    src/vox_rbtree.c: vox_rbtree_min *)
Definition vox_rbtree_min tree : option (option (Z * list Z * Z)) :=
  if root tree =? NULL then Some None else
  m ← min_node tree (root tree);
  if m =? NULL then Some None else
  n ← tree !! m;
  Some (Some (key_at n, key n, key_len n)).

(** src/vox_rbtree.c: vox_rbtree_max *)
Definition vox_rbtree_max tree : option (option (Z * list Z * Z)) :=
  if root tree =? NULL then Some None else
  m ← max_node tree (root tree);
  if m =? NULL then Some None else
  n ← tree !! m;
  Some (Some (key_at n, key n, key_len n)).
End operations.

(** ** Trees and places in them

    The proofs read the memory as a tree of nodes with their addresses; a place in it is
    the path up to the root with what hangs off it. *)

Record item := Item { it_at : Z; it_key : list Z; it_value : Z }.

Inductive tree := E | T (c : colour) (l : tree) (a : Z) (d : item) (r : tree).

(** [CL]: the hole is the left child; [CR]: it is the right one. *)
Inductive place :=
  | Top
  | CL (c : colour) (a : Z) (d : item) (sib : tree) (up : place)
  | CR (c : colour) (a : Z) (d : item) (sib : tree) (up : place).

Definition addr (t : tree) : Z := match t with E => NULL | T _ _ a _ _ => a end.
Definition col (t : tree) : colour := match t with E => BLACK | T c _ _ _ _ => c end.
Definition paint (c : colour) (t : tree) : tree :=
  match t with E => E | T _ l a d r => T c l a d r end.
Definition up_addr (k : place) : Z := match k with Top => NULL | CL _ a _ _ _ | CR _ a _ _ _ => a end.

Fixpoint plug (k : place) (t : tree) : tree :=
  match k with
  | Top => t
  | CL c a d s k => plug k (T c t a d s)
  | CR c a d s k => plug k (T c s a d t)
  end.

Definition node_of (c : colour) (p l r : Z) (d : item) : vox_rbtree_node :=
  Node c p l r (it_at d) (it_key d) (zlen (it_key d)) (it_value d).

Fixpoint cells (p : Z) (t : tree) : list (Z * vox_rbtree_node) :=
  match t with
  | E => []
  | T c l a d r => (a, node_of c p (addr l) (addr r) d) :: cells a l ++ cells a r
  end.

Fixpoint up_cells (k : place) (x : Z) : list (Z * vox_rbtree_node) :=
  match k with
  | Top => []
  | CL c a d s k => (a, node_of c (up_addr k) x (addr s) d) :: cells a s ++ up_cells k a
  | CR c a d s k => (a, node_of c (up_addr k) (addr s) x d) :: cells a s ++ up_cells k a
  end.

(** The address of the root when [x] is the address of what is in the hole. *)
Fixpoint top_addr (k : place) (x : Z) : Z :=
  match k with Top => x | CL _ a _ _ k | CR _ a _ _ k => top_addr k a end.

Lemma plug_addr k t : addr (plug k t) = top_addr k (addr t).
Proof. revert t. induction k; intros t; cbn; [done|by rewrite IHk..]. Qed.

(** The cells of a tree, split at a place. *)
Lemma plug_cells k t : cells NULL (plug k t) ≡ₚ cells (up_addr k) t ++ up_cells k (addr t).
Proof.
  revert t. induction k as [|c a d s k IH|c a d s k IH]; intros t; cbn; [by rewrite app_nil_r|..];
    rewrite IH; cbn; solve_Permutation.
Qed.

(** ** The memory of a tree *)

Record own (m : gmap Z vox_rbtree_node) (L : list (Z * vox_rbtree_node)) : Prop := {
  ow_nodup : NoDup L.*1;
  ow_null : NULL ∉ L.*1;
  ow_get a n : (a, n) ∈ L -> m !! a = Some n;
}.

#[export] Instance own_proper m : Proper (Permutation ==> iff) (own m).
Proof.
  intros L L' HL. split; intros [Hd Hn Hg]; constructor.
  - by rewrite <-HL.
  - by rewrite <-HL.
  - intros a n. rewrite <-HL. apply Hg.
  - by rewrite HL.
  - by rewrite HL.
  - intros a n. rewrite HL. apply Hg.
Qed.

Lemma own_perm m L L' : own m L -> L ≡ₚ L' -> own m L'.
Proof. by intros ? <-. Qed.

Lemma own_head m a n L : own m ((a, n) :: L) -> m !! a = Some n.
Proof. intros Ho. apply (ow_get _ _ Ho). by left. Qed.

Lemma own_nonnull m a n L : own m ((a, n) :: L) -> a <> NULL.
Proof. intros Ho ->. apply (ow_null _ _ Ho). by left. Qed.

Lemma own_distinct m a n b n' L : own m ((a, n) :: (b, n') :: L) -> a <> b.
Proof. intros Ho ->. destruct Ho as [Hd _ _]. cbn in Hd. apply NoDup_cons in Hd as [Hd _]. apply Hd. by left. Qed.

Lemma own_set m a n n' L : own m ((a, n) :: L) -> own (<[a := n']> m) ((a, n') :: L).
Proof.
  intros [Hd Hn Hg]. constructor; [done..|]. intros b x [[= -> ->]|Hb]%elem_of_cons.
  - apply lookup_insert_eq.
  - cbn in Hd. apply NoDup_cons in Hd as [Hd _]. rewrite lookup_insert_ne.
    + apply Hg. by right.
    + intros ->. apply Hd. apply list_elem_of_fmap. by exists (b, x).
Qed.

Lemma own_new m a n L : own m L -> a <> NULL -> a ∉ L.*1 -> own (<[a := n]> m) ((a, n) :: L).
Proof.
  intros [Hd Hn Hg] Ha Hf. constructor; cbn.
  - by apply NoDup_cons.
  - rewrite not_elem_of_cons. split; [by intros <-|done].
  - intros b x [[= -> ->]|Hb]%elem_of_cons; [apply lookup_insert_eq|].
    rewrite lookup_insert_ne; [by apply Hg|]. intros ->. apply Hf. apply list_elem_of_fmap. by exists (b, x).
Qed.

Lemma own_drop m a n L : own m ((a, n) :: L) -> own (delete a m) L.
Proof.
  intros [Hd Hn Hg]. cbn in Hd, Hn. apply NoDup_cons in Hd as [Ha Hd]. constructor; [done| |].
  - intros Hx. apply Hn. by right.
  - intros b x Hb. rewrite lookup_delete_ne; [apply Hg; by right|].
    intros ->. apply Ha. apply list_elem_of_fmap. by exists (b, x).
Qed.

Lemma own_length m L : own m L -> (length L <= base.size m)%nat.
Proof.
  intros [Hd _ Hg]. rewrite <-(length_fmap fst L), <-(size_list_to_set (C := gset Z)) by done.
  rewrite <-(size_dom (D := gset Z)). apply subseteq_size. intros a. rewrite elem_of_list_to_set.
  intros [[b n] [-> Hb]]%list_elem_of_fmap. apply elem_of_dom. exists n. by apply Hg.
Qed.

(** What the operations on nodes leave alone. *)
Record same (s s' : vox_rbtree) : Prop := {
  sm_self : self s' = self s;
  sm_size : size s' = size s;
  sm_cmp : key_cmp s' = key_cmp s;
  sm_kf : key_free s' = key_free s;
  sm_vf : value_free s' = value_free s;
}.

#[export] Instance same_preorder : PreOrder same.
Proof. split; [by constructor|]. intros a b c [] []. constructor; congruence. Qed.

(** ** One access to a node that is owned

    The tactic [own_step] brings the cell of the access to the front and runs it. *)

Section accesses.
Context (s : vox_rbtree) (a : Z) (c : colour) (p l r : Z) (d : item) (L : list (Z * vox_rbtree_node)).
Hypothesis (Ho : own (nodes s) ((a, node_of c p l r d) :: L)).

Lemma own_read : s !! a = Some (node_of c p l r d).
Proof. by eapply own_head. Qed.

#[local] Ltac solve_set :=
  rewrite own_read; cbn [mbind option_bind]; eexists; split; [done|];
  split; [by constructor|]; split; [done|]; by eapply own_set.

Lemma set_left_own v :
  exists s', set_left s a v = Some s' /\ same s s' /\ root s' = root s /\
    own (nodes s') ((a, node_of c p v r d) :: L).
Proof. unfold set_left. solve_set. Qed.
Lemma set_right_own v :
  exists s', set_right s a v = Some s' /\ same s s' /\ root s' = root s /\
    own (nodes s') ((a, node_of c p l v d) :: L).
Proof. unfold set_right. solve_set. Qed.
Lemma set_parent_own v :
  exists s', set_parent s a v = Some s' /\ same s s' /\ root s' = root s /\
    own (nodes s') ((a, node_of c v l r d) :: L).
Proof. unfold set_parent. solve_set. Qed.
Lemma set_color_own v :
  exists s', set_color s a v = Some s' /\ same s s' /\ root s' = root s /\
    own (nodes s') ((a, node_of v p l r d) :: L).
Proof. unfold set_color. rewrite (proj2 (Z.eqb_neq a NULL)) by (by eapply own_nonnull). solve_set. Qed.
Lemma set_value_own v :
  exists s', set_value s a v = Some s' /\ same s s' /\ root s' = root s /\
    own (nodes s') ((a, node_of c p l r (Item (it_at d) (it_key d) v)) :: L).
Proof. unfold set_value. solve_set. Qed.
End accesses.

(** The cell of [a] in a list of cells, and the others. *)
Ltac pick_cell a L :=
  match L with
  | (a, ?n) :: ?L => constr:((n, L))
  | ?x :: ?L => match pick_cell a L with (?n, ?L) => constr:((n, x :: L)) end
  | ?x ++ ?L => match pick_cell a L with (?n, ?L) => constr:((n, x ++ L)) end
  end.

Ltac front a H :=
  match type of H with
  | own _ ?L =>
      match pick_cell a L with
      | (?n, ?L') => apply (fun Hp => own_perm _ L ((a, n) :: L') Hp) in H; [|solve_Permutation]
      end
  end.

Ltac run_set H E := 
  let s' := fresh "s" in let Hs := fresh "Hs" in let Hr := fresh "Hr" in
  destruct E as (s' & -> & Hs & Hr & H'); clear H; rename H' into H.

Ltac own_norm :=
  cbn [mbind option_bind fmap option_fmap option_map color parent left right key_at key key_len value
    node_of addr col cells up_cells up_addr app] in *.

Ltac own_step :=
  match goal with
  | H : own (nodes ?s) _ |- context [@lookup _ _ _ rbtree_lookup ?a ?s] =>
      front a H; rewrite (own_read _ _ _ _ _ _ _ _ H)
  | H : own (nodes ?s) _ |- context [set_left ?s ?a ?v] => front a H; run_set H (set_left_own _ _ _ _ _ _ _ _ H v)
  | H : own (nodes ?s) _ |- context [set_right ?s ?a ?v] => front a H; run_set H (set_right_own _ _ _ _ _ _ _ _ H v)
  | H : own (nodes ?s) _ |- context [set_parent ?s ?a ?v] => front a H; run_set H (set_parent_own _ _ _ _ _ _ _ _ H v)
  | H : own (nodes ?s) _ |- context [set_color ?s ?a ?v] => front a H; run_set H (set_color_own _ _ _ _ _ _ _ _ H v)
  end; cbn [mbind option_bind fmap option_fmap option_map color parent left right key_at key key_len value node_of].

(** A test against NULL of the address of an owned node. *)
Ltac own_test :=
  match goal with
  | H : own _ _ |- context [?a =? NULL] =>
      front a H; rewrite (proj2 (Z.eqb_neq a NULL)) by exact (own_nonnull _ _ _ _ H)
  end.

Ltac solve_same :=
  repeat match goal with
  | H : same ?a ?b |- same ?a ?c => first [exact H | transitivity b; [exact H|clear H]]
  | |- same ?a ?a => reflexivity
  end.

(** ** Rotations *)

Lemma replace_child_own s k u v n L :
  own (nodes s) ((u, n) :: up_cells k u ++ L) -> root s = top_addr k u ->
  exists s', replace_child s u (up_addr k) v = Some s' /\ same s s' /\ root s' = top_addr k v /\
    own (nodes s') ((u, n) :: up_cells k v ++ L).
Proof.
  intros Ho Hr. unfold replace_child.
  destruct k as [|c a d b k|c a d b k]; cbn [up_cells up_addr top_addr app] in *.
  - cbn. eexists. split; [done|]. split; [by constructor|]. by split.
  - own_test. own_step. rewrite Z.eqb_refl. own_step. eexists. split; [done|]. split; [solve_same|].
    split; [congruence|]. eapply own_perm; [exact Ho|]. solve_Permutation.
  - own_test. own_step.
    assert (u <> addr b) as Hne.
    { destruct b as [|cb lb ab db rb]; cbn [addr cells app] in *; front u Ho; [by eapply own_nonnull|].
      front ab Ho. front u Ho. by eapply own_distinct. }
    rewrite (proj2 (Z.eqb_neq u (addr b))) by done. own_step. eexists. split; [done|]. split; [solve_same|].
    split; [congruence|]. eapply own_perm; [exact Ho|]. solve_Permutation.
Qed.

(** The memory holds the tree [t]. *)
Record holds (s : vox_rbtree) (t : tree) : Prop := {
  ho_root : root s = addr t;
  ho_own : own (nodes s) (cells NULL t);
}.

(** The same, at a place. *)
Lemma holds_at s k t :
  holds s (plug k t) <->
  root s = top_addr k (addr t) /\ own (nodes s) (cells (up_addr k) t ++ up_cells k (addr t)).
Proof.
  split.
  - intros [Hr Ho]. rewrite plug_addr in Hr. split; [done|]. eapply own_perm; [exact Ho|apply plug_cells].
  - intros [Hr Ho]. constructor; [by rewrite plug_addr|]. eapply own_perm; [exact Ho|]. symmetry. apply plug_cells.
Qed.

(** The child that moves across a rotation. *)
Lemma adopt_own s q p t L :
  own (nodes s) (cells q t ++ L) ->
  exists s', (if addr t =? NULL then Some s else set_parent s (addr t) p) = Some s' /\
    same s s' /\ root s' = root s /\ own (nodes s') (cells p t ++ L).
Proof.
  intros Ho. destruct t as [|c l a d r]; cbn [addr cells app] in *.
  - exists s. done.
  - rewrite (proj2 (Z.eqb_neq a NULL)) by (by eapply own_nonnull). own_step. eexists. split; [done|].
    split; [done|]. split; [done|]. done.
Qed.

Lemma left_rotate_ok s k c1 A x dx c2 B y dy C :
  holds s (plug k (T c1 A x dx (T c2 B y dy C))) ->
  exists s', left_rotate s x = Some s' /\ same s s' /\
    holds s' (plug k (T c2 (T c1 A x dx B) y dy C)).
Proof.
  intros [Hr Ho]%holds_at. cbn [addr cells app] in *. rewrite <-!app_assoc in Ho. cbn [app] in Ho.
  unfold left_rotate. own_step. own_step. own_step.
  apply (fun Hp => own_perm _ _ (cells y B ++ (x, node_of c1 (up_addr k) (addr A) (addr B) dx)
    :: (y, node_of c2 x (addr B) (addr C) dy) :: cells x A ++ cells y C ++ up_cells k x) Hp) in Ho;
    [|rewrite <-?app_assoc; solve_Permutation].
  destruct (adopt_own _ _ x _ _ Ho) as (s2 & -> & Hs2 & Hr2 & Ho2). clear Ho.
  own_norm. own_step. own_step.
  apply (fun Hp => own_perm _ _ ((x, node_of c1 (up_addr k) (addr A) (addr B) dx) :: up_cells k x ++
    (y, node_of c2 (up_addr k) (addr B) (addr C) dy) :: cells x A ++ cells y C ++ cells x B) Hp) in Ho2;
    [|rewrite <-?app_assoc; solve_Permutation].
  destruct (replace_child_own _ k x y _ _ Ho2 ltac:(congruence)) as (s3 & -> & Hs3 & Hr3 & Ho3). clear Ho2.
  own_norm. own_step. own_step. eexists. split; [done|]. split; [solve_same|].
  apply holds_at. cbn [addr cells app]. split; [congruence|].
  eapply own_perm; [exact Ho3|]. rewrite <-?app_assoc. solve_Permutation.
Qed.

Lemma right_rotate_ok s k c1 A x dx B c2 y dy C :
  holds s (plug k (T c2 (T c1 A x dx B) y dy C)) ->
  exists s', right_rotate s y = Some s' /\ same s s' /\
    holds s' (plug k (T c1 A x dx (T c2 B y dy C))).
Proof.
  intros [Hr Ho]%holds_at. cbn [addr cells app] in *. rewrite <-!app_assoc in Ho. cbn [app] in Ho.
  unfold right_rotate. own_step. own_step. own_step.
  apply (fun Hp => own_perm _ _ (cells x B ++ (y, node_of c2 (up_addr k) (addr B) (addr C) dy)
    :: (x, node_of c1 y (addr A) (addr B) dx) :: cells x A ++ cells y C ++ up_cells k y) Hp) in Ho;
    [|rewrite <-?app_assoc; solve_Permutation].
  destruct (adopt_own _ _ y _ _ Ho) as (s2 & -> & Hs2 & Hr2 & Ho2). clear Ho.
  own_norm. own_step. own_step.
  apply (fun Hp => own_perm _ _ ((y, node_of c2 (up_addr k) (addr B) (addr C) dy) :: up_cells k y ++
    (x, node_of c1 (up_addr k) (addr A) (addr B) dx) :: cells x A ++ cells y C ++ cells y B) Hp) in Ho2;
    [|rewrite <-?app_assoc; solve_Permutation].
  destruct (replace_child_own _ k y x _ _ Ho2 ltac:(congruence)) as (s3 & -> & Hs3 & Hr3 & Ho3). clear Ho2.
  own_norm. own_step. own_step. eexists. split; [done|]. split; [solve_same|].
  apply holds_at. cbn [addr cells app]. split; [congruence|].
  eapply own_perm; [exact Ho3|]. rewrite <-?app_assoc. solve_Permutation.
Qed.

(** ** Reading and painting a node at a place *)

Section places.
Context (s : vox_rbtree) (k : place).

Lemma node_at c l a d r :
  holds s (plug k (T c l a d r)) -> s !! a = Some (node_of c (up_addr k) (addr l) (addr r) d).
Proof. intros [_ Ho]%holds_at. cbn [cells app] in Ho. by eapply own_head. Qed.

Lemma nonnull_at c l a d r : holds s (plug k (T c l a d r)) -> (a =? NULL) = false.
Proof. intros [_ Ho]%holds_at. cbn [cells app] in Ho. apply Z.eqb_neq. by eapply own_nonnull. Qed.

Lemma is_red_at t : holds s (plug k t) -> is_red s (addr t) = Some (bool_decide (col t = RED)).
Proof.
  destruct t as [|c l a d r]; [done|]. intros Hh. unfold is_red. cbn [addr].
  by rewrite (nonnull_at _ _ _ _ _ Hh), (node_at _ _ _ _ _ Hh).
Qed.

Lemma is_black_at t : holds s (plug k t) -> is_black s (addr t) = Some (bool_decide (col t = BLACK)).
Proof.
  destruct t as [|c l a d r]; [done|]. intros Hh. unfold is_black. cbn [addr].
  by rewrite (nonnull_at _ _ _ _ _ Hh), (node_at _ _ _ _ _ Hh).
Qed.

Lemma get_color_at t : holds s (plug k t) -> get_color s (addr t) = Some (col t).
Proof.
  destruct t as [|c l a d r]; [done|]. intros Hh. unfold get_color. cbn [addr].
  by rewrite (nonnull_at _ _ _ _ _ Hh), (node_at _ _ _ _ _ Hh).
Qed.

Lemma set_color_at t c :
  holds s (plug k t) ->
  exists s', set_color s (addr t) c = Some s' /\ same s s' /\ holds s' (plug k (paint c t)).
Proof.
  destruct t as [|c0 l a d r]; cbn [addr paint]; intros Hh; [by exists s|].
  apply holds_at in Hh as [Hr Ho]. cbn [cells app addr] in *. own_step. eexists. split; [done|]. split; [done|].
  apply holds_at. split; [cbn [addr] in *; congruence|]. done.
Qed.
End places.

(** ** Tests on addresses *)

(** The colour of the root, when [c] is that of what is in the hole. *)
Fixpoint top_col (k : place) (c : colour) : colour :=
  match k with Top => c | CL c _ _ _ k | CR c _ _ _ k => top_col k c end.

Lemma plug_col k t : col (plug k t) = top_col k (col t).
Proof. revert t. induction k; intros t; cbn; [done|by rewrite IHk..]. Qed.

Definition is_top (k : place) : bool := match k with Top => true | _ => false end.

Lemma top_col_any k c c' : is_top k = false -> top_col k c = top_col k c'.
Proof. by destruct k. Qed.

Lemma top_col_black k c : top_col k c = BLACK -> top_col k BLACK = BLACK.
Proof. by destruct k. Qed.

Fixpoint depth (k : place) : nat :=
  match k with Top => 0 | CL _ _ _ _ k | CR _ _ _ _ k => S (depth k) end.

Lemma depth_cells k x : (depth k <= length (up_cells k x))%nat.
Proof.
  revert x. induction k as [|c a d b k IH|c a d b k IH]; intros x; cbn; [lia|..];
    rewrite length_app; specialize (IH a); lia.
Qed.

(** A place in the tree is no deeper than the fuel of the loops. *)
Lemma fuel_depth s k t : holds s (plug k t) -> (2 + depth k <= tree_fuel s)%nat.
Proof.
  intros [_ Ho]%holds_at. apply own_length in Ho. rewrite length_app in Ho.
  pose proof (depth_cells k (addr t)). unfold tree_fuel. lia.
Qed.

Lemma top_addr_in k x : is_top k = false -> top_addr k x ∈ (up_cells k x).*1.
Proof.
  revert x. induction k as [|c a d b k IH|c a d b k IH]; intros x Hk; [done|..];
    (cbn; destruct (is_top k) eqn:Ek; [destruct k; [by left|done..]|];
     right; rewrite fmap_app; apply elem_of_app; right; by apply IH).
Qed.

Lemma not_root s k t : holds s (plug k t) -> is_top k = false -> (addr t =? root s) = false.
Proof.
  intros [Hr Ho]%holds_at Hk. rewrite Hr. pose proof (top_addr_in k (addr t) Hk) as Hin.
  apply Z.eqb_neq. intros E. rewrite <-E in Hin. clear Hr E.
  destruct t as [|c l a d r]; cbn [addr cells app] in *.
  - destruct Ho as [_ Hn _]. by apply Hn.
  - destruct Ho as [Hd _ _]. cbn in Hd. apply NoDup_cons in Hd as [Hd _]. apply Hd.
    rewrite fmap_app. apply elem_of_app. by right.
Qed.

Lemma is_root s t : holds s t -> (addr t =? root s) = true.
Proof. intros [Hr _]. rewrite Hr. apply Z.eqb_refl. Qed.

(** Two children have different addresses, unless both are NULL. *)
Lemma children_differ s k c l a d r :
  holds s (plug k (T c l a d r)) -> l <> E \/ r <> E -> addr l <> addr r.
Proof.
  intros [_ Ho]%holds_at Hr. cbn [cells addr app] in Ho. rewrite <-app_assoc in Ho.
  destruct l as [|cl ll al dl rl], r as [|cr lr ar dr rr]; cbn [cells addr app] in *; [by destruct Hr|..].
  - front ar Ho. intros E. by eapply own_nonnull.
  - front al Ho. by eapply own_nonnull.
  - front ar Ho. front al Ho. by eapply own_distinct.
Qed.

Lemma left_not_right s k c l a d r :
  holds s (plug k (T c l a d r)) -> l <> E -> (addr l =? addr r) = false.
Proof. intros Hh Hl. apply Z.eqb_neq. eapply children_differ; [done|by left]. Qed.

Lemma right_not_left s k c l a d r :
  holds s (plug k (T c l a d r)) -> r <> E -> (addr r =? addr l) = false.
Proof. intros Hh Hl. rewrite Z.eqb_sym. apply Z.eqb_neq. eapply children_differ; [done|by right]. Qed.

(** ** What the fix-up after an insertion computes *)

Fixpoint insert_fix (k : place) (t : tree) : tree :=
  match k with
  | CL VOX_RBTREE_RED p dp sp (CL _ g dg u k') =>
      if decide (col u = RED) then insert_fix k' (T RED (T BLACK t p dp sp) g dg (paint BLACK u))
      else plug k' (T BLACK t p dp (T RED sp g dg u))
  | CR VOX_RBTREE_RED p dp sp (CL _ g dg u k') =>
      if decide (col u = RED) then insert_fix k' (T RED (T BLACK sp p dp t) g dg (paint BLACK u))
      else match t with
           | T _ tl n dn tr => plug k' (T BLACK (T RED sp p dp tl) n dn (T RED tr g dg u))
           | E => E
           end
  | CR VOX_RBTREE_RED p dp sp (CR _ g dg u k') =>
      if decide (col u = RED) then insert_fix k' (T RED (paint BLACK u) g dg (T BLACK sp p dp t))
      else plug k' (T BLACK (T RED u g dg sp) p dp t)
  | CL VOX_RBTREE_RED p dp sp (CR _ g dg u k') =>
      if decide (col u = RED) then insert_fix k' (T RED (paint BLACK u) g dg (T BLACK t p dp sp))
      else match t with
           | T _ tl n dn tr => plug k' (T BLACK (T RED u g dg tl) n dn (T RED tr p dp sp))
           | E => E
           end
  | _ => plug k t
  end.

(** The loop ends at the root and below a black node. *)
Definition stops (k : place) : bool :=
  match k with Top => true | CL c _ _ _ _ | CR c _ _ _ _ => bool_decide (c = BLACK) end.

Lemma insert_stop fuel s k c l a d r :
  holds s (plug k (T c l a d r)) -> stops k = true -> insert_fixup_loop (S fuel) s a = Some s.
Proof.
  intros Hh Hk. pose proof (node_at _ _ _ _ _ _ _ Hh) as Hn. cbn [insert_fixup_loop].
  destruct k as [|ck p dp b k|ck p dp b k]; cbn [stops up_addr] in *.
  - pose proof (is_root _ _ Hh) as E. cbn in E. by rewrite E.
  - pose proof (not_root _ _ _ Hh eq_refl) as E. cbn [addr] in E. rewrite E, Hn.
    cbn [mbind option_bind fmap option_fmap option_map parent node_of].
    pose proof (is_red_at _ k _ Hh) as Er. cbn [addr col] in Er. rewrite Er. apply bool_decide_eq_true in Hk as ->. done.
  - pose proof (not_root _ _ _ Hh eq_refl) as E. cbn [addr] in E. rewrite E, Hn.
    cbn [mbind option_bind fmap option_fmap option_map parent node_of].
    pose proof (is_red_at _ k _ Hh) as Er. cbn [addr col] in Er. rewrite Er. apply bool_decide_eq_true in Hk as ->. done.
Qed.

Definition is_left (k : place) : bool := match k with CL _ _ _ _ _ => true | _ => false end.

Lemma left_child_at s k t :
  holds s (plug k t) -> t <> E -> left_child_of s (addr t) (up_addr k) = Some (is_left k).
Proof.
  intros Hh Ht. unfold left_child_of. destruct t as [|c l a d r]; [done|]. cbn [addr].
  rewrite (nonnull_at _ _ _ _ _ _ _ Hh). destruct k as [|ck b dk sib k|ck b dk sib k]; cbn [up_addr is_left orb];
    [done|..]; cbn [plug] in Hh; rewrite (nonnull_at _ _ _ _ _ _ _ Hh), (node_at _ _ _ _ _ _ _ Hh);
    cbn [mbind option_bind fmap option_fmap option_map left node_of addr]; [by rewrite Z.eqb_refl|].
  f_equal. by apply (right_not_left _ _ _ _ _ _ _ Hh).
Qed.

Definition both_black (t : tree) : bool :=
  match t with
  | E => true
  | T _ l _ _ r => bool_decide (col l = BLACK) && bool_decide (col r = BLACK)
  end.

Lemma black_children_at s k t : holds s (plug k t) -> black_children s (addr t) = Some (both_black t).
Proof.
  intros Hh. unfold black_children. destruct t as [|c l a d r]; [done|]. cbn [addr both_black].
  rewrite (nonnull_at _ _ _ _ _ _ _ Hh), (node_at _ _ _ _ _ _ _ Hh).
  cbn [mbind option_bind left right node_of]. rewrite (is_black_at s (CL c a d r k) l Hh).
  cbn [mbind option_bind]. destruct (bool_decide (col l = BLACK)); [|done].
  by rewrite (is_black_at s (CR c a d l k) r Hh).
Qed.

(** Find a node or a subtree in a tree, with its place. *)
Ltac find_at a k t :=
  lazymatch a with
  | addr ?X =>
      match t with
      | X => constr:((k, t))
      | T ?c ?l ?b ?d ?r => find_at a constr:(CL c b d r k) l
      | T ?c ?l ?b ?d ?r => find_at a constr:(CR c b d l k) r
      end
  | _ =>
      match t with
      | T ?c ?l a ?d ?r => constr:((k, t))
      | T ?c ?l ?b ?d ?r => find_at a constr:(CL c b d r k) l
      | T ?c ?l ?b ?d ?r => find_at a constr:(CR c b d l k) r
      end
  end.

Ltac at_norm :=
  cbn [mbind option_bind fmap option_fmap option_map color parent left right key_at key key_len value
    node_of addr col up_addr paint plug negb].
Ltac at_norm_in H := cbn [addr col up_addr paint plug node_of] in H.

(** [Hh : holds s (plug k t)] runs the next access of the goal. *)
Ltac at_rewrite lem H :=
  let E := fresh in pose proof lem as E; at_norm_in E; rewrite E; clear E.
Ltac at_run lem H :=
  let s' := fresh "s" in let E := fresh in let Hs := fresh "Hs" in let H' := fresh in
  destruct lem as (s' & E & Hs & H'); at_norm_in E; at_norm_in H'; rewrite E; clear E H; rename H' into H.

(** The first access of a program. *)
Ltac head_of e :=
  lazymatch e with
  | mbind _ ?x => head_of x
  | fmap _ ?x => head_of x
  | negb ?b => head_of b
  | orb ?b _ => head_of b
  | (if ?b then _ else _) => head_of b
  | _ => e
  end.

Ltac at_op s k t H op :=
  lazymatch op with
  | @lookup _ _ _ rbtree_lookup ?a s =>
      match find_at a k t with (?k', ?t') => at_rewrite (node_at s k' _ _ _ _ _ (H : holds s (plug k' t'))) H end
  | is_red s ?a => match find_at a k t with (?k', ?t') => at_rewrite (is_red_at s k' t' H) H end
  | is_black s ?a => match find_at a k t with (?k', ?t') => at_rewrite (is_black_at s k' t' H) H end
  | get_color s ?a => match find_at a k t with (?k', ?t') => at_rewrite (get_color_at s k' t' H) H end
  | set_color s ?a ?c =>
      match find_at a k t with (?k', ?t') => at_run (set_color_at s k' t' c H) H end
  | left_rotate s ?a =>
      match find_at a k t with (?k', ?t') =>
        at_run (left_rotate_ok s k' _ _ _ _ _ _ _ _ _ (H : holds s (plug k' t'))) H end
  | right_rotate s ?a =>
      match find_at a k t with (?k', ?t') =>
        at_run (right_rotate_ok s k' _ _ _ _ _ _ _ _ _ (H : holds s (plug k' t'))) H end
  | left_child_of s ?a ?b =>
      match find_at a k t with (?k', ?t') => at_rewrite (left_child_at s k' t' H ltac:(done)) H end
  | black_children s ?a => match find_at a k t with (?k', ?t') => at_rewrite (black_children_at s k' t' H) H end
  | ?a =? NULL =>
      match find_at a k t with (?k', ?t') => at_rewrite (nonnull_at s k' _ _ _ _ _ (H : holds s (plug k' t'))) H end
  | ?a =? ?a => rewrite Z.eqb_refl
  | bool_decide (RED = RED) => change (bool_decide (RED = RED)) with true
  | bool_decide (BLACK = BLACK) => change (bool_decide (BLACK = BLACK)) with true
  | bool_decide (RED = BLACK) => change (bool_decide (RED = BLACK)) with false
  | bool_decide (BLACK = RED) => change (bool_decide (BLACK = RED)) with false
  | ?op => match goal with E : op = _ |- _ => rewrite E end
  end.

Ltac at_step :=
  match goal with
  | H : holds ?s (plug ?k ?t) |- exists s', ?prog = Some s' /\ _ =>
      let op := head_of prog in at_op s k t H op
  end; at_norm.

Lemma insert_loop_ok fuel s k c l a d r :
  holds s (plug k (T c l a d r)) -> (1 + depth k < fuel)%nat ->
  (is_top k = false -> top_col k BLACK = BLACK) ->
  exists s', insert_fixup_loop fuel s a = Some s' /\ same s s' /\ holds s' (insert_fix k (T c l a d r)).
Proof.
  revert s k c l a d r. induction fuel as [fuel IH] using lt_wf_ind. intros s k c l a d r Hh Hf Ht.
  destruct fuel as [|fuel]; [lia|].
  destruct (stops k) eqn:Ek.
  { exists s. split; [by eapply insert_stop|]. split; [done|].
    destruct k as [|[] ? ? ? k|[] ? ? ? k]; done. }
  destruct k as [|[] p dp b k|[] p dp b k]; try done; cbn [top_col is_top depth] in *;
    pose proof (not_root _ _ _ Hh eq_refl) as Er; cbn [plug addr] in *;
    try (pose proof (left_not_right _ _ _ _ _ _ _ Hh ltac:(done)) as En; cbn [addr] in En);
    try (pose proof (right_not_left _ _ _ _ _ _ _ Hh ltac:(done)) as En; cbn [addr] in En);
    (destruct k as [|cg g dg u k|cg g dg u k]; cbn [plug is_top top_col depth] in *; [by specialize (Ht eq_refl)|..]);
    cbn [insert_fixup_loop insert_fix]; rewrite Er.
  all: try (pose proof (right_not_left _ _ _ _ _ _ _ Hh ltac:(done)) as Ep; cbn [addr] in Ep).
  all: repeat at_step.
  all: destruct (decide (col u = RED)) as [Eu|Eu];
       [rewrite (bool_decide_eq_true_2 _ Eu)|rewrite (bool_decide_eq_false_2 _ Eu)].
  all: repeat at_step.
  all: try (destruct (IH fuel ltac:(lia) _ k _ _ _ _ _ Hh) as (s' & -> & Hs' & Hh'); [lia| |]; 
    [intros Hk; rewrite <-(Ht eq_refl); by apply top_col_any|]).
  all: try (exists s'; split; [done|]; split; [solve_same|]; done).
  all: destruct fuel as [|fuel]; [lia|].
  all: eexists; split; [|split; [|exact Hh]]; [|solve_same].
  all: first [eapply (insert_stop _ _ (CL BLACK _ _ _ _)); [exact Hh|done]
             |eapply (insert_stop _ _ (CR BLACK _ _ _ _)); [exact Hh|done]].
Qed.

Lemma insert_fixup_ok s k c l a d r :
  holds s (plug k (T c l a d r)) -> (is_top k = false -> top_col k BLACK = BLACK) ->
  exists s', insert_fixup s a = Some s' /\ same s s' /\ holds s' (paint BLACK (insert_fix k (T c l a d r))).
Proof.
  intros Hh Ht. unfold insert_fixup. pose proof (fuel_depth _ _ _ Hh).
  destruct (insert_loop_ok (tree_fuel s) s k c l a d r Hh) as (s1 & -> & Hs1 & Hh1); [lia|done|].
  cbn [mbind option_bind]. rewrite (ho_root _ _ Hh1).
  destruct (set_color_at s1 Top _ BLACK Hh1) as (s2 & -> & Hs2 & Hh2).
  exists s2. split; [done|]. split; [solve_same|done].
Qed.

(** ** In-order walk of a tree: addresses and items *)

Fixpoint inorder (t : tree) : list (Z * item) :=
  match t with E => [] | T _ l a d r => inorder l ++ (a, d) :: inorder r end.

(** What comes before and after the hole. *)
Fixpoint before (k : place) : list (Z * item) :=
  match k with Top => [] | CL _ _ _ _ k => before k | CR _ a d s k => before k ++ inorder s ++ [(a, d)] end.
Fixpoint after (k : place) : list (Z * item) :=
  match k with Top => [] | CL _ a d s k => (a, d) :: inorder s ++ after k | CR _ _ _ _ k => after k end.

Lemma plug_not_E k t : t <> E -> plug k t <> E.
Proof. revert t. induction k; intros t Ht; [done|by apply IHk..]. Qed.

Lemma plug_inorder k t : inorder (plug k t) = before k ++ inorder t ++ after k.
Proof.
  revert t. induction k as [|c a d b k IH|c a d b k IH]; intros t; cbn; [by rewrite app_nil_r|..];
    rewrite IH; cbn; by rewrite <-!app_assoc.
Qed.

Lemma plug_inorder_eq k t t' : inorder t = inorder t' -> inorder (plug k t) = inorder (plug k t').
Proof. intros E. by rewrite !plug_inorder, E. Qed.

Lemma paint_inorder c t : inorder (paint c t) = inorder t.
Proof. by destruct t. Qed.

Lemma insert_fix_inorder k t : t <> E -> inorder (insert_fix k t) = inorder (plug k t).
Proof.
  remember (depth k) as n eqn:En. revert k t En. induction n as [n IH] using lt_wf_ind. intros k t -> Ht.
  destruct k as [|[] p dp b [|cg g dg u k|cg g dg u k]|[] p dp b [|cg g dg u k|cg g dg u k]]; try done;
    cbn [insert_fix plug]; case_decide;
    try (rewrite (IH (depth k)); [|cbn [depth]; lia|done..]);
    try (destruct t as [|ct tl n dn tr]; [done|]); apply plug_inorder_eq; cbn [inorder];
    rewrite ?paint_inorder, <-?app_assoc; cbn [app inorder]; by rewrite <-?app_assoc.
Qed.

(** ** What the fix-up after a deletion computes *)

(** Where a round leaves the loop: at the root, at a red node, or one step up. *)
Record round (k : place) (t : tree) (s : vox_rbtree) (node p : Z) (il : bool) (k' : place) (u : tree) : Prop := {
  rd_holds : holds s (plug k' u);
  rd_node : u <> E /\ node = addr u;
  rd_inorder : inorder (plug k' u) = inorder (plug k t);
  rd_root : top_col k' (col u) = BLACK;
  rd_next : k' = Top \/ col u = RED \/ (k' = k /\ p = up_addr k /\ il = is_left k);
}.

Ltac case_black t :=
  let Eb := fresh "Eb" in
  destruct (decide (col t = BLACK)) as [Eb|Eb];
  [rewrite (bool_decide_eq_true_2 _ Eb)|rewrite (bool_decide_eq_false_2 _ Eb)].

Lemma round_root k t t' s p il :
  holds s (plug k t') -> t' <> E -> inorder t' = inorder t -> top_col k (col t') = BLACK ->
  round k t s (root s) p il Top (plug k t').
Proof.
  intros Hh Ht Hi Hc. constructor.
  - exact Hh.
  - split; [by apply plug_not_E|by rewrite (ho_root _ _ Hh)].
  - cbn [plug]. by apply plug_inorder_eq.
  - cbn [top_col]. by rewrite plug_col.
  - by left.
Qed.

Ltac solve_inorder :=
  cbn [plug inorder]; rewrite ?paint_inorder; cbn [inorder];
  repeat first [rewrite <-app_assoc | rewrite <-app_comm_cons]; reflexivity.

(** The end of a round, with its tree in [Hh]. *)
Ltac round_end k Hh Hc :=
  eexists; split; [reflexivity|]; split; [cbn [fst snd]; solve_same|]; cbn [fst snd];
  first
    [ eexists _, _; apply (round_root _ _ _ _ _ _ Hh);
      [done|solve_inorder|cbn [col]; first [exact Hc|exact (top_col_black _ _ Hc)]]
    | match type of Hh with
      | holds _ (plug _ (T ?c (T RED ?l ?p ?d ?r) ?y ?dy ?rr)) =>
          exists (CL c y dy rr k), (T RED l p d r); constructor;
          [exact Hh|done|cbn [plug]; apply plug_inorder_eq; solve_inorder|exact (top_col_black _ _ Hc)|right; by left]
      | holds _ (plug _ (T ?c ?ll ?y ?dy (T RED ?l ?p ?d ?r))) =>
          exists (CR c y dy ll k), (T RED l p d r); constructor;
          [exact Hh|done|cbn [plug]; apply plug_inorder_eq; solve_inorder|exact (top_col_black _ _ Hc)|right; by left]
      end
    | exists k; eexists; constructor;
      [exact Hh|done|apply plug_inorder_eq; solve_inorder|exact Hc|right; by right] ].

Lemma fixup_left_ok s k c l p dp r :
  holds s (plug k (T c l p dp r)) -> top_col k c = BLACK ->
  exists s', fixup_left s p = Some s' /\ same s s'.1.1.1 /\
    exists k' u, round k (T c l p dp r) s'.1.1.1 s'.1.1.2 s'.1.2 s'.2 k' u.
Proof.
  intros Hh Hc. unfold fixup_left. repeat at_step.
  destruct (decide (col r = RED)) as [Er|Er];
    [rewrite (bool_decide_eq_true_2 _ Er)|rewrite (bool_decide_eq_false_2 _ Er)].
  1: destruct r as [|cr r y dy rr]; [done|]; at_norm.
  all: at_norm; repeat at_step; destruct (both_black r) eqn:Eb; repeat at_step.
  2,4: destruct r as [|cw wl w dw wr]; [done|]; cbn [both_black] in Eb; at_norm; repeat at_step; 
    case_black wr; [|at_norm; repeat at_step].
  2,4: destruct wl as [|c1 w1 w1a d1 w2]; [by rewrite (bool_decide_eq_true_2 (col wr = BLACK)) in Eb by done|]; at_norm; repeat at_step.
  all: round_end k Hh Hc.
Qed.

Lemma fixup_right_ok s k c l p dp r :
  holds s (plug k (T c l p dp r)) -> top_col k c = BLACK ->
  exists s', fixup_right s p = Some s' /\ same s s'.1.1.1 /\
    exists k' u, round k (T c l p dp r) s'.1.1.1 s'.1.1.2 s'.1.2 s'.2 k' u.
Proof.
  intros Hh Hc. unfold fixup_right. repeat at_step.
  destruct (decide (col l = RED)) as [Er|Er];
    [rewrite (bool_decide_eq_true_2 _ Er)|rewrite (bool_decide_eq_false_2 _ Er)].
  1: destruct l as [|cl ll y dy l]; [done|]; at_norm.
  all: at_norm; repeat at_step; destruct (both_black l) eqn:Eb; repeat at_step.
  2,4: destruct l as [|cw wl w dw wr]; [done|]; cbn [both_black] in Eb; at_norm; repeat at_step;
    case_black wl; [|at_norm; repeat at_step].
  2,4: destruct wr as [|c1 w1 w1a d1 w2];
    [by rewrite (bool_decide_eq_true_2 (col wl = BLACK)) in Eb by done|]; at_norm; repeat at_step.
  all: round_end k Hh Hc.
Qed.

(** The tree a deletion leaves: same items in the same order, and a black root. *)
Definition refixed (s : vox_rbtree) (t : tree) (r : option vox_rbtree) : Prop :=
  exists s' t', r = Some s' /\ same s s' /\ holds s' t' /\ inorder t' = inorder t /\ col t' = BLACK.

Lemma refixed_trans s s1 t t1 r :
  same s s1 -> inorder t1 = inorder t -> refixed s1 t1 r -> refixed s t r.
Proof.
  intros Hs Hi (s' & t' & -> & Hs' & Hh & Hi' & Hc). exists s', t'.
  split; [done|]. split; [by transitivity s1|]. split; [done|]. split; [congruence|done].
Qed.

Lemma paint_col k u : top_col k BLACK = BLACK -> u <> E -> col (plug k (paint BLACK u)) = BLACK.
Proof. intros Hk Hu. rewrite plug_col. by destruct u. Qed.

(** The root and a red node are painted black. *)
Lemma delete_exit fuel s k u p il :
  holds s (plug k u) -> u <> E -> top_col k BLACK = BLACK -> k = Top \/ col u = RED ->
  exists s', delete_fixup_loop (S fuel) s (addr u) p il = Some s' /\ same s s' /\
    holds s' (plug k (paint BLACK u)).
Proof.
  intros Hh Hu Ht Hk. destruct (set_color_at s k u BLACK Hh) as (s' & E & Hs & Hh').
  exists s'. split; [|done]. cbn [delete_fixup_loop]. destruct (addr u =? root s) eqn:Er; [done|].
  destruct Hk as [->|Hr].
  - pose proof (is_root s u Hh). congruence.
  - rewrite (is_black_at _ _ _ Hh). rewrite Hr. change (bool_decide (RED = BLACK)) with false.
    cbn [mbind option_bind negb orb]. exact E.
Qed.

Lemma round_next k t s node p il k' u fuel :
  round k t s node p il k' u ->
  (forall p' il', k' = k -> p' = up_addr k -> il' = is_left k ->
     refixed s (plug k' u) (delete_fixup_loop (S fuel) s (addr u) p' il')) ->
  refixed s (plug k t) (delete_fixup_loop (S fuel) s node p il).
Proof.
  intros [Hh [Hu ->] Hi Hc Hn] Hnext.
  apply (refixed_trans s s _ (plug k' u)); [done|done|].
  assert (k' = Top \/ col u = RED -> refixed s (plug k' u) (delete_fixup_loop (S fuel) s (addr u) p il)) as Hx.
  { intros Hk. destruct (delete_exit fuel s k' u p il Hh Hu) as (s' & E & Hs & Hh');
      [by eapply top_col_black|done|]. exists s', (plug k' (paint BLACK u)).
    split; [done|]. split; [done|]. split; [done|]. split; [apply plug_inorder_eq, paint_inorder|].
    apply paint_col; [by eapply top_col_black|done]. }
  destruct Hn as [Hn|[Hn|(-> & -> & ->)]]; [apply Hx; by left|apply Hx; by right|]. by apply Hnext.
Qed.

(** From a node of the tree, which may be the wrong one. *)
Lemma delete_loop_node fuel s k u :
  holds s (plug k u) -> u <> E -> (is_top k = false -> top_col k BLACK = BLACK) -> (1 + depth k < fuel)%nat ->
  refixed s (plug k u) (delete_fixup_loop fuel s (addr u) (up_addr k) (is_left k)).
Proof.
  revert s k u. induction fuel as [|fuel IH]; intros s k u Hh Hu Ht Hf; [lia|].
  assert (top_col k BLACK = BLACK) as Hc by (destruct (is_top k) eqn:Ek; [by destruct k|auto]).
  assert ((k = Top \/ col u = RED) \/ (is_top k = false /\ col u = BLACK)) as [Hk|[Hkt Hb]].
  { destruct k; [by left; left|..]; destruct (col u); auto. }
  { destruct (delete_exit fuel s k u (up_addr k) (is_left k) Hh Hu Hc Hk) as (s' & E & Hs & Hh').
    exists s', (plug k (paint BLACK u)). split; [done|]. split; [done|]. split; [done|].
    split; [apply plug_inorder_eq, paint_inorder|]. by apply paint_col. }
  pose proof (not_root _ _ _ Hh Hkt) as Er. pose proof (is_black_at _ _ _ Hh) as Eb.
  rewrite (bool_decide_eq_true_2 _ Hb) in Eb. cbn [delete_fixup_loop]. rewrite Er, Eb.
  cbn [mbind option_bind negb orb].
  destruct k as [|c p dp sib k|c p dp sib k]; [done|..]; cbn [plug up_addr is_left top_col depth] in *;
    rewrite (nonnull_at _ _ _ _ _ _ _ Hh);
    [destruct (fixup_left_ok s k c u p dp sib Hh) as ([[[s1 node] p1] il] & -> & Hs & k' & v & Hr)
    |destruct (fixup_right_ok s k c sib p dp u Hh) as ([[[s1 node] p1] il] & -> & Hs & k' & v & Hr)];
    try (by apply Ht); cbn [mbind option_bind fst snd] in *;
    (destruct fuel as [|fuel]; [lia|]);
    (eapply refixed_trans; [exact Hs|reflexivity|]); eapply round_next; [exact Hr| |exact Hr|];
    intros p' il' -> -> ->; apply IH; [apply Hr|apply Hr| |lia| apply Hr|apply Hr| |lia];
    intros Hk'; rewrite (top_col_any k _ c) by done; by apply Ht.
Qed.

Lemma root_nonnull s t : holds s t -> t <> E -> root s <> NULL.
Proof.
  intros [-> Ho] Ht. destruct t as [|c l a d r]; [done|]. by eapply own_nonnull.
Qed.

(** From NULL, with any node taken for its parent. *)
Lemma delete_loop_null fuel s k c l p dp r il :
  holds s (plug k (T c l p dp r)) -> top_col k c = BLACK -> (2 + depth k < fuel)%nat ->
  refixed s (plug k (T c l p dp r)) (delete_fixup_loop fuel s NULL p il).
Proof.
  intros Hh Hc Hf. destruct fuel as [|fuel]; [lia|]. cbn [delete_fixup_loop].
  pose proof (root_nonnull _ _ Hh ltac:(by apply plug_not_E)) as Er.
  rewrite (proj2 (Z.eqb_neq NULL (root s))) by congruence. change (is_black s NULL) with (Some true).
  cbn [mbind option_bind negb orb]. rewrite (nonnull_at _ _ _ _ _ _ _ Hh).
  assert (exists s', (if il then fixup_left s p else fixup_right s p) = Some s' /\ same s s'.1.1.1 /\
    exists k' u, round k (T c l p dp r) s'.1.1.1 s'.1.1.2 s'.1.2 s'.2 k' u)
    as ([[[s1 node] p1] il1] & -> & Hs & k' & v & Hr).
  { destruct il; [by apply fixup_left_ok|by apply fixup_right_ok]. }
  cbn [mbind option_bind fst snd] in *. destruct fuel as [|fuel]; [lia|].
  eapply refixed_trans; [exact Hs|reflexivity|]. eapply round_next; [exact Hr|].
  intros p' il' -> -> ->. apply delete_loop_node; [apply Hr|apply Hr| |lia].
  intros Hk'. rewrite (top_col_any k _ c) by done. done.
Qed.

(** Without a parent, or with an empty tree, there is nothing to do. *)
Lemma delete_loop_top fuel s t il :
  holds s t -> col t = BLACK -> refixed s t (delete_fixup_loop (S fuel) s NULL NULL il).
Proof.
  intros Hh Hc. exists s, t. split; [|done]. cbn [delete_fixup_loop].
  change (set_color s NULL BLACK) with (Some s). change (is_black s NULL) with (Some true).
  by destruct (NULL =? root s).
Qed.

(** ** Taking a node out *)

Lemma own_tail m x L : own m (x :: L) -> own m L.
Proof.
  intros [Hd Hn Hg]. cbn in Hd, Hn. apply NoDup_cons in Hd as [_ Hd]. constructor; [done| |].
  - intros Hx. apply Hn. by right.
  - intros a n Ha. apply Hg. by right.
Qed.

(** The place [k1] below the place [k]. *)
Fixpoint on (k1 k : place) : place :=
  match k1 with
  | Top => k
  | CL c a d s k1 => CL c a d s (on k1 k)
  | CR c a d s k1 => CR c a d s (on k1 k)
  end.

Lemma plug_on k1 k t : plug (on k1 k) t = plug k (plug k1 t).
Proof. revert t. induction k1; intros t; cbn; [done|by rewrite IHk1..]. Qed.

Lemma addr_nonnull s k t : holds s (plug k t) -> t <> E -> (addr t =? NULL) = false.
Proof. intros Hh Ht. destruct t as [|c l a d r]; [done|]. by eapply nonnull_at. Qed.

Lemma cells_length p q t : length (cells p t) = length (cells q t).
Proof. by destruct t. Qed.

(** What hangs off the least node of a tree, and its colour. *)
Fixpoint least (t : tree) : tree * colour :=
  match t with E => (E, RED) | T c E _ _ r => (r, c) | T _ l _ _ _ => least l end.

(** The same for the node whose place is emptied when the root of [t] is deleted. *)
Definition spliced (t : tree) : tree * colour :=
  match t with
  | E => (E, RED)
  | T c E _ _ r => (r, c)
  | T c l _ _ E => (l, c)
  | T _ _ _ _ r => least r
  end.

(** The least node of a tree. *)
Lemma min_loop_ok fuel s k t :
  holds s (plug k t) -> t <> E -> (length (cells NULL t) <= fuel)%nat ->
  exists k1 c y d r, min_loop fuel s (addr t) = Some y /\ t = plug k1 (T c E y d r) /\
    least t = (r, c) /\ inorder t = (y, d) :: inorder (plug k1 r) /\ (k1 = Top \/ (is_top k1 = false /\ addr (plug k1 r) = addr t)).
Proof.
  revert k fuel. induction t as [|c l IH a d r _]; [done|]. intros k fuel Hh _ Hf.
  destruct fuel as [|fuel]; [cbn in Hf; lia|]. cbn [min_loop addr].
  rewrite (nonnull_at _ _ _ _ _ _ _ Hh), (node_at _ _ _ _ _ _ _ Hh). own_norm.
  assert (l = E \/ l <> E) as [->|Hl] by (destruct l; auto).
  { exists Top, c, a, d, r. cbn. split_and!; auto. }
  rewrite (addr_nonnull s (CL c a d r k) l Hh Hl).
  destruct (IH (CL c a d r k) fuel Hh Hl) as (k1 & c1 & y & d1 & r1 & Em & Et & El & Ei & Ek).
  { cbn [length] in Hf. rewrite length_app, (cells_length a NULL) in Hf. lia. }
  exists (on k1 (CL c a d r Top)), c1, y, d1, r1. split; [done|]. rewrite !plug_on. cbn [plug inorder addr].
  split; [by rewrite <-Et|]. split; [by destruct l|]. split; [by rewrite Ei|]. right. split; [by destruct k1|done].
Qed.

Lemma transplant_own s k c l a d r q v L :
  own (nodes s) ((a, node_of c (up_addr k) l r d) :: cells q v ++ up_cells k a ++ L) ->
  root s = top_addr k a ->
  exists s', transplant s a (addr v) = Some s' /\ same s s' /\ root s' = top_addr k (addr v) /\
    own (nodes s') ((a, node_of c (up_addr k) l r d) :: cells (up_addr k) v ++ up_cells k (addr v) ++ L).
Proof.
  intros Ho Hr. unfold transplant. own_step.
  apply (fun Hp => own_perm _ _ ((a, node_of c (up_addr k) l r d) :: up_cells k a ++ cells q v ++ L) Hp) in Ho;
    [|solve_Permutation].
  destruct (replace_child_own s k a (addr v) _ _ Ho Hr) as (s1 & -> & Hs1 & Hr1 & Ho1). clear Ho.
  cbn [mbind option_bind]. own_step.
  apply (fun Hp => own_perm _ _ (cells q v ++ (a, node_of c (up_addr k) l r d) :: up_cells k (addr v) ++ L) Hp) in Ho1;
    [|solve_Permutation].
  destruct (adopt_own s1 q (up_addr k) v _ Ho1) as (s2 & E2 & Hs2 & Hr2 & Ho2). clear Ho1.
  exists s2. split; [by destruct (addr v =? NULL)|]. split; [solve_same|]. split; [congruence|].
  eapply own_perm; [exact Ho2|]. solve_Permutation.
Qed.
(** What [unlink] leaves: the tree without the node, whose memory is still there, and the
    place [K] of [x]. *)
Definition unlinked (k : place) (c : colour) (l : tree) (a : Z) (r : tree) (y : Z) (K : place) (u : tree)
  (c0 : colour) : Prop :=
  (forall d, spliced (T c l a d r) = (u, c0)) /\
  ((y = a /\ K = k /\ c0 = c /\ (l = E /\ u = r \/ r = E /\ u = l)) \/
  (exists k1 dy, r = plug k1 (T c0 E y dy u) /\ inorder r = (y, dy) :: inorder (plug k1 u) /\
    K = on k1 (CR c y dy l k))).

Lemma on_in k1 c a d b k x : a ∈ (up_cells (on k1 (CR c a d b k)) x).*1.
Proof.
  revert x. induction k1 as [|c1 a1 d1 b1 k1 IH|c1 a1 d1 b1 k1 IH]; intros x; cbn; [by left|..];
    right; rewrite fmap_app; apply elem_of_app; right; apply IH.
Qed.

(** The parent of a node deeper in the right subtree of [a] is not [a]. *)
Lemma parent_deep s k1 c a d b k t :
  holds s (plug (on k1 (CR c a d b k)) t) -> is_top k1 = false -> up_addr (on k1 (CR c a d b k)) <> a.
Proof.
  intros Hh Hk Ha. destruct k1 as [|c1 a1 d1 b1 k1|c1 a1 d1 b1 k1]; [done|..]; cbn [on up_addr plug] in *;
    subst a1; apply holds_at in Hh as [_ Ho]; cbn [cells addr app] in Ho; destruct Ho as [Hd _ _];
    cbn [fmap list_fmap fst] in Hd; apply NoDup_cons in Hd as [Hd _]; apply Hd;
    rewrite fmap_app; apply elem_of_app; right; apply on_in.
Qed.

Lemma unlink_ok s k c l a d r :
  holds s (plug k (T c l a d r)) ->
  exists s' y K u c0 n, unlink s a = Some (s', y, addr u, c0) /\ same s s' /\
    root s' = addr (plug K u) /\ own (nodes s') ((a, n) :: cells NULL (plug K u)) /\
    parent n = up_addr k /\ unlinked k c l a r y K u c0.
Proof.
  intros Hh. unfold unlink. rewrite (node_at _ _ _ _ _ _ _ Hh). own_norm.
  assert (l = E \/ l <> E) as [->|Hl] by (destruct l; auto).
  { cbn [addr]. rewrite Z.eqb_refl. apply holds_at in Hh as [Hr Ho]. cbn [addr cells app] in *.
    destruct (transplant_own s k c NULL a d (addr r) a r [] ltac:(by rewrite app_nil_r) Hr)
      as (s' & -> & Hs & Hr' & Ho'). cbn [mbind option_bind].
    exists s', a, k, r, c; eexists. split; [done|]. split; [done|]. split; [by rewrite plug_addr|].
    split; [rewrite plug_cells; by rewrite app_nil_r in Ho'|]. split; [done|]. split; [done|]. left. split_and!; auto. }
  rewrite (addr_nonnull s (CL c a d r k) l Hh Hl).
  assert (r = E \/ r <> E) as [->|Hrn] by (destruct r; auto).
  { cbn [addr]. rewrite Z.eqb_refl. apply holds_at in Hh as [Hr Ho]. cbn [addr cells app] in *.
    rewrite app_nil_r in Ho.
    destruct (transplant_own s k c (addr l) a d NULL a l [] ltac:(by rewrite app_nil_r) Hr)
      as (s' & -> & Hs & Hr' & Ho'). cbn [mbind option_bind].
    exists s', a, k, l, c; eexists. split; [done|]. split; [done|]. split; [by rewrite plug_addr|].
    split; [rewrite plug_cells; by rewrite app_nil_r in Ho'|]. split; [done|]. split; [by destruct l|]. left. split_and!; auto. }
  assert (Hhr : holds s (plug (CR c a d l k) r)) by exact Hh.
  rewrite (addr_nonnull _ _ _ Hhr Hrn).
  destruct (min_loop_ok (tree_fuel s) s _ r Hhr Hrn) as (k1 & cy & y & dy & u & Em & Er & El & Ei & Ek).
  { apply holds_at in Hhr as [_ Ho]. apply own_length in Ho. rewrite length_app, (cells_length _ NULL) in Ho.
    unfold tree_fuel. lia. }
  unfold min_node. rewrite Em. cbn [mbind option_bind].
  assert (Hhy : holds s (plug (on k1 (CR c a d l k)) (T cy E y dy u))) by (by rewrite plug_on, <-Er).
  rewrite (node_at _ _ _ _ _ _ _ Hhy). own_norm.
  assert (exists s1 py rr, (if negb (up_addr (on k1 (CR c a d l k)) =? a) then
              tree ← transplant s y (addr u);
              r ← right <$> tree !! a;
              tree ← set_right tree y r;
              if r =? NULL then Some tree else set_parent tree r y
            else if addr u =? NULL then Some s else set_parent s (addr u) y) = Some s1 /\ same s s1 /\
     root s1 = top_addr k a /\
     own (nodes s1) ((a, node_of c (up_addr k) (addr l) rr d) :: cells py (T cy E y dy (plug k1 u)) ++
       up_cells k a ++ cells a l)) as (s1 & py & rr & E1 & Hs1 & Hr1 & Ho1).
  { destruct Ek as [->|[Hk Ea]]; cbn [on plug up_addr] in *.
    - rewrite Z.eqb_refl. subst r. apply holds_at in Hh as [Hr Ho]. cbn [addr cells app] in *.
      apply (fun Hp => own_perm _ _ (cells y u ++ (a, node_of c (up_addr k) (addr l) y d) ::
        (y, node_of cy a NULL (addr u) dy) :: up_cells k a ++ cells a l) Hp) in Ho; [|solve_Permutation].
      destruct (adopt_own s y y u _ Ho) as (s1 & -> & Hs1 & Hr1 & Ho1).
      eexists s1, a, _. split; [done|]. split; [done|]. split; [congruence|].
      eapply own_perm; [exact Ho1|]. solve_Permutation.
    - rewrite (proj2 (Z.eqb_neq _ _) (parent_deep _ _ _ _ _ _ _ _ Hhy Hk)). cbn [negb].
      set (K := on k1 (CR c a d l k)) in *. apply holds_at in Hhy as [Hr Ho]. cbn [addr cells app] in *.
      destruct (transplant_own s K cy NULL y dy (addr u) y u [] ltac:(by rewrite app_nil_r) Hr)
        as (s1 & -> & Hs1 & Hr1 & Ho1). clear Ho. cbn [mbind option_bind].
      rewrite app_nil_r, <-plug_cells in Ho1. rewrite <-plug_addr in Hr1. unfold K in Ho1 at 2. unfold K in Hr1.
      rewrite plug_on in Ho1, Hr1. cbn [plug] in Ho1, Hr1. rewrite plug_addr in Hr1. rewrite plug_cells in Ho1.
      clearbody K. cbn [addr cells app] in *. own_step. own_step.
      apply (fun Hp => own_perm _ _ (cells a (plug k1 u) ++ (a, node_of c (up_addr k) (addr l) (addr (plug k1 u)) d) ::
        (y, node_of cy (up_addr K) NULL (addr (plug k1 u)) dy) :: up_cells k a ++ cells a l) Hp) in Ho1;
        [|rewrite <-?app_assoc; solve_Permutation].
      destruct (adopt_own _ a y (plug k1 u) _ Ho1) as (s3 & -> & Hs3 & Hr3 & Ho3).
      eexists s3, _, _. split; [done|]. split; [solve_same|]. split; [congruence|].
      eapply own_perm; [exact Ho3|]. solve_Permutation. }
  own_norm. rewrite E1. cbn [mbind option_bind].
  destruct (transplant_own s1 k c (addr l) a d rr py (T cy E y dy (plug k1 u)) (cells a l) Ho1 Hr1)
    as (s2 & E2 & Hs2 & Hr2 & Ho2). cbn [addr] in E2. rewrite E2. cbn [mbind option_bind].
  own_norm. own_step. own_step.
  apply (fun Hp => own_perm _ _ (cells a l ++ (y, node_of cy (up_addr k) (addr l) (addr (plug k1 u)) dy) ::
    (a, node_of c (up_addr k) (addr l) rr d) :: cells y (plug k1 u) ++ up_cells k y) Hp) in Ho2; [|solve_Permutation].
  destruct (adopt_own _ a y l _ Ho2) as (s4 & -> & Hs4 & Hr4 & Ho4). clear Ho2. cbn [mbind option_bind].
  own_step. own_step.
  eexists _, y, (on k1 (CR c y dy l k)), u, cy, _. split; [done|]. split; [solve_same|].
  split; [rewrite plug_on; cbn [plug]; rewrite plug_addr; cbn [addr]; congruence|].
  split; [|split; [|split; [by destruct l, r|right; exists k1, dy; done]]].
  - rewrite plug_on. cbn [plug]. rewrite plug_cells. cbn [addr cells app].
    eapply own_perm; [exact Ho4|]. rewrite <-?app_assoc. solve_Permutation.
  - done.
Qed.

(** ** Where the fix-up after a deletion starts *)

Lemma up_parent k t :
  is_top k = false -> exists k0 c l d r, plug k t = plug k0 (T c l (up_addr k) d r).
Proof. destruct k; [done|intros _; cbn; by eexists _, _, _, _, _..]. Qed.

(** The node taken out is not the parent of another. *)
Lemma out_not_parent m k a n t : own m ((a, n) :: cells NULL (plug k t)) -> up_addr k <> a.
Proof.
  intros Ho Ha. destruct (is_top k) eqn:Ek.
  - destruct k; [|done..]. cbn in Ha. by apply own_nonnull in Ho.
  - destruct (up_parent k t Ek) as (k0 & c & l & d & r & E). rewrite E, Ha in Ho.
    rewrite plug_cells in Ho. cbn [cells app] in Ho. by apply own_distinct in Ho.
Qed.

Definition any_place (t : tree) (p : Z) : Prop :=
  p = NULL \/ exists k c l d r, t = plug k (T c l p d r).

Lemma up_any k t : any_place (plug k t) (up_addr k).
Proof.
  destruct (is_top k) eqn:Ek; [left; by destruct k|right]. destruct (up_parent k t Ek) as (k0 & c & l & d & r & E).
  by exists k0, c, l, d, r.
Qed.

Lemma left_child_defined s t a p : holds s t -> any_place t p -> exists b, left_child_of s a p = Some b.
Proof.
  intros Hh [->|(k & c & l & d & r & ->)]; unfold left_child_of.
  - rewrite Z.eqb_refl, orb_true_r. by eexists.
  - rewrite (node_at _ _ _ _ _ _ _ Hh). cbn [mbind option_bind fmap option_fmap option_map].
    destruct (_ || _); by eexists.
Qed.

(** The place is found, unless it is looked up in the released node: then only if its
    memory is kept. *)
Lemma fixup_place_ok keeps s m k c l a r y K u c0 n il :
  holds s (plug K u) -> own m ((a, n) :: cells NULL (plug K u)) -> parent n = up_addr k -> unlinked k c l a r y K u c0 ->
  if negb keeps && match u with E => y =? a | _ => false end then fixup_place keeps s a (Some n) y (addr u) il = None else
  exists p b, fixup_place keeps s a (Some n) y (addr u) il = Some (p, b) /\
    (u <> E -> p = up_addr K /\ b = is_left K) /\ any_place (plug K u) p.
Proof.
  intros Hh Ho Hn Hu. unfold fixup_place.
  assert (u = E \/ u <> E) as [->|Hue] by (destruct u; auto).
  - cbn [addr]. rewrite Z.eqb_refl. cbn [negb].
    destruct Hu as [_ [(-> & -> & -> & _)|(k1 & dy & Er & Ei & ->)]].
    + rewrite Z.eqb_refl. destruct keeps; [|done]. cbn [negb andb].
      cbn [mbind option_bind fmap option_fmap option_map].
      rewrite Hn, (proj2 (Z.eqb_neq _ _) (out_not_parent _ _ _ _ _ Ho)).
      destruct (left_child_defined s _ a _ Hh (up_any k E)) as [b ->]. cbn [mbind option_bind].
      exists (up_addr k), b. split; [done|]. split; [done|]. apply up_any.
    + rewrite plug_on in *. cbn [plug] in *.
      assert (y <> a) as Hya.
      { rewrite plug_cells in Ho. intros ->. by apply own_distinct in Ho. }
      rewrite (proj2 (Z.eqb_neq _ _) Hya), andb_false_r.
      rewrite (node_at _ _ _ _ _ _ _ Hh). own_norm.
      rewrite (proj2 (Z.eqb_neq _ _) (out_not_parent _ _ _ _ _ Ho)).
      destruct (left_child_defined s _ y _ Hh (up_any k _)) as [b ->]. cbn [mbind option_bind].
      exists (up_addr k), b. split; [done|]. split; [done|]. apply up_any.
  - assert (match u with E => y =? a | _ => false end = false) as -> by (by destruct u).
    rewrite andb_false_r, (addr_nonnull _ _ _ Hh Hue). cbn [negb].
    destruct u as [|cu lu au du ru]; [done|]. cbn [addr]. rewrite (node_at _ _ _ _ _ _ _ Hh). own_norm.
    pose proof (left_child_at _ _ _ Hh Hue) as E. cbn [addr] in E. rewrite E. cbn [mbind option_bind].
    exists (up_addr K), (is_left K). split; [done|]. split; [done|]. apply up_any.
Qed.

Lemma unlinked_inorder k c l a d r y K u c0 :
  unlinked k c l a r y K u c0 ->
  inorder (plug k (T c l a d r)) = before k ++ inorder l ++ [(a, d)] ++ inorder r ++ after k /\
  inorder (plug K u) = before k ++ inorder l ++ inorder r ++ after k.
Proof.
  intros Hu. split; [rewrite plug_inorder; cbn [inorder]; by rewrite <-app_assoc|].
  destruct Hu as [_ [(-> & -> & -> & [[-> ->]|[-> ->]])|(k1 & dy & Er & Ei & ->)]].
  - by rewrite plug_inorder.
  - by rewrite plug_inorder.
  - rewrite plug_on. cbn [plug]. rewrite plug_inorder. cbn [inorder]. by rewrite Ei, <-app_assoc.
Qed.

Lemma fuel_node s k c l a d r : holds s (plug k (T c l a d r)) -> (3 + depth k <= tree_fuel s)%nat.
Proof.
  intros [_ Ho]%holds_at. apply own_length in Ho. cbn [addr cells app length] in Ho. rewrite length_app in Ho.
  pose proof (depth_cells k a). unfold tree_fuel. lia.
Qed.

(** From an unlinked tree with a black root, or one that is about to get it. *)
Lemma delete_fixup_ok s K u p b :
  holds s (plug K u) -> (is_top K = false -> top_col K BLACK = BLACK) ->
  (u <> E -> p = up_addr K /\ b = is_left K) -> any_place (plug K u) p ->
  refixed s (plug K u) (delete_fixup s (addr u) p b).
Proof.
  intros Hh Hc Hu Hp. unfold delete_fixup. pose proof (fuel_depth _ _ _ Hh) as Hf.
  assert (u = E \/ u <> E) as [->|Hue] by (destruct u; auto).
  - cbn [addr]. assert (col (plug K E) = BLACK) as Hcol.
    { rewrite plug_col. destruct (is_top K) eqn:Ek; [by destruct K|]. by apply Hc. }
    destruct Hp as [->|(k & c & l & d & r & E)].
    + unfold tree_fuel. by apply delete_loop_top.
    + rewrite E in *. pose proof (fuel_node _ _ _ _ _ _ _ Hh). apply delete_loop_null; [done| |lia].
      by rewrite plug_col in Hcol.
  - destruct (Hu Hue) as [-> ->]. apply delete_loop_node; [done..|lia].
Qed.

End RBTree.
