(* ===== verification/RBMap.v ===== *)
(** * What the red-black tree of vox_rbtree.c promises

    The functions of RBTree.v refine a finite map; a walk meets its keys in order; what
    is allocated is given back; and as long as no black node without children is spliced
    out, the tree is balanced and a search takes logarithmic time. *)

From stdpp Require Import sorting.
From S2P Require Import Prelude Alloc CString RBTree.
Import CString RBTree.

Module RBMap.

#[local] Abbreviation RED := VOX_RBTREE_RED.
#[local] Abbreviation BLACK := VOX_RBTREE_BLACK.

(** ** The order of keys *)

Definition key_ok (k : list Z) : Prop := is_bytes k /\ 0 < zlen k < 2 ^ 63.

(** What the tree asks of its comparison function, on keys of one length: a total order. *)
Record cmp_ok (kc : list Z -> list Z -> Z -> option Z) : Prop := {
  co_eq a b : key_ok a -> key_ok b -> zlen a = zlen b ->
    exists c, kc a b (zlen a) = Some c /\ (c = 0 <-> a = b);
  co_sym a b c c' : key_ok a -> key_ok b -> zlen a = zlen b ->
    kc a b (zlen a) = Some c -> kc b a (zlen b) = Some c' -> c < 0 -> 0 < c';
  co_antisym a b c c' : key_ok a -> key_ok b -> zlen a = zlen b ->
    kc a b (zlen a) = Some c -> kc b a (zlen b) = Some c' -> 0 < c -> c' < 0;
  co_trans a b c x y z : key_ok a -> key_ok b -> key_ok c -> zlen a = zlen b -> zlen b = zlen c ->
    kc a b (zlen a) = Some x -> kc b c (zlen b) = Some y -> kc a c (zlen a) = Some z ->
    x < 0 -> y < 0 -> z < 0;
}.

Section order.
Context (kc : list Z -> list Z -> Z -> option Z) (Hkc : cmp_ok kc).

(** Lengths first, then the comparison function. *)
Definition kcompare (a b : list Z) : Z :=
  if zlen a =? zlen b then default 0 (kc a b (zlen a)) else if zlen a <? zlen b then -1 else 1.
Definition klt (a b : list Z) : Prop := kcompare a b < 0.

Lemma kcompare_eq a b : key_ok a -> key_ok b -> (kcompare a b = 0 <-> a = b).
Proof.
  intros Ha Hb. unfold kcompare. destruct (Z.eqb_spec (zlen a) (zlen b)) as [E|E].
  - destruct (co_eq _ Hkc a b Ha Hb E) as (c & -> & Hc). done.
  - split; [by destruct (_ <? _)|]. intros ->. done.
Qed.

Lemma klt_gt a b : key_ok a -> key_ok b -> (klt a b <-> 0 < kcompare b a).
Proof.
  intros Ha Hb. unfold klt, kcompare. rewrite (Z.eqb_sym (zlen b)).
  destruct (Z.eqb_spec (zlen a) (zlen b)) as [E|E].
  - destruct (co_eq _ Hkc a b Ha Hb E) as (c & E1 & _), (co_eq _ Hkc b a Hb Ha) as (c' & E2 & _); [done|].
    rewrite E1, E2. cbn. split; intros Hc.
    + by eapply (co_sym _ Hkc a b).
    + by eapply (co_antisym _ Hkc b a).
  - destruct (Z.ltb_spec (zlen a) (zlen b)), (Z.ltb_spec (zlen b) (zlen a)); lia.
Qed.

Lemma klt_trans a b c : key_ok a -> key_ok b -> key_ok c -> klt a b -> klt b c -> klt a c.
Proof.
  intros Ha Hb Hc. unfold klt, kcompare.
  destruct (Z.eqb_spec (zlen a) (zlen b)) as [E1|E1], (Z.eqb_spec (zlen b) (zlen c)) as [E2|E2].
  - rewrite (proj2 (Z.eqb_eq (zlen a) (zlen c))) by congruence.
    destruct (co_eq _ Hkc a b Ha Hb E1) as (x & Ex & _), (co_eq _ Hkc b c Hb Hc E2) as (y & Ey & _),
      (co_eq _ Hkc a c Ha Hc ltac:(congruence)) as (z & Ez & _).
    rewrite Ex, Ey, Ez. cbn. by eapply (co_trans _ Hkc a b c).
  - rewrite E1. rewrite (proj2 (Z.eqb_neq (zlen b) (zlen c))) by done. done.
  - rewrite E2 in *. rewrite (proj2 (Z.eqb_neq (zlen a) (zlen c))) by done. done.
  - destruct (Z.ltb_spec (zlen a) (zlen b)); [|lia]. destruct (Z.ltb_spec (zlen b) (zlen c)); [|lia].
    intros _ _. rewrite (proj2 (Z.eqb_neq (zlen a) (zlen c))) by lia.
    by rewrite (proj2 (Z.ltb_lt (zlen a) (zlen c))) by lia.
Qed.

Lemma klt_irrefl a : key_ok a -> ~ klt a a.
Proof. intros Ha. unfold klt. rewrite (proj2 (kcompare_eq a a Ha Ha) eq_refl). lia. Qed.

End order.

(** ** Searching, on trees *)

Definition keys (L : list (Z * item)) : list (list Z) := (fun x => it_key x.2) <$> L.

Section seek.
Context (kc : list Z -> list Z -> Z -> option Z) (key : list Z).

(** The place of a key: where it is, or the empty place where it would go. *)
Fixpoint seek (k : place) (t : tree) : place * tree :=
  match t with
  | E => (k, E)
  | T c l a d r =>
      let v := kcompare kc key (it_key d) in
      if v =? 0 then (k, t)
      else if v <? 0 then seek (CL c a d r k) l
      else seek (CR c a d l k) r
  end.

Lemma seek_plug k t : plug (seek k t).1 (seek k t).2 = plug k t.
Proof.
  revert k. induction t as [|c l IHl a d r IHr]; intros k; [done|]. cbn [seek].
  destruct (_ =? 0); [done|]. destruct (_ <? 0); [by rewrite IHl|by rewrite IHr].
Qed.

Lemma seek_found k t c l a d r :
  (seek k t).2 = T c l a d r -> kcompare kc key (it_key d) = 0.
Proof.
  revert k. induction t as [|c0 l0 IHl a0 d0 r0 IHr]; intros k; [done|]. cbn [seek].
  destruct (Z.eqb_spec (kcompare kc key (it_key d0)) 0) as [E|E]; [by intros [= <- <- <- <- <-]|].
  destruct (_ <? 0); [apply IHl|apply IHr].
Qed.

Context (Hkc : cmp_ok kc) (Hkey : key_ok key).

(** An empty place is between the smaller and the greater keys. *)
Definition around (k : place) : Prop :=
  Forall (fun b => klt kc b key) (keys (before k)) /\ Forall (klt kc key) (keys (after k)).

Lemma sorted_parts {k t} :
  StronglySorted (klt kc) (keys (inorder (plug k t))) ->
  StronglySorted (klt kc) (keys (inorder t)).
Proof.
  rewrite plug_inorder. unfold keys. rewrite !fmap_app. intros H%StronglySorted_app_1_r.
  by apply StronglySorted_app_1_l in H.
Qed.

Lemma around_step k c l a d r :
  Forall key_ok (keys (inorder (T c l a d r))) -> StronglySorted (klt kc) (keys (inorder (T c l a d r))) ->
  around k -> kcompare kc key (it_key d) <> 0 ->
  if kcompare kc key (it_key d) <? 0 then around (CL c a d r k) else around (CR c a d l k).
Proof.
  cbn [inorder]. unfold keys. rewrite fmap_app, fmap_cons. intros Hok Hs [Hb Ha] Hne.
  apply Forall_app in Hok as [Hol [Hod Hor]%Forall_cons]. cbn [snd] in *.
  apply StronglySorted_app in Hs as (Hlt & _ & Hr). inversion Hr as [|? ? _ Hdr]; subst.
  destruct (Z.ltb_spec (kcompare kc key (it_key d)) 0) as [Hd|Hd]; unfold around, keys; cbn [before after].
  - split; [done|]. rewrite fmap_cons, fmap_app. apply Forall_cons. split; [exact Hd|].
    apply Forall_app. split; [|exact Ha]. rewrite Forall_forall in Hdr, Hor |- *. intros x Hx.
    apply (klt_trans kc Hkc key (it_key d) x); auto.
  - split; [|done]. rewrite !fmap_app. apply Forall_app. split; [exact Hb|].
    assert (klt kc (it_key d) key) as Hdk by (apply klt_gt; [done..|lia]).
    apply Forall_app. split; [|by apply Forall_singleton].
    rewrite Forall_forall in Hol |- *. intros x Hx.
    apply (klt_trans kc Hkc x (it_key d) key); auto. apply Hlt; [done|by left].
Qed.

Lemma seek_around k t :
  Forall key_ok (keys (inorder t)) -> StronglySorted (klt kc) (keys (inorder t)) ->
  around k -> (seek k t).2 = E -> around (seek k t).1.
Proof.
  revert k. induction t as [|c l IHl a d r IHr]; intros k Hok Hs Hk; [done|]. cbn [seek].
  destruct (Z.eqb_spec (kcompare kc key (it_key d)) 0) as [E|E]; [done|].
  pose proof (around_step k c l a d r Hok Hs Hk E) as Hstep.
  unfold keys in *. cbn [inorder] in *. rewrite fmap_app, fmap_cons in *.
  apply Forall_app in Hok as [Hol [_ Hor]%Forall_cons].
  destruct (_ <? 0); [apply IHl|apply IHr]; [done| |done|done| |done].
  - by apply StronglySorted_app_1_l in Hs.
  - apply StronglySorted_app_1_r in Hs. by inversion Hs.
Qed.
End seek.

(** ** The search loops *)

Fixpoint height (t : tree) : nat :=
  match t with E => 0 | T _ l _ _ r => S (Nat.max (height l) (height r)) end.

Lemma height_cells t : (height t <= length (cells NULL t))%nat.
Proof.
  induction t as [|c l IHl a d r IHr]; cbn [height cells length]; [done|].
  rewrite length_app, (cells_length a NULL l), (cells_length a NULL r). lia.
Qed.

Section search.
Context (s : vox_rbtree) (key : list Z) (Hkc : cmp_ok (key_cmp s)) (Hkey : key_ok key).

Lemma find_loop_ok fuel k t :
  holds s (plug k t) -> Forall key_ok (keys (inorder t)) -> (height t < fuel)%nat ->
  find_loop fuel s key (addr t) = Some (addr (seek (key_cmp s) key k t).2).
Proof.
  revert fuel k. induction t as [|c l IHl a d r IHr]; intros fuel k Hh Hok Hf.
  { destruct fuel as [|fuel]; [lia|]. done. }
  destruct fuel as [|fuel]; [lia|]. cbn [find_loop addr seek].
  rewrite (nonnull_at _ _ _ _ _ _ _ Hh), (node_at _ _ _ _ _ _ _ Hh). own_norm.
  unfold keys in Hok. cbn [inorder] in Hok. rewrite fmap_app, fmap_cons in Hok.
  apply Forall_app in Hok as [Hol [Hod Hor]%Forall_cons]. cbn [snd] in Hod.
  cbn [height] in Hf.
  specialize (IHl fuel (CL c a d r k) Hh Hol ltac:(lia)). specialize (IHr fuel (CR c a d l k) Hh Hor ltac:(lia)).
  unfold kcompare. destruct (Z.eqb_spec (zlen key) (zlen (it_key d))) as [E|E]; cbn [negb].
  - destruct (co_eq _ Hkc key (it_key d) Hkey Hod E) as (v & -> & _). cbn [mbind option_bind default id].
    destruct (v =? 0); [done|]. destruct (v <? 0); [exact IHl|exact IHr].
  - destruct (Z.ltb_spec (zlen key) (zlen (it_key d))); [exact IHl|exact IHr].
Qed.

(** The loop of the insertion, whose last comparison says on which side the new node goes. *)
Lemma search_insert_ok fuel k t cmp :
  holds s (plug k t) -> Forall key_ok (keys (inorder t)) -> (length (cells NULL t) < fuel)%nat ->
  (is_top k = false -> (cmp <? 0) = is_left k) ->
  exists cmp', let '(k', t') := seek (key_cmp s) key k t in
    insert_loop fuel s key (up_addr k) (addr t) cmp = Some (up_addr k', addr t', cmp') /\
    (t' = E -> is_top k' = false -> (cmp' <? 0) = is_left k').
Proof.
  revert fuel k cmp. induction t as [|c l IHl a d r IHr]; intros fuel k cmp Hh Hok Hf Hc.
  { destruct fuel as [|fuel]; [lia|]. by exists cmp. }
  destruct fuel as [|fuel]; [lia|]. cbn [insert_loop addr seek].
  rewrite (nonnull_at _ _ _ _ _ _ _ Hh), (node_at _ _ _ _ _ _ _ Hh). own_norm.
  unfold keys in Hok. cbn [inorder] in Hok. rewrite fmap_app, fmap_cons in Hok.
  apply Forall_app in Hok as [Hol [Hod Hor]%Forall_cons]. cbn [snd] in Hod.
  cbn [length] in Hf. rewrite length_app, (cells_length a NULL l), (cells_length a NULL r) in Hf.
  assert (forall v, v < 0 -> exists cmp', let '(k', t') := seek (key_cmp s) key (CL c a d r k) l in
    insert_loop fuel s key a (addr l) v = Some (up_addr k', addr t', cmp') /\
    (t' = E -> is_top k' = false -> (cmp' <? 0) = is_left k')) as Hl.
  { intros v Hv. apply (IHl fuel (CL c a d r k) v Hh Hol); [lia|]. intros _. cbn. by apply Z.ltb_lt. }
  assert (forall v, 0 <= v -> exists cmp', let '(k', t') := seek (key_cmp s) key (CR c a d l k) r in
    insert_loop fuel s key a (addr r) v = Some (up_addr k', addr t', cmp') /\
    (t' = E -> is_top k' = false -> (cmp' <? 0) = is_left k')) as Hr.
  { intros v Hv. apply (IHr fuel (CR c a d l k) v Hh Hor); [lia|]. intros _. cbn. by apply Z.ltb_ge. }
  unfold kcompare. destruct (Z.eqb_spec (zlen key) (zlen (it_key d))) as [E|E]; cbn [negb].
  - destruct (co_eq _ Hkc key (it_key d) Hkey Hod E) as (v & -> & _). cbn [mbind option_bind default id].
    destruct (v =? 0); [by exists v|]. destruct (Z.ltb_spec v 0); [by apply Hl|by apply Hr].
  - destruct (Z.ltb_spec (zlen key) (zlen (it_key d))); [by apply Hl|by apply Hr].
Qed.
End search.

(** ** Balance *)

(** The number of black nodes on every path to an empty place, when it is the same on all
    and no red node has a red child. *)
Fixpoint bh (t : tree) : option nat :=
  match t with
  | E => Some 0%nat
  | T c l _ _ r =>
      m ← bh l; n ← bh r;
      if decide (m = n) then
        match c with
        | VOX_RBTREE_BLACK => Some (S m)
        | VOX_RBTREE_RED => if decide (col l = BLACK /\ col r = BLACK) then Some m else None
        end
      else None
  end.

(** A red-black tree. *)
Definition balanced (t : tree) : Prop := col t = BLACK /\ is_Some (bh t).
#[export] Instance balanced_dec t : Decision (balanced t).
Proof. unfold balanced. apply _. Defined.
#[global] Typeclasses Opaque balanced.

Lemma bh_node c l a d r m :
  bh (T c l a d r) = Some m <->
  exists n, bh l = Some n /\ bh r = Some n /\
    match c with VOX_RBTREE_BLACK => m = S n | VOX_RBTREE_RED => m = n /\ col l = BLACK /\ col r = BLACK end.
Proof.
  cbn [bh]. destruct (bh l) as [n1|]; [|split; [done|by intros (? & ? & _)]]. cbn [mbind option_bind].
  destruct (bh r) as [n2|]; [|split; [done|by intros (? & _ & ? & _)]]. cbn [mbind option_bind].
  destruct (decide (n1 = n2)) as [->|Hn]; [|split; [done|by intros (n & [= ->] & [= ->] & _)]].
  destruct c.
  - destruct (decide _) as [Hc|Hc].
    + split; [intros [= <-]; by exists n2|by intros (n & [= ->] & _ & -> & _)].
    + split; [done|]. intros (n & _ & _ & _ & Hc'). by destruct Hc.
  - split; [intros [= <-]; by exists n2|by intros (n & [= ->] & _ & ->)].
Qed.

(** Only the black height and the colour of what is in a hole matter. *)
Lemma bh_plug k t t' : bh t = bh t' -> col t = col t' -> bh (plug k t) = bh (plug k t').
Proof.
  revert t t'. induction k as [|c a d s k IH|c a d s k IH]; intros t t' Eh Ec; cbn [plug]; [done|..];
    apply IH; cbn [bh col]; by rewrite ?Eh, ?Ec.
Qed.

Lemma bh_plug_inv k t N : bh (plug k t) = Some N -> exists n, bh t = Some n.
Proof.
  revert t. induction k as [|c a d s k IH|c a d s k IH]; intros t; cbn [plug]; [by exists N|..];
    intros [m (n & ? & ? & _)%bh_node]%IH; by exists n.
Qed.

(** A black tree fits wherever a tree of its black height does. *)
Lemma bh_plug_black k t t' n N :
  bh t = Some n -> bh t' = Some n -> col t' = BLACK -> bh (plug k t) = Some N -> bh (plug k t') = Some N.
Proof.
  intros Ht Ht' Hc. destruct (col t) eqn:Ec; [|by rewrite (bh_plug k t t') by congruence].
  destruct k as [|c a d s k|c a d s k]; cbn [plug]; [congruence|..].
  - intros Hp. destruct (bh_plug_inv _ _ _ Hp) as [m Hm]. rewrite <-Hp. apply bh_plug; [|done].
    rewrite Hm. apply bh_node. apply bh_node in Hm as (n' & Hl & Hr & Hm). exists n'.
    split; [congruence|]. split; [done|]. destruct c; [|done]. exfalso. destruct Hm as (_ & ? & ?). congruence.
  - intros Hp. destruct (bh_plug_inv _ _ _ Hp) as [m Hm]. rewrite <-Hp. apply bh_plug; [|done].
    rewrite Hm. apply bh_node. apply bh_node in Hm as (n' & Hl & Hr & Hm). exists n'.
    split; [done|]. split; [congruence|]. destruct c; [|done]. exfalso. destruct Hm as (_ & ? & ?). congruence.
Qed.

Lemma bh_paint t n : bh t = Some n -> exists m, bh (paint BLACK t) = Some m.
Proof.
  destruct t as [|c l a d r]; [by exists n|]. intros (m & Hl & Hr & _)%bh_node. exists (S m).
  apply bh_node. by exists m.
Qed.

Lemma paint_black t : col t = BLACK -> paint BLACK t = t.
Proof. destruct t as [|[] l a d r]; done. Qed.

Lemma paint_red_bh t n : bh t = Some n -> col t = RED -> bh (paint BLACK t) = Some (S n).
Proof.
  destruct t as [|[] l a d r]; [done| |done]. intros (m & Hl & Hr & -> & _)%bh_node _. cbn [paint].
  apply bh_node. by exists m.
Qed.

Lemma paint_is_black t : col (paint BLACK t) = BLACK.
Proof. by destruct t. Qed.

(** [bh] of a node from those of its parts. *)
Ltac bh_tac n :=
  repeat first [assumption | reflexivity | (rewrite bh_node; exists n) | split].

(** The fix-up of an insertion. [X] is a black tree that fits where the new red one is. *)
Lemma insert_fix_balanced k t X n N :
  bh t = Some n -> col t = RED -> bh X = Some n -> col X = BLACK ->
  bh (plug k X) = Some N -> col (plug k X) = BLACK ->
  is_Some (bh (paint BLACK (insert_fix k t))).
Proof.
  remember (depth k) as dk eqn:Ek. revert k t X n Ek. induction dk as [dk IH] using lt_wf_ind.
  intros k t X n -> Ht Hct HX HcX HN Hcol.
  destruct (stops k) eqn:Es.
  { destruct k as [|[] p dp b k|[] p dp b k]; try done; cbn [insert_fix].
    - apply bh_paint in Ht as [m Hm]. cbn [plug]. by rewrite Hm.
    - rewrite paint_black by (rewrite plug_col; cbn [plug col] in *; by rewrite plug_col in Hcol).
      cbn [plug] in *. rewrite (bh_plug k _ (T BLACK X p dp b)); [by rewrite HN| |done].
      cbn [bh]. by rewrite Ht, HX.
    - rewrite paint_black by (rewrite plug_col; cbn [plug col] in *; by rewrite plug_col in Hcol).
      cbn [plug] in *. rewrite (bh_plug k _ (T BLACK b p dp X)); [by rewrite HN| |done].
      cbn [bh]. by rewrite Ht, HX. }
  destruct k as [|[] p dp b k|[] p dp b k]; try done;
    (destruct k as [|cg g dg u k|cg g dg u k]; [done|..]); cbn [plug depth] in *;
    destruct (bh_plug_inv _ _ _ HN) as [m Hm]; pose proof Hm as Hm0;
    apply bh_node in Hm as (n1 & H1 & H2 & Hcg);
    (destruct cg; [by destruct Hcg as (_ & ? & ?)|]); subst m;
    [apply bh_node in H1 as (n2 & H3 & H4 & -> & H5 & H6)
    |apply bh_node in H2 as (n2 & H3 & H4 & -> & H5 & H6)
    |apply bh_node in H1 as (n2 & H3 & H4 & -> & H5 & H6)
    |apply bh_node in H2 as (n2 & H3 & H4 & -> & H5 & H6)].
  all: assert (n2 = n) as -> by congruence.
  all: cbn [insert_fix]; destruct (decide (col u = RED)) as [Eu|Eu].
  all: try (pose proof (paint_red_bh u n ltac:(assumption) Eu) as Hu; 
    eapply (IH (depth k)); [lia|done| |done|exact Hm0|done|exact HN|exact Hcol];
    apply bh_node; exists (S n); split; [first [exact Hu|apply bh_node; by exists n]|];
    split; [first [exact Hu|apply bh_node; by exists n]|]; by rewrite paint_is_black).
  all: assert (col u = BLACK) as Eb by (by destruct (col u)).
  all: try (destruct t as [|ct tl a d tr]; [done|]; cbn [col] in Hct; subst ct;
            apply bh_node in Ht as (n3 & Htl & Htr & -> & Hbl & Hbr)).
  all: rewrite paint_black;
    [|rewrite plug_col; cbn [col]; rewrite plug_col in Hcol; exact Hcol].
  all: erewrite bh_plug_black; [done|exact Hm0| |done|exact HN].
  all: match goal with |- _ = Some (S ?n) => bh_tac n end.
Qed.

Lemma insert_balanced k a d :
  balanced (plug k E) -> balanced (paint BLACK (insert_fix k (T RED E a d E))).
Proof.
  intros [Hc [N HN]]. split; [apply paint_is_black|]. by eapply (insert_fix_balanced k _ E 0 N).
Qed.

(** ** Balance after a deletion *)

(** The node spliced out is black and has no child: the case the fix-up gets wrong. *)
Definition hard (u : tree) (c0 : colour) : Prop := u = E /\ c0 = BLACK.

(** Before a node is unlinked, its place held a node with at most one child. *)
Lemma unlinked_bh k c l a d r y K u c0 N :
  unlinked k c l a r y K u c0 -> bh (plug k (T c l a d r)) = Some N ->
  exists l' r', bh (plug K (T c0 l' a d r')) = Some N /\ (l' = E /\ r' = u \/ l' = u /\ r' = E).
Proof.
  intros [_ [(-> & -> & -> & [[-> ->]|[-> ->]])|(k1 & dy & Er & _ & ->)]] HN.
  - exists E, r. auto.
  - exists l, E. auto.
  - exists E, u. split; [|auto]. rewrite plug_on. cbn [plug]. rewrite <-HN. apply bh_plug; [|done].
    cbn [bh]. destruct (bh l); [|done]. cbn [mbind option_bind]. rewrite Er.
    rewrite (bh_plug k1 (T c0 E a d u) (T c0 E y dy u)) by done.
    destruct (bh (plug k1 (T c0 E y dy u))); [|done]. cbn [mbind option_bind]. destruct (decide _); [|done].
    destruct c; [|done]. by rewrite !plug_col.
Qed.

(** A red node with at most one child has none. *)
Lemma bh_red_leaf l a d r n : bh (T RED l a d r) = Some n -> (l = E \/ r = E) -> l = E /\ r = E /\ n = 0%nat.
Proof.
  intros (m & Hl & Hr & -> & Hcl & Hcr)%bh_node [-> | ->]; cbn in *.
  - injection Hl as <-. destruct r as [|[] rl ra rd rr]; [done|done|].
    by apply bh_node in Hr as (? & _ & _ & ?).
  - injection Hr as <-. destruct l as [|[] ll la ld lr]; [done|done|].
    by apply bh_node in Hl as (? & _ & _ & ?).
Qed.

(** The only child of a black node is red. *)
Lemma bh_black_child l a d r n :
  bh (T BLACK l a d r) = Some n -> (l = E \/ r = E) ->
  n = 1%nat /\ bh l = Some 0%nat /\ bh r = Some 0%nat /\ (l <> E -> col l = RED) /\ (r <> E -> col r = RED).
Proof.
  intros (m & Hl & Hr & ->)%bh_node Hlr.
  assert (m = 0%nat) as -> by (destruct Hlr as [-> | ->]; cbn in *; congruence).
  split; [done|]. split; [done|]. split; [done|].
  split; [destruct l as [|[] ll la ld lr]|destruct r as [|[] rl ra rd rr]]; try done; intros _;
    [apply bh_node in Hl as (? & _ & _ & ?)|apply bh_node in Hr as (? & _ & _ & ?)]; done.
Qed.

Lemma unlinked_top k c l a d r y K u c0 :
  unlinked k c l a r y K u c0 -> col (plug k (T c l a d r)) = BLACK -> top_col K BLACK = BLACK.
Proof.
  rewrite plug_col. cbn [col]. intros [_ [(_ & -> & _)|(k1 & dy & _ & _ & ->)]] Hc; [by eapply top_col_black|].
  pose proof (plug_col (on k1 (CR c y dy l k)) (T BLACK E 0 d E)) as E1. cbn [col] in E1. rewrite <-E1.
  rewrite plug_on. cbn [plug]. by rewrite plug_col.
Qed.

Lemma unlinked_balanced k c l a d r y K u c0 :
  unlinked k c l a r y K u c0 -> balanced (plug k (T c l a d r)) -> ~ hard u c0 ->
  match c0 with
  | VOX_RBTREE_RED => balanced (plug K u)
  | VOX_RBTREE_BLACK => col u = RED /\ balanced (plug K (paint BLACK u))
  end.
Proof.
  intros Hu [Hcol [N HN]] Hh. destruct (unlinked_bh _ _ _ _ _ _ _ _ _ _ _ Hu HN) as (l' & r' & HN' & Hlr).
  destruct (bh_plug_inv _ _ _ HN') as [n Hn].
  assert (forall t, col t = BLACK -> col (plug K t) = BLACK) as HK.
  { intros t Ht. rewrite plug_col, Ht. by eapply unlinked_top. }
  destruct c0.
  - destruct (bh_red_leaf _ _ _ _ _ Hn) as (-> & -> & ->); [destruct Hlr as [[-> _]|[_ ->]]; auto|].
    assert (u = E) as -> by (by destruct Hlr as [[_ <-]|[<- _]]).
    split; [by apply HK|]. exists N. by eapply bh_plug_black.
  - destruct (bh_black_child _ _ _ _ _ Hn) as (-> & Hl0 & Hr0 & Hcl & Hcr); [destruct Hlr as [[-> _]|[_ ->]]; auto|].
    assert (u <> E) as Hue by (intros ->; by destruct Hh).
    assert (col u = RED /\ bh u = Some 0%nat) as [Hc Hb] by (destruct Hlr as [[-> ->]|[-> ->]]; auto).
    split; [done|]. split; [apply HK, paint_is_black|]. exists N.
    eapply bh_plug_black; [exact Hn| |apply paint_is_black|exact HN']. by apply paint_red_bh.
Qed.

Lemma bh_height t n :
  bh t = Some n -> (height t <= 2 * n + (if decide (col t = RED) then 1 else 0))%nat.
Proof.
  revert n. induction t as [|c l IHl a d r IHr]; intros n; [cbn; lia|].
  intros (m & Hl & Hr & Hc)%bh_node. specialize (IHl m Hl). specialize (IHr m Hr). cbn [height col].
  destruct c.
  - destruct Hc as (-> & Hcl & Hcr). rewrite Hcl in IHl. rewrite Hcr in IHr. repeat case_decide; done || lia.
  - subst n. repeat case_decide; done || lia.
Qed.

Lemma bh_size t n : bh t = Some n -> (2 ^ n <= S (length (inorder t)))%nat.
Proof.
  revert n. induction t as [|c l IHl a d r IHr]; intros n; [by intros [= <-]|].
  intros (m & Hl & Hr & Hc)%bh_node. specialize (IHl m Hl). specialize (IHr m Hr).
  cbn [inorder]. rewrite length_app. cbn [length].
  destruct c; [destruct Hc as [-> _]|subst n; cbn [Nat.pow]]; lia.
Qed.

(** A path of a balanced tree is at most twice as long as the shortest possible one. *)
Lemma balanced_height t :
  balanced t -> (height t <= 2 * Nat.log2 (S (length (inorder t))))%nat.
Proof.
  intros [Hc [n Hn]]. pose proof (bh_height _ _ Hn) as Hh. rewrite Hc, decide_False in Hh by done.
  pose proof (Nat.log2_le_mono _ _ (bh_size _ _ Hn)) as Hs. rewrite Nat.log2_pow2 in Hs by lia. lia.
Qed.

(** ** The map a tree stands for *)

(** A key with the address of the tree's copy of it and its value. *)
Definition entry (x : Z * item) : list Z * (Z * Z) := (it_key x.2, (it_at x.2, it_value x.2)).
Definition map_of (t : tree) : gmap (list Z) (Z * Z) := list_to_map (entry <$> inorder t).

(** The blocks of the nodes and of the keys. *)
Definition blocks_of (L : list (Z * item)) : list Z := x ← L; [x.1; it_at x.2].

(** The tree [t] is in memory, with the blocks it has taken from the pool since [p0]. *)
Record tree_ok {P} `{MPool P} (p0 p : P) (s : vox_rbtree) (t : tree) : Prop := {
  tr_holds : holds s t;
  tr_cmp : cmp_ok (key_cmp s);
  tr_keys : Forall key_ok (keys (inorder t));
  tr_sorted : StronglySorted (klt (key_cmp s)) (keys (inorder t));
  tr_black : col t = BLACK;
  tr_size : size s = u64 (Z.of_nat (length (inorder t)));
  tr_pool : took p0 p (self s :: blocks_of (inorder t));
}.

Lemma keys_entry L : keys L = (entry <$> L).*1.
Proof. unfold keys. rewrite <-list_fmap_compose. done. Qed.

Lemma sorted_nodup kc L :
  cmp_ok kc -> Forall key_ok (keys L) -> StronglySorted (klt kc) (keys L) -> NoDup (keys L).
Proof.
  intros Hkc. induction (keys L) as [|x l IH]; intros Hok Hs; [apply NoDup_nil_2|].
  apply Forall_cons in Hok as [Hx Hok]. inversion Hs as [|? ? Hs' Hlt]; subst. apply NoDup_cons. split; [|by apply IH].
  intros Hin. rewrite Forall_forall in Hlt. by apply (klt_irrefl kc Hkc x), Hlt.
Qed.

(** An entry more in the middle. *)
Lemma map_middle L1 x L2 :
  NoDup (keys (L1 ++ x :: L2)) ->
  (list_to_map (entry <$> (L1 ++ x :: L2)) : gmap (list Z) (Z * Z))
    = <[it_key x.2 := (it_at x.2, it_value x.2)]> (list_to_map (entry <$> (L1 ++ L2))) /\
  (list_to_map (entry <$> (L1 ++ L2)) : gmap (list Z) (Z * Z)) !! it_key x.2 = None.
Proof.
  intros Hnd. assert (L1 ++ x :: L2 ≡ₚ x :: L1 ++ L2) as Hp by (symmetry; apply Permutation_middle).
  rewrite (list_to_map_proper (entry <$> (L1 ++ x :: L2)) (entry <$> (x :: L1 ++ L2))).
  - split; [done|]. apply not_elem_of_list_to_map. rewrite <-keys_entry.
    assert (NoDup (keys (x :: L1 ++ L2))) as Hnd' by (unfold keys in *; by rewrite <-Hp).
    unfold keys in *. rewrite fmap_cons in Hnd'. by apply NoDup_cons in Hnd' as [? _].
  - by rewrite <-keys_entry.
  - by rewrite Hp.
Qed.

Lemma map_of_lookup t k a v :
  NoDup (keys (inorder t)) ->
  (map_of t !! k = Some (a, v) <-> exists b d, (b, d) ∈ inorder t /\ it_key d = k /\ it_at d = a /\ it_value d = v).
Proof.
  intros Hnd. unfold map_of. rewrite <-elem_of_list_to_map by (by rewrite <-keys_entry).
  rewrite list_elem_of_fmap. split.
  - intros ([b d] & [= -> -> ->] & Hin). by exists b, d.
  - intros (b & d & Hin & <- & <- & <-). by exists (b, d).
Qed.

Lemma map_of_size t : NoDup (keys (inorder t)) -> base.size (map_of t) = length (inorder t).
Proof.
  intros Hnd. unfold map_of. induction (inorder t) as [|x L IH]; [done|].
  unfold keys in Hnd. rewrite fmap_cons in Hnd. apply NoDup_cons in Hnd as [Hx Hnd].
  cbn [fmap list_fmap list_to_map foldr]. cbn. rewrite map_size_insert_None; [by rewrite IH|].
  apply not_elem_of_list_to_map. by rewrite <-keys_entry.
Qed.

(** ** Lists of items, and the blocks they stand for *)

Lemma blocks_middle L1 x L2 : blocks_of (L1 ++ x :: L2) ≡ₚ x.1 :: it_at x.2 :: blocks_of (L1 ++ L2).
Proof.
  unfold blocks_of. rewrite !bind_app. cbn [mbind list_bind app].
  rewrite <-(Permutation_middle _ _ x.1). apply perm_skip. by rewrite <-(Permutation_middle _ _ (it_at x.2)).
Qed.

Lemma in_blocks (L : list (Z * item)) a : a ∈ L.*1 -> a ∈ blocks_of L.
Proof.
  intros [[b d] [-> Hin]]%list_elem_of_fmap. apply list_elem_of_bind. exists (b, d). split; [by left|done].
Qed.

Lemma cells_inorder p t : (cells p t).*1 ≡ₚ (inorder t).*1.
Proof.
  revert p. induction t as [|c l IHl a d r IHr]; intros p; cbn; [done|].
  rewrite !fmap_app, IHl, IHr. cbn. apply Permutation_middle.
Qed.

Lemma keys_app L1 L2 : keys (L1 ++ L2) = keys L1 ++ keys L2.
Proof. apply fmap_app. Qed.
Lemma keys_cons x L : keys (x :: L) = it_key x.2 :: keys L.
Proof. done. Qed.

Lemma sorted_insert kc L1 x L2 :
  Forall (fun b => klt kc b (it_key x.2)) (keys L1) -> Forall (klt kc (it_key x.2)) (keys L2) ->
  StronglySorted (klt kc) (keys (L1 ++ L2)) -> StronglySorted (klt kc) (keys (L1 ++ x :: L2)).
Proof.
  rewrite !keys_app, keys_cons. intros H1 H2 (Hlt & Hs1 & Hs2)%StronglySorted_app.
  apply StronglySorted_app. split; [|split; [done|by constructor]].
  rewrite Forall_forall in H1. intros a b Ha [-> |Hb]%elem_of_cons; [by apply H1|by apply Hlt].
Qed.

Lemma sorted_remove kc L1 x L2 :
  StronglySorted (klt kc) (keys (L1 ++ x :: L2)) -> StronglySorted (klt kc) (keys (L1 ++ L2)).
Proof.
  rewrite !keys_app, keys_cons. intros (Hlt & Hs1 & Hs2)%StronglySorted_app. inversion Hs2; subst.
  apply StronglySorted_app. split; [|done]. intros a b Ha Hb. apply Hlt; [done|by right].
Qed.

(** ** Where a key is *)

Section operations.
Context {P : Type} `{MPoolLaws P}.
Context (p0 p : P) (s : vox_rbtree) (t : tree) (Hok : tree_ok p0 p s t).

Lemma tree_nodup : NoDup (keys (inorder t)).
Proof. destruct Hok. by eapply sorted_nodup. Qed.

Variant seek_spec (key : list Z) : Prop :=
  | Absent K : (seek (key_cmp s) key Top t) = (K, E) -> t = plug K E -> around (key_cmp s) key K ->
      map_of t !! key = None -> seek_spec key
  | Present K c l a d r : (seek (key_cmp s) key Top t) = (K, T c l a d r) -> t = plug K (T c l a d r) ->
      it_key d = key -> map_of t !! key = Some (it_at d, it_value d) -> seek_spec key.

Lemma seek_cases key : key_ok key -> seek_spec key.
Proof.
  intros Hk. destruct (seek (key_cmp s) key Top t) as [K u] eqn:E.
  pose proof (seek_plug (key_cmp s) key Top t) as Hp. rewrite E in Hp. cbn in Hp.
  pose proof (tr_cmp _ _ _ _ Hok) as Hkc. pose proof (tr_keys _ _ _ _ Hok) as Hks.
  destruct u as [|c l a d r].
  - assert (around (key_cmp s) key K) as Ha.
    { pose proof (seek_around (key_cmp s) key Hkc Hk Top t Hks (tr_sorted _ _ _ _ Hok)) as Ha.
      rewrite E in Ha. apply Ha; [|done]. by split. }
    apply (Absent key K); [done..|]. apply not_elem_of_list_to_map. rewrite <-keys_entry.
    rewrite <-Hp, plug_inorder. cbn [inorder app]. rewrite keys_app. destruct Ha as [Hb Ha].
    rewrite Forall_forall in Hb, Ha.
    intros [Hin|Hin]%elem_of_app; [apply (klt_irrefl _ Hkc key Hk), Hb|apply (klt_irrefl _ Hkc key Hk), Ha]; done.
  - assert (it_key d = key) as Ek.
    { symmetry. apply (kcompare_eq (key_cmp s)); [done|done| |].
      - rewrite Forall_forall in Hks. apply Hks. rewrite <-Hp, plug_inorder. cbn [inorder].
        rewrite !keys_app, keys_cons. set_solver.
      - apply (seek_found (key_cmp s) key Top t c l a d r). by rewrite E. }
    apply (Present key K c l a d r); [done..|]. apply map_of_lookup; [apply tree_nodup|].
    exists a, d. split; [|done]. rewrite <-Hp, plug_inorder. cbn [inorder]. set_solver.
Qed.

Lemma find_node_ok key : key_ok key -> find_node s key = Some (addr (seek (key_cmp s) key Top t).2).
Proof.
  intros Hk. unfold find_node. pose proof (tr_holds _ _ _ _ Hok) as Hh. rewrite (ho_root _ _ Hh).
  apply find_loop_ok; [by destruct Hok|done|exact Hh|by destruct Hok|].
  pose proof (own_length _ _ (ho_own _ _ Hh)). pose proof (height_cells t). unfold tree_fuel. lia.
Qed.
End operations.

(** ** Insertion *)

(** The new node is linked below its parent. *)
Lemma link_ok s K a n cmp :
  own (nodes s) ((a, n) :: up_cells K NULL) -> root s = top_addr K NULL ->
  (is_top K = false -> (cmp <? 0) = is_left K) ->
  exists s', (if up_addr K =? NULL then Some (set_root s a)
              else if cmp <? 0 then set_left s (up_addr K) a else set_right s (up_addr K) a) = Some s' /\
    same s s' /\ root s' = top_addr K a /\ own (nodes s') ((a, n) :: up_cells K a).
Proof.
  intros Ho Hr Hc. destruct K as [|c p dp b K|c p dp b K]; cbn [up_addr up_cells top_addr is_left] in *.
  - exists (set_root s a). split; [done|]. split; [by constructor|]. by split.
  - own_test. rewrite Hc by done. own_step. eexists. split; [done|]. split; [done|]. split; [congruence|].
    eapply own_perm; [exact Ho|]. solve_Permutation.
  - own_test. rewrite Hc by done. own_step. eexists. split; [done|]. split; [done|]. split; [congruence|].
    eapply own_perm; [exact Ho|]. solve_Permutation.
Qed.

Lemma set_value_ok s k c l a d r v :
  holds s (plug k (T c l a d r)) ->
  exists s', set_value s a v = Some s' /\ same s s' /\
    holds s' (plug k (T c l a (Item (it_at d) (it_key d) v) r)).
Proof.
  intros [Hr Ho]%holds_at. cbn [cells addr app] in *.
  destruct (set_value_own _ _ _ _ _ _ _ _ Ho v) as (s' & E & Hs & Hr' & Ho').
  exists s'. split; [done|]. split; [done|]. apply holds_at. split; [cbn [addr]; congruence|exact Ho'].
Qed.

Lemma holds_size s t n : holds s t -> holds (with_size s n) t.
Proof. intros [Hr Ho]. by constructor. Qed.

Lemma plug_node_inorder K c l a d r :
  inorder (plug K (T c l a d r)) = (before K ++ inorder l) ++ (a, d) :: (inorder r ++ after K).
Proof. rewrite plug_inorder. cbn [inorder]. by rewrite <-!app_assoc. Qed.

(** Another value for a key. *)
Lemma map_update L1 a d v L2 :
  NoDup (keys (L1 ++ (a, d) :: L2)) ->
  (list_to_map (entry <$> (L1 ++ (a, Item (it_at d) (it_key d) v) :: L2)) : gmap (list Z) (Z * Z))
  = <[it_key d := (it_at d, v)]> (list_to_map (entry <$> (L1 ++ (a, d) :: L2))).
Proof.
  intros Hnd. destruct (map_middle L1 (a, d) L2 Hnd) as [-> _].
  destruct (map_middle L1 (a, Item (it_at d) (it_key d) v) L2) as [-> _]; [by rewrite keys_app, keys_cons in *|].
  cbn [snd it_key it_at it_value]. by rewrite insert_insert_eq.
Qed.

Section insertion.
Context {P : Type} `{MPoolLaws P}.

(** Somewhere on the way from [p] to [p'] the pool refused an allocation. *)
Definition refused (p p' : P) : Prop :=
  exists q n q', evolves p q /\ mp_alloc q n = (q', NULL) /\ evolves q' p'.

Context (p0 p : P) (s : vox_rbtree) (t : tree) (Hok : tree_ok p0 p s t).
Context (key : list Z) (v : Z) (Hkey : key_ok key).

(** The functions the tree is configured with do not change. *)
Record config_kept (s' : vox_rbtree) : Prop := {
  ck_self : self s' = self s;
  ck_cmp : key_cmp s' = key_cmp s;
  ck_kf : key_free s' = key_free s;
  ck_vf : value_free s' = value_free s;
}.

(** The key is there: its value is replaced. *)
Lemma insert_present K c l a d r :
  seek (key_cmp s) key Top t = (K, T c l a d r) -> t = plug K (T c l a d r) -> it_key d = key ->
  exists s', vox_rbtree_insert p s key v = Some (p, s', 0, free_value s (it_value d)) /\ config_kept s' /\
    exists t', tree_ok p0 p s' t' /\ map_of t' = <[key := (it_at d, v)]> (map_of t) /\ bh t' = bh t.
Proof.
  intros Es Et Ek. pose proof (tr_holds _ _ _ _ Hok) as Hh.
  destruct (search_insert_ok s key (tr_cmp _ _ _ _ Hok) Hkey (tree_fuel s) Top t 0 Hh (tr_keys _ _ _ _ Hok))
    as (cmp & Hl); [|done|].
  { pose proof (own_length _ _ (ho_own _ _ Hh)). unfold tree_fuel. lia. }
  rewrite Es in Hl. destruct Hl as [Hl _]. cbn [up_addr addr] in Hl.
  pose proof Hh as Hp. rewrite Et in Hp.
  destruct (set_value_ok _ _ _ _ _ _ _ v Hp) as (s' & Ev & Hs & Hh').
  exists s'. split; [|split; [by destruct Hs|]].
  - unfold vox_rbtree_insert. destruct (Z.eqb_spec (zlen key) 0) as [E|_]; [destruct Hkey; lia|].
    rewrite (ho_root _ _ Hh), Hl. cbn [mbind option_bind]. rewrite (nonnull_at _ _ _ _ _ _ _ Hp). cbn [negb].
    rewrite (node_at _ _ _ _ _ _ _ Hp). own_norm. by rewrite Ev.
  - pose proof (plug_node_inorder K c l a d r) as Ei. rewrite <-Et in Ei.
    pose proof (plug_node_inorder K c l a (Item (it_at d) (it_key d) v) r) as Ei'.
    exists (plug K (T c l a (Item (it_at d) (it_key d) v) r)).
    pose proof (tree_nodup _ _ _ _ Hok) as Hnd. destruct Hok as [_ Hc Hk Hso Hb Hsz Ht].
    set (L1 := before K ++ inorder l) in *. set (L2 := inorder r ++ after K) in *.
    assert (keys (inorder (plug K (T c l a (Item (it_at d) (it_key d) v) r))) = keys (inorder t)) as Eks
      by (by rewrite Ei, Ei', !keys_app, !keys_cons).
    split; [|split].
    + constructor.
      * exact Hh'.
      * by rewrite (sm_cmp _ _ Hs).
      * by rewrite Eks.
      * by rewrite Eks, (sm_cmp _ _ Hs).
      * rewrite plug_col. cbn [col]. by rewrite Et, plug_col in Hb.
      * rewrite (sm_size _ _ Hs), Hsz, Ei, Ei', !length_app. done.
      * rewrite (sm_self _ _ Hs), Ei', blocks_middle. by rewrite Ei, blocks_middle in Ht.
    + unfold map_of. rewrite Ei, Ei', <-Ek. apply map_update. by rewrite <-Ei.
    + rewrite Et. by apply bh_plug.
Qed.

(** A tree with the new node at its place, in memory, has the new key. *)
Lemma inserted_ok K a b p' s' :
  t = plug K E -> around (key_cmp s) key K -> config_kept s' ->
  holds s' (paint BLACK (insert_fix K (T RED E a (Item b key v) E))) ->
  size s' = u64 (size s + 1) -> took p0 p' (self s :: a :: b :: blocks_of (inorder t)) ->
  tree_ok p0 p' s' (paint BLACK (insert_fix K (T RED E a (Item b key v) E))) /\
  map_of (paint BLACK (insert_fix K (T RED E a (Item b key v) E))) = <[key := (b, v)]> (map_of t).
Proof.
  intros Et Ha Hk2 Hh2 Hsz Ht2. set (d := Item b key v) in *.
  set (t' := paint BLACK (insert_fix K (T RED E a d E))) in *.
  assert (inorder t' = before K ++ (a, d) :: after K) as Ei'.
  { unfold t'. rewrite paint_inorder, insert_fix_inorder by done. by rewrite plug_inorder. }
  assert (inorder t = before K ++ after K) as Ei by (by rewrite Et, plug_inorder).
  assert (StronglySorted (klt (key_cmp s)) (keys (inorder t'))) as Hso.
  { rewrite Ei'. destruct Ha. apply sorted_insert; [done|done|]. rewrite <-Ei. by destruct Hok. }
  assert (Forall key_ok (keys (inorder t'))) as Hko.
  { pose proof (tr_keys _ _ _ _ Hok) as Hko. rewrite Ei, keys_app in Hko. apply Forall_app in Hko as [? ?].
    rewrite Ei', keys_app, keys_cons. apply Forall_app. split; [done|]. by apply Forall_cons. }
  split.
  - constructor; [exact Hh2|rewrite (ck_cmp _ Hk2); by destruct Hok|done|by rewrite (ck_cmp _ Hk2)|
      apply paint_is_black| |].
    + rewrite Hsz, (tr_size _ _ _ _ Hok), Ei, Ei', !length_app. cbn [length]. unfold u64.
      rewrite Zplus_mod_idemp_l. f_equal. lia.
    + by rewrite (ck_self _ Hk2), Ei', blocks_middle, <-Ei.
  - unfold map_of. rewrite Ei, Ei'. destruct (map_middle (before K) (a, d) (after K)) as [-> _]; [|done].
    rewrite <-Ei'. eapply sorted_nodup; [by destruct Hok|done|done].
Qed.

(** The key is not there: its node goes to the place the search ended at. *)
Lemma insert_absent K :
  seek (key_cmp s) key Top t = (K, E) -> t = plug K E -> around (key_cmp s) key K ->
  exists p' s' rc, vox_rbtree_insert p s key v = Some (p', s', rc, []) /\ config_kept s' /\
    ((rc = -1 /\ s' = s /\ refused p p' /\ tree_ok p0 p' s t) \/
     (rc = 0 /\ exists a b, tree_ok p0 p' s' (paint BLACK (insert_fix K (T RED E a (Item b key v) E))) /\
        map_of (paint BLACK (insert_fix K (T RED E a (Item b key v) E))) = <[key := (b, v)]> (map_of t))).
Proof.
  intros Es Et Ha. pose proof (tr_holds _ _ _ _ Hok) as Hh. pose proof (tr_pool _ _ _ _ Hok) as Ht.
  destruct (search_insert_ok s key (tr_cmp _ _ _ _ Hok) Hkey (tree_fuel s) Top t 0 Hh (tr_keys _ _ _ _ Hok))
    as (cmp & Hl); [|done|].
  { pose proof (own_length _ _ (ho_own _ _ Hh)). unfold tree_fuel. lia. }
  rewrite Es in Hl. destruct Hl as [Hl Hcmp]. cbn [up_addr addr] in Hl. specialize (Hcmp eq_refl).
  unfold vox_rbtree_insert. destruct (Z.eqb_spec (zlen key) 0) as [E|_]; [destruct Hkey; lia|].
  rewrite (ho_root _ _ Hh), Hl. cbn [mbind option_bind]. rewrite Z.eqb_refl. cbn [negb].
  assert (config_kept s) as Hks by done.
  destruct (mp_alloc p sizeof_node) as [p1 a] eqn:E1. destruct (Z.eqb_spec a NULL) as [->|Hna].
  { exists p1, s, (-1). split; [done|]. split; [done|]. left. split; [done|]. split; [done|].
    split; [exists p, sizeof_node, p1; split; [apply rtc_refl|]; split; [done|apply rtc_refl]|].
    destruct Hok as [? ? ? ? ? ? Hp]. constructor; try done.
    refine (took_app _ _ _ _ [] Hp _). apply (took_refused p p1 sizeof_node); [by destruct Hp|unfold sizeof_node; lia|done]. }
  assert (took p0 p1 (a :: self s :: blocks_of (inorder t))) as Ht1.
  { refine (took_app _ _ _ _ [a] Ht _). apply (took_alloc p p1 sizeof_node); [by destruct Ht|unfold sizeof_node; lia|done|done]. }
  destruct (mp_alloc p1 (zlen key)) as [p2 b] eqn:E2. destruct Hkey as [Hkb Hkl].
  destruct (Z.eqb_spec b NULL) as [->|Hnb].
  { exists (mp_free p2 a), s, (-1). split; [done|]. split; [done|]. left. split; [done|]. split; [done|].
    split; [exists p1, (zlen key), p2; split; [by eapply evolves_alloc|]; split; [done|apply evolves_free]|].
    destruct Hok as [? ? ? ? ? ? Hp]. constructor; try done.
    apply took_free. refine (took_app _ _ _ _ [] Ht1 _). apply (took_refused p1 p2 (zlen key)); [by destruct Ht1|lia|done]. }
  assert (took p0 p2 (b :: a :: self s :: blocks_of (inorder t))) as Ht2.
  { refine (took_app _ _ _ _ [b] Ht1 _). apply (took_alloc p1 p2 (zlen key)); [by destruct Ht1|lia|done|done]. }
  set (d := Item b key v).
  change (Node RED (up_addr K) NULL NULL b key (zlen key) v) with (node_of RED (up_addr K) NULL NULL d).
  pose proof Hh as Hp. rewrite Et in Hp. apply holds_at in Hp as [Hr Ho]. cbn [cells addr app] in Hr, Ho.
  assert (own (nodes (set_node s a (node_of RED (up_addr K) NULL NULL d)))
    ((a, node_of RED (up_addr K) NULL NULL d) :: up_cells K NULL)) as Ho1.
  { apply own_new; [done|done|]. intros Hin.
    assert (a ∈ blocks_of (inorder t)) as Hb.
    { apply in_blocks. rewrite <-(cells_inorder NULL t), Et, plug_cells. done. }
    pose proof (tk_nodup _ _ _ Ht1) as Hnd. apply NoDup_cons in Hnd as [Hnd _]. apply Hnd. by right. }
  destruct (link_ok _ K a _ cmp Ho1 Hr Hcmp) as (s1 & -> & Hs1 & Hr1 & Ho1'). cbn [mbind option_bind].
  assert (holds (with_size s1 (u64 (size s1 + 1))) (plug K (T RED E a d E))) as Hh1.
  { apply holds_size. apply holds_at. cbn [cells addr app]. done. }
  destruct (insert_fixup_ok _ _ _ _ _ _ _ Hh1) as (s2 & -> & Hs2 & Hh2).
  { intros HK. pose proof (tr_black _ _ _ _ Hok) as Hb. rewrite Et, plug_col in Hb. done. }
  cbn [mbind option_bind]. exists p2, s2, 0. split; [done|].
  assert (config_kept s2) as Hk2.
  { destruct Hs1 as [A1 A2 A3 A4 A5], Hs2 as [B1 B2 B3 B4 B5].
    cbn [self size key_cmp key_free value_free with_size set_node with_heap] in *. constructor; congruence. }
  split; [done|]. right. split; [done|]. exists a, b. fold d.
  apply (inserted_ok K a b p2 s2); try done.
  - rewrite (sm_size _ _ Hs2). cbn [size with_size]. by rewrite (sm_size _ _ Hs1).
  - eapply took_perm; [exact Ht2|]. solve_Permutation.
Qed.
End insertion.

(** ** Deletion *)

Lemma same_drop s a : same s (with_heap s (root s) (delete a (nodes s))).
Proof. by constructor. Qed.

(** The fix-up, or nothing, after the node [a] has gone. *)
Lemma refix_ok s k c l a d r y K u c0 p b :
  unlinked k c l a r y K u c0 -> col (plug k (T c l a d r)) = BLACK ->
  holds s (plug K u) -> (u <> E -> p = up_addr K /\ b = is_left K) -> any_place (plug K u) p ->
  exists s' t', (if decide (c0 = BLACK) then delete_fixup s (addr u) p b else Some s) = Some s' /\ same s s' /\
    holds s' t' /\ inorder t' = inorder (plug K u) /\ col t' = BLACK /\
    (balanced (plug k (T c l a d r)) -> ~ hard u c0 -> balanced t').
Proof.
  intros Hu Hc Hh Hpb Hp. pose proof (unlinked_top _ _ _ _ d _ _ _ _ _ Hu Hc) as Htop.
  destruct (decide (c0 = BLACK)) as [->|Hc0].
  - destruct (decide (col u = RED)) as [Eu|Eu].
    + assert (u <> E) as Hue by (by destruct u). destruct (Hpb Hue) as [-> ->].
      destruct (delete_exit (S (base.size (nodes s))) s K u (up_addr K) (is_left K) Hh Hue Htop) as (s' & E & Hs & Hh').
      { by right. }
      exists s', (plug K (paint BLACK u)). split; [exact E|]. split; [done|]. split; [done|].
      split; [apply plug_inorder_eq, paint_inorder|]. split; [by apply paint_col|].
      intros Hb Hhard. by destruct (unlinked_balanced _ _ _ _ _ _ _ _ _ _ Hu Hb Hhard).
    + destruct (delete_fixup_ok s K u p b Hh) as (s' & t' & E & Hs & Hh' & Hi & Hc'); [done..|].
      exists s', t'. do 5 (split; [done|]). intros Hb Hhard.
      destruct (unlinked_balanced _ _ _ _ _ _ _ _ _ _ Hu Hb Hhard). done.
  - exists s, (plug K u). do 3 (split; [done|]). split; [done|].
    assert (c0 = RED) as -> by (by destruct c0). split.
    + destruct Hu as [_ [(-> & -> & <- & _)|(k1 & dy & _ & _ & ->)]].
      * destruct k; [done|..]; rewrite plug_col; by cbn [top_col] in *.
      * rewrite plug_on. cbn [plug]. rewrite plug_col in Hc |- *. done.
    + intros Hb Hhard. exact (unlinked_balanced _ _ _ _ _ _ _ _ _ _ Hu Hb Hhard).
Qed.

(** A black node without children. *)
Definition black_leaf (t : tree) : bool :=
  match t with T VOX_RBTREE_BLACK E _ _ E => true | _ => false end.

Lemma unlinked_leaf m k c l a d r y K u c0 n :
  own m ((a, n) :: cells NULL (plug K u)) -> unlinked k c l a r y K u c0 ->
  bool_decide (c0 = BLACK) && match u with E => y =? a | _ => false end = black_leaf (T c l a d r).
Proof.
  intros Ho [_ [(-> & -> & -> & Hlr)|(k1 & dy & Er & _ & ->)]].
  - rewrite Z.eqb_refl. destruct Hlr as [[-> ->]|[-> ->]]; [by destruct c, r|by destruct c, l].
  - rewrite plug_on in Ho. cbn [plug] in Ho. rewrite plug_cells in Ho. apply own_distinct in Ho as Hya.
    rewrite (proj2 (Z.eqb_neq y a)) by congruence.
    assert (r <> E) as Hr by (by rewrite Er; apply plug_not_E).
    transitivity false; [destruct u; by rewrite andb_false_r|]. by destruct c, l, r.
Qed.

(** What the deletion does after the node [a] was released. *)
Lemma refix_place_ok keeps s m k c l a d r y K u c0 n il :
  holds s (plug K u) -> own m ((a, n) :: cells NULL (plug K u)) -> parent n = up_addr k ->
  unlinked k c l a r y K u c0 -> col (plug k (T c l a d r)) = BLACK ->
  let fixed := (if decide (c0 = BLACK) then
                  '(p, b) ← fixup_place keeps s a (Some n) y (addr u) il; delete_fixup s (addr u) p b
                else Some s) in
  if negb keeps && black_leaf (T c l a d r) then fixed = None else
  exists s' t', fixed = Some s' /\ same s s' /\
    holds s' t' /\ inorder t' = inorder (plug K u) /\ col t' = BLACK /\
    (balanced (plug k (T c l a d r)) -> ~ hard u c0 -> balanced t').
Proof.
  intros Hh Ho Hn Hu Hc fixed. subst fixed. rewrite <-(unlinked_leaf _ _ _ _ _ d _ _ _ _ _ _ Ho Hu).
  destruct (decide (c0 = BLACK)) as [->|Hc0].
  - rewrite bool_decide_true by done. cbn [andb].
    pose proof (fixup_place_ok keeps s m k c l a r y K u _ n il Hh Ho Hn Hu) as Hp.
    destruct (negb keeps && _); [by rewrite Hp|]. destruct Hp as (p & b & -> & Hp & Hany).
    destruct (refix_ok s k c l a d r y K u _ p b Hu Hc Hh Hp Hany) as (s' & t' & E' & H').
    rewrite decide_True in E' by done. by exists s', t'.
  - rewrite bool_decide_false, andb_false_r by done.
    destruct (refix_ok s k c l a d r y K u _ (up_addr K) (is_left K) Hu Hc Hh) as (s' & t' & E' & H');
      [done|apply up_any|]. rewrite decide_False in E' by done. by exists s', t'.
Qed.

(** A deletion of [key] splices out a black node without children. *)
Definition hard_delete (s : vox_rbtree) (key : list Z) (t : tree) : bool :=
  let '(u, c) := spliced (seek (key_cmp s) key Top t).2 in
  match u, c with E, VOX_RBTREE_BLACK => true | _, _ => false end.

Section deletion.
Context {P : Type} `{MPoolLaws P}.
Context (keeps : bool) (p0 p : P) (s : vox_rbtree) (t : tree) (Hok : tree_ok p0 p s t).
Context (key : list Z) (Hkey : key_ok key).

Lemma delete_present K c l a d r :
  seek (key_cmp s) key Top t = (K, T c l a d r) -> t = plug K (T c l a d r) -> it_key d = key ->
  if negb keeps && black_leaf (T c l a d r) then vox_rbtree_delete keeps p s key = None else
  exists p' s', vox_rbtree_delete keeps p s key
      = Some (p', s', 0, free_key s (it_at d) ++ free_value s (it_value d)) /\ config_kept s s' /\
    exists t', tree_ok p0 p' s' t' /\ map_of t' = delete key (map_of t) /\
      length (inorder t) = S (length (inorder t')) /\
      (balanced t -> hard_delete s key t = false -> balanced t').
Proof.
  intros Es Et Ek. pose proof (tr_holds _ _ _ _ Hok) as Hh. pose proof Hh as Hp. rewrite Et in Hp.
  unfold vox_rbtree_delete. destruct (Z.eqb_spec (zlen key) 0) as [E|_]; [destruct Hkey; lia|].
  rewrite (find_node_ok p0 p s t Hok key Hkey), Es. cbn [snd addr mbind option_bind].
  rewrite (nonnull_at _ _ _ _ _ _ _ Hp), (node_at _ _ _ _ _ _ _ Hp). own_norm.
  pose proof (left_child_at _ _ _ Hp ltac:(done)) as El. cbn [addr] in El. rewrite El. cbn [mbind option_bind].
  destruct (unlink_ok _ _ _ _ _ _ _ Hp) as (s1 & y & K' & u & c0 & n & -> & Hs1 & Hr1 & Ho1 & Hn & Hu).
  cbn [mbind option_bind]. rewrite (own_head _ _ _ _ Ho1 : s1 !! a = Some n).
  assert (holds (with_size (with_heap s1 (root s1) (delete a (nodes s1))) (u64 (size (with_heap s1 (root s1) (delete a (nodes s1))) - 1))) (plug K' u)) as Hh1.
  { apply holds_size. constructor; [done|]. by eapply own_drop. }
  pose proof (refix_place_ok keeps _ _ K c l a d r y K' u c0 n (is_left K) Hh1 Ho1 Hn Hu ltac:(by rewrite <-Et; destruct Hok)) as Hfix.
  cbv zeta in Hfix. destruct (negb keeps && _); [by rewrite Hfix|].
  destruct Hfix as (s2 & t' & -> & Hs2 & Hh2 & Hi2 & Hc2 & Hb2).
  cbn [mbind option_bind]. eexists _, s2.
  split; [unfold free_key, free_value; by rewrite (sm_kf _ _ Hs1), (sm_vf _ _ Hs1)|].
  assert (config_kept s s2) as Hk2.
  { destruct Hs1 as [A1 A2 A3 A4 A5], Hs2 as [B1 B2 B3 B4 B5].
    cbn [self size key_cmp key_free value_free with_size with_heap] in *. constructor; congruence. }
  split; [done|]. exists t'.
  destruct (unlinked_inorder _ _ _ _ d _ _ _ _ _ Hu) as [Ei Ei']. rewrite <-Et in Ei. rewrite Ei' in Hi2.
  set (L1 := before K ++ inorder l) in *. set (L2 := inorder r ++ after K) in *.
  assert (inorder t = L1 ++ (a, d) :: L2) as E1 by (rewrite Ei; unfold L1, L2; by rewrite <-!app_assoc).
  assert (inorder t' = L1 ++ L2) as E2 by (rewrite Hi2; unfold L1, L2; by rewrite <-!app_assoc).
  pose proof (tree_nodup _ _ _ _ Hok) as Hnd. destruct Hok as [_ Hcmp Hko Hso Hb Hsz Ht].
  assert (StronglySorted (klt (key_cmp s)) (keys (inorder t'))) as Hso'.
  { rewrite E2. apply (sorted_remove _ _ (a, d)). by rewrite <-E1. }
  split; [|split; [|split]].
  - constructor; [done|by rewrite (ck_cmp _ _ Hk2)| |by rewrite (ck_cmp _ _ Hk2)|done| |].
    + rewrite E2, keys_app. rewrite E1, keys_app, keys_cons in Hko. apply Forall_app in Hko as [? [_ ?]%Forall_cons].
      by apply Forall_app.
    + rewrite (sm_size _ _ Hs2). cbn [size with_size with_heap]. rewrite (sm_size _ _ Hs1), Hsz, E1, E2, !length_app.
      cbn [length]. unfold u64. rewrite Zminus_mod_idemp_l. f_equal. lia.
    + rewrite (ck_self _ _ Hk2). apply took_free, took_free. eapply took_perm; [exact Ht|].
      rewrite E1, E2, blocks_middle. cbn [fst snd]. solve_Permutation.
  - unfold map_of. rewrite E1, E2. rewrite E1 in Hnd.
    destruct (map_middle L1 (a, d) L2 Hnd) as [-> Hnone]. cbn [snd fst] in *. rewrite Ek in *.
    symmetry. by apply delete_insert_id.
  - rewrite E1, E2, !length_app. cbn [length]. lia.
  - intros Hbal Hhard. apply Hb2; [by rewrite <-Et|]. intros [-> ->].
    unfold hard_delete in Hhard. rewrite Es in Hhard. cbn [snd] in Hhard. by rewrite (proj1 Hu d) in Hhard.
Qed.

Lemma delete_absent K :
  seek (key_cmp s) key Top t = (K, E) -> vox_rbtree_delete keeps p s key = Some (p, s, -1, []).
Proof.
  intros Es. unfold vox_rbtree_delete. destruct (Z.eqb_spec (zlen key) 0) as [E|_]; [done|].
  by rewrite (find_node_ok p0 p s t Hok key Hkey), Es.
Qed.
End deletion.

(** ** Clearing *)

(** What is called for an entry that goes: [key_free] and [value_free], when set. *)
Definition free_pair (s : vox_rbtree) (x : list Z * (Z * Z)) : list freed :=
  free_key s x.2.1 ++ free_value s x.2.2.

Lemma config_trans s1 s2 s3 : config_kept s1 s2 -> config_kept s2 s3 -> config_kept s1 s3.
Proof. intros [] []. constructor; congruence. Qed.

Lemma free_pair_kept s s' x : config_kept s s' -> free_pair s' x = free_pair s x.
Proof. intros [_ _ Hk Hv]. unfold free_pair, free_key, free_value. by rewrite Hk, Hv. Qed.

Section clearing.
Context {P : Type} `{MPoolLaws P}.

Lemma root_key (p0 p : P) s c l a d r : tree_ok p0 p s (T c l a d r) -> key_ok (it_key d).
Proof.
  intros Hok. pose proof (tr_keys _ _ _ _ Hok) as Hko. cbn [inorder] in Hko. rewrite keys_app, keys_cons in Hko.
  by apply Forall_app in Hko as [_ [Hk _]%Forall_cons].
Qed.

Lemma seek_root (p0 p : P) s c l a d r :
  tree_ok p0 p s (T c l a d r) -> seek (key_cmp s) (it_key d) Top (T c l a d r) = (Top, T c l a d r).
Proof.
  intros Hok. pose proof (root_key _ _ _ _ _ _ _ _ Hok) as Hk. cbn [seek].
  by rewrite (proj2 (kcompare_eq _ (tr_cmp _ _ _ _ Hok) _ _ Hk Hk) eq_refl).
Qed.

Lemma clear_loop_ok fuel (p0 p : P) s t out :
  tree_ok p0 p s t -> (length (inorder t) < fuel)%nat ->
  exists p' s' L, clear_loop true fuel p s out = Some (p', s', out ++ (x ← L; free_pair s x)) /\ config_kept s s' /\
    tree_ok p0 p' s' E /\ L ≡ₚ map_to_list (map_of t).
Proof.
  revert p s t out. induction fuel as [|fuel IH]; intros p s t out Hok Hf; [lia|].
  cbn [clear_loop]. pose proof (tr_holds _ _ _ _ Hok) as Hh. rewrite (ho_root _ _ Hh).
  destruct t as [|c l a d r].
  { cbn [addr]. rewrite Z.eqb_refl. exists p, s, []. cbn. rewrite app_nil_r. done. }
  cbn [addr]. rewrite (nonnull_at s Top _ _ _ _ _ Hh), (node_at s Top _ _ _ _ _ Hh). own_norm.
  pose proof (root_key _ _ _ _ _ _ _ _ Hok) as Hk.
  destruct (delete_present true p0 p s _ Hok (it_key d) Hk Top c l a d r (seek_root p0 p s _ _ _ _ _ Hok) eq_refl eq_refl)
    as (p1 & s1 & -> & Hc1 & t1 & Hok1 & Hm1 & Hl1 & _).
  cbn [mbind option_bind].
  destruct (IH p1 s1 t1 (out ++ free_pair s (it_key d, (it_at d, it_value d))) Hok1) as (p2 & s2 & L & E2 & Hc2 & Hok2 & HL).
  { lia. }
  exists p2, s2, ((it_key d, (it_at d, it_value d)) :: L). split; [|split; [by eapply config_trans|split; [done|]]].
  - unfold free_pair in E2 at 1. cbn [fst snd] in E2. rewrite E2. do 2 f_equal. cbn [mbind list_bind].
    rewrite <-!app_assoc. do 2 f_equal.
    clear -Hc1. induction L as [|x L IH]; [done|]. cbn [mbind list_bind]. by rewrite (free_pair_kept _ _ x Hc1), IH.
  - rewrite HL, Hm1. apply map_to_list_delete. apply map_of_lookup; [by apply (tree_nodup p0 p s)|].
    exists a, d. split; [cbn [inorder]; set_solver|done].
Qed.

(** The last node deleted is a black one without children. *)
Lemma clear_loop_lost fuel (p0 p : P) s t out :
  tree_ok p0 p s t -> t <> E -> clear_loop false fuel p s out = None.
Proof.
  revert p s t out. induction fuel as [|fuel IH]; intros p s t out Hok Ht; [done|].
  cbn [clear_loop]. pose proof (tr_holds _ _ _ _ Hok) as Hh. rewrite (ho_root _ _ Hh).
  destruct t as [|c l a d r]; [done|]. cbn [addr].
  rewrite (nonnull_at s Top _ _ _ _ _ Hh), (node_at s Top _ _ _ _ _ Hh). own_norm.
  pose proof (root_key _ _ _ _ _ _ _ _ Hok) as Hk.
  pose proof (delete_present false p0 p s _ Hok (it_key d) Hk Top c l a d r (seek_root p0 p s _ _ _ _ _ Hok) eq_refl eq_refl) as Hd.
  destruct (black_leaf _) eqn:El; cbn [negb andb] in Hd; [by rewrite Hd|].
  destruct Hd as (p1 & s1 & -> & _ & t1 & Hok1 & _ & Hl1 & _). cbn [mbind option_bind].
  apply (IH p1 s1 t1); [done|]. intros ->. cbn [inorder] in Hl1. rewrite length_app in Hl1. cbn [length] in Hl1.
  pose proof (tr_black _ _ _ _ Hok) as Hc. cbn [col] in Hc. subst c.
  destruct l as [|? l1 ? ? r1]; [|cbn [inorder] in Hl1; rewrite length_app in Hl1; cbn [length] in Hl1; lia].
  destruct r as [|? l1 ? ? r1]; [done|cbn [inorder] in Hl1; rewrite length_app in Hl1; cbn [length] in Hl1; lia].
Qed.

Lemma rb_clear_ok (p0 p : P) s t :
  tree_ok p0 p s t ->
  exists p' s' L, vox_rbtree_clear true p s = Some (p', s', x ← L; free_pair s x) /\ config_kept s s' /\
    tree_ok p0 p' s' E /\ L ≡ₚ map_to_list (map_of t).
Proof.
  intros Hok. unfold vox_rbtree_clear. apply (clear_loop_ok (tree_fuel s) p0 p s t []); [done|].
  pose proof (own_length _ _ (ho_own _ _ (tr_holds _ _ _ _ Hok))) as Hl.
  rewrite <-(length_fmap fst (cells NULL t)), (cells_inorder NULL t), length_fmap in Hl. unfold tree_fuel. lia.
Qed.
End clearing.

(** ** Walks *)

Definition visit (x : Z * item) : list Z * Z := (it_key x.2, it_value x.2).

Fixpoint preorder (t : tree) : list (Z * item) :=
  match t with E => [] | T _ l a d r => (a, d) :: preorder l ++ preorder r end.
Fixpoint postorder (t : tree) : list (Z * item) :=
  match t with E => [] | T _ l a d r => postorder l ++ postorder r ++ [(a, d)] end.

Lemma preorder_perm t : preorder t ≡ₚ inorder t.
Proof. induction t as [|c l IHl a d r IHr]; cbn; [done|]. rewrite IHl, IHr. apply Permutation_middle. Qed.
Lemma postorder_perm t : postorder t ≡ₚ inorder t.
Proof.
  induction t as [|c l IHl a d r IHr]; cbn; [done|]. rewrite IHl, IHr. apply Permutation_app_head.
  symmetry. apply Permutation_cons_append.
Qed.

Section walks.
Context (s : vox_rbtree).

#[local] Ltac walk_step IHl IHr Hh :=
  rewrite (nonnull_at _ _ _ _ _ _ _ Hh), (node_at _ _ _ _ _ _ _ Hh); own_norm;
  rewrite IHl, IHr; cbn [mbind option_bind]; do 2 f_equal;
  [rewrite ?fmap_cons, ?fmap_app; done|unfold u64, zlen; cbn [length]; rewrite ?length_app; cbn [length]; rewrite ?length_app; dlia].

Lemma inorder_ok fuel k t :
  holds s (plug k t) -> (height t < fuel)%nat ->
  inorder_recursive fuel s (addr t) = Some (visit <$> inorder t, u64 (zlen (inorder t))).
Proof.
  revert k t. induction fuel as [|fuel IH]; intros k t Hh Hf; [lia|].
  destruct t as [|c l a d r]; [done|]. cbn [inorder_recursive addr inorder height] in *.
  pose proof (IH (CL c a d r k) l Hh ltac:(lia)) as IHl. pose proof (IH (CR c a d l k) r Hh ltac:(lia)) as IHr.
  walk_step IHl IHr Hh.
Qed.

Lemma preorder_ok fuel k t :
  holds s (plug k t) -> (height t < fuel)%nat ->
  preorder_recursive fuel s (addr t) = Some (visit <$> preorder t, u64 (zlen (preorder t))).
Proof.
  revert k t. induction fuel as [|fuel IH]; intros k t Hh Hf; [lia|].
  destruct t as [|c l a d r]; [done|]. cbn [preorder_recursive addr preorder height] in *.
  pose proof (IH (CL c a d r k) l Hh ltac:(lia)) as IHl. pose proof (IH (CR c a d l k) r Hh ltac:(lia)) as IHr.
  walk_step IHl IHr Hh.
Qed.

Lemma postorder_ok fuel k t :
  holds s (plug k t) -> (height t < fuel)%nat ->
  postorder_recursive fuel s (addr t) = Some (visit <$> postorder t, u64 (zlen (postorder t))).
Proof.
  revert k t. induction fuel as [|fuel IH]; intros k t Hh Hf; [lia|].
  destruct t as [|c l a d r]; [done|]. cbn [postorder_recursive addr postorder height] in *.
  pose proof (IH (CL c a d r k) l Hh ltac:(lia)) as IHl. pose proof (IH (CR c a d l k) r Hh ltac:(lia)) as IHr.
  walk_step IHl IHr Hh.
Qed.

(** The greatest node. *)
Lemma max_loop_ok fuel k t :
  holds s (plug k t) -> t <> E -> (height t <= fuel)%nat ->
  exists k1 c y d l, max_loop fuel s (addr t) = Some y /\ t = plug k1 (T c l y d E) /\
    inorder t = inorder (plug k1 l) ++ [(y, d)].
Proof.
  revert k fuel. induction t as [|c l _ a d r IH]; [done|]. intros k fuel Hh _ Hf.
  destruct fuel as [|fuel]; [cbn in Hf; lia|]. cbn [max_loop addr height] in *.
  rewrite (nonnull_at _ _ _ _ _ _ _ Hh), (node_at _ _ _ _ _ _ _ Hh). own_norm.
  assert (r = E \/ r <> E) as [->|Hr] by (destruct r; auto).
  { exists Top, c, a, d, l. cbn. auto. }
  rewrite (addr_nonnull s (CR c a d l k) r Hh Hr).
  destruct (IH (CR c a d l k) fuel Hh Hr ltac:(lia)) as (k1 & c1 & y & d1 & l1 & Em & Et & Ei).
  exists (on k1 (CR c a d l Top)), c1, y, d1, l1. split; [done|]. rewrite !plug_on. cbn [plug inorder addr].
  split; [by rewrite <-Et|]. rewrite Ei. by rewrite <-app_assoc.
Qed.
End walks.

(** ** The interface as one step *)

Inductive rbtree_op :=
  | Insert (k : list Z) (v : Z) | Find (k : list Z) | Delete (k : list Z) | Contains (k : list Z)
  | Size | Empty | Clear | Inorder | Preorder | Postorder | Min | Max.

Inductive rbtree_result :=
  | Rc (r : Z) | Ptr (v : Z) | Flag (b : bool) | Visited (l : list (list Z * Z)) (n : Z)
  | Key (k : option (Z * list Z * Z)).

Definition op_key (op : rbtree_op) : list Z :=
  match op with Insert k _ | Find k | Delete k | Contains k => k | _ => [] end.
Definition op_ok (op : rbtree_op) : Prop := is_bytes (op_key op) /\ zlen (op_key op) < 2 ^ 63.

Definition value_of (o : option (Z * Z)) : Z := match o with Some (_, v) => v | None => NULL end.
Definition replaced (s : vox_rbtree) (o : option (Z * Z)) : list freed :=
  match o with Some (_, v) => free_value s v | None => [] end.

Section interface.
Context {P : Type} `{MPoolLaws P}.

Definition rbtree_exec (keeps : bool) (p : P) (s : vox_rbtree) (op : rbtree_op)
  : option (P * vox_rbtree * rbtree_result * list freed) :=
  match op with
  | Insert k v => '(p, s, rc, out) ← vox_rbtree_insert p s k v; Some (p, s, Rc rc, out)
  | Find k => v ← vox_rbtree_find s k; Some (p, s, Ptr v, [])
  | Delete k => '(p, s, rc, out) ← vox_rbtree_delete keeps p s k; Some (p, s, Rc rc, out)
  | Contains k => b ← vox_rbtree_contains s k; Some (p, s, Flag b, [])
  | Size => Some (p, s, Rc (vox_rbtree_size s), [])
  | Empty => Some (p, s, Flag (vox_rbtree_empty s), [])
  | Clear => '(p, s, out) ← vox_rbtree_clear keeps p s; Some (p, s, Rc 0, out)
  | Inorder => '(l, n) ← vox_rbtree_inorder s; Some (p, s, Visited l n, [])
  | Preorder => '(l, n) ← vox_rbtree_preorder s; Some (p, s, Visited l n, [])
  | Postorder => '(l, n) ← vox_rbtree_postorder s; Some (p, s, Visited l n, [])
  | Min => k ← vox_rbtree_min s; Some (p, s, Key k, [])
  | Max => k ← vox_rbtree_max s; Some (p, s, Key k, [])
  end.

(** [k] is the first key of [m] in the order [lt]. *)
Definition first_key (lt : list Z -> list Z -> Prop) (m : gmap (list Z) (Z * Z)) (o : option (Z * list Z * Z)) : Prop :=
  match o with
  | None => m = ∅
  | Some (a, k, n) => n = zlen k /\ (exists v, m !! k = Some (a, v)) /\
      forall k', is_Some (m !! k') -> k' = k \/ lt k k'
  end.

(** What each call does to a map from a key to the copy made of it and its value. *)
Definition rbtree_spec (s : vox_rbtree) (m : gmap (list Z) (Z * Z)) (op : rbtree_op)
  (m' : gmap (list Z) (Z * Z)) (r : rbtree_result) (out : list freed) : Prop :=
  match op with
  | Insert k v =>
      r = Rc 0 /\ out = replaced s (m !! k) /\ zlen k <> 0 /\
      exists a, m' = <[k := (a, v)]> m /\ forall b w, m !! k = Some (b, w) -> a = b
  | Find k => m' = m /\ out = [] /\ r = Ptr (value_of (m !! k))
  | Delete k =>
      m' = delete k m /\
      match m !! k with
      | Some (a, v) => r = Rc 0 /\ out = free_pair s (k, (a, v))
      | None => r = Rc (-1) /\ out = []
      end
  | Contains k => m' = m /\ out = [] /\ r = Flag (negb (value_of (m !! k) =? NULL))
  | Size => m' = m /\ out = [] /\ r = Rc (u64 (Z.of_nat (base.size m)))
  | Empty => m' = m /\ out = [] /\ r = Flag (u64 (Z.of_nat (base.size m)) =? 0)
  | Clear => m' = ∅ /\ r = Rc 0 /\ exists L, L ≡ₚ map_to_list m /\ out = (x ← L; free_pair s x)
  | Inorder => m' = m /\ out = [] /\ exists l, r = Visited l (u64 (zlen l)) /\
      l ≡ₚ map_to_list (snd <$> m) /\ StronglySorted (klt (key_cmp s)) l.*1
  | Preorder | Postorder => m' = m /\ out = [] /\ exists l, r = Visited l (u64 (zlen l)) /\
      l ≡ₚ map_to_list (snd <$> m)
  | Min => m' = m /\ out = [] /\ exists k, r = Key k /\ first_key (klt (key_cmp s)) m k
  | Max => m' = m /\ out = [] /\ exists k, r = Key k /\ first_key (flip (klt (key_cmp s))) m k
  end.

(** A call that deletes no black node without children. *)
Definition gentle (s : vox_rbtree) (t : tree) (op : rbtree_op) : Prop :=
  match op with Delete k => hard_delete s k t = false | _ => True end.

(** A call that reads a block it has given back to the pool: it deletes a black node without
    children, or it clears the tree, which ends with one. *)
Definition reads_released (s : vox_rbtree) (t : tree) (op : rbtree_op) : bool :=
  match op with
  | Delete k => negb (zlen k =? 0) && black_leaf (seek (key_cmp s) k Top t).2
  | Clear => match t with E => false | _ => true end
  | _ => false
  end.

Context (p0 p : P) (s : vox_rbtree) (t : tree) (Hok : tree_ok p0 p s t).

Lemma keys_of_map k : is_Some (map_of t !! k) <-> k ∈ keys (inorder t).
Proof.
  split.
  - intros [[a v] E]. apply map_of_lookup in E as (b & d & Hin & <- & _); [|by apply (tree_nodup p0 p s)].
    apply list_elem_of_fmap. by exists (b, d).
  - intros ([b d] & -> & Hin)%list_elem_of_fmap. exists (it_at d, it_value d).
    apply map_of_lookup; [by apply (tree_nodup p0 p s)|]. by exists b, d.
Qed.

Lemma visited_map L : L ≡ₚ inorder t -> visit <$> L ≡ₚ map_to_list (snd <$> map_of t).
Proof.
  intros ->. rewrite map_to_list_fmap. unfold map_of. rewrite map_to_list_to_map.
  - rewrite <-list_fmap_compose. done.
  - rewrite <-keys_entry. by apply (tree_nodup p0 p s).
Qed.

Lemma holds_height : (height t < tree_fuel s)%nat.
Proof.
  pose proof (own_length _ _ (ho_own _ _ (tr_holds _ _ _ _ Hok))). pose proof (height_cells t).
  unfold tree_fuel. lia.
Qed.

Lemma rb_find_ok k : key_ok k -> vox_rbtree_find s k = Some (value_of (map_of t !! k)).
Proof.
  intros Hk. unfold vox_rbtree_find. destruct (Z.eqb_spec (zlen k) 0) as [E|_]; [destruct Hk; lia|].
  rewrite (find_node_ok p0 p s t Hok k Hk). cbn [mbind option_bind].
  destruct (seek_cases p0 p s t Hok k Hk) as [K Es Et Ha Em|K c l a d r Es Et Ek Em]; rewrite Es, Em; cbn [snd addr].
  - done.
  - pose proof (tr_holds _ _ _ _ Hok) as Hh. rewrite Et in Hh.
    by rewrite (nonnull_at _ _ _ _ _ _ _ Hh), (node_at _ _ _ _ _ _ _ Hh).
Qed.

Lemma rb_no_empty_key k : zlen k = 0 -> map_of t !! k = None.
Proof.
  intros Hk. destruct (map_of t !! k) as [x|] eqn:E; [exfalso|done].
  assert (k ∈ keys (inorder t)) as Hin by (apply keys_of_map; by rewrite E).
  pose proof (tr_keys _ _ _ _ Hok) as Hks. rewrite Forall_forall in Hks. destruct (Hks k Hin). lia.
Qed.

Lemma min_ok : exists k, vox_rbtree_min s = Some k /\ first_key (klt (key_cmp s)) (map_of t) k.
Proof.
  pose proof (tr_holds _ _ _ _ Hok) as Hh. unfold vox_rbtree_min. rewrite (ho_root _ _ Hh).
  assert (t = E \/ t <> E) as [->|Ht] by (destruct t; auto); [by exists None|].
  rewrite (addr_nonnull s Top t Hh Ht).
  destruct (min_loop_ok (tree_fuel s) s Top t Hh Ht) as (k1 & c & y & d & r & Em & Et & _ & Ei & _).
  { pose proof (own_length _ _ (ho_own _ _ Hh)). unfold tree_fuel. lia. }
  unfold min_node. rewrite Em. cbn [mbind option_bind]. rewrite Et in Hh.
  rewrite (nonnull_at _ _ _ _ _ _ _ Hh), (node_at _ _ _ _ _ _ _ Hh). own_norm.
  exists (Some (it_at d, it_key d, zlen (it_key d))). split; [done|]. split; [done|]. split.
  - exists (it_value d). apply map_of_lookup; [by apply (tree_nodup p0 p s)|]. exists y, d. rewrite Ei.
    split; [by left|done].
  - intros k' Hk'%keys_of_map. pose proof (tr_sorted _ _ _ _ Hok) as Hs. rewrite Ei, keys_cons in Hs, Hk'.
    apply elem_of_cons in Hk' as [->|Hk']; [by left|right]. inversion Hs as [|? ? _ Hlt]; subst.
    rewrite Forall_forall in Hlt. by apply Hlt.
Qed.

Lemma max_ok : exists k, vox_rbtree_max s = Some k /\ first_key (flip (klt (key_cmp s))) (map_of t) k.
Proof.
  pose proof (tr_holds _ _ _ _ Hok) as Hh. unfold vox_rbtree_max. rewrite (ho_root _ _ Hh).
  assert (t = E \/ t <> E) as [->|Ht] by (destruct t; auto); [by exists None|].
  rewrite (addr_nonnull s Top t Hh Ht).
  destruct (max_loop_ok s (tree_fuel s) Top t Hh Ht) as (k1 & c & y & d & l & Em & Et & Ei).
  { pose proof holds_height. lia. }
  unfold max_node. rewrite Em. cbn [mbind option_bind]. rewrite Et in Hh.
  rewrite (nonnull_at _ _ _ _ _ _ _ Hh), (node_at _ _ _ _ _ _ _ Hh). own_norm.
  exists (Some (it_at d, it_key d, zlen (it_key d))). split; [done|]. split; [done|]. split.
  - exists (it_value d). apply map_of_lookup; [by apply (tree_nodup p0 p s)|]. exists y, d. rewrite Ei.
    split; [|done]. apply elem_of_app. right. by left.
  - intros k' Hk'%keys_of_map. pose proof (tr_sorted _ _ _ _ Hok) as Hs. rewrite Ei, keys_app in Hs, Hk'.
    apply elem_of_app in Hk' as [Hk'|Hk']; [right|left].
    + apply (StronglySorted_app_1_elem_of _ _ _ _ _ Hs Hk'). by left.
    + unfold keys in Hk'. cbn in Hk'. by apply list_elem_of_singleton in Hk'.
Qed.

End interface.

(** ** Every call *)

Section calls.
Context {P : Type} `{MPoolLaws P}.
Implicit Types (p : P) (s : vox_rbtree) (t : tree).

Lemma key_nonempty k : is_bytes k -> zlen k < 2 ^ 63 -> zlen k <> 0 -> key_ok k.
Proof. intros Hb Hl Hn. split; [done|]. pose proof (zlen_nonneg k). lia. Qed.

(** A call does what the specification says, or is an insertion that was refused; and
    a gentle call keeps a balanced tree balanced. *)
Definition called (p0 p : P) s t op p' s' (r : rbtree_result) (out : list freed) t' : Prop :=
  tree_ok p0 p' s' t' /\ config_kept s s' /\
  (rbtree_spec s (map_of t) op (map_of t') r out \/
   (exists k v, op = Insert k v /\ r = Rc (-1) /\ out = [] /\ t' = t /\ (zlen k = 0 \/ refused p p'))) /\
  (balanced t -> gentle s t op -> balanced t').

Lemma called_same p0 p s t op r :
  tree_ok p0 p s t -> rbtree_spec s (map_of t) op (map_of t) r [] -> called p0 p s t op p s r [] t.
Proof. intros Hok Hs. split; [done|]. split; [done|]. split; [by left|done]. Qed.

Lemma insert_called p0 p s t k v :
  tree_ok p0 p s t -> op_ok (Insert k v) ->
  exists p' s' rc out t', vox_rbtree_insert p s k v = Some (p', s', rc, out) /\
    called p0 p s t (Insert k v) p' s' (Rc rc) out t'.
Proof.
  intros Hok [Hb Hl]. cbn [op_key] in *. destruct (decide (zlen k = 0)) as [Ez|Ez].
  { exists p, s, (-1), [], t. split; [unfold vox_rbtree_insert; by rewrite (proj2 (Z.eqb_eq _ _) Ez)|].
    split; [done|]. split; [done|]. split; [right; exists k, v; split_and!; auto|done]. }
  pose proof (key_nonempty k Hb Hl Ez) as Hk.
  destruct (seek_cases p0 p s t Hok k Hk) as [K Es Et Ha Em|K c l a d r Es Et Ek Em].
  - destruct (insert_absent p0 p s t Hok k v Hk K Es Et Ha) as (p' & s' & rc & E & Hc & Hr).
    destruct Hr as [(-> & -> & Hrf & Hok')|(-> & a & b & Hok' & Hm)].
    + exists p', s, (-1), [], t. split; [done|]. split; [done|]. split; [done|].
      split; [right; exists k, v; split_and!; auto|done].
    + eexists p', s', 0, [], _. split; [done|]. split; [exact Hok'|]. split; [done|]. split.
      * left. split; [done|]. rewrite Em. split; [done|]. split; [done|]. exists b. by split.
      * intros Hbal _. apply insert_balanced. by rewrite <-Et.
  - destruct (insert_present p0 p s t Hok k v Hk K c l a d r Es Et Ek) as (s' & E & Hc & t' & Hok' & Hm & Hbh).
    exists p, s', 0, (free_value s (it_value d)), t'. split; [done|]. split; [done|]. split; [done|]. split.
    + left. split; [done|]. rewrite Em. split; [done|]. split; [done|]. exists (it_at d). split; [done|].
      by intros b w [= -> _].
    + intros [_ Hbal] _. split; [by destruct Hok'|]. by rewrite Hbh.
Qed.

Lemma delete_called keeps p0 p s t k :
  tree_ok p0 p s t -> op_ok (Delete k) ->
  if negb keeps && reads_released s t (Delete k) then vox_rbtree_delete keeps p s k = None else
  exists p' s' rc out t', vox_rbtree_delete keeps p s k = Some (p', s', rc, out) /\
    called p0 p s t (Delete k) p' s' (Rc rc) out t'.
Proof.
  intros Hok [Hb Hl]. cbn [op_key] in *. destruct (decide (zlen k = 0)) as [Ez|Ez].
  { cbn [reads_released]. rewrite (proj2 (Z.eqb_eq _ _) Ez), andb_false_r.
    exists p, s, (-1), [], t. split; [unfold vox_rbtree_delete; by rewrite (proj2 (Z.eqb_eq _ _) Ez)|].
    apply called_same; [done|]. pose proof (rb_no_empty_key p0 p s t Hok k Ez) as Em. cbn [rbtree_spec].
    rewrite Em. split; [|done]. symmetry. by apply delete_id. }
  pose proof (key_nonempty k Hb Hl Ez) as Hk.
  destruct (seek_cases p0 p s t Hok k Hk) as [K Es Et Ha Em|K c l a d r Es Et Ek Em].
  - cbn [reads_released]. rewrite Es, !andb_false_r.
    exists p, s, (-1), [], t. split; [by apply (delete_absent keeps p0 p s t Hok k Hk K)|].
    apply called_same; [done|]. cbn [rbtree_spec]. rewrite Em. split; [|done]. symmetry. by apply delete_id.
  - cbn [reads_released]. rewrite Es, (proj2 (Z.eqb_neq _ _) Ez). cbn [negb snd andb].
    pose proof (delete_present keeps p0 p s t Hok k Hk K c l a d r Es Et Ek) as Hd.
    destruct (negb keeps && _); [done|]. destruct Hd as (p' & s' & E & Hc & t' & Hok' & Hm & _ & Hbal).
    exists p', s', 0; eexists; exists t'. split; [exact E|]. split; [done|]. split; [done|]. split; [|done].
    left. cbn [rbtree_spec]. rewrite Em. by split.
Qed.

Lemma clear_called keeps p0 p s t :
  tree_ok p0 p s t ->
  if negb keeps && reads_released s t Clear then vox_rbtree_clear keeps p s = None else
  exists p' s' out, vox_rbtree_clear keeps p s = Some (p', s', out) /\ called p0 p s t Clear p' s' (Rc 0) out E.
Proof.
  intros Hok. cbn [reads_released]. destruct keeps; cbn [negb andb].
  2: { destruct t as [|c l a d r]; [|by apply (clear_loop_lost _ p0 p s _ [] Hok)].
    exists p, s, []. pose proof (ho_root _ _ (tr_holds _ _ _ _ Hok)) as Hr.
    split; [unfold vox_rbtree_clear, tree_fuel; cbn [clear_loop]; by rewrite Hr|].
    apply called_same; [done|]. split; [done|]. split; [done|]. by exists []. }
  destruct (rb_clear_ok p0 p s t Hok) as (p' & s' & L & E1 & Hc & Hok' & HL).
  exists p', s'; eexists. split; [exact E1|]. split; [done|]. split; [done|]. split; [|done].
  left. split; [done|]. split; [done|]. by exists L.
Qed.

Lemma rb_exec_ok keeps p0 p s t op :
  tree_ok p0 p s t -> op_ok op ->
  if negb keeps && reads_released s t op then rbtree_exec keeps p s op = None else
  exists p' s' r out t', rbtree_exec keeps p s op = Some (p', s', r, out) /\ called p0 p s t op p' s' r out t'.
Proof.
  intros Hok Hop. pose proof (tr_holds _ _ _ _ Hok) as Hh. pose proof (holds_height p0 p s t Hok) as Hht.
  assert (forall k, op_ok (Find k) -> vox_rbtree_find s k = Some (value_of (map_of t !! k))) as Hfind.
  { intros k [Hb Hl]. destruct (decide (zlen k = 0)) as [Ez|Ez]; [|by apply (rb_find_ok p0 p s t Hok), key_nonempty].
    rewrite (rb_no_empty_key p0 p s t Hok k Ez). unfold vox_rbtree_find. by rewrite (proj2 (Z.eqb_eq _ _) Ez). }
  pose proof (map_of_size t (tree_nodup p0 p s t Hok)) as Hsz.
  destruct op as [k v|k|k|k| | | | | | | |]; cbn [rbtree_exec];
    match goal with |- context [reads_released _ _ (Delete _)] => idtac | |- context [reads_released _ _ Clear] => idtac
    | _ => cbn [reads_released]; rewrite andb_false_r end.
  - destruct (insert_called p0 p s t k v Hok Hop) as (p' & s' & rc & out & t' & -> & Hc).
    by exists p', s', (Rc rc), out, t'.
  - rewrite (Hfind k Hop). eexists p, s, _, [], t. split; [done|]. by apply called_same.
  - pose proof (delete_called keeps p0 p s t k Hok Hop) as Hd. destruct (negb keeps && _); [by rewrite Hd|].
    destruct Hd as (p' & s' & rc & out & t' & -> & Hc). by exists p', s', (Rc rc), out, t'.
  - unfold vox_rbtree_contains. rewrite (Hfind k Hop). eexists p, s, _, [], t. split; [done|]. by apply called_same.
  - eexists p, s, _, [], t. split; [done|]. apply called_same; [done|]. cbn [rbtree_spec].
    by rewrite Hsz, <-(tr_size _ _ _ _ Hok).
  - eexists p, s, _, [], t. split; [done|]. apply called_same; [done|]. cbn [rbtree_spec].
    by rewrite Hsz, <-(tr_size _ _ _ _ Hok).
  - pose proof (clear_called keeps p0 p s t Hok) as Hd. destruct (negb keeps && _); [by rewrite Hd|].
    destruct Hd as (p' & s' & out & -> & Hc). by exists p', s', (Rc 0), out, E.
  - unfold vox_rbtree_inorder. rewrite (ho_root _ _ Hh), (inorder_ok s (tree_fuel s) Top t Hh Hht).
    eexists p, s, _, [], t. split; [done|]. apply called_same; [done|]. split; [done|]. split; [done|].
    exists (visit <$> inorder t). split; [unfold zlen; by rewrite length_fmap|].
    split; [by apply (visited_map p0 p s t Hok)|]. rewrite <-list_fmap_compose. apply (tr_sorted _ _ _ _ Hok).
  - unfold vox_rbtree_preorder. rewrite (ho_root _ _ Hh), (preorder_ok s (tree_fuel s) Top t Hh Hht).
    eexists p, s, _, [], t. split; [done|]. apply called_same; [done|]. split; [done|]. split; [done|].
    exists (visit <$> preorder t). split; [unfold zlen; by rewrite length_fmap|].
    apply (visited_map p0 p s t Hok), preorder_perm.
  - unfold vox_rbtree_postorder. rewrite (ho_root _ _ Hh), (postorder_ok s (tree_fuel s) Top t Hh Hht).
    eexists p, s, _, [], t. split; [done|]. apply called_same; [done|]. split; [done|]. split; [done|].
    exists (visit <$> postorder t). split; [unfold zlen; by rewrite length_fmap|].
    apply (visited_map p0 p s t Hok), postorder_perm.
  - destruct (min_ok p0 p s t Hok) as (k & -> & Hk). eexists p, s, _, [], t. split; [done|].
    apply called_same; [done|]. split; [done|]. split; [done|]. by exists k.
  - destruct (max_ok p0 p s t Hok) as (k & -> & Hk). eexists p, s, _, [], t. split; [done|].
    apply called_same; [done|]. split; [done|]. split; [done|]. by exists k.
Qed.

(** ** Creation, sequences of calls, destruction *)

Definition rb_config_ok (c : option vox_rbtree_config) : Prop :=
  match c with
  | Some c => match config_key_cmp c with Some kc => cmp_ok kc | None => cmp_ok default_key_cmp end
  | None => cmp_ok default_key_cmp
  end.

Lemma rb_create_ok p config :
  mp_inv p -> rb_config_ok config ->
  exists p' o, vox_rbtree_create_with_config p config = (p', o) /\
    match o with Some s => tree_ok p p' s E | None => refused p p' /\ took p p' [] end.
Proof.
  intros Hp Hc. unfold vox_rbtree_create_with_config. destruct (mp_alloc p sizeof_rbtree) as [p1 a] eqn:E1.
  destruct (Z.eqb_spec a NULL) as [->|Ha].
  { exists p1, None. split; [done|]. split; [exists p, sizeof_rbtree, p1; split; [apply rtc_refl|]; split; [done|apply rtc_refl]|].
    apply (took_refused p p1 sizeof_rbtree); [done|unfold sizeof_rbtree; lia|done]. }
  eexists p1, _. split; [done|]. cbn. constructor; cbn.
  - constructor; [done|]. constructor; [apply NoDup_nil_2|by intros ?%elem_of_nil|by intros ?? ?%elem_of_nil].
  - destruct config as [[kc kf vf]|]; [|done]. by destruct kc.
  - constructor.
  - constructor.
  - done.
  - done.
  - apply (took_alloc p p1 sizeof_rbtree); [done|unfold sizeof_rbtree; lia|done|done].
Qed.

Lemma rb_destroy_ok p0 p s t :
  tree_ok p0 p s t ->
  exists p' L, vox_rbtree_destroy true p s = Some (p', x ← L; free_pair s x) /\ took p0 p' [] /\
    L ≡ₚ map_to_list (map_of t).
Proof.
  intros Hok. unfold vox_rbtree_destroy. destruct (rb_clear_ok p0 p s t Hok) as (p' & s' & L & -> & Hc & Hok' & HL).
  cbn [mbind option_bind]. eexists _, L. split; [done|]. split; [|done].
  apply took_free. exact (tr_pool _ _ _ _ Hok').
Qed.

(** The values a call stored. *)
Definition stored (op : rbtree_op) (r : rbtree_result) : list Z :=
  match op, r with Insert _ v, Rc 0 => [v] | _, _ => [] end.

Fixpoint rbtree_run (keeps : bool) p s (ops : list rbtree_op) : option (P * vox_rbtree * list freed * list Z) :=
  match ops with
  | [] => Some (p, s, [], [])
  | op :: ops =>
      '(p, s, r, out) ← rbtree_exec keeps p s op;
      '(p, s, outs, vs) ← rbtree_run keeps p s ops;
      Some (p, s, out ++ outs, stored op r ++ vs)
  end.
End calls.

(** ** The values that are given back *)

Definition values (m : gmap (list Z) (Z * Z)) : list Z := (fun x => x.2.2) <$> map_to_list m.
Definition freed_values (out : list freed) : list Z :=
  omap (fun f => match f with FreeKey _ => None | FreeValue v => Some v end) out.
Definition nonnull (l : list Z) : list Z := filter (fun v => v <> NULL) l.

(** The values of [gone], all but NULL, as far as [value_free] is set. *)
Definition given_back (s : vox_rbtree) (gone : list Z) : list Z := if value_free s then nonnull gone else [].

Lemma given_back_app s a b : given_back s (a ++ b) = given_back s a ++ given_back s b.
Proof. unfold given_back, nonnull. rewrite filter_app. by destruct (value_free s). Qed.

Lemma given_back_perm s a b : a ≡ₚ b -> given_back s a ≡ₚ given_back s b.
Proof. intros Hp. unfold given_back, nonnull. destruct (value_free s); [by rewrite Hp|done]. Qed.

Lemma freed_value_one s v : freed_values (free_value s v) = given_back s [v].
Proof.
  unfold freed_values, free_value, given_back, nonnull. rewrite filter_cons, filter_nil.
  destruct (value_free s), (Z.eqb_spec v NULL); cbn [andb negb omap list_omap];
    rewrite ?decide_True, ?decide_False by auto; done.
Qed.

Lemma freed_pair_one s x : freed_values (free_pair s x) = given_back s [x.2.2].
Proof.
  rewrite <-freed_value_one. unfold freed_values, free_pair, free_key. rewrite omap_app.
  by destruct (key_free s && negb (x.2.1 =? NULL)).
Qed.

Lemma freed_pairs s L : freed_values (x ← L; free_pair s x) = given_back s ((fun x => x.2.2) <$> L).
Proof.
  induction L as [|x L IH]; [by unfold given_back; destruct (value_free s)|].
  cbn [mbind list_bind]. unfold freed_values in *. rewrite omap_app, IH. rewrite fmap_cons.
  rewrite (given_back_app s [_] (_ <$> L) : given_back s (_ :: _) = _). f_equal. apply freed_pair_one.
Qed.

Lemma rb_values_insert m k a v : m !! k = None -> values (<[k := (a, v)]> m) ≡ₚ v :: values m.
Proof. intros Hm. unfold values. by rewrite map_to_list_insert. Qed.
Lemma rb_values_delete m k a v : m !! k = Some (a, v) -> values m ≡ₚ v :: values (delete k m).
Proof. intros Hm. unfold values. by rewrite <-(map_to_list_delete m k (a, v)). Qed.
Lemma rb_values_update m k a b v w : m !! k = Some (b, w) -> w :: values (<[k := (a, v)]> m) ≡ₚ v :: values m.
Proof.
  intros Hm. rewrite (rb_values_delete _ k a v) by (by rewrite lookup_insert_eq).
  rewrite delete_insert_eq, (rb_values_delete m k b w) by done. apply Permutation_swap.
Qed.

Section lifecycle.
Context {P : Type} `{MPoolLaws P}.
Implicit Types (p : P) (s : vox_rbtree) (t : tree).

(** What a call gives back and what it stores account for the change of the values. *)
Lemma spec_values s m op m' r out :
  rbtree_spec s m op m' r out ->
  exists gone, gone ++ values m' ≡ₚ values m ++ stored op r /\ freed_values out = given_back s gone.
Proof.
  assert (forall m, exists gone, gone ++ values m ≡ₚ values m ++ [] /\ freed_values [] = given_back s gone) as Hsame.
  { intros m0. exists []. rewrite app_nil_r. split; [done|]. unfold given_back. by destruct (value_free s). }
  destruct op as [k v|k|k|k| | | | | | | |]; cbn [rbtree_spec stored];
    try (intros (-> & -> & _); apply Hsame).
  - intros (-> & -> & _ & a & -> & Ha). destruct (m !! k) as [[b w]|] eqn:Em; cbn [replaced].
    + exists [w]. split; [|apply freed_value_one]. cbn [app]. rewrite (rb_values_update m k a b v w Em).
      apply Permutation_cons_append.
    + exists []. split; [|unfold given_back; by destruct (value_free s)]. cbn [app].
      rewrite (rb_values_insert m k a v Em). apply Permutation_cons_append.
  - intros [-> Hd]. destruct (m !! k) as [[b w]|] eqn:Em; destruct Hd as [-> ->].
    + exists [w]. split; [|apply (freed_pair_one s (k, (b, w)))]. cbn [app]. rewrite app_nil_r.
      by rewrite (rb_values_delete m k b w Em).
    + rewrite delete_id by done. apply Hsame.
  - intros (-> & -> & L & HL & ->). exists ((fun x => x.2.2) <$> L). split; [|apply freed_pairs].
    unfold values. rewrite map_to_list_empty, HL. done.
Qed.

Lemma rb_run_ok p0 p s t ops :
  tree_ok p0 p s t -> Forall op_ok ops ->
  exists p' s' outs vs t' gone, rbtree_run true p s ops = Some (p', s', outs, vs) /\
    tree_ok p0 p' s' t' /\ config_kept s s' /\
    gone ++ values (map_of t') ≡ₚ values (map_of t) ++ vs /\ freed_values outs = given_back s gone.
Proof.
  intros Hok Hops. revert p s t Hok. induction Hops as [|op ops Hop _ IH]; intros p s t Hok.
  { exists p, s, [], [], t, []. cbn. rewrite app_nil_r. unfold given_back. by destruct (value_free s). }
  destruct (rb_exec_ok true p0 p s t op Hok Hop) as (p1 & s1 & r & out & t1 & E1 & Hok1 & Hc1 & Hcase & _).
  destruct (IH p1 s1 t1 Hok1) as (p2 & s2 & outs & vs & t2 & g2 & E2 & Hok2 & Hc2 & Hg2 & Hf2).
  assert (exists g1, g1 ++ values (map_of t1) ≡ₚ values (map_of t) ++ stored op r /\ freed_values out = given_back s g1)
    as (g1 & Hg1 & Hf1).
  { destruct Hcase as [Hs|(k & v & -> & -> & -> & -> & _)]; [by eapply spec_values|].
    exists []. cbn. rewrite app_nil_r. unfold given_back. by destruct (value_free s). }
  exists p2, s2, (out ++ outs), (stored op r ++ vs), t2, (g1 ++ g2). cbn [rbtree_run].
  rewrite E1. cbn [mbind option_bind]. rewrite E2. cbn [mbind option_bind].
  split; [done|]. split; [done|]. split; [by eapply config_trans|]. split.
  - rewrite <-app_assoc, Hg2, app_assoc, Hg1. solve_Permutation.
  - unfold freed_values in *. rewrite omap_app, Hf1, Hf2, given_back_app. f_equal. unfold given_back.
    by rewrite (ck_vf _ _ Hc1).
Qed.

(** C13: The tree of vox_rbtree.c is a finite map. On a tree in memory, whatever its shape
    and however unbalanced earlier deletions left it, and for keys of less than 2^63 bytes, every
    call returns, leaves a tree in memory (sorted, with a black root, with exactly its blocks
    taken from the pool), and its result, its new map and the calls of the free functions are
    those of the specification; in-order walks meet the keys in order. Only an insertion can
    fail: with an empty key, or when the pool refused an allocation. There is one exception:
    a deletion of a black node without children, and so a clearing of a tree that is not empty,
    reads a field of the node just after giving the node back to the pool. Where a released block
    cannot be read ([keeps = false]) these calls are undefined behaviour, and only these; where
    the pool leaves the bytes of a released block as they were, they are as specified too. *)
Theorem rbtree_refines_map keeps p0 p s t op :
  tree_ok p0 p s t -> op_ok op ->
  if negb keeps && reads_released s t op then rbtree_exec keeps p s op = None else
  exists p' s' r out t', rbtree_exec keeps p s op = Some (p', s', r, out) /\ tree_ok p0 p' s' t' /\ config_kept s s' /\
    (rbtree_spec s (map_of t) op (map_of t') r out \/
     (exists k v, op = Insert k v /\ r = Rc (-1) /\ out = [] /\ t' = t /\ (zlen k = 0 \/ refused p p'))).
Proof.
  intros Hok Hop. pose proof (rb_exec_ok keeps p0 p s t op Hok Hop) as Hx. destruct (negb keeps && _); [done|].
  destruct Hx as (p' & s' & r & out & t' & E & Hok' & Hc & Hs & _). by exists p', s', r, out, t'.
Qed.

(** Over a pool that keeps the bytes of released blocks, the life of a tree, from its
    creation through any calls to its destruction, never faults and gives back every block it took; [value_free], when there is one, was
    called exactly once on every value stored, but for NULL. *)
Theorem rbtree_lifecycle p config p1 s ops :
  mp_inv p -> rb_config_ok config -> vox_rbtree_create_with_config p config = (p1, Some s) ->
  Forall op_ok ops ->
  exists p2 s2 outs vs p3 outs', rbtree_run true p1 s ops = Some (p2, s2, outs, vs) /\
    vox_rbtree_destroy true p2 s2 = Some (p3, outs') /\
    mp_inv p3 /\ mp_live p3 = mp_live p /\
    freed_values (outs ++ outs') ≡ₚ (if value_free s then nonnull vs else []).
Proof.
  intros Hp Hcfg Hc Hops. destruct (rb_create_ok p config Hp Hcfg) as (p' & o & E & Ho).
  rewrite Hc in E. injection E as <- <-.
  destruct (rb_run_ok p p1 s _ ops Ho Hops) as (p2 & s2 & outs & vs & t2 & gone & E2 & Hok2 & Hc2 & Hg & Hf).
  destruct (rb_destroy_ok p p2 s2 t2 Hok2) as (p3 & L & E3 & Ht3 & HL).
  exists p2, s2, outs, vs, p3; eexists. split; [done|]. split; [done|].
  split; [apply Ht3|]. split; [by destruct Ht3 as [_ _ _ _ <-]|].
  unfold freed_values in *. rewrite omap_app, Hf. fold (freed_values (x ← L; free_pair s2 x)).
  rewrite freed_pairs. unfold given_back at 2. rewrite (ck_vf _ _ Hc2). fold (given_back s ((fun x => x.2.2) <$> L)).
  rewrite <-given_back_app. apply given_back_perm. rewrite HL.
  change (gone ++ values (map_of t2) ≡ₚ vs). by rewrite Hg.
Qed.

(** C14: Balance. A call on a balanced tree, other than a deletion that splices out a black
    node without children, leaves a balanced tree: one that [insert_fixup] has restored, or
    that the deletion did not unbalance; and then a search for any key takes at most
    2 log2(n + 1) + 1 rounds of its loop. (A clearing of a tree that is not empty reads released
    nodes: it is undefined behaviour where they cannot be read, [keeps = false].) *)
Theorem rbtree_balance keeps p0 p s t op :
  tree_ok p0 p s t -> balanced t -> op_ok op -> gentle s t op ->
  if negb keeps && reads_released s t op then rbtree_exec keeps p s op = None else
  exists p' s' r out t', rbtree_exec keeps p s op = Some (p', s', r, out) /\ tree_ok p0 p' s' t' /\ balanced t' /\
    forall k, key_ok k ->
      exists a, find_loop (S (2 * Nat.log2 (S (base.size (map_of t'))))) s' k (root s') = Some a /\
        find_node s' k = Some a.
Proof.
  intros Hok Hb Hop Hg. pose proof (rb_exec_ok keeps p0 p s t op Hok Hop) as Hx. destruct (negb keeps && _); [done|].
  destruct Hx as (p' & s' & r & out & t' & E & Hok' & _ & _ & Hb').
  exists p', s', r, out, t'. split; [done|]. split; [done|]. specialize (Hb' Hb Hg). split; [done|].
  intros k Hk. eexists. split; [|by apply (find_node_ok p0 p' s' t' Hok')].
  pose proof (tr_holds _ _ _ _ Hok') as Hh. rewrite (ho_root _ _ Hh).
  apply find_loop_ok; [apply (tr_cmp _ _ _ _ Hok')|done|exact Hh|apply (tr_keys _ _ _ _ Hok')|].
  pose proof (balanced_height t' Hb'). rewrite (map_of_size t' (tree_nodup p0 p' s' t' Hok')). lia.
Qed.
End lifecycle.

(** ** The default comparison *)

Lemma compare_eq a b : zlen a = zlen b -> (compare_cells a b = 0 <-> a = b).
Proof.
  revert b. induction a as [|x a IH]; intros [|y b] Hl; try done; [zlia..|].
  rewrite !zlen_cons in Hl. cbn [compare_cells].
  destruct (Z.ltb_spec x y); [split; [done|intros [= -> _]; lia]|].
  destruct (Z.ltb_spec y x); [split; [done|intros [= -> _]; lia]|].
  assert (x = y) as -> by lia. rewrite IH by lia. split; [by intros ->|by intros [= ->]].
Qed.

Lemma compare_opp a b : zlen a = zlen b -> compare_cells b a = - compare_cells a b.
Proof.
  revert b. induction a as [|x a IH]; intros [|y b] Hl; try done; [zlia..|].
  rewrite !zlen_cons in Hl. cbn [compare_cells].
  destruct (Z.ltb_spec x y), (Z.ltb_spec y x); try lia. apply IH. lia.
Qed.

Lemma compare_trans a b c :
  zlen a = zlen b -> zlen b = zlen c -> compare_cells a b < 0 -> compare_cells b c < 0 -> compare_cells a c < 0.
Proof.
  revert b c. induction a as [|x a IH]; intros [|y b] [|z c] H1 H2; try done; [zlia..|].
  rewrite !zlen_cons in *.
  cbn [compare_cells].
  destruct (Z.ltb_spec x y), (Z.ltb_spec y x); try lia;
    destruct (Z.ltb_spec y z), (Z.ltb_spec z y); try lia;
    destruct (Z.ltb_spec x z), (Z.ltb_spec z x); try lia.
  apply IH; lia.
Qed.

Lemma default_cmp_all a b : zlen a = zlen b -> default_key_cmp a b (zlen a) = Some (compare_cells a b).
Proof.
  intros Hl. unfold default_key_cmp, memcmp.
  pose proof (arr_slice_mid [] a [] 0 (zlen a) eq_refl eq_refl) as Ea. cbn [app] in Ea. rewrite app_nil_r in Ea.
  pose proof (arr_slice_mid [] b [] 0 (zlen b) eq_refl eq_refl) as Eb. cbn [app] in Eb. rewrite app_nil_r in Eb.
  by rewrite Ea, Hl, Eb.
Qed.

Lemma default_cmp_ok : cmp_ok default_key_cmp.
Proof.
  constructor.
  - intros a b _ _ Hl. exists (compare_cells a b). split; [by apply default_cmp_all|by apply compare_eq].
  - intros a b c c' _ _ Hl. rewrite !default_cmp_all by done. intros [= <-] [= <-]. rewrite (compare_opp a b) by done. lia.
  - intros a b c c' _ _ Hl. rewrite !default_cmp_all by done. intros [= <-] [= <-]. rewrite (compare_opp a b) by done. lia.
  - intros a b c x y z _ _ _ H1 H2. rewrite !default_cmp_all by congruence. intros [= <-] [= <-] [= <-].
    by apply compare_trans.
Qed.

(** ** Concrete runs *)

(** The tree in memory, read from the root down. *)
Fixpoint read_tree (fuel : nat) (s : vox_rbtree) (a : Z) : tree :=
  match fuel with
  | O => E
  | S fuel =>
      match s !! a with
      | None => E
      | Some n => T (color n) (read_tree fuel s (left n)) a (Item (key_at n) (key n) (value n))
                    (read_tree fuel s (right n))
      end
  end.

Definition rb_config : vox_rbtree_config :=
  {| config_key_cmp := None; config_key_free := false; config_value_free := true |}.

(** A tree made by inserting the keys [ks], one byte each, and deleting [ds]. *)
Definition rb_ops (ks ds : list Z) : list rbtree_op :=
  ((fun k => Insert [k] (100 + k)) <$> ks) ++ ((fun k => Delete [k]) <$> ds).

Definition rb_build (ks ds : list Z) : option (bump * vox_rbtree) :=
  let '(p, o) := vox_rbtree_create_with_config (bump_new 65536) (Some rb_config) in
  s ← o; '(p, s, _, _) ← rbtree_run true p s (rb_ops ks ds); Some (p, s).

Definition rb_tree (x : option (bump * vox_rbtree)) : option tree :=
  '(_, s) ← x; Some (read_tree (tree_fuel s) s (root s)).

(** Deletions do unbalance the tree, where a released node can still be read. After fourteen
    insertions, which leave a red-black tree, two deletions have broken the balance, and
    seven leave seven keys in a single path: the height is 7. *)
Example rbtree_degenerates :
  let inserted := [7; 10; 0; 9; 13; 6; 2; 5; 1; 12; 3; 4; 8; 11] in
  let deleted := [13; 5; 12; 0; 1; 8; 10] in
  (t ← rb_tree (rb_build inserted []); Some (bool_decide (balanced t), height t, length (inorder t)))
    = Some (true, 5%nat, 14%nat) /\
  (t ← rb_tree (rb_build inserted [13; 5]); Some (bool_decide (balanced t))) = Some false /\
  (t ← rb_tree (rb_build inserted deleted); Some (height t, length (inorder t))) = Some (7%nat, 7%nat).
Proof. vm_compute. auto. Qed.

(** Deleting the only key: the node is a black leaf, and its memory is read after its release. *)
Example rbtree_released_read :
  ('(p, s) ← rb_build [7] []; '(_, _, rc, _) ← vox_rbtree_delete true p s [7]; Some rc) = Some 0 /\
  ('(p, s) ← rb_build [7] []; '(_, _, rc, _) ← vox_rbtree_delete false p s [7]; Some rc) = None.
Proof. vm_compute. auto. Qed.

Definition rb_none : vox_rbtree :=
  {| self := 0; root := 0; size := 0; key_cmp := default_key_cmp; key_free := false; value_free := false; nodes := ∅ |}.
Definition rb_pool : bump := (vox_rbtree_create_with_config (bump_new 65536) (Some rb_config)).1.
Definition rb_empty : vox_rbtree :=
  default rb_none (vox_rbtree_create_with_config (bump_new 65536) (Some rb_config)).2.

Lemma rb_created : vox_rbtree_create_with_config (bump_new 65536) (Some rb_config) = (rb_pool, Some rb_empty).
Proof. reflexivity. Qed.

Lemma rb_config_good : rb_config_ok (Some rb_config).
Proof. exact default_cmp_ok. Qed.

Lemma rb_empty_ok : tree_ok (bump_new 65536) rb_pool rb_empty E.
Proof.
  destruct (rb_create_ok (bump_new 65536) (Some rb_config)) as (p & o & E1 & Ho);
    [by apply bump_new_inv|exact rb_config_good|].
  rewrite rb_created in E1. by injection E1 as <- <-.
Qed.

Lemma rb_ops_ok : Forall op_ok (rb_ops [7; 10; 0; 9; 13] [9; 7; 200]).
Proof.
  repeat (apply Forall_cons; split; [split; [by apply Forall_singleton|done]|]). constructor.
Qed.

Lemma rbtree_refines_map_witness :
  exists p' s' r out, rbtree_exec false rb_pool rb_empty (Insert [5] 50) = Some (p', s', r, out) /\ r = Rc 0.
Proof.
  destruct (rbtree_refines_map false (bump_new 65536) rb_pool rb_empty E (Insert [5] 50) rb_empty_ok)
    as (p' & s' & r & out & t' & E1 & _).
  - split; [by apply Forall_singleton|done].
  - exists p', s', r, out. split; [exact E1|].
    assert ((fun x => x.1.2) <$> rbtree_exec false rb_pool rb_empty (Insert [5] 50) = Some (Rc 0)) as Er
      by (vm_compute; reflexivity).
    rewrite E1 in Er. by injection Er.
Defined.

Lemma rbtree_lifecycle_witness :
  exists p2 s2 outs vs p3 outs', rbtree_run true rb_pool rb_empty (rb_ops [7; 10; 0; 9; 13] [9; 7; 200]) = Some (p2, s2, outs, vs) /\
    vox_rbtree_destroy true p2 s2 = Some (p3, outs') /\ mp_inv p3 /\ mp_live p3 = ∅ /\
    freed_values (outs ++ outs') ≡ₚ nonnull vs /\ vs = [107; 110; 100; 109; 113].
Proof.
  destruct (rbtree_lifecycle (bump_new 65536) (Some rb_config) rb_pool rb_empty (rb_ops [7; 10; 0; 9; 13] [9; 7; 200]))
    as (p2 & s2 & outs & vs & p3 & outs' & E1 & E2 & Hp & Hl & Hv);
    [by apply bump_new_inv|exact rb_config_good|exact rb_created|exact rb_ops_ok|].
  exists p2, s2, outs, vs, p3, outs'. split; [exact E1|]. split; [exact E2|]. split; [exact Hp|].
  split; [exact Hl|]. split; [exact Hv|].
  assert (snd <$> rbtree_run true rb_pool rb_empty (rb_ops [7; 10; 0; 9; 13] [9; 7; 200]) = Some [107; 110; 100; 109; 113])
    as Er by (vm_compute; reflexivity).
  rewrite E1 in Er. by injection Er.
Defined.

Lemma rbtree_balance_witness :
  exists p' s' r out t', rbtree_exec false rb_pool rb_empty (Insert [5] 50) = Some (p', s', r, out) /\
    tree_ok (bump_new 65536) p' s' t' /\ balanced t'.
Proof.
  destruct (rbtree_balance false (bump_new 65536) rb_pool rb_empty E (Insert [5] 50) rb_empty_ok)
    as (p' & s' & r & out & t' & E1 & Hok & Hb & _).
  - split; [done|by exists 0%nat].
  - split; [by apply Forall_singleton|done].
  - done.
  - by exists p', s', r, out, t'.
Defined.

End RBMap.
