(* ===== verification/Digest.v ===== *)
(** * vox_crypto.c: MD5, SHA-1, SHA-256 and HMAC

    The three message digests of src/vox_crypto.c with their streaming interface
    (init, update, final), the one-shot functions, the hexadecimal output and the
    HMACs, on a little-endian machine ([VOX_LITTLE_ENDIAN]). A digest fed in any
    chunks is proved equal to the reference definition: pad the message, cut it in
    blocks of 64 bytes, fold the compression function over them. *)

From Stdlib Require Import String Ascii.
From S2P Require Import Prelude.

Module Digest.

(** ** Machine words *)

(** src/vox_crypto.c: swap_uint32 *)
Definition swap_uint32 (x : Z) : Z :=
  Z.lor (Z.lor (Z.lor (u32 (Z.shiftl (Z.land x 0x000000FF) 24)) (Z.shiftl (Z.land x 0x0000FF00) 8))
    (Z.shiftr (Z.land x 0x00FF0000) 8)) (Z.shiftr (Z.land x 0xFF000000) 24).

(** src/vox_crypto.c: left_rotate *)
Definition left_rotate (x n : Z) : Z := Z.lor (u32 (Z.shiftl x n)) (Z.shiftr x (32 - n)).
(** src/vox_crypto.c: right_rotate *)
Definition right_rotate (x n : Z) : Z := Z.lor (Z.shiftr x n) (u32 (Z.shiftl x (32 - n))).

(** [~x] on 32 bits. *)
Definition not32 (x : Z) : Z := 0xFFFFFFFF - x.

(** [memcpy] of 64 bytes to 16 words. *)
Definition load_words (block : list Z) : option (list Z) :=
  for_ 16 0 (fun i w => b ← arr_slice block (i * 4) 4; Some (w ++ [le_combine b])) [].

(** The same with [swap_uint32] on each word. *)
Definition load_words_swapped (block : list Z) : option (list Z) :=
  for_ 16 0 (fun i w => b ← arr_slice block (i * 4) 4; Some (w ++ [swap_uint32 (le_combine b)])) [].

(** The bytes of a 32-bit word, least significant first. *)
Definition le_bytes32 (x : Z) : list Z :=
  [Z.land x 0xFF; Z.land (Z.shiftr x 8) 0xFF; Z.land (Z.shiftr x 16) 0xFF; Z.land (Z.shiftr x 24) 0xFF].
(** Most significant first. *)
Definition be_bytes32 (x : Z) : list Z :=
  [Z.land (Z.shiftr x 24) 0xFF; Z.land (Z.shiftr x 16) 0xFF; Z.land (Z.shiftr x 8) 0xFF; Z.land x 0xFF].

(** ** Streaming

    The body that vox_md5_update, vox_sha1_update and vox_sha256_update share. *)

Section streaming.
Context {S : Type} (transform : S -> list Z -> option S).

(** The loop over whole blocks with a 32-bit index: [i + 63] and [i + 64] wrap.

    src/vox_crypto.c:175-177: vox_md5_update *)
Fixpoint blocks32 (fuel : nat) (state : S) (input : list Z) (i len : Z) : option (S * Z) :=
  match fuel with
  | O => None
  | Datatypes.S fuel =>
      if u32 (i + 63) <? len then
        block ← arr_slice input i 64;
        state ← transform state block;
        blocks32 fuel state input (u32 (i + 64)) len
      else Some (state, i)
  end.

(** The same with a 64-bit index.

    src/vox_crypto.c:550-552: vox_sha256_update *)
Fixpoint blocks64 (fuel : nat) (state : S) (input : list Z) (i len : Z) : option (S * Z) :=
  match fuel with
  | O => None
  | Datatypes.S fuel =>
      if u64 (i + 64) <=? len then
        block ← arr_slice input i 64;
        state ← transform state block;
        blocks64 fuel state input (u64 (i + 64)) len
      else Some (state, i)
  end.

(** More rounds than [len] bytes hold blocks. *)
Definition blocks_fuel (len : Z) : nat := Datatypes.S (Z.to_nat len).

(** From the first [memcpy] to the end of the function.

    src/vox_crypto.c:168-186: vox_md5_update *)
Definition absorb (loop : S -> list Z -> Z -> Z -> option (S * Z)) (state : S) (buffer : list Z)
  (index : Z) (input : list Z) : option (S * list Z) :=
  let len := zlen input in
  let partLen := 64 - index in
  '(state, buffer, i, index) ←
    (if partLen <=? len then
       buffer ← arr_blit buffer index input 0 partLen;
       state ← transform state buffer;
       '(state, i) ← loop state input partLen len;
       Some (state, buffer, i, 0)
     else Some (state, buffer, 0, index));
  buffer ← (if i <? len then arr_blit buffer index input i (len - i) else Some buffer);
  Some (state, buffer).
End streaming.
#[global] Arguments blocks_fuel : simpl never.

(** [padLen] and the padding before the length field. *)
Definition pad_len (index : Z) : Z := if index <? 56 then 56 - index else 120 - index.
Definition padding (padLen : Z) : list Z := 0x80 :: replicate (Z.to_nat (padLen - 1)) 0.

(** [bits[i] = (bit_count >> (56 - i * 8)) & 0xFF]. *)
Definition be_bits (bit_count : Z) : list Z :=
  (fun i => Z.land (Z.shiftr bit_count (56 - i * 8)) 0xFF) <$> [0; 1; 2; 3; 4; 5; 6; 7].

(** ** MD5 *)

(** src/vox_crypto.c:46-51: MD5_S *)
Definition MD5_S : list Z :=
  [7; 12; 17; 22; 7; 12; 17; 22; 7; 12; 17; 22; 7; 12; 17; 22;
   5; 9; 14; 20; 5; 9; 14; 20; 5; 9; 14; 20; 5; 9; 14; 20;
   4; 11; 16; 23; 4; 11; 16; 23; 4; 11; 16; 23; 4; 11; 16; 23;
   6; 10; 15; 21; 6; 10; 15; 21; 6; 10; 15; 21; 6; 10; 15; 21].

(** src/vox_crypto.c:53-70: MD5_K *)
Definition MD5_K : list Z := concat
  [[0xd76aa478; 0xe8c7b756; 0x242070db; 0xc1bdceee];
   [0xf57c0faf; 0x4787c62a; 0xa8304613; 0xfd469501];
   [0x698098d8; 0x8b44f7af; 0xffff5bb1; 0x895cd7be];
   [0x6b901122; 0xfd987193; 0xa679438e; 0x49b40821];
   [0xf61e2562; 0xc040b340; 0x265e5a51; 0xe9b6c7aa];
   [0xd62f105d; 0x02441453; 0xd8a1e681; 0xe7d3fbc8];
   [0x21e1cde6; 0xc33707d6; 0xf4d50d87; 0x455a14ed];
   [0xa9e3e905; 0xfcefa3f8; 0x676f02d9; 0x8d2a4c8a];
   [0xfffa3942; 0x8771f681; 0x6d9d6122; 0xfde5380c];
   [0xa4beea44; 0x4bdecfa9; 0xf6bb4b60; 0xbebfbc70];
   [0x289b7ec6; 0xeaa127fa; 0xd4ef3085; 0x04881d05];
   [0xd9d4d039; 0xe6db99e5; 0x1fa27cf8; 0xc4ac5665];
   [0xf4292244; 0x432aff97; 0xab9423a7; 0xfc93a039];
   [0x655b59c3; 0x8f0ccc92; 0xffeff47d; 0x85845dd1];
   [0x6fa87e4f; 0xfe2ce6e0; 0xa3014314; 0x4e0811a1];
   [0xf7537e82; 0xbd3af235; 0x2ad7d2bb; 0xeb86d391]].

(** src/vox_crypto.c: F *)
Definition F (x y z : Z) : Z := Z.lor (Z.land x y) (Z.land (not32 x) z).
(** src/vox_crypto.c: G *)
Definition G (x y z : Z) : Z := Z.lor (Z.land x z) (Z.land y (not32 z)).
(** src/vox_crypto.c: H *)
Definition H (x y z : Z) : Z := Z.lxor (Z.lxor x y) z.
(** src/vox_crypto.c: I *)
Definition I (x y z : Z) : Z := Z.lxor y (Z.lor x (not32 z)).

(** [state[4]]. *)
Definition md5_state : Type := Z * Z * Z * Z.

(** src/vox_crypto.h:19-23: vox_md5_ctx_t *)
Record vox_md5_ctx_t := {
  md5_st : md5_state;
  md5_count0 : Z;
  md5_count1 : Z;
  md5_buffer : list Z;
}.

(** src/vox_crypto.c: vox_md5_init *)
Definition vox_md5_init : vox_md5_ctx_t :=
  {| md5_st := (0x67452301, 0xefcdab89, 0x98badcfe, 0x10325476);
     md5_count0 := 0; md5_count1 := 0; md5_buffer := replicate 64 0 |}.

(** One round: [f] from the round function, [g] the word it adds. *)
Definition md5_round (x : list Z) (i g f : Z) (v : md5_state) : option md5_state :=
  let '(a, b, c, d) := v in
  k ← MD5_K.[i]; s ← MD5_S.[i]; w ← x.[g];
  let f := u32 (f + a + k + w) in
  Some (d, u32 (b + left_rotate f s), b, c).

(** src/vox_crypto.c: md5_transform *)
Definition md5_transform (state : md5_state) (block : list Z) : option md5_state :=
  x ← load_words block;
  v ← for_ 16 0 (fun i v => let '(a, b, c, d) := v in md5_round x i i (F b c d) v) state;
  v ← for_ 16 16 (fun i v => let '(a, b, c, d) := v in md5_round x i ((5 * i + 1) mod 16) (G b c d) v) v;
  v ← for_ 16 32 (fun i v => let '(a, b, c, d) := v in md5_round x i ((3 * i + 5) mod 16) (H b c d) v) v;
  v ← for_ 16 48 (fun i v => let '(a, b, c, d) := v in md5_round x i ((7 * i) mod 16) (I b c d) v) v;
  let '(a, b, c, d) := v in
  let '(s0, s1, s2, s3) := state in
  Some (u32 (s0 + a), u32 (s1 + b), u32 (s2 + c), u32 (s3 + d)).

(** src/vox_crypto.c: vox_md5_update *)
Definition vox_md5_update (ctx : vox_md5_ctx_t) (input : list Z) : option vox_md5_ctx_t :=
  let len := zlen input in
  let index := Z.land (Z.shiftr (md5_count0 ctx) 3) 0x3F in
  let bit_count := Z.lor (Z.shiftl (md5_count1 ctx) 32) (md5_count0 ctx) in
  let bit_count := u64 (bit_count + u64 (Z.shiftl len 3)) in
  '(state, buffer) ←
    absorb md5_transform (blocks32 md5_transform (blocks_fuel len)) (md5_st ctx) (md5_buffer ctx) index input;
  Some {| md5_st := state; md5_count0 := Z.land bit_count 0xFFFFFFFF;
          md5_count1 := Z.shiftr bit_count 32; md5_buffer := buffer |}.

(** The digest is the result.

    src/vox_crypto.c: vox_md5_final *)
Definition vox_md5_final (ctx : vox_md5_ctx_t) : option (list Z) :=
  let bits := le_bytes32 (md5_count0 ctx) ++ le_bytes32 (md5_count1 ctx) in
  let index := Z.land (Z.shiftr (md5_count0 ctx) 3) 0x3F in
  ctx ← vox_md5_update ctx (padding (pad_len index));
  ctx ← vox_md5_update ctx bits;
  let '(a, b, c, d) := md5_st ctx in
  Some (le_bytes32 a ++ le_bytes32 b ++ le_bytes32 c ++ le_bytes32 d).

(** src/vox_crypto.c: vox_md5 *)
Definition vox_md5 (data : list Z) : option (list Z) :=
  ctx ← vox_md5_update vox_md5_init data; vox_md5_final ctx.

(** ** Hexadecimal output *)

(** "0123456789abcdef" *)
Definition hex_chars : list Z :=
  [48; 49; 50; 51; 52; 53; 54; 55; 56; 57; 97; 98; 99; 100; 101; 102].

(** The loop of the three [_hex] functions, on [n] bytes. *)
Definition hex_digits (digest : list Z) (n : nat) : option (list Z) :=
  for_ n 0 (fun i out =>
    b ← digest.[i];
    hi ← hex_chars.[Z.land (Z.shiftr b 4) 0xF];
    lo ← hex_chars.[Z.land b 0xF];
    Some (out ++ [hi; lo])) [].

(** src/vox_crypto.c: vox_md5_hex *)
Definition vox_md5_hex (digest : list Z) : option (list Z) :=
  s ← hex_digits digest 16; Some (s ++ [0]).

(** ** SHA-1 *)

Definition sha1_state : Type := Z * Z * Z * Z * Z.

(** src/vox_crypto.h:67-71: vox_sha1_ctx_t *)
Record vox_sha1_ctx_t := {
  sha1_st : sha1_state;
  sha1_count0 : Z;
  sha1_count1 : Z;
  sha1_buffer : list Z;
}.

(** src/vox_crypto.c: vox_sha1_init *)
Definition vox_sha1_init : vox_sha1_ctx_t :=
  {| sha1_st := (0x67452301, 0xEFCDAB89, 0x98BADCFE, 0x10325476, 0xC3D2E1F0);
     sha1_count0 := 0; sha1_count1 := 0; sha1_buffer := replicate 64 0 |}.

(** One round: [f] from the round function, [k] its constant. *)
Definition sha1_round (w : list Z) (i f k : Z) (v : sha1_state) : option sha1_state :=
  let '(a, b, c, d, e) := v in
  x ← w.[i];
  let temp := u32 (left_rotate a 5 + f + e + k + x) in
  Some (temp, a, left_rotate b 30, c, d).

(** src/vox_crypto.c: sha1_transform *)
Definition sha1_transform (state : sha1_state) (block : list Z) : option sha1_state :=
  w ← load_words_swapped block;
  w ← for_ 64 16 (fun i w =>
        w3 ← w.[i - 3]; w8 ← w.[i - 8]; w14 ← w.[i - 14]; w16 ← w.[i - 16];
        Some (w ++ [left_rotate (Z.lxor (Z.lxor (Z.lxor w3 w8) w14) w16) 1])) w;
  v ← for_ 20 0 (fun i v => let '(a, b, c, d, e) := v in
        sha1_round w i (Z.lor (Z.land b c) (Z.land (not32 b) d)) 0x5A827999 v) state;
  v ← for_ 20 20 (fun i v => let '(a, b, c, d, e) := v in
        sha1_round w i (Z.lxor (Z.lxor b c) d) 0x6ED9EBA1 v) v;
  v ← for_ 20 40 (fun i v => let '(a, b, c, d, e) := v in
        sha1_round w i (Z.lor (Z.lor (Z.land b c) (Z.land b d)) (Z.land c d)) 0x8F1BBCDC v) v;
  v ← for_ 20 60 (fun i v => let '(a, b, c, d, e) := v in
        sha1_round w i (Z.lxor (Z.lxor b c) d) 0xCA62C1D6 v) v;
  let '(a, b, c, d, e) := v in
  let '(s0, s1, s2, s3, s4) := state in
  Some (u32 (s0 + a), u32 (s1 + b), u32 (s2 + c), u32 (s3 + d), u32 (s4 + e)).

(** src/vox_crypto.c: vox_sha1_update *)
Definition vox_sha1_update (ctx : vox_sha1_ctx_t) (input : list Z) : option vox_sha1_ctx_t :=
  let len := zlen input in
  let index := Z.land (Z.shiftr (sha1_count0 ctx) 3) 0x3F in
  let bit_count := Z.lor (Z.shiftl (sha1_count1 ctx) 32) (sha1_count0 ctx) in
  let bit_count := u64 (bit_count + u64 (Z.shiftl len 3)) in
  '(state, buffer) ←
    absorb sha1_transform (blocks32 sha1_transform (blocks_fuel len)) (sha1_st ctx) (sha1_buffer ctx)
      index input;
  Some {| sha1_st := state; sha1_count0 := Z.land bit_count 0xFFFFFFFF;
          sha1_count1 := Z.shiftr bit_count 32; sha1_buffer := buffer |}.

(** src/vox_crypto.c: vox_sha1_final *)
Definition vox_sha1_final (ctx : vox_sha1_ctx_t) : option (list Z) :=
  let bit_count := Z.lor (Z.shiftl (sha1_count1 ctx) 32) (sha1_count0 ctx) in
  let index := Z.land (Z.shiftr (sha1_count0 ctx) 3) 0x3F in
  let bits := be_bits bit_count in
  ctx ← vox_sha1_update ctx (padding (pad_len index));
  ctx ← vox_sha1_update ctx bits;
  let '(a, b, c, d, e) := sha1_st ctx in
  Some (be_bytes32 a ++ be_bytes32 b ++ be_bytes32 c ++ be_bytes32 d ++ be_bytes32 e).

(** src/vox_crypto.c: vox_sha1 *)
Definition vox_sha1 (data : list Z) : option (list Z) :=
  ctx ← vox_sha1_update vox_sha1_init data; vox_sha1_final ctx.

(** src/vox_crypto.c: vox_sha1_hex *)
Definition vox_sha1_hex (digest : list Z) : option (list Z) :=
  s ← hex_digits digest 20; Some (s ++ [0]).

(** ** SHA-256 *)

(** src/vox_crypto.c:424-441: SHA256_K *)
Definition SHA256_K : list Z := concat
  [[0x428a2f98; 0x71374491; 0xb5c0fbcf; 0xe9b5dba5];
   [0x3956c25b; 0x59f111f1; 0x923f82a4; 0xab1c5ed5];
   [0xd807aa98; 0x12835b01; 0x243185be; 0x550c7dc3];
   [0x72be5d74; 0x80deb1fe; 0x9bdc06a7; 0xc19bf174];
   [0xe49b69c1; 0xefbe4786; 0x0fc19dc6; 0x240ca1cc];
   [0x2de92c6f; 0x4a7484aa; 0x5cb0a9dc; 0x76f988da];
   [0x983e5152; 0xa831c66d; 0xb00327c8; 0xbf597fc7];
   [0xc6e00bf3; 0xd5a79147; 0x06ca6351; 0x14292967];
   [0x27b70a85; 0x2e1b2138; 0x4d2c6dfc; 0x53380d13];
   [0x650a7354; 0x766a0abb; 0x81c2c92e; 0x92722c85];
   [0xa2bfe8a1; 0xa81a664b; 0xc24b8b70; 0xc76c51a3];
   [0xd192e819; 0xd6990624; 0xf40e3585; 0x106aa070];
   [0x19a4c116; 0x1e376c08; 0x2748774c; 0x34b0bcb5];
   [0x391c0cb3; 0x4ed8aa4a; 0x5b9cca4f; 0x682e6ff3];
   [0x748f82ee; 0x78a5636f; 0x84c87814; 0x8cc70208];
   [0x90befffa; 0xa4506ceb; 0xbef9a3f7; 0xc67178f2]].

(** src/vox_crypto.c: sha256_ch *)
Definition sha256_ch (x y z : Z) : Z := Z.lxor (Z.land x y) (Z.land (not32 x) z).
(** src/vox_crypto.c: sha256_maj *)
Definition sha256_maj (x y z : Z) : Z := Z.lxor (Z.lxor (Z.land x y) (Z.land x z)) (Z.land y z).
(** src/vox_crypto.c: sha256_ep0 *)
Definition sha256_ep0 (x : Z) : Z :=
  Z.lxor (Z.lxor (right_rotate x 2) (right_rotate x 13)) (right_rotate x 22).
(** src/vox_crypto.c: sha256_ep1 *)
Definition sha256_ep1 (x : Z) : Z :=
  Z.lxor (Z.lxor (right_rotate x 6) (right_rotate x 11)) (right_rotate x 25).
(** src/vox_crypto.c: sha256_sig0 *)
Definition sha256_sig0 (x : Z) : Z :=
  Z.lxor (Z.lxor (right_rotate x 7) (right_rotate x 18)) (Z.shiftr x 3).
(** src/vox_crypto.c: sha256_sig1 *)
Definition sha256_sig1 (x : Z) : Z :=
  Z.lxor (Z.lxor (right_rotate x 17) (right_rotate x 19)) (Z.shiftr x 10).

Definition sha256_state : Type := Z * Z * Z * Z * Z * Z * Z * Z.

(** src/vox_crypto.h:115-119: vox_sha256_ctx_t *)
Record vox_sha256_ctx_t := {
  sha256_st : sha256_state;
  sha256_count : Z;
  sha256_buffer : list Z;
}.

(** src/vox_crypto.c: vox_sha256_init *)
Definition vox_sha256_init : vox_sha256_ctx_t :=
  {| sha256_st := (0x6a09e667, 0xbb67ae85, 0x3c6ef372, 0xa54ff53a,
                   0x510e527f, 0x9b05688c, 0x1f83d9ab, 0x5be0cd19);
     sha256_count := 0; sha256_buffer := replicate 64 0 |}.

(** src/vox_crypto.c: sha256_transform *)
Definition sha256_transform (state : sha256_state) (block : list Z) : option sha256_state :=
  w ← load_words_swapped block;
  w ← for_ 48 16 (fun i w =>
        w2 ← w.[i - 2]; w7 ← w.[i - 7]; w15 ← w.[i - 15]; w16 ← w.[i - 16];
        Some (w ++ [u32 (sha256_sig1 w2 + w7 + sha256_sig0 w15 + w16)])) w;
  v ← for_ 64 0 (fun i v =>
        let '(a, b, c, d, e, f, g, h) := v in
        k ← SHA256_K.[i]; x ← w.[i];
        let temp1 := u32 (h + sha256_ep1 e + sha256_ch e f g + k + x) in
        let temp2 := u32 (sha256_ep0 a + sha256_maj a b c) in
        Some (u32 (temp1 + temp2), a, b, c, u32 (d + temp1), e, f, g)) state;
  let '(a, b, c, d, e, f, g, h) := v in
  let '(s0, s1, s2, s3, s4, s5, s6, s7) := state in
  Some (u32 (s0 + a), u32 (s1 + b), u32 (s2 + c), u32 (s3 + d),
        u32 (s4 + e), u32 (s5 + f), u32 (s6 + g), u32 (s7 + h)).

(** src/vox_crypto.c: vox_sha256_update *)
Definition vox_sha256_update (ctx : vox_sha256_ctx_t) (input : list Z) : option vox_sha256_ctx_t :=
  let len := zlen input in
  let index := Z.land (Z.shiftr (sha256_count ctx) 3) 0x3F in
  '(state, buffer) ←
    absorb sha256_transform (blocks64 sha256_transform (blocks_fuel len)) (sha256_st ctx)
      (sha256_buffer ctx) index input;
  Some {| sha256_st := state; sha256_count := u64 (sha256_count ctx + u64 (Z.shiftl len 3));
          sha256_buffer := buffer |}.

(** src/vox_crypto.c: vox_sha256_final *)
Definition vox_sha256_final (ctx : vox_sha256_ctx_t) : option (list Z) :=
  let bit_count := sha256_count ctx in
  let index := Z.land (Z.shiftr (sha256_count ctx) 3) 0x3F in
  let bits := be_bits bit_count in
  ctx ← vox_sha256_update ctx (padding (pad_len index));
  ctx ← vox_sha256_update ctx bits;
  let '(a, b, c, d, e, f, g, h) := sha256_st ctx in
  Some (be_bytes32 a ++ be_bytes32 b ++ be_bytes32 c ++ be_bytes32 d
        ++ be_bytes32 e ++ be_bytes32 f ++ be_bytes32 g ++ be_bytes32 h).

(** src/vox_crypto.c: vox_sha256 *)
Definition vox_sha256 (data : list Z) : option (list Z) :=
  ctx ← vox_sha256_update vox_sha256_init data; vox_sha256_final ctx.

(** src/vox_crypto.c: vox_sha256_hex *)
Definition vox_sha256_hex (digest : list Z) : option (list Z) :=
  s ← hex_digits digest 32; Some (s ++ [0]).

(** ** HMAC *)

(** A key longer than a block is replaced by its digest, written to [key_block] itself;
    the block is then cleared before the key is copied to it, so that the copy of a long
    key copies the zeros on themselves. [memcpy] onto itself is taken to do nothing. *)
Definition key_block (hash : list Z -> option (list Z)) (key : list Z) : option (list Z) :=
  if 64 <? zlen key then _ ← hash key; Some (replicate 64 0)
  else arr_blit (replicate 64 0) 0 key 0 (zlen key).

(** src/vox_crypto.c: vox_hmac_md5 *)
Definition vox_hmac_md5 (key data : list Z) : option (list Z) :=
  key_block ← key_block vox_md5 key;
  let o_key_pad := (fun b => Z.lxor b 0x5c) <$> key_block in
  let i_key_pad := (fun b => Z.lxor b 0x36) <$> key_block in
  ctx ← vox_md5_update vox_md5_init i_key_pad;
  ctx ← vox_md5_update ctx data;
  digest ← vox_md5_final ctx;
  ctx ← vox_md5_update vox_md5_init o_key_pad;
  ctx ← vox_md5_update ctx digest;
  vox_md5_final ctx.

(** src/vox_crypto.c: vox_hmac_md5_hex *)
Definition vox_hmac_md5_hex (digest : list Z) : option (list Z) := vox_md5_hex digest.

(** src/vox_crypto.c: vox_hmac_sha1 *)
Definition vox_hmac_sha1 (key data : list Z) : option (list Z) :=
  key_block ← key_block vox_sha1 key;
  let o_key_pad := (fun b => Z.lxor b 0x5c) <$> key_block in
  let i_key_pad := (fun b => Z.lxor b 0x36) <$> key_block in
  ctx ← vox_sha1_update vox_sha1_init i_key_pad;
  ctx ← vox_sha1_update ctx data;
  digest ← vox_sha1_final ctx;
  ctx ← vox_sha1_update vox_sha1_init o_key_pad;
  ctx ← vox_sha1_update ctx digest;
  vox_sha1_final ctx.

(** src/vox_crypto.c: vox_hmac_sha1_hex *)
Definition vox_hmac_sha1_hex (digest : list Z) : option (list Z) := vox_sha1_hex digest.

(** src/vox_crypto.c: vox_hmac_sha256 *)
Definition vox_hmac_sha256 (key data : list Z) : option (list Z) :=
  key_block ← key_block vox_sha256 key;
  let o_key_pad := (fun b => Z.lxor b 0x5c) <$> key_block in
  let i_key_pad := (fun b => Z.lxor b 0x36) <$> key_block in
  ctx ← vox_sha256_update vox_sha256_init i_key_pad;
  ctx ← vox_sha256_update ctx data;
  digest ← vox_sha256_final ctx;
  ctx ← vox_sha256_update vox_sha256_init o_key_pad;
  ctx ← vox_sha256_update ctx digest;
  vox_sha256_final ctx.

(** src/vox_crypto.c: vox_hmac_sha256_hex *)
Definition vox_hmac_sha256_hex (digest : list Z) : option (list Z) := vox_sha256_hex digest.

(** ** Test vectors *)

Definition hex_of (hash : list Z -> option (list Z)) (n : nat) (s : String.string) : option String.string :=
  d ← hash (bytes_of s); h ← hex_digits d n;
  Some (String.string_of_list_ascii ((fun c => Ascii.ascii_of_nat (Z.to_nat c)) <$> h)).

Lemma md5_vectors :
  hex_of vox_md5 16 EmptyString = Some "d41d8cd98f00b204e9800998ecf8427e"%string /\
  hex_of vox_md5 16 "abc"%string = Some "900150983cd24fb0d6963f7d28e17f72"%string /\
  hex_of vox_md5 16 "12345678901234567890123456789012345678901234567890123456789012345678901234567890"%string
    = Some "57edf4a22be3c955ac49da2e2107b67a"%string.
Proof. vm_compute. done. Qed.

Lemma sha1_vectors :
  hex_of vox_sha1 20 "abc"%string = Some "a9993e364706816aba3e25717850c26c9cd0d89d"%string /\
  hex_of vox_sha1 20 "abcdbcdecdefdefgefghfghighijhijkijkljklmklmnlmnomnopnopq"%string
    = Some "84983e441c3bd26ebaae4aa1f95129e5e54670f1"%string.
Proof. vm_compute. done. Qed.

Lemma sha256_vectors :
  hex_of vox_sha256 32 "abc"%string
    = Some "ba7816bf8f01cfea414140de5dae2223b00361a396177a9cb410ff61f20015ad"%string /\
  hex_of vox_sha256 32 "abcdbcdecdefdefgefghfghighijhijkijkljklmklmnlmnomnopnopq"%string
    = Some "248d6a61d20638b8e5c026930c3e6039a33ce45964ff2167f6ecedd419db06c1"%string.
Proof. vm_compute. done. Qed.

Lemma hmac_vectors :
  hex_of (vox_hmac_md5 (bytes_of "Jefe"%string)) 16 "what do ya want for nothing?"%string
    = Some "750c783e6ab0b503eaa86e310a5db738"%string /\
  hex_of (vox_hmac_sha1 (bytes_of "Jefe"%string)) 20 "what do ya want for nothing?"%string
    = Some "effcdf6ae5eb2fa2d27416d5f184df9c259a7c79"%string /\
  hex_of (vox_hmac_sha256 (bytes_of "Jefe"%string)) 32 "what do ya want for nothing?"%string
    = Some "5bdcc146bf60754e6a042426089575c75a003f089d2739839dec58b964ec3843"%string.
Proof. vm_compute. done. Qed.


(** ** The reference: padding and a fold over blocks *)

Section reference.
Context {S : Type} (T : S -> list Z -> option S).

(** [n] blocks of 64 bytes. *)
Fixpoint run_blocks (n : nat) (s : S) (m : list Z) : option S :=
  match n with
  | O => Some s
  | Datatypes.S n => s ← T s (take 64 m); run_blocks n s (drop 64 m)
  end.

Lemma run_blocks_app n k s m1 m2 :
  length m1 = (64 * n)%nat ->
  run_blocks (n + k) s (m1 ++ m2) = s' ← run_blocks n s m1; run_blocks k s' m2.
Proof.
  revert s m1. induction n as [|n IH]; intros s m1 Hl.
  - destruct m1; [done|]. cbn in Hl. lia.
  - cbn [run_blocks Nat.add]. rewrite take_app_le, drop_app_le by lia.
    destruct (T s (take 64 m1)) as [s'|]; cbn; [|done]. apply IH. rewrite length_drop. lia.
Qed.

Lemma run_blocks_one s m : length m = 64%nat -> run_blocks 1 s m = T s m.
Proof.
  intros Hl. cbn. rewrite firstn_all2 by lia. by destruct (T s m).
Qed.

(** Some bytes past the blocks are not read. *)
Lemma run_blocks_more n s m1 m2 :
  length m1 = (64 * n)%nat -> run_blocks n s (m1 ++ m2) = run_blocks n s m1.
Proof.
  intros Hl. pose proof (run_blocks_app n 0 s m1 m2 Hl) as E. rewrite Nat.add_0_r in E. rewrite E.
  by destruct (run_blocks n s m1).
Qed.

Context (T_total : forall s b, zlen b = 64 -> exists s', T s b = Some s').

Lemma run_blocks_total n s m : (64 * n <= length m)%nat -> exists s', run_blocks n s m = Some s'.
Proof.
  revert s m. induction n as [|n IH]; intros s m Hl; cbn; [by eexists|].
  destruct (T_total s (take 64 m)) as [s' ->]. { unfold zlen. rewrite length_take. lia. }
  cbn. apply IH. rewrite length_drop. lia.
Qed.

(** ** Streaming equals the reference *)

(** After the bytes [m]: the state of their whole blocks, the rest at the start of the
    buffer. *)
Record stream (s0 : S) (m : list Z) (state : S) (buffer : list Z) : Prop := {
  str_blocks : run_blocks (length m / 64) s0 m = Some state;
  str_rest : take (length m mod 64) buffer = drop (64 * (length m / 64)) m;
  str_buffer : length buffer = 64%nat;
}.

(** What a loop over whole blocks is. *)
Definition loop_ok (loop : S -> list Z -> Z -> Z -> option (S * Z)) (input : list Z) : Prop :=
  forall s i, 0 <= i <= 64 -> i <= zlen input ->
  exists s', loop s input i (zlen input) = Some (s', i + 64 * ((zlen input - i) / 64)) /\
    run_blocks (Z.to_nat ((zlen input - i) / 64)) s (drop (Z.to_nat i) input) = Some s'.

Lemma stream_split s0 m state buffer :
  stream s0 m state buffer ->
  exists m1 t, m = m1 ++ t /\ length m1 = (64 * (length m / 64))%nat /\ length t = (length m mod 64)%nat /\
    run_blocks (length m / 64) s0 m1 = Some state /\ take (length t) buffer = t /\ length buffer = 64%nat.
Proof.
  intros [Hb Hr Hl]. exists (take (64 * (length m / 64)) m), (drop (64 * (length m / 64)) m).
  pose proof (Nat.div_mod_eq (length m) 64).
  assert (length (take (64 * (length m / 64)) m) = (64 * (length m / 64))%nat) as H1 by (rewrite length_take; lia).
  split; [by rewrite take_drop|]. split; [done|]. split; [rewrite length_drop; lia|]. split; [|split; [|done]].
  - rewrite <-Hb. pose proof (run_blocks_more _ s0 _ (drop (64 * (length m / 64)) m) H1) as E.
    by rewrite take_drop in E.
  - rewrite length_drop. replace (length m - 64 * (length m / 64))%nat with (length m mod 64)%nat by lia. done.
Qed.

Lemma stream_intro s0 q m1 t state buffer :
  length m1 = (64 * q)%nat -> (length t < 64)%nat -> run_blocks q s0 m1 = Some state ->
  take (length t) buffer = t -> length buffer = 64%nat -> stream s0 (m1 ++ t) state buffer.
Proof.
  intros H1 Ht Hb Hr Hl.
  assert (length (m1 ++ t) / 64 = q)%nat as Hq.
  { rewrite length_app, H1, Nat.add_comm, Nat.mul_comm, Nat.div_add by lia. rewrite Nat.div_small by lia. lia. }
  assert (length (m1 ++ t) mod 64 = length t)%nat as Hm.
  { pose proof (Nat.div_mod_eq (length (m1 ++ t)) 64) as E. rewrite Hq, length_app in E.
    rewrite length_app. rewrite length_app in Hq. lia. }
  constructor; rewrite ?Hq, ?Hm; [by rewrite run_blocks_more| |done].
  rewrite drop_app_length' by lia. done.
Qed.

Lemma blit_front (dst src : list Z) (a : nat) si n r :
  length dst = 64%nat -> 0 <= si -> 0 <= n -> Z.of_nat a + n <= 64 -> si + n <= zlen src ->
  take a dst = r -> exists dst', arr_blit dst (Z.of_nat a) src si n = Some dst' /\ length dst' = 64%nat /\
    take (a + Z.to_nat n) dst' = r ++ take (Z.to_nat n) (drop (Z.to_nat si) src).
Proof.
  intros Hl Hsi Hn Ha Hs Hr. rewrite arr_blit_ok by (unfold zlen in *; lia). eexists. split; [done|].
  rewrite Nat2Z.id. pose proof (length_drop src (Z.to_nat si)). unfold zlen in Hs.
  assert (length (take (Z.to_nat n) (drop (Z.to_nat si) src)) = Z.to_nat n) as Hk by (rewrite length_take; lia).
  split. { rewrite !length_app, Hk, length_take, length_drop. lia. }
  rewrite (assoc_L (++)), take_app_le by (rewrite length_app, Hk, length_take; lia).
  rewrite firstn_all2 by (rewrite length_app, Hk, length_take; lia). by rewrite Hr.
Qed.

Lemma absorb_ok loop s0 m state buffer input :
  stream s0 m state buffer -> loop_ok loop input ->
  exists state' buffer',
    absorb T loop state buffer (Z.of_nat (length m mod 64)) input = Some (state', buffer') /\
    stream s0 (m ++ input) state' buffer'.
Proof.
  intros Hst Hloop. destruct (stream_split _ _ _ _ Hst) as (m1 & t & Em & Hm1 & Ht & Hrun & Hrest & Hbuf).
  set (q := (length m / 64)%nat) in *. rewrite <-Ht.
  assert (length t < 64)%nat as Ht64 by (rewrite Ht; apply Nat.mod_upper_bound; lia).
  clearbody q. clear Ht Hst. subst m. unfold absorb. pose proof (zlen_nonneg input) as Hin.
  destruct (Z.leb_spec (64 - Z.of_nat (length t)) (zlen input)) as [Hfull|Hpart].
  - destruct (blit_front buffer input (length t) 0 (64 - Z.of_nat (length t)) t)
      as (b1 & -> & Hb1 & Hfront); [done|lia|lia|lia|lia|done|]. cbn [mbind option_bind].
    set (p := Z.to_nat (64 - Z.of_nat (length t))) in *.
    change (Z.to_nat 0) with 0%nat in Hfront. rewrite drop_0 in Hfront.
    rewrite firstn_all2 in Hfront by lia.
    destruct (T_total state b1) as [s1 Hs1]; [unfold zlen; lia|]. rewrite Hs1. cbn [mbind option_bind].
    destruct (Hloop s1 (64 - Z.of_nat (length t))) as (s2 & -> & Hs2); [lia|lia|]. cbn [mbind option_bind].
    set (k := (zlen input - (64 - Z.of_nat (length t))) / 64) in *.
    set (i := 64 - Z.of_nat (length t) + 64 * k).
    assert (0 <= k /\ 0 <= zlen input - i < 64) as [Hk Hi] by (unfold i, k; dlia).
    assert (Hsplit : t ++ input = b1 ++ take (Z.to_nat (64 * k)) (drop p input) ++ drop (Z.to_nat i) input).
    { rewrite Hfront, <-(assoc_L (++)). f_equal. rewrite <-(take_drop p input) at 1. f_equal.
      rewrite <-(take_drop (Z.to_nat (64 * k)) (drop p input)) at 1. f_equal. rewrite drop_drop. f_equal.
      unfold i, p. lia. }
    assert (length (take (Z.to_nat (64 * k)) (drop p input)) = (64 * Z.to_nat k)%nat) as Hmid.
    { rewrite length_take, length_drop. unfold zlen in *. unfold i, p in *. lia. }
    assert (Hrun' : run_blocks (q + (1 + Z.to_nat k)) s0
        (m1 ++ b1 ++ take (Z.to_nat (64 * k)) (drop p input)) = Some s2).
    { rewrite run_blocks_app by done. rewrite Hrun. cbn [mbind option_bind].
      rewrite run_blocks_app by lia. rewrite run_blocks_one, Hs1 by done. cbn [mbind option_bind].
      rewrite <-Hs2. pose proof (run_blocks_more _ s1 _ (drop (Z.to_nat (64 * k)) (drop p input)) Hmid) as E.
      by rewrite take_drop in E. }
    assert (exists b2, (if i <? zlen input then arr_blit b1 0 input i (zlen input - i) else Some b1) = Some b2 /\
      length b2 = 64%nat /\ take (length (drop (Z.to_nat i) input)) b2 = drop (Z.to_nat i) input)
      as (b2 & -> & Hb2 & Hr2).
    { rewrite length_drop. destruct (Z.ltb_spec i (zlen input)).
      - destruct (blit_front b1 input 0 i (zlen input - i) []) as (b2 & E & Hb2 & Hr2);
          [done|unfold i; lia|lia|lia|lia|done|].
        exists b2. split; [done|]. split; [done|]. cbn in Hr2. unfold zlen in *.
        replace (length input - Z.to_nat i)%nat with (Z.to_nat (Z.of_nat (length input) - i)) by lia.
        rewrite Hr2. apply firstn_all2. rewrite length_drop. lia.
      - exists b1. split; [done|]. split; [done|]. unfold zlen in *.
        rewrite drop_ge by lia. by replace (length input - Z.to_nat i)%nat with 0%nat by lia. }
    cbn [mbind option_bind]. exists s2, b2. split; [done|].
    set (mid := take (Z.to_nat (64 * k)) (drop p input)) in *.
    replace ((m1 ++ t) ++ input) with ((m1 ++ b1 ++ mid) ++ drop (Z.to_nat i) input)
      by (rewrite <-!(assoc_L (++)); by f_equal).
    eapply stream_intro; [| |exact Hrun'| |done].
    + rewrite !length_app, Hmid. lia.
    + rewrite length_drop. unfold zlen in *. lia.
    + done.
  - assert (exists b2, (if 0 <? zlen input then arr_blit buffer (Z.of_nat (length t)) input 0 (zlen input - 0)
        else Some buffer) = Some b2 /\ length b2 = 64%nat /\ take (length (t ++ input)) b2 = t ++ input)
      as (b2 & Eb & Hb2 & Hr2).
    { rewrite length_app. destruct (Z.ltb_spec 0 (zlen input)).
      - destruct (blit_front buffer input (length t) 0 (zlen input - 0) t) as (b2 & E & Hb2 & Hr2);
          [done|lia|lia|lia|lia|done|].
        exists b2. split; [done|]. split; [done|]. change (Z.to_nat 0) with 0%nat in Hr2.
        rewrite drop_0, (firstn_all2 input) in Hr2 by (unfold zlen; lia). rewrite <-Hr2. f_equal. unfold zlen. lia.
      - exists buffer. split; [done|]. split; [done|]. destruct input; [|unfold zlen in *; cbn in *; lia].
        by rewrite app_nil_r, Nat.add_0_r. }
    cbn [mbind option_bind]. rewrite Eb. cbn [mbind option_bind]. exists state, b2. split; [done|].
    rewrite <-(assoc_L (++)). eapply stream_intro; [done| |done|done|done].
    rewrite length_app. unfold zlen in *. lia.
Qed.
End reference.

Section loops.
Context {S : Type} (T : S -> list Z -> option S)
  (T_total : forall s b, zlen b = 64 -> exists s', T s b = Some s').

(** One more block, for both loops. *)
Lemma block_step (input : list Z) i :
  0 <= i -> i + 64 <= zlen input ->
  arr_slice input i 64 = Some (take 64 (drop (Z.to_nat i) input)) /\
  zlen (take 64 (drop (Z.to_nat i) input)) = 64 /\
  Z.to_nat ((zlen input - i) / 64) = Datatypes.S (Z.to_nat ((zlen input - (i + 64)) / 64)) /\
  (zlen input - i) / 64 = 1 + (zlen input - (i + 64)) / 64 /\
  drop 64 (drop (Z.to_nat i) input) = drop (Z.to_nat (i + 64)) input.
Proof.
  intros Hi Hl.
  assert ((zlen input - i) / 64 = 1 + (zlen input - (i + 64)) / 64) as Hq.
  { replace (zlen input - i) with (1 * 64 + (zlen input - (i + 64))) by lia. by rewrite Z.div_add_l by lia. }
  split; [unfold arr_slice; by rewrite decide_True by lia|].
  split; [unfold zlen in *; rewrite length_take, length_drop; lia|].
  assert (0 <= (zlen input - (i + 64)) / 64) by (apply Z.div_pos; lia).
  split; [rewrite Hq; lia|]. split; [done|]. rewrite drop_drop. f_equal. lia.
Qed.

Lemma last_block (input : list Z) i : 0 <= i <= zlen input -> zlen input < i + 64 -> (zlen input - i) / 64 = 0.
Proof. intros. apply Z.div_small. lia. Qed.

Lemma blocks32_ok (input : list Z) fuel s i :
  zlen input < 2 ^ 32 - 63 -> 0 <= i <= zlen input -> zlen input - i < Z.of_nat fuel ->
  exists s', blocks32 T fuel s input i (zlen input) = Some (s', i + 64 * ((zlen input - i) / 64)) /\
    run_blocks T (Z.to_nat ((zlen input - i) / 64)) s (drop (Z.to_nat i) input) = Some s'.
Proof.
  intros Hlen. revert s i. induction fuel as [|fuel IH]; intros s i Hi Hf; [lia|]. cbn [blocks32].
  rewrite (u32_small (i + 63)) by lia. destruct (Z.ltb_spec (i + 63) (zlen input)).
  - destruct (block_step input i) as (-> & Hz & -> & -> & Hd); [lia|lia|]. cbn [mbind option_bind run_blocks].
    destruct (T_total s _ Hz) as [s1 ->]. cbn [mbind option_bind]. rewrite u32_small, Hd by lia.
    destruct (IH s1 (i + 64)) as (s' & -> & ->); [lia|lia|]. exists s'. split; [do 2 f_equal; lia|done].
  - rewrite last_block by lia. exists s. split; [do 2 f_equal; lia|done].
Qed.

Lemma blocks64_ok (input : list Z) fuel s i :
  zlen input < 2 ^ 64 - 64 -> 0 <= i <= zlen input -> zlen input - i < Z.of_nat fuel ->
  exists s', blocks64 T fuel s input i (zlen input) = Some (s', i + 64 * ((zlen input - i) / 64)) /\
    run_blocks T (Z.to_nat ((zlen input - i) / 64)) s (drop (Z.to_nat i) input) = Some s'.
Proof.
  intros Hlen. revert s i. induction fuel as [|fuel IH]; intros s i Hi Hf; [lia|]. cbn [blocks64].
  rewrite (u64_small (i + 64)) by lia. destruct (Z.leb_spec (i + 64) (zlen input)).
  - destruct (block_step input i) as (-> & Hz & -> & -> & Hd); [lia|lia|]. cbn [mbind option_bind run_blocks].
    destruct (T_total s _ Hz) as [s1 ->]. cbn [mbind option_bind]. rewrite Hd.
    destruct (IH s1 (i + 64)) as (s' & -> & ->); [lia|lia|]. exists s'. split; [do 2 f_equal; lia|done].
  - rewrite last_block by lia. exists s. split; [do 2 f_equal; lia|done].
Qed.

Lemma loop32_ok input : zlen input < 2 ^ 32 - 63 -> loop_ok T (blocks32 T (blocks_fuel (zlen input))) input.
Proof. intros Hl s i Hi Hle. apply blocks32_ok; [done|lia|unfold blocks_fuel; lia]. Qed.

Lemma loop64_ok input : zlen input < 2 ^ 64 - 64 -> loop_ok T (blocks64 T (blocks_fuel (zlen input))) input.
Proof. intros Hl s i Hi Hle. apply blocks64_ok; [done|lia|unfold blocks_fuel; lia]. Qed.

(** With a 32-bit index the loop does not end on 4 GiB or more. *)
Lemma blocks32_diverges fuel s input i : 2 ^ 32 <= zlen input -> blocks32 T fuel s input i (zlen input) = None.
Proof.
  intros Hl. revert s i. induction fuel as [|fuel IH]; intros s i; [done|]. cbn [blocks32].
  pose proof (u32_range (i + 63)). rewrite (proj2 (Z.ltb_lt _ _)) by lia.
  destruct (arr_slice input i 64) as [b|]; [|done]. cbn. by destruct (T s b); cbn.
Qed.

Lemma stream_init s0 buffer : length buffer = 64%nat -> stream T s0 [] s0 buffer.
Proof. intros Hb. by constructor. Qed.
End loops.

(** ** The transforms are total on blocks of 64 bytes *)

Lemma load_total (f : list Z -> Z) block :
  zlen block = 64 ->
  exists x, for_ 16 0 (fun i w => b ← arr_slice block (i * 4) 4; Some (w ++ [f b])) [] = Some x /\ zlen x = 16.
Proof.
  intros Hb. destruct (for_inv (fun i (w : list Z) => zlen w = i) 16 0
    (fun i w => b ← arr_slice block (i * 4) 4; Some (w ++ [f b])) []) as (x & -> & Hx); [done| |by exists x].
  intros j w Hj Hw. destruct (arr_slice_Some block (j * 4) 4) as (b & -> & _); [lia..|].
  cbn [mbind option_bind]. eexists. split; [done|]. zlia.
Qed.

(** A word of a table of known length. *)
Ltac get_word l :=
  match goal with |- context [arr_get l ?i] =>
    let w := fresh "w" in let E := fresh "E" in
    destruct (arr_get_Some l i) as [w E]; [|rewrite E; cbn [mbind option_bind]; clear E]
  end.

Lemma md5_round_total x i g f v :
  zlen x = 16 -> 0 <= i < 64 -> 0 <= g < 16 -> exists v', md5_round x i g f v = Some v'.
Proof.
  intros Hx Hi Hg. destruct v as [[[a b] c] d]. unfold md5_round.
  get_word MD5_K; [done|]. get_word MD5_S; [done|]. get_word x; [lia|]. by eexists.
Qed.

Lemma md5_transform_total s b : zlen b = 64 -> exists s', md5_transform s b = Some s'.
Proof.
  intros Hb. unfold md5_transform, load_words. destruct (load_total le_combine b Hb) as (x & -> & Hx).
  cbn [mbind option_bind].
  repeat (match goal with |- context [for_ 16 ?lo ?body ?s0] =>
    let v := fresh "v" in let E := fresh "E" in
    destruct (for_total 16 lo body s0) as [v E];
      [intros j [[[? ?] ?] ?] Hj; apply md5_round_total; [done|lia|dlia || lia]
      |rewrite E; cbn [mbind option_bind]; clear E] end).
  destruct v2 as [[[a' b'] c'] d'], s as [[[? ?] ?] ?]. by eexists.
Qed.

Lemma sha1_round_total w i f k v :
  zlen w = 80 -> 0 <= i < 80 -> exists v', sha1_round w i f k v = Some v'.
Proof.
  intros Hw Hi. destruct v as [[[[a b] c] d] e]. unfold sha1_round. get_word w; [lia|]. by eexists.
Qed.

Lemma sha1_transform_total s b : zlen b = 64 -> exists s', sha1_transform s b = Some s'.
Proof.
  intros Hb. unfold sha1_transform, load_words_swapped.
  destruct (load_total (fun x => swap_uint32 (le_combine x)) b Hb) as (x & -> & Hx). cbn [mbind option_bind].
  match goal with |- context [for_ 64 16 ?body x] =>
    destruct (for_inv (fun i (w : list Z) => zlen w = i) 64 16 body x Hx) as (w & E & Hw) end.
  { intros j w Hj Hw. do 4 (get_word w; [lia|]). eexists. split; [done|]. zlia. }
  rewrite E. cbn [mbind option_bind]. clear E.
  repeat (match goal with |- context [for_ 20 ?lo ?body ?s0] =>
    let v := fresh "v" in let E := fresh "E" in
    destruct (for_total 20 lo body s0) as [v E];
      [intros j [[[[? ?] ?] ?] ?] Hj; apply sha1_round_total; [done|lia]
      |rewrite E; cbn [mbind option_bind]; clear E] end).
  destruct v2 as [[[[? ?] ?] ?] ?], s as [[[[? ?] ?] ?] ?]. by eexists.
Qed.

Lemma sha256_transform_total s b : zlen b = 64 -> exists s', sha256_transform s b = Some s'.
Proof.
  intros Hb. unfold sha256_transform, load_words_swapped.
  destruct (load_total (fun x => swap_uint32 (le_combine x)) b Hb) as (x & -> & Hx). cbn [mbind option_bind].
  match goal with |- context [for_ 48 16 ?body x] =>
    destruct (for_inv (fun i (w : list Z) => zlen w = i) 48 16 body x Hx) as (w & E & Hw) end.
  { intros j w Hj Hw. do 4 (get_word w; [lia|]). eexists. split; [done|]. zlia. }
  rewrite E. cbn [mbind option_bind]. clear E.
  match goal with |- context [for_ 64 0 ?body s] => destruct (for_total 64 0 body s) as [v E] end.
  { intros j [[[[[[[? ?] ?] ?] ?] ?] ?] ?] Hj. get_word SHA256_K; [done|]. get_word w; [lia|]. by eexists. }
  rewrite E. cbn [mbind option_bind]. clear E.
  destruct v as [[[[[[[? ?] ?] ?] ?] ?] ?] ?], s as [[[[[[[? ?] ?] ?] ?] ?] ?] ?]. by eexists.
Qed.

(** ** Bit counts and padding *)

(** The bits of [m], modulo 2^64. *)
Definition bits_of (m : list Z) : Z := u64 (8 * zlen m).

Lemma bits_index m : Z.land (Z.shiftr (bits_of m) 3) 0x3F = Z.of_nat (length m mod 64).
Proof.
  change 0x3F with (Z.ones 6). rewrite land_low, Z.shiftr_div_pow2 by lia. unfold bits_of, u64, zlen.
  rewrite Nat2Z.inj_mod. change (2 ^ 3) with 8. change (2 ^ 64) with (8 * 2 ^ 61).
  rewrite Z.mul_mod_distr_l, (Z.mul_comm 8), Z.div_mul by lia.
  change (2 ^ 6) with 64. change (2 ^ 61) with (64 * 2 ^ 55). change (Z.of_nat 64) with 64.
  set (n := Z.of_nat (length m)). pose proof (Z.div_mod n (64 * 2 ^ 55) ltac:(lia)) as E.
  set (r := n mod (64 * 2 ^ 55)) in *. rewrite E.
  replace (64 * 2 ^ 55 * (n / (64 * 2 ^ 55)) + r) with (r + (2 ^ 55 * (n / (64 * 2 ^ 55))) * 64) by lia.
  by rewrite Z.mod_add by lia.
Qed.

Lemma bits_index32 m : Z.land (Z.shiftr (bits_of m mod 2 ^ 32) 3) 0x3F = Z.of_nat (length m mod 64).
Proof.
  rewrite <-bits_index. change 0x3F with (Z.ones 6). rewrite !land_low, !Z.shiftr_div_pow2 by lia.
  set (n := bits_of m). change (2 ^ 3) with 8. change (2 ^ 6) with 64. change (2 ^ 32) with (8 * (64 * 2 ^ 23)).
  clearbody n. dlia.
Qed.

Lemma bits_app m d : u64 (bits_of m + u64 (Z.shiftl (zlen d) 3)) = bits_of (m ++ d).
Proof.
  unfold bits_of, u64. rewrite zlen_app, Z.shiftl_mul_pow2 by lia.
  rewrite <-Z.add_mod by lia. f_equal. lia.
Qed.

Lemma count_join n : 0 <= n < 2 ^ 64 -> Z.lor (Z.shiftl (n / 2 ^ 32) 32) (n mod 2 ^ 32) = n.
Proof.
  intros Hn. rewrite lor_shiftl by (try apply Z.mod_pos_bound; lia). pose proof (Z.div_mod n (2 ^ 32)). lia.
Qed.

Lemma count_split n : Z.land n 0xFFFFFFFF = n mod 2 ^ 32 /\ Z.shiftr n 32 = n / 2 ^ 32.
Proof.
  change 0xFFFFFFFF with (Z.ones 32). rewrite land_low by lia. by rewrite Z.shiftr_div_pow2 by lia.
Qed.

Lemma bits_range m : 0 <= bits_of m < 2 ^ 64.
Proof. apply u64_range. Qed.

(** The message with a bit 1, zeros and its length in bits, in whole blocks. *)
Definition padded (length_field : Z -> list Z) (m : list Z) : list Z :=
  m ++ (0x80 :: replicate (Z.to_nat ((55 - zlen m) mod 64)) 0) ++ length_field (bits_of m).

Lemma padding_ok (m : list Z) : padding (pad_len (Z.of_nat (length m mod 64))) =
  0x80 :: replicate (Z.to_nat ((55 - zlen m) mod 64)) 0.
Proof.
  unfold padding. do 3 f_equal. unfold zlen. rewrite Nat2Z.inj_mod. change (Z.of_nat 64) with 64.
  set (n := Z.of_nat (length m)). pose proof (Z.mod_pos_bound n 64 ltac:(lia)).
  pose proof (Z.div_mod n 64 ltac:(lia)). unfold pad_len. case_one.
  - apply (Z.mod_unique _ _ (- (n / 64))); lia.
  - apply (Z.mod_unique _ _ (- (n / 64) - 1)); lia.
Qed.

Lemma padded_blocks f m : (forall n, length (f n) = 8%nat) -> (length (padded f m) mod 64 = 0)%nat.
Proof.
  intros Hf. unfold padded. rewrite !length_app, Hf. cbn [length]. rewrite length_replicate.
  pose proof (Z.mod_pos_bound (55 - zlen m) 64 ltac:(lia)).
  pose proof (Z.div_mod (55 - zlen m) 64 ltac:(lia)) as E. apply Nat2Z.inj. rewrite Nat2Z.inj_mod.
  change (Z.of_nat 64) with 64. change (Z.of_nat 0) with 0. unfold zlen in *.
  replace (Z.of_nat _) with ((- ((55 - Z.of_nat (length m)) / 64) + 1) * 64) by lia. apply Z.mod_mul. lia.
Qed.

Lemma padding_short i : 0 <= i < 64 -> 0 < zlen (padding (pad_len i)) <= 64.
Proof. intros Hi. unfold padding, pad_len. zlen_simpl. case_one; lia. Qed.

(** A digest: pad, fold the compression function over the blocks, write out. *)
Definition md_digest {S} (T : S -> list Z -> option S) (s0 : S) (length_field : Z -> list Z)
  (out : S -> list Z) (m : list Z) : option (list Z) :=
  let p := padded length_field m in
  s ← run_blocks T (length p / 64) s0 p; Some (out s).

Lemma byte_of x k : 0 <= k -> Z.land (Z.shiftr x k) 0xFF = (x / 2 ^ k) mod 2 ^ 8.
Proof. intros Hk. change 0xFF with (Z.ones 8). by rewrite land_low, Z.shiftr_div_pow2 by lia. Qed.

Lemma le_bytes32_split x : le_bytes32 x = le_split 4 x.
Proof.
  unfold le_bytes32. rewrite <-(Z.shiftr_0_r x) at 1. rewrite !byte_of by lia. cbn [le_split].
  rewrite !Z.div_div, Z.div_1_r by lia. done.
Qed.
Lemma be_bytes32_split x : be_bytes32 x = be_split 4 x.
Proof. unfold be_split. rewrite <-le_bytes32_split. done. Qed.
Lemma be_bits_split n : be_bits n = be_split 8 n.
Proof.
  unfold be_bits, be_split. cbn [fmap list_fmap le_split rev app]. rewrite !byte_of by lia.
  rewrite !Z.div_div by lia. change (56 - 7 * 8) with 0. rewrite Z.div_1_r. done.
Qed.
Lemma le_counts n :
  0 <= n < 2 ^ 64 -> le_bytes32 (n mod 2 ^ 32) ++ le_bytes32 (n / 2 ^ 32) = le_split 8 n.
Proof.
  intros Hn. rewrite !le_bytes32_split. cbn [le_split app]. rewrite !Z.div_div by lia.
  repeat (apply (f_equal2 cons); [dlia|]). done.
Qed.

(** ** The digests behind one interface *)

(** A streaming digest, and the function of the message it computes. *)
Class Hash (C : Type) := {
  hash_init : C;
  hash_update : C -> list Z -> option C;
  hash_final : C -> option (list Z);
  hash_spec : list Z -> option (list Z);
  hash_limit : Z;
  hash_size : nat;
  hash_fed : C -> list Z -> Prop;
}.

(** [hash_fed c m]: the context [c] has been given the bytes [m]. *)
Class HashLaws (C : Type) `{Hash C} := {
  fed_init : hash_fed hash_init [];
  fed_update c m input : hash_fed c m -> zlen input < hash_limit ->
    exists c', hash_update c input = Some c' /\ hash_fed c' (m ++ input);
  fed_final c m : hash_fed c m -> hash_final c = hash_spec m;
  spec_total m : exists d, hash_spec m = Some d /\ length d = hash_size;
  limit_ok : Z.of_nat hash_size <= 64 < hash_limit;
}.

Section generic.
Context {S : Type} (T : S -> list Z -> option S) (s0 : S) (length_field : Z -> list Z) (out : S -> list Z).
Context (T_total : forall s b, zlen b = 64 -> exists s', T s b = Some s').

Lemma stream_digest m state buffer :
  stream T s0 (padded length_field m) state buffer -> md_digest T s0 length_field out m = Some (out state).
Proof. intros [Hb _ _]. unfold md_digest. by rewrite Hb. Qed.

Lemma digest_total m : exists s, md_digest T s0 length_field out m = Some (out s).
Proof.
  unfold md_digest. destruct (run_blocks_total T T_total (length (padded length_field m) / 64) s0
    (padded length_field m)) as [s ->]; [|by exists s].
  pose proof (Nat.div_mod_eq (length (padded length_field m)) 64). lia.
Qed.
End generic.

(** What the MD5 and SHA-1 counters hold after [m]. *)
Definition counts (m : list Z) (c0 c1 : Z) : Prop := c0 = bits_of m mod 2 ^ 32 /\ c1 = bits_of m / 2 ^ 32.

Lemma counts_update m c0 c1 input :
  counts m c0 c1 ->
  Z.land (Z.shiftr c0 3) 0x3F = Z.of_nat (length m mod 64) /\
  counts (m ++ input)
    (Z.land (u64 (Z.lor (Z.shiftl c1 32) c0 + u64 (Z.shiftl (zlen input) 3))) 0xFFFFFFFF)
    (Z.shiftr (u64 (Z.lor (Z.shiftl c1 32) c0 + u64 (Z.shiftl (zlen input) 3))) 32).
Proof.
  intros [-> ->]. split; [apply bits_index32|]. rewrite count_join by apply bits_range.
  rewrite bits_app. apply count_split.
Qed.

(** *** MD5 *)

Definition md5_out (s : md5_state) : list Z :=
  let '(a, b, c, d) := s in le_split 4 a ++ le_split 4 b ++ le_split 4 c ++ le_split 4 d.

#[export] Instance md5_hash : Hash vox_md5_ctx_t := {|
  hash_init := vox_md5_init;
  hash_update := vox_md5_update;
  hash_final := vox_md5_final;
  hash_spec := md_digest md5_transform (md5_st vox_md5_init) (le_split 8) md5_out;
  hash_limit := 2 ^ 32 - 63;
  hash_size := 16;
  hash_fed c m := stream md5_transform (md5_st vox_md5_init) m (md5_st c) (md5_buffer c) /\
    counts m (md5_count0 c) (md5_count1 c) |}.

Lemma md5_fed_update c m input :
  hash_fed c m -> zlen input < 2 ^ 32 - 63 ->
  exists c', vox_md5_update c input = Some c' /\ hash_fed c' (m ++ input).
Proof.
  intros [Hs Hc] Hl. destruct (counts_update m _ _ input Hc) as [Hi Hc']. unfold vox_md5_update. rewrite Hi.
  destruct (absorb_ok md5_transform md5_transform_total _ _ m _ _ input Hs
    (loop32_ok md5_transform md5_transform_total input Hl)) as (s & b & -> & Hs').
  cbn [mbind option_bind]. eexists. split; [done|]. by split.
Qed.

Lemma md5_fed_final c m : hash_fed c m -> vox_md5_final c = hash_spec m.
Proof.
  intros Hf. pose proof Hf as [_ [E0 E1]]. unfold vox_md5_final.
  rewrite E0, E1, bits_index32, padding_ok, le_counts by apply bits_range.
  destruct (md5_fed_update c m (0x80 :: replicate (Z.to_nat ((55 - zlen m) mod 64)) 0) Hf) as (c1 & -> & Hf1).
  { rewrite <-padding_ok. pose proof (padding_short (Z.of_nat (length m mod 64))). 
    pose proof (Nat.mod_upper_bound (length m) 64). lia. }
  cbn [mbind option_bind]. destruct (md5_fed_update c1 _ (le_split 8 (bits_of m)) Hf1) as (c2 & -> & [Hs2 _]).
  { unfold zlen. rewrite le_split_length. lia. }
  cbn [mbind option_bind]. rewrite <-(assoc_L (++)) in Hs2. cbn [hash_spec md5_hash].
  rewrite (stream_digest _ _ _ md5_out m _ _ Hs2). destruct (md5_st c2) as [[[a b] d] e]. cbn -[le_split le_bytes32].
  by rewrite !le_bytes32_split.
Qed.

#[export] Instance md5_laws : HashLaws vox_md5_ctx_t.
Proof.
  split; cbn [hash_init hash_update hash_final hash_spec hash_limit hash_size hash_fed md5_hash].
  - split; [by apply stream_init|done].
  - apply md5_fed_update.
  - apply md5_fed_final.
  - intros m. destruct (digest_total md5_transform (md5_st vox_md5_init) (le_split 8) md5_out
      md5_transform_total m) as [s ->].
    eexists. split; [done|]. destruct s as [[[? ?] ?] ?]. cbn -[le_split]. by rewrite !length_app, !le_split_length.
  - lia.
Qed.

(** *** SHA-1 *)

Definition sha1_out (s : sha1_state) : list Z :=
  let '(a, b, c, d, e) := s in
  be_split 4 a ++ be_split 4 b ++ be_split 4 c ++ be_split 4 d ++ be_split 4 e.

#[export] Instance sha1_hash : Hash vox_sha1_ctx_t := {|
  hash_init := vox_sha1_init;
  hash_update := vox_sha1_update;
  hash_final := vox_sha1_final;
  hash_spec := md_digest sha1_transform (sha1_st vox_sha1_init) (be_split 8) sha1_out;
  hash_limit := 2 ^ 32 - 63;
  hash_size := 20;
  hash_fed c m := stream sha1_transform (sha1_st vox_sha1_init) m (sha1_st c) (sha1_buffer c) /\
    counts m (sha1_count0 c) (sha1_count1 c) |}.

Lemma sha1_fed_update c m input :
  hash_fed c m -> zlen input < 2 ^ 32 - 63 ->
  exists c', vox_sha1_update c input = Some c' /\ hash_fed c' (m ++ input).
Proof.
  intros [Hs Hc] Hl. destruct (counts_update m _ _ input Hc) as [Hi Hc']. unfold vox_sha1_update. rewrite Hi.
  destruct (absorb_ok sha1_transform sha1_transform_total _ _ m _ _ input Hs
    (loop32_ok sha1_transform sha1_transform_total input Hl)) as (s & b & -> & Hs').
  cbn [mbind option_bind]. eexists. split; [done|]. by split.
Qed.

(** The length of the padding is below every limit. *)
Lemma padding_limit (m : list Z) :
  zlen (0x80 :: replicate (Z.to_nat ((55 - zlen m) mod 64)) 0) <= 64.
Proof.
  rewrite <-padding_ok. apply padding_short. pose proof (Nat.mod_upper_bound (length m) 64). lia.
Qed.

Lemma sha1_fed_final c m : hash_fed c m -> vox_sha1_final c = hash_spec m.
Proof.
  intros Hf. pose proof Hf as [_ [E0 E1]]. unfold vox_sha1_final.
  rewrite E0, E1, bits_index32, padding_ok, count_join, be_bits_split by apply bits_range.
  pose proof (padding_limit m).
  destruct (sha1_fed_update c m (0x80 :: replicate (Z.to_nat ((55 - zlen m) mod 64)) 0) Hf)
    as (c1 & -> & Hf1); [lia|].
  cbn [mbind option_bind]. destruct (sha1_fed_update c1 _ (be_split 8 (bits_of m)) Hf1) as (c2 & -> & [Hs2 _]).
  { unfold zlen. rewrite be_split_length. lia. }
  cbn [mbind option_bind]. rewrite <-(assoc_L (++)) in Hs2. cbn [hash_spec sha1_hash].
  rewrite (stream_digest _ _ _ sha1_out m _ _ Hs2). destruct (sha1_st c2) as [[[[a b] d] e] f]. cbn -[be_split be_bytes32].
  by rewrite !be_bytes32_split.
Qed.

#[export] Instance sha1_laws : HashLaws vox_sha1_ctx_t.
Proof.
  split; cbn [hash_init hash_update hash_final hash_spec hash_limit hash_size hash_fed sha1_hash].
  - split; [by apply stream_init|done].
  - apply sha1_fed_update.
  - apply sha1_fed_final.
  - intros m. destruct (digest_total sha1_transform (sha1_st vox_sha1_init) (be_split 8) sha1_out
      sha1_transform_total m) as [s ->].
    eexists. split; [done|]. destruct s as [[[[? ?] ?] ?] ?]. cbn -[be_split]. by rewrite !length_app, !be_split_length.
  - lia.
Qed.

(** *** SHA-256 *)

Definition sha256_out (s : sha256_state) : list Z :=
  let '(a, b, c, d, e, f, g, h) := s in
  be_split 4 a ++ be_split 4 b ++ be_split 4 c ++ be_split 4 d
  ++ be_split 4 e ++ be_split 4 f ++ be_split 4 g ++ be_split 4 h.

#[export] Instance sha256_hash : Hash vox_sha256_ctx_t := {|
  hash_init := vox_sha256_init;
  hash_update := vox_sha256_update;
  hash_final := vox_sha256_final;
  hash_spec := md_digest sha256_transform (sha256_st vox_sha256_init) (be_split 8) sha256_out;
  hash_limit := 2 ^ 64 - 64;
  hash_size := 32;
  hash_fed c m := stream sha256_transform (sha256_st vox_sha256_init) m (sha256_st c) (sha256_buffer c) /\
    sha256_count c = bits_of m |}.

Lemma sha256_fed_update c m input :
  hash_fed c m -> zlen input < 2 ^ 64 - 64 ->
  exists c', vox_sha256_update c input = Some c' /\ hash_fed c' (m ++ input).
Proof.
  intros [Hs Hc] Hl. unfold vox_sha256_update. rewrite Hc, bits_index.
  destruct (absorb_ok sha256_transform sha256_transform_total _ _ m _ _ input Hs
    (loop64_ok sha256_transform sha256_transform_total input Hl)) as (s & b & -> & Hs').
  cbn [mbind option_bind]. eexists. split; [done|]. split; [done|]. apply bits_app.
Qed.

Lemma sha256_fed_final c m : hash_fed c m -> vox_sha256_final c = hash_spec m.
Proof.
  intros Hf. pose proof Hf as [_ E]. unfold vox_sha256_final.
  rewrite E, bits_index, padding_ok, be_bits_split. pose proof (padding_limit m).
  destruct (sha256_fed_update c m (0x80 :: replicate (Z.to_nat ((55 - zlen m) mod 64)) 0) Hf)
    as (c1 & -> & Hf1); [lia|].
  cbn [mbind option_bind].
  destruct (sha256_fed_update c1 _ (be_split 8 (bits_of m)) Hf1) as (c2 & -> & [Hs2 _]).
  { unfold zlen. rewrite be_split_length. lia. }
  cbn [mbind option_bind]. rewrite <-(assoc_L (++)) in Hs2. cbn [hash_spec sha256_hash].
  rewrite (stream_digest _ _ _ sha256_out m _ _ Hs2).
  destruct (sha256_st c2) as [[[[[[[? ?] ?] ?] ?] ?] ?] ?]. cbn -[be_split be_bytes32]. by rewrite !be_bytes32_split.
Qed.

#[export] Instance sha256_laws : HashLaws vox_sha256_ctx_t.
Proof.
  split; cbn [hash_init hash_update hash_final hash_spec hash_limit hash_size hash_fed sha256_hash].
  - split; [by apply stream_init|done].
  - apply sha256_fed_update.
  - apply sha256_fed_final.
  - intros m. destruct (digest_total sha256_transform (sha256_st vox_sha256_init) (be_split 8) sha256_out
      sha256_transform_total m) as [s ->].
    eexists. split; [done|]. destruct s as [[[[[[[? ?] ?] ?] ?] ?] ?] ?]. cbn -[be_split].
    by rewrite !length_app, !be_split_length.
  - lia.
Qed.

(** ** What holds of every digest *)

Section clients.
Context {C : Type} `{HashLaws C}.

(** The calls of [update] on each chunk. *)
Fixpoint hash_feed (c : C) (chunks : list (list Z)) : option C :=
  match chunks with
  | [] => Some c
  | d :: chunks => c ← hash_update c d; hash_feed c chunks
  end.

Lemma feed_ok c m chunks :
  hash_fed c m -> Forall (fun d => zlen d < hash_limit) chunks ->
  exists c', hash_feed c chunks = Some c' /\ hash_fed c' (m ++ concat chunks).
Proof.
  intros Hc Hl. revert c m Hc. induction Hl as [|d chunks Hd _ IH]; intros c m Hc; cbn.
  - exists c. by rewrite app_nil_r.
  - destruct (fed_update c m d Hc Hd) as (c1 & -> & Hc1). cbn.
    destruct (IH c1 _ Hc1) as (c2 & -> & Hc2). exists c2. by rewrite (assoc_L (++)).
Qed.

Lemma streamed chunks :
  Forall (fun d => zlen d < hash_limit) chunks ->
  (c ← hash_feed hash_init chunks; hash_final c) = hash_spec (concat chunks).
Proof.
  intros Hl. destruct (feed_ok hash_init [] chunks fed_init Hl) as (c & -> & Hc). cbn. by apply fed_final.
Qed.

(** HMAC as RFC 2104 defines it for a key of at most a block. *)
Definition hmac_rfc (hash : list Z -> option (list Z)) (key data : list Z) : option (list Z) :=
  let k := key ++ replicate (64 - length key) 0 in
  inner ← hash (((fun b => Z.lxor b 0x36) <$> k) ++ data);
  hash (((fun b => Z.lxor b 0x5c) <$> k) ++ inner).

(** The body that the three HMAC functions share. *)
Definition hmac_body (block data : list Z) : option (list Z) :=
  c ← hash_update hash_init ((fun b => Z.lxor b 0x36) <$> block);
  c ← hash_update c data;
  digest ← hash_final c;
  c ← hash_update hash_init ((fun b => Z.lxor b 0x5c) <$> block);
  c ← hash_update c digest;
  hash_final c.

Lemma hmac_body_ok block data :
  length block = 64%nat -> zlen data < hash_limit ->
  hmac_body block data =
    (inner ← hash_spec (((fun b => Z.lxor b 0x36) <$> block) ++ data);
     hash_spec (((fun b => Z.lxor b 0x5c) <$> block) ++ inner)) /\
  exists d, hmac_body block data = Some d.
Proof.
  intros Hb Hd. destruct limit_ok as [Hs Hlim]. unfold hmac_body.
  assert (forall f : Z -> Z, zlen (f <$> block) < hash_limit) as Hpad
    by (intros f; unfold zlen; rewrite length_fmap; lia).
  destruct (fed_update hash_init [] ((fun b => Z.lxor b 0x36) <$> block) fed_init (Hpad _)) as (c1 & -> & Hc1).
  cbn [mbind option_bind]. destruct (fed_update c1 _ data Hc1 Hd) as (c2 & -> & Hc2).
  cbn [mbind option_bind]. rewrite (fed_final c2 _ Hc2).
  destruct (spec_total (([] ++ ((fun b => Z.lxor b 0x36) <$> block)) ++ data)) as (inner & Ei & Hi).
  rewrite Ei. cbn [mbind option_bind].
  destruct (fed_update hash_init [] ((fun b => Z.lxor b 0x5c) <$> block) fed_init (Hpad _)) as (c3 & -> & Hc3).
  cbn [mbind option_bind].
  destruct (fed_update c3 _ inner Hc3) as (c4 & -> & Hc4); [unfold zlen; lia|].
  cbn [mbind option_bind]. rewrite (fed_final c4 _ Hc4). rewrite app_nil_l in Ei. rewrite Ei.
  cbn [mbind option_bind app]. split; [done|].
  destruct (spec_total (((fun b => Z.lxor b 0x5c) <$> block) ++ inner)) as (d & -> & _). by exists d.
Qed.
End clients.

Lemma key_block_short hash key :
  zlen key <= 64 -> key_block hash key = Some (key ++ replicate (64 - length key) 0).
Proof.
  intros Hk. unfold key_block. rewrite (proj2 (Z.ltb_ge 64 (zlen key))) by done.
  pose proof (zlen_nonneg key). rewrite arr_blit_ok by zlia. f_equal.
  change (Z.to_nat 0) with 0%nat. rewrite take_0, drop_0. cbn [app]. unfold zlen.
  rewrite Z.add_0_l, Nat2Z.id, firstn_all, drop_replicate. done.
Qed.

Lemma key_block_long hash key d :
  64 < zlen key -> hash key = Some d -> key_block hash key = key_block hash [].
Proof.
  intros Hk Hh. rewrite (key_block_short hash []) by done. unfold key_block.
  by rewrite (proj2 (Z.ltb_lt 64 (zlen key))), Hh by done.
Qed.

Lemma one_shot {C} `{HashLaws C} data :
  zlen data < hash_limit -> (c ← hash_update hash_init data; hash_final c) = hash_spec data.
Proof.
  intros Hd. pose proof (streamed [data]) as E. cbn [hash_feed concat] in E. rewrite app_nil_r in E.
  rewrite <-E by (by apply Forall_singleton). by destruct (hash_update hash_init data).
Qed.

(** The three digests as functions of the message. *)
Definition md5_spec : list Z -> option (list Z) := hash_spec (C := vox_md5_ctx_t).
Definition sha1_spec : list Z -> option (list Z) := hash_spec (C := vox_sha1_ctx_t).
Definition sha256_spec : list Z -> option (list Z) := hash_spec (C := vox_sha256_ctx_t).

(** C16: However a message of any length is cut in chunks of less than 2^32 - 63 bytes for
    [update], [final] gives the digest of the whole message: its padding to whole blocks, with
    the length modulo 2^64 bits, folded with the compression function. The one-shot functions
    give the same for a message of less than 2^32 - 63 bytes. Then nothing is read or written
    outside the context, the chunks and the tables, and every call returns. (A chunk of 4 GiB
    or more makes the MD5 and SHA-1 updates run for ever: update_4gib_diverges.) *)
Theorem digest_streaming chunks :
  Forall (fun d => zlen d < 2 ^ 32 - 63) chunks -> let short := zlen (concat chunks) < 2 ^ 32 - 63 in
  (exists d, length d = 16%nat /\ md5_spec (concat chunks) = Some d /\ (short -> vox_md5 (concat chunks) = Some d) /\
     (c ← hash_feed (C := vox_md5_ctx_t) vox_md5_init chunks; vox_md5_final c) = Some d) /\
  (exists d, length d = 20%nat /\ sha1_spec (concat chunks) = Some d /\ (short -> vox_sha1 (concat chunks) = Some d) /\
     (c ← hash_feed (C := vox_sha1_ctx_t) vox_sha1_init chunks; vox_sha1_final c) = Some d) /\
  (exists d, length d = 32%nat /\ sha256_spec (concat chunks) = Some d /\
     (short -> vox_sha256 (concat chunks) = Some d) /\
     (c ← hash_feed (C := vox_sha256_ctx_t) vox_sha256_init chunks; vox_sha256_final c) = Some d).
Proof.
  intros Hc short. split_and!.
  - destruct (spec_total (C := vox_md5_ctx_t) (concat chunks)) as (d & E & Hd). exists d.
    split_and!; [done|done|intros Hm; etrans; [exact (one_shot (C := vox_md5_ctx_t) _ Hm)|done]|].
    etrans; [exact (streamed (C := vox_md5_ctx_t) _ Hc)|done].
  - destruct (spec_total (C := vox_sha1_ctx_t) (concat chunks)) as (d & E & Hd). exists d.
    split_and!; [done|done|intros Hm; etrans; [exact (one_shot (C := vox_sha1_ctx_t) _ Hm)|done]|].
    etrans; [exact (streamed (C := vox_sha1_ctx_t) _ Hc)|done].
  - destruct (spec_total (C := vox_sha256_ctx_t) (concat chunks)) as (d & E & Hd). exists d.
    assert (Forall (fun d => zlen d < hash_limit (C := vox_sha256_ctx_t)) chunks) as Hc'
      by (eapply Forall_impl; [exact Hc|cbn; intros; lia]).
    split_and!; [done|done|intros Hm; etrans; [refine (one_shot (C := vox_sha256_ctx_t) _ _); cbn; unfold short in Hm; lia|done]|].
    etrans; [exact (streamed (C := vox_sha256_ctx_t) _ Hc')|done].
Qed.

Definition hmac_limit : Z := 2 ^ 32 - 63.


(** C18: A key of more than 64 bytes does not matter: the digest of it that RFC 2104 asks
    for is cleared before it is used, and the MAC is that of the empty key. *)
Theorem hmac_long_keys_ignored key data :
  64 < zlen key -> zlen key < hmac_limit ->
  vox_hmac_md5 key data = vox_hmac_md5 [] data /\
  vox_hmac_sha1 key data = vox_hmac_sha1 [] data /\
  vox_hmac_sha256 key data = vox_hmac_sha256 [] data.
Proof.
  unfold hmac_limit. intros Hk Hl. split_and!.
  - destruct (spec_total (C := vox_md5_ctx_t) key) as (d & E & _). unfold vox_hmac_md5.
    rewrite (key_block_long vox_md5 key d); [done|done|].
    etrans; [exact (one_shot (C := vox_md5_ctx_t) _ Hl)|done].
  - destruct (spec_total (C := vox_sha1_ctx_t) key) as (d & E & _). unfold vox_hmac_sha1.
    rewrite (key_block_long vox_sha1 key d); [done|done|].
    etrans; [exact (one_shot (C := vox_sha1_ctx_t) _ Hl)|done].
  - destruct (spec_total (C := vox_sha256_ctx_t) key) as (d & E & _). unfold vox_hmac_sha256.
    rewrite (key_block_long vox_sha256 key d); [done|done|].
    assert (zlen key < hash_limit (C := vox_sha256_ctx_t)) as Hl' by (cbn; lia).
    etrans; [exact (one_shot (C := vox_sha256_ctx_t) _ Hl')|done].
Qed.

(** [vox_md5_update] and [vox_sha1_update] count blocks with 32 bits: given 4 GiB or
    more in one call they never return, however long they run, or read out of bounds. *)
Theorem update_4gib_diverges input :
  2 ^ 32 <= zlen input ->
  (forall fuel s i, blocks32 md5_transform fuel s input i (zlen input) = None) /\
  (forall fuel s i, blocks32 sha1_transform fuel s input i (zlen input) = None) /\
  (forall ctx, vox_md5_update ctx input = None) /\ (forall ctx, vox_sha1_update ctx input = None).
Proof.
  intros Hl. pose proof (blocks32_diverges md5_transform) as H1. pose proof (blocks32_diverges sha1_transform) as H2.
  assert (forall c, 0 <= Z.land (Z.shiftr c 3) 0x3F < 64) as Hi.
  { intros c. change 0x3F with (Z.ones 6). rewrite land_low by lia. apply Z.mod_pos_bound. lia. }
  split_and!; [by auto|by auto| |]; intros ctx.
  - unfold vox_md5_update, absorb. specialize (Hi (md5_count0 ctx)).
    rewrite (proj2 (Z.leb_le (64 - _) (zlen input))) by lia.
    destruct (arr_blit _ _ _ _ _) as [b|]; [|done]. cbn [mbind option_bind].
    destruct (md5_transform _ _) as [s|]; [|done]. cbn [mbind option_bind]. by rewrite H1.
  - unfold vox_sha1_update, absorb. specialize (Hi (sha1_count0 ctx)).
    rewrite (proj2 (Z.leb_le (64 - _) (zlen input))) by lia.
    destruct (arr_blit _ _ _ _ _) as [b|]; [|done]. cbn [mbind option_bind].
    destruct (sha1_transform _ _) as [s|]; [|done]. cbn [mbind option_bind]. by rewrite H2.
Qed.

(** ** Hexadecimal output *)

Definition hex_value (c : Z) : Z := if c <? 97 then c - 48 else c - 97 + 10.

(** The bytes two hexadecimal digits each stand for. *)
Fixpoint unhex (s : list Z) : list Z :=
  match s with a :: b :: s => hex_value a * 16 + hex_value b :: unhex s | _ => [] end.

Definition hex_digit (c : Z) : Prop := 48 <= c <= 57 \/ 97 <= c <= 102.

Lemma hex_char_ok d : 0 <= d < 16 -> exists c, hex_chars.[d] = Some c /\ hex_value c = d /\ hex_digit c.
Proof.
  intros Hd. assert (Hc : forallb (fun i => match hex_chars.[i] with
    | Some c => (hex_value c =? i) && ((48 <=? c) && (c <=? 57) || (97 <=? c) && (c <=? 102))
    | None => false end) (seqZ 0 16) = true) by (vm_compute; reflexivity).
  rewrite forallb_forall in Hc. specialize (Hc d).
  destruct (hex_chars.[d]) as [c|]; [|discriminate Hc; apply list_elem_of_In, elem_of_seqZ; lia].
  exists c. assert (In d (seqZ 0 16)) as Hin by (apply list_elem_of_In, elem_of_seqZ; lia).
  specialize (Hc Hin). split; [done|]. unfold hex_digit. lia.
Qed.

Lemma hex_digits_ok digest n :
  is_bytes digest -> length digest = n ->
  exists s, hex_digits digest n = Some s /\ length s = (2 * n)%nat /\ Forall hex_digit s /\ unhex s = digest.
Proof.
  intros Hb Hn. unfold hex_digits.
  match goal with |- context [for_ n 0 ?body []] =>
    destruct (for_inv (fun i s => length s = (2 * Z.to_nat i)%nat /\ Forall hex_digit s /\
      forall rest, unhex (s ++ rest) = take (Z.to_nat i) digest ++ unhex rest) n 0 body [])
      as (s & E & Hs & Hf & Hu) end.
  - split; [done|]. split; [by apply Forall_nil|done].
  - intros j s Hj (Hs & Hf & Hu). destruct (arr_get_Some digest j) as [b Eb]; [unfold zlen; lia|].
    rewrite Eb. cbn [mbind option_bind].
    assert (0 <= b < 2 ^ 8) as Hr.
    { unfold is_bytes in Hb. rewrite Forall_forall in Hb. apply Hb. rewrite arr_get_lookup in Eb by lia.
      by eapply list_elem_of_lookup_2. }
    change 0xF with (Z.ones 4). rewrite !land_low, Z.shiftr_div_pow2 by lia.
    destruct (hex_char_ok ((b / 2 ^ 4) mod 2 ^ 4)) as (hi & -> & Hhi & Hdh); [apply Z.mod_pos_bound; lia|].
    destruct (hex_char_ok (b mod 2 ^ 4)) as (lo & -> & Hlo & Hdl); [apply Z.mod_pos_bound; lia|].
    cbn [mbind option_bind]. eexists. split; [done|].
    split; [rewrite length_app; cbn; lia|]. split.
    { apply Forall_app. split; [done|].
      apply Forall_cons. split; [done|]. by apply Forall_singleton. }
    intros rest. rewrite <-(assoc_L (++)), Hu. cbn [app unhex]. rewrite Hhi, Hlo.
    replace (Z.to_nat (j + 1)) with (S (Z.to_nat j)) by lia.
    rewrite arr_get_lookup in Eb by lia. rewrite (take_S_r _ _ _ Eb), <-(assoc_L (++)). cbn. f_equal. f_equal.
    dlia.
  - exists s. rewrite E. split; [done|]. rewrite Z.add_0_l, Nat2Z.id in *.
    split; [done|]. split; [done|]. specialize (Hu []). rewrite !app_nil_r in Hu. rewrite Hu.
    apply firstn_all2. lia.
Qed.

(** The hexadecimal output of a digest is two digits a byte and a terminator, and
    reading the digits gives the digest back. *)
Theorem hex_roundtrip digest :
  is_bytes digest ->
  (length digest = 16%nat -> exists s, vox_md5_hex digest = Some (s ++ [0]) /\
     length s = 32%nat /\ Forall hex_digit s /\ unhex s = digest) /\
  (length digest = 20%nat -> exists s, vox_sha1_hex digest = Some (s ++ [0]) /\
     length s = 40%nat /\ Forall hex_digit s /\ unhex s = digest) /\
  (length digest = 32%nat -> exists s, vox_sha256_hex digest = Some (s ++ [0]) /\
     length s = 64%nat /\ Forall hex_digit s /\ unhex s = digest).
Proof.
  intros Hb. split_and!; intros Hl; destruct (hex_digits_ok digest _ Hb Hl) as (s & E & Hs);
    exists s; (split; [|done]); unfold vox_md5_hex, vox_sha1_hex, vox_sha256_hex; by rewrite E.
Qed.

(** ** Concrete inputs *)

(** "abc" fed as "a", "", "bc". *)
Lemma digest_streaming_witness :
  exists d, vox_sha256 (bytes_of "abc"%string) = Some d /\
  (c ← hash_feed (C := vox_sha256_ctx_t) vox_sha256_init [bytes_of "a"%string; []; bytes_of "bc"%string];
   vox_sha256_final c) = Some d.
Proof.
  destruct (digest_streaming [bytes_of "a"%string; []; bytes_of "bc"%string]) as (_ & _ & d & _ & _ & H1 & H2);
    [repeat constructor|].
  exists d. split; [|exact H2]. apply H1. vm_compute. reflexivity.
Defined.


Lemma hmac_long_keys_ignored_witness :
  vox_hmac_sha1 (replicate 80 0xaa) [1; 2; 3] = vox_hmac_sha1 (replicate 65 0x0b) [1; 2; 3].
Proof.
  destruct (hmac_long_keys_ignored (replicate 80 0xaa) [1; 2; 3]) as (_ & E1 & _); [done|done|].
  destruct (hmac_long_keys_ignored (replicate 65 0x0b) [1; 2; 3]) as (_ & E2 & _); [done|done|].
  rewrite E1, E2. reflexivity.
Defined.

Lemma update_4gib_diverges_witness :
  vox_md5_update vox_md5_init (replicate (Z.to_nat (2 ^ 32)) 0) = None.
Proof.
  destruct (update_4gib_diverges (replicate (Z.to_nat (2 ^ 32)) 0)) as (_ & _ & E & _).
  - rewrite zlen_replicate. lia.
  - exact (E vox_md5_init).
Defined.

Lemma hex_roundtrip_witness :
  exists s, vox_md5_hex (replicate 16 0xab) = Some (s ++ [0]) /\ unhex s = replicate 16 0xab.
Proof.
  destruct (hex_roundtrip (replicate 16 0xab)) as (E & _ & _).
  - apply Forall_replicate. lia.
  - destruct (E eq_refl) as (s & H1 & _ & _ & H2). exists s. split; [exact H1|exact H2].
Defined.
End Digest.
