(* ===== verification/Encode.v ===== *)
(** * vox_crypto.c: Base64 and CRC-32

    The encoders and decoders of src/vox_crypto.c over caller-supplied buffers, and the
    table-driven CRC-32. A buffer is the list of its bytes; a write past its end is
    [None]. A C string is a list of bytes with a 0 in it. *)

From Stdlib Require Import String.
From S2P Require Import Prelude CString.

Module Encode.

Import CString.

(** ** Base64 *)

(** src/vox_crypto.c:748-749: base64_chars *)
Definition base64_chars : list Z :=
  [65; 66; 67; 68; 69; 70; 71; 72; 73; 74; 75; 76; 77; 78; 79; 80;
   81; 82; 83; 84; 85; 86; 87; 88; 89; 90; 97; 98; 99; 100; 101; 102;
   103; 104; 105; 106; 107; 108; 109; 110; 111; 112; 113; 114; 115; 116; 117; 118;
   119; 120; 121; 122; 48; 49; 50; 51; 52; 53; 54; 55; 56; 57; 43; 47].

(** [output[j++] = x]. *)
Definition put (x : Z) (s : list Z * Z) : option (list Z * Z) :=
  let '(output, j) := s in output ← output.[j <- x]; Some (output, j + 1).

(** The return value and the buffer.

    src/vox_crypto.c: vox_base64_encode *)
Definition vox_base64_encode (input output : list Z) (output_size : Z) : option (Z * list Z) :=
  let len := zlen input in
  let output_len := u64 (u64 (len + 2) / 3 * 4) in
  if output_size <? u64 (output_len + 1) then Some (-1, output) else
  let full_groups := len / 3 in
  s ← for_ (Z.to_nat full_groups) 0 (fun group s =>
    let i := group * 3 in
    x ← input.[i]; y ← input.[i + 1]; z ← input.[i + 2];
    let triple := Z.lor (Z.lor (Z.shiftl x 16) (Z.shiftl y 8)) z in
    c1 ← base64_chars.[Z.land (Z.shiftr triple 18) 0x3F]; s ← put c1 s;
    c2 ← base64_chars.[Z.land (Z.shiftr triple 12) 0x3F]; s ← put c2 s;
    c3 ← base64_chars.[Z.land (Z.shiftr triple 6) 0x3F]; s ← put c3 s;
    c4 ← base64_chars.[Z.land triple 0x3F]; put c4 s) (output, 0);
  let i := full_groups * 3 in
  s ← (if i <? len then
         x ← input.[i];
         c1 ← base64_chars.[Z.land (Z.shiftr x 2) 0x3F]; s ← put c1 s;
         s ← (if i =? len - 1 then
                c2 ← base64_chars.[Z.shiftl (Z.land x 0x3) 4]; s ← put c2 s;
                put 61 s
              else
                y ← input.[i + 1];
                c2 ← base64_chars.[Z.lor (Z.shiftl (Z.land x 0x3) 4) (Z.shiftr (Z.land y 0xF0) 4)];
                s ← put c2 s;
                c3 ← base64_chars.[Z.shiftl (Z.land y 0xF) 2]; put c3 s);
         put 61 s
       else Some s);
  let '(output, j) := s in
  output ← output.[j <- 0];
  Some (s32 j, output).

(** src/vox_crypto.c:792-809: base64_char_table *)
Definition base64_char_table : list Z :=
  [-2; -2; -2; -2; -2; -2; -2; -2; -2; -2; -2; -2; -2; -2; -2; -2;
   -2; -2; -2; -2; -2; -2; -2; -2; -2; -2; -2; -2; -2; -2; -2; -2;
   -2; -2; -2; -2; -2; -2; -2; -2; -2; -2; -2; 62; -2; -2; -2; 63;
   52; 53; 54; 55; 56; 57; 58; 59; 60; 61; -2; -2; -2; -1; -2; -2;
   -2; 0; 1; 2; 3; 4; 5; 6; 7; 8; 9; 10; 11; 12; 13; 14;
   15; 16; 17; 18; 19; 20; 21; 22; 23; 24; 25; -2; -2; -2; -2; -2;
   -2; 26; 27; 28; 29; 30; 31; 32; 33; 34; 35; 36; 37; 38; 39; 40;
   41; 42; 43; 44; 45; 46; 47; 48; 49; 50; 51; -2; -2; -2; -2; -2;
   -2; -2; -2; -2; -2; -2; -2; -2; -2; -2; -2; -2; -2; -2; -2; -2;
   -2; -2; -2; -2; -2; -2; -2; -2; -2; -2; -2; -2; -2; -2; -2; -2;
   -2; -2; -2; -2; -2; -2; -2; -2; -2; -2; -2; -2; -2; -2; -2; -2;
   -2; -2; -2; -2; -2; -2; -2; -2; -2; -2; -2; -2; -2; -2; -2; -2;
   -2; -2; -2; -2; -2; -2; -2; -2; -2; -2; -2; -2; -2; -2; -2; -2;
   -2; -2; -2; -2; -2; -2; -2; -2; -2; -2; -2; -2; -2; -2; -2; -2;
   -2; -2; -2; -2; -2; -2; -2; -2; -2; -2; -2; -2; -2; -2; -2; -2;
   -2; -2; -2; -2; -2; -2; -2; -2; -2; -2; -2; -2; -2; -2; -2; -2].

(** src/vox_crypto.c: base64_char_value *)
Definition base64_char_value (c : Z) : option Z := base64_char_table.[c].

(** src/vox_crypto.c:816-833: base64url_char_table *)
Definition base64url_char_table : list Z :=
  [-2; -2; -2; -2; -2; -2; -2; -2; -2; -2; -2; -2; -2; -2; -2; -2;
   -2; -2; -2; -2; -2; -2; -2; -2; -2; -2; -2; -2; -2; -2; -2; -2;
   -2; -2; -2; -2; -2; -2; -2; -2; -2; -2; -2; -2; -2; 62; -2; -2;
   52; 53; 54; 55; 56; 57; 58; 59; 60; 61; -2; -2; -2; -1; -2; -2;
   -2; 0; 1; 2; 3; 4; 5; 6; 7; 8; 9; 10; 11; 12; 13; 14;
   15; 16; 17; 18; 19; 20; 21; 22; 23; 24; 25; -2; -2; -2; -2; 63;
   -2; 26; 27; 28; 29; 30; 31; 32; 33; 34; 35; 36; 37; 38; 39; 40;
   41; 42; 43; 44; 45; 46; 47; 48; 49; 50; 51; -2; -2; -2; -2; -2;
   -2; -2; -2; -2; -2; -2; -2; -2; -2; -2; -2; -2; -2; -2; -2; -2;
   -2; -2; -2; -2; -2; -2; -2; -2; -2; -2; -2; -2; -2; -2; -2; -2;
   -2; -2; -2; -2; -2; -2; -2; -2; -2; -2; -2; -2; -2; -2; -2; -2;
   -2; -2; -2; -2; -2; -2; -2; -2; -2; -2; -2; -2; -2; -2; -2; -2;
   -2; -2; -2; -2; -2; -2; -2; -2; -2; -2; -2; -2; -2; -2; -2; -2;
   -2; -2; -2; -2; -2; -2; -2; -2; -2; -2; -2; -2; -2; -2; -2; -2;
   -2; -2; -2; -2; -2; -2; -2; -2; -2; -2; -2; -2; -2; -2; -2; -2;
   -2; -2; -2; -2; -2; -2; -2; -2; -2; -2; -2; -2; -2; -2; -2; -2].

(** src/vox_crypto.c: base64url_char_value *)
Definition base64url_char_value (c : Z) : option Z :=
  val ← base64url_char_table.[c];
  if (val =? -2) && (c =? 43) then Some 62 else
  if (val =? -2) && (c =? 47) then Some 63 else Some val.

(** ' ', '\n', '\r' and '\t'. *)
Definition is_blank (c : Z) : bool := (c =? 32) || (c =? 10) || (c =? 13) || (c =? 9).

(** The loop that drops the blanks at the end.

    src/vox_crypto.c:848-850: vox_base64_decode *)
Fixpoint trim (fuel : nat) (encoded : list Z) (len : Z) : option Z :=
  match fuel with
  | O => None
  | S fuel =>
      if 0 <? len then
        c ← encoded.[len - 1]; if is_blank c then trim fuel encoded (len - 1) else Some len
      else Some len
  end.

(** The number of '=' among the last two characters. *)
Definition count_padding (encoded : list Z) (len : Z) : option Z :=
  p1 ← (if 0 <? len then c ← encoded.[len - 1]; Some (if c =? 61 then 1 else 0) else Some 0);
  p2 ← (if 1 <? len then c ← encoded.[len - 2]; Some (if c =? 61 then 1 else 0) else Some 0);
  Some (p1 + p2).

(** The loop over groups of four characters while [more i]; [inl] is the early
    [return -1]. *)
Fixpoint decode_groups (fuel : nat) (char_value : Z -> option Z) (more : Z -> bool) (encoded : list Z)
  (i : Z) (s : list Z * Z) : option (list Z + (Z * (list Z * Z))) :=
  match fuel with
  | O => None
  | S fuel =>
      if more i then
        c1 ← encoded.[i]; v1 ← char_value c1;
        c2 ← encoded.[i + 1]; v2 ← char_value c2;
        c3 ← encoded.[i + 2]; v3 ← char_value c3;
        c4 ← encoded.[i + 3]; v4 ← char_value c4;
        if (v1 <? 0) || (v2 <? 0) || (v3 <? 0) || (v4 <? 0) then Some (inl s.1) else
        s ← put (u8 (Z.lor (Z.shiftl v1 2) (Z.shiftr v2 4))) s;
        s ← put (u8 (Z.lor (Z.shiftl (Z.land v2 0xF) 4) (Z.shiftr v3 2))) s;
        s ← put (u8 (Z.lor (Z.shiftl (Z.land v3 0x3) 6) v4)) s;
        decode_groups fuel char_value more encoded (i + 4) s
      else Some (inr (i, s))
  end.

Definition groups_fuel (len : Z) : nat := S (Z.to_nat len).
#[global] Arguments groups_fuel : simpl never.

(** src/vox_crypto.c: vox_base64_decode *)
Definition vox_base64_decode (encoded out : list Z) (output_size : Z) : option (Z * list Z) :=
  len ← strlen encoded;
  if len =? 0 then Some (0, out) else
  len ← trim (groups_fuel len) encoded len;
  if len =? 0 then Some (0, out) else
  padding ← count_padding encoded len;
  let output_len := u64 (u64 (len * 3) / 4 - padding) in
  if output_size <? output_len then Some (-1, out) else
  let process_len := len - padding in
  r ← decode_groups (groups_fuel len) base64_char_value (fun i => i + 4 <=? process_len) encoded 0 (out, 0);
  match r with
  | inl out => Some (-1, out)
  | inr (i, (out, j)) =>
      if (0 <? padding) && (i <? len) then
        c1 ← encoded.[i]; v1 ← base64_char_value c1;
        v2 ← (if i + 1 <? len then c2 ← encoded.[i + 1]; base64_char_value c2 else Some (-1));
        if (v1 <? 0) || (v2 <? 0) then Some (-1, out) else
        '(out, j) ← put (u8 (Z.lor (Z.shiftl v1 2) (Z.shiftr v2 4))) (out, j);
        if (padding =? 1) && (i + 2 <? len) then
          c3 ← encoded.[i + 2]; v3 ← base64_char_value c3;
          if v3 <? 0 then Some (-1, out) else
          '(out, j) ← put (u8 (Z.lor (Z.shiftl (Z.land v2 0xF) 4) (Z.shiftr v3 2))) (out, j);
          Some (s32 j, out)
        else Some (s32 j, out)
      else if i <? process_len then Some (-1, out)
      else Some (s32 j, out)
  end.

(** ** The URL-safe alphabet *)

(** src/vox_crypto.c:910-911: base64url_chars *)
Definition base64url_chars : list Z :=
  [65; 66; 67; 68; 69; 70; 71; 72; 73; 74; 75; 76; 77; 78; 79; 80;
   81; 82; 83; 84; 85; 86; 87; 88; 89; 90; 97; 98; 99; 100; 101; 102;
   103; 104; 105; 106; 107; 108; 109; 110; 111; 112; 113; 114; 115; 116; 117; 118;
   119; 120; 121; 122; 48; 49; 50; 51; 52; 53; 54; 55; 56; 57; 45; 95].

(** The loop [while (i + 2 < len)].

    src/vox_crypto.c:934-940: vox_base64url_encode *)
Fixpoint url_groups (fuel : nat) (input : list Z) (i : Z) (s : list Z * Z) : option (Z * (list Z * Z)) :=
  match fuel with
  | O => None
  | S fuel =>
      if i + 2 <? zlen input then
        x ← input.[i]; y ← input.[i + 1]; z ← input.[i + 2];
        c1 ← base64url_chars.[Z.land (Z.shiftr x 2) 0x3F]; s ← put c1 s;
        c2 ← base64url_chars.[Z.lor (Z.shiftl (Z.land x 0x3) 4) (Z.shiftr (Z.land y 0xF0) 4)]; s ← put c2 s;
        c3 ← base64url_chars.[Z.lor (Z.shiftl (Z.land y 0xF) 2) (Z.shiftr (Z.land z 0xC0) 6)]; s ← put c3 s;
        c4 ← base64url_chars.[Z.land z 0x3F]; s ← put c4 s;
        url_groups fuel input (i + 3) s
      else Some (i, s)
  end.

(** src/vox_crypto.c: vox_base64url_encode *)
Definition vox_base64url_encode (input output : list Z) (output_size : Z) : option (Z * list Z) :=
  let len := zlen input in
  if len =? 0 then
    if output_size <? 1 then Some (-1, output)
    else output ← output.[0 <- 0]; Some (0, output)
  else
  let output_len := u64 (u64 (len + 2) / 3 * 4) in
  if output_size <? u64 (output_len + 1) then Some (-1, output) else
  '(i, s) ← url_groups (groups_fuel len) input 0 (output, 0);
  s ← (if i <? len then
         x ← input.[i];
         c1 ← base64url_chars.[Z.land (Z.shiftr x 2) 0x3F]; s ← put c1 s;
         if i =? len - 1 then
           c2 ← base64url_chars.[Z.shiftl (Z.land x 0x3) 4]; put c2 s
         else
           y ← input.[i + 1];
           c2 ← base64url_chars.[Z.lor (Z.shiftl (Z.land x 0x3) 4) (Z.shiftr (Z.land y 0xF0) 4)];
           s ← put c2 s;
           c3 ← base64url_chars.[Z.shiftl (Z.land y 0xF) 2]; put c3 s
       else Some s);
  let '(output, j) := s in
  output ← output.[j <- 0];
  Some (s32 j, output).

(** [output_len], or the early [return -1].

    src/vox_crypto.c:971-986: vox_base64url_decode *)
Definition url_output_len (len padding : Z) : option Z :=
  if padding =? 0 then
    let remainder := len mod 4 in
    if remainder =? 0 then Some (u64 (len * 3) / 4)
    else if remainder =? 1 then None
    else if remainder =? 2 then Some (u64 (len * 3) / 4 + 1)
    else Some (u64 (len * 3) / 4 + 2)
  else Some (u64 (u64 (len * 3) / 4 - padding)).

(** src/vox_crypto.c: vox_base64url_decode *)
Definition vox_base64url_decode (encoded out : list Z) (output_size : Z) : option (Z * list Z) :=
  len ← strlen encoded;
  if len =? 0 then Some (0, out) else
  padding ← count_padding encoded len;
  match url_output_len len padding with
  | None => Some (-1, out)
  | Some output_len =>
  if output_size <? output_len then Some (-1, out) else
  let process_len := len - padding in
  let process_len := if negb (process_len mod 4 =? 0) then process_len / 4 * 4 else process_len in
  r ← decode_groups (groups_fuel len) base64url_char_value (fun i => i <? process_len) encoded 0 (out, 0);
  match r with
  | inl out => Some (-1, out)
  | inr (i, (out, j)) =>
      let remaining := len - padding in
      if (i <? remaining) && (i <? len) then
        c1 ← encoded.[i]; v1 ← base64url_char_value c1;
        if v1 <? 0 then Some (-1, out) else
        if (remaining <=? i + 1) || (len <=? i + 1) then Some (-1, out) else
        c2 ← encoded.[i + 1]; v2 ← base64url_char_value c2;
        if v2 <? 0 then Some (-1, out) else
        '(out, j) ← put (u8 (Z.lor (Z.shiftl v1 2) (Z.shiftr v2 4))) (out, j);
        if (i + 2 <? remaining) && (i + 2 <? len) then
          c3 ← encoded.[i + 2]; v3 ← base64url_char_value c3;
          if v3 <? 0 then Some (-1, out) else
          '(out, j) ← put (u8 (Z.lor (Z.shiftl (Z.land v2 0xF) 4) (Z.shiftr v3 2))) (out, j);
          Some (s32 j, out)
        else Some (s32 j, out)
      else Some (s32 j, out)
  end
  end.

(** ** CRC-32 *)

(** One entry: eight shifts. *)
Definition crc_bit (crc : Z) : Z :=
  if negb (Z.land crc 1 =? 0) then Z.lxor (Z.shiftr crc 1) 0xEDB88320 else Z.shiftr crc 1.
Definition crc_entry (i : Z) : Z := Nat.iter 8 crc_bit i.

(** src/vox_crypto.c: compute_crc32_table *)
Definition crc32_table : list Z := crc_entry <$> seqZ 0 256.

(** src/vox_crypto.c: vox_crc32_init *)
Definition vox_crc32_init : Z := 0xFFFFFFFF.

(** One byte through the table. *)
Definition crc_byte (crc b : Z) : option Z :=
  t ← crc32_table.[Z.land (Z.lxor crc b) 0xFF]; Some (Z.lxor (Z.shiftr crc 8) t).

(** The bytes up to the next multiple of four of the address. *)
Fixpoint crc_align (fuel : nat) (addr crc : Z) (bytes : list Z) : option (Z * list Z) :=
  match fuel with
  | O => None
  | S fuel =>
      match bytes with
      | b :: rest =>
          if negb (Z.land addr 3 =? 0) then crc ← crc_byte crc b; crc_align fuel (addr + 1) crc rest
          else Some (crc, bytes)
      | [] => Some (crc, bytes)
      end
  end.

(** [crc = (crc >> 8) ^ crc32_table[crc & 0xFF]]. *)
Definition crc_shift (crc : Z) : option Z :=
  t ← crc32_table.[Z.land crc 0xFF]; Some (Z.lxor (Z.shiftr crc 8) t).

(** The loop over [n] words. *)
Fixpoint crc_words (n : nat) (crc : Z) (bytes : list Z) : option (Z * list Z) :=
  match n with
  | O => Some (crc, bytes)
  | S n =>
      w ← arr_slice bytes 0 4;
      let crc := Z.lxor crc (le_combine w) in
      crc ← crc_shift crc; crc ← crc_shift crc; crc ← crc_shift crc; crc ← crc_shift crc;
      crc_words n crc (drop 4 bytes)
  end.

(** The loop over single bytes. *)
Fixpoint crc_bytes (crc : Z) (bytes : list Z) : option Z :=
  match bytes with
  | [] => Some crc
  | b :: bytes => crc ← crc_byte crc b; crc_bytes crc bytes
  end.

(** [addr] is the address of the data.

    src/vox_crypto.c: vox_crc32_update *)
Definition vox_crc32_update (crc addr : Z) (bytes : list Z) : option Z :=
  '(crc, bytes) ← crc_align (groups_fuel (zlen bytes)) addr crc bytes;
  '(crc, bytes) ← crc_words (Z.to_nat (zlen bytes / 4)) crc bytes;
  crc_bytes crc bytes.

(** src/vox_crypto.c: vox_crc32_final *)
Definition vox_crc32_final (crc : Z) : Z := Z.lxor crc 0xFFFFFFFF.

(** src/vox_crypto.c: vox_crc32 *)
Definition vox_crc32 (addr : Z) (data : list Z) : option Z :=
  crc ← vox_crc32_update vox_crc32_init addr data; Some (vox_crc32_final crc).


(** ** CRC-32 is the bitwise division *)

(** The reference: the message one bit at a time. *)
Definition crc_ref (crc : Z) (bytes : list Z) : Z :=
  foldl (fun crc b => Nat.iter 8 crc_bit (Z.lxor crc b)) crc bytes.

Lemma crc_bit_alt x : crc_bit x = Z.lxor (Z.shiftr x 1) (if Z.odd x then 0xEDB88320 else 0).
Proof.
  unfold crc_bit. change 1 with (Z.ones 1) at 1. rewrite land_low by lia.
  rewrite (Zmod_odd x : x mod 2 ^ 1 = _). destruct (Z.odd x); cbn; [done|]. by rewrite Z.lxor_0_r.
Qed.

Lemma crc_bit_lxor x y : crc_bit (Z.lxor x y) = Z.lxor (crc_bit x) (crc_bit y).
Proof.
  rewrite !crc_bit_alt, Z.shiftr_lxor. rewrite <-!Z.bit0_odd, Z.lxor_spec.
  set (p := 0xEDB88320). set (a := Z.shiftr x 1). set (b := Z.shiftr y 1).
  apply Z.bits_inj'. intros i _. rewrite !Z.lxor_spec.
  destruct (Z.testbit x 0), (Z.testbit y 0); cbn; rewrite ?Z.bits_0;
    destruct (Z.testbit a i), (Z.testbit b i), (Z.testbit p i); done.
Qed.

Lemma crc_iter_lxor n x y :
  Nat.iter n crc_bit (Z.lxor x y) = Z.lxor (Nat.iter n crc_bit x) (Nat.iter n crc_bit y).
Proof. induction n as [|n IH]; [done|]. by rewrite !Nat.iter_succ, IH, crc_bit_lxor. Qed.

Lemma crc_iter_shift n h : Nat.iter n crc_bit (h * 2 ^ Z.of_nat n) = h.
Proof.
  revert h. induction n as [|n IH]; intros h; [cbn; lia|]. rewrite Nat.iter_succ_r.
  replace (crc_bit (h * 2 ^ Z.of_nat (S n))) with (h * 2 ^ Z.of_nat n); [apply IH|].
  rewrite Nat2Z.inj_succ, Z.pow_succ_r by lia. rewrite crc_bit_alt.
  replace (h * (2 * 2 ^ Z.of_nat n)) with (2 * (h * 2 ^ Z.of_nat n)) by lia. rewrite Z.odd_mul. cbn [Z.odd].
  rewrite Z.lxor_0_r, Z.shiftr_div_pow2 by lia. change (2 ^ 1) with 2.
  rewrite (Z.mul_comm 2), Z.div_mul; lia.
Qed.

Lemma split_low x n : 0 <= n -> x = Z.lxor (x / 2 ^ n * 2 ^ n) (x mod 2 ^ n).
Proof.
  intros Hn. apply Z.bits_inj'. intros i Hi. rewrite Z.lxor_spec. destruct (decide (i < n)).
  - rewrite Z.mul_pow2_bits_low, Z.mod_pow2_bits_low by lia. by destruct (Z.testbit x i).
  - rewrite Z.mul_pow2_bits, Z.div_pow2_bits, Z.mod_pow2_bits_high by lia.
    replace (i - n + n) with i by lia. by destruct (Z.testbit x i).
Qed.

Lemma table_get x : crc32_table.[Z.land x 0xFF] = Some (crc_entry (x mod 2 ^ 8)).
Proof.
  change 0xFF with (Z.ones 8). rewrite land_low by lia.
  pose proof (Z.mod_pos_bound x (2 ^ 8) ltac:(lia)) as Hr. set (i := x mod 2 ^ 8) in *. clearbody i.
  unfold crc32_table. rewrite arr_get_lookup, list_lookup_fmap by lia.
  rewrite lookup_seqZ_lt by lia. cbn [fmap option_fmap option_map]. f_equal. f_equal. lia.
Qed.

(** Eight bits through the table. *)
Lemma crc_table_step x : Z.lxor (Z.shiftr x 8) (crc_entry (x mod 2 ^ 8)) = Nat.iter 8 crc_bit x.
Proof.
  rewrite (split_low x 8) at 3 by lia. rewrite crc_iter_lxor. f_equal.
  rewrite Z.shiftr_div_pow2 by lia. symmetry. apply (crc_iter_shift 8).
Qed.

Definition crc_step (crc b : Z) : Z := Nat.iter 8 crc_bit (Z.lxor crc b).

Lemma shiftr_low x b : 0 <= b < 2 ^ 8 -> Z.shiftr (Z.lxor x b) 8 = Z.shiftr x 8.
Proof.
  intros Hb. rewrite Z.shiftr_lxor, (Z.shiftr_div_pow2 b), Z.div_small by lia. apply Z.lxor_0_r.
Qed.

Lemma crc_byte_ok crc b : 0 <= b < 2 ^ 8 -> crc_byte crc b = Some (crc_step crc b).
Proof.
  intros Hb. unfold crc_byte, crc_step. rewrite table_get. cbn [mbind option_bind].
  by rewrite <-(crc_table_step (Z.lxor crc b)), shiftr_low.
Qed.

Lemma crc_bytes_ok crc l : is_bytes l -> crc_bytes crc l = Some (foldl crc_step crc l).
Proof.
  intros Hl. revert crc. induction Hl as [|b l Hb _ IH]; intros crc; cbn; [done|].
  rewrite crc_byte_ok by done. apply IH.
Qed.

(** A word shifted in is its bytes one after the other. *)
Lemma crc_shift_ok crc b w :
  0 <= b < 2 ^ 8 -> crc_shift (Z.lxor crc (b + 2 ^ 8 * w)) = Some (Z.lxor (crc_step crc b) w).
Proof.
  intros Hb. unfold crc_shift, crc_step. rewrite table_get. cbn [mbind option_bind]. f_equal.
  rewrite crc_table_step.
  assert (b + 2 ^ 8 * w = Z.lxor (w * 2 ^ 8) b) as ->.
  { rewrite (split_low (b + 2 ^ 8 * w) 8) by lia. f_equal; [f_equal|].
    - rewrite Z.mul_comm, Z.div_add, Z.div_small by lia. lia.
    - rewrite Z.mul_comm, Z.mod_add by lia. by apply Z.mod_small. }
  rewrite (Z.lxor_comm _ b), <-Z.lxor_assoc, crc_iter_lxor. f_equal. apply (crc_iter_shift 8).
Qed.

#[local] Opaque crc_step crc_shift.

Lemma crc_word_ok crc b0 b1 b2 b3 :
  is_bytes [b0; b1; b2; b3] ->
  (crc ← crc_shift (Z.lxor crc (le_combine [b0; b1; b2; b3])); crc ← crc_shift crc;
   crc ← crc_shift crc; crc_shift crc) = Some (foldl crc_step crc [b0; b1; b2; b3]).
Proof.
  intros Hl. unfold is_bytes in Hl. do 4 (apply Forall_cons in Hl as [? Hl]). cbn [le_combine].
  do 3 (apply bind_Some; eexists; split; [by apply crc_shift_ok|cbn beta]).
  rewrite crc_shift_ok by done. rewrite Z.lxor_0_r. reflexivity.
Qed.

Lemma crc_words_ok n crc l :
  is_bytes l -> 4 * Z.of_nat n <= zlen l ->
  exists l1 l2, l = l1 ++ l2 /\ zlen l1 = 4 * Z.of_nat n /\
    crc_words n crc l = Some (foldl crc_step crc l1, l2).
Proof.
  revert crc l. induction n as [|n IH]; intros crc l Hl Hz; [by exists [], l|].
  destruct l as [|b0 [|b1 [|b2 [|b3 l]]]]; [unfold zlen in Hz; cbn [length] in Hz; lia..|].
  assert (is_bytes [b0; b1; b2; b3] /\ is_bytes l) as [H4 Hl']
    by (apply Forall_app; exact Hl).
  destruct (IH (foldl crc_step crc [b0; b1; b2; b3]) l) as (l1 & l2 & El & Hz1 & E); [done|zlen_simpl; lia|].
  exists ([b0; b1; b2; b3] ++ l1), l2. split; [by rewrite El|]. split; [zlen_simpl; lia|].
  cbn [crc_words].
  assert (arr_slice (b0 :: b1 :: b2 :: b3 :: l) 0 4 = Some [b0; b1; b2; b3]) as ->.
  { unfold arr_slice. rewrite decide_True; [done|]. zlen_simpl. pose proof (zlen_nonneg l). lia. }
  apply bind_Some. eexists. split; [reflexivity|]. cbn beta.
  pose proof (crc_word_ok crc b0 b1 b2 b3 H4) as Hw.
  apply bind_Some in Hw as (c1 & E1 & Hw). apply bind_Some. exists c1. split; [exact E1|]. cbn beta.
  apply bind_Some in Hw as (c2 & E2 & Hw). apply bind_Some. exists c2. split; [exact E2|]. cbn beta.
  apply bind_Some in Hw as (c3 & E3 & Hw). apply bind_Some. exists c3. split; [exact E3|]. cbn beta.
  apply bind_Some. exists (foldl crc_step crc [b0; b1; b2; b3]). split; [exact Hw|]. cbn beta.
  change (drop 4 (b0 :: b1 :: b2 :: b3 :: l)) with l. by rewrite E, foldl_app.
Qed.

Lemma crc_align_ok fuel addr crc l :
  is_bytes l -> zlen l < Z.of_nat fuel ->
  exists k, crc_align fuel addr crc l = Some (foldl crc_step crc (take k l), drop k l).
Proof.
  intros Hl. revert fuel addr crc. induction Hl as [|b l Hb _ IH]; intros [|fuel] addr crc Hf;
    try (zlen_simpl; pose proof (zlen_nonneg l); lia); [by exists 0%nat|by exists 0%nat|].
  cbn [crc_align]. destruct (negb _); [|by exists 0%nat]. rewrite crc_byte_ok by done. cbn [mbind option_bind].
  destruct (IH fuel (addr + 1) (crc_step crc b)) as [k ->]; [zlen_simpl; lia|]. by exists (S k).
Qed.

Lemma crc_update_ok crc addr l :
  is_bytes l -> vox_crc32_update crc addr l = Some (crc_ref crc l).
Proof.
  intros Hl. unfold vox_crc32_update.
  destruct (crc_align_ok (groups_fuel (zlen l)) addr crc l Hl) as [k ->]; [unfold groups_fuel; lia|].
  cbn [mbind option_bind]. assert (is_bytes (drop k l)) as Hd by (by apply Forall_drop).
  pose proof (zlen_nonneg (drop k l)).
  destruct (crc_words_ok (Z.to_nat (zlen (drop k l) / 4)) (foldl crc_step crc (take k l)) (drop k l) Hd)
    as (l1 & l2 & El & _ & ->); [rewrite Z2Nat.id by (apply Z.div_pos; lia); dlia|].
  cbn [mbind option_bind]. rewrite crc_bytes_ok.
  - f_equal. by rewrite <-foldl_app, <-El, <-foldl_app, take_drop.
  - rewrite El in Hd. by apply Forall_app in Hd as [_ Hd].
Qed.

#[local] Transparent crc_step crc_shift.

(** C20: The table-driven CRC-32, whatever the alignment of the data, equals the bit by
    bit division, and a message can be fed in pieces. *)
Theorem crc32_ok crc addr addr' l l' :
  is_bytes l -> is_bytes l' ->
  vox_crc32_update crc addr l = Some (crc_ref crc l) /\
  (crc ← vox_crc32_update crc addr l; vox_crc32_update crc addr' l')
  = vox_crc32_update crc addr (l ++ l').
Proof.
  intros Hl Hl'. rewrite !crc_update_ok by (done || by apply Forall_app). split; [done|].
  cbn [mbind option_bind]. rewrite crc_update_ok by done. unfold crc_ref. by rewrite foldl_app.
Qed.

Lemma crc32_check : vox_crc32 0 [49; 50; 51; 52; 53; 54; 55; 56; 57] = Some 0xCBF43926.
Proof. vm_compute. reflexivity. Qed.

Lemma crc32_ok_witness :
  vox_crc32_update vox_crc32_init 3 ([1; 2; 3; 4; 5; 6] ++ [7; 8; 9])
  = (crc ← vox_crc32_update vox_crc32_init 1 [1; 2; 3; 4; 5; 6]; vox_crc32_update crc 2 [7; 8; 9]).
Proof.
  destruct (crc32_ok vox_crc32_init 1 2 [1; 2; 3; 4; 5; 6] [7; 8; 9]) as [E1 E2].
  - repeat (apply Forall_cons; split; [lia|]). apply Forall_nil. exact Logic.I.
  - repeat (apply Forall_cons; split; [lia|]). apply Forall_nil. exact Logic.I.
  - rewrite E2. destruct (crc32_ok vox_crc32_init 3 1 ([1; 2; 3; 4; 5; 6] ++ [7; 8; 9]) []) as [E3 _].
    + repeat (apply Forall_cons; split; [lia|]). apply Forall_nil. exact Logic.I.
    + apply Forall_nil. exact Logic.I.
    + rewrite E3. vm_compute. reflexivity.
Defined.

(** ** Writing to a buffer *)

(** The bytes [t] were written at the position, which moved past them; the rest of the
    buffer is as it was. *)
Definition written (s s' : list Z * Z) (t : list Z) : Prop :=
  zlen s'.1 = zlen s.1 /\ s'.2 = s.2 + zlen t /\
  take (Z.to_nat s'.2) s'.1 = take (Z.to_nat s.2) s.1 ++ t /\
  drop (Z.to_nat s'.2) s'.1 = drop (Z.to_nat s'.2) s.1.

Lemma written_nil s : written s s [].
Proof. unfold written. rewrite app_nil_r. split_and!; [done|rewrite zlen_nil; lia|done|done]. Qed.

Lemma written_trans s s1 s2 t1 t2 :
  0 <= s.2 -> written s s1 t1 -> written s1 s2 t2 -> written s s2 (t1 ++ t2).
Proof.
  intros Hj (Hz1 & Hj1 & Ht1 & Hd1) (Hz2 & Hj2 & Ht2 & Hd2). unfold written.
  pose proof (zlen_nonneg t1). pose proof (zlen_nonneg t2).
  split_and!; [congruence|rewrite zlen_app; lia|rewrite Ht2, Ht1; by rewrite (assoc_L (++))|].
  rewrite Hd2. replace (Z.to_nat s2.2) with (Z.to_nat s1.2 + Z.to_nat (s2.2 - s1.2))%nat by lia.
  rewrite <-!drop_drop, Hd1. done.
Qed.

Lemma put_char_ok x out j :
  0 <= j < zlen out -> exists s', put x (out, j) = Some s' /\ written (out, j) s' [x].
Proof.
  intros Hj. unfold put. rewrite arr_set_ok by done. cbn [mbind option_bind]. eexists. split; [done|].
  unfold written; cbn. unfold zlen in Hj. split_and!; [apply zlen_insert|done| |].
  - replace (Z.to_nat (j + 1)) with (S (Z.to_nat j)) by lia.
    rewrite (take_S_r _ _ x) by (apply list_lookup_insert_eq; lia). by rewrite take_insert_ge by lia.
  - apply drop_insert_lt. lia.
Qed.

(** Room for [n] more bytes. *)
Definition room_for (s : list Z * Z) (n : Z) : Prop := 0 <= s.2 /\ s.2 + n <= zlen s.1.

Lemma written_room s s' t n : room_for s (zlen t + n) -> written s s' t -> room_for s' n.
Proof. intros [Hj Hn] (Hz & Hj' & _). pose proof (zlen_nonneg t). split; lia. Qed.

(** One [put] more. *)
Lemma put_next x s n : room_for s (1 + n) -> 0 <= n ->
  exists s', put x s = Some s' /\ written s s' [x] /\ room_for s' n.
Proof.
  intros [Hj Hn] Hn0. destruct s as [out j]. cbn in Hj, Hn.
  destruct (put_char_ok x out j) as (s' & E & Hw); [lia|]. exists s'. split; [done|]. split; [done|].
  eapply written_room; [|done]. split; cbn; [lia|]. rewrite zlen_cons, zlen_nil. lia.
Qed.

(** ** The text of some bytes *)

Section text.
Context (al : list Z) (pad : bool).

(** The character of a digit. *)
Definition ch (d : Z) : Z := default 0 (al !! Z.to_nat d).

Definition quad (x y z : Z) : list Z :=
  [ch (x / 4); ch (x mod 4 * 16 + y / 16); ch (y mod 16 * 4 + z / 64); ch (z mod 64)].

Fixpoint b64_text (data : list Z) : list Z :=
  match data with
  | [] => []
  | [x] => [ch (x / 4); ch (x mod 4 * 16)] ++ (if pad then [61; 61] else [])
  | [x; y] => [ch (x / 4); ch (x mod 4 * 16 + y / 16); ch (y mod 16 * 4)] ++ (if pad then [61] else [])
  | x :: y :: z :: data => quad x y z ++ b64_text data
  end.

Definition whole (data : list Z) (k : nat) : Prop := length data = (3 * k)%nat.

(** Induction on groups of three. *)
Lemma whole_ind (Q : list Z -> nat -> Prop) :
  Q [] 0%nat -> (forall x y z data k, whole data k -> Q data k -> Q (x :: y :: z :: data) (S k)) ->
  forall data k, whole data k -> Q data k.
Proof.
  intros H0 HS data k. revert data. induction k as [|k IH]; intros data Hw; unfold whole in Hw.
  - by destruct data.
  - destruct data as [|x [|y [|z data]]]; cbn in Hw; try lia. apply HS; unfold whole; [lia|apply IH; unfold whole; lia].
Qed.

Lemma text_app l1 l2 k : whole l1 k -> b64_text (l1 ++ l2) = b64_text l1 ++ b64_text l2.
Proof.
  revert l1 k. apply (whole_ind (fun l1 k => b64_text (l1 ++ l2) = b64_text l1 ++ b64_text l2)); [done|].
  intros x y z data k _ IH. cbn [app b64_text]. rewrite IH. apply (assoc_L (++)).
Qed.

Lemma text_whole l k : whole l k -> length (b64_text l) = (4 * k)%nat.
Proof.
  revert l k. apply whole_ind; [done|]. intros x y z data k _ IH. cbn [b64_text].
  rewrite length_app, IH. cbn. lia.
Qed.

(** Every list is whole groups and at most two more bytes. *)
Lemma groups_split data :
  let k := (length data / 3)%nat in
  let d3 := take (3 * k) data in let t := drop (3 * k) data in
  whole d3 k /\ data = d3 ++ t /\ (length t < 3)%nat.
Proof.
  cbv zeta. pose proof (Nat.div_mod_eq (length data) 3). pose proof (Nat.mod_upper_bound (length data) 3).
  split; [unfold whole; rewrite length_take; lia|]. split; [by rewrite take_drop|]. rewrite length_drop. lia.
Qed.
End text.

(** ** Digits of bytes *)

Definition byte (x : Z) : Prop := 0 <= x < 256.

Lemma land_3 x : Z.land x 0x3 = x mod 4. Proof. exact (land_low x 2 ltac:(lia)). Qed.
Lemma land_F x : Z.land x 0xF = x mod 16. Proof. exact (land_low x 4 ltac:(lia)). Qed.
Lemma land_3F x : Z.land x 0x3F = x mod 64. Proof. exact (land_low x 6 ltac:(lia)). Qed.
Lemma high_4 y : byte y -> Z.shiftr (Z.land y 0xF0) 4 = y / 16.
Proof.
  intros Hy. rewrite Z.shiftr_land. change (Z.shiftr 0xF0 4) with 0xF.
  rewrite land_F, Z.shiftr_div_pow2 by lia. unfold byte in Hy. dlia.
Qed.
Lemma high_2 z : byte z -> Z.shiftr (Z.land z 0xC0) 6 = z / 64.
Proof.
  intros Hz. rewrite Z.shiftr_land. change (Z.shiftr 0xC0 6) with 0x3.
  rewrite land_3, Z.shiftr_div_pow2 by lia. unfold byte in Hz. dlia.
Qed.

Lemma digit1 x : byte x -> Z.land (Z.shiftr x 2) 0x3F = x / 4.
Proof. intros Hx. rewrite land_3F, Z.shiftr_div_pow2 by lia. unfold byte in Hx. dlia. Qed.
Lemma digit2 x y : byte y ->
  Z.lor (Z.shiftl (Z.land x 0x3) 4) (Z.shiftr (Z.land y 0xF0) 4) = x mod 4 * 16 + y / 16.
Proof.
  intros Hy. rewrite high_4, land_3 by done. rewrite lor_shiftl; [done|lia|]. unfold byte in Hy. dlia.
Qed.
Lemma digit3 y z : byte z ->
  Z.lor (Z.shiftl (Z.land y 0xF) 2) (Z.shiftr (Z.land z 0xC0) 6) = y mod 16 * 4 + z / 64.
Proof.
  intros Hz. rewrite high_2, land_F by done. rewrite lor_shiftl; [done|lia|]. unfold byte in Hz. dlia.
Qed.
Lemma digit2_last x : Z.shiftl (Z.land x 0x3) 4 = x mod 4 * 16.
Proof. rewrite land_3, Z.shiftl_mul_pow2 by lia. done. Qed.
Lemma digit3_last y : Z.shiftl (Z.land y 0xF) 2 = y mod 16 * 4.
Proof. rewrite land_F, Z.shiftl_mul_pow2 by lia. done. Qed.

Lemma triple_digits x y z : byte x -> byte y -> byte z ->
  let t := Z.lor (Z.lor (Z.shiftl x 16) (Z.shiftl y 8)) z in
  Z.land (Z.shiftr t 18) 0x3F = x / 4 /\ Z.land (Z.shiftr t 12) 0x3F = x mod 4 * 16 + y / 16 /\
  Z.land (Z.shiftr t 6) 0x3F = y mod 16 * 4 + z / 64 /\ Z.land t 0x3F = z mod 64.
Proof.
  unfold byte. intros Hx Hy Hz.
  assert (Z.lor (Z.lor (Z.shiftl x 16) (Z.shiftl y 8)) z = (x * 256 + y) * 256 + z) as ->.
  { rewrite (lor_shiftl x (Z.shiftl y 8) 16) by (try rewrite Z.shiftl_mul_pow2; lia).
    rewrite (lor_add _ z 8); [|lia| |lia]; rewrite Z.shiftl_mul_pow2 by lia; [lia|].
    change (2 ^ 16) with (256 * 256). change (2 ^ 8) with 256.
    replace (x * (256 * 256) + y * 256) with ((x * 256 + y) * 256) by lia. apply Z.mod_mul. lia. }
  cbv zeta. rewrite !land_3F, !Z.shiftr_div_pow2 by lia. repeat split; dlia.
Qed.

Lemma octets x y z : byte x -> byte y -> byte z ->
  let v1 := x / 4 in let v2 := x mod 4 * 16 + y / 16 in
  let v3 := y mod 16 * 4 + z / 64 in let v4 := z mod 64 in
  u8 (Z.lor (Z.shiftl v1 2) (Z.shiftr v2 4)) = x /\
  u8 (Z.lor (Z.shiftl (Z.land v2 0xF) 4) (Z.shiftr v3 2)) = y /\
  u8 (Z.lor (Z.shiftl (Z.land v3 0x3) 6) v4) = z.
Proof.
  unfold byte. intros Hx Hy Hz. cbv zeta. rewrite land_F, land_3, !Z.shiftr_div_pow2 by lia.
  rewrite !lor_shiftl by (lia || dlia). rewrite !u8_small by dlia. repeat split; dlia.
Qed.

(** ** The encoders write the text *)

Lemma bytes_byte (l : list Z) i x : is_bytes l -> l.[i] = Some x -> byte x.
Proof.
  intros Hb Hx. pose proof (arr_get_range _ _ _ Hx) as Hr. rewrite arr_get_lookup in Hx by lia.
  unfold is_bytes in Hb. rewrite Forall_forall in Hb. apply (Hb x). by eapply list_elem_of_lookup_2.
Qed.

(** The bytes of one group. *)
Lemma take_group (data : list Z) i x y z :
  0 <= i -> data.[i] = Some x -> data.[i + 1] = Some y -> data.[i + 2] = Some z ->
  take (Z.to_nat (i + 3)) data = take (Z.to_nat i) data ++ [x; y; z].
Proof.
  intros Hi Hx Hy Hz. rewrite arr_get_lookup in Hx, Hy, Hz by lia.
  replace (Z.to_nat (i + 3)) with (S (Z.to_nat (i + 2))) by lia. rewrite (take_S_r _ _ _ Hz).
  replace (Z.to_nat (i + 2)) with (S (Z.to_nat (i + 1))) by lia. rewrite (take_S_r _ _ _ Hy).
  replace (Z.to_nat (i + 1)) with (S (Z.to_nat i)) by lia. rewrite (take_S_r _ _ _ Hx).
  by rewrite <-!(assoc_L (++)).
Qed.

Lemma digit_range x y : byte x -> byte y ->
  0 <= x / 4 < 64 /\ 0 <= x mod 4 * 16 + y / 16 < 64 /\ 0 <= x mod 16 * 4 + y / 64 < 64 /\
  0 <= x mod 64 < 64 /\ 0 <= x mod 4 * 16 < 64 /\ 0 <= x mod 16 * 4 < 64.
Proof. unfold byte. intros. repeat split; dlia. Qed.

Section encoding.
Context (al : list Z) (Hal : length al = 64%nat).

Lemma al_get d : 0 <= d < 64 -> al.[d] = Some (ch al d).
Proof.
  intros Hd. rewrite arr_get_lookup by lia. unfold ch.
  destruct (al !! Z.to_nat d) eqn:E; [done|]. apply lookup_ge_None in E. lia.
Qed.

(** The four characters of a group, written. *)
Lemma put_quad x y z s n :
  byte x -> byte y -> byte z -> room_for s (4 + n) -> 0 <= n ->
  exists s',
    (c1 ← al.[x / 4]; s ← put c1 s;
     c2 ← al.[x mod 4 * 16 + y / 16]; s ← put c2 s;
     c3 ← al.[y mod 16 * 4 + z / 64]; s ← put c3 s;
     c4 ← al.[z mod 64]; put c4 s) = Some s' /\
    written s s' (quad al x y z) /\ room_for s' n.
Proof.
  intros Hx Hy Hz Hr Hn.
  destruct (digit_range x y Hx Hy) as (D1 & D2 & _). destruct (digit_range y z Hy Hz) as (_ & _ & D3 & _).
  destruct (digit_range z z Hz Hz) as (_ & _ & _ & D4 & _).
  rewrite !al_get by done. cbn [mbind option_bind].
  destruct (put_next (ch al (x / 4)) s (3 + n)) as (s1 & -> & W1 & R1);
    [by replace (1 + (3 + n)) with (4 + n) by lia|lia|]. cbn [mbind option_bind].
  destruct (put_next (ch al (x mod 4 * 16 + y / 16)) s1 (2 + n)) as (s2 & -> & W2 & R2);
    [by replace (1 + (2 + n)) with (3 + n) by lia|lia|]. cbn [mbind option_bind].
  destruct (put_next (ch al (y mod 16 * 4 + z / 64)) s2 (1 + n)) as (s3 & -> & W3 & R3);
    [by replace (1 + (1 + n)) with (2 + n) by lia|lia|]. cbn [mbind option_bind].
  destruct (put_next (ch al (z mod 64)) s3 n) as (s4 & -> & W4 & R4); [done|done|].
  exists s4. split; [done|]. split; [|done]. unfold quad.
  change [ch al (x / 4); ch al (x mod 4 * 16 + y / 16); ch al (y mod 16 * 4 + z / 64); ch al (z mod 64)]
    with ([ch al (x / 4)] ++ [ch al (x mod 4 * 16 + y / 16)] ++ [ch al (y mod 16 * 4 + z / 64)]
          ++ [ch al (z mod 64)]).
  eapply written_trans; [apply Hr|exact W1|]. eapply written_trans; [apply R1|exact W2|].
  eapply written_trans; [apply R2|exact W3|exact W4].
Qed.
End encoding.

Section sizes.
Context (al : list Z).

Lemma text_size pad data :
  zlen (b64_text al pad data) =
    zlen data / 3 * 4 + (if zlen data mod 3 =? 0 then 0 else if pad then 4 else zlen data mod 3 + 1).
Proof.
  destruct (groups_split data) as (Hw & E & Ht). set (k := (length data / 3)%nat) in *.
  set (d3 := take (3 * k) data) in *. set (t := drop (3 * k) data) in *.
  rewrite E, (text_app al pad d3 t k Hw), !zlen_app. unfold zlen.
  rewrite (text_whole al pad d3 k Hw). unfold whole in Hw. clearbody d3 t k. clear E data. destruct t as [|x [|y [|? ?]]]; cbn in Ht.
  - cbn [b64_text length]. case_one; [dlia|destruct pad; dlia].
  - cbn [b64_text length]. case_one; [dlia|destruct pad; cbn [length app]; dlia].
  - cbn [b64_text length]. case_one; [dlia|destruct pad; cbn [length app]; dlia].
  - lia.
Qed.

(** The size the encoders ask for, without the terminator. *)
Definition encoded_size (n : Z) : Z := (n + 2) / 3 * 4.

Lemma text_size_pad data : zlen (b64_text al true data) = encoded_size (zlen data).
Proof.
  rewrite text_size. unfold encoded_size. pose proof (zlen_nonneg data). set (n := zlen data) in *. clearbody n.
  case_one; dlia.
Qed.

Lemma text_size_le data : zlen (b64_text al false data) <= encoded_size (zlen data).
Proof.
  rewrite text_size. unfold encoded_size. pose proof (zlen_nonneg data). set (n := zlen data) in *. clearbody n.
  case_one; dlia.
Qed.
End sizes.

Lemma base64_chars_64 : length base64_chars = 64%nat. Proof. done. Qed.
Lemma base64url_chars_64 : length base64url_chars = 64%nat. Proof. done. Qed.

(** The last group of less than three bytes. *)
Lemma last_group (data : list Z) :
  let i := zlen data / 3 * 3 in
  exists t, data = take (Z.to_nat i) data ++ t /\ whole (take (Z.to_nat i) data) (Z.to_nat (zlen data / 3)) /\
    ((t = [] /\ i = zlen data) \/
     (exists x, t = [x] /\ data.[i] = Some x /\ i = zlen data - 1) \/
     (exists x y, t = [x; y] /\ data.[i] = Some x /\ data.[i + 1] = Some y /\ i = zlen data - 2)).
Proof.
  cbv zeta. pose proof (zlen_nonneg data). set (i := zlen data / 3 * 3).
  assert (0 <= i /\ i <= zlen data < i + 3) as [Hi Hr] by (unfold i; dlia).
  exists (drop (Z.to_nat i) data). split; [by rewrite take_drop|].
  split. { unfold whole. rewrite length_take. unfold zlen in *. unfold i in *. dlia. }
  assert (length (drop (Z.to_nat i) data) = Z.to_nat (zlen data - i)) as Hl.
  { rewrite length_drop. unfold zlen. lia. }
  assert (forall r c, 0 <= r -> drop (Z.to_nat i) data !! Z.to_nat r = Some c -> data.[i + r] = Some c) as Hget.
  { intros r c Hr0 Hc. rewrite lookup_drop in Hc. rewrite arr_get_lookup by lia.
    by replace (Z.to_nat (i + r)) with (Z.to_nat i + Z.to_nat r)%nat by lia. }
  destruct (drop (Z.to_nat i) data) as [|x [|y [|? ?]]] eqn:E; cbn [length] in Hl.
  - left. split; [done|lia].
  - right. left. exists x. split; [done|]. split; [|lia]. rewrite <-(Z.add_0_r i). by apply (Hget 0).
  - right. right. exists x, y. split; [done|]. split; [|split; [|lia]].
    + rewrite <-(Z.add_0_r i). by apply (Hget 0).
    + by apply (Hget 1).
  - lia.
Qed.

(** What an encoder has done to the buffer: the text and a terminator at its start. *)
Definition text_in (out out' text : list Z) : Prop := out' = text ++ 0 :: drop (length text + 1) out.

Lemma written_text out s text n :
  written (out, 0) s text -> room_for s (1 + n) -> 0 <= n ->
  exists out', s.1.[s.2 <- 0] = Some out' /\ text_in out out' text /\ s.2 = zlen text.
Proof.
  intros Hw [Hj Hr] Hn. destruct s as [o j]. cbn in Hj, Hr. pose proof Hw as (_ & Hj' & _). cbn in Hj'.
  destruct (put_char_ok 0 o j) as ([o' j''] & E & Hw'); [lia|]. unfold put in E. cbn.
  destruct (o.[j <- 0]) as [o1|]; [|discriminate E]. injection E as -> <-.
  exists o'. split; [done|]. split; [|lia].
  assert (written (out, 0) (o', j + 1) (text ++ [0])) as (_ & Hj2 & Ht & Hd)
    by (eapply written_trans; [cbn; lia|exact Hw|exact Hw']).
  cbn [fst snd] in Ht, Hd, Hj2. unfold text_in. rewrite <-(take_drop (Z.to_nat (j + 1)) o'), Ht, Hd.
  replace (Z.to_nat (j + 1)) with (length text + 1)%nat by (unfold zlen in *; lia).
  change (Z.to_nat 0) with 0%nat. rewrite take_0, app_nil_l, <-(assoc_L (++)). done.
Qed.

Lemma encoded_size_wrap n :
  0 <= n < 2 ^ 61 -> u64 (u64 (n + 2) / 3 * 4) = encoded_size n /\ u64 (encoded_size n + 1) = encoded_size n + 1 /\
  0 <= encoded_size n.
Proof.
  intros Hn. unfold encoded_size. rewrite (u64_small (n + 2)) by lia.
  split; [apply u64_small; dlia|]. split; [apply u64_small; dlia|dlia].
Qed.

(** One [put] of the code, with room for [n] more. *)
Ltac put_step x s n :=
  let s' := fresh "s" in let E := fresh "E" in let W := fresh "W" in let R := fresh "R" in
  destruct (put_next x s n) as (s' & E & W & R);
    [first [done | by replace (1 + n) with (1 + n) by lia]|lia|
     rewrite E; cbn [mbind option_bind]; clear E].

(** What was written by four steps. *)
Lemma written_4 s0 s1 s2 s3 s4 a b c d :
  0 <= s0.2 -> written s0 s1 [a] -> written s1 s2 [b] -> written s2 s3 [c] -> written s3 s4 [d] ->
  written s0 s4 [a; b; c; d].
Proof.
  intros H0 W1 W2 W3 W4. change [a; b; c; d] with ([a] ++ [b] ++ [c] ++ [d]).
  pose proof W1 as (_ & E1 & _). pose proof W2 as (_ & E2 & _). rewrite zlen_cons, zlen_nil in E1, E2.
  eapply written_trans; [done|exact W1|]. eapply written_trans; [lia|exact W2|].
  eapply written_trans; [lia|exact W3|exact W4].
Qed.

Section base64.
Context (data out : list Z) (Hb : is_bytes data) (Hlen : zlen data < 2 ^ 61).
#[local] Abbreviation len := (zlen data).
#[local] Abbreviation full := (zlen data / 3).
#[local] Abbreviation n := (encoded_size (zlen data)).

Lemma full_groups_ok : 0 <= full /\ full * 3 <= len < full * 3 + 3 /\ full * 4 <= n /\
  (len <> full * 3 -> full * 4 + 4 <= n).
Proof. pose proof (zlen_nonneg data). unfold encoded_size. dlia. Qed.

(** The loop over whole groups. *)
Lemma base64_groups s0 :
  n + 1 <= zlen out -> s0 = (out, 0) ->
  exists s, for_ (Z.to_nat full) 0 (fun group s =>
      let i := group * 3 in
      x ← data.[i]; y ← data.[i + 1]; z ← data.[i + 2];
      let triple := Z.lor (Z.lor (Z.shiftl x 16) (Z.shiftl y 8)) z in
      c1 ← base64_chars.[Z.land (Z.shiftr triple 18) 0x3F]; s ← put c1 s;
      c2 ← base64_chars.[Z.land (Z.shiftr triple 12) 0x3F]; s ← put c2 s;
      c3 ← base64_chars.[Z.land (Z.shiftr triple 6) 0x3F]; s ← put c3 s;
      c4 ← base64_chars.[Z.land triple 0x3F]; put c4 s) s0 = Some s /\
    written s0 s (b64_text base64_chars true (take (Z.to_nat (full * 3)) data)) /\
    room_for s (n + 1 - full * 4).
Proof.
  intros Ho ->. destruct full_groups_ok as (Hf & Hfl & Hfn & Hfn').
  match goal with |- context [for_ ?k 0 ?body ?s0] =>
    destruct (for_inv (fun g s => written (out, 0) s
        (b64_text base64_chars true (take (Z.to_nat (g * 3)) data)) /\ room_for s (n + 1 - g * 4)) k 0 body s0)
      as (s & E & Hw & Hroom) end.
  - split; [apply written_nil|]. split; cbn [fst snd]; lia.
  - intros g s Hg [Hw Hr]. rewrite Z2Nat.id in Hg by lia.
    destruct (arr_get_Some data (g * 3)) as [x Hx]; [lia|].
    destruct (arr_get_Some data (g * 3 + 1)) as [y Hy]; [lia|].
    destruct (arr_get_Some data (g * 3 + 2)) as [z Hzz]; [lia|].
    cbv beta zeta. rewrite Hx, Hy, Hzz. cbn [mbind option_bind].
    pose proof (bytes_byte _ _ _ Hb Hx) as Bx. pose proof (bytes_byte _ _ _ Hb Hy) as By.
    pose proof (bytes_byte _ _ _ Hb Hzz) as Bz.
    pose proof (triple_digits x y z Bx By Bz) as Ht. cbv zeta in Ht. destruct Ht as (-> & -> & -> & ->).
    destruct (put_quad base64_chars base64_chars_64 x y z s (n + 1 - (g + 1) * 4) Bx By Bz) as (s' & E' & Hw' & Hr');
      [by replace (4 + (n + 1 - (g + 1) * 4)) with (n + 1 - g * 4) by lia|lia|].
    exists s'. split; [exact E'|]. split; [|done].
    replace ((g + 1) * 3) with (g * 3 + 3) by lia. rewrite (take_group data (g * 3) x y z) by (done || lia).
    rewrite (text_app _ _ _ _ (Z.to_nat g)) by (unfold whole; rewrite length_take; unfold zlen in *; lia).
    eapply written_trans; [cbn; lia|exact Hw|exact Hw'].
  - rewrite Z2Nat.id, Z.add_0_l in Hw, Hroom by lia. by exists s.
Qed.

(** The rest and its padding. *)
Lemma base64_rest s t :
  room_for s (n + 1 - full * 4) ->
  ((t = [] /\ full * 3 = len) \/ (exists x, t = [x] /\ data.[full * 3] = Some x /\ full * 3 = len - 1) \/
   (exists x y, t = [x; y] /\ data.[full * 3] = Some x /\ data.[full * 3 + 1] = Some y /\ full * 3 = len - 2)) ->
  exists s', (if full * 3 <? len then
       x ← data.[full * 3];
       c1 ← base64_chars.[Z.land (Z.shiftr x 2) 0x3F]; s ← put c1 s;
       s ← (if full * 3 =? len - 1 then
              c2 ← base64_chars.[Z.shiftl (Z.land x 0x3) 4]; s ← put c2 s;
              put 61 s
            else
              y ← data.[full * 3 + 1];
              c2 ← base64_chars.[Z.lor (Z.shiftl (Z.land x 0x3) 4) (Z.shiftr (Z.land y 0xF0) 4)];
              s ← put c2 s;
              c3 ← base64_chars.[Z.shiftl (Z.land y 0xF) 2]; put c3 s);
       put 61 s
     else Some s) = Some s' /\ written s s' (b64_text base64_chars true t) /\ room_for s' 1.
Proof.
  intros Hroom Hlast. destruct full_groups_ok as (Hf & Hfl & Hfn & Hfn').
  destruct Hlast as [[-> Hi]|[(x & -> & Hx & Hi)|(x & y & -> & Hx & Hy & Hi)]].
  - rewrite (proj2 (Z.ltb_ge _ _)) by lia. exists s. split; [done|]. split; [apply written_nil|].
    destruct Hroom. split; lia.
  - rewrite (proj2 (Z.ltb_lt _ _)), Hx, (proj2 (Z.eqb_eq _ _)) by lia. cbn [mbind option_bind].
    pose proof (bytes_byte _ _ _ Hb Hx) as Bx. destruct (digit_range x x Bx Bx) as (D1 & _ & _ & _ & D2 & _).
    rewrite digit1, digit2_last, !(al_get _ base64_chars_64) by done. cbn [mbind option_bind].
    assert (room_for s (1 + 4)) as R0 by (destruct Hroom; split; lia).
    put_step (ch base64_chars (x / 4)) s 4. put_step (ch base64_chars (x mod 4 * 16)) s0 3.
    put_step 61 s1 2. put_step 61 s2 1. exists s3. split; [done|]. split; [|done].
    eapply written_4; [apply R0|done..].
  - rewrite (proj2 (Z.ltb_lt _ _)), Hx, (proj2 (Z.eqb_neq _ _)), Hy by lia. cbn [mbind option_bind].
    pose proof (bytes_byte _ _ _ Hb Hx) as Bx. pose proof (bytes_byte _ _ _ Hb Hy) as By.
    destruct (digit_range x y Bx By) as (D1 & D2 & _). destruct (digit_range y y By By) as (_ & _ & _ & _ & _ & D3).
    rewrite digit1, digit2, digit3_last, !(al_get _ base64_chars_64) by done. cbn [mbind option_bind].
    assert (room_for s (1 + 4)) as R0 by (destruct Hroom; split; lia).
    put_step (ch base64_chars (x / 4)) s 4. put_step (ch base64_chars (x mod 4 * 16 + y / 16)) s0 3.
    put_step (ch base64_chars (y mod 16 * 4)) s1 2. put_step 61 s2 1. exists s3. split; [done|]. split; [|done].
    eapply written_4; [apply R0|done..].
Qed.

Lemma base64_encode_ok output_size :
  output_size <= zlen out -> n + 1 <= output_size ->
  exists out', vox_base64_encode data out output_size = Some (s32 n, out') /\
    text_in out out' (b64_text base64_chars true data).
Proof.
  intros Ho Hs. pose proof (zlen_nonneg data) as Hz.
  destruct (encoded_size_wrap len) as (E1 & E2 & E3); [lia|].
  unfold vox_base64_encode. rewrite E1, E2, (proj2 (Z.ltb_ge output_size _)) by lia.
  destruct (base64_groups (out, 0)) as (s & E & Hw & Hroom); [lia|done|].
  cbv beta zeta in E |- *. rewrite E. cbn [mbind option_bind].
  destruct (last_group data) as (t & Ed & Hwh & Hlast).
  destruct (base64_rest s t Hroom Hlast) as (s' & E' & Hw' & Hr'). rewrite E'. cbn [mbind option_bind].
  assert (written (out, 0) s' (b64_text base64_chars true data)) as Hall.
  { rewrite Ed, (text_app _ _ _ _ _ Hwh). eapply written_trans; [cbn; lia|exact Hw|exact Hw']. }
  destruct (written_text out s' _ 0 Hall) as (out' & E2' & Ht & Hj); [done|lia|].
  destruct s' as [o j]. cbn [fst snd] in E2', Hj |- *. rewrite E2'. cbn [mbind option_bind].
  exists out'. split; [|done]. by rewrite Hj, text_size_pad.
Qed.
End base64.

(** What was written by two and three steps. *)
Lemma written_2 s0 s1 s2 a b :
  0 <= s0.2 -> written s0 s1 [a] -> written s1 s2 [b] -> written s0 s2 [a; b].
Proof.
  intros H0 W1 W2. change [a; b] with ([a] ++ [b]). pose proof W1 as (_ & E1 & _).
  rewrite zlen_cons, zlen_nil in E1. eapply written_trans; [done|exact W1|exact W2].
Qed.
Lemma written_3 s0 s1 s2 s3 a b c :
  0 <= s0.2 -> written s0 s1 [a] -> written s1 s2 [b] -> written s2 s3 [c] -> written s0 s3 [a; b; c].
Proof.
  intros H0 W1 W2 W3. change [a; b; c] with ([a; b] ++ [c]).
  eapply written_trans; [done|by eapply written_2|exact W3].
Qed.

Section base64url.
Context (data out : list Z) (Hb : is_bytes data) (Hlen : zlen data < 2 ^ 61).
#[local] Abbreviation len := (zlen data).
#[local] Abbreviation full := (zlen data / 3).
#[local] Abbreviation n := (encoded_size (zlen data)).

Lemma url_groups_ok fuel g s :
  0 <= g <= full -> len - g * 3 < Z.of_nat fuel ->
  written (out, 0) s (b64_text base64url_chars false (take (Z.to_nat (g * 3)) data)) ->
  room_for s (n + 1 - g * 4) ->
  exists s', url_groups fuel data (g * 3) s = Some (full * 3, s') /\
    written (out, 0) s' (b64_text base64url_chars false (take (Z.to_nat (full * 3)) data)) /\
    room_for s' (n + 1 - full * 4).
Proof.
  destruct (full_groups_ok data) as (Hf & Hfl & Hfn & Hfn').
  revert g s. induction fuel as [|fuel IH]; intros g s Hg Hfu Hw Hr; [lia|]. cbn [url_groups].
  destruct (Z.ltb_spec (g * 3 + 2) len).
  - destruct (arr_get_Some data (g * 3)) as [x Hx]; [lia|].
    destruct (arr_get_Some data (g * 3 + 1)) as [y Hy]; [lia|].
    destruct (arr_get_Some data (g * 3 + 2)) as [z Hzz]; [lia|]. rewrite Hx, Hy, Hzz. cbn [mbind option_bind].
    pose proof (bytes_byte _ _ _ Hb Hx) as Bx. pose proof (bytes_byte _ _ _ Hb Hy) as By.
    pose proof (bytes_byte _ _ _ Hb Hzz) as Bz. rewrite digit1, digit2, digit3, land_3F by done.
    destruct (put_quad base64url_chars base64url_chars_64 x y z s (n + 1 - (g + 1) * 4) Bx By Bz)
      as (s' & E & Hw' & Hr'); [by replace (4 + (n + 1 - (g + 1) * 4)) with (n + 1 - g * 4) by lia|lia|].
    apply bind_Some in E as (c1 & -> & E). apply bind_Some in E as (s1 & E1 & E).
    apply bind_Some in E as (c2 & -> & E). apply bind_Some in E as (s2 & E2 & E).
    apply bind_Some in E as (c3 & -> & E). apply bind_Some in E as (s3 & E3 & E).
    apply bind_Some in E as (c4 & -> & E). cbn [mbind option_bind].
    rewrite E1. cbn [mbind option_bind]. rewrite E2. cbn [mbind option_bind]. rewrite E3. cbn [mbind option_bind].
    rewrite E. cbn [mbind option_bind]. replace (g * 3 + 3) with ((g + 1) * 3) by lia.
    apply IH; [lia|lia| |done]. replace ((g + 1) * 3) with (g * 3 + 3) by lia.
    rewrite (take_group data (g * 3) x y z) by (done || lia).
    rewrite (text_app _ _ _ _ (Z.to_nat g)) by (unfold whole; rewrite length_take; unfold zlen in *; lia).
    eapply written_trans; [cbn; lia|exact Hw|exact Hw'].
  - assert (g = full) as -> by lia. by exists s.
Qed.

(** The rest, without padding. *)
Lemma url_rest s t :
  room_for s (n + 1 - full * 4) ->
  ((t = [] /\ full * 3 = len) \/ (exists x, t = [x] /\ data.[full * 3] = Some x /\ full * 3 = len - 1) \/
   (exists x y, t = [x; y] /\ data.[full * 3] = Some x /\ data.[full * 3 + 1] = Some y /\ full * 3 = len - 2)) ->
  exists s', (if full * 3 <? len then
       x ← data.[full * 3];
       c1 ← base64url_chars.[Z.land (Z.shiftr x 2) 0x3F]; s ← put c1 s;
       if full * 3 =? len - 1 then
         c2 ← base64url_chars.[Z.shiftl (Z.land x 0x3) 4]; put c2 s
       else
         y ← data.[full * 3 + 1];
         c2 ← base64url_chars.[Z.lor (Z.shiftl (Z.land x 0x3) 4) (Z.shiftr (Z.land y 0xF0) 4)];
         s ← put c2 s;
         c3 ← base64url_chars.[Z.shiftl (Z.land y 0xF) 2]; put c3 s
     else Some s) = Some s' /\ written s s' (b64_text base64url_chars false t) /\ room_for s' 1.
Proof.
  intros Hroom Hlast. destruct (full_groups_ok data) as (Hf & Hfl & Hfn & Hfn').
  destruct Hlast as [[-> Hi]|[(x & -> & Hx & Hi)|(x & y & -> & Hx & Hy & Hi)]].
  - rewrite (proj2 (Z.ltb_ge _ _)) by lia. exists s. split; [done|]. split; [apply written_nil|].
    destruct Hroom. split; lia.
  - rewrite (proj2 (Z.ltb_lt _ _)), Hx, (proj2 (Z.eqb_eq _ _)) by lia. cbn [mbind option_bind].
    pose proof (bytes_byte _ _ _ Hb Hx) as Bx. destruct (digit_range x x Bx Bx) as (D1 & _ & _ & _ & D2 & _).
    rewrite digit1, digit2_last, !(al_get _ base64url_chars_64) by done. cbn [mbind option_bind].
    assert (room_for s (1 + 2)) as R0 by (destruct Hroom; split; lia).
    put_step (ch base64url_chars (x / 4)) s 2. put_step (ch base64url_chars (x mod 4 * 16)) s0 1.
    exists s1. split; [done|]. split; [|done]. eapply written_2; [apply R0|done..].
  - rewrite (proj2 (Z.ltb_lt _ _)), Hx, (proj2 (Z.eqb_neq _ _)), Hy by lia. cbn [mbind option_bind].
    pose proof (bytes_byte _ _ _ Hb Hx) as Bx. pose proof (bytes_byte _ _ _ Hb Hy) as By.
    destruct (digit_range x y Bx By) as (D1 & D2 & _). destruct (digit_range y y By By) as (_ & _ & _ & _ & _ & D3).
    rewrite digit1, digit2, digit3_last, !(al_get _ base64url_chars_64) by done. cbn [mbind option_bind].
    assert (room_for s (1 + 3)) as R0 by (destruct Hroom; split; lia).
    put_step (ch base64url_chars (x / 4)) s 3. put_step (ch base64url_chars (x mod 4 * 16 + y / 16)) s0 2.
    put_step (ch base64url_chars (y mod 16 * 4)) s1 1. exists s2. split; [done|]. split; [|done].
    eapply written_3; [apply R0|done..].
Qed.

Lemma url_encode_ok output_size :
  output_size <= zlen out -> n + 1 <= output_size ->
  exists out', vox_base64url_encode data out output_size
      = Some (s32 (zlen (b64_text base64url_chars false data)), out') /\
    text_in out out' (b64_text base64url_chars false data).
Proof.
  intros Ho Hs. pose proof (zlen_nonneg data) as Hz.
  destruct (encoded_size_wrap len) as (E1 & E2 & E3); [lia|]. unfold vox_base64url_encode.
  destruct (Z.eqb_spec len 0) as [H0|H0].
  { assert (data = []) as Hnil by (destruct data; [done|]; rewrite zlen_cons in H0; pose proof (zlen_nonneg l); lia).
    rewrite (proj2 (Z.ltb_ge output_size 1)) by lia.
    destruct (written_text out (out, 0) [] 0) as (out' & E & Ht & _); [apply written_nil|split; cbn; lia|lia|].
    cbn [fst snd] in E. rewrite E. cbn [mbind option_bind]. rewrite Hnil. exists out'. split; [done|exact Ht]. }
  rewrite E1, E2, (proj2 (Z.ltb_ge output_size _)) by lia.
  destruct (url_groups_ok (groups_fuel len) 0 (out, 0)) as (s & E & Hw & Hroom);
    [split; [lia|apply Z.div_pos; lia]|unfold groups_fuel; lia|apply written_nil|split; cbn [fst snd]; lia|].
  change (0 * 3) with 0 in E. rewrite E. cbn [mbind option_bind].
  destruct (last_group data) as (t & Ed & Hwh & Hlast).
  destruct (url_rest s t Hroom Hlast) as (s' & E' & Hw' & Hr'). rewrite E'. cbn [mbind option_bind].
  assert (written (out, 0) s' (b64_text base64url_chars false data)) as Hall.
  { rewrite Ed, (text_app _ _ _ _ _ Hwh). eapply written_trans; [cbn; lia|exact Hw|exact Hw']. }
  destruct (written_text out s' _ 0 Hall) as (out' & E2' & Ht & Hj); [done|lia|].
  destruct s' as [o j]. cbn [fst snd] in E2', Hj |- *. rewrite E2'. cbn [mbind option_bind].
  exists out'. split; [|done]. by rewrite Hj.
Qed.
End base64url.

(** ** The decoders read the text back *)

(** A character that is neither the terminator nor a blank. *)
Definition text_char (c : Z) : bool := negb (c =? 0) && negb (is_blank c).

(** What a table of values says of an alphabet. *)
Record alphabet_ok (al : list Z) (char_value : Z -> option Z) : Prop := {
  ao_length : length al = 64%nat;
  ao_value d : 0 <= d < 64 -> char_value (ch al d) = Some d;
  ao_char d : 0 <= d < 64 -> text_char (ch al d) = true /\ ch al d <> 61;
}.

(** Checked digit by digit. *)
Lemma alphabet_check al char_value :
  length al = 64%nat ->
  forallb (fun d => match char_value (ch al d) with Some v => v =? d | None => false end
             && (text_char (ch al d) && negb (ch al d =? 61))) (seqZ 0 64) = true ->
  alphabet_ok al char_value.
Proof.
  intros Hl Hall. rewrite forallb_forall in Hall.
  assert (Hd : forall d, 0 <= d < 64 -> char_value (ch al d) = Some d /\ text_char (ch al d) = true /\ ch al d <> 61).
  { intros d Hd. specialize (Hall d). rewrite <-list_elem_of_In, elem_of_seqZ in Hall. specialize (Hall ltac:(lia)).
    apply andb_true_iff in Hall as [H1 H2]. apply andb_true_iff in H2 as [H2 H3].
    destruct (char_value (ch al d)) as [v|]; [|done]. apply Z.eqb_eq in H1 as ->.
    apply negb_true_iff, Z.eqb_neq in H3. done. }
  constructor; [done| |]; intros d Hr; destruct (Hd d Hr) as (? & ? & ?); done.
Qed.

Lemma base64_alphabet : alphabet_ok base64_chars base64_char_value.
Proof. apply alphabet_check; [done|vm_compute; reflexivity]. Qed.
Lemma base64url_alphabet : alphabet_ok base64url_chars base64url_char_value.
Proof. apply alphabet_check; [done|vm_compute; reflexivity]. Qed.

Lemma drop_get (l : list Z) i c rest :
  0 <= i -> drop (Z.to_nat i) l = c :: rest -> l.[i] = Some c /\ drop (Z.to_nat (i + 1)) l = rest.
Proof.
  intros Hi Hd. assert (l !! Z.to_nat i = Some c) as Hl.
  { rewrite <-(Nat.add_0_r (Z.to_nat i)), <-lookup_drop, Hd. done. }
  split; [by rewrite arr_get_lookup|].
  rewrite (drop_S _ _ _ Hl) in Hd. injection Hd as <-. f_equal. lia.
Qed.

(** Running one call whose result is known. *)
Ltac bind_rewrite E := rewrite E; cbn [mbind option_bind]; clear E.

Section decoding.
Context (al : list Z) (char_value : Z -> option Z) (Hao : alphabet_ok al char_value).

(** The next characters of the text and their values. *)
Lemma value_at (enc : list Z) i d rest :
  0 <= i -> 0 <= d < 64 -> drop (Z.to_nat i) enc = ch al d :: rest ->
  enc.[i] = Some (ch al d) /\ char_value (ch al d) = Some d /\ drop (Z.to_nat (i + 1)) enc = rest.
Proof.
  intros Hi Hd Hdrop. destruct (drop_get enc i _ _ Hi Hdrop) as [H1 H2]. split; [done|]. split; [|done].
  by apply (ao_value _ _ Hao).
Qed.

Lemma decode_groups_ok pad more enc l k :
  whole l k -> is_bytes l -> forall fuel i s rest r,
  (k < fuel)%nat -> 0 <= i -> drop (Z.to_nat i) enc = b64_text al pad l ++ rest ->
  (forall g, 0 <= g < Z.of_nat k -> more (i + g * 4) = true) -> more (i + Z.of_nat k * 4) = false ->
  room_for s (Z.of_nat k * 3 + r) -> 0 <= r ->
  exists s', decode_groups fuel char_value more enc i s = Some (inr (i + Z.of_nat k * 4, s')) /\
    written s s' l /\ room_for s' r.
Proof.
  intros Hw. revert l k Hw.
  refine (whole_ind (fun l k => is_bytes l -> forall fuel i s rest r, _) _ _).
  - intros _ [|fuel] i s rest r Hf Hi _ _ Hmore Hr Hr0; [lia|]. cbn [decode_groups].
    rewrite Z.mul_0_l, Z.add_0_r in Hmore. rewrite Hmore. exists s.
    split; [do 3 f_equal; lia|]. split; [apply written_nil|]. done.
  - intros x y z l k _ IH Hb [|fuel] i s rest r Hf Hi Hd Hmore Hend Hr Hr0; [lia|]. cbn [decode_groups].
    assert (more i = true) as -> by (rewrite <-(Hmore 0) by lia; f_equal; lia).
    apply Forall_cons in Hb as [Bx Hb]. apply Forall_cons in Hb as [By Hb]. apply Forall_cons in Hb as [Bz Hb].
    destruct (digit_range x y Bx By) as (D1 & D2 & _). destruct (digit_range y z By Bz) as (_ & _ & D3 & _).
    destruct (digit_range z z Bz Bz) as (_ & _ & _ & D4 & _).
    cbn [b64_text] in Hd. unfold quad in Hd. rewrite <-(assoc_L (++)) in Hd. cbn [app] in Hd.
    destruct (value_at enc i _ _ Hi D1 Hd) as (E1 & E2 & Hd1).
    bind_rewrite E1. bind_rewrite E2.
    destruct (value_at enc (i + 1) _ _ ltac:(lia) D2 Hd1) as (E1 & E2 & Hd2).
    bind_rewrite E1. bind_rewrite E2.
    replace (i + 1 + 1) with (i + 2) in Hd2 by lia.
    destruct (value_at enc (i + 2) _ _ ltac:(lia) D3 Hd2) as (E1 & E2 & Hd3).
    bind_rewrite E1. bind_rewrite E2.
    replace (i + 2 + 1) with (i + 3) in Hd3 by lia.
    destruct (value_at enc (i + 3) _ _ ltac:(lia) D4 Hd3) as (E1 & E2 & Hd4).
    bind_rewrite E1. bind_rewrite E2.
    replace (i + 3 + 1) with (i + 4) in Hd4 by lia.
    rewrite !(proj2 (Z.ltb_ge _ 0)) by lia. cbn [orb].
    pose proof (octets x y z Bx By Bz) as Ho. cbv zeta in Ho. destruct Ho as (-> & -> & ->).
    assert (room_for s (1 + (2 + (Z.of_nat k * 3 + r)))) as R0 by (destruct Hr; split; lia).
    put_step x s (2 + (Z.of_nat k * 3 + r)).
    assert (room_for s0 (1 + (1 + (Z.of_nat k * 3 + r)))) as R1 by (destruct R; split; lia).
    put_step y s0 (1 + (Z.of_nat k * 3 + r)). put_step z s1 (Z.of_nat k * 3 + r).
    destruct (IH Hb fuel (i + 4) s2 rest r) as (s' & E & W' & R'); [lia|lia|done| | |done|done|].
    + intros g Hg. replace (i + 4 + g * 4) with (i + (g + 1) * 4) by lia. apply Hmore. lia.
    + replace (i + 4 + Z.of_nat k * 4) with (i + Z.of_nat (S k) * 4) by lia. done.
    + exists s'. rewrite E. split; [do 3 f_equal; lia|]. split; [|done].
      change (x :: y :: z :: l) with ([x; y; z] ++ l).
      eapply written_trans; [apply R0|by eapply written_3; [apply R0|..]|done].
Qed.

Lemma text_chars pad l :
  is_bytes l -> Forall (fun c => text_char c = true) (b64_text al pad l).
Proof.
  intros Hb. assert (Hch : forall d, 0 <= d < 64 -> text_char (ch al d) = true)
    by (intros d Hd; by destruct (ao_char _ _ Hao d Hd)).
  destruct (groups_split l) as (Hw & E & Ht). set (k := (length l / 3)%nat) in *.
  rewrite E in Hb |- *. set (d3 := take (3 * k) l) in *. set (t := drop (3 * k) l) in *.
  rewrite (text_app _ _ _ _ _ Hw). apply Forall_app in Hb as [Hb3 Hbt]. clearbody d3 t. clearbody k. clear E.
  apply Forall_app. split.
  - clear Ht. revert d3 k Hw Hb3. apply (whole_ind (fun d3 k => is_bytes d3 -> _)); [by constructor|].
    intros x y z data k _ IH Hb. apply Forall_cons in Hb as [Bx Hb]. apply Forall_cons in Hb as [By Hb].
    apply Forall_cons in Hb as [Bz Hb]. cbn [b64_text]. apply Forall_app. split; [|by apply IH].
    destruct (digit_range x y Bx By) as (D1 & D2 & _). destruct (digit_range y z By Bz) as (_ & _ & D3 & _).
    destruct (digit_range z z Bz Bz) as (_ & _ & _ & D4 & _).
    unfold quad. repeat (apply Forall_cons; split; [by apply Hch|]). by apply Forall_nil.
  - destruct t as [|x [|y [|? ?]]]; cbn in Ht; [by apply Forall_nil| | |lia].
    + apply Forall_cons in Hbt as [Bx _]. destruct (digit_range x x Bx Bx) as (D1 & _ & _ & _ & D2 & _).
      cbn [b64_text app]. repeat (apply Forall_cons; split; [by apply Hch|]).
      destruct pad; [|by apply Forall_nil]. by repeat (apply Forall_cons; split; [done|]).
    + apply Forall_cons in Hbt as [Bx Hbt]. apply Forall_cons in Hbt as [By _].
      destruct (digit_range x y Bx By) as (D1 & D2 & _). destruct (digit_range y y By By) as (_ & _ & _ & _ & _ & D3).
      cbn [b64_text app]. repeat (apply Forall_cons; split; [by apply Hch|]).
      destruct pad; [|by apply Forall_nil]. by repeat (apply Forall_cons; split; [done|]).
Qed.
End decoding.

Lemma strlen_text text rest :
  Forall (fun c => text_char c = true) text -> strlen (text ++ 0 :: rest) = Some (zlen text).
Proof.
  intros Ht. apply strlen_app. eapply Forall_impl; [exact Ht|]. intros c Hc ->.
  by unfold text_char in Hc; cbn in Hc.
Qed.

Lemma get_app_text (text rest : list Z) i : 0 <= i < zlen text -> (text ++ rest).[i] = text.[i].
Proof. intros Hi. rewrite !arr_get_lookup by lia. apply lookup_app_l. unfold zlen in Hi. lia. Qed.

Lemma trim_text text rest :
  Forall (fun c => text_char c = true) text -> 0 < zlen text ->
  trim (groups_fuel (zlen text)) (text ++ rest) (zlen text) = Some (zlen text).
Proof.
  intros Ht Hl. unfold groups_fuel. cbn [trim]. rewrite (proj2 (Z.ltb_lt 0 _)) by lia.
  rewrite get_app_text by lia. destruct (arr_get_Some text (zlen text - 1)) as [c Hc]; [lia|]. rewrite Hc.
  cbn [mbind option_bind]. rewrite arr_get_lookup in Hc by lia. rewrite Forall_forall in Ht.
  specialize (Ht c ltac:(by eapply list_elem_of_lookup_2)). unfold text_char in Ht.
  apply andb_true_iff in Ht as [_ Ht]. apply negb_true_iff in Ht. by rewrite Ht.
Qed.

Lemma count_padding_at (enc : list Z) len a b :
  1 < len -> enc.[len - 1] = Some a -> enc.[len - 2] = Some b ->
  count_padding enc len = Some ((if a =? 61 then 1 else 0) + (if b =? 61 then 1 else 0)).
Proof.
  intros Hl Ha Hb. unfold count_padding. rewrite (proj2 (Z.ltb_lt 0 len)), (proj2 (Z.ltb_lt 1 len)) by lia.
  by rewrite Ha, Hb.
Qed.

(** The state after the groups of a text, for a decoder whose loop stops there. *)
Lemma decode_whole al char_value more enc l k out rest pad r fuel :
  alphabet_ok al char_value -> whole l k -> is_bytes l -> (k < fuel)%nat ->
  enc = b64_text al pad l ++ rest ->
  (forall g, 0 <= g < Z.of_nat k -> more (g * 4) = true) -> more (Z.of_nat k * 4) = false ->
  Z.of_nat k * 3 + r <= zlen out -> 0 <= r ->
  exists s', decode_groups fuel char_value more enc 0 (out, 0) = Some (inr (Z.of_nat k * 4, s')) /\
    written (out, 0) s' l /\ room_for s' r /\ drop (Z.to_nat (Z.of_nat k * 4)) enc = rest.
Proof.
  intros Hao Hw Hb Hf -> Hmore Hend Hroom Hr.
  destruct (decode_groups_ok al char_value Hao pad more (b64_text al pad l ++ rest) l k Hw Hb fuel 0 (out, 0) rest r)
    as (s' & E & Hw' & Hr'); [done|done|done|done|done|split; cbn [fst snd]; lia|done|].
  exists s'. split; [exact E|]. split; [done|]. split; [done|].
  apply drop_app_length'. rewrite (text_whole _ _ _ _ Hw). lia.
Qed.

(** A decoded buffer. *)
Lemma written_data out s data :
  written (out, 0) s data -> s.1 = data ++ drop (length data) out /\ s.2 = zlen data.
Proof.
  intros (_ & Hj & Ht & Hd). cbn [fst snd] in *. change (Z.to_nat 0) with 0%nat in Ht. rewrite take_0 in Ht.
  split; [|lia]. rewrite <-(take_drop (Z.to_nat s.2) s.1), Ht, Hd. cbn [app]. f_equal. f_equal.
  unfold zlen in Hj. lia.
Qed.

Lemma octet1 x y : byte x -> byte y -> u8 (Z.lor (Z.shiftl (x / 4) 2) (Z.shiftr (x mod 4 * 16 + y / 16) 4)) = x.
Proof. intros Hx Hy. apply (octets x y 0); [done|done|by unfold byte]. Qed.
Lemma octet1_last x : byte x -> u8 (Z.lor (Z.shiftl (x / 4) 2) (Z.shiftr (x mod 4 * 16) 4)) = x.
Proof.
  intros Hx. assert (byte 0) as H0 by (by unfold byte). pose proof (octet1 x 0 Hx H0) as E.
  change (0 / 16) with 0 in E. by rewrite Z.add_0_r in E.
Qed.
Lemma octet2_last x y : byte x -> byte y ->
  u8 (Z.lor (Z.shiftl (Z.land (x mod 4 * 16 + y / 16) 0xF) 4) (Z.shiftr (y mod 16 * 4) 2)) = y.
Proof.
  intros Hx Hy. pose proof (octets x y 0 Hx Hy) as Ho. cbv zeta in Ho.
  destruct Ho as (_ & E & _); [by unfold byte|]. change (0 / 64) with 0 in E. by rewrite Z.add_0_r in E.
Qed.

(** The cases of the last group, by its length. *)
Lemma text_cases al pad data :
  is_bytes data -> exists k d3 t, whole d3 k /\ is_bytes d3 /\ data = d3 ++ t /\
    b64_text al pad data = b64_text al pad d3 ++ b64_text al pad t /\
    (t = [] \/ (exists x, t = [x] /\ byte x) \/ (exists x y, t = [x; y] /\ byte x /\ byte y)).
Proof.
  intros Hb. destruct (groups_split data) as (Hw & E & Ht).
  exists (length data / 3)%nat, (take (3 * (length data / 3)) data), (drop (3 * (length data / 3)) data).
  split; [done|]. split; [by apply Forall_take|]. split; [done|].
  split; [rewrite <-(text_app _ _ _ _ _ Hw); by rewrite <-E|].
  assert (is_bytes (drop (3 * (length data / 3)) data)) as Hbt by (by apply Forall_drop).
  destruct (drop (3 * (length data / 3)) data) as [|x [|y [|? ?]]]; cbn in Ht; [by left| | |lia].
  - right. left. exists x. split; [done|]. by apply Forall_cons in Hbt as [? _].
  - right. right. exists x, y. split; [done|]. apply Forall_cons in Hbt as [? Hbt].
    by apply Forall_cons in Hbt as [? _].
Qed.

Lemma whole_zlen (d3 : list Z) k : whole d3 k -> zlen d3 = Z.of_nat k * 3.
Proof. unfold whole, zlen. lia. Qed.
Lemma text_zlen al pad d3 k : whole d3 k -> zlen (b64_text al pad d3) = Z.of_nat k * 4.
Proof. intros Hw. unfold zlen. rewrite (text_whole _ _ _ _ Hw). lia. Qed.

(** The characters of whole groups are digits. *)
Lemma text_digit al cv pad d3 k i c :
  alphabet_ok al cv -> whole d3 k -> is_bytes d3 -> (b64_text al pad d3).[i] = Some c -> c <> 61.
Proof.
  intros Hao Hw Hb Hc. pose proof (arr_get_range _ _ _ Hc) as Hr. rewrite arr_get_lookup in Hc by lia.
  assert (Forall (fun c => c <> 61) (b64_text al pad d3)) as Hall.
  { clear i c Hc Hr. assert (Hch : forall d, 0 <= d < 64 -> ch al d <> 61)
      by (intros d Hd; by destruct (ao_char _ _ Hao d Hd)).
    revert d3 k Hw Hb. apply (whole_ind (fun d3 k => is_bytes d3 -> _)); [intros _; by apply Forall_nil|].
    intros x y z data k _ IH Hb. apply Forall_cons in Hb as [Bx Hb]. apply Forall_cons in Hb as [By Hb].
    apply Forall_cons in Hb as [Bz Hb]. cbn [b64_text]. apply Forall_app. split; [|by apply IH].
    destruct (digit_range x y Bx By) as (D1 & D2 & _). destruct (digit_range y z By Bz) as (_ & _ & D3 & _).
    destruct (digit_range z z Bz Bz) as (_ & _ & _ & D4 & _).
    unfold quad. repeat (apply Forall_cons; split; [by apply Hch|]). by apply Forall_nil. }
  rewrite Forall_forall in Hall. apply Hall. by eapply list_elem_of_lookup_2.
Qed.

Section base64_decode.
Context (out : list Z) (output_size : Z) (rest : list Z).
#[local] Abbreviation text l := (b64_text base64_chars true l).
#[local] Abbreviation value_at64 := (value_at base64_chars base64_char_value base64_alphabet).

(** The three shapes of a padded text: the number of '=' and the decoding. *)
Lemma base64_padding d3 t k :
  whole d3 k -> is_bytes d3 -> 0 < Z.of_nat k + zlen t ->
  (t = [] \/ (exists x, t = [x] /\ byte x) \/ (exists x y, t = [x; y] /\ byte x /\ byte y)) ->
  count_padding (text d3 ++ text t ++ 0 :: rest) (zlen (text d3 ++ text t))
  = Some (match t with [] => 0 | [_] => 2 | _ => 1 end).
Proof.
  intros Hw Hb Hpos Ht. pose proof (text_zlen base64_chars true d3 k Hw) as Hz.
  assert (Hat : forall c r l, 0 <= r -> text t ++ 0 :: rest = l ++ c :: (drop (length l + 1) (text t ++ 0 :: rest)) ->
    zlen l = r -> (text d3 ++ text t ++ 0 :: rest).[zlen (text d3) + r] = Some c).
  { intros c r l Hr El <-. rewrite El, arr_get_lookup by (pose proof (zlen_nonneg (text d3)); lia).
    unfold zlen. rewrite lookup_app_r by lia.
    rewrite lookup_app_r by lia. by replace (_ - _ - _)%nat with 0%nat by lia. }
  destruct Ht as [->|[(x & -> & Bx)|(x & y & -> & Bx & By)]].
  - rewrite app_nil_r. change (text [] ++ 0 :: rest) with (0 :: rest). assert (0 < Z.of_nat k) by (unfold zlen in Hpos; cbn [length] in Hpos; lia).
    destruct (arr_get_Some (text d3) (zlen (text d3) - 1)) as [a Ha]; [lia|].
    destruct (arr_get_Some (text d3) (zlen (text d3) - 2)) as [b Hbb]; [lia|].
    rewrite (count_padding_at _ _ a b); [|lia|by rewrite get_app_text by lia|by rewrite get_app_text by lia].
    rewrite (proj2 (Z.eqb_neq a 61)), (proj2 (Z.eqb_neq b 61)); [done| |];
      by eapply text_digit; [apply base64_alphabet|..].
  - destruct (digit_range x x Bx Bx) as (D1 & _ & _ & _ & D2 & _).
    rewrite zlen_app. change (zlen (text [x])) with 4.
    rewrite (count_padding_at _ _ 61 61); [done|lia| |].
    + replace (zlen (text d3) + 4 - 1) with (zlen (text d3) + 3) by lia.
      by apply (Hat 61 3 [ch base64_chars (x / 4); ch base64_chars (x mod 4 * 16); 61]).
    + replace (zlen (text d3) + 4 - 2) with (zlen (text d3) + 2) by lia.
      by apply (Hat 61 2 [ch base64_chars (x / 4); ch base64_chars (x mod 4 * 16)]).
  - destruct (digit_range x y Bx By) as (D1 & D2 & _). destruct (digit_range y y By By) as (_ & _ & _ & _ & _ & D3).
    rewrite zlen_app. change (zlen (text [x; y])) with 4.
    rewrite (count_padding_at _ _ 61 (ch base64_chars (y mod 16 * 4))); [|lia| |].
    + rewrite (proj2 (Z.eqb_neq (ch base64_chars (y mod 16 * 4)) 61)); [done|]. by apply (ao_char _ _ base64_alphabet).
    + replace (zlen (text d3) + 4 - 1) with (zlen (text d3) + 3) by lia.
      by apply (Hat 61 3 [ch base64_chars (x / 4); ch base64_chars (x mod 4 * 16 + y / 16);
        ch base64_chars (y mod 16 * 4)]).
    + replace (zlen (text d3) + 4 - 2) with (zlen (text d3) + 2) by lia.
      by apply (Hat _ 2 [ch base64_chars (x / 4); ch base64_chars (x mod 4 * 16 + y / 16)]).
Qed.

Lemma base64_decode_ok data :
  is_bytes data -> zlen data < 2 ^ 60 -> output_size <= zlen out -> zlen data <= output_size ->
  vox_base64_decode (text data ++ 0 :: rest) out output_size
  = Some (s32 (zlen data), data ++ drop (length data) out).
Proof.
  intros Hb Hlen Ho Hs. destruct (text_cases base64_chars true data Hb) as (k & d3 & t & Hw & Hb3 & Ed & Et & Ht).
  pose proof (text_chars base64_chars base64_char_value base64_alphabet true data Hb) as Hch.
  unfold vox_base64_decode. rewrite strlen_text by done. cbn [mbind option_bind].
  pose proof (whole_zlen d3 k Hw) as Hz3. pose proof (text_zlen base64_chars true d3 k Hw) as Hzt.
  assert (zlen data = Z.of_nat k * 3 + zlen t) as Hzd by (rewrite Ed, zlen_app; lia).
  destruct (Z.eqb_spec (zlen (text data)) 0) as [E0|E0].
  { rewrite Et, zlen_app in E0. destruct Ht as [->|[(x & -> & _)|(x & y & -> & _)]];
      [|change (zlen (text [x])) with 4 in E0; lia|change (zlen (text [x; y])) with 4 in E0; lia].
    change (zlen (text [])) with 0 in E0. rewrite zlen_nil in Hzd.
    assert (data = []) as ->; [|done]. destruct data; [done|]. rewrite zlen_cons in *. pose proof (zlen_nonneg data). lia. }
  assert (0 < Z.of_nat k + zlen t) as Hpos.
  { rewrite Et, zlen_app, Hzt in E0. destruct Ht as [->|[(x & -> & _)|(x & y & -> & _)]].
    - change (zlen (text [])) with 0 in E0. unfold zlen; cbn [length]. lia.
    - unfold zlen; cbn [length]. lia.
    - unfold zlen; cbn [length]. lia. }
  pose proof (zlen_nonneg (text data)). rewrite trim_text by (done || lia). cbn [mbind option_bind].
  rewrite (proj2 (Z.eqb_neq _ 0)) by done. rewrite Et, <-(assoc_L (++)).
  rewrite (base64_padding d3 t k) by done.
  cbn [mbind option_bind].
  assert (zlen (text d3 ++ text t) = Z.of_nat k * 4 + (match t with [] => 0 | _ => 4 end)) as Hzlen.
  { rewrite zlen_app, Hzt. by destruct Ht as [->|[(x & -> & _)|(x & y & -> & _)]]. }
  rewrite Hzlen. set (enc := text d3 ++ text t ++ 0 :: rest). pose proof (zlen_nonneg data).
  set (len := Z.of_nat k * 4 + _).
  assert (Z.of_nat k * 4 <= len) as Hlen4 by (unfold len; destruct t; lia).
  assert (exists s', decode_groups (groups_fuel len) base64_char_value
      (fun i => i + 4 <=? len - (match t with [] => 0 | [_] => 2 | _ => 1 end)) enc 0 (out, 0)
      = Some (inr (Z.of_nat k * 4, s')) /\ written (out, 0) s' d3 /\ room_for s' (zlen t) /\
    drop (Z.to_nat (Z.of_nat k * 4)) enc = text t ++ 0 :: rest) as (s' & E & Hw' & Hr' & Hdrop).
  { eapply (decode_whole base64_chars base64_char_value _ enc d3 k out (text t ++ 0 :: rest) true);
      [apply base64_alphabet|done|done|unfold groups_fuel; lia|done| | |lia|apply zlen_nonneg].
    - intros g Hg. apply Z.leb_le. unfold len.
      destruct Ht as [->|[(x & -> & _)|(x & y & -> & _)]]; cbv iota; lia.
    - apply Z.leb_gt. unfold len. destruct Ht as [->|[(x & -> & _)|(x & y & -> & _)]]; cbv iota; lia. }
  rewrite !u64_small by (unfold len; destruct Ht as [->|[(x & -> & _)|(x & y & -> & _)]];
    unfold zlen in Hzd at 2; cbn [length] in Hzd; cbv iota; rewrite ?u64_small by lia; dlia).
  rewrite (proj2 (Z.ltb_ge output_size _)) by (unfold len;
    destruct Ht as [->|[(x & -> & _)|(x & y & -> & _)]]; unfold zlen in Hzd at 2; cbn [length] in Hzd; cbv iota; dlia).
  rewrite E. cbn [mbind option_bind]. destruct s' as [o j]. unfold len.
  assert (0 <= Z.of_nat k * 4 /\ 0 <= Z.of_nat k * 4 + 1 /\ 0 <= Z.of_nat k * 4 + 2) as (Hk0 & Hk1 & Hk2) by lia.
  destruct Ht as [->|[(x & -> & Bx)|(x & y & -> & Bx & By)]].
  - rewrite (proj2 (Z.ltb_ge 0 0)) by lia. cbn [andb].
    rewrite (proj2 (Z.ltb_ge (Z.of_nat k * 4) _)) by lia.
    destruct (written_data out (o, j) data) as [E1 E2]; [by rewrite Ed, app_nil_r|]. cbn [fst snd] in E1, E2.
    by rewrite E1, E2.
  - destruct (digit_range x x Bx Bx) as (D1 & _ & _ & _ & D2 & _). cbn [b64_text app] in Hdrop. cbv iota.
    rewrite (proj2 (Z.ltb_lt 0 2)), (proj2 (Z.ltb_lt (Z.of_nat k * 4) _)) by lia. cbn [andb].
    destruct (value_at64 enc _ _ _ Hk0 D1 Hdrop) as (F1 & F2 & Hdrop1). bind_rewrite F1. bind_rewrite F2.
    rewrite (proj2 (Z.ltb_lt (Z.of_nat k * 4 + 1) _)) by lia.
    destruct (value_at64 enc _ _ _ Hk1 D2 Hdrop1) as (F1 & F2 & _). bind_rewrite F1. bind_rewrite F2.
    rewrite !(proj2 (Z.ltb_ge _ 0)) by lia. cbn [orb]. rewrite octet1_last by done.
    change (zlen [x]) with (1 + 0) in Hr'. put_step x (o, j) 0.
    destruct s as [o' j']. destruct (written_data out (o', j') data) as [E1 E2].
    { rewrite Ed. eapply written_trans; [cbn; lia|exact Hw'|exact W]. }
    cbn [fst snd] in E1, E2. change (2 =? 1) with false. cbn [andb]. by rewrite E1, E2.
  - destruct (digit_range x y Bx By) as (D1 & D2 & _). destruct (digit_range y y By By) as (_ & _ & _ & _ & _ & D3).
    cbn [b64_text app] in Hdrop. cbv iota.
    rewrite (proj2 (Z.ltb_lt 0 1)), (proj2 (Z.ltb_lt (Z.of_nat k * 4) _)) by lia. cbn [andb].
    destruct (value_at64 enc _ _ _ Hk0 D1 Hdrop) as (F1 & F2 & Hdrop1). bind_rewrite F1. bind_rewrite F2.
    rewrite (proj2 (Z.ltb_lt (Z.of_nat k * 4 + 1) _)) by lia.
    destruct (value_at64 enc _ _ _ Hk1 D2 Hdrop1) as (F1 & F2 & Hdrop2). bind_rewrite F1. bind_rewrite F2.
    rewrite !(proj2 (Z.ltb_ge _ 0)) by lia. cbn [orb]. rewrite octet1 by done.
    change (zlen [x; y]) with (1 + 1) in Hr'. put_step x (o, j) 1. destruct s as [o1 j1].
    rewrite (proj2 (Z.ltb_lt (Z.of_nat k * 4 + 2) _)) by lia. change (1 =? 1) with true. cbn [andb].
    replace (Z.of_nat k * 4 + 1 + 1) with (Z.of_nat k * 4 + 2) in Hdrop2 by lia.
    destruct (value_at64 enc _ _ _ Hk2 D3 Hdrop2) as (F1 & F2 & _). bind_rewrite F1. bind_rewrite F2.
    rewrite (proj2 (Z.ltb_ge _ 0)) by lia. rewrite octet2_last by done. put_step y (o1, j1) 0.
    destruct s as [o' j']. destruct (written_data out (o', j') data) as [E1 E2].
    { rewrite Ed. eapply written_trans; [cbn; lia|exact Hw'|].
      eapply written_2; [apply Hr'|exact W|exact W0]. }
    cbn [fst snd] in E1, E2. by rewrite E1, E2.
Qed.
End base64_decode.

Section base64url_decode.
Context (out : list Z) (output_size : Z) (rest : list Z).
#[local] Abbreviation text l := (b64_text base64url_chars false l).
#[local] Abbreviation value_at64 := (value_at base64url_chars base64url_char_value base64url_alphabet).

(** None of the characters is a '='. *)
Lemma url_no_padding data : is_bytes data -> Forall (fun c => c <> 61) (text data).
Proof.
  intros Hb. destruct (text_cases base64url_chars false data Hb) as (k & d3 & t & Hw & Hb3 & _ & -> & Ht).
  assert (Hch : forall d, 0 <= d < 64 -> ch base64url_chars d <> 61)
    by (intros d Hd; by destruct (ao_char _ _ base64url_alphabet d Hd)).
  apply Forall_app. split.
  - apply Forall_lookup. intros i c Hc.
    apply (text_digit base64url_chars base64url_char_value false d3 k (Z.of_nat i)); try done;
      [apply base64url_alphabet|]. by rewrite arr_get_lookup, Nat2Z.id by lia.
  - destruct Ht as [->|[(x & -> & Bx)|(x & y & -> & Bx & By)]]; [by apply Forall_nil| |].
    + destruct (digit_range x x Bx Bx) as (D1 & _ & _ & _ & D2 & _). cbn [b64_text app].
      repeat (apply Forall_cons; split; [by apply Hch|]). by apply Forall_nil.
    + destruct (digit_range x y Bx By) as (D1 & D2 & _). destruct (digit_range y y By By) as (_ & _ & _ & _ & _ & D3).
      cbn [b64_text app]. repeat (apply Forall_cons; split; [by apply Hch|]). by apply Forall_nil.
Qed.

Lemma url_padding data :
  is_bytes data -> 1 < zlen (text data) -> count_padding (text data ++ 0 :: rest) (zlen (text data)) = Some 0.
Proof.
  intros Hb Hl. pose proof (url_no_padding data Hb) as Hno. rewrite Forall_forall in Hno.
  assert (forall i, 0 <= i < zlen (text data) -> exists c, (text data ++ 0 :: rest).[i] = Some c /\ c <> 61) as Hget.
  { intros i Hi. rewrite get_app_text by done. destruct (arr_get_Some _ _ Hi) as [c Hc]. exists c.
    split; [done|]. apply Hno. rewrite arr_get_lookup in Hc by lia. by eapply list_elem_of_lookup_2. }
  destruct (Hget (zlen (text data) - 1)) as (a & Ha & Na); [lia|].
  destruct (Hget (zlen (text data) - 2)) as (b & Hbb & Nb); [lia|].
  rewrite (count_padding_at _ _ a b) by done.
  by rewrite (proj2 (Z.eqb_neq a 61)), (proj2 (Z.eqb_neq b 61)).
Qed.

(** What the decoder asks for: up to two bytes more than it writes. *)
Lemma url_output_len_ok k t :
  0 <= Z.of_nat k < 2 ^ 60 -> (t = 0 \/ t = 1 \/ t = 2) ->
  url_output_len (Z.of_nat k * 4 + (if t =? 0 then 0 else t + 1)) 0 = Some (Z.of_nat k * 3 + t * 2).
Proof.
  intros Hk Ht. unfold url_output_len. cbn [Z.eqb].
  destruct Ht as [->|[->| ->]]; cbn [Z.eqb]; change (1 + 1) with 2; change (2 + 1) with 3.
  - rewrite u64_small by lia. replace ((Z.of_nat k * 4 + 0) mod 4) with 0 by dlia. cbn. f_equal. dlia.
  - rewrite u64_small by lia. replace ((Z.of_nat k * 4 + 2) mod 4) with 2 by dlia. cbn. f_equal. dlia.
  - rewrite u64_small by lia. replace ((Z.of_nat k * 4 + 3) mod 4) with 3 by dlia. cbn. f_equal. dlia.
Qed.

Lemma url_decode_ok data :
  is_bytes data -> zlen data < 2 ^ 60 -> output_size <= zlen out -> zlen data + 2 <= output_size ->
  vox_base64url_decode (text data ++ 0 :: rest) out output_size
  = Some (s32 (zlen data), data ++ drop (length data) out).
Proof.
  intros Hb Hlen Ho Hs. destruct (text_cases base64url_chars false data Hb) as (k & d3 & t & Hw & Hb3 & Ed & Et & Ht).
  pose proof (text_chars base64url_chars base64url_char_value base64url_alphabet false data Hb) as Hch.
  unfold vox_base64url_decode. rewrite strlen_text by done. cbn [mbind option_bind].
  pose proof (whole_zlen d3 k Hw) as Hz3. pose proof (text_zlen base64url_chars false d3 k Hw) as Hzt.
  assert (zlen data = Z.of_nat k * 3 + zlen t) as Hzd by (rewrite Ed, zlen_app; lia).
  assert (zlen t = 0 \/ zlen t = 1 \/ zlen t = 2) as Htl
    by (destruct Ht as [->|[(x & -> & _)|(x & y & -> & _)]]; unfold zlen; cbn [length]; lia).
  assert (zlen (text data) = Z.of_nat k * 4 + (if zlen t =? 0 then 0 else zlen t + 1)) as Hzlen.
  { rewrite Et, zlen_app, Hzt. by destruct Ht as [->|[(x & -> & _)|(x & y & -> & _)]]. }
  destruct (Z.eqb_spec (zlen (text data)) 0) as [E0|E0].
  { rewrite Hzlen in E0. assert (data = []) as ->; [|done].
    destruct data; [done|]. rewrite zlen_cons in Hzd. pose proof (zlen_nonneg data).
    destruct (Z.eqb_spec (zlen t) 0); lia. }
  rewrite url_padding by (try done; destruct (Z.eqb_spec (zlen t) 0); lia). cbn [mbind option_bind].
  rewrite Hzlen, url_output_len_ok by lia. rewrite (proj2 (Z.ltb_ge output_size _)) by lia.
  rewrite Et, <-(assoc_L (++)). set (enc := text d3 ++ text t ++ 0 :: rest).
  set (len := Z.of_nat k * 4 + _).
  assert (Z.of_nat k * 4 <= len < Z.of_nat k * 4 + 4) as Hlen4
    by (unfold len; destruct (Z.eqb_spec (zlen t) 0); lia).
  assert ((if negb ((len - 0) mod 4 =? 0) then (len - 0) / 4 * 4 else len - 0) = Z.of_nat k * 4) as ->
    by (destruct (Z.eqb_spec ((len - 0) mod 4) 0); cbn [negb]; dlia).
  destruct (decode_whole base64url_chars base64url_char_value (fun i => i <? Z.of_nat k * 4) enc d3 k out
    (text t ++ 0 :: rest) false (zlen t) (groups_fuel len)) as (s' & E & Hw' & Hr' & Hdrop);
    [apply base64url_alphabet|done|done|unfold groups_fuel; lia|done
    |intros g Hg; apply Z.ltb_lt; lia|apply Z.ltb_ge; lia|lia|apply zlen_nonneg|].
  rewrite E. cbn [mbind option_bind]. destruct s' as [o j]. unfold len. clear Hzlen Hlen4 len E Htl.
  assert (0 <= Z.of_nat k * 4 /\ 0 <= Z.of_nat k * 4 + 1 /\ 0 <= Z.of_nat k * 4 + 2) as (Hk0 & Hk1 & Hk2) by lia.
  destruct Ht as [->|[(x & -> & Bx)|(x & y & -> & Bx & By)]].
  - change (zlen (A := Z) [] =? 0) with true. cbv iota. rewrite (proj2 (Z.ltb_ge (Z.of_nat k * 4) _)) by lia.
    cbn [andb]. destruct (written_data out (o, j) data) as [E1 E2]; [by rewrite Ed, app_nil_r|].
    cbn [fst snd] in E1, E2. by rewrite E1, E2.
  - destruct (digit_range x x Bx Bx) as (D1 & _ & _ & _ & D2 & _). cbn [b64_text app] in Hdrop.
    change (zlen [x]) with 1. change (1 =? 0) with false. cbv iota.
    rewrite !(proj2 (Z.ltb_lt (Z.of_nat k * 4) _)) by lia. cbn [andb].
    destruct (value_at64 enc _ _ _ Hk0 D1 Hdrop) as (F1 & F2 & Hdrop1). bind_rewrite F1. bind_rewrite F2.
    rewrite (proj2 (Z.ltb_ge _ 0)), !(proj2 (Z.leb_gt _ (Z.of_nat k * 4 + 1))) by lia. cbn [orb].
    destruct (value_at64 enc _ _ _ Hk1 D2 Hdrop1) as (F1 & F2 & _). bind_rewrite F1. bind_rewrite F2.
    rewrite !(proj2 (Z.ltb_ge _ 0)) by lia. rewrite octet1_last by done.
    change (zlen [x]) with (1 + 0) in Hr'. put_step x (o, j) 0.
    destruct s as [o' j']. destruct (written_data out (o', j') data) as [E1 E2].
    { rewrite Ed. eapply written_trans; [cbn; lia|exact Hw'|exact W]. }
    rewrite (proj2 (Z.ltb_ge (Z.of_nat k * 4 + 2) _)) by lia. cbn [andb].
    cbn [fst snd] in E1, E2. by rewrite E1, E2.
  - destruct (digit_range x y Bx By) as (D1 & D2 & _). destruct (digit_range y y By By) as (_ & _ & _ & _ & _ & D3).
    cbn [b64_text app] in Hdrop. change (zlen [x; y]) with 2. change (2 =? 0) with false. cbv iota.
    rewrite !(proj2 (Z.ltb_lt (Z.of_nat k * 4) _)) by lia. cbn [andb].
    destruct (value_at64 enc _ _ _ Hk0 D1 Hdrop) as (F1 & F2 & Hdrop1). bind_rewrite F1. bind_rewrite F2.
    rewrite (proj2 (Z.ltb_ge _ 0)), !(proj2 (Z.leb_gt _ (Z.of_nat k * 4 + 1))) by lia. cbn [orb].
    destruct (value_at64 enc _ _ _ Hk1 D2 Hdrop1) as (F1 & F2 & Hdrop2). bind_rewrite F1. bind_rewrite F2.
    rewrite !(proj2 (Z.ltb_ge _ 0)) by lia. rewrite octet1 by done.
    change (zlen [x; y]) with (1 + 1) in Hr'. put_step x (o, j) 1. destruct s as [o1 j1].
    rewrite !(proj2 (Z.ltb_lt (Z.of_nat k * 4 + 2) _)) by lia. cbn [andb].
    replace (Z.of_nat k * 4 + 1 + 1) with (Z.of_nat k * 4 + 2) in Hdrop2 by lia.
    destruct (value_at64 enc _ _ _ Hk2 D3 Hdrop2) as (F1 & F2 & _). bind_rewrite F1. bind_rewrite F2.
    rewrite (proj2 (Z.ltb_ge _ 0)) by lia. rewrite octet2_last by done. put_step y (o1, j1) 0.
    destruct s as [o' j']. destruct (written_data out (o', j') data) as [E1 E2].
    { rewrite Ed. eapply written_trans; [cbn; lia|exact Hw'|].
      eapply written_2; [apply Hr'|exact W|exact W0]. }
    cbn [fst snd] in E1, E2. by rewrite E1, E2.
Qed.
End base64url_decode.

(** C19: The standard encoder writes the padded text of any bytes and a terminator, in a
    buffer of the size it asks for and nothing past them, and refuses a smaller one
    without writing; the decoder, given that text and a buffer of the size of the data
    or more, writes the data back and nothing else. *)
Theorem base64_roundtrip data out buf output_size buf_size :
  is_bytes data -> zlen data < 2 ^ 60 -> output_size <= zlen out -> 0 <= output_size ->
  zlen data <= buf_size <= zlen buf ->
  if decide (encoded_size (zlen data) + 1 <= output_size) then
    exists out', vox_base64_encode data out output_size = Some (s32 (encoded_size (zlen data)), out') /\
      text_in out out' (b64_text base64_chars true data) /\
      zlen (b64_text base64_chars true data) = encoded_size (zlen data) /\
      vox_base64_decode out' buf buf_size = Some (s32 (zlen data), data ++ drop (length data) buf)
  else vox_base64_encode data out output_size = Some (-1, out).
Proof.
  intros Hb Hl Ho Ho0 Hbuf. case_decide as Hs.
  - destruct (base64_encode_ok data out Hb ltac:(lia) output_size Ho Hs) as (out' & E & Ht).
    exists out'. split; [done|]. split; [done|]. split; [apply text_size_pad|].
    rewrite Ht. apply base64_decode_ok; lia || done.
  - pose proof (zlen_nonneg data). destruct (encoded_size_wrap (zlen data)) as (E1 & E2 & _); [lia|].
    unfold vox_base64_encode. rewrite E1, E2, (proj2 (Z.ltb_lt output_size _)) by lia. done.
Qed.

(** The same for the URL-safe alphabet without padding, except that the decoder asks
    for a buffer of two bytes more than the data. *)
Theorem base64url_roundtrip data out buf output_size buf_size :
  is_bytes data -> zlen data < 2 ^ 60 -> output_size <= zlen out ->
  encoded_size (zlen data) + 1 <= output_size -> zlen data + 2 <= buf_size <= zlen buf ->
  exists out' n, vox_base64url_encode data out output_size = Some (s32 n, out') /\
    text_in out out' (b64_text base64url_chars false data) /\
    n = zlen (b64_text base64url_chars false data) /\ n <= encoded_size (zlen data) /\
    vox_base64url_decode out' buf buf_size = Some (s32 (zlen data), data ++ drop (length data) buf).
Proof.
  intros Hb Hl Ho Hs Hbuf.
  destruct (url_encode_ok data out Hb ltac:(lia) output_size Ho Hs) as (out' & E & Ht).
  exists out', (zlen (b64_text base64url_chars false data)). split; [done|]. split; [done|]. split; [done|].
  split; [apply text_size_le|]. rewrite Ht. apply url_decode_ok; lia || done.
Qed.

Lemma base64_roundtrip_witness :
  exists out', vox_base64_encode [77; 97] (replicate 5 0) 5 = Some (4, out') /\
    vox_base64_decode out' [1; 2; 3] 2 = Some (2, [77; 97; 3]).
Proof.
  destruct (base64_roundtrip [77; 97] (replicate 5 0) [1; 2; 3] 5 2) as (out' & E & _ & _ & E').
  - apply Forall_cons. split; [lia|]. apply Forall_singleton. lia.
  - reflexivity.
  - discriminate.
  - discriminate.
  - split; discriminate.
  - exists out'. split; [exact E|exact E'].
Defined.

Lemma base64url_roundtrip_witness :
  exists out', vox_base64url_encode [77; 97] (replicate 5 0) 5 = Some (3, out') /\
    vox_base64url_decode out' [1; 2; 3; 4] 4 = Some (2, [77; 97; 3; 4]).
Proof.
  destruct (base64url_roundtrip [77; 97] (replicate 5 0) [1; 2; 3; 4] 5 4) as (out' & n & E & _ & En & _ & E').
  - apply Forall_cons. split; [lia|]. apply Forall_singleton. lia.
  - reflexivity.
  - discriminate.
  - discriminate.
  - split; discriminate.
  - exists out'. subst n. split; [exact E|exact E'].
Defined.

(** A text whose length is not a multiple of four: "AAAA=" passes the size check for two
    bytes, and three are written before it is refused. *)
Lemma base64_decode_overflow :
  vox_base64_decode [65; 65; 65; 65; 61; 0] [0; 0] 2 = None /\
  vox_base64_decode [65; 65; 65; 65; 61; 0] [1; 2; 7] 2 = Some (-1, [0; 0; 0]).
Proof. split; vm_compute; reflexivity. Qed.

(** A buffer of exactly the size of the data is refused. *)
Lemma base64url_decode_exact_refused :
  vox_base64url_decode [84; 87; 69; 0] [1; 2] 2 = Some (-1, [1; 2]) /\
  vox_base64url_decode [84; 87; 69; 0] [1; 2; 3; 4] 4 = Some (2, [77; 97; 3; 4]).
Proof. split; vm_compute; reflexivity. Qed.

Lemma base64_bad_char : vox_base64_decode [65; 65; 42; 65; 0] [0; 0; 0] 3 = Some (-1, [0; 0; 0]).
Proof. vm_compute. reflexivity. Qed.
End Encode.
