(* ===== verification/WebSocket.v ===== *)
(** * vox_websocket.c: WebSocket frames

    Building, masking and parsing frames, close frames and the UTF-8 check of
    src/websocket/vox_websocket.c. The parser's buffer is a string of VString.v; a
    payload pointer is an index into it. *)

From S2P Require Import Prelude Alloc CString VString.

Module WebSocket.
Import CString VString.

Definition sizeof_ws_parser : Z := 40.

(** The opcodes. *)
Definition VOX_WS_OP_CONTINUATION : Z := 0.
Definition VOX_WS_OP_TEXT : Z := 1.
Definition VOX_WS_OP_BINARY : Z := 2.
Definition VOX_WS_OP_CLOSE : Z := 8.
Definition VOX_WS_OP_PING : Z := 9.
Definition VOX_WS_OP_PONG : Z := 10.
Definition VOX_WS_CLOSE_NORMAL : Z := 1000.

(** src/websocket/vox_websocket.h:44-51: vox_ws_frame_t *)
Record vox_ws_frame := {
  fin : bool;
  opcode : Z;
  masked : bool;
  payload_len : Z;
  mask_key : list Z;
  payload : Z;
}.

(** The fields [fragment_type] and [in_fragment] are never read by this file.

    src/websocket/vox_websocket.h:60-66: vox_ws_parser_t *)
Record vox_ws_parser := {
  parser_at : Z;
  buffer : vox_string;
  fragment : vox_string;
  in_fragment : bool;
}.

Definition with_buffer (w : vox_ws_parser) (b : vox_string) : vox_ws_parser :=
  {| parser_at := parser_at w; buffer := b; fragment := fragment w; in_fragment := in_fragment w |}.

Definition with_payload_len (f : vox_ws_frame) (n : Z) : vox_ws_frame :=
  {| fin := fin f; opcode := opcode f; masked := masked f; payload_len := n;
     mask_key := mask_key f; payload := payload f |}.
Definition with_mask_key (f : vox_ws_frame) (k : list Z) : vox_ws_frame :=
  {| fin := fin f; opcode := opcode f; masked := masked f; payload_len := payload_len f;
     mask_key := k; payload := payload f |}.
Definition with_payload (f : vox_ws_frame) (i : Z) : vox_ws_frame :=
  {| fin := fin f; opcode := opcode f; masked := masked f; payload_len := payload_len f;
     mask_key := mask_key f; payload := i |}.

(** ** Parsing *)

(** The extended length: [None] when bytes are missing, else the length and the size
    of the header so far. *)
Definition extended_length (buf : list Z) (buf_len len7 : Z) : option (option (Z * Z)) :=
  if len7 =? 126 then
    if buf_len <? 4 then Some None else
    b2 ← buf.[2]; b3 ← buf.[3];
    Some (Some (Z.lor (Z.shiftl b2 8) b3, 4))
  else if len7 =? 127 then
    if buf_len <? 10 then Some None else
    b2 ← buf.[2]; b3 ← buf.[3]; b4 ← buf.[4]; b5 ← buf.[5];
    b6 ← buf.[6]; b7 ← buf.[7]; b8 ← buf.[8]; b9 ← buf.[9];
    Some (Some (Z.lor (Z.lor (Z.lor (Z.lor (Z.lor (Z.lor (Z.lor (Z.shiftl b2 56)
      (Z.shiftl b3 48)) (Z.shiftl b4 40)) (Z.shiftl b5 32)) (Z.shiftl b6 24)) (Z.shiftl b7 16))
      (Z.shiftl b8 8)) b9, 10))
  else Some (Some (len7, 2)).

(** The parse of the first [buf_len] cells of a block; the frame is what the caller's
    struct holds afterwards.

    src/websocket/vox_websocket.c:68-124: vox_ws_parser_parse_frame *)
Definition parse_cells (buf : list Z) (buf_len : Z) (frame : vox_ws_frame) : option (vox_ws_frame * Z) :=
  if buf_len <? 2 then Some (frame, 0) else
  byte0 ← buf.[0];
  byte1 ← buf.[1];
  let frame := {| fin := negb (Z.land byte0 0x80 =? 0); opcode := Z.land byte0 0x0F;
                  masked := negb (Z.land byte1 0x80 =? 0); payload_len := payload_len frame;
                  mask_key := mask_key frame; payload := payload frame |} in
  ext ← extended_length buf buf_len (Z.land byte1 0x7F);
  match ext with
  | None => Some (frame, 0)
  | Some (len, header_len) =>
      let frame := with_payload_len frame len in
      if masked frame && (buf_len <? header_len + 4) then Some (frame, 0) else
      key ← (if masked frame then arr_slice buf header_len 4 else Some (mask_key frame));
      let frame := with_mask_key frame key in
      let header_len := if masked frame then header_len + 4 else header_len in
      if buf_len <? u64 (header_len + len) then Some (frame, 0) else
      let frame := with_payload frame header_len in
      if negb (Z.land (opcode frame) 0x08 =? 0) && (negb (fin frame) || (125 <? len)) then Some (frame, -1)
      else Some (frame, s32 (u64 (header_len + len)))
  end.

(** src/websocket/vox_websocket.c: vox_ws_parser_parse_frame *)
Definition vox_ws_parser_parse_frame (w : vox_ws_parser) (frame : vox_ws_frame)
  : option (vox_ws_frame * Z) :=
  parse_cells (vox_string_data (buffer w)) (vox_string_length (buffer w)) frame.

(** [payload] starts at index [off] of [cells].

    src/websocket/vox_websocket.c: vox_ws_mask_payload *)
Definition vox_ws_mask_payload (cells : list Z) (off len : Z) (mask_key : list Z) : option (list Z) :=
  for_ (Z.to_nat len) 0
    (fun i cells => c ← arr_get cells (off + i); k ← mask_key.[Z.land i 3];
                    cells.[off + i <- Z.lxor c k]) cells.

(** Well-formed lead byte: the size of the character; [None]: [return false]. *)
Definition char_len (byte : Z) : option Z :=
  if Z.land byte 0x80 =? 0 then Some 1
  else if Z.land byte 0xE0 =? 0xC0 then Some 2
  else if Z.land byte 0xF0 =? 0xE0 then Some 3
  else if Z.land byte 0xF8 =? 0xF0 then Some 4
  else None.

(** The loop over the continuation bytes [data[i + j]], [j] from the given one, [n]
    of them. *)
Fixpoint continuation (data : list Z) (i j : Z) (n : nat) : option bool :=
  match n with
  | O => Some true
  | S n => c ← data.[i + j];
           if Z.land c 0xC0 =? 0x80 then continuation data i (j + 1) n else Some false
  end.

(** The [while] loop; each round moves [i] forward. *)
Fixpoint utf8_loop (fuel : nat) (data : list Z) (len i : Z) : option bool :=
  if negb (i <? len) then Some true else
  match fuel with
  | O => None
  | S fuel =>
      byte ← data.[i];
      match char_len byte with
      | None => Some false
      | Some n =>
          if len <? u64 (i + n) then Some false else
          ok ← continuation data i 1 (Z.to_nat (n - 1));
          if (ok : bool) then utf8_loop fuel data len (u64 (i + n)) else Some false
      end
  end.

(** src/websocket/vox_websocket.c: vox_ws_validate_utf8 *)
Definition vox_ws_validate_utf8 (data : option (list Z)) (len : Z) : option bool :=
  match data with
  | None => if 0 <? len then Some false else Some true
  | Some data => utf8_loop (Z.to_nat len) data len 0
  end.

(** src/websocket/vox_websocket.c: vox_ws_is_valid_close_code *)
Definition vox_ws_is_valid_close_code (code : Z) : bool :=
  if (code <? 1000) || (4999 <? code) then false
  else if (code =? 1004) || (code =? 1005) || (code =? 1006) || (code =? 1015) then false
  else true.

(** ** The parser object and the builders *)

Section operations.
Context {P : Type} `{MPool P}.
Context (junk : Z).
Implicit Types (p : P) (w : vox_ws_parser).

(** src/websocket/vox_websocket.c: vox_ws_parser_create *)
Definition vox_ws_parser_create p : option (P * option vox_ws_parser) :=
  let '(p, at_) := mp_alloc p sizeof_ws_parser in
  if at_ =? NULL then Some (p, None) else
  '(p, b) ← vox_string_create junk p;
  '(p, f) ← vox_string_create junk p;
  match b, f with
  | Some b, Some f => Some (p, Some {| parser_at := at_; buffer := b; fragment := f; in_fragment := false |})
  | _, _ =>
      let p := match b with Some b => vox_string_destroy p b | None => p end in
      let p := match f with Some f => vox_string_destroy p f | None => p end in
      Some (mp_free p at_, None)
  end.

(** src/websocket/vox_websocket.c: vox_ws_parser_destroy *)
Definition vox_ws_parser_destroy p w : P :=
  vox_string_destroy (vox_string_destroy p (buffer w)) (fragment w).

(** src/websocket/vox_websocket.c: vox_ws_parser_reset *)
Definition vox_ws_parser_reset w : option vox_ws_parser :=
  b ← vox_string_clear (buffer w);
  f ← vox_string_clear (fragment w);
  Some {| parser_at := parser_at w; buffer := b; fragment := f; in_fragment := false |}.

(** src/websocket/vox_websocket.c: vox_ws_parser_feed *)
Definition vox_ws_parser_feed p w (data : ptr) (len : Z) : option (P * vox_ws_parser * Z) :=
  if is_null data || (len =? 0) then Some (p, w, -1) else
  '(p, b, rc) ← vox_string_append_data junk p (buffer w) data len;
  Some (p, with_buffer w b, rc).

(** The eight assignments of the 64-bit length, most significant byte first. *)
Definition write_len64 (frame : list Z) (len64 : Z) : option (list Z) :=
  for_ 8 0 (fun i frame => frame.[2 + i <- u8 (Z.land (Z.shiftr len64 (56 - 8 * i)) 0xFF)]) frame.

(** [key] is what [vox_ws_generate_mask_key] leaves in the key. The result is the
    address, the bytes of the frame and the value returned.

    src/websocket/vox_websocket.c: vox_ws_build_frame *)
Definition vox_ws_build_frame p (opcode : Z) (data : option (list Z)) (len : Z) (mask : bool)
  (key : list Z) : option (P * option (Z * list Z) * Z) :=
  if (0 <? len) && match data with None => true | _ => false end then Some (p, None, -1) else
  let header_len := 2 + (if 125 <? len then (if len <=? 0xFFFF then 2 else 8) else 0) in
  let header_len := if mask then header_len + 4 else header_len in
  let total_len := u64 (header_len + len) in
  let '(p, at_, frame) := alloc_cells junk p total_len 1 in
  if at_ =? NULL then Some (p, None, -1) else
  frame ← frame.[0 <- Z.lor 0x80 (Z.land opcode 0x0F)];
  '(frame, pos) ←
    (if len <=? 125 then frame ← frame.[1 <- u8 len]; Some (frame, 2)
     else if len <=? 0xFFFF then
       frame ← frame.[1 <- 126];
       frame ← frame.[2 <- u8 (Z.land (Z.shiftr len 8) 0xFF)];
       frame ← frame.[3 <- u8 (Z.land len 0xFF)];
       Some (frame, 4)
     else
       frame ← frame.[1 <- 127];
       frame ← write_len64 frame len;
       Some (frame, 10));
  '(frame, pos) ←
    (if mask then
       b1 ← arr_get frame 1;
       frame ← frame.[1 <- Z.lor b1 0x80];
       frame ← arr_blit frame pos key 0 4;
       Some (frame, pos + 4)
     else Some (frame, pos));
  frame ←
    (if 0 <? len then
       frame ← arr_blit frame pos (default [] data) 0 len;
       if mask then vox_ws_mask_payload frame pos len key else Some frame
     else Some frame);
  Some (p, Some (at_, frame), 0).

(** The frame and the value returned; [reason]: a C string or [NULL].

    src/websocket/vox_websocket.c: vox_ws_build_close_frame *)
Definition vox_ws_build_close_frame p (code : Z) (reason : option (list Z)) (mask : bool)
  (key : list Z) : option (P * option (Z * list Z) * Z) :=
  if negb (vox_ws_is_valid_close_code code) then Some (p, None, -1) else
  reason_len ← match reason with None => Some 0 | Some r => strlen r end;
  valid ← (if 0 <? reason_len then vox_ws_validate_utf8 reason reason_len else Some true);
  if negb (valid : bool) then Some (p, None, -1) else
  if 123 <? reason_len then Some (p, None, -1) else
  let len := 2 + reason_len in
  let '(p, at_, cells) := alloc_cells junk p len 1 in
  if at_ =? NULL then Some (p, None, -1) else
  cells ← cells.[0 <- u8 (Z.land (Z.shiftr code 8) 0xFF)];
  cells ← cells.[1 <- u8 (Z.land code 0xFF)];
  cells ← (if 0 <? reason_len then arr_blit cells 2 (default [] reason) 0 reason_len else Some cells);
  '(p, built, r) ← vox_ws_build_frame p VOX_WS_OP_CLOSE (Some cells) len mask key;
  if negb (r =? 0) then Some (mp_free p at_, None, -1) else Some (p, built, 0).
End operations.


(** ** The frame format (RFC 6455, section 5.2)

    The bytes of a frame with a given FIN bit, reserved bits, opcode, masking key (if
    any) and payload. *)

Definition len16 (n : Z) : list Z := [n / 2 ^ 8 mod 2 ^ 8; n mod 2 ^ 8].
Definition len64 (n : Z) : list Z :=
  [n / 2 ^ 56 mod 2 ^ 8; n / 2 ^ 48 mod 2 ^ 8; n / 2 ^ 40 mod 2 ^ 8; n / 2 ^ 32 mod 2 ^ 8;
   n / 2 ^ 24 mod 2 ^ 8; n / 2 ^ 16 mod 2 ^ 8; n / 2 ^ 8 mod 2 ^ 8; n mod 2 ^ 8].

Fixpoint xor_key (key t : list Z) (i : nat) : list Z :=
  match t with
  | [] => []
  | c :: t => Z.lxor c (nth (i mod 4) key 0) :: xor_key key t (S i)
  end.

Definition len_code (n : Z) : Z := if n <=? 125 then n else if n <=? 0xFFFF then 126 else 127.
Definition len_bytes (n : Z) : list Z :=
  if n <=? 125 then [] else if n <=? 0xFFFF then len16 n else len64 n.

Definition encode_frame (fin_ : bool) (rsv op : Z) (key : option (list Z)) (data : list Z) : list Z :=
  [Z.b2z fin_ * 2 ^ 7 + rsv * 2 ^ 4 + op; (match key with Some _ => 1 | None => 0 end) * 2 ^ 7 + len_code (zlen data)]
  ++ len_bytes (zlen data)
  ++ match key with Some k => k ++ xor_key k data 0 | None => data end.

(** The size of its header. *)
Definition header_size (key : option (list Z)) (n : Z) : Z :=
  2 + zlen (len_bytes n) + match key with Some _ => 4 | None => 0 end.

(** ** Lemmas on the format *)

Lemma xor_key_length key t i : length (xor_key key t i) = length t.
Proof. revert i. induction t as [|c t IH]; intros i; cbn; [done|]. by rewrite IH. Qed.

Lemma xor_key_zlen key t i : zlen (xor_key key t i) = zlen t.
Proof. unfold zlen. by rewrite xor_key_length. Qed.

(** Masking twice with the same key is the identity. *)
Lemma xor_key_involutive key t i : xor_key key (xor_key key t i) i = t.
Proof.
  revert i. induction t as [|c t IH]; intros i; cbn [xor_key]; [done|]. rewrite IH. f_equal.
  by rewrite Z.lxor_assoc, Z.lxor_nilpotent, Z.lxor_0_r.
Qed.

Lemma land_3_mod i : Z.land i 3 = i mod 4.
Proof. exact (land_low i 2 ltac:(lia)). Qed.

Lemma nth_key (key : list Z) i : zlen key = 4 -> key.[Z.of_nat i mod 4] = Some (nth (i mod 4) key 0).
Proof.
  intros Hk. assert (Z.of_nat i mod 4 = Z.of_nat (i mod 4)) as -> by (rewrite Nat2Z.inj_mod; done).
  pose proof (Nat.mod_upper_bound i 4 ltac:(lia)). rewrite arr_get_lookup, Nat2Z.id by lia.
  destruct (lookup_lt_is_Some_2 key (i mod 4)) as [x Hx]; [unfold zlen in Hk; lia|]. rewrite Hx.
  f_equal. symmetry. by apply nth_lookup_Some.
Qed.

Lemma mask_loop key a t b i n :
  zlen key = 4 -> zlen a = n + Z.of_nat i ->
  for_ (length t) (Z.of_nat i)
    (fun i cells => c ← arr_get cells (n + i); k ← key.[Z.land i 3]; cells.[n + i <- Z.lxor c k])
    (a ++ t ++ b) = Some (a ++ xor_key key t i ++ b).
Proof.
  intros Hk. revert a i. induction t as [|c t IH]; intros a i Ha; [done|]. cbn [length for_ app xor_key].
  rewrite arr_get_app by lia. cbn [mbind option_bind]. rewrite land_3_mod, nth_key by done.
  cbn [mbind option_bind]. rewrite arr_set_app by lia. cbn [mbind option_bind].
  replace (Z.of_nat i + 1) with (Z.of_nat (S i)) by lia.
  rewrite (app_assoc a [Z.lxor c (nth (i mod 4) key 0)] (t ++ b) : a ++ _ :: t ++ b = _).
  rewrite IH by (rewrite zlen_app; change (zlen [_]) with 1; lia). by rewrite <-app_assoc.
Qed.

(** [vox_ws_mask_payload] on a block with the payload in the middle. *)
Lemma mask_payload_ok key a t b :
  zlen key = 4 -> vox_ws_mask_payload (a ++ t ++ b) (zlen a) (zlen t) key = Some (a ++ xor_key key t 0 ++ b).
Proof.
  intros Hk. unfold vox_ws_mask_payload.
  replace (Z.to_nat (zlen t)) with (length t) by (unfold zlen; lia).
  apply (mask_loop key a t b 0); [done|lia].
Qed.

Lemma len16_value n : 0 <= n < 2 ^ 16 ->
  Z.lor (Z.shiftl (n / 2 ^ 8 mod 2 ^ 8) 8) (n mod 2 ^ 8) = n.
Proof. intros Hn. rewrite lor_shiftl by dlia. dlia. Qed.

(** One more byte below those put together so far. *)
Lemma lor_byte x b k : 0 <= b < 2 ^ 8 -> 0 <= k ->
  Z.lor (x * 2 ^ (k + 8)) (Z.shiftl b k) = (x * 2 ^ 8 + b) * 2 ^ k.
Proof.
  intros Hb Hk. rewrite Z.shiftl_mul_pow2 by done.
  rewrite (lor_add _ _ (k + 8)); [rewrite Z.pow_add_r by lia; lia|lia|apply Z.mod_mul; lia|].
  rewrite Z.pow_add_r by lia. assert (0 < 2 ^ k) by lia. nia.
Qed.

Lemma div_byte n k : 0 <= k -> (n / 2 ^ (k + 8)) * 2 ^ 8 + n / 2 ^ k mod 2 ^ 8 = n / 2 ^ k.
Proof.
  intros Hk. rewrite Z.pow_add_r, <-Z.div_div by lia. pose proof (Z.div_mod (n / 2 ^ k) (2 ^ 8)). lia.
Qed.

Ltac lor_step n k k' :=
  let E := fresh in let D := fresh in
  pose proof (lor_byte (n / 2 ^ (k + 8)) (n / 2 ^ k mod 2 ^ 8) k ltac:(apply Z.mod_pos_bound; lia) ltac:(lia)) as E;
  pose proof (div_byte n k ltac:(lia)) as D;
  change (k + 8) with k' in E, D; rewrite E, D; clear E D.

Lemma len64_value n : 0 <= n < 2 ^ 64 ->
  Z.lor (Z.lor (Z.lor (Z.lor (Z.lor (Z.lor (Z.lor (Z.shiftl (n / 2 ^ 56 mod 2 ^ 8) 56)
    (Z.shiftl (n / 2 ^ 48 mod 2 ^ 8) 48)) (Z.shiftl (n / 2 ^ 40 mod 2 ^ 8) 40))
    (Z.shiftl (n / 2 ^ 32 mod 2 ^ 8) 32)) (Z.shiftl (n / 2 ^ 24 mod 2 ^ 8) 24))
    (Z.shiftl (n / 2 ^ 16 mod 2 ^ 8) 16)) (Z.shiftl (n / 2 ^ 8 mod 2 ^ 8) 8)) (n mod 2 ^ 8) = n.
Proof.
  intros Hn. assert (Hb : forall k, 0 <= n / 2 ^ k mod 2 ^ 8 < 2 ^ 8) by (intros; apply Z.mod_pos_bound; lia).
  rewrite (Z.mod_small (n / 2 ^ 56)) by dlia. rewrite (Z.shiftl_mul_pow2 (n / 2 ^ 56) 56) by lia.
  lor_step n 48 56. lor_step n 40 48. lor_step n 32 40. lor_step n 24 32. lor_step n 16 24. lor_step n 8 16.
  rewrite (lor_add _ _ 8); [|lia|apply Z.mod_mul; lia|apply Z.mod_pos_bound; lia].
  pose proof (Z.div_mod n (2 ^ 8)). lia.
Qed.

Lemma zlen_len_bytes n : zlen (len_bytes n) = if n <=? 125 then 0 else if n <=? 0xFFFF then 2 else 8.
Proof. unfold len_bytes. by repeat case_one. Qed.

Lemma zlen_encode fin_ rsv op key data :
  (forall k, key = Some k -> zlen k = 4) ->
  zlen (encode_frame fin_ rsv op key data) = header_size key (zlen data) + zlen data.
Proof.
  intros Hk. unfold encode_frame, header_size. rewrite !zlen_app. change (zlen [_; _]) with 2.
  destruct key as [k|]; [|lia]. rewrite zlen_app, xor_key_zlen, (Hk k) by done. lia.
Qed.

(** ** Parsing: what is read, and what more data changes *)

Lemma extended_length_app c d n len7 :
  n = zlen c -> extended_length (c ++ d) n len7 = extended_length c n len7.
Proof.
  intros ->. unfold extended_length. repeat case_one; try done; by rewrite !arr_get_app_l by lia.
Qed.

(** The cells behind the text are not looked at. *)
Lemma parse_text_only c d f n :
  n = zlen c -> parse_cells (c ++ d) n f = parse_cells c n f.
Proof.
  intros Hn. unfold parse_cells. destruct (Z.ltb_spec n 2); [done|].
  rewrite !arr_get_app_l by lia. destruct (c.[0]) as [b0|]; [|done]. cbn [mbind option_bind].
  destruct (c.[1]) as [b1|]; [|done]. cbn [mbind option_bind]. rewrite extended_length_app by done.
  destruct (extended_length c n (Z.land b1 127)) as [[[len h]|]|]; [|done|done]. cbn [mbind option_bind].
  cbn [masked with_payload_len]. destruct (negb (Z.land b1 128 =? 0)); cbn [andb]; [|done].
  destruct (Z.ltb_spec n (h + 4)); [done|]. by rewrite arr_slice_app_l by lia.
Qed.

(** The header is in the text as soon as its fields are known. *)
Lemma extended_length_some c n len7 :
  n = zlen c -> 2 <= n -> exists ext, extended_length c n len7 = Some ext /\
  (forall len h, ext = Some (len, h) -> 2 <= h <= 10 /\ h <= n /\
     forall d m, n <= m -> extended_length (c ++ d) m len7 = Some (Some (len, h))).
Proof.
  intros -> Hn. unfold extended_length. destruct (len7 =? 126); [|destruct (len7 =? 127)].
  - destruct (Z.ltb_spec (zlen c) 4); [by eexists|].
    destruct (arr_get_Some c 2) as [x2 E2]; [lia|]. destruct (arr_get_Some c 3) as [x3 E3]; [lia|].
    rewrite E2, E3. eexists. split; [done|]. intros len h [= <- <-]. split; [lia|]. split; [lia|].
    intros d m Hm. rewrite (proj2 (Z.ltb_ge m 4)) by lia. by rewrite !arr_get_app_l, E2, E3 by lia.
  - destruct (Z.ltb_spec (zlen c) 10); [by eexists|].
    destruct (arr_get_Some c 2) as [x2 E2]; [lia|]. destruct (arr_get_Some c 3) as [x3 E3]; [lia|].
    destruct (arr_get_Some c 4) as [x4 E4]; [lia|]. destruct (arr_get_Some c 5) as [x5 E5]; [lia|].
    destruct (arr_get_Some c 6) as [x6 E6]; [lia|]. destruct (arr_get_Some c 7) as [x7 E7]; [lia|].
    destruct (arr_get_Some c 8) as [x8 E8]; [lia|]. destruct (arr_get_Some c 9) as [x9 E9]; [lia|].
    rewrite E2, E3, E4, E5, E6, E7, E8, E9. eexists. split; [done|]. intros len h [= <- <-].
    split; [lia|]. split; [lia|]. intros d m Hm. rewrite (proj2 (Z.ltb_ge m 10)) by lia.
    by rewrite !arr_get_app_l, E2, E3, E4, E5, E6, E7, E8, E9 by lia.
  - eexists. split; [done|]. intros len h [= <- <-]. by split.
Qed.

(** Parsing never reads outside the text; once its answer is not "more data needed",
    the frame is complete in the text and later data do not change the answer. *)
Lemma parse_stable c f : exists f' r,
  parse_cells c (zlen c) f = Some (f', r) /\
  (r <> 0 -> 0 <= u64 (payload f' + payload_len f') <= zlen c /\ 2 <= payload f' <= zlen c /\
     (r = -1 \/ r = s32 (u64 (payload f' + payload_len f'))) /\
     forall d, parse_cells (c ++ d) (zlen (c ++ d)) f = Some (f', r)).
Proof.
  unfold parse_cells. destruct (Z.ltb_spec (zlen c) 2); [do 2 eexists; split; [done|by intros []]|].
  destruct (arr_get_Some c 0) as [b0 E0]; [lia|]. destruct (arr_get_Some c 1) as [b1 E1]; [lia|].
  rewrite E0, E1. cbn [mbind option_bind].
  destruct (extended_length_some c (zlen c) (Z.land b1 127) eq_refl ltac:(lia)) as (ext & -> & Hx).
  cbn [mbind option_bind]. destruct ext as [[len h]|]; [|by do 2 eexists].
  destruct (Hx len h eq_refl) as (Hh & Hhc & Hmono). cbn [masked with_payload_len mask_key].
  set (m := negb (Z.land b1 128 =? 0)).
  destruct (m && (zlen c <? h + 4)) eqn:Em; [do 2 eexists; split; [done|by intros []]|].
  assert (exists key, (if m then arr_slice c h 4 else Some (mask_key f)) = Some key) as [key Hkey].
  { destruct m; [|by eexists]. cbn in Em. apply Z.ltb_ge in Em.
    destruct (arr_slice_Some c h 4) as (s & -> & _); [lia..|]. by eexists. }
  rewrite Hkey. cbn [mbind option_bind with_mask_key with_payload with_payload_len masked payload payload_len opcode fin].
  set (hl := if m then h + 4 else h).
  assert (2 <= hl <= zlen c) as Hhl.
  { subst hl. destruct m; [|lia]. cbn in Em. apply Z.ltb_ge in Em. lia. }
  destruct (Z.ltb_spec (zlen c) (u64 (hl + len))) as [Hlt|Hge]; [do 2 eexists; split; [done|by intros []]|].
  pose proof (u64_range (hl + len)).
  set (bad := negb (Z.land (Z.land b0 15) 8 =? 0) && (negb (negb (Z.land b0 128 =? 0)) || (125 <? len))).
  assert (Hd : forall d, zlen (c ++ d) = zlen c + zlen d /\ 0 <= zlen d)
    by (intros d; split; [apply zlen_app|apply zlen_nonneg]).
  assert (Hkd : forall d, (if m then arr_slice (c ++ d) h 4 else Some (mask_key f)) = Some key).
  { intros d. rewrite <-Hkey. destruct m; [|done]. cbn in Em. apply Z.ltb_ge in Em. by apply arr_slice_app_l. }
  assert (Hrest : forall (g : vox_ws_frame) r, (if bad then Some (with_payload g hl, -1) else
      Some (with_payload g hl, s32 (u64 (hl + len)))) = Some (with_payload g hl, r) ->
      r = -1 \/ r = s32 (u64 (hl + len))).
  { intros g r. destruct bad; intros [= <-]; auto. }
  exists (with_payload (with_mask_key (with_payload_len
    {| fin := negb (Z.land b0 128 =? 0); opcode := Z.land b0 15; masked := m; payload_len := payload_len f;
       mask_key := mask_key f; payload := payload f |} len) key) hl), (if bad then -1 else s32 (u64 (hl + len))).
  split; [by destruct bad|]. intros _. cbn [payload payload_len with_payload with_mask_key with_payload_len].
  split; [lia|]. split; [lia|]. split; [destruct bad; auto|]. intros d. destruct (Hd d) as [Hz Hz0].
  rewrite (proj2 (Z.ltb_ge (zlen (c ++ d)) 2)) by lia. rewrite !arr_get_app_l, E0, E1 by lia.
  cbn [mbind option_bind]. rewrite (Hmono d (zlen (c ++ d))) by lia.
  cbn [mbind option_bind masked with_payload_len mask_key]. fold m.
  replace (m && (zlen (c ++ d) <? h + 4)) with false
    by (destruct m; [|done]; cbn in Em |- *; apply Z.ltb_ge in Em; symmetry; apply Z.ltb_ge; lia).
  rewrite Hkd. cbn [mbind option_bind with_mask_key with_payload with_payload_len masked payload payload_len opcode fin]. fold hl.
  rewrite (proj2 (Z.ltb_ge (zlen (c ++ d)) (u64 (hl + len)))) by lia. fold bad. by destruct bad.
Qed.

(** ** Round trip *)

(** Facts on bytes, by running through them. *)
Lemma byte_cases (f : Z -> bool) :
  forallb (fun n => f (Z.of_nat n)) (seq 0 256) = true -> forall b, 0 <= b < 2 ^ 8 -> f b = true.
Proof.
  intros Hall b Hb. rewrite forallb_forall in Hall. rewrite <-(Z2Nat.id b) by lia. apply Hall.
  apply in_seq. lia.
Qed.

Lemma land_top b : 0 <= b < 2 ^ 8 -> (Z.land b 128 =? 0) = (b <? 128).
Proof.
  intros Hb. apply eqb_prop.
  apply (byte_cases (fun b => Bool.eqb (Z.land b 128 =? 0) (b <? 128))); [by vm_compute|done].
Qed.

Lemma land_15 b : Z.land b 15 = b mod 16.
Proof. exact (land_low b 4 ltac:(lia)). Qed.
Lemma land_127 b : Z.land b 127 = b mod 128.
Proof. exact (land_low b 7 ltac:(lia)). Qed.

(** What parsing a complete frame fills in. *)
Definition parsed (f : vox_ws_frame) (fin_ : bool) (op : Z) (key : option (list Z)) (n : Z) : vox_ws_frame :=
  {| fin := fin_; opcode := op; masked := match key with Some _ => true | None => false end;
     payload_len := n; mask_key := default (mask_key f) key; payload := header_size key n |}.

Definition bad_control (fin_ : bool) (op n : Z) : bool :=
  negb (Z.land op 8 =? 0) && (negb fin_ || (125 <? n)).

Lemma zlen_two {A} (a b : A) l : zlen (a :: b :: l) = 2 + zlen l.
Proof. rewrite !zlen_cons. lia. Qed.

Lemma encode_length b0 n (rest : list Z) m :
  0 <= n < 2 ^ 63 -> m = zlen (b0 :: (len_code n) :: len_bytes n ++ rest) ->
  forall b1, extended_length (b0 :: b1 :: len_bytes n ++ rest) m (len_code n) = Some (Some (n, 2 + zlen (len_bytes n))).
Proof.
  intros Hn -> b1. unfold len_code, len_bytes, extended_length. pose proof (zlen_nonneg rest).
  destruct (Z.leb_spec n 125); [|destruct (Z.leb_spec n 65535)].
  - rewrite (proj2 (Z.eqb_neq n 126)), (proj2 (Z.eqb_neq n 127)) by lia. done.
  - cbn [Z.eqb Pos.eqb]. rewrite (proj2 (Z.ltb_ge _ 4)) by (rewrite !zlen_cons, zlen_app; change (zlen (len16 n)) with 2; lia).
    change ((b0 :: b1 :: len16 n ++ rest).[2]) with (Some (n / 2 ^ 8 mod 2 ^ 8)).
    change ((b0 :: b1 :: len16 n ++ rest).[3]) with (Some (n mod 2 ^ 8)). cbn [mbind option_bind].
    by rewrite len16_value by lia.
  - cbn [Z.eqb Pos.eqb]. rewrite (proj2 (Z.ltb_ge _ 10)) by (rewrite !zlen_cons, zlen_app; change (zlen (len64 n)) with 8; lia).
    change ((b0 :: b1 :: len64 n ++ rest).[2]) with (Some (n / 2 ^ 56 mod 2 ^ 8)).
    change ((b0 :: b1 :: len64 n ++ rest).[3]) with (Some (n / 2 ^ 48 mod 2 ^ 8)).
    change ((b0 :: b1 :: len64 n ++ rest).[4]) with (Some (n / 2 ^ 40 mod 2 ^ 8)).
    change ((b0 :: b1 :: len64 n ++ rest).[5]) with (Some (n / 2 ^ 32 mod 2 ^ 8)).
    change ((b0 :: b1 :: len64 n ++ rest).[6]) with (Some (n / 2 ^ 24 mod 2 ^ 8)).
    change ((b0 :: b1 :: len64 n ++ rest).[7]) with (Some (n / 2 ^ 16 mod 2 ^ 8)).
    change ((b0 :: b1 :: len64 n ++ rest).[8]) with (Some (n / 2 ^ 8 mod 2 ^ 8)).
    change ((b0 :: b1 :: len64 n ++ rest).[9]) with (Some (n mod 2 ^ 8)). cbn [mbind option_bind].
    by rewrite len64_value by lia.
Qed.

Lemma parse_encode f fin_ rsv op key data rest :
  0 <= rsv < 8 -> 0 <= op < 16 -> (forall k, key = Some k -> zlen k = 4) -> zlen data < 2 ^ 63 ->
  parse_cells (encode_frame fin_ rsv op key data ++ rest) (zlen (encode_frame fin_ rsv op key data ++ rest)) f
  = Some (parsed f fin_ op key (zlen data),
          if bad_control fin_ op (zlen data) then -1 else s32 (header_size key (zlen data) + zlen data)).
Proof.
  intros Hr Ho Hk Hd. pose proof (zlen_nonneg data) as Hd0. pose proof (zlen_nonneg rest) as Hr0.
  rewrite zlen_app, zlen_encode by done. set (n := zlen data) in *.
  assert (Hlb : 0 <= zlen (len_bytes n) <= 8) by (rewrite zlen_len_bytes; repeat case_one; lia).
  assert (Hcode : 0 <= len_code n < 128) by (unfold len_code; repeat case_one; lia).
  set (m := match key with Some _ => true | None => false end).
  assert (Hhs : header_size key n = (if m then 2 + zlen (len_bytes n) + 4 else 2 + zlen (len_bytes n)))
    by (unfold header_size; subst m; destruct key; lia).
  unfold parse_cells, encode_frame. fold n. rewrite <-!app_assoc. cbn [app].
  set (b0 := Z.b2z fin_ * 2 ^ 7 + rsv * 2 ^ 4 + op). set (b1 := _ * 2 ^ 7 + len_code n).
  assert (b1 = (if m then 128 else 0) + len_code n) as Hb1 by (subst b1 m; destruct key; lia).
  assert (Hf : negb (Z.land b0 128 =? 0) = fin_).
  { rewrite land_top by (subst b0; destruct fin_; cbn [Z.b2z]; lia). subst b0. destruct fin_; cbn [Z.b2z].
    - by rewrite (proj2 (Z.ltb_ge _ _)) by lia.
    - by rewrite (proj2 (Z.ltb_lt _ _)) by lia. }
  assert (Hm : negb (Z.land b1 128 =? 0) = m).
  { rewrite land_top by (rewrite Hb1; destruct m; lia). rewrite Hb1. destruct m.
    - by rewrite (proj2 (Z.ltb_ge _ _)) by lia.
    - by rewrite (proj2 (Z.ltb_lt _ _)) by lia. }
  assert (Hop : Z.land b0 15 = op) by (rewrite land_15; subst b0; destruct fin_; cbn [Z.b2z]; dlia).
  assert (Hl7 : Z.land b1 127 = len_code n) by (rewrite land_127, Hb1; destruct m; dlia).
  rewrite (proj2 (Z.ltb_ge _ 2)) by (unfold header_size; destruct key; lia).
  set (tail := match key with Some k => _ | None => _ end ++ rest).
  assert (Htail : zlen tail = (if m then 4 else 0) + n + zlen rest).
  { subst tail m. destruct key as [k|]; rewrite !zlen_app; [rewrite xor_key_zlen, (Hk k) by done|]; lia. }
  change ((b0 :: b1 :: len_bytes n ++ tail).[0]) with (Some b0).
  change ((b0 :: b1 :: len_bytes n ++ tail).[1]) with (Some b1). cbn [mbind option_bind].
  rewrite Hl7, (encode_length b0 n tail) by
    (lia || (rewrite zlen_two, zlen_app, Htail, Hhs; destruct m; lia)).
  cbn [mbind option_bind masked with_payload_len mask_key]. rewrite Hf, Hm, Hop.
  replace (m && (header_size key n + n + zlen rest <? 2 + zlen (len_bytes n) + 4)) with false
    by (destruct m; [|done]; cbn; symmetry; apply Z.ltb_ge; lia).
  assert ((if m then arr_slice (b0 :: b1 :: len_bytes n ++ tail) (2 + zlen (len_bytes n)) 4
           else Some (mask_key f)) = Some (default (mask_key f) key)) as ->.
  { subst m tail. destruct key as [k|]; [|done]. cbn [default]. rewrite <-app_assoc.
    change (b0 :: b1 :: len_bytes n ++ k ++ xor_key k data 0 ++ rest)
      with ((b0 :: b1 :: len_bytes n) ++ k ++ xor_key k data 0 ++ rest).
    apply arr_slice_mid; [by rewrite zlen_two|symmetry; by apply Hk]. }
  cbn [mbind option_bind with_mask_key with_payload with_payload_len masked payload payload_len opcode fin mask_key].
  rewrite <-Hhs. rewrite (u64_small (header_size key n + n)) by (unfold header_size; destruct key; lia).
  rewrite (proj2 (Z.ltb_ge _ _)) by lia. unfold parsed, bad_control. fold m. by destruct (_ && _).
Qed.

(** A frame that is not complete yet: more data are asked for. *)
Lemma parse_incomplete f fin_ rsv op key data c d :
  0 <= rsv < 8 -> 0 <= op < 16 -> (forall k, key = Some k -> zlen k = 4) -> zlen data < 2 ^ 63 ->
  c ++ d = encode_frame fin_ rsv op key data -> d <> [] ->
  exists f', parse_cells c (zlen c) f = Some (f', 0).
Proof.
  intros Hr Ho Hk Hd Hcd Hne. destruct (parse_stable c f) as (f' & r & E & Hst).
  destruct (decide (r = 0)) as [->|Hr0]; [by exists f'|]. exfalso.
  destruct (Hst Hr0) as (Hfit & _ & _ & Hmono). specialize (Hmono d).
  pose proof (parse_encode f fin_ rsv op key data [] Hr Ho Hk Hd) as Hp. rewrite app_nil_r, <-Hcd, Hmono in Hp.
  injection Hp as -> _. cbn [parsed payload payload_len] in Hfit.
  assert (0 < zlen d). { destruct d as [|x d']; [done|]. rewrite zlen_cons. pose proof (zlen_nonneg d'). lia. }
  assert (zlen c + zlen d = header_size key (zlen data) + zlen data) as Hz
    by (rewrite <-zlen_app, Hcd; by apply zlen_encode).
  pose proof (zlen_nonneg data). rewrite u64_small in Hfit; [lia|].
  unfold header_size. rewrite zlen_len_bytes. split; destruct key; repeat case_one; lia.
Qed.

(** ** The builder writes the format *)

Lemma write_loop (g : Z -> Z) a t b off i :
  off = zlen a - i ->
  for_ (length t) i (fun j cells => arr_set cells (off + j) (g j)) (a ++ t ++ b)
  = Some (a ++ map (fun k => g (i + Z.of_nat k)) (seq 0 (length t)) ++ b).
Proof.
  intros Hoff. revert a i Hoff. induction t as [|x t IH]; intros a i Hoff; [done|]. cbn [length for_ app].
  rewrite arr_set_app by lia. cbn [mbind option_bind].
  rewrite (app_assoc a [g i] (t ++ b) : a ++ _ :: t ++ b = _).
  rewrite (IH (a ++ [g i]) (i + 1)) by (rewrite zlen_app; change (zlen [g i]) with 1; lia).
  cbn [seq map]. rewrite <-seq_shift, map_map, <-app_assoc. cbn [app]. do 3 f_equal; [f_equal; lia|].
  f_equal. apply map_ext. intros k. f_equal. lia.
Qed.

Lemma lead_byte_of x k : 0 <= k -> u8 (Z.land (Z.shiftr x k) 0xFF) = x / 2 ^ k mod 2 ^ 8.
Proof.
  intros Hk. rewrite Z.shiftr_div_pow2 by done. change 0xFF with (Z.ones 8). rewrite land_low by lia.
  unfold u8. by rewrite Z.mod_mod by lia.
Qed.

Lemma byte_low x : u8 (Z.land x 0xFF) = x mod 2 ^ 8.
Proof. change 0xFF with (Z.ones 8). rewrite land_low by lia. unfold u8. by rewrite Z.mod_mod by lia. Qed.

Lemma write_len64_ok a b c t rest : zlen t = 8 -> 
  write_len64 (a :: b :: t ++ rest) c = Some (a :: b :: len64 c ++ rest).
Proof.
  intros Ht. unfold write_len64. replace 8%nat with (length t) by (unfold zlen in Ht; lia).
  pose proof (write_loop (fun i => u8 (Z.land (Z.shiftr c (56 - 8 * i)) 0xFF)) [a; b] t rest 2 0 eq_refl) as Hw.
  cbn [app] in Hw. rewrite Hw. clear Hw.
  assert (length t = 8%nat) as -> by (unfold zlen in Ht; lia). cbn [seq map]. unfold len64.
  rewrite !lead_byte_of by lia. replace (c mod 2 ^ 8) with (c / 2 ^ 0 mod 2 ^ 8); [done|].
  change (2 ^ 0) with 1. by rewrite Z.div_1_r.
Qed.

(** A block cut into parts of given sizes. *)
Lemma split_at {A} (l : list A) n : 0 <= n <= zlen l -> exists a b, l = a ++ b /\ zlen a = n /\ zlen b = zlen l - n.
Proof.
  intros Hn. exists (take (Z.to_nat n) l), (drop (Z.to_nat n) l). rewrite take_drop, zlen_take, zlen_drop.
  split_and!; [done|lia|lia].
Qed.


(** ** The UTF-8 check *)

Definition is_cont (c : Z) : bool := Z.land c 0xC0 =? 0x80.

(** What the check looks at: lead bytes, each followed by as many continuation bytes
    as it announces. *)
Inductive utf8_shape : list Z -> Prop :=
| shape_nil : utf8_shape []
| shape_char lead n tl rest :
    char_len lead = Some n -> zlen tl = n - 1 -> Forall (fun c => is_cont c = true) tl ->
    utf8_shape rest -> utf8_shape (lead :: tl ++ rest).

(** The encoding of a code point (RFC 3629). *)
Definition utf8_encode (x : Z) : list Z :=
  if x <? 0x80 then [x]
  else if x <? 0x800 then [0xC0 + x / 2 ^ 6; 0x80 + x mod 2 ^ 6]
  else if x <? 0x10000 then [0xE0 + x / 2 ^ 12; 0x80 + x / 2 ^ 6 mod 2 ^ 6; 0x80 + x mod 2 ^ 6]
  else [0xF0 + x / 2 ^ 18; 0x80 + x / 2 ^ 12 mod 2 ^ 6; 0x80 + x / 2 ^ 6 mod 2 ^ 6; 0x80 + x mod 2 ^ 6].

Lemma char_len_range b n : char_len b = Some n -> 1 <= n <= 4.
Proof. unfold char_len. repeat case_one; intros [= <-]; lia. Qed.

Lemma continuation_ok pre lead t a b i :
  i = zlen pre -> forall j, j = 1 + zlen a ->
  continuation (pre ++ lead :: a ++ t ++ b) i j (length t) = Some (forallb is_cont t).
Proof.
  intros ->. revert a. induction t as [|x t IH]; intros a j ->; [done|].
  cbn [length continuation app forallb].
  assert ((pre ++ lead :: a ++ x :: t ++ b).[zlen pre + (1 + zlen a)] = Some x) as ->.
  { rewrite (app_assoc pre [lead] (a ++ x :: t ++ b) : pre ++ lead :: a ++ x :: t ++ b = _), app_assoc.
    apply arr_get_app. rewrite !zlen_app. change (zlen [lead]) with 1. lia. }
  cbn [mbind option_bind]. fold (is_cont x). destruct (is_cont x); [|done]. cbn [andb].
  rewrite (app_assoc a [x] (t ++ b) : a ++ x :: t ++ b = _).
  apply IH. rewrite zlen_app. change (zlen [x]) with 1. lia.
Qed.

Lemma shape_inv lead l n :
  char_len lead = Some n -> utf8_shape (lead :: l) ->
  exists tl rest, l = tl ++ rest /\ zlen tl = n - 1 /\ forallb is_cont tl = true /\ utf8_shape rest.
Proof.
  intros Hc Hs. inversion Hs as [|? m tl rest Hm Hz Hf Hr]; subst. rewrite Hc in Hm. injection Hm as <-.
  exists tl, rest. split_and!; [done|done| |done]. apply forallb_forall. rewrite Forall_forall in Hf.
  intros x Hx. apply Hf. by apply list_elem_of_In.
Qed.

Lemma utf8_loop_ok fuel pre c b :
  (length c <= fuel)%nat -> zlen pre + zlen c < 2 ^ 63 -> exists r,
  utf8_loop fuel (pre ++ c ++ b) (zlen pre + zlen c) (zlen pre) = Some r /\ (r = true <-> utf8_shape c).
Proof.
  revert pre c. induction fuel as [|fuel IH]; intros pre c Hf Hb; cbn [utf8_loop].
  { destruct c; [|cbn in Hf; lia]. change (zlen (@nil Z)) with 0. rewrite Z.add_0_r, Z.ltb_irrefl.
    exists true. split; [done|]. split; [constructor|done]. }
  destruct c as [|x c].
  { change (zlen (@nil Z)) with 0. rewrite Z.add_0_r, Z.ltb_irrefl.
    exists true. split; [done|]. split; [constructor|done]. }
  rewrite zlen_cons in *. pose proof (zlen_nonneg c) as Hc0. pose proof (zlen_nonneg pre) as Hp0.
  rewrite (proj2 (Z.ltb_lt _ _)) by lia. cbn [negb app]. rewrite arr_get_app by done. cbn [mbind option_bind].
  destruct (char_len x) as [n|] eqn:En.
  2:{ exists false. split; [done|]. split; [done|]. intros Hs. inversion Hs. congruence. }
  pose proof (char_len_range x n En) as Hn. rewrite (u64_small (zlen pre + n)) by lia.
  destruct (Z.ltb_spec (zlen pre + (1 + zlen c)) (zlen pre + n)) as [Hsh|Hok].
  { exists false. split; [done|]. split; [done|]. intros Hs.
    destruct (shape_inv x c n En Hs) as (tl & rest & -> & Hz & _). rewrite zlen_app in *.
    pose proof (zlen_nonneg rest). lia. }
  destruct (split_at c (n - 1)) as (tl & rest & -> & Htl & Hrest); [lia|].
  pose proof (continuation_ok pre x tl [] (rest ++ b) (zlen pre) eq_refl 1 eq_refl) as Hcont. cbn [app] in Hcont.
  rewrite <-!app_assoc. replace (Z.to_nat (n - 1)) with (length tl) by (unfold zlen in Htl; lia).
  rewrite Hcont. cbn [mbind option_bind].
  destruct (forallb is_cont tl) eqn:Ea.
  - destruct (IH (pre ++ x :: tl) rest) as (r & Hr & Hiff).
    { cbn in Hf. rewrite length_app in Hf. lia. }
    { rewrite zlen_app, zlen_cons. rewrite zlen_app in *. lia. }
    rewrite zlen_app, zlen_cons, <-app_assoc in Hr. cbn [app] in Hr.
    replace (zlen pre + n) with (zlen pre + (1 + zlen tl)) by lia. rewrite zlen_app.
    replace (zlen pre + (1 + (zlen tl + zlen rest))) with (zlen pre + (1 + zlen tl) + zlen rest) by lia.
    exists r. split; [exact Hr|]. rewrite Hiff. split.
    + intros Hs. apply (shape_char x n); [done|done| |done]. rewrite forallb_forall in Ea.
      apply Forall_forall. intros y Hy. apply Ea. by apply list_elem_of_In.
    + intros Hs. destruct (shape_inv x _ n En Hs) as (tl' & rest' & E & Hz & _ & Hs').
      apply app_inj_1 in E as [_ ->]; [done|unfold zlen in *; lia].
  - exists false. split; [done|]. split; [done|]. intros Hs.
    destruct (shape_inv x _ n En Hs) as (tl' & rest' & E & Hz & Ha & _).
    apply app_inj_1 in E as [-> _]; [congruence|unfold zlen in *; lia].
Qed.

Lemma validate_ok c rest : zlen c < 2 ^ 63 -> exists r,
  vox_ws_validate_utf8 (Some (c ++ rest)) (zlen c) = Some r /\ (r = true <-> utf8_shape c).
Proof.
  intros Hc. unfold vox_ws_validate_utf8.
  destruct (utf8_loop_ok (Z.to_nat (zlen c)) [] c rest) as (r & Hr & Hiff); [unfold zlen; lia|done|].
  exists r. split; [exact Hr|done].
Qed.

(** Byte ranges behind the masks. *)
Lemma lead_ranges b : 0 <= b < 2 ^ 8 ->
  is_cont b = ((0x80 <=? b) && (b <? 0xC0)) /\
  char_len b = (if b <? 0x80 then Some 1 else if b <? 0xC0 then None else if b <? 0xE0 then Some 2
                else if b <? 0xF0 then Some 3 else if b <? 0xF8 then Some 4 else None).
Proof.
  intros Hb. split.
  - apply eqb_prop. apply (byte_cases (fun b => Bool.eqb (is_cont b) ((0x80 <=? b) && (b <? 0xC0)))); [by vm_compute|done].
  - set (g := fun b : Z => if b <? 0x80 then Some 1 else if b <? 0xC0 then None else if b <? 0xE0 then Some 2
                else if b <? 0xF0 then Some 3 else if b <? 0xF8 then Some 4 else None).
    assert (forallb (fun n => bool_decide (char_len (Z.of_nat n) = g (Z.of_nat n))) (seq 0 256) = true) as Hall
      by (vm_compute; reflexivity).
    exact (bool_decide_eq_true_1 _ (byte_cases (fun b => bool_decide (char_len b = g b)) Hall b Hb)).
Qed.

Lemma lead_len b n : 0 <= b < 2 ^ 8 ->
  (n = 2 /\ 0xC0 <= b < 0xE0) \/ (n = 3 /\ 0xE0 <= b < 0xF0) \/ (n = 4 /\ 0xF0 <= b < 0xF8) ->
  char_len b = Some n.
Proof.
  intros Hb Hn. destruct (lead_ranges b Hb) as [_ ->]. repeat case_one; try (f_equal; lia); exfalso; lia.
Qed.

Lemma cont_byte x : is_cont (0x80 + x mod 2 ^ 6) = true.
Proof.
  destruct (lead_ranges (0x80 + x mod 2 ^ 6)) as [-> _]; [dlia|]. apply andb_true_iff.
  split; [apply Z.leb_le|apply Z.ltb_lt]; dlia.
Qed.

Lemma encode_shape x rest : 0 <= x < 2 ^ 21 -> utf8_shape rest -> utf8_shape (utf8_encode x ++ rest).
Proof.
  intros Hx Hr. unfold utf8_encode.
  assert (Hlead : forall b n tl, 0 <= b < 2 ^ 8 -> char_len b = Some n -> zlen tl = n - 1 ->
    Forall (fun c => is_cont c = true) tl -> utf8_shape ((b :: tl) ++ rest))
    by (intros; by apply (shape_char b n)).
  destruct (Z.ltb_spec x 128); [|destruct (Z.ltb_spec x 2048); [|destruct (Z.ltb_spec x 65536)]].
  - apply (Hlead x 1); [lia| |done|constructor]. destruct (lead_ranges x) as [_ ->]; [lia|].
    by rewrite (proj2 (Z.ltb_lt _ _)) by lia.
  - apply (Hlead _ 2); [dlia| |done|repeat constructor; apply cont_byte].
    apply lead_len; dlia.
  - apply (Hlead _ 3); [dlia| |done|repeat constructor; apply cont_byte].
    apply lead_len; dlia.
  - apply (Hlead _ 4); [dlia| |done|repeat constructor; apply cont_byte].
    apply lead_len; dlia.
Qed.

Lemma encodes_shape xs : Forall (fun x => 0 <= x < 2 ^ 21) xs -> utf8_shape (concat (map utf8_encode xs)).
Proof.
  induction 1 as [|x xs Hx _ IH]; cbn [map concat]; [constructor|]. by apply encode_shape.
Qed.
Section builder.
Context {P : Type} `{MPoolLaws P} (junk : Z).
Implicit Types (p : P) (w : vox_ws_parser).

(** The writes into the allocated block. *)
Lemma header_writes n (frame : list Z) :
  0 <= n < 2 ^ 62 -> 2 + zlen (len_bytes n) <= zlen frame ->
  exists rest, zlen rest = zlen frame - 2 - zlen (len_bytes n) /\ forall b0,
  (frame ← frame.[0 <- b0];
   if n <=? 125 then frame ← frame.[1 <- u8 n]; Some (frame, 2)
   else if n <=? 0xFFFF then
     frame ← frame.[1 <- 126];
     frame ← frame.[2 <- u8 (Z.land (Z.shiftr n 8) 0xFF)];
     frame ← frame.[3 <- u8 (Z.land n 0xFF)];
     Some (frame, 4)
   else
     frame ← frame.[1 <- 127];
     frame ← write_len64 frame n;
     Some (frame, 10)) = Some (b0 :: len_code n :: len_bytes n ++ rest, 2 + zlen (len_bytes n)).
Proof.
  intros Hn Hfr. pose proof (zlen_nonneg (len_bytes n)) as Hlb.
  destruct frame as [|c0 [|c1 frame]]; [change (zlen (@nil Z)) with 0 in Hfr; lia|change (zlen [c0]) with 1 in Hfr; lia|].
  rewrite zlen_two in *. destruct (split_at frame (zlen (len_bytes n))) as (t & rest & -> & Ht & Hrest); [lia|].
  exists rest. split; [lia|]. intros b0.
  pose proof (arr_set_app [] c0 (c1 :: t ++ rest) 0 b0 eq_refl) as E0. cbn [app] in E0. rewrite E0.
  assert (E1 : forall y, arr_set (b0 :: c1 :: t ++ rest) 1 y = Some (b0 :: y :: t ++ rest))
    by (intros y; exact (arr_set_app [b0] c1 (t ++ rest) 1 y eq_refl)).
  cbn [mbind option_bind]. unfold len_code, len_bytes in *.
  destruct (Z.leb_spec n 125); [|destruct (Z.leb_spec n 65535)]; rewrite E1; cbn [mbind option_bind].
  - rewrite u8_small by lia. destruct t; [done|]. rewrite zlen_cons in Ht. change (zlen (@nil Z)) with 0 in Ht. pose proof (zlen_nonneg t). lia.
  - change (zlen (len16 n)) with 2 in *. destruct t as [|t0 [|t1 [|t2 t]]]; try (unfold zlen in Ht; cbn [length] in Ht; lia).
    pose proof (arr_set_app [b0; 126] t0 (t1 :: rest) 2 (u8 (Z.land (Z.shiftr n 8) 255)) eq_refl) as E2. cbn [app] in *. rewrite E2.
    cbn [mbind option_bind].
    pose proof (arr_set_app [b0; 126; u8 (Z.land (Z.shiftr n 8) 255)] t1 rest 3 (u8 (Z.land n 255)) eq_refl) as E3. cbn [app] in *.
    rewrite E3. cbn [mbind option_bind]. rewrite lead_byte_of by lia. by rewrite byte_low.
  - change (zlen (len64 n)) with 8 in *. rewrite write_len64_ok by lia. done.
Qed.

Definition key_of (mask : bool) (key : list Z) : option (list Z) := if mask then Some key else None.

(** Building succeeds with the encoding in a fresh block, or the pool refuses. *)
Lemma build_frame_ok p op data len mask key :
  mp_inv p -> 0 <= op -> 0 <= len < 2 ^ 62 -> len <= zlen (default [] data) -> zlen key = 4 ->
  exists p', 
    (exists at_, vox_ws_build_frame junk p op data len mask key = Some (p', Some (at_,
       encode_frame true 0 (op mod 16) (key_of mask key) (take (Z.to_nat len) (default [] data))), 0) /\
       at_ <> NULL /\ took p p' [at_]) \/
    (vox_ws_build_frame junk p op data len mask key = Some (p', None, -1) /\ took p p' [] /\
     exists n, 0 < n /\ mp_alloc p n = (p', NULL)).
Proof.
  intros Hp Ho Hl Hd Hk. unfold vox_ws_build_frame.
  assert ((0 <? len) && match data with None => true | _ => false end = false) as ->.
  { destruct data; [by rewrite andb_false_r|]. change (zlen (default [] None)) with 0 in Hd.
    by rewrite (proj2 (Z.ltb_ge _ _)) by lia. }
  set (t := take (Z.to_nat len) (default [] data)).
  assert (zlen t = len) as Ht by (subst t; rewrite zlen_take; lia).
  set (h := if mask then _ + 4 else _).
  assert (h = header_size (key_of mask key) len) as Hh.
  { subst h. unfold header_size. rewrite zlen_len_bytes. destruct mask; cbn [key_of];
      repeat case_one; lia. }
  assert (2 + zlen (len_bytes len) + (if mask then 4 else 0) = h) as Hh2
    by (rewrite Hh; unfold header_size; destruct mask; cbn; lia).
  assert (0 <= zlen (len_bytes len) <= 8) as Hlb by (rewrite zlen_len_bytes; repeat case_one; lia).
  clearbody h. cbv zeta. rewrite (u64_small (h + len)) by (destruct mask; lia).
  destruct (alloc_cells junk p (h + len) 1) as [[p1 at_] frame] eqn:E.
  destruct (took_cells junk p p1 (h + len) 1 at_ frame Hp E) as [[-> Htk]|(Hnn & Htk & ->)]; exists p1.
  { right. split; [done|]. split; [done|]. exists (h + len). apply alloc_cells_refused in E.
    rewrite Z.mul_1_r, u64_small in E by (destruct mask; lia). split; [destruct mask; lia|done]. }
  left. exists at_. split; [|by split]. rewrite (proj2 (Z.eqb_neq at_ NULL)) by done.
  rewrite Z.mul_1_r, u64_small, Z.div_1_r by (destruct mask; lia).
  set (frame := replicate (Z.to_nat (h + len)) junk).
  assert (zlen frame = h + len) as Hfz by (subst frame; rewrite zlen_replicate; destruct mask; lia).
  destruct (header_writes len frame Hl) as (rest & Hrest & Hw); [destruct mask; lia|].
  specialize (Hw (Z.lor 128 (Z.land op 15))).
  destruct (frame.[0 <- Z.lor 128 (Z.land op 15)]) as [frame1|]; [|done]. cbn [mbind option_bind] in Hw |- *.
  rewrite Hw. cbn [mbind option_bind]. clear Hw. clearbody frame.
  assert (Z.lor 128 (Z.land op 15) = Z.b2z true * 2 ^ 7 + 0 * 2 ^ 4 + op mod 16) as ->.
  { rewrite land_15. rewrite (lor_add 128 _ 7) by (done || (pose proof (Z.mod_pos_bound op 16); lia)). cbn. lia. }
  set (b0 := Z.b2z true * 2 ^ 7 + 0 * 2 ^ 4 + op mod 16).
  assert (0 <= len_code len < 2 ^ 7) as Hcode by (unfold len_code; repeat case_one; lia).
  assert (Hpay : forall head mid : list Z, head ++ mid = head ++ mid ++ []) by (intros; by rewrite app_nil_r).
  unfold encode_frame. rewrite Ht.
  destruct mask; cbn [key_of].
  - change ((b0 :: len_code len :: len_bytes len ++ rest).[1]) with (Some (len_code len)). cbn [mbind option_bind].
    rewrite Z.lor_comm, (lor_add 128 _ 7) by (done || lia).
    rewrite (arr_set_app [b0] (len_code len) (len_bytes len ++ rest) 1 _ eq_refl : arr_set _ 1 _ = _).
    cbn [mbind option_bind app].
    destruct (split_at rest 4) as (k0 & d0 & -> & Hk0 & Hd0); [lia|].
    set (head := b0 :: 1 * 2 ^ 7 + len_code len :: len_bytes len).
    assert (zlen head = 2 + zlen (len_bytes len)) as Hhz by (subst head; apply zlen_two).
    change (b0 :: 128 + len_code len :: len_bytes len ++ k0 ++ d0) with (head ++ k0 ++ d0).
    rewrite <-(app_nil_r key). rewrite (arr_blit_app0 head k0 d0 key [] _ 4) by (done || lia). rewrite app_nil_r.
    cbn [mbind option_bind].
    destruct (Z.ltb_spec 0 len) as [Hpos|Hz].
    + rewrite (Hpay key d0). rewrite (app_assoc head key).
      rewrite (arr_blit_app (head ++ key) d0 [] (default [] data) _ 0 len) by (rewrite ?zlen_app; lia).
      change (Z.to_nat 0) with 0%nat. rewrite drop_0. fold t. cbn [mbind option_bind].
      replace (2 + zlen (len_bytes len) + 4) with (zlen (head ++ key)) by (rewrite zlen_app; lia).
      rewrite <-Ht, mask_payload_ok by done. cbn [mbind option_bind]. rewrite Ht, app_nil_r, <-app_assoc. done.
    + assert (d0 = []) as -> by (apply nil_length_inv; unfold zlen in *; lia).
      assert (t = []) as Et by (apply nil_length_inv; unfold zlen in *; lia).
      cbn [mbind option_bind]. rewrite Et. cbn [xor_key]. done.
  - cbn [mbind option_bind]. set (head := b0 :: len_code len :: len_bytes len).
    assert (zlen head = 2 + zlen (len_bytes len)) as Hhz by (subst head; apply zlen_two).
    change (b0 :: len_code len :: len_bytes len ++ rest) with (head ++ rest).
    destruct (Z.ltb_spec 0 len) as [Hpos|Hz].
    + rewrite (Hpay head rest).
      rewrite (arr_blit_app head rest [] (default [] data) _ 0 len) by lia.
      change (Z.to_nat 0) with 0%nat. rewrite drop_0. fold t. cbn [mbind option_bind]. by rewrite app_nil_r.
    + assert (rest = []) as -> by (apply nil_length_inv; unfold zlen in *; lia).
      assert (t = []) as Et by (apply nil_length_inv; unfold zlen in *; lia).
      cbn [mbind option_bind]. by rewrite Et.
Qed.
(** The size of a frame in memory. *)
Lemma header_size_range key n : 0 <= n < 2 ^ 62 -> 2 <= header_size key n <= 14.
Proof. intros Hn. unfold header_size. rewrite zlen_len_bytes. destruct key; repeat case_one; lia. Qed.

(** The payload as the caller gets it: copied out of the buffer and unmasked. *)
Lemma payload_back f fin_ rsv op key data rest :
  (forall k, key = Some k -> zlen k = 4) -> 
  exists copy, arr_slice (encode_frame fin_ rsv op key data ++ rest)
                 (payload (parsed f fin_ op key (zlen data))) (zlen data) = Some copy /\
    (if masked (parsed f fin_ op key (zlen data))
     then vox_ws_mask_payload copy 0 (zlen data) (mask_key (parsed f fin_ op key (zlen data)))
     else Some copy) = Some data.
Proof.
  intros Hk. cbn [parsed payload masked mask_key]. unfold encode_frame. set (n := zlen data).
  exists (match key with Some k => xor_key k data 0 | None => data end).
  destruct key as [k|].
  - specialize (Hk k eq_refl). split.
    + rewrite <-!app_assoc, (app_assoc _ (len_bytes n)), (app_assoc _ k).
      apply arr_slice_mid; [|by rewrite xor_key_zlen]. unfold header_size. rewrite !zlen_app, Hk.
      change (zlen [_; _]) with 2. lia.
    + cbn [default id]. rewrite <-(app_nil_r (xor_key k data 0)).
      pose proof (mask_payload_ok k [] (xor_key k data 0) [] Hk) as Hm. cbn [app] in Hm.
      change (zlen (@nil Z)) with 0 in Hm. rewrite xor_key_zlen in Hm. subst n. rewrite Hm.
      by rewrite xor_key_involutive, app_nil_r.
  - split; [|done]. rewrite <-!app_assoc, (app_assoc _ (len_bytes n)).
    apply arr_slice_mid; [|done]. unfold header_size. rewrite !zlen_app. change (zlen [_; _]) with 2. lia.
Qed.

Lemma parser_reads q w c f : str_inv q (buffer w) c -> vox_ws_parser_parse_frame w f = parse_cells c (zlen c) f.
Proof.
  intros [_ [rest Hd] Hl _ _ _]. unfold vox_ws_parser_parse_frame, vox_string_data, vox_string_length.
  rewrite Hd, Hl. by apply parse_text_only.
Qed.

(** The bytes of a close frame's payload. *)
Definition close_payload (code : Z) (reason : list Z) : list Z := code / 2 ^ 8 mod 2 ^ 8 :: code mod 2 ^ 8 :: reason.

Definition reason_text (reason : option (list Z)) : list Z :=
  match reason with None => [] | Some l => cstr_of l end.
Definition reason_ok (reason : option (list Z)) : Prop := forall l, reason = Some l -> str_ok l.

Lemma reason_checks reason : reason_ok reason -> exists v,
  match reason with None => Some 0 | Some r => strlen r end = Some (zlen (reason_text reason)) /\
  (if 0 <? zlen (reason_text reason) then vox_ws_validate_utf8 reason (zlen (reason_text reason)) else Some true)
    = Some v /\ (v = true <-> utf8_shape (reason_text reason)) /\
  zlen (reason_text reason) <= zlen (default [] reason) /\
  take (Z.to_nat (zlen (reason_text reason))) (default [] reason) = reason_text reason.
Proof.
  intros Hr. destruct reason as [l|]; cbn [reason_text default].
  - destruct (str_ok_cstr l (Hr l eq_refl)) as (_ & _ & Hm & Hf & Ht & Hs).
    destruct (validate_ok (cstr_of l) (drop (Z.to_nat (zlen (cstr_of l))) l)) as (v & Hv & Hiff); [lia|].
    rewrite <-Ht, take_drop in Hv at 1. destruct (Z.ltb_spec 0 (zlen (cstr_of l))) as [Hpos|Hz].
    + exists v. split; [done|]. split; [done|]. split; [exact Hiff|]. by split.
    + exists true. assert (cstr_of l = []) as E by (apply nil_length_inv; unfold zlen in *; lia).
      split; [done|]. split; [done|]. split; [|by split]. split; [intros _; rewrite E; constructor|done].
  - exists true. split; [done|]. split; [done|]. split; [|by split]. split; [intros _; constructor|done].
Qed.

(** ** The parser object *)

(** Both strings are well formed and share no block. *)
Definition parser_inv p w (c d : list Z) : Prop :=
  str_inv p (buffer w) c /\ str_inv p (fragment w) d /\ apart (buffer w) (fragment w).

Lemma parser_create_ok p : mp_inv p -> exists p' o,
  vox_ws_parser_create junk p = Some (p', o) /\
  match o with Some w => parser_inv p' w [] [] | None => mp_inv p' /\ mp_live p' = mp_live p end.
Proof.
  intros Hp. unfold vox_ws_parser_create, vox_string_create.
  destruct (mp_alloc p sizeof_ws_parser) as [p1 at_] eqn:E.
  assert (0 <= sizeof_ws_parser < 2 ^ 64) as Hsz by (unfold sizeof_ws_parser; lia).
  destruct (Z.eqb_spec at_ NULL) as [->|Hat].
  { do 2 eexists. split; [done|]. destruct (mp_alloc_spec p _ p1 NULL Hp Hsz E) as [? [[_ ?]|[? _]]]; done. }
  pose proof (took_alloc p p1 _ at_ Hp Hsz E Hat) as Htk. pose proof Htk as [Hp1 _ Hl1 _ Hr1].
  specialize (Hl1 at_ ltac:(by left)). cbn in Hr1.
  destruct (str_create_ok junk p1 None Hp1) as (p2 & o2 & -> & Hm2); [done|]. cbn [mbind option_bind].
  assert (mp_inv p2) as Hp2 by (destruct o2; apply Hm2).
  destruct (str_create_ok junk p2 None Hp2) as (p3 & o3 & -> & Hm3); [done|]. cbn [mbind option_bind].
  assert (mp_inv p3) as Hp3 by (destruct o3; apply Hm3).
  assert (Hfin : forall q, mp_inv q -> mp_live q = mp_live p1 ->
    mp_inv (mp_free q at_) /\ mp_live (mp_free q at_) = mp_live p).
  { intros q Hq Hlq. destruct (mp_free_spec q at_ Hq) as [? Hlf]; [by rewrite Hlq|]. split; [done|].
    by rewrite Hlf, Hlq. }
  destruct o2 as [b|], o3 as [f|]; do 2 eexists; (split; [done|]).
  - destruct Hm2 as [Hb _]. destruct (made_other p2 p3 [] f b [] Hm3 Hb) as [? ?]. split_and!; [done|apply Hm3|done].
  - destruct Hm2 as [Hb Hob]. destruct Hm3 as [_ Hl3].
    assert (str_inv p3 b []) as Hb3.
    { destruct Hb as [? ? ? ? ? Hown]. constructor; [done..|]. by destruct (owned_live p2 p3 _ _ Hl3 Hown). }
    destruct (str_destroy_ok p3 b [] Hb3) as [? Hld]. apply Hfin; [done|].
    rewrite Hld. unfold others, frame. rewrite Hl3. exact Hob.
  - destruct Hm2 as [_ Hl2]. destruct Hm3 as [Hf Hof]. destruct (str_destroy_ok p3 f [] Hf) as [? Hld].
    apply Hfin; [done|]. by rewrite Hld, Hof, Hl2.
  - destruct Hm2 as [_ Hl2]. destruct Hm3 as [_ Hl3]. apply Hfin; [done|]. by rewrite Hl3, Hl2.
Qed.

(** Feeding appends to the buffer, or is refused and changes nothing. *)
Lemma parser_feed_ok p w c d l len :
  parser_inv p w c d -> 0 < len <= 2 ^ 62 -> len <= zlen l -> exists p' w' rc c',
  vox_ws_parser_feed junk p w (Mem l) len = Some (p', w', rc) /\ parser_inv p' w' c' d /\
  w' = with_buffer w (buffer w') /\ str_keep p (buffer w) p' (buffer w') c' /\
  ((rc = 0 /\ c' = c ++ take (Z.to_nat len) l) \/ (rc = -1 /\ c' = c /\ refused p' c)).
Proof.
  intros (Hb & Hf & Ha) Hl Hz. unfold vox_ws_parser_feed. cbn [is_null orb].
  rewrite (proj2 (Z.eqb_neq len 0)) by lia.
  destruct (append_data_ok junk p (buffer w) c (Mem l) len Hb) as (p' & b & rc & c' & -> & Hk & Hres); [cbn; lia|].
  cbn [mbind option_bind]. destruct (keep_other _ _ _ _ _ _ _ _ Hk Hf Ha Hb) as [Hf' Ha'].
  exists p', (with_buffer w b), rc, c'. split; [done|]. split; [split_and!; [apply Hk|done|done]|].
  split; [done|]. split; [exact Hk|]. destruct Hres as [Hs|?]; [left|by right].
  cbn [bytes_of] in Hs. destruct (mem_bytes l len ltac:(lia)) as (x & t & Et & _). rewrite Et in *.
  rewrite insert_spec_end in Hs. by injection Hs as -> ->.
Qed.

(** The contract of the close frame builder. *)
Lemma close_frame_ok p code reason mask key :
  mp_inv p -> 0 <= code < 2 ^ 16 -> reason_ok reason -> zlen key = 4 ->
  let r := reason_text reason in
  if decide ((1000 <= code <= 4999 /\ code <> 1004 /\ code <> 1005 /\ code <> 1006 /\ code <> 1015) /\ zlen r <= 123)
  then
    (~ utf8_shape r /\ vox_ws_build_close_frame junk p code reason mask key = Some (p, None, -1)) \/
    (utf8_shape r /\ exists p',
      (exists at_ leaked, vox_ws_build_close_frame junk p code reason mask key
          = Some (p', Some (at_, encode_frame true 0 8 (key_of mask key) (close_payload code r)), 0) /\
         took p p' [at_; leaked]) \/
      (vox_ws_build_close_frame junk p code reason mask key = Some (p', None, -1) /\ took p p' [] /\
       exists q n q', mp_alloc q n = (q', NULL) /\ evolves q' p'))
  else vox_ws_build_close_frame junk p code reason mask key = Some (p, None, -1).
Proof.
  intros Hp Hc Hr Hk r. destruct (reason_checks reason Hr) as (v & Hlen & Hval & Hv & Hfit & Htk). fold r in Hlen, Hval, Hv, Hfit, Htk.
  pose proof (zlen_nonneg r) as Hr0. unfold vox_ws_build_close_frame.
  assert (vox_ws_is_valid_close_code code = bool_decide (1000 <= code <= 4999 /\ code <> 1004 /\ code <> 1005 /\ code <> 1006 /\ code <> 1015)) as ->.
  { unfold vox_ws_is_valid_close_code. case_bool_decide as Hd; repeat case_one; try done; exfalso; cbn in *; lia. }
  rewrite Hlen. cbn [mbind option_bind]. rewrite Hval. cbn [mbind option_bind].
  case_decide as Hd.
  2:{ case_bool_decide as Hb; cbn [negb]; [|done]. destruct v; cbn [negb]; [|done].
      by rewrite (proj2 (Z.ltb_lt 123 _)) by lia. }
  destruct Hd as [Hd Hl]. rewrite bool_decide_true by done. cbn [negb].
  destruct v; cbn [negb].
  2:{ left. split; [|done]. intros Hs. by apply Hv in Hs. }
  right. split; [by apply Hv|]. rewrite (proj2 (Z.ltb_ge 123 _)) by lia.
  destruct (alloc_cells junk p (2 + zlen r) 1) as [[p1 at_] cells] eqn:E.
  destruct (took_cells junk p p1 _ 1 at_ cells Hp E) as [[-> Htk1]|(Hnn & Htk1 & ->)].
  { exists p1. right. split; [done|]. split; [done|]. apply alloc_cells_refused in E.
    do 3 eexists. split; [exact E|apply rtc_refl]. }
  rewrite (proj2 (Z.eqb_neq at_ NULL)) by done. rewrite Z.mul_1_r, u64_small, Z.div_1_r by lia.
  replace (Z.to_nat (2 + zlen r)) with (S (S (length r))) by (unfold zlen; lia). cbn [replicate].
  rewrite lead_byte_of, byte_low by lia.
  set (hi := code / 2 ^ 8 mod 2 ^ 8). set (lo := code mod 2 ^ 8).
  change (arr_set (junk :: junk :: replicate (length r) junk) 0 hi) with (arr_set ([] ++ junk :: junk :: replicate (length r) junk) 0 hi).
  rewrite arr_set_app by done. cbn [mbind option_bind app].
  rewrite (arr_set_app [hi] junk (replicate (length r) junk) 1 lo eq_refl
    : arr_set (hi :: junk :: replicate (length r) junk) 1 lo = Some (hi :: lo :: replicate (length r) junk)).
  cbn [mbind option_bind app].
  assert ((if 0 <? zlen r then arr_blit (hi :: lo :: replicate (length r) junk) 2 (default [] reason) 0 (zlen r)
           else Some (hi :: lo :: replicate (length r) junk)) = Some (close_payload code r)) as ->.
  { destruct (Z.ltb_spec 0 (zlen r)).
    - rewrite <-(app_nil_r (replicate (length r) junk)).
      pose proof (arr_blit_app [hi; lo] (replicate (length r) junk) [] (default [] reason) 2 0 (zlen r)
        eq_refl ltac:(by rewrite zlen_replicate) ltac:(lia) ltac:(lia)) as Hbl. cbn [app] in Hbl. rewrite Hbl.
      change (Z.to_nat 0) with 0%nat. by rewrite drop_0, Htk, app_nil_r.
    - by assert (r = []) as -> by (apply nil_length_inv; unfold zlen in *; lia). }
  cbn [mbind option_bind].
  assert (zlen (close_payload code r) = 2 + zlen r) as Hcp by apply zlen_two.
  destruct (build_frame_ok p1 VOX_WS_OP_CLOSE (Some (close_payload code r)) (2 + zlen r) mask key)
    as (p2 & [(a2 & Hx & Ha2 & Htk2)|(Hx & Htk2 & n2 & _ & Hn2)]); [by apply Htk1|done|lia|cbn [default id]; lia|done| |].
  - exists p2. left. exists a2, at_. rewrite Hx. cbn [mbind option_bind negb Z.eqb default id].
    rewrite take_ge by (unfold zlen in *; lia). split; [done|].
    exact (took_app p p1 p2 [at_] [a2] Htk1 Htk2).
  - exists (mp_free p2 at_). right. rewrite Hx. split; [done|]. split.
    + apply took_free. exact (took_app p p1 p2 [at_] [] Htk1 Htk2).
    + exists p1, n2, p2. split; [done|apply evolves_free].
Qed.

(** The pool only sees allocations and releases. *)
Lemma build_frame_evolves p op data len mask key p' o r :
  vox_ws_build_frame junk p op data len mask key = Some (p', o, r) -> evolves p p'.
Proof.
  unfold vox_ws_build_frame. destruct (_ && _); [intros [= <- _ _]; apply rtc_refl|].
  set (h := if mask then _ else _). clearbody h.
  destruct (alloc_cells junk p (u64 (h + len)) 1) as [[p1 at_] frame] eqn:E. apply evolves_cells in E.
  destruct (at_ =? NULL); [by intros [= <- _ _]|]. destruct (arr_set frame 0 _) as [f0|]; [|done].
  cbn [mbind option_bind]. destruct (if len <=? 125 then _ else _) as [[f1 pos]|]; [|done].
  cbn [mbind option_bind]. destruct (if mask then _ else Some (f1, pos)) as [[f2 pos2]|]; [|done].
  cbn [mbind option_bind]. destruct (if 0 <? len then _ else _) as [f3|]; [|done]. by intros [= <- _ _].
Qed.

Lemma close_frame_evolves p code reason mask key p' o r :
  vox_ws_build_close_frame junk p code reason mask key = Some (p', o, r) -> evolves p p'.
Proof.
  unfold vox_ws_build_close_frame. destruct (negb (vox_ws_is_valid_close_code code)); [intros [= <- _ _]; apply rtc_refl|].
  destruct (match reason with None => Some 0 | Some r => strlen r end) as [n|]; [|done]. cbn [mbind option_bind].
  destruct (if 0 <? n then _ else _) as [v|]; [|done]. cbn [mbind option_bind].
  destruct (negb v); [intros [= <- _ _]; apply rtc_refl|]. destruct (123 <? n); [intros [= <- _ _]; apply rtc_refl|].
  destruct (alloc_cells junk p (2 + n) 1) as [[p1 at_] cells] eqn:E. apply evolves_cells in E.
  destruct (at_ =? NULL); [by intros [= <- _ _]|].
  destruct (arr_set cells 0 _) as [c0|]; [|done]. cbn [mbind option_bind].
  destruct (arr_set c0 1 _) as [c1|]; [|done]. cbn [mbind option_bind].
  destruct (if 0 <? n then arr_blit c1 _ _ _ _ else _) as [c2|]; [|done]. cbn [mbind option_bind].
  destruct (vox_ws_build_frame junk p1 _ _ _ _ _) as [[[p2 b] r2]|] eqn:E2; [|done]. apply build_frame_evolves in E2.
  cbn [mbind option_bind]. destruct (negb (r2 =? 0)); intros [= <- _ _]; [|by etrans].
  etrans; [exact E|]. etrans; [exact E2|]. apply evolves_free.
Qed.

(** C24: A frame that [vox_ws_build_frame] has built for a payload of less than 2^31 - 14
    bytes, followed by anything in the parser's buffer, is parsed by
    [vox_ws_parser_parse_frame] as exactly that frame: FIN, opcode, mask flag and payload
    length are the caller's, and the payload copied out of the buffer and unmasked with the key
    found in the frame is the caller's payload, for every masking key. The value returned is
    the size of the frame; but the builder also builds control frames of more than 125 bytes,
    and those the parser refuses with -1. As long as a byte of the frame is missing, the parser
    asks for more data. *)
Theorem ws_roundtrip p op data len mask key p' at_ bytes q w f :
  mp_inv p -> 0 <= op < 16 -> 0 <= len < 2 ^ 31 - 14 -> len <= zlen data -> zlen key = 4 ->
  vox_ws_build_frame junk p op (Some data) len mask key = Some (p', Some (at_, bytes), 0) ->
  (forall rest, str_inv q (buffer w) (bytes ++ rest) ->
     exists f', vox_ws_parser_parse_frame w f
         = Some (f', if (Z.land op 8 =? 0) || (len <=? 125) then zlen bytes else -1) /\
       fin f' = true /\ opcode f' = op /\ masked f' = mask /\ payload_len f' = len /\
       exists copy, arr_slice (bytes ++ rest) (payload f') len = Some copy /\
         (if mask then vox_ws_mask_payload copy 0 len (mask_key f') else Some copy)
           = Some (take (Z.to_nat len) data)) /\
  (forall c d, c ++ d = bytes -> d <> [] -> str_inv q (buffer w) c ->
     exists f', vox_ws_parser_parse_frame w f = Some (f', 0)).
Proof.
  intros Hp Ho Hl Hd Hk Hb.
  destruct (build_frame_ok p op (Some data) len mask key Hp) as (p1 & [(a1 & Hx & _)|(Hx & _)]); [lia..|cbn; lia|done| |];
    rewrite Hx in Hb; [|done]. injection Hb as <- <- <-. cbn [default id]. rewrite (Z.mod_small op) by lia.
  set (t := take (Z.to_nat len) data). assert (zlen t = len) as Ht by (subst t; rewrite zlen_take; lia).
  assert (Hkk : forall k, key_of mask key = Some k -> zlen k = 4) by (intros k; destruct mask; [by intros [= <-]|done]).
  pose proof (header_size_range (key_of mask key) len ltac:(lia)) as Hh. split.
  - intros rest Hi. rewrite (parser_reads q w _ f Hi).
    pose proof (parse_encode f true 0 op (key_of mask key) t rest ltac:(lia) Ho Hkk ltac:(lia)) as Hpe.
    rewrite Ht in Hpe.
    assert ((Z.land op 8 =? 0) || (len <=? 125) = negb (bad_control true op len)) as ->.
    { unfold bad_control. cbn [negb orb]. rewrite Z.leb_antisym. by destruct (_ =? 0), (125 <? len). }
    rewrite s32_small in Hpe by lia.
    destruct (payload_back f true 0 op (key_of mask key) t rest Hkk) as (copy & Hs & Hm). rewrite Ht in Hs, Hm.
    exists (parsed f true op (key_of mask key) len). split; [rewrite Hpe, zlen_encode, Ht by done; by destruct (bad_control _ _ _)|].
    split_and!; [done|done|by destruct mask|done|]. exists copy. split; [exact Hs|]. by destruct mask.
  - intros c d Hcd Hne Hi. rewrite (parser_reads q w _ f Hi).
    by apply (parse_incomplete f true 0 op (key_of mask key) t c d); [lia|lia|done|lia|done|].
Qed.

(** C25: [vox_ws_validate_utf8] accepts exactly the byte strings that are made of lead
    bytes and the number of continuation bytes each announces, so it accepts the UTF-8
    encoding of every text; it does not look at the code points: the overlong encoding
    of 0 and an encoded surrogate, which RFC 3629 forbids, are accepted too. *)
Theorem ws_utf8 c rest :
  zlen c < 2 ^ 63 ->
  (exists r, vox_ws_validate_utf8 (Some (c ++ rest)) (zlen c) = Some r /\ (r = true <-> utf8_shape c)) /\
  (forall xs, Forall (fun x => 0 <= x < 2 ^ 21) xs -> c = concat (map utf8_encode xs) ->
     vox_ws_validate_utf8 (Some (c ++ rest)) (zlen c) = Some true) /\
  vox_ws_validate_utf8 (Some [0xC0; 0x80]) 2 = Some true /\
  vox_ws_validate_utf8 (Some [0xED; 0xA0; 0x80]) 3 = Some true.
Proof.
  intros Hc. destruct (validate_ok c rest Hc) as (r & Hr & Hiff). split; [by exists r|]. split; [|done].
  intros xs Hxs ->. rewrite Hr. f_equal. apply Hiff. by apply encodes_shape.
Qed.

(** C26: [vox_ws_build_close_frame] refuses, without touching the pool, every status
    code outside 1000-4999 and the reserved 1004, 1005, 1006 and 1015, every reason
    that is not shaped like UTF-8 and every reason of more than 123 bytes. Otherwise it
    builds the close frame with the code (most significant byte first) and the reason,
    or fails because the pool refused, and gives back what it took; but on success the
    block of the payload stays allocated beside the frame. *)
Theorem ws_close_frame p code reason mask key :
  mp_inv p -> 0 <= code < 2 ^ 16 -> reason_ok reason -> zlen key = 4 ->
  let r := reason_text reason in
  if decide ((1000 <= code <= 4999 /\ code <> 1004 /\ code <> 1005 /\ code <> 1006 /\ code <> 1015) /\ zlen r <= 123)
  then
    (~ utf8_shape r /\ vox_ws_build_close_frame junk p code reason mask key = Some (p, None, -1)) \/
    (utf8_shape r /\ exists p',
      (exists at_ leaked, vox_ws_build_close_frame junk p code reason mask key
          = Some (p', Some (at_, encode_frame true 0 8 (key_of mask key) (close_payload code r)), 0) /\
         took p p' [at_; leaked]) \/
      (vox_ws_build_close_frame junk p code reason mask key = Some (p', None, -1) /\ took p p' [] /\
       exists q n q', mp_alloc q n = (q', NULL) /\ evolves q' p'))
  else vox_ws_build_close_frame junk p code reason mask key = Some (p, None, -1).
Proof. apply close_frame_ok. Qed.
End builder.
(** ** Concrete runs *)

(** "Hello" masked with 37 fa 21 3d: the example of RFC 6455, section 5.7. *)
Definition hello : list Z := [72; 101; 108; 108; 111].
Definition ex_key : list Z := [0x37; 0xfa; 0x21; 0x3d].
Definition rfc_hello : list Z := [0x81; 0x85; 0x37; 0xfa; 0x21; 0x3d; 0x7f; 0x9f; 0x4d; 0x51; 0x58].
Definition no_frame : vox_ws_frame :=
  {| fin := false; opcode := 0; masked := false; payload_len := 0; mask_key := [0; 0; 0; 0]; payload := 0 |}.

Definition ex_built : option (bump * option (Z * list Z) * Z) :=
  vox_ws_build_frame 0 (bump_new 4096) VOX_WS_OP_TEXT (Some hello) 5 true ex_key.

Example rfc_example : ('(_, b, _) ← ex_built; '(_, bytes) ← b; Some bytes) = Some rfc_hello.
Proof. reflexivity. Qed.

Definition ex_ws : option (bump * option vox_ws_parser) := vox_ws_parser_create 0 (bump_new 4096).
Definition no_parser : vox_ws_parser :=
  {| parser_at := 0; buffer := no_string; fragment := no_string; in_fragment := false |}.
Definition ws_pool0 : bump := default (bump_new 0) (fst <$> ex_ws).
Definition ws0 : vox_ws_parser := default no_parser (r ← ex_ws; r.2).
Definition ws_fed : option (bump * vox_ws_parser * Z) :=
  vox_ws_parser_feed 0 ws_pool0 ws0 (Mem (rfc_hello ++ [0x8A])) 12.
Definition ws_pool1 : bump := default (bump_new 0) (fst ∘ fst <$> ws_fed).
Definition ws1 : vox_ws_parser := default no_parser (snd ∘ fst <$> ws_fed).

Lemma ws0_inv : parser_inv ws_pool0 ws0 [] [].
Proof.
  destruct (parser_create_ok 0 (bump_new 4096) (bump_new_inv 4096 ltac:(lia))) as (p & o & E & Hm).
  unfold ws_pool0, ws0, ex_ws. rewrite E. cbn [fmap option_fmap option_map fst snd default mbind option_bind id].
  revert E. vm_compute (vox_ws_parser_create 0 _). intros [= <- <-]. exact Hm.
Qed.

Lemma ws1_inv : parser_inv ws_pool1 ws1 (rfc_hello ++ [0x8A]) [].
Proof.
  destruct (parser_feed_ok 0 ws_pool0 ws0 [] [] (rfc_hello ++ [0x8A]) 12 ws0_inv ltac:(lia) ltac:(done))
    as (p & w & rc & c & E & Hi & _ & _ & Hres).
  unfold ws_pool1, ws1, ws_fed. rewrite E. cbn [fmap option_fmap option_map fst snd default compose id].
  assert (rc = 0) as -> by (revert E; vm_compute; by intros [= _ _ <-]).
  destruct Hres as [[_ ->]|[? _]]; [exact Hi|done].
Qed.

Lemma ws_roundtrip_witness :
  vox_ws_build_frame 0 (bump_new 4096) VOX_WS_OP_TEXT (Some hello) 5 true ex_key
    = Some (default (bump_new 0) (fst ∘ fst <$> ex_built), Some (4096, rfc_hello), 0) /\
  exists f', vox_ws_parser_parse_frame ws1 no_frame = Some (f', 11) /\ payload_len f' = 5.
Proof.
  assert (vox_ws_build_frame 0 (bump_new 4096) VOX_WS_OP_TEXT (Some hello) 5 true ex_key
    = Some (default (bump_new 0) (fst ∘ fst <$> ex_built), Some (4096, rfc_hello), 0)) as Hb
    by (vm_compute; reflexivity).
  split; [exact Hb|].
  destruct (ws_roundtrip 0 (bump_new 4096) VOX_WS_OP_TEXT hello 5 true ex_key _ 4096 rfc_hello ws_pool1 ws1 no_frame
    (bump_new_inv 4096 ltac:(lia)) ltac:(done) ltac:(lia) ltac:(done) ltac:(done) Hb) as [Hr _].
  destruct (Hr [0x8A] (proj1 ws1_inv)) as (f' & E & _ & _ & _ & Hl & _). exists f'. split; [exact E|exact Hl].
Defined.

Lemma ws_utf8_witness : zlen [0xE4; 0xB8; 0xAD] < 2 ^ 63 /\
  vox_ws_validate_utf8 (Some ([0xE4; 0xB8; 0xAD] ++ [0])) 3 = Some true.
Proof.
  split; [done|]. apply (proj1 (proj2 (ws_utf8 [0xE4; 0xB8; 0xAD] [0] ltac:(done))) [0x4E2D]).
  - repeat constructor; done.
  - vm_compute. reflexivity.
Defined.

Lemma reason_none : reason_ok None.
Proof. done. Qed.

(** A close frame without a reason: two blocks are taken, one of them for good. *)
Lemma ws_close_frame_witness : mp_inv (bump_new 4096) /\
  exists p' at_ leaked, vox_ws_build_close_frame 0 (bump_new 4096) 1000 None false ex_key
    = Some (p', Some (at_, [0x88; 2; 3; 232]), 0) /\ took (bump_new 4096) p' [at_; leaked].
Proof.
  split; [exact (bump_new_inv 4096 ltac:(lia))|].
  pose proof (ws_close_frame 0 (bump_new 4096) 1000 None false ex_key (bump_new_inv 4096 ltac:(lia))
    ltac:(lia) reason_none eq_refl) as H. cbn zeta in H. rewrite decide_True in H by (split; [lia|done]).
  destruct H as [[_ E]|[_ (p' & [(a & b & E & Ht)|(E & _)])]].
  - exfalso. revert E. vm_compute. discriminate.
  - exists p', a, b. split; [exact E|exact Ht].
  - exfalso. revert E. vm_compute. discriminate.
Defined.

End WebSocket.
