(* ===== verification/HttpWs.v ===== *)
(** * vox_http_ws.c: a server-side WebSocket connection

    The message layer of src/http/vox_http_ws.c on top of the frame parser: fragment
    reassembly, UTF-8 checks, ping and close handling. Callbacks and writes to the
    connection are an output trace. The refinement shows that what is delivered depends
    only on the bytes received, not on how the network cuts them into reads. *)

From S2P Require Import Prelude Alloc Mpool CString VString WebSocket.

Module HttpWs.
Import CString VString WebSocket.

(** ** The connection *)

Inductive ws_error :=
| UnmaskedFrame | BadCloseLength | BadCloseCode | BadCloseUtf8
| UnexpectedContinuation | BadUtf8 | UnknownOpcode | InvalidFrame.

(** What the layer does to the outside: callbacks, bytes for the connection, closing it. *)
Inductive ws_event :=
| Message (data : list Z) (is_text : bool)
| OnClose (code : Z) (reason : list Z)
| OnError (e : ws_error)
| Write (bytes : list Z)
| CloseConn.

(** Which callbacks are set. *)
Record ws_callbacks := { on_message : bool; on_close : bool; on_error : bool }.

(** src/http/vox_http_ws.c:14-25: vox_http_ws_conn *)
Record vox_http_ws_conn := {
  cbs : ws_callbacks;
  parser : vox_ws_parser;
  frag : vox_string;
  frag_active : bool;
  frag_is_text : bool;
  close_sent : bool;
}.

Definition with_parser (ws : vox_http_ws_conn) (w : vox_ws_parser) : vox_http_ws_conn :=
  {| cbs := cbs ws; parser := w; frag := frag ws; frag_active := frag_active ws;
     frag_is_text := frag_is_text ws; close_sent := close_sent ws |}.
Definition with_frag (ws : vox_http_ws_conn) (s : vox_string) (active is_text : bool) : vox_http_ws_conn :=
  {| cbs := cbs ws; parser := parser ws; frag := s; frag_active := active;
     frag_is_text := is_text; close_sent := close_sent ws |}.
Definition with_close_sent (ws : vox_http_ws_conn) : vox_http_ws_conn :=
  {| cbs := cbs ws; parser := parser ws; frag := frag ws; frag_active := frag_active ws;
     frag_is_text := frag_is_text ws; close_sent := true |}.

(** A callback is called when it is set. *)
Definition call_cb (set_ : bool) (e : ws_event) : list ws_event := if set_ then [e] else [].

(** src/http/vox_http_ws.c: vox_http_ws_report_error *)
Definition vox_http_ws_report_error (ws : vox_http_ws_conn) (e : ws_error) : list ws_event :=
  call_cb (on_error (cbs ws)) (OnError e).

(** src/http/vox_http_ws.c: vox_http_ws_deliver_message *)
Definition vox_http_ws_deliver_message (ws : vox_http_ws_conn) (data : list Z) (is_text : bool) : list ws_event :=
  call_cb (on_message (cbs ws)) (Message data is_text).

(** src/http/vox_http_ws.c: vox_http_ws_is_valid_close_code *)
Definition vox_http_ws_is_valid_close_code (code : Z) : bool :=
  if (code <? 1000) || (4999 <? code) then false
  else if (code =? 1004) || (code =? 1005) || (code =? 1006) || (code =? 1015) then false
  else true.

Section operations.
Context {P : Type} `{MPool P}.
Context (junk : Z).
Implicit Types (p : P) (ws : vox_http_ws_conn).

(** No mask on the server's side: the key stays zero.

    src/http/vox_http_ws.c: vox_http_ws_send_frame *)
Definition vox_http_ws_send_frame p (opcode : Z) (data : option (list Z)) (len : Z)
  : option (P * list ws_event) :=
  if (0 <? len) && match data with None => true | _ => false end then Some (p, []) else
  '(p, built, r) ← vox_ws_build_frame junk p opcode data len false [0; 0; 0; 0];
  Some (p, match built with Some (_, bytes) => if r =? 0 then [Write bytes] else [] | None => [] end).

(** src/http/vox_http_ws.c: vox_http_ws_send_close_frame *)
Definition vox_http_ws_send_close_frame p ws (code : Z) (reason : option (list Z))
  : option (P * vox_http_ws_conn * list ws_event) :=
  if close_sent ws then Some (p, ws, []) else
  let ws := with_close_sent ws in
  '(p, built, r) ← vox_ws_build_close_frame junk p (u16 code) reason false [0; 0; 0; 0];
  Some (p, ws, match built with Some (_, bytes) => if r =? 0 then [Write bytes] else [] | None => [] end).

(** How the handling of a frame ends: go on with the next frame, or [return -1],
    after removing the frame from the buffer or before. *)
Inductive verdict := Continue | StopRemoved | StopKept.

(** The branch of a close frame.

    src/http/vox_http_ws.c:265-313: vox_http_ws_internal_feed *)
Definition handle_close p ws (data : option (list Z)) (len : Z)
  : option (P * vox_http_ws_conn * list ws_event * verdict) :=
  if len =? 1 then Some (p, ws, vox_http_ws_report_error ws BadCloseLength, StopRemoved) else
  let payload := default [] data in
  code ← (if 2 <=? len then b0 ← payload.[0]; b1 ← payload.[1]; Some (Z.lor (Z.shiftl b0 8) b1)
          else Some VOX_WS_CLOSE_NORMAL);
  if (2 <=? len) && negb (vox_http_ws_is_valid_close_code code)
  then Some (p, ws, vox_http_ws_report_error ws BadCloseCode, StopRemoved) else
  valid ← (if 2 <? len then vox_ws_validate_utf8 (Some (drop 2 payload)) (len - 2) else Some true);
  if negb (valid : bool) then Some (p, ws, vox_http_ws_report_error ws BadCloseUtf8, StopRemoved) else
  '(p, reason) ←
    (if 2 <? len then
       let '(p, r_at, r) := alloc_cells junk p (len - 2 + 1) 1 in
       if r_at =? NULL then Some (p, [0]) else
       r ← arr_blit r 0 payload 2 (len - 2);
       r ← r.[len - 2 <- 0];
       Some (p, r)
     else Some (p, [0]));
  n ← strlen reason;
  let called := call_cb (on_close (cbs ws)) (OnClose code (take (Z.to_nat n) reason)) in
  '(p, ws, sent) ← vox_http_ws_send_close_frame p ws code (Some reason);
  Some (p, ws, called ++ sent ++ [CloseConn], StopRemoved).

(** The branch of a continuation frame.

    src/http/vox_http_ws.c:322-351: vox_http_ws_internal_feed *)
Definition handle_continuation p ws (fin_ : bool) (data : option (list Z)) (len : Z)
  : option (P * vox_http_ws_conn * list ws_event * verdict) :=
  if negb (frag_active ws) then Some (p, ws, vox_http_ws_report_error ws UnexpectedContinuation, StopRemoved) else
  '(p, f) ← (if 0 <? len then
               '(p, f, _) ← vox_string_append_data junk p (frag ws) (Mem (default [] data)) len; Some (p, f)
             else Some (p, frag ws));
  let ws := with_frag ws f (frag_active ws) (frag_is_text ws) in
  if fin_ then
    let is_text := frag_is_text ws in
    let msg := vox_string_data (frag ws) in
    let mlen := vox_string_length (frag ws) in
    valid ← (if is_text then vox_ws_validate_utf8 (Some msg) mlen else Some true);
    if negb (valid : bool) then Some (p, ws, vox_http_ws_report_error ws BadUtf8, StopRemoved) else
    let delivered := vox_http_ws_deliver_message ws (take (Z.to_nat mlen) msg) is_text in
    f ← vox_string_clear (frag ws);
    Some (p, with_frag ws f false (frag_is_text ws), delivered, Continue)
  else Some (p, ws, [], Continue).

(** The branch of a text or binary frame.

    src/http/vox_http_ws.c:353-376: vox_http_ws_internal_feed *)
Definition handle_data p ws (fin_ is_text : bool) (data : option (list Z)) (len : Z)
  : option (P * vox_http_ws_conn * list ws_event * verdict) :=
  if negb fin_ then
    f ← vox_string_clear (frag ws);
    '(p, f) ← (if 0 <? len then
                 '(p, f, _) ← vox_string_append_data junk p f (Mem (default [] data)) len; Some (p, f)
               else Some (p, f));
    Some (p, with_frag ws f true is_text, [], Continue)
  else
    valid ← (if is_text then vox_ws_validate_utf8 data len else Some true);
    if negb (valid : bool) then Some (p, ws, vox_http_ws_report_error ws BadUtf8, StopRemoved) else
    Some (p, ws, vox_http_ws_deliver_message ws (take (Z.to_nat len) (default [] data)) is_text, Continue).

(** One complete frame.

    src/http/vox_http_ws.c:248-383: vox_http_ws_internal_feed *)
Definition handle_frame p ws (frame : vox_ws_frame)
  : option (P * vox_http_ws_conn * list ws_event * verdict) :=
  if negb (masked frame) then Some (p, ws, vox_http_ws_report_error ws UnmaskedFrame, StopKept) else
  let len := payload_len frame in
  '(p, copied) ←
    (if 0 <? len then
       let '(p, at_, cells) := alloc_cells junk p len 1 in
       if at_ =? NULL then Some (p, None) else
       cells ← arr_blit cells 0 (vox_string_data (buffer (parser ws))) (payload frame) len;
       cells ← vox_ws_mask_payload cells 0 len (mask_key frame);
       Some (p, Some (Some cells))
     else Some (p, Some None));
  match copied with
  | None => Some (p, ws, [], StopKept)
  | Some data =>
      if opcode frame =? VOX_WS_OP_CLOSE then handle_close p ws data len
      else if opcode frame =? VOX_WS_OP_PING then
        '(p, sent) ← vox_http_ws_send_frame p VOX_WS_OP_PONG data len;
        Some (p, ws, sent, Continue)
      else if opcode frame =? VOX_WS_OP_PONG then Some (p, ws, [], Continue)
      else if opcode frame =? VOX_WS_OP_CONTINUATION then handle_continuation p ws (fin frame) data len
      else if (opcode frame =? VOX_WS_OP_TEXT) || (opcode frame =? VOX_WS_OP_BINARY)
      then handle_data p ws (fin frame) (opcode frame =? VOX_WS_OP_TEXT) data len
      else Some (p, ws, vox_http_ws_report_error ws UnknownOpcode, StopRemoved)
  end.

(** [vox_string_remove(ws->parser->buffer, 0, frame_len)] *)
Definition consume ws (frame_len : Z) : option vox_http_ws_conn :=
  '(b, _) ← vox_string_remove (buffer (parser ws)) 0 frame_len;
  Some (with_parser ws (with_buffer (parser ws) b)).

(** The [while] loop: one round per frame. *)
Fixpoint feed_loop (fuel : nat) p ws (frame : vox_ws_frame)
  : option (P * vox_http_ws_conn * list ws_event * Z) :=
  match fuel with
  | O => None
  | S fuel =>
      '(frame, frame_len) ← vox_ws_parser_parse_frame (parser ws) frame;
      if frame_len <=? 0 then
        if frame_len <? 0 then Some (p, ws, vox_http_ws_report_error ws InvalidFrame, -1)
        else Some (p, ws, [], 0)
      else
        '(p, ws, events, v) ← handle_frame p ws frame;
        match v with
        | StopKept => Some (p, ws, events, -1)
        | StopRemoved => ws ← consume ws frame_len; Some (p, ws, events, -1)
        | Continue =>
            ws ← consume ws frame_len;
            '(p, ws, more, rc) ← feed_loop fuel p ws frame;
            Some (p, ws, events ++ more, rc)
        end
  end.

(** [frame] is the uninitialised local variable. Each round consumes at least one byte.

    src/http/vox_http_ws.c: vox_http_ws_internal_feed *)
Definition vox_http_ws_internal_feed p ws (frame : vox_ws_frame) (data : list Z)
  : option (P * vox_http_ws_conn * list ws_event * Z) :=
  if zlen data =? 0 then Some (p, ws, [], 0) else
  '(p, w, rc) ← vox_ws_parser_feed junk p (parser ws) (Mem data) (zlen data);
  let ws := with_parser ws w in
  if negb (rc =? 0) then Some (p, ws, [], -1) else
  feed_loop (S (Z.to_nat (vox_string_length (buffer w)))) p ws frame.

(** The connection's reads, in order, until one of them makes it close. *)
Fixpoint ws_run p ws (frame : vox_ws_frame) (reads : list (list Z))
  : option (P * vox_http_ws_conn * list ws_event * Z) :=
  match reads with
  | [] => Some (p, ws, [], 0)
  | data :: reads =>
      '(p, ws, events, rc) ← vox_http_ws_internal_feed p ws frame data;
      if negb (rc =? 0) then Some (p, ws, events, rc) else
      '(p, ws, more, rc) ← ws_run p ws frame reads;
      Some (p, ws, events ++ more, rc)
  end.

Definition sizeof_ws_conn : Z := 80.

(** src/http/vox_http_ws.c: vox_http_ws_internal_create *)
Definition vox_http_ws_internal_create p (c : ws_callbacks) : option (P * option vox_http_ws_conn) :=
  let '(p, at_) := mp_alloc p sizeof_ws_conn in
  if at_ =? NULL then Some (p, None) else
  '(p, w) ← vox_ws_parser_create junk p;
  '(p, f) ← vox_string_create junk p;
  match w, f with
  | Some w, Some f => Some (p, Some {| cbs := c; parser := w; frag := f; frag_active := false;
                                       frag_is_text := false; close_sent := false |})
  | _, _ => Some (p, None)
  end.
End operations.

(** ** The specification: a decoder of the byte stream *)

Record ws_state := { st_frag : list Z; st_active : bool; st_text : bool; st_closed : bool }.
Definition st_init : ws_state := {| st_frag := []; st_active := false; st_text := false; st_closed := false |}.

(** Text up to its first 0 byte: what a C string shows of a close reason. *)
Fixpoint until_nul (t : list Z) : list Z :=
  match t with [] => [] | x :: t => if x =? 0 then [] else x :: until_nul t end.

(** The decision [utf8_shape]. *)
Definition utf8_ok (t : list Z) : bool := default false (vox_ws_validate_utf8 (Some t) (zlen t)).

(** What a complete, masked frame with payload [t] does: events, next state, and
    whether the connection goes on. *)
Definition frame_spec (c : ws_callbacks) (st : ws_state) (fin_ : bool) (op : Z) (t : list Z)
  : list ws_event * ws_state * bool :=
  let err e := (call_cb (on_error c) (OnError e), st, false) in
  if op =? VOX_WS_OP_CLOSE then
    match t with
    | [_] => err BadCloseLength
    | [] =>
        (call_cb (on_close c) (OnClose VOX_WS_CLOSE_NORMAL []) ++
         (if st_closed st then [] else [Write (encode_frame true 0 8 None (close_payload VOX_WS_CLOSE_NORMAL []))])
         ++ [CloseConn], st, false)
    | b0 :: b1 :: reason =>
        let code := Z.lor (Z.shiftl b0 8) b1 in
        if negb (vox_http_ws_is_valid_close_code code) then err BadCloseCode
        else if negb (utf8_ok reason) then err BadCloseUtf8
        else (call_cb (on_close c) (OnClose code (until_nul reason)) ++
              (if st_closed st then [] else
               if utf8_ok (until_nul reason) && (zlen (until_nul reason) <=? 123)
               then [Write (encode_frame true 0 8 None (close_payload code (until_nul reason)))] else [])
              ++ [CloseConn], st, false)
    end
  else if op =? VOX_WS_OP_PING then ([Write (encode_frame true 0 10 None t)], st, true)
  else if op =? VOX_WS_OP_PONG then ([], st, true)
  else if op =? VOX_WS_OP_CONTINUATION then
    if negb (st_active st) then err UnexpectedContinuation else
    let whole := st_frag st ++ t in
    if fin_ then
      if st_text st && negb (utf8_ok whole) then err BadUtf8
      else (call_cb (on_message c) (Message whole (st_text st)),
            {| st_frag := []; st_active := false; st_text := st_text st; st_closed := st_closed st |}, true)
    else ([], {| st_frag := whole; st_active := true; st_text := st_text st; st_closed := st_closed st |}, true)
  else if (op =? VOX_WS_OP_TEXT) || (op =? VOX_WS_OP_BINARY) then
    let is_text := op =? VOX_WS_OP_TEXT in
    if fin_ then
      if is_text && negb (utf8_ok t) then err BadUtf8
      else (call_cb (on_message c) (Message t is_text), st, true)
    else ([], {| st_frag := t; st_active := true; st_text := is_text; st_closed := st_closed st |}, true)
  else err UnknownOpcode.

(** The payload of a parsed frame, unmasked. *)
Definition unmasked (b : list Z) (f : vox_ws_frame) : list Z :=
  xor_key (mask_key f) (default [] (arr_slice b (payload f) (payload_len f))) 0.

(** Frames taken off the front of a byte string until more data are needed: events,
    state, the bytes left, and whether the connection goes on. *)
Fixpoint stream_spec (fuel : nat) (c : ws_callbacks) (st : ws_state) (b : list Z)
  : list ws_event * ws_state * list Z * bool :=
  match fuel with
  | O => ([], st, b, true)
  | S fuel =>
      match parse_cells b (zlen b) no_frame with
      | None => ([], st, b, true)
      | Some (f, r) =>
          if r =? 0 then ([], st, b, true)
          else if r <? 0 then (call_cb (on_error c) (OnError InvalidFrame), st, b, false)
          else if negb (masked f) then (call_cb (on_error c) (OnError UnmaskedFrame), st, b, false)
          else
            let '(ev, st, go) := frame_spec c st (fin f) (opcode f) (unmasked b f) in
            if go then
              let '(ev', st, rest, go) := stream_spec fuel c st (drop (Z.to_nat r) b) in
              (ev ++ ev', st, rest, go)
            else (ev, st, b, false)
      end
  end.

(** The events of a byte stream, and whether the connection is still open. *)
Definition stream_events (c : ws_callbacks) (b : list Z) : list ws_event * bool :=
  let '(ev, _, _, go) := stream_spec (S (length b)) c st_init b in (ev, go).


(** ** What a parse that is not "more data" tells *)

Lemma get_byte b i x : is_bytes b -> b.[i] = Some x -> 0 <= x.
Proof.
  unfold arr_get, is_bytes. intros Hb. case_decide; [|done]. intros Hx. rewrite Forall_lookup in Hb.
  apply Hb in Hx. lia.
Qed.

Lemma bind_inv {A B} (o : option A) (k : A -> option B) y : (x ← o; k x) = Some y -> exists x, o = Some x /\ k x = Some y.
Proof. destruct o; cbn; [eauto|done]. Qed.

Lemma extended_nonneg b n x len h : is_bytes b -> 0 <= x -> extended_length b n x = Some (Some (len, h)) -> 0 <= len.
Proof.
  intros Hb Hx. unfold extended_length. repeat case_one; try done.
  - intros (b2 & E2 & E)%bind_inv. apply bind_inv in E as (b3 & E3 & [= <- <-]).
    apply Z.lor_nonneg. rewrite Z.shiftl_nonneg. by eauto using get_byte.
  - intros (b2 & E2 & E)%bind_inv. apply bind_inv in E as (b3 & E3 & E). apply bind_inv in E as (b4 & E4 & E).
    apply bind_inv in E as (b5 & E5 & E). apply bind_inv in E as (b6 & E6 & E). apply bind_inv in E as (b7 & E7 & E).
    apply bind_inv in E as (b8 & E8 & E). apply bind_inv in E as (b9 & E9 & [= <- <-]).
    rewrite !Z.lor_nonneg, !Z.shiftl_nonneg. split_and!; by eapply get_byte.
  - by intros [= <- <-].
Qed.

Lemma parse_view b g f r : parse_cells b (zlen b) g = Some (f, r) -> r <> 0 ->
  0 <= opcode f < 16 /\ (is_bytes b -> 0 <= payload_len f) /\ (masked f = true -> zlen (mask_key f) = 4) /\
  forall g', exists f', parse_cells b (zlen b) g' = Some (f', r) /\ masked f' = masked f /\ (masked f = true -> f' = f).
Proof.
  unfold parse_cells. intros E Hr. destruct (zlen b <? 2); [congruence|].
  apply bind_inv in E as (b0 & E0 & E). apply bind_inv in E as (b1 & E1 & E).
  apply bind_inv in E as (ext & Ex & E). destruct ext as [[len h]|]; [|congruence].
  cbn [masked with_payload_len mask_key] in E. set (m := negb (Z.land b1 128 =? 0)) in *.
  destruct (m && (zlen b <? h + 4)) eqn:Em; [congruence|]. apply bind_inv in E as (key & Ek & E).
  cbn [with_mask_key with_payload with_payload_len masked payload payload_len opcode fin mask_key] in E.
  destruct (zlen b <? u64 ((if m then h + 4 else h) + len)) eqn:Ef; [congruence|].
  set (bad := negb (Z.land (Z.land b0 15) 8 =? 0) && (negb (negb (Z.land b0 128 =? 0)) || (125 <? len))) in *.
  assert (r = (if bad then -1 else s32 (u64 ((if m then h + 4 else h) + len))) /\
    f = {| fin := negb (Z.land b0 128 =? 0); opcode := Z.land b0 15; masked := m; payload_len := len;
           mask_key := key; payload := if m then h + 4 else h |}) as [-> ->] by (destruct bad; injection E; auto).
  cbn [opcode payload_len masked mask_key]. split_and!.
  - rewrite land_15. apply Z.mod_pos_bound. lia.
  - rewrite land_15. apply Z.mod_pos_bound. lia.
  - intros Hb. eapply extended_nonneg; [done| |exact Ex]. apply Z.land_nonneg. right. lia.
  - intros Hm. rewrite Hm in Ek. unfold arr_slice in Ek. case_decide as Hd; [|done]. injection Ek as <-.
    rewrite zlen_take, zlen_drop. lia.
  - intros g'. destruct (zlen b <? 2); rewrite E0, E1; cbn [mbind option_bind]; rewrite Ex; cbn [mbind option_bind];
      cbn [masked with_payload_len mask_key]; fold m; rewrite Em.
    all: destruct m eqn:Hm; [rewrite Ek|]; cbn [mbind option_bind];
      cbn [with_mask_key with_payload with_payload_len masked payload payload_len opcode fin mask_key];
      rewrite Ef; fold bad; eexists; (split; [by destruct bad|]); done.
Qed.

Lemma lor_bound a b n : 0 <= n -> 0 <= a < 2 ^ n -> 0 <= b < 2 ^ n -> 0 <= Z.lor a b < 2 ^ n.
Proof.
  intros Hn Ha Hb. assert (0 <= Z.lor a b) by (apply Z.lor_nonneg; lia). split; [done|].
  destruct (decide (Z.lor a b = 0)) as [->|Hne]; [lia|].
  apply Z.log2_lt_cancel. rewrite Z.log2_lor, Z.log2_pow2 by lia.
  destruct (decide (n = 0)) as [->|]; [change (2 ^ 0) with 1 in *; assert (a = 0) as -> by lia; assert (b = 0) as -> by lia; done|].
  apply Z.max_lub_lt.
  - destruct (decide (a = 0)) as [->|]; [cbn; lia|]. apply Z.log2_lt_pow2; lia.
  - destruct (decide (b = 0)) as [->|]; [cbn; lia|]. apply Z.log2_lt_pow2; lia.
Qed.

Lemma get_is_byte b i x : is_bytes b -> b.[i] = Some x -> 0 <= x < 2 ^ 8.
Proof.
  unfold arr_get, is_bytes. intros Hb. case_decide; [|done]. intros Hx. rewrite Forall_lookup in Hb. by apply Hb in Hx.
Qed.

Lemma shifted_byte x k : 0 <= k <= 56 -> 0 <= x < 2 ^ 8 -> 0 <= Z.shiftl x k < 2 ^ 64.
Proof.
  intros Hk Hx. rewrite Z.shiftl_mul_pow2 by lia. split; [apply Z.mul_nonneg_nonneg; lia|].
  assert (2 ^ k <= 2 ^ 56) by (apply Z.pow_le_mono_r; lia). change (2 ^ 64) with (2 ^ 8 * 2 ^ 56). nia.
Qed.

Lemma extended_range b n x len h :
  is_bytes b -> 0 <= x < 2 ^ 64 -> extended_length b n x = Some (Some (len, h)) -> len < 2 ^ 64.
Proof.
  intros Hb Hx. unfold extended_length. repeat case_one; try done.
  - intros (b2 & E2 & E)%bind_inv. apply bind_inv in E as (b3 & E3 & [= <- <-]).
    apply (get_is_byte _ _ _ Hb) in E2, E3. apply lor_bound; [lia|apply shifted_byte; lia|lia].
  - intros (b2 & E2 & E)%bind_inv. apply bind_inv in E as (b3 & E3 & E). apply bind_inv in E as (b4 & E4 & E).
    apply bind_inv in E as (b5 & E5 & E). apply bind_inv in E as (b6 & E6 & E). apply bind_inv in E as (b7 & E7 & E).
    apply bind_inv in E as (b8 & E8 & E). apply bind_inv in E as (b9 & E9 & [= <- <-]).
    apply (get_is_byte _ _ _ Hb) in E2, E3, E4, E5, E6, E7, E8, E9.
    enough (0 <= Z.lor (Z.lor (Z.lor (Z.lor (Z.lor (Z.lor (Z.lor (Z.shiftl b2 56) (Z.shiftl b3 48)) (Z.shiftl b4 40))
      (Z.shiftl b5 32)) (Z.shiftl b6 24)) (Z.shiftl b7 16)) (Z.shiftl b8 8)) b9 < 2 ^ 64) by lia.
    do 7 (apply lor_bound; [lia| |lia || (apply shifted_byte; lia)]). apply shifted_byte; lia.
  - intros [= <- <-]. lia.
Qed.

(** A complete frame in a buffer of less than 2 GiB: its payload is in the buffer and
    the value returned is its size; or its length does not even fit in memory. *)
Lemma complete_frame b g f r :
  is_bytes b -> zlen b < 2 ^ 31 -> parse_cells b (zlen b) g = Some (f, r) -> 0 < r ->
  0 <= opcode f < 16 /\ (masked f = true -> zlen (mask_key f) = 4) /\ 2 <= payload f <= zlen b /\ r <= zlen b /\
  ((PTRDIFF_MAX < payload_len f < 2 ^ 64) \/ (0 <= payload_len f /\ r = payload f + payload_len f)).
Proof.
  intros Hb Hz E Hr. destruct (parse_view b g f r E) as (Hop & Hlen & Hkey & _); [lia|]. specialize (Hlen Hb).
  destruct (parse_stable b g) as (f' & r' & E' & Hst). rewrite E in E'. injection E' as <- <-.
  destruct (Hst ltac:(lia)) as (Hfit & Hpay & Hret & _). split; [done|]. split; [done|]. split; [done|].
  assert (r = u64 (payload f + payload_len f)) as Hru.
  { destruct Hret as [E1|E1]; [lia|]. rewrite s32_small in E1 by lia. done. }
  split; [lia|].
  assert (payload_len f < 2 ^ 64) as Hub.
  { unfold parse_cells in E. destruct (zlen b <? 2); [injection E; lia|].
    apply bind_inv in E as (b0 & E0 & E). apply bind_inv in E as (b1 & E1 & E).
    apply bind_inv in E as (ext & Ex & E). destruct ext as [[len h]|]; [|injection E; lia].
    cbn [masked with_payload_len mask_key] in E. destruct (_ && _); [injection E; lia|].
    apply bind_inv in E as (key & Ek & E).
    cbn [with_mask_key with_payload with_payload_len masked payload payload_len opcode fin mask_key] in E.
    destruct (zlen b <? _); [injection E; lia|].
    assert (payload_len f = len) as -> by (destruct (_ && _) in E; injection E; intros _ <-; done).
    eapply extended_range; [done| |exact Ex]. rewrite land_127. pose proof (Z.mod_pos_bound b1 128). lia. }
  unfold PTRDIFF_MAX. destruct (decide (payload f + payload_len f < 2 ^ 64)) as [Hs|Hs]; [right|left; lia].
  rewrite u64_small in Hru by lia. lia.
Qed.

(** ** The specification does not depend on how the bytes come in *)

Lemma drop_shorter (b : list Z) r : 0 < r -> 0 < zlen b -> (length (drop (Z.to_nat r) b) < length b)%nat.
Proof. intros Hr Hb. rewrite length_drop. unfold zlen in Hb. lia. Qed.

Lemma parse_nonempty b g f r : parse_cells b (zlen b) g = Some (f, r) -> r <> 0 -> 0 < zlen b.
Proof.
  intros E Hr. destruct (parse_stable b g) as (f' & r' & E' & Hst). rewrite E in E'. injection E' as <- <-.
  destruct (Hst Hr) as (_ & Hp & _). lia.
Qed.

Lemma stream_fuel n1 n2 c st b : (length b < n1)%nat -> (length b < n2)%nat -> stream_spec n1 c st b = stream_spec n2 c st b.
Proof.
  revert n2 st b. induction n1 as [|n1 IH]; intros n2 st b H1 H2; [lia|]. destruct n2 as [|n2]; [lia|]. cbn [stream_spec].
  destruct (parse_cells b (zlen b) no_frame) as [[f r]|] eqn:E; [|done]. destruct (Z.eqb_spec r 0) as [|Hr]; [done|].
  destruct (Z.ltb_spec r 0); [done|]. destruct (negb (masked f)); [done|].
  destruct (frame_spec c st (fin f) (opcode f) (unmasked b f)) as [[ev st1] go]. destruct go; [|done].
  pose proof (drop_shorter b r ltac:(lia) (parse_nonempty _ _ _ _ E Hr)). by rewrite (IH n2) by lia.
Qed.

(** What is left needs more data. *)
Definition pending b : Prop := exists f, parse_cells b (zlen b) no_frame = Some (f, 0).

Lemma stream_rest n c st b ev st' rest :
  (length b < n)%nat -> stream_spec n c st b = (ev, st', rest, true) -> (length rest <= length b)%nat.
Proof.
  revert st b ev. induction n as [|n IH]; intros st b ev Hn; [lia|]. cbn [stream_spec].
  destruct (parse_stable b no_frame) as (f & r & E & _). rewrite E. destruct (Z.eqb_spec r 0) as [->|Hr].
  { by intros [= _ _ <-]. }
  destruct (Z.ltb_spec r 0); [done|]. destruct (negb (masked f)); [done|].
  destruct (frame_spec c st (fin f) (opcode f) (unmasked b f)) as [[ev1 st1] go]. destruct go; [|done].
  pose proof (drop_shorter b r ltac:(lia) (parse_nonempty _ _ _ _ E Hr)).
  destruct (stream_spec n c st1 (drop (Z.to_nat r) b)) as [[[ev2 st2] rest2] go] eqn:Er. intros [= _ -> -> ->].
  pose proof (IH st1 (drop (Z.to_nat r) b) ev2 ltac:(lia) Er). lia.
Qed.

Lemma stream_pending n c st b : pending b -> stream_spec n c st b = ([], st, b, true).
Proof. intros [f E]. destruct n; cbn [stream_spec]; [done|]. by rewrite E. Qed.

(** Unmasking looks at the frame only. *)
Lemma unmasked_app b d f : zlen (b ++ d) < 2 ^ 31 -> 0 <= payload f ->
  (PTRDIFF_MAX < payload_len f < 2 ^ 64) \/ (0 <= payload_len f /\ payload f + payload_len f <= zlen b) ->
  unmasked (b ++ d) f = unmasked b f.
Proof.
  intros Hz Hp Hl. unfold unmasked. rewrite zlen_app in Hz. pose proof (zlen_nonneg d). pose proof (zlen_nonneg b).
  destruct Hl as [Hbig|[Hl Hfit]]; [|by rewrite arr_slice_app_l].
  unfold arr_slice, PTRDIFF_MAX in *. rewrite zlen_app. rewrite !decide_False by lia. done.
Qed.

Lemma stream_app n1 n2 c st b d :
  is_bytes (b ++ d) -> zlen (b ++ d) < 2 ^ 31 -> (length b < n1)%nat -> (length (b ++ d) < n2)%nat ->
  stream_spec n2 c st (b ++ d) =
  let '(ev, st1, rest, go) := stream_spec n1 c st b in
  if go : bool then let '(ev2, st2, rest2, go2) := stream_spec n2 c st1 (rest ++ d) in (ev ++ ev2, st2, rest2, go2)
  else (ev, st1, rest ++ d, false).
Proof.
  revert n2 st b. induction n1 as [|n1 IH]; intros n2 st b Hb Hz H1 H2; [lia|]. cbn [stream_spec].
  destruct (parse_stable b no_frame) as (f & r & E & Hst). rewrite E. destruct (Z.eqb_spec r 0) as [->|Hr].
  { by destruct (stream_spec n2 c st (b ++ d)) as [[[? ?] ?] ?]. }
  destruct (Hst Hr) as (_ & _ & _ & Happ). specialize (Happ d). destruct n2 as [|n2]; [lia|]. cbn [stream_spec].
  rewrite Happ, (proj2 (Z.eqb_neq r 0)) by done. destruct (Z.ltb_spec r 0) as [|Hpos]; [done|].
  destruct (masked f); cbn [negb]; [|done].
  pose proof Hb as [Hbb _]%Forall_app. pose proof (zlen_nonneg d). rewrite zlen_app in Hz.
  destruct (complete_frame b no_frame f r Hbb ltac:(lia) E ltac:(lia)) as (_ & _ & Hpay & Hrb & Hsize).
  rewrite unmasked_app by (rewrite ?zlen_app; lia).
  destruct (frame_spec c st (fin f) (opcode f) (unmasked b f)) as [[ev st1] go]. destruct go; [|done].
  rewrite drop_app_le by (unfold zlen in *; lia). set (b' := drop (Z.to_nat r) b) in *.
  pose proof (drop_shorter b r ltac:(lia) (parse_nonempty _ _ _ _ E Hr)) as Hsh. fold b' in Hsh.
  assert (is_bytes (b' ++ d)) as Hb' by (apply Forall_app in Hb as [? ?]; apply Forall_app; split; [by apply Forall_drop|done]).
  rewrite length_app in H2. rewrite (IH n2 st1 b' Hb'); [|rewrite zlen_app; unfold zlen in *; lia|lia|rewrite length_app; lia].
  destruct (stream_spec n1 c st1 b') as [[[ev1 st2] rest] go] eqn:Er. destruct go; [|done].
  pose proof (stream_rest n1 c st1 b' ev1 st2 rest ltac:(lia) Er) as Hlen.
  rewrite (stream_fuel n2 (S n2) c st2 (rest ++ d)) by (rewrite length_app; lia). cbn [stream_spec].
  destruct (match parse_cells (rest ++ d) (zlen (rest ++ d)) no_frame with Some _ => _ | None => _ end) as [[[ev2 st3] rest2] go2].
  by rewrite app_assoc.
Qed.

(** ** Texts *)

Lemma validate_utf8_ok c rest : zlen c < 2 ^ 63 -> vox_ws_validate_utf8 (Some (c ++ rest)) (zlen c) = Some (utf8_ok c).
Proof.
  intros Hc. destruct (validate_ok c rest Hc) as (r & -> & Hr). f_equal. unfold utf8_ok.
  destruct (validate_ok c [] Hc) as (r' & Hx & Hr'). rewrite app_nil_r in Hx. rewrite Hx. cbn [default id].
  apply eq_true_iff_eq. rewrite Hr. by symmetry.
Qed.

Lemma utf8_ok_shape c : zlen c < 2 ^ 63 -> utf8_ok c = true <-> utf8_shape c.
Proof.
  intros Hc. pose proof (validate_utf8_ok c [] Hc) as E. destruct (validate_ok c [] Hc) as (r & Hx & Hr).
  rewrite Hx in E. injection E as ->. done.
Qed.

Lemma until_nul_strlen t rest :
  strlen (t ++ 0 :: rest) = Some (zlen (until_nul t)) /\ take (Z.to_nat (zlen (until_nul t))) (t ++ 0 :: rest) = until_nul t /\
  zlen (until_nul t) <= zlen t.
Proof.
  induction t as [|x t (IH1 & IH2 & IH3)]; [done|]. cbn [until_nul app strlen]. destruct (Z.eqb_spec x 0) as [->|Hx].
  - rewrite !zlen_cons. change (zlen (@nil Z)) with 0. pose proof (zlen_nonneg t). split; [done|]. split; [done|]. lia.
  - rewrite IH1. cbn [fmap option_fmap option_map mbind option_bind]. rewrite !zlen_cons. pose proof (zlen_nonneg (until_nul t)).
    split; [f_equal; lia|]. split; [|lia]. rewrite Z2Nat.inj_add by lia. change (Z.to_nat 1) with 1%nat.
    cbn [Nat.add take]. by rewrite IH2.
Qed.

Lemma close_code_valid code : vox_http_ws_is_valid_close_code code = true ->
  1000 <= code <= 4999 /\ code <> 1004 /\ code <> 1005 /\ code <> 1006 /\ code <> 1015.
Proof.
  unfold vox_http_ws_is_valid_close_code. destruct (Z.ltb_spec code 1000); [done|]. destruct (Z.ltb_spec 4999 code); [done|].
  cbn [orb]. destruct (Z.eqb_spec code 1004), (Z.eqb_spec code 1005), (Z.eqb_spec code 1006), (Z.eqb_spec code 1015);
    cbn [orb]; (done || lia).
Qed.

(** ** The connection object *)

Section feed.
Context {Q : Type} `{MPoolLaws Q} (junk : Z).
#[local] Abbreviation P := (logged Q).
Implicit Types (p : P) (ws : vox_http_ws_conn) (st : ws_state) (b : list Z).

(** The connection holds the reassembly state [st] and the unread bytes [b]. *)
Record ws_rel p ws st (c : ws_callbacks) b : Prop := {
  wr_parser : parser_inv p (parser ws) b [];
  wr_frag : str_inv p (frag ws) (st_frag st);
  wr_apart1 : apart (buffer (parser ws)) (frag ws);
  wr_apart2 : apart (fragment (parser ws)) (frag ws);
  wr_active : frag_active ws = st_active st;
  wr_text : frag_is_text ws = st_text st;
  wr_closed : close_sent ws = st_closed st;
  wr_cbs : cbs ws = c;
}.

Lemma rel_pool p ws st c b : ws_rel p ws st c b -> mp_inv p.
Proof. intros [(Hb & _) _ _ _ _ _ _ _]. apply Hb. Qed.

Lemma rel_took p p' bs ws st c b : ws_rel p ws st c b -> took p p' bs -> ws_rel p' ws st c b.
Proof.
  intros [(Hb & Hf & Ha) Hg H1 H2 H3 H4 H5 H6] Ht. constructor; [split_and!; [..|done]|..]; try done.
  all: by eapply took_other.
Qed.

(** The fragment buffer changed. *)
Lemma rel_frag p p' ws st c b f' st' :
  ws_rel p ws st c b -> str_keep p (frag ws) p' f' (st_frag st') -> st_closed st' = st_closed st ->
  ws_rel p' (with_frag ws f' (st_active st') (st_text st')) st' c b.
Proof.
  intros [(Hb & Hf & Ha) Hg H1 H2 H3 H4 H5 H6] Hk Hc.
  destruct (keep_other _ _ _ _ _ _ _ _ Hk Hb (apart_sym _ _ H1) Hg) as [Hb' A1].
  destruct (keep_other _ _ _ _ _ _ _ _ Hk Hf (apart_sym _ _ H2) Hg) as [Hf' A2].
  constructor; cbn [cbs parser frag frag_active frag_is_text close_sent with_frag]; try done.
  - exact (proj1 Hk).
  - by apply apart_sym.
  - by apply apart_sym.
  - congruence.
Qed.

(** The input buffer changed. *)
Lemma rel_buffer p p' ws st c b w' b' :
  ws_rel p ws st c b -> str_keep p (buffer (parser ws)) p' w' b' ->
  ws_rel p' (with_parser ws (with_buffer (parser ws) w')) st c b'.
Proof.
  intros [(Hb & Hf & Ha) Hg H1 H2 H3 H4 H5 H6] Hk.
  destruct (keep_other _ _ _ _ _ _ _ _ Hk Hf Ha Hb) as [Hf' A2].
  destruct (keep_other _ _ _ _ _ _ _ _ Hk Hg H1 Hb) as [Hg' A1].
  constructor; cbn [cbs parser frag frag_active frag_is_text close_sent with_parser]; try done.
  cbn [buffer fragment with_buffer]. split; [apply Hk|by split].
Qed.

Lemma rel_closed p ws st c b : ws_rel p ws st c b ->
  ws_rel p (with_close_sent ws) {| st_frag := st_frag st; st_active := st_active st; st_text := st_text st; st_closed := true |} c b.
Proof. intros []. by constructor. Qed.

Lemma string_refused p p' q n : mp_inv q -> mp_alloc q n = (p', NULL) -> lg_refused p' = true.
Proof. intros _. apply refused_logged. Qed.

(** Appending a payload to the fragment buffer. *)
Lemma append_frag p ws st c b f t :
  ws_rel p ws st c b -> str_keep p (frag ws) p f (st_frag st) -> zlen (st_frag st) + zlen t < 2 ^ 32 -> exists p' f' c',
  (if 0 <? zlen t then '(p, f, _) ← vox_string_append_data junk p f (Mem t) (zlen t); Some (p, f) else Some (p, f))
    = Some (p', f') /\ str_keep p (frag ws) p' f' c' /\ evolves p p' /\
  ((c' = st_frag st \/ c' = st_frag st ++ t) /\ (lg_refused p' = true \/ c' = st_frag st ++ t)).
Proof.
  intros Hrel Hk Hz. pose proof (zlen_nonneg (st_frag st)).
  destruct (Z.ltb_spec 0 (zlen t)) as [Hpos|Hneg].
  2:{ assert (t = []) as -> by (apply nil_length_inv; unfold zlen in *; lia).
      exists p, f, (st_frag st). rewrite app_nil_r. split_and!; [done|apply Hk..|apply rtc_refl|by left|by right]. }
  destruct (append_data_ok junk p f (st_frag st) (Mem t) (zlen t)) as (p' & f' & rc & c' & -> & Hk' & Hres);
    [apply Hk|cbn; lia|].
  cbn [mbind option_bind]. exists p', f', c'. split; [done|]. split; [by apply (str_keep_trans _ _ _ _ _ _ _ _ Hk)|].
  split; [apply Hk'|]. cbn [bytes_of] in Hres. destruct (mem_bytes t (zlen t) ltac:(lia)) as (x & u & Eu & _).
  rewrite take_ge in * by (unfold zlen; lia). subst t. rewrite insert_spec_end in Hres.
  destruct Hres as [[= -> ->]|(-> & -> & [(q & n & Hq & _ & Hn)|Hbig])]; [auto|..|lia].
  split; [by left|]. left. by eapply string_refused.
Qed.

(** Taking a parsed frame off the buffer. *)
Lemma consume_ok p ws st c b r :
  ws_rel p ws st c b -> 0 < r <= zlen b -> exists ws',
  consume ws r = Some ws' /\ ws_rel p ws' st c (drop (Z.to_nat r) b).
Proof.
  intros Hrel Hr. pose proof Hrel as [(Hb & _) _ _ _ _ _ _ _].
  pose proof (str_inv_room _ _ _ Hb) as (Hroom & Hcap & _).
  destruct (remove_ok junk p (buffer (parser ws)) b 0 r Hb) as (p' & s' & n & c' & Hx & Hk & Hs); [cbn; lia|].
  cbn [string_exec] in Hx. destruct (vox_string_remove (buffer (parser ws)) 0 r) as [[s1 n1]|] eqn:E; [|done].
  cbn [mbind option_bind] in Hx. injection Hx as <- <- <-. destruct Hs as [Hs|[? _]]; [|done].
  cbn [string_spec] in Hs. rewrite (proj2 (Z.leb_gt (zlen b) 0)) in Hs by lia. injection Hs as -> ->.
  unfold consume. rewrite E. cbn [mbind option_bind]. eexists. split; [done|]. by eapply rel_buffer.
Qed.

(** The payload, copied out of the buffer and unmasked. *)
Lemma payload_copy p ws st c b f :
  ws_rel p ws st c b -> zlen (mask_key f) = 4 -> 0 <= payload f <= zlen b ->
  (PTRDIFF_MAX < payload_len f < 2 ^ 64) \/ (0 <= payload_len f /\ payload f + payload_len f <= zlen b) ->
  exists p' copied,
  (if 0 <? payload_len f then
     let '(p, at_, cells) := alloc_cells junk p (payload_len f) 1 in
     if at_ =? NULL then Some (p, None) else
     cells ← arr_blit cells 0 (vox_string_data (buffer (parser ws))) (payload f) (payload_len f);
     cells ← vox_ws_mask_payload cells 0 (payload_len f) (mask_key f);
     Some (p, Some (Some cells))
   else Some (p, Some None)) = Some (p', copied) /\ evolves p p' /\ ws_rel p' ws st c b /\
  match copied with
  | None => lg_refused p' = true
  | Some data => default [] data = unmasked b f /\ zlen (unmasked b f) = payload_len f /\
                 payload f + payload_len f <= zlen b
  end.
Proof.
  intros Hrel Hkey Hpay Hlen. pose proof (zlen_nonneg b). destruct (Z.ltb_spec 0 (payload_len f)) as [Hpos|Hz].
  2:{ exists p, (Some None). destruct Hlen as [Hbig|[Hl0 Hfit]]; [unfold PTRDIFF_MAX in *; lia|].
      assert (payload_len f = 0) as E0 by lia. split; [done|]. split; [apply rtc_refl|]. split; [done|].
      unfold unmasked, arr_slice. rewrite E0, decide_True by lia. split; [done|]. split; [done|]. lia. }
  destruct (alloc_cells junk p (payload_len f) 1) as [[p1 at_] cells] eqn:E.
  pose proof (rel_pool _ _ _ _ _ Hrel) as Hp. pose proof (evolves_cells _ _ _ _ _ _ _ E) as Hev.
  destruct (took_cells _ _ _ _ _ _ _ Hp E) as [[-> Htk]|(Hat & Htk & Hcells)].
  - exists p1, None. split; [done|]. split; [done|]. split; [by eapply rel_took|].
    eapply refused_logged. eapply alloc_cells_refused. exact E.
  - rewrite (proj2 (Z.eqb_neq at_ NULL)) by done. destruct Hlen as [Hbig|[Hl0 Hfit]].
    { exfalso. destruct (alloc_cells_spec junk p (payload_len f) 1 p1 at_ cells Hp) as (_ & _ & Hmax); [lia..|exact E|].
      destruct (Hmax Hat). lia. }
    pose proof Hrel as [([_ [rest Hd] _ Hcap Hmax _] & _) _ _ _ _ _ _ _].
    assert (zlen b < 2 ^ 63) as Hb63.
    { rewrite Hd, zlen_app, zlen_cons in Hcap. pose proof (zlen_nonneg rest). unfold PTRDIFF_MAX in *. lia. }
    destruct (arr_slice_Some b (payload f) (payload_len f)) as (t & Ht & Htz); [lia..|].
    assert (arr_blit cells 0 (vox_string_data (buffer (parser ws))) (payload f) (payload_len f) = Some t) as ->.
    { unfold vox_string_data. rewrite Hd. revert Ht. unfold arr_slice. rewrite decide_True by lia. intros [= <-].
      rewrite arr_blit_ok by (rewrite ?Hcells, ?zlen_replicate, ?zlen_app, ?zlen_cons, ?u64_small, ?Z.div_1_r; pose proof (zlen_nonneg rest); lia).
      f_equal. change (Z.to_nat 0) with 0%nat. rewrite take_0. cbn [app].
      rewrite (nil_length_inv (drop _ cells)), app_nil_r.
      - rewrite drop_app_le, take_app_le by (rewrite ?length_drop; unfold zlen in *; lia). done.
      - rewrite length_drop, Hcells, length_replicate, u64_small, Z.div_1_r by lia. lia. }
    cbn [mbind option_bind]. pose proof (mask_payload_ok (mask_key f) [] t [] Hkey) as Hm.
    rewrite app_nil_r, Htz in Hm. cbn [app] in Hm. change (zlen (@nil Z)) with 0 in Hm. rewrite Hm. cbn [mbind option_bind].
    rewrite app_nil_r. exists p1, (Some (Some (xor_key (mask_key f) t 0))).
    split; [done|]. split; [done|]. split; [by eapply rel_took|]. unfold unmasked. rewrite Ht. cbn [default id].
    split; [done|]. rewrite xor_key_zlen. split; [done|]. lia.
Qed.
(** ** What the branches do *)

(** A branch ran and did what [spec] says, or the pool refused on the way; the fragment
    buffer grew by at most [n] bytes. *)
Definition handled p st c b n (run : option (P * vox_http_ws_conn * list ws_event * verdict))
    (spec : list ws_event * ws_state * bool) : Prop :=
  exists p' ws' ev v st', run = Some (p', ws', ev, v) /\ evolves p p' /\ ws_rel p' ws' st' c b /\
    zlen (st_frag st') <= zlen (st_frag st) + n /\
    (lg_refused p' = true \/ (spec = (ev, st', true) /\ v = Continue) \/
     (exists st'', spec = (ev, st'', false)) /\ v = StopRemoved).

Lemma handled_stop p ws st c b n e :
  ws_rel p ws st c b -> 0 <= n ->
  handled p st c b n (Some (p, ws, vox_http_ws_report_error ws e, StopRemoved))
    (call_cb (on_error c) (OnError e), st, false).
Proof.
  intros Hrel Hn. exists p, ws, (vox_http_ws_report_error ws e), StopRemoved, st. split; [done|]. split; [apply rtc_refl|].
  split; [done|]. split; [lia|]. right. right. split; [|done]. exists st. unfold vox_http_ws_report_error.
  by rewrite (wr_cbs _ _ _ _ _ Hrel).
Qed.

Lemma send_close_ok p ws st c b code t :
  ws_rel p ws st c b -> vox_http_ws_is_valid_close_code code = true -> zlen t < 2 ^ 62 -> exists p' ws' sent st',
  vox_http_ws_send_close_frame junk p ws code (Some (t ++ [0])) = Some (p', ws', sent) /\ evolves p p' /\
  ws_rel p' ws' st' c b /\ st_frag st' = st_frag st /\
  (lg_refused p' = true \/
   sent = if st_closed st then [] else
          if utf8_ok (until_nul t) && (zlen (until_nul t) <=? 123)
          then [Write (encode_frame true 0 8 None (close_payload code (until_nul t)))] else []).
Proof.
  intros Hrel Hcode Ht. unfold vox_http_ws_send_close_frame. rewrite (wr_closed _ _ _ _ _ Hrel).
  destruct (st_closed st) eqn:Ec.
  { exists p, ws, [], st. split; [done|]. split; [apply rtc_refl|]. by split_and!; [..|right]. }
  pose proof (close_code_valid _ Hcode) as Hcv. destruct (until_nul_strlen t []) as (Hs & Htk & Hle).
  assert (reason_text (Some (t ++ [0])) = until_nul t) as Hrt.
  { unfold reason_text, cstr_of. by rewrite Hs. }
  assert (reason_ok (Some (t ++ [0]))) as Hrok.
  { intros l [= <-]. eexists. split; [exact Hs|]. lia. }
  assert (u16 code = code) as Hu by (rewrite u16_small by lia; done).
  pose proof (close_frame_ok junk p code _ false [0; 0; 0; 0] (rel_pool _ _ _ _ _ Hrel) ltac:(lia) Hrok eq_refl) as Hcf.
  rewrite Hrt in Hcf. cbv zeta in Hcf. cbv zeta. rewrite Hu. pose proof (rel_closed _ _ _ _ _ Hrel) as Hrel'.
  assert (zlen (until_nul t) < 2 ^ 63) as Hb63 by lia.
  assert (Hfin : forall p' built r sent, vox_ws_build_close_frame junk p code (Some (t ++ [0])) false [0; 0; 0; 0] = Some (p', built, r) ->
    (exists bs, took p p' bs) \/ p' = p ->
    match built with Some (_, bytes) => if r =? 0 then [Write bytes] else [] | None => [] end = sent ->
    (lg_refused p' = true \/ sent = if utf8_ok (until_nul t) && (zlen (until_nul t) <=? 123)
          then [Write (encode_frame true 0 8 None (close_payload code (until_nul t)))] else []) ->
    exists p2 ws' sent st', ('(p, built, r) ← vox_ws_build_close_frame junk p code (Some (t ++ [0])) false [0; 0; 0; 0];
       Some (p, with_close_sent ws, match built with Some (_, bytes) => if r =? 0 then [Write bytes] else [] | None => [] end))
       = Some (p2, ws', sent) /\ evolves p p2 /\ ws_rel p2 ws' st' c b /\ st_frag st' = st_frag st /\
      (lg_refused p2 = true \/ sent = if utf8_ok (until_nul t) && (zlen (until_nul t) <=? 123)
          then [Write (encode_frame true 0 8 None (close_payload code (until_nul t)))] else [])).
  { intros p' built r sent E Htk' <- Hres. pose proof (close_frame_evolves _ _ _ _ _ _ _ _ _ E) as Hev.
    rewrite E. cbn [mbind option_bind]. do 4 eexists. split; [done|]. split; [done|].
    split; [destruct Htk' as [[bs Htk']| ->]; [exact (rel_took _ _ _ _ _ _ _ Hrel' Htk')|exact Hrel']|]. by split. }
  case_decide as Hd.
  - destruct Hd as [_ Hz]. rewrite (proj2 (Z.leb_le (zlen (until_nul t)) 123)) in * by lia.
    destruct Hcf as [[Hn Hx]|(Hsh & p' & [(at_ & lk & Hx & Htk')|(Hx & Htk' & q & n & q' & Hq & Hev')])].
    + eapply Hfin; [exact Hx|by right|done|]. right. destruct (utf8_ok (until_nul t)) eqn:Eu; [|done].
      by apply utf8_ok_shape in Eu.
    + eapply Hfin; [exact Hx|left; eauto|done|]. right. by rewrite (proj2 (utf8_ok_shape _ Hb63) Hsh).
    + eapply Hfin; [exact Hx|left; eauto|done|]. left. eapply refused_stays; [exact Hev'|]. by eapply refused_logged.
  - eapply Hfin; [exact Hcf|by right|done|]. right.
    destruct (Z.leb_spec (zlen (until_nul t)) 123); [exfalso; tauto|]. by rewrite andb_false_r.
Qed.

(** The reason of a close frame, copied into a block of its own and terminated. *)
Lemma close_reason p ws st c b (b0 b1 : Z) (t : list Z) :
  ws_rel p ws st c b -> zlen t < 2 ^ 62 -> exists p' u,
  (if 2 <? zlen t + 2 then
     let '(p, r_at, r) := alloc_cells junk p (zlen t + 2 - 2 + 1) 1 in
     if r_at =? NULL then Some (p, [0]) else
     r ← arr_blit r 0 (b0 :: b1 :: t) 2 (zlen t + 2 - 2);
     r ← r.[zlen t + 2 - 2 <- 0];
     Some (p, r)
   else Some (p, [0])) = Some (p', u ++ [0]) /\ evolves p p' /\ ws_rel p' ws st c b /\ zlen u < 2 ^ 62 /\
  (lg_refused p' = true \/ u = t).
Proof.
  intros Hrel Ht. pose proof (zlen_nonneg t). destruct (Z.ltb_spec 2 (zlen t + 2)) as [Hpos|Hz].
  2:{ exists p, []. assert (t = []) as -> by (apply nil_length_inv; unfold zlen in *; lia).
      split; [done|]. split; [apply rtc_refl|]. split; [done|]. split; [done|]. by right. }
  replace (zlen t + 2 - 2) with (zlen t) by lia.
  destruct (alloc_cells junk p (zlen t + 1) 1) as [[p1 at_] cells] eqn:E.
  pose proof (rel_pool _ _ _ _ _ Hrel) as Hp. pose proof (evolves_cells _ _ _ _ _ _ _ E) as Hev.
  destruct (took_cells _ _ _ _ _ _ _ Hp E) as [[-> Htk]|(Hat & Htk & Hcells)].
  - exists p1, []. split; [done|]. split; [done|]. split; [by eapply rel_took|]. split; [done|]. left.
    eapply refused_logged. eapply alloc_cells_refused. exact E.
  - rewrite (proj2 (Z.eqb_neq at_ NULL)) by done.
    assert (cells = replicate (length t) junk ++ [junk]) as ->.
    { rewrite Hcells, u64_small, Z.div_1_r by lia. rewrite <-replicate_S_end. f_equal. unfold zlen. lia. }
    assert (arr_blit (replicate (length t) junk ++ [junk]) 0 (b0 :: b1 :: t) 2 (zlen t) = Some (t ++ [junk])) as ->.
    { rewrite (arr_blit_app [] (replicate (length t) junk) [junk]); [|done|by rewrite zlen_replicate|lia|rewrite !zlen_cons; lia].
      change (drop (Z.to_nat 2) (b0 :: b1 :: t)) with t. rewrite take_ge by (unfold zlen; lia). done. }
    cbn [mbind option_bind]. rewrite arr_set_app by done. cbn [mbind option_bind].
    exists p1, t. split; [done|]. split; [done|]. split; [by eapply rel_took|]. split; [done|]. by right.
Qed.

Lemma handle_close_ok p ws st c b data n :
  ws_rel p ws st c b -> zlen (default [] data) < 2 ^ 62 -> 0 <= n ->
  handled p st c b n (handle_close junk p ws data (zlen (default [] data)))
    (frame_spec c st true VOX_WS_OP_CLOSE (default [] data)).
Proof.
  intros Hrel Hz Hn. unfold handle_close. set (t := default [] data) in *.
  change (frame_spec c st true VOX_WS_OP_CLOSE t) with (frame_spec c st true 8 t). unfold frame_spec.
  change (8 =? VOX_WS_OP_CLOSE) with true. cbv iota.
  (* Any close frame that is answered. *)
  assert (Hans : forall code pl u, vox_http_ws_is_valid_close_code code = true -> ws_rel pl ws st c b ->
    zlen u < 2 ^ 62 -> handled pl st c b n
      (k ← strlen (u ++ [0]);
       let called := call_cb (on_close (cbs ws)) (OnClose code (take (Z.to_nat k) (u ++ [0]))) in
       '(p, ws, sent) ← vox_http_ws_send_close_frame junk pl ws code (Some (u ++ [0]));
       Some (p, ws, called ++ sent ++ [CloseConn], StopRemoved))
      (call_cb (on_close c) (OnClose code (until_nul u)) ++
        (if st_closed st then [] else if utf8_ok (until_nul u) && (zlen (until_nul u) <=? 123)
         then [Write (encode_frame true 0 8 None (close_payload code (until_nul u)))] else []) ++ [CloseConn], st, false)).
  { intros code pl u Hc Hrl Hu. destruct (until_nul_strlen u []) as (-> & Htk & _). cbn [mbind option_bind].
    destruct (send_close_ok pl ws st c b code u Hrl Hc Hu) as (p' & ws' & sent & st' & -> & Hev' & Hrel' & Hfr & Hres).
    cbn [mbind option_bind]. rewrite Htk, (wr_cbs _ _ _ _ _ Hrel).
    exists p', ws', (call_cb (on_close c) (OnClose code (until_nul u)) ++ sent ++ [CloseConn]), StopRemoved, st'.
    split; [done|]. split; [done|]. split; [done|]. split; [rewrite Hfr; lia|].
    destruct Hres as [?| ->]; [by left|]. right. right. split; [by eexists|done]. }
  destruct t as [|b0 [|b1 r]] eqn:Et.
  - change (zlen (@nil Z)) with 0. cbn [Z.eqb Z.leb Z.compare mbind option_bind andb Z.ltb negb].
    by apply (Hans _ p []).
  - apply handled_stop; done.
  - rewrite !zlen_cons in *. pose proof (zlen_nonneg r). rewrite (proj2 (Z.eqb_neq _ 1)) by lia.
    rewrite (proj2 (Z.leb_le 2 _)) by lia.
    cbn [andb mbind option_bind arr_get]. change ((b0 :: b1 :: r).[0]) with (Some b0). change ((b0 :: b1 :: r).[1]) with (Some b1).
    cbn [mbind option_bind]. destruct (vox_http_ws_is_valid_close_code _) eqn:Ecode; cbn [negb]; [|by apply handled_stop].
    replace (1 + (1 + zlen r)) with (zlen r + 2) by lia.
    assert ((if 2 <? zlen r + 2 then vox_ws_validate_utf8 (Some (drop 2 (b0 :: b1 :: r))) (zlen r + 2 - 2) else Some true)
      = Some (utf8_ok r)) as ->.
    { destruct (Z.ltb_spec 2 (zlen r + 2)).
      - cbn [drop]. replace (zlen r + 2 - 2) with (zlen r) by lia. rewrite <-(validate_utf8_ok r []) by lia. by rewrite app_nil_r.
      - assert (r = []) as -> by (apply nil_length_inv; unfold zlen in *; lia). done. }
    cbn [mbind option_bind]. destruct (utf8_ok r); cbn [negb]; [|by apply handled_stop].
    destruct (close_reason p ws st c b b0 b1 r Hrel ltac:(lia)) as (p1 & u & -> & Hev & Hrel1 & Hu & Hres).
    cbn [mbind option_bind]. destruct (Hans _ p1 u Ecode Hrel1 Hu) as (p' & ws' & ev & v & st' & Hx & Hev' & Hrel' & Hfr & Hr).
    exists p', ws', ev, v, st'. split; [exact Hx|]. split; [by etrans|]. split; [done|]. split; [done|].
    destruct Hres as [Href| ->]; [left|exact Hr]. by eapply refused_stays.
Qed.

(** The reassembled text, as the layer reads it. *)
Lemma frag_text p f t : str_inv p f t ->
  take (Z.to_nat (vox_string_length f)) (vox_string_data f) = t /\ vox_string_length f = zlen t /\
  vox_ws_validate_utf8 (Some (vox_string_data f)) (vox_string_length f) = Some (utf8_ok t).
Proof.
  intros Hi. pose proof (str_inv_room _ _ _ Hi) as (? & ? & _). destruct Hi as [_ [rest Hd] Hl _ _ _].
  unfold vox_string_data, vox_string_length. rewrite Hd, Hl. split; [|split; [done|]].
  - unfold zlen. by rewrite Nat2Z.id, take_app_length.
  - apply validate_utf8_ok. lia.
Qed.

Lemma handle_continuation_ok p ws st c b fin_ data :
  ws_rel p ws st c b -> zlen (st_frag st) + zlen (default [] data) < 2 ^ 32 ->
  handled p st c b (zlen (default [] data)) (handle_continuation junk p ws fin_ data (zlen (default [] data)))
    (frame_spec c st fin_ VOX_WS_OP_CONTINUATION (default [] data)).
Proof.
  intros Hrel Hz. set (t := default [] data) in *. pose proof (zlen_nonneg t) as Ht.
  unfold handle_continuation, frame_spec. change (VOX_WS_OP_CONTINUATION =? VOX_WS_OP_CLOSE) with false.
  change (VOX_WS_OP_CONTINUATION =? VOX_WS_OP_PING) with false. change (VOX_WS_OP_CONTINUATION =? VOX_WS_OP_PONG) with false.
  change (VOX_WS_OP_CONTINUATION =? VOX_WS_OP_CONTINUATION) with true. cbv iota.
  rewrite (wr_active _ _ _ _ _ Hrel). destruct (st_active st) eqn:Ea; cbn [negb]; [|by apply handled_stop].
  pose proof (wr_frag _ _ _ _ _ Hrel) as Hi. fold t.
  destruct (append_frag p ws st c b (frag ws) t Hrel (str_keep_refl _ _ _ Hi) Hz) as (p' & f' & c' & -> & Hk & Hev & Hc & Hres).
  cbn [mbind option_bind]. set (st1 := {| st_frag := c'; st_active := true; st_text := st_text st; st_closed := st_closed st |}).
  assert (frag_is_text ws = st_text st) as Htx by apply Hrel. rewrite Htx.
  pose proof (rel_frag p p' ws st c b f' st1 Hrel Hk eq_refl) as Hrel1. cbn [st_active st_text st1] in Hrel1.
  assert (zlen c' <= zlen (st_frag st) + zlen t) as Hc'.
  { destruct Hc as [->| ->]; rewrite ?zlen_app; lia. }
  destruct fin_.
  2:{ exists p', (with_frag ws f' true (st_text st)), [], Continue, st1. split; [done|]. split; [done|]. split; [done|].
      split; [done|]. destruct Hres as [?| ->]; [by left|]. right. by left. }
  pose proof (wr_frag _ _ _ _ _ Hrel1) as Hi1. cbn [frag with_frag frag_is_text st_frag st1] in *.
  destruct (frag_text _ _ _ Hi1) as (Htk & Hlen & Hval).
  assert ((if st_text st then vox_ws_validate_utf8 (Some (vox_string_data f')) (vox_string_length f') else Some true)
    = Some (negb (st_text st && negb (utf8_ok c')))) as ->.
  { destruct (st_text st); [rewrite Hval; by destruct (utf8_ok c')|done]. }
  cbn [mbind option_bind]. rewrite negb_involutive. destruct (st_text st && negb (utf8_ok c')) eqn:Eu.
  - exists p', (with_frag ws f' true (st_text st)), (vox_http_ws_report_error ws BadUtf8), StopRemoved, st1.
    split; [done|]. split; [done|]. split; [done|]. split; [done|]. destruct Hres as [?| ->]; [by left|].
    rewrite Eu. right. right. split; [|done]. eexists. unfold vox_http_ws_report_error. by rewrite (wr_cbs _ _ _ _ _ Hrel).
  - rewrite Htk. destruct (str_clear_ok p' f' c' Hi1) as (f2 & -> & Hk2). cbn [mbind option_bind].
    set (st2 := {| st_frag := []; st_active := false; st_text := st_text st; st_closed := st_closed st |}).
    pose proof (rel_frag p' p' _ st1 c b f2 st2 Hrel1 Hk2 eq_refl) as Hrel2.
    exists p', (with_frag ws f2 false (st_text st)), (vox_http_ws_deliver_message (with_frag ws f' true (st_text st)) c' (st_text st)), Continue, st2.
    split; [done|]. split; [done|]. split; [exact Hrel2|].
    split; [cbn; pose proof (zlen_nonneg (st_frag st)); change (zlen (@nil Z)) with 0; lia|].
    destruct Hres as [?| ->]; [by left|]. rewrite Eu. right. left. split; [|done].
    unfold vox_http_ws_deliver_message. cbn [cbs with_frag]. by rewrite (wr_cbs _ _ _ _ _ Hrel).
Qed.

Lemma handle_data_ok p ws st c b fin_ op data :
  op = VOX_WS_OP_TEXT \/ op = VOX_WS_OP_BINARY ->
  ws_rel p ws st c b -> zlen (default [] data) < 2 ^ 32 ->
  handled p st c b (zlen (default [] data))
    (handle_data junk p ws fin_ (op =? VOX_WS_OP_TEXT) data (zlen (default [] data)))
    (frame_spec c st fin_ op (default [] data)).
Proof.
  intros Hop Hrel Hz. set (t := default [] data) in *. pose proof (zlen_nonneg t) as Ht.
  pose proof (zlen_nonneg (st_frag st)) as Hf.
  assert (frame_spec c st fin_ op t =
    if fin_ then
      if (op =? VOX_WS_OP_TEXT) && negb (utf8_ok t) then (call_cb (on_error c) (OnError BadUtf8), st, false)
      else (call_cb (on_message c) (Message t (op =? VOX_WS_OP_TEXT)), st, true)
    else ([], {| st_frag := t; st_active := true; st_text := op =? VOX_WS_OP_TEXT; st_closed := st_closed st |}, true)) as ->
    by (destruct Hop as [-> | ->]; done).
  set (text := op =? VOX_WS_OP_TEXT). unfold handle_data. fold t. destruct fin_; cbn [negb].
  - assert ((if text then vox_ws_validate_utf8 data (zlen t) else Some true) = Some (negb (text && negb (utf8_ok t)))) as ->.
    { destruct text; [|done]. destruct data as [l|]; [|done].
      pose proof (validate_utf8_ok t [] ltac:(lia)) as Hv. rewrite app_nil_r in Hv. subst t. cbn [default id] in *.
      rewrite Hv. by destruct (utf8_ok l). }
    cbn [mbind option_bind]. rewrite negb_involutive. destruct (text && negb (utf8_ok t)); [by apply handled_stop|].
    exists p, ws, (vox_http_ws_deliver_message ws t text), Continue, st. rewrite take_ge by (unfold zlen; lia).
    split; [done|]. split; [apply rtc_refl|]. split; [done|]. split; [lia|]. right. left. split; [|done].
    unfold vox_http_ws_deliver_message. by rewrite (wr_cbs _ _ _ _ _ Hrel).
  - destruct (str_clear_ok p (frag ws) (st_frag st) (wr_frag _ _ _ _ _ Hrel)) as (f1 & -> & Hk1). cbn [mbind option_bind].
    set (st0 := {| st_frag := []; st_active := st_active st; st_text := st_text st; st_closed := st_closed st |}).
    pose proof (rel_frag p p ws st c b f1 st0 Hrel Hk1 eq_refl) as Hrel0.
    destruct (append_frag p _ st0 c b f1 t Hrel0 (str_keep_refl _ _ _ (proj1 Hk1)) ltac:(change (zlen (st_frag st0)) with 0; lia))
      as (p' & f' & c' & Hx & Hk & Hev & Hc & Hres).
    rewrite Hx. cbn [mbind option_bind].
    set (st1 := {| st_frag := c'; st_active := true; st_text := text; st_closed := st_closed st |}).
    pose proof (rel_frag p p' _ st0 c b f' st1 Hrel0 Hk eq_refl) as Hrel1.
    exists p', (with_frag ws f' true text), [], Continue, st1. split; [done|]. split; [done|]. split; [exact Hrel1|].
    split; [cbn [st_frag st1]; destruct Hc as [->| ->]; cbn [st_frag st0 app]; change (zlen (@nil Z)) with 0; lia|].
    destruct Hres as [?| ->]; [by left|]. right. by left.
Qed.

Lemma handle_ping_ok p ws st c b fin_ data n :
  ws_rel p ws st c b -> zlen (default [] data) < 2 ^ 62 -> 0 <= n ->
  handled p st c b n
    ('(p, sent) ← vox_http_ws_send_frame junk p VOX_WS_OP_PONG data (zlen (default [] data)); Some (p, ws, sent, Continue))
    (frame_spec c st fin_ VOX_WS_OP_PING (default [] data)).
Proof.
  intros Hrel Hz Hn. pose proof (zlen_nonneg (default [] data)). unfold vox_http_ws_send_frame.
  assert ((0 <? zlen (default [] data)) && match data with None => true | _ => false end = false) as ->
    by (destruct data; [by rewrite andb_false_r|done]).
  destruct (build_frame_ok junk p VOX_WS_OP_PONG data (zlen (default [] data)) false [0; 0; 0; 0] (rel_pool _ _ _ _ _ Hrel))
    as (p' & [(at_ & Hx & Hat & Htk)|(Hx & Htk & k & Hk & Ha)]); [done|lia|done|done|..];
    pose proof (build_frame_evolves _ _ _ _ _ _ _ _ _ _ Hx) as Hev; rewrite Hx; cbn [mbind option_bind].
  - do 5 eexists. split; [done|]. split; [done|]. split; [by eapply rel_took|]. split; [lia|]. right. left.
    split; [|done]. rewrite take_ge by (unfold zlen; lia). done.
  - do 5 eexists. split; [done|]. split; [done|]. split; [by eapply rel_took|]. split; [lia|]. left. by eapply refused_logged.
Qed.

Lemma handled_trans p p1 st c b n run spec : evolves p p1 -> handled p1 st c b n run spec -> handled p st c b n run spec.
Proof.
  intros Hev (p' & ws' & ev & v & st' & ? & ? & ?). exists p', ws', ev, v, st'. split; [done|]. split; [by etrans|done].
Qed.

(** One complete frame that fits. *)
Lemma handle_frame_ok p ws st c b f :
  ws_rel p ws st c b -> masked f = true -> zlen (mask_key f) = 4 -> 0 <= payload f <= zlen b ->
  0 <= payload_len f -> payload f + payload_len f <= zlen b -> zlen (st_frag st) + payload_len f < 2 ^ 32 ->
  (exists p', handle_frame junk p ws f = Some (p', ws, [], StopKept) /\ evolves p p' /\ lg_refused p' = true) \/
  handled p st c b (payload_len f) (handle_frame junk p ws f) (frame_spec c st (fin f) (opcode f) (unmasked b f)).
Proof.
  intros Hrel Hm Hkey Hpay Hlen Hfit Hsz. pose proof (zlen_nonneg (st_frag st)). unfold handle_frame. rewrite Hm. cbn [negb].
  destruct (payload_copy p ws st c b f Hrel Hkey Hpay ltac:(by right)) as (p1 & copied & -> & Hev & Hrel1 & Hc).
  cbn [mbind option_bind]. destruct copied as [data|]; [|left; eauto].
  right. destruct Hc as (Ht & Htz & _). rewrite <-Ht in *. rewrite <-Htz in *. apply (handled_trans _ p1); [done|].
  assert (frame_spec c st (fin f) VOX_WS_OP_CLOSE (default [] data) = frame_spec c st true VOX_WS_OP_CLOSE (default [] data)) as Hcl by done.
  destruct (Z.eqb_spec (opcode f) VOX_WS_OP_CLOSE) as [->|N1]; [rewrite Hcl; apply handle_close_ok; [done|lia|done]|].
  destruct (Z.eqb_spec (opcode f) VOX_WS_OP_PING) as [->|N2]; [apply handle_ping_ok; [done|lia|done]|].
  destruct (Z.eqb_spec (opcode f) VOX_WS_OP_PONG) as [->|N3].
  { exists p1, ws, [], Continue, st. split; [done|]. split; [apply rtc_refl|]. split; [done|]. split; [lia|]. right. by left. }
  destruct (Z.eqb_spec (opcode f) VOX_WS_OP_CONTINUATION) as [->|N4]; [by apply handle_continuation_ok|].
  destruct ((opcode f =? VOX_WS_OP_TEXT) || (opcode f =? VOX_WS_OP_BINARY)) eqn:Eo.
  - apply handle_data_ok; [|done|lia]. apply orb_true_iff in Eo as [E%Z.eqb_eq|E%Z.eqb_eq]; auto.
  - unfold frame_spec. rewrite !(proj2 (Z.eqb_neq (opcode f) _)) by done. rewrite Eo. by apply handled_stop.
Qed.

(** ** The loop over the frames *)

(** A parse returns the same value whatever the frame structure held before. *)
Lemma parse_same b g : exists f r f0, parse_cells b (zlen b) g = Some (f, r) /\
  parse_cells b (zlen b) no_frame = Some (f0, r) /\
  (r <> 0 -> masked f0 = masked f /\ (masked f = true -> f0 = f)).
Proof.
  destruct (parse_stable b g) as (f & r & E & _). destruct (parse_stable b no_frame) as (f0 & r0 & E0 & _).
  destruct (decide (r = 0)) as [->|Hr].
  - destruct (decide (r0 = 0)) as [->|Hr0]; [exists f, 0, f0; by split_and!|].
    destruct (parse_view _ _ _ _ E0 Hr0) as (_ & _ & _ & Hv). destruct (Hv g) as (f' & E' & _). congruence.
  - destruct (parse_view _ _ _ _ E Hr) as (_ & _ & _ & Hv). destruct (Hv no_frame) as (f' & E' & Hm & Hf).
    exists f, r, f'. by split_and!.
Qed.

Lemma feed_loop_ok fuel p ws st c b g :
  ws_rel p ws st c b -> is_bytes b -> zlen (st_frag st) + zlen b < 2 ^ 31 -> (length b < fuel)%nat ->
  exists p' ws' ev rc, feed_loop junk fuel p ws g = Some (p', ws', ev, rc) /\ evolves p p' /\
  ((rc = -1 /\ (lg_refused p' = true \/ exists st' rest, stream_spec fuel c st b = (ev, st', rest, false))) \/
   (rc = 0 /\ exists st' rest, ws_rel p' ws' st' c rest /\ is_bytes rest /\ pending rest /\ (length rest <= length b)%nat /\
      zlen (st_frag st') + zlen rest <= zlen (st_frag st) + zlen b /\
      (lg_refused p' = true \/ stream_spec fuel c st b = (ev, st', rest, true)))).
Proof.
  revert p ws st b g. induction fuel as [|fuel IH]; intros p ws st b g Hrel Hb Hz Hf; [lia|].
  pose proof (zlen_nonneg (st_frag st)) as Hst0. cbn [feed_loop stream_spec].
  rewrite (parser_reads p (parser ws) b g (proj1 (wr_parser _ _ _ _ _ Hrel))).
  destruct (parse_same b g) as (f & r & f0 & E & E0 & Hsame). rewrite E, E0. cbn [mbind option_bind].
  destruct (Z.eqb_spec r 0) as [->|Hr0].
  { do 4 eexists. split; [done|]. split; [apply rtc_refl|]. right. split; [done|]. exists st, b.
    split; [done|]. split; [done|]. split; [by eexists|]. split; [lia|]. split; [lia|by right]. }
  destruct (Hsame Hr0) as [Hmk Hfeq]. destruct (Z.ltb_spec r 0) as [Hneg|Hpos].
  { rewrite (proj2 (Z.leb_le r 0)) by lia. do 4 eexists. split; [done|]. split; [apply rtc_refl|]. left. split; [done|]. right.
    unfold vox_http_ws_report_error. rewrite (wr_cbs _ _ _ _ _ Hrel). eauto. }
  rewrite (proj2 (Z.leb_gt r 0)), Hmk by lia.
  destruct (complete_frame b g f r Hb ltac:(lia) E ltac:(lia)) as (_ & Hkey & Hpay & Hrb & Hsize).
  destruct (masked f) eqn:Em; cbn [negb].
  2:{ unfold handle_frame. rewrite Em. cbn [negb mbind option_bind]. do 4 eexists. split; [done|]. split; [apply rtc_refl|].
      left. split; [done|]. right. unfold vox_http_ws_report_error. rewrite (wr_cbs _ _ _ _ _ Hrel). eauto. }
  rewrite (Hfeq eq_refl). specialize (Hkey eq_refl). destruct Hsize as [Hbig|[Hlen ->]].
  { destruct (payload_copy p ws st c b f Hrel Hkey ltac:(lia) ltac:(by left)) as (p1 & copied & Hx & Hev & Hrel1 & Hc).
    unfold handle_frame. rewrite Em. cbn [negb]. rewrite Hx. cbn [mbind option_bind].
    destruct copied; [unfold PTRDIFF_MAX in *; lia|]. do 4 eexists. split; [done|]. split; [done|]. left. split; [done|by left]. }
  destruct (handle_frame_ok p ws st c b f Hrel Em Hkey) as [(p1 & Hx & Hev & Href)|(p1 & ws1 & ev & v & st1 & Hx & Hev & Hrel1 & Hfr & Hres)]; [lia..| |];
    rewrite Hx; cbn [mbind option_bind].
  { do 4 eexists. split; [done|]. split; [done|]. left. split; [done|by left]. }
  destruct (consume_ok p1 ws1 st1 c b (payload f + payload_len f) Hrel1 ltac:(lia)) as (ws2 & Hcons & Hrel2).
  destruct v.
  - rewrite Hcons. cbn [mbind option_bind]. set (b' := drop (Z.to_nat (payload f + payload_len f)) b) in *.
    assert (zlen b' = zlen b - (payload f + payload_len f)) as Hb' by (subst b'; rewrite zlen_drop; lia).
    assert (length b' <= length b)%nat as Hle by (unfold zlen in Hb'; lia).
    destruct (IH p1 ws2 st1 b' f Hrel2) as (p' & ws' & ev' & rc & -> & Hev' & Hrun); [by apply Forall_drop|lia|unfold zlen in *; lia|].
    cbn [mbind option_bind]. do 4 eexists. split; [done|]. split; [by etrans|].
    destruct Hres as [Href|[[-> _]|[_ [=]]]].
    + pose proof (refused_stays _ _ Hev' Href). destruct Hrun as [[-> _]|(-> & st' & rest & ? & ? & ? & ? & ? & _)]; [left; auto|].
      right. split; [done|]. exists st', rest. split; [done|]. split; [done|]. split; [done|]. split; [lia|]. split; [lia|by left].
    + destruct Hrun as [[-> [?|(st' & rest & ->)]]|(-> & st' & rest & ? & ? & ? & ? & ? & [?| ->])]; [left; auto|left; split; [done|right; eauto]|..];
        right; (split; [done|]); exists st', rest; (split; [done|]); (split; [done|]); (split; [done|]); (split; [lia|]); (split; [lia|auto]).
  - rewrite Hcons. cbn [mbind option_bind]. do 4 eexists. split; [done|]. split; [done|]. left. split; [done|].
    destruct Hres as [?|[[_ [=]]|[[st'' ->] _]]]; [by left|right; eauto].
  - do 4 eexists. split; [done|]. split; [done|]. left. split; [done|].
    destruct Hres as [?|[[_ [=]]|[_ [=]]]]. by left.
Qed.

(** ** The whole connection *)

Lemma internal_feed_ok p ws st c b g data :
  ws_rel p ws st c b -> is_bytes (b ++ data) -> zlen (st_frag st) + zlen (b ++ data) < 2 ^ 31 -> 0 < zlen data ->
  exists p' ws' ev rc n, vox_http_ws_internal_feed junk p ws g data = Some (p', ws', ev, rc) /\ evolves p p' /\
  (length (b ++ data) < n)%nat /\
  ((rc = -1 /\ (lg_refused p' = true \/ exists st' rest, stream_spec n c st (b ++ data) = (ev, st', rest, false))) \/
   (rc = 0 /\ exists st' rest, ws_rel p' ws' st' c rest /\ is_bytes rest /\ pending rest /\ (length rest <= length (b ++ data))%nat /\
      zlen (st_frag st') + zlen rest <= zlen (st_frag st) + zlen (b ++ data) /\
      (lg_refused p' = true \/ stream_spec n c st (b ++ data) = (ev, st', rest, true)))).
Proof.
  intros Hrel Hb Hz Hd. pose proof (zlen_nonneg (st_frag st)). pose proof (zlen_nonneg b). unfold vox_http_ws_internal_feed.
  rewrite (proj2 (Z.eqb_neq (zlen data) 0)) by lia. rewrite zlen_app in Hz.
  destruct (parser_feed_ok junk p (parser ws) b [] data (zlen data) (wr_parser _ _ _ _ _ Hrel))
    as (p1 & w1 & rc1 & c1 & Hx & Hinv & Hfr & Hk & Hres); [lia|lia|].
  rewrite Hx. cbn [mbind option_bind]. rewrite take_ge in Hres by (unfold zlen; lia).
  destruct Hres as [[-> ->]|(-> & -> & Href)]; cbn [Z.eqb negb].
  2:{ change (-1 =? 0) with false. cbn [negb].
      do 4 eexists. exists (S (length (b ++ data))). split; [done|]. split; [apply Hk|]. split; [lia|]. left. split; [done|].
      left. destruct Href as [(q & n & _ & _ & Hq)|Hbig]; [by eapply refused_logged|lia]. }
  pose proof (rel_buffer _ _ _ _ _ _ _ _ Hrel Hk) as Hrel1. rewrite <-Hfr in Hrel1.
  destruct Hinv as ([_ _ Hl _ _ _] & _). unfold vox_string_length at 1. rewrite Hl.
  destruct (feed_loop_ok (S (Z.to_nat (zlen (b ++ data)))) p1 _ st c (b ++ data) g Hrel1 Hb) as (p' & ws' & ev & rc & Hx2 & Hev & Hres);
    [rewrite zlen_app; lia|unfold zlen; lia|].
  exists p', ws', ev, rc, (S (Z.to_nat (zlen (b ++ data)))). split; [exact Hx2|].
  split; [by etrans; [apply Hk|]|]. split; [unfold zlen; lia|exact Hres].
Qed.

Lemma ws_run_ok reads p ws st c b g n :
  ws_rel p ws st c b -> is_bytes (b ++ concat reads) -> zlen (st_frag st) + zlen (b ++ concat reads) < 2 ^ 31 ->
  pending b -> (length (b ++ concat reads) < n)%nat ->
  exists p' ws' ev rc, ws_run junk p ws g reads = Some (p', ws', ev, rc) /\ evolves p p' /\
  (lg_refused p' = true \/ exists st' rest go, stream_spec n c st (b ++ concat reads) = (ev, st', rest, go) /\ (rc =? 0) = go).
Proof.
  revert p ws st b. induction reads as [|data reads IH]; intros p ws st b Hrel Hb Hz Hf Hn; cbn [concat ws_run] in *.
  { do 4 eexists. split; [done|]. split; [apply rtc_refl|]. right. rewrite app_nil_r, (stream_pending _ _ _ _ Hf). eauto. }
  destruct (decide (data = [])) as [->|Hne].
  { change (vox_http_ws_internal_feed junk p ws g []) with (Some (p, ws, @nil ws_event, 0)).
    cbn [mbind option_bind Z.eqb negb app]. destruct (IH p ws st b) as (p' & ws' & ev & rc & -> & Hev & Hrun); [done..|].
    cbn [mbind option_bind app]. do 4 eexists. split; [done|]. by split. }
  assert (0 < zlen data) as Hpos by (destruct data; [done|]; unfold zlen; cbn; lia).
  rewrite app_assoc in *. pose proof Hb as [Hb1 _]%Forall_app. rewrite (zlen_app (b ++ data)) in Hz.
  pose proof (zlen_nonneg (concat reads)). pose proof (zlen_nonneg (st_frag st)).
  destruct (internal_feed_ok p ws st c b g data Hrel Hb1 ltac:(lia) Hpos) as (p1 & ws1 & ev1 & rc1 & n1 & Hx & Hev & Hn1 & Hres).
  rewrite Hx. cbn [mbind option_bind].
  pose proof (stream_app n1 n c st (b ++ data) (concat reads) Hb ltac:(rewrite zlen_app; lia) Hn1 Hn) as Happ.
  destruct Hres as [[-> Hres]|(-> & st1 & rest & Hrel1 & Hbr & Hpend & Hlen & Hle & Hres)].
  - change (-1 =? 0) with false. cbn [negb]. do 4 eexists. split; [done|]. split; [done|].
    destruct Hres as [?|(st' & rest & Hs)]; [by left|right]. rewrite Happ, Hs. eauto.
  - change (0 =? 0) with true. cbn [negb].
    assert (is_bytes (rest ++ concat reads)) as Hb2 by (apply Forall_app; split; [done|by apply Forall_app in Hb as [_ ?]]).
    destruct (IH p1 ws1 st1 rest Hrel1 Hb2) as (p' & ws' & ev & rc & -> & Hev' & Hrun); [rewrite zlen_app; lia|done|rewrite !length_app in *; lia|].
    cbn [mbind option_bind]. do 4 eexists. split; [done|]. split; [by etrans|].
    destruct Hres as [Href|Hs]; [left; by eapply refused_stays|]. destruct Hrun as [?|(st' & rest' & go & Hs2 & Hgo)]; [by left|].
    right. rewrite Happ, Hs, Hs2. eauto.
Qed.

Lemma internal_create_ok p c : mp_inv p -> exists p' o,
  vox_http_ws_internal_create junk p c = Some (p', o) /\
  forall ws, o = Some ws -> ws_rel p' ws st_init c [].
Proof.
  intros Hp. unfold vox_http_ws_internal_create, vox_string_create. destruct (mp_alloc p sizeof_ws_conn) as [p1 at_] eqn:E.
  assert (mp_inv p1) as Hp1 by (eapply mp_alloc_spec; [exact Hp| |exact E]; unfold sizeof_ws_conn; lia).
  destruct (at_ =? NULL); [by do 2 eexists|].
  destruct (parser_create_ok junk p1 Hp1) as (p2 & o2 & -> & Hm2). cbn [mbind option_bind].
  assert (mp_inv p2) as Hp2 by (destruct o2; [destruct Hm2 as ([Hi _] & _); exact Hi|apply Hm2]).
  destruct (str_create_ok junk p2 None Hp2) as (p3 & o3 & -> & Hm3); [done|]. cbn [mbind option_bind].
  destruct o2 as [w|]; [|by do 2 eexists]. destruct o3 as [f|]; [|by do 2 eexists].
  do 2 eexists. split; [done|]. intros ws [= <-]. destruct Hm2 as (Hb & Hf & Ha).
  destruct (made_other _ _ _ _ _ _ Hm3 Hb) as [Hb' A1], (made_other _ _ _ _ _ _ Hm3 Hf) as [Hf' A2].
  constructor; cbn [parser frag frag_active frag_is_text close_sent cbs]; try done.
  exact (proj1 Hm3).
Qed.

(** C23: For a connection fresh from [vox_http_ws_internal_create], every sequence of
    reads (of less than 2 GiB in all), whatever bytes they hold, runs to an end without
    undefined behaviour. Unless the pool refused an allocation on the way, the callbacks
    made, the bytes written and whether the connection stays open are those of the frame
    decoder [stream_events] on the concatenation of the reads: reassembled messages,
    pongs, the close handshake and protocol errors, in order. So they do not depend on
    how the network cut the stream into reads. *)
Theorem ws_chunking p c g reads :
  mp_inv p -> is_bytes (concat reads) -> zlen (concat reads) < 2 ^ 31 -> exists p1 o,
  vox_http_ws_internal_create junk p c = Some (p1, o) /\
  forall ws, o = Some ws -> exists p2 ws' ev rc,
    ws_run junk p1 ws g reads = Some (p2, ws', ev, rc) /\
    (lg_refused p2 = true \/ stream_events c (concat reads) = (ev, rc =? 0)).
Proof.
  intros Hp Hb Hz. destruct (internal_create_ok p c Hp) as (p1 & o & -> & Hrel). do 2 eexists. split; [done|]. intros ws Ho.
  destruct (ws_run_ok reads p1 ws st_init c [] g (S (length (concat reads))) (Hrel ws Ho))
    as (p2 & ws' & ev & rc & Hx & _ & Hres); [done|done|by exists no_frame|cbn [app]; lia|].
  exists p2, ws', ev, rc. split; [exact Hx|]. destruct Hres as [?|(st' & rest & go & Hs & Hgo)]; [by left|right].
  unfold stream_events. cbn [app] in Hs. rewrite Hs. by rewrite Hgo.
Qed.
End feed.

(** ** A concrete run

    A text message in two fragments with a ping between them, then a close frame; cut
    into reads in the middle of headers and payloads. The memory comes from the pool of
    Mpool.v. *)

#[local] Existing Instance Mpool.mpool_bump.
#[local] Existing Instance Mpool.mpool_bump_laws.

Definition ex_cbs : ws_callbacks := {| on_message := true; on_close := true; on_error := true |}.
Definition ex_stream : list Z :=
  encode_frame false 0 1 (Some ex_key) [72; 101] ++ encode_frame true 0 9 (Some ex_key) [33] ++
  encode_frame true 0 0 (Some ex_key) [108; 108; 111] ++
  encode_frame true 0 8 (Some ex_key) (close_payload 1000 [98; 121; 101]).
Definition ex_reads : list (list Z) := [take 3 ex_stream; []; drop 3 (take 20 ex_stream); drop 20 ex_stream].
Definition ex_events : list ws_event :=
  [Write (encode_frame true 0 10 None [33]); Message hello true; OnClose 1000 [98; 121; 101];
   Write (encode_frame true 0 8 None (close_payload 1000 [98; 121; 101])); CloseConn].
Definition ex_pool : logged (Mpool.vox_mpool bump) := Logged Mpool.ex_mpool false.

Definition ex_run : option (list ws_event * Z * bool) :=
  '(p, o) ← vox_http_ws_internal_create 0 ex_pool ex_cbs;
  ws ← o; '(p, _, ev, rc) ← ws_run 0 p ws no_frame ex_reads; Some (ev, rc, lg_refused p).

Example ex_run_events : ex_run = Some (ex_events, -1, false).
Proof. vm_compute. reflexivity. Qed.

Lemma ws_chunking_witness : mp_inv ex_pool /\ exists p1 ws p2 ws' ev rc,
  vox_http_ws_internal_create 0 ex_pool ex_cbs = Some (p1, Some ws) /\
  ws_run 0 p1 ws no_frame ex_reads = Some (p2, ws', ev, rc) /\ lg_refused p2 = false /\
  stream_events ex_cbs (concat ex_reads) = (ev, rc =? 0) /\ ev = ex_events.
Proof.
  assert (mp_inv ex_pool) as Hp by exact Mpool.ex_mpool_ok. split; [exact Hp|].
  assert (is_bytes (concat ex_reads)) as Hb by (repeat constructor; done).
  destruct (ws_chunking 0 ex_pool ex_cbs no_frame ex_reads Hp Hb ltac:(done)) as (p1 & o & E & Hrun).
  pose proof ex_run_events as Hex. unfold ex_run in Hex. rewrite E in Hex. cbn [mbind option_bind] in Hex.
  destruct o as [ws|]; [|discriminate]. destruct (Hrun ws eq_refl) as (p2 & ws' & ev & rc & Hx & Hres).
  cbn [mbind option_bind] in Hex. rewrite Hx in Hex. cbn [mbind option_bind] in Hex. injection Hex as -> -> Hl.
  exists p1, ws, p2, ws', ex_events, (-1). rewrite Hl in Hres. destruct Hres as [[=]|Hs]. by split_and!.
Defined.
End HttpWs.
