(* ===== verification/Mqtt.v ===== *)
(** * vox_mqtt_parser.c: the streaming parser of MQTT packets

    The state machine of src/mqtt/vox_mqtt_parser.c: a fixed header, a remaining length
    of one to four bytes, then a packet gathered in a buffer of the pool and handed to
    the callback of its type. Callbacks are functions of the user's own state that
    return the [int] of the C callback; they do not call the parser.

    The theorems: on any input the parser ends, stays inside its blocks and gives back
    what it takes; and what it does depends only on the bytes received, as long as the
    caller keeps the bytes a call did not consume. *)

From Stdlib Require Import String Ascii.
From S2P Require Import Prelude Alloc CString.

Module Mqtt.
Import CString.

(** ** Constants

    src/mqtt/vox_mqtt_parser.h *)

Definition VOX_MQTT_PKT_CONNECT : Z := 1.
Definition VOX_MQTT_PKT_CONNACK : Z := 2.
Definition VOX_MQTT_PKT_PUBLISH : Z := 3.
Definition VOX_MQTT_PKT_PUBACK : Z := 4.
Definition VOX_MQTT_PKT_PUBREC : Z := 5.
Definition VOX_MQTT_PKT_PUBREL : Z := 6.
Definition VOX_MQTT_PKT_PUBCOMP : Z := 7.
Definition VOX_MQTT_PKT_SUBSCRIBE : Z := 8.
Definition VOX_MQTT_PKT_SUBACK : Z := 9.
Definition VOX_MQTT_PKT_UNSUBSCRIBE : Z := 10.
Definition VOX_MQTT_PKT_UNSUBACK : Z := 11.
Definition VOX_MQTT_PKT_PINGREQ : Z := 12.
Definition VOX_MQTT_PKT_PINGRESP : Z := 13.
Definition VOX_MQTT_PKT_DISCONNECT : Z := 14.
Definition VOX_MQTT_PKT_AUTH : Z := 15.

Definition VOX_MQTT_CONNACK_FLAG_SESSION_PRESENT : Z := 0x01.

Definition VOX_MQTT_CONNECT_FLAG_CLEAN_SESSION : Z := 0x02.
Definition VOX_MQTT_CONNECT_FLAG_WILL : Z := 0x04.
Definition VOX_MQTT_CONNECT_FLAG_WILL_QOS_SHIFT : Z := 3.
Definition VOX_MQTT_CONNECT_FLAG_WILL_RETAIN : Z := 0x20.
Definition VOX_MQTT_CONNECT_FLAG_USERNAME : Z := 0x80.
Definition VOX_MQTT_CONNECT_FLAG_PASSWORD : Z := 0x40.

Definition VOX_MQTT_PUBLISH_MASK_QOS : Z := 0x03.
Definition VOX_MQTT_PUBLISH_MASK_RETAIN : Z := 0x01.
Definition VOX_MQTT_PUBLISH_RETAIN_SHIFT : Z := 4.
Definition VOX_MQTT_PUBLISH_QOS_SHIFT : Z := 1.

Definition VOX_MQTT_SUBACK_FAILURE : Z := 0x80.
Definition VOX_MQTT_SUBSCRIBE_RESERVED : Z := 0x02.
Definition VOX_MQTT_UNSUBSCRIBE_RESERVED : Z := 0x02.
Definition VOX_MQTT_PUBREL_RESERVED : Z := 0x02.

Definition VOX_MQTT_DEFAULT_MAX_PAYLOAD : Z := 256 * 1024.
Definition VOX_MQTT_PARSER_INITIAL_BUF_SIZE : Z := 512.
Definition VOX_MQTT_PARSER_ERROR_BUF_SIZE : Z := 64.
Definition sizeof_mqtt_parser : Z := 296.

Definition VOX_MQTT5_PROP_SESSION_EXPIRY_INTERVAL : Z := 0x11.
Definition VOX_MQTT5_PROP_RECEIVE_MAXIMUM : Z := 0x21.

(** ** Data *)

(** What a CONNECT packet hands to its callback; [None] is a NULL pointer.

    src/mqtt/vox_mqtt_parser.h:89-94: vox_mqtt_on_connect_cb *)
Record connect_info := {
  ci_client_id : list Z;
  ci_version : Z;
  ci_keepalive : Z;
  ci_flags : Z;
  ci_will_topic : option (list Z);
  ci_will_msg : option (list Z);
  ci_username : option (list Z);
  ci_password : option (list Z);
  ci_session_expiry_interval : Z;
  ci_receive_maximum : Z;
}.

(** src/mqtt/vox_mqtt_parser.h:99-100: vox_mqtt_on_publish_cb *)
Record publish_info := {
  pi_qos : Z;
  pi_retain : bool;
  pi_packet_id : Z;
  pi_topic : list Z;
  pi_payload : option (list Z);
}.

(** A callback with arguments [A], run in the user's state [U]. *)
Definition callback (U A : Type) : Type := option (A -> U -> U * Z).

(** [cb(args)] where the code tests [cb] first. *)
Definition call {U A} (cb : callback U A) (a : A) (u : U) : U * Z :=
  match cb with Some f => f a u | None => (u, 0) end.

(** src/mqtt/vox_mqtt_parser.h:147-165: vox_mqtt_parser_callbacks_t *)
Record vox_mqtt_parser_callbacks_t (U : Type) := {
  on_connect : callback U connect_info;
  on_connack : callback U (Z * Z);
  on_publish : callback U publish_info;
  on_puback : callback U Z;
  on_pubrec : callback U Z;
  on_pubrel : callback U Z;
  on_pubcomp : callback U Z;
  on_subscribe : callback U (Z * list Z * Z);
  on_subscribe_done : callback U (Z * option (list Z));
  on_suback : callback U (Z * option (list Z));
  on_unsubscribe : callback U (Z * list Z);
  on_unsuback : callback U Z;
  on_pingreq : callback U unit;
  on_pingresp : callback U unit;
  on_disconnect : callback U unit;
  on_error : callback U (list Z);
}.
Arguments on_connect {U}.
Arguments on_connack {U}.
Arguments on_publish {U}.
Arguments on_puback {U}.
Arguments on_pubrec {U}.
Arguments on_pubrel {U}.
Arguments on_pubcomp {U}.
Arguments on_subscribe {U}.
Arguments on_subscribe_done {U}.
Arguments on_suback {U}.
Arguments on_unsubscribe {U}.
Arguments on_unsuback {U}.
Arguments on_pingreq {U}.
Arguments on_pingresp {U}.
Arguments on_disconnect {U}.
Arguments on_error {U}.

(** src/mqtt/vox_mqtt_parser.c:10-16: vox_mqtt_parser_state_t *)
Inductive vox_mqtt_parser_state_t :=
| VOX_MQTT_STATE_FIXED_HEADER
| VOX_MQTT_STATE_REMAINING_LEN
| VOX_MQTT_STATE_VARHEADER_PAYLOAD
| VOX_MQTT_STATE_DONE
| VOX_MQTT_STATE_ERROR.

#[export] Instance state_eq_dec : EqDecision vox_mqtt_parser_state_t.
Proof. solve_decision. Defined.

(** Where [error_message] points: nowhere, to [error_buf], or to a block of the pool. *)
Inductive error_ref := NoMessage | InErrorBuf | InBlock (at_ : Z) (text : list Z).

(** [buf] holds the cells of the block at [buf_at]; [self] is the struct's own block.

    src/mqtt/vox_mqtt_parser.c:47-74: vox_mqtt_parser *)
Record vox_mqtt_parser (U : Type) := {
  self : Z;
  cb : vox_mqtt_parser_callbacks_t U;
  max_payload : Z;
  state : vox_mqtt_parser_state_t;
  type_ : Z;
  flags : Z;
  remaining_len : Z;
  remaining_mult : Z;
  need : Z;
  buf_at : Z;
  buf : list Z;
  buf_cap : Z;
  buf_len : Z;
  has_error : bool;
  error_message : error_ref;
  error_buf : list Z;
  protocol_version : Z;
  connack_session_expiry_interval : Z;
  connack_receive_maximum : Z;
}.
Arguments self {U}.
Arguments cb {U}.
Arguments max_payload {U}.
Arguments state {U}.
Arguments type_ {U}.
Arguments flags {U}.
Arguments remaining_len {U}.
Arguments remaining_mult {U}.
Arguments need {U}.
Arguments buf_at {U}.
Arguments buf {U}.
Arguments buf_cap {U}.
Arguments buf_len {U}.
Arguments has_error {U}.
Arguments error_message {U}.
Arguments error_buf {U}.
Arguments protocol_version {U}.
Arguments connack_session_expiry_interval {U}.
Arguments connack_receive_maximum {U}.

Section setters.
Context {U : Type}.
Implicit Types m : vox_mqtt_parser U.

Definition with_state m s : vox_mqtt_parser U :=
  {| self := self m; cb := cb m; max_payload := max_payload m; state := s; type_ := type_ m; flags := flags m;
     remaining_len := remaining_len m; remaining_mult := remaining_mult m; need := need m;
     buf_at := buf_at m; buf := buf m; buf_cap := buf_cap m; buf_len := buf_len m;
     has_error := has_error m; error_message := error_message m; error_buf := error_buf m;
     protocol_version := protocol_version m;
     connack_session_expiry_interval := connack_session_expiry_interval m;
     connack_receive_maximum := connack_receive_maximum m |}.
Definition with_header m t f : vox_mqtt_parser U :=
  {| self := self m; cb := cb m; max_payload := max_payload m; state := state m; type_ := t; flags := f;
     remaining_len := remaining_len m; remaining_mult := remaining_mult m; need := need m;
     buf_at := buf_at m; buf := buf m; buf_cap := buf_cap m; buf_len := buf_len m;
     has_error := has_error m; error_message := error_message m; error_buf := error_buf m;
     protocol_version := protocol_version m;
     connack_session_expiry_interval := connack_session_expiry_interval m;
     connack_receive_maximum := connack_receive_maximum m |}.
Definition with_remaining m len mult : vox_mqtt_parser U :=
  {| self := self m; cb := cb m; max_payload := max_payload m; state := state m; type_ := type_ m; flags := flags m;
     remaining_len := len; remaining_mult := mult; need := need m;
     buf_at := buf_at m; buf := buf m; buf_cap := buf_cap m; buf_len := buf_len m;
     has_error := has_error m; error_message := error_message m; error_buf := error_buf m;
     protocol_version := protocol_version m;
     connack_session_expiry_interval := connack_session_expiry_interval m;
     connack_receive_maximum := connack_receive_maximum m |}.
Definition with_block m a b cap : vox_mqtt_parser U :=
  {| self := self m; cb := cb m; max_payload := max_payload m; state := state m; type_ := type_ m; flags := flags m;
     remaining_len := remaining_len m; remaining_mult := remaining_mult m; need := need m;
     buf_at := a; buf := b; buf_cap := cap; buf_len := buf_len m;
     has_error := has_error m; error_message := error_message m; error_buf := error_buf m;
     protocol_version := protocol_version m;
     connack_session_expiry_interval := connack_session_expiry_interval m;
     connack_receive_maximum := connack_receive_maximum m |}.
Definition with_fill m b len n : vox_mqtt_parser U :=
  {| self := self m; cb := cb m; max_payload := max_payload m; state := state m; type_ := type_ m; flags := flags m;
     remaining_len := remaining_len m; remaining_mult := remaining_mult m; need := n;
     buf_at := buf_at m; buf := b; buf_cap := buf_cap m; buf_len := len;
     has_error := has_error m; error_message := error_message m; error_buf := error_buf m;
     protocol_version := protocol_version m;
     connack_session_expiry_interval := connack_session_expiry_interval m;
     connack_receive_maximum := connack_receive_maximum m |}.
Definition with_error m has msg ebuf : vox_mqtt_parser U :=
  {| self := self m; cb := cb m; max_payload := max_payload m; state := state m; type_ := type_ m; flags := flags m;
     remaining_len := remaining_len m; remaining_mult := remaining_mult m; need := need m;
     buf_at := buf_at m; buf := buf m; buf_cap := buf_cap m; buf_len := buf_len m;
     has_error := has; error_message := msg; error_buf := ebuf;
     protocol_version := protocol_version m;
     connack_session_expiry_interval := connack_session_expiry_interval m;
     connack_receive_maximum := connack_receive_maximum m |}.
Definition with_protocol m v : vox_mqtt_parser U :=
  {| self := self m; cb := cb m; max_payload := max_payload m; state := state m; type_ := type_ m; flags := flags m;
     remaining_len := remaining_len m; remaining_mult := remaining_mult m; need := need m;
     buf_at := buf_at m; buf := buf m; buf_cap := buf_cap m; buf_len := buf_len m;
     has_error := has_error m; error_message := error_message m; error_buf := error_buf m;
     protocol_version := v;
     connack_session_expiry_interval := connack_session_expiry_interval m;
     connack_receive_maximum := connack_receive_maximum m |}.
Definition with_connack m expiry rmax : vox_mqtt_parser U :=
  {| self := self m; cb := cb m; max_payload := max_payload m; state := state m; type_ := type_ m; flags := flags m;
     remaining_len := remaining_len m; remaining_mult := remaining_mult m; need := need m;
     buf_at := buf_at m; buf := buf m; buf_cap := buf_cap m; buf_len := buf_len m;
     has_error := has_error m; error_message := error_message m; error_buf := error_buf m;
     protocol_version := protocol_version m;
     connack_session_expiry_interval := expiry;
     connack_receive_maximum := rmax |}.
End setters.

(** ** Decoding

    The decoders read the block [d] of the packet buffer at offsets. [None] is a read
    outside the block; [Some None] is [return -1]. *)

#[local] Abbreviation pres A := (option (option A)).
Definition pbind {A B} (e : pres A) (k : A -> pres B) : pres B :=
  match e with Some (Some x) => k x | Some None => Some None | None => None end.
Notation "x ←? e ; k" := (pbind e (fun x => k))
  (at level 20, e at level 100, k at level 200, only parsing) : vox_scope.
Notation "' x ←? e ; k" := (pbind e (fun x => k))
  (at level 20, x pattern, e at level 100, k at level 200, only parsing) : vox_scope.
Notation "'check!' b ; k" := (if b then k else Some None)
  (at level 10, b at level 100, k at level 200) : vox_scope.

(** [(uint16_t)((d[off] << 8) | d[off + 1])] *)
Definition get16 (d : list Z) (off : Z) : option Z :=
  b0 ← d.[off]; b1 ← d.[off + 1]; Some (u16 (Z.lor (Z.shiftl b0 8) b1)).

(** [(uint32_t)((d[off] << 24) | (d[off+1] << 16) | (d[off+2] << 8) | d[off+3])]: the first
    shift reaches the sign bit of an int, which compilers define as here. *)
Definition get32 (d : list Z) (off : Z) : option Z :=
  b0 ← d.[off]; b1 ← d.[off + 1]; b2 ← d.[off + 2]; b3 ← d.[off + 3];
  Some (u32 (Z.lor (Z.lor (Z.lor (Z.shiftl b0 24) (Z.shiftl b1 16)) (Z.shiftl b2 8)) b3)).

(** The results 0, -1 and 1 of the two length decoders, with their output values. *)
Inductive varint := NeedMore | Malformed | Got (value num_bytes : Z).

(** The loop from position [i], with [n = 4 - i]. *)
Fixpoint varint_loop (n : nat) (data : list Z) (pos len i v mult : Z) : option varint :=
  match n with
  | O => Some Malformed
  | S n =>
      if negb (i <? len) then Some NeedMore else
      b ← data.[pos + i];
      let v := u32 (v + u32 (Z.land b 127 * mult)) in
      if b <? 128 then Some (Got v (i + 1)) else
      varint_loop n data pos len (i + 1) v (u32 (mult * 128))
  end.

(** [data] is [data + pos].

    src/mqtt/vox_mqtt_parser.c: decode_varint *)
Definition decode_varint (data : list Z) (pos len : Z) : option varint := varint_loop 4 data pos len 0 0 1.

Fixpoint remaining_loop (n : nat) (data : list Z) (len i v mult : Z) : option varint :=
  match n with
  | O => Some Malformed
  | S n =>
      if negb (i <? len) then Some NeedMore else
      b ← data.[i];
      if 127 <? b then
        remaining_loop n data len (i + 1) (u32 (v + u32 (Z.land b 127 * mult))) (u32 (mult * 128))
      else Some (Got (u32 (v + u32 (b * mult))) (i + 1))
  end.

(** src/mqtt/vox_mqtt_parser.c: decode_remaining_length *)
Definition decode_remaining_length (data : list Z) (len : Z) : option varint := remaining_loop 4 data len 0 0 1.

(** The cases of the switch over the property identifiers. *)
Definition fixed4_ids : list Z := [0x11; 0x2B; 0x2E].
Definition fixed2_ids : list Z := [0x21; 0x22; 0x23].
Definition fixed1_ids : list Z := [0x27; 0x25; 0x28; 0x29; 0x2A; 0x31].
Definition sized_ids : list Z := [0x2D; 0x12; 0x1F; 0x13; 0x1A; 0x1C; 0x15; 0x16; 0x2F].
Definition one_of (x : Z) (l : list Z) : bool := existsb (Z.eqb x) l.

(** [ptr] is [d + pos].

    src/mqtt/vox_mqtt_parser.c: property_value_skip *)
Definition property_value_skip (id : Z) (d : list Z) (pos len : Z) : option Z :=
  if one_of id fixed4_ids then Some (if 4 <=? len then 4 else -1)
  else if one_of id fixed2_ids then Some (if 2 <=? len then 2 else -1)
  else if one_of id fixed1_ids then Some (if 1 <=? len then 1 else -1)
  else if one_of id sized_ids then
    if 2 <=? len then n ← get16 d pos; Some (if 2 + n <=? len then 2 + n else -1) else Some (-1)
  else if id =? 0x2C then
    r ← decode_varint d pos len;
    Some (match r with Got _ num_bytes => num_bytes | _ => -1 end)
  else if id =? 0x26 then
    if 4 <=? len then
      k ← get16 d pos;
      if 4 + k <=? len then
        v ← get16 d (pos + (2 + k));
        Some (if 4 + k + v <=? len then 4 + k + v else -1)
      else Some (-1)
    else Some (-1)
  else Some (-1).

(** The loop over a property block: the session expiry interval and the receive
    maximum it sets. Each round takes at least two bytes.

    src/mqtt/vox_mqtt_parser.c:332-341: parse_connect_payload *)
Fixpoint read_props (fuel : nat) (d : list Z) (pos prop_end expiry rmax : Z) : option (Z * Z) :=
  match fuel with
  | O => None
  | S fuel =>
      if negb (pos <? prop_end) then Some (expiry, rmax) else
      id ← d.[pos];
      let pos := pos + 1 in
      skip ← property_value_skip id d pos (prop_end - pos);
      if skip <=? 0 then Some (expiry, rmax) else
      expiry ← (if (id =? VOX_MQTT5_PROP_SESSION_EXPIRY_INTERVAL) && (4 <=? skip) then get32 d pos
                else Some expiry);
      rmax ← (if (id =? VOX_MQTT5_PROP_RECEIVE_MAXIMUM) && (2 <=? skip) then get16 d pos else Some rmax);
      read_props fuel d (pos + skip) prop_end expiry rmax
  end.

Definition props_fuel (pos prop_end : Z) : nat := S (Z.to_nat (prop_end - pos)).

(** A length of two bytes and that many bytes: the field and the offset after it.

    src/mqtt/vox_mqtt_parser.c:345-353: parse_connect_payload *)
Definition take_field (d : list Z) (len off : Z) : pres (list Z * Z) :=
  check! off + 2 <=? len;
  n ← get16 d off;
  let off := off + 2 in
  check! off + n <=? len;
  s ← arr_slice d off n;
  Some (Some (s, off + n)).

(** A field that is there when the flag is set. *)
Definition take_field_if (b : bool) (d : list Z) (len off : Z) : pres (option (list Z) * Z) :=
  if b then '(s, off) ←? take_field d len off; Some (Some (Some s, off)) else Some (Some (None, off)).

(** The property block in front of the payload, skipped as a whole.

    src/mqtt/vox_mqtt_parser.c:433-440: parse_publish_payload *)
Definition skip_props (v5 : bool) (d : list Z) (len off : Z) : pres Z :=
  if negb v5 then Some (Some off) else
  check! off <? len;
  r ← decode_varint d off (len - off);
  match r with
  | Got prop_len varint_len =>
      let off := off + (varint_len + prop_len) in
      check! off <=? len; Some (Some off)
  | _ => Some None
  end.

(** What comes after the variable header of a CONNECT packet, from [off] on.

    src/mqtt/vox_mqtt_parser.c:321-405: parse_connect_payload *)
Definition connect_fields (d : list Z) (len version keepalive cflags off : Z) : pres connect_info :=
  '(expiry, rmax, off) ←?
    (if version =? 5 then
       r ← decode_varint d off (len - off);
       match r with
       | Got prop_len varint_len =>
           let prop_start := off + varint_len in
           let prop_end := prop_start + prop_len in
           check! prop_end <=? len;
           '(expiry, rmax) ← read_props (props_fuel prop_start prop_end) d prop_start prop_end 0 0;
           Some (Some (expiry, rmax, prop_end))
       | _ => Some None
       end
     else Some (Some (0, 0, off)));
  '(client_id, off) ←? take_field d len off;
  let has flag := negb (Z.land cflags flag =? 0) in
  '(will_topic, will_msg, off) ←?
    (if has VOX_MQTT_CONNECT_FLAG_WILL then
       off ←? (if version =? 5 then
                 check! off <=? len;
                 r ← decode_varint d off (len - off);
                 match r with
                 | Got will_prop_len varint_len => Some (Some (off + (varint_len + will_prop_len)))
                 | _ => Some None
                 end
               else Some (Some off));
       '(t, off) ←? take_field d len off;
       '(w, off) ←? take_field d len off;
       Some (Some (Some t, Some w, off))
     else Some (Some (None, None, off)));
  '(username, off) ←? take_field_if (has VOX_MQTT_CONNECT_FLAG_USERNAME) d len off;
  '(password, off) ←? take_field_if (has VOX_MQTT_CONNECT_FLAG_PASSWORD) d len off;
  Some (Some {| ci_client_id := client_id; ci_version := version; ci_keepalive := keepalive; ci_flags := cflags;
                ci_will_topic := will_topic; ci_will_msg := will_msg;
                ci_username := username; ci_password := password;
                ci_session_expiry_interval := expiry; ci_receive_maximum := rmax |}).

(** The first byte's low half gives the quality of service and, shifted by
    [VOX_MQTT_PUBLISH_RETAIN_SHIFT], the retain flag.

    src/mqtt/vox_mqtt_parser.c:421-442: parse_publish_payload *)
Definition publish_fields (pflags : Z) (v5 : bool) (d : list Z) (len : Z) : pres publish_info :=
  check! negb (len <? 2);
  topic_len ← get16 d 0;
  check! negb (len <? 2 + topic_len);
  topic ← arr_slice d 2 topic_len;
  let off := 2 + topic_len in
  let qos := Z.land (Z.shiftr pflags VOX_MQTT_PUBLISH_QOS_SHIFT) VOX_MQTT_PUBLISH_MASK_QOS in
  '(packet_id, off) ←?
    (if 0 <? qos then
       check! off + 2 <=? len;
       packet_id ← get16 d off;
       Some (Some (packet_id, off + 2))
     else Some (Some (0, off)));
  off ←? skip_props v5 d len off;
  payload ← (if off <? len then s ← arr_slice d off (len - off); Some (Some s) else Some None);
  let retain := Z.land (Z.shiftr pflags VOX_MQTT_PUBLISH_RETAIN_SHIFT) VOX_MQTT_PUBLISH_MASK_RETAIN in
  Some (Some {| pi_qos := qos; pi_retain := negb (retain =? 0); pi_packet_id := packet_id;
                pi_topic := topic; pi_payload := payload |}).

(** The counting loop of SUBSCRIBE.

    src/mqtt/vox_mqtt_parser.c:467-475: parse_subscribe_payload *)
Fixpoint count_filters (fuel : nat) (d : list Z) (len off count : Z) : option Z :=
  match fuel with
  | O => None
  | S fuel =>
      if negb (off + 2 <=? len) then Some count else
      n ← get16 d off;
      let off := off + 2 in
      if len <? off + n + 1 then Some count else
      count_filters fuel d len (off + (n + 1)) (count + 1)
  end.

(** src/mqtt/vox_mqtt_parser.c: parse_packet_id_with_v5_props *)
Definition packet_id_with_v5_props (v5 : bool) (d : list Z) (len : Z) : pres Z :=
  check! negb (len <? 2);
  packet_id ← get16 d 0;
  if v5 && (2 <? len) then
    r ← decode_varint d 2 (len - 2);
    match r with
    | Got prop_len varint_len => check! negb (len <? 2 + varint_len + prop_len); Some (Some packet_id)
    | _ => Some None
    end
  else Some (Some packet_id).

(** ** The parser

    [p] is the pool, [m] the parser, [u] the user's state. *)

Section parser.
Context {P U : Type} `{MPool P}.
Context (junk : Z).
Implicit Types (p : P) (m : vox_mqtt_parser U) (u : U).

Definition world : Type := P * vox_mqtt_parser U * U.

(** A message is given without its terminator.

    src/mqtt/vox_mqtt_parser.c: set_error *)
Definition set_error p m u (msg : list Z) : option world :=
  let m := with_state (with_error m true (error_message m) (error_buf m)) VOX_MQTT_STATE_ERROR in
  let p := match error_message m with InBlock a _ => mp_free p a | _ => p end in
  let m := with_error m true NoMessage (error_buf m) in
  let n := zlen msg in
  '(p, m) ←
    (if n <? VOX_MQTT_PARSER_ERROR_BUF_SIZE then
       b ← arr_blit (error_buf m) 0 (msg ++ [0]) 0 (n + 1);
       Some (p, with_error m true InErrorBuf b)
     else
       let '(p, a, cells) := alloc_cells junk p (n + 1) 1 in
       if a =? NULL then
         let cap := VOX_MQTT_PARSER_ERROR_BUF_SIZE - 1 in
         b ← arr_blit (error_buf m) 0 msg 0 cap;
         b ← b.[cap <- 0];
         Some (p, with_error m true InErrorBuf b)
       else
         cells ← arr_blit cells 0 (msg ++ [0]) 0 (n + 1);
         Some (p, with_error m true (InBlock a cells) (error_buf m)));
  let '(u, _) := call (on_error (cb m)) msg u in
  Some (p, m, u).

(** [set_error(p, msg); return -1;] *)
Definition fail p m u (msg : String.string) : option (world * Z) :=
  w ← set_error p m u (bytes_of msg); Some (w, -1).

(** The doubling loop. *)
Fixpoint double_cap (fuel : nat) (cap n : Z) : option Z :=
  match fuel with
  | O => None
  | S fuel => if cap <? n then double_cap fuel (u64 (cap * 2)) n else Some cap
  end.

(** src/mqtt/vox_mqtt_parser.c: ensure_buf *)
Definition ensure_buf p m (n : Z) : option (P * vox_mqtt_parser U * Z) :=
  if n <=? buf_cap m then Some (p, m, 0) else
  let cap := if 0 <? buf_cap m then buf_cap m else VOX_MQTT_PARSER_INITIAL_BUF_SIZE in
  cap ← double_cap 64 cap n;
  let cap := if max_payload m <? cap then max_payload m else cap in
  if cap <? n then Some (p, m, -1) else
  let '(p, a, b) := alloc_cells junk p cap 1 in
  if a =? NULL then Some (p, m, -1) else
  b ← (if negb (buf_at m =? NULL) && (0 <? buf_len m) then arr_blit b 0 (buf m) 0 (buf_len m) else Some b);
  let p := if buf_at m =? NULL then p else mp_free p (buf_at m) in
  Some (p, with_block m a b cap, 0).

(** [config]: [None] is a NULL pointer; the pair is [max_payload] and
    [protocol_version]. [callbacks] are all NULL when the argument is.

    src/mqtt/vox_mqtt_parser.c: vox_mqtt_parser_create *)
Definition vox_mqtt_parser_create p (config : option (Z * Z)) (callbacks : vox_mqtt_parser_callbacks_t U)
  : P * option (vox_mqtt_parser U) :=
  let '(p, at_) := mp_alloc p sizeof_mqtt_parser in
  if at_ =? NULL then (p, None) else
  let '(p, a, b) := alloc_cells junk p VOX_MQTT_PARSER_INITIAL_BUF_SIZE 1 in
  (p, Some {|
    self := at_; cb := callbacks;
    max_payload := match config with
                   | Some (n, _) => if n =? 0 then VOX_MQTT_DEFAULT_MAX_PAYLOAD else n
                   | None => VOX_MQTT_DEFAULT_MAX_PAYLOAD
                   end;
    state := VOX_MQTT_STATE_FIXED_HEADER; type_ := 0; flags := 0;
    remaining_len := 0; remaining_mult := 0; need := 0;
    buf_at := a; buf := b; buf_cap := if a =? NULL then 0 else VOX_MQTT_PARSER_INITIAL_BUF_SIZE; buf_len := 0;
    has_error := false; error_message := NoMessage; error_buf := replicate 64 0;
    protocol_version := match config with Some (_, v) => v | None => 0 end;
    connack_session_expiry_interval := 0; connack_receive_maximum := 0 |}).

(** src/mqtt/vox_mqtt_parser.c: vox_mqtt_parser_destroy *)
Definition vox_mqtt_parser_destroy p m : P :=
  let p := match error_message m with InBlock a _ => mp_free p a | _ => p end in
  let p := if buf_at m =? NULL then p else mp_free p (buf_at m) in
  mp_free p (self m).

(** src/mqtt/vox_mqtt_parser.c: vox_mqtt_parser_reset *)
Definition vox_mqtt_parser_reset p m : P * vox_mqtt_parser U :=
  let m := with_state m VOX_MQTT_STATE_FIXED_HEADER in
  let m := with_remaining m (remaining_len m) 0 in
  let m := with_fill m (buf m) 0 0 in
  let m := with_connack (with_protocol m 0) 0 0 in
  let p := match error_message m with InBlock a _ => mp_free p a | _ => p end in
  (p, with_error m false NoMessage (error_buf m)).

(** src/mqtt/vox_mqtt_parser.c: vox_mqtt_parser_has_error *)
Definition vox_mqtt_parser_has_error m : bool := has_error m.

(** The text up to its terminator; [Some None]: NULL, there is no message.

    src/mqtt/vox_mqtt_parser.c: vox_mqtt_parser_get_error *)
Definition vox_mqtt_parser_get_error m : option (option (list Z)) :=
  match error_message m with
  | NoMessage => Some None
  | InErrorBuf => n ← strlen (error_buf m); Some (Some (take (Z.to_nat n) (error_buf m)))
  | InBlock _ text => n ← strlen text; Some (Some (take (Z.to_nat n) text))
  end.

(** src/mqtt/vox_mqtt_parser.c: vox_mqtt_parser_set_protocol_version *)
Definition vox_mqtt_parser_set_protocol_version m (version : Z) : vox_mqtt_parser U := with_protocol m version.

(** src/mqtt/vox_mqtt_parser.c: vox_mqtt_parser_get_connack_session_expiry_interval *)
Definition vox_mqtt_parser_get_connack_session_expiry_interval m : Z := connack_session_expiry_interval m.

(** src/mqtt/vox_mqtt_parser.c: vox_mqtt_parser_get_connack_receive_maximum *)
Definition vox_mqtt_parser_get_connack_receive_maximum m : Z := connack_receive_maximum m.

(** ** One packet

    Each function handles the complete packet in [buf]; the result is 0 or -1. *)

(** [if (cb && cb(args) != 0) return -1; return 0;] *)
Definition hand {A} (f : callback U A) (a : A) p m u : option (world * Z) :=
  let '(u, r) := call f a u in Some (p, m, u, if r =? 0 then 0 else -1).

(** src/mqtt/vox_mqtt_parser.c: parse_connect_payload *)
Definition parse_connect_payload p m u : option (world * Z) :=
  let d := buf m in
  let len := buf_len m in
  if len <? 8 then Some (p, m, u, -1) else
  proto_len ← get16 d 0;
  if negb (proto_len =? 4) && negb (proto_len =? 6) then fail p m u "invalid CONNECT protocol length" else
  if len <? 2 + proto_len + 1 + 1 + 2 then Some (p, m, u, -1) else
  version ← d.[2 + proto_len];
  known ← (if proto_len =? 4 then
             c ← memcmp (drop 2 d) (bytes_of "MQTT") 4;
             Some ((c =? 0) && ((version =? 4) || (version =? 5)))
           else
             c ← memcmp (drop 2 d) (bytes_of "MQIsdp") 6;
             Some ((c =? 0) && (version =? 3)));
  if negb (known : bool) then fail p m u "invalid CONNECT protocol" else
  let m := with_protocol m version in
  cflags ← d.[2 + proto_len + 1];
  keepalive ← get16 d (2 + proto_len + 2);
  fields ← connect_fields d len version keepalive cflags (2 + proto_len + 4);
  match fields with
  | None => Some (p, m, u, -1)
  | Some info => hand (on_connect (cb m)) info p m u
  end.

(** The branch of a CONNACK packet; a packet of one byte is dropped in silence.

    src/mqtt/vox_mqtt_parser.c:671-700: vox_mqtt_parser_execute *)
Definition parse_connack_payload p m u : option (world * Z) :=
  let d := buf m in
  let len := buf_len m in
  if len <? 2 then Some (p, m, u, 0) else
  m ← (if (protocol_version m =? 5) && (2 <? len) then
         r ← decode_varint d 2 (len - 2);
         match r with
         | Got prop_len varint_len =>
             let off := 2 + varint_len in
             let prop_end := off + prop_len in
             if prop_end <=? len then
               '(expiry, rmax) ← read_props (props_fuel off prop_end) d off prop_end 0 0;
               Some (with_connack m expiry rmax)
             else Some (with_connack m 0 0)
         | _ => Some (with_connack m 0 0)
         end
       else Some m);
  b0 ← d.[0];
  b1 ← d.[1];
  let '(u, err) := call (on_connack (cb m)) (Z.land b0 VOX_MQTT_CONNACK_FLAG_SESSION_PRESENT, b1) u in
  Some (p, m, u, err).

(** src/mqtt/vox_mqtt_parser.c: parse_publish_payload *)
Definition parse_publish_payload p m u : option (world * Z) :=
  fields ← publish_fields (flags m) (protocol_version m =? 5) (buf m) (buf_len m);
  match fields with
  | None => Some (p, m, u, -1)
  | Some info => hand (on_publish (cb m)) info p m u
  end.

(** The second loop of SUBSCRIBE: a callback and a return code per topic filter.

    src/mqtt/vox_mqtt_parser.c:478-495: parse_subscribe_payload *)
Fixpoint subscribe_loop (fuel : nat) (c : vox_mqtt_parser_callbacks_t U) (v5 : bool) (packet_id : Z)
    (d : list Z) (len off count i : Z) (codes : list Z) u : option (U * Z * list Z) :=
  match fuel with
  | O => None
  | S fuel =>
      if negb ((off + 2 <=? len) && (i <? count)) then Some (u, i, codes) else
      n ← get16 d off;
      let off := off + 2 in
      if len <? off + n + 1 then Some (u, i, codes) else
      topic ← arr_slice d off n;
      let off := off + n in
      qos_or_options ← d.[off];
      let off := off + 1 in
      let qos := if v5 then Z.land qos_or_options VOX_MQTT_PUBLISH_MASK_QOS else qos_or_options in
      let '(u, granted) :=
        match on_subscribe c with
        | Some f => let '(u, r) := f (packet_id, topic, qos) u in
                    (u, if (0 <=? r) && (r <=? 2) then u8 r else VOX_MQTT_SUBACK_FAILURE)
        | None => (u, VOX_MQTT_SUBACK_FAILURE)
        end in
      codes ← codes.[i <- u8 granted];
      subscribe_loop fuel c v5 packet_id d len off count (i + 1) codes u
  end.

(** src/mqtt/vox_mqtt_parser.c: parse_subscribe_payload *)
Definition parse_subscribe_payload p m u : option (world * Z) :=
  let d := buf m in
  let len := buf_len m in
  let v5 := protocol_version m =? 5 in
  if len <? 2 then Some (p, m, u, -1) else
  packet_id ← get16 d 0;
  start ← skip_props v5 d len 2;
  match start with
  | None => Some (p, m, u, -1)
  | Some off =>
      let fuel := S (Z.to_nat len) in
      count ← count_filters fuel d len off 0;
      let '(p, at_, codes) := if count =? 0 then (p, NULL, []) else alloc_cells junk p count 1 in
      if negb (count =? 0) && (at_ =? NULL) then Some (p, m, u, -1) else
      '(u, i, codes) ← subscribe_loop fuel (cb m) v5 packet_id d len off count 0 codes u;
      let arg := if at_ =? NULL then None else Some (take (Z.to_nat i) codes) in
      let '(u, r) := call (on_subscribe_done (cb m)) (packet_id, arg) u in
      let p := if at_ =? NULL then p else mp_free p at_ in
      Some (p, m, u, if r =? 0 then 0 else -1)
  end.

(** src/mqtt/vox_mqtt_parser.c: parse_suback_payload *)
Definition parse_suback_payload p m u : option (world * Z) :=
  let d := buf m in
  let len := buf_len m in
  if len <? 2 then Some (p, m, u, -1) else
  packet_id ← get16 d 0;
  start ← skip_props (protocol_version m =? 5) d len 2;
  match start with
  | None => Some (p, m, u, -1)
  | Some off =>
      codes ← (if off <? len then s ← arr_slice d off (len - off); Some (Some s) else Some None);
      hand (on_suback (cb m)) (packet_id, codes) p m u
  end.

(** The loop of UNSUBSCRIBE.

    src/mqtt/vox_mqtt_parser.c:542-551: parse_unsubscribe_payload *)
Fixpoint unsubscribe_loop (fuel : nat) (c : vox_mqtt_parser_callbacks_t U) (packet_id : Z)
    (d : list Z) (len off : Z) u : option (U * Z) :=
  match fuel with
  | O => None
  | S fuel =>
      if negb (off + 2 <=? len) then Some (u, 0) else
      n ← get16 d off;
      let off := off + 2 in
      if len <? off + n then Some (u, 0) else
      topic ← arr_slice d off n;
      let off := off + n in
      let '(u, r) := call (on_unsubscribe c) (packet_id, topic) u in
      if negb (r =? 0) then Some (u, -1) else
      unsubscribe_loop fuel c packet_id d len off u
  end.

(** src/mqtt/vox_mqtt_parser.c: parse_unsubscribe_payload *)
Definition parse_unsubscribe_payload p m u : option (world * Z) :=
  let d := buf m in
  let len := buf_len m in
  if len <? 2 then Some (p, m, u, -1) else
  packet_id ← get16 d 0;
  start ← skip_props (protocol_version m =? 5) d len 2;
  match start with
  | None => Some (p, m, u, -1)
  | Some off =>
      '(u, r) ← unsubscribe_loop (S (Z.to_nat len)) (cb m) packet_id d len off u;
      Some (p, m, u, r)
  end.

(** PUBACK, PUBREC, PUBREL and PUBCOMP: the branch of the callback [f].

    src/mqtt/vox_mqtt_parser.c:704-731: vox_mqtt_parser_execute *)
Definition parse_ack (f : callback U Z) p m u : option (world * Z) :=
  r ← packet_id_with_v5_props (protocol_version m =? 5) (buf m) (buf_len m);
  match r with
  | None => Some (p, m, u, -1)
  | Some id => let '(u, err) := call f id u in Some (p, m, u, err)
  end.

(** Without a callback an UNSUBACK is an error.

    src/mqtt/vox_mqtt_parser.c: parse_unsuback_payload *)
Definition parse_unsuback p m u : option (world * Z) :=
  r ← packet_id_with_v5_props (protocol_version m =? 5) (buf m) (buf_len m);
  match r, on_unsuback (cb m) with
  | Some id, Some f => let '(u, err) := f id u in Some (p, m, u, err)
  | _, _ => Some (p, m, u, -1)
  end.

(** The switch over the packet type.

    src/mqtt/vox_mqtt_parser.c:666-752: vox_mqtt_parser_execute *)
Definition dispatch p m u : option (world * Z) :=
  if type_ m =? VOX_MQTT_PKT_CONNECT then parse_connect_payload p m u
  else if type_ m =? VOX_MQTT_PKT_CONNACK then parse_connack_payload p m u
  else if type_ m =? VOX_MQTT_PKT_PUBLISH then parse_publish_payload p m u
  else if type_ m =? VOX_MQTT_PKT_PUBACK then parse_ack (on_puback (cb m)) p m u
  else if type_ m =? VOX_MQTT_PKT_PUBREC then parse_ack (on_pubrec (cb m)) p m u
  else if type_ m =? VOX_MQTT_PKT_PUBREL then parse_ack (on_pubrel (cb m)) p m u
  else if type_ m =? VOX_MQTT_PKT_PUBCOMP then parse_ack (on_pubcomp (cb m)) p m u
  else if type_ m =? VOX_MQTT_PKT_SUBSCRIBE then parse_subscribe_payload p m u
  else if type_ m =? VOX_MQTT_PKT_SUBACK then parse_suback_payload p m u
  else if type_ m =? VOX_MQTT_PKT_UNSUBSCRIBE then parse_unsubscribe_payload p m u
  else if type_ m =? VOX_MQTT_PKT_UNSUBACK then parse_unsuback p m u
  else fail p m u "unsupported packet type".

(** ** The state machine

    A phase is one of the three tests of the state in the loop. It goes on with the
    input [cur] ([Next]), starts the loop again ([Again], the [continue] and the end of
    the body) or returns. *)

Inductive flow := Next (cur : list Z) (consumed : Z) | Again (cur : list Z) (consumed : Z) | Return (r : Z).

(** [set_error(p, msg); return -1;] in a phase. *)
Definition stop p m u (msg : String.string) : option (world * flow) :=
  '(w, r) ← fail p m u msg; Some (w, Return r).

(** src/mqtt/vox_mqtt_parser.c:588-603: vox_mqtt_parser_execute *)
Definition fixed_header_phase p m u (cur : list Z) (consumed : Z) : option (world * flow) :=
  if decide (state m <> VOX_MQTT_STATE_FIXED_HEADER) then Some (p, m, u, Next cur consumed) else
  match cur with
  | [] => Some (p, m, u, Return consumed)
  | c :: cur =>
      let m := with_header m (Z.land (Z.shiftr c 4) 15) (Z.land c 15) in
      if (type_ m <? 1) || (15 <? type_ m) then stop p m u "invalid packet type" else
      if type_ m =? VOX_MQTT_PKT_AUTH then stop p m u "AUTH not supported" else
      let m := with_remaining (with_state m VOX_MQTT_STATE_REMAINING_LEN) (remaining_len m) 0 in
      Some (p, m, u, Next cur (consumed + 1))
  end.

(** A packet without variable header and payload.

    src/mqtt/vox_mqtt_parser.c:625-643: vox_mqtt_parser_execute *)
Definition empty_packet p m u (cur : list Z) (consumed : Z) : option (world * flow) :=
  let done (u : U) := Some (p, with_state m VOX_MQTT_STATE_FIXED_HEADER, u, Again cur consumed) in
  if type_ m =? VOX_MQTT_PKT_PINGREQ then done (call (on_pingreq (cb m)) tt u).1
  else if type_ m =? VOX_MQTT_PKT_PINGRESP then done (call (on_pingresp (cb m)) tt u).1
  else if type_ m =? VOX_MQTT_PKT_DISCONNECT then done (call (on_disconnect (cb m)) tt u).1
  else stop p m u "unexpected empty packet".

(** src/mqtt/vox_mqtt_parser.c:605-650: vox_mqtt_parser_execute *)
Definition remaining_len_phase p m u (cur : list Z) (consumed : Z) : option (world * flow) :=
  if decide (state m <> VOX_MQTT_STATE_REMAINING_LEN) then Some (p, m, u, Next cur consumed) else
  r ← decode_remaining_length cur (zlen cur);
  match r with
  | Malformed => stop p m u "invalid remaining length"
  | NeedMore => Some (p, m, u, Return consumed)
  | Got val num_bytes =>
      let m := with_remaining m val (remaining_mult m) in
      let cur := drop (Z.to_nat num_bytes) cur in
      let consumed := consumed + num_bytes in
      if max_payload m <? remaining_len m then stop p m u "payload exceeds max" else
      let m := with_fill m (buf m) 0 (remaining_len m) in
      if need m =? 0 then empty_packet p m u cur consumed else
      '(p, m, rc) ← ensure_buf p m (need m);
      if negb (rc =? 0) then stop p m u "alloc failed" else
      Some (p, with_state m VOX_MQTT_STATE_VARHEADER_PAYLOAD, u, Next cur consumed)
  end.

(** The first lines gather the packet in the buffer.

    src/mqtt/vox_mqtt_parser.c:652-755: vox_mqtt_parser_execute *)
Definition payload_phase p m u (cur : list Z) (consumed : Z) : option (world * flow) :=
  if decide (state m <> VOX_MQTT_STATE_VARHEADER_PAYLOAD) then Some (p, m, u, Again cur consumed) else
  let take_ := if need m <? zlen cur then need m else zlen cur in
  m ← (if 0 <? take_ then
         b ← arr_blit (buf m) (buf_len m) cur 0 take_;
         Some (with_fill m b (buf_len m + take_) (need m - take_))
       else Some m);
  let cur := drop (Z.to_nat take_) cur in
  let consumed := consumed + take_ in
  if negb (need m =? 0) then Some (p, m, u, Return consumed) else
  '(p, m, u, err) ← dispatch p m u;
  if negb (err =? 0) then Some (p, m, u, Return (-1)) else
  Some (p, with_state m VOX_MQTT_STATE_FIXED_HEADER, u, Again cur consumed).

(** One round of the loop. *)
Definition then_ (r : option (world * flow)) (phase : P -> vox_mqtt_parser U -> U -> list Z -> Z -> option (world * flow))
  : option (world * flow) :=
  '(p, m, u, f) ← r;
  match f with Next cur consumed => phase p m u cur consumed | _ => Some (p, m, u, f) end.

Definition round p m u (cur : list Z) (consumed : Z) : option (world * flow) :=
  then_ (then_ (fixed_header_phase p m u cur consumed) remaining_len_phase) payload_phase.

Fixpoint rounds (fuel : nat) p m u (cur : list Z) (consumed : Z) : option (world * Z) :=
  match fuel with
  | O => None
  | S fuel =>
      '(p, m, u, f) ← round p m u cur consumed;
      match f with
      | Return r => Some (p, m, u, r)
      | Next cur consumed | Again cur consumed => rounds fuel p m u cur consumed
      end
  end.

(** The result is the number of bytes consumed, or -1. Every round but the first takes
    at least two bytes.

    src/mqtt/vox_mqtt_parser.c: vox_mqtt_parser_execute *)
Definition vox_mqtt_parser_execute p m u (data : list Z) : option (world * Z) :=
  if decide (state m = VOX_MQTT_STATE_ERROR) then Some (p, m, u, -1) else
  rounds (S (S (length data))) p m u data 0.

(** How a connection of the broker hands its reads to the parser; the number of bytes
    consumed is not looked at.

    src/mqtt/vox_mqtt_server.c: conn_feed_parser *)
Definition conn_feed_parser p m u (data : list Z) : option (world * bool) :=
  '(p, m, u, used) ← vox_mqtt_parser_execute p m u data;
  Some (p, m, u, used <? 0).

End parser.

(** ** Totality

    [okp e Q]: [e] is defined and its result, unless it is [return -1], satisfies [Q]. *)

Definition okp {A} (e : pres A) (Q : A -> Prop) : Prop :=
  ok e (fun r => match r with Some x => Q x | None => True end).

Lemma okp_bind {A B} (e : pres A) (k : A -> pres B) Q R :
  okp e Q -> (forall x, Q x -> okp (k x) R) -> okp (pbind e k) R.
Proof. destruct e as [[x|]|]; cbn; [|done..]. intros HQ Hk. by apply Hk. Qed.

Lemma okp_mono {A} (e : pres A) (Q R : A -> Prop) : okp e Q -> (forall x, Q x -> R x) -> okp e R.
Proof. destruct e as [[x|]|]; cbn; auto. Qed.

Lemma okp_check {A} (b : bool) (e : pres A) Q : (b = true -> okp e Q) -> okp (check! b; e) Q.
Proof. destruct b; cbn; auto. Qed.

(** The first step of a sequence, by the lemma that describes it. *)
Ltac ok_step lem :=
  match goal with
  | |- ok (mbind _ _) _ => eapply ok_bind; [eapply lem|cbv beta]
  | |- okp (mbind _ _) _ => eapply ok_bind; [eapply lem|cbv beta]
  | |- okp (pbind _ _) _ => eapply okp_bind; [eapply lem|cbv beta]
  end.

(** ** The decoders stay inside the block *)

Section decoders.
Implicit Types (d : list Z).

Lemma arr_get_ok d i : 0 <= i < zlen d -> ok (d.[i]) (fun _ => True).
Proof. intros Hi. destruct (arr_get_Some d i Hi) as [x ->]. done. Qed.

Lemma arr_slice_ok d i n : 0 <= i -> 0 <= n -> i + n <= zlen d -> ok (arr_slice d i n) (fun s => zlen s = n).
Proof. intros Hi Hn Hb. by destruct (arr_slice_Some d i n Hi Hn Hb) as (s & -> & Hs). Qed.

Lemma u16_range x : 0 <= u16 x < 2 ^ 16.
Proof. apply Z.mod_pos_bound; lia. Qed.

Lemma get16_ok d off : 0 <= off -> off + 2 <= zlen d -> ok (get16 d off) (fun n => 0 <= n < 2 ^ 16).
Proof.
  intros Ho Hb. unfold get16. do 2 (ok_step arr_get_ok; [lia|]; intros ? _). apply u16_range.
Qed.

Lemma get32_ok d off : 0 <= off -> off + 4 <= zlen d -> ok (get32 d off) (fun n => 0 <= n < 2 ^ 32).
Proof.
  intros Ho Hb. unfold get32. do 4 (ok_step arr_get_ok; [lia|]; intros ? _). apply u32_range.
Qed.

Definition varint_ok (i len : Z) (r : varint) : Prop :=
  match r with Got v k => 0 <= v < 2 ^ 32 /\ i < k <= len | NeedMore => len < i + 4 | Malformed => True end.

Lemma varint_loop_ok n d pos len i v mult :
  (n <= 4)%nat -> 0 <= pos -> pos + len <= zlen d -> 0 <= i -> i + Z.of_nat n = 4 ->
  ok (varint_loop n d pos len i v mult) (fun r => match r with Got v k => 0 <= v < 2 ^ 32 /\ i < k <= len | NeedMore => len < 4 | Malformed => True end).
Proof.
  revert i v mult. induction n as [|n IH]; intros i v mult Hn Hp Hb Hi Hin; [done|]. cbn [varint_loop].
  destruct (Z.ltb_spec i len) as [Hl|Hl]; cbn [negb]; [|cbn; lia].
  ok_step arr_get_ok; [lia|]. intros b _. destruct (b <? 128).
  - cbn. split; [apply u32_range|lia].
  - eapply ok_mono; [apply IH; lia|]. intros [| |w k]; [done..|]. lia.
Qed.

Lemma decode_varint_ok d pos len :
  0 <= pos -> pos + len <= zlen d -> ok (decode_varint d pos len) (varint_ok 0 len).
Proof.
  intros Hp Hb. eapply ok_mono; [apply varint_loop_ok; lia|]. intros [| |w k]; cbn; lia || done.
Qed.

Lemma remaining_loop_ok n d i v mult :
  0 <= i -> i + Z.of_nat n = 4 ->
  ok (remaining_loop n d (zlen d) i v mult)
     (fun r => match r with Got v k => 0 <= v < 2 ^ 32 /\ i < k <= zlen d | NeedMore => zlen d < 4 | Malformed => True end).
Proof.
  revert i v mult. induction n as [|n IH]; intros i v mult Hi Hin; [done|]. cbn [remaining_loop].
  destruct (Z.ltb_spec i (zlen d)) as [Hl|Hl]; cbn [negb]; [|cbn; lia].
  ok_step arr_get_ok; [lia|]. intros b _. destruct (127 <? b).
  - eapply ok_mono; [apply IH; lia|]. intros [| |w k]; [done..|]. lia.
  - cbn. split; [apply u32_range|lia].
Qed.

Lemma decode_remaining_ok d : ok (decode_remaining_length d (zlen d)) (varint_ok 0 (zlen d)).
Proof. eapply ok_mono; [apply remaining_loop_ok; lia|]. intros [| |w k]; cbn; lia || done. Qed.

Lemma property_value_skip_ok id d pos len :
  0 <= pos -> 0 <= len -> pos + len <= zlen d ->
  ok (property_value_skip id d pos len) (fun s => s <= len).
Proof.
  intros Hp Hl Hb. unfold property_value_skip.
  destruct (one_of id fixed4_ids); [cbn; case_one; lia|].
  destruct (one_of id fixed2_ids); [cbn; case_one; lia|].
  destruct (one_of id fixed1_ids); [cbn; case_one; lia|].
  destruct (one_of id sized_ids).
  { destruct (Z.leb_spec 2 len); [|cbn; lia]. ok_step get16_ok; [lia..|]. intros n Hn. cbn. case_one; lia. }
  destruct (id =? 0x2C).
  { ok_step decode_varint_ok; [lia..|]. intros [| |v k] Hv; cbn in *; lia. }
  destruct (id =? 0x26); [|cbn; lia].
  destruct (Z.leb_spec 4 len); [|cbn; lia]. ok_step get16_ok; [lia..|]. intros k Hk. cbn beta.
  destruct (Z.leb_spec (4 + k) len); [|cbn [ok]; lia]. ok_step get16_ok; [lia..|]. intros v Hv. cbn [ok]. case_one; lia.
Qed.

Lemma read_props_ok fuel d pos prop_end e r :
  (Z.to_nat (prop_end - pos) < fuel)%nat -> 0 <= pos -> prop_end <= zlen d ->
  0 <= e < 2 ^ 32 -> 0 <= r < 2 ^ 16 ->
  ok (read_props fuel d pos prop_end e r) (fun '(e, r) => 0 <= e < 2 ^ 32 /\ 0 <= r < 2 ^ 16).
Proof.
  revert pos e r. induction fuel as [|fuel IH]; intros pos e r Hf Hp Hb He Hr; [lia|]. cbn [read_props].
  destruct (Z.ltb_spec pos prop_end) as [Hl|Hl]; cbn [negb]; [|done].
  ok_step arr_get_ok; [lia|]. intros id _. cbn zeta.
  ok_step property_value_skip_ok; [lia..|]. intros skip Hs.
  destruct (Z.leb_spec skip 0); [done|].
  eapply (ok_bind _ _ (fun e => 0 <= e < 2 ^ 32)).
  { destruct (_ =? _); cbn [andb]; [|done]. destruct (Z.leb_spec 4 skip); [|done]. apply get32_ok; lia. }
  cbv beta. intros e' He'. eapply (ok_bind _ _ (fun r => 0 <= r < 2 ^ 16)).
  { destruct (_ =? _); cbn [andb]; [|done]. destruct (Z.leb_spec 2 skip); [|done]. apply get16_ok; lia. }
  cbv beta. intros r' Hr'. apply IH; lia.
Qed.

Lemma take_field_ok d len off :
  0 <= off -> len <= zlen d ->
  okp (take_field d len off) (fun '(s, off') => off' = off + 2 + zlen s /\ off' <= len /\ zlen s < 2 ^ 16).
Proof.
  intros Ho Hl. unfold take_field. destruct (Z.leb_spec (off + 2) len); [|done].
  ok_step get16_ok; [lia..|]. intros n Hn. cbn zeta beta. destruct (Z.leb_spec (off + 2 + n) len); [|done].
  ok_step arr_slice_ok; [lia..|]. intros s Hs. cbn. lia.
Qed.

Lemma take_field_if_ok b d len off :
  0 <= off <= len -> len <= zlen d -> okp (take_field_if b d len off) (fun '(_, off') => off <= off' <= len).
Proof.
  intros Ho Hl. unfold take_field_if. destruct b; [|cbn; lia].
  ok_step take_field_ok; [lia..|]. intros [s off'] ?. cbn. pose proof (zlen_nonneg s). lia.
Qed.

Lemma skip_props_ok v5 d len off :
  0 <= off <= len -> len <= zlen d -> okp (skip_props v5 d len off) (fun off' => off <= off' <= len).
Proof.
  intros Ho Hl. unfold skip_props. destruct v5; cbn [negb]; [|cbn; lia].
  destruct (Z.ltb_spec off len); [|done]. ok_step decode_varint_ok; [lia..|].
  intros [| |v k] Hv; [done..|]. cbn in Hv |- *. case_one; cbn; lia.
Qed.

Lemma connect_fields_ok d len version keepalive cflags off :
  0 <= off <= len -> len <= zlen d ->
  okp (connect_fields d len version keepalive cflags off) (fun info =>
    ci_version info = version /\ zlen (ci_client_id info) < 2 ^ 16 /\
    0 <= ci_session_expiry_interval info < 2 ^ 32 /\ 0 <= ci_receive_maximum info < 2 ^ 16).
Proof.
  intros Ho Hl. unfold connect_fields.
  eapply (okp_bind _ _ (fun '(e, r, off') => off <= off' <= len /\ 0 <= e < 2 ^ 32 /\ 0 <= r < 2 ^ 16)).
  { destruct (version =? 5); [|cbn; lia]. ok_step decode_varint_ok; [lia..|].
    intros [| |v k] Hv; [done..|]. cbn [varint_ok] in Hv. cbn zeta.
    destruct (Z.leb_spec (off + k + v) len); [|done].
    ok_step read_props_ok; [unfold props_fuel; lia..|]. intros [e r] ?. cbn. lia. }
  intros [[e r] off1] (Ho1 & He & Hr). ok_step take_field_ok; [lia..|].
  intros [cid off2] (Ho2 & Hl2 & Hc). pose proof (zlen_nonneg cid).
  eapply (okp_bind _ _ (fun '(_, _, off') => off2 <= off' <= len)).
  { destruct (negb _); [|cbn; lia].
    eapply (okp_bind _ _ (fun off' => off2 <= off')).
    { destruct (version =? 5); [|cbn; lia]. destruct (_ <=? _); [|done].
      ok_step decode_varint_ok; [lia..|]. intros [| |v k] Hv; [done..|]. cbn [varint_ok] in Hv. cbn [okp ok]. lia. }
    cbv beta. intros off3 H3. ok_step take_field_ok; [lia..|]. intros [t off4] (-> & H4 & _).
    ok_step take_field_ok; [pose proof (zlen_nonneg t); lia..|]. intros [w off5] (-> & H5 & _).
    pose proof (zlen_nonneg t). pose proof (zlen_nonneg w). cbn. lia. }
  intros [[t w] off3] H3. ok_step take_field_if_ok; [lia..|]. intros [us off4] H4.
  ok_step take_field_if_ok; [lia..|]. intros [pw off5] H5. cbn. auto.
Qed.

Lemma publish_fields_ok pflags v5 d len :
  len <= zlen d -> okp (publish_fields pflags v5 d len) (fun info => 0 <= pi_qos info <= 3).
Proof.
  intros Hl. unfold publish_fields. destruct (Z.ltb_spec len 2); cbn [negb]; [done|].
  ok_step get16_ok; [lia..|]. intros n Hn. cbn beta. destruct (Z.ltb_spec len (2 + n)); cbn [negb]; [done|].
  ok_step arr_slice_ok; [lia..|]. intros t Ht. cbn zeta beta. set (qos := Z.land _ _).
  assert (0 <= qos <= 3) as Hq.
  { pose proof (land_low (Z.shiftr pflags VOX_MQTT_PUBLISH_QOS_SHIFT) 2) as Hq.
    change (Z.land _ (Z.ones 2)) with qos in Hq. rewrite Hq by lia.
    pose proof (Z.mod_pos_bound (Z.shiftr pflags VOX_MQTT_PUBLISH_QOS_SHIFT) (2 ^ 2)). lia. }
  eapply (okp_bind _ _ (fun '(_, off') => 2 + n <= off' <= len)).
  { destruct (0 <? qos); [|cbn; lia]. destruct (Z.leb_spec (2 + n + 2) len); [|done].
    ok_step get16_ok; [lia..|]. intros id Hid. cbn. lia. }
  intros [id off1] H1. ok_step skip_props_ok; [lia..|]. intros off2 H2.
  eapply (ok_bind _ _ (fun _ => True)); [|done].
  destruct (Z.ltb_spec off2 len); [|done]. ok_step arr_slice_ok; [lia..|]. done.
Qed.

Lemma count_filters_ok fuel d len off count :
  (Z.to_nat (len - off) < fuel)%nat -> 0 <= off -> len <= zlen d ->
  ok (count_filters fuel d len off count) (fun n => count <= n <= count + Z.max 0 (len - off)).
Proof.
  revert off count. induction fuel as [|fuel IH]; intros off count Hf Ho Hl; [lia|]. cbn [count_filters].
  destruct (Z.leb_spec (off + 2) len); cbn [negb]; [|cbn; lia].
  ok_step get16_ok; [lia..|]. intros n Hn. cbn zeta beta. destruct (Z.ltb_spec len (off + 2 + n + 1)); [cbn; lia|].
  eapply ok_mono; [apply IH; lia|]. cbn. intros. lia.
Qed.

Lemma packet_id_ok v5 d len :
  len <= zlen d -> okp (packet_id_with_v5_props v5 d len) (fun id => 0 <= id < 2 ^ 16).
Proof.
  intros Hl. unfold packet_id_with_v5_props. destruct (Z.ltb_spec len 2); cbn [negb]; [done|].
  ok_step get16_ok; [lia..|]. intros id Hid. cbn beta.
  destruct v5; cbn [andb]; [|done]. destruct (Z.ltb_spec 2 len); [|done].
  ok_step decode_varint_ok; [lia..|]. intros [| |v k] Hv; [done..|]. cbn. by case_one; cbn.
Qed.
End decoders.

(** ** The invariant *)

Section invariant.
Context {P U : Type} `{MPoolLaws P}.
Context (junk : Z).
Implicit Types (p : P) (m : vox_mqtt_parser U) (u : U).

(** The blocks of a parser: its struct, its buffer and a long error message. *)
Definition buf_blocks m : list Z := if buf_at m =? NULL then [] else [buf_at m].
Definition error_blocks m : list Z := match error_message m with InBlock a _ => [a] | _ => [] end.
Definition blocks m : list Z := self m :: buf_blocks m ++ error_blocks m.

(** [p] is the pool [p0] with the blocks of [m] taken; the fields are in their types; a
    packet being gathered fits in the buffer. *)
Record parser_ok (p0 p : P) m : Prop := {
  po_took : took p0 p (blocks m);
  po_buf : zlen (buf m) = buf_cap m;
  po_null : buf_at m = NULL -> buf_cap m = 0;
  po_max : 0 < max_payload m < 2 ^ 64;
  po_ebuf : zlen (error_buf m) = 64;
  po_msg : match error_message m with
           | NoMessage => True | InErrorBuf => 0 ∈ error_buf m | InBlock _ t => 0 ∈ t end;
  po_error : state m = VOX_MQTT_STATE_ERROR -> has_error m = true /\ error_message m <> NoMessage;
  po_done : state m <> VOX_MQTT_STATE_DONE;
  po_header : 0 <= type_ m <= 15 /\ 0 <= flags m <= 15 /\ 0 <= remaining_len m < 2 ^ 32;
  po_connack : 0 <= connack_session_expiry_interval m < 2 ^ 32 /\ 0 <= connack_receive_maximum m < 2 ^ 16;
  po_fill : state m = VOX_MQTT_STATE_VARHEADER_PAYLOAD ->
    0 <= buf_len m /\ 0 <= need m /\ buf_len m + need m = remaining_len m /\
    remaining_len m <= buf_cap m /\ remaining_len m <= max_payload m;
}.

Lemma strlen_total l : 0 ∈ l -> is_Some (strlen l).
Proof.
  induction l as [|c l IH]; intros Hl; [by apply elem_of_nil in Hl|]. cbn [strlen].
  destruct (Z.eqb_spec c 0) as [|Hc]; [done|].
  apply elem_of_cons in Hl as [Hl|Hl]; [by subst|]. destruct (IH Hl) as [n ->]. done.
Qed.

Lemma get_error_ok (p0 p : P) m : parser_ok p0 p m -> ok (vox_mqtt_parser_get_error m) (fun r =>
  state m = VOX_MQTT_STATE_ERROR -> is_Some r).
Proof.
  intros Hm. pose proof (po_msg _ _ _ Hm) as Hmsg. pose proof (po_error _ _ _ Hm) as He.
  unfold vox_mqtt_parser_get_error. destruct (error_message m) as [| |a t].
  - cbn. intros Hs. by destruct (He Hs).
  - destruct (strlen_total _ Hmsg) as [n ->]. cbn. eauto.
  - destruct (strlen_total _ Hmsg) as [n ->]. cbn. eauto.
Qed.

(** Blocks move between positions of the list. *)
Lemma took_rot (p0 p : P) a bs cs : took p0 p (bs ++ a :: cs) <-> took p0 p (a :: bs ++ cs).
Proof. by rewrite Permutation_middle. Qed.

Lemma took_swap (p0 p : P) a b bs : took p0 p (a :: b :: bs) <-> took p0 p (b :: a :: bs).
Proof. by rewrite perm_swap. Qed.

Lemma drop_message (p0 p : P) m s eb :
  parser_ok p0 p m ->
  took p0 (match error_message m with InBlock a _ => mp_free p a | _ => p end)
    (blocks (with_error m s NoMessage eb)).
Proof.
  intros Hm. pose proof (po_took _ _ _ Hm) as Ht. unfold blocks, error_blocks, buf_blocks in *. cbn.
  destruct (error_message m) as [| |a t]; [done..|].
  rewrite app_comm_cons, took_rot in Ht. by apply took_free in Ht.
Qed.

Lemma blit_text (e : list Z) msg rest n :
  n = zlen msg + 1 -> n <= zlen e ->
  ok (arr_blit e 0 ((msg ++ [0]) ++ rest) 0 n) (fun b => zlen b = zlen e /\ 0 ∈ b).
Proof.
  intros -> Hn. pose proof (zlen_nonneg msg). pose proof (zlen_nonneg rest).
  rewrite arr_blit_ok by zlia. cbn [ok]. split; [zlia|].
  rewrite !elem_of_app. right. left. change (Z.to_nat 0) with 0%nat. rewrite drop_0.
  rewrite take_app_ge by (rewrite length_app; cbn; unfold zlen in *; lia). apply elem_of_app. left. apply elem_of_app. right. by left.
Qed.

Lemma set_error_ok (p0 p : P) m u msg :
  parser_ok p0 p m -> zlen msg < 2 ^ 32 ->
  ok (set_error junk p m u msg) (fun '(p', m', _) =>
    parser_ok p0 p' m' /\ state m' = VOX_MQTT_STATE_ERROR).
Proof.
  intros Hm Hn. unfold set_error. cbn zeta. cbn [error_message error_buf with_error with_state].
  pose proof (drop_message p0 p m true (error_buf m) Hm) as Ht.
  set (q := match error_message m with InBlock a _ => mp_free p a | _ => p end) in *.
  destruct Hm as [_ ????? _ _ ???]. pose proof (zlen_nonneg msg).
  eapply (ok_bind _ _ (fun '(p', m') => parser_ok p0 p' m' /\ state m' = VOX_MQTT_STATE_ERROR)).
  2: { intros [p' m'] Hm'. by destruct (call _ _ _). }
  unfold VOX_MQTT_PARSER_ERROR_BUF_SIZE.
  destruct (Z.ltb_spec (zlen msg) 64).
  { rewrite <-(app_nil_r (msg ++ [0])). ok_step blit_text; [done|lia|]. intros b [Hb Hz]. cbn.
    split; [|done]. constructor; cbn; try done; congruence. }
  destruct (alloc_cells junk q (zlen msg + 1) 1) as [[q' a] cells] eqn:E.
  destruct (took_cells junk q q' (zlen msg + 1) 1 a cells (tk_inv _ _ _ Ht) E) as [[-> Ht1]|(Ha & Ht1 & ->)].
  - rewrite Z.eqb_refl. rewrite arr_blit_ok by lia. cbn [mbind option_bind].
    set (b := take _ _ ++ _). assert (zlen b = 64) as Hb by (unfold b; zlia).
    rewrite arr_set_ok by lia. cbn. split; [|done].
    assert (0 ∈ <[Pos.to_nat 63:=0]> b).
    { apply list_elem_of_lookup. exists (Pos.to_nat 63). apply list_lookup_insert_eq. zlia. }
    pose proof (took_app _ _ _ _ _ Ht Ht1). constructor; cbn; try done; try congruence. by rewrite zlen_insert.
  - rewrite (proj2 (Z.eqb_neq a NULL)) by done. rewrite <-(app_nil_r (msg ++ [0])).
    ok_step blit_text; [done|rewrite u64_small, Z.div_1_r by lia; zlia|]. intros b [Hb Hz]. cbn.
    split; [|done]. pose proof (took_app _ _ _ _ _ Ht Ht1) as Ht2.
    constructor; cbn; try done.
    unfold blocks, buf_blocks, error_blocks in *. cbn in *. rewrite app_nil_r in Ht2.
    by rewrite app_comm_cons, took_rot, app_nil_r.
Qed.

Lemma fail_ok (p0 p : P) m u msg :
  parser_ok p0 p m -> zlen (bytes_of msg) < 2 ^ 32 ->
  ok (fail junk p m u msg) (fun '(p', m', _, r) => parser_ok p0 p' m' /\ state m' = VOX_MQTT_STATE_ERROR /\ r = -1).
Proof.
  intros Hm Hn. unfold fail. ok_step set_error_ok; [done..|]. intros [[p' m'] u'] [? ?]. done.
Qed.

Lemma ok_with_protocol (p0 p : P) m v : parser_ok p0 p m -> parser_ok p0 p (with_protocol m v).
Proof. intros []. by constructor. Qed.

Lemma ok_with_connack (p0 p : P) m e r :
  parser_ok p0 p m -> 0 <= e < 2 ^ 32 -> 0 <= r < 2 ^ 16 -> parser_ok p0 p (with_connack m e r).
Proof. intros []. by constructor. Qed.

Lemma double_cap_ok fuel cap n :
  0 < cap -> n <= cap * 2 ^ Z.of_nat fuel -> n < 2 ^ 62 ->
  ok (double_cap (S fuel) cap n) (fun c => n <= c /\ cap <= c).
Proof.
  revert cap. induction fuel as [|fuel IH]; intros cap Hc Hn Hm; cbn [double_cap];
    (destruct (Z.ltb_spec cap n); [|cbn; lia]); [cbn in Hn; lia|].
  rewrite u64_small by lia. eapply ok_mono; [apply IH; try lia|].
  - rewrite Nat2Z.inj_succ, Z.pow_succ_r in Hn by lia. lia.
  - cbn beta. lia.
Qed.

Lemma ensure_buf_ok (p0 p : P) m n :
  parser_ok p0 p m -> 0 < n < 2 ^ 32 -> n <= max_payload m -> buf_len m = 0 ->
  state m = VOX_MQTT_STATE_REMAINING_LEN ->
  ok (ensure_buf junk p m n) (fun '(p', m', rc) =>
    parser_ok p0 p' m' /\ (rc = 0 -> n <= buf_cap m') /\
    m' = with_block m (buf_at m') (buf m') (buf_cap m')).
Proof.
  intros Hm Hn Hmax Hlen Hst. unfold ensure_buf.
  assert (Hself : m = with_block m (buf_at m) (buf m) (buf_cap m)) by (by destruct m).
  destruct (Z.leb_spec n (buf_cap m)) as [Hle|Hgt]; [cbn; by split_and!|].
  cbn zeta. ok_step (double_cap_ok 63).
  { destruct (Z.ltb_spec 0 (buf_cap m)); [done|]. unfold VOX_MQTT_PARSER_INITIAL_BUF_SIZE. lia. }
  { destruct (Z.ltb_spec 0 (buf_cap m)); unfold VOX_MQTT_PARSER_INITIAL_BUF_SIZE; lia. }
  { lia. }
  intros cap0 [Hc _]. set (cap := if max_payload m <? cap0 then _ else _).
  assert (n <= cap < 2 ^ 64) as Hcap.
  { pose proof (po_max _ _ _ Hm). unfold cap. destruct (Z.ltb_spec (max_payload m) cap0); lia. }
  rewrite (proj2 (Z.ltb_ge cap n)) by lia.
  pose proof (po_took _ _ _ Hm) as Ht.
  destruct (alloc_cells junk p cap 1) as [[q a] b] eqn:E.
  destruct (took_cells junk p q cap 1 a b (tk_inv _ _ _ Ht) E) as [[-> Ht1]|(Ha & Ht1 & ->)].
  { rewrite Z.eqb_refl. cbn. split_and!; [|lia|done].
    destruct Hm. constructor; try done. by apply (took_app _ _ _ _ _ Ht Ht1). }
  rewrite (proj2 (Z.eqb_neq a NULL)) by done.
  rewrite Hlen, Z.ltb_irrefl, andb_false_r. cbn [mbind option_bind ok].
  rewrite u64_small, Z.div_1_r by lia. replace (cap * 1) with cap by lia.
  split_and!; [|cbn; lia|done].
  assert (took p0 (if buf_at m =? NULL then q else mp_free q (buf_at m))
            (blocks (with_block m a (replicate (Z.to_nat cap) junk) cap))) as Hb.
  { pose proof (took_app _ _ _ _ _ Ht Ht1) as Ht2. unfold blocks, buf_blocks, error_blocks in *. cbn in *.
    rewrite (proj2 (Z.eqb_neq a NULL)) by done. cbn. rewrite took_swap. destruct (buf_at m =? NULL); cbn in *.
    - done.
    - change (took p0 q ([a; self m] ++ buf_at m :: match error_message m with InBlock b _ => [b] | _ => [] end)) in Ht2.
      rewrite took_rot in Ht2. by apply took_free in Ht2. }
  destruct Hm. constructor; cbn; try done; [zlia|by rewrite Hst].
Qed.

(** ** One packet *)

Definition keeps (p0 : P) (w : world (P := P) (U := U) * Z) : Prop :=
  let '(p', m', _, _) := w in parser_ok p0 p' m'.

Lemma hand_ok {A} (f : callback U A) a (p0 p : P) m u : parser_ok p0 p m -> ok (hand f a p m u) (keeps p0).
Proof. intros Hm. unfold hand. by destruct (call f a u). Qed.

Lemma fail_keeps (p0 p : P) m u msg :
  parser_ok p0 p m -> zlen (bytes_of msg) < 2 ^ 32 -> ok (fail junk p m u msg) (keeps p0).
Proof. intros Hm Hn. eapply ok_mono; [by apply (fail_ok p0)|]. by intros [[[??]?]?] [? _]. Qed.

Lemma name_cmp_ok (d s : list Z) n : 0 <= n -> n <= zlen d -> n <= zlen s -> ok (memcmp d s n) (fun _ => True).
Proof.
  intros Hn Hd Hs. unfold memcmp. ok_step arr_slice_ok; [lia..|]. intros a _.
  ok_step arr_slice_ok; [lia..|]. done.
Qed.

Section packet.
Context (p0 p : P) (m : vox_mqtt_parser U) (u : U).
Context (Hm : parser_ok p0 p m) (Hfill : 0 <= buf_len m <= zlen (buf m)) (Hlen : buf_len m < 2 ^ 32).

Lemma parse_connect_ok : ok (parse_connect_payload junk p m u) (keeps p0).
Proof.
  unfold parse_connect_payload. cbn zeta. destruct (Z.ltb_spec (buf_len m) 8); [done|].
  ok_step get16_ok; [lia..|]. intros n Hn.
  destruct (negb (n =? 4) && negb (n =? 6)) eqn:En; [by apply fail_keeps|].
  destruct (Z.ltb_spec (buf_len m) (2 + n + 1 + 1 + 2)); [done|].
  ok_step arr_get_ok; [lia|]. intros v _.
  assert (n = 4 \/ n = 6) as Hn46 by (destruct (Z.eqb_spec n 4), (Z.eqb_spec n 6); cbn in En; lia || done).
  eapply (ok_bind _ _ (fun _ => True)).
  { destruct Hn46 as [-> | ->]; cbn [Z.eqb Pos.eqb]; (ok_step name_cmp_ok; [done|zlia|done|]); done. }
  intros known _. destruct (negb known); [by apply fail_keeps|].
  ok_step arr_get_ok; [cbn; lia|]. intros cflags _.
  ok_step get16_ok; [lia|cbn; lia|]. intros k _.
  eapply ok_bind; [apply connect_fields_ok; lia|]. cbv beta. intros [info|] _.
  - apply hand_ok. by apply ok_with_protocol.
  - by apply ok_with_protocol.
Qed.

Lemma parse_connack_ok : ok (parse_connack_payload p m u) (keeps p0).
Proof.
  unfold parse_connack_payload. cbn zeta. destruct (Z.ltb_spec (buf_len m) 2); [done|].
  eapply (ok_bind _ _ (fun m' => parser_ok p0 p m')).
  { destruct (_ && _) eqn:E5; [|done]. apply andb_true_iff in E5 as [_ E5%Z.ltb_lt].
    assert (parser_ok p0 p (with_connack m 0 0)) by (by apply ok_with_connack).
    ok_step decode_varint_ok; [lia..|]. intros [| |v k] Hv; [done..|]. cbn [varint_ok] in Hv.
    destruct (Z.leb_spec (2 + k + v) (buf_len m)); [|done].
    ok_step read_props_ok; [unfold props_fuel; lia..|]. intros [e r] [He Hr]. by apply ok_with_connack. }
  cbv beta. intros m' Hm'. do 2 (ok_step arr_get_ok; [lia|]; intros ? _).
  by destruct (call _ _ u).
Qed.

Lemma parse_publish_ok : ok (parse_publish_payload p m u) (keeps p0).
Proof.
  unfold parse_publish_payload. eapply ok_bind; [apply publish_fields_ok; lia|]. cbv beta.
  intros [info|] _; [by apply hand_ok|done].
Qed.

Lemma subscribe_loop_ok fuel c v5 id d len off count i codes u0 :
  (Z.to_nat (len - off) < fuel)%nat -> 0 <= off -> len <= zlen d -> 0 <= i -> count <= zlen codes ->
  ok (subscribe_loop fuel c v5 id d len off count i codes u0) (fun '(_, i', codes') => i <= i').
Proof.
  revert off i codes u0. induction fuel as [|fuel IH]; intros off i codes u0 Hf Ho Hl Hi Hc; [lia|].
  cbn [subscribe_loop]. destruct (_ && _) eqn:Et; cbn [negb]; [|cbn; lia].
  apply andb_true_iff in Et as [Hoff%Z.leb_le Hic%Z.ltb_lt].
  ok_step get16_ok; [lia..|]. intros n Hn. cbn zeta.
  destruct (Z.ltb_spec len (off + 2 + n + 1)); [cbn; lia|].
  ok_step arr_slice_ok; [lia..|]. intros t Ht. ok_step arr_get_ok; [lia|]. intros q _.
  destruct (match on_subscribe c with Some _ => _ | None => _ end) as [u1 g].
  rewrite arr_set_ok by lia. cbn [mbind option_bind].
  eapply ok_mono; [apply IH; rewrite ?zlen_insert; lia|]. intros [[??]?]. lia.
Qed.

Lemma parse_subscribe_ok : ok (parse_subscribe_payload junk p m u) (keeps p0).
Proof.
  unfold parse_subscribe_payload. cbn zeta. destruct (Z.ltb_spec (buf_len m) 2); [done|].
  ok_step get16_ok; [lia..|]. intros id Hid.
  eapply ok_bind; [apply skip_props_ok; lia|]. cbv beta. intros [off|] Hoff; [|done].
  ok_step count_filters_ok; [lia..|]. intros count Hc.
  pose proof (po_took _ _ _ Hm) as Ht.
  destruct (if count =? 0 then _ else _) as [[q a] codes] eqn:E.
  assert ((a = NULL /\ took p0 q (blocks m) /\ (count = 0 -> codes = [])) \/
          (a <> NULL /\ took p0 q (a :: blocks m) /\ zlen codes = count /\ count <> 0)) as Hq.
  { destruct (Z.eqb_spec count 0) as [->|Hne]; [injection E as <- <- <-; by left|].
    destruct (took_cells junk p q count 1 a codes (tk_inv _ _ _ Ht) E) as [[-> Ht1]|(Ha & Ht1 & ->)].
    - left. split_and!; [done|by apply (took_app _ _ _ _ _ Ht Ht1)|lia].
    - right. split_and!; [done|by apply (took_app _ _ _ _ _ Ht Ht1)| |done].
      rewrite u64_small, Z.div_1_r by lia. zlia. }
  assert (Hset : forall q', took p0 q' (blocks m) -> parser_ok p0 q' m).
  { intros q' Hq'. destruct Hm. by constructor. }
  destruct Hq as [(-> & Htq & Hcs)|(Ha & Htq & Hcs & Hne)].
  - rewrite Z.eqb_refl, andb_true_r. destruct (Z.eqb_spec count 0) as [->|]; cbn [negb]; [|by apply Hset].
    rewrite (Hcs eq_refl). eapply ok_bind; [apply subscribe_loop_ok; first [lia|done]|]. cbv beta.
    intros [[u1 i] cs] _. destruct (call _ _ u1). by apply Hset.
  - rewrite (proj2 (Z.eqb_neq a NULL)), andb_false_r by done.
    eapply ok_bind; [apply subscribe_loop_ok; lia|]. cbv beta.
    intros [[u1 i] cs] _. destruct (call _ _ u1). apply Hset. by apply took_free.
Qed.

Lemma parse_suback_ok : ok (parse_suback_payload p m u) (keeps p0).
Proof.
  unfold parse_suback_payload. cbn zeta. destruct (Z.ltb_spec (buf_len m) 2); [done|].
  ok_step get16_ok; [lia..|]. intros id Hid.
  eapply ok_bind; [apply skip_props_ok; lia|]. cbv beta. intros [off|] Hoff; [|done].
  eapply (ok_bind _ _ (fun _ => True)); [|intros ? _; by apply hand_ok].
  destruct (Z.ltb_spec off (buf_len m)); [|done]. by ok_step arr_slice_ok; [lia..|].
Qed.

Lemma unsubscribe_loop_ok fuel c id d len off u0 :
  (Z.to_nat (len - off) < fuel)%nat -> 0 <= off -> len <= zlen d ->
  ok (unsubscribe_loop fuel c id d len off u0) (fun _ => True).
Proof.
  revert off u0. induction fuel as [|fuel IH]; intros off u0 Hf Ho Hl; [lia|].
  cbn [unsubscribe_loop]. destruct (Z.leb_spec (off + 2) len); cbn [negb]; [|done].
  ok_step get16_ok; [lia..|]. intros n Hn. cbn zeta. destruct (Z.ltb_spec len (off + 2 + n)); [done|].
  ok_step arr_slice_ok; [lia..|]. intros t Ht. destruct (call _ _ u0) as [u1 r].
  destruct (negb (r =? 0)); [done|]. apply IH; lia.
Qed.

Lemma parse_unsubscribe_ok : ok (parse_unsubscribe_payload p m u) (keeps p0).
Proof.
  unfold parse_unsubscribe_payload. cbn zeta. destruct (Z.ltb_spec (buf_len m) 2); [done|].
  ok_step get16_ok; [lia..|]. intros id Hid.
  eapply ok_bind; [apply skip_props_ok; lia|]. cbv beta. intros [off|] Hoff; [|done].
  ok_step unsubscribe_loop_ok; [lia..|]. by intros [u1 r] _.
Qed.

Lemma parse_ack_ok f : ok (parse_ack f p m u) (keeps p0).
Proof.
  unfold parse_ack. eapply ok_bind; [apply packet_id_ok; lia|]. cbv beta.
  intros [id|] _; [|done]. by destruct (call f id u).
Qed.

Lemma parse_unsuback_ok : ok (parse_unsuback p m u) (keeps p0).
Proof.
  unfold parse_unsuback. eapply ok_bind; [apply packet_id_ok; lia|]. cbv beta.
  intros [id|] _; [|done]. destruct (on_unsuback (cb m)) as [f|]; [|done]. by destruct (f id u).
Qed.

Lemma dispatch_ok : ok (dispatch junk p m u) (keeps p0).
Proof.
  unfold dispatch.
  repeat (case_one; [first [apply parse_connect_ok|apply parse_connack_ok|apply parse_publish_ok
    |apply parse_ack_ok|apply parse_subscribe_ok|apply parse_suback_ok|apply parse_unsubscribe_ok
    |apply parse_unsuback_ok]|]).
  by apply fail_keeps.
Qed.
End packet.
(** ** The state machine *)

(** What a phase promises: the invariant, and where its input goes. [Return] with a
    count leaves at most three bytes, and only of a remaining length. *)
Definition phase_ok (p0 : P) m (cur : list Z) (consumed : Z) (w : world (P := P) (U := U) * flow) : Prop :=
  let '(p', m', _, f) := w in
  parser_ok p0 p' m' /\
  match f with
  | Next cur' consumed' | Again cur' consumed' => exists read, cur = read ++ cur' /\ consumed' = consumed + zlen read
  | Return r => r = -1 \/
      (state m' <> VOX_MQTT_STATE_ERROR /\ exists read rest, cur = read ++ rest /\ r = consumed + zlen read /\
       (rest <> [] -> state m' = VOX_MQTT_STATE_REMAINING_LEN /\ zlen rest < 4))
  end.

Lemma ok_with_state (p0 p : P) m s :
  parser_ok p0 p m -> s = VOX_MQTT_STATE_FIXED_HEADER \/ s = VOX_MQTT_STATE_REMAINING_LEN ->
  parser_ok p0 p (with_state m s).
Proof. intros [] Hs. constructor; try done; by destruct Hs as [-> | ->]. Qed.

Lemma ok_with_remaining (p0 p : P) m len mult :
  parser_ok p0 p m -> 0 <= len < 2 ^ 32 -> state m <> VOX_MQTT_STATE_VARHEADER_PAYLOAD ->
  parser_ok p0 p (with_remaining m len mult).
Proof. intros [] Hl Hs. constructor; try done; cbn; tauto. Qed.

Lemma ok_with_fill (p0 p : P) m b len n :
  parser_ok p0 p m -> zlen b = zlen (buf m) ->
  (state m = VOX_MQTT_STATE_VARHEADER_PAYLOAD -> 0 <= len /\ 0 <= n /\ len + n = buf_len m + need m) ->
  parser_ok p0 p (with_fill m b len n).
Proof.
  intros Hm Hb Hf. pose proof (po_fill _ _ _ Hm) as Hf'. destruct Hm. constructor; try done; cbn.
  - congruence.
  - intros Hs. specialize (Hf Hs). specialize (Hf' Hs). lia.
Qed.

Lemma parse_stop_ok (p0 p : P) m u msg :
  parser_ok p0 p m -> zlen (bytes_of msg) < 2 ^ 32 ->
  ok (stop junk p m u msg) (fun '(p', m', _, f) => parser_ok p0 p' m' /\ f = Return (-1)).
Proof.
  intros Hm Hn. unfold stop. ok_step (fail_ok p0); [done..|]. by intros [[[p' m'] u'] r] (? & ? & ->).
Qed.

(** A phase that stops satisfies whatever is asked of the other ways to end. *)
Ltac by_stop :=
  eapply ok_mono; [by apply parse_stop_ok|]; intros [[[? ?] ?] ?] [? ->]; cbn; auto.

Lemma phase_idle (p0 p : P) m u cur consumed :
  parser_ok p0 p m -> phase_ok p0 m cur consumed (p, m, u, Next cur consumed).
Proof. intros Hm. split; [done|]. exists []. by rewrite zlen_nil, Z.add_0_r. Qed.

Lemma state_dec m s : ~ state m <> s -> state m = s.
Proof. destruct (decide (state m = s)); tauto. Qed.

Lemma land15 c : 0 <= Z.land c 15 <= 15.
Proof. change 15 with (Z.ones 4). rewrite Z.land_ones by lia. change (Z.ones 4) with 15. pose proof (Z.mod_pos_bound c (2 ^ 4)). lia. Qed.

Lemma fixed_header_ok (p0 p : P) m u cur consumed :
  parser_ok p0 p m -> ok (fixed_header_phase junk p m u cur consumed) (fun '(p', m', u', f) =>
    phase_ok p0 m cur consumed (p', m', u', f) /\
    match f with
    | Next cur' _ => state m' <> VOX_MQTT_STATE_FIXED_HEADER /\
        (state m = VOX_MQTT_STATE_FIXED_HEADER -> state m' = VOX_MQTT_STATE_REMAINING_LEN /\ zlen cur' < zlen cur) /\
        (state m <> VOX_MQTT_STATE_FIXED_HEADER -> state m' = state m)
    | Again _ _ => False
    | Return _ => True
    end).
Proof.
  intros Hm. unfold fixed_header_phase.
  destruct (decide (state m <> VOX_MQTT_STATE_FIXED_HEADER)) as [Hs|Hs%state_dec].
  { split; [by apply phase_idle|done]. }
  destruct cur as [|c cur].
  { cbn. rewrite Hs. split_and!; try done. right. split; [done|]. exists [], []. by rewrite zlen_nil, Z.add_0_r. }
  cbn zeta. set (m1 := with_header m _ _). pose proof (po_header _ _ _ Hm) as (_ & _ & Hr).
  assert (parser_ok p0 p m1) as Hm1.
  { destruct Hm. constructor; try done. cbn. split_and!; try apply land15; apply Hr. }
  destruct (_ || _); [by_stop|]. destruct (_ =? _); [by_stop|].
  cbn. split; [split|split; [done|split; [intros _; rewrite zlen_cons; split; [done|lia]|by intros []]]].
  - apply ok_with_remaining; [apply ok_with_state; [done|by right]|done|done].
  - exists [c]. by rewrite zlen_cons, zlen_nil.
Qed.

Lemma empty_packet_ok (p0 p : P) m u cur consumed :
  parser_ok p0 p m -> ok (empty_packet junk p m u cur consumed) (fun '(p', m', u', f) =>
    parser_ok p0 p' m' /\
    match f with
    | Again cur' consumed' => state m' = VOX_MQTT_STATE_FIXED_HEADER /\ cur' = cur /\ consumed' = consumed
    | Return r => r = -1
    | Next _ _ => False
    end).
Proof.
  intros Hm. unfold empty_packet. cbn zeta.
  do 3 (case_one; [cbn; split; [apply ok_with_state; [done|by left]|done]|]).
  by_stop.
Qed.

Lemma remaining_len_ok (p0 p : P) m u cur consumed :
  parser_ok p0 p m -> state m <> VOX_MQTT_STATE_ERROR ->
  ok (remaining_len_phase junk p m u cur consumed) (fun '(p', m', u', f) =>
    phase_ok p0 m cur consumed (p', m', u', f) /\
    match f with
    | Next _ _ => (state m = VOX_MQTT_STATE_REMAINING_LEN -> state m' = VOX_MQTT_STATE_VARHEADER_PAYLOAD) /\
                  (state m <> VOX_MQTT_STATE_REMAINING_LEN -> state m' = state m)
    | Again cur' _ => state m' = VOX_MQTT_STATE_FIXED_HEADER
    | Return _ => True
    end).
Proof.
  intros Hm Hne. unfold remaining_len_phase.
  destruct (decide (state m <> VOX_MQTT_STATE_REMAINING_LEN)) as [Hs|Hs%state_dec].
  { split; [by apply phase_idle|]. done. }
  ok_step decode_remaining_ok. intros [| |v k] Hv; cbn [varint_ok] in Hv; [|by_stop|].
  { cbn. split_and!; try done. right. split; [done|]. exists [], cur. rewrite zlen_nil.
    split_and!; [done|lia|]. intros _. split; [done|lia]. }
  cbn zeta. set (m1 := with_remaining m v _).
  assert (parser_ok p0 p m1) as Hm1 by (apply ok_with_remaining; [done|lia|congruence]).
  change (max_payload m1) with (max_payload m). change (remaining_len m1) with v.
  destruct (Z.ltb_spec (max_payload m) v); [by_stop|].
  set (m2 := with_fill m1 _ 0 v).
  assert (parser_ok p0 p m2) as Hm2 by (apply ok_with_fill; [done|done|cbn; congruence]).
  assert (Hread : exists read, cur = read ++ drop (Z.to_nat k) cur /\ consumed + k = consumed + zlen read).
  { exists (take (Z.to_nat k) cur). rewrite take_drop. split; [done|zlia]. }
  change (need m2) with v. destruct (Z.eqb_spec v 0) as [->|Hv0].
  { eapply ok_mono; [by apply (empty_packet_ok p0)|]. intros [[[p' m'] u'] []]; [tauto| |].
    - intros (Hp' & Hs' & -> & ->). split; [by split|done].
    - intros [Hp' ->]. split; [|done]. split; [done|]. by left. }
  ok_step (ensure_buf_ok p0); [done|lia|done|done|done|]. intros [[p' m'] rc] (Hp' & Hcap & Em).
  destruct (Z.eqb_spec rc 0) as [->|]; cbn [negb]; [|by_stop].
  split; [split; [|done]|by split; [|intros []]].
  rewrite Em in *. specialize (Hcap eq_refl). cbn in Hcap.
  destruct Hp'. constructor; try done. cbn. intros _. split_and!; lia.
Qed.

Lemma payload_ok (p0 p : P) m u cur consumed :
  parser_ok p0 p m -> state m <> VOX_MQTT_STATE_ERROR ->
  ok (payload_phase junk p m u cur consumed) (fun '(p', m', u', f) =>
    phase_ok p0 m cur consumed (p', m', u', f) /\
    match f with
    | Next _ _ => False
    | Again cur' _ => state m = VOX_MQTT_STATE_VARHEADER_PAYLOAD -> state m' = VOX_MQTT_STATE_FIXED_HEADER
    | Return _ => True
    end).
Proof.
  intros Hm Hne. unfold payload_phase.
  destruct (decide (state m <> VOX_MQTT_STATE_VARHEADER_PAYLOAD)) as [Hs|Hs%state_dec].
  { split; [|done]. split; [done|]. exists []. by rewrite zlen_nil, Z.add_0_r. }
  cbn zeta. pose proof (po_fill _ _ _ Hm Hs) as (Hl & Hn & Hr & Hc & Hx).
  pose proof (po_buf _ _ _ Hm) as Hb. pose proof (zlen_nonneg cur).
  set (t := if need m <? zlen cur then need m else zlen cur).
  assert (0 <= t <= zlen cur /\ t <= need m /\ (t = need m \/ t = zlen cur)) as (Ht & Htn & Hcase).
  { unfold t. destruct (Z.ltb_spec (need m) (zlen cur)); lia. }
  eapply (ok_bind _ _ (fun m' => parser_ok p0 p m' /\ state m' = state m /\ need m' = need m - t /\
    buf_len m' = buf_len m + t /\ remaining_len m' = remaining_len m)).
  { destruct (Z.ltb_spec 0 t); [|cbn; split_and!; try done; lia].
    rewrite arr_blit_ok by lia. cbn. split_and!; [|done..].
    apply ok_with_fill; [done| |intros; lia]. zlia. }
  cbv beta. intros m' (Hm' & Hst & Hneed & Hblen & Hrl).
  assert (Hread : exists read, cur = read ++ drop (Z.to_nat t) cur /\ consumed + t = consumed + zlen read).
  { exists (take (Z.to_nat t) cur). rewrite take_drop. split; [done|zlia]. }
  destruct (Z.eqb_spec (need m') 0) as [Hn0|Hn0]; cbn [negb].
  - pose proof (po_fill _ _ _ Hm' ltac:(congruence)) as (? & ? & ? & ? & ?).
    pose proof (po_header _ _ _ Hm') as (_ & _ & ?). pose proof (po_buf _ _ _ Hm').
    ok_step (dispatch_ok p0); [done|lia|lia|]. intros [[[p1 m1] u1] err] Hk.
    destruct (Z.eqb_spec err 0); cbn [negb].
    + split; [|done]. split; [|done]. apply ok_with_state; [done|by left].
    + split; [|done]. split; [done|]. by left.
  - split; [|done]. split; [done|]. right. rewrite Hst. split; [done|].
    exists cur, []. rewrite app_nil_r. split_and!; [done|lia|done].
Qed.
Lemma phase_then (p0 : P) m m' cur consumed cur' consumed' (w : world (P := P) (U := U) * flow) :
  (exists read, cur = read ++ cur' /\ consumed' = consumed + zlen read) ->
  phase_ok p0 m' cur' consumed' w -> phase_ok p0 m cur consumed w.
Proof.
  destruct w as [[[p1 m1] u1] f]. intros (read & -> & ->) [Hok Hf]. split; [done|].
  assert (Hgo : forall cur2 consumed2,
    (exists r2, cur' = r2 ++ cur2 /\ consumed2 = consumed + zlen read + zlen r2) ->
    exists r2, read ++ cur' = r2 ++ cur2 /\ consumed2 = consumed + zlen r2).
  { intros cur2 consumed2 (r2 & -> & ->). exists (read ++ r2). rewrite zlen_app, app_assoc. split; [done|lia]. }
  destruct f as [cur2 consumed2|cur2 consumed2|r]; [by apply Hgo..|].
  destruct Hf as [->|(Hs & r2 & rest & -> & -> & Hr)]; [by left|]. right. split; [done|].
  exists (read ++ r2), rest. rewrite zlen_app, app_assoc. split_and!; [done|lia|done].
Qed.

Lemma read_shorter (cur cur' : list Z) c c' :
  (exists read, cur = read ++ cur' /\ c' = c + zlen read) -> zlen cur' <= zlen cur.
Proof. intros (r & -> & _). rewrite zlen_app. pose proof (zlen_nonneg r). lia. Qed.

(** One round. It goes on only in the state between two packets, with less input when
    it started there. *)
Lemma round_ok (p0 p : P) m u cur consumed :
  parser_ok p0 p m -> state m <> VOX_MQTT_STATE_ERROR ->
  ok (round junk p m u cur consumed) (fun '(p', m', u', f) =>
    phase_ok p0 m cur consumed (p', m', u', f) /\
    match f with
    | Next _ _ => False
    | Again cur' _ => state m' = VOX_MQTT_STATE_FIXED_HEADER /\ zlen cur' <= zlen cur /\
                      (state m = VOX_MQTT_STATE_FIXED_HEADER -> zlen cur' < zlen cur)
    | Return _ => True
    end).
Proof.
  intros Hm Hne. unfold round.
  destruct (ok_Some _ _ (fixed_header_ok p0 p m u cur consumed Hm)) as ([[[p1 m1] u1] f1] & E1 & H1 & G1).
  rewrite E1. destruct f1 as [cur1 c1|cur1 c1|r]; [|done|by split].
  destruct G1 as (Hn1 & Hf1 & Hg1), H1 as [Hok1 Hr1]. pose proof (read_shorter _ _ _ _ Hr1) as Hlt1.
  assert (Hne1 : state m1 <> VOX_MQTT_STATE_ERROR).
  { destruct (decide (state m = VOX_MQTT_STATE_FIXED_HEADER)) as [Hs|Hs];
      [by rewrite (proj1 (Hf1 Hs))|by rewrite (Hg1 Hs)]. }
  cbn [then_ mbind option_bind].
  destruct (ok_Some _ _ (remaining_len_ok p0 p1 m1 u1 cur1 c1 Hok1 Hne1)) as ([[[p2 m2] u2] f2] & E2 & H2 & G2).
  assert (Hlt2 : match f2 with Return _ => True | Next c _ | Again c _ => zlen c <= zlen cur1 end).
  { destruct f2; try done; by eapply read_shorter, H2. }
  apply (phase_then p0 m _ cur consumed) in H2; [|done].
  rewrite E2. destruct f2 as [cur2 c2|cur2 c2|r]; [| |by split].
  2: { cbn. split; [done|]. split; [done|]. split; [lia|]. intros Hs. destruct (Hf1 Hs). lia. }
  destruct H2 as [Hok2 Hr2], G2 as [Hf2 Hg2].
  assert (Hs2 : state m2 = VOX_MQTT_STATE_VARHEADER_PAYLOAD).
  { pose proof (po_done _ _ _ Hok1). destruct (decide (state m1 = VOX_MQTT_STATE_REMAINING_LEN)) as [Hs|Hs];
      [by apply Hf2|]. rewrite (Hg2 Hs). by destruct (state m1). }
  cbn [then_ mbind option_bind].
  eapply ok_mono; [apply (payload_ok p0); [done|by rewrite Hs2]|].
  intros [[[p3 m3] u3] f3] [H3 G3].
  assert (Hlt3 : match f3 with Return _ => True | Next c _ | Again c _ => zlen c <= zlen cur2 end).
  { destruct f3; try done; by eapply read_shorter, H3. }
  apply (phase_then p0 m _ cur consumed) in H3; [|done]. split; [done|].
  destruct f3 as [|cur3 c3|]; [done| |done]. split; [by apply G3|]. split; [lia|].
  intros Hs. destruct (Hf1 Hs). lia.
Qed.

(** Enough fuel for the rest of the input: one round, and one more between packets. *)
Definition enough (fuel : nat) m (cur : list Z) : Prop :=
  zlen cur + (if decide (state m = VOX_MQTT_STATE_FIXED_HEADER) then 0 else 1) < Z.of_nat fuel.

Definition execute_post (p0 : P) (cur : list Z) (consumed : Z) (w : world (P := P) (U := U) * Z) : Prop :=
  let '(p', m', u', r) := w in phase_ok p0 m' cur consumed (p', m', u', Return r).

Lemma rounds_ok fuel (p0 p : P) m u cur consumed :
  parser_ok p0 p m -> state m <> VOX_MQTT_STATE_ERROR -> enough fuel m cur ->
  ok (rounds junk fuel p m u cur consumed) (execute_post p0 cur consumed).
Proof.
  revert p m u cur consumed. induction fuel as [|fuel IH]; intros p m u cur consumed Hm Hne Hf.
  { unfold enough in Hf. pose proof (zlen_nonneg cur). destruct (decide _); lia. }
  cbn [rounds]. ok_step (round_ok p0); [done..|]. intros [[[p1 m1] u1] [cur1 c1|cur1 c1|r]] [H1 G1]; [done| |done].
  destruct H1 as [Hok1 Hr1], G1 as (Hs1 & Hle & Hlt).
  eapply ok_mono; [apply IH; [done|by rewrite Hs1|]|].
  - unfold enough in *. rewrite (decide_True (P := state m1 = _)) by done.
    destruct (decide (state m = VOX_MQTT_STATE_FIXED_HEADER)) as [Hs|Hs]; [specialize (Hlt Hs); lia|lia].
  - intros [[[p2 m2] u2] r] H2. by apply (phase_then p0 m2 m2 cur consumed cur1 c1 (p2, m2, u2, Return r)).
Qed.

Lemma execute_ok (p0 p : P) m u data :
  parser_ok p0 p m ->
  ok (vox_mqtt_parser_execute junk p m u data) (execute_post p0 data 0).
Proof.
  intros Hm. unfold vox_mqtt_parser_execute. destruct (decide _) as [Hs|Hs].
  - cbn. split; [done|]. by left.
  - apply rounds_ok; [done..|]. unfold enough, zlen. destruct (decide _); lia.
Qed.

(** ** The parser's life *)

(** A use of the parser through its interface. *)
Inductive mqtt_op := Feed (data : list Z) | Reset_ | SetVersion (v : Z).

Definition mqtt_op_run (p : P) m u (o : mqtt_op) : option (world (P := P) (U := U) * Z) :=
  match o with
  | Feed data => vox_mqtt_parser_execute junk p m u data
  | Reset_ => let '(p, m) := vox_mqtt_parser_reset p m in Some (p, m, u, 0)
  | SetVersion v => Some (p, vox_mqtt_parser_set_protocol_version m v, u, 0)
  end.

Fixpoint mqtt_run (p : P) m u (ops : list mqtt_op) : option (world (P := P) (U := U) * list Z) :=
  match ops with
  | [] => Some (p, m, u, [])
  | o :: ops => '(p, m, u, r) ← mqtt_op_run p m u o; '(w, rs) ← mqtt_run p m u ops; Some (w, r :: rs)
  end.

Lemma mqtt_create_ok (p : P) config callbacks :
  mp_inv p -> (match config with Some (n, _) => 0 <= n < 2 ^ 64 | None => True end) ->
  let '(p', r) := vox_mqtt_parser_create junk p config callbacks in
  match r with
  | Some m => parser_ok p p' m /\ state m = VOX_MQTT_STATE_FIXED_HEADER
  | None => took p p' []
  end.
Proof.
  intros Hp Hc. unfold vox_mqtt_parser_create.
  destruct (mp_alloc p sizeof_mqtt_parser) as [p1 s] eqn:E1.
  destruct (Z.eqb_spec s NULL) as [->|Hs]; [by apply (took_refused p p1 sizeof_mqtt_parser)|].
  pose proof (took_alloc p p1 sizeof_mqtt_parser s Hp ltac:(done) E1 Hs) as Ht1.
  destruct (alloc_cells junk p1 _ 1) as [[p2 a] b] eqn:E2. split; [|done].
  assert (0 < match config with Some (n, _) => if n =? 0 then VOX_MQTT_DEFAULT_MAX_PAYLOAD else n
              | None => VOX_MQTT_DEFAULT_MAX_PAYLOAD end < 2 ^ 64) as Hmax.
  { unfold VOX_MQTT_DEFAULT_MAX_PAYLOAD. destruct config as [[n v]|]; [|done]. destruct (Z.eqb_spec n 0); lia. }
  destruct (took_cells junk p1 p2 _ 1 a b (tk_inv _ _ _ Ht1) E2) as [[-> Ht2]|(Ha & Ht2 & ->)].
  - unfold alloc_cells in E2. destruct (mp_alloc p1 _). injection E2 as -> -> <-.
    constructor; cbn; try done. by apply (took_app _ _ _ _ _ Ht1 Ht2).
  - pose proof (took_app _ _ _ _ _ Ht1 Ht2) as Ht. rewrite (proj2 (Z.eqb_neq a NULL)) by done.
    constructor; cbn; try done. unfold blocks, buf_blocks, error_blocks. cbn.
    rewrite (proj2 (Z.eqb_neq a NULL)) by done. cbn. by rewrite took_swap.
Qed.

Lemma parser_reset_ok (p0 p : P) m :
  parser_ok p0 p m ->
  let '(p', m') := vox_mqtt_parser_reset p m in
  parser_ok p0 p' m' /\ state m' = VOX_MQTT_STATE_FIXED_HEADER.
Proof.
  intros Hm. unfold vox_mqtt_parser_reset. cbn zeta.
  pose proof (drop_message p0 p m false (error_buf m) Hm) as Ht. split; [|done].
  destruct Hm. by constructor.
Qed.

Lemma parser_destroy_ok (p0 p : P) m :
  parser_ok p0 p m -> took p0 (vox_mqtt_parser_destroy p m) [].
Proof.
  intros Hm. unfold vox_mqtt_parser_destroy. cbn zeta.
  pose proof (drop_message p0 p m false (error_buf m) Hm) as Ht.
  unfold blocks, buf_blocks, error_blocks in Ht. cbn in Ht. rewrite app_nil_r in Ht.
  apply took_free. destruct (buf_at m =? NULL); [done|]. apply took_free. by rewrite took_swap.
Qed.

Lemma mqtt_run_ok (p0 p : P) m u ops :
  parser_ok p0 p m ->
  ok (mqtt_run p m u ops) (fun '(p', m', _, rs) => parser_ok p0 p' m' /\ length rs = length ops).
Proof.
  revert p m u. induction ops as [|o ops IH]; intros p m u Hm; [done|]. cbn [mqtt_run].
  eapply (ok_bind _ _ (fun '(p', m', _, _) => parser_ok p0 p' m')).
  { destruct o as [data| |v]; cbn [mqtt_op_run].
    - eapply ok_mono; [by apply (execute_ok p0)|]. by intros [[[??]?]?] [? _].
    - pose proof (parser_reset_ok p0 p m Hm) as Hr. destruct (vox_mqtt_parser_reset p m) as [p' m']. apply Hr.
    - by apply ok_with_protocol. }
  intros [[[p1 m1] u1] r] Hm1. eapply ok_bind; [by apply IH|].
  intros [[[p2 m2] u2] rs] [Hm2 Hl]. cbn. by rewrite Hl.
Qed.
(** ** Input in pieces

    How each phase behaves when more input follows [cur]. *)

Lemma drop_app_z (l k : list Z) n : 0 <= n <= zlen l -> drop (Z.to_nat n) (l ++ k) = drop (Z.to_nat n) l ++ k.
Proof. intros Hn. apply drop_app_le. unfold zlen in Hn. lia. Qed.

Lemma remaining_loop_app n d b i v mult r :
  0 <= i -> remaining_loop n d (zlen d) i v mult = Some r -> r <> NeedMore ->
  remaining_loop n (d ++ b) (zlen (d ++ b)) i v mult = Some r.
Proof.
  revert i v mult. induction n as [|n IH]; intros i v mult Hi; [done|]. cbn [remaining_loop].
  pose proof (zlen_nonneg b). destruct (Z.ltb_spec i (zlen d)) as [Hl|Hl]; cbn [negb]; [|by intros [= <-]].
  rewrite zlen_app, (proj2 (Z.ltb_lt i (zlen d + zlen b))), arr_get_app_l by lia. cbn [negb].
  destruct (d.[i]) as [x|]; cbn [mbind option_bind]; [|done].
  destruct (127 <? x); [|done]. rewrite <-zlen_app. apply IH. lia.
Qed.

(** Two copies one after the other are one. *)
Lemma blit_twice (x a b : list Z) i n :
  0 <= i -> 0 <= n <= zlen b -> i + zlen a + n <= zlen x ->
  (y ← arr_blit x i a 0 (zlen a); arr_blit y (i + zlen a) b 0 n) = arr_blit x i (a ++ b) 0 (zlen a + n).
Proof.
  intros Hi Hn Hx. pose proof (zlen_nonneg a).
  assert (exists x1 x2 x3 x4, x = x1 ++ x2 ++ x3 ++ x4 /\ zlen x1 = i /\ zlen x2 = zlen a /\ zlen x3 = n)
    as (x1 & x2 & x3 & x4 & -> & <- & H2 & <-).
  { exists (take (Z.to_nat i) x), (take (Z.to_nat (zlen a)) (drop (Z.to_nat i) x)),
      (take (Z.to_nat n) (drop (Z.to_nat (i + zlen a)) x)), (drop (Z.to_nat (i + zlen a + n)) x).
    split; [|split_and!; zlia].
    rewrite <-(take_drop (Z.to_nat i) x) at 1. f_equal.
    rewrite <-(take_drop (Z.to_nat (zlen a)) (drop (Z.to_nat i) x)) at 1. f_equal. rewrite drop_drop.
    replace (Z.to_nat i + Z.to_nat (zlen a))%nat with (Z.to_nat (i + zlen a)) by lia.
    rewrite <-(take_drop (Z.to_nat n) (drop _ x)) at 1. f_equal. rewrite drop_drop. f_equal. lia. }
  rewrite (arr_blit_app x1 x2 (x3 ++ x4) a) by lia. cbn [mbind option_bind].
  change (Z.to_nat 0) with 0%nat. rewrite drop_0, take_ge by (unfold zlen; lia).
  rewrite (app_assoc x1 a), (arr_blit_app (x1 ++ a) x3 x4 b) by (rewrite ?zlen_app; lia).
  rewrite (app_assoc x2 x3), (arr_blit_app x1 (x2 ++ x3) x4 (a ++ b)) by (rewrite ?zlen_app; lia).
  change (Z.to_nat 0) with 0%nat. rewrite !drop_0, <-!app_assoc. do 2 f_equal.
  rewrite take_app_ge by (unfold zlen in *; lia). rewrite <-app_assoc. do 2 f_equal.
  f_equal. unfold zlen in *. lia.
Qed.

(** The result of a phase that goes on, with [b] behind its input. *)
Definition more (b : list Z) (w : world (P := P) (U := U) * flow) : world (P := P) (U := U) * flow :=
  (w.1, match w.2 with
        | Next cur c => Next (cur ++ b) c
        | Again cur c => Again (cur ++ b) c
        | Return r => Return r
        end).

(** It goes on or has failed; it does not wait for input. *)
Definition decided (w : world (P := P) (U := U) * flow) : Prop :=
  match w.2 with Return r => r = -1 | _ => True end.

Lemma stop_more b (p : P) m u msg w : stop junk p m u msg = Some w -> Some w = Some (more b w) /\ decided w.
Proof. unfold stop, fail. destruct (set_error _ _ _ _ _) as [w1|]; [|done]. by intros [= <-]. Qed.

Lemma fixed_header_app (p : P) m u cur c b w :
  fixed_header_phase junk p m u cur c = Some w ->
  (fixed_header_phase junk p m u (cur ++ b) c = Some (more b w) /\ decided w) \/
  (w = (p, m, u, Return c) /\ cur = [] /\ state m = VOX_MQTT_STATE_FIXED_HEADER).
Proof.
  unfold fixed_header_phase. destruct (decide _) as [Hs|Hs%state_dec].
  { intros [= <-]. by left. }
  destruct cur as [|x cur]; [intros [= <-]; by right|]. cbn [app]. cbv zeta. intros Hw. left.
  destruct (_ || _); [rewrite Hw; by eapply stop_more|].
  destruct (_ =? _); [rewrite Hw; by eapply stop_more|]. by injection Hw as <-.
Qed.

Lemma empty_packet_app (p : P) m u cur c b w :
  empty_packet junk p m u cur c = Some w ->
  empty_packet junk p m u (cur ++ b) c = Some (more b w) /\ decided w.
Proof.
  unfold empty_packet. cbv zeta. intros Hw.
  do 3 (destruct (_ =? _); [by injection Hw as <-|]). rewrite Hw; by eapply stop_more.
Qed.

Lemma remaining_len_app (p : P) m u cur c b w :
  remaining_len_phase junk p m u cur c = Some w ->
  (remaining_len_phase junk p m u (cur ++ b) c = Some (more b w) /\ decided w) \/
  (w = (p, m, u, Return c) /\ state m = VOX_MQTT_STATE_REMAINING_LEN).
Proof.
  unfold remaining_len_phase. destruct (decide _) as [Hs|Hs%state_dec].
  { intros [= <-]. by left. }
  destruct (decode_remaining_length cur (zlen cur)) as [r|] eqn:E; cbn [mbind option_bind]; [|done].
  pose proof (decode_remaining_ok cur) as Hv. rewrite E in Hv. cbn [ok] in Hv.
  intros Hw. assert (r = NeedMore \/ r <> NeedMore) as [-> | Hr] by (destruct r; auto).
  { injection Hw as <-. by right. }
  left.
  unfold decode_remaining_length in *. rewrite (remaining_loop_app 4 cur b 0 0 1 r) by done.
  cbn [mbind option_bind]. destruct r as [| |v k]; [done|rewrite Hw; by eapply stop_more|].
  revert Hw. cbv zeta. cbn [varint_ok] in Hv. rewrite drop_app_z by lia. set (m1 := with_remaining m v _). intros Hw.
  destruct (_ <? _); [rewrite Hw; by eapply stop_more|].
  destruct (_ =? 0); [by apply empty_packet_app|].
  destruct (ensure_buf _ _ _ _) as [[[p2 m2] rc]|]; cbn [mbind option_bind] in *; [|done].
  destruct (negb _); [rewrite Hw; by eapply stop_more|]. by injection Hw as <-.
Qed.

(** The buffer after [n] more bytes of the packet. *)
Definition gather m (cur : list Z) (n : Z) : option (vox_mqtt_parser U) :=
  if 0 <? n then b ← arr_blit (buf m) (buf_len m) cur 0 n; Some (with_fill m b (buf_len m + n) (need m - n))
  else Some m.

Lemma gather_app m cur b n :
  0 <= buf_len m -> 0 <= n <= zlen b -> buf_len m + zlen cur + n <= zlen (buf m) ->
  (m' ← gather m cur (zlen cur); gather m' b n) = gather m (cur ++ b) (zlen cur + n).
Proof.
  intros Hl Hn Hb. unfold gather. pose proof (zlen_nonneg cur).
  destruct (Z.ltb_spec 0 (zlen cur)) as [Hc|Hc].
  - rewrite (proj2 (Z.ltb_lt 0 (zlen cur + n))) by lia.
    destruct (Z.ltb_spec 0 n) as [Hn0|Hn0].
    + rewrite <-(blit_twice (buf m) cur b) by lia.
      destruct (arr_blit (buf m) _ _ _ _) as [y|]; cbn [mbind option_bind]; [|done]. cbn [buf buf_len with_fill].
      destruct (arr_blit y _ _ _ _) as [z|]; cbn [mbind option_bind]; [|done].
      unfold with_fill. cbn. do 2 f_equal; lia.
    + replace n with 0 by lia. rewrite Z.add_0_r.
      rewrite !arr_blit_ok by (rewrite ?zlen_app; lia). cbn [mbind option_bind].
      rewrite (take_app_le cur b) by (rewrite ?length_drop; unfold zlen; lia). done.
  - assert (cur = []) as -> by (destruct cur; [done|rewrite zlen_cons in *; pose proof (zlen_nonneg cur); lia]).
    cbn. done.
Qed.

Lemma gather_prefix m cur b n : n <= zlen cur -> gather m (cur ++ b) n = gather m cur n.
Proof.
  intros Hn. unfold gather. destruct (Z.ltb_spec 0 n); [|done]. pose proof (zlen_nonneg b).
  unfold arr_blit. rewrite zlen_app. change (Z.to_nat 0) with 0%nat. rewrite !drop_0.
  case_decide as Hd; [|rewrite decide_False by lia; done]. rewrite decide_True by lia.
  by rewrite take_app_le by (unfold zlen in *; lia).
Qed.

Lemma gather_Some m cur n :
  0 <= buf_len m -> 0 <= n <= zlen cur -> buf_len m + n <= zlen (buf m) ->
  exists m', gather m cur n = Some m' /\ state m' = state m /\ need m' = need m - n /\ zlen (buf m') = zlen (buf m).
Proof.
  intros Hl Hn Hb. unfold gather. destruct (Z.ltb_spec 0 n).
  - rewrite arr_blit_ok by lia. cbn. eexists. split; [done|]. cbn. split_and!; [done..|]. zlia.
  - exists m. split_and!; [done..|lia|done].
Qed.

Lemma payload_app (p0 p : P) m u cur c b w :
  parser_ok p0 p m -> payload_phase junk p m u cur c = Some w ->
  (payload_phase junk p m u (cur ++ b) c = Some (more b w) /\ decided w) \/
  exists m', w = (p, m', u, Return (c + zlen cur)) /\ state m' = VOX_MQTT_STATE_VARHEADER_PAYLOAD /\
    payload_phase junk p m u (cur ++ b) c = payload_phase junk p m' u b (c + zlen cur).
Proof.
  intros Hm. unfold payload_phase. destruct (decide _) as [Hs|Hs%state_dec].
  { intros [= <-]. by left. }
  cbv zeta. pose proof (po_fill _ _ _ Hm Hs) as (Hl & Hn & Hr & Hc & Hx). pose proof (po_buf _ _ _ Hm) as Hb.
  pose proof (zlen_nonneg cur). pose proof (zlen_nonneg b).
  set (t := if need m <? zlen cur then need m else zlen cur).
  change (if 0 <? t then _ else Some m) with (gather m cur t).
  set (t' := if need m <? zlen (cur ++ b) then need m else zlen (cur ++ b)).
  change (if 0 <? t' then _ else Some m) with (gather m (cur ++ b) t'). intros Hw.
  destruct (decide (need m <= zlen cur)) as [Hle|Hgt].
  - left. assert (t = need m) as Et by (unfold t; destruct (Z.ltb_spec (need m) (zlen cur)); lia).
    assert (t' = need m) as ->.
    { unfold t'. rewrite zlen_app in *. destruct (Z.ltb_spec (need m) (zlen cur + zlen b)); lia. }
    rewrite Et in *. clear Et.
    rewrite gather_prefix, drop_app_z by lia.
    destruct (gather_Some m cur (need m)) as (m' & Eg & _ & Hne & _); [lia..|].
    rewrite Eg in *. cbn [mbind option_bind] in *. rewrite Hne, Z.sub_diag in *. cbn [negb Z.eqb] in *.
    destruct (dispatch _ _ _ _) as [[[[p1 m1] u1] err]|]; cbn [mbind option_bind] in *; [|done].
    destruct (negb _); by injection Hw as <-.
  - right. assert (t = zlen cur) as -> by (unfold t; destruct (Z.ltb_spec (need m) (zlen cur)); lia).
    destruct (gather_Some m cur (zlen cur)) as (m' & Eg & Hst & Hne & _); [lia..|].
    rewrite Eg in *. cbn [mbind option_bind] in *. rewrite Hne in *.
    rewrite (proj2 (Z.eqb_neq (need m - zlen cur) 0)) in Hw by lia. cbn [negb] in Hw. injection Hw as <-.
    exists m'. split; [done|]. split; [by rewrite Hst|].
    rewrite decide_False by (rewrite Hst; tauto).
    cbv zeta. set (t2 := if need m' <? zlen b then need m' else zlen b).
    assert (t' = zlen cur + t2 /\ 0 <= t2 <= zlen b /\ t2 <= need m - zlen cur) as (-> & Ht2 & Ht3).
    { unfold t', t2. rewrite zlen_app, Hne.
      destruct (Z.ltb_spec (need m) (zlen cur + zlen b)), (Z.ltb_spec (need m - zlen cur) (zlen b)); lia. }
    rewrite <-gather_app, Eg by lia. cbn [mbind option_bind].
    change (if 0 <? t2 then _ else Some m') with (gather m' b t2).
    destruct (gather m' b t2) as [m2|]; cbn [mbind option_bind]; [|done].
    replace (drop (Z.to_nat (zlen cur + t2)) (cur ++ b)) with (drop (Z.to_nat t2) b).
    2: { unfold zlen. rewrite Z2Nat.inj_add, Nat2Z.id by lia. by rewrite <-drop_drop, drop_app_length. }
    by rewrite Z.add_assoc.
Qed.
(** A round that waits for input can be taken up where it stopped. *)
Lemma round_app (p0 p : P) m u cur c b w :
  parser_ok p0 p m -> state m <> VOX_MQTT_STATE_ERROR -> round junk p m u cur c = Some w ->
  (round junk p m u (cur ++ b) c = Some (more b w) /\ decided w) \/
  exists p' m' u' read rest, w = (p', m', u', Return (c + zlen read)) /\ cur = read ++ rest /\
    round junk p m u (cur ++ b) c = round junk p' m' u' (rest ++ b) (c + zlen read).
Proof.
  intros Hm Hne. unfold round at 1 2 3.
  destruct (fixed_header_phase junk p m u cur c) as [w1|] eqn:E1; [|done].
  pose proof (fixed_header_ok p0 p m u cur c Hm) as H1. rewrite E1 in H1.
  destruct (fixed_header_app p m u cur c b w1 E1) as [[E1' D1]|(-> & -> & Hs)].
  2: { intros [= <-]. right. exists p, m, u, [], []. rewrite zlen_nil, Z.add_0_r. done. }
  rewrite E1'. destruct w1 as [[[p1 m1] u1] f1]. destruct H1 as [[Hm1 Hf1] G1].
  destruct f1 as [cur1 c1|cur1 c1|r]; [|done|cbn; intros [= <-]; by left].
  destruct Hf1 as (rd1 & -> & ->), G1 as (Hs1 & Hx1 & Hy1).
  assert (Hne1 : state m1 <> VOX_MQTT_STATE_ERROR).
  { destruct (decide (state m = VOX_MQTT_STATE_FIXED_HEADER)) as [Hs|Hs];
      [by rewrite (proj1 (Hx1 Hs))|by rewrite (Hy1 Hs)]. }
  cbn [then_ mbind option_bind more fst snd]. set (c1 := c + zlen rd1).
  destruct (remaining_len_phase junk p1 m1 u1 cur1 c1) as [w2|] eqn:E2; [|done].
  pose proof (remaining_len_ok p0 p1 m1 u1 cur1 c1 Hm1 Hne1) as H2. rewrite E2 in H2.
  destruct (remaining_len_app p1 m1 u1 cur1 c1 b w2 E2) as [[E2' D2]|(-> & Hs2)].
  2: { intros [= <-]. right. exists p1, m1, u1, rd1, cur1. split; [done|]. split; [done|].
       unfold round at 1, fixed_header_phase. by rewrite decide_True by done. }
  rewrite E2'. destruct w2 as [[[p2 m2] u2] f2]. destruct H2 as [[Hm2 Hf2] G2].
  destruct f2 as [cur2 c2|cur2 c2|r]; [|cbn; intros [= <-]; by left|cbn; intros [= <-]; by left].
  destruct Hf2 as (rd2 & -> & ->), G2 as (Hx2 & Hy2).
  cbn [then_ mbind option_bind more fst snd]. set (c2 := c1 + zlen rd2). intros E3.
  destruct (payload_app p0 p2 m2 u2 cur2 c2 b w Hm2 E3) as [[E3' D3]|(m' & -> & Hs3 & E3')]; [by left|].
  right. exists p2, m', u2, (rd1 ++ rd2 ++ cur2), [].
  assert (c2 + zlen cur2 = c + zlen (rd1 ++ rd2 ++ cur2)) as Ec by (unfold c2, c1; rewrite !zlen_app; lia).
  split; [by rewrite Ec|]. split; [by rewrite app_nil_r, !app_assoc|].
  unfold round at 1, fixed_header_phase, remaining_len_phase.
  rewrite (decide_True (P := state m' <> VOX_MQTT_STATE_FIXED_HEADER)) by (by rewrite Hs3).
  cbn [then_ mbind option_bind]. rewrite decide_True by (by rewrite Hs3). cbn [then_ mbind option_bind].
  by rewrite E3', Ec.
Qed.

(** ** The count of consumed bytes is carried along *)

Definition shift (k r : Z) : Z := if r =? -1 then -1 else r + k.
Definition shift_flow (k : Z) (f : flow) : flow :=
  match f with Next cur c => Next cur (c + k) | Again cur c => Again cur (c + k) | Return r => Return (shift k r) end.
Definition shifted (k : Z) (w : world (P := P) (U := U) * flow) : world (P := P) (U := U) * flow := (w.1, shift_flow k w.2).

Lemma shift_pos k r : 0 <= r -> shift k r = r + k.
Proof. intros Hr. unfold shift. destruct (Z.eqb_spec r (-1)); lia. Qed.

Lemma stop_shift k (p : P) m u msg : stop junk p m u msg = shifted k <$> stop junk p m u msg.
Proof. unfold stop, fail. by destruct (set_error _ _ _ _ _). Qed.

Lemma fixed_header_shift (p : P) m u cur c k :
  0 <= c -> fixed_header_phase junk p m u cur (c + k) = shifted k <$> fixed_header_phase junk p m u cur c.
Proof.
  intros Hc. unfold fixed_header_phase. destruct (decide _); [done|].
  destruct cur as [|x cur]; [cbn; unfold shifted; cbn; by rewrite shift_pos|]. cbv zeta.
  destruct (_ || _); [apply stop_shift|]. destruct (_ =? _); [apply stop_shift|].
  unfold shifted. cbn. do 3 f_equal. lia.
Qed.

Lemma remaining_len_shift (p : P) m u cur c k :
  0 <= c -> remaining_len_phase junk p m u cur (c + k) = shifted k <$> remaining_len_phase junk p m u cur c.
Proof.
  intros Hc. unfold remaining_len_phase. destruct (decide _); [done|].
  destruct (decode_remaining_length _ _) as [[| |v nb]|]; [|apply stop_shift| |done].
  { unfold shifted. cbn. by rewrite shift_pos. }
  cbn [mbind option_bind]. cbv zeta. replace (c + k + nb) with (c + nb + k) by lia.
  destruct (_ <? _); [apply stop_shift|]. destruct (_ =? 0).
  { unfold empty_packet. cbv zeta. do 3 (destruct (_ =? _); [done|]). apply stop_shift. }
  destruct (ensure_buf _ _ _ _) as [[[p2 m2] rc]|]; cbn [mbind option_bind]; [|done].
  destruct (negb _); [apply stop_shift|done].
Qed.

Lemma payload_shift (p0 p : P) m u cur c k :
  parser_ok p0 p m -> 0 <= c ->
  payload_phase junk p m u cur (c + k) = shifted k <$> payload_phase junk p m u cur c.
Proof.
  intros Hm Hc. unfold payload_phase. destruct (decide _) as [|Hs%state_dec]; [done|]. cbv zeta.
  pose proof (po_fill _ _ _ Hm Hs) as (_ & Hn & _). pose proof (zlen_nonneg cur).
  set (t := if need m <? zlen cur then need m else zlen cur).
  assert (0 <= t) by (unfold t; destruct (Z.ltb_spec (need m) (zlen cur)); lia).
  destruct (if 0 <? t then _ else _) as [m'|]; cbn [mbind option_bind]; [|done].
  replace (c + k + t) with (c + t + k) by lia.
  destruct (negb _). { unfold shifted. cbn. by rewrite shift_pos by lia. }
  destruct (dispatch _ _ _ _) as [[[[p1 m1] u1] err]|]; cbn [mbind option_bind]; [|done].
  by destruct (negb _).
Qed.

Lemma round_shift (p0 p : P) m u cur c k :
  parser_ok p0 p m -> state m <> VOX_MQTT_STATE_ERROR -> 0 <= c ->
  round junk p m u cur (c + k) = shifted k <$> round junk p m u cur c.
Proof.
  intros Hm Hne Hc. unfold round. rewrite fixed_header_shift by done.
  pose proof (fixed_header_ok p0 p m u cur c Hm) as H1.
  destruct (fixed_header_phase junk p m u cur c) as [[[[p1 m1] u1] f1]|]; [|done].
  destruct H1 as [[Hm1 Hf1] G1]. destruct f1 as [cur1 c1|cur1 c1|r]; [|done..].
  destruct Hf1 as (rd1 & -> & ->), G1 as (Hs1 & Hx1 & Hy1). pose proof (zlen_nonneg rd1).
  assert (Hne1 : state m1 <> VOX_MQTT_STATE_ERROR).
  { destruct (decide (state m = VOX_MQTT_STATE_FIXED_HEADER)) as [Hs|Hs];
      [by rewrite (proj1 (Hx1 Hs))|by rewrite (Hy1 Hs)]. }
  cbn [then_ mbind option_bind fmap option_fmap option_map shifted shift_flow fst snd].
  rewrite remaining_len_shift by lia.
  pose proof (remaining_len_ok p0 p1 m1 u1 cur1 (c + zlen rd1) Hm1 Hne1) as H2.
  destruct (remaining_len_phase junk p1 m1 u1 cur1 _) as [[[[p2 m2] u2] f2]|]; [|done].
  destruct H2 as [[Hm2 Hf2] G2]. destruct f2 as [cur2 c2|cur2 c2|r]; [|done..].
  destruct Hf2 as (rd2 & -> & ->). pose proof (zlen_nonneg rd2).
  cbn [then_ mbind option_bind fmap option_fmap option_map shifted shift_flow fst snd].
  apply (payload_shift p0); [done|lia].
Qed.

Definition shifted_r (k : Z) (w : world (P := P) (U := U) * Z) : world (P := P) (U := U) * Z := (w.1, shift k w.2).

(** More fuel than enough changes nothing. *)
Lemma rounds_fuel f f' (p : P) m u cur c w :
  rounds junk f p m u cur c = Some w -> (f <= f')%nat -> rounds junk f' p m u cur c = Some w.
Proof.
  revert f' p m u cur c. induction f as [|f IH]; intros f' p m u cur c; [done|].
  destruct f' as [|f']; [lia|]. cbn [rounds]. intros Hw Hle.
  destruct (round _ _ _ _ _ _) as [[[[p1 m1] u1] [cur1 c1|cur1 c1|r]]|]; cbn [mbind option_bind] in *; try done;
    (apply IH; [done|lia]).
Qed.

Lemma rounds_enough f f' (p0 p : P) m u cur c :
  parser_ok p0 p m -> state m <> VOX_MQTT_STATE_ERROR -> enough f m cur -> enough f' m cur ->
  rounds junk f p m u cur c = rounds junk f' p m u cur c.
Proof.
  intros Hm Hne Hf Hf'.
  destruct (ok_Some _ _ (rounds_ok f p0 p m u cur c Hm Hne Hf)) as (w & E & _).
  destruct (ok_Some _ _ (rounds_ok f' p0 p m u cur c Hm Hne Hf')) as (w' & E' & _).
  rewrite E, E'. f_equal. destruct (Nat.le_ge_cases f f') as [Hl|Hl].
  - rewrite (rounds_fuel f f' p m u cur c w) in E' by done. by injection E'.
  - rewrite (rounds_fuel f' f p m u cur c w') in E by done. by injection E.
Qed.

Lemma rounds_shift f (p0 p : P) m u cur c k :
  parser_ok p0 p m -> state m <> VOX_MQTT_STATE_ERROR -> 0 <= c ->
  rounds junk f p m u cur (c + k) = shifted_r k <$> rounds junk f p m u cur c.
Proof.
  revert p m u cur c. induction f as [|f IH]; intros p m u cur c Hm Hne Hc; [done|]. cbn [rounds].
  rewrite (round_shift p0) by done. pose proof (round_ok p0 p m u cur c Hm Hne) as H1.
  destruct (round _ _ _ _ _ _) as [[[[p1 m1] u1] [cur1 c1|cur1 c1|r]]|]; [by destruct H1| |done|done].
  destruct H1 as [[Hm1 (rd & _ & ->)] (Hs1 & _ & _)]. pose proof (zlen_nonneg rd). cbn.
  apply IH; [done|by rewrite Hs1|lia].
Qed.

Lemma enough_round x m m' cur cur1 b :
  state m' = VOX_MQTT_STATE_FIXED_HEADER -> zlen cur1 <= zlen cur ->
  (state m = VOX_MQTT_STATE_FIXED_HEADER -> zlen cur1 < zlen cur) ->
  enough (S x) m (cur ++ b) -> enough x m' (cur1 ++ b).
Proof.
  intros Hs Hle Hlt. unfold enough. rewrite !zlen_app, (decide_True (P := state m' = _)) by done.
  destruct (decide (state m = VOX_MQTT_STATE_FIXED_HEADER)) as [E|E]; [specialize (Hlt E)|]; lia.
Qed.

Lemma enough_pos f m cur : enough f m cur -> exists x, f = S x.
Proof.
  unfold enough. pose proof (zlen_nonneg cur). destruct f as [|x]; [destruct (decide _); lia|]. by exists x.
Qed.

(** [rounds] on [cur ++ b] is [rounds] on [cur], then on what it left and [b]. *)
Lemma rounds_app f (p0 p : P) m u cur b c p1 m1 u1 r :
  parser_ok p0 p m -> state m <> VOX_MQTT_STATE_ERROR -> 0 <= c ->
  rounds junk f p m u cur c = Some (p1, m1, u1, r) ->
  (r = -1 /\ forall f2, enough f2 m (cur ++ b) -> rounds junk f2 p m u (cur ++ b) c = Some (p1, m1, u1, -1)) \/
  (0 <= r /\ exists read rest, cur = read ++ rest /\ r = c + zlen read /\
    forall f2 f3, enough f2 m (cur ++ b) -> enough f3 m1 (rest ++ b) ->
      rounds junk f2 p m u (cur ++ b) c = rounds junk f3 p1 m1 u1 (rest ++ b) r).
Proof.
  revert p m u cur c. induction f as [|f IH]; intros p m u cur c Hm Hne Hc; [done|]. cbn [rounds].
  intros Hw. destruct (round junk p m u cur c) as [w1|] eqn:E1; cbn [mbind option_bind] in Hw; [|done].
  pose proof (round_ok p0 p m u cur c Hm Hne) as H1. rewrite E1 in H1.
  destruct (round_app p0 p m u cur c b w1 Hm Hne E1) as [[E1' D1]|(q & m' & u' & read & rest & -> & -> & E1')].
  - destruct w1 as [[[q m'] u'] [cur1 c1|cur1 c1|r1]]; [by destruct H1| |].
    + destruct H1 as [[Hm1 (rd & -> & ->)] (Hs1 & Hle & Hlt)]. pose proof (zlen_nonneg rd).
      destruct (IH q m' u' cur1 (c + zlen rd) Hm1 ltac:(by rewrite Hs1) ltac:(lia) Hw)
        as [[-> Hr]|(Hr0 & read & rest & -> & -> & Hr)].
      * left. split; [done|]. intros f2 Hf2. destruct (enough_pos _ _ _ Hf2) as [x ->]. cbn [rounds].
        rewrite E1'. cbn. apply Hr. by eapply enough_round.
      * right. split; [done|]. exists (rd ++ read), rest.
        split; [by rewrite app_assoc|]. split; [rewrite zlen_app; lia|]. intros f2 f3 Hf2 Hf3.
        destruct (enough_pos _ _ _ Hf2) as [x ->]. cbn [rounds].
        rewrite E1'. cbn. apply Hr; [|done]. by eapply enough_round.
    + cbn in D1. subst r1. injection Hw as -> -> -> <-. left. split; [done|]. intros f2 Hf2.
      destruct (enough_pos _ _ _ Hf2) as [x ->]. cbn [rounds]. by rewrite E1'.
  - injection Hw as -> -> -> <-. right. pose proof (zlen_nonneg read). split; [lia|].
    exists read, rest. split; [done|]. split; [done|]. intros f2 f3 Hf2 Hf3.
    destruct (enough_pos _ _ _ Hf2) as [x2 ->], (enough_pos _ _ _ Hf3) as [x3 ->]. cbn [rounds].
    destruct H1 as [[Hm1 [Hx|(Hst & _)]] _]; [lia|].
    pose proof (round_ok p0 p m u ((read ++ rest) ++ b) c Hm Hne) as K2. rewrite E1' in K2 |- *.
    pose proof (round_ok p0 p1 m1 u1 (rest ++ b) (c + zlen read) Hm1 Hst) as K3.
    destruct (round junk p1 m1 u1 (rest ++ b) _) as [[[[p2 m2] u2] [cur2 c2|cur2 c2|r2]]|]; [by destruct K2| |done|done].
    cbn. destruct K2 as [[Hm2 _] (Hs2 & Hle2 & Hlt2)], K3 as [_ (_ & Hle3 & Hlt3)].
    apply (rounds_enough _ _ p0); [done|by rewrite Hs2| |].
    + rewrite <-(app_nil_r cur2). rewrite <-(app_nil_r (_ ++ b)) in Hf2. exact (enough_round _ _ _ _ _ _ Hs2 Hle2 Hlt2 Hf2).
    + rewrite <-(app_nil_r cur2). rewrite <-(app_nil_r (_ ++ b)) in Hf3. exact (enough_round _ _ _ _ _ _ Hs2 Hle3 Hlt3 Hf3).
Qed.

(** ** What the caller sees *)

Lemma execute_enough m data : enough (S (S (length data))) m data.
Proof. unfold enough, zlen. destruct (decide _); lia. Qed.

(** Feeding [a ++ b] is feeding [a], then what it left and [b]. *)
Lemma execute_app (p0 p : P) m u a b p1 m1 u1 r :
  parser_ok p0 p m -> vox_mqtt_parser_execute junk p m u a = Some (p1, m1, u1, r) ->
  (r = -1 /\ vox_mqtt_parser_execute junk p m u (a ++ b) = Some (p1, m1, u1, -1)) \/
  (0 <= r /\ state m1 <> VOX_MQTT_STATE_ERROR /\ exists read rest, a = read ++ rest /\ r = zlen read /\
    vox_mqtt_parser_execute junk p m u (a ++ b)
    = shifted_r r <$> vox_mqtt_parser_execute junk p1 m1 u1 (rest ++ b)).
Proof.
  intros Hm Hx. pose proof (execute_ok p0 p m u a Hm) as Hok. rewrite Hx in Hok. revert Hx.
  unfold vox_mqtt_parser_execute. destruct (decide (state m = VOX_MQTT_STATE_ERROR)) as [|Hne].
  { intros [= <- <- <- <-]. by left. }
  intros Hx. destruct (rounds_app _ p0 p m u a b 0 p1 m1 u1 r Hm Hne ltac:(done) Hx)
    as [[-> Hr]|(Hr0 & read & rest & -> & -> & Hr)].
  - left. split; [done|]. apply Hr, execute_enough.
  - right. split; [done|]. destruct Hok as [Hm1 [?|[Hs1 _]]]; [lia|]. split; [done|].
    exists read, rest. split; [done|]. split; [done|].
    rewrite decide_False by done. rewrite (Hr _ (S (S (length (rest ++ b))))) by apply execute_enough.
    rewrite (rounds_shift _ p0) by done. done.
Qed.

(** A caller that keeps the bytes a call has not consumed and puts them in front of the
    next read. The result is what is kept, or [None] after an error. *)
Fixpoint feed_all (p : P) m u (pending : list Z) (reads : list (list Z))
  : option (world (P := P) (U := U) * option (list Z)) :=
  match reads with
  | [] => Some (p, m, u, Some pending)
  | data :: reads =>
      '(p, m, u, r) ← vox_mqtt_parser_execute junk p m u (pending ++ data);
      if r <? 0 then Some (p, m, u, None)
      else feed_all p m u (drop (Z.to_nat r) (pending ++ data)) reads
  end.

Lemma feed_all_ok (p0 p : P) m u pending reads :
  parser_ok p0 p m -> state m <> VOX_MQTT_STATE_ERROR ->
  vox_mqtt_parser_execute junk p m u pending = Some (p, m, u, 0) ->
  exists w r, vox_mqtt_parser_execute junk p m u (pending ++ concat reads) = Some (w, r) /\
    feed_all p m u pending reads =
      Some (w, if r <? 0 then None else Some (drop (Z.to_nat r) (pending ++ concat reads))).
Proof.
  revert p m u pending. induction reads as [|data reads IH]; intros p m u pending Hm Hne Hw; cbn [feed_all concat].
  { exists (p, m, u), 0. rewrite app_nil_r. done. }
  rewrite app_assoc. set (cur := pending ++ data).
  destruct (ok_Some _ _ (execute_ok p0 p m u cur Hm)) as ([[[p1 m1] u1] r] & E & Hok). rewrite E.
  cbn [mbind option_bind].
  destruct (execute_app p0 p m u cur (concat reads) p1 m1 u1 r Hm E) as [[-> E']|(Hr & Hs1 & read & rest & Ec & -> & E')].
  { exists (p1, m1, u1), (-1). by rewrite E'. }
  rewrite (proj2 (Z.ltb_ge _ 0)) by done. destruct Hok as [Hm1 _].
  assert (drop (Z.to_nat (zlen read)) cur = rest) as Ed by (rewrite Ec; unfold zlen; by rewrite Nat2Z.id, drop_app_length).
  rewrite Ed.
  assert (vox_mqtt_parser_execute junk p1 m1 u1 rest = Some (p1, m1, u1, 0)) as Hw1.
  { destruct (execute_app p0 p m u cur [] p1 m1 u1 (zlen read) Hm E) as [[Hx _]|(_ & _ & rd & rs & Ec' & Hl & E2)]; [lia|].
    rewrite Ec in Ec'. apply app_inj_1 in Ec' as [<- <-]; [|unfold zlen in Hl; lia].
    rewrite !app_nil_r, E in E2. destruct (vox_mqtt_parser_execute junk p1 m1 u1 rest) as [[[[p2 m2] u2] r2]|]; [|done].
    cbn in E2. unfold shifted_r, shift in E2. cbn in E2.
    destruct (Z.eqb_spec r2 (-1)); injection E2 as <- <- <- ?; [lia|]. do 2 f_equal. lia. }
  destruct (IH p1 m1 u1 rest Hm1 Hs1 Hw1) as (w & r2 & E2 & E3). rewrite E3, E'.
  destruct (ok_Some _ _ (execute_ok p0 p1 m1 u1 (rest ++ concat reads) Hm1)) as ([[[p2 m2] u2] r3] & E4 & Hok2).
  rewrite E4 in E2 |- *. injection E2 as <- <-. cbn. eexists _, _. split; [done|].
  do 2 f_equal. destruct Hok2 as [_ [->|(_ & rd & rs & _ & -> & _)]]; [done|].
  pose proof (zlen_nonneg rd). pose proof (zlen_nonneg read). cbn [snd]. rewrite !Z.add_0_l, shift_pos by lia.
  rewrite !(proj2 (Z.ltb_ge _ 0)) by lia. f_equal.
  rewrite Ec, <-app_assoc. replace (Z.to_nat (zlen rd + zlen read)) with (length read + Z.to_nat (zlen rd))%nat by (unfold zlen; lia).
  by rewrite <-drop_drop, drop_app_length.
Qed.

(** ** What a connection promises *)

(** C28: Whatever bytes arrive, in whatever reads, and whatever the callbacks answer, the MQTT
    parser is memory safe and every call ends: it never reads or writes outside its buffer, and
    a call either fails with -1 or consumes only what it was given and leaves at most three
    bytes, only of an unfinished remaining length. In the error state the parser reports an
    error and has a message; not every -1 comes with that state (short_connect_silent: a
    CONNECT that is too short fails without a message). Destroying the parser gives back every
    block it took, buffer, return codes and error text included. *)
Theorem mqtt_parser_safe (p p1 : P) config callbacks m u ops data :
  mp_inv p -> match config with Some (n, _) => 0 <= n < 2 ^ 64 | None => True end ->
  vox_mqtt_parser_create junk p config callbacks = (p1, Some m) ->
  exists p2 m2 u2 rs, mqtt_run p1 m u ops = Some (p2, m2, u2, rs) /\ length rs = length ops /\
    (exists text, vox_mqtt_parser_get_error m2 = Some text /\
       (state m2 = VOX_MQTT_STATE_ERROR -> vox_mqtt_parser_has_error m2 = true /\ is_Some text)) /\
    (exists p3 m3 u3 r, vox_mqtt_parser_execute junk p2 m2 u2 data = Some (p3, m3, u3, r) /\
       (r = -1 \/ exists read rest, data = read ++ rest /\ r = zlen read /\
          (rest <> [] -> state m3 = VOX_MQTT_STATE_REMAINING_LEN /\ zlen rest < 4))) /\
    mp_inv (vox_mqtt_parser_destroy p2 m2) /\ mp_live (vox_mqtt_parser_destroy p2 m2) = mp_live p.
Proof.
  intros Hp Hc E. pose proof (mqtt_create_ok p config callbacks Hp Hc) as Hm. rewrite E in Hm. destruct Hm as [Hm _].
  destruct (ok_Some _ _ (mqtt_run_ok p p1 m u ops Hm)) as ([[[p2 m2] u2] rs] & Er & Hm2 & Hl).
  exists p2, m2, u2, rs. split; [done|]. split; [done|]. split; [|split].
  - destruct (ok_Some _ _ (get_error_ok p p2 m2 Hm2)) as (text & Et & Ht). exists text. split; [done|].
    intros Hs. split; [apply (po_error _ _ _ Hm2 Hs)|by apply Ht].
  - destruct (ok_Some _ _ (execute_ok p p2 m2 u2 data Hm2)) as ([[[p3 m3] u3] r] & Ex & _ & Hr).
    exists p3, m3, u3, r. split; [done|]. destruct Hr as [Hr|(_ & read & rest & Hd & Hr & Hx)]; [by left|].
    right. exists read, rest. split; [done|]. split; [lia|done].
  - pose proof (parser_destroy_ok p p2 m2 Hm2) as Hd. split; [apply (tk_inv _ _ _ Hd)|apply (tk_rest _ _ _ Hd)].
Qed.

(** C29: What the MQTT parser does depends only on the bytes, not on how the network cuts
    them into reads: between two packets, feeding the reads one by one, each time with the
    unconsumed bytes of the last call in front, ends in exactly the state of memory, parser
    and callbacks that feeding everything at once ends in, with the same bytes left over,
    and fails exactly when that fails. *)
Theorem mqtt_chunking (p0 p : P) m u reads :
  parser_ok p0 p m -> state m = VOX_MQTT_STATE_FIXED_HEADER ->
  exists w r, vox_mqtt_parser_execute junk p m u (concat reads) = Some (w, r) /\
    feed_all p m u [] reads = Some (w, if r <? 0 then None else Some (drop (Z.to_nat r) (concat reads))).
Proof.
  intros Hm Hs. apply (feed_all_ok p0 p m u [] reads Hm); [by rewrite Hs|].
  unfold vox_mqtt_parser_execute, rounds, round, fixed_header_phase. rewrite Hs. done.
Qed.

Lemma remaining_more n d i v mult :
  0 <= i <= zlen d -> zlen d < i + Z.of_nat n -> Forall (fun b => 128 <= b) d ->
  remaining_loop n d (zlen d) i v mult = Some NeedMore.
Proof.
  intros Hi Hn Hd. revert i v mult Hi Hn. induction n as [|n IH]; intros i v mult Hi Hn; [lia|]. cbn [remaining_loop].
  destruct (Z.ltb_spec i (zlen d)); cbn [negb]; [|done].
  destruct (arr_get_Some d i) as [x Ex]; [lia|]. rewrite Ex. cbn [mbind option_bind].
  rewrite arr_get_lookup in Ex by lia. pose proof (Forall_lookup_1 _ _ _ _ Hd Ex) as Hx. cbn beta in Hx.
  rewrite (proj2 (Z.ltb_lt 127 x)) by lia. apply IH; lia.
Qed.

(** C30: The broker forgets bytes: conn_feed_parser does not look at how much the parser
    consumed. When a read ends inside a remaining length of several bytes, the bytes of that
    length are not consumed; the connection stays open in exactly the state it has after the
    first byte of the packet alone, so the next read is taken for the remaining length. *)
Theorem mqtt_partial_length_lost (p : P) m u h part :
  state m = VOX_MQTT_STATE_FIXED_HEADER -> 16 <= h < 240 ->
  Forall (fun b => 128 <= b) part -> zlen part < 4 ->
  exists m', state m' = VOX_MQTT_STATE_REMAINING_LEN /\
    vox_mqtt_parser_execute junk p m u (h :: part) = Some (p, m', u, 1) /\
    conn_feed_parser junk p m u (h :: part) = Some (p, m', u, false) /\
    conn_feed_parser junk p m u [h] = Some (p, m', u, false).
Proof.
  intros Hs Hh Hp Hl.
  set (m1 := with_header m (Z.land (Z.shiftr h 4) 15) (Z.land h 15)).
  exists (with_remaining (with_state m1 VOX_MQTT_STATE_REMAINING_LEN) (remaining_len m1) 0).
  assert (Hall : forall q, Forall (fun b => 128 <= b) q -> zlen q < 4 ->
    vox_mqtt_parser_execute junk p m u (h :: q)
    = Some (p, with_remaining (with_state m1 VOX_MQTT_STATE_REMAINING_LEN) (remaining_len m1) 0, u, 1)).
  { intros q Hq Hlq. unfold vox_mqtt_parser_execute. rewrite decide_False by (by rewrite Hs).
    cbn [rounds]. unfold round, fixed_header_phase. rewrite decide_False by (rewrite Hs; tauto). cbv zeta.
    fold m1.
    assert (type_ m1 = h / 16) as Ht.
    { cbn. change 15 with (Z.ones 4). rewrite Z.land_ones, Z.shiftr_div_pow2 by lia. change (2 ^ 4) with 16. dlia. }
    assert (1 <= h / 16 < 15) by dlia. unfold VOX_MQTT_PKT_AUTH. rewrite Ht.
    rewrite (proj2 (Z.ltb_ge (h / 16) 1)), (proj2 (Z.ltb_ge 15 (h / 16))), (proj2 (Z.eqb_neq (h / 16) 15)) by lia.
    cbn [orb then_ mbind option_bind]. unfold remaining_len_phase. rewrite decide_False by (cbn; tauto).
    unfold decode_remaining_length. pose proof (zlen_nonneg q). by rewrite remaining_more by (done || lia). }
  pose proof (Hall part Hp Hl) as E1. pose proof (Hall [] ltac:(done) ltac:(done)) as E2.
  unfold conn_feed_parser. rewrite E1, E2. done.
Qed.
End invariant.

(** ** Concrete runs *)

(** The only callback set records the topics published. *)
Definition record_topics : vox_mqtt_parser_callbacks_t (list (list Z)) :=
  {| on_connect := None; on_connack := None; on_publish := Some (fun info u => (u ++ [pi_topic info], 0));
     on_puback := None; on_pubrec := None; on_pubrel := None; on_pubcomp := None; on_subscribe := None;
     on_subscribe_done := None; on_suback := None; on_unsubscribe := None; on_unsuback := None;
     on_pingreq := None; on_pingresp := None; on_disconnect := None; on_error := None |}.

(** A PUBLISH packet of topic t with [n] bytes of payload, 125 to 16380 of them. *)
Definition publish_bytes (n : nat) : list Z :=
  [0x30; 128 + (Z.of_nat n + 3) mod 128; (Z.of_nat n + 3) / 128; 0; 1; 116] ++ replicate n 7.

Lemma mqtt_parser_safe_witness :
  exists p1 m, vox_mqtt_parser_create 0 (bump_new 4096) None record_topics = (p1, Some m) /\
  exists p2 m2 u2 rs,
    mqtt_run 0 p1 m [] [Feed (publish_bytes 200); SetVersion 5; Feed [0x10]; Reset_] = Some (p2, m2, u2, rs) /\
    length rs = 4%nat.
Proof.
  eexists _, _. split; [reflexivity|].
  destruct (mqtt_parser_safe 0 (bump_new 4096) _ None record_topics _ [] [Feed (publish_bytes 200); SetVersion 5; Feed [0x10]; Reset_]
    [] (bump_new_inv 4096 ltac:(lia)) I eq_refl) as (p2 & m2 & u2 & rs & E & Hl & _).
  exists p2, m2, u2, rs. split; [exact E|exact Hl].
Defined.

Lemma mqtt_chunking_witness :
  exists p1 m, vox_mqtt_parser_create 0 (bump_new 4096) None record_topics = (p1, Some m) /\
  exists w r, vox_mqtt_parser_execute 0 p1 m [] (concat [[0x30; 0x80 + 75]; [1; 0; 1]; 116 :: replicate 200 7]) = Some (w, r) /\
    feed_all 0 p1 m [] [] [[0x30; 0x80 + 75]; [1; 0; 1]; 116 :: replicate 200 7]
    = Some (w, if r <? 0 then None else Some (drop (Z.to_nat r) (concat [[0x30; 0x80 + 75]; [1; 0; 1]; 116 :: replicate 200 7]))).
Proof.
  eexists _, _. split; [reflexivity|].
  apply (mqtt_chunking 0 (bump_new 4096)); [|reflexivity].
  exact (proj1 (mqtt_create_ok 0 (bump_new 4096) None record_topics (bump_new_inv 4096 ltac:(lia)) I)).
Defined.

Lemma mqtt_partial_length_lost_witness :
  exists p1 m, vox_mqtt_parser_create 0 (bump_new 4096) None record_topics = (p1, Some m) /\
  exists m', state m' = VOX_MQTT_STATE_REMAINING_LEN /\
    vox_mqtt_parser_execute 0 p1 m [] [0x30; 0x80 + 75] = Some (p1, m', [], 1) /\
    conn_feed_parser 0 p1 m [] [0x30; 0x80 + 75] = Some (p1, m', [], false) /\
    conn_feed_parser 0 p1 m [] [0x30] = Some (p1, m', [], false).
Proof.
  eexists _, _. split; [reflexivity|].
  apply (mqtt_partial_length_lost 0); [reflexivity|lia|by repeat constructor|reflexivity].
Defined.

(** A CONNECT with an empty body: -1, and there is neither an error state nor a message. *)
Example short_connect_silent :
  match vox_mqtt_parser_create 0 (bump_new 4096) None record_topics with
  | (p1, Some m) =>
      '(_, m, _, r) ← vox_mqtt_parser_execute 0 p1 m [] [0x10; 2; 0; 4];
      text ← vox_mqtt_parser_get_error m; Some (r, vox_mqtt_parser_has_error m, text)
  | _ => None
  end = Some (-1, false, None).
Proof. reflexivity. Qed.

(** The same packet in one read and in two, as the broker feeds it. *)
Definition broker_reads (reads : list (list Z)) : option (list (list Z) * bool) :=
  match vox_mqtt_parser_create 0 (bump_new 4096) None record_topics with
  | (p1, Some m) =>
      '(_, _, u, closed) ←
        foldl (fun s data => '(p, m, u, closed) ← s;
                             if (closed : bool) then Some (p, m, u, closed) else conn_feed_parser 0 p m u data)
          (Some (p1, m, [], false)) reads;
      Some (u, closed)
  | _ => None
  end.

Example broker_whole : broker_reads [publish_bytes 200] = Some ([[116]], false).
Proof. reflexivity. Qed.
Example broker_cut :
  broker_reads [take 2 (publish_bytes 200); drop 2 (publish_bytes 200)] = Some ([], true).
Proof. reflexivity. Qed.

End Mqtt.
