(* ===== verification/MqttEnc.v ===== *)
(** * vox_mqtt_parser.c: the encoders of MQTT packets

    The encoders of src/mqtt/vox_mqtt_parser.c write a packet into a buffer and return its
    size; a buffer that is too small is left alone. What they write is characterised as a
    list of bytes, and the parser of Mqtt.v is proved to read each packet back: the callback
    of its type gets the arguments the encoder was given. *)

From Stdlib Require Import String Ascii.
From S2P Require Import Prelude Alloc CString Mqtt.

Module MqttEnc.
Import CString Mqtt.

(** ** Writing

    A writer is a buffer with the offset of the next byte. *)

Definition writer : Type := list Z * Z.

(** [buf[off++] = x] *)
Definition emit (x : Z) (s : writer) : option writer :=
  b ← s.1.[s.2 <- u8 x]; Some (b, s.2 + 1).

(** [memcpy(buf + off, src, n); off += n] *)
Definition emit_bytes (src : list Z) (n : Z) (s : writer) : option writer :=
  b ← arr_blit s.1 s.2 src 0 n; Some (b, s.2 + n).

(** The high byte and the low byte of a 16-bit number. *)
Definition emit16 (x : Z) (s : writer) : option writer :=
  s ← emit (Z.shiftr x 8) s; emit (Z.land x 0xff) s.

(** [if (buf) buf[n] = b] *)
Definition emit_opt (x : Z) (s : option writer) : option (option writer) :=
  match s with Some s => s ← emit x s; Some (Some s) | None => Some None end.

(** The loop: the digits written, and their number or -1. *)
Fixpoint digits_loop (fuel : nat) (s : option writer) (value n : Z) : option (option writer * Z) :=
  match fuel with
  | O => None
  | S fuel =>
      let b := u8 (value mod 128) in
      let value := value / 128 in
      let b := if value =? 0 then b else Z.lor b 128 in
      s ← emit_opt b s;
      let n := n + 1 in
      if value =? 0 then Some (s, n) else
      if 4 <=? n then Some (s, -1) else
      digits_loop fuel s value n
  end.

(** src/mqtt/vox_mqtt_parser.c: vox_mqtt_encode_remaining_length *)
Definition vox_mqtt_encode_remaining_length (buf : option writer) (value : Z) : option (option writer * Z) :=
  digits_loop 4 buf value 0.

(** The loop of encode_varint ends after four bytes in any case.

    src/mqtt/vox_mqtt_parser.c: encode_varint *)
Definition encode_varint (buf : option writer) (value : Z) : option (option writer * Z) :=
  '(s, n) ← digits_loop 4 buf value 0;
  Some (s, if n =? -1 then 4 else n).

(** The number of bytes a value takes. *)
Definition varint_size (value : Z) : option Z := '(_, n) ← encode_varint None value; Some n.

Definition emit_varint (value : Z) (s : writer) : option writer :=
  '(s, _) ← encode_varint (Some s) value; s.

(** [off += write_utf8(buf + off, buf_size - off, s, len)]: nothing is written when the text
    is too long or does not fit.

    src/mqtt/vox_mqtt_parser.c: write_utf8 *)
Definition write_utf8 (buf_size : Z) (t : list Z) (s : writer) : option writer :=
  let len := zlen t in
  if 65535 <? len then Some s else
  if u64 (buf_size - s.2) <? 2 + len then Some s else
  s ← emit16 len s;
  if len =? 0 then Some s else emit_bytes t len s.

(** A text argument: NULL or its bytes. It is used when it is not empty. *)
Definition given (t : option (list Z)) : option (list Z) :=
  match t with Some (x :: l) => Some (x :: l) | _ => None end.

Definition text_size (t : option (list Z)) : Z := match given t with Some l => 2 + zlen l | None => 0 end.
Definition write_given (buf_size : Z) (t : option (list Z)) (s : writer) : option writer :=
  match given t with Some l => write_utf8 buf_size l s | None => Some s end.

(** The frame all encoders but CONNECT's share: sizes, the tests of the buffer, the first
    byte, the remaining length, and the rest of the packet by [body]. The result is the
    buffer and the returned size.

    src/mqtt/vox_mqtt_parser.c:910-919: vox_mqtt_encode_connack *)
Definition encode_packet (buf : option (list Z)) (buf_size first need : Z) (body : writer -> option writer)
  : option (option (list Z) * Z) :=
  '(_, rl) ← vox_mqtt_encode_remaining_length None need;
  if rl <? 0 then Some (buf, 0) else
  let total := 1 + rl + need in
  if buf_size <? total then Some (buf, total) else
  match buf with
  | None => Some (None, total)
  | Some b =>
      s ← emit first (b, 0);
      '(s, _) ← vox_mqtt_encode_remaining_length (Some s) need;
      match s with
      | None => None
      | Some (b, _) => '(b, _) ← body (b, 1 + rl); Some (Some b, total)
      end
  end.

(** ** The packets *)

(** The flags and the size of what CONNECT's optional arguments add. *)
Definition connect_flags (clean_session : bool) (will_topic : option (list Z)) (will_qos : Z) (will_retain : bool)
    (username password : option (list Z)) : Z :=
  let f := if clean_session then VOX_MQTT_CONNECT_FLAG_CLEAN_SESSION else 0 in
  let f := match given will_topic with
           | Some _ => u8 (Z.lor f (Z.lor (Z.lor VOX_MQTT_CONNECT_FLAG_WILL
                             (Z.shiftl will_qos VOX_MQTT_CONNECT_FLAG_WILL_QOS_SHIFT))
                             (if will_retain then VOX_MQTT_CONNECT_FLAG_WILL_RETAIN else 0)))
           | None => f
           end in
  let f := match given username with Some _ => Z.lor f VOX_MQTT_CONNECT_FLAG_USERNAME | None => f end in
  match given password with Some _ => Z.lor f VOX_MQTT_CONNECT_FLAG_PASSWORD | None => f end.

Definition connect_tail_size (client_id : list Z) (will_topic : option (list Z)) (will_msg : list Z)
    (username password : option (list Z)) : Z :=
  2 + zlen client_id
  + match given will_topic with Some t => 2 + zlen t + 2 + zlen will_msg | None => 0 end
  + text_size username + text_size password.

(** The texts of the payload in their order. *)
Definition write_connect_tail (buf_size : Z) (client_id : list Z) (will_topic : option (list Z)) (will_msg : list Z)
    (username password : option (list Z)) (s : writer) : option writer :=
  s ← write_utf8 buf_size client_id s;
  s ← match given will_topic with
      | Some t => s ← write_utf8 buf_size t s; write_utf8 buf_size will_msg s
      | None => Some s
      end;
  s ← write_given buf_size username s;
  write_given buf_size password s.

Definition MQTT_name : list Z := bytes_of "MQTT"%string.

(** The variable header up to the keep-alive time. *)
Definition write_connect_head (version cflags keepalive : Z) (s : writer) : option writer :=
  s ← emit 0 s; s ← emit 4 s; s ← emit_bytes MQTT_name 4 s;
  s ← emit version s; s ← emit cflags s; emit16 keepalive s.

(** The first byte is written before the test for a NULL buffer.

    src/mqtt/vox_mqtt_parser.c: vox_mqtt_encode_connect *)
Definition vox_mqtt_encode_connect (buf : option (list Z)) (buf_size : Z) (client_id : list Z)
    (keepalive : Z) (clean_session : bool) (will_topic : option (list Z)) (will_msg : list Z)
    (will_qos : Z) (will_retain : bool) (username password : option (list Z)) : option (option (list Z) * Z) :=
  let need := u64 (2 + 4 + 2 + 2 + connect_tail_size client_id will_topic will_msg username password) in
  let cflags := connect_flags clean_session will_topic will_qos will_retain username password in
  '(_, rl) ← vox_mqtt_encode_remaining_length None need;
  if rl <? 0 then Some (buf, 0) else
  let total := 1 + rl + need in
  if buf_size <? total then Some (buf, total) else
  match buf with
  | None => None
  | Some _ =>
      encode_packet buf buf_size (Z.shiftl VOX_MQTT_PKT_CONNECT 4) need (fun s =>
        s ← write_connect_head 4 cflags keepalive s;
        write_connect_tail buf_size client_id will_topic will_msg username password s)
  end.

(** The properties of CONNECT and CONNACK. *)
Definition props_size (session_expiry_interval receive_maximum : Z) : Z :=
  (if session_expiry_interval =? 0 then 0 else 5) + (if receive_maximum =? 0 then 0 else 3).

Definition write_props (session_expiry_interval receive_maximum : Z) (s : writer) : option writer :=
  s ← emit_varint (props_size session_expiry_interval receive_maximum) s;
  s ← (if session_expiry_interval =? 0 then Some s else
         s ← emit VOX_MQTT5_PROP_SESSION_EXPIRY_INTERVAL s;
         s ← emit (Z.shiftr session_expiry_interval 24) s;
         s ← emit (Z.shiftr session_expiry_interval 16) s;
         s ← emit (Z.shiftr session_expiry_interval 8) s;
         emit (Z.land session_expiry_interval 0xff) s);
  if receive_maximum =? 0 then Some s else
  s ← emit VOX_MQTT5_PROP_RECEIVE_MAXIMUM s;
  emit16 receive_maximum s.

(** src/mqtt/vox_mqtt_parser.c: vox_mqtt_encode_connect_v5 *)
Definition vox_mqtt_encode_connect_v5 (buf : option (list Z)) (buf_size : Z) (client_id : list Z)
    (keepalive : Z) (clean_session : bool) (will_topic : option (list Z)) (will_msg : list Z)
    (will_qos : Z) (will_retain : bool) (username password : option (list Z))
    (session_expiry_interval receive_maximum : Z) : option (option (list Z) * Z) :=
  let prop_len := props_size session_expiry_interval receive_maximum in
  n ← varint_size prop_len;
  let need := u64 (2 + 4 + 2 + 2 + (n + prop_len)
                   + connect_tail_size client_id will_topic will_msg username password) in
  let cflags := connect_flags clean_session will_topic will_qos will_retain username password in
  encode_packet buf buf_size (Z.shiftl VOX_MQTT_PKT_CONNECT 4) need (fun s =>
    s ← write_connect_head 5 cflags keepalive s;
    s ← write_props session_expiry_interval receive_maximum s;
    write_connect_tail buf_size client_id will_topic will_msg username password s).

(** src/mqtt/vox_mqtt_parser.c: vox_mqtt_encode_connack *)
Definition vox_mqtt_encode_connack (buf : option (list Z)) (buf_size session_present return_code : Z)
  : option (option (list Z) * Z) :=
  encode_packet buf buf_size (Z.shiftl VOX_MQTT_PKT_CONNACK 4) 2 (fun s =>
    s ← emit (Z.land session_present VOX_MQTT_CONNACK_FLAG_SESSION_PRESENT) s; emit return_code s).

(** src/mqtt/vox_mqtt_parser.c: vox_mqtt_encode_connack_v5 *)
Definition vox_mqtt_encode_connack_v5 (buf : option (list Z)) (buf_size session_present reason_code
    session_expiry_interval receive_maximum : Z) : option (option (list Z) * Z) :=
  let prop_len := props_size session_expiry_interval receive_maximum in
  n ← varint_size prop_len;
  encode_packet buf buf_size (Z.shiftl VOX_MQTT_PKT_CONNACK 4) (1 + 1 + n + prop_len) (fun s =>
    s ← emit (Z.land session_present VOX_MQTT_CONNACK_FLAG_SESSION_PRESENT) s;
    s ← emit reason_code s;
    write_props session_expiry_interval receive_maximum s).

(** The first byte of a PUBLISH packet. *)
Definition publish_first (qos : Z) (retain : bool) : Z :=
  Z.lor (Z.lor (Z.shiftl VOX_MQTT_PKT_PUBLISH 4) (if retain then VOX_MQTT_PUBLISH_MASK_RETAIN else 0))
        (Z.shiftl qos VOX_MQTT_PUBLISH_QOS_SHIFT).

(** src/mqtt/vox_mqtt_parser.c: vox_mqtt_encode_publish *)
Definition vox_mqtt_encode_publish (buf : option (list Z)) (buf_size qos : Z) (retain : bool) (packet_id : Z)
    (topic payload : list Z) : option (option (list Z) * Z) :=
  if 65535 <? zlen topic then Some (buf, 0) else
  let need := u64 (2 + zlen topic + (if qos =? 0 then 0 else 2) + zlen payload) in
  encode_packet buf buf_size (publish_first qos retain) need (fun s =>
    s ← emit16 (zlen topic) s;
    s ← emit_bytes topic (zlen topic) s;
    s ← (if qos =? 0 then Some s else emit16 packet_id s);
    if zlen payload =? 0 then Some s else emit_bytes payload (zlen payload) s).

(** src/mqtt/vox_mqtt_parser.c: vox_mqtt_encode_publish_v5 *)
Definition vox_mqtt_encode_publish_v5 (buf : option (list Z)) (buf_size qos : Z) (retain : bool) (packet_id : Z)
    (topic payload : list Z) : option (option (list Z) * Z) :=
  if 65535 <? zlen topic then Some (buf, 0) else
  let need := u64 (2 + zlen topic + (if qos =? 0 then 0 else 2) + 1 + zlen payload) in
  encode_packet buf buf_size (publish_first qos retain) need (fun s =>
    s ← emit16 (zlen topic) s;
    s ← emit_bytes topic (zlen topic) s;
    s ← (if qos =? 0 then Some s else emit16 packet_id s);
    s ← emit_varint 0 s;
    if zlen payload =? 0 then Some s else emit_bytes payload (zlen payload) s).

(** src/mqtt/vox_mqtt_parser.c: encode_pub_ack *)
Definition encode_pub_ack (buf : option (list Z)) (buf_size type packet_id : Z) : option (option (list Z) * Z) :=
  let flags := if type =? VOX_MQTT_PKT_PUBREL then VOX_MQTT_PUBREL_RESERVED else 0 in
  encode_packet buf buf_size (Z.lor (Z.shiftl type 4) flags) 2 (emit16 packet_id).

(** src/mqtt/vox_mqtt_parser.c: vox_mqtt_encode_puback *)
Definition vox_mqtt_encode_puback buf buf_size packet_id := encode_pub_ack buf buf_size VOX_MQTT_PKT_PUBACK packet_id.

(** src/mqtt/vox_mqtt_parser.c: vox_mqtt_encode_pubrec *)
Definition vox_mqtt_encode_pubrec buf buf_size packet_id := encode_pub_ack buf buf_size VOX_MQTT_PKT_PUBREC packet_id.

(** src/mqtt/vox_mqtt_parser.c: vox_mqtt_encode_pubrel *)
Definition vox_mqtt_encode_pubrel buf buf_size packet_id := encode_pub_ack buf buf_size VOX_MQTT_PKT_PUBREL packet_id.

(** src/mqtt/vox_mqtt_parser.c: vox_mqtt_encode_pubcomp *)
Definition vox_mqtt_encode_pubcomp buf buf_size packet_id := encode_pub_ack buf buf_size VOX_MQTT_PKT_PUBCOMP packet_id.

(** src/mqtt/vox_mqtt_parser.c: vox_mqtt_encode_unsuback *)
Definition vox_mqtt_encode_unsuback buf buf_size packet_id := encode_pub_ack buf buf_size VOX_MQTT_PKT_UNSUBACK packet_id.

(** The size of the topic filters, [extra] bytes more for each; [None]: one is too long. *)
Fixpoint filters_size (topics : list (list Z)) (extra need : Z) : option Z :=
  match topics with
  | [] => Some need
  | t :: topics => if 65535 <? zlen t then None else filters_size topics extra (u64 (need + (2 + zlen t + extra)))
  end.

(** The topic filters with their qualities of service; a NULL list of those is all zero.

    src/mqtt/vox_mqtt_parser.c:1000-1007: vox_mqtt_encode_subscribe *)
Fixpoint write_filters (topics : list (list Z)) (qos_list : option (list Z)) (i : Z) (s : writer) : option writer :=
  match topics with
  | [] => Some s
  | t :: topics =>
      s ← emit16 (zlen t) s;
      s ← emit_bytes t (zlen t) s;
      q ← match qos_list with Some l => l.[i] | None => Some 0 end;
      s ← emit q s;
      write_filters topics qos_list (i + 1) s
  end.

(** The topic filters alone. *)
Fixpoint write_topics (topics : list (list Z)) (s : writer) : option writer :=
  match topics with
  | [] => Some s
  | t :: topics => s ← emit16 (zlen t) s; s ← emit_bytes t (zlen t) s; write_topics topics s
  end.

(** src/mqtt/vox_mqtt_parser.c: vox_mqtt_encode_subscribe *)
Definition vox_mqtt_encode_subscribe (buf : option (list Z)) (buf_size packet_id : Z)
    (topic_filters : list (list Z)) (qos_list : option (list Z)) : option (option (list Z) * Z) :=
  match filters_size topic_filters 1 2 with
  | None => Some (buf, 0)
  | Some need =>
      encode_packet buf buf_size (Z.lor (Z.shiftl VOX_MQTT_PKT_SUBSCRIBE 4) VOX_MQTT_SUBSCRIBE_RESERVED) need (fun s =>
        s ← emit16 packet_id s; write_filters topic_filters qos_list 0 s)
  end.

(** src/mqtt/vox_mqtt_parser.c: vox_mqtt_encode_subscribe_v5 *)
Definition vox_mqtt_encode_subscribe_v5 (buf : option (list Z)) (buf_size packet_id : Z)
    (topic_filters : list (list Z)) (qos_list : option (list Z)) : option (option (list Z) * Z) :=
  match filters_size topic_filters 1 (2 + 1) with
  | None => Some (buf, 0)
  | Some need =>
      encode_packet buf buf_size (Z.lor (Z.shiftl VOX_MQTT_PKT_SUBSCRIBE 4) VOX_MQTT_SUBSCRIBE_RESERVED) need (fun s =>
        s ← emit16 packet_id s; s ← emit_varint 0 s; write_filters topic_filters qos_list 0 s)
  end.

(** src/mqtt/vox_mqtt_parser.c: vox_mqtt_encode_unsubscribe *)
Definition vox_mqtt_encode_unsubscribe (buf : option (list Z)) (buf_size packet_id : Z)
    (topic_filters : list (list Z)) : option (option (list Z) * Z) :=
  match filters_size topic_filters 0 2 with
  | None => Some (buf, 0)
  | Some need =>
      encode_packet buf buf_size (Z.lor (Z.shiftl VOX_MQTT_PKT_UNSUBSCRIBE 4) VOX_MQTT_UNSUBSCRIBE_RESERVED) need (fun s =>
        s ← emit16 packet_id s; write_topics topic_filters s)
  end.

(** src/mqtt/vox_mqtt_parser.c: vox_mqtt_encode_unsubscribe_v5 *)
Definition vox_mqtt_encode_unsubscribe_v5 (buf : option (list Z)) (buf_size packet_id : Z)
    (topic_filters : list (list Z)) : option (option (list Z) * Z) :=
  match filters_size topic_filters 0 (2 + 1) with
  | None => Some (buf, 0)
  | Some need =>
      encode_packet buf buf_size (Z.lor (Z.shiftl VOX_MQTT_PKT_UNSUBSCRIBE 4) VOX_MQTT_UNSUBSCRIBE_RESERVED) need (fun s =>
        s ← emit16 packet_id s; s ← emit_varint 0 s; write_topics topic_filters s)
  end.

(** [if (count && codes) memcpy(buf + off, codes, count)] *)
Definition write_codes (codes : option (list Z)) (count : Z) (s : writer) : option writer :=
  match codes with
  | Some l => if count =? 0 then Some s else emit_bytes l count s
  | None => Some s
  end.

(** src/mqtt/vox_mqtt_parser.c: vox_mqtt_encode_suback *)
Definition vox_mqtt_encode_suback (buf : option (list Z)) (buf_size packet_id : Z)
    (return_codes : option (list Z)) (count : Z) : option (option (list Z) * Z) :=
  encode_packet buf buf_size (Z.shiftl VOX_MQTT_PKT_SUBACK 4) (u64 (2 + count)) (fun s =>
    s ← emit16 packet_id s; write_codes return_codes count s).

(** src/mqtt/vox_mqtt_parser.c: vox_mqtt_encode_suback_v5 *)
Definition vox_mqtt_encode_suback_v5 (buf : option (list Z)) (buf_size packet_id : Z)
    (reason_codes : option (list Z)) (count : Z) : option (option (list Z) * Z) :=
  encode_packet buf buf_size (Z.shiftl VOX_MQTT_PKT_SUBACK 4) (u64 (2 + 1 + count)) (fun s =>
    s ← emit16 packet_id s; s ← emit_varint 0 s; write_codes reason_codes count s).

(** src/mqtt/vox_mqtt_parser.c: vox_mqtt_encode_unsuback_v5 *)
Definition vox_mqtt_encode_unsuback_v5 (buf : option (list Z)) (buf_size packet_id : Z)
    (reason_codes : option (list Z)) (count : Z) : option (option (list Z) * Z) :=
  encode_packet buf buf_size (Z.shiftl VOX_MQTT_PKT_UNSUBACK 4) (u64 (2 + 1 + count)) (fun s =>
    s ← emit16 packet_id s; s ← emit_varint 0 s; write_codes reason_codes count s).

(** src/mqtt/vox_mqtt_parser.c: vox_mqtt_encode_disconnect_v5 *)
Definition vox_mqtt_encode_disconnect_v5 (buf : option (list Z)) (buf_size reason_code : Z)
  : option (option (list Z) * Z) :=
  encode_packet buf buf_size (Z.shiftl VOX_MQTT_PKT_DISCONNECT 4) (1 + 1) (fun s =>
    s ← emit reason_code s; emit_varint 0 s).

(** src/mqtt/vox_mqtt_parser.c: encode_simple *)
Definition encode_simple (buf : option (list Z)) (buf_size type : Z) : option (option (list Z) * Z) :=
  encode_packet buf buf_size (Z.shiftl type 4) 0 (fun s => Some s).

(** src/mqtt/vox_mqtt_parser.c: vox_mqtt_encode_pingreq *)
Definition vox_mqtt_encode_pingreq buf buf_size := encode_simple buf buf_size VOX_MQTT_PKT_PINGREQ.

(** src/mqtt/vox_mqtt_parser.c: vox_mqtt_encode_pingresp *)
Definition vox_mqtt_encode_pingresp buf buf_size := encode_simple buf buf_size VOX_MQTT_PKT_PINGRESP.

(** src/mqtt/vox_mqtt_parser.c: vox_mqtt_encode_disconnect *)
Definition vox_mqtt_encode_disconnect buf buf_size := encode_simple buf buf_size VOX_MQTT_PKT_DISCONNECT.

(** ** What a writer writes *)

Lemma zlen_0_inv (l : list Z) : zlen l = 0 -> l = [].
Proof. by destruct l. Qed.
Lemma zlen_1_inv (l : list Z) : zlen l = 1 -> exists x, l = [x].
Proof. destruct l as [|x [|y l]]; [done|by exists x|]. rewrite !zlen_cons. pose proof (zlen_nonneg l). lia. Qed.

(** [w] writes [bs] at its offset, in a buffer of [N] bytes. *)
Definition writes (N : Z) (w : writer -> option writer) (bs : list Z) : Prop :=
  forall pre mid rest, zlen mid = zlen bs -> zlen pre + zlen bs <= N < 2 ^ 64 ->
    w (pre ++ mid ++ rest, zlen pre) = Some (pre ++ bs ++ rest, zlen pre + zlen bs).

Lemma split_mid (mid b1 b2 : list Z) :
  zlen mid = zlen (b1 ++ b2) -> exists m1 m2, mid = m1 ++ m2 /\ zlen m1 = zlen b1 /\ zlen m2 = zlen b2.
Proof.
  rewrite zlen_app. intros Hl. exists (take (length b1) mid), (drop (length b1) mid).
  rewrite take_drop. split; [done|]. split; unfold zlen in *; rewrite ?length_take, ?length_drop; lia.
Qed.

Lemma writes_bind N w1 w2 b1 b2 :
  writes N w1 b1 -> writes N w2 b2 -> writes N (fun s => s ← w1 s; w2 s) (b1 ++ b2).
Proof.
  intros H1 H2 pre mid rest Hm Hn. destruct (split_mid mid b1 b2 Hm) as (m1 & m2 & -> & Hm1 & Hm2).
  rewrite zlen_app in Hn |- *. pose proof (zlen_nonneg b1). pose proof (zlen_nonneg b2).
  rewrite <-(app_assoc m1), H1 by (done || lia). cbn [mbind option_bind].
  rewrite (app_assoc pre b1), <-zlen_app, H2 by (rewrite ?zlen_app; done || lia).
  rewrite zlen_app, !app_assoc. do 2 f_equal. lia.
Qed.

Lemma writes_nil N : writes N (fun s => Some s) [].
Proof. intros pre mid rest ->%zlen_0_inv Hn. cbn. by rewrite zlen_nil, Z.add_0_r. Qed.

Lemma writes_emit N x : writes N (emit x) [u8 x].
Proof.
  intros pre mid rest [y ->]%zlen_1_inv Hn. unfold emit. cbn [app fst snd].
  rewrite arr_set_app by done. cbn. by rewrite zlen_cons, zlen_nil.
Qed.

Lemma writes_bytes N src : writes N (emit_bytes src (zlen src)) src.
Proof.
  intros pre mid rest Hm Hn. unfold emit_bytes. cbn [fst snd]. rewrite <-(app_nil_r src) at 1.
  rewrite arr_blit_app0 by done. done.
Qed.

Lemma writes_ext N w w' bs : (forall s, w s = w' s) -> writes N w bs -> writes N w' bs.
Proof. intros E H pre mid rest Hm Hn. rewrite <-E. by apply H. Qed.

Definition be16 (x : Z) : list Z := [x / 256; x mod 256].
Definition be32 (x : Z) : list Z := [x / 2 ^ 24; x / 2 ^ 16 mod 256; x / 2 ^ 8 mod 256; x mod 256].

Lemma writes_emit16 N x : 0 <= x < 2 ^ 16 -> writes N (emit16 x) (be16 x).
Proof.
  intros Hx. unfold emit16, be16. change [x / 256; x mod 256] with ([x / 256] ++ [x mod 256]).
  assert (E1 : [x / 256] = [u8 (Z.shiftr x 8)]).
  { rewrite Z.shiftr_div_pow2 by lia. change (2 ^ 8) with 256. rewrite u8_small; [done|]. dlia. }
  assert (E2 : [x mod 256] = [u8 (Z.land x 0xff)]).
  { change 0xff with (Z.ones 8). rewrite Z.land_ones by lia. rewrite u8_small; [done|]. apply Z.mod_pos_bound; lia. }
  rewrite E1, E2. apply writes_bind; apply writes_emit.
Qed.

Definition field (t : list Z) : list Z := be16 (zlen t) ++ t.

Lemma zlen_be16 x : zlen (be16 x) = 2.
Proof. done. Qed.
Lemma zlen_field t : zlen (field t) = 2 + zlen t.
Proof. unfold field. by rewrite zlen_app, zlen_be16. Qed.
#[local] Hint Rewrite zlen_be16 zlen_field : zlen.

Lemma writes_utf8 N t : zlen t <= 65535 -> writes N (write_utf8 N t) (field t).
Proof.
  intros Ht pre mid rest Hm Hn. unfold write_utf8. cbn [snd]. rewrite zlen_field in Hn.
  pose proof (zlen_nonneg t). pose proof (zlen_nonneg pre).
  rewrite (proj2 (Z.ltb_ge 65535 (zlen t))) by done. rewrite u64_small by lia.
  rewrite (proj2 (Z.ltb_ge (N - zlen pre) (2 + zlen t))) by lia.
  destruct (Z.eqb_spec (zlen t) 0) as [E|E].
  - apply zlen_0_inv in E as ->.
    unfold field in *. rewrite app_nil_r in *.
    rewrite (writes_emit16 N); [done|done|done|]. rewrite zlen_be16. lia.
  - apply (writes_bind N (emit16 (zlen t)) (emit_bytes t (zlen t)) (be16 (zlen t)) t);
      [apply writes_emit16; lia|apply writes_bytes|done|rewrite zlen_app, zlen_be16; lia].
Qed.

(** The digits of a remaining length. *)
Fixpoint rl_bytes (fuel : nat) (v : Z) : list Z :=
  match fuel with
  | O => []
  | S fuel => if v / 128 =? 0 then [v mod 128] else (v mod 128 + 128) :: rl_bytes fuel (v / 128)
  end.

Lemma digit_byte v : u8 (v mod 128) = v mod 128.
Proof. apply u8_small. pose proof (Z.mod_pos_bound v 128). lia. Qed.
Lemma digit_more v : Z.lor (v mod 128) 128 = v mod 128 + 128.
Proof. rewrite Z.lor_comm, (lor_add 128 _ 7) by (done || (pose proof (Z.mod_pos_bound v 128); lia)). lia. Qed.

Lemma digits_none fuel v n :
  (0 < fuel)%nat -> 0 <= v < 128 ^ Z.of_nat fuel -> n + Z.of_nat fuel = 4 ->
  digits_loop fuel None v n = Some (None, n + zlen (rl_bytes fuel v)).
Proof.
  revert v n. induction fuel as [|fuel IH]; intros v n Hf Hv Hn; [lia|]. cbn [digits_loop rl_bytes emit_opt mbind option_bind].
  destruct (Z.eqb_spec (v / 128) 0) as [E|E]; [done|].
  rewrite Nat2Z.inj_succ, Z.pow_succ_r in Hv by lia.
  destruct fuel as [|fuel]; [exfalso; apply E, Z.div_small; lia|].
  rewrite (proj2 (Z.leb_gt 4 (n + 1))) by lia. rewrite IH; [|lia| |lia].
  - rewrite zlen_cons. do 2 f_equal. lia.
  - split; [apply Z.div_pos; lia|]. apply Z.div_lt_upper_bound; lia.
Qed.

Lemma digits_write N fuel v n pre mid rest :
  (0 < fuel)%nat -> 0 <= v < 128 ^ Z.of_nat fuel -> n + Z.of_nat fuel = 4 ->
  zlen mid = zlen (rl_bytes fuel v) -> zlen pre + zlen mid <= N < 2 ^ 64 ->
  digits_loop fuel (Some (pre ++ mid ++ rest, zlen pre)) v n
  = Some (Some (pre ++ rl_bytes fuel v ++ rest, zlen pre + zlen mid), n + zlen (rl_bytes fuel v)).
Proof.
  revert v n pre mid. induction fuel as [|fuel IH]; intros v n pre mid Hf Hv Hn Hm HN; [lia|].
  cbn [digits_loop rl_bytes] in *. rewrite digit_byte, digit_more.
  pose proof (Z.mod_pos_bound v 128 ltac:(lia)).
  destruct (Z.eqb_spec (v / 128) 0) as [E|E].
  - change (zlen mid = 1) in Hm. cbn [emit_opt]. rewrite (writes_emit N) by (done || (change (zlen [_]) with 1; lia)).
    rewrite u8_small by lia. cbn [mbind option_bind]. rewrite Hm. done.
  - rewrite Nat2Z.inj_succ, Z.pow_succ_r in Hv by lia.
    destruct fuel as [|fuel]; [exfalso; apply E, Z.div_small; lia|].
    rewrite (proj2 (Z.leb_gt 4 (n + 1))) by lia.
    destruct (split_mid mid [v mod 128 + 128] (rl_bytes (S fuel) (v / 128)) Hm) as (m1 & m2 & -> & H1 & H2).
    cbn [emit_opt]. rewrite zlen_app in HN. pose proof (zlen_nonneg m2).
    change (zlen m1 = 1) in H1.
    rewrite <-(app_assoc m1), (writes_emit N) by (done || (change (zlen [_]) with 1; lia)). rewrite u8_small by lia.
    cbn [mbind option_bind]. rewrite (app_assoc pre), <-(zlen_app pre).
    rewrite IH; [|lia| |lia|done|].
    + rewrite <-!app_assoc, !zlen_app, H1, !zlen_cons, zlen_nil. cbn [app]. do 2 f_equal; [do 2 f_equal; lia|lia].
    + split; [apply Z.div_pos; lia|]. apply Z.div_lt_upper_bound; lia.
    + rewrite zlen_app. change (zlen [_]) with 1. lia.
Qed.

Definition RL_MAX : Z := 128 ^ 4 - 1.

Definition framed (first : Z) (body : list Z) : list Z := u8 first :: rl_bytes 4 (zlen body) ++ body.

Lemma zlen_framed first body : zlen (framed first body) = 1 + zlen (rl_bytes 4 (zlen body)) + zlen body.
Proof. unfold framed. rewrite zlen_cons, zlen_app. lia. Qed.

(** What an encoder promises of the packet [bs]: its size when the buffer is too small,
    which is left alone; else the packet, and its size. *)
Definition encodes (enc : option (list Z) -> Z -> option (option (list Z) * Z)) (bs : list Z) : Prop :=
  forall b N, zlen b = N -> N < 2 ^ 64 ->
    enc (Some b) N = Some (if N <? zlen bs then Some b else Some (bs ++ drop (length bs) b), zlen bs).

Lemma encode_packet_ok first need body bs :
  need = zlen bs -> zlen bs <= RL_MAX -> (forall N, writes N (body N) bs) ->
  encodes (fun buf N => encode_packet buf N first need (body N)) (framed first bs).
Proof.
  intros -> Hmax Hw b N HN H64. unfold encode_packet, vox_mqtt_encode_remaining_length, RL_MAX in *.
  pose proof (zlen_nonneg bs). pose proof (zlen_nonneg (rl_bytes 4 (zlen bs))) as Hrl.
  rewrite digits_none by (cbn; lia). cbn [mbind option_bind]. rewrite Z.add_0_l.
  rewrite (proj2 (Z.ltb_ge _ 0)) by lia. rewrite zlen_framed.
  destruct (Z.ltb_spec N (1 + zlen (rl_bytes 4 (zlen bs)) + zlen bs)) as [Hs|Hs]; [done|].
  assert (exists m1 m2 m3 rest, b = [m1] ++ m2 ++ m3 ++ rest /\ zlen m2 = zlen (rl_bytes 4 (zlen bs)) /\ zlen m3 = zlen bs)
    as (m1 & m2 & m3 & rest & -> & H2 & H3).
  { destruct b as [|m1 b]; [rewrite zlen_nil in *; lia|]. rewrite zlen_cons in HN.
    exists m1, (take (length (rl_bytes 4 (zlen bs))) b), (take (length bs) (drop (length (rl_bytes 4 (zlen bs))) b)),
      (drop (length bs) (drop (length (rl_bytes 4 (zlen bs))) b)).
    rewrite !take_drop. split; [done|]. split; zlia. }
  assert (emit first ([m1] ++ m2 ++ m3 ++ rest, 0) = Some ([u8 first] ++ m2 ++ m3 ++ rest, 1)) as ->.
  { apply (writes_emit N first [] [m1]); [done|]. change (zlen [_]) with 1. change (zlen []) with 0. lia. }
  cbn [mbind option_bind]. change (Some ([u8 first] ++ m2 ++ m3 ++ rest, 1)) with (Some ([u8 first] ++ m2 ++ m3 ++ rest, zlen [u8 first])).
  rewrite (digits_write N 4 (zlen bs) 0 [u8 first] m2) by (done || (cbn; lia) || (rewrite H2; change (zlen [_]) with 1; lia)).
  cbn [mbind option_bind]. rewrite (app_assoc [u8 first]).
  replace (1 + zlen (rl_bytes 4 (zlen bs))) with (zlen ([u8 first] ++ rl_bytes 4 (zlen bs)))
    by (rewrite zlen_app; change (zlen [_]) with 1; lia).
  rewrite Hw by (done || (rewrite zlen_app; change (zlen [_]) with 1; lia)). cbn [mbind option_bind].
  assert (drop (length (framed first bs)) ([m1] ++ m2 ++ m3 ++ rest) = rest) as Ed.
  { rewrite (app_assoc m2), (app_assoc [m1]). apply drop_app_length'.
    unfold framed. revert H2. generalize (rl_bytes 4 (zlen bs)) as rl. intros rl H2.
    rewrite !length_app, length_cons, length_app. unfold zlen in H2, H3. cbn [length]. lia. }
  rewrite Ed. unfold framed. rewrite <-!app_assoc.
  change ((u8 first :: rl_bytes 4 (zlen bs) ++ bs) ++ rest) with (u8 first :: ((rl_bytes 4 (zlen bs) ++ bs) ++ rest)).
  by rewrite <-app_assoc.
Qed.

(** ** Packets *)

(** The arguments of the encoders; the last two of CONNECT and CONNACK exist in version 5. *)
Inductive packet :=
| PConnect (client_id : list Z) (keepalive : Z) (clean_session : bool) (will_topic : option (list Z))
    (will_msg : list Z) (will_qos : Z) (will_retain : bool) (username password : option (list Z))
    (session_expiry_interval receive_maximum : Z)
| PConnack (session_present return_code session_expiry_interval receive_maximum : Z)
| PPublish (qos : Z) (retain : bool) (packet_id : Z) (topic payload : list Z)
| PPuback (packet_id : Z)
| PPubrec (packet_id : Z)
| PPubrel (packet_id : Z)
| PPubcomp (packet_id : Z)
| PSubscribe (packet_id : Z) (filters : list (list Z * Z))
| PSuback (packet_id : Z) (codes : list Z)
| PUnsubscribe (packet_id : Z) (filters : list (list Z))
| PUnsuback (packet_id : Z) (codes : list Z)
| PPingreq
| PPingresp
| PDisconnect.

Definition encode (v5 : bool) (pk : packet) (buf : option (list Z)) (N : Z) : option (option (list Z) * Z) :=
  match pk with
  | PConnect cid ka clean wt wm wq wr us pw e r =>
      if v5 then vox_mqtt_encode_connect_v5 buf N cid ka clean wt wm wq wr us pw e r
      else vox_mqtt_encode_connect buf N cid ka clean wt wm wq wr us pw
  | PConnack sp rc e r =>
      if v5 then vox_mqtt_encode_connack_v5 buf N sp rc e r else vox_mqtt_encode_connack buf N sp rc
  | PPublish q re id t pl =>
      if v5 then vox_mqtt_encode_publish_v5 buf N q re id t pl else vox_mqtt_encode_publish buf N q re id t pl
  | PPuback id => vox_mqtt_encode_puback buf N id
  | PPubrec id => vox_mqtt_encode_pubrec buf N id
  | PPubrel id => vox_mqtt_encode_pubrel buf N id
  | PPubcomp id => vox_mqtt_encode_pubcomp buf N id
  | PSubscribe id fs =>
      if v5 then vox_mqtt_encode_subscribe_v5 buf N id fs.*1 (Some fs.*2)
      else vox_mqtt_encode_subscribe buf N id fs.*1 (Some fs.*2)
  | PSuback id cs =>
      if v5 then vox_mqtt_encode_suback_v5 buf N id (Some cs) (zlen cs)
      else vox_mqtt_encode_suback buf N id (Some cs) (zlen cs)
  | PUnsubscribe id fs =>
      if v5 then vox_mqtt_encode_unsubscribe_v5 buf N id fs else vox_mqtt_encode_unsubscribe buf N id fs
  | PUnsuback id cs =>
      if v5 then vox_mqtt_encode_unsuback_v5 buf N id (Some cs) (zlen cs) else vox_mqtt_encode_unsuback buf N id
  | PPingreq => vox_mqtt_encode_pingreq buf N
  | PPingresp => vox_mqtt_encode_pingresp buf N
  | PDisconnect => vox_mqtt_encode_disconnect buf N
  end.

(** The packet as bytes. *)
Definition given_field (t : option (list Z)) : list Z := match given t with Some l => field l | None => [] end.
Definition no_props (v5 : bool) : list Z := if v5 then [0] else [].
Definition props_bytes (e r : Z) : list Z :=
  [props_size e r] ++ (if e =? 0 then [] else VOX_MQTT5_PROP_SESSION_EXPIRY_INTERVAL :: be32 e)
  ++ (if r =? 0 then [] else VOX_MQTT5_PROP_RECEIVE_MAXIMUM :: be16 r).
Definition filters_bytes (fs : list (list Z * Z)) : list Z := concat ((fun f => field f.1 ++ [f.2]) <$> fs).
Definition topics_bytes (fs : list (list Z)) : list Z := concat (field <$> fs).

Definition head_bytes (version cflags keepalive : Z) : list Z :=
  [0; 4] ++ MQTT_name ++ [version] ++ [cflags] ++ be16 keepalive.
Definition tail_bytes (cid : list Z) (wt : option (list Z)) (wm : list Z) (us pw : option (list Z)) : list Z :=
  field cid ++ (match given wt with Some t => field t ++ field wm | None => [] end)
  ++ given_field us ++ given_field pw.

Definition body_bytes (v5 : bool) (pk : packet) : list Z :=
  match pk with
  | PConnect cid ka clean wt wm wq wr us pw e r =>
      head_bytes (if v5 then 5 else 4) (connect_flags clean wt wq wr us pw) ka
      ++ (if v5 then props_bytes e r else []) ++ tail_bytes cid wt wm us pw
  | PConnack sp rc e r => [Z.land sp 1; rc] ++ (if v5 then props_bytes e r else [])
  | PPublish q _ id t pl => field t ++ (if q =? 0 then [] else be16 id) ++ no_props v5 ++ pl
  | PPuback id | PPubrec id | PPubrel id | PPubcomp id => be16 id
  | PSubscribe id fs => be16 id ++ no_props v5 ++ filters_bytes fs
  | PSuback id cs => be16 id ++ no_props v5 ++ cs
  | PUnsubscribe id fs => be16 id ++ no_props v5 ++ topics_bytes fs
  | PUnsuback id cs => be16 id ++ (if v5 then [0] ++ cs else [])
  | PPingreq | PPingresp | PDisconnect => []
  end.

Definition first_byte (pk : packet) : Z :=
  match pk with
  | PConnect _ _ _ _ _ _ _ _ _ _ _ => 0x10
  | PConnack _ _ _ _ => 0x20
  | PPublish q re _ _ _ => 0x30 + 2 * q + (if re then 1 else 0)
  | PPuback _ => 0x40
  | PPubrec _ => 0x50
  | PPubrel _ => 0x62
  | PPubcomp _ => 0x70
  | PSubscribe _ _ => 0x82
  | PSuback _ _ => 0x90
  | PUnsubscribe _ _ => 0xA2
  | PUnsuback _ _ => 0xB0
  | PPingreq => 0xC0
  | PPingresp => 0xD0
  | PDisconnect => 0xE0
  end.

Definition packet_bytes (v5 : bool) (pk : packet) : list Z := framed (first_byte pk) (body_bytes v5 pk).

(** Arguments in the range of their types, texts that fit in 16 bits; a version 5 CONNECT
    without a will. *)
Definition opt_fits (t : option (list Z)) : Prop := match t with Some l => zlen l <= 65535 | None => True end.
Definition well_formed (v5 : bool) (pk : packet) : Prop :=
  zlen (body_bytes v5 pk) <= RL_MAX /\
  match pk with
  | PConnect cid ka clean wt wm wq wr us pw e r =>
      zlen cid <= 65535 /\ 0 <= ka < 2 ^ 16 /\ opt_fits wt /\ zlen wm <= 65535 /\ 0 <= wq <= 3 /\
      opt_fits us /\ opt_fits pw /\ 0 <= e < 2 ^ 32 /\ 0 <= r < 2 ^ 16 /\ (v5 = true -> given wt = None)
  | PConnack sp rc e r => 0 <= rc < 2 ^ 8 /\ 0 <= e < 2 ^ 32 /\ 0 <= r < 2 ^ 16
  | PPublish q _ id t pl => 0 <= q <= 3 /\ 0 <= id < 2 ^ 16 /\ zlen t <= 65535
  | PPuback id | PPubrec id | PPubrel id | PPubcomp id => 0 <= id < 2 ^ 16
  | PSubscribe id fs => 0 <= id < 2 ^ 16 /\ Forall (fun f => zlen f.1 <= 65535 /\ 0 <= f.2 <= 3) fs
  | PSuback id cs => 0 <= id < 2 ^ 16
  | PUnsubscribe id fs => 0 <= id < 2 ^ 16 /\ Forall (fun t => zlen t <= 65535) fs
  | PUnsuback id cs => 0 <= id < 2 ^ 16
  | PPingreq | PPingresp | PDisconnect => True
  end.

(** ** Every encoder writes its packet *)

Lemma writes_byte N x : 0 <= x < 2 ^ 8 -> writes N (emit x) [x].
Proof. intros Hx. rewrite <-(u8_small x) at 2 by done. apply writes_emit. Qed.

Lemma writes_varint N v : 0 <= v < 128 -> writes N (emit_varint v) [v].
Proof.
  intros Hv pre mid rest Hm HN. unfold emit_varint, encode_varint.
  assert (rl_bytes 4 v = [v]) as Er by (cbn [rl_bytes]; rewrite Z.div_small by done; cbn; by rewrite Z.mod_small).
  rewrite (digits_write N 4 v 0) by (rewrite ?Er; done || lia). cbn [mbind option_bind]. by rewrite Er, Hm.
Qed.

Lemma writes_given N t : opt_fits t -> writes N (write_given N t) (given_field t).
Proof.
  intros Ht. unfold write_given, given_field. destruct t as [[|x l]|]; cbn [given]; [apply writes_nil| |apply writes_nil].
  apply writes_utf8. exact Ht.
Qed.

Lemma writes_if N (b : bool) w1 w2 b1 b2 :
  writes N w1 b1 -> writes N w2 b2 -> writes N (fun s => if b then w1 s else w2 s) (if b then b1 else b2).
Proof. intros. by destruct b. Qed.

Lemma writes_payload N l : writes N (fun s => if zlen l =? 0 then Some s else emit_bytes l (zlen l) s) l.
Proof.
  destruct (Z.eqb_spec (zlen l) 0) as [E|E]; [|apply writes_bytes]. apply zlen_0_inv in E as ->. apply writes_nil.
Qed.

Lemma writes_field N t (w : writer -> option writer) bs :
  zlen t <= 65535 -> writes N w bs ->
  writes N (fun s => s ← emit16 (zlen t) s; s ← emit_bytes t (zlen t) s; w s) (field t ++ bs).
Proof.
  intros Ht Hw. unfold field. rewrite <-app_assoc. pose proof (zlen_nonneg t).
  apply (writes_bind N (emit16 (zlen t))); [apply writes_emit16; lia|].
  apply (writes_bind N (emit_bytes t (zlen t))); [apply writes_bytes|done].
Qed.

Lemma writes_be32 N e :
  0 <= e < 2 ^ 32 ->
  writes N (fun s => s ← emit (Z.shiftr e 24) s; s ← emit (Z.shiftr e 16) s; s ← emit (Z.shiftr e 8) s;
                     emit (Z.land e 0xff) s) (be32 e).
Proof.
  intros He. unfold be32.
  assert (E1 : e / 2 ^ 24 = u8 (Z.shiftr e 24)).
  { rewrite Z.shiftr_div_pow2, u8_small by (rewrite ?Z.shiftr_div_pow2 by lia; dlia). done. }
  assert (E2 : e / 2 ^ 16 mod 256 = u8 (Z.shiftr e 16)) by (by rewrite Z.shiftr_div_pow2 by lia).
  assert (E3 : e / 2 ^ 8 mod 256 = u8 (Z.shiftr e 8)) by (by rewrite Z.shiftr_div_pow2 by lia).
  assert (E4 : e mod 256 = u8 (Z.land e 0xff)).
  { change 0xff with (Z.ones 8). rewrite Z.land_ones by lia. unfold u8. by rewrite Z.mod_mod by lia. }
  rewrite E1, E2, E3, E4. change [?a; ?b; ?c; ?d] with ([a] ++ [b] ++ [c] ++ [d]).
  do 3 (apply writes_bind; [apply writes_emit|]). apply writes_emit.
Qed.

Lemma props_size_small e r : 0 <= props_size e r <= 8.
Proof. unfold props_size. destruct (e =? 0), (r =? 0); lia. Qed.

Lemma writes_props N e r :
  0 <= e < 2 ^ 32 -> 0 <= r < 2 ^ 16 -> writes N (write_props e r) (props_bytes e r).
Proof.
  intros He Hr. unfold write_props, props_bytes. pose proof (props_size_small e r).
  apply (writes_bind N (emit_varint _)); [apply writes_varint; lia|].
  apply (writes_bind N (fun s => if e =? 0 then Some s else _) (fun s => if r =? 0 then Some s else _)).
  - apply writes_if; [apply writes_nil|].
    apply (writes_bind N (emit _) _ [_]); [by apply writes_byte|by apply writes_be32].
  - apply writes_if; [apply writes_nil|].
    apply (writes_bind N (emit _) _ [_]); [by apply writes_byte|by apply writes_emit16].
Qed.

Lemma writes_filters N fs qs i :
  Forall (fun f => zlen f.1 <= 65535 /\ 0 <= f.2 <= 3) fs -> i = zlen qs ->
  writes N (write_filters fs.*1 (Some (qs ++ fs.*2)) i) (filters_bytes fs).
Proof.
  intros Hfs. revert qs i. induction Hfs as [|[t q] fs [Ht Hq] _ IH]; intros qs i ->; [apply writes_nil|].
  unfold filters_bytes. cbn [fmap list_fmap concat write_filters fst snd] in *. rewrite <-app_assoc.
  apply writes_field; [done|].
  rewrite arr_get_app by done. cbn [mbind option_bind].
  apply (writes_bind N (emit q) _ [q]); [apply writes_byte; lia|].
  replace (qs ++ q :: fs.*2) with ((qs ++ [q]) ++ fs.*2) by (by rewrite <-app_assoc).
  apply IH. by rewrite zlen_app.
Qed.

Lemma writes_topics N fs :
  Forall (fun t => zlen t <= 65535) fs -> writes N (write_topics fs) (topics_bytes fs).
Proof.
  induction 1 as [|t fs Ht _ IH]; [apply writes_nil|].
  unfold topics_bytes. cbn [fmap list_fmap concat write_topics]. by apply writes_field.
Qed.

Lemma filters_size_ok fs extra need :
  Forall (fun t => zlen t <= 65535) fs -> 0 <= extra -> 0 <= need ->
  need + zlen (topics_bytes fs) + extra * zlen fs < 2 ^ 64 ->
  filters_size fs extra need = Some (need + zlen (topics_bytes fs) + extra * zlen fs).
Proof.
  intros Hfs. revert need. induction Hfs as [|t fs Ht _ IH]; intros need He Hn Hb; cbn [filters_size].
  { change (zlen (topics_bytes [])) with 0. change (zlen (@nil (list Z))) with 0. f_equal. lia. }
  unfold topics_bytes in *. cbn [fmap list_fmap concat] in *. rewrite zlen_cons, zlen_app, zlen_field in *.
  rewrite (proj2 (Z.ltb_ge 65535 (zlen t))) by done.
  pose proof (zlen_nonneg t). pose proof (zlen_nonneg fs). pose proof (zlen_nonneg (concat (field <$> fs))).
  rewrite u64_small by nia. rewrite IH by (done || nia). f_equal. lia.
Qed.

Lemma zlen_filters fs : zlen (filters_bytes fs) = zlen (topics_bytes fs.*1) + zlen fs.
Proof.
  unfold filters_bytes, topics_bytes. induction fs as [|[t q] fs IH]; [done|].
  cbn [fmap list_fmap concat fst snd] in *. rewrite !zlen_app, !zlen_cons, zlen_nil, IH. lia.
Qed.

Lemma connect_flags_byte clean wt wq wr us pw : 0 <= wq <= 3 -> 0 <= connect_flags clean wt wq wr us pw < 2 ^ 8.
Proof.
  intros Hq. assert (wq = 0 \/ wq = 1 \/ wq = 2 \/ wq = 3) as Hc by lia. unfold connect_flags.
  destruct clean, (given wt), wr, (given us), (given pw), Hc as [-> | [-> | [-> | ->]]];
    split; vm_compute; done.
Qed.

Lemma zlen_given t : zlen (given_field t) = text_size t.
Proof. unfold given_field, text_size. destruct (given t); [apply zlen_field|done]. Qed.

Lemma writes_connect_head N v f ka :
  0 <= v < 2 ^ 8 -> 0 <= f < 2 ^ 8 -> 0 <= ka < 2 ^ 16 ->
  writes N (write_connect_head v f ka) (head_bytes v f ka).
Proof.
  intros Hv Hf Hk. unfold write_connect_head, head_bytes. change ([0; 4] ++ ?l) with ([0] ++ [4] ++ l).
  apply (writes_bind N (emit 0)); [by apply writes_byte|].
  apply (writes_bind N (emit 4)); [by apply writes_byte|].
  apply (writes_bind N (emit_bytes MQTT_name 4)); [apply (writes_bytes N MQTT_name)|].
  apply (writes_bind N (emit v)); [by apply writes_byte|].
  apply (writes_bind N (emit f)); [by apply writes_byte|]. by apply writes_emit16.
Qed.

Lemma writes_connect_tail N cid wt wm us pw :
  zlen cid <= 65535 -> opt_fits wt -> zlen wm <= 65535 -> opt_fits us -> opt_fits pw ->
  writes N (write_connect_tail N cid wt wm us pw) (tail_bytes cid wt wm us pw).
Proof.
  intros Hc Hwt Hwm Hus Hpw. unfold write_connect_tail, tail_bytes.
  apply (writes_bind N (write_utf8 N cid)); [by apply writes_utf8|].
  apply (writes_bind N (fun s => match given wt with Some t => _ | None => Some s end)).
  - destruct wt as [[|x l]|]; cbn [given]; [apply writes_nil| |apply writes_nil].
    apply (writes_bind N (write_utf8 N _)); apply writes_utf8; done.
  - apply (writes_bind N (write_given N us)); by apply writes_given.
Qed.

(** An encoder with the frame of [encode_packet] and the first byte and body of the packet. *)
Lemma encodes_framed v5 pk first need body enc :
  (forall buf N, enc buf N = encode_packet buf N first need (body N)) ->
  need = zlen (body_bytes v5 pk) -> zlen (body_bytes v5 pk) <= RL_MAX -> u8 first = u8 (first_byte pk) ->
  (forall N, writes N (body N) (body_bytes v5 pk)) -> encodes enc (packet_bytes v5 pk).
Proof.
  intros Ee En Hm Ef Hw b N HN H64. rewrite Ee. unfold packet_bytes, framed. rewrite <-Ef.
  by apply (encode_packet_ok first need body (body_bytes v5 pk)).
Qed.

Lemma size_small (n : Z) : 0 <= n <= RL_MAX -> u64 n = n.
Proof. unfold RL_MAX. intros. apply u64_small. lia. Qed.

Lemma text_size_range t : opt_fits t -> 0 <= text_size t <= 65537.
Proof. unfold text_size. destruct t as [[|x l]|]; cbn [given opt_fits]; intros H; try lia. pose proof (zlen_nonneg (x :: l)). lia. Qed.

Lemma tail_size cid wt wm us pw :
  zlen (tail_bytes cid wt wm us pw) = connect_tail_size cid wt wm us pw.
Proof.
  unfold connect_tail_size, tail_bytes. rewrite !zlen_app, !zlen_given, zlen_field.
  destruct (given wt); rewrite ?zlen_app, ?zlen_field, ?zlen_nil; lia.
Qed.

Lemma zlen_props e r : zlen (props_bytes e r) = 1 + props_size e r.
Proof. unfold props_bytes, props_size. by destruct (e =? 0), (r =? 0). Qed.

Lemma varint_size_small v : 0 <= v < 128 -> varint_size v = Some 1.
Proof.
  intros Hv. unfold varint_size, encode_varint. cbn [digits_loop emit_opt]. rewrite Z.div_small by done. done.
Qed.

Lemma encode_connect_ok v5 cid ka clean wt wm wq wr us pw e r :
  well_formed v5 (PConnect cid ka clean wt wm wq wr us pw e r) ->
  encodes (encode v5 (PConnect cid ka clean wt wm wq wr us pw e r))
    (packet_bytes v5 (PConnect cid ka clean wt wm wq wr us pw e r)).
Proof.
  intros (Hs & Hcid & Hka & Hwt & Hwm & Hwq & Hus & Hpw & He & Hr & Hw5).
  pose proof (connect_flags_byte clean wt wq wr us pw Hwq).
  assert (Hhead : forall N v, 0 <= v < 2 ^ 8 -> writes N (write_connect_head v (connect_flags clean wt wq wr us pw) ka)
    (head_bytes v (connect_flags clean wt wq wr us pw) ka)) by (intros; by apply writes_connect_head).
  pose proof (fun N => writes_connect_tail N cid wt wm us pw Hcid Hwt Hwm Hus Hpw) as Htail.
  pose proof (tail_size cid wt wm us pw) as Hts. pose proof (zlen_nonneg (body_bytes v5 (PConnect cid ka clean wt wm wq wr us pw e r))).
  destruct v5.
  - pose proof (props_size_small e r). pose proof (zlen_props e r) as Hps.
    assert (zlen (body_bytes true (PConnect cid ka clean wt wm wq wr us pw e r))
            = 10 + (1 + props_size e r) + connect_tail_size cid wt wm us pw) as Hlen.
    { cbn [body_bytes]. rewrite zlen_app, (zlen_app (props_bytes e r)), Hps, Hts. change (zlen (head_bytes _ _ _)) with 10. lia. }
    eapply (encodes_framed true _ _ _ (fun N s => s ← write_connect_head 5 _ ka s; s ← write_props e r s; write_connect_tail N cid wt wm us pw s));
      [|reflexivity|done|reflexivity|].
    + intros buf N. cbn [encode]. unfold vox_mqtt_encode_connect_v5. rewrite varint_size_small by lia.
      cbn [mbind option_bind]. f_equal. rewrite Hlen, size_small by lia. lia.
    + intros N. cbn [body_bytes]. apply (writes_bind N (write_connect_head 5 _ ka)); [by apply Hhead|].
      apply (writes_bind N (write_props e r)); [by apply writes_props|apply Htail].
  - assert (zlen (body_bytes false (PConnect cid ka clean wt wm wq wr us pw e r))
            = 10 + connect_tail_size cid wt wm us pw) as Hlen.
    { cbn [body_bytes]. rewrite zlen_app, (zlen_app []), Hts. change (zlen (head_bytes _ _ _)) with 10. change (zlen []) with 0. lia. }
    intros b N HN H64.
    assert (Henc : encodes (fun buf N => encode_packet buf N (Z.shiftl VOX_MQTT_PKT_CONNECT 4)
                     (zlen (body_bytes false (PConnect cid ka clean wt wm wq wr us pw e r)))
                     (fun s => s ← write_connect_head 4 (connect_flags clean wt wq wr us pw) ka s;
                               write_connect_tail N cid wt wm us pw s))
                   (packet_bytes false (PConnect cid ka clean wt wm wq wr us pw e r))).
    { eapply (encodes_framed false _ _ _ (fun N s => s ← write_connect_head 4 _ ka s; write_connect_tail N cid wt wm us pw s));
        [done|reflexivity|done|reflexivity|].
      intros N'. cbn [body_bytes]. apply (writes_bind N' (write_connect_head 4 _ ka)); [by apply Hhead|apply Htail]. }
    rewrite <-(Henc b N HN H64). cbn [encode]. unfold vox_mqtt_encode_connect.
    rewrite Hlen, size_small by lia. unfold encode_packet at 2.
    replace (2 + 4 + 2 + 2 + connect_tail_size cid wt wm us pw) with (10 + connect_tail_size cid wt wm us pw) by lia.
    unfold encode_packet. destruct (vox_mqtt_encode_remaining_length None _) as [[s rl]|]; cbn [mbind option_bind]; [|done].
    destruct (rl <? 0); [done|]. by destruct (N <? _).
Qed.

Lemma no_props_writes N v5 w bs :
  writes N w bs -> writes N (fun s => s ← (if v5 : bool then emit_varint 0 s else Some s); w s) (no_props v5 ++ bs).
Proof.
  intros Hw. apply (writes_bind N (fun s => if v5 then emit_varint 0 s else Some s)); [|done].
  destruct v5; [by apply writes_varint|apply writes_nil].
Qed.

Lemma zlen_no_props v5 : zlen (no_props v5) = if v5 then 1 else 0.
Proof. by destruct v5. Qed.

Lemma land1_byte x : 0 <= Z.land x 1 < 2 ^ 8.
Proof. pose proof (land_low x 1) as E. change (Z.ones 1) with 1 in E. rewrite E by lia. pose proof (Z.mod_pos_bound x (2 ^ 1)). lia. Qed.

Lemma encode_connack_ok v5 sp rc e r :
  well_formed v5 (PConnack sp rc e r) -> encodes (encode v5 (PConnack sp rc e r)) (packet_bytes v5 (PConnack sp rc e r)).
Proof.
  intros (Hs & Hrc & He & Hr). pose proof (land1_byte sp). pose proof (props_size_small e r). destruct v5.
  - eapply (encodes_framed true _ _ _ (fun N s => s ← emit _ s; s ← emit rc s; write_props e r s)); [|reflexivity|done|reflexivity|].
    + intros buf N. cbn [encode]. unfold vox_mqtt_encode_connack_v5. rewrite varint_size_small by lia.
      cbn [mbind option_bind]. f_equal. cbn [body_bytes]. rewrite zlen_app, zlen_props. change (zlen [_; _]) with 2. lia.
    + intros N. cbn [body_bytes]. change ([?a; ?b] ++ ?l) with ([a] ++ [b] ++ l).
      apply (writes_bind N (emit _)); [by apply writes_byte|].
      apply (writes_bind N (emit rc)); [by apply writes_byte|by apply writes_props].
  - eapply (encodes_framed false _ _ _ (fun N s => s ← emit _ s; emit rc s)); [done|done|done|reflexivity|].
    intros N. cbn [body_bytes]. rewrite app_nil_r. change [?a; ?b] with ([a] ++ [b]).
    apply (writes_bind N (emit _)); by apply writes_byte.
Qed.

Lemma publish_first_ok q re : 0 <= q <= 3 -> u8 (publish_first q re) = u8 (first_byte (PPublish q re 0 [] [])).
Proof.
  intros Hq. assert (q = 0 \/ q = 1 \/ q = 2 \/ q = 3) as [-> | [-> | [-> | ->]]] by lia; by destruct re.
Qed.

Lemma encode_publish_ok v5 q re id t pl :
  well_formed v5 (PPublish q re id t pl) ->
  encodes (encode v5 (PPublish q re id t pl)) (packet_bytes v5 (PPublish q re id t pl)).
Proof.
  intros (Hs & Hq & Hid & Ht). pose proof (zlen_nonneg t). pose proof (zlen_nonneg pl).
  assert (Hb : forall N, writes N (fun s => s ← emit16 (zlen t) s; s ← emit_bytes t (zlen t) s;
    s ← (if q =? 0 then Some s else emit16 id s);
    s ← (if v5 : bool then emit_varint 0 s else Some s);
    if zlen pl =? 0 then Some s else emit_bytes pl (zlen pl) s) (body_bytes v5 (PPublish q re id t pl))).
  { intros N. cbn [body_bytes]. apply writes_field; [done|].
    apply (writes_bind N (fun s => if q =? 0 then Some s else _));
      [apply writes_if; [apply writes_nil|by apply writes_emit16]|].
    apply no_props_writes, writes_payload. }
  assert (Hlen : zlen (body_bytes v5 (PPublish q re id t pl))
                 = 2 + zlen t + (if q =? 0 then 0 else 2) + (if v5 then 1 else 0) + zlen pl).
  { cbn [body_bytes]. rewrite !zlen_app, zlen_field, zlen_no_props.
    destruct (q =? 0); rewrite ?zlen_be16, ?zlen_nil; lia. }
  assert (0 <= zlen (body_bytes v5 (PPublish q re id t pl))) by apply zlen_nonneg.
  destruct v5; (eapply (encodes_framed _ (PPublish q re id t pl)); [|reflexivity|done|by apply (publish_first_ok q re)|exact Hb]);
    intros buf N; cbn [encode]; unfold vox_mqtt_encode_publish, vox_mqtt_encode_publish_v5;
    rewrite (proj2 (Z.ltb_ge 65535 (zlen t))) by done.
  - by rewrite Hlen, size_small by lia.
  - rewrite Hlen. f_equal. rewrite size_small by lia. lia.
Qed.

Lemma encode_ack_ok v5 pk type id :
  (forall buf N, encode v5 pk buf N = encode_pub_ack buf N type id) -> body_bytes v5 pk = be16 id -> 0 <= id < 2 ^ 16 ->
  u8 (Z.lor (Z.shiftl type 4) (if type =? VOX_MQTT_PKT_PUBREL then VOX_MQTT_PUBREL_RESERVED else 0)) = u8 (first_byte pk) ->
  encodes (encode v5 pk) (packet_bytes v5 pk).
Proof.
  intros Ee Eb Hid Ef. eapply (encodes_framed v5 pk _ _ (fun _ => emit16 id)); [exact Ee|by rewrite Eb|by rewrite Eb|exact Ef|].
  intros N. rewrite Eb. by apply writes_emit16.
Qed.

Lemma encode_simple_ok v5 pk type :
  (forall buf N, encode v5 pk buf N = encode_simple buf N type) -> body_bytes v5 pk = [] ->
  u8 (Z.shiftl type 4) = u8 (first_byte pk) -> encodes (encode v5 pk) (packet_bytes v5 pk).
Proof.
  intros Ee Eb Ef. eapply (encodes_framed v5 pk _ _ (fun _ s => Some s)); [exact Ee|by rewrite Eb|by rewrite Eb|exact Ef|].
  intros N. rewrite Eb. apply writes_nil.
Qed.

(** A packet identifier, the empty properties of version 5 and a rest of [n] bytes. *)
Lemma encode_id_ok v5 pk id first need n w bs :
  body_bytes v5 pk = be16 id ++ no_props v5 ++ bs -> 0 <= id < 2 ^ 16 -> zlen (body_bytes v5 pk) <= RL_MAX ->
  u8 first = u8 (first_byte pk) -> (forall N, writes N w bs) -> n = zlen bs ->
  need = 2 + (if v5 then 1 else 0) + n ->
  (forall buf N, encode v5 pk buf N = encode_packet buf N first need (fun s =>
     s ← emit16 id s; s ← (if v5 : bool then emit_varint 0 s else Some s); w s)) ->
  encodes (encode v5 pk) (packet_bytes v5 pk).
Proof.
  intros Eb Hid Hm Ef Hw -> -> Ee.
  eapply (encodes_framed v5 pk first _ (fun N s => s ← emit16 id s; s ← (if v5 : bool then emit_varint 0 s else Some s); w s));
    [exact Ee| |done|done|].
  - rewrite Eb, !zlen_app, zlen_be16, zlen_no_props. lia.
  - intros N. rewrite Eb. apply (writes_bind N (emit16 id)); [by apply writes_emit16|].
    by apply no_props_writes.
Qed.

Lemma id_size v5 pk id bs :
  body_bytes v5 pk = be16 id ++ no_props v5 ++ bs -> zlen (body_bytes v5 pk) = 2 + (if v5 then 1 else 0) + zlen bs.
Proof. intros ->. rewrite !zlen_app, zlen_be16, zlen_no_props. lia. Qed.

Lemma writes_codes N cs : writes N (write_codes (Some cs) (zlen cs)) cs.
Proof. unfold write_codes. apply writes_payload. Qed.

Lemma encode_subscribe_ok v5 id fs :
  well_formed v5 (PSubscribe id fs) -> encodes (encode v5 (PSubscribe id fs)) (packet_bytes v5 (PSubscribe id fs)).
Proof.
  intros (Hs & Hid & Hfs). pose proof (id_size v5 (PSubscribe id fs) id (filters_bytes fs) eq_refl) as Hl.
  rewrite zlen_filters in Hl. pose proof (zlen_nonneg fs). pose proof (zlen_nonneg (topics_bytes fs.*1)).
  assert (Forall (fun t => zlen t <= 65535) fs.*1) as Ht by (apply Forall_fmap; eapply Forall_impl; [exact Hfs|]; by intros [t q] [? _]).
  assert (Hz : zlen fs.*1 = zlen fs) by (unfold zlen; by rewrite length_fmap).
  eapply (encode_id_ok v5 (PSubscribe id fs) id 0x82 _ _ (write_filters fs.*1 (Some fs.*2) 0) (filters_bytes fs));
    [done|done|done|done| |reflexivity|reflexivity|].
  - intros N. by apply (writes_filters N fs [] 0).
  - intros buf N. cbn [encode]. rewrite zlen_filters. unfold RL_MAX in Hs.
    destruct v5; unfold vox_mqtt_encode_subscribe, vox_mqtt_encode_subscribe_v5;
      rewrite filters_size_ok by (rewrite ?Hz; done || lia); rewrite Hz; f_equal; lia.
Qed.

Lemma encode_unsubscribe_ok v5 id fs :
  well_formed v5 (PUnsubscribe id fs) -> encodes (encode v5 (PUnsubscribe id fs)) (packet_bytes v5 (PUnsubscribe id fs)).
Proof.
  intros (Hs & Hid & Hfs). pose proof (id_size v5 (PUnsubscribe id fs) id (topics_bytes fs) eq_refl) as Hl.
  pose proof (zlen_nonneg (topics_bytes fs)).
  eapply (encode_id_ok v5 (PUnsubscribe id fs) id 0xA2 _ _ (write_topics fs) (topics_bytes fs));
    [done|done|done|done| |reflexivity|reflexivity|].
  - intros N. by apply writes_topics.
  - intros buf N. cbn [encode]. unfold RL_MAX in Hs.
    destruct v5; unfold vox_mqtt_encode_unsubscribe, vox_mqtt_encode_unsubscribe_v5;
      rewrite filters_size_ok by (done || lia); f_equal; lia.
Qed.

Lemma encode_codes_ok v5 pk id first cs :
  body_bytes v5 pk = be16 id ++ no_props v5 ++ cs -> 0 <= id < 2 ^ 16 -> zlen (body_bytes v5 pk) <= RL_MAX ->
  u8 first = u8 (first_byte pk) ->
  (forall buf N, encode v5 pk buf N = encode_packet buf N first (u64 (2 + (if v5 then 1 else 0) + zlen cs)) (fun s =>
     s ← emit16 id s; s ← (if v5 : bool then emit_varint 0 s else Some s); write_codes (Some cs) (zlen cs) s)) ->
  encodes (encode v5 pk) (packet_bytes v5 pk).
Proof.
  intros Eb Hid Hm Ef Ee. pose proof (id_size v5 pk id cs Eb) as Hl. pose proof (zlen_nonneg cs).
  eapply (encode_id_ok v5 pk id first _ _ (write_codes (Some cs) (zlen cs)) cs); [done..|intros N; apply writes_codes|reflexivity| |exact Ee].
  apply size_small. destruct v5; lia.
Qed.

(** Every encoder writes exactly the bytes of its packet and returns their number; in a
    buffer that is too small it writes nothing and returns the number all the same. *)
Lemma encode_ok v5 pk : well_formed v5 pk -> encodes (encode v5 pk) (packet_bytes v5 pk).
Proof.
  destruct pk as [| | |id|id|id|id| |id cs| |id cs| | |]; intros Hw.
  - by apply encode_connect_ok.
  - by apply encode_connack_ok.
  - by apply encode_publish_ok.
  - apply (encode_ack_ok _ _ VOX_MQTT_PKT_PUBACK id); [done|done|apply Hw|done].
  - apply (encode_ack_ok _ _ VOX_MQTT_PKT_PUBREC id); [done|done|apply Hw|done].
  - apply (encode_ack_ok _ _ VOX_MQTT_PKT_PUBREL id); [done|done|apply Hw|done].
  - apply (encode_ack_ok _ _ VOX_MQTT_PKT_PUBCOMP id); [done|done|apply Hw|done].
  - by apply encode_subscribe_ok.
  - destruct Hw as [Hs Hid]. apply (encode_codes_ok v5 _ id 0x90 cs); [done..|]. intros buf N. by destruct v5.
  - by apply encode_unsubscribe_ok.
  - destruct Hw as [Hs Hid]. destruct v5.
    + by apply (encode_codes_ok true _ id 0xB0 cs).
    + by apply (encode_ack_ok _ _ VOX_MQTT_PKT_UNSUBACK id).
  - by apply (encode_simple_ok _ _ VOX_MQTT_PKT_PINGREQ).
  - by apply (encode_simple_ok _ _ VOX_MQTT_PKT_PINGRESP).
  - by apply (encode_simple_ok _ _ VOX_MQTT_PKT_DISCONNECT).
Qed.

(** ** Reading back

    The decoders at the start of what was written: [d] is cut at the offset. *)

Lemma get16_be d pre x post off :
  d = pre ++ be16 x ++ post -> off = zlen pre -> 0 <= x < 2 ^ 16 -> get16 d off = Some x.
Proof.
  intros -> -> Hx. unfold get16, be16. cbn [app]. rewrite (arr_get_app pre _ _ (zlen pre)) by done. cbn [mbind option_bind].
  replace (pre ++ x / 256 :: x mod 256 :: post) with ((pre ++ [x / 256]) ++ x mod 256 :: post) by (by rewrite <-app_assoc).
  rewrite arr_get_app by (by rewrite zlen_app). cbn [mbind option_bind].
  rewrite lor_shiftl by (lia || (pose proof (Z.mod_pos_bound x 256); lia)). change (2 ^ 8) with 256.
  rewrite (Z.mul_comm _ 256), <-Z.div_mod by lia. by rewrite u16_small.
Qed.

Lemma get32_be d pre x post off :
  d = pre ++ be32 x ++ post -> off = zlen pre -> 0 <= x < 2 ^ 32 -> get32 d off = Some x.
Proof.
  intros -> -> Hx. unfold get32, be32. cbn [app].
  set (a := x / 2 ^ 24). set (b := x / 2 ^ 16 mod 256). set (c := x / 2 ^ 8 mod 256). set (e := x mod 256).
  set (d := pre ++ a :: b :: c :: e :: post).
  assert (d.[zlen pre] = Some a) as -> by (by apply arr_get_app).
  assert (d.[zlen pre + 1] = Some b) as ->.
  { unfold d. replace (pre ++ a :: b :: c :: e :: post) with ((pre ++ [a]) ++ b :: c :: e :: post) by (by rewrite <-app_assoc).
    apply arr_get_app. by rewrite zlen_app. }
  assert (d.[zlen pre + 2] = Some c) as ->.
  { unfold d. replace (pre ++ a :: b :: c :: e :: post) with ((pre ++ [a; b]) ++ c :: e :: post) by (by rewrite <-app_assoc).
    apply arr_get_app. by rewrite zlen_app. }
  assert (d.[zlen pre + 3] = Some e) as ->.
  { unfold d. replace (pre ++ a :: b :: c :: e :: post) with ((pre ++ [a; b; c]) ++ e :: post) by (by rewrite <-app_assoc).
    apply arr_get_app. by rewrite zlen_app. }
  cbn [mbind option_bind].
  assert (0 <= a < 256 /\ 0 <= b < 256 /\ 0 <= c < 256 /\ 0 <= e < 256) as (Ha & Hb & Hc & He)
    by (unfold a, b, c, e; split_and!; dlia).
  assert (x = ((a * 256 + b) * 256 + c) * 256 + e) as Ex by (unfold a, b, c, e; dlia).
  rewrite !Z.shiftl_mul_pow2 by lia.
  rewrite (lor_add (a * 2 ^ 24) (b * 2 ^ 16) 24) by (lia || dlia).
  rewrite (lor_add _ (c * 2 ^ 8) 16) by (lia || dlia).
  rewrite (lor_add _ e 8) by (lia || dlia).
  rewrite u32_small by lia. f_equal. lia.
Qed.

Lemma decode_varint_small d pre v post off len :
  d = pre ++ v :: post -> off = zlen pre -> 0 <= v < 128 -> 0 < len -> decode_varint d off len = Some (Got v 1).
Proof.
  intros -> -> Hv Hl. unfold decode_varint. cbn [varint_loop]. rewrite (proj2 (Z.ltb_lt 0 len)) by done. cbn [negb].
  assert ((pre ++ v :: post).[zlen pre + 0] = Some v) as -> by (apply arr_get_app; lia).
  cbn [mbind option_bind]. rewrite (proj2 (Z.ltb_lt v 128)) by lia.
  pose proof (land_low v 7) as E. change (Z.ones 7) with 127 in E. rewrite E by lia.
  rewrite Z.mod_small by lia. rewrite !(u32_small) by (rewrite ?u32_small; lia). do 2 f_equal. lia.
Qed.

Lemma take_field_at d pre t post off len :
  d = pre ++ field t ++ post -> off = zlen pre -> zlen t <= 65535 -> off + 2 + zlen t <= len ->
  take_field d len off = Some (Some (t, off + (2 + zlen t))).
Proof.
  intros Ed -> Ht Hl. pose proof (zlen_nonneg t). unfold take_field.
  rewrite (proj2 (Z.leb_le (zlen pre + 2) len)) by lia.
  rewrite (get16_be d pre (zlen t) (t ++ post)) by (done || lia || (rewrite Ed; unfold field; by rewrite <-app_assoc)).
  cbn [mbind option_bind]. rewrite (proj2 (Z.leb_le (zlen pre + 2 + zlen t) len)) by lia.
  assert (d = (pre ++ be16 (zlen t)) ++ t ++ post) as -> by (rewrite Ed; unfold field; by rewrite <-!app_assoc).
  rewrite arr_slice_mid by (by rewrite ?zlen_app, ?zlen_be16). cbn [mbind option_bind]. do 3 f_equal. lia.
Qed.

Lemma take_given_at d pre t post off len :
  d = pre ++ given_field t ++ post -> off = zlen pre -> opt_fits t -> off + text_size t <= len ->
  take_field_if (match given t with Some _ => true | None => false end) d len off
  = Some (Some (given t, off + text_size t)).
Proof.
  unfold take_field_if, given_field, text_size. destruct t as [[|x l]|]; cbn [given opt_fits]; intros Ed -> Ht Hl;
    [by rewrite Z.add_0_r| |by rewrite Z.add_0_r].
  rewrite (take_field_at d pre (x :: l) post) by (done || lia). done.
Qed.

Lemma skip_props_at v5 d pre post off len :
  d = pre ++ no_props v5 ++ post -> off = zlen pre -> off + (if v5 then 1 else 0) <= len ->
  skip_props v5 d len off = Some (Some (off + (if v5 then 1 else 0))).
Proof.
  intros -> -> Hl. unfold skip_props, no_props. destruct v5; cbn [negb]; [|by rewrite Z.add_0_r].
  rewrite (proj2 (Z.ltb_lt _ len)) by lia. cbn [app].
  rewrite (decode_varint_small _ pre 0 post) by (done || lia). cbn [mbind option_bind].
  rewrite (proj2 (Z.leb_le _ len)) by lia. do 2 f_equal.
Qed.

Lemma read_props_at d pre e r post off :
  d = pre ++ (if e =? 0 then [] else VOX_MQTT5_PROP_SESSION_EXPIRY_INTERVAL :: be32 e)
          ++ (if r =? 0 then [] else VOX_MQTT5_PROP_RECEIVE_MAXIMUM :: be16 r) ++ post ->
  off = zlen pre -> 0 <= e < 2 ^ 32 -> 0 <= r < 2 ^ 16 ->
  read_props (props_fuel off (off + props_size e r)) d off (off + props_size e r) 0 0 = Some (e, r).
Proof.
  intros Ed -> He Hr.
  assert (Hrm : forall fuel d' pre' e', (2 <= fuel)%nat \/ r = 0 /\ (1 <= fuel)%nat ->
    d' = pre' ++ (if r =? 0 then [] else VOX_MQTT5_PROP_RECEIVE_MAXIMUM :: be16 r) ++ post ->
    read_props fuel d' (zlen pre') (zlen pre' + (if r =? 0 then 0 else 3)) e' 0 = Some (e', r)).
  { intros fuel d' pre' e' Hf Ed'. destruct fuel as [|fuel]; [lia|]. cbn [read_props].
    destruct (Z.eqb_spec r 0) as [->|Hr0]; [by rewrite Z.add_0_r, Z.ltb_irrefl|].
    destruct fuel as [|fuel]; [lia|].
    rewrite (proj2 (Z.ltb_lt (zlen pre') _)) by lia. cbn [negb].
    assert (d'.[zlen pre'] = Some 0x21) as -> by (rewrite Ed'; by apply arr_get_app).
    cbn [mbind option_bind]. replace (zlen pre' + 3 - (zlen pre' + 1)) with 2 by lia.
    change (property_value_skip 0x21 d' (zlen pre' + 1) 2) with (Some 2). cbn [mbind option_bind].
    change (2 <=? 0) with false. cbv iota.
    change ((0x21 =? VOX_MQTT5_PROP_SESSION_EXPIRY_INTERVAL) && (4 <=? 2)) with false.
    change ((0x21 =? VOX_MQTT5_PROP_RECEIVE_MAXIMUM) && (2 <=? 2)) with true. cbn [mbind option_bind].
    rewrite (get16_be d' (pre' ++ [0x21]) r post) by (done || (rewrite zlen_app; done) || (rewrite Ed', <-app_assoc; done)).
    cbn [mbind option_bind read_props]. rewrite (proj2 (Z.ltb_ge _ _)) by lia. done. }
  unfold props_fuel, props_size. destruct (Z.eqb_spec e 0) as [->|He0].
  { rewrite Z.add_0_l. apply Hrm; [|exact Ed]. destruct (Z.eqb_spec r 0); lia. }
  set (k := if r =? 0 then 0 else 3) in *. assert (0 <= k) by (unfold k; destruct (r =? 0); lia).
  set (f := Z.to_nat (zlen pre + (5 + k) - zlen pre)). assert (2 <= f)%nat as Hf by lia. clearbody f.
  cbn [read_props]. rewrite (proj2 (Z.ltb_lt (zlen pre) _)) by lia. cbn [negb].
  assert (d.[zlen pre] = Some 0x11) as -> by (rewrite Ed; by apply arr_get_app).
  cbn [mbind option_bind]. replace (zlen pre + (5 + k) - (zlen pre + 1)) with (4 + k) by lia.
  assert (property_value_skip 0x11 d (zlen pre + 1) (4 + k) = Some 4) as ->.
  { change (property_value_skip 0x11 d (zlen pre + 1) (4 + k)) with (Some (if 4 <=? 4 + k then 4 else -1)).
    by rewrite (proj2 (Z.leb_le 4 (4 + k))) by lia. }
  cbn [mbind option_bind].
  change (4 <=? 0) with false. cbv iota.
  change ((0x11 =? VOX_MQTT5_PROP_SESSION_EXPIRY_INTERVAL) && (4 <=? 4)) with true.
  change ((0x11 =? VOX_MQTT5_PROP_RECEIVE_MAXIMUM) && (2 <=? 4)) with false. cbv iota.
  rewrite (get32_be d (pre ++ [0x11]) e ((if r =? 0 then [] else VOX_MQTT5_PROP_RECEIVE_MAXIMUM :: be16 r) ++ post))
    by (done || (rewrite zlen_app; done) || (rewrite Ed, <-app_assoc; done)).
  cbn [mbind option_bind].
  replace (zlen pre + 1 + 4) with (zlen (pre ++ 0x11 :: be32 e)) by (rewrite zlen_app; unfold be32; rewrite !zlen_cons, zlen_nil; lia).
  replace (zlen pre + (5 + k)) with (zlen (pre ++ 0x11 :: be32 e) + k)
    by (rewrite zlen_app; unfold be32; rewrite !zlen_cons, zlen_nil; lia).
  apply (Hrm f); [lia|]. by rewrite Ed, <-app_assoc.
Qed.

(** ** What the parser does with a packet *)

(** The argument for a text or a list of codes: NULL when it is empty. *)
Definition nonempty (l : list Z) : option (list Z) := match l with [] => None | _ => Some l end.

(** The code granted for one topic filter. *)
Definition grant {U} (c : vox_mqtt_parser_callbacks_t U) (id : Z) (f : list Z * Z) (u : U) : U * Z :=
  match on_subscribe c with
  | Some g => let '(u, r) := g (id, f.1, f.2) u in (u, if (0 <=? r) && (r <=? 2) then r else VOX_MQTT_SUBACK_FAILURE)
  | None => (u, VOX_MQTT_SUBACK_FAILURE)
  end.

Fixpoint grant_all {U} (c : vox_mqtt_parser_callbacks_t U) (id : Z) (fs : list (list Z * Z)) (u : U) : U * list Z :=
  match fs with
  | [] => (u, [])
  | f :: fs => let '(u, g) := grant c id f u in let '(u, gs) := grant_all c id fs u in (u, g :: gs)
  end.

Fixpoint unsubscribe_all {U} (c : vox_mqtt_parser_callbacks_t U) (id : Z) (fs : list (list Z)) (u : U) : U * Z :=
  match fs with
  | [] => (u, 0)
  | f :: fs => let '(u, r) := call (on_unsubscribe c) (id, f) u in
               if r =? 0 then unsubscribe_all c id fs u else (u, -1)
  end.

(** The callbacks of a packet with the arguments they get. The retain flag is lost, and so
    are the reason codes of UNSUBACK; an UNSUBACK without a callback is an error. *)
Definition deliver {U} (c : vox_mqtt_parser_callbacks_t U) (v5 : bool) (pk : packet) (u : U) : U * Z :=
  match pk with
  | PConnect cid ka clean wt wm wq wr us pw e r =>
      call (on_connect c)
        {| ci_client_id := cid; ci_version := if v5 then 5 else 4; ci_keepalive := ka;
           ci_flags := connect_flags clean wt wq wr us pw;
           ci_will_topic := given wt; ci_will_msg := match given wt with Some _ => Some wm | None => None end;
           ci_username := given us; ci_password := given pw;
           ci_session_expiry_interval := if v5 then e else 0; ci_receive_maximum := if v5 then r else 0 |} u
  | PConnack sp rc _ _ => call (on_connack c) (Z.land sp VOX_MQTT_CONNACK_FLAG_SESSION_PRESENT, rc) u
  | PPublish q _ id t pl =>
      call (on_publish c)
        {| pi_qos := q; pi_retain := false; pi_packet_id := if q =? 0 then 0 else id; pi_topic := t;
           pi_payload := nonempty pl |} u
  | PPuback id => call (on_puback c) id u
  | PPubrec id => call (on_pubrec c) id u
  | PPubrel id => call (on_pubrel c) id u
  | PPubcomp id => call (on_pubcomp c) id u
  | PSubscribe id fs => let '(u, codes) := grant_all c id fs u in call (on_subscribe_done c) (id, nonempty codes) u
  | PSuback id cs => call (on_suback c) (id, nonempty cs) u
  | PUnsubscribe id fs => unsubscribe_all c id fs u
  | PUnsuback id _ => match on_unsuback c with Some f => f id u | None => (u, -1) end
  | PPingreq => ((call (on_pingreq c) tt u).1, 0)
  | PPingresp => ((call (on_pingresp c) tt u).1, 0)
  | PDisconnect => ((call (on_disconnect c) tt u).1, 0)
  end.

Section reading.
Context {P0 U : Type} `{MPoolLaws P0}.
Context (junk : Z).
#[local] Abbreviation P := (logged P0).
Implicit Types (p : P) (m : vox_mqtt_parser U) (u : U).

(** The parser reads packets as those of version [v5]; CONNECT brings its own. *)
Definition agrees (v5 : bool) (pk : packet) m : Prop :=
  match pk with PConnect _ _ _ _ _ _ _ _ _ _ _ => True | _ => (protocol_version m =? 5) = v5 end.

(** What handling the packet in the buffer comes to: its callbacks ran, and the parser
    differs only in its version and the properties of CONNACK. *)
Definition delivered (v5 : bool) (pk : packet) m u (w : world (P := P) (U := U) * Z) : Prop :=
  let '(p', m', u', err) := w in
  cb m' = cb m /\ max_payload m' = max_payload m /\ (protocol_version m' =? 5) = v5 /\
  u' = (deliver (cb m) v5 pk u).1 /\ (err =? 0) = ((deliver (cb m) v5 pk u).2 =? 0).

(** The packet is in the buffer. *)
Record loaded (v5 : bool) (pk : packet) m (tl : list Z) : Prop := {
  ld_buf : buf m = body_bytes v5 pk ++ tl;
  ld_len : buf_len m = zlen (body_bytes v5 pk);
  ld_flags : flags m = first_byte pk mod 16;
  ld_agrees : agrees v5 pk m;
  ld_wf : well_formed v5 pk;
}.

Lemma hand_delivered {A} v5 pk p m m' u (f : callback U A) a :
  cb m' = cb m -> max_payload m' = max_payload m -> (protocol_version m' =? 5) = v5 ->
  deliver (cb m) v5 pk u = call f a u -> ok (hand f a p m' u) (delivered v5 pk m u).
Proof.
  intros Hc Hm Hv Hd. unfold hand. destruct (call f a u) as [u' r] eqn:E. unfold delivered. cbn.
  rewrite Hd. split_and!; try done. cbn. by destruct (Z.eqb_spec r 0).
Qed.

Lemma ack_delivered v5 pk id tl p m u (f : callback U Z) :
  loaded v5 pk m tl -> body_bytes v5 pk = be16 id -> 0 <= id < 2 ^ 16 -> (protocol_version m =? 5) = v5 ->
  deliver (cb m) v5 pk u = call f id u -> ok (parse_ack f p m u) (delivered v5 pk m u).
Proof.
  intros [Hb Hl _ _ _] Eb Hid Hv Hd. unfold parse_ack, packet_id_with_v5_props. rewrite Hl, Eb, zlen_be16 in *. cbn [negb Z.ltb Z.compare Pos.compare Pos.compare_cont].
  rewrite (get16_be (buf m) [] id tl) by (rewrite ?Hb, ?Eb; done). cbn [mbind option_bind].
  rewrite andb_false_r. cbn [mbind option_bind]. destruct (call f id u) as [u' r] eqn:E. cbn.
  rewrite Hd. done.
Qed.

(** [d] with the identifier and the properties read. *)
Lemma id_props_at v5 id bs tl d len :
  d = (be16 id ++ no_props v5 ++ bs) ++ tl -> len = 2 + (if v5 then 1 else 0) + zlen bs -> 0 <= id < 2 ^ 16 ->
  (len <? 2) = false /\ get16 d 0 = Some id /\ skip_props v5 d len 2 = Some (Some (2 + (if v5 then 1 else 0))).
Proof.
  intros -> -> Hid. pose proof (zlen_nonneg bs). split_and!.
  - apply Z.ltb_ge. destruct v5; lia.
  - apply (get16_be _ [] id ((no_props v5 ++ bs) ++ tl)); [by rewrite <-app_assoc|done|done].
  - apply (skip_props_at _ _ (be16 id) (bs ++ tl)); [by rewrite <-!app_assoc|done|lia].
Qed.

(** The payload at the end of a packet. *)
Lemma rest_at (pre bs tl : list Z) off len :
  off = zlen pre -> len = off + zlen bs ->
  (if off <? len then s ← arr_slice (pre ++ bs ++ tl) off (len - off); Some (Some s) else Some None) = Some (nonempty bs).
Proof.
  intros -> ->. destruct bs as [|x bs]; [by rewrite Z.add_0_r, Z.ltb_irrefl|]. rewrite zlen_cons. pose proof (zlen_nonneg bs).
  rewrite (proj2 (Z.ltb_lt _ _)) by lia. rewrite arr_slice_mid by (rewrite ?zlen_cons; lia). done.
Qed.

Lemma suback_delivered v5 id cs tl p m u :
  loaded v5 (PSuback id cs) m tl -> ok (parse_suback_payload p m u) (delivered v5 (PSuback id cs) m u).
Proof.
  intros [Hb Hl _ Hv [Hs Hid]]. cbn [agrees] in Hv. rewrite (id_size v5 (PSuback id cs) id cs eq_refl) in Hl.
  destruct (id_props_at v5 id cs tl (buf m) (buf_len m) Hb Hl Hid) as (E1 & E2 & E3).
  unfold parse_suback_payload. cbv zeta. rewrite E1, E2, Hv, E3. cbn [mbind option_bind].
  rewrite Hb. cbn [body_bytes]. rewrite (app_assoc (be16 id)), <-(app_assoc _ cs).
  rewrite rest_at; [|rewrite zlen_app, zlen_be16, zlen_no_props; lia|lia].
  cbn [mbind option_bind]. by apply hand_delivered.
Qed.

Lemma unsuback_delivered v5 id cs tl p m u :
  loaded v5 (PUnsuback id cs) m tl -> ok (parse_unsuback p m u) (delivered v5 (PUnsuback id cs) m u).
Proof.
  intros [Hb Hl _ Hv [Hs Hid]]. cbn [agrees] in Hv.
  assert (packet_id_with_v5_props (protocol_version m =? 5) (buf m) (buf_len m) = Some (Some id)) as E.
  { unfold packet_id_with_v5_props. rewrite Hv, Hl, Hb. cbn [body_bytes]. rewrite zlen_app, zlen_be16.
    set (x := if v5 then _ else _). pose proof (zlen_nonneg x).
    rewrite (proj2 (Z.ltb_ge _ 2)) by lia. cbn [negb].
    rewrite (get16_be _ [] id (x ++ tl)) by (done || by rewrite <-app_assoc). cbn [mbind option_bind].
    destruct v5; cbn [andb]; [|done]. unfold x. rewrite zlen_app. change (zlen [0]) with 1. pose proof (zlen_nonneg cs).
    rewrite (proj2 (Z.ltb_lt 2 _)) by lia.
    rewrite (decode_varint_small _ (be16 id) 0 (cs ++ tl)) by (done || lia || by rewrite <-!app_assoc).
    cbn [mbind option_bind]. by rewrite (proj2 (Z.ltb_ge _ _)) by lia. }
  unfold parse_unsuback. rewrite E. cbn [mbind option_bind]. unfold delivered, deliver.
  destruct (on_unsuback (cb m)) as [f|]; [|done]. by destruct (f id u).
Qed.

Lemma unsubscribe_at (c : vox_mqtt_parser_callbacks_t U) id fs fuel d pre tl len off u :
  d = pre ++ topics_bytes fs ++ tl -> off = zlen pre -> len = off + zlen (topics_bytes fs) ->
  Forall (fun t => zlen t <= 65535) fs -> (length fs < fuel)%nat ->
  unsubscribe_loop fuel c id d len off u = Some (unsubscribe_all c id fs u).
Proof.
  intros Ed Eo El Hfs. revert fuel pre off u Ed Eo El. induction Hfs as [|t fs Ht _ IH]; intros fuel pre off u Ed Eo El Hf.
  - destruct fuel as [|fuel]; [cbn in Hf; lia|]. cbn [unsubscribe_loop]. change (zlen (topics_bytes [])) with 0 in El.
    by rewrite (proj2 (Z.leb_gt _ _)) by lia.
  - destruct fuel as [|fuel]; [cbn in Hf; lia|]. cbn [unsubscribe_loop unsubscribe_all].
    assert (topics_bytes (t :: fs) = field t ++ topics_bytes fs) as Et by done.
    rewrite Et, zlen_app, zlen_field in El. rewrite Et, <-app_assoc in Ed.
    pose proof (zlen_nonneg t). pose proof (zlen_nonneg (topics_bytes fs)).
    rewrite (proj2 (Z.leb_le (off + 2) len)) by lia. cbn [negb].
    rewrite (get16_be d pre (zlen t) (t ++ topics_bytes fs ++ tl)); [|rewrite Ed; unfold field; by rewrite <-!app_assoc|done|lia].
    cbn [mbind option_bind]. rewrite (proj2 (Z.ltb_ge len _)) by lia.
    assert (arr_slice d (off + 2) (zlen t) = Some t) as ->.
    { rewrite Ed. unfold field. rewrite <-app_assoc, (app_assoc pre). apply arr_slice_mid; [rewrite zlen_app, zlen_be16; lia|done]. }
    cbn [mbind option_bind]. destruct (call (on_unsubscribe c) (id, t) u) as [u1 r].
    destruct (Z.eqb_spec r 0); cbn [negb]; [|done].
    apply (IH fuel (pre ++ field t)); [by rewrite Ed, <-app_assoc|rewrite zlen_app, zlen_field; lia|lia|cbn in Hf; lia].
Qed.

Lemma zlen_topics fs : 2 * zlen fs <= zlen (topics_bytes fs).
Proof.
  unfold topics_bytes. induction fs as [|t fs IH]; [done|]. cbn [fmap list_fmap concat] in *.
  rewrite zlen_cons, zlen_app, zlen_field. pose proof (zlen_nonneg t). lia.
Qed.

Lemma unsubscribe_delivered v5 id fs tl p m u :
  loaded v5 (PUnsubscribe id fs) m tl ->
  ok (parse_unsubscribe_payload p m u) (delivered v5 (PUnsubscribe id fs) m u).
Proof.
  intros [Hb Hl _ Hv (Hs & Hid & Hfs)]. cbn [agrees] in Hv. rewrite (id_size v5 (PUnsubscribe id fs) id (topics_bytes fs) eq_refl) in Hl.
  destruct (id_props_at v5 id (topics_bytes fs) tl (buf m) (buf_len m) Hb Hl Hid) as (E1 & E2 & E3).
  unfold parse_unsubscribe_payload. cbv zeta. rewrite E1, E2, Hv, E3. cbn [mbind option_bind].
  pose proof (zlen_topics fs). pose proof (zlen_nonneg fs).
  rewrite (unsubscribe_at (cb m) id fs _ (buf m) (be16 id ++ no_props v5) tl) by
    (first [done|rewrite Hb; cbn [body_bytes]; by rewrite <-!app_assoc|rewrite zlen_app, zlen_be16, zlen_no_props; lia|lia|unfold zlen in *; destruct v5; lia]).
  cbn [mbind option_bind]. unfold delivered. cbn [deliver]. destruct (unsubscribe_all _ _ _ _) as [u1 r]. done.
Qed.
Lemma connack_delivered v5 sp rc e r tl p m u :
  loaded v5 (PConnack sp rc e r) m tl -> ok (parse_connack_payload p m u) (delivered v5 (PConnack sp rc e r) m u).
Proof.
  intros [Hb Hl _ Hv (Hs & Hrc & He & Hr)]. cbn [agrees body_bytes] in *.
  set (x := if v5 then props_bytes e r else []) in *. rewrite zlen_app in Hl. change (zlen [_; _]) with 2 in Hl.
  pose proof (zlen_nonneg x). pose proof (props_size_small e r).
  unfold parse_connack_payload. cbv zeta. rewrite (proj2 (Z.ltb_ge _ 2)) by lia.
  eapply (ok_bind _ _ (fun m' => buf m' = buf m /\ cb m' = cb m /\ max_payload m' = max_payload m /\ (protocol_version m' =? 5) = v5)).
  { rewrite Hv. destruct v5; cbn [andb]; [|done]. unfold x in *. rewrite zlen_props in *.
    rewrite (proj2 (Z.ltb_lt 2 _)) by lia.
    rewrite (decode_varint_small (buf m) [Z.land sp VOX_MQTT_CONNACK_FLAG_SESSION_PRESENT; rc] (props_size e r)
      ((if e =? 0 then [] else VOX_MQTT5_PROP_SESSION_EXPIRY_INTERVAL :: be32 e)
       ++ (if r =? 0 then [] else VOX_MQTT5_PROP_RECEIVE_MAXIMUM :: be16 r) ++ tl));
      [|rewrite Hb; unfold props_bytes; by rewrite <-!app_assoc|done|lia|lia].
    cbn [mbind option_bind]. rewrite (proj2 (Z.leb_le _ _)) by lia.
    rewrite (read_props_at (buf m) [Z.land sp VOX_MQTT_CONNACK_FLAG_SESSION_PRESENT; rc; props_size e r] e r tl);
      [done|rewrite Hb; unfold props_bytes; by rewrite <-!app_assoc|done|done|done]. }
  intros m' (Hb' & Hc' & Hm' & Hv').
  assert ((buf m).[0] = Some (Z.land sp VOX_MQTT_CONNACK_FLAG_SESSION_PRESENT)) as -> by (rewrite Hb; by apply (arr_get_app [])).
  assert ((buf m).[1] = Some rc) as -> by (rewrite Hb; by apply (arr_get_app [_])).
  cbn [mbind option_bind]. rewrite Hc'.
  assert (Z.land (Z.land sp VOX_MQTT_CONNACK_FLAG_SESSION_PRESENT) VOX_MQTT_CONNACK_FLAG_SESSION_PRESENT
          = Z.land sp VOX_MQTT_CONNACK_FLAG_SESSION_PRESENT) as -> by (by rewrite <-Z.land_assoc).
  unfold delivered. cbn [deliver]. destruct (call _ _ u). done.
Qed.

Lemma publish_flags q re :
  0 <= q <= 3 -> let f := first_byte (PPublish q re 0 [] []) mod 16 in
  Z.land (Z.shiftr f VOX_MQTT_PUBLISH_QOS_SHIFT) VOX_MQTT_PUBLISH_MASK_QOS = q /\
  Z.land (Z.shiftr f VOX_MQTT_PUBLISH_RETAIN_SHIFT) VOX_MQTT_PUBLISH_MASK_RETAIN = 0.
Proof. intros Hq. assert (q = 0 \/ q = 1 \/ q = 2 \/ q = 3) as [-> | [-> | [-> | ->]]] by lia; by destruct re. Qed.

Lemma publish_delivered v5 q re id t pl tl p m u :
  loaded v5 (PPublish q re id t pl) m tl -> ok (parse_publish_payload p m u) (delivered v5 (PPublish q re id t pl) m u).
Proof.
  intros [Hb Hl Hf Hv (Hs & Hq & Hid & Ht)]. cbn [agrees body_bytes] in *.
  destruct (publish_flags q re Hq) as [Eq Er]. change (first_byte (PPublish q re 0 [] [])) with (first_byte (PPublish q re id t pl)) in *.
  rewrite <-Hf in Eq, Er.
  set (idb := if q =? 0 then [] else be16 id) in *. rewrite !zlen_app, zlen_field, zlen_no_props in Hl.
  pose proof (zlen_nonneg t). pose proof (zlen_nonneg pl). pose proof (zlen_nonneg idb).
  assert (publish_fields (flags m) v5 (buf m) (buf_len m) = Some (Some
    {| pi_qos := q; pi_retain := false; pi_packet_id := if q =? 0 then 0 else id; pi_topic := t; pi_payload := nonempty pl |})) as E.
  { unfold publish_fields. rewrite (proj2 (Z.ltb_ge _ 2)) by (destruct v5; lia). cbn [negb].
    rewrite (get16_be (buf m) [] (zlen t) (t ++ idb ++ no_props v5 ++ pl ++ tl));
      [|rewrite Hb; unfold field; by rewrite <-!app_assoc|done|lia].
    cbn [mbind option_bind]. rewrite (proj2 (Z.ltb_ge _ (2 + zlen t))) by (destruct v5; lia). cbn [negb].
    assert (arr_slice (buf m) 2 (zlen t) = Some t) as ->.
    { rewrite Hb. unfold field. rewrite <-!app_assoc. by apply (arr_slice_mid (be16 (zlen t))). }
    cbn [mbind option_bind]. cbv zeta. rewrite Eq, Er.
    eassert ((if 0 <? q then _ else _) = Some (Some (if q =? 0 then 0 else id, 2 + zlen t + zlen idb))) as ->.
    { unfold idb in *. destruct (Z.eqb_spec q 0) as [->|Hq0]; [by rewrite Z.add_0_r|]. rewrite zlen_be16 in *.
      rewrite (proj2 (Z.ltb_lt 0 q)) by lia. rewrite (proj2 (Z.leb_le _ (buf_len m))) by (destruct v5; lia).
      rewrite (get16_be (buf m) (field t) id (no_props v5 ++ pl ++ tl)); [|rewrite Hb; by rewrite <-!app_assoc|by rewrite zlen_field|done].
      done. }
    cbn [pbind].
    rewrite (skip_props_at v5 (buf m) (field t ++ idb) (pl ++ tl)); [|rewrite Hb; by rewrite <-!app_assoc|by rewrite zlen_app, zlen_field|destruct v5; lia].
    cbn [pbind]. rewrite Hb, <-!app_assoc, (app_assoc idb), (app_assoc (field t)).
    rewrite rest_at; [done|rewrite !zlen_app, zlen_field, zlen_no_props; lia|lia]. }
  unfold parse_publish_payload. rewrite Hv, E. cbn [mbind option_bind]. by apply hand_delivered.
Qed.

Lemma grant_ok (c : vox_mqtt_parser_callbacks_t U) id f u u' g : grant c id f u = (u', g) -> 0 <= g < 2 ^ 8.
Proof.
  unfold grant, VOX_MQTT_SUBACK_FAILURE. destruct (on_subscribe c) as [h|]; [|intros [= <- <-]; lia].
  destruct (h _ u) as [u1 r]. destruct (Z.leb_spec 0 r), (Z.leb_spec r 2); cbn; intros [= <- <-]; lia.
Qed.

Lemma zlen_filters_ge fs : 3 * zlen fs <= zlen (filters_bytes fs).
Proof.
  unfold filters_bytes. induction fs as [|[t q] fs IH]; [done|]. cbn [fmap list_fmap concat fst snd] in *.
  rewrite zlen_cons, !zlen_app, zlen_field, zlen_cons, zlen_nil. pose proof (zlen_nonneg t). lia.
Qed.

Lemma filters_cons t q fs : filters_bytes ((t, q) :: fs) = field t ++ [q] ++ filters_bytes fs.
Proof. unfold filters_bytes. cbn [fmap list_fmap concat fst snd]. by rewrite <-app_assoc. Qed.

Lemma count_at fs fuel d pre tl len off n :
  d = pre ++ filters_bytes fs ++ tl -> off = zlen pre -> len = off + zlen (filters_bytes fs) ->
  Forall (fun f => zlen f.1 <= 65535 /\ 0 <= f.2 <= 3) fs -> (length fs < fuel)%nat ->
  count_filters fuel d len off n = Some (n + zlen fs).
Proof.
  intros Ed Eo El Hfs. revert fuel pre off n Ed Eo El. induction Hfs as [|[t q] fs [Ht Hq] _ IH]; intros fuel pre off n Ed Eo El Hf;
    (destruct fuel as [|fuel]; [cbn in Hf; lia|]); cbn [count_filters].
  - change (zlen (filters_bytes [])) with 0 in El. rewrite (proj2 (Z.leb_gt _ _)) by lia. cbn. by rewrite zlen_nil, Z.add_0_r.
  - rewrite filters_cons, !zlen_app, zlen_field in El. change (zlen [q]) with 1 in El. rewrite filters_cons in Ed. cbn [fst snd] in *.
    pose proof (zlen_nonneg t). pose proof (zlen_nonneg (filters_bytes fs)).
    rewrite (proj2 (Z.leb_le (off + 2) len)) by lia. cbn [negb].
    rewrite (get16_be d pre (zlen t) (t ++ [q] ++ filters_bytes fs ++ tl)); [|rewrite Ed; unfold field; by rewrite <-!app_assoc|done|lia].
    cbn [mbind option_bind]. rewrite (proj2 (Z.ltb_ge len _)) by lia.
    rewrite (IH fuel (pre ++ field t ++ [q])); [rewrite zlen_cons; f_equal; lia|by rewrite Ed, <-!app_assoc|rewrite !zlen_app, zlen_field; change (zlen [q]) with 1; lia|lia|cbn in Hf; lia].
Qed.

Lemma subscribe_at (c : vox_mqtt_parser_callbacks_t U) v5 id fs fuel d pre tl len off count i done_ codes u :
  d = pre ++ filters_bytes fs ++ tl -> off = zlen pre -> len = off + zlen (filters_bytes fs) ->
  Forall (fun f => zlen f.1 <= 65535 /\ 0 <= f.2 <= 3) fs -> (length fs < fuel)%nat ->
  i = zlen done_ -> zlen codes = zlen fs -> count = i + zlen fs ->
  subscribe_loop fuel c v5 id d len off count i (done_ ++ codes) u
  = Some ((grant_all c id fs u).1, count, done_ ++ (grant_all c id fs u).2).
Proof.
  intros Ed Eo El Hfs. revert fuel pre off i done_ codes u Ed Eo El.
  induction Hfs as [|[t q] fs [Ht Hq] _ IH]; intros fuel pre off i done_ codes u Ed Eo El Hf Hi Hc Hn;
    (destruct fuel as [|fuel]; [cbn in Hf; lia|]); cbn [subscribe_loop].
  - change (zlen (filters_bytes [])) with 0 in El. rewrite (proj2 (Z.leb_gt _ _)) by lia. cbn [andb negb].
    apply zlen_0_inv in Hc as ->. rewrite zlen_nil in Hn. cbn. do 3 f_equal; lia.
  - rewrite filters_cons, !zlen_app, zlen_field in El. change (zlen [q]) with 1 in El. rewrite filters_cons in Ed.
    rewrite zlen_cons in Hc, Hn. cbn [fst snd] in *.
    pose proof (zlen_nonneg t). pose proof (zlen_nonneg (filters_bytes fs)). pose proof (zlen_nonneg fs).
    rewrite (proj2 (Z.leb_le (off + 2) len)), (proj2 (Z.ltb_lt i count)) by lia. cbn [andb negb].
    rewrite (get16_be d pre (zlen t) (t ++ [q] ++ filters_bytes fs ++ tl)); [|rewrite Ed; unfold field; by rewrite <-!app_assoc|done|lia].
    cbn [mbind option_bind]. rewrite (proj2 (Z.ltb_ge len _)) by lia.
    assert (arr_slice d (off + 2) (zlen t) = Some t) as ->.
    { rewrite Ed. unfold field. rewrite <-!app_assoc, (app_assoc pre). apply arr_slice_mid; [rewrite zlen_app, zlen_be16; lia|done]. }
    cbn [mbind option_bind].
    assert (d.[off + 2 + zlen t] = Some q) as ->.
    { rewrite Ed, <-app_assoc, (app_assoc pre). apply arr_get_app. rewrite zlen_app, zlen_field. lia. }
    cbn [mbind option_bind].
    assert ((if v5 then Z.land q VOX_MQTT_PUBLISH_MASK_QOS else q) = q) as ->.
    { destruct v5; [|done]. pose proof (land_low q 2) as E. change (Z.ones 2) with VOX_MQTT_PUBLISH_MASK_QOS in E.
      rewrite E by lia. apply Z.mod_small. lia. }
    cbn [grant_all]. destruct (grant c id (t, q) u) as [u1 g] eqn:Eg. pose proof (grant_ok _ _ _ _ _ _ Eg) as Hg.
    assert (Hmatch : (match on_subscribe c with
                      | Some f => let '(u0, r) := f (id, t, q) u in (u0, if (0 <=? r) && (r <=? 2) then u8 r else VOX_MQTT_SUBACK_FAILURE)
                      | None => (u, VOX_MQTT_SUBACK_FAILURE) end) = (u1, g)).
    { revert Eg. unfold grant. cbn [fst snd]. destruct (on_subscribe c) as [f|]; [|done]. destruct (f _ u) as [u0 r].
      destruct (Z.leb_spec 0 r), (Z.leb_spec r 2); cbn [andb]; try done. by rewrite u8_small by lia. }
    rewrite Hmatch. rewrite u8_small by done.
    destruct codes as [|c0 codes]; [rewrite zlen_nil in Hc; lia|]. rewrite zlen_cons in Hc.
    rewrite arr_set_app by done. cbn [mbind option_bind].
    replace (done_ ++ g :: codes) with ((done_ ++ [g]) ++ codes) by (by rewrite <-app_assoc).
    rewrite (IH fuel (pre ++ field t ++ [q])); [|by rewrite Ed, <-!app_assoc|rewrite !zlen_app, zlen_field; change (zlen [q]) with 1; lia
      |lia|cbn in Hf; lia|rewrite zlen_app; change (zlen [g]) with 1; lia|lia|lia].
    destruct (grant_all c id fs u1) as [u2 gs]. cbn [fst snd]. by rewrite <-app_assoc.
Qed.

Lemma grant_all_length (c : vox_mqtt_parser_callbacks_t U) id fs u : zlen (grant_all c id fs u).2 = zlen fs.
Proof.
  revert u. induction fs as [|f fs IH]; intros u; [done|]. cbn [grant_all]. destruct (grant c id f u) as [u1 g].
  specialize (IH u1). destruct (grant_all c id fs u1). cbn [snd] in *. by rewrite !zlen_cons, IH.
Qed.

(** Unless the pool refuses the block of the return codes. *)
Lemma subscribe_delivered v5 id fs tl p m u :
  loaded v5 (PSubscribe id fs) m tl ->
  ok (parse_subscribe_payload junk p m u) (fun w =>
    lg_refused w.1.1.1 = true \/ delivered v5 (PSubscribe id fs) m u w).
Proof.
  intros [Hb Hl _ Hv (Hs & Hid & Hfs)]. cbn [agrees] in Hv.
  rewrite (id_size v5 (PSubscribe id fs) id (filters_bytes fs) eq_refl) in Hl, Hs.
  destruct (id_props_at v5 id (filters_bytes fs) tl (buf m) (buf_len m) Hb Hl Hid) as (E1 & E2 & E3).
  unfold parse_subscribe_payload. cbv zeta. rewrite E1, E2, Hv, E3. cbn [mbind option_bind].
  pose proof (zlen_filters_ge fs). pose proof (zlen_nonneg fs). unfold RL_MAX in Hs.
  assert (Hfuel : (length fs < S (Z.to_nat (buf_len m)))%nat) by (unfold zlen in *; destruct v5; lia).
  assert (Ed : buf m = (be16 id ++ no_props v5) ++ filters_bytes fs ++ tl) by (rewrite Hb; cbn [body_bytes]; by rewrite <-!app_assoc).
  assert (Eo : 2 + (if v5 then 1 else 0) = zlen (be16 id ++ no_props v5)) by (rewrite zlen_app, zlen_be16, zlen_no_props; done).
  rewrite (count_at fs _ (buf m) _ tl) by done. cbn [mbind option_bind]. rewrite Z.add_0_l.
  pose proof (grant_all_length (cb m) id fs u) as Hgl.
  assert (Hend : forall q a codes, zlen codes = zlen fs -> (a = NULL <-> zlen fs = 0) ->
    ok ('(u0, i, cs) ← subscribe_loop (S (Z.to_nat (buf_len m))) (cb m) v5 id (buf m) (buf_len m)
          (2 + (if v5 then 1 else 0)) (zlen fs) 0 codes u;
        let arg := if a =? NULL then None else Some (take (Z.to_nat i) cs) in
        let '(u1, r) := call (on_subscribe_done (cb m)) (id, arg) u0 in
        Some (if a =? NULL then q else mp_free q a, m, u1, if r =? 0 then 0 else -1))
       (fun w => lg_refused w.1.1.1 = true \/ delivered v5 (PSubscribe id fs) m u w)).
  { intros q a codes Hcl Ha.
    rewrite (subscribe_at (cb m) v5 id fs _ (buf m) (be16 id ++ no_props v5) tl _ _ _ 0 [] codes u) by (done || lia).
    cbn [mbind option_bind app]. unfold delivered. cbn [deliver].
    destruct (grant_all (cb m) id fs u) as [u1 gs]. cbn [fst snd] in *.
    assert ((if a =? NULL then None else Some (take (Z.to_nat (zlen fs)) gs)) = nonempty gs) as ->.
    { destruct (Z.eqb_spec a NULL) as [->|Hn].
      - rewrite (proj1 Ha eq_refl) in Hgl. by apply zlen_0_inv in Hgl as ->.
      - rewrite take_ge by (unfold zlen in *; lia). destruct gs; [|done]. exfalso. apply Hn, Ha. by rewrite <-Hgl. }
    destruct (call _ (id, nonempty gs) u1) as [u2 r]. cbn. right. split_and!; try done. by destruct (Z.eqb_spec r 0). }
  destruct (Z.eqb_spec (zlen fs) 0) as [Hz|Hz]; cbn [negb andb].
  { apply (Hend p NULL []); [by rewrite Hz|done]. }
  unfold alloc_cells. destruct (mp_alloc p (u64 (zlen fs * 1))) as [q a] eqn:Ea.
  destruct (Z.eqb_spec a NULL) as [->|Ha]; cbn [andb].
  { left. cbn. by eapply refused_logged. }
  pose proof (Hend q a (replicate (Z.to_nat (u64 (zlen fs * 1) / 1)) junk)) as Hx.
  rewrite (proj2 (Z.eqb_neq a NULL)) in Hx by done. apply Hx; [|done].
  rewrite u64_small, Z.div_1_r by (destruct v5; lia). rewrite zlen_replicate. lia.
Qed.

Definition present (t : option (list Z)) : bool := match given t with Some _ => true | None => false end.

Lemma connect_flags_bits clean wt wq wr us pw :
  0 <= wq <= 3 -> let f := connect_flags clean wt wq wr us pw in
  negb (Z.land f VOX_MQTT_CONNECT_FLAG_WILL =? 0) = present wt /\
  negb (Z.land f VOX_MQTT_CONNECT_FLAG_USERNAME =? 0) = present us /\
  negb (Z.land f VOX_MQTT_CONNECT_FLAG_PASSWORD =? 0) = present pw.
Proof.
  intros Hq. assert (wq = 0 \/ wq = 1 \/ wq = 2 \/ wq = 3) as Hc by lia. unfold connect_flags, present.
  destruct clean, (given wt), wr, (given us), (given pw), Hc as [-> | [-> | [-> | ->]]];
    split_and!; reflexivity.
Qed.

(** The part of CONNECT after the properties. *)
Lemma connect_tail_at (v5 : bool) d pre cid wt wm us pw tl off len :
  d = pre ++ tail_bytes cid wt wm us pw ++ tl -> off = zlen pre -> len = off + connect_tail_size cid wt wm us pw ->
  zlen cid <= 65535 -> opt_fits wt -> zlen wm <= 65535 -> opt_fits us -> opt_fits pw ->
  exists off1 off2 off3 off4,
    take_field d len off = Some (Some (cid, off1)) /\
    match given wt with
    | Some t => exists off', take_field d len off1 = Some (Some (t, off')) /\ take_field d len off' = Some (Some (wm, off2))
    | None => off2 = off1
    end /\
    take_field_if (present us) d len off2 = Some (Some (given us, off3)) /\
    take_field_if (present pw) d len off3 = Some (Some (given pw, off4)).
Proof.
  intros Ed Eo El Hc Hwt Hwm Hus Hpw. unfold tail_bytes in Ed. unfold connect_tail_size in El.
  pose proof (text_size_range us Hus). pose proof (text_size_range pw Hpw). pose proof (zlen_nonneg cid). pose proof (zlen_nonneg wm).
  set (wb := match given wt with Some t => field t ++ field wm | None => [] end) in *.
  assert (Hwb : zlen wb = match given wt with Some t => 2 + zlen t + 2 + zlen wm | None => 0 end).
  { unfold wb. destruct (given wt); [rewrite zlen_app, !zlen_field; lia|done]. }
  rewrite <-Hwb in El. pose proof (zlen_nonneg wb).
  exists (off + (2 + zlen cid)), (off + (2 + zlen cid) + zlen wb), (off + (2 + zlen cid) + zlen wb + text_size us),
    (off + (2 + zlen cid) + zlen wb + text_size us + text_size pw).
  split; [|split; [|split]].
  - apply (take_field_at d pre cid (wb ++ given_field us ++ given_field pw ++ tl)); [by rewrite Ed, <-!app_assoc|done|done|lia].
  - unfold wb in *. destruct wt as [[|x t]|]; cbn [given opt_fits] in *; [cbn; lia| |cbn; lia].
    rewrite <-!app_assoc in Ed. exists (off + (2 + zlen cid) + (2 + zlen (x :: t))).
    pose proof (zlen_nonneg (x :: t)). rewrite zlen_app, !zlen_field in *. split.
    + apply (take_field_at d (pre ++ field cid) _ (field wm ++ given_field us ++ given_field pw ++ tl));
        [by rewrite Ed, <-!app_assoc|rewrite zlen_app, zlen_field; lia|done|lia].
    + rewrite (take_field_at d (pre ++ field cid ++ field (x :: t)) wm (given_field us ++ given_field pw ++ tl));
        [do 3 f_equal; lia|by rewrite Ed, <-!app_assoc|rewrite !zlen_app, !zlen_field; lia|done|lia].
  - apply (take_given_at d (pre ++ field cid ++ wb) us (given_field pw ++ tl));
      [by rewrite Ed, <-!app_assoc|rewrite !zlen_app, zlen_field; lia|done|lia].
  - apply (take_given_at d (pre ++ field cid ++ wb ++ given_field us) pw tl);
      [by rewrite Ed, <-!app_assoc|rewrite !zlen_app, zlen_field, zlen_given; lia|done|lia].
Qed.

Lemma connect_fields_at v5 cid ka clean wt wm wq wr us pw e r tl d len :
  well_formed v5 (PConnect cid ka clean wt wm wq wr us pw e r) ->
  d = body_bytes v5 (PConnect cid ka clean wt wm wq wr us pw e r) ++ tl ->
  len = zlen (body_bytes v5 (PConnect cid ka clean wt wm wq wr us pw e r)) ->
  connect_fields d len (if v5 then 5 else 4) ka (connect_flags clean wt wq wr us pw) 10
  = Some (Some {| ci_client_id := cid; ci_version := if v5 then 5 else 4; ci_keepalive := ka;
                  ci_flags := connect_flags clean wt wq wr us pw;
                  ci_will_topic := given wt; ci_will_msg := match given wt with Some _ => Some wm | None => None end;
                  ci_username := given us; ci_password := given pw;
                  ci_session_expiry_interval := if v5 then e else 0; ci_receive_maximum := if v5 then r else 0 |}).
Proof.
  intros (Hs & Hcid & Hka & Hwt & Hwm & Hwq & Hus & Hpw & He & Hr & Hw5) Ed El. cbn [body_bytes] in *.
  destruct (connect_flags_bits clean wt wq wr us pw Hwq) as (Ew & Eu & Ep).
  set (cf := connect_flags clean wt wq wr us pw) in *. set (hd := head_bytes _ _ _) in *.
  set (pb := if v5 then props_bytes e r else []) in *.
  rewrite !zlen_app, tail_size in El. change (zlen hd) with 10 in El. pose proof (zlen_nonneg pb).
  pose proof (tail_size cid wt wm us pw) as Hts. pose proof (zlen_nonneg (tail_bytes cid wt wm us pw)).
  destruct (connect_tail_at v5 d (hd ++ pb) cid wt wm us pw tl (10 + zlen pb) len)
    as (o1 & o2 & o3 & o4 & E1 & E2 & E3 & E4); [by rewrite Ed, <-!app_assoc|by rewrite zlen_app|lia|done..|].
  unfold connect_fields.
  eassert ((if (if v5 then 5 else 4) =? 5 then _ else _)
           = Some (Some (if v5 then e else 0, if v5 then r else 0, 10 + zlen pb))) as ->.
  { unfold pb in *. destruct v5; [|done]. change (5 =? 5) with true. cbv iota. rewrite zlen_props in *.
    pose proof (props_size_small e r).
    rewrite (decode_varint_small d hd (props_size e r)
      (((if e =? 0 then [] else VOX_MQTT5_PROP_SESSION_EXPIRY_INTERVAL :: be32 e)
       ++ (if r =? 0 then [] else VOX_MQTT5_PROP_RECEIVE_MAXIMUM :: be16 r)) ++ tail_bytes cid wt wm us pw ++ tl));
      [|rewrite Ed; unfold props_bytes; by rewrite <-!app_assoc|done|lia|lia].
    cbn [mbind option_bind]. cbv zeta. rewrite (proj2 (Z.leb_le _ len)) by lia.
    rewrite (read_props_at d (hd ++ [props_size e r]) e r (tail_bytes cid wt wm us pw ++ tl));
      [|rewrite Ed; unfold props_bytes; by rewrite <-!app_assoc|by rewrite zlen_app|done|done].
    cbn [mbind option_bind]. do 3 f_equal. lia. }
  cbn [pbind]. rewrite E1. cbn [pbind]. cbv zeta. rewrite Ew, Eu, Ep.
  eassert ((if present wt then _ else _)
           = Some (Some (given wt, match given wt with Some _ => Some wm | None => None end, o2))) as ->.
  { unfold present. destruct (given wt) as [t|] eqn:Eg; [|by rewrite E2].
    destruct v5; [by specialize (Hw5 eq_refl)|]. change (4 =? 5) with false. cbv iota. cbn [pbind].
    destruct E2 as (o' & -> & E2). cbn [pbind]. rewrite E2. done. }
  cbn [pbind]. rewrite E3. cbn [pbind]. by rewrite E4.
Qed.

Lemma connect_delivered v5 cid ka clean wt wm wq wr us pw e r tl p m u :
  loaded v5 (PConnect cid ka clean wt wm wq wr us pw e r) m tl ->
  ok (parse_connect_payload junk p m u) (delivered v5 (PConnect cid ka clean wt wm wq wr us pw e r) m u).
Proof.
  intros [Hb Hl _ _ Hw]. pose proof (connect_fields_at v5 cid ka clean wt wm wq wr us pw e r tl (buf m) (buf_len m) Hw Hb Hl) as Ef.
  destruct Hw as (Hs & Hcid & Hka & Hwt & Hwm & Hwq & Hus & Hpw & He & Hr & Hw5).
  set (cf := connect_flags clean wt wq wr us pw) in *.
  assert (exists rest, buf m = head_bytes (if v5 then 5 else 4) cf ka ++ rest /\ 12 <= buf_len m) as (rest & Ed & H12).
  { eexists. split; [rewrite Hb; cbn [body_bytes]; by rewrite <-app_assoc|]. rewrite Hl. cbn [body_bytes].
    rewrite zlen_app. change (zlen (head_bytes _ _ _)) with 10. rewrite zlen_app, tail_size. unfold connect_tail_size.
    pose proof (zlen_nonneg cid). pose proof (zlen_nonneg wm). pose proof (text_size_range us Hus). pose proof (text_size_range pw Hpw).
    pose proof (zlen_nonneg (if v5 then props_bytes e r else [])).
    destruct (given wt) as [t|]; [pose proof (zlen_nonneg t)|]; lia. }
  unfold parse_connect_payload. cbv zeta. rewrite (proj2 (Z.ltb_ge _ 8)) by lia.
  assert (get16 (buf m) 0 = Some 4) as -> by (by rewrite Ed). cbn [mbind option_bind negb andb Z.eqb Pos.eqb].
  rewrite (proj2 (Z.ltb_ge _ _)) by lia.
  assert ((buf m).[2 + 4] = Some (if v5 then 5 else 4)) as -> by (by rewrite Ed). cbn [mbind option_bind].
  assert (memcmp (drop 2 (buf m)) (bytes_of "MQTT") 4 = Some 0) as ->.
  { unfold memcmp. assert (drop 2 (buf m) = [] ++ MQTT_name ++ drop 6 (buf m)) as -> by (by rewrite Ed).
    by rewrite arr_slice_mid. }
  cbn [mbind option_bind]. change (0 =? 0) with true.
  assert (((if v5 then 5 else 4) =? 4) || ((if v5 then 5 else 4) =? 5) = true) as -> by (by destruct v5).
  cbn [negb andb].
  assert ((buf m).[2 + 4 + 1] = Some cf) as -> by (by rewrite Ed). cbn [mbind option_bind].
  rewrite (get16_be (buf m) ([0; 4] ++ MQTT_name ++ [if v5 then 5 else 4] ++ [cf]) ka rest) by (done || rewrite Ed; done).
  cbn [mbind option_bind]. change (2 + 4 + 4) with 10. rewrite Ef. cbn [mbind option_bind].
  apply hand_delivered; [done|done|by destruct v5|done].
Qed.

Lemma publish_type q re : 0 <= q <= 3 -> (0x30 + 2 * q + (if re : bool then 1 else 0)) / 16 = 3.
Proof. intros Hq. destruct re; dlia. Qed.

Lemma dispatch_packet v5 pk tl p m u :
  loaded v5 pk m tl -> type_ m = first_byte pk / 16 -> body_bytes v5 pk <> [] ->
  ok (dispatch junk p m u) (fun w => lg_refused w.1.1.1 = true \/ delivered v5 pk m u w).
Proof.
  intros Hl Ht Hne. unfold dispatch. rewrite Ht.
  assert (Hweak : forall e, ok e (delivered v5 pk m u) -> ok e (fun w => lg_refused w.1.1.1 = true \/ delivered v5 pk m u w)).
  { intros e He. eapply ok_mono; [exact He|]. by right. }
  pose proof (ld_wf _ _ _ _ Hl) as Hw. pose proof (ld_agrees _ _ _ _ Hl) as Hv.
  destruct pk as [| |q re id t pl|id|id|id|id| | | | | | |]; cbn [first_byte]; try done;
    try rewrite (publish_type q re) by apply Hw; cbn [Z.div Z.div_eucl Z.pos_div_eucl Z.ltb Z.eqb Pos.eqb].
  - apply Hweak. by eapply connect_delivered.
  - apply Hweak. by eapply connack_delivered.
  - apply Hweak. by eapply publish_delivered.
  - apply Hweak. by eapply ack_delivered; [exact Hl|done|apply Hw|done|].
  - apply Hweak. by eapply ack_delivered; [exact Hl|done|apply Hw|done|].
  - apply Hweak. by eapply ack_delivered; [exact Hl|done|apply Hw|done|].
  - apply Hweak. by eapply ack_delivered; [exact Hl|done|apply Hw|done|].
  - by eapply subscribe_delivered.
  - apply Hweak. by eapply suback_delivered.
  - apply Hweak. by eapply unsubscribe_delivered.
  - apply Hweak. by eapply unsuback_delivered.
Qed.

(** ** Refusals are remembered *)

Lemma cells_refused {A} (x : A) p q n sz a l :
  alloc_cells x p n sz = (q, a, l) -> lg_refused p = true \/ a = NULL -> lg_refused q = true.
Proof.
  unfold alloc_cells. cbn. destruct (mp_alloc (lg_pool p) _) as [q' a']. intros [= <- <- <-]. cbn.
  intros [-> | ->]; [done|]. by rewrite orb_true_r.
Qed.

Lemma set_error_refused p m u msg w :
  set_error junk p m u msg = Some w -> lg_refused p = true -> lg_refused w.1.1 = true.
Proof.
  unfold set_error. cbv zeta. intros Hw Hp.
  set (q := match error_message _ with InBlock a _ => mp_free p a | _ => p end) in *.
  assert (lg_refused q = true) as Hq by (unfold q; by destruct (error_message _)).
  destruct (zlen msg <? _).
  - destruct (arr_blit _ _ _ _ _); cbn [mbind option_bind] in Hw; [|done].
    destruct (call _ _ u) in Hw. by injection Hw as <-.
  - destruct (alloc_cells junk q (zlen msg + 1) 1) as [[q' a] cells] eqn:E.
    pose proof (cells_refused _ _ _ _ _ _ _ E (or_introl Hq)) as Hq'.
    destruct (a =? NULL).
    + destruct (arr_blit _ _ _ _ _); cbn [mbind option_bind] in Hw; [|done].
      destruct (arr_set _ _ _); cbn [mbind option_bind] in Hw; [|done].
      destruct (call _ _ u) in Hw. by injection Hw as <-.
    + destruct (arr_blit _ _ _ _ _); cbn [mbind option_bind] in Hw; [|done].
      destruct (call _ _ u) in Hw. by injection Hw as <-.
Qed.

Lemma fail_refused p m u msg w : fail junk p m u msg = Some w -> lg_refused p = true -> lg_refused w.1.1.1 = true.
Proof.
  unfold fail. destruct (set_error _ _ _ _ _) as [w'|] eqn:E; [|done]. cbn. intros [= <-].
  by apply (set_error_refused _ _ _ _ _ E).
Qed.

Lemma stop_refused p m u msg w : stop junk p m u msg = Some w -> lg_refused p = true -> lg_refused w.1.1.1 = true.
Proof.
  unfold stop. destruct (fail _ _ _ _ _) as [[w' r]|] eqn:E; [|done]. cbn. intros [= <-].
  apply (fail_refused _ _ _ _ _ E).
Qed.

(** Cases of every test and bind on the way to a result. *)
Ltac run_cases Hw :=
  repeat (cbn [mbind option_bind] in Hw;
          match type of Hw with
          | None = Some _ => discriminate Hw
          | Some _ = Some _ => injection Hw as <-
          | context [match ?x with _ => _ end] => destruct x eqn:?
          | context [mbind _ ?x] => destruct x eqn:?
          end).

Lemma hand_refused {A} (f : callback U A) a p m u w : hand f a p m u = Some w -> w.1.1.1 = p.
Proof. unfold hand. destruct (call f a u). by intros [= <-]. Qed.

Lemma subscribe_refused p m u w :
  parse_subscribe_payload junk p m u = Some w -> lg_refused p = true -> lg_refused w.1.1.1 = true.
Proof.
  unfold parse_subscribe_payload. cbv zeta. intros Hw Hp.
  destruct (buf_len m <? 2); [by injection Hw as <-|].
  destruct (get16 _ _) as [id|]; cbn [mbind option_bind] in Hw; [|done].
  destruct (skip_props _ _ _ _) as [[off|]|]; cbn [mbind option_bind] in Hw; [|by injection Hw as <-|done].
  destruct (count_filters _ _ _ _ _) as [n|]; cbn [mbind option_bind] in Hw; [|done].
  destruct (if n =? 0 then _ else _) as [[q a] codes] eqn:E.
  assert (lg_refused q = true) as Hq.
  { destruct (n =? 0); [by injection E as <- <- <-|]. by eapply cells_refused; [exact E|left]. }
  destruct (_ && _); [by injection Hw as <-|].
  destruct (subscribe_loop _ _ _ _ _ _ _ _ _ _ _) as [[[u1 i] cs]|]; cbn [mbind option_bind] in Hw; [|done].
  destruct (call _ _ u1) as [u2 r]. injection Hw as <-. by destruct (a =? NULL).
Qed.

Lemma dispatch_refused p m u w : dispatch junk p m u = Some w -> lg_refused p = true -> lg_refused w.1.1.1 = true.
Proof.
  intros Hw Hp.
  assert (Hack : forall f, parse_ack f p m u = Some w -> lg_refused w.1.1.1 = true).
  { intros f Hf. unfold parse_ack in Hf. run_cases Hf; done. }
  unfold dispatch in Hw.
  destruct (_ =? _) in Hw.
  { unfold parse_connect_payload in Hw. cbv zeta in Hw. run_cases Hw; try done; try (by eapply fail_refused);
      by rewrite (hand_refused _ _ _ _ _ _ Hw). }
  destruct (_ =? _) in Hw; [unfold parse_connack_payload in Hw; cbv zeta in Hw; run_cases Hw; done|].
  destruct (_ =? _) in Hw; [unfold parse_publish_payload in Hw; run_cases Hw; by rewrite ?(hand_refused _ _ _ _ _ _ Hw)|].
  do 4 (destruct (_ =? _) in Hw; [by eapply Hack|]).
  destruct (_ =? _) in Hw; [by eapply subscribe_refused|].
  destruct (_ =? _) in Hw; [unfold parse_suback_payload in Hw; cbv zeta in Hw; run_cases Hw; by rewrite ?(hand_refused _ _ _ _ _ _ Hw)|].
  destruct (_ =? _) in Hw; [unfold parse_unsubscribe_payload in Hw; cbv zeta in Hw; run_cases Hw; done|].
  destruct (_ =? _) in Hw; [unfold parse_unsuback in Hw; run_cases Hw; done|].
  by eapply fail_refused.
Qed.

Lemma ensure_buf_refused p m n w :
  ensure_buf junk p m n = Some w -> lg_refused p = true -> lg_refused w.1.1 = true.
Proof.
  unfold ensure_buf. cbv zeta. intros Hw Hp. destruct (n <=? buf_cap m); [by injection Hw as <-|].
  destruct (double_cap _ _ _) as [cap|]; cbn [mbind option_bind] in Hw; [|done].
  set (c := if max_payload m <? cap then _ else _) in *. destruct (c <? n); [by injection Hw as <-|].
  destruct (alloc_cells junk p c 1) as [[q a] b] eqn:E.
  pose proof (cells_refused _ _ _ _ _ _ _ E (or_introl Hp)) as Hq. destruct (a =? NULL); [by injection Hw as <-|].
  destruct (if negb _ && _ then _ else _); cbn [mbind option_bind] in Hw; [|done].
  injection Hw as <-. by destruct (buf_at m =? NULL).
Qed.

(** The only way not to get a buffer within the limit is a refusal. *)
Lemma ensure_buf_got p m n p' m' rc :
  ensure_buf junk p m n = Some (p', m', rc) -> n <= max_payload m -> rc = 0 \/ lg_refused p' = true.
Proof.
  unfold ensure_buf. cbv zeta. intros Hw Hn. destruct (n <=? buf_cap m); [injection Hw as <- <- <-; by left|].
  destruct (double_cap _ _ _) as [cap|] eqn:Ec; cbn [mbind option_bind] in Hw; [|done].
  assert (n <= cap) as Hcap.
  { revert Ec. generalize (if 0 <? buf_cap m then buf_cap m else VOX_MQTT_PARSER_INITIAL_BUF_SIZE). generalize 64%nat.
    intros f. induction f as [|f IH]; intros c0; [done|]. cbn [double_cap]. destruct (Z.ltb_spec c0 n); [apply IH|].
    intros [= <-]. done. }
  rewrite (proj2 (Z.ltb_ge _ n)) in Hw by (destruct (Z.ltb_spec (max_payload m) cap); lia).
  destruct (alloc_cells junk p _ 1) as [[q a] b] eqn:E. destruct (Z.eqb_spec a NULL) as [->|Ha].
  - injection Hw as <- <- <-. right. eapply cells_refused; [exact E|by right].
  - destruct (if negb _ && _ then _ else _); cbn [mbind option_bind] in Hw; [|done].
    injection Hw as <- <- <-. by left.
Qed.

Lemma round_refused p m u cur c w :
  round junk p m u cur c = Some w -> lg_refused p = true -> lg_refused w.1.1.1 = true.
Proof.
  unfold round. intros Hw Hp.
  destruct (fixed_header_phase junk p m u cur c) as [[[[p1 m1] u1] f1]|] eqn:E1; [|done].
  assert (lg_refused p1 = true) as H1.
  { unfold fixed_header_phase in E1. destruct (decide _); [by injection E1 as <- <- <- <-|].
    destruct cur as [|x cur]; [by injection E1 as <- <- <- <-|]. cbv zeta in E1.
    destruct (_ || _); [apply (stop_refused _ _ _ _ _ E1 Hp)|].
    destruct (_ =? _); [apply (stop_refused _ _ _ _ _ E1 Hp)|]. by injection E1 as <- <- <- <-. }
  clear E1. cbn [then_ mbind option_bind] in Hw.
  destruct f1 as [cur1 c1|cur1 c1|r]; [|injection Hw as <-; done..].
  destruct (remaining_len_phase junk p1 m1 u1 cur1 c1) as [[[[p2 m2] u2] f2]|] eqn:E2; [|done].
  assert (lg_refused p2 = true) as H2.
  { unfold remaining_len_phase in E2. destruct (decide _); [by injection E2 as <- <- <- <-|].
    destruct (decode_remaining_length _ _) as [[| |v k]|]; cbn [mbind option_bind] in E2; [by injection E2 as <- <- <- <-| | |done].
    { apply (stop_refused _ _ _ _ _ E2 H1). }
    cbv zeta in E2. destruct (_ <? _); [apply (stop_refused _ _ _ _ _ E2 H1)|].
    destruct (_ =? 0).
    { unfold empty_packet in E2. cbv zeta in E2. do 3 (destruct (_ =? _); [by injection E2 as <- <- <- <-|]).
      apply (stop_refused _ _ _ _ _ E2 H1). }
    destruct (ensure_buf _ _ _ _) as [[[p3 m3] rc]|] eqn:E3; cbn [mbind option_bind] in E2; [|done].
    pose proof (ensure_buf_refused _ _ _ _ E3 H1) as H3.
    destruct (negb _); [apply (stop_refused _ _ _ _ _ E2 H3)|]. by injection E2 as <- <- <- <-. }
  clear E2. cbn [then_ mbind option_bind] in Hw.
  destruct f2 as [cur2 c2|cur2 c2|r]; [|injection Hw as <-; done..].
  unfold payload_phase in Hw. destruct (decide _); [by injection Hw as <-|]. cbv zeta in Hw.
  destruct (if 0 <? _ then _ else _) as [m3|]; cbn [mbind option_bind] in Hw; [|done].
  destruct (negb _); [by injection Hw as <-|].
  destruct (dispatch _ _ _ _) as [[[[p4 m4] u4] err]|] eqn:E4; cbn [mbind option_bind] in Hw; [|done].
  pose proof (dispatch_refused _ _ _ _ E4 H2) as H4. destruct (negb _); by injection Hw as <-.
Qed.

Lemma rounds_refused f p m u cur c w :
  rounds junk f p m u cur c = Some w -> lg_refused p = true -> lg_refused w.1.1.1 = true.
Proof.
  revert p m u cur c. induction f as [|f IH]; intros p m u cur c; [done|]. cbn [rounds]. intros Hw Hp.
  destruct (round _ _ _ _ _ _) as [[[[p1 m1] u1] f1]|] eqn:E; cbn [mbind option_bind] in Hw; [|done].
  pose proof (round_refused _ _ _ _ _ _ E Hp) as H1.
  destruct f1 as [cur1 c1|cur1 c1|r]; [by eapply IH|by eapply IH|by injection Hw as <-].
Qed.

(** ** One packet of a stream *)

Lemma rl_decode_at f n pre post v mult len :
  (0 < f)%nat -> 0 <= n < 128 ^ Z.of_nat f -> 0 <= v -> 0 < mult -> v + n * mult < 2 ^ 32 ->
  (f <= 4)%nat -> len = zlen (pre ++ rl_bytes f n ++ post) ->
  (forall g, (g < f)%nat -> mult * 128 ^ Z.of_nat g < 2 ^ 32) ->
  remaining_loop f (pre ++ rl_bytes f n ++ post) len (zlen pre) v mult
  = Some (Got (v + n * mult) (zlen pre + zlen (rl_bytes f n))).
Proof.
  revert n pre v mult. induction f as [|f IH]; intros n pre v mult Hf Hn Hv Hm Hb Hf4 Hlen Hg; [lia|].
  cbn [remaining_loop rl_bytes] in *. pose proof (Z.mod_pos_bound n 128 ltac:(lia)).
  pose proof (zlen_nonneg pre). pose proof (zlen_nonneg post).
  assert (mult < 2 ^ 32) as Hm32 by (specialize (Hg 0%nat); cbn in Hg; lia).
  destruct (Z.eqb_spec (n / 128) 0) as [E|E].
  - assert (n mod 128 = n) as -> by (apply Z.mod_small; dlia). cbn [app].
    rewrite !zlen_app, zlen_cons, zlen_nil in Hlen. rewrite (proj2 (Z.ltb_lt (zlen pre) len)) by lia. cbn [negb].
    rewrite arr_get_app by done. cbn [mbind option_bind]. rewrite (proj2 (Z.ltb_ge 127 n)) by dlia.
    assert (0 <= n * mult) by (apply Z.mul_nonneg_nonneg; lia). rewrite (u32_small (n * mult)), u32_small by lia. rewrite zlen_cons, zlen_nil. done.
  - rewrite Nat2Z.inj_succ, Z.pow_succ_r in Hn by lia. destruct f as [|f]; [exfalso; apply E, Z.div_small; lia|].
    rewrite !zlen_app, zlen_cons in Hlen. pose proof (zlen_nonneg (rl_bytes (S f) (n / 128))).
    rewrite (proj2 (Z.ltb_lt (zlen pre) len)) by lia. cbn [negb app].
    rewrite arr_get_app by done. cbn [mbind option_bind]. rewrite (proj2 (Z.ltb_lt 127 _)) by lia.
    assert (Z.land (n mod 128 + 128) 127 = n mod 128) as ->.
    { pose proof (land_low (n mod 128 + 128) 7) as E7. change (Z.ones 7) with 127 in E7. rewrite E7 by lia. change (2 ^ 7) with 128.
      rewrite <-(Z.mul_1_l 128) at 2. rewrite Z.mod_add by lia. by rewrite Z.mod_mod by lia. }
    assert (n = 128 * (n / 128) + n mod 128) as En by (apply Z.div_mod; lia).
    assert (0 < n / 128) by dlia.
    assert (mult * 128 < 2 ^ 32) as Hm128 by (specialize (Hg 1%nat); cbn in Hg; lia).
    assert (n * mult = 128 * (n / 128 * mult) + n mod 128 * mult) as Enm by (rewrite En at 1; ring).
    assert (1 * mult <= n / 128 * mult) by (apply Z.mul_le_mono_nonneg_r; lia).
    assert (0 <= n mod 128 * mult) by (apply Z.mul_nonneg_nonneg; lia).
    rewrite (u32_small (n mod 128 * mult)), (u32_small (v + _)), (u32_small (mult * 128)) by lia.
    replace (pre ++ (n mod 128 + 128) :: rl_bytes (S f) (n / 128) ++ post)
      with ((pre ++ [n mod 128 + 128]) ++ rl_bytes (S f) (n / 128) ++ post) by (by rewrite <-app_assoc).
    replace (zlen pre + 1) with (zlen (pre ++ [n mod 128 + 128])) by (by rewrite zlen_app).
    rewrite IH; [|lia|split; [lia|dlia]|lia|lia|lia|lia| |].
    + rewrite zlen_app, !zlen_cons, zlen_nil. do 2 f_equal; lia.
    + rewrite !zlen_app. change (zlen [_]) with 1. lia.
    + intros g Hgf. specialize (Hg (S g)). rewrite Nat2Z.inj_succ, Z.pow_succ_r in Hg by lia. specialize (Hg ltac:(lia)). lia.
Qed.

Lemma rl_decode n post :
  0 <= n <= RL_MAX ->
  decode_remaining_length (rl_bytes 4 n ++ post) (zlen (rl_bytes 4 n ++ post)) = Some (Got n (zlen (rl_bytes 4 n))).
Proof.
  unfold RL_MAX. intros Hn. unfold decode_remaining_length.
  pose proof (rl_decode_at 4 n [] post 0 1 (zlen (rl_bytes 4 n ++ post))) as E. cbn [app] in E.
  change (zlen (@nil Z)) with 0 in E. rewrite E; [do 2 f_equal; lia|lia|cbn; lia|lia|lia|lia|lia|done|].
  intros g Hg. destruct g as [|[|[|[|]]]]; cbn; lia.
Qed.

Lemma first_byte_range v5 pk : well_formed v5 pk -> 16 <= first_byte pk < 240.
Proof. destruct pk as [| |q re id t pl| | | | | | | | | | |]; cbn; try lia. intros (_ & Hq & _). destruct re; lia. Qed.

Lemma header_nibbles h : 16 <= h < 240 -> Z.land (Z.shiftr (u8 h) 4) 15 = h / 16 /\ Z.land (u8 h) 15 = h mod 16 /\ 1 <= h / 16 < 15.
Proof.
  intros Hh. rewrite u8_small by lia. pose proof (land_low (Z.shiftr h 4) 4) as E1. pose proof (land_low h 4) as E2.
  change (Z.ones 4) with 15 in E1, E2. rewrite E1, E2, Z.shiftr_div_pow2 by lia. change (2 ^ 4) with 16.
  split_and!; [apply Z.mod_small; dlia|done|dlia|dlia].
Qed.

Lemma empty_body v5 pk : body_bytes v5 pk = [] -> pk = PPingreq \/ pk = PPingresp \/ pk = PDisconnect.
Proof.
  destruct pk; intros E; auto; exfalso; discriminate E.
Qed.

(** What one round makes of a packet at the front of the input. *)
Definition packet_post (v5 : bool) (pk : packet) m u (rest : list Z) (c : Z) (w : world (P := P) (U := U) * flow) : Prop :=
  let '(p', m', u', f) := w in
  lg_refused p' = true \/
  (cb m' = cb m /\ max_payload m' = max_payload m /\ (protocol_version m' =? 5) = v5 /\
   u' = (deliver (cb m) v5 pk u).1 /\
   f = if (deliver (cb m) v5 pk u).2 =? 0 then Again rest (c + zlen (packet_bytes v5 pk)) else Return (-1)).

Lemma gather_packet m (bs rest : list Z) :
  zlen bs <= zlen (buf m) -> 0 < zlen bs -> buf_len m = 0 -> need m = zlen bs ->
  exists tl, gather m (bs ++ rest) (zlen bs) = Some (with_fill m (bs ++ tl) (zlen bs) 0).
Proof.
  intros Hb Hp Hl Hn. unfold gather. rewrite (proj2 (Z.ltb_lt 0 (zlen bs))) by done.
  exists (drop (Z.to_nat (zlen bs)) (buf m)). rewrite Hl, Hn.
  rewrite <-(take_drop (Z.to_nat (zlen bs)) (buf m)) at 1.
  change (take (Z.to_nat (zlen bs)) (buf m) ++ ?l) with ([] ++ take (Z.to_nat (zlen bs)) (buf m) ++ l).
  rewrite arr_blit_app0 by (done || (rewrite zlen_take; lia)). cbn [mbind option_bind app].
  by rewrite Z.sub_diag.
Qed.

(** The three phases on a packet. *)
Definition after_header m (h : Z) : vox_mqtt_parser U :=
  with_remaining (with_state (with_header m (h / 16) (h mod 16)) VOX_MQTT_STATE_REMAINING_LEN) (remaining_len m) 0.

Lemma header_at p m u h cur c :
  state m = VOX_MQTT_STATE_FIXED_HEADER -> 16 <= h < 240 ->
  fixed_header_phase junk p m u (u8 h :: cur) c = Some (p, after_header m h, u, Next cur (c + 1)).
Proof.
  intros Hs Hh. destruct (header_nibbles h Hh) as (E1 & E2 & E3).
  unfold fixed_header_phase. rewrite decide_False by (rewrite Hs; tauto). cbv zeta. rewrite E1, E2.
  cbn [type_ with_header]. unfold VOX_MQTT_PKT_AUTH.
  by rewrite (proj2 (Z.ltb_ge _ 1)), (proj2 (Z.ltb_ge 15 _)), (proj2 (Z.eqb_neq _ 15)) by lia.
Qed.

Lemma after_header_ok p0 p m h : parser_ok p0 p m -> 16 <= h < 240 -> state m = VOX_MQTT_STATE_FIXED_HEADER -> parser_ok p0 p (after_header m h).
Proof.
  intros Hm Hh Hs. pose proof (po_header _ _ _ Hm) as (_ & _ & Hr).
  assert (0 <= h / 16 <= 15 /\ 0 <= h mod 16 <= 15) as [? ?] by (split; dlia).
  apply ok_with_remaining; [apply ok_with_state; [|by right]|done|done].
  destruct Hm. by constructor.
Qed.

Definition after_length m (n : Z) : vox_mqtt_parser U := with_fill (with_remaining m n (remaining_mult m)) (buf m) 0 n.

Lemma length_at p m u n rest c :
  state m = VOX_MQTT_STATE_REMAINING_LEN -> 0 <= n <= RL_MAX -> n <= max_payload m ->
  remaining_len_phase junk p m u (rl_bytes 4 n ++ rest) c =
    if n =? 0 then empty_packet junk p (after_length m n) u rest (c + zlen (rl_bytes 4 n)) else
    '(p, m, rc) ← ensure_buf junk p (after_length m n) n;
    if negb (rc =? 0) then stop junk p m u "alloc failed" else
    Some (p, with_state m VOX_MQTT_STATE_VARHEADER_PAYLOAD, u, Next rest (c + zlen (rl_bytes 4 n))).
Proof.
  intros Hs Hn Hmax. unfold remaining_len_phase. rewrite decide_False by (rewrite Hs; tauto).
  rewrite rl_decode by done. cbn [mbind option_bind]. cbv zeta. cbn [max_payload remaining_len with_remaining].
  rewrite (proj2 (Z.ltb_ge (max_payload m) n)) by done.
  pose proof (zlen_nonneg (rl_bytes 4 n)). rewrite drop_app_z by lia.
  replace (drop (Z.to_nat (zlen (rl_bytes 4 n))) (rl_bytes 4 n)) with ([] : list Z)
    by (unfold zlen; by rewrite Nat2Z.id, drop_all).
  done.
Qed.

Lemma payload_at v5 pk p m u rest c :
  state m = VOX_MQTT_STATE_VARHEADER_PAYLOAD -> buf_len m = 0 -> need m = zlen (body_bytes v5 pk) ->
  0 < zlen (body_bytes v5 pk) <= zlen (buf m) -> flags m = first_byte pk mod 16 -> type_ m = first_byte pk / 16 ->
  agrees v5 pk m -> well_formed v5 pk ->
  ok (payload_phase junk p m u (body_bytes v5 pk ++ rest) c) (fun '(p', m', u', f) =>
    lg_refused p' = true \/
    (cb m' = cb m /\ max_payload m' = max_payload m /\ (protocol_version m' =? 5) = v5 /\
     u' = (deliver (cb m) v5 pk u).1 /\
     f = if (deliver (cb m) v5 pk u).2 =? 0 then Again rest (c + zlen (body_bytes v5 pk)) else Return (-1))).
Proof.
  intros Hs Hl Hn Hb Hf Ht Ha Hw. unfold payload_phase. rewrite decide_False by (rewrite Hs; tauto). cbv zeta.
  rewrite zlen_app, Hn. pose proof (zlen_nonneg rest).
  replace (if zlen (body_bytes v5 pk) <? zlen (body_bytes v5 pk) + zlen rest then zlen (body_bytes v5 pk)
           else zlen (body_bytes v5 pk) + zlen rest) with (zlen (body_bytes v5 pk))
    by (destruct (Z.ltb_spec (zlen (body_bytes v5 pk)) (zlen (body_bytes v5 pk) + zlen rest)); lia).
  destruct (gather_packet m (body_bytes v5 pk) rest) as [tl Eg]; [lia|lia|done|done|].
  unfold gather in Eg. rewrite Hn in Eg. rewrite Eg. cbn [mbind option_bind need with_fill Z.eqb negb].
  rewrite drop_app_z by lia. replace (drop (Z.to_nat (zlen (body_bytes v5 pk))) (body_bytes v5 pk)) with ([] : list Z)
    by (unfold zlen; by rewrite Nat2Z.id, drop_all).
  cbn [app]. set (m7 := with_fill m _ _ 0).
  assert (loaded v5 pk m7 tl) as Hld by (split; [done|done|done|by destruct pk|done]).
  assert (body_bytes v5 pk <> []) as Hne by (intros E; rewrite E in Hb; change (zlen []) with 0 in Hb; lia).
  eapply ok_bind; [exact (dispatch_packet v5 pk tl p m7 u Hld Ht Hne)|].
  intros [[[p8 m8] u8] err] [Href|Hd].
  - cbn in Href. destruct (negb _); by left.
  - unfold delivered in Hd. change (cb m7) with (cb m) in Hd. destruct Hd as (Hcb8 & Hmp8 & Hv8 & -> & Herr).
    rewrite Herr.
    destruct ((deliver (cb m) v5 pk u).2 =? 0); cbn [negb ok]; right; by split_and!.
Qed.

Lemma packet_bytes_app v5 pk (rest : list Z) :
  packet_bytes v5 pk ++ rest =
    u8 (first_byte pk) :: (rl_bytes 4 (zlen (body_bytes v5 pk)) ++ (body_bytes v5 pk ++ rest)).
Proof. unfold packet_bytes, framed. by rewrite <-app_comm_cons, <-app_assoc. Qed.

(** The length of a packet without a body, and of one with a body, at a parser that has read
    the first byte. *)
Lemma empty_round v5 pk p m u rest c :
  state m = VOX_MQTT_STATE_REMAINING_LEN -> 0 <= max_payload m -> body_bytes v5 pk = [] ->
  type_ m = first_byte pk / 16 -> (protocol_version m =? 5) = v5 ->
  ok (then_ (remaining_len_phase junk p m u (rl_bytes 4 0 ++ rest) (c + 1)) (payload_phase junk))
     (packet_post v5 pk m u rest c).
Proof.
  intros Hs Hmax Hnil Ht Hv. pose proof (empty_body v5 pk Hnil) as Hpk.
  rewrite length_at by (done || (unfold RL_MAX; lia)). rewrite Z.eqb_refl.
  assert (c + 1 + zlen (rl_bytes 4 0) = c + zlen (packet_bytes v5 pk)) as ->.
  { unfold packet_bytes. rewrite zlen_framed, Hnil. change (zlen []) with 0. lia. }
  unfold packet_post, empty_packet. generalize (c + zlen (packet_bytes v5 pk)). intros n.
  change (type_ (after_length m 0)) with (type_ m). change (cb (after_length m 0)) with (cb m). rewrite Ht.
  destruct Hpk as [-> | [-> | ->]]; cbn; by right.
Qed.

Lemma full_round v5 pk p0 p m u rest c :
  parser_ok p0 p m -> state m = VOX_MQTT_STATE_REMAINING_LEN -> well_formed v5 pk -> agrees v5 pk m ->
  0 < zlen (body_bytes v5 pk) <= max_payload m ->
  flags m = first_byte pk mod 16 -> type_ m = first_byte pk / 16 ->
  ok (then_ (remaining_len_phase junk p m u (rl_bytes 4 (zlen (body_bytes v5 pk)) ++ (body_bytes v5 pk ++ rest)) (c + 1))
        (payload_phase junk))
     (packet_post v5 pk m u rest c).
Proof.
  intros Hm Hs Hw Ha Hn Hf Ht. pose proof (proj1 Hw) as Hrl. remember (zlen (body_bytes v5 pk)) as n eqn:En.
  assert (c + zlen (packet_bytes v5 pk) = c + 1 + zlen (rl_bytes 4 n) + n) as Hc
    by (unfold packet_bytes; rewrite zlen_framed, <-En; lia).
  unfold RL_MAX in Hrl.
  assert (parser_ok p0 p (after_length m n)) as Hm2.
  { apply ok_with_fill; [|done|by cbn; rewrite Hs]. apply ok_with_remaining; [done|lia|by rewrite Hs]. }
  rewrite length_at by (done || (unfold RL_MAX; lia)). rewrite (proj2 (Z.eqb_neq n 0)) by lia.
  destruct (ok_Some _ _ (ensure_buf_ok junk p0 p _ n Hm2 ltac:(lia) (proj2 Hn) eq_refl Hs))
    as ([[p5 m5] rc] & Ee & Hm5 & Hcap & Em5).
  rewrite Ee. cbn [mbind option_bind].
  destruct (Z.eqb_spec rc 0) as [->|Hrc]; cbn [negb].
  2: { destruct (ensure_buf_got _ _ _ _ _ _ Ee (proj2 Hn)) as [?|Href]; [done|].
       destruct (ok_Some _ _ (parse_stop_ok junk p0 p5 m5 u "alloc failed" Hm5 ltac:(done))) as ([[[p6 m6] u6] f6] & Ew & _ & ->).
       rewrite Ew. left. apply (stop_refused _ _ _ _ _ Ew Href). }
  specialize (Hcap eq_refl). cbn [then_ mbind option_bind].
  assert (agrees v5 pk (with_state m5 VOX_MQTT_STATE_VARHEADER_PAYLOAD)) as Ha5 by (rewrite Em5; by destruct pk).
  assert (0 < n <= zlen (buf m5)) as Hn5 by (pose proof (po_buf _ _ _ Hm5) as Hb5; lia). rewrite En in Hn5.
  assert (buf_len m5 = 0 /\ need m5 = zlen (body_bytes v5 pk) /\ flags m5 = first_byte pk mod 16 /\ type_ m5 = first_byte pk / 16) as (El5 & En5 & Ef5 & Et5)
    by (rewrite Em5, <-En; done).
  eapply ok_mono.
  - exact (payload_at v5 pk p5 (with_state m5 VOX_MQTT_STATE_VARHEADER_PAYLOAD) u rest _ eq_refl El5 En5 Hn5 Ef5 Et5 Ha5 Hw).
  - intros [[[p8 m8] u8] f8]. cbn [cb max_payload with_state]. rewrite Em5. cbn [cb max_payload with_block after_length with_fill with_remaining with_state with_header].
    intros [?|(? & ? & ? & ? & ->)]; [by left|]. right. split_and!; try done.
    replace (c + 1 + zlen (rl_bytes 4 n) + zlen (body_bytes v5 pk)) with (c + zlen (packet_bytes v5 pk)) by lia. done.
Qed.

Lemma round_packet v5 pk p0 p m u rest c :
  parser_ok p0 p m -> state m = VOX_MQTT_STATE_FIXED_HEADER -> well_formed v5 pk -> agrees v5 pk m ->
  zlen (body_bytes v5 pk) <= max_payload m ->
  ok (round junk p m u (packet_bytes v5 pk ++ rest) c) (packet_post v5 pk m u rest c).
Proof.
  intros Hm Hs Hw Ha Hmax. pose proof (first_byte_range v5 pk Hw) as Hfb.
  pose proof (zlen_nonneg (body_bytes v5 pk)) as H0l.
  pose proof (after_header_ok p0 p m (first_byte pk) Hm Hfb Hs) as Hm1.
  unfold round. rewrite packet_bytes_app, header_at by done. cbn [then_ mbind option_bind].
  assert (agrees v5 pk (after_header m (first_byte pk))) as Ha1 by (by destruct pk).
  change (packet_post v5 pk m) with (packet_post v5 pk (after_header m (first_byte pk))).
  destruct (Z.eq_dec (zlen (body_bytes v5 pk)) 0) as [Hz|Hz].
  - rewrite Hz. apply zlen_0_inv in Hz as Hnil. rewrite Hnil. apply empty_round; try done; [cbn; lia|].
    pose proof (empty_body v5 pk Hnil) as Hpk. by destruct Hpk as [-> | [-> | ->]].
  - apply (full_round v5 pk p0); try done. cbn. lia.
Qed.

(** ** A stream of packets *)

(** All packets of a stream, up to the first whose callback answers an error. *)
Fixpoint deliver_all (c : vox_mqtt_parser_callbacks_t U) (v5 : bool) (pks : list packet) (u : U) : U * Z :=
  match pks with
  | [] => (u, 0)
  | pk :: pks =>
      let '(u, rc) := deliver c v5 pk u in
      if rc =? 0 then deliver_all c v5 pks u else (u, rc)
  end.

Definition stream (v5 : bool) (pks : list packet) : list Z := concat (packet_bytes v5 <$> pks).

(** The parser knows the version, or the stream starts with the CONNECT that says it. *)
Definition starts (v5 : bool) (pks : list packet) m : Prop :=
  match pks with pk :: _ => agrees v5 pk m | [] => True end.

Lemma rounds_stream v5 pks fuel p0 p m u c :
  parser_ok p0 p m -> state m = VOX_MQTT_STATE_FIXED_HEADER -> enough fuel m (stream v5 pks) ->
  Forall (well_formed v5) pks -> Forall (fun pk => zlen (body_bytes v5 pk) <= max_payload m) pks -> starts v5 pks m ->
  ok (rounds junk fuel p m u (stream v5 pks) c) (fun '(p', m', u', r) =>
    lg_refused p' = true \/
    (u' = (deliver_all (cb m) v5 pks u).1 /\
     r = if (deliver_all (cb m) v5 pks u).2 =? 0 then c + zlen (stream v5 pks) else -1)).
Proof.
  intros Hm Hs Hf Hw Hmax Ha. revert fuel p m u c Hm Hs Hf Hmax Ha.
  induction Hw as [|pk pks Hpk Hw IH]; intros fuel p m u c Hm Hs Hf Hmax Ha;
    destruct (enough_pos fuel m _ Hf) as [fuel' ->].
  { cbn [rounds]. unfold round, fixed_header_phase. rewrite Hs. cbn. right.
    split; [done|]. change (zlen []) with 0. lia. }
  apply Forall_cons in Hmax as [Hmax1 Hmax].
  change (stream v5 (pk :: pks)) with (packet_bytes v5 pk ++ stream v5 pks) in *.
  pose proof (round_packet v5 pk p0 p m u (stream v5 pks) c Hm Hs Hpk Ha Hmax1) as Hr.
  pose proof (round_ok junk p0 p m u (packet_bytes v5 pk ++ stream v5 pks) c Hm ltac:(by rewrite Hs)) as Hok.
  cbn [rounds deliver_all].
  destruct (round junk p m u _ c) as [[[[p1 m1] u1] f1]|]; [|done]. cbn [mbind option_bind].
  destruct Hok as [[Hm1 _] Hg].
  destruct Hr as [Href|(Hcb & Hmp & Hv & -> & ->)].
  - destruct f1 as [cur1 c1|cur1 c1|r]; [done| |by left].
    destruct Hg as (Hs1 & Hle & Hlt). rewrite <-(app_nil_r (_ ++ _)) in Hf.
    pose proof (enough_round _ _ _ _ cur1 [] Hs1 Hle Hlt Hf) as Hf1. rewrite app_nil_r in Hf1.
    destruct (ok_Some _ _ (rounds_ok junk fuel' p0 p1 m1 u1 cur1 c1 Hm1 ltac:(by rewrite Hs1) Hf1)) as ([[[p2 m2] u2] r] & E & _).
    rewrite E. left. exact (rounds_refused _ _ _ _ _ _ _ E Href).
  - rewrite <-Hcb. rewrite <-Hcb in Hg. destruct (deliver (cb m1) v5 pk u) as [u1 rc]. cbn [fst snd] in *.
    destruct (Z.eqb_spec rc 0) as [Hz|Hrc].
    2: { right. cbn [fst snd]. by rewrite (proj2 (Z.eqb_neq rc 0)). }
    destruct Hg as (Hs1 & Hle & Hlt). rewrite <-(app_nil_r (_ ++ _)) in Hf.
    pose proof (enough_round _ _ _ _ _ [] Hs1 Hle Hlt Hf) as Hf1. rewrite app_nil_r in Hf1.
    eapply ok_mono; [apply IH; try done|].
    + by rewrite Hmp.
    + destruct pks as [|pk2 pks]; [done|]. cbn [starts]. by destruct pk2.
    + intros [[[p2 m2] u2] r] [?|[-> ->]]; [by left|]. right. split; [done|].
      rewrite zlen_app. destruct (_ =? 0); lia.
Qed.

(** Feeding the stream in whatever reads. *)
Lemma feed_stream v5 pks p0 p m u reads :
  parser_ok p0 p m -> state m = VOX_MQTT_STATE_FIXED_HEADER -> concat reads = stream v5 pks ->
  Forall (well_formed v5) pks -> Forall (fun pk => zlen (body_bytes v5 pk) <= max_payload m) pks -> starts v5 pks m ->
  ok (feed_all junk p m u [] reads) (fun '(p', m', u', kept) =>
    lg_refused p' = true \/
    (u' = (deliver_all (cb m) v5 pks u).1 /\
        kept = if (deliver_all (cb m) v5 pks u).2 =? 0 then Some [] else None)).
Proof.
  intros Hm Hs Hc Hw Hmax Ha.
  destruct (feed_all_ok junk p0 p m u [] reads Hm) as ([[p' m'] u'] & r & E & ->); [by rewrite Hs| |].
  { unfold vox_mqtt_parser_execute, rounds, round, fixed_header_phase. by rewrite Hs. }
  cbn [app] in *. rewrite Hc in *. unfold vox_mqtt_parser_execute in E. rewrite decide_False in E by (by rewrite Hs).
  pose proof (rounds_stream v5 pks _ p0 p m u 0 Hm Hs (execute_enough m _) Hw Hmax Ha) as Hr.
  rewrite E in Hr. destruct Hr as [?|[-> ->]]; [by left|]. right. split; [done|].
  pose proof (zlen_nonneg (stream v5 pks)). rewrite Z.add_0_l.
  destruct (_ =? 0); [|done]. rewrite (proj2 (Z.ltb_ge _ 0)) by done. f_equal. unfold zlen. by rewrite Nat2Z.id, drop_all.
Qed.

(** C27: What the MQTT encoders write is what the MQTT parser reads. For packets with arguments
    in the range of their types and a body that fits the packet format - every encoder of
    versions 3.1.1 and 5 but vox_mqtt_encode_disconnect_v5, whose packet the parser rejects
    (disconnect_v5_back), and no version 5 CONNECT with a will (connect_v5_will_back) - each
    encoder fills a buffer that is large enough with exactly the bytes of the packet and leaves
    one that is too small alone, returning the size needed either way (the header says 0 for a
    small buffer). The packets one after the other, none with a body above the parser's
    maximum, cut into reads anywhere, make the parser, when it is between two packets and knows
    the version or reads it from a CONNECT at the front, call the callbacks of the packets, in
    order and with the fields given, until one answers an error, and consume everything when
    none does -- unless the pool refuses a block on the way. The retain flag is the exception:
    the callback sees 0. *)
Theorem mqtt_roundtrip v5 pks p0 p m u :
  parser_ok p0 p m -> state m = VOX_MQTT_STATE_FIXED_HEADER -> Forall (well_formed v5) pks ->
  Forall (fun pk => zlen (body_bytes v5 pk) <= max_payload m) pks -> starts v5 pks m ->
  exists bss, Forall2 (fun pk bs => encodes (encode v5 pk) bs) pks bss /\
    forall reads, concat reads = concat bss ->
    exists p' m' u' kept, feed_all junk p m u [] reads = Some (p', m', u', kept) /\
        (lg_refused p' = true \/
       (u' = (deliver_all (cb m) v5 pks u).1 /\
        kept = if (deliver_all (cb m) v5 pks u).2 =? 0 then Some [] else None)).
Proof.
  intros Hm Hs Hw Hmax Ha. exists (packet_bytes v5 <$> pks). split.
  - apply Forall2_fmap_r, Forall_Forall2_diag. eapply Forall_impl; [exact Hw|]. intros pk. apply encode_ok.
  - intros reads Hr. destruct (ok_Some _ _ (feed_stream v5 pks p0 p m u reads Hm Hs Hr Hw Hmax Ha))
      as ([[[p' m'] u'] kept] & E & Hp). by exists p', m', u', kept.
Qed.
End reading.


(** ** Concrete runs *)

(** The callbacks record the client ids and the topics. *)
Definition record_names : vox_mqtt_parser_callbacks_t (list (list Z)) :=
  {| on_connect := Some (fun info u => (u ++ [ci_client_id info], 0)); on_connack := None;
     on_publish := Some (fun info u => (u ++ [pi_topic info], 0));
     on_puback := None; on_pubrec := None; on_pubrel := None; on_pubcomp := None; on_subscribe := None;
     on_subscribe_done := None; on_suback := None; on_unsubscribe := None; on_unsuback := None;
     on_pingreq := None; on_pingresp := None; on_disconnect := None; on_error := None |}.

Definition session : list packet :=
  [PConnect [99; 49] 60 true None [] 0 false (Some [117]) None 3600 0;
   PPublish 1 true 7 [97; 47; 98] [1; 2; 3]; PPingreq; PDisconnect].

Lemma mqtt_roundtrip_witness :
  exists p1 m, vox_mqtt_parser_create 0 (Logged (bump_new 4096) false) None record_names = (p1, Some m) /\
  (exists bss, Forall2 (fun pk bs => encodes (encode true pk) bs) session bss /\
    forall reads, concat reads = concat bss ->
    exists p' m' u' kept, feed_all 0 p1 m [] [] reads = Some (p', m', u', kept) /\
      (lg_refused p' = true \/
       (u' = (deliver_all (cb m) true session []).1 /\
        kept = if (deliver_all (cb m) true session []).2 =? 0 then Some [] else None))) /\
  (deliver_all (cb m) true session []).1 = [[99; 49]; [97; 47; 98]].
Proof.
  eexists _, _. split; [reflexivity|]. split; [|reflexivity].
  apply (mqtt_roundtrip 0 true session (Logged (bump_new 4096) false)); [|reflexivity| | |exact I].
  - exact (proj1 (mqtt_create_ok 0 (Logged (bump_new 4096) false) None record_names (bump_new_inv 4096 ltac:(lia)) I)).
  - unfold session. repeat (apply List.Forall_cons; [by repeat split|]). constructor.
  - unfold session. repeat (apply List.Forall_cons; [done|]). constructor.
Defined.

(** What a parser makes of the bytes an encoder writes into a buffer of 64: the recorded
    names, and the bytes consumed or -1. *)
Definition parse_back (enc : option (list Z) -> Z -> option (option (list Z) * Z)) : option (list (list Z) * Z) :=
  '(b, n) ← enc (Some (replicate 64 0)) 64;
  match b, vox_mqtt_parser_create 0 (bump_new 4096) None record_names with
  | Some b, (p1, Some m) =>
      '(_, _, u, r) ← vox_mqtt_parser_execute 0 p1 m [] (take (Z.to_nat n) b); Some (u, r)
  | _, _ => None
  end.

Example publish_back : parse_back (fun b N => vox_mqtt_encode_publish b N 1 true 7 [97] [1; 2]) = Some ([[97]], 9).
Proof. reflexivity. Qed.

(** The parser has no version 5 DISCONNECT with a reason code, which an encoder writes. *)
Example disconnect_v5_back : parse_back (fun b N => vox_mqtt_encode_disconnect_v5 b N 4) = Some ([], -1).
Proof. reflexivity. Qed.

(** A version 5 CONNECT with a will lacks the length of the properties of the will. *)
Example connect_v5_will_back :
  parse_back (fun b N => vox_mqtt_encode_connect_v5 b N [99] 60 true (Some [119]) [120] 0 false None None 0 0)
  = Some ([], -1).
Proof. reflexivity. Qed.

(** Without a buffer but with a size, CONNECT writes to address zero and the others do not. *)
Example connect_null : vox_mqtt_encode_connect None 100 [99] 60 true None [] 0 false None None = None.
Proof. reflexivity. Qed.
Example puback_null : vox_mqtt_encode_puback None 100 7 = Some (None, 4).
Proof. reflexivity. Qed.
End MqttEnc.
