(* ===== verification/Scanner.v ===== *)
(** * vox_scanner.c: scanning a text without copying it

    The character sets and the scanner of src/vox_scanner.c. A scanner is three pointers
    into a text of somebody else; memory is a partial function from addresses to bytes, so
    that a read outside the text shows as [None]. Every operation is proved to do on the
    pointers what its specification does on the text before and after the current position. *)

From Stdlib Require Import String Ascii.
From S2P Require Import Prelude Alloc CString.

Module Scanner.
Import CString.

(** ** Character sets *)

(** src/vox_scanner.h:25-27: vox_charset_t *)
Definition vox_charset : Type := list Z.

(** src/vox_scanner.c: vox_charset_init *)
Definition vox_charset_init : vox_charset := replicate 32 0.

(** src/vox_scanner.c: set_bit *)
Definition set_bit (bitmap : vox_charset) (bit : Z) : option vox_charset :=
  b ← bitmap.[bit / 8];
  bitmap.[bit / 8 <- u8 (Z.lor b (Z.shiftl 1 (bit mod 8)))].

(** src/vox_scanner.c: get_bit *)
Definition get_bit (bitmap : vox_charset) (bit : Z) : option bool :=
  b ← bitmap.[bit / 8];
  Some (negb (Z.land b (Z.shiftl 1 (bit mod 8)) =? 0)).

(** A [char] is given as the byte it is converted to.

    src/vox_scanner.c: vox_charset_add_char *)
Definition vox_charset_add_char (cs : vox_charset) (ch : Z) : option vox_charset := set_bit cs ch.

(** The loop; its counter is an [unsigned char]. *)
Fixpoint range_loop (fuel : nat) (cs : vox_charset) (ch e : Z) : option vox_charset :=
  match fuel with
  | O => None
  | S fuel => if ch <=? e then cs ← set_bit cs ch; range_loop fuel cs (u8 (ch + 1)) e else Some cs
  end.

(** src/vox_scanner.c: vox_charset_add_range *)
Definition vox_charset_add_range (cs : vox_charset) (start end_ : Z) : option vox_charset :=
  let '(s, e) := if end_ <? start then (end_, start) else (start, end_) in
  range_loop 257 cs s e.

(** src/vox_scanner.c: vox_charset_add_alpha *)
Definition vox_charset_add_alpha (cs : vox_charset) : option vox_charset :=
  cs ← vox_charset_add_range cs 97 122; vox_charset_add_range cs 65 90.

(** src/vox_scanner.c: vox_charset_add_digit *)
Definition vox_charset_add_digit (cs : vox_charset) : option vox_charset := vox_charset_add_range cs 48 57.

(** src/vox_scanner.c: vox_charset_add_alnum *)
Definition vox_charset_add_alnum (cs : vox_charset) : option vox_charset :=
  cs ← vox_charset_add_alpha cs; vox_charset_add_digit cs.

(** src/vox_scanner.c: vox_charset_add_space *)
Definition vox_charset_add_space (cs : vox_charset) : option vox_charset :=
  cs ← vox_charset_add_char cs 32; cs ← vox_charset_add_char cs 9; cs ← vox_charset_add_char cs 10;
  cs ← vox_charset_add_char cs 13; cs ← vox_charset_add_char cs 11; vox_charset_add_char cs 12.

(** src/vox_scanner.c: vox_charset_contains *)
Definition vox_charset_contains (cs : vox_charset) (ch : Z) : option bool := get_bit cs ch.

(** ** The scanner *)

Definition VOX_SCANNER_AUTOSKIP_WS : Z := 1.
Definition VOX_SCANNER_AUTOSKIP_NEWLINE : Z := 2.

(** src/vox_scanner.h:109-114: vox_scanner_t *)
Record vox_scanner := Scanner { begin : Z; end_ : Z; curptr : Z; flags : Z }.

(** A piece of the text: its address and its length. *)
Record view := View { v_ptr : Z; v_len : Z }.

Definition with_cur (sc : vox_scanner) (p : Z) : vox_scanner := Scanner (begin sc) (end_ sc) p (flags sc).

(** src/vox_scanner.c: is_whitespace *)
Definition is_whitespace (ch : Z) : bool :=
  (ch =? 32) || (ch =? 9) || (ch =? 10) || (ch =? 13) || (ch =? 11) || (ch =? 12).

(** src/vox_scanner.c: is_newline *)
Definition is_newline (ch : Z) : bool := (ch =? 10) || (ch =? 13).

Section memory.
Context (mem : Z -> option Z).

(** [while (p < e && f( *p)) p++] *)
Fixpoint while_ (fuel : nat) (f : Z -> option bool) (p e : Z) : option Z :=
  match fuel with
  | O => None
  | S fuel =>
      if p <? e then
        ch ← mem p; b ← f ch;
        if (b : bool) then while_ fuel f (p + 1) e else Some p
      else Some p
  end.
Definition run_while (f : Z -> option bool) (p e : Z) : option Z := while_ (S (Z.to_nat (e - p))) f p e.

(** src/vox_scanner.c: auto_skip *)
Definition auto_skip (sc : vox_scanner) : option vox_scanner :=
  let skip_ws := negb (Z.land (flags sc) VOX_SCANNER_AUTOSKIP_WS =? 0) in
  let skip_nl := negb (Z.land (flags sc) VOX_SCANNER_AUTOSKIP_NEWLINE =? 0) in
  if negb skip_ws && negb skip_nl then Some sc else
  let should_skip ch :=
    if skip_ws && is_whitespace ch then true
    else if skip_nl && negb skip_ws && is_newline ch then true else false in
  p ← run_while (fun ch => Some (should_skip ch)) (curptr sc) (end_ sc);
  Some (with_cur sc p).

(** [None] in the result: -1.

    src/vox_scanner.c: vox_scanner_init *)
Definition vox_scanner_init (buf len flags : Z) : option (option vox_scanner) :=
  if buf =? NULL then Some None else
  bad ← (if 0 <? len then ch ← mem (buf + len); Some (negb (ch =? 0)) else Some false);
  if (bad : bool) then Some None else
  sc ← auto_skip (Scanner buf (buf + len) buf flags);
  Some (Some sc).

(** src/vox_scanner.c: vox_scanner_destroy *)
Definition vox_scanner_destroy : vox_scanner := Scanner NULL NULL NULL 0.

(** src/vox_scanner.c: vox_scanner_curptr *)
Definition vox_scanner_curptr (sc : vox_scanner) : Z := curptr sc.

(** src/vox_scanner.c: vox_scanner_offset *)
Definition vox_scanner_offset (sc : vox_scanner) : Z :=
  if begin sc =? NULL then 0 else u64 (curptr sc - begin sc).

(** src/vox_scanner.c: vox_scanner_remaining *)
Definition vox_scanner_remaining (sc : vox_scanner) : Z :=
  if end_ sc <=? curptr sc then 0 else u64 (end_ sc - curptr sc).

(** src/vox_scanner.c: vox_scanner_eof *)
Definition vox_scanner_eof (sc : vox_scanner) : bool :=
  if (begin sc =? NULL) || (end_ sc =? NULL) then true else end_ sc <=? curptr sc.

(** src/vox_scanner.c: vox_scanner_peek_char *)
Definition vox_scanner_peek_char (sc : vox_scanner) : option Z :=
  if end_ sc <=? curptr sc then Some (-1) else mem (curptr sc).

(** src/vox_scanner.c: vox_scanner_peek_char_at *)
Definition vox_scanner_peek_char_at (sc : vox_scanner) (offset : Z) : option Z :=
  let ptr := u64 (curptr sc + offset) in
  if end_ sc <=? ptr then Some (-1) else mem ptr.

(** src/vox_scanner.c: vox_scanner_peek *)
Definition vox_scanner_peek (sc : vox_scanner) (len : Z) : view :=
  let len := if end_ sc <? u64 (curptr sc + len) then u64 (end_ sc - curptr sc) else len in
  View (curptr sc) len.

(** [if (include_match && ptr < end) ptr++], and the view up to [ptr]. *)
Definition view_until (sc : vox_scanner) (include_match : bool) (ptr : Z) : view :=
  let ptr := if include_match && (ptr <? end_ sc) then ptr + 1 else ptr in
  View (curptr sc) (u64 (ptr - curptr sc)).

(** src/vox_scanner.c: vox_scanner_peek_until_charset *)
Definition vox_scanner_peek_until_charset (sc : vox_scanner) (charset : option vox_charset) (include_match : bool)
  : option view :=
  ptr ← match charset with
        | Some cs => run_while (fun ch => b ← vox_charset_contains cs ch; Some (negb b)) (curptr sc) (end_ sc)
        | None => Some (end_ sc)
        end;
  Some (view_until sc include_match ptr).

(** src/vox_scanner.c: vox_scanner_peek_until_char *)
Definition vox_scanner_peek_until_char (sc : vox_scanner) (ch : Z) (include_match : bool) : option view :=
  ptr ← run_while (fun c => Some (negb (c =? ch))) (curptr sc) (end_ sc);
  Some (view_until sc include_match ptr).

(** The [n] bytes at [p], as [memcmp] reads them. *)
Fixpoint load (p : Z) (n : nat) : option (list Z) :=
  match n with O => Some [] | S n => ch ← mem p; l ← load (p + 1) n; Some (ch :: l) end.

(** The search; [None] in the result: not found. *)
Fixpoint find_str (fuel : nat) (str : list Z) (ptr search_end : Z) : option (option Z) :=
  match fuel with
  | O => None
  | S fuel =>
      if ptr <? search_end then
        l ← load ptr (length str);
        if bool_decide (l = str) then Some (Some ptr) else find_str fuel str (ptr + 1) search_end
      else Some None
  end.

(** [str] is the text in front of the terminator.

    src/vox_scanner.c: vox_scanner_peek_until_str *)
Definition vox_scanner_peek_until_str (sc : vox_scanner) (str : list Z) (include_match : bool) : option view :=
  let start := curptr sc in
  let str_len := zlen str in
  if str_len =? 0 then Some (View start 0) else
  let search_end := u64 (end_ sc - str_len + 1) in
  r ← find_str (S (Z.to_nat (search_end - start))) str start search_end;
  match r with
  | Some ptr =>
      let ptr := if include_match then ptr + str_len else ptr in
      Some (View start (u64 (ptr - start)))
  | None => Some (View start (u64 (end_ sc - start)))
  end.

(** src/vox_scanner.c: vox_scanner_get_char *)
Definition vox_scanner_get_char (sc : vox_scanner) : option (vox_scanner * Z) :=
  if end_ sc <=? curptr sc then Some (sc, -1) else
  ch ← mem (curptr sc);
  sc ← auto_skip (with_cur sc (curptr sc + 1));
  Some (sc, ch).

(** [scanner->curptr += out->len; auto_skip(scanner)] *)
Definition advance (sc : vox_scanner) (out : view) : option (vox_scanner * view) :=
  sc ← auto_skip (with_cur sc (u64 (curptr sc + v_len out)));
  Some (sc, out).

(** src/vox_scanner.c: vox_scanner_get *)
Definition vox_scanner_get (sc : vox_scanner) (len : Z) : option (vox_scanner * view) :=
  advance sc (vox_scanner_peek sc len).

(** src/vox_scanner.c: vox_scanner_get_until_charset *)
Definition vox_scanner_get_until_charset (sc : vox_scanner) (charset : option vox_charset) (include_match : bool)
  : option (vox_scanner * view) :=
  out ← vox_scanner_peek_until_charset sc charset include_match; advance sc out.

(** src/vox_scanner.c: vox_scanner_get_until_char *)
Definition vox_scanner_get_until_char (sc : vox_scanner) (ch : Z) (include_match : bool) : option (vox_scanner * view) :=
  out ← vox_scanner_peek_until_char sc ch include_match; advance sc out.

(** src/vox_scanner.c: vox_scanner_get_until_str *)
Definition vox_scanner_get_until_str (sc : vox_scanner) (str : list Z) (include_match : bool) : option (vox_scanner * view) :=
  out ← vox_scanner_peek_until_str sc str include_match; advance sc out.

(** src/vox_scanner.c: vox_scanner_get_charset *)
Definition vox_scanner_get_charset (sc : vox_scanner) (charset : vox_charset) : option (vox_scanner * view) :=
  ptr ← run_while (vox_charset_contains charset) (curptr sc) (end_ sc);
  let out := View (curptr sc) (u64 (ptr - curptr sc)) in
  sc ← auto_skip (with_cur sc ptr);
  Some (sc, out).

(** src/vox_scanner.c: vox_scanner_skip *)
Definition vox_scanner_skip (sc : vox_scanner) (count : Z) : option vox_scanner :=
  let remaining := vox_scanner_remaining sc in
  let count := if remaining <? count then remaining else count in
  auto_skip (with_cur sc (curptr sc + count)).

(** src/vox_scanner.c: vox_scanner_skip_charset *)
Definition vox_scanner_skip_charset (sc : vox_scanner) (charset : vox_charset) : option (vox_scanner * Z) :=
  ptr ← run_while (vox_charset_contains charset) (curptr sc) (end_ sc);
  let skipped := u64 (ptr - curptr sc) in
  sc ← auto_skip (with_cur sc ptr);
  Some (sc, skipped).

(** src/vox_scanner.c: vox_scanner_skip_ws *)
Definition vox_scanner_skip_ws (sc : vox_scanner) : option (vox_scanner * Z) :=
  ptr ← run_while (fun ch => Some (is_whitespace ch)) (curptr sc) (end_ sc);
  Some (with_cur sc ptr, u64 (ptr - curptr sc)).

(** src/vox_scanner.c: vox_scanner_skip_newline *)
Definition vox_scanner_skip_newline (sc : vox_scanner) : option (vox_scanner * Z) :=
  ptr ← run_while (fun ch => Some (is_newline ch)) (curptr sc) (end_ sc);
  Some (with_cur sc ptr, u64 (ptr - curptr sc)).

(** src/vox_scanner.c: vox_scanner_save_state *)
Definition vox_scanner_save_state (sc : vox_scanner) : Z := curptr sc.

(** src/vox_scanner.c: vox_scanner_restore_state *)
Definition vox_scanner_restore_state (sc : vox_scanner) (state : Z) : vox_scanner * Z :=
  if (state <? begin sc) || (end_ sc <? state) then (sc, -1) else (with_cur sc state, 0).

End memory.


(** ** Streams

    A stream keeps the pieces it was fed as a list of chunks and shows them to its scanner:
    one piece in place, several copied into a buffer of the pool. *)

Definition sizeof_chunk : Z := 24.
Definition VOX_SCANNER_STREAM_TEMP_BUFFER_SIZE : Z := 4096.

(** The address of the struct, and its fields.

    src/vox_scanner.h:349-353: vox_scanner_chunk_t *)
Record vox_scanner_chunk := Chunk { c_at : Z; c_data : Z; c_len : Z }.

(** [temp_cells] is the content of [temp_buffer].

    src/vox_scanner.h:359-369: vox_scanner_stream_t *)
Record vox_scanner_stream := Stream {
  st_scanner : vox_scanner;
  chunks : list vox_scanner_chunk;
  chunks_tail : Z;
  temp_buffer : Z;
  temp_cells : list Z;
  temp_buffer_size : Z;
  temp_buffer_capacity : Z;
  total_size : Z;
  st_flags : Z;
}.

Definition with_scanner s sc := Stream sc (chunks s) (chunks_tail s) (temp_buffer s) (temp_cells s)
  (temp_buffer_size s) (temp_buffer_capacity s) (total_size s) (st_flags s).
Definition with_chunks s cs tail total := Stream (st_scanner s) cs tail (temp_buffer s) (temp_cells s)
  (temp_buffer_size s) (temp_buffer_capacity s) total (st_flags s).
Definition with_temp s at_ cells size cap := Stream (st_scanner s) (chunks s) (chunks_tail s) at_ cells
  size cap (total_size s) (st_flags s).

(** The three pointers of a scanner. *)
Definition with_view (s : vox_scanner_stream) (b e c : Z) : vox_scanner_stream :=
  with_scanner s (Scanner b e c (flags (st_scanner s))).

Section stream.
Context {P : Type} `{MPool P}.
Context (junk : Z) (mem : Z -> option Z).

(** src/vox_scanner.c: vox_scanner_stream_init *)
Definition vox_scanner_stream_init (flags : Z) : vox_scanner_stream :=
  Stream (Scanner NULL NULL NULL flags) [] NULL NULL [] 0 0 0 flags.

(** The loop over the list of chunks. *)
Definition free_chunks (p : P) (cs : list vox_scanner_chunk) : P := foldl (fun p c => mp_free p (c_at c)) p cs.

(** src/vox_scanner.c: vox_scanner_stream_destroy *)
Definition vox_scanner_stream_destroy (p : P) (s : vox_scanner_stream) : P * vox_scanner_stream :=
  let p := free_chunks p (chunks s) in
  let p := if temp_buffer s =? NULL then p else mp_free p (temp_buffer s) in
  (p, Stream vox_scanner_destroy [] NULL NULL [] 0 0 0 0).

(** src/vox_scanner.c: vox_scanner_stream_reset *)
Definition vox_scanner_stream_reset (p : P) (s : vox_scanner_stream) : P * vox_scanner_stream :=
  let p := free_chunks p (chunks s) in
  let s := with_chunks s [] NULL 0 in
  let '(p, s) := if temp_buffer s =? NULL then (p, s) else (mp_free p (temp_buffer s), with_temp s NULL [] 0 0) in
  (p, with_view s NULL NULL NULL).

(** [while (new_capacity < total_len)]; [None] in the result: overflow. *)
Fixpoint grow_half (fuel : nat) (cap total_len : Z) : option (option Z) :=
  match fuel with
  | O => None
  | S fuel =>
      if cap <? total_len then
        let new := u64 (cap + Z.shiftr cap 1) in
        if new <? cap then Some None else grow_half fuel new total_len
      else Some (Some cap)
  end.

(** The part that makes the temporary buffer large enough; the result code is 0 or -1.

    src/vox_scanner.c:685-723: vox_scanner_stream_update_view *)
Definition grow_temp (p : P) (s : vox_scanner_stream) : option (P * vox_scanner_stream * Z) :=
  let total_len := total_size s in
  if total_len <=? temp_buffer_capacity s then Some (p, s, 0) else
  let cap := if temp_buffer_capacity s =? 0 then VOX_SCANNER_STREAM_TEMP_BUFFER_SIZE else temp_buffer_capacity s in
  r ← grow_half 200 cap total_len;
  match r with
  | None => Some (p, s, -1)
  | Some new_capacity =>
      let '(p, a, b) := alloc_cells junk p new_capacity 1 in
      if a =? NULL then Some (p, s, -1) else
      if temp_buffer s =? NULL then Some (p, with_temp s a b (temp_buffer_size s) new_capacity, 0) else
      let sc := st_scanner s in
      let off := if (curptr sc =? NULL) || (begin sc =? NULL) then 0 else u64 (curptr sc - begin sc) in
      b ← (if off <? temp_buffer_size s then arr_blit b 0 (temp_cells s) 0 off else Some b);
      let p := mp_free p (temp_buffer s) in
      Some (p, with_temp s a b (temp_buffer_size s) new_capacity, 0)
  end.

(** Copying the chunks one after the other. *)
Fixpoint copy_chunks (dst : list Z) (off : Z) (cs : list vox_scanner_chunk) : option (list Z) :=
  match cs with
  | [] => Some dst
  | c :: cs =>
      l ← load mem (c_data c) (Z.to_nat (c_len c));
      dst ← arr_blit dst off l 0 (c_len c);
      copy_chunks dst (off + c_len c) cs
  end.

(** src/vox_scanner.c: vox_scanner_stream_update_view *)
Definition vox_scanner_stream_update_view (p : P) (s : vox_scanner_stream) : option (P * vox_scanner_stream * Z) :=
  match chunks s with
  | [] => Some (p, with_view s NULL NULL NULL, 0)
  | [c] =>
      let b := c_data c in
      let e := c_data c + c_len c in
      let cur := curptr (st_scanner s) in
      let cur := if (cur =? NULL) || (cur <? b) || (e <? cur) then b else cur in
      Some (p, with_view s b e cur, 0)
  | _ =>
      '(p, s, rc) ← grow_temp p s;
      if negb (rc =? 0) then Some (p, s, -1) else
      let sc := st_scanner s in
      let off := if (curptr sc =? NULL) || (begin sc =? NULL) then 0 else u64 (curptr sc - begin sc) in
      cells ← copy_chunks (temp_cells s) 0 (chunks s);
      let t := temp_buffer s in
      let s := with_temp s t cells (total_size s) (temp_buffer_capacity s) in
      Some (p, with_view s t (t + total_size s) (t + off), 0)
  end.

(** [stream->chunks_tail->next = chunk] *)
Fixpoint link_after (tail : Z) (c : vox_scanner_chunk) (cs : list vox_scanner_chunk) : list vox_scanner_chunk :=
  match cs with
  | [] => []
  | x :: cs => if c_at x =? tail then [x; c] else x :: link_after tail c cs
  end.

(** src/vox_scanner.c: vox_scanner_stream_feed *)
Definition vox_scanner_stream_feed (p : P) (s : vox_scanner_stream) (data len : Z) : option (P * vox_scanner_stream * Z) :=
  if (data =? NULL) || (len =? 0) then Some (p, s, -1) else
  let '(p, a) := mp_alloc p sizeof_chunk in
  if a =? NULL then Some (p, s, -1) else
  let c := Chunk a data len in
  let cs := if chunks_tail s =? NULL then [c] else link_after (chunks_tail s) c (chunks s) in
  vox_scanner_stream_update_view p (with_chunks s cs a (u64 (total_size s + len))).

(** The loop that takes consumed chunks off the list. *)
Fixpoint consume_loop (p : P) (cs : list vox_scanner_chunk) (tail total remaining : Z)
  : P * list vox_scanner_chunk * Z * Z :=
  match cs with
  | [] => (p, [], tail, total)
  | c :: cs' =>
      if remaining <=? 0 then (p, cs, tail, total)
      else if c_len c <=? remaining then
        consume_loop (mp_free p (c_at c)) cs' (if tail =? c_at c then NULL else tail)
          (u64 (total - c_len c)) (remaining - c_len c)
      else (p, Chunk (c_at c) (c_data c + remaining) (c_len c - remaining) :: cs', tail, u64 (total - remaining))
  end.

(** src/vox_scanner.c: vox_scanner_stream_consume *)
Definition vox_scanner_stream_consume (p : P) (s : vox_scanner_stream) (bytes : Z) : option (P * vox_scanner_stream * Z) :=
  let sc := st_scanner s in
  let scanned := if (begin sc =? NULL) || (curptr sc =? NULL) then 0 else u64 (curptr sc - begin sc) in
  if scanned <? bytes then Some (p, s, -1) else
  let '(p, cs, tail, total) := consume_loop p (chunks s) (chunks_tail s) (total_size s) bytes in
  vox_scanner_stream_update_view p (with_chunks s cs tail total).

(** src/vox_scanner.c: vox_scanner_stream_get_scanner *)
Definition vox_scanner_stream_get_scanner (s : vox_scanner_stream) : vox_scanner := st_scanner s.

(** src/vox_scanner.c: vox_scanner_stream_get_size *)
Definition vox_scanner_stream_get_size (s : vox_scanner_stream) : Z := total_size s.

(** What the scanner of a stream reads. *)
Definition stream_mem (s : vox_scanner_stream) (a : Z) : option Z :=
  if negb (temp_buffer s =? NULL) && (temp_buffer s <=? a) && (a <? temp_buffer s + temp_buffer_capacity s)
  then (temp_cells s).[a - temp_buffer s] else mem a.

(** The loop from the longest prefix to the shortest. *)
Fixpoint partial_loop (len : nat) (rd : Z -> option Z) (data_end : Z) (str : list Z) : option (Z * bool) :=
  match len with
  | O => Some (0, false)
  | S n =>
      l ← load rd (data_end - Z.of_nat len) len;
      if bool_decide (l = take len str) then Some (Z.of_nat len, true) else partial_loop n rd data_end str
  end.

(** The result is the length of the match and the boolean returned.

    src/vox_scanner.c: vox_scanner_stream_check_partial_match *)
Definition vox_scanner_stream_check_partial_match (s : vox_scanner_stream) (str : list Z) : option (Z * bool) :=
  let str_len := zlen str in
  if str_len =? 0 then Some (0, true) else
  let data_start := curptr (st_scanner s) in
  let data_end := end_ (st_scanner s) in
  if (data_start =? NULL) || (data_end =? NULL) || (data_end <=? data_start) then Some (0, false) else
  let data_len := u64 (data_end - data_start) in
  if str_len <=? data_len then Some (0, true) else
  partial_loop (Z.to_nat data_len) (stream_mem s) data_end str.

End stream.

(** ** What a character set contains *)

Definition cs_ok (cs : vox_charset) : Prop := length cs = 32%nat /\ is_bytes cs.

(** Membership in a well-formed set. *)
Definition cs_mem (cs : vox_charset) (ch : Z) : bool :=
  match vox_charset_contains cs ch with Some b => b | None => false end.

Lemma cs_contains cs ch : cs_ok cs -> 0 <= ch < 256 -> vox_charset_contains cs ch = Some (cs_mem cs ch).
Proof.
  intros [Hl _] Hc. unfold cs_mem, vox_charset_contains, get_bit.
  destruct (arr_get_Some cs (ch / 8)) as [b ->]; [|done]. unfold zlen. rewrite Hl. dlia.
Qed.

Lemma get_bit_spec cs bit b :
  cs.[bit / 8] = Some b -> 0 <= bit -> get_bit cs bit = Some (Z.testbit b (bit mod 8)).
Proof.
  intros E Hb. unfold get_bit. rewrite E. cbn [mbind option_bind]. f_equal.
  assert (0 <= bit mod 8 < 8) by dlia.
  rewrite Z.shiftl_mul_pow2, Z.mul_1_l by lia.
  destruct (Z.testbit b (bit mod 8)) eqn:Et.
  - rewrite (proj2 (Z.eqb_neq _ 0)); [done|]. intros E0.
    apply (f_equal (fun x => Z.testbit x (bit mod 8))) in E0.
    rewrite Z.land_spec, Et, Z.pow2_bits_true, Z.bits_0 in E0 by lia. done.
  - rewrite (proj2 (Z.eqb_eq _ 0)); [done|]. apply Z.bits_inj'. intros i Hi. rewrite Z.land_spec, Z.bits_0.
    destruct (Z.eq_dec i (bit mod 8)) as [->|Hne]; [by rewrite Et|].
    rewrite Z.pow2_bits_false by lia. apply andb_false_r.
Qed.

Lemma set_bit_spec cs bit :
  cs_ok cs -> 0 <= bit < 256 ->
  exists cs', set_bit cs bit = Some cs' /\ cs_ok cs' /\
    (forall ch, 0 <= ch < 256 -> cs_mem cs' ch = (ch =? bit) || cs_mem cs ch).
Proof.
  intros [Hl Hbs] Hb. unfold set_bit.
  assert (0 <= bit / 8 < zlen cs) as Hr by (unfold zlen; rewrite Hl; dlia).
  destruct (arr_get_Some cs _ Hr) as [b Eb]. rewrite Eb. cbn [mbind option_bind]. rewrite arr_set_ok by done.
  assert (0 <= b < 256) as Hb8.
  { rewrite arr_get_lookup in Eb by lia. exact (Forall_lookup_1 _ _ _ _ Hbs Eb). }
  assert (0 <= bit mod 8 < 8) as Hm by dlia.
  set (b' := Z.lor b (Z.shiftl 1 (bit mod 8))).
  assert (0 <= b' < 256) as Hb'.
  { unfold b'. assert (0 <= Z.shiftl 1 (bit mod 8) < 2 ^ 8) as Hs.
    { rewrite Z.shiftl_mul_pow2, Z.mul_1_l by lia. split; [lia|]. apply Z.pow_lt_mono_r; lia. }
    split; [apply Z.lor_nonneg; lia|].
    destruct (Z.eq_dec (Z.lor b (Z.shiftl 1 (bit mod 8))) 0) as [->|Hne]; [lia|].
    change 256 with (2 ^ 8). apply Z.log2_lt_pow2; [pose proof (proj2 (Z.lor_nonneg b (Z.shiftl 1 (bit mod 8)))); lia|].
    rewrite Z.log2_lor by lia.
    assert (forall x, 0 <= x < 2 ^ 8 -> Z.log2 x < 8) as Hx.
    { intros x Hx. destruct (Z.eq_dec x 0) as [->|]; [done|]. apply Z.log2_lt_pow2; lia. }
    apply Z.max_lub_lt; apply Hx; [change (2 ^ 8) with 256|]; lia. }
  rewrite u8_small by exact Hb'. eexists. split; [done|].
  assert (cs_ok (<[Z.to_nat (bit / 8) := b']> cs)) as Hok'.
  { split; [exact (eq_trans (length_insert _ _ _) Hl)|]. apply Forall_insert; [exact Hbs|exact Hb']. }
  split; [exact Hok'|]. intros ch Hch.
  assert (0 <= ch / 8 < zlen cs) as Hr2 by (unfold zlen; rewrite Hl; dlia).
  destruct (arr_get_Some cs _ Hr2) as [c Ec].
  unfold cs_mem, vox_charset_contains. rewrite (get_bit_spec cs ch c) by (done || lia).
  destruct (Z.eq_dec (bit / 8) (ch / 8)) as [E|E].
  - rewrite (get_bit_spec _ ch b') by (rewrite ?arr_get_insert, ?decide_True by lia; done || lia).
    assert (b = c) as <- by congruence. unfold b'. rewrite Z.lor_spec, Z.shiftl_mul_pow2, Z.mul_1_l by lia.
    destruct (Z.eqb_spec ch bit) as [->|Hne]; [by rewrite Z.pow2_bits_true, orb_true_r by lia|].
    rewrite Z.pow2_bits_false, orb_false_r by dlia. done.
  - rewrite (get_bit_spec _ ch c) by (rewrite ?arr_get_insert, ?decide_False by lia; done || lia).
    rewrite (proj2 (Z.eqb_neq ch bit)) by (intros ->; done). done.
Qed.

Lemma range_loop_spec fuel cs s e :
  cs_ok cs -> 0 <= s -> e < 255 -> s <= e + 1 -> e - s + 1 < Z.of_nat fuel ->
  exists cs', range_loop fuel cs s e = Some cs' /\ cs_ok cs' /\
    (forall ch, 0 <= ch < 256 -> cs_mem cs' ch = (s <=? ch) && (ch <=? e) || cs_mem cs ch).
Proof.
  revert cs s. induction fuel as [|fuel IH]; intros cs s Hcs Hs He Hse Hf; [lia|]. cbn [range_loop].
  destruct (Z.leb_spec s e) as [Hle|Hgt].
  - destruct (set_bit_spec cs s Hcs ltac:(lia)) as (c1 & -> & Hc1 & Hm1). cbn [mbind option_bind].
    rewrite u8_small by lia. destruct (IH c1 (s + 1) Hc1) as (c2 & -> & Hc2 & Hm2); [lia..|].
    exists c2. split; [done|]. split; [done|]. intros ch Hch. rewrite Hm2, Hm1 by done.
    destruct (Z.leb_spec (s + 1) ch), (Z.eqb_spec ch s), (Z.leb_spec s ch), (Z.leb_spec ch e); try lia; done.
  - exists cs. split; [done|]. split; [done|]. intros ch Hch.
    destruct (Z.leb_spec s ch), (Z.leb_spec ch e); try lia; done.
Qed.

(** A range up to the last character never ends: the counter of the loop wraps. *)
Lemma range_loop_diverges fuel cs s : 0 <= s < 256 -> range_loop fuel cs s 255 = None.
Proof.
  revert cs s. induction fuel as [|fuel IH]; intros cs s Hs; [done|]. cbn [range_loop].
  rewrite (proj2 (Z.leb_le s 255)) by lia. destruct (set_bit cs s) as [c|]; [|done]. cbn [mbind option_bind].
  apply IH. apply u8_range.
Qed.

Lemma add_range_spec cs a b :
  cs_ok cs -> 0 <= a < 255 -> 0 <= b < 255 ->
  exists cs', vox_charset_add_range cs a b = Some cs' /\ cs_ok cs' /\
    (forall ch, 0 <= ch < 256 -> cs_mem cs' ch = (Z.min a b <=? ch) && (ch <=? Z.max a b) || cs_mem cs ch).
Proof.
  intros Hcs Ha Hb. unfold vox_charset_add_range. destruct (Z.ltb_spec b a).
  - rewrite Z.min_r, Z.max_l by lia. apply range_loop_spec; [done|lia..].
  - rewrite Z.min_l, Z.max_r by lia. apply range_loop_spec; [done|lia..].
Qed.

Lemma charset_init_ok : cs_ok vox_charset_init /\ forall ch, 0 <= ch < 256 -> cs_mem vox_charset_init ch = false.
Proof.
  split; [split; [done|]; by apply Forall_replicate|]. intros ch Hch.
  assert (vox_charset_init.[ch / 8] = Some 0) as E.
  { rewrite arr_get_lookup by dlia. apply lookup_replicate_2. assert (ch / 8 < 32) by dlia. lia. }
  unfold cs_mem, vox_charset_contains. rewrite (get_bit_spec _ ch 0 E) by lia. apply Z.bits_0.
Qed.

(** ** Scanning as operations on the text

    [past] is the text before the current position and [rest] the text from it on. *)

Fixpoint take_while (f : Z -> bool) (l : list Z) : list Z :=
  match l with ch :: l => if f ch then ch :: take_while f l else [] | [] => [] end.
Fixpoint drop_while (f : Z -> bool) (l : list Z) : list Z :=
  match l with ch :: l' => if f ch then drop_while f l' else l | [] => [] end.

(** The position of the first occurrence of [str]. *)
Fixpoint index_of (str l : list Z) : option nat :=
  if starts_with str l then Some O else match l with [] => None | _ :: l => S <$> index_of str l end.

(** What [auto_skip] skips. *)
Definition skips (fl ch : Z) : bool :=
  if negb (Z.land fl VOX_SCANNER_AUTOSKIP_WS =? 0) then is_whitespace ch
  else if negb (Z.land fl VOX_SCANNER_AUTOSKIP_NEWLINE =? 0) then is_newline ch
  else false.

Definition position : Type := list Z * list Z.

(** [n] characters on, and over what is skipped. *)
Definition spec_advance (fl : Z) (s : position) (n : nat) : position :=
  let rest := drop n s.2 in
  (s.1 ++ take n s.2 ++ take_while (skips fl) rest, drop_while (skips fl) rest).

Inductive scan_op :=
| Offset | Remaining | Eof | PeekChar | PeekCharAt (offset : Z) | Peek (len : Z)
| PeekUntilCharset (cs : option vox_charset) (include_match : bool)
| PeekUntilChar (ch : Z) (include_match : bool) | PeekUntilStr (str : list Z) (include_match : bool)
| GetChar | Get (len : Z)
| GetUntilCharset (cs : option vox_charset) (include_match : bool)
| GetUntilChar (ch : Z) (include_match : bool) | GetUntilStr (str : list Z) (include_match : bool)
| GetCharset (cs : vox_charset) | Skip (count : Z) | SkipCharset (cs : vox_charset) | SkipWs | SkipNewline
| Restore (state : Z).

Inductive scan_result := Num (n : Z) | Flag (b : bool) | Text (v : view).

Definition run_scan (mem : Z -> option Z) (sc : vox_scanner) (op : scan_op) : option (vox_scanner * scan_result) :=
  let text (r : option (vox_scanner * view)) := '(sc, v) ← r; Some (sc, Text v) in
  let num (r : option (vox_scanner * Z)) := '(sc, n) ← r; Some (sc, Num n) in
  match op with
  | Offset => Some (sc, Num (vox_scanner_offset sc))
  | Remaining => Some (sc, Num (vox_scanner_remaining sc))
  | Eof => Some (sc, Flag (vox_scanner_eof sc))
  | PeekChar => ch ← vox_scanner_peek_char mem sc; Some (sc, Num ch)
  | PeekCharAt n => ch ← vox_scanner_peek_char_at mem sc n; Some (sc, Num ch)
  | Peek n => Some (sc, Text (vox_scanner_peek sc n))
  | PeekUntilCharset cs b => v ← vox_scanner_peek_until_charset mem sc cs b; Some (sc, Text v)
  | PeekUntilChar ch b => v ← vox_scanner_peek_until_char mem sc ch b; Some (sc, Text v)
  | PeekUntilStr str b => v ← vox_scanner_peek_until_str mem sc str b; Some (sc, Text v)
  | GetChar => num (vox_scanner_get_char mem sc)
  | Get n => text (vox_scanner_get mem sc n)
  | GetUntilCharset cs b => text (vox_scanner_get_until_charset mem sc cs b)
  | GetUntilChar ch b => text (vox_scanner_get_until_char mem sc ch b)
  | GetUntilStr str b => text (vox_scanner_get_until_str mem sc str b)
  | GetCharset cs => text (vox_scanner_get_charset mem sc cs)
  | Skip n => sc ← vox_scanner_skip mem sc n; Some (sc, Num 0)
  | SkipCharset cs => num (vox_scanner_skip_charset mem sc cs)
  | SkipWs => num (vox_scanner_skip_ws mem sc)
  | SkipNewline => num (vox_scanner_skip_newline mem sc)
  | Restore state => let '(sc, rc) := vox_scanner_restore_state sc state in Some (sc, Num rc)
  end.

(** The length of the text up to the first character outside [f]. *)
Definition until_length (f : Z -> bool) (include_match : bool) (rest : list Z) : nat :=
  let n := length (take_while f rest) in
  if include_match && (n <? length rest)%nat then S n else n.

Definition until_set (cs : option vox_charset) (include_match : bool) (rest : list Z) : nat :=
  match cs with Some cs => until_length (fun ch => negb (cs_mem cs ch)) include_match rest | None => length rest end.

Definition until_str (str : list Z) (include_match : bool) (rest : list Z) : nat :=
  if decide (str = []) then O else
  match index_of str rest with
  | Some n => (if include_match then n + length str else n)%nat
  | None => length rest
  end.

(** The text and the position; [base] is the address of the text. *)
Definition spec_scan (base fl : Z) (s : position) (op : scan_op) : position * scan_result :=
  let '(past, rest) := s in
  let at_ (n : nat) := Text (View (base + zlen past) (Z.of_nat n)) in
  let get (n : nat) := (spec_advance fl s n, at_ n) in
  let clamp (n : Z) := Z.to_nat (Z.min n (zlen rest)) in
  match op with
  | Offset => (s, Num (zlen past))
  | Remaining => (s, Num (zlen rest))
  | Eof => (s, Flag (match rest with [] => true | _ => false end))
  | PeekChar => (s, Num (default (-1) (head rest)))
  | PeekCharAt n => (s, Num (default (-1) (rest !! Z.to_nat n)))
  | Peek n => (s, at_ (clamp n))
  | PeekUntilCharset cs b => (s, at_ (until_set cs b rest))
  | PeekUntilChar ch b => (s, at_ (until_length (fun c => negb (c =? ch)) b rest))
  | PeekUntilStr str b => (s, at_ (until_str str b rest))
  | GetChar => match rest with [] => (s, Num (-1)) | ch :: _ => (spec_advance fl s 1, Num ch) end
  | Get n => get (clamp n)
  | GetUntilCharset cs b => get (until_set cs b rest)
  | GetUntilChar ch b => get (until_length (fun c => negb (c =? ch)) b rest)
  | GetUntilStr str b => get (until_str str b rest)
  | GetCharset cs => get (length (take_while (cs_mem cs) rest))
  | Skip n => (spec_advance fl s (clamp n), Num 0)
  | SkipCharset cs =>
      let n := length (take_while (cs_mem cs) rest) in (spec_advance fl s n, Num (Z.of_nat n))
  | SkipWs => ((past ++ take_while is_whitespace rest, drop_while is_whitespace rest),
               Num (zlen (take_while is_whitespace rest)))
  | SkipNewline => ((past ++ take_while is_newline rest, drop_while is_newline rest),
                    Num (zlen (take_while is_newline rest)))
  | Restore state =>
      let n := state - base in
      if (0 <=? n) && (n <=? zlen past + zlen rest)
      then ((take (Z.to_nat n) (past ++ rest), drop (Z.to_nat n) (past ++ rest)), Num 0)
      else (s, Num (-1))
  end.

(** The arguments for which addresses do not wrap. *)
Definition scan_op_ok (base : Z) (s : position) (op : scan_op) : Prop :=
  match op with
  | PeekCharAt n | Peek n | Get n => 0 <= n /\ base + zlen s.1 + n < 2 ^ 64
  | Skip n => 0 <= n
  | PeekUntilCharset cs _ | GetUntilCharset cs _ => match cs with Some cs => cs_ok cs | None => True end
  | GetCharset cs | SkipCharset cs => cs_ok cs
  | PeekUntilStr str _ | GetUntilStr str _ => zlen str <= base + 1
  | _ => True
  end.

(** [l] is in memory from [p] on. *)
Definition holds (mem : Z -> option Z) (p : Z) (l : list Z) : Prop :=
  forall i x, l !! i = Some x -> mem (p + Z.of_nat i) = Some x.

(** The scanner is at [rest] in the text [past ++ rest]. *)
Record sees (mem : Z -> option Z) (sc : vox_scanner) (past rest : list Z) : Prop := {
  s_begin : 0 < begin sc;
  s_cur : curptr sc = begin sc + zlen past;
  s_end : end_ sc = curptr sc + zlen rest;
  s_max : end_ sc < 2 ^ 64;
  s_bytes : is_bytes (past ++ rest);
  s_mem : holds mem (begin sc) (past ++ rest);
}.

Lemma take_drop_while f l : take_while f l ++ drop_while f l = l.
Proof. induction l as [|ch l IH]; cbn; [done|]. destruct (f ch); cbn; [by rewrite IH|done]. Qed.
Lemma take_while_length f l : (length (take_while f l) <= length l)%nat.
Proof. rewrite <-(take_drop_while f l) at 2. rewrite length_app. lia. Qed.
Lemma take_take_while f l : take (length (take_while f l)) l = take_while f l.
Proof. rewrite <-(take_drop_while f l) at 2. apply take_app_length. Qed.
Lemma drop_take_while f l : drop (length (take_while f l)) l = drop_while f l.
Proof. rewrite <-(take_drop_while f l) at 2. apply drop_app_length. Qed.
Lemma take_while_none f l : (forall ch, f ch = false) -> take_while f l = [] /\ drop_while f l = l.
Proof. intros Hf. destruct l as [|ch l]; cbn; [done|]. by rewrite Hf. Qed.

Lemma index_of_le str l n : index_of str l = Some n -> (n + length str <= length l)%nat.
Proof.
  revert n. induction l as [|ch l IH]; intros n; cbn [index_of];
    (destruct (starts_with str _) eqn:E; [intros [= <-]; apply starts_with_spec, prefix_length in E; cbn in *; lia|]); [done|].
  destruct (index_of str l) as [m|]; cbn; [|done]. intros [= <-]. specialize (IH m eq_refl). lia.
Qed.

Lemma until_length_le f b l : (until_length f b l <= length l)%nat.
Proof.
  unfold until_length. pose proof (take_while_length f l). destruct b; cbn [andb]; [|done].
  destruct (Nat.ltb_spec (length (take_while f l)) (length l)); lia.
Qed.
Lemma until_set_le cs b l : (until_set cs b l <= length l)%nat.
Proof. destruct cs; cbn; [apply until_length_le|done]. Qed.
Lemma until_str_le str b l : (until_str str b l <= length l)%nat.
Proof.
  unfold until_str. case_decide; [lia|]. destruct (index_of str l) as [n|] eqn:E; [|done].
  apply index_of_le in E. destruct b; lia.
Qed.

Section scanning.
Context (mem : Z -> option Z).
Implicit Types (l : list Z) (sc : vox_scanner).

Lemma holds_cons p ch l : holds mem p (ch :: l) <-> mem p = Some ch /\ holds mem (p + 1) l.
Proof.
  split.
  - intros Hl. split; [rewrite <-(Hl O ch eq_refl); f_equal; lia|].
    intros i x Hx. rewrite <-(Hl (S i) x Hx). f_equal. lia.
  - intros [Hc Hl] [|i] x; cbn.
    + intros [= <-]. by rewrite Z.add_0_r.
    + intros Hx. rewrite <-(Hl i x Hx). f_equal. lia.
Qed.

Lemma holds_app p l1 l2 : holds mem p (l1 ++ l2) <-> holds mem p l1 /\ holds mem (p + zlen l1) l2.
Proof.
  revert p. induction l1 as [|ch l1 IH]; intros p; cbn [app].
  - rewrite zlen_nil, Z.add_0_r. split; [|tauto]. intros Hl. split; [by intros i x|done].
  - rewrite !holds_cons, IH, zlen_cons, Z.add_assoc. tauto.
Qed.

Lemma while_spec fuel F f p e l :
  holds mem p l -> (forall ch, ch ∈ l -> F ch = Some (f ch)) -> e = p + zlen l -> (length l < fuel)%nat ->
  while_ mem fuel F p e = Some (p + zlen (take_while f l)).
Proof.
  revert p l. induction fuel as [|fuel IH]; intros p l Hl HF He Hf; [lia|]. cbn [while_].
  destruct l as [|ch l]; cbn [take_while].
  - rewrite zlen_nil in *. by rewrite (proj2 (Z.ltb_ge p e)), Z.add_0_r by lia.
  - rewrite zlen_cons in He. pose proof (zlen_nonneg l). rewrite (proj2 (Z.ltb_lt p e)) by lia.
    apply holds_cons in Hl as [-> Hl]. cbn [mbind option_bind]. rewrite HF by (by left). cbn [mbind option_bind].
    destruct (f ch); [|by rewrite zlen_nil, Z.add_0_r].
    rewrite (IH (p + 1) l); [rewrite zlen_cons; f_equal; lia|done| |lia|cbn in Hf; lia].
    intros c Hc. apply HF. by right.
Qed.

Lemma run_while_spec F f p e l :
  holds mem p l -> (forall ch, ch ∈ l -> F ch = Some (f ch)) -> e = p + zlen l ->
  run_while mem F p e = Some (p + zlen (take_while f l)).
Proof. intros Hl HF He. apply while_spec; [done..|]. unfold zlen in He. lia. Qed.

Lemma load_spec p l n : holds mem p l -> (n <= length l)%nat -> load mem p n = Some (take n l).
Proof.
  revert p l. induction n as [|n IH]; intros p l Hl Hn; cbn [load]; [done|].
  destruct l as [|ch l]; [cbn in Hn; lia|]. apply holds_cons in Hl as [-> Hl]. cbn [mbind option_bind].
  by rewrite (IH _ l Hl) by (cbn in Hn; lia).
Qed.

Lemma find_str_spec fuel str p l se :
  holds mem p l -> str <> [] -> se = p + zlen l - zlen str + 1 -> (0 < fuel)%nat -> se - p < Z.of_nat fuel ->
  find_str mem fuel str p se = Some ((fun n => p + Z.of_nat n) <$> index_of str l).
Proof.
  intros Hl Hs. revert p l Hl. induction fuel as [|fuel IH]; intros p l Hl He H0 Hf; [lia|]. cbn [find_str].
  destruct (Z.ltb_spec p se) as [Hlt|Hge].
  - rewrite (load_spec p l) by (done || (unfold zlen in *; lia)). cbn [mbind option_bind].
    rewrite <-starts_with_take.
    destruct l as [|ch l].
    { destruct str as [|s str]; [done|]. rewrite zlen_cons, zlen_nil in He. pose proof (zlen_nonneg str). lia. }
    cbn [index_of]. destruct (starts_with str (ch :: l)); [cbn; by rewrite Z.add_0_r|].
    apply holds_cons in Hl as [_ Hl]. rewrite zlen_cons in He. rewrite (IH (p + 1) l) by (done || lia).
    f_equal. destruct (index_of str l) as [n|]; cbn; [|done]. f_equal. lia.
  - destruct (index_of str l) as [n|] eqn:E; [|done]. apply index_of_le in E. unfold zlen in *. lia.
Qed.

Lemma sees_byte sc past rest ch : sees mem sc past rest -> ch ∈ rest -> 0 <= ch < 256.
Proof.
  intros Hs Hc. pose proof (s_bytes _ _ _ _ Hs) as Hb. apply Forall_app in Hb as [_ Hb].
  exact (proj1 (List.Forall_forall _ _) Hb ch (proj1 (list_elem_of_In _ _) Hc)).
Qed.

Lemma sees_rest sc past rest : sees mem sc past rest -> holds mem (curptr sc) rest.
Proof. intros Hs. rewrite (s_cur _ _ _ _ Hs). apply holds_app, (s_mem _ _ _ _ Hs). Qed.

Lemma sees_move sc past a b :
  sees mem sc past (a ++ b) -> sees mem (with_cur sc (curptr sc + zlen a)) (past ++ a) b.
Proof.
  intros []. constructor; cbn; rewrite <-?app_assoc; try done.
  - rewrite zlen_app. lia.
  - rewrite zlen_app in *. lia.
Qed.

(** At a position, with the text at [base] and the options [fl]. *)
Definition at_pos (base fl : Z) sc (s : position) : Prop :=
  sees mem sc s.1 s.2 /\ begin sc = base /\ flags sc = fl.

Lemma auto_skip_spec base fl sc s :
  at_pos base fl sc s -> exists sc', auto_skip mem sc = Some sc' /\ at_pos base fl sc' (spec_advance fl s 0).
Proof.
  destruct s as [past rest]. intros (Hs & Hb & Hf). cbn [fst snd] in *. unfold auto_skip, spec_advance. rewrite Hf. cbn [fst snd].
  rewrite drop_0. cbn [take app]. set (ws := negb (Z.land fl VOX_SCANNER_AUTOSKIP_WS =? 0)).
  set (nl := negb (Z.land fl VOX_SCANNER_AUTOSKIP_NEWLINE =? 0)).
  destruct (negb ws && negb nl) eqn:E.
  - destruct (take_while_none (skips fl) rest) as [-> ->].
    { intros ch. unfold skips. fold ws nl. destruct ws, nl; done. }
    rewrite app_nil_r. by exists sc.
  - rewrite (run_while_spec _ (skips fl) (curptr sc) (end_ sc) rest).
    + cbn [mbind option_bind]. eexists. split; [done|]. split; [|done]. cbn [fst snd].
      apply (sees_move sc past (take_while (skips fl) rest)). by rewrite take_drop_while.
    + by apply sees_rest in Hs.
    + intros ch _. f_equal. unfold skips. fold ws nl. destruct ws, nl, (is_whitespace ch), (is_newline ch); done.
    + apply (s_end _ _ _ _ Hs).
Qed.

Lemma advance_pos base fl sc s n :
  at_pos base fl sc s -> (n <= length s.2)%nat ->
  exists sc', auto_skip mem (with_cur sc (curptr sc + Z.of_nat n)) = Some sc' /\ at_pos base fl sc' (spec_advance fl s n).
Proof.
  destruct s as [past rest]. cbn [fst snd]. intros (Hs & Hb & Hf) Hn. cbn [fst snd] in Hs.
  assert (at_pos base fl (with_cur sc (curptr sc + Z.of_nat n)) (past ++ take n rest, drop n rest)) as H1.
  { split; [|done]. cbn [fst snd]. rewrite <-(take_drop n rest) in Hs.
    replace (Z.of_nat n) with (zlen (take n rest)) by (unfold zlen; rewrite length_take; lia). by apply sees_move. }
  destruct (auto_skip_spec _ _ _ _ H1) as (sc' & E & H2). exists sc'. split; [done|].
  unfold spec_advance in *. cbn [fst snd] in *. rewrite drop_0 in H2. cbn [take app] in H2. by rewrite <-app_assoc in H2.
Qed.

Lemma pos_bound base fl sc s : at_pos base fl sc s -> 0 < base /\ curptr sc = base + zlen s.1 /\
  end_ sc = base + zlen s.1 + zlen s.2 /\ base + zlen s.1 + zlen s.2 < 2 ^ 64.
Proof. intros (Hs & <- & _). destruct Hs. lia. Qed.

End scanning.

Section operations.
Context (mem : Z -> option Z) (base fl : Z).
Implicit Types (sc : vox_scanner) (s : position).
#[local] Abbreviation at_pos := (at_pos mem base fl).

(** The view of the next [n] characters. *)
Definition view_at s (n : nat) : view := View (base + zlen s.1) (Z.of_nat n).

Lemma peek_spec sc s n :
  at_pos sc s -> 0 <= n -> base + zlen s.1 + n < 2 ^ 64 ->
  vox_scanner_peek sc n = view_at s (Z.to_nat (Z.min n (zlen s.2))).
Proof.
  intros Hp Hn Hb. destruct (pos_bound _ _ _ _ _ Hp) as (H0 & Hc & He & Hm).
  pose proof (zlen_nonneg s.1). pose proof (zlen_nonneg s.2).
  unfold vox_scanner_peek, view_at. rewrite u64_small by lia. rewrite u64_small by lia. rewrite Hc, He. f_equal.
  destruct (Z.ltb_spec (base + zlen s.1 + zlen s.2) (base + zlen s.1 + n)); lia.
Qed.

Lemma view_until_spec sc s f b :
  at_pos sc s -> view_until sc b (curptr sc + zlen (take_while f s.2)) = view_at s (until_length f b s.2).
Proof.
  intros Hp. destruct (pos_bound _ _ _ _ _ Hp) as (H0 & Hc & He & Hm).
  pose proof (zlen_nonneg s.1). pose proof (take_while_length f s.2) as Hl.
  unfold view_until, view_at, until_length. rewrite Hc. f_equal.
  destruct b; cbn [andb]; [|rewrite u64_small by (unfold zlen in *; lia); unfold zlen; lia].
  rewrite He. unfold zlen in *.
  destruct (Z.ltb_spec (base + Z.of_nat (length s.1) + Z.of_nat (length (take_while f s.2)))
              (base + Z.of_nat (length s.1) + Z.of_nat (length s.2))),
    (Nat.ltb_spec (length (take_while f s.2)) (length s.2)); try lia; rewrite u64_small by lia; lia.
Qed.

Lemma run_spec sc s F f :
  at_pos sc s -> (forall ch, 0 <= ch < 256 -> F ch = Some (f ch)) ->
  run_while mem F (curptr sc) (end_ sc) = Some (curptr sc + zlen (take_while f s.2)).
Proof.
  intros (Hs & _) HF. apply run_while_spec; [by apply sees_rest in Hs| |apply (s_end _ _ _ _ Hs)].
  intros ch Hc. apply HF. by eapply sees_byte.
Qed.

Lemma peek_until_charset_spec sc s cs b :
  at_pos sc s -> match cs with Some cs => cs_ok cs | None => True end ->
  vox_scanner_peek_until_charset mem sc cs b = Some (view_at s (until_set cs b s.2)).
Proof.
  intros Hp Hcs. unfold vox_scanner_peek_until_charset. destruct cs as [cs|]; cbn [until_set].
  - rewrite (run_spec sc s _ (fun ch => negb (cs_mem cs ch))) by (done || (intros ch Hch; by rewrite cs_contains)).
    cbn [mbind option_bind]. by rewrite view_until_spec.
  - cbn [mbind option_bind]. destruct (pos_bound _ _ _ _ _ Hp) as (H0 & Hc & He & Hm).
    pose proof (zlen_nonneg s.1). pose proof (zlen_nonneg s.2). unfold view_until, view_at.
    rewrite Z.ltb_irrefl, andb_false_r, u64_small by lia. rewrite Hc, He. do 2 f_equal. unfold zlen. lia.
Qed.

Lemma peek_until_char_spec sc s ch b :
  at_pos sc s ->
  vox_scanner_peek_until_char mem sc ch b = Some (view_at s (until_length (fun c => negb (c =? ch)) b s.2)).
Proof.
  intros Hp. unfold vox_scanner_peek_until_char. rewrite (run_spec sc s _ (fun c => negb (c =? ch))) by done.
  cbn [mbind option_bind]. by rewrite view_until_spec.
Qed.

Lemma peek_until_str_spec sc s str b :
  at_pos sc s -> zlen str <= base + 1 ->
  vox_scanner_peek_until_str mem sc str b = Some (view_at s (until_str str b s.2)).
Proof.
  intros Hp Hstr. destruct (pos_bound _ _ _ _ _ Hp) as (H0 & Hc & He & Hm).
  pose proof (zlen_nonneg s.1). pose proof (zlen_nonneg s.2). pose proof (zlen_nonneg str).
  unfold vox_scanner_peek_until_str, until_str, view_at.
  destruct (Z.eqb_spec (zlen str) 0) as [Hz|Hz].
  { destruct str; [|rewrite zlen_cons in Hz; pose proof (zlen_nonneg str); lia]. rewrite decide_True by done.
    by rewrite Hc. }
  rewrite decide_False by (by intros ->). rewrite (u64_small (end_ sc - zlen str + 1)) by lia.
  destruct Hp as (Hs & _).
  assert (find_str mem (S (Z.to_nat (end_ sc - zlen str + 1 - curptr sc))) str (curptr sc) (end_ sc - zlen str + 1)
          = Some ((fun n => curptr sc + Z.of_nat n) <$> index_of str s.2)) as ->.
  { apply find_str_spec; [by apply sees_rest in Hs|by intros ->|lia|lia|lia]. }
  cbn [mbind option_bind]. destruct (index_of str s.2) as [n|] eqn:E; cbn [fmap option_fmap option_map].
  - apply index_of_le in E. rewrite Hc. unfold zlen in *.
    destruct b; rewrite u64_small by lia; do 2 f_equal; lia.
  - rewrite Hc, He, u64_small by lia. do 2 f_equal. unfold zlen. lia.
Qed.

Lemma advance_spec sc s n :
  at_pos sc s -> (n <= length s.2)%nat ->
  exists sc', advance mem sc (view_at s n) = Some (sc', view_at s n) /\ at_pos sc' (spec_advance fl s n).
Proof.
  intros Hp Hn. destruct (pos_bound _ _ _ _ _ Hp) as (H0 & Hc & He & Hm). pose proof (zlen_nonneg s.1).
  unfold advance. cbn [v_len view_at]. rewrite u64_small by (unfold zlen in *; lia).
  destruct (advance_pos _ _ _ _ _ n Hp Hn) as (sc' & -> & Hp'). exists sc'. done.
Qed.

(** Moving over a run of characters. *)
Lemma over_run sc s f :
  at_pos sc s ->
  exists sc', auto_skip mem (with_cur sc (curptr sc + zlen (take_while f s.2))) = Some sc' /\
    at_pos sc' (spec_advance fl s (length (take_while f s.2))).
Proof. intros Hp. apply (advance_pos mem base fl); [done|apply take_while_length]. Qed.

Lemma over_run' sc s f :
  at_pos sc s ->
  at_pos (with_cur sc (curptr sc + zlen (take_while f s.2))) (s.1 ++ take_while f s.2, drop_while f s.2).
Proof.
  intros (Hs & Hb & Hf). split; [|done]. cbn [fst snd].
  apply (sees_move mem sc s.1 (take_while f s.2)). by rewrite take_drop_while.
Qed.

Lemma run_length sc s f :
  at_pos sc s -> u64 (curptr sc + zlen (take_while f s.2) - curptr sc) = zlen (take_while f s.2).
Proof.
  intros Hp. destruct (pos_bound _ _ _ _ _ Hp) as (H0 & Hc & He & Hm). pose proof (zlen_nonneg s.1).
  pose proof (take_while_length f s.2). rewrite u64_small by (unfold zlen in *; lia). lia.
Qed.

Lemma restore_spec sc s state :
  at_pos sc s ->
  let n := state - base in
  vox_scanner_restore_state sc state =
    if (0 <=? n) && (n <=? zlen s.1 + zlen s.2) then (with_cur sc state, 0) else (sc, -1).
Proof.
  intros Hp n. destruct (pos_bound _ _ _ _ _ Hp) as (H0 & Hc & He & Hm). unfold vox_scanner_restore_state.
  destruct Hp as (_ & -> & _). rewrite He.
  destruct (Z.ltb_spec state base), (Z.ltb_spec (base + zlen s.1 + zlen s.2) state), (Z.leb_spec 0 n),
    (Z.leb_spec n (zlen s.1 + zlen s.2)); cbn; try done; lia.
Qed.

Lemma restore_pos sc s state :
  at_pos sc s -> 0 <= state - base <= zlen s.1 + zlen s.2 ->
  at_pos (with_cur sc state) (take (Z.to_nat (state - base)) (s.1 ++ s.2), drop (Z.to_nat (state - base)) (s.1 ++ s.2)).
Proof.
  intros Hp Hn. destruct (pos_bound _ _ _ _ _ Hp) as (H0 & Hc & He & Hm). destruct Hp as (Hs & Hb & Hf).
  split; [|done]. cbn [fst snd]. destruct Hs. constructor; cbn; rewrite ?take_drop; try done.
  - rewrite zlen_take, zlen_app. lia.
  - rewrite zlen_drop, zlen_app. lia.
Qed.

Lemma remaining_spec sc s : at_pos sc s -> vox_scanner_remaining sc = zlen s.2.
Proof.
  intros Hp. destruct (pos_bound _ _ _ _ _ Hp) as (H0 & Hc & He & Hm). pose proof (zlen_nonneg s.1). pose proof (zlen_nonneg s.2).
  unfold vox_scanner_remaining. rewrite He, Hc.
  destruct (Z.leb_spec (base + zlen s.1 + zlen s.2) (base + zlen s.1)); [|rewrite u64_small by lia]; lia.
Qed.

(** One operation. *)
Lemma scan_step sc s op :
  at_pos sc s -> scan_op_ok base s op ->
  exists sc', run_scan mem sc op = Some (sc', (spec_scan base fl s op).2) /\ at_pos sc' (spec_scan base fl s op).1.
Proof.
  intros Hp Hop. destruct (pos_bound _ _ _ _ _ Hp) as (H0 & Hc & He & Hm).
  destruct s as [past rest]. cbn [fst snd] in *. pose proof (zlen_nonneg past). pose proof (zlen_nonneg rest).
  assert (Hview : forall n, view_at (past, rest) n = View (base + zlen past) (Z.of_nat n)) by done.
  assert (Hget : forall n, (n <= length rest)%nat -> exists sc',
    ('(sc, v) ← advance mem sc (view_at (past, rest) n); Some (sc, Text v))
    = Some (sc', Text (View (base + zlen past) (Z.of_nat n))) /\ at_pos sc' (spec_advance fl (past, rest) n)).
  { intros n Hn. destruct (advance_spec sc (past, rest) n Hp Hn) as (sc' & -> & Hp'). by exists sc'. }
  assert (Hclamp : forall n, 0 <= n -> (Z.to_nat (Z.min n (zlen rest)) <= length rest)%nat) by (intros; unfold zlen; lia).
  destruct op; cbn [run_scan spec_scan scan_op_ok fst snd] in *.
  - exists sc. split; [|done]. unfold vox_scanner_offset, NULL. rewrite (proj1 (proj2 Hp)), (proj2 (Z.eqb_neq base 0)) by lia.
    rewrite u64_small by lia. do 3 f_equal. lia.
  - exists sc. split; [|done]. by rewrite (remaining_spec sc (past, rest)).
  - exists sc. split; [|done]. unfold vox_scanner_eof, NULL. rewrite (proj1 (proj2 Hp)), He, Hc, !(proj2 (Z.eqb_neq _ 0)) by lia.
    cbn [orb]. do 3 f_equal. destruct rest as [|ch rest]; [rewrite zlen_nil; apply Z.leb_le; lia|].
    rewrite zlen_cons. pose proof (zlen_nonneg rest). apply Z.leb_gt. lia.
  - exists sc. split; [|done]. unfold vox_scanner_peek_char. destruct Hp as (Hs & _). apply sees_rest in Hs. cbn [fst snd] in Hs.
    rewrite He, <-Hc. destruct rest as [|ch rest].
    + rewrite zlen_nil, (proj2 (Z.leb_le _ _)) by lia. done.
    + rewrite zlen_cons. pose proof (zlen_nonneg rest). rewrite (proj2 (Z.leb_gt _ _)) by lia.
      apply holds_cons in Hs as [-> _]. done.
  - exists sc. split; [|done]. unfold vox_scanner_peek_char_at. destruct Hp as (Hs & _). apply sees_rest in Hs. cbn [fst snd] in Hs.
    rewrite u64_small by lia. rewrite He, Hc. destruct (Z.leb_spec (base + zlen past + zlen rest) (base + zlen past + offset)).
    + rewrite lookup_ge_None_2 by (unfold zlen in *; lia). done.
    + destruct (lookup_lt_is_Some_2 rest (Z.to_nat offset)) as [ch Ech]; [unfold zlen in *; lia|]. rewrite Ech.
      apply Hs in Ech. rewrite Hc, Z2Nat.id in Ech by lia. by rewrite Ech.
  - exists sc. split; [|done]. by rewrite (peek_spec sc (past, rest)) by (done || (cbn [fst]; lia)).
  - exists sc. split; [|done]. by rewrite (peek_until_charset_spec sc (past, rest)) by done.
  - exists sc. split; [|done]. by rewrite (peek_until_char_spec sc (past, rest)) by done.
  - exists sc. split; [|done]. by rewrite (peek_until_str_spec sc (past, rest)) by done.
  - unfold vox_scanner_get_char. rewrite He, <-Hc. destruct rest as [|ch rest].
    + rewrite zlen_nil, (proj2 (Z.leb_le _ _)) by lia. by exists sc.
    + rewrite zlen_cons. pose proof (zlen_nonneg rest). rewrite (proj2 (Z.leb_gt _ _)) by lia.
      pose proof (sees_rest _ _ _ _ (proj1 Hp)) as Hs. cbn [fst snd] in Hs. apply holds_cons in Hs as [-> _].
      cbn [mbind option_bind]. destruct (advance_pos _ _ _ _ _ 1 Hp) as (sc' & E & Hp'); [cbn; lia|].
      change (Z.of_nat 1) with 1 in E. rewrite E. by exists sc'.
  - unfold vox_scanner_get. rewrite (peek_spec sc (past, rest)) by (done || (cbn [fst]; lia)). apply Hget, Hclamp. lia.
  - unfold vox_scanner_get_until_charset. rewrite (peek_until_charset_spec sc (past, rest)) by done.
    apply Hget, until_set_le.
  - unfold vox_scanner_get_until_char. rewrite (peek_until_char_spec sc (past, rest)) by done.
    apply Hget, until_length_le.
  - unfold vox_scanner_get_until_str. rewrite (peek_until_str_spec sc (past, rest)) by done.
    apply Hget, until_str_le.
  - unfold vox_scanner_get_charset. rewrite (run_spec sc (past, rest) _ (cs_mem cs)) by (done || (intros; by apply cs_contains)).
    cbn [mbind option_bind fst snd]. destruct (over_run sc (past, rest) (cs_mem cs) Hp) as (sc' & E & Hp').
    cbn [fst snd] in E. rewrite E. cbn [mbind option_bind].
    rewrite (run_length sc (past, rest)) by done. exists sc'. split; [|done]. cbn [fst snd]. by rewrite Hc.
  - unfold vox_scanner_skip. rewrite (remaining_spec sc (past, rest)) by done. cbn [fst snd].
    replace (if zlen rest <? count then zlen rest else count) with (Z.of_nat (Z.to_nat (Z.min count (zlen rest))))
      by (destruct (Z.ltb_spec (zlen rest) count); lia).
    destruct (advance_pos _ _ _ _ _ (Z.to_nat (Z.min count (zlen rest))) Hp) as (sc' & E & Hp'); [by apply Hclamp|].
    rewrite E. by exists sc'.
  - unfold vox_scanner_skip_charset. rewrite (run_spec sc (past, rest) _ (cs_mem cs)) by (done || (intros; by apply cs_contains)).
    cbn [mbind option_bind fst snd]. destruct (over_run sc (past, rest) (cs_mem cs) Hp) as (sc' & E & Hp').
    cbn [fst snd] in E. rewrite E.
    rewrite (run_length sc (past, rest)) by done. by exists sc'.
  - unfold vox_scanner_skip_ws. rewrite (run_spec sc (past, rest) _ is_whitespace) by done.
    cbn [mbind option_bind fst snd]. rewrite (run_length sc (past, rest)) by done.
    eexists. split; [done|]. exact (over_run' sc (past, rest) is_whitespace Hp).
  - unfold vox_scanner_skip_newline. rewrite (run_spec sc (past, rest) _ is_newline) by done.
    cbn [mbind option_bind fst snd]. rewrite (run_length sc (past, rest)) by done.
    eexists. split; [done|]. exact (over_run' sc (past, rest) is_newline Hp).
  - rewrite (restore_spec sc (past, rest)) by done. cbn [fst snd].
    destruct ((0 <=? state - base) && (state - base <=? zlen past + zlen rest)) eqn:E; [|by exists sc].
    eexists. split; [done|]. apply andb_true_iff in E as [E1%Z.leb_le E2%Z.leb_le].
    apply (restore_pos sc (past, rest)); [done|cbn; lia].
Qed.
End operations.


(** ** What a scanner promises *)

Fixpoint run_all (mem : Z -> option Z) (sc : vox_scanner) (ops : list scan_op) : option (vox_scanner * list scan_result) :=
  match ops with
  | [] => Some (sc, [])
  | op :: ops => '(sc, r) ← run_scan mem sc op; '(sc, rs) ← run_all mem sc ops; Some (sc, r :: rs)
  end.

Fixpoint spec_all (base fl : Z) (s : position) (ops : list scan_op) : position * list scan_result :=
  match ops with
  | [] => (s, [])
  | op :: ops =>
      let '(s, r) := spec_scan base fl s op in
      let '(s, rs) := spec_all base fl s ops in (s, r :: rs)
  end.

Fixpoint scan_ops_ok (base fl : Z) (s : position) (ops : list scan_op) : Prop :=
  match ops with
  | [] => True
  | op :: ops => scan_op_ok base s op /\ scan_ops_ok base fl (spec_scan base fl s op).1 ops
  end.

(** A view inside the text from [base] on. *)
Definition in_text (base : Z) (text : list Z) (r : scan_result) : Prop :=
  match r with
  | Text v => base <= v_ptr v /\ 0 <= v_len v /\ v_ptr v + v_len v <= base + zlen text
  | _ => True
  end.

Lemma advance_text fl s n : (n <= length s.2)%nat -> (spec_advance fl s n).1 ++ (spec_advance fl s n).2 = s.1 ++ s.2.
Proof. intros Hn. unfold spec_advance. cbn [fst snd]. by rewrite <-!app_assoc, take_drop_while, take_drop. Qed.

Lemma scan_text base fl s op :
  scan_op_ok base s op ->
  (spec_scan base fl s op).1.1 ++ (spec_scan base fl s op).1.2 = s.1 ++ s.2 /\
  in_text base (s.1 ++ s.2) (spec_scan base fl s op).2.
Proof.
  destruct s as [past rest]. intros Hop.
  assert (Hclamp : forall n, 0 <= n -> (Z.to_nat (Z.min n (zlen rest)) <= length rest)%nat) by (intros; unfold zlen; lia).
  assert (Hview : forall n, (n <= length rest)%nat -> in_text base (past ++ rest) (Text (View (base + zlen past) (Z.of_nat n)))).
  { intros n Hn. cbn. rewrite zlen_app. unfold zlen. lia. }
  assert (Hadv : forall n, (n <= length rest)%nat ->
    (spec_advance fl (past, rest) n).1 ++ (spec_advance fl (past, rest) n).2 = past ++ rest) by (intros; by apply advance_text).
  destruct op; cbn [spec_scan fst snd scan_op_ok] in *;
    try (split; [done|exact I]); try (split; [done|]; apply Hview); try (split; [apply Hadv|apply Hview]);
    try (apply Hclamp; lia); try apply until_set_le; try apply until_length_le; try apply until_str_le;
    try apply take_while_length.
  - destruct rest as [|ch rest]; [done|]. split; [|exact I]. apply Hadv. cbn. lia.
  - split; [|exact I]. apply Hadv, Hclamp. lia.
  - split; [|exact I]. apply Hadv, take_while_length.
  - by rewrite <-app_assoc, take_drop_while.
  - by rewrite <-app_assoc, take_drop_while.
  - destruct (_ && _); [|done]. cbn [fst snd]. by rewrite take_drop.
Qed.

Lemma scan_run mem base fl sc s ops :
  at_pos mem base fl sc s -> scan_ops_ok base fl s ops ->
  exists sc', run_all mem sc ops = Some (sc', (spec_all base fl s ops).2) /\
    at_pos mem base fl sc' (spec_all base fl s ops).1 /\
    (spec_all base fl s ops).1.1 ++ (spec_all base fl s ops).1.2 = s.1 ++ s.2 /\
    Forall (in_text base (s.1 ++ s.2)) (spec_all base fl s ops).2.
Proof.
  revert sc s. induction ops as [|op ops IH]; intros sc s Hp Hok; cbn [run_all spec_all scan_ops_ok] in *.
  { exists sc. cbn [fst snd]. split_and!; [done..|by apply Forall_nil]. }
  destruct Hok as [Hop Hok]. destruct (scan_step mem base fl sc s op Hp Hop) as (sc1 & -> & Hp1).
  destruct (scan_text base fl s op Hop) as [Ht Hv].
  destruct (spec_scan base fl s op) as [s1 r]. cbn [mbind option_bind fst snd] in *.
  destruct (IH sc1 s1 Hp1 Hok) as (sc2 & -> & Hp2 & Ht2 & Hv2).
  destruct (spec_all base fl s1 ops) as [s2 rs]. cbn [mbind option_bind fst snd] in *.
  exists sc2. rewrite Ht in Ht2, Hv2. split; [done|]. split; [done|]. split; [done|]. by apply Forall_cons.
Qed.

Lemma init_at mem buf text flags :
  0 < buf -> buf + zlen text < 2 ^ 64 -> is_bytes text -> holds mem buf (text ++ [0]) ->
  exists sc, vox_scanner_init mem buf (zlen text) flags = Some (Some sc) /\
    at_pos mem buf flags sc (spec_advance flags ([], text) 0).
Proof.
  intros Hb Hl Hbs Hm. apply holds_app in Hm as [Ht [H0 _]%holds_cons]. unfold vox_scanner_init, NULL.
  rewrite (proj2 (Z.eqb_neq buf 0)) by lia.
  assert (at_pos mem buf flags (Scanner buf (buf + zlen text) buf flags) ([], text)) as Hp.
  { split; [|done]. constructor; cbn; rewrite ?zlen_nil; try done; lia. }
  destruct (auto_skip_spec _ _ _ _ _ Hp) as (sc & E & Hp'). exists sc. split; [|done].
  destruct (0 <? zlen text); [rewrite H0|]; cbn [mbind option_bind Z.eqb negb]; by rewrite E.
Qed.

(** C39: A scanner over a text never reads outside it. Started on a terminated text, and for
    every sequence of its operations with arguments that do not wrap an address, it does on
    its pointers exactly what the specification does on the text in front of and behind the
    current position: the same characters, lengths and views, the same position, whatever the
    automatic skipping skips. The text is never cut or reordered, and every view it hands out
    lies in the text. *)
Theorem scanner_refines_text mem buf text fl ops :
  0 < buf -> buf + zlen text < 2 ^ 64 -> is_bytes text -> holds mem buf (text ++ [0]) ->
  scan_ops_ok buf fl (spec_advance fl ([], text) 0) ops ->
  exists sc sc' s rs, vox_scanner_init mem buf (zlen text) fl = Some (Some sc) /\
    run_all mem sc ops = Some (sc', rs) /\ spec_all buf fl (spec_advance fl ([], text) 0) ops = (s, rs) /\
    s.1 ++ s.2 = text /\ vox_scanner_offset sc' = zlen s.1 /\ Forall (in_text buf text) rs.
Proof.
  intros Hb Hl Hbs Hm Hok. destruct (init_at mem buf text fl Hb Hl Hbs Hm) as (sc & E & Hp).
  destruct (scan_run _ _ _ _ _ _ Hp Hok) as (sc' & Er & Hp' & Ht & Hv).
  rewrite (advance_text fl ([], text) 0) in Ht, Hv by (cbn; lia).
  destruct (spec_all buf fl _ ops) as [s rs] eqn:Es. exists sc, sc', s, rs. cbn [fst snd] in *.
  split_and!; try done.
  destruct (scan_step _ _ _ _ _ Offset Hp' I) as (sc2 & E2 & _). cbn in E2. destruct s. by injection E2 as _ ->.
Qed.

(** Memory that holds [l] at [base] and nothing else. *)
Definition mem_of (base : Z) (l : list Z) (a : Z) : option Z := l.[a - base].

Lemma holds_mem_of base l : holds (mem_of base l) base l.
Proof.
  intros i x Hx. unfold mem_of. rewrite arr_get_lookup by lia.
  by replace (Z.to_nat (base + Z.of_nat i - base)) with i by lia.
Qed.

Definition ex_text : list Z := bytes_of "  key = value\n"%string.

Lemma scanner_refines_text_witness :
  exists sc sc' s rs, vox_scanner_init (mem_of 4096 (ex_text ++ [0])) 4096 (zlen ex_text) 1 = Some (Some sc) /\
    run_all (mem_of 4096 (ex_text ++ [0])) sc [GetUntilChar 61 false; PeekChar; Skip 1; GetUntilStr [97; 108] true; Eof] = Some (sc', rs) /\
    spec_all 4096 1 (spec_advance 1 ([], ex_text) 0) [GetUntilChar 61 false; PeekChar; Skip 1; GetUntilStr [97; 108] true; Eof] = (s, rs) /\
    s.1 ++ s.2 = ex_text /\ vox_scanner_offset sc' = zlen s.1 /\ Forall (in_text 4096 ex_text) rs.
Proof.
  apply scanner_refines_text; [done|done| |apply holds_mem_of|by vm_compute].
  apply (bool_decide_unpack _). by vm_compute.
Defined.

(** The addresses of a long view wrap: the clamp is not reached. *)
Example peek_wraps :
  vox_scanner_peek (Scanner 4096 4101 4098 0) SIZE_MAX = View 4098 SIZE_MAX.
Proof. reflexivity. Qed.

(** C40: Building a character set from characters and ranges adds exactly the characters
    named, in either order of the ends, and the classes are the ones of the C locale; but a
    range that reaches the last character 255 never ends. *)
Theorem charset_ranges cs a b fuel :
  cs_ok cs -> 0 <= a < 256 -> 0 <= b < 256 ->
  (Z.max a b < 255 -> exists cs', vox_charset_add_range cs a b = Some cs' /\ cs_ok cs' /\
     forall ch, 0 <= ch < 256 -> vox_charset_contains cs' ch = Some ((Z.min a b <=? ch) && (ch <=? Z.max a b) || cs_mem cs ch)) /\
  (Z.max a b = 255 -> range_loop fuel cs (Z.min a b) 255 = None) /\
  (exists c1 c2 c3, vox_charset_add_alnum cs = Some c1 /\ vox_charset_add_space cs = Some c2 /\
     vox_charset_add_char cs a = Some c3 /\ cs_ok c1 /\ cs_ok c2 /\ cs_ok c3 /\
     forall ch, 0 <= ch < 256 ->
       vox_charset_contains c1 ch = Some ((97 <=? ch) && (ch <=? 122) || (65 <=? ch) && (ch <=? 90) || isdigit ch || cs_mem cs ch) /\
       vox_charset_contains c2 ch = Some (isspace ch || cs_mem cs ch) /\
       vox_charset_contains c3 ch = Some ((ch =? a) || cs_mem cs ch)).
Proof.
  intros Hcs Ha Hb. split; [|split].
  - intros Hm. destruct (add_range_spec cs a b Hcs ltac:(lia) ltac:(lia)) as (c & E & Hc & Hch). exists c.
    split; [done|]. split; [done|]. intros ch H. by rewrite cs_contains, Hch by done.
  - intros _. apply range_loop_diverges. lia.
  - unfold vox_charset_add_alnum, vox_charset_add_alpha, vox_charset_add_digit, vox_charset_add_space, vox_charset_add_char.
    destruct (add_range_spec cs 97 122 Hcs ltac:(lia) ltac:(lia)) as (d1 & -> & Hd1 & M1). cbn [mbind option_bind].
    destruct (add_range_spec d1 65 90 Hd1 ltac:(lia) ltac:(lia)) as (d2 & -> & Hd2 & M2). cbn [mbind option_bind].
    destruct (add_range_spec d2 48 57 Hd2 ltac:(lia) ltac:(lia)) as (d3 & -> & Hd3 & M3).
    destruct (set_bit_spec cs 32 Hcs ltac:(lia)) as (e1 & -> & He1 & N1). cbn [mbind option_bind].
    destruct (set_bit_spec e1 9 He1 ltac:(lia)) as (e2 & -> & He2 & N2). cbn [mbind option_bind].
    destruct (set_bit_spec e2 10 He2 ltac:(lia)) as (e3 & -> & He3 & N3). cbn [mbind option_bind].
    destruct (set_bit_spec e3 13 He3 ltac:(lia)) as (e4 & -> & He4 & N4). cbn [mbind option_bind].
    destruct (set_bit_spec e4 11 He4 ltac:(lia)) as (e5 & -> & He5 & N5). cbn [mbind option_bind].
    destruct (set_bit_spec e5 12 He5 ltac:(lia)) as (e6 & -> & He6 & N6).
    destruct (set_bit_spec cs a Hcs Ha) as (f1 & -> & Hf1 & F1).
    exists d3, e6, f1. split_and!; try done. intros ch H. rewrite !cs_contains by done.
    rewrite M3, M2, M1, N6, N5, N4, N3, N2, N1, F1 by done. unfold isdigit, isspace.
    split_and!; f_equal.
    + destruct (cs_mem cs ch); rewrite ?orb_true_r, ?orb_false_r; [done|].
      apply eq_iff_eq_true. rewrite !orb_true_iff, !andb_true_iff, !Z.leb_le. lia.
    + destruct (cs_mem cs ch); rewrite ?orb_true_r, ?orb_false_r; [done|].
      apply eq_iff_eq_true. rewrite !orb_true_iff, andb_true_iff, !Z.eqb_eq, !Z.leb_le. lia.
Qed.
Lemma charset_ranges_witness :
  (Z.max 122 97 < 255 -> exists cs', vox_charset_add_range vox_charset_init 122 97 = Some cs' /\ cs_ok cs' /\
     forall ch, 0 <= ch < 256 ->
       vox_charset_contains cs' ch = Some ((Z.min 122 97 <=? ch) && (ch <=? Z.max 122 97) || cs_mem vox_charset_init ch)) /\
  range_loop 1000 vox_charset_init (Z.min 97 255) 255 = None.
Proof.
  destruct charset_init_ok as [Hi _]. split.
  - exact (proj1 (charset_ranges vox_charset_init 122 97 0 Hi ltac:(lia) ltac:(lia))).
  - exact (proj1 (proj2 (charset_ranges vox_charset_init 97 255 1000 Hi ltac:(lia) ltac:(lia))) eq_refl).
Defined.

End Scanner.
