(* ===== verification/Http.v ===== *)
(** * vox_http_parser.c: the streaming parser of HTTP messages

    src/http/vox_http_parser.c copies what it is fed into a buffer of the pool and scans the
    unread part of the buffer with the scanner of Scanner.v: a start line, header lines, then
    a body of a known length or in chunks. Callbacks are functions of the user's own state
    that return the [int] of the C callback and may look at what the getters of the parser
    report; they do not reset the parser. *)

From Stdlib Require Import String Ascii.
From S2P Require Import Prelude Alloc CString Scanner.

Module Http.
Import CString Scanner.

(** ** Constants *)

Definition VOX_HTTP_PARSER_BUF_INIT : Z := 4096.
Definition VOX_HTTP_PARSER_BUF_MAX : Z := 1024 * 1024.
Definition sizeof_http_parser : Z := 472.

(** src/http/vox_http_parser.c:18-30: vox_http_phase_t *)
Inductive vox_http_phase_t :=
| VOX_HTTP_PHASE_INIT | VOX_HTTP_PHASE_START_LINE | VOX_HTTP_PHASE_HEADER_NAME | VOX_HTTP_PHASE_HEADER_VALUE
| VOX_HTTP_PHASE_HEADERS_DONE | VOX_HTTP_PHASE_BODY | VOX_HTTP_PHASE_CHUNK_SIZE | VOX_HTTP_PHASE_CHUNK_DATA
| VOX_HTTP_PHASE_CHUNK_END | VOX_HTTP_PHASE_MESSAGE_COMPLETE | VOX_HTTP_PHASE_ERROR.

#[export] Instance phase_eq_dec : EqDecision vox_http_phase_t.
Proof. solve_decision. Defined.

(** src/http/vox_http_parser.h:32-36: vox_http_parser_type_t *)
Inductive vox_http_parser_type_t :=
| VOX_HTTP_PARSER_TYPE_BOTH | VOX_HTTP_PARSER_TYPE_REQUEST | VOX_HTTP_PARSER_TYPE_RESPONSE.

#[export] Instance parser_type_eq_dec : EqDecision vox_http_parser_type_t.
Proof. solve_decision. Defined.

(** src/http/vox_http_parser.h:43-54: vox_http_method_t *)
Inductive vox_http_method_t :=
| VOX_HTTP_METHOD_UNKNOWN | VOX_HTTP_METHOD_GET | VOX_HTTP_METHOD_HEAD | VOX_HTTP_METHOD_POST | VOX_HTTP_METHOD_PUT
| VOX_HTTP_METHOD_DELETE | VOX_HTTP_METHOD_CONNECT | VOX_HTTP_METHOD_OPTIONS | VOX_HTTP_METHOD_TRACE
| VOX_HTTP_METHOD_PATCH.

(** ** Data *)

(** What the getters of the parser report, and the counters of a message.

    src/http/vox_http_parser.c:51-71: struct vox_http_parser *)
Record http_msg := Msg {
  method : vox_http_method_t;
  http_major : Z;
  http_minor : Z;
  status_code : Z;
  content_length : Z;
  body_read : Z;
  chunked : bool;
  chunk_remaining : Z;
  connection_close : bool;
  connection_keepalive : bool;
  upgrade : bool;
  header_count : Z;
  message_complete : bool;
  has_error : bool;
}.

Definition no_msg : http_msg := Msg VOX_HTTP_METHOD_UNKNOWN 0 0 0 0 0 false 0 false false false 0 false false.

(** src/http/vox_http_parser.h:138-149: vox_http_callbacks_t *)
Record vox_http_callbacks_t (U : Type) := Callbacks {
  on_message_begin : option (http_msg -> U -> U * Z);
  on_url : option (http_msg -> list Z -> U -> U * Z);
  on_status : option (http_msg -> list Z -> U -> U * Z);
  on_header_field : option (http_msg -> list Z -> U -> U * Z);
  on_header_value : option (http_msg -> list Z -> U -> U * Z);
  on_headers_complete : option (http_msg -> U -> U * Z);
  on_body : option (http_msg -> list Z -> U -> U * Z);
  on_message_complete : option (http_msg -> U -> U * Z);
  on_error : option (http_msg -> list Z -> U -> U * Z);
}.
Arguments Callbacks {U}.
Arguments on_message_begin {U}. Arguments on_url {U}. Arguments on_status {U}. Arguments on_header_field {U}.
Arguments on_header_value {U}. Arguments on_headers_complete {U}. Arguments on_body {U}.
Arguments on_message_complete {U}. Arguments on_error {U}.

Definition no_callbacks {U} : vox_http_callbacks_t U := Callbacks None None None None None None None None None.

(** src/http/vox_http_parser.h:156-162: vox_http_parser_config_t *)
Record vox_http_parser_config_t := Config {
  cfg_type : vox_http_parser_type_t;
  max_header_size : Z;
  max_headers : Z;
  max_url_size : Z;
  strict_mode : bool;
}.

(** The buffer: its address and content, the unread part and the capacity.

    src/http/vox_http_parser.c:39-43: struct vox_http_parser *)
Record http_buf := HBuf { b_at : Z; b_cells : list Z; buf_off : Z; buf_size : Z; buf_capacity : Z }.

(** src/http/vox_http_parser.c:33-75: struct vox_http_parser *)
Record vox_http_parser (U : Type) := Parser {
  self : Z;
  config : vox_http_parser_config_t;
  callbacks : vox_http_callbacks_t U;
  hbuf : http_buf;
  stream : vox_scanner_stream;
  phase : vox_http_phase_t;
  error_msg : list Z;
  msg : http_msg;
}.
Arguments Parser {U}. Arguments self {U}. Arguments config {U}. Arguments callbacks {U}. Arguments hbuf {U}.
Arguments stream {U}. Arguments phase {U}. Arguments error_msg {U}. Arguments msg {U}.

(** Assignments to single fields. *)
Definition with_hbuf {U} (p : vox_http_parser U) b := Parser (self p) (config p) (callbacks p) b (stream p) (phase p) (error_msg p) (msg p).
Definition with_stream {U} (p : vox_http_parser U) s := Parser (self p) (config p) (callbacks p) (hbuf p) s (phase p) (error_msg p) (msg p).
Definition with_phase {U} (p : vox_http_parser U) ph := Parser (self p) (config p) (callbacks p) (hbuf p) (stream p) ph (error_msg p) (msg p).
Definition with_msg {U} (p : vox_http_parser U) m := Parser (self p) (config p) (callbacks p) (hbuf p) (stream p) (phase p) (error_msg p) m.

Definition with_method m x := Msg x (http_major m) (http_minor m) (status_code m) (content_length m) (body_read m) (chunked m)
  (chunk_remaining m) (connection_close m) (connection_keepalive m) (upgrade m) (header_count m) (message_complete m) (has_error m).
Definition with_version m x y := Msg (method m) x y (status_code m) (content_length m) (body_read m) (chunked m)
  (chunk_remaining m) (connection_close m) (connection_keepalive m) (upgrade m) (header_count m) (message_complete m) (has_error m).
Definition with_status m x := Msg (method m) (http_major m) (http_minor m) x (content_length m) (body_read m) (chunked m)
  (chunk_remaining m) (connection_close m) (connection_keepalive m) (upgrade m) (header_count m) (message_complete m) (has_error m).
Definition with_length m x := Msg (method m) (http_major m) (http_minor m) (status_code m) x (body_read m) (chunked m)
  (chunk_remaining m) (connection_close m) (connection_keepalive m) (upgrade m) (header_count m) (message_complete m) (has_error m).
Definition with_read m x := Msg (method m) (http_major m) (http_minor m) (status_code m) (content_length m) x (chunked m)
  (chunk_remaining m) (connection_close m) (connection_keepalive m) (upgrade m) (header_count m) (message_complete m) (has_error m).
Definition with_chunked m x := Msg (method m) (http_major m) (http_minor m) (status_code m) (content_length m) (body_read m) x
  (chunk_remaining m) (connection_close m) (connection_keepalive m) (upgrade m) (header_count m) (message_complete m) (has_error m).
Definition with_chunk m x := Msg (method m) (http_major m) (http_minor m) (status_code m) (content_length m) (body_read m) (chunked m)
  x (connection_close m) (connection_keepalive m) (upgrade m) (header_count m) (message_complete m) (has_error m).
Definition with_connection m x y := Msg (method m) (http_major m) (http_minor m) (status_code m) (content_length m) (body_read m) (chunked m)
  (chunk_remaining m) x y (upgrade m) (header_count m) (message_complete m) (has_error m).
Definition with_upgrade m x := Msg (method m) (http_major m) (http_minor m) (status_code m) (content_length m) (body_read m) (chunked m)
  (chunk_remaining m) (connection_close m) (connection_keepalive m) x (header_count m) (message_complete m) (has_error m).
Definition with_count m x := Msg (method m) (http_major m) (http_minor m) (status_code m) (content_length m) (body_read m) (chunked m)
  (chunk_remaining m) (connection_close m) (connection_keepalive m) (upgrade m) x (message_complete m) (has_error m).
Definition with_complete m x := Msg (method m) (http_major m) (http_minor m) (status_code m) (content_length m) (body_read m) (chunked m)
  (chunk_remaining m) (connection_close m) (connection_keepalive m) (upgrade m) (header_count m) x (has_error m).
Definition with_error m x := Msg (method m) (http_major m) (http_minor m) (status_code m) (content_length m) (body_read m) (chunked m)
  (chunk_remaining m) (connection_close m) (connection_keepalive m) (upgrade m) (header_count m) (message_complete m) x.

(** src/http/vox_http_parser.c: set_error *)
Definition set_error {U} (p : vox_http_parser U) (text : string) : vox_http_parser U :=
  Parser (self p) (config p) (callbacks p) (hbuf p) (stream p) VOX_HTTP_PHASE_ERROR
    (take 127 (bytes_of text)) (with_error (msg p) true).

(** ** Words *)

(** src/http/vox_http_parser.c:78-81: method_names *)
Definition method_names : list (list Z * vox_http_method_t) :=
  [(bytes_of "GET", VOX_HTTP_METHOD_GET); (bytes_of "HEAD", VOX_HTTP_METHOD_HEAD); (bytes_of "POST", VOX_HTTP_METHOD_POST);
   (bytes_of "PUT", VOX_HTTP_METHOD_PUT); (bytes_of "DELETE", VOX_HTTP_METHOD_DELETE);
   (bytes_of "CONNECT", VOX_HTTP_METHOD_CONNECT); (bytes_of "OPTIONS", VOX_HTTP_METHOD_OPTIONS);
   (bytes_of "TRACE", VOX_HTTP_METHOD_TRACE); (bytes_of "PATCH", VOX_HTTP_METHOD_PATCH)]%string.

(** The first name of the same length and with the same characters.

    src/http/vox_http_parser.c: parse_method *)
Definition parse_method (l : list Z) : vox_http_method_t :=
  match list_find (fun e => e.1 = l) method_names with
  | Some (_, (_, m)) => m
  | None => VOX_HTTP_METHOD_UNKNOWN
  end.

Definition is_ows (ch : Z) : bool := (ch =? 32) || (ch =? 9).

(** [strncasecmp(l, name, strlen(name)) == 0], for a text at least as long as the name. *)
Definition same_prefix (l name : list Z) : bool :=
  bool_decide (tolower <$> take (length name) l = tolower <$> name).

(** src/http/vox_http_parser.c: header_name_is *)
Definition header_name_is (l : list Z) (name : string) : bool :=
  if zlen l =? zlen (bytes_of name) then same_prefix l (bytes_of name) else false.

(** The text without white space at both ends. *)
Definition trim_both (l : list Z) : list Z :=
  rev (drop_while is_ows (rev (drop_while is_ows l))).

(** src/http/vox_http_parser.c: header_value_is_chunked *)
Definition header_value_is_chunked (l : list Z) : bool :=
  let l := trim_both l in
  if zlen l =? 7 then same_prefix l (bytes_of "chunked"%string) else false.

(** [*out = *out * 10 + digit], with the test for an overflow; [None]: -1. *)
Fixpoint decimal_loop (l : list Z) (out : Z) : option Z :=
  match l with
  | [] => Some out
  | ch :: l =>
      if negb (isdigit ch) then None else
      let next := u64 (u64 (out * 10) + (ch - 48)) in
      if next <? out then None else decimal_loop l next
  end.

(** src/http/vox_http_parser.c: parse_content_length *)
Definition parse_content_length (l : list Z) : option Z :=
  match drop_while is_ows l with [] => None | l => decimal_loop l 0 end.

(** The value of a hexadecimal digit. *)
Definition hex_digit (ch : Z) : option Z :=
  if (48 <=? ch) && (ch <=? 57) then Some (ch - 48)
  else if (97 <=? ch) && (ch <=? 102) then Some (ch - 97 + 10)
  else if (65 <=? ch) && (ch <=? 70) then Some (ch - 65 + 10)
  else None.

Fixpoint hex_loop (l : list Z) (out : Z) : option Z :=
  match l with
  | [] => Some out
  | ch :: l =>
      match hex_digit ch with
      | None => None
      | Some digit =>
          if Z.shiftr SIZE_MAX 4 <? out then None else
          let next := u64 (u64 (Z.shiftl out 4) + digit) in
          if next <? out then None else hex_loop l next
      end
  end.

(** src/http/vox_http_parser.c: parse_chunk_size *)
Definition parse_chunk_size (l : list Z) : option Z :=
  match drop_while is_ows l with [] => None | l => hex_loop l 0 end.

(** The loop over the words of a Connection header. *)
Fixpoint connection_loop (fuel : nat) (l : list Z) (close keep : bool) : option (bool * bool) :=
  match fuel with
  | O => None
  | S fuel =>
      match l with
      | [] => Some (close, keep)
      | _ =>
          let l := drop_while (fun ch => is_ows ch || (ch =? 44)) l in
          if (5 <=? zlen l) && same_prefix l (bytes_of "close"%string)
          then connection_loop fuel (drop 5 l) true keep
          else if (10 <=? zlen l) && same_prefix l (bytes_of "keep-alive"%string)
          then connection_loop fuel (drop 10 l) close true
          else Some (close, keep)
      end
  end.

(** src/http/vox_http_parser.c: looks_like_response *)
Definition looks_like_response (l : list Z) : bool := starts_with (bytes_of "HTTP/"%string) l.

Definition CRLF : list Z := [13; 10].

(** The value of a [char]. *)
Definition s8 (x : Z) : Z := if x <? 128 then x else x - 256.


(** ** Callbacks

    A call where the code tests the pointer first; an empty text is not handed on. *)

Definition call0 {U} (cb : option (http_msg -> U -> U * Z)) (m : http_msg) (u : U) : U * Z :=
  match cb with Some f => f m u | None => (u, 0) end.
Definition call1 {U} (cb : option (http_msg -> list Z -> U -> U * Z)) (m : http_msg) (l : list Z) (u : U) : U * Z :=
  match cb with Some f => if zlen l =? 0 then (u, 0) else f m l u | None => (u, 0) end.

(** src/http/vox_http_parser.c: invoke_message_begin *)
Definition invoke_message_begin {U} (p : vox_http_parser U) := call0 (on_message_begin (callbacks p)) (msg p).
(** src/http/vox_http_parser.c: invoke_url *)
Definition invoke_url {U} (p : vox_http_parser U) := call1 (on_url (callbacks p)) (msg p).
(** src/http/vox_http_parser.c: invoke_status *)
Definition invoke_status {U} (p : vox_http_parser U) := call1 (on_status (callbacks p)) (msg p).
(** src/http/vox_http_parser.c: invoke_header_field *)
Definition invoke_header_field {U} (p : vox_http_parser U) := call1 (on_header_field (callbacks p)) (msg p).
(** src/http/vox_http_parser.c: invoke_header_value *)
Definition invoke_header_value {U} (p : vox_http_parser U) := call1 (on_header_value (callbacks p)) (msg p).
(** src/http/vox_http_parser.c: invoke_headers_complete *)
Definition invoke_headers_complete {U} (p : vox_http_parser U) := call0 (on_headers_complete (callbacks p)) (msg p).
(** src/http/vox_http_parser.c: invoke_body *)
Definition invoke_body {U} (p : vox_http_parser U) := call1 (on_body (callbacks p)) (msg p).
(** src/http/vox_http_parser.c: invoke_message_complete *)
Definition invoke_message_complete {U} (p : vox_http_parser U) := call0 (on_message_complete (callbacks p)) (msg p).
(** src/http/vox_http_parser.c: invoke_error *)
Definition invoke_error {U} (p : vox_http_parser U) (u : U) : U * Z :=
  match on_error (callbacks p) with Some f => f (msg p) (error_msg p) u | None => (u, 0) end.

(** What a header changes in the parser; the result is 0 or -1.

    src/http/vox_http_parser.c: apply_header *)
Definition apply_header {U} (p : vox_http_parser U) (name value : list Z) : option (vox_http_parser U * Z) :=
  let m := msg p in
  if header_name_is name "Content-Length" then
    match drop_while is_ows value with
    | [] => Some (p, 0)
    | (c :: _) as v =>
        if c =? 45 then Some (set_error p "invalid Content-Length", -1) else
        if negb (forallb isdigit v) then Some (set_error p "invalid Content-Length", -1) else
        match parse_content_length value with
        | None => Some (set_error p "invalid Content-Length", -1)
        | Some cl => Some (with_msg p (with_length m cl), 0)
        end
    end
  else if header_name_is name "Transfer-Encoding" then
    Some (if header_value_is_chunked value then with_msg p (with_chunked m true) else p, 0)
  else if header_name_is name "Connection" then
    '(close, keep) ← connection_loop (S (length value)) value (connection_close m) (connection_keepalive m);
    Some (with_msg p (with_connection m close keep), 0)
  else if header_name_is name "Upgrade" then Some (with_msg p (with_upgrade m true), 0)
  else Some (p, 0).

Section parse.
Context {U : Type} (mem : Z -> option Z).
Implicit Types (p : vox_http_parser U) (sc : vox_scanner) (u : U).
#[local] Abbreviation result := (vox_http_parser U * vox_scanner * U * Z)%type.

(** The characters of a view. *)
Definition text (v : view) : option (list Z) := load mem (v_ptr v) (Z.to_nat (v_len v)).

(** The line without its end, and 0; -2: the end is not there yet.

    src/http/vox_http_parser.c: peek_line *)
Definition peek_line (sc : vox_scanner) : option (view * Z) :=
  out ← vox_scanner_peek_until_str mem sc CRLF false;
  let rem := vox_scanner_remaining sc in
  Some (out, if rem <? u64 (v_len out + 2) then -2 else 0).

Definition skip_line (sc : vox_scanner) : option vox_scanner :=
  '(sc, _) ← vox_scanner_get_until_str mem sc CRLF true; Some sc.

(** The digits of a version; the result is 0 or -1. *)
Definition take_version p (c5 c7 : Z) : vox_http_parser U * Z :=
  let p := with_msg p (with_version (msg p) (s8 c5 - 48) (s8 c7 - 48)) in
  if negb (http_major (msg p) =? 1) || (negb (http_minor (msg p) =? 0) && negb (http_minor (msg p) =? 1))
  then (set_error p "unsupported HTTP version", -1) else (p, 0).

(** The status code: up to three digits. *)
Fixpoint status_loop (n : nat) (l : list Z) (code : Z) : Z * list Z :=
  match n, l with
  | S n, ch :: l' => if isdigit ch then status_loop n l' (code * 10 + (ch - 48)) else (code, l)
  | _, _ => (code, l)
  end.

(** src/http/vox_http_parser.c:305-339: parse_start_line *)
Definition parse_response_line p u (l : list Z) : option (vox_http_parser U * U * Z) :=
  if zlen l <? 12 then Some (set_error p "invalid response line", u, -1) else
  c6 ← l.[6];
  if negb (c6 =? 46) || (zlen l <? 9) then Some (set_error p "invalid HTTP version", u, -1) else
  c5 ← l.[5]; c7 ← l.[7];
  let '(p, rc) := take_version p c5 c7 in
  if negb (rc =? 0) then Some (p, u, -1) else
  let rest := drop_while (fun ch => ch =? 32) (drop 9 l) in
  if zlen rest <? 3 then Some (set_error p "missing status code", u, -1) else
  let '(code, after) := status_loop 3 rest 0 in
  if zlen after =? zlen rest then Some (set_error p "invalid status code", u, -1) else
  let p := with_msg p (with_status (msg p) code) in
  let reason := drop_while (fun ch => ch =? 32) after in
  let '(u, _) := match reason with [] => (u, 0) | _ => invoke_status p reason u end in
  Some (p, u, 0).

(** src/http/vox_http_parser.c:340-383: parse_start_line *)
Definition parse_request_line p u (l : list Z) : option (vox_http_parser U * U * Z) :=
  let not_space ch := negb (ch =? 32) in
  let name := take_while not_space l in
  let left := drop_while not_space l in
  match name, left with
  | [], _ | _, [] => Some (set_error p "invalid request line", u, -1)
  | _, _ =>
      let p := with_msg p (with_method (msg p) (parse_method name)) in
      let left := drop_while (fun ch => ch =? 32) left in
      match take_while not_space left with
      | [] => Some (set_error p "missing URL", u, -1)
      | url =>
          if negb (max_url_size (config p) =? 0) && (max_url_size (config p) <? zlen url)
          then Some (set_error p "URL too long", u, -1) else
          let '(u, _) := invoke_url p url u in
          let left := drop_while (fun ch => ch =? 32) (drop_while not_space left) in
          if (zlen left <? 8) || negb (looks_like_response left)
          then Some (set_error p "invalid HTTP version", u, -1) else
          c6 ← left.[6];
          if negb (c6 =? 46) then Some (set_error p "invalid HTTP version", u, -1) else
          c5 ← left.[5]; c7 ← left.[7];
          let '(p, rc) := take_version p c5 c7 in
          Some (p, u, rc)
      end
  end.

(** src/http/vox_http_parser.c: parse_start_line *)
Definition parse_start_line p sc u : option result :=
  '(line, rc) ← peek_line sc;
  if negb (rc =? 0) then Some (p, sc, u, -2) else
  if v_len line =? 0 then Some (set_error p "empty start line", sc, u, -1) else
  l ← text line;
  '(p, u, rc) ← (if bool_decide (cfg_type (config p) = VOX_HTTP_PARSER_TYPE_RESPONSE) || looks_like_response l
                 then parse_response_line p u l else parse_request_line p u l);
  if negb (rc =? 0) then Some (p, sc, u, -1) else
  sc ← skip_line sc;
  Some (p, sc, u, 0).

(** A view without the white space in front of it, and without the white space behind. *)
Definition trim_left (v : view) : option view :=
  l ← text v;
  let n := zlen (take_while is_ows l) in Some (View (v_ptr v + n) (v_len v - n)).
Definition trim_right (v : view) : option view :=
  l ← text v;
  Some (View (v_ptr v) (v_len v - zlen (take_while is_ows (rev l)))).

(** src/http/vox_http_parser.c: trim_ows *)
Definition trim_ows (v : view) : option view := v ← trim_left v; trim_right v.

(** A header is handed on: its name, its value, then what it means to the parser. *)
Definition submit_header p u (field value : view) : option (vox_http_parser U * U * Z) :=
  name ← text field;
  val ← text value;
  let '(u, _) := invoke_header_field p name u in
  let '(u, _) := invoke_header_value p val u in
  '(p, rc) ← apply_header p name val;
  Some (p, u, rc).

(** The last header, where the line after it is not empty: it is counted too.

    src/http/vox_http_parser.c:423-434: parse_headers *)
Definition submit_previous p u (header : option (view * view)) : option (vox_http_parser U * U * Z) :=
  match header with
  | None => Some (p, u, 0)
  | Some (field, value) =>
      '(p, u, rc) ← submit_header p u field value;
      if negb (rc =? 0) then Some (p, u, -1) else
      if negb (max_headers (config p) =? 0) && (max_headers (config p) <=? header_count (msg p))
      then Some (set_error p "too many headers", u, -1)
      else Some (with_msg p (with_count (msg p) (u64 (header_count (msg p) + 1))), u, 0)
  end.

(** A line that starts a header: what follows is -1 or the header.

    src/http/vox_http_parser.c:435-454: parse_headers *)
Definition new_header p sc u (header : option (view * view)) (line : view) (l : list Z)
  : option (vox_http_parser U * vox_scanner * U * option (view * view)) :=
  '(p, u, rc) ← submit_previous p u header;
  if negb (rc =? 0) then Some (p, sc, u, None) else
  let colon := zlen (take_while (fun ch => negb (ch =? 58)) l) in
  if (colon =? 0) || (v_len line <=? colon) then Some (set_error p "invalid header line", sc, u, None) else
  field ← trim_ows (View (v_ptr line) colon);
  value ← trim_left (View (v_ptr line + colon + 1) (v_len line - (colon + 1)));
  value ← trim_right value;
  sc ← skip_line sc;
  Some (p, sc, u, Some (field, value)).

(** A line that continues the value of the header in front of it.

    src/http/vox_http_parser.c:411-422: parse_headers *)
Definition continue_header p sc u (header : view * view) (line : view)
  : option (vox_http_parser U * vox_scanner * U * option (view * view)) :=
  let '(field, value) := header in
  cont ← trim_right line;
  c ← text cont;
  let '(u, _) := invoke_header_value p c u in
  sc ← skip_line sc;
  Some (p, sc, u, Some (field, View (v_ptr value) (v_len value + (1 + v_len line)))).

(** The loop; [header] is the name and the value of the last line, not yet handed on.

    src/http/vox_http_parser.c: parse_headers *)
Fixpoint headers_loop (fuel : nat) p sc u (header : option (view * view)) : option result :=
  match fuel with
  | O => None
  | S fuel =>
      '(line, rc) ← peek_line sc;
      if negb (rc =? 0) then Some (p, sc, u, -2) else
      l ← text line;
      match l with
      | [] =>
          sc ← vox_scanner_skip mem sc 2;
          match header with
          | None => Some (p, sc, u, 0)
          | Some (field, value) => '(p, u, rc) ← submit_header p u field value; Some (p, sc, u, rc)
          end
      | ch :: _ =>
          '(p, sc, u, next) ← match header with
                              | Some h => if is_ows ch then continue_header p sc u h line else new_header p sc u header line l
                              | None => new_header p sc u header line l
                              end;
          match next with
          | None => Some (p, sc, u, -1)
          | Some _ => headers_loop fuel p sc u next
          end
      end
  end.

Definition parse_headers p sc u : option result :=
  headers_loop (S (Z.to_nat (vox_scanner_remaining sc))) p sc u None.

(** *** The phases

    [Continue] is the next round of the loop, [Return] the result; -1 leaves [consumed] as
    it was. *)
Inductive flow := Continue | Return (r : Z).

(** The message is complete. *)
Definition complete p sc u : vox_http_parser U * vox_scanner * U * flow :=
  let p := with_msg (with_phase p VOX_HTTP_PHASE_MESSAGE_COMPLETE) (with_complete (msg p) true) in
  let '(u, rc) := invoke_message_complete p u in
  if negb (rc =? 0) then (set_error p "callback error", sc, u, Return (-1)) else (p, sc, u, Return 0).

(** src/http/vox_http_parser.c:471-478: do_parse *)
Definition start_phase p sc u : option (vox_http_parser U * vox_scanner * U * flow) :=
  '(p, sc, u, r) ← parse_start_line p sc u;
  if r =? -2 then Some (p, sc, u, Return (-2)) else
  if negb (r =? 0) then Some (p, sc, u, Return (-1)) else
  let p := with_phase p VOX_HTTP_PHASE_HEADER_NAME in
  Some (with_msg p (with_count (msg p) 0), sc, u, Continue).

(** src/http/vox_http_parser.c:479-497: do_parse *)
Definition headers_phase p sc u : option (vox_http_parser U * vox_scanner * U * flow) :=
  '(p, sc, u, r) ← parse_headers p sc u;
  if r =? -2 then Some (p, sc, u, Return (-2)) else
  if negb (r =? 0) then Some (p, sc, u, Return (-1)) else
  let '(u, rc) := invoke_headers_complete p u in
  if negb (rc =? 0) then Some (set_error p "callback error", sc, u, Return (-1)) else
  if chunked (msg p) then Some (with_phase p VOX_HTTP_PHASE_CHUNK_SIZE, sc, u, Continue)
  else if 0 <? content_length (msg p) then Some (with_phase p VOX_HTTP_PHASE_BODY, sc, u, Continue)
  else Some (complete p sc u).

(** src/http/vox_http_parser.c:498-522: do_parse *)
Definition body_phase p sc u : option (vox_http_parser U * vox_scanner * U * flow) :=
  let rem := vox_scanner_remaining sc in
  let need := u64 (content_length (msg p) - body_read (msg p)) in
  if need =? 0 then Some (complete p sc u) else
  if rem =? 0 then Some (p, sc, u, Return (-2)) else
  let take_ := if need <? rem then need else rem in
  '(sc, seg) ← vox_scanner_get mem sc take_;
  l ← text seg;
  let '(u, rc) := invoke_body p l u in
  if negb (rc =? 0) then Some (set_error p "callback error", sc, u, Return (-1)) else
  let p := with_msg p (with_read (msg p) (u64 (body_read (msg p) + v_len seg))) in
  if content_length (msg p) <=? body_read (msg p) then Some (complete p sc u)
  else Some (p, sc, u, Continue).

(** The lines after the last chunk. *)
Fixpoint skip_trailers (fuel : nat) sc : option vox_scanner :=
  match fuel with
  | O => None
  | S fuel =>
      '(line, rc) ← peek_line sc;
      if (rc =? 0) && (0 <? v_len line) then sc ← skip_line sc; skip_trailers fuel sc else Some sc
  end.

(** src/http/vox_http_parser.c:523-550: do_parse *)
Definition chunk_size_phase p sc u : option (vox_http_parser U * vox_scanner * U * flow) :=
  '(line, rc) ← peek_line sc;
  if negb (rc =? 0) then Some (p, sc, u, Return (-2)) else
  l ← text line;
  match parse_chunk_size l with
  | None => Some (set_error p "invalid chunk size", sc, u, Return (-1))
  | Some chunk_size =>
      sc ← skip_line sc;
      let p := with_msg p (with_chunk (msg p) chunk_size) in
      if chunk_size =? 0 then
        sc ← skip_trailers (S (Z.to_nat (vox_scanner_remaining sc))) sc;
        sc ← (if 2 <=? vox_scanner_remaining sc then vox_scanner_skip mem sc 2 else Some sc);
        Some (complete p sc u)
      else Some (with_phase p VOX_HTTP_PHASE_CHUNK_DATA, sc, u, Continue)
  end.

(** src/http/vox_http_parser.c:551-566: do_parse *)
Definition chunk_data_phase p sc u : option (vox_http_parser U * vox_scanner * U * flow) :=
  let rem := vox_scanner_remaining sc in
  let left := chunk_remaining (msg p) in
  if left =? 0 then Some (with_phase p VOX_HTTP_PHASE_CHUNK_END, sc, u, Continue) else
  if rem =? 0 then Some (p, sc, u, Return (-2)) else
  let take_ := if left <? rem then left else rem in
  '(sc, seg) ← vox_scanner_get mem sc take_;
  l ← text seg;
  let '(u, rc) := invoke_body p l u in
  if negb (rc =? 0) then Some (set_error p "callback error", sc, u, Return (-1)) else
  let p := with_msg p (with_chunk (msg p) (u64 (left - take_))) in
  if chunk_remaining (msg p) =? 0 then Some (with_phase p VOX_HTTP_PHASE_CHUNK_END, sc, u, Continue)
  else Some (p, sc, u, Continue).

(** src/http/vox_http_parser.c:567-572: do_parse *)
Definition chunk_end_phase p sc u : option (vox_http_parser U * vox_scanner * U * flow) :=
  if vox_scanner_remaining sc <? 2 then Some (p, sc, u, Return (-2)) else
  sc ← vox_scanner_skip mem sc 2;
  Some (with_phase p VOX_HTTP_PHASE_CHUNK_SIZE, sc, u, Continue).

(** One round of the loop. *)
Definition round p sc u : option (vox_http_parser U * vox_scanner * U * flow) :=
  match phase p with
  | VOX_HTTP_PHASE_INIT =>
      let '(u, rc) := invoke_message_begin p u in
      if negb (rc =? 0) then Some (set_error p "callback error", sc, u, Return (-1)) else
      start_phase (with_phase p VOX_HTTP_PHASE_START_LINE) sc u
  | VOX_HTTP_PHASE_START_LINE => start_phase p sc u
  | VOX_HTTP_PHASE_HEADER_NAME | VOX_HTTP_PHASE_HEADER_VALUE => headers_phase p sc u
  | VOX_HTTP_PHASE_BODY => body_phase p sc u
  | VOX_HTTP_PHASE_CHUNK_SIZE => chunk_size_phase p sc u
  | VOX_HTTP_PHASE_CHUNK_DATA => chunk_data_phase p sc u
  | VOX_HTTP_PHASE_CHUNK_END => chunk_end_phase p sc u
  | _ => Some (p, sc, u, Return 0)
  end.

Fixpoint rounds (fuel : nat) p sc u : option result :=
  match fuel with
  | O => None
  | S fuel =>
      '(p, sc, u, f) ← round p sc u;
      match f with Continue => rounds fuel p sc u | Return r => Some (p, sc, u, r) end
  end.

(** The last number is [*consumed], which an error leaves at 0.

    src/http/vox_http_parser.c: do_parse *)
Definition do_parse p sc u : option (result * Z) :=
  if vox_scanner_eof sc then Some (p, sc, u, -2, 0) else
  let start_offset := vox_scanner_offset sc in
  '(p, sc', u, r) ← rounds (S (S (S (2 * Z.to_nat (vox_scanner_remaining sc))))) p sc u;
  Some (p, sc', u, r, if r =? -1 then 0 else u64 (vox_scanner_offset sc' - start_offset)).

End parse.

(** ** The parser *)

Section parser.
Context {P U : Type} `{MPool P}.
Context (junk : Z).
Implicit Types (p : P) (h : vox_http_parser U) (u : U) (b : http_buf).

(** src/http/vox_http_parser.c: compact_buf *)
Definition compact_buf b : option http_buf :=
  if (buf_off b =? 0) || (buf_size b =? 0) then Some b else
  c ← arr_blit (b_cells b) 0 (b_cells b) (buf_off b) (buf_size b);
  Some (HBuf (b_at b) c 0 (buf_size b) (buf_capacity b)).

(** The loop of the new capacity; [None] in the result: too large. *)
Fixpoint grow_cap (fuel : nat) (cap need : Z) : option (option Z) :=
  match fuel with
  | O => None
  | S fuel =>
      if cap <? need then
        let next := u64 (cap + Z.shiftr cap 1) in
        if (next <=? cap) || (VOX_HTTP_PARSER_BUF_MAX <? next) then Some None else grow_cap fuel next need
      else Some (Some cap)
  end.

(** The part that takes a larger block; the result is 0 or -1.

    src/http/vox_http_parser.c:167-183: ensure_buf *)
Definition grow_buf p b (need : Z) : option (P * http_buf * Z) :=
  let cap := if buf_capacity b =? 0 then VOX_HTTP_PARSER_BUF_INIT else buf_capacity b in
  r ← grow_cap 64 cap (u64 (buf_size b + need + 1));
  match r with
  | None => Some (p, b, -1)
  | Some cap =>
      let '(p, a, c) := alloc_cells junk p cap 1 in
      if a =? NULL then Some (p, b, -1) else
      c ← (if negb (b_at b =? NULL) && negb (buf_size b =? 0)
           then arr_blit c 0 (b_cells b) (buf_off b) (buf_size b) else Some c);
      let p := if b_at b =? NULL then p else mp_free p (b_at b) in
      Some (p, HBuf a c 0 (buf_size b) cap, 0)
  end.

(** src/http/vox_http_parser.c: ensure_buf *)
Definition ensure_buf p b (need : Z) : option (P * http_buf * Z) :=
  let want := u64 (buf_off b + buf_size b + need + 1) in
  if want <=? buf_capacity b then Some (p, b, 0) else
  '(b, fits) ← (if 0 <? buf_off b then
                  b ← compact_buf b; Some (b, u64 (buf_size b + need + 1) <=? buf_capacity b)
                else Some (b, false));
  if (fits : bool) then Some (p, b, 0) else grow_buf p b need.

(** src/http/vox_http_parser.c: vox_http_parser_create *)
Definition vox_http_parser_create p (config : option vox_http_parser_config_t) (callbacks : option (vox_http_callbacks_t U))
  : P * option (vox_http_parser U) :=
  let '(p, a) := mp_alloc p sizeof_http_parser in
  if a =? NULL then (p, None) else
  let config := match config with Some c => c | None => Config VOX_HTTP_PARSER_TYPE_BOTH 0 0 0 false end in
  let callbacks := match callbacks with Some c => c | None => no_callbacks end in
  (p, Some (Parser a config callbacks (HBuf NULL [] 0 0 0) (vox_scanner_stream_init 0) VOX_HTTP_PHASE_INIT [] no_msg)).

(** src/http/vox_http_parser.c: vox_http_parser_destroy *)
Definition vox_http_parser_destroy p h : P :=
  let '(p, _) := vox_scanner_stream_destroy p (stream h) in
  let p := if b_at (hbuf h) =? NULL then p else mp_free p (b_at (hbuf h)) in
  mp_free p (self h).

(** What the scanner reads: the block of the buffer. *)
Definition buf_mem b (a : Z) : option Z := (b_cells b).[a - b_at b].

(** The bytes consumed leave the buffer.

    src/http/vox_http_parser.c:657-662: vox_http_parser_execute *)
Definition drop_consumed b (consumed : Z) : option http_buf :=
  if 0 <? consumed then
    let b := HBuf (b_at b) (b_cells b) (u64 (buf_off b + consumed)) (u64 (buf_size b - consumed)) (buf_capacity b) in
    if (4096 <=? buf_off b) || ((0 <? buf_capacity b) && (Z.shiftr (buf_capacity b) 1 <? buf_off b))
    then compact_buf b else Some b
  else Some b.

(** New bytes go behind the unread ones, with a terminator.

    src/http/vox_http_parser.c:628-630: vox_http_parser_execute *)
Definition append_data b (data : list Z) : option http_buf :=
  c ← arr_blit (b_cells b) (buf_off b + buf_size b) data 0 (zlen data);
  let size := u64 (buf_size b + zlen data) in
  c ← c.[buf_off b + size <- 0];
  Some (HBuf (b_at b) c (buf_off b) size (buf_capacity b)).

(** What is in the buffer is parsed by the scanner of the stream.

    src/http/vox_http_parser.c:639-665: vox_http_parser_execute *)
Definition parse_unread p h u : option (P * vox_http_parser U * U * Z) :=
  let b := hbuf h in
  let s := stream h in
  '(h, sc, u, r, consumed) ← do_parse (buf_mem b) h (vox_scanner_stream_get_scanner s) u;
  let h := with_stream h (with_scanner s sc) in
  if r =? -1 then let '(u, _) := invoke_error h u in Some (p, h, u, -1) else
  let stuck := (r =? -2) && (consumed =? 0) && (0 <? buf_size b) in
  if stuck && negb (max_header_size (config h) =? 0) && (max_header_size (config h) <=? buf_size b) then
    let h := set_error h "header too large" in
    let '(u, _) := invoke_error h u in Some (p, h, u, -1)
  else
  let h := if stuck then with_phase h VOX_HTTP_PHASE_INIT else h in
  b ← drop_consumed b consumed;
  Some (p, with_hbuf h b, u, consumed).

(** src/http/vox_http_parser.c: vox_http_parser_execute *)
Definition vox_http_parser_execute p h u (data : list Z) : option (P * vox_http_parser U * U * Z) :=
  if has_error (msg h) || bool_decide (phase h = VOX_HTTP_PHASE_ERROR) then Some (p, h, u, -1) else
  if zlen data =? 0 then Some (p, h, u, 0) else
  '(p, b, rc) ← ensure_buf p (hbuf h) (zlen data);
  let h := with_hbuf h b in
  if negb (rc =? 0) then
    let h := set_error h "buffer alloc failed" in
    let '(u, _) := invoke_error h u in Some (p, h, u, -1) else
  b ← append_data b data;
  let h := with_hbuf h b in
  let '(p, s) := vox_scanner_stream_reset p (stream h) in
  '(p, s, rc) ← vox_scanner_stream_feed junk (buf_mem b) p s (b_at b + buf_off b) (buf_size b);
  let h := with_stream h s in
  if negb (rc =? 0) then Some (p, set_error h "stream feed failed", u, -1) else parse_unread p h u.

(** src/http/vox_http_parser.c: vox_http_parser_reset *)
Definition vox_http_parser_reset p h : P * vox_http_parser U :=
  let b := hbuf h in
  let '(p, s) := vox_scanner_stream_reset p (stream h) in
  (p, Parser (self h) (config h) (callbacks h) (HBuf (b_at b) (b_cells b) 0 0 (buf_capacity b)) s
        VOX_HTTP_PHASE_INIT [] no_msg).

(** src/http/vox_http_parser.c: vox_http_parser_is_complete *)
Definition vox_http_parser_is_complete h : bool := message_complete (msg h).
(** src/http/vox_http_parser.c: vox_http_parser_has_error *)
Definition vox_http_parser_has_error h : bool := has_error (msg h).
(** src/http/vox_http_parser.c: vox_http_parser_get_error *)
Definition vox_http_parser_get_error h : option (list Z) := if has_error (msg h) then Some (error_msg h) else None.
(** src/http/vox_http_parser.c: vox_http_parser_get_method *)
Definition vox_http_parser_get_method h : vox_http_method_t := method (msg h).
(** src/http/vox_http_parser.c: vox_http_parser_get_http_major *)
Definition vox_http_parser_get_http_major h : Z := http_major (msg h).
(** src/http/vox_http_parser.c: vox_http_parser_get_http_minor *)
Definition vox_http_parser_get_http_minor h : Z := http_minor (msg h).
(** src/http/vox_http_parser.c: vox_http_parser_get_status_code *)
Definition vox_http_parser_get_status_code h : Z := status_code (msg h).
(** src/http/vox_http_parser.c: vox_http_parser_get_content_length *)
Definition vox_http_parser_get_content_length h : Z := content_length (msg h).
(** src/http/vox_http_parser.c: vox_http_parser_is_chunked *)
Definition vox_http_parser_is_chunked h : bool := chunked (msg h).
(** src/http/vox_http_parser.c: vox_http_parser_is_connection_close *)
Definition vox_http_parser_is_connection_close h : bool := connection_close (msg h).
(** src/http/vox_http_parser.c: vox_http_parser_is_connection_keep_alive *)
Definition vox_http_parser_is_connection_keep_alive h : bool := connection_keepalive (msg h).
(** src/http/vox_http_parser.c: vox_http_parser_is_upgrade *)
Definition vox_http_parser_is_upgrade h : bool := upgrade (msg h).

(** How a connection of the server hands a read to the parser while no response is pending:
    what was not consumed is handed over again. The result is whether the connection is
    closed. [None] in the result: more bytes are consumed than are left, so that [left]
    wraps and the next call reads behind the data.

    src/http/vox_http_server.c:657-674: vox_http_tcp_read_cb *)
Fixpoint read_loop (fuel : nat) p h u (data : list Z) : option (P * vox_http_parser U * U * bool) :=
  match fuel with
  | O => None
  | S fuel =>
      if zlen data =? 0 then Some (p, h, u, false) else
      '(p, h, u, n) ← vox_http_parser_execute p h u data;
      if n <? 0 then Some (p, h, u, true) else
      if n =? 0 then Some (p, h, u, false) else
      if zlen data <? n then None else read_loop fuel p h u (drop (Z.to_nat n) data)
  end.

End parser.

(** ** Positions in the buffer

    [pos sc k]: the scanner stands in front of the [k]-th character of [whole]. *)

Section positions.
Context {U : Type} (mem : Z -> option Z) (base : Z) (whole : list Z).
Implicit Types (sc : vox_scanner) (k n : nat).

Definition pos sc k : Prop :=
  at_pos mem base 0 sc (take k whole, drop k whole) /\ (k <= length whole)%nat /\ zlen whole < 2 ^ 63.

(** The [n] characters from [i] on. *)
Definition piece (i n : nat) : list Z := take n (drop i whole).

Lemma piece_length i n : (i + n <= length whole)%nat -> length (piece i n) = n.
Proof. intros Hb. unfold piece. rewrite length_take, length_drop. lia. Qed.

Lemma zlen_piece i n : (i + n <= length whole)%nat -> zlen (piece i n) = Z.of_nat n.
Proof. intros Hb. unfold zlen. by rewrite piece_length. Qed.

Lemma advance_0 k n :
  (k + n <= length whole)%nat -> spec_advance 0 (take k whole, drop k whole) n = (take (k + n) whole, drop (k + n) whole).
Proof.
  intros Hn. unfold spec_advance. cbn [fst snd].
  destruct (take_while_none (skips 0) (drop n (drop k whole))) as [-> ->]; [done|].
  rewrite app_nil_r, drop_drop. f_equal. rewrite <-take_take_drop. f_equal.
Qed.

Lemma pos_step sc k op sc' r :
  pos sc k -> scan_op_ok base (take k whole, drop k whole) op -> run_scan mem sc op = Some (sc', r) ->
  r = (spec_scan base 0 (take k whole, drop k whole) op).2 /\
  at_pos mem base 0 sc' (spec_scan base 0 (take k whole, drop k whole) op).1.
Proof.
  intros (Hp & _) Hop E. destruct (scan_step mem base 0 sc _ op Hp Hop) as (sc1 & E1 & Hp1).
  rewrite E1 in E. by injection E as -> <-.
Qed.

Lemma pos_bounds sc k : pos sc k ->
  0 < base /\ curptr sc = base + Z.of_nat k /\ base + zlen whole < 2 ^ 64 /\ begin sc = base.
Proof.
  intros (Hp & Hk & Hsz). pose proof (pos_bound _ _ _ _ _ Hp) as (H0 & Hc & _ & Hm). cbn [fst snd] in *.
  assert (zlen (take k whole) = Z.of_nat k) as E1 by (unfold zlen; rewrite length_take; lia).
  assert (zlen (drop k whole) = zlen whole - Z.of_nat k) as E2 by (unfold zlen; rewrite length_drop; lia).
  rewrite E1 in *. rewrite E2 in *. split_and!; [lia|lia|lia|]. apply Hp.
Qed.

Lemma remaining_pos sc k : pos sc k -> vox_scanner_remaining sc = zlen whole - Z.of_nat k.
Proof.
  intros (Hp & Hk & Hsz). rewrite (remaining_spec mem base 0 sc (take k whole, drop k whole)) by done. cbn [snd].
  rewrite zlen_drop. unfold zlen. lia.
Qed.

Lemma offset_pos sc k : pos sc k -> vox_scanner_offset sc = Z.of_nat k.
Proof.
  intros Hp. destruct (pos_bounds _ _ Hp) as (H0 & Hc & Hm & Hb). destruct Hp as (_ & Hk & Hsz). unfold vox_scanner_offset, NULL.
  rewrite Hb, (proj2 (Z.eqb_neq _ _)), Hc, u64_small by (unfold zlen in *; lia). lia.
Qed.

Lemma text_pos sc k i n : pos sc k -> (i + n <= length whole)%nat ->
  text mem (View (base + Z.of_nat i) (Z.of_nat n)) = Some (piece i n).
Proof.
  intros (Hp & Hk & Hsz) Hb. unfold text. cbn [v_ptr v_len]. rewrite Nat2Z.id. unfold piece.
  pose proof (s_mem _ _ _ _ (proj1 Hp)) as Hm. cbn [fst snd] in Hm. rewrite take_drop, (proj1 (proj2 Hp)) in Hm.
  rewrite <-(take_drop i whole) in Hm. apply holds_app in Hm as [_ Hm].
  replace (zlen (take i whole)) with (Z.of_nat i) in Hm by (unfold zlen; rewrite length_take; lia).
  apply load_spec; [done|]. rewrite length_drop. lia.
Qed.

Lemma skip_pos sc k n : pos sc k -> (k + n <= length whole)%nat ->
  exists sc', vox_scanner_skip mem sc (Z.of_nat n) = Some sc' /\ pos sc' (k + n).
Proof.
  intros Hp Hn. pose proof Hp as (Hp0 & Hk & Hsz).
  destruct (scan_step mem base 0 sc _ (Skip (Z.of_nat n)) Hp0) as (sc' & E & Hp'); [cbn; lia|].
  cbn [run_scan] in E. destruct (vox_scanner_skip mem sc (Z.of_nat n)) as [sc1|]; [|done]. cbn in E. injection E as ->.
  exists sc'. split; [done|]. cbn [spec_scan fst] in Hp'.
  replace (Z.to_nat (Z.min (Z.of_nat n) (zlen (drop k whole)))) with n in Hp' by (unfold zlen; rewrite length_drop; lia).
  rewrite advance_0 in Hp' by done. by split_and!.
Qed.

Lemma get_pos sc k n : pos sc k -> (k + n <= length whole)%nat ->
  exists sc', vox_scanner_get mem sc (Z.of_nat n) = Some (sc', View (base + Z.of_nat k) (Z.of_nat n)) /\ pos sc' (k + n).
Proof.
  intros Hp Hn. pose proof Hp as (Hp0 & Hk & Hsz). destruct (pos_bounds _ _ Hp) as (H0 & Hc & Hm & _).
  destruct (scan_step mem base 0 sc _ (Get (Z.of_nat n)) Hp0) as (sc' & E & Hp').
  { cbn. rewrite zlen_take. unfold zlen in *. lia. }
  cbn [run_scan] in E. destruct (vox_scanner_get mem sc (Z.of_nat n)) as [[sc1 v]|]; [|done]. cbn in E. injection E as -> ->.
  exists sc'. cbn [spec_scan fst] in Hp'.
  assert (Z.to_nat (Z.min (Z.of_nat n) (zlen (drop k whole))) = n) as En by (unfold zlen; rewrite length_drop; lia).
  rewrite En in *. rewrite advance_0 in Hp' by done. split; [|by split_and!].
  do 3 f_equal. rewrite zlen_take. unfold zlen. lia.
Qed.

(** The next line. *)
Definition next_line (k : nat) : option nat := index_of CRLF (drop k whole).

Lemma next_line_le k n : next_line k = Some n -> (k <= length whole)%nat -> (k + n + 2 <= length whole)%nat.
Proof. intros E Hk. apply index_of_le in E. rewrite length_drop in E. cbn [CRLF length] in E. lia. Qed.

Lemma peek_line_pos sc k : pos sc k ->
  match next_line k with
  | Some n => peek_line mem sc = Some (View (base + Z.of_nat k) (Z.of_nat n), 0)
  | None => exists v, peek_line mem sc = Some (v, -2)
  end.
Proof.
  intros Hp. pose proof Hp as (Hp0 & Hk & Hsz). destruct (pos_bounds _ _ Hp) as (H0 & Hc & Hm & _).
  unfold peek_line. rewrite (peek_until_str_spec mem base 0 sc _ CRLF false Hp0) by (change (zlen CRLF) with 2; lia).
  cbn [mbind option_bind snd]. rewrite (remaining_pos sc k Hp). unfold next_line, until_str. rewrite decide_False by done.
  unfold view_at. cbn [v_len fst].
  assert (zlen (take k whole) = Z.of_nat k) as -> by (rewrite zlen_take; unfold zlen; lia).
  unfold zlen in *. destruct (index_of CRLF (drop k whole)) as [n|] eqn:E.
  - pose proof (next_line_le k n E Hk). rewrite u64_small by lia. by rewrite (proj2 (Z.ltb_ge _ _)) by lia.
  - rewrite length_drop. rewrite u64_small by lia. rewrite (proj2 (Z.ltb_lt _ _)) by lia. by eexists.
Qed.

Lemma skip_line_pos sc k n : pos sc k -> next_line k = Some n ->
  exists sc', skip_line mem sc = Some sc' /\ pos sc' (k + n + 2).
Proof.
  intros Hp E. pose proof Hp as (Hp0 & Hk & Hsz). destruct (pos_bounds _ _ Hp) as (H0 & Hc & Hm & _).
  destruct (scan_step mem base 0 sc _ (GetUntilStr CRLF true) Hp0) as (sc' & E' & Hp').
  { cbn [scan_op_ok]. change (zlen CRLF) with 2. lia. }
  cbn [run_scan] in E'. unfold skip_line. destruct (vox_scanner_get_until_str mem sc CRLF true) as [[sc1 v]|]; [|done].
  cbn [mbind option_bind] in *. injection E' as -> _. exists sc'. split; [done|].
  cbn [spec_scan fst] in Hp'. unfold until_str in Hp'. rewrite decide_False in Hp' by done. unfold next_line in E. rewrite E in Hp'.
  pose proof (next_line_le k n E Hk). cbn [CRLF length] in Hp'. rewrite advance_0 in Hp' by lia.
  split; [|split; [lia|done]]. by replace (k + n + 2)%nat with (k + (n + 2))%nat by lia.
Qed.

End positions.

(** ** Every step is defined *)

(** What parsing leaves alone. *)
Definition kept {U} (p p' : vox_http_parser U) : Prop :=
  self p' = self p /\ config p' = config p /\ callbacks p' = callbacks p /\ hbuf p' = hbuf p /\ stream p' = stream p.

Definition msg_ok (m : http_msg) : Prop :=
  0 <= content_length m < 2 ^ 64 /\ 0 <= body_read m < 2 ^ 64 /\ 0 <= chunk_remaining m < 2 ^ 64.

Definition failed {U} (p : vox_http_parser U) : Prop :=
  phase p = VOX_HTTP_PHASE_ERROR /\ has_error (msg p) = true /\ zlen (error_msg p) <= 127.

(** The outcome of a step: 0, or -1 and an error. *)
Definition outcome {U} (p p' : vox_http_parser U) (r : Z) : Prop :=
  kept p p' /\ msg_ok (msg p') /\
  (r = 0 /\ phase p' = phase p /\ has_error (msg p') = has_error (msg p) \/ r = -1 /\ failed p').

Section outcomes.
Context {U : Type}.
Implicit Types (p : vox_http_parser U) (u : U).

Lemma kept_refl p : kept p p.
Proof. by repeat split. Qed.
Lemma kept_trans p p1 p2 : kept p p1 -> kept p1 p2 -> kept p p2.
Proof. intros (?&?&?&?&?) (?&?&?&?&?). split_and!; congruence. Qed.

Lemma outcome_refl p : msg_ok (msg p) -> outcome p p 0.
Proof. intros Hm. split; [apply kept_refl|]. split; [done|]. by left. Qed.

Lemma outcome_trans p p1 p2 r : outcome p p1 0 -> outcome p1 p2 r -> outcome p p2 r.
Proof.
  intros (K1 & _ & [(_ & E1 & E2)|[? _]]) (K2 & M2 & H2); [|done].
  split; [by eapply kept_trans|]. split; [done|]. rewrite <-E1, <-E2. done.
Qed.

Lemma outcome_error p text : msg_ok (msg p) -> outcome p (set_error p text) (-1).
Proof.
  intros Hm. split; [by repeat split|]. split; [done|]. right. split; [done|]. split_and!; [done|done|].
  cbn. rewrite zlen_take. lia.
Qed.

Lemma outcome_msg p m : msg_ok m -> has_error m = has_error (msg p) -> outcome p (with_msg p m) 0.
Proof. intros Hm He. split; [by repeat split|]. split; [done|]. by left. Qed.

Lemma outcome_cases p p' r : outcome p p' r -> (r = 0 \/ r = -1) /\ msg_ok (msg p').
Proof. intros (_ & ? & [[? _]|[? _]]); auto. Qed.

Lemma decimal_range l n x : decimal_loop l n = Some x -> 0 <= n < 2 ^ 64 -> 0 <= x < 2 ^ 64.
Proof.
  revert n. induction l as [|ch l IH]; intros n; cbn [decimal_loop]; [by intros [= <-]|].
  destruct (negb _); [done|]. destruct (_ <? n); [done|]. intros Hx _. eapply IH; [exact Hx|]. apply u64_range.
Qed.
Lemma hex_range l n x : hex_loop l n = Some x -> 0 <= n < 2 ^ 64 -> 0 <= x < 2 ^ 64.
Proof.
  revert n. induction l as [|ch l IH]; intros n; cbn [hex_loop]; [by intros [= <-]|].
  destruct (hex_digit ch); [|done]. destruct (_ <? n); [done|]. destruct (_ <? n); [done|].
  intros Hx _. eapply IH; [exact Hx|]. apply u64_range.
Qed.

Lemma drop_while_length f l : (length (drop_while f l) <= length l)%nat.
Proof. rewrite <-(take_drop_while f l) at 2. rewrite length_app. lia. Qed.

Lemma connection_ok fuel l c k : (length l < fuel)%nat -> is_Some (connection_loop fuel l c k).
Proof.
  revert l c k. induction fuel as [|fuel IH]; intros l c k Hl; [lia|]. cbn [connection_loop].
  destruct l as [|ch l0] eqn:El; [done|]. rewrite <-El in *. clear El.
  set (l' := drop_while _ l). pose proof (drop_while_length (fun ch => is_ows ch || (ch =? 44)) l) as Hd. fold l' in Hd.
  destruct (Z.leb_spec 5 (zlen l')) as [H5|H5]; cbn [andb].
  2: { destruct (Z.leb_spec 10 (zlen l')); cbn [andb]; [lia|done]. }
  destruct (same_prefix l' _). { apply IH. rewrite length_drop. unfold zlen in H5. lia. }
  destruct (Z.leb_spec 10 (zlen l')) as [H10|H10]; cbn [andb]; [|done].
  destruct (same_prefix l' _); [|done]. apply IH. rewrite length_drop. unfold zlen in H10. lia.
Qed.

Lemma apply_header_ok p name value : msg_ok (msg p) ->
  ok (apply_header p name value) (fun '(p', r) => outcome p p' r).
Proof.
  intros Hm. unfold apply_header. destruct (header_name_is name "Content-Length").
  { destruct (drop_while is_ows value) as [|ch v]; [by apply outcome_refl|].
    destruct (ch =? 45); [by apply outcome_error|]. destruct (negb _); [by apply outcome_error|].
    destruct (parse_content_length value) as [cl|] eqn:E; [|by apply outcome_error].
    apply outcome_msg; [|done]. split; [|apply Hm]. unfold parse_content_length in E.
    destruct (drop_while is_ows value); [done|]. eapply decimal_range; [exact E|lia]. }
  destruct (header_name_is name "Transfer-Encoding").
  { destruct (header_value_is_chunked value); [by apply outcome_msg|by apply outcome_refl]. }
  destruct (header_name_is name "Connection").
  { destruct (connection_ok (S (length value)) value (connection_close (msg p)) (connection_keepalive (msg p)) ltac:(lia)) as [[c k] ->].
    by apply outcome_msg. }
  destruct (header_name_is name "Upgrade"); [by apply outcome_msg|by apply outcome_refl].
Qed.

Lemma take_version_ok p c5 c7 : msg_ok (msg p) -> outcome p (take_version p c5 c7).1 (take_version p c5 c7).2.
Proof.
  intros Hm. unfold take_version. assert (outcome p (with_msg p (with_version (msg p) (s8 c5 - 48) (s8 c7 - 48))) 0) as H1
    by by apply outcome_msg.
  destruct (_ || _); cbn [fst snd]; [|done]. eapply outcome_trans; [exact H1|by apply outcome_error].
Qed.

Lemma response_ok p u l : msg_ok (msg p) ->
  ok (parse_response_line p u l) (fun '(p', u', r) => outcome p p' r).
Proof.
  intros Hm. unfold parse_response_line. destruct (Z.ltb_spec (zlen l) 12); [by apply outcome_error|].
  destruct (arr_get_Some l 6) as [c6 ->]; [lia|]. destruct (arr_get_Some l 5) as [c5 ->]; [lia|].
  destruct (arr_get_Some l 7) as [c7 ->]; [lia|]. cbn [mbind option_bind].
  destruct (_ || _); [by apply outcome_error|].
  pose proof (take_version_ok p c5 c7 Hm) as Hv. destruct (take_version p c5 c7) as [p1 r1]. cbn [fst snd] in Hv.
  destruct (outcome_cases _ _ _ Hv) as [[-> | ->] Hm1]; cbn [negb Z.eqb]; [|done].
  destruct (_ <? 3); [eapply outcome_trans; [exact Hv|by apply outcome_error]|].
  destruct (status_loop 3 _ 0) as [code after].
  destruct (_ =? _); [eapply outcome_trans; [exact Hv|by apply outcome_error]|].
  assert (outcome p (with_msg p1 (with_status (msg p1) code)) 0) as H2
    by (eapply outcome_trans; [exact Hv|by apply outcome_msg]).
  destruct (drop_while _ after); [done|]. destruct (invoke_status _ _ u). done.
Qed.

Lemma request_ok p u l : msg_ok (msg p) ->
  ok (parse_request_line p u l) (fun '(p', u', r) => outcome p p' r).
Proof.
  intros Hm. unfold parse_request_line.
  destruct (take_while _ l); [by apply outcome_error|]. destruct (drop_while _ l); [by apply outcome_error|].
  assert (forall x, outcome p (with_msg p (with_method (msg p) x)) 0) as H1 by (intros; by apply outcome_msg).
  assert (forall x t, outcome p (set_error (with_msg p (with_method (msg p) x)) t) (-1)) as H2
    by (intros; eapply outcome_trans; [apply H1|by apply outcome_error]).
  destruct (take_while _ (drop_while _ _)); [apply H2|]. destruct (_ && _); [apply H2|].
  destruct (invoke_url _ _ u) as [u1 ?]. set (left := drop_while _ (drop_while _ _)).
  destruct (Z.ltb_spec (zlen left) 8); cbn [orb]; [apply H2|]. destruct (negb _); [apply H2|].
  destruct (arr_get_Some left 6) as [c6 ->]; [lia|]. destruct (arr_get_Some left 5) as [c5 ->]; [lia|].
  destruct (arr_get_Some left 7) as [c7 ->]; [lia|]. cbn [mbind option_bind]. destruct (negb _); [apply H2|].
  set (p1 := with_msg p _). pose proof (take_version_ok p1 c5 c7 Hm) as Hv.
  destruct (take_version p1 c5 c7) as [p2 r2]. eapply outcome_trans; [apply H1|exact Hv].
Qed.
End outcomes.

Section steps.
Context {U : Type} (mem : Z -> option Z) (base : Z) (whole : list Z).
Implicit Types (p : vox_http_parser U) (sc : vox_scanner) (u : U) (k : nat).
#[local] Abbreviation pos := (pos mem base whole).
#[local] Abbreviation piece := (piece whole).
#[local] Abbreviation next_line := (next_line whole).

(** The result of a part of the loop that starts at [k]: on -2 nothing but the position
    and what was handed on has changed. *)
Definition reached p k (w : vox_http_parser U * vox_scanner * U * Z) : Prop :=
  let '(p', sc', _, r) := w in
  exists k', pos sc' k' /\ (k <= k')%nat /\
    ((r = -2 /\ outcome p p' 0) \/ (outcome p p' r /\ (r = 0 -> (k < k')%nat))).

Lemma start_line_ok p sc u k : pos sc k -> msg_ok (msg p) -> ok (parse_start_line mem p sc u) (reached p k).
Proof.
  intros Hp Hm. unfold parse_start_line. pose proof (peek_line_pos mem base whole sc k Hp) as Hl.
  assert (forall t, reached p k (set_error p t, sc, u, -1)) as Herr.
  { intros t. exists k. split; [done|]. split; [done|]. right. split; [by apply outcome_error|done]. }
  destruct (next_line k) as [n|] eqn:En.
  - rewrite Hl. cbn [mbind option_bind Z.eqb negb v_len]. destruct (Z.eqb_spec (Z.of_nat n) 0) as [Hz|Hz]; [apply Herr|].
    pose proof (next_line_le whole k n En ltac:(apply Hp)) as Hb. rewrite (text_pos mem base whole sc k k n Hp) by lia.
    cbn [mbind option_bind].
    assert (ok (if bool_decide (cfg_type (config p) = VOX_HTTP_PARSER_TYPE_RESPONSE) || looks_like_response (piece k n)
                then parse_response_line p u (piece k n) else parse_request_line p u (piece k n))
              (fun '(p', u', r) => outcome p p' r)) as H1
      by (destruct (_ || _); [by apply response_ok|by apply request_ok]).
    eapply ok_bind; [exact H1|]. intros [[p1 u1] r] Ho. destruct (outcome_cases _ _ _ Ho) as [[-> | ->] Hm1]; cbn [Z.eqb negb].
    + destruct (skip_line_pos mem base whole sc k n Hp En) as (sc' & -> & Hp'). cbn [mbind option_bind].
      exists (k + n + 2)%nat. split; [done|]. split; [lia|]. right. split; [done|lia].
    + exists k. split; [done|]. split; [done|]. by right.
  - destruct Hl as [v ->]. cbn [mbind option_bind Z.eqb negb]. exists k. split; [done|]. split; [done|]. left.
    split; [done|by apply outcome_refl].
Qed.

(** A view of [whole]: its first position and its length. *)
Definition at_view (v : view) (i n : nat) : Prop :=
  v = View (base + Z.of_nat i) (Z.of_nat n) /\ (i + n <= length whole)%nat.

Lemma at_text sc k v i n : pos sc k -> at_view v i n -> text mem v = Some (piece i n).
Proof. intros Hp [-> Hb]. by apply (text_pos mem base whole sc k). Qed.

Lemma trim_left_at sc k v i n : pos sc k -> at_view v i n ->
  let j := length (take_while is_ows (piece i n)) in
  exists v', trim_left mem v = Some v' /\ at_view v' (i + j) (n - j) /\ (j <= n)%nat.
Proof.
  intros Hp Hv j. unfold trim_left. rewrite (at_text sc k v i n) by done. cbn [mbind option_bind].
  destruct Hv as [-> Hb]. pose proof (take_while_length is_ows (piece i n)) as Hj. rewrite piece_length in Hj by done.
  fold j in Hj. eexists. split; [done|]. split; [|done]. split; [|lia]. cbn [v_ptr v_len]. unfold zlen. fold j. f_equal; lia.
Qed.

Lemma trim_right_at sc k v i n : pos sc k -> at_view v i n ->
  let j := length (take_while is_ows (rev (piece i n))) in
  exists v', trim_right mem v = Some v' /\ at_view v' i (n - j) /\ (j <= n)%nat.
Proof.
  intros Hp Hv j. unfold trim_right. rewrite (at_text sc k v i n) by done. cbn [mbind option_bind].
  destruct Hv as [-> Hb]. pose proof (take_while_length is_ows (rev (piece i n))) as Hj. rewrite length_rev, piece_length in Hj by done.
  fold j in Hj. eexists. split; [done|]. split; [|done]. split; [|lia]. cbn [v_ptr v_len]. unfold zlen. fold j. f_equal; lia.
Qed.

(** A header read so far: both views lie in front of the last line end. *)
Definition header_at (h : view * view) k : Prop :=
  (exists i n, at_view h.1 i n) /\ (exists i n, at_view h.2 i n /\ (i + n + 2 <= k)%nat).

Lemma submit_ok p sc u k h : pos sc k -> header_at h k -> msg_ok (msg p) ->
  ok (submit_header mem p u h.1 h.2) (fun '(p', u', r) => outcome p p' r).
Proof.
  intros Hp ((i1 & n1 & H1) & (i2 & n2 & H2 & _)) Hm. unfold submit_header.
  rewrite (at_text sc k _ i1 n1 Hp H1), (at_text sc k _ i2 n2 Hp H2). cbn [mbind option_bind].
  destruct (invoke_header_field p _ u) as [u1 ?], (invoke_header_value p _ u1) as [u2 ?].
  eapply ok_bind; [by apply apply_header_ok|]. intros [p' r] Ho. exact Ho.
Qed.

Lemma previous_ok p sc u k header : pos sc k -> (forall h, header = Some h -> header_at h k) -> msg_ok (msg p) ->
  ok (submit_previous mem p u header) (fun '(p', u', r) => outcome p p' r).
Proof.
  intros Hp Hh Hm. unfold submit_previous. destruct header as [[f v]|]; [|by apply outcome_refl].
  pose proof (submit_ok p sc u k (f, v) Hp (Hh _ eq_refl) Hm) as Hs. cbn [fst snd] in Hs.
  eapply ok_bind; [exact Hs|]. intros [[p1 u1] r] Ho. destruct (outcome_cases _ _ _ Ho) as [[-> | ->] Hm1]; cbn [Z.eqb negb].
  - destruct (_ && _); [eapply outcome_trans; [exact Ho|by apply outcome_error]|].
    eapply outcome_trans; [exact Ho|]. by apply outcome_msg.
  - done.
Qed.

(** One line of the headers. *)
Definition line_done p k n (w : vox_http_parser U * vox_scanner * U * option (view * view)) : Prop :=
  let '(p', sc', _, next) := w in
  match next with
  | Some h => outcome p p' 0 /\ pos sc' (k + n + 2) /\ header_at h (k + n + 2)
  | None => outcome p p' (-1) /\ pos sc' k
  end.

Lemma new_header_ok p sc u k n header : pos sc k -> next_line k = Some n ->
  (forall h, header = Some h -> header_at h k) -> msg_ok (msg p) ->
  ok (new_header mem p sc u header (View (base + Z.of_nat k) (Z.of_nat n)) (piece k n)) (line_done p k n).
Proof.
  intros Hp En Hh Hm. unfold new_header. pose proof (next_line_le whole k n En ltac:(apply Hp)) as Hb.
  ok_step previous_ok; [done..|]. intros [[p1 u1] r] Ho.
  destruct (outcome_cases _ _ _ Ho) as [[-> | ->] Hm1]; cbn [Z.eqb negb]; [|by split].
  cbn [v_ptr v_len]. set (j := length (take_while (fun ch => negb (ch =? 58)) (piece k n))).
  assert (zlen (take_while (fun ch => negb (ch =? 58)) (piece k n)) = Z.of_nat j) as Ej by done. rewrite Ej.
  destruct (_ || _) eqn:Ec; [split; [|done]; eapply outcome_trans; [exact Ho|by apply outcome_error]|].
  apply orb_false_iff in Ec as [E1%Z.eqb_neq E2%Z.leb_gt].
  assert (at_view (View (base + Z.of_nat k) (Z.of_nat j)) k j) as Hv1 by (split; [done|lia]).
  unfold trim_ows. destruct (trim_left_at sc k _ k j Hp Hv1) as (v1 & -> & Hv1' & _). cbn [mbind option_bind].
  destruct (trim_right_at sc k _ _ _ Hp Hv1') as (v2 & -> & Hv2 & _). cbn [mbind option_bind].
  assert (at_view (View (base + Z.of_nat k + Z.of_nat j + 1) (Z.of_nat n - (Z.of_nat j + 1))) (k + j + 1) (n - (j + 1))) as Hw1
    by (split; [f_equal; lia|lia]).
  destruct (trim_left_at sc k _ _ _ Hp Hw1) as (w1 & -> & Hw1' & ?). cbn [mbind option_bind].
  destruct (trim_right_at sc k _ _ _ Hp Hw1') as (w2 & -> & Hw2 & ?). cbn [mbind option_bind].
  destruct (skip_line_pos mem base whole sc k n Hp En) as (sc' & -> & Hp'). cbn [mbind option_bind].
  split; [done|]. split; [done|]. split; cbn [fst snd]; [by eauto|]. do 2 eexists. split; [exact Hw2|]. lia.
Qed.

Lemma continue_ok p sc u k n h : pos sc k -> next_line k = Some n -> header_at h k -> msg_ok (msg p) ->
  ok (continue_header mem p sc u h (View (base + Z.of_nat k) (Z.of_nat n))) (line_done p k n).
Proof.
  intros Hp En (Hf & (i & m & [Ev Hvb] & Hk)) Hm. pose proof (next_line_le whole k n En ltac:(apply Hp)) as Hb.
  unfold continue_header. destruct h as [f v]. cbn [fst snd] in *.
  assert (at_view (View (base + Z.of_nat k) (Z.of_nat n)) k n) as Hv by (split; [done|lia]).
  destruct (trim_right_at sc k _ k n Hp Hv) as (c & -> & Hc & _). cbn [mbind option_bind].
  rewrite (at_text sc k _ _ _ Hp Hc). cbn [mbind option_bind]. destruct (invoke_header_value p _ u) as [u1 ?].
  destruct (skip_line_pos mem base whole sc k n Hp En) as (sc' & -> & Hp'). cbn [mbind option_bind].
  split; [by apply outcome_refl|]. split; [done|]. split; cbn [fst snd]; [done|].
  exists i, (m + 1 + n)%nat. rewrite Ev. cbn [v_ptr v_len]. split; [split; [f_equal; lia|lia]|lia].
Qed.

Lemma headers_ok fuel p sc u k header : pos sc k -> (length whole - k < fuel)%nat ->
  (forall h, header = Some h -> header_at h k) -> msg_ok (msg p) ->
  ok (headers_loop mem fuel p sc u header) (reached p k).
Proof.
  revert p sc u k header. induction fuel as [|fuel IH]; intros p sc u k header Hp Hf Hh Hm; [lia|]. cbn [headers_loop].
  pose proof (peek_line_pos mem base whole sc k Hp) as Hl. destruct (next_line k) as [n|] eqn:En.
  2: { destruct Hl as [v ->]. cbn [mbind option_bind Z.eqb negb]. exists k. split; [done|]. split; [done|]. left.
       split; [done|by apply outcome_refl]. }
  pose proof (next_line_le whole k n En ltac:(apply Hp)) as Hb.
  rewrite Hl. cbn [mbind option_bind Z.eqb negb]. rewrite (text_pos mem base whole sc k k n Hp) by lia. cbn [mbind option_bind].
  destruct (piece k n) as [|ch l] eqn:El.
  - destruct (skip_pos mem base whole sc k 2 Hp ltac:(lia)) as (sc' & E & Hp'). change (Z.of_nat 2) with 2 in E. rewrite E.
    cbn [mbind option_bind]. destruct header as [[f v]|].
    + pose proof (submit_ok p sc u k (f, v) Hp (Hh _ eq_refl) Hm) as Hs. cbn [fst snd] in Hs.
      eapply ok_bind; [exact Hs|]. intros [[p1 u1] r] Ho. exists (k + 2)%nat. split; [done|]. split; [lia|]. right. split; [done|lia].
    + exists (k + 2)%nat. split; [done|]. split; [lia|]. right. split; [by apply outcome_refl|lia].
  - rewrite <-El.
    assert (ok (match header with
                | Some h => if is_ows ch then continue_header mem p sc u h (View (base + Z.of_nat k) (Z.of_nat n))
                            else new_header mem p sc u header (View (base + Z.of_nat k) (Z.of_nat n)) (piece k n)
                | None => new_header mem p sc u header (View (base + Z.of_nat k) (Z.of_nat n)) (piece k n)
                end) (line_done p k n)) as H1.
    { destruct header as [h|]; [|by apply new_header_ok]. destruct (is_ows ch); [apply continue_ok; auto|by apply new_header_ok]. }
    eapply ok_bind; [exact H1|]. intros [[[p1 sc1] u1] [h|]].
    + intros (Ho & Hp1 & Hh1). eapply ok_mono; [apply (IH p1 sc1 u1 (k + n + 2)%nat (Some h)); [done|lia|by intros ? [= <-]|apply Ho]|].
      intros [[[p2 sc2] u2] r] (k' & Hp2 & Hk' & Hr). exists k'. split; [done|]. split; [lia|].
      destruct Hr as [[-> Hr]|[Hr Hlt]]; [left|right]; split; try done; try lia; by eapply outcome_trans.
    + intros (Ho & Hp1). exists k. split; [done|]. split; [done|]. right. split; [done|lia].
Qed.

Lemma parse_headers_ok p sc u k : pos sc k -> msg_ok (msg p) -> ok (parse_headers mem p sc u) (reached p k).
Proof.
  intros Hp Hm. unfold parse_headers. apply headers_ok; [done| |done|done].
  rewrite (remaining_pos mem base whole sc k Hp). pose proof Hp as (_ & ? & _). unfold zlen. lia.
Qed.

End steps.

Section phases.
Context {U : Type} (mem : Z -> option Z) (base : Z) (whole : list Z).
Implicit Types (p : vox_http_parser U) (sc : vox_scanner) (u : U) (k : nat).
#[local] Abbreviation pos := (pos mem base whole).
#[local] Abbreviation next_line := (next_line whole).

(** Going on: no error. *)
Definition alive p p' : Prop :=
  kept p p' /\ msg_ok (msg p') /\ has_error (msg p') = has_error (msg p) /\ phase p' <> VOX_HTTP_PHASE_ERROR.

(** What is left to do: a chunk that is used up takes a round of its own. *)
Definition work p k : nat :=
  (2 * (length whole - k) + if decide (phase p = VOX_HTTP_PHASE_CHUNK_DATA) then 1 else 0)%nat.

#[local] Ltac work := unfold work; cbn [phase with_phase with_msg]; repeat case_decide; simplify_eq; try congruence; lia.

Definition round_post p k (w : vox_http_parser U * vox_scanner * U * flow) : Prop :=
  let '(p', sc', _, f) := w in
  exists k', pos sc' k' /\ (k <= k')%nat /\
    match f with
    | Continue => alive p p' /\ (work p' k' < work p k)%nat
    | Return r => r = -1 /\ kept p p' /\ msg_ok (msg p') /\ failed p' \/ (r = 0 \/ r = -2) /\ alive p p'
    end.

Lemma alive_refl p : msg_ok (msg p) -> phase p <> VOX_HTTP_PHASE_ERROR -> alive p p.
Proof. intros Hm Hp. split; [apply kept_refl|]. done. Qed.

Lemma alive_trans p p1 p2 : alive p p1 -> alive p1 p2 -> alive p p2.
Proof. intros (? & _ & ? & _) (? & ? & ? & ?). split_and!; try done; [by eapply kept_trans|congruence]. Qed.

Lemma outcome_alive p p' : outcome p p' 0 -> phase p <> VOX_HTTP_PHASE_ERROR -> alive p p'.
Proof. intros (? & ? & [(_ & E1 & E2)|[? _]]) Hp; [|done]. split_and!; try done. by rewrite E1. Qed.

Lemma outcome_failed p p' : outcome p p' (-1) -> kept p p' /\ msg_ok (msg p') /\ failed p'.
Proof. intros (? & ? & [(? & _)|[_ ?]]); [done|]. done. Qed.

Lemma round_stop p sc u k r : pos sc k -> msg_ok (msg p) -> phase p <> VOX_HTTP_PHASE_ERROR -> r = 0 \/ r = -2 ->
  round_post p k (p, sc, u, Return r).
Proof. intros Hp Hm Hph Hr. exists k. split; [done|]. split; [done|]. right. split; [done|by apply alive_refl]. Qed.

Lemma round_fail p0 p sc u k k' t : pos sc k' -> (k <= k')%nat -> alive p0 p -> round_post p0 k (set_error p t, sc, u, Return (-1)).
Proof.
  intros Hp Hk Ha. exists k'. split; [done|]. split; [done|]. left. split; [done|]. destruct Ha as (? & Hm & _).
  destruct (outcome_failed _ _ (outcome_error p t Hm)) as (? & ? & ?). by split_and!.
Qed.

Lemma round_go p sc u k k' p' : pos sc k' -> (k <= k')%nat -> alive p p' -> (work p' k' < work p k)%nat ->
  round_post p k (p', sc, u, Continue).
Proof. intros. exists k'. done. Qed.

Lemma alive_phase p p' ph : alive p p' -> ph <> VOX_HTTP_PHASE_ERROR -> alive p (with_phase p' ph).
Proof. intros ((?&?&?&?&?) & ? & ? & _) ?. by split_and!. Qed.
Lemma alive_msg p p' m : alive p p' -> msg_ok m -> has_error m = has_error (msg p') -> alive p (with_msg p' m).
Proof. intros ((?&?&?&?&?) & ? & ? & ?) ??. split_and!; try done. cbn. congruence. Qed.

Lemma complete_ok p p' sc u k k' : pos sc k' -> (k <= k')%nat -> alive p p' -> round_post p k (complete p' sc u).
Proof.
  intros Hp Hk Ha. unfold complete. set (q := with_msg _ _).
  assert (alive p q) as Hq.
  { apply (alive_msg p (with_phase p' VOX_HTTP_PHASE_MESSAGE_COMPLETE)); [by apply alive_phase|apply Ha|done]. }
  destruct (invoke_message_complete q u) as [u' rc]. destruct (negb _); [by eapply round_fail|].
  exists k'. split; [done|]. split; [done|]. right. by split; [left|].
Qed.

Lemma start_phase_ok p sc u k : pos sc k -> msg_ok (msg p) -> phase p = VOX_HTTP_PHASE_START_LINE ->
  ok (start_phase mem p sc u) (round_post p k).
Proof.
  intros Hp Hm Hph. unfold start_phase. assert (phase p <> VOX_HTTP_PHASE_ERROR) as Hne by (by rewrite Hph).
  eapply ok_bind; [by apply (start_line_ok mem base whole p sc u k)|]. intros [[[p1 sc1] u1] r] (k' & Hp1 & Hk & [[-> Ho]|[Ho Hlt]]).
  - exists k'. split; [done|]. split; [done|]. right. split; [by right|]. by apply outcome_alive.
  - destruct (outcome_cases _ _ _ Ho) as [[-> | ->] Hm1]; cbn [Z.eqb negb].
    + specialize (Hlt eq_refl). apply (round_go _ _ _ k k'); [done..| |].
      * apply (alive_msg p (with_phase p1 VOX_HTTP_PHASE_HEADER_NAME)); [|done|done]. apply alive_phase; [by apply outcome_alive|done].
      * pose proof Hp1 as (_ & Hle & _). work.
    + destruct (outcome_failed _ _ Ho) as (? & ? & ?). exists k'. split; [done|]. split; [done|]. by left.
Qed.

Lemma headers_phase_ok p sc u k : pos sc k -> msg_ok (msg p) ->
  phase p = VOX_HTTP_PHASE_HEADER_NAME \/ phase p = VOX_HTTP_PHASE_HEADER_VALUE ->
  ok (headers_phase mem p sc u) (round_post p k).
Proof.
  intros Hp Hm Hph. unfold headers_phase. assert (phase p <> VOX_HTTP_PHASE_ERROR) as Hne by (by destruct Hph as [-> | ->]).
  eapply ok_bind; [by apply (parse_headers_ok mem base whole p sc u k)|]. intros [[[p1 sc1] u1] r] (k' & Hp1 & Hk & [[-> Ho]|[Ho Hlt]]).
  - exists k'. split; [done|]. split; [done|]. right. split; [by right|]. by apply outcome_alive.
  - destruct (outcome_cases _ _ _ Ho) as [[-> | ->] Hm1]; cbn [Z.eqb negb].
    + specialize (Hlt eq_refl). assert (alive p p1) as Ha by by apply outcome_alive.
      destruct (invoke_headers_complete p1 u1) as [u2 rc]. destruct (negb _); [by eapply round_fail|].
      pose proof Hp1 as (_ & ? & _).
      assert (forall ph, ph = VOX_HTTP_PHASE_CHUNK_SIZE \/ ph = VOX_HTTP_PHASE_BODY ->
        round_post p k (with_phase p1 ph, sc1, u2, Continue)) as Hgo.
      { intros ph Hx. apply (round_go _ _ _ k k'); [done|done| |].
        - apply alive_phase; [done|]. by destruct Hx as [-> | ->].
        - destruct Hph as [Hph|Hph], Hx as [-> | ->]; work. }
      destruct (chunked _); [by apply Hgo; left|]. destruct (0 <? _); [by apply Hgo; right|]. by eapply complete_ok.
    + destruct (outcome_failed _ _ Ho) as (? & ? & ?). exists k'. split; [done|]. split; [done|]. by left.
Qed.

Lemma min_take a b : (if a <? b then a else b) = Z.min a b.
Proof. destruct (Z.ltb_spec a b); lia. Qed.

(** Part of the body is handed on. *)
Lemma take_seg sc k n : pos sc k -> 0 < n -> n <= zlen whole - Z.of_nat k ->
  exists sc' l, vox_scanner_get mem sc n = Some (sc', View (base + Z.of_nat k) n) /\
    text mem (View (base + Z.of_nat k) n) = Some l /\ l = piece whole k (Z.to_nat n) /\
    pos sc' (k + Z.to_nat n) /\ (k < k + Z.to_nat n <= length whole)%nat.
Proof.
  intros Hp Hn Hr. assert (k + Z.to_nat n <= length whole)%nat as Hb by (unfold zlen in Hr; lia).
  destruct (get_pos mem base whole sc k (Z.to_nat n) Hp Hb) as (sc' & E & Hp'). rewrite Z2Nat.id in E by lia.
  pose proof (text_pos mem base whole sc k k (Z.to_nat n) Hp Hb) as Et. rewrite Z2Nat.id in Et by lia.
  exists sc', (piece whole k (Z.to_nat n)). split_and!; try done; lia.
Qed.

Lemma body_phase_ok p sc u k : pos sc k -> msg_ok (msg p) -> phase p = VOX_HTTP_PHASE_BODY ->
  ok (body_phase mem p sc u) (round_post p k).
Proof.
  intros Hp Hm Hph. unfold body_phase. assert (phase p <> VOX_HTTP_PHASE_ERROR) as Hne by (by rewrite Hph).
  pose proof (alive_refl p Hm Hne) as Ha. rewrite (remaining_pos mem base whole sc k Hp), min_take. pose proof Hp as (_ & Hkl & _).
  set (need := u64 _). assert (0 <= need) by apply u64_range. set (rem := zlen whole - Z.of_nat k).
  assert (0 <= rem) by (unfold rem, zlen; lia).
  destruct (Z.eqb_spec need 0); [by eapply complete_ok|]. destruct (Z.eqb_spec rem 0); [apply round_stop; auto|].
  destruct (take_seg sc k (Z.min need rem) Hp) as (sc' & l & -> & Et & _ & Hp' & Hlt); [lia|lia|]. cbn [mbind option_bind].
  rewrite Et. cbn [mbind option_bind]. destruct (invoke_body p l u) as [u1 rc].
  destruct (negb _); [eapply round_fail; [exact Hp'|lia|done]|]. cbn [v_len].
  set (q := with_msg p _). assert (alive p q) as Hq.
  { apply (alive_msg p p); [done| |done]. destruct Hm as (? & ? & ?). split; [done|]. split; [apply u64_range|done]. }
  destruct (_ <=? _); [eapply complete_ok; [exact Hp'|lia|done]|].
  eapply round_go; [exact Hp'|lia|done|]. work.
Qed.

Lemma skip_trailers_ok fuel sc k : pos sc k -> (length whole - k < fuel)%nat ->
  ok (skip_trailers mem fuel sc) (fun sc' => exists k', pos sc' k' /\ (k <= k')%nat).
Proof.
  revert sc k. induction fuel as [|fuel IH]; intros sc k Hp Hf; [lia|]. cbn [skip_trailers].
  pose proof (peek_line_pos mem base whole sc k Hp) as Hl. destruct (next_line k) as [n|] eqn:En.
  2: { destruct Hl as [v ->]. cbn. by exists k. }
  pose proof (next_line_le whole k n En ltac:(apply Hp)) as Hb.
  rewrite Hl. cbn [mbind option_bind Z.eqb andb v_len]. destruct (0 <? Z.of_nat n); [|by exists k].
  destruct (skip_line_pos mem base whole sc k n Hp En) as (sc' & -> & Hp'). cbn [mbind option_bind].
  eapply ok_mono; [apply (IH sc' (k + n + 2)%nat Hp'); lia|]. intros sc2 (k' & ? & ?). exists k'. split; [done|lia].
Qed.

Lemma chunk_size_phase_ok p sc u k : pos sc k -> msg_ok (msg p) -> phase p = VOX_HTTP_PHASE_CHUNK_SIZE ->
  ok (chunk_size_phase mem p sc u) (round_post p k).
Proof.
  intros Hp Hm Hph. unfold chunk_size_phase. assert (phase p <> VOX_HTTP_PHASE_ERROR) as Hne by (by rewrite Hph).
  pose proof (alive_refl p Hm Hne) as Ha.
  pose proof (peek_line_pos mem base whole sc k Hp) as Hl. destruct (next_line k) as [n|] eqn:En.
  2: { destruct Hl as [v ->]. cbn [mbind option_bind Z.eqb negb]. apply round_stop; auto. }
  pose proof (next_line_le whole k n En ltac:(apply Hp)) as Hb.
  rewrite Hl. cbn [mbind option_bind Z.eqb negb]. rewrite (text_pos mem base whole sc k k n Hp) by lia. cbn [mbind option_bind].
  destruct (parse_chunk_size _) as [size|] eqn:Es; [|by eapply round_fail].
  destruct (skip_line_pos mem base whole sc k n Hp En) as (sc' & -> & Hp'). cbn [mbind option_bind].
  set (q := with_msg p _). assert (alive p q) as Hq.
  { apply (alive_msg p p); [done| |done]. destruct Hm as (? & ? & ?). split; [done|]. split; [done|]. cbn.
    unfold parse_chunk_size in Es. destruct (drop_while is_ows _); [done|]. eapply hex_range; [exact Es|lia]. }
  destruct (Z.eqb_spec size 0).
  - rewrite (remaining_pos mem base whole sc' _ Hp').
    eapply ok_bind; [apply (skip_trailers_ok _ sc' _ Hp'); unfold zlen; lia|]. intros sc1 (k1 & Hp1 & Hk1).
    rewrite (remaining_pos mem base whole sc1 _ Hp1). destruct (Z.leb_spec 2 (zlen whole - Z.of_nat k1)).
    + destruct (skip_pos mem base whole sc1 k1 2 Hp1) as (sc2 & E & Hp2); [unfold zlen in *; lia|].
      change (Z.of_nat 2) with 2 in E. rewrite E. cbn [mbind option_bind ok]. eapply complete_ok; [exact Hp2|lia|done].
    + cbn [mbind option_bind ok]. eapply complete_ok; [exact Hp1|lia|done].
  - apply (round_go _ _ _ k (k + n + 2)); [done|lia|by apply alive_phase|]. work.
Qed.

Lemma chunk_data_phase_ok p sc u k : pos sc k -> msg_ok (msg p) -> phase p = VOX_HTTP_PHASE_CHUNK_DATA ->
  ok (chunk_data_phase mem p sc u) (round_post p k).
Proof.
  intros Hp Hm Hph. unfold chunk_data_phase. assert (phase p <> VOX_HTTP_PHASE_ERROR) as Hne by (by rewrite Hph).
  pose proof (alive_refl p Hm Hne) as Ha. rewrite (remaining_pos mem base whole sc k Hp), min_take. pose proof Hp as (_ & Hkl & _).
  destruct Hm as (Hcl & Hbr & Hcr).
  destruct (Z.eqb_spec (chunk_remaining (msg p)) 0).
  { apply (round_go _ _ _ k k); [done|done|by apply alive_phase|]. work. }
  set (rem := zlen whole - Z.of_nat k). assert (0 <= rem) by (unfold rem, zlen; lia).
  destruct (Z.eqb_spec rem 0); [apply round_stop; auto; by split|].
  destruct (take_seg sc k (Z.min (chunk_remaining (msg p)) rem) Hp) as (sc' & l & -> & Et & _ & Hp' & Hlt); [lia|lia|]. cbn [mbind option_bind].
  rewrite Et. cbn [mbind option_bind]. destruct (invoke_body p l u) as [u1 rc].
  destruct (negb _); [eapply round_fail; [exact Hp'|lia|done]|].
  set (q := with_msg p _). assert (alive p q) as Hq.
  { apply (alive_msg p p); [done| |done]. split; [done|]. split; [done|apply u64_range]. }
  destruct (_ =? 0).
  - eapply round_go; [exact Hp'|lia|by apply alive_phase|]. work.
  - eapply round_go; [exact Hp'|lia|done|]. work.
Qed.

Lemma chunk_end_phase_ok p sc u k : pos sc k -> msg_ok (msg p) -> phase p = VOX_HTTP_PHASE_CHUNK_END ->
  ok (chunk_end_phase mem p sc u) (round_post p k).
Proof.
  intros Hp Hm Hph. unfold chunk_end_phase. assert (phase p <> VOX_HTTP_PHASE_ERROR) as Hne by (by rewrite Hph).
  rewrite (remaining_pos mem base whole sc k Hp). destruct (Z.ltb_spec (zlen whole - Z.of_nat k) 2); [apply round_stop; auto|].
  destruct (skip_pos mem base whole sc k 2 Hp) as (sc2 & E & Hp2); [unfold zlen in *; lia|]. change (Z.of_nat 2) with 2 in E. rewrite E.
  cbn [mbind option_bind]. pose proof Hp2 as (_ & ? & _).
  apply (round_go _ _ _ k (k + 2)); [done|lia|by apply alive_phase; [apply alive_refl|]|]. work.
Qed.

Lemma parse_round_ok p sc u k : pos sc k -> msg_ok (msg p) -> phase p <> VOX_HTTP_PHASE_ERROR -> ok (round mem p sc u) (round_post p k).
Proof.
  intros Hp Hm Hne. unfold round. destruct (phase p) eqn:Hph; try (apply round_stop; auto; by rewrite Hph).
  - destruct (invoke_message_begin p u) as [u1 rc].
    destruct (negb _); [by eapply round_fail; [..|apply alive_refl]; rewrite ?Hph|].
    set (q := with_phase p _). assert (alive p q) as Hq by (apply alive_phase; [apply alive_refl|]; by rewrite ?Hph).
    eapply ok_mono; [by apply (start_phase_ok q sc u1 k)|]. intros [[[p1 sc1] u2] f] (k' & Hp1 & Hk & Hf).
    exists k'. split; [done|]. split; [done|]. destruct f.
    + destruct Hf as [Ha Hw]. split; [exact (alive_trans p q p1 Hq Ha)|]. revert Hw. work.
    + destruct Hf as [(? & Hkp & ?)|[? Ha]]; [left|right].
      * split; [done|]. split; [|done]. eapply kept_trans; [apply Hq|exact Hkp].
      * split; [done|]. exact (alive_trans p q p1 Hq Ha).
  - by apply start_phase_ok.
  - apply headers_phase_ok; auto.
  - apply headers_phase_ok; auto.
  - by apply body_phase_ok.
  - by apply chunk_size_phase_ok.
  - by apply chunk_data_phase_ok.
  - by apply chunk_end_phase_ok.
Qed.

Lemma parse_rounds_ok fuel p sc u k : pos sc k -> msg_ok (msg p) -> phase p <> VOX_HTTP_PHASE_ERROR -> (work p k < fuel)%nat ->
  ok (rounds mem fuel p sc u) (fun '(p', sc', u', r) => round_post p k (p', sc', u', Return r)).
Proof.
  revert p sc u k. induction fuel as [|fuel IH]; intros p sc u k Hp Hm Hne Hf; [lia|]. cbn [rounds].
  eapply ok_bind; [by apply (parse_round_ok p sc u k)|]. intros [[[p1 sc1] u1] f] (k1 & Hp1 & Hk1 & Hf1). destruct f as [|r].
  - destruct Hf1 as [Ha Hw]. pose proof Ha as (_ & Hm1 & _ & Hne1).
    eapply ok_mono; [apply (IH p1 sc1 u1 k1); [done..|lia]|]. intros [[[p2 sc2] u2] r] (k2 & Hp2 & Hk2 & Hr).
    exists k2. split; [done|]. split; [lia|]. destruct Hr as [(? & Hkp & ?)|[? Ha2]]; [left|right].
    + split; [done|]. split; [|done]. eapply kept_trans; [apply Ha|exact Hkp].
    + split; [done|]. by eapply alive_trans.
  - by exists k1.
Qed.

(** What [do_parse] leaves: the position it reports is the one of its scanner. *)
Lemma do_parse_ok p sc u : pos sc 0 -> msg_ok (msg p) -> phase p <> VOX_HTTP_PHASE_ERROR ->
  ok (do_parse mem p sc u) (fun '(p', sc', u', r, consumed) =>
    kept p p' /\ msg_ok (msg p') /\ 0 <= consumed <= zlen whole /\ flags sc' = 0 /\
    (r = -1 /\ failed p' \/ (r = 0 \/ r = -2) /\ alive p p')).
Proof.
  intros Hp Hm Hne. unfold do_parse. pose proof (zlen_nonneg whole).
  destruct (vox_scanner_eof sc).
  { split; [apply kept_refl|]. split; [done|]. split; [lia|]. split; [apply Hp|].
    right. split; [by right|by apply alive_refl]. }
  rewrite (offset_pos mem base whole sc 0 Hp), (remaining_pos mem base whole sc 0 Hp).
  eapply ok_bind; [apply (parse_rounds_ok _ p sc u 0); [done..|]|].
  { unfold work. rewrite Nat.sub_0_r. destruct (decide _); unfold zlen; lia. }
  intros [[[p1 sc1] u1] r] (k' & Hp1 & _ & Hr). rewrite (offset_pos mem base whole sc1 k' Hp1).
  pose proof Hp1 as (_ & Hk & Hsz).
  assert (kept p p1 /\ msg_ok (msg p1)) as [? ?] by (destruct Hr as [(_ & ? & ? & _)|[_ (? & ? & _)]]; done).
  split; [done|]. split; [done|]. split.
  - destruct (r =? -1); [lia|]. rewrite u64_small by (unfold zlen in *; lia). unfold zlen. lia.
  - split; [apply Hp1|]. destruct Hr as [(? & _ & _ & ?)|?]; [by left|by right].
Qed.
End phases.

(** ** The buffer

    [buffer_ok b text]: the unread part of the buffer is [text]. *)

Record buffer_ok (b : http_buf) (text : list Z) : Prop := {
  hb_cells : exists pre post, b_cells b = pre ++ text ++ post /\ zlen pre = buf_off b;
  hb_size : buf_size b = zlen text;
  hb_cap : zlen (b_cells b) = buf_capacity b;
  hb_bytes : is_bytes text;
  hb_max : buf_capacity b <= VOX_HTTP_PARSER_BUF_MAX;
  hb_at : b_at b = NULL /\ buf_capacity b = 0 \/
          0 < b_at b /\ b_at b + buf_capacity b < 2 ^ 64 /\ 4096 <= buf_capacity b;
}.

(** The block of the buffer. *)
Definition block (b : http_buf) : list Z := if decide (b_at b = NULL) then [] else [b_at b].

(** [need] bytes and a terminator fit behind the unread bytes. *)
Definition fits (b : http_buf) (need : Z) : Prop := buf_off b + buf_size b + need + 1 <= buf_capacity b.

(** Everything is read and [need] bytes fit into the buffer, but not behind the offset. *)
Definition stale (b : http_buf) (need : Z) : Prop :=
  buf_size b = 0 /\ 0 < buf_off b /\ need + 1 <= buf_capacity b < buf_off b + need + 1.

#[export] Instance stale_dec b need : Decision (stale b need).
Proof. unfold stale. apply _. Defined.

Section buffer.
Context {P : Type} `{MPoolLaws P} (junk : Z).
Implicit Types (p : P) (b : http_buf) (text data : list Z).

Lemma buffer_bounds b text : buffer_ok b text ->
  0 <= buf_off b /\ 0 <= buf_size b /\ buf_off b + buf_size b <= buf_capacity b <= 2 ^ 20.
Proof.
  intros [(pre & post & Ec & Ho) Hs Hc _ Hm _]. unfold VOX_HTTP_PARSER_BUF_MAX in Hm. change (2 ^ 20) with (1024 * 1024).
  rewrite Ec in Hc. rewrite !zlen_app in Hc. pose proof (zlen_nonneg pre). pose proof (zlen_nonneg post). pose proof (zlen_nonneg text). lia.
Qed.

(** The unread bytes moved to the front of [dst]. *)
Lemma move_front b text dst : buffer_ok b text -> zlen text <= zlen dst ->
  exists rest, arr_blit dst 0 (b_cells b) (buf_off b) (buf_size b) = Some (text ++ rest) /\ zlen (text ++ rest) = zlen dst.
Proof.
  intros Hb Hl. pose proof (buffer_bounds b text Hb). destruct Hb as [(pre & post & Ec & Ho) Hs Hc _ _ _].
  exists (drop (Z.to_nat (zlen text)) dst). rewrite arr_blit_ok by lia. rewrite Ec, Hs, <-Ho, Z.add_0_l. cbn [take app Z.to_nat].
  unfold zlen. rewrite !Nat2Z.id, drop_app_length, take_app_length. split; [done|]. rewrite length_app, length_drop. unfold zlen in Hl. lia.
Qed.

Lemma compact_ok b text : buffer_ok b text ->
  exists b', compact_buf b = Some b' /\ buffer_ok b' text /\ b_at b' = b_at b /\ buf_capacity b' = buf_capacity b /\
    (b' = b /\ (buf_off b = 0 \/ text = []) \/ buf_off b' = 0).
Proof.
  intros Hb. unfold compact_buf. pose proof (buffer_bounds b text Hb) as Hbb. pose proof Hb as [(pre & post & Ec & Ho) Hs Hc Hby Hm Ha].
  destruct (Z.eqb_spec (buf_off b) 0) as [Hz|Hz]; cbn [orb]. { exists b. split_and!; auto. }
  destruct (Z.eqb_spec (buf_size b) 0) as [Hz0|Hz0].
  { exists b. split_and!; auto. left. split; [done|]. right. apply nil_length_inv. unfold zlen in *. lia. }
  destruct (move_front b text (b_cells b) Hb) as (rest & -> & Hl); [lia|]. cbn [mbind option_bind]. eexists. split; [done|].
  split; [|by auto]. constructor; try done; cbn; [|lia]. by exists [], rest.
Qed.

Lemma grow_cap_ok fuel cap need : 2 <= cap <= VOX_HTTP_PARSER_BUF_MAX ->
  VOX_HTTP_PARSER_BUF_MAX * 4 ^ Z.of_nat fuel < cap * 5 ^ Z.of_nat fuel ->
  ok (grow_cap fuel cap need) (fun r => match r with None => True | Some c => need <= c /\ cap <= c <= VOX_HTTP_PARSER_BUF_MAX end).
Proof.
  revert cap. induction fuel as [|fuel IH]; intros cap Hc Hf; [cbn in Hf; lia|]. cbn [grow_cap].
  destruct (Z.ltb_spec cap need) as [Hn|Hn]; [|cbn; lia]. rewrite Z.shiftr_div_pow2 by lia. change (2 ^ 1) with 2.
  unfold VOX_HTTP_PARSER_BUF_MAX in *. rewrite u64_small by dlia.
  destruct (Z.leb_spec (cap + cap / 2) cap); [done|]. destruct (Z.ltb_spec (1024 * 1024) (cap + cap / 2)); [done|]. cbn [orb].
  eapply ok_mono; [apply IH; [dlia|]|].
  - rewrite Nat2Z.inj_succ, !Z.pow_succ_r in Hf by lia. assert (5 * cap <= 4 * (cap + cap / 2)) by dlia.
    assert (0 < 5 ^ Z.of_nat fuel) by (apply Z.pow_pos_nonneg; lia). nia.
  - intros [c|]; [|done]. intros. dlia.
Qed.

Lemma block_nil b : b_at b = NULL -> block b = [].
Proof. intros E. unfold block. by rewrite decide_True. Qed.
Lemma block_cons b : b_at b <> NULL -> block b = [b_at b].
Proof. intros E. unfold block. by rewrite decide_False. Qed.
Lemma block_eq b b' : b_at b' = b_at b -> block b' = block b.
Proof. intros E. unfold block. by rewrite E. Qed.

(** A larger block takes the place of the buffer. *)
Lemma regrow_ok p0 p b text need R : buffer_ok b text -> took p0 p (block b ++ R) -> 0 <= need < 2 ^ 63 ->
  ok (grow_buf junk p b need)
    (fun '(p', b', rc) => took p0 p' (block b' ++ R) /\ buffer_ok b' text /\ (rc = 0 /\ fits b' need \/ rc = -1)).
Proof.
  intros Hb Ht Hn. unfold grow_buf. set (cap := if buf_capacity b =? 0 then _ else _). pose proof (buffer_bounds b text Hb) as Hbb. pose proof (hb_size _ _ Hb) as Hs.
  pose proof (hb_max _ _ Hb) as Hmax. rewrite (u64_small (buf_size b + need + 1)) by lia.
  assert (4096 <= cap <= VOX_HTTP_PARSER_BUF_MAX) as Hcap.
  { unfold cap. destruct (Z.eqb_spec (buf_capacity b) 0); [done|]. destruct (hb_at _ _ Hb); lia. }
  eapply ok_bind; [apply grow_cap_ok; [lia|]|].
  { change (Z.of_nat 64) with 64. assert (VOX_HTTP_PARSER_BUF_MAX * 4 ^ 64 < 4096 * 5 ^ 64) by done. 
    assert (0 < 5 ^ 64) by done. nia. }
  intros [c|]; [|by intros _; cbn; auto]. intros [Hc1 Hc2]. assert (0 <= c * 1 < 2 ^ 64) as Hc64 by (unfold VOX_HTTP_PARSER_BUF_MAX in *; lia).
  destruct (alloc_cells junk p c 1) as [[p1 a] cells] eqn:Ea. pose proof (tk_inv _ _ _ Ht) as Hinv.
  destruct (alloc_cells_spec junk p c 1 p1 a cells Hinv) as (Hinv1 & Haok & Hlen); [lia|lia|lia|done|].
  destruct (took_cells junk p p1 c 1 a cells Hinv Ea) as [(-> & Ht1)|(Ha & Ht1 & _)].
  { cbn [Z.eqb NULL ok]. split; [|by auto]. by apply (took_app _ _ _ _ [] Ht). }
  rewrite (proj2 (Z.eqb_neq a NULL)) by done. destruct (Hlen Ha) as [Hl _].
  destruct Haok as [[? _]|(_ & _ & _ & m & Hm & Hlive)]; [done|].
  destruct (mp_range p1 a m Hinv1) as [Hpos Hrange]; [by rewrite Hlive, lookup_insert_eq|].
  assert (exists rest, (if negb (b_at b =? NULL) && negb (buf_size b =? 0)
    then arr_blit cells 0 (b_cells b) (buf_off b) (buf_size b) else Some cells) = Some (text ++ rest) /\ zlen (text ++ rest) = c) as (rest & -> & Hlr).
  { destruct (negb (b_at b =? NULL) && negb (buf_size b =? 0)) eqn:E.
    - destruct (move_front b text cells Hb) as (rest & -> & ?); [lia|]. exists rest. split; [done|lia].
    - exists cells. assert (text = []) as ->; [|done]. apply nil_length_inv.
      apply andb_false_iff in E as [E|E]; apply negb_false_iff in E.
      + apply Z.eqb_eq in E. pose proof Hb as [_ _ _ _ _ [[_ Hz]|[Hz _]]]; [|unfold NULL in *; lia]. unfold zlen in *. lia.
      + apply Z.eqb_eq in E. unfold zlen in *. lia. }
  cbn [mbind option_bind ok]. pose proof (took_app _ _ _ _ _ Ht Ht1) as Ht2.
  split; [|split; [|left; split; [done|unfold fits; cbn; lia]]].
  - rewrite (block_cons (HBuf a _ _ _ _)) by done. cbn [b_at]. destruct (Z.eqb_spec (b_at b) NULL) as [E|E].
    + by rewrite block_nil in Ht2.
    + apply took_free. rewrite block_cons in Ht2 by done. refine (took_perm _ _ _ _ Ht2 _). cbn. solve_Permutation.
  - constructor; cbn; try done; [by exists [], rest|apply Hb|lia|]. right. split; [done|]. split; [lia|lia].
Qed.

Lemma ensure_ok p0 p b text need R : buffer_ok b text -> took p0 p (block b ++ R) -> 0 <= need < 2 ^ 63 ->
  ok (ensure_buf junk p b need) (fun '(p', b', rc) =>
    took p0 p' (block b' ++ R) /\ buffer_ok b' text /\ (rc = 0 /\ (fits b' need \/ b' = b /\ stale b need) \/ rc = -1 /\ ~ stale b need)).
Proof.
  intros Hb Ht Hn. unfold ensure_buf. pose proof (buffer_bounds b text Hb) as Hbb.
  rewrite (u64_small (_ + need + 1)) by lia. destruct (Z.leb_spec (buf_off b + buf_size b + need + 1) (buf_capacity b)) as [Hf|Hf].
  { cbn. split_and!; auto. }
  assert (forall b1, buffer_ok b1 text -> block b1 = block b -> ~ stale b need ->
    ok (grow_buf junk p b1 need) (fun '(p', b', rc) => took p0 p' (block b' ++ R) /\ buffer_ok b' text /\
      (rc = 0 /\ (fits b' need \/ b' = b /\ stale b need) \/ rc = -1 /\ ~ stale b need))) as Hgrow.
  { intros b1 Hb1 E Hst. rewrite <-E in Ht. eapply ok_mono; [exact (regrow_ok p0 p b1 text need R Hb1 Ht Hn)|].
    intros [[p2 b2] rc]. intros (? & ? & [[? ?]|?]); split_and!; auto. }
  destruct (Z.ltb_spec 0 (buf_off b)) as [Ho|Ho].
  - destruct (compact_ok b text Hb) as (b' & -> & Hb' & Eat & Ecap & Hcase). cbn [mbind option_bind].
    pose proof (buffer_bounds b' text Hb') as Hbb'. rewrite u64_small by lia.
    assert (buf_size b' = buf_size b) as Es by (rewrite (hb_size _ _ Hb'), (hb_size _ _ Hb); done).
    destruct (Z.leb_spec (buf_size b' + need + 1) (buf_capacity b')) as [Hf'|Hf'].
    + cbn. rewrite (block_eq b b') by done. split; [done|]. split; [done|]. left. split; [done|].
      destruct Hcase as [[-> [?|Et]]|E0]; [lia| |left; unfold fits; lia].
      right. split; [done|]. unfold stale. rewrite (hb_size _ _ Hb), Et, zlen_nil in *. lia.
    + apply Hgrow; [done|by apply block_eq|]. unfold stale. lia.
  - apply Hgrow; [done|done|]. unfold stale. lia.
Qed.

Lemma buffer_append_ok b text data : buffer_ok b text -> is_bytes data -> fits b (zlen data) ->
  exists b', append_data b data = Some b' /\ buffer_ok b' (text ++ data) /\ b_at b' = b_at b.
Proof.
  intros Hb Hd Hf. pose proof (buffer_bounds b text Hb) as Hbb. pose proof Hb as [(pre & post & Ec & Ho) Hs Hc Hby Hm Ha].
  unfold fits in Hf. unfold append_data. rewrite Ec in *. rewrite !zlen_app in Hc. pose proof (zlen_nonneg data).
  assert (exists mid t rest, post = mid ++ t :: rest /\ zlen mid = zlen data) as (mid & t & rest & -> & Hmid).
  { exists (take (length data) post). destruct (drop (length data) post) as [|t rest] eqn:E.
    - apply (f_equal length) in E. rewrite length_drop in E. cbn in E. unfold zlen in *. lia.
    - exists t, rest. rewrite <-E, take_drop. split; [done|]. unfold zlen. rewrite length_take. unfold zlen in *. lia. }
  rewrite app_assoc. rewrite (arr_blit_app _ _ _ _ _ _ (zlen data)) by (rewrite ?zlen_app; lia).
  cbn [mbind option_bind]. replace (Z.to_nat (zlen data)) with (length data) by (unfold zlen; lia). change (Z.to_nat 0) with 0%nat. rewrite drop_0, take_ge by lia.
  rewrite u64_small by lia. rewrite app_assoc, arr_set_app by (rewrite !zlen_app; lia). cbn [mbind option_bind]. eexists. split; [done|].
  split; [|done]. rewrite !zlen_app, zlen_cons in Hc. constructor; cbn; try done.
  - exists pre, (0 :: rest). split; [|done]. by rewrite <-!app_assoc.
  - rewrite zlen_app. lia.
  - rewrite !zlen_app, zlen_cons. lia.
  - by apply Forall_app.
Qed.

Lemma append_overruns b data : buf_capacity b < buf_off b + buf_size b + zlen data + 1 -> zlen (b_cells b) = buf_capacity b ->
  0 <= buf_size b -> buf_size b + zlen data < 2 ^ 64 -> append_data b data = None.
Proof.
  intros Hf Hc Hs Hl. unfold append_data. destruct (arr_blit _ _ _ _ _) as [c|] eqn:E; [|done]. cbn [mbind option_bind].
  pose proof (arr_blit_len _ _ _ _ _ _ E) as Hlen. pose proof (zlen_nonneg data). rewrite u64_small by lia.
  unfold arr_set. rewrite decide_False by lia. done.
Qed.

Lemma drop_ok b text n : buffer_ok b text -> 0 <= n <= zlen text ->
  exists b', drop_consumed b n = Some b' /\ buffer_ok b' (drop (Z.to_nat n) text) /\ b_at b' = b_at b.
Proof.
  intros Hb Hn. pose proof (buffer_bounds b text Hb) as Hbb. unfold drop_consumed. destruct (Z.ltb_spec 0 n) as [Hp|Hp].
  2: { exists b. replace n with 0 by lia. by rewrite drop_0. }
  pose proof Hb as [(pre & post & Ec & Ho) Hs Hc Hby Hm Ha]. rewrite !u64_small by lia. cbn [buf_off buf_capacity].
  assert (buffer_ok (HBuf (b_at b) (b_cells b) (buf_off b + n) (buf_size b - n) (buf_capacity b)) (drop (Z.to_nat n) text)) as Hb'.
  { constructor; cbn; try done.
    - exists (pre ++ take (Z.to_nat n) text), post. split; [rewrite Ec, <-app_assoc; f_equal; by rewrite app_assoc, take_drop|].
      rewrite zlen_app, zlen_take. lia.
    - rewrite zlen_drop. lia.
    - by apply Forall_drop. }
  destruct (_ || _); [|by eexists]. destruct (compact_ok _ _ Hb') as (b' & -> & ? & ? & _). by eexists.
Qed.

Lemma holds_buf b text : buffer_ok b text -> holds (buf_mem b) (b_at b + buf_off b) text.
Proof.
  intros [(pre & post & Ec & Ho) _ _ _ _ _] i ch Hi. unfold buf_mem.
  rewrite arr_get_lookup by (pose proof (zlen_nonneg pre); lia). rewrite Ec.
  replace (Z.to_nat (b_at b + buf_off b + Z.of_nat i - b_at b)) with (length pre + i)%nat by (unfold zlen in *; lia).
  rewrite lookup_app_r by lia. replace (length pre + i - length pre)%nat with i by lia. by apply lookup_app_l_Some.
Qed.

(** The scanner on the unread bytes. *)
Lemma fresh_pos b text : buffer_ok b text -> text <> [] ->
  pos (buf_mem b) (b_at b + buf_off b) text
    (Scanner (b_at b + buf_off b) (b_at b + buf_off b + buf_size b) (b_at b + buf_off b) 0) 0.
Proof.
  intros Hb Hne. pose proof (buffer_bounds b text Hb) as Hbb. pose proof Hb as [_ Hs _ Hby _ Ha].
  assert (0 < zlen text) by (unfold zlen; destruct text; [done|cbn [length]; lia]).
  split; [|split; [lia|lia]]. split; [|done]. change (take 0 text, drop 0 text) with (@nil Z, text). constructor; cbn [fst snd begin curptr end_ app]; rewrite ?zlen_nil; try done; try lia.
  by apply holds_buf.
Qed.

End buffer.

(** ** One call

    [http_ok p0 p h t]: the pool [p] is [p0] with the blocks of the parser [h], whose buffer
    holds the unread text [t]. *)

Definition owned {U} (h : vox_http_parser U) : list Z :=
  block (hbuf h) ++ self h :: (c_at <$> chunks (stream h)).

Record http_ok {P U} `{MPool P} (p0 p : P) (h : vox_http_parser U) (t : list Z) : Prop := {
  ho_took : took p0 p (owned h);
  ho_buf : buffer_ok (hbuf h) t;
  ho_temp : temp_buffer (stream h) = NULL;
  ho_flags : flags (st_scanner (stream h)) = 0;
  ho_msg : msg_ok (msg h);
  ho_err : has_error (msg h) = bool_decide (phase h = VOX_HTTP_PHASE_ERROR);
}.

(** What a call leaves: an error, or [r] bytes less of the old and the new text. *)
Definition call_post {P U} `{MPool P} (p0 : P) (h : vox_http_parser U) (t : list Z) (w : P * vox_http_parser U * U * Z) : Prop :=
  let '(p', h', _, r) := w in
  self h' = self h /\ config h' = config h /\ callbacks h' = callbacks h /\
  exists t', http_ok p0 p' h' t' /\
    (r = -1 /\ has_error (msg h') = true \/
     0 <= r <= zlen t /\ t' = drop (Z.to_nat r) t /\ has_error (msg h') = false).

Section execute.
Context {P U : Type} `{MPoolLaws P} (junk : Z).
Implicit Types (p : P) (h : vox_http_parser U) (u : U) (t data : list Z).

Lemma stream_chunks_ok p0 p cs R : took p0 p ((c_at <$> cs) ++ R) -> took p0 (free_chunks p cs) R.
Proof. revert p. induction cs as [|c cs IH]; intros p Ht; [done|]. apply IH. by apply took_free. Qed.

Lemma stream_reset_ok p0 p s R : took p0 p (R ++ (c_at <$> chunks s)) -> temp_buffer s = NULL -> flags (st_scanner s) = 0 ->
  exists p' s', vox_scanner_stream_reset p s = (p', s') /\ took p0 p' R /\
    chunks s' = [] /\ chunks_tail s' = NULL /\ total_size s' = 0 /\ temp_buffer s' = NULL /\ st_scanner s' = Scanner NULL NULL NULL 0.
Proof.
  intros Ht Hb Hf. unfold vox_scanner_stream_reset. cbn [temp_buffer with_chunks]. rewrite Hb. cbn [Z.eqb NULL].
  do 2 eexists. split; [done|]. split; [apply stream_chunks_ok; by rewrite Permutation_app_comm|]. cbn. by rewrite Hf.
Qed.

Lemma stream_feed_ok mem p0 p s addr len R : took p0 p R -> 0 < addr -> 0 < len ->
  chunks s = [] -> chunks_tail s = NULL -> temp_buffer s = NULL -> st_scanner s = Scanner NULL NULL NULL 0 ->
  ok (vox_scanner_stream_feed junk mem p s addr len) (fun '(p', s', rc) =>
    took p0 p' (R ++ (c_at <$> chunks s')) /\ temp_buffer s' = NULL /\ flags (st_scanner s') = 0 /\
    (rc = 0 /\ st_scanner s' = Scanner addr (addr + len) addr 0 \/ rc = -1)).
Proof.
  intros Ht Hd Hl Hc Htl Hb Hs. unfold vox_scanner_stream_feed. unfold NULL in *.
  rewrite (proj2 (Z.eqb_neq addr 0)), (proj2 (Z.eqb_neq len 0)) by lia. cbn [orb].
  destruct (mp_alloc p sizeof_chunk) as [p1 a] eqn:Ea. pose proof (tk_inv _ _ _ Ht) as Hi.
  assert (0 <= sizeof_chunk < 2 ^ 64) as Hsz by done.
  destruct (Z.eqb_spec a 0) as [->|Ha].
  { cbn [ok]. rewrite Hc, Hs. cbn [fmap list_fmap]. rewrite app_nil_r. split; [|by auto].
    apply (took_app _ _ _ _ [] Ht). exact (took_refused p p1 _ Hi Hsz Ea). }
  rewrite Htl. cbn [Z.eqb]. unfold vox_scanner_stream_update_view. cbn [chunks with_chunks st_scanner]. rewrite Hs. cbn [curptr].
  cbn [Z.eqb NULL orb ok c_data c_len]. unfold with_view, with_chunks, with_scanner. cbn [chunks st_scanner temp_buffer flags].
  rewrite Hs. split; [|by auto]. cbn [fmap list_fmap c_at]. rewrite Permutation_app_comm. apply (took_app _ p); [done|].
  exact (took_alloc p p1 _ a Hi Hsz Ea Ha).
Qed.

Lemma failed_err h : failed h -> has_error (msg h) = bool_decide (phase h = VOX_HTTP_PHASE_ERROR).
Proof. intros (-> & -> & _). done. Qed.

(** An error that leaves the blocks alone. *)
Lemma error_post p0 p h h' u t text : self h' = self h -> config h' = config h -> callbacks h' = callbacks h ->
  http_ok p0 p h' t -> forall t0, call_post p0 h t0 (p, set_error h' text, u, -1).
Proof.
  intros ??? [Ht Hb Htb Hfl Hm He] t0. split_and!; try done. exists t. split; [|by left]. constructor; done.
Qed.

Lemma parse_unread_ok p0 p h u t : http_ok p0 p h t -> t <> [] -> phase h <> VOX_HTTP_PHASE_ERROR ->
  st_scanner (stream h) = Scanner (b_at (hbuf h) + buf_off (hbuf h)) (b_at (hbuf h) + buf_off (hbuf h) + buf_size (hbuf h))
    (b_at (hbuf h) + buf_off (hbuf h)) 0 ->
  ok (parse_unread p h u) (call_post p0 h t).
Proof.
  intros Hok Hne Hph Hsc. unfold parse_unread, vox_scanner_stream_get_scanner. rewrite Hsc. pose proof Hok as [Ht Hb Htb Hfl Hm He].
  rewrite bool_decide_eq_false_2 in He by done.
  eapply ok_bind; [exact (do_parse_ok (buf_mem (hbuf h)) _ t h _ u (fresh_pos _ _ Hb Hne) Hm Hph)|].
  intros [[[[h4 sc] u1] r] consumed] (Hk & Hm4 & Hcons & Hfs & Hr).
  destruct Hk as (Eself & Econf & Ecb & Ebuf & Estr).
  set (h5 := with_stream h4 (with_scanner (stream h) sc)).
  assert (http_ok p0 p h5 t) as Hok5.
  { constructor; cbn [h5 with_stream with_hbuf hbuf stream self msg with_scanner temp_buffer st_scanner phase]; try done.
    - unfold owned in *. cbn [h5 with_stream with_hbuf hbuf stream self chunks with_scanner] in *. by rewrite Ebuf, Eself.
    - by rewrite Ebuf.
    - destruct Hr as [[_ Hfa]|[_ (_ & _ & E1 & E2)]]; [by apply failed_err|]. rewrite E1, bool_decide_eq_false_2 by done. exact He. }
  destruct (Z.eqb_spec r (-1)) as [->|Hr1].
  { destruct Hr as [[_ Hfa]|[[?|?] _]]; [|done|done]. destruct (invoke_error h5 u1) as [u2 rc]. cbn [ok call_post].
    split_and!; try done. exists t. split; [done|]. left. split; [done|apply Hfa]. }
  destruct Hr as [[? _]|[_ (_ & _ & E1 & E2)]]; [done|].
  set (stuck := _ && (0 <? buf_size (hbuf h))).
  destruct (stuck && _ && _).
  { destruct (invoke_error _ u1) as [u2 rc]. cbn [ok]. by apply (error_post p0 p h h5 u2 t). }
  assert (forall hs, hs = (if stuck then with_phase h5 VOX_HTTP_PHASE_INIT else h5) ->
    self hs = self h5 /\ config hs = config h5 /\ callbacks hs = callbacks h5 /\ msg hs = msg h5 /\
    stream hs = stream h5 /\ phase hs <> VOX_HTTP_PHASE_ERROR) as Hsk by (intros hs ->; by destruct stuck).
  set (hs := if stuck then _ else _). destruct (Hsk hs eq_refl) as (Es1 & Es2 & Es3 & Es4 & Es5 & Es6). clear Hsk.
  destruct (drop_ok (hbuf h) _ consumed Hb Hcons) as (b3 & -> & Hb3 & Eat3). cbn [mbind option_bind ok call_post].
  cbn [with_hbuf self config callbacks msg]. rewrite Es1, Es2, Es3, Es4. split_and!; try done.
  eexists. split; [|right; split; [exact Hcons|split; [done|]]]; [|cbn; rewrite E1; exact He].
  destruct Hok5 as [Ht5 _ Htb5 Hfl5 Hm5 He5].
  constructor; cbn [with_hbuf hbuf stream self msg phase]; rewrite ?Es4, ?Es5; try done.
  - unfold owned in *. cbn [with_hbuf hbuf stream self]. rewrite Es1, Es5, (block_eq (hbuf h5) b3); [done|]. cbn. by rewrite Eat3, Ebuf.
  - rewrite bool_decide_eq_false_2 by done. cbn. rewrite E1. exact He.
Qed.

Lemma http_call_ok p0 p h u t data : http_ok p0 p h t -> is_bytes data -> zlen data < 2 ^ 63 ->
  ~ (has_error (msg h) = false /\ stale (hbuf h) (zlen data)) ->
  ok (vox_http_parser_execute junk p h u data) (call_post p0 h (t ++ data)).
Proof.
  intros Hok Hd Hl Hns. unfold vox_http_parser_execute. pose proof Hok as [Ht Hb Htb Hfl Hm He].
  destruct (has_error (msg h)) eqn:Eh. { cbn. split_and!; try done. exists t. auto. }
  symmetry in He. rewrite He. cbn [orb]. apply bool_decide_eq_false in He.
  pose proof (zlen_nonneg t). pose proof (zlen_nonneg data). destruct (Z.eqb_spec (zlen data) 0) as [Hz|Hz].
  { cbn [ok call_post]. assert (data = []) as -> by (apply nil_length_inv; unfold zlen in Hz; lia). rewrite app_nil_r.
    split_and!; try done. exists t. split; [exact Hok|]. right. split; [lia|]. by rewrite drop_0. }
  eapply ok_bind; [exact (ensure_ok junk p0 p (hbuf h) t (zlen data) _ Hb Ht ltac:(lia))|]. intros [[p1 b1] rc] (Ht1 & Hb1 & Hc).
  assert (rc = 0 /\ fits b1 (zlen data) \/ rc = -1) as Hc'.
  { destruct Hc as [[-> [?|[-> ?]]]|[? _]]; auto. exfalso. auto. }
  clear Hc. destruct Hc' as [[-> Hf]| ->]; cbn [Z.eqb negb].
  2: { destruct (invoke_error _ u) as [u1 rc]. cbn [ok]. apply (error_post p0 p1 h (with_hbuf h b1) u1 t); try done. constructor; try done. cbn. by rewrite Eh, bool_decide_eq_false_2. }
  destruct (buffer_append_ok b1 t data Hb1 Hd Hf) as (b2 & -> & Hb2 & Eat). cbn [mbind option_bind stream with_hbuf].
  destruct (stream_reset_ok p0 p1 (stream h) (block b2 ++ [self h])) as (p2 & s2 & -> & Ht2 & Hs2); [|done|done|].
  { rewrite (block_eq b1 b2), <-app_assoc by done. exact Ht1. }
  destruct Hs2 as (Hc2 & Htl2 & _ & Htb2 & Hsc2).
  assert (t ++ data <> []) as Hne by (intros [_ ->]%app_nil; done).
  pose proof (fresh_pos b2 _ Hb2 Hne) as Hpos. destruct (pos_bounds _ _ _ _ _ Hpos) as (Hbase & _ & _ & _).
  assert (0 < buf_size b2) as Hsize by (rewrite (hb_size _ _ Hb2), zlen_app; pose proof (zlen_nonneg data); lia).
  eapply ok_bind; [exact (stream_feed_ok (buf_mem b2) p0 p2 s2 _ _ _ Ht2 Hbase Hsize Hc2 Htl2 Htb2 Hsc2)|].
  intros [[p3 s3] rc] (Ht3 & Htb3 & Hfl3 & Hrc). clear Ht Ht1 Ht2.
  set (h3 := with_stream _ s3). assert (http_ok p0 p3 h3 (t ++ data)) as Hok3.
  { constructor; try done; [|by cbn; rewrite Eh, bool_decide_eq_false_2]. cbn [owned h3 with_stream with_hbuf hbuf stream self].
    rewrite <-app_assoc in Ht3. exact Ht3. }
  destruct Hrc as [[-> Hsc3]| ->]; cbn [Z.eqb negb]; [|by apply (error_post p0 p3 h h3 u (t ++ data))].
  exact (parse_unread_ok p0 p3 h3 u _ Hok3 Hne He Hsc3).
Qed.
End execute.

(** ** Life of a parser *)

Section life.
Context {P U : Type} `{MPoolLaws P} (junk : Z).
Implicit Types (p : P) (h : vox_http_parser U) (u : U) (t data : list Z).

Lemma http_create_ok p p' config callbacks h : mp_inv p -> vox_http_parser_create p config callbacks = (p', Some h) ->
  http_ok p p' h [] /\ has_error (msg h) = false.
Proof.
  intros Hp. unfold vox_http_parser_create. destruct (mp_alloc p sizeof_http_parser) as [p1 a] eqn:Ea.
  destruct (Z.eqb_spec a NULL) as [|Ha]; [done|]. intros [= <- <-]. split; [|done]. constructor; try done.
  - apply (took_alloc p p1 sizeof_http_parser); done.
  - constructor; try done; [by exists [], []|by apply Forall_nil|by left].
Qed.

Lemma http_reset_ok p0 p h t : http_ok p0 p h t ->
  exists p' h', vox_http_parser_reset p h = (p', h') /\ http_ok p0 p' h' [] /\ has_error (msg h') = false.
Proof.
  intros [Ht Hb Htb Hfl Hm He]. unfold vox_http_parser_reset.
  destruct (stream_reset_ok p0 p (stream h) (block (hbuf h) ++ [self h])) as (p2 & s2 & -> & Ht2 & Hc2 & _ & _ & Htb2 & Hsc2); [|done|done|].
  { rewrite <-app_assoc. exact Ht. }
  do 2 eexists. split; [done|]. split; [|done]. constructor; try done; cbn [stream hbuf msg phase].
  - unfold owned. cbn [hbuf self stream]. by rewrite Hc2.
  - pose proof (zlen_nonneg (b_cells (hbuf h))). destruct Hb as [_ _ Hc _ Hx Ha]. constructor; try done; [by exists [], (b_cells (hbuf h))|by apply Forall_nil].
  - by rewrite Hsc2.
Qed.

Lemma http_destroy_ok p0 p h t : http_ok p0 p h t -> mp_live (vox_http_parser_destroy p h) = mp_live p0.
Proof.
  intros [Ht Hb Htb Hfl Hm He]. unfold vox_http_parser_destroy, vox_scanner_stream_destroy. rewrite Htb. cbn [Z.eqb NULL].
  assert (took p0 (free_chunks p (chunks (stream h))) (block (hbuf h) ++ [self h])) as Ht1.
  { apply stream_chunks_ok. refine (took_perm _ _ _ _ Ht _). unfold owned. solve_Permutation. }
  destruct (Z.eqb_spec (b_at (hbuf h)) NULL) as [E|E].
  - rewrite block_nil in Ht1 by done. by apply (took_release _ _ _ [self h] Ht1).
  - rewrite block_cons in Ht1 by done. by apply (took_release _ _ _ [b_at (hbuf h); self h] Ht1).
Qed.

(** C31: One call of vox_http_parser_execute, with any bytes, any callbacks and at any point of a message, ends without an access
    outside the buffer unless the buffer is [stale]: the result is -1 with the error set, or the number [r] of bytes taken off the
    front of what was unread and what was fed, and exactly the rest stays unread. The invariant of the parser is kept, so that calls
    may follow each other, and vox_http_parser_destroy gives every block back at any time. *)
Theorem http_execute_safe p0 p h u t data :
  http_ok p0 p h t -> is_bytes data -> zlen data < 2 ^ 63 ->
  ~ (has_error (msg h) = false /\ stale (hbuf h) (zlen data)) ->
  exists p' h' u' r t', vox_http_parser_execute junk p h u data = Some (p', h', u', r) /\ http_ok p0 p' h' t' /\
    (r = -1 /\ vox_http_parser_has_error h' = true \/
     0 <= r <= zlen t + zlen data /\ t' = drop (Z.to_nat r) (t ++ data) /\ vox_http_parser_has_error h' = false) /\
    mp_live (vox_http_parser_destroy p' h') = mp_live p0.
Proof.
  intros Hok Hd Hl Hns.
  destruct (ok_Some _ _ (http_call_ok junk p0 p h u t data Hok Hd Hl Hns)) as ([[[p' h'] u'] r] & E & _ & _ & _ & t' & Hok' & Hr).
  exists p', h', u', r, t'. split; [done|]. split; [done|]. rewrite zlen_app in Hr. split; [exact Hr|]. by eapply http_destroy_ok.
Qed.

(** C32: The case that is left out runs over the end of the buffer: when everything fed so far is consumed, the next bytes fit into
    the capacity, but not behind the offset, then compact_buf, which leaves an empty buffer alone, does not make the room that
    ensure_buf then reports, and the copy or its terminator is written behind the block. *)
Theorem http_buffer_overflow p0 p h u t data :
  http_ok p0 p h t -> has_error (msg h) = false -> data <> [] -> zlen data < 2 ^ 63 -> stale (hbuf h) (zlen data) ->
  vox_http_parser_execute junk p h u data = None.
Proof.
  intros [Ht Hb Htb Hfl Hm He] Eh Hne Hl (Hs0 & Ho & Hc). unfold vox_http_parser_execute. rewrite <-He, Eh. cbn [orb].
  assert (0 < zlen data) by (unfold zlen; destruct data; [done|cbn [length]; lia]). rewrite (proj2 (Z.eqb_neq _ 0)) by lia.
  pose proof (buffer_bounds _ _ Hb) as Hbb. unfold ensure_buf. rewrite Hs0. rewrite (u64_small (_ + zlen data + 1)) by lia.
  rewrite (proj2 (Z.leb_gt _ _)), (proj2 (Z.ltb_lt _ _)) by lia. unfold compact_buf. rewrite Hs0, orb_true_r. cbn [mbind option_bind].
  rewrite Hs0, u64_small, (proj2 (Z.leb_le _ _)) by lia. cbn [mbind option_bind Z.eqb negb].
  rewrite append_overruns; [done|lia|apply Hb|lia|lia].
Qed.
End life.

(** ** A client that records the calls it gets *)

Inductive event :=
| Begin | Url (l : list Z) | Status (l : list Z) | Field (l : list Z) | Value (l : list Z) | HeadersComplete
| Body (l : list Z) | MessageComplete | Error (l : list Z).

Definition recorder : vox_http_callbacks_t (list event) :=
  let add0 e := Some (fun (_ : http_msg) u => (u ++ [e], 0)) in
  let add1 (e : list Z -> event) := Some (fun (_ : http_msg) l u => (u ++ [e l], 0)) in
  Callbacks (add0 Begin) (add1 Url) (add1 Status) (add1 Field) (add1 Value) (add0 HeadersComplete) (add1 Body)
    (add0 MessageComplete) (add1 Error).

(** Some reads, one after the other; the results of the calls are kept. *)
Fixpoint feed_all {P U} `{MPool P} (p : P) (h : vox_http_parser U) (u : U) (reads : list (list Z))
  : option (P * vox_http_parser U * U * list Z) :=
  match reads with
  | [] => Some (p, h, u, [])
  | d :: reads =>
      '(p, h, u, r) ← vox_http_parser_execute 0 p h u d;
      '(p, h, u, rs) ← feed_all p h u reads;
      Some (p, h, u, r :: rs)
  end.

(** *** Evaluation *)

Definition ex_pool : bump := bump_new 100000.
Definition ex_parser : bump * option (vox_http_parser (list event)) := vox_http_parser_create ex_pool None (Some recorder).
Definition ex_run (reads : list (list Z)) : option (bump * vox_http_parser (list event) * list event * list Z) :=
  match ex_parser with (p, Some h) => feed_all p h [] reads | _ => None end.
Definition ex_head : list Z := bytes_of "POST /a HTTP/1.1" ++ CRLF ++ bytes_of "Content-Length: 4060" ++ CRLF ++ CRLF.

Lemma ex_pool_inv : mp_inv ex_pool.
Proof. by apply bump_new_inv. Qed.

Lemma bytes_of_bytes s : is_bytes (bytes_of s).
Proof.
  unfold bytes_of, is_bytes. apply Forall_fmap, Forall_true. intros a. cbn. pose proof (nat_ascii_bounded a). lia.
Qed.

Lemma ex_head_bytes : is_bytes ex_head.
Proof. unfold ex_head. repeat (apply Forall_app; split); try apply bytes_of_bytes; repeat constructor; lia. Qed.

Lemma ex_parser_created : exists p h, ex_parser = (p, Some h) /\ http_ok ex_pool p h [] /\ has_error (msg h) = false /\
  buf_off (hbuf h) = 0.
Proof.
  destruct ex_parser as [p [h|]] eqn:E; [|by vm_compute in E]. exists p, h. split; [done|].
  destruct (http_create_ok _ _ None (Some recorder) h ex_pool_inv E) as [Hok He]. split; [exact Hok|]. split; [exact He|].
  by injection E as <- <-.
Qed.

Lemma http_execute_safe_witness :
  exists p h, ex_parser = (p, Some h) /\
  exists p' h' u' r t', vox_http_parser_execute 0 p h [] ex_head = Some (p', h', u', r) /\ http_ok ex_pool p' h' t' /\
    (r = -1 /\ vox_http_parser_has_error h' = true \/
     0 <= r <= zlen (@nil Z) + zlen ex_head /\ t' = drop (Z.to_nat r) ([] ++ ex_head) /\ vox_http_parser_has_error h' = false) /\
    mp_live (vox_http_parser_destroy p' h') = mp_live ex_pool.
Proof.
  destruct ex_parser_created as (p & h & E & Hok & _ & Ho). exists p, h. split; [exact E|].
  apply (http_execute_safe 0 ex_pool p h [] [] ex_head Hok ex_head_bytes); [reflexivity|].
  intros [_ (_ & Hx & _)]. rewrite Ho in Hx. by apply Z.lt_irrefl in Hx.
Defined.

(** The state after a first read: the message is not complete and the buffer is stale. *)
Lemma ex_stale :
  exists p h u r t, ex_run [ex_head] = Some (p, h, u, [r]) /\ http_ok ex_pool p h t /\ has_error (msg h) = false /\
    stale (hbuf h) 4060.
Proof.
  destruct ex_parser_created as (p & h & E & Hok & _ & Ho).
  assert (ok (vox_http_parser_execute 0 p h [] ex_head) (call_post ex_pool h ex_head)) as Hx.
  { apply (http_call_ok 0 ex_pool p h [] [] ex_head Hok ex_head_bytes); [done|]. intros [_ (_ & Hs & _)]. lia. }
  assert (match vox_http_parser_execute 0 p h [] ex_head with
          | Some (_, h, _, _) => negb (has_error (msg h)) && bool_decide (stale (hbuf h) 4060) | None => false end = true) as Hc.
  { injection E as <- <-. vm_compute. done. }
  unfold ex_run. rewrite E. cbn [feed_all]. destruct (vox_http_parser_execute 0 p h [] ex_head) as [[[[p1 h1] u1] r]|]; [|done].
  destruct Hx as (_ & _ & _ & t & Hok1 & _). apply andb_true_iff in Hc as [He%negb_true_iff Hs%bool_decide_eq_true].
  exists p1, h1, u1, r, t. done.
Qed.

(** The head of a request in one read, its body of 4060 bytes in the next. *)
Lemma http_buffer_overflow_witness :
  exists p h u r t, (ex_run [ex_head] = Some (p, h, u, [r]) /\ http_ok ex_pool p h t /\ has_error (msg h) = false /\
    stale (hbuf h) 4060) /\ vox_http_parser_execute 0 p h u (replicate 4060 120) = None.
Proof.
  destruct ex_stale as (p & h & u & r & t & Hx). exists p, h, u, r, t. split; [exact Hx|]. destruct Hx as (_ & Hok & He & Hs).
  apply (http_buffer_overflow 0 ex_pool p h u t (replicate 4060 120) Hok He); [discriminate|reflexivity|exact Hs].
Defined.

(** *** What the code does in special cases *)

(** A text and the end of a line. *)
Definition line (s : string) : list Z := bytes_of s ++ CRLF.

(** The calls, the results and the phase after some reads. *)
Definition ex_out (reads : list (list Z)) : option (list event * list Z * vox_http_phase_t) :=
  '(_, h, u, rs) ← ex_run reads; Some (u, rs, phase h).

(** A read that ends behind a header line, in front of the empty line: the header is lost. *)
Example header_split_lost :
  ex_out [line "GET /a HTTP/1.1" ++ line "Content-Length: 3"; CRLF ++ bytes_of "abc"]
  = Some ([Begin; Url (bytes_of "/a"); HeadersComplete; MessageComplete], [36; 2], VOX_HTTP_PHASE_MESSAGE_COMPLETE).
Proof. vm_compute. reflexivity. Qed.

(** A read that ends within the line of a chunk size starts the message again. *)
Example chunk_size_split_fails :
  ex_out [line "GET /a HTTP/1.1" ++ line "Transfer-Encoding: chunked" ++ CRLF; bytes_of "3"; CRLF ++ line "abc" ++ line "0" ++ CRLF]
  = Some ([Begin; Url (bytes_of "/a"); Field (bytes_of "Transfer-Encoding"); Value (bytes_of "chunked"); HeadersComplete; Begin;
           Error (bytes_of "invalid request line")], [47; 0; -1], VOX_HTTP_PHASE_ERROR).
Proof. vm_compute. reflexivity. Qed.

(** A read that ends within the start line: the message begins twice. *)
Example start_line_split_begins_twice :
  ex_out [bytes_of "GET /a"; line " HTTP/1.1" ++ CRLF]
  = Some ([Begin; Begin; Url (bytes_of "/a"); HeadersComplete; MessageComplete], [0; 19], VOX_HTTP_PHASE_MESSAGE_COMPLETE).
Proof. vm_compute. reflexivity. Qed.

(** A continuation line is handed on before the header it continues, whose value then holds the
    end of its line and lacks its last character. *)
Example continuation_line :
  ex_out [line "GET /a HTTP/1.1" ++ line "X: abc" ++ line " def" ++ CRLF]
  = Some ([Begin; Url (bytes_of "/a"); Value (bytes_of " def"); Field (bytes_of "X"); Value (bytes_of "abc" ++ CRLF ++ bytes_of " de");
           HeadersComplete; MessageComplete], [33], VOX_HTTP_PHASE_MESSAGE_COMPLETE).
Proof. vm_compute. reflexivity. Qed.

(** A Content-Length that does not fit 64 bits is taken modulo 2^64. *)
Example content_length_wraps : parse_content_length (bytes_of "50000000000000000000") = Some 13106511852580896768.
Proof. vm_compute. reflexivity. Qed.

Example chunk_extension_fails :
  ex_out [line "GET /a HTTP/1.1" ++ line "Transfer-Encoding: chunked" ++ CRLF ++ line "3;x=1" ++ line "abc"]
  = Some ([Begin; Url (bytes_of "/a"); Field (bytes_of "Transfer-Encoding"); Value (bytes_of "chunked"); HeadersComplete;
           Error (bytes_of "invalid chunk size")], [-1], VOX_HTTP_PHASE_ERROR).
Proof. vm_compute. reflexivity. Qed.

(** The words of Connection after one that is not known are not looked at. *)
Example connection_stops : connection_loop 20 (bytes_of "upgrade, close") false false = Some (false, false).
Proof. reflexivity. Qed.

(** The connection of the server: the second read is handed over as if the first, kept in the
    buffer, had to be counted too, and [left] wraps. *)
Example read_loop_wraps :
  match ex_parser with
  | (p, Some h) =>
      '(p, h, u, close) ← read_loop 0 20 p h [] (bytes_of "GE");
      Some (close, read_loop 0 20 p h u (line "T /a HTTP/1.1" ++ CRLF))
  | _ => None
  end = Some (false, None).
Proof. vm_compute. reflexivity. Qed.
End Http.
