(* ===== verification/HttpMsg.v ===== *)
(** * Whole messages through the parser of Http.v

    A request written out as bytes - request line, header lines, empty line, then a body of
    a given length or in chunks - and handed to a new parser in one read, with whatever
    follows it, comes back as the calls that describe it. *)

From Stdlib Require Import String Ascii.
From S2P Require Import Prelude Alloc CString Scanner Http.

Module HttpMsg.
Import CString Scanner Http.

(** ** Reading lines

    [stand sc rest]: the scanner stands in front of [rest]. *)

Definition no_cr (l : list Z) : Prop := 13 ∉ l.

Section reading.
Context (mem : Z -> option Z) (base : Z) (whole : list Z).
Implicit Types (sc : vox_scanner) (l rest : list Z) (v : view).

Definition stand sc rest : Prop := exists k, pos mem base whole sc k /\ drop k whole = rest.

(** [v] is a view of the characters [l]. *)
Definition view_of v l : Prop := text mem v = Some l /\ v_len v = zlen l.

Lemma load_sub p n l i k : load mem p n = Some l -> (i + k <= n)%nat ->
  load mem (p + Z.of_nat i) k = Some (take k (drop i l)).
Proof.
  revert p l i k. induction n as [|n IH]; intros p l i k; cbn [load].
  { intros _ Hi. destruct k as [|k]; [done|lia]. }
  destruct (mem p) as [ch|] eqn:Ec; [|done]. cbn [mbind option_bind]. destruct (load mem (p + 1) n) as [l'|] eqn:El; [|done].
  cbn [mbind option_bind]. intros [= <-] Hi. destruct i as [|i].
  - rewrite Z.add_0_r. destruct k as [|k]; [done|]. cbn [load drop take]. rewrite Ec. cbn [mbind option_bind].
    pose proof (IH (p + 1) l' 0%nat k El ltac:(lia)) as E0. rewrite Z.add_0_r in E0. by rewrite E0.
  - cbn [drop]. replace (p + Z.of_nat (S i)) with (p + 1 + Z.of_nat i) by lia. apply IH; [done|lia].
Qed.

Lemma view_sub v l i n : view_of v l -> 0 <= i -> 0 <= n -> i + n <= zlen l ->
  view_of (View (v_ptr v + i) n) (take (Z.to_nat n) (drop (Z.to_nat i) l)).
Proof.
  intros [Ht Hl] Hi Hn Hb. split.
  - unfold text in *. cbn [v_ptr v_len]. rewrite <-(Z2Nat.id i) at 1 by lia. apply (load_sub _ (Z.to_nat (v_len v))); [done|lia].
  - cbn [v_len]. rewrite zlen_take, zlen_drop. lia.
Qed.

Lemma drop_while_drop f l : drop (length (take_while f l)) l = drop_while f l.
Proof. rewrite <-(take_drop_while f l) at 2. apply drop_app_length. Qed.
Lemma take_while_zlen f l : zlen l - zlen (take_while f l) = zlen (drop_while f l).
Proof. rewrite <-(take_drop_while f l) at 1. rewrite zlen_app. lia. Qed.

Lemma trim_left_of v l : view_of v l -> exists v', trim_left mem v = Some v' /\ view_of v' (drop_while is_ows l).
Proof.
  intros Hv. unfold trim_left. pose proof Hv as [-> Hl]. cbn [mbind option_bind]. eexists. split; [done|].
  rewrite Hl, take_while_zlen. pose proof (zlen_nonneg (take_while is_ows l)). pose proof (zlen_nonneg (drop_while is_ows l)).
  pose proof (take_while_zlen is_ows l).
  pose proof (view_sub v l (zlen (take_while is_ows l)) (zlen (drop_while is_ows l)) Hv) as Hs.
  replace (Z.to_nat (zlen (take_while is_ows l))) with (length (take_while is_ows l)) in Hs by (unfold zlen; lia).
  rewrite drop_while_drop, take_ge in Hs by (unfold zlen; lia). apply Hs; lia.
Qed.

Lemma trim_right_of v l : view_of v l -> exists v', trim_right mem v = Some v' /\ view_of v' (rev (drop_while is_ows (rev l))).
Proof.
  intros Hv. unfold trim_right. pose proof Hv as [-> Hl]. cbn [mbind option_bind]. eexists. split; [done|].
  pose proof (take_while_zlen is_ows (rev l)) as E. assert (zlen (rev l) = zlen l) as Er by (unfold zlen; by rewrite length_rev).
  rewrite Er in E. rewrite Hl, E. pose proof (zlen_nonneg (take_while is_ows (rev l))). pose proof (zlen_nonneg (drop_while is_ows (rev l))).
  pose proof (view_sub v l 0 (zlen (drop_while is_ows (rev l))) Hv) as Hs. rewrite Z.add_0_r in Hs.
  assert (rev (drop_while is_ows (rev l)) = take (Z.to_nat (zlen (drop_while is_ows (rev l)))) (drop 0 l)) as ->; [|apply Hs; lia].
  rewrite drop_0. set (d := drop_while is_ows (rev l)). assert (l = rev d ++ rev (take_while is_ows (rev l))) as El.
  { rewrite <-rev_app_distr. unfold d. by rewrite take_drop_while, rev_involutive. }
  rewrite El at 1. unfold zlen. rewrite Nat2Z.id, <-(length_rev d), take_app_length. done.
Qed.

Lemma index_of_crlf l rest : no_cr l -> index_of CRLF (l ++ CRLF ++ rest) = Some (length l).
Proof.
  induction l as [|ch l IH]; intros Hn; [done|]. apply not_elem_of_cons in Hn as [Hc Hn].
  assert (starts_with CRLF ((ch :: l) ++ CRLF ++ rest) = false) as E.
  { cbn [CRLF app starts_with]. by rewrite (proj2 (Z.eqb_neq 13 ch)) by done. }
  cbn [app index_of] in *. rewrite E, IH by done. done.
Qed.

Lemma stand_line sc l rest : stand sc (l ++ CRLF ++ rest) -> no_cr l ->
  exists v sc', peek_line mem sc = Some (v, 0) /\ view_of v l /\ skip_line mem sc = Some sc' /\ stand sc' rest.
Proof.
  intros (k & Hp & Hk) Hn. pose proof (peek_line_pos mem base whole sc k Hp) as Hl.
  assert (next_line whole k = Some (length l)) as En by (unfold next_line; rewrite Hk; by apply index_of_crlf).
  rewrite En in Hl. pose proof (next_line_le whole k _ En ltac:(apply Hp)) as Hb.
  destruct (skip_line_pos mem base whole sc k _ Hp En) as (sc' & E & Hp'). do 2 eexists. split; [exact Hl|]. split; [|split; [exact E|]].
  - split; [|done]. rewrite (text_pos mem base whole sc k k _ Hp) by lia. unfold piece. by rewrite Hk, take_app_length.
  - eexists. split; [exact Hp'|]. replace (k + length l + 2)%nat with (k + (length l + 2))%nat by lia. rewrite <-drop_drop, Hk.
    rewrite <-drop_drop, drop_app_length. done.
Qed.

Lemma stand_get sc l rest : stand sc (l ++ rest) ->
  exists v sc', vox_scanner_get mem sc (zlen l) = Some (sc', v) /\ view_of v l /\ stand sc' rest.
Proof.
  intros (k & Hp & Hk). assert (k + length l <= length whole)%nat as Hb.
  { apply (f_equal length) in Hk. rewrite length_drop, length_app in Hk. pose proof Hp as (_ & ? & _). lia. }
  destruct (get_pos mem base whole sc k (length l) Hp Hb) as (sc' & E & Hp'). do 2 eexists. split; [exact E|]. split.
  - split; [|done]. rewrite (text_pos mem base whole sc k k _ Hp) by lia. unfold piece. by rewrite Hk, take_app_length.
  - eexists. split; [exact Hp'|]. by rewrite <-drop_drop, Hk, drop_app_length.
Qed.

Lemma stand_skip sc l rest : stand sc (l ++ rest) -> exists sc', vox_scanner_skip mem sc (zlen l) = Some sc' /\ stand sc' rest.
Proof.
  intros (k & Hp & Hk). assert (k + length l <= length whole)%nat as Hb.
  { apply (f_equal length) in Hk. rewrite length_drop, length_app in Hk. pose proof Hp as (_ & ? & _). lia. }
  destruct (skip_pos mem base whole sc k (length l) Hp Hb) as (sc' & E & Hp'). eexists. split; [exact E|].
  eexists. split; [exact Hp'|]. by rewrite <-drop_drop, Hk, drop_app_length.
Qed.

Lemma stand_remaining sc rest : stand sc rest -> vox_scanner_remaining sc = zlen rest.
Proof.
  intros (k & Hp & <-). rewrite (remaining_pos mem base whole sc k Hp), zlen_drop. pose proof Hp as (_ & ? & _). unfold zlen. lia.
Qed.

Lemma stand_offset sc l rest : stand sc rest -> whole = l ++ rest -> vox_scanner_offset sc = zlen l.
Proof.
  intros (k & Hp & Hk) E. rewrite (offset_pos mem base whole sc k Hp). apply (f_equal length) in Hk. rewrite E in Hk.
  pose proof Hp as (_ & Hl & _). rewrite E in Hl. rewrite length_drop, length_app in Hk. rewrite length_app in Hl. unfold zlen. lia.
Qed.

End reading.


(** ** Requests *)

(** A body: none, a text of a given length, or chunks - the text of a size and the data -
    with the text of the last size and the trailer lines. *)
Inductive body :=
| NoBody
| Plain (l : list Z)
| Chunks (cs : list (list Z * list Z)) (last : list Z) (trailers : list (list Z)).

(** A header is its name and its value as they stand in the line, white space included. *)
Record request := Request {
  rq_method : list Z;
  rq_url : list Z;
  rq_minor : Z;
  rq_headers : list (list Z * list Z);
  rq_body : body;
}.

Definition request_line (rq : request) : list Z :=
  rq_method rq ++ [32] ++ rq_url rq ++ bytes_of " HTTP/1." ++ [48 + rq_minor rq].
Definition header_text (h : list Z * list Z) : list Z := h.1 ++ [58] ++ h.2.
Definition lines (ls : list (list Z)) : list Z := concat ((fun l => l ++ CRLF) <$> ls).
Definition chunk_bytes (c : list Z * list Z) : list Z := c.1 ++ CRLF ++ c.2 ++ CRLF.
Definition body_bytes (b : body) : list Z :=
  match b with
  | NoBody => []
  | Plain l => l
  | Chunks cs last ts => concat (chunk_bytes <$> cs) ++ last ++ CRLF ++ lines ts ++ CRLF
  end.
Definition render (rq : request) : list Z :=
  request_line rq ++ CRLF ++ lines (header_text <$> rq_headers rq) ++ CRLF ++ body_bytes (rq_body rq).

(** The calls that describe a request. *)
Definition header_calls (h : list Z * list Z) : list event :=
  Field (trim_both h.1) :: match trim_both h.2 with [] => [] | v => [Value v] end.
Definition body_calls (b : body) : list event :=
  match b with NoBody => [] | Plain l => [Body l] | Chunks cs _ _ => (fun c => Body c.2) <$> cs end.
Definition calls (rq : request) : list event :=
  [Begin; Url (rq_url rq)] ++ concat (header_calls <$> rq_headers rq) ++ [HeadersComplete] ++
  body_calls (rq_body rq) ++ [MessageComplete].

Definition numeral (l : list Z) : Z := foldl (fun a ch => a * 10 + (ch - 48)) 0 l.
Definition hex_numeral (l : list Z) : Z := foldl (fun a ch => a * 16 + default 0 (hex_digit ch)) 0 l.
Definition hex_text (l : list Z) : Prop := l <> [] /\ Forall (fun ch => is_Some (hex_digit ch)) l.

(** The length of the body the headers announce, and whether it comes in chunks. *)
Definition frame_of (f : Z * bool) (h : list Z * list Z) : Z * bool :=
  let v := trim_both h.2 in
  if header_name_is (trim_both h.1) "Content-Length" then (match v with [] => f.1 | _ => numeral v end, f.2)
  else if header_name_is (trim_both h.1) "Transfer-Encoding" then (f.1, f.2 || header_value_is_chunked v)
  else f.
Definition framing (hs : list (list Z * list Z)) : Z * bool := foldl frame_of (0, false) hs.

Definition header_ok (h : list Z * list Z) : Prop :=
  no_cr h.1 /\ no_cr h.2 /\ (58 ∉ h.1) /\ (exists ch n, h.1 = ch :: n /\ is_ows ch = false) /\
  (header_name_is (trim_both h.1) "Content-Length" = true ->
   forallb isdigit (trim_both h.2) = true /\ numeral (trim_both h.2) < 2 ^ 64).

Definition chunk_ok (c : list Z * list Z) : Prop := hex_text c.1 /\ hex_numeral c.1 = zlen c.2 /\ c.2 <> [].

Definition body_ok (f : Z * bool) (b : body) : Prop :=
  match b with
  | NoBody => f = (0, false)
  | Plain l => f = (zlen l, false) /\ l <> []
  | Chunks cs last ts =>
      f.2 = true /\ Forall chunk_ok cs /\ hex_text last /\ hex_numeral last = 0 /\ Forall (fun t => no_cr t /\ t <> []) ts
  end.

(** A word of the request line. *)
Definition word_ok (l : list Z) : Prop := l <> [] /\ no_cr l /\ (32 ∉ l).

Definition request_ok (cfg : vox_http_parser_config_t) (rq : request) : Prop :=
  word_ok (rq_method rq) /\ word_ok (rq_url rq) /\ (rq_minor rq = 0 \/ rq_minor rq = 1) /\
  looks_like_response (request_line rq) = false /\ cfg_type cfg <> VOX_HTTP_PARSER_TYPE_RESPONSE /\
  (max_url_size cfg = 0 \/ zlen (rq_url rq) <= max_url_size cfg) /\
  Forall header_ok (rq_headers rq) /\ (max_headers cfg = 0 \/ zlen (rq_headers rq) <= max_headers cfg) /\
  body_ok (framing (rq_headers rq)) (rq_body rq) /\ is_bytes (render rq).

(** ** Numerals *)

Lemma isdigit_range ch : isdigit ch = true -> 48 <= ch <= 57.
Proof. unfold isdigit. rewrite andb_true_iff, !Z.leb_le. lia. Qed.

Lemma numeral_le l acc : forallb isdigit l = true -> 0 <= acc -> acc <= foldl (fun a ch => a * 10 + (ch - 48)) acc l.
Proof.
  revert acc. induction l as [|ch l IH]; intros acc Hd Ha; [cbn; lia|]. cbn [forallb foldl] in *.
  apply andb_true_iff in Hd as [Hc%isdigit_range Hl]. specialize (IH (acc * 10 + (ch - 48)) Hl). lia.
Qed.

Lemma decimal_loop_spec l acc : forallb isdigit l = true -> 0 <= acc ->
  foldl (fun a ch => a * 10 + (ch - 48)) acc l < 2 ^ 64 ->
  decimal_loop l acc = Some (foldl (fun a ch => a * 10 + (ch - 48)) acc l).
Proof.
  revert acc. induction l as [|ch l IH]; intros acc Hd Ha Hb; [done|]. cbn [forallb foldl decimal_loop] in *.
  apply andb_true_iff in Hd as [Hc Hl]. rewrite Hc. cbn [negb]. apply isdigit_range in Hc.
  pose proof (numeral_le l (acc * 10 + (ch - 48)) Hl ltac:(lia)).
  rewrite (u64_small (acc * 10)), u64_small, (proj2 (Z.ltb_ge _ _)) by lia. apply IH; [done|lia|done].
Qed.

Lemma hex_digit_range ch d : hex_digit ch = Some d -> 0 <= d < 16.
Proof.
  unfold hex_digit. destruct (Z.leb_spec 48 ch), (Z.leb_spec ch 57), (Z.leb_spec 97 ch), (Z.leb_spec ch 102),
    (Z.leb_spec 65 ch), (Z.leb_spec ch 70); cbn [andb]; intros [= <-]; lia.
Qed.

Lemma hex_le l acc : Forall (fun ch => is_Some (hex_digit ch)) l -> 0 <= acc ->
  acc <= foldl (fun a ch => a * 16 + default 0 (hex_digit ch)) acc l.
Proof.
  intros Hl. revert acc. induction Hl as [|ch l [d Hd] _ IH]; intros acc Ha; [cbn; lia|]. cbn [foldl]. rewrite Hd. change (default 0 (Some d)) with d.
  apply hex_digit_range in Hd. specialize (IH (acc * 16 + d) ltac:(lia)). lia.
Qed.

Lemma hex_loop_spec l acc : Forall (fun ch => is_Some (hex_digit ch)) l -> 0 <= acc ->
  foldl (fun a ch => a * 16 + default 0 (hex_digit ch)) acc l < 2 ^ 64 ->
  hex_loop l acc = Some (foldl (fun a ch => a * 16 + default 0 (hex_digit ch)) acc l).
Proof.
  intros Hl. revert acc. induction Hl as [|ch l [d Hd] Hl IH]; intros acc Ha Hb; [done|]. cbn [foldl hex_loop] in *.
  rewrite Hd in *. change (default 0 (Some d)) with d in *. pose proof (hex_digit_range _ _ Hd).
  pose proof (hex_le l (acc * 16 + d) Hl ltac:(lia)).
  rewrite (proj2 (Z.ltb_ge _ _)) by (change (Z.shiftr SIZE_MAX 4) with (2 ^ 60 - 1); lia).
  rewrite Z.shiftl_mul_pow2 by lia. change (2 ^ 4) with 16.
  rewrite (u64_small (acc * 16)), u64_small, (proj2 (Z.ltb_ge _ _)) by lia. apply IH; [lia|done].
Qed.

Lemma chunk_size_spec l : hex_text l -> hex_numeral l < 2 ^ 64 -> parse_chunk_size l = Some (hex_numeral l).
Proof.
  intros [Hne Hl] Hb. unfold parse_chunk_size. destruct l as [|ch l]; [done|].
  assert (is_ows ch = false) as Eo.
  { apply Forall_cons in Hl as [[d Hd] _]. unfold is_ows. apply orb_false_iff. split; apply Z.eqb_neq; intros ->; done. }
  cbn [drop_while]. rewrite Eo. by apply hex_loop_spec.
Qed.

Lemma hex_no_cr l : hex_text l -> no_cr l.
Proof. intros [_ Hl] Hin. rewrite Forall_forall in Hl. by destruct (Hl 13 Hin). Qed.

(** ** The request line *)

Lemma while_stop f l ch r : Forall (fun x => f x = true) l -> f ch = false ->
  take_while f (l ++ ch :: r) = l /\ drop_while f (l ++ ch :: r) = ch :: r.
Proof.
  intros Hl Hc. induction Hl as [|x l Hx _ [IH1 IH2]]; cbn [app take_while drop_while]; [by rewrite Hc|].
  rewrite Hx. by rewrite IH1, IH2.
Qed.

Lemma not_in_forall c l : c ∉ l -> Forall (fun x => negb (x =? c) = true) l.
Proof. intros Hn. apply Forall_forall. intros x Hx. apply negb_true_iff, Z.eqb_neq. by intros ->. Qed.

(** The state while the headers are read: what a header can change is left out. *)
Record same_head {U} (p p' : vox_http_parser U) : Prop := {
  sh_kept : kept p p';
  sh_phase : phase p' = phase p;
  sh_method : method (msg p') = method (msg p);
  sh_version : http_major (msg p') = http_major (msg p) /\ http_minor (msg p') = http_minor (msg p);
  sh_read : body_read (msg p') = body_read (msg p);
  sh_error : has_error (msg p') = has_error (msg p);
}.

Lemma same_head_refl {U} (p : vox_http_parser U) : same_head p p.
Proof. by constructor; [apply kept_refl|..]. Qed.
Lemma same_head_trans {U} (p p1 p2 : vox_http_parser U) : same_head p p1 -> same_head p1 p2 -> same_head p p2.
Proof.
  intros [K1 ? ? [? ?] ? ?] [K2 ? ? [? ?] ? ?]. constructor; [exact (kept_trans _ _ _ K1 K2)|congruence..| | |]; try split; congruence.
Qed.

Section messages.
Context (mem : Z -> option Z) (base : Z) (whole : list Z).
Implicit Types (p : vox_http_parser (list event)) (sc : vox_scanner) (u : list event).
#[local] Abbreviation stand := (stand mem base whole).
#[local] Abbreviation view_of := (view_of mem).

Definition headed (p : vox_http_parser (list event)) (rq : request) : vox_http_parser (list event) :=
  with_msg p (with_version (with_method (msg p) (parse_method (rq_method rq))) 1 (rq_minor rq)).

Lemma request_line_parsed p u rq : request_ok (config p) rq -> callbacks p = recorder ->
  parse_request_line p u (request_line rq) = Some (headed p rq, u ++ [Url (rq_url rq)], 0).
Proof.
  intros (Hm & Hu & Hd & _ & _ & Hmax & _) Hcb. destruct Hm as (Hm0 & _ & Hm2), Hu as (Hu0 & _ & Hu2).
  unfold parse_request_line, request_line. change (bytes_of " HTTP/1.") with (32 :: bytes_of "HTTP/1."). cbn [app].
  destruct (while_stop (fun ch => negb (ch =? 32)) (rq_method rq) 32 (rq_url rq ++ 32 :: bytes_of "HTTP/1." ++ [48 + rq_minor rq])
    (not_in_forall _ _ Hm2) eq_refl) as [-> ->].
  destruct (rq_method rq) as [|m0 ml] eqn:Em; [done|]. rewrite <-Em. clear Em.
  assert (forall r, drop_while (fun ch => ch =? 32) (32 :: rq_url rq ++ r) = rq_url rq ++ r) as ->.
  { intros r. destruct (rq_url rq) as [|c0 l0]; [done|]. apply not_elem_of_cons in Hu2 as [Hc _]. cbn [drop_while app Z.eqb Pos.eqb].
    by rewrite (proj2 (Z.eqb_neq c0 32)) by (by intros ->). }
  destruct (while_stop (fun ch => negb (ch =? 32)) (rq_url rq) 32 (bytes_of "HTTP/1." ++ [48 + rq_minor rq])
    (not_in_forall _ _ Hu2) eq_refl) as [-> ->].
  destruct (rq_url rq) as [|c0 l0] eqn:Eu; [done|]. rewrite <-Eu in *.
  replace (negb (max_url_size (config _) =? 0) && _) with false.
  2: { symmetry. apply andb_false_iff. cbn [config with_msg]. destruct Hmax as [-> | Hmax]; [by left|right; apply Z.ltb_ge; lia]. }
  unfold invoke_url. cbn [callbacks with_msg]. rewrite Hcb. cbn [recorder on_url call1].
  rewrite (proj2 (Z.eqb_neq _ 0)) by (rewrite Eu, zlen_cons; pose proof (zlen_nonneg l0); lia).
  unfold headed. destruct Hd as [-> | ->]; reflexivity.
Qed.

Lemma start_line_parsed p sc u rq rest : request_ok (config p) rq -> callbacks p = recorder ->
  stand sc (request_line rq ++ CRLF ++ rest) ->
  exists sc', parse_start_line mem p sc u = Some (headed p rq, sc', u ++ [Url (rq_url rq)], 0) /\ stand sc' rest.
Proof.
  intros Hrq Hcb Hs. pose proof Hrq as ((Hm0 & Hm1 & _) & (_ & Hu1 & _) & Hd & Hlr & Hty & _).
  assert (no_cr (request_line rq)) as Hcr.
  { unfold no_cr, request_line. rewrite !elem_of_app. change (bytes_of " HTTP/1.") with [32; 72; 84; 84; 80; 47; 49; 46].
    rewrite !elem_of_cons, !elem_of_nil. intros [?|[[?|?]|[?|[Hx|Hx]]]]; try done.
    - repeat destruct Hx as [Hx|Hx]; done.
    - destruct Hx as [Hx|Hx]; [lia|done]. }
  destruct (stand_line mem base whole sc _ rest Hs Hcr) as (v & sc' & Ep & [Ht Hl] & Esk & Hs').
  exists sc'. split; [|done]. unfold parse_start_line. rewrite Ep. cbn [mbind option_bind Z.eqb negb]. rewrite Hl.
  rewrite (proj2 (Z.eqb_neq _ 0)).
  2: { unfold request_line. destruct (rq_method rq) as [|c l]; [done|]. cbn [app]. rewrite zlen_cons.
       pose proof (zlen_nonneg (l ++ 32 :: rq_url rq ++ bytes_of " HTTP/1." ++ [48 + rq_minor rq])). lia. }
  rewrite Ht. cbn [mbind option_bind]. rewrite Hlr, bool_decide_eq_false_2 by done. cbn [orb].
  rewrite request_line_parsed by done. cbn [mbind option_bind Z.eqb negb]. by rewrite Esk.
Qed.


(** ** Headers *)

Lemma while_nil f l : drop_while f l = [] -> Forall (fun x => f x = true) l.
Proof.
  induction l as [|x l IH]; [done|]. cbn [drop_while]. destruct (f x) eqn:E; [|done]. intros Hl. constructor; [done|by apply IH].
Qed.

Lemma trim_nonempty ch n : is_ows ch = false -> trim_both (ch :: n) <> [].
Proof.
  intros Hc Hx. unfold trim_both in Hx. cbn [drop_while] in Hx. rewrite Hc in Hx.
  apply (f_equal (@rev Z)) in Hx. rewrite rev_involutive in Hx. cbn [rev] in Hx. apply while_nil in Hx.
  apply Forall_app in Hx as [_ Hx]. apply (Forall_inv (a := ch)) in Hx. exact (eq_true_false_abs _ Hx Hc).
Qed.

Lemma while_last f l c : f c = false -> exists m, drop_while f (l ++ [c]) = m ++ [c].
Proof.
  intros Hc. induction l as [|x l [m IH]]; cbn [app drop_while]; [rewrite Hc; by exists []|].
  destruct (f x); [by exists m|]. by exists (x :: l).
Qed.

Lemma while_head f l c r : drop_while f l = c :: r -> f c = false.
Proof.
  induction l as [|x l IH]; [done|]. cbn [drop_while]. destruct (f x) eqn:E; [done|]. by intros [= <- _].
Qed.

Lemma trim_start v : match trim_both v with [] => True | ch :: _ => is_ows ch = false end.
Proof.
  unfold trim_both. destruct (drop_while is_ows v) as [|c l] eqn:E; [done|]. apply while_head in E. cbn [rev].
  destruct (while_last is_ows (rev l) c E) as [m ->]. by rewrite rev_app_distr.
Qed.

Definition frame p : Z * bool := (content_length (msg p), chunked (msg p)).

Lemma apply_header_spec p h : header_ok h ->
  exists p', apply_header p (trim_both h.1) (trim_both h.2) = Some (p', 0) /\ same_head p p' /\
    frame p' = frame_of (frame p) h /\ header_count (msg p') = header_count (msg p).
Proof.
  intros (_ & _ & _ & _ & Hlen). unfold apply_header, frame_of, frame. pose proof (trim_start h.2) as Hst.
  set (name := trim_both h.1) in *. set (v := trim_both h.2) in *. clearbody name v.
  destruct (header_name_is name "Content-Length") eqn:E1.
  { destruct (Hlen eq_refl) as [Hdig Hb]. clear Hlen. destruct v as [|c v]; [by exists p|].
    unfold parse_content_length. cbn [drop_while]. rewrite Hst. pose proof Hdig as Hd0. cbn [forallb] in Hd0.
    apply andb_true_iff in Hd0 as [Hc _]. apply isdigit_range in Hc. rewrite (proj2 (Z.eqb_neq c 45)) by lia.
    rewrite Hdig. cbn [negb]. rewrite (decimal_loop_spec (c :: v) 0 Hdig) by (done || lia). eexists. split; [done|].
    split; [by repeat constructor|]. done. }
  destruct (header_name_is name "Transfer-Encoding").
  { eexists. split; [done|]. destruct (header_value_is_chunked v); cbn [msg with_msg with_chunked content_length chunked fst snd header_count].
    - split; [by repeat constructor|]. by rewrite orb_true_r.
    - split; [apply same_head_refl|]. by rewrite orb_false_r. }
  destruct (header_name_is name "Connection").
  { destruct (connection_ok (S (length v)) v (connection_close (msg p)) (connection_keepalive (msg p)) ltac:(lia)) as [[c k] ->].
    cbn [mbind option_bind]. eexists. split; [done|]. by split; [repeat constructor|]. }
  destruct (header_name_is name "Upgrade"); eexists; (split; [done|]); by split; [repeat constructor|].
Qed.

(** The views of a header that is not yet handed on. *)
Definition pending (o : option (list Z * list Z)) (w : option (view * view)) : Prop :=
  match o, w with
  | None, None => True
  | Some h, Some (f, v) => header_ok h /\ view_of f (trim_both h.1) /\ view_of v (trim_both h.2)
  | _, _ => False
  end.
Definition pended (o : option (list Z * list Z)) : list (list Z * list Z) := match o with Some h => [h] | None => [] end.

Lemma submitted p u h f v : header_ok h -> callbacks p = recorder -> view_of f (trim_both h.1) -> view_of v (trim_both h.2) ->
  exists p', submit_header mem p u f v = Some (p', u ++ header_calls h, 0) /\ same_head p p' /\
    frame p' = frame_of (frame p) h /\ header_count (msg p') = header_count (msg p).
Proof.
  intros Hh Hcb [Hf _] [Hv _]. destruct (apply_header_spec p h Hh) as (p' & E & Hp'). exists p'. split; [|done].
  unfold submit_header. rewrite Hf, Hv. cbn [mbind option_bind]. unfold invoke_header_field, invoke_header_value. rewrite Hcb.
  cbn [recorder on_header_field on_header_value call1]. destruct Hh as (_ & _ & _ & (ch & n & En & Ho) & _).
  pose proof (trim_nonempty ch n Ho) as Hne. rewrite <-En in Hne. unfold header_calls.
  destruct (trim_both h.1) as [|c1 l1] eqn:E1; [done|]. rewrite (proj2 (Z.eqb_neq _ 0)) by (rewrite zlen_cons; pose proof (zlen_nonneg l1); lia).
  destruct (trim_both h.2) as [|c2 l2] eqn:E2.
  - cbn [zlen length Z.of_nat Z.eqb]. by rewrite E.
  - rewrite (proj2 (Z.eqb_neq _ 0)) by (rewrite zlen_cons; pose proof (zlen_nonneg l2); lia). rewrite E. cbn [mbind option_bind].
    by rewrite <-app_assoc.
Qed.

(** The count of headers stays within the limit. *)
Definition count_ok p (n : Z) : Prop :=
  0 <= header_count (msg p) /\ 0 <= n /\ header_count (msg p) + n < 2 ^ 63 /\
  (max_headers (config p) = 0 \/ header_count (msg p) + n <= max_headers (config p)).

Lemma previous_submitted p u o w n : pending o w -> callbacks p = recorder -> count_ok p (zlen (pended o) + n) -> 0 < n ->
  exists p', submit_previous mem p u w = Some (p', u ++ concat (header_calls <$> pended o), 0) /\ same_head p p' /\
    frame p' = foldl frame_of (frame p) (pended o) /\ count_ok p' n.
Proof.
  intros Hpen Hcb (Hc0 & Hc1 & Hc2 & Hc3) Hn. destruct o as [h|], w as [[f v]|]; try done; cbn [pended] in *.
  - destruct Hpen as (Hh & Hf & Hv). destruct (submitted p u h f v Hh Hcb Hf Hv) as (p1 & E & Hs & Hfr & Hct).
    change (zlen [h]) with 1 in *. cbn [fmap list_fmap concat foldl]. rewrite app_nil_r. cbn [submit_previous]. rewrite E.
    cbn [mbind option_bind Z.eqb negb]. pose proof (sh_kept _ _ Hs) as (_ & Ecf & _). rewrite Ecf, Hct.
    replace (negb (max_headers (config p) =? 0) && (max_headers (config p) <=? header_count (msg p))) with false.
    2: { symmetry. apply andb_false_iff. destruct Hc3 as [-> | Hc3]; [by left|right; apply Z.leb_gt; lia]. }
    eexists. split; [done|]. split; [eapply same_head_trans; [exact Hs|by repeat constructor]|]. split; [exact Hfr|].
    unfold count_ok. cbn [msg with_msg header_count with_count config]. rewrite Ecf, u64_small by lia.
    split; [lia|]. split; [lia|]. split; [lia|]. destruct Hc3; [by left|right; lia].
  - change (zlen (@nil (list Z * list Z))) with 0 in *. cbn [submit_previous fmap list_fmap concat foldl]. rewrite app_nil_r. exists p.
    split; [done|]. split; [apply same_head_refl|]. split; [done|]. unfold count_ok. lia.
Qed.

(** One header line: it becomes the pending header. *)
Lemma header_line_read p sc u o w h n rest : stand sc (header_text h ++ CRLF ++ rest) -> pending o w -> header_ok h ->
  callbacks p = recorder -> count_ok p (zlen (pended o) + n) -> 0 < n ->
  exists v p' sc' w', peek_line mem sc = Some (v, 0) /\ text mem v = Some (header_text h) /\
    new_header mem p sc u w v (header_text h) = Some (p', sc', u ++ concat (header_calls <$> pended o), Some w') /\
    stand sc' rest /\ same_head p p' /\ frame p' = foldl frame_of (frame p) (pended o) /\ count_ok p' n /\ pending (Some h) (Some w').
Proof.
  intros Hs Hpen Hh Hcb Hct Hn. pose proof Hh as (Hn1 & Hn2 & Hcol & (ch & nm & En & Ho) & _).
  assert (no_cr (header_text h)) as Hcr.
  { unfold no_cr, header_text. rewrite !elem_of_app. intros [?|[?%list_elem_of_singleton|?]]; done. }
  destruct (stand_line mem base whole sc _ rest Hs Hcr) as (v & sc' & Ep & Hv & Esk & Hs').
  destruct (previous_submitted p u o w n Hpen Hcb Hct Hn) as (p1 & E1 & Hsh & Hfr & Hct1).
  assert (0 < zlen h.1) as Hl1 by (rewrite En, zlen_cons; pose proof (zlen_nonneg nm); lia).
  assert (zlen (header_text h) = zlen h.1 + 1 + zlen h.2) as Hl by (unfold header_text; rewrite !zlen_app; change (zlen [58]) with 1; lia).
  pose proof (zlen_nonneg h.2).
  pose proof (view_sub mem v _ 0 (zlen h.1) Hv ltac:(lia) ltac:(lia) ltac:(lia)) as Hf. rewrite Z.add_0_r, drop_0 in Hf.
  pose proof (view_sub mem v _ (zlen h.1 + 1) (zlen h.2) Hv ltac:(lia) ltac:(lia) ltac:(lia)) as Hw.
  assert (take (Z.to_nat (zlen h.1)) (header_text h) = h.1) as Ef by (unfold zlen, header_text; by rewrite Nat2Z.id, take_app_length).
  assert (drop (Z.to_nat (zlen h.1 + 1)) (header_text h) = h.2) as Ew.
  { unfold header_text. rewrite app_assoc. apply drop_app_length'. rewrite length_app. unfold zlen. cbn. lia. }
  rewrite Ef in Hf. rewrite Ew, take_ge in Hw by (unfold zlen; lia). rewrite Z.add_assoc in Hw.
  destruct (trim_left_of mem _ _ Hf) as (f1 & Ef1 & Hf1). destruct (trim_right_of mem _ _ Hf1) as (f2 & Ef2 & Hf2).
  destruct (trim_left_of mem _ _ Hw) as (w1 & Ew1 & Hw1). destruct (trim_right_of mem _ _ Hw1) as (w2 & Ew2 & Hw2).
  exists v, p1, sc', (f2, w2). split; [exact Ep|]. split; [apply Hv|]. split; [|done].
  unfold new_header. rewrite E1. cbn [mbind option_bind Z.eqb negb].
  destruct (while_stop (fun x => negb (x =? 58)) h.1 58 h.2 (not_in_forall _ _ Hcol) eq_refl) as [Et _].
  change (h.1 ++ 58 :: h.2) with (header_text h) in Et. rewrite Et. destruct Hv as [_ Hvl].
  rewrite Hvl, (proj2 (Z.eqb_neq _ 0)), (proj2 (Z.leb_gt _ _)) by lia. cbn [orb]. unfold trim_ows. rewrite Ef1. cbn [mbind option_bind].
  rewrite Ef2. cbn [mbind option_bind]. replace (zlen (header_text h) - (zlen h.1 + 1)) with (zlen h.2) by lia.
  rewrite Ew1. cbn [mbind option_bind]. rewrite Ew2. cbn [mbind option_bind]. by rewrite Esk.
Qed.

Lemma headers_run hs : forall fuel p sc u o w rest,
  stand sc (lines (header_text <$> hs) ++ CRLF ++ rest) -> (length hs < fuel)%nat -> Forall header_ok hs -> pending o w ->
  callbacks p = recorder -> count_ok p (zlen (pended o) + zlen hs) ->
  exists p' sc', headers_loop mem fuel p sc u w = Some (p', sc', u ++ concat (header_calls <$> (pended o ++ hs)), 0) /\
    stand sc' rest /\ same_head p p' /\ frame p' = foldl frame_of (frame p) (pended o ++ hs).
Proof.
  induction hs as [|h hs IH]; intros [|fuel] p sc u o w rest Hs Hf Hhs Hpen Hcb Hct; [cbn in Hf; lia| |cbn in Hf; lia|]; cbn [headers_loop].
  - destruct (stand_line mem base whole sc [] rest Hs ltac:(by intros ?%elem_of_nil)) as (v & sc' & Ep & [Ht _] & _ & _).
    destruct (stand_skip mem base whole sc CRLF rest Hs) as (sc1 & Esk & Hs1). change (zlen CRLF) with 2 in Esk.
    rewrite Ep. cbn [mbind option_bind Z.eqb negb]. rewrite Ht. cbn [mbind option_bind]. rewrite Esk. cbn [mbind option_bind].
    destruct o as [h|], w as [[f0 v0]|]; try done; cbn [pended] in *.
    + destruct Hpen as (Hh & Hf0 & Hv0). destruct (submitted p u h f0 v0 Hh Hcb Hf0 Hv0) as (p1 & E & Hsh & Hfr & _).
      rewrite E. cbn [mbind option_bind]. exists p1, sc1. cbn [app fmap list_fmap concat foldl]. by rewrite app_nil_r.
    + exists p, sc1. cbn [app fmap list_fmap concat foldl]. rewrite app_nil_r. split; [done|]. split; [done|]. by split; [apply same_head_refl|].
  - apply Forall_cons in Hhs as [Hh Hhs]. cbn [fmap list_fmap lines concat] in Hs. unfold lines in Hs. cbn [fmap list_fmap concat] in Hs.
    rewrite <-!app_assoc in Hs. rewrite zlen_cons in Hct. pose proof (zlen_nonneg hs).
    destruct (header_line_read p sc u o w h (1 + zlen hs) _ Hs Hpen Hh Hcb Hct ltac:(lia))
      as (v & p1 & sc1 & w1 & Ep & Ht & En & Hs1 & Hsh & Hfr & Hct1 & Hpen1).
    rewrite Ep. cbn [mbind option_bind Z.eqb negb]. rewrite Ht. cbn [mbind option_bind].
    pose proof Hh as (_ & _ & _ & (ch & nm & Eh & Ho) & _). 
    assert (exists r, header_text h = ch :: r) as [r Er] by (unfold header_text; rewrite Eh; by eexists).
    rewrite Er in En. rewrite Er. cbv beta iota.
    replace (match w with Some h0 => if is_ows ch then continue_header mem p sc u h0 v else new_header mem p sc u w v (ch :: r) | None => _ end)
      with (new_header mem p sc u w v (ch :: r)) by (destruct w; [by rewrite Ho|done]).
    rewrite En. cbn [mbind option_bind].
    pose proof (sh_kept _ _ Hsh) as (_ & _ & Ecb & _).
    destruct (IH fuel p1 sc1 (u ++ concat (header_calls <$> pended o)) (Some h) (Some w1) rest) as (p2 & sc2 & E2 & Hs2 & Hsh2 & Hfr2);
      [exact Hs1|cbn in Hf; lia|done|done|by rewrite Ecb|exact Hct1|].
    exists p2, sc2. rewrite E2. split; [|split; [done|split; [by eapply same_head_trans|]]].
    + do 2 f_equal. f_equal. rewrite <-app_assoc. f_equal. cbn [pended app]. by rewrite (fmap_app _ (pended o)), concat_app.
    + rewrite Hfr2, Hfr. by rewrite (foldl_app _ (pended o) (h :: hs)).
Qed.

(** ** Bodies *)

(** What the message is does not change any more. *)
Record same_message (p p' : vox_http_parser (list event)) : Prop := {
  sm_kept : kept p p';
  sm_method : method (msg p') = method (msg p);
  sm_version : http_major (msg p') = http_major (msg p) /\ http_minor (msg p') = http_minor (msg p);
  sm_frame : frame p' = frame p;
  sm_error : has_error (msg p') = has_error (msg p);
}.

Lemma same_message_trans p p1 p2 : same_message p p1 -> same_message p1 p2 -> same_message p p2.
Proof.
  intros [K1 ? [? ?] ? ?] [K2 ? [? ?] ? ?]. constructor; [exact (kept_trans _ _ _ K1 K2)|congruence|split; congruence|congruence|congruence].
Qed.

(** The last call, and what the parser is then. *)
Definition ended p p' : Prop :=
  same_message p p' /\ phase p' = VOX_HTTP_PHASE_MESSAGE_COMPLETE /\ message_complete (msg p') = true.

Lemma complete_ended p sc u : callbacks p = recorder ->
  exists p', complete p sc u = (p', sc, u ++ [MessageComplete], Return 0) /\ ended p p'.
Proof.
  intros Hcb. unfold complete, invoke_message_complete. cbn [callbacks with_msg with_phase]. rewrite Hcb.
  eexists. split; [reflexivity|]. by repeat constructor.
Qed.

Lemma ended_trans p p1 p2 : same_message p p1 -> ended p1 p2 -> ended p p2.
Proof. intros H1 (H2 & ? & ?). split; [by eapply same_message_trans|done]. Qed.

Lemma body_called p l u : callbacks p = recorder -> l <> [] -> invoke_body p l u = (u ++ [Body l], 0).
Proof.
  intros Hcb Hl. unfold invoke_body. rewrite Hcb. cbn [recorder on_body call1]. rewrite (proj2 (Z.eqb_neq _ 0)); [done|].
  destruct l as [|x l]; [done|]. rewrite zlen_cons. pose proof (zlen_nonneg l). lia.
Qed.

Lemma zlen_pos {A} (l : list A) : l <> [] -> 0 < zlen l.
Proof. destruct l as [|x l]; [done|]. rewrite zlen_cons. pose proof (zlen_nonneg l). lia. Qed.

Lemma body_run p sc u l rest : stand sc (l ++ rest) -> l <> [] -> zlen l < 2 ^ 63 -> callbacks p = recorder ->
  phase p = VOX_HTTP_PHASE_BODY -> content_length (msg p) = zlen l -> body_read (msg p) = 0 ->
  exists p' sc', round mem p sc u = Some (p', sc', u ++ [Body l; MessageComplete], Return 0) /\ stand sc' rest /\ ended p p'.
Proof.
  intros Hs Hl Hb Hcb Hph Hcl Hrd. unfold round. rewrite Hph. unfold body_phase.
  rewrite (stand_remaining mem base whole _ _ Hs), Hcl, Hrd, zlen_app, Z.sub_0_r. pose proof (zlen_pos l Hl). pose proof (zlen_nonneg rest).
  rewrite u64_small, !(proj2 (Z.eqb_neq _ 0)) by lia.
  rewrite min_take, Z.min_l by lia.
  destruct (stand_get mem base whole _ _ _ Hs) as (v & sc' & -> & [Ht Hvl] & Hs'). cbn [mbind option_bind]. rewrite Ht. cbn [mbind option_bind].
  rewrite body_called by done. cbn [Z.eqb negb]. rewrite Hvl, Z.add_0_l, u64_small by lia. cbn [msg with_msg content_length with_read body_read].
  rewrite Hcl, (proj2 (Z.leb_le _ _)) by lia. set (q := with_msg p _).
  destruct (complete_ended q sc' (u ++ [Body l]) Hcb) as (p' & -> & He). exists p', sc'. rewrite <-app_assoc. split; [done|]. split; [done|].
  apply (ended_trans p q); [by repeat constructor|done].
Qed.

Lemma rounds_step fuel p sc u p1 sc1 u1 :
  round mem p sc u = Some (p1, sc1, u1, Continue) -> rounds mem (S fuel) p sc u = rounds mem fuel p1 sc1 u1.
Proof. cbn [rounds]. by intros ->. Qed.

Lemma chunk_run p sc u c rest : stand sc (chunk_bytes c ++ rest) -> chunk_ok c -> zlen c.2 < 2 ^ 63 -> callbacks p = recorder ->
  phase p = VOX_HTTP_PHASE_CHUNK_SIZE ->
  exists p' sc', (forall fuel, rounds mem (S (S (S fuel))) p sc u = rounds mem fuel p' sc' (u ++ [Body c.2])) /\
    stand sc' rest /\ same_message p p' /\ phase p' = VOX_HTTP_PHASE_CHUNK_SIZE.
Proof.
  intros Hs (Hx & Hn & Hl) Hb Hcb Hph. unfold chunk_bytes in Hs. rewrite <-!app_assoc in Hs. pose proof (zlen_pos _ Hl).
  destruct (stand_line mem base whole _ _ _ Hs (hex_no_cr _ Hx)) as (v & sc1 & Ep & [Ht _] & Esk & Hs1).
  destruct (stand_get mem base whole _ _ _ Hs1) as (w & sc2 & Eg & [Hw Hwl] & Hs2).
  destruct (stand_skip mem base whole _ CRLF _ Hs2) as (sc3 & Ek & Hs3). change (zlen CRLF) with 2 in Ek.
  set (p1 := with_msg p (with_chunk (msg p) (zlen c.2))). set (p2 := with_msg p1 (with_chunk (msg p1) 0)).
  exists (with_phase p2 VOX_HTTP_PHASE_CHUNK_SIZE), sc3. split; [|split; [done|split; [by repeat constructor|done]]]. intros fuel.
  erewrite rounds_step; [erewrite rounds_step; [erewrite rounds_step; [reflexivity|]|]|].
  3: { unfold round. rewrite Hph. unfold chunk_size_phase. rewrite Ep. cbn [mbind option_bind Z.eqb negb]. rewrite Ht.
    cbn [mbind option_bind]. rewrite chunk_size_spec by (done || lia). rewrite Hn, Esk. cbn [mbind option_bind].
    rewrite (proj2 (Z.eqb_neq (zlen c.2) 0)) by lia. fold p1. reflexivity. }
  2: { unfold round. cbn [phase with_phase]. unfold chunk_data_phase. cbn [msg with_phase p1 with_msg chunk_remaining with_chunk].
    rewrite (stand_remaining mem base whole _ _ Hs1), zlen_app. pose proof (zlen_nonneg (CRLF ++ rest)).
    rewrite !(proj2 (Z.eqb_neq _ 0)) by lia. rewrite min_take, Z.min_l by lia.
    rewrite Eg. cbn [mbind option_bind]. rewrite Hw. cbn [mbind option_bind]. rewrite body_called by done. cbn [Z.eqb negb].
    rewrite Z.sub_diag. change (u64 0) with 0. cbn [msg with_msg with_chunk chunk_remaining Z.eqb mbind option_bind]. reflexivity. }
  unfold round. cbn [phase with_phase]. unfold chunk_end_phase. rewrite (stand_remaining mem base whole _ _ Hs2), zlen_app.
  change (zlen CRLF) with 2. pose proof (zlen_nonneg rest). rewrite (proj2 (Z.ltb_ge _ _)) by lia. rewrite Ek. reflexivity.
Qed.

Lemma trailers_run ts : forall fuel sc rest, stand sc (lines ts ++ CRLF ++ rest) -> Forall (fun t => no_cr t /\ t <> []) ts ->
  (length ts < fuel)%nat -> exists sc', skip_trailers mem fuel sc = Some sc' /\ stand sc' (CRLF ++ rest).
Proof.
  induction ts as [|t ts IH]; intros [|fuel] sc rest Hs Ht Hf; [cbn in Hf; lia| |cbn in Hf; lia|]; cbn [skip_trailers].
  - destruct (stand_line mem base whole sc [] rest Hs ltac:(by intros ?%elem_of_nil)) as (v & sc' & Ep & [_ Hl] & _ & _).
    rewrite Ep. cbn [mbind option_bind]. rewrite Hl. cbn [Z.eqb andb zlen length Z.of_nat Z.ltb Z.compare]. by exists sc.
  - apply Forall_cons in Ht as [[Hcr Hne] Hts]. unfold lines in Hs. cbn [fmap list_fmap concat] in Hs. rewrite <-!app_assoc in Hs.
    destruct (stand_line mem base whole sc t _ Hs Hcr) as (v & sc1 & Ep & [_ Hl] & Esk & Hs1). rewrite Ep. cbn [mbind option_bind].
    rewrite Hl, (proj2 (Z.ltb_lt _ _)) by (by apply zlen_pos). cbn [Z.eqb andb]. rewrite Esk. cbn [mbind option_bind].
    apply (IH fuel sc1 rest); [exact Hs1|done|cbn in Hf; lia].
Qed.

Lemma stand_short sc rest : stand sc rest -> zlen rest < 2 ^ 63.
Proof. intros (k & (_ & _ & Hw) & <-). rewrite zlen_drop. pose proof (zlen_nonneg whole). lia. Qed.

Lemma lines_length ls : (length ls <= length (lines ls))%nat.
Proof.
  induction ls as [|l ls IH]; [done|]. unfold lines in *. cbn [fmap list_fmap concat length]. rewrite !length_app. cbn [CRLF length]. lia.
Qed.

Lemma last_run p sc u last ts rest : stand sc (last ++ CRLF ++ lines ts ++ CRLF ++ rest) -> hex_text last -> hex_numeral last = 0 ->
  Forall (fun t => no_cr t /\ t <> []) ts -> callbacks p = recorder -> phase p = VOX_HTTP_PHASE_CHUNK_SIZE ->
  exists p' sc', round mem p sc u = Some (p', sc', u ++ [MessageComplete], Return 0) /\ stand sc' rest /\ ended p p'.
Proof.
  intros Hs Hx Hz Hts Hcb Hph.
  destruct (stand_line mem base whole _ _ _ Hs (hex_no_cr _ Hx)) as (v & sc1 & Ep & [Ht _] & Esk & Hs1).
  destruct (trailers_run ts (S (Z.to_nat (vox_scanner_remaining sc1))) sc1 rest Hs1 Hts) as (sc2 & Etr & Hs2).
  { rewrite (stand_remaining mem base whole _ _ Hs1). pose proof (lines_length ts). unfold zlen. rewrite length_app. lia. }
  destruct (stand_skip mem base whole _ CRLF _ Hs2) as (sc3 & Ek & Hs3). change (zlen CRLF) with 2 in Ek.
  unfold round. rewrite Hph. unfold chunk_size_phase. rewrite Ep. cbn [mbind option_bind Z.eqb negb]. rewrite Ht.
  cbn [mbind option_bind]. rewrite chunk_size_spec by (done || lia). rewrite Hz, Esk. cbn [mbind option_bind Z.eqb].
  rewrite Etr. cbn [mbind option_bind]. rewrite (stand_remaining mem base whole _ _ Hs2), zlen_app. change (zlen CRLF) with 2.
  pose proof (zlen_nonneg rest). rewrite (proj2 (Z.leb_le _ _)) by lia. rewrite Ek. cbn [mbind option_bind]. set (q := with_msg p _).
  destruct (complete_ended q sc3 u Hcb) as (p' & -> & He). exists p', sc3. split; [done|]. split; [done|].
  apply (ended_trans p q); [by repeat constructor|done].
Qed.

Lemma chunks_run cs : forall fuel p sc u last ts rest,
  stand sc (concat (chunk_bytes <$> cs) ++ last ++ CRLF ++ lines ts ++ CRLF ++ rest) -> Forall chunk_ok cs -> hex_text last ->
  hex_numeral last = 0 -> Forall (fun t => no_cr t /\ t <> []) ts -> callbacks p = recorder -> phase p = VOX_HTTP_PHASE_CHUNK_SIZE ->
  (3 * length cs < fuel)%nat ->
  exists p' sc', rounds mem fuel p sc u = Some (p', sc', u ++ ((fun c => Body c.2) <$> cs) ++ [MessageComplete], 0) /\
    stand sc' rest /\ ended p p'.
Proof.
  induction cs as [|c cs IH]; intros fuel p sc u last ts rest Hs Hcs Hx Hz Hts Hcb Hph Hf.
  - destruct fuel as [|fuel]; [cbn in Hf; lia|]. destruct (last_run p sc u last ts rest Hs Hx Hz Hts Hcb Hph) as (p' & sc' & E & Hs' & He).
    exists p', sc'. cbn [rounds]. by rewrite E.
  - apply Forall_cons in Hcs as [Hc Hcs]. cbn [fmap list_fmap concat] in *. rewrite <-app_assoc in Hs.
    destruct fuel as [|[|[|fuel]]]; [cbn in Hf; lia..|].
    assert (zlen c.2 < 2 ^ 63) as Hb.
    { apply stand_short in Hs. unfold chunk_bytes, zlen in Hs. rewrite !length_app in Hs. unfold zlen. lia. }
    destruct (chunk_run p sc u c _ Hs Hc Hb Hcb Hph) as (p1 & sc1 & E & Hs1 & Hsm & Hph1). pose proof (sm_kept _ _ Hsm) as (_ & _ & Ecb & _).
    destruct (IH fuel p1 sc1 (u ++ [Body c.2]) last ts rest Hs1 Hcs Hx Hz Hts) as (p2 & sc2 & E2 & Hs2 & He2);
      [by rewrite Ecb|done|cbn in Hf; lia|].
    exists p2, sc2. rewrite E, E2. rewrite <-app_assoc. split; [done|]. split; [done|]. by eapply ended_trans.
Qed.

(** A new message, and what is known of it at the end. *)
Definition new_message p : Prop := frame p = (0, false) /\ body_read (msg p) = 0.
Definition describes rq p : Prop :=
  method (msg p) = parse_method (rq_method rq) /\ http_major (msg p) = 1 /\ http_minor (msg p) = rq_minor rq /\
  frame p = framing (rq_headers rq).

Lemma start_run p sc u rq rest : request_ok (config p) rq -> callbacks p = recorder -> phase p = VOX_HTTP_PHASE_INIT -> new_message p ->
  stand sc (request_line rq ++ CRLF ++ rest) ->
  exists p' sc', round mem p sc u = Some (p', sc', u ++ [Begin; Url (rq_url rq)], Continue) /\ stand sc' rest /\ kept p p' /\
    has_error (msg p') = has_error (msg p) /\ phase p' = VOX_HTTP_PHASE_HEADER_NAME /\ new_message p' /\ header_count (msg p') = 0 /\
    method (msg p') = parse_method (rq_method rq) /\ http_major (msg p') = 1 /\ http_minor (msg p') = rq_minor rq.
Proof.
  intros Hrq Hcb Hph [Hfr Hrd] Hs. unfold round. rewrite Hph. unfold invoke_message_begin. rewrite Hcb.
  cbn [recorder on_message_begin call0 Z.eqb negb]. set (q := with_phase p VOX_HTTP_PHASE_START_LINE).
  destruct (start_line_parsed q sc (u ++ [Begin]) rq rest Hrq Hcb Hs) as (sc' & E & Hs'). unfold start_phase. rewrite E.
  cbn [mbind option_bind Z.eqb negb]. do 2 eexists. rewrite <-app_assoc. split; [done|]. split; [done|]. by repeat constructor.
Qed.

(** What follows the headers. *)
Lemma content_run fuel p sc u b rest : stand sc (body_bytes b ++ rest) -> body_ok (frame p) b -> callbacks p = recorder ->
  body_read (msg p) = 0 -> (match b with Chunks cs _ _ => 3 * length cs | _ => 1 end < fuel)%nat ->
  exists p' sc', ('(p, sc, u, f) ← (if chunked (msg p) then Some (with_phase p VOX_HTTP_PHASE_CHUNK_SIZE, sc, u, Continue)
      else if 0 <? content_length (msg p) then Some (with_phase p VOX_HTTP_PHASE_BODY, sc, u, Continue)
      else Some (complete p sc u));
    match f with Continue => rounds mem fuel p sc u | Return r => Some (p, sc, u, r) end)
    = Some (p', sc', u ++ body_calls b ++ [MessageComplete], 0) /\ stand sc' rest /\ ended p p'.
Proof.
  intros Hs Hb Hcb Hrd Hf. unfold frame in Hb. destruct b as [|l|cs last ts]; cbn [body_ok body_bytes body_calls] in *.
  - injection Hb as -> ->. cbn [Z.ltb Z.compare]. destruct (complete_ended p sc u Hcb) as (p' & -> & He). by exists p', sc.
  - destruct Hb as [[= Hcl ->] Hl]. pose proof (zlen_pos l Hl). rewrite Hcl, (proj2 (Z.ltb_lt _ _)) by done.
    destruct fuel as [|fuel]; [lia|]. cbn [mbind option_bind rounds]. set (q := with_phase p VOX_HTTP_PHASE_BODY).
    assert (zlen l < 2 ^ 63) as Hl2 by (apply stand_short in Hs; rewrite zlen_app in Hs; pose proof (zlen_nonneg rest); lia).
    destruct (body_run q sc u l rest Hs Hl Hl2 Hcb eq_refl Hcl Hrd) as (p' & sc' & -> & Hs' & He). cbn [mbind option_bind].
    exists p', sc'. split; [done|]. split; [done|]. apply (ended_trans p q); [by repeat constructor|done].
  - destruct Hb as (Hch & Hcs & Hx & Hz & Hts). cbn [snd] in Hch. rewrite Hch. cbn [mbind option_bind]. set (q := with_phase p VOX_HTTP_PHASE_CHUNK_SIZE).
    rewrite <-!app_assoc in Hs.
    destruct (chunks_run cs fuel q sc u last ts rest Hs Hcs Hx Hz Hts Hcb eq_refl Hf) as (p' & sc' & -> & Hs' & He).
    exists p', sc'. split; [done|]. split; [done|]. apply (ended_trans p q); [by repeat constructor|done].
Qed.

Lemma message_run fuel p sc u rq rest : request_ok (config p) rq -> callbacks p = recorder -> phase p = VOX_HTTP_PHASE_INIT ->
  new_message p -> stand sc (render rq ++ rest) ->
  (match rq_body rq with Chunks cs _ _ => 3 * length cs | _ => 1 end + 2 < fuel)%nat ->
  exists p' sc', rounds mem fuel p sc u = Some (p', sc', u ++ calls rq, 0) /\ stand sc' rest /\ kept p p' /\
    has_error (msg p') = has_error (msg p) /\ phase p' = VOX_HTTP_PHASE_MESSAGE_COMPLETE /\ message_complete (msg p') = true /\
    describes rq p'.
Proof.
  intros Hrq Hcb Hph Hnew Hs Hf. unfold render in Hs. rewrite <-!app_assoc in Hs. destruct fuel as [|[|fuel]]; [lia|lia|].
  destruct (start_run p sc u rq _ Hrq Hcb Hph Hnew Hs) as (p1 & sc1 & E1 & Hs1 & Hk1 & He1 & Hph1 & [Hfr1 Hrd1] & Hct1 & Hm1 & Hv1 & Hw1).
  rewrite (rounds_step _ _ _ _ _ _ _ E1). cbn [rounds]. unfold round. rewrite Hph1. unfold headers_phase, parse_headers.
  pose proof Hk1 as (_ & Ecf1 & Ecb1 & _). destruct Hrq as (_ & _ & _ & _ & _ & _ & Hhs & Hmax & Hbody & _).
  pose proof (lines_length (header_text <$> rq_headers rq)) as Hlen. rewrite length_fmap in Hlen.
  pose proof (stand_short _ _ Hs1) as Hsh. unfold zlen in Hsh. rewrite length_app in Hsh.
  destruct (headers_run (rq_headers rq) (S (Z.to_nat (vox_scanner_remaining sc1))) p1 sc1 (u ++ [Begin; Url (rq_url rq)]) None None
    (body_bytes (rq_body rq) ++ rest)) as (p2 & sc2 & E2 & Hs2 & Hsh2 & Hfr2); [exact Hs1| |done|done|by rewrite Ecb1| |].
  { rewrite (stand_remaining mem base whole _ _ Hs1). unfold zlen. rewrite length_app. lia. }
  { unfold count_ok. cbn [pended]. change (zlen (@nil (list Z * list Z))) with 0. rewrite Ecf1, Hct1, !Z.add_0_l.
    split; [done|]. split; [apply zlen_nonneg|]. unfold zlen in *. split; [lia|]. destruct Hmax; [by left|right; lia]. }
  rewrite E2. cbn [mbind option_bind Z.eqb negb]. destruct Hsh2 as [Hk2 Hph2 Hm2 [Hv2 Hw2] Hrd2 He2]. pose proof Hk2 as (_ & _ & Ecb2 & _).
  unfold invoke_headers_complete. rewrite Ecb2, Ecb1, Hcb. cbn [recorder on_headers_complete call0 Z.eqb negb].
  rewrite Hfr1 in Hfr2. cbn [pended app] in *.
  destruct (content_run fuel p2 sc2 ((u ++ [Begin; Url (rq_url rq)]) ++ concat (header_calls <$> rq_headers rq) ++ [HeadersComplete]) (rq_body rq) rest Hs2)
    as (p3 & sc3 & E3 & Hs3 & (Hsm3 & Hph3 & Hmc3)); [by rewrite Hfr2|by rewrite Ecb2, Ecb1|by rewrite Hrd2|lia|].
  rewrite <-app_assoc in E3 |- *. rewrite <-app_assoc. rewrite E3. exists p3, sc3.
  split; [unfold calls; by rewrite <-!app_assoc|]. split; [done|]. destruct Hsm3 as [Hk3 Hm3 [Hv3 Hw3] Hfr3 He3].
  split; [exact (kept_trans _ _ _ Hk1 (kept_trans _ _ _ Hk2 Hk3))|]. split; [congruence|]. split; [done|]. split; [done|].
  unfold describes. rewrite Hfr3, Hfr2. split_and!; congruence || done.
Qed.

Lemma chunks_length cs : Forall chunk_ok cs -> (6 * length cs <= length (concat (chunk_bytes <$> cs)))%nat.
Proof.
  induction 1 as [|[s d] cs ([Hs _] & _ & Hd) _ IH]; [done|]. cbn [fmap list_fmap concat length fst snd] in *. unfold chunk_bytes at 1.
  cbn [fst snd]. rewrite !length_app. cbn [CRLF length]. destruct s; [done|]. destruct d; [done|]. cbn [length]. lia.
Qed.

Lemma message_parsed p sc u rq rest : whole = render rq ++ rest -> pos mem base whole sc 0 ->
  request_ok (config p) rq -> callbacks p = recorder -> phase p = VOX_HTTP_PHASE_INIT -> new_message p ->
  exists p' sc', do_parse mem p sc u = Some (p', sc', u ++ calls rq, 0, zlen (render rq)) /\ kept p p' /\
    has_error (msg p') = has_error (msg p) /\ phase p' = VOX_HTTP_PHASE_MESSAGE_COMPLETE /\ message_complete (msg p') = true /\
    describes rq p'.
Proof.
  intros Ew Hp Hrq Hcb Hph Hnew. assert (stand sc (render rq ++ rest)) as Hs by (exists 0%nat; by rewrite drop_0).
  pose proof Hrq as ((Hm0 & _) & _ & _ & _ & _ & _ & _ & _ & Hbody & _).
  assert (0 < length (render rq))%nat as Hpos.
  { unfold render, request_line. rewrite !length_app. destruct (rq_method rq); [done|cbn [length]; lia]. }
  unfold do_parse. pose proof (stand_remaining mem base whole _ _ Hs) as Hrem.
  assert (vox_scanner_eof sc = false) as ->.
  { destruct (pos_bounds _ _ _ _ _ Hp) as (H0 & Hc & Hw & Hbg). destruct Hp as ((Hsee & _) & _ & Hw2). pose proof (s_end _ _ _ _ Hsee) as He.
    cbn [snd] in He. rewrite drop_0 in He. unfold vox_scanner_eof, NULL. rewrite Hbg, He, Hc. unfold zlen.
    rewrite !(proj2 (Z.eqb_neq _ 0)) by lia. cbn [orb]. apply Z.leb_gt. rewrite Ew, length_app. lia. }
  rewrite (offset_pos mem base whole sc 0 Hp), Hrem.
  destruct (message_run (S (S (S (2 * Z.to_nat (zlen (render rq ++ rest)))))) p sc u rq rest Hrq Hcb Hph Hnew Hs)
    as (p' & sc' & -> & Hs' & Hk & He & Hph' & Hmc & Hd).
  { unfold zlen. rewrite Nat2Z.id, length_app. destruct (rq_body rq) as [| |cs last ts] eqn:Eb; [lia|lia|].
    destruct Hbody as (_ & Hcs & _). pose proof (chunks_length cs Hcs) as Hl. unfold render in *. rewrite Eb in *. cbn [body_bytes] in *.
    rewrite !length_app in *. lia. }
  cbn [mbind option_bind]. rewrite (stand_offset mem base whole sc' (render rq) rest Hs' Ew). exists p', sc'. split; [|done].
  cbn [Z.eqb]. rewrite Z.sub_0_r, u64_small; [done|]. pose proof (stand_short _ _ Hs) as Hsh. rewrite zlen_app in Hsh.
  pose proof (zlen_nonneg rest). pose proof (zlen_nonneg (render rq)). lia.
Qed.
End messages.

(** ** A new parser, and one read *)

Section calls.
Context {P : Type} `{MPoolLaws P} (junk : Z).
Implicit Types (p : logged P).

Lemma grow_cap_fits fuel cap need r : grow_cap fuel cap need = Some r -> 2 <= cap <= VOX_HTTP_PARSER_BUF_MAX -> need <= 2 ^ 19 ->
  r <> None.
Proof.
  revert cap. induction fuel as [|fuel IH]; intros cap; cbn [grow_cap]; [done|]. unfold VOX_HTTP_PARSER_BUF_MAX in *.
  destruct (Z.ltb_spec cap need) as [Hn|Hn]; [|by intros [= <-]]. rewrite Z.shiftr_div_pow2 by lia. change (2 ^ 1) with 2.
  intros E Hc Hb. rewrite u64_small in E by dlia. rewrite (proj2 (Z.leb_gt _ _)), (proj2 (Z.ltb_ge _ _)) in E by dlia.
  cbn [orb] in E. apply (IH _ E); [dlia|done].
Qed.

Lemma grow_refused p b need : buf_capacity b = 0 -> buf_size b = 0 -> b_at b = NULL -> 0 < need <= 2 ^ 18 ->
  forall w, grow_buf junk p b need = Some w -> w.2 = 0 \/ lg_refused w.1.1 = true.
Proof.
  intros Hc Hs Ha Hn w. unfold grow_buf. rewrite Hc, Hs, Z.add_0_l, u64_small by lia. change (0 =? 0) with true. cbn match.
  generalize (grow_cap_fits 64 VOX_HTTP_PARSER_BUF_INIT (need + 1)). generalize (grow_cap 64 VOX_HTTP_PARSER_BUF_INIT (need + 1)).
  intros [[cap|]|] Hr; cbn [mbind option_bind]; [|by destruct (Hr None eq_refl ltac:(done) ltac:(lia) eq_refl)|done]. clear Hr. rewrite Ha.
  destruct (alloc_cells junk p cap 1) as [[p1 a] c] eqn:Ea. destruct (Z.eqb_spec a NULL) as [->|Hne].
  - intros [= <-]. right. eapply refused_logged. by eapply alloc_cells_refused.
  - cbn [negb andb Z.eqb NULL mbind option_bind]. intros [= <-]. by left.
Qed.

Lemma ensure_refused p b need p' b' rc : buf_capacity b = 0 -> buf_size b = 0 -> buf_off b = 0 -> b_at b = NULL -> 0 < need <= 2 ^ 18 ->
  ensure_buf junk p b need = Some (p', b', rc) -> rc = 0 \/ lg_refused p' = true.
Proof.
  intros Hc Hs Ho Ha Hn. unfold ensure_buf. rewrite Hc, Hs, Ho, u64_small, (proj2 (Z.leb_gt _ _)) by lia.
  change (0 <? 0) with false. cbn [mbind option_bind]. intros E. by apply (grow_refused p b need Hc Hs Ha Hn _ E).
Qed.

Lemma feed_refused mem p s addr len p' s' rc : vox_scanner_stream_feed junk mem p s addr len = Some (p', s', rc) ->
  0 < addr -> 0 < len -> chunks_tail s = NULL -> rc = 0 \/ lg_refused p' = true.
Proof.
  intros E Ha Hl Ht. unfold vox_scanner_stream_feed in E. rewrite Ht in E.
  rewrite (proj2 (Z.eqb_neq addr NULL)), (proj2 (Z.eqb_neq len 0)) in E by (unfold NULL; lia). cbn [orb] in E.
  destruct (mp_alloc p sizeof_chunk) as [p1 a] eqn:Ea. destruct (Z.eqb_spec a NULL) as [->|Hne].
  - injection E as <- <- <-. right. by eapply refused_logged.
  - cbn in E. injection E as _ _ <-. by left.
Qed.

(** What is unread is the request and what follows it. *)
Lemma request_unread p0 p h u rq rest : http_ok p0 p h (render rq ++ rest) -> request_ok (config h) rq -> callbacks h = recorder ->
  phase h = VOX_HTTP_PHASE_INIT -> new_message h ->
  st_scanner (stream h) = Scanner (b_at (hbuf h) + buf_off (hbuf h)) (b_at (hbuf h) + buf_off (hbuf h) + buf_size (hbuf h))
    (b_at (hbuf h) + buf_off (hbuf h)) 0 ->
  exists h', parse_unread p h u = Some (p, h', u ++ calls rq, zlen (render rq)) /\ message_complete (msg h') = true /\ describes rq h'.
Proof.
  intros [_ Hb _ _ _ _] Hrq Hcb Hph Hnew Hsc. unfold parse_unread, vox_scanner_stream_get_scanner. rewrite Hsc.
  assert (render rq ++ rest <> []) as Hne.
  { destruct Hrq as ((Hm0 & _) & _). unfold render, request_line. destruct (rq_method rq); done. }
  destruct (message_parsed (buf_mem (hbuf h)) (b_at (hbuf h) + buf_off (hbuf h)) (render rq ++ rest) h _ u rq rest eq_refl
    (fresh_pos _ _ Hb Hne) Hrq Hcb Hph Hnew) as (h' & sc' & -> & Hk & _ & _ & Hmc & Hd).
  cbn [mbind option_bind Z.eqb andb].
  assert (0 <= zlen (render rq) <= zlen (render rq ++ rest)) as Hn.
  { rewrite zlen_app. pose proof (zlen_nonneg (render rq)). pose proof (zlen_nonneg rest). lia. }
  destruct (drop_ok _ _ _ Hb Hn) as (b3 & -> & _). cbn [mbind option_bind]. by eexists.
Qed.

(** The branches of the call: the pool refuses, or what is read is parsed. *)
Lemma request_walk p p1 h data rq rest p2 h2 u2 r : http_ok p p1 h [] -> data = render rq ++ rest -> is_bytes data -> 0 < zlen data <= 2 ^ 18 ->
  h = Parser (self h) (config h) recorder (HBuf NULL [] 0 0 0) (vox_scanner_stream_init 0) VOX_HTTP_PHASE_INIT [] no_msg ->
  request_ok (config h) rq -> vox_http_parser_execute junk p1 h [] data = Some (p2, h2, u2, r) ->
  lg_refused p2 = true \/ r = zlen (render rq) /\ u2 = calls rq /\ message_complete (msg h2) = true /\ describes rq h2.
Proof.
  intros [Ht Hb _ _ Hm _] Edata Hby Hpos Eh Hrq. unfold vox_http_parser_execute.
  assert (has_error (msg h) = false /\ phase h = VOX_HTTP_PHASE_INIT /\ callbacks h = recorder /\ new_message h /\
    stream h = vox_scanner_stream_init 0 /\ hbuf h = HBuf NULL [] 0 0 0) as (-> & Hph & Hcb & Hnew & Hst & Hbuf) by (by rewrite Eh).
  rewrite Hph, bool_decide_eq_false_2, (proj2 (Z.eqb_neq (zlen data) 0)) by (done || lia). cbn [orb].
  pose proof (ensure_ok junk p p1 (hbuf h) [] (zlen data) _ Hb Ht ltac:(lia)) as He.
  destruct (ensure_buf junk p1 (hbuf h) (zlen data)) as [[[p3 b1] rc]|] eqn:Ee; [|done]. cbn [ok] in He. cbn [mbind option_bind].
  assert (rc = 0 \/ lg_refused p3 = true) as Hrc by (apply (ensure_refused _ _ _ _ _ _) in Ee; rewrite ?Hbuf; done || lia).
  destruct He as (Ht1 & Hb1 & [[-> Hfit]|[-> _]]); cbn [Z.eqb negb].
  2: { destruct Hrc as [?|Hrc]; [done|]. destruct (invoke_error _ []) as [u1 rc]. intros [= <- _ _ _]. by left. }
  assert (fits b1 (zlen data)) as Hf by (destruct Hfit as [?|[_ (_ & Hx & _)]]; [done|rewrite Hbuf in Hx; cbn in Hx; lia]).
  destruct (buffer_append_ok b1 [] data Hb1 Hby Hf) as (b2 & -> & Hb2 & Eat). cbn [mbind option_bind stream with_hbuf app] in *. clear Hrc Ee Hfit Hf.
  destruct (stream_reset_ok p p3 (stream h) (block b2 ++ [self h])) as (p4 & s4 & -> & Ht4 & Hc4 & Htl4 & _ & Htb4 & Hsc4);
    [rewrite (block_eq b1 b2), <-app_assoc by done; exact Ht1|by rewrite Hst|by rewrite Hst|].
  assert (data <> []) as Hne by (intros Hx; rewrite Hx in Hpos; unfold zlen in Hpos; cbn [length] in Hpos; lia).
  pose proof (fresh_pos b2 _ Hb2 Hne) as Hps. destruct (pos_bounds _ _ _ _ _ Hps) as (Hbase & _ & _ & _).
  assert (0 < buf_size b2) as Hsize by (rewrite (hb_size _ _ Hb2); lia).
  pose proof (stream_feed_ok junk (buf_mem b2) p p4 s4 _ _ _ Ht4 Hbase Hsize Hc4 Htl4 Htb4 Hsc4) as Hfd.
  destruct (vox_scanner_stream_feed junk (buf_mem b2) p4 s4 _ (buf_size b2)) as [[[p5 s5] rc]|] eqn:Ef; [|done].
  pose proof (feed_refused _ _ _ _ _ _ _ _ Ef Hbase Hsize Htl4) as Hrc. cbn [ok] in Hfd. cbn [mbind option_bind].
  destruct Hfd as (Ht5 & Htb5 & Hfl5 & [[-> Hsc5]| ->]); cbn [Z.eqb negb].
  2: { destruct Hrc as [?|Hrc]; [done|]. intros [= <- _ _ _]. by left. }
  set (h5 := with_stream _ s5). assert (http_ok p p5 h5 (render rq ++ rest)) as Hok5.
  { rewrite <-Edata. constructor; try done; [|by cbn; rewrite Hph, Eh]. cbn [owned h5 with_stream with_hbuf hbuf stream self].
    rewrite <-app_assoc in Ht5. exact Ht5. }
  destruct (request_unread p p5 h5 [] rq rest Hok5 Hrq Hcb Hph Hnew Hsc5) as (h6 & -> & Hmc & Hd).
  intros [= <- <- <- <-]. by right.
Qed.

(** C33: A request written out as bytes and handed to a new parser in one read, whatever
    follows it, at most 2^18 bytes in all: unless the pool refuses memory the parser takes
    exactly the bytes of the request and leaves the rest unread; the user gets the calls of the
    request in order - the URL, every header name and value without the white space around
    them, the body by its announced length or by chunks - and the getters report the method,
    the version, the length of the body and whether it came in chunks. The request is one the
    parser supports: method and URL are words without blanks, the version is 1.0 or 1.1, every
    header is on one line (no folding), a Content-Length is a number below 2^64, chunk sizes
    have no extension, the body is the one the headers announce; the URL and the number of
    headers are within the limits of the configuration, and the parser is not configured for
    responses only. *)
Theorem http_request_parsed p p1 cfg h rq rest :
  mp_inv p -> vox_http_parser_create p (Some cfg) (Some recorder) = (p1, Some h) -> request_ok cfg rq -> is_bytes rest ->
  zlen (render rq ++ rest) <= 2 ^ 18 ->
  exists p2 h2 u r, vox_http_parser_execute junk p1 h [] (render rq ++ rest) = Some (p2, h2, u, r) /\
    (lg_refused p2 = true \/
     r = zlen (render rq) /\ u = calls rq /\ http_ok p p2 h2 rest /\ vox_http_parser_is_complete h2 = true /\
     vox_http_parser_get_method h2 = parse_method (rq_method rq) /\ vox_http_parser_get_http_major h2 = 1 /\
     vox_http_parser_get_http_minor h2 = rq_minor rq /\
     (vox_http_parser_get_content_length h2, vox_http_parser_is_chunked h2) = framing (rq_headers rq)).
Proof.
  intros Hp Ec Hrq Hrest Hlen. destruct (http_create_ok p p1 (Some cfg) (Some recorder) h Hp Ec) as [Hok Herr].
  assert (h = Parser (self h) cfg recorder (HBuf NULL [] 0 0 0) (vox_scanner_stream_init 0) VOX_HTTP_PHASE_INIT [] no_msg) as Eh.
  { unfold vox_http_parser_create in Ec. destruct (mp_alloc p sizeof_http_parser) as [q a]. by destruct (a =? NULL); [|injection Ec as <- <-]. }
  set (data := render rq ++ rest) in *. assert (0 < zlen data) as Hpos.
  { destruct Hrq as ((Hm0 & _) & _). apply zlen_pos. unfold data, render, request_line. by destruct (rq_method rq). }
  assert (is_bytes data) as Hby by (apply Forall_app; split; [apply Hrq|done]).
  assert (~ stale (hbuf h) (zlen data)) as Hns by (rewrite Eh; intros (_ & Hx & _); cbn in Hx; lia).
  destruct (ok_Some _ _ (http_call_ok junk p p1 h [] [] data Hok Hby ltac:(lia) ltac:(by intros [_ ?]))) as ([[[p2 h2] u2] r] & E & Hpost).
  exists p2, h2, u2, r. split; [exact E|]. clear Hns Hby.
  assert (lg_refused p2 = true \/ r = zlen (render rq) /\ u2 = calls rq /\ message_complete (msg h2) = true /\ describes rq h2) as Hwalk.
  { apply (request_walk p p1 h data rq rest p2 h2 u2 r Hok eq_refl); [apply Forall_app; split; [apply Hrq|done]|lia|by rewrite Eh|by rewrite Eh|done]. }
  destruct Hwalk as [?|(-> & -> & Hmc & Hm & Hma & Hmi & Hfr)]; [by left|right].
  destruct Hpost as (_ & _ & _ & t' & Hok' & [[Hr _]|(_ & -> & _)]).
  - exfalso. pose proof (zlen_nonneg (render rq)). lia.
  - unfold data in Hok'. cbn [app] in Hok'. unfold zlen in Hok'. rewrite Nat2Z.id, drop_app_length in Hok'. done.
Qed.
End calls.

(** ** Evaluation *)

Definition ex_request : request := Request (bytes_of "POST") (bytes_of "/a") 1
  [(bytes_of "Host", bytes_of " x.org "); (bytes_of "Transfer-Encoding", bytes_of " chunked"); (bytes_of "Connection", bytes_of "close")]
  (Chunks [(bytes_of "3", bytes_of "abc"); (bytes_of "A", bytes_of "0123456789")] (bytes_of "0") [bytes_of "X: y"]).

(** A request with a Content-Length. *)
Definition ex_plain : request := Request (bytes_of "PUT") (bytes_of "/b?c=d") 0 [(bytes_of "content-length", bytes_of " 004 ")] (Plain (bytes_of "body")).

Ltac by_computation := apply (bool_decide_unpack _); vm_compute; exact I.

Ltac word := split; [discriminate|split; by_computation].
Ltac header := split; [by_computation|split; [by_computation|split; [by_computation|split; [do 2 eexists; split; reflexivity|]]]].

Lemma ex_request_ok cfg : cfg_type cfg <> VOX_HTTP_PARSER_TYPE_RESPONSE -> max_headers cfg = 0 -> max_url_size cfg = 0 -> request_ok cfg ex_request.
Proof.
  intros Ht Hm Hu. split; [word|]. split; [word|]. split; [by right|]. split; [reflexivity|]. split; [done|]. split; [by left|].
  split; [|split; [by left|split; [|by_computation]]].
  - repeat apply Forall_cons_2; try apply Forall_nil_2; header; vm_compute; done.
  - split; [reflexivity|]. split; [|split; [|split; [reflexivity|]]].
    + repeat apply Forall_cons_2; try apply Forall_nil_2; (split; [split; [done|repeat constructor; by eexists]|done]).
    + split; [done|repeat constructor; by eexists].
    + apply Forall_singleton. split; [by_computation|done].
Qed.

Lemma ex_plain_ok cfg : cfg_type cfg <> VOX_HTTP_PARSER_TYPE_RESPONSE -> max_headers cfg = 0 -> max_url_size cfg = 0 -> request_ok cfg ex_plain.
Proof.
  intros Ht Hm Hu. split; [word|]. split; [word|]. split; [by left|]. split; [reflexivity|]. split; [done|]. split; [by left|].
  split; [|split; [by left|split; [|by_computation]]].
  - apply Forall_singleton. header. by vm_compute.
  - by vm_compute.
Qed.

Definition ex_config : vox_http_parser_config_t := Config VOX_HTTP_PARSER_TYPE_BOTH 0 0 0 false.
Definition ex_logged : logged bump := Logged ex_pool false.

Lemma http_request_parsed_witness :
  exists p1 h p2 h2, vox_http_parser_create ex_logged (Some ex_config) (Some recorder) = (p1, Some h) /\
    vox_http_parser_execute 0 p1 h [] (render ex_request ++ bytes_of "GET") = Some (p2, h2, calls ex_request, zlen (render ex_request)) /\
    http_ok ex_logged p2 h2 (bytes_of "GET") /\ vox_http_parser_is_chunked h2 = true.
Proof.
  destruct (vox_http_parser_create ex_logged (Some ex_config) (Some recorder)) as [p1 [h|]] eqn:E; [|by vm_compute in E].
  destruct (http_request_parsed 0 ex_logged p1 ex_config h ex_request (bytes_of "GET") ex_pool_inv E) as (p2 & h2 & u & r & E2 & Hr);
    [by apply ex_request_ok|apply bytes_of_bytes|by vm_compute|].
  exists p1, h, p2, h2. split; [reflexivity|]. destruct Hr as [Href|(-> & -> & Hok & _ & _ & _ & _ & Hfr)].
  - exfalso. assert (match vox_http_parser_create ex_logged (Some ex_config) (Some recorder) with
      | (p, Some h) => match vox_http_parser_execute 0 p h [] (render ex_request ++ bytes_of "GET") with
                       | Some (p, _, _, _) => negb (lg_refused p) | None => false end
      | _ => false end = true) as Hc by (vm_compute; reflexivity).
    rewrite E, E2, Href in Hc. discriminate.
  - split; [exact E2|]. split; [exact Hok|]. assert (framing (rq_headers ex_request) = (0, true)) as Ef by (vm_compute; reflexivity).
    rewrite Ef in Hfr. by injection Hfr.
Defined.

(** What the user of a new parser gets for a request with a body of a given length. *)
Example plain_calls : calls ex_plain =
  [Begin; Url (bytes_of "/b?c=d"); Field (bytes_of "content-length"); Value (bytes_of "004"); HeadersComplete; Body (bytes_of "body");
   MessageComplete].
Proof. vm_compute. reflexivity. Qed.
End HttpMsg.
