(* ===== verification/Redis.v ===== *)
(** * vox_redis_parser.c: the streaming parser of Redis replies

    src/redis/vox_redis_parser.c reads a reply of the RESP protocol piece by piece; the text
    of a line is gathered in a [vox_string]. Callbacks are functions of the user's own state
    that return the [int] of the C callback; they do not call the parser. *)

From Stdlib Require Import String Ascii.
From S2P Require Import Prelude Alloc CString VString.

Module Redis.
Import CString VString.

(** ** Constants *)

Definition VOX_REDIS_DEFAULT_MAX_BULK_STRING_SIZE : Z := 512 * 1024 * 1024.
Definition VOX_REDIS_DEFAULT_MAX_ARRAY_SIZE : Z := 1000000.
Definition VOX_REDIS_DEFAULT_MAX_NESTING_DEPTH : Z := 64.
Definition INT64_MAX : Z := 2 ^ 63 - 1.
Definition sizeof_redis_parser : Z := 1824.

(** src/redis/vox_redis_parser.c:19-32: vox_redis_parser_state_t *)
Inductive vox_redis_parser_state_t :=
| VOX_REDIS_STATE_START | VOX_REDIS_STATE_SIMPLE_STRING | VOX_REDIS_STATE_ERROR | VOX_REDIS_STATE_INTEGER
| VOX_REDIS_STATE_BULK_STRING_LEN | VOX_REDIS_STATE_BULK_STRING_DATA | VOX_REDIS_STATE_ARRAY_COUNT
| VOX_REDIS_STATE_ARRAY_ELEMENT | VOX_REDIS_STATE_CR | VOX_REDIS_STATE_LF | VOX_REDIS_STATE_COMPLETE
| VOX_REDIS_STATE_ERROR_STATE.

#[export] Instance redis_state_eq_dec : EqDecision vox_redis_parser_state_t.
Proof. solve_decision. Defined.

(** src/redis/vox_redis_parser.h:22-28: vox_redis_type_t *)
Inductive vox_redis_type_t :=
| VOX_REDIS_TYPE_SIMPLE_STRING | VOX_REDIS_TYPE_ERROR | VOX_REDIS_TYPE_INTEGER | VOX_REDIS_TYPE_BULK_STRING | VOX_REDIS_TYPE_ARRAY.

(** ** Data *)

(** src/redis/vox_redis_parser.h:129-144: vox_redis_parser_callbacks_t *)
Record vox_redis_parser_callbacks_t (U : Type) := Callbacks {
  on_simple_string : option (list Z -> U -> U * Z);
  on_error : option (list Z -> U -> U * Z);
  on_integer : option (Z -> U -> U * Z);
  on_bulk_string_start : option (Z -> U -> U * Z);
  on_bulk_string_data : option (list Z -> U -> U * Z);
  on_bulk_string_complete : option (U -> U * Z);
  on_array_start : option (Z -> U -> U * Z);
  on_array_element_start : option (Z -> U -> U * Z);
  on_array_element_complete : option (Z -> U -> U * Z);
  on_array_complete : option (U -> U * Z);
  on_complete : option (U -> U * Z);
  on_error_parse : option (list Z -> U -> U * Z);
}.
Arguments Callbacks {U}.
Arguments on_simple_string {U}. Arguments on_error {U}. Arguments on_integer {U}. Arguments on_bulk_string_start {U}.
Arguments on_bulk_string_data {U}. Arguments on_bulk_string_complete {U}. Arguments on_array_start {U}.
Arguments on_array_element_start {U}. Arguments on_array_element_complete {U}. Arguments on_array_complete {U}.
Arguments on_complete {U}. Arguments on_error_parse {U}.

(** src/redis/vox_redis_parser.h:148-152: vox_redis_parser_config_t *)
Record vox_redis_parser_config_t := Config { max_bulk_string_size : Z; max_array_size : Z; max_nesting_depth : Z }.

(** An array that is being read.

    src/redis/vox_redis_parser.c:46-50: struct vox_redis_parser *)
Record array_frame := Frame { count : Z; current : Z; expected_len : Z }.

(** The error message is its address and its text.

    src/redis/vox_redis_parser.c:36-66: struct vox_redis_parser *)
Record vox_redis_parser (U : Type) := Parser {
  at_ : Z;
  callbacks : vox_redis_parser_callbacks_t U;
  config : vox_redis_parser_config_t;
  state : vox_redis_parser_state_t;
  current_type : vox_redis_type_t;
  array_stack : list array_frame;
  array_depth : Z;
  integer_value : Z;
  bulk_string_len : Z;
  array_count : Z;
  string_buf : vox_string;
  has_error : bool;
  error_message : Z;
  error_text : list Z;
  bytes_parsed : Z;
}.
Arguments Parser {U}. Arguments at_ {U}. Arguments callbacks {U}. Arguments config {U}. Arguments state {U}.
Arguments current_type {U}. Arguments array_stack {U}. Arguments array_depth {U}. Arguments integer_value {U}.
Arguments bulk_string_len {U}. Arguments array_count {U}. Arguments string_buf {U}. Arguments has_error {U}.
Arguments error_message {U}. Arguments error_text {U}. Arguments bytes_parsed {U}.

(** Assignments to the fields. *)
Definition with_state {U} (m : vox_redis_parser U) st := Parser (at_ m) (callbacks m) (config m) st (current_type m)
  (array_stack m) (array_depth m) (integer_value m) (bulk_string_len m) (array_count m) (string_buf m) (has_error m)
  (error_message m) (error_text m) (bytes_parsed m).
Definition with_type {U} (m : vox_redis_parser U) ty := Parser (at_ m) (callbacks m) (config m) (state m) ty
  (array_stack m) (array_depth m) (integer_value m) (bulk_string_len m) (array_count m) (string_buf m) (has_error m)
  (error_message m) (error_text m) (bytes_parsed m).
Definition with_stack {U} (m : vox_redis_parser U) stack depth := Parser (at_ m) (callbacks m) (config m) (state m) (current_type m)
  stack depth (integer_value m) (bulk_string_len m) (array_count m) (string_buf m) (has_error m)
  (error_message m) (error_text m) (bytes_parsed m).
Definition with_bulk {U} (m : vox_redis_parser U) n := Parser (at_ m) (callbacks m) (config m) (state m) (current_type m)
  (array_stack m) (array_depth m) (integer_value m) n (array_count m) (string_buf m) (has_error m)
  (error_message m) (error_text m) (bytes_parsed m).
Definition with_count {U} (m : vox_redis_parser U) n := Parser (at_ m) (callbacks m) (config m) (state m) (current_type m)
  (array_stack m) (array_depth m) (integer_value m) (bulk_string_len m) n (string_buf m) (has_error m)
  (error_message m) (error_text m) (bytes_parsed m).
Definition with_buf {U} (m : vox_redis_parser U) s := Parser (at_ m) (callbacks m) (config m) (state m) (current_type m)
  (array_stack m) (array_depth m) (integer_value m) (bulk_string_len m) (array_count m) s (has_error m)
  (error_message m) (error_text m) (bytes_parsed m).
Definition with_message {U} (m : vox_redis_parser U) a l := Parser (at_ m) (callbacks m) (config m) (state m) (current_type m)
  (array_stack m) (array_depth m) (integer_value m) (bulk_string_len m) (array_count m) (string_buf m) true a l (bytes_parsed m).
Definition with_parsed {U} (m : vox_redis_parser U) n := Parser (at_ m) (callbacks m) (config m) (state m) (current_type m)
  (array_stack m) (array_depth m) (integer_value m) (bulk_string_len m) (array_count m) (string_buf m) (has_error m)
  (error_message m) (error_text m) n.

(** A call where the code tests the pointer first. *)
Definition call0 {U} (cb : option (U -> U * Z)) (u : U) : U * Z := match cb with Some f => f u | None => (u, 0) end.
Definition call1 {A U} (cb : option (A -> U -> U * Z)) (a : A) (u : U) : U * Z :=
  match cb with Some f => f a u | None => (u, 0) end.

(** ** Words *)

(** The digits of a number; [None]: -1. *)
Fixpoint digits_loop (l : list Z) (value : Z) : option Z :=
  match l with
  | [] => Some value
  | ch :: l =>
      if negb (isdigit ch) then None else
      let digit := ch - 48 in
      if (INT64_MAX - digit) / 10 <? value then None else digits_loop l (value * 10 + digit)
  end.

(** src/redis/vox_redis_parser.c: parse_integer *)
Definition parse_integer (l : list Z) : option Z :=
  match l with
  | [] => None
  | ch :: l' =>
      let digits := if (ch =? 45) || (ch =? 43) then l' else l in
      match digits with
      | [] => None
      | _ => value ← digits_loop digits 0; Some (if ch =? 45 then - value else value)
      end
  end.

(** The search from the byte [q] on, among [n] bytes; [Some None]: -1, [None]: a byte in
    front of or behind the data is read. *)
Fixpoint find_crlf_loop (data : list Z) (q : Z) (n : nat) (i : Z) : option (option Z) :=
  match n with
  | O => Some None
  | S n =>
      ch ← data.[q + i];
      if ch =? 13 then
        match n with
        | O => Some None
        | S _ => ch ← data.[q + i + 1]; if ch =? 10 then Some (Some i) else find_crlf_loop data q n (i + 1)
        end
      else find_crlf_loop data q n (i + 1)
  end.

(** src/redis/vox_redis_parser.c: find_crlf *)
Definition find_crlf (data : list Z) (q len : Z) : option (option Z) := find_crlf_loop data q (Z.to_nat len) 0.

(** ** One state of the parser

    [Go]: the loop goes on at the index; [Stop]: the result is -1. *)
Inductive flow := Go | Stop.

Section step.
Context {P U : Type} `{MPool P} (junk : Z).
Implicit Types (p : P) (m : vox_redis_parser U) (u : U) (i : Z) (data : list Z).
#[local] Abbreviation result := (P * vox_redis_parser U * U * Z * flow)%type.

(** src/redis/vox_redis_parser.c: set_error *)
Definition set_error p m u (message : string) : P * vox_redis_parser U * U :=
  let text := Prelude.bytes_of message in
  let p := if error_message m =? NULL then p else mp_free p (error_message m) in
  let '(p, a) := mp_alloc p (u64 (zlen text + 1)) in
  let m := with_message m a (if a =? NULL then [] else text) in
  let '(u, _) := call1 (on_error_parse (callbacks m)) text u in
  (p, m, u).

(** [set_error], the state of an error and [return -1]. *)
Definition fail p m u i (message : string) : option result :=
  let '(p, m, u) := set_error p m u message in
  Some (p, with_state m VOX_REDIS_STATE_ERROR_STATE, u, i, Stop).

(** A callback that does not return 0 ends the call, without a message. *)
Definition checked p m i (r : U * Z) (k : U -> option result) : option result :=
  let '(u, rc) := r in
  if negb (rc =? 0) then Some (p, with_state m VOX_REDIS_STATE_ERROR_STATE, u, i, Stop) else k u.

(** Bytes of the data behind the text of the buffer. *)
Definition accumulate p m u i data (q n : Z) (message : string) (k : P -> vox_redis_parser U -> option result) : option result :=
  '(p, s, rc) ← vox_string_append_data junk p (string_buf m) (Mem (drop (Z.to_nat q) data)) n;
  let m := with_buf m s in
  if negb (rc =? 0) then fail p m u i message else k p m.

(** The text gathered so far. *)
Definition gathered m : option (list Z) :=
  arr_slice (vox_string_cstr (string_buf m)) 0 (vox_string_length (string_buf m)).

Definition clear m : option (vox_redis_parser U) := s ← vox_string_clear (string_buf m); Some (with_buf m s).

(** A value is complete: the next element of the array, or the end.

    src/redis/vox_redis_parser.c:301-328: vox_redis_parser_execute *)
Definition value_done p m u i : option result :=
  if 0 <? array_depth m then
    fr ← (array_stack m).[array_depth m - 1];
    let fr := Frame (count fr) (u64 (current fr + 1)) (expected_len fr) in
    stack ← (array_stack m).[array_depth m - 1 <- fr];
    let m := with_stack m stack (array_depth m) in
    checked p m i (call1 (on_array_element_complete (callbacks m)) (u64 (current fr - 1)) u) (fun u =>
      if s64 (current fr) <? count fr then Some (p, with_state m VOX_REDIS_STATE_START, u, i, Go)
      else Some (p, with_state (with_stack m (array_stack m) (array_depth m - 1)) VOX_REDIS_STATE_COMPLETE, u, i, Go))
  else Some (p, with_state m VOX_REDIS_STATE_COMPLETE, u, i, Go).

(** src/redis/vox_redis_parser.c:226-261: vox_redis_parser_execute *)
Definition start_step p m u i data : option result :=
  ch ← data.[i];
  let enter ty st := m ← clear (with_state (with_type m ty) st); Some (p, m, u, i + 1, Go) in
  if ch =? 43 then enter VOX_REDIS_TYPE_SIMPLE_STRING VOX_REDIS_STATE_SIMPLE_STRING
  else if ch =? 45 then enter VOX_REDIS_TYPE_ERROR VOX_REDIS_STATE_ERROR
  else if ch =? 58 then enter VOX_REDIS_TYPE_INTEGER VOX_REDIS_STATE_INTEGER
  else if ch =? 36 then enter VOX_REDIS_TYPE_BULK_STRING VOX_REDIS_STATE_BULK_STRING_LEN
  else if ch =? 42 then enter VOX_REDIS_TYPE_ARRAY VOX_REDIS_STATE_ARRAY_COUNT
  else fail p m u (i + 1) "Invalid RESP type identifier".

(** The line is looked for from the byte in front of the index on.

    src/redis/vox_redis_parser.c:263-343: vox_redis_parser_execute *)
Definition text_step p m u i data : option result :=
  r ← find_crlf data (i - 1) (zlen data - i + 1);
  match r with
  | Some crlf_pos =>
      let line p m :=
        text ← gathered m;
        let cb := if bool_decide (state m = VOX_REDIS_STATE_SIMPLE_STRING) then on_simple_string (callbacks m)
                  else on_error (callbacks m) in
        checked p m i (call1 cb text u) (fun u => value_done p m u (i + (crlf_pos + 2))) in
      if 0 <? crlf_pos then accumulate p m u i data (i - 1) crlf_pos "Failed to accumulate string" line else line p m
  | None =>
      accumulate p m u i data (i - 1) (zlen data - i + 1) "Failed to accumulate string" (fun p m => Some (p, m, u, zlen data, Go))
  end.

(** A line of a number: what is found is gathered and handed on with the index behind it.

    src/redis/vox_redis_parser.c:422-440: vox_redis_parser_execute *)
Definition number_step p m u i data (gather_text invalid_text : string)
    (k : P -> vox_redis_parser U -> Z -> Z -> option result) : option result :=
  r ← find_crlf data i (zlen data - i);
  match r with
  | Some crlf_pos =>
      let line p m :=
        text ← gathered m;
        match parse_integer text with
        | None => fail p m u i invalid_text
        | Some value => k p m value (i + (crlf_pos + 2))
        end in
      if 0 <? crlf_pos then accumulate p m u i data i crlf_pos gather_text line else line p m
  | None => accumulate p m u i data i (zlen data - i) gather_text (fun p m => Some (p, m, u, zlen data, Go))
  end.

(** src/redis/vox_redis_parser.c:345-420: vox_redis_parser_execute *)
Definition integer_step p m u i data : option result :=
  number_step p m u i data "Failed to accumulate integer" "Invalid integer format" (fun p m value next =>
    checked p m i (call1 (on_integer (callbacks m)) value u) (fun u => value_done p m u next)).

(** src/redis/vox_redis_parser.c:422-494: vox_redis_parser_execute *)
Definition bulk_len_step p m u i data : option result :=
  number_step p m u i data "Failed to accumulate length" "Invalid bulk string length" (fun p m value next =>
    let m := with_bulk m value in
    if value =? -1 then
      checked p m i (call1 (on_bulk_string_start (callbacks m)) (-1) u) (fun u =>
        checked p m i (call0 (on_bulk_string_complete (callbacks m)) u) (fun u =>
          Some (p, with_state m VOX_REDIS_STATE_COMPLETE, u, next, Go)))
    else if (0 <? max_bulk_string_size (config m)) && (max_bulk_string_size (config m) <? u64 value)
    then fail p m u i "Bulk string too large"
    else
      checked p m i (call1 (on_bulk_string_start (callbacks m)) value u) (fun u =>
        m ← clear (with_state m VOX_REDIS_STATE_BULK_STRING_DATA); Some (p, m, u, next, Go))).

(** src/redis/vox_redis_parser.c:496-517: vox_redis_parser_execute *)
Definition bulk_data_step p m u i data : option result :=
  let remaining := zlen data - i in
  let needed := u64 (bulk_string_len m) in
  let to_read := if remaining <? needed then remaining else needed in
  let next u :=
    let m := with_bulk m (s64 (bulk_string_len m - to_read)) in
    Some (p, if bulk_string_len m =? 0 then with_state m VOX_REDIS_STATE_CR else m, u, i + to_read, Go) in
  match on_bulk_string_data (callbacks m) with
  | Some f =>
      if 0 <? to_read then l ← arr_slice data i to_read; checked p m i (f l u) next else next u
  | None => next u
  end.

(** src/redis/vox_redis_parser.c:519-529: vox_redis_parser_execute *)
Definition cr_step p m u i data : option result :=
  ch ← data.[i];
  if ch =? 13 then Some (p, with_state m VOX_REDIS_STATE_LF, u, i + 1, Go)
  else fail p m u i "Expected \r after bulk string data".

(** src/redis/vox_redis_parser.c:531-576: vox_redis_parser_execute *)
Definition lf_step p m u i data : option result :=
  ch ← data.[i];
  if ch =? 10 then
    checked p m (i + 1) (call0 (on_bulk_string_complete (callbacks m)) u) (fun u => value_done p m u (i + 1))
  else fail p m u i "Expected \n after \r".

(** src/redis/vox_redis_parser.c:578-682: vox_redis_parser_execute *)
Definition array_count_step p m u i data : option result :=
  number_step p m u i data "Failed to accumulate array count" "Invalid array count" (fun p m value next =>
    let m := with_count m value in
    if value =? -1 then
      checked p m i (call1 (on_array_start (callbacks m)) (-1) u) (fun u =>
        checked p m i (call0 (on_array_complete (callbacks m)) u) (fun u =>
          Some (p, with_state m VOX_REDIS_STATE_COMPLETE, u, next, Go)))
    else if (0 <? max_array_size (config m)) && (max_array_size (config m) <? u64 value)
    then fail p m u i "Array too large"
    else if max_nesting_depth (config m) <=? array_depth m then fail p m u i "Array nesting too deep"
    else
      checked p m i (call1 (on_array_start (callbacks m)) value u) (fun u =>
        fr ← (array_stack m).[array_depth m];
        stack ← (array_stack m).[array_depth m <- Frame value 0 (expected_len fr)];
        let m := with_stack m stack (array_depth m + 1) in
        let ready m u := m ← clear m; Some (p, m, u, next, Go) in
        if value =? 0 then
          let m := with_stack m stack (array_depth m - 1) in
          checked p m next (call0 (on_array_complete (callbacks m)) u) (ready (with_state m VOX_REDIS_STATE_COMPLETE))
        else
          checked p m next (call1 (on_array_element_start (callbacks m)) 0 u) (ready (with_state m VOX_REDIS_STATE_START)))).

(** One round of the loop. *)
Definition step p m u i data : option result :=
  match state m with
  | VOX_REDIS_STATE_START => start_step p m u i data
  | VOX_REDIS_STATE_SIMPLE_STRING | VOX_REDIS_STATE_ERROR => text_step p m u i data
  | VOX_REDIS_STATE_INTEGER => integer_step p m u i data
  | VOX_REDIS_STATE_BULK_STRING_LEN => bulk_len_step p m u i data
  | VOX_REDIS_STATE_BULK_STRING_DATA => bulk_data_step p m u i data
  | VOX_REDIS_STATE_CR => cr_step p m u i data
  | VOX_REDIS_STATE_LF => lf_step p m u i data
  | VOX_REDIS_STATE_ARRAY_COUNT => array_count_step p m u i data
  | VOX_REDIS_STATE_ARRAY_ELEMENT | VOX_REDIS_STATE_COMPLETE | VOX_REDIS_STATE_ERROR_STATE => Some (p, m, u, i, Go)
  end.

Definition ended m : bool :=
  bool_decide (state m = VOX_REDIS_STATE_COMPLETE) || bool_decide (state m = VOX_REDIS_STATE_ERROR_STATE).

Fixpoint loop (fuel : nat) p m u i data : option result :=
  match fuel with
  | O => None
  | S fuel =>
      if (i <? zlen data) && negb (ended m) then
        '(p, m, u, i, f) ← step p m u i data;
        match f with Go => loop fuel p m u i data | Stop => Some (p, m, u, i, Stop) end
      else Some (p, m, u, i, Go)
  end.

(** What is done after the loop; the result is that of the call.

    src/redis/vox_redis_parser.c:692-723: vox_redis_parser_execute *)
Definition finish p m u i : option result :=
  fr ← (if 0 <? array_depth m then (array_stack m).[array_depth m - 1] else Some (Frame 0 0 0));
  let finished := bool_decide (state m = VOX_REDIS_STATE_COMPLETE) in
  let closes := finished && (0 <? array_depth m) && (count fr <=? s64 (current fr)) in
  let m := if closes then with_stack m (array_stack m) (array_depth m - 1) else m in
  checked p m i (if closes then call0 (on_array_complete (callbacks m)) u else (u, 0)) (fun u =>
    checked p m i (if finished then call0 (on_complete (callbacks m)) u else (u, 0)) (fun u =>
      Some (p, with_parsed m (u64 (bytes_parsed m + i)), u, i, Go))).

(** src/redis/vox_redis_parser.c: vox_redis_parser_execute *)
Definition vox_redis_parser_execute p m u data : option (P * vox_redis_parser U * U * Z) :=
  if zlen data =? 0 then Some (p, m, u, if has_error m then -1 else 0) else
  if has_error m || bool_decide (state m = VOX_REDIS_STATE_ERROR_STATE) then Some (p, m, u, -1) else
  '(p, m, u, i, f) ← loop (S (S (2 * length data))) p m u 0 data;
  match f with
  | Stop => Some (p, m, u, -1)
  | Go =>
      '(p, m, u, i, f) ← finish p m u i;
      Some (p, m, u, match f with
                     | Stop => -1
                     | Go => if bool_decide (state m = VOX_REDIS_STATE_ERROR_STATE) then -1 else i
                     end)
  end.

(** ** Life *)

(** src/redis/vox_redis_parser.c: vox_redis_parser_create *)
Definition vox_redis_parser_create p (config : option vox_redis_parser_config_t) (callbacks : option (vox_redis_parser_callbacks_t U))
  : option (P * option (vox_redis_parser U)) :=
  let '(p, a) := mp_alloc p sizeof_redis_parser in
  if a =? NULL then Some (p, None) else
  let config := match config with
                | Some c => c
                | None => Config VOX_REDIS_DEFAULT_MAX_BULK_STRING_SIZE VOX_REDIS_DEFAULT_MAX_ARRAY_SIZE VOX_REDIS_DEFAULT_MAX_NESTING_DEPTH
                end in
  let callbacks := match callbacks with
                   | Some c => c
                   | None => Callbacks None None None None None None None None None None None None
                   end in
  '(p, s) ← vox_string_create junk p;
  match s with
  | None => Some (mp_free p a, None)
  | Some s =>
      Some (p, Some (Parser a callbacks config VOX_REDIS_STATE_START VOX_REDIS_TYPE_SIMPLE_STRING
        (replicate (Z.to_nat VOX_REDIS_DEFAULT_MAX_NESTING_DEPTH) (Frame 0 0 0)) 0 0 (-1) (-1) s false NULL [] 0))
  end.

(** src/redis/vox_redis_parser.c: vox_redis_parser_destroy *)
Definition vox_redis_parser_destroy p m : P :=
  let p := if error_message m =? NULL then p else mp_free p (error_message m) in
  mp_free (vox_string_destroy p (string_buf m)) (at_ m).

(** src/redis/vox_redis_parser.c: vox_redis_parser_reset *)
Definition vox_redis_parser_reset p m : option (P * vox_redis_parser U) :=
  let p := if error_message m =? NULL then p else mp_free p (error_message m) in
  s ← vox_string_clear (string_buf m);
  Some (p, Parser (at_ m) (callbacks m) (config m) VOX_REDIS_STATE_START VOX_REDIS_TYPE_SIMPLE_STRING (array_stack m) 0
    (integer_value m) (-1) (-1) s false NULL [] 0).

(** src/redis/vox_redis_parser.c: vox_redis_parser_is_complete *)
Definition vox_redis_parser_is_complete m : bool := bool_decide (state m = VOX_REDIS_STATE_COMPLETE).
(** src/redis/vox_redis_parser.c: vox_redis_parser_has_error *)
Definition vox_redis_parser_has_error m : bool := has_error m || bool_decide (state m = VOX_REDIS_STATE_ERROR_STATE).
(** src/redis/vox_redis_parser.c: vox_redis_parser_get_error *)
Definition vox_redis_parser_get_error m : option (list Z) :=
  if has_error m && negb (error_message m =? NULL) then Some (error_text m) else None.

End step.


(** ** Blocks

    [owns F G bs]: the map of blocks [F] is [G] with the blocks [bs]. *)

Definition owns (F G : gmap Z Z) (bs : list Z) : Prop :=
  NoDup bs /\ (forall b, b ∈ bs -> is_Some (F !! b) /\ G !! b = None) /\ foldr delete F bs = G.

Lemma owns_add F G bs a k : owns F G bs -> F !! a = None -> owns (<[a := k]> F) G (a :: bs).
Proof.
  intros (Hn & Hl & <-) Ha. assert (a ∉ bs) as Hin by (intros Hin; destruct (Hl a Hin) as [[? E] _]; congruence).
  split; [by apply NoDup_cons|]. split.
  - intros b [->|Hb]%elem_of_cons; [rewrite lookup_insert_eq; split; [done|]; rewrite lookup_foldr_delete; by rewrite decide_False|].
    rewrite lookup_insert_ne by (by intros ->). by apply Hl.
  - cbn. apply map_eq. intros k'. rewrite lookup_delete, !lookup_foldr_delete, lookup_insert. repeat case_decide; subst; congruence || done.
Qed.

Lemma owns_drop F G bs a : owns F G (a :: bs) -> owns (delete a F) G bs.
Proof.
  intros (Hn & Hl & <-). apply NoDup_cons in Hn as [Ha Hn]. split; [done|]. split.
  - intros b Hb. rewrite lookup_delete_ne by (by intros ->). apply Hl. by right.
  - cbn. apply map_eq. intros k. rewrite lookup_foldr_delete, !lookup_delete, lookup_foldr_delete. repeat case_decide; done.
Qed.

Lemma owns_perm F G bs cs : owns F G bs -> bs ≡ₚ cs -> owns F G cs.
Proof.
  intros (Hn & Hl & Hr) E. split; [by rewrite <-E|]. split; [intros b; rewrite <-E; apply Hl|]. by rewrite <-(foldr_delete_perm _ _ _ E).
Qed.

Section invariant.
Context {P U : Type} `{MPoolLaws P} (junk : Z).
Implicit Types (p : P) (m : vox_redis_parser U) (u : U) (i : Z) (c data : list Z).

Lemma free_other p s c a : str_inv p s c -> is_Some (others p s !! a) ->
  str_inv (mp_free p a) s c /\ others (mp_free p a) s = delete a (others p s).
Proof.
  intros [Hp Hd Hl Hc Hm ([n Hat] & [k Hse] & Hne)] [x Hx]. unfold others in *. apply frame_lookup in Hx as (Ha1 & Ha2 & Ha).
  destruct (mp_free_spec p a Hp) as [Hp' Hlive]; [by eexists|]. split.
  - constructor; try done. unfold owned. rewrite Hlive. split_and!; [|by rewrite lookup_delete_ne by done|done]. by rewrite lookup_delete_ne by done.
  - unfold frame. rewrite Hlive. apply map_eq. intros b. rewrite !lookup_delete. repeat case_decide; done.
Qed.

Lemma alloc_other p s c n p' a : str_inv p s c -> 0 <= n < 2 ^ 64 -> mp_alloc p n = (p', a) ->
  str_inv p' s c /\ (a = NULL /\ others p' s = others p s \/
    a <> NULL /\ others p s !! a = None /\ exists k, others p' s = <[a := k]> (others p s)).
Proof.
  intros [Hp Hd Hl Hc Hm ([n0 Hat] & [k0 Hse] & Hne)] Hn E. destruct (mp_alloc_spec p n p' a Hp Hn E) as [Hp' Ha]. unfold others, frame.
  destruct Ha as [[-> Hlive]|(Hnn & _ & Hfresh & k & _ & Hlive)].
  - split; [constructor; try done; unfold owned; rewrite Hlive; by split_and!|]. left. by rewrite Hlive.
  - assert (a <> self s /\ a <> data_at s) as [H1 H2] by (split; intros ->; congruence). split.
    + constructor; try done. unfold owned. rewrite Hlive, !lookup_insert_ne by done. by split_and!.
    + right. split; [done|]. rewrite !lookup_delete_ne by done. split; [done|]. exists k. rewrite Hlive.
      by rewrite !delete_insert_ne by done.
Qed.

Definition message_block m : list Z := if decide (error_message m = NULL) then [] else [error_message m].
Definition blocks m : list Z := message_block m ++ [at_ m].

(** The pool [p] is [p0] with the blocks of the parser, whose buffer holds the text [c]. *)
Record redis_ok (p0 p : P) m c : Prop := {
  ro_str : str_inv p (string_buf m) c;
  ro_own : owns (others p (string_buf m)) (mp_live p0) (blocks m);
  ro_stack : length (array_stack m) = 64%nat;
  ro_depth : 0 <= array_depth m <= 64;
  ro_nest : max_nesting_depth (config m) <= 64;
  ro_bulk : - 2 ^ 63 <= bulk_string_len m < 2 ^ 63;
  ro_state : state m <> VOX_REDIS_STATE_ARRAY_ELEMENT;
}.

(** Steps keep the parser's address, callbacks and configuration. *)
Definition same m m' : Prop := at_ m' = at_ m /\ callbacks m' = callbacks m /\ config m' = config m.

Lemma same_refl m : same m m.
Proof. done. Qed.
Lemma same_trans m m1 m2 : same m m1 -> same m1 m2 -> same m m2.
Proof. intros (?&?&?) (?&?&?). split_and!; congruence. Qed.

(** The fields the memory does not depend on. *)
Lemma redis_ok_fields p0 p m c m' : redis_ok p0 p m c -> string_buf m' = string_buf m -> error_message m' = error_message m ->
  at_ m' = at_ m -> config m' = config m -> length (array_stack m') = 64%nat -> 0 <= array_depth m' <= 64 ->
  - 2 ^ 63 <= bulk_string_len m' < 2 ^ 63 -> state m' <> VOX_REDIS_STATE_ARRAY_ELEMENT -> redis_ok p0 p m' c.
Proof.
  intros [? Ho ? ? ? ? ?] Es Ee Ea Ec ? ? ? ?. constructor; rewrite ?Es, ?Ec; try done. unfold blocks, message_block in *. by rewrite Ee, Ea.
Qed.

(** The string changed. *)
Lemma redis_ok_buf p0 p m c p' s' c' : redis_ok p0 p m c -> str_keep p (string_buf m) p' s' c' -> redis_ok p0 p' (with_buf m s') c'.
Proof. intros [? Ho ? ? ? ? ?] (Hi & Eo & _). constructor; try done. cbn [string_buf with_buf]. rewrite Eo. exact Ho. Qed.

Lemma redis_drop_message p0 p m c : redis_ok p0 p m c ->
  let p' := if error_message m =? NULL then p else mp_free p (error_message m) in
  str_inv p' (string_buf m) c /\ owns (others p' (string_buf m)) (mp_live p0) [at_ m].
Proof.
  intros [Hs Ho _ _ _ _ _]. unfold blocks, message_block in Ho. cbv zeta. destruct (Z.eqb_spec (error_message m) NULL) as [E|E].
  - by rewrite decide_True in Ho.
  - rewrite decide_False in Ho by done. cbn [app] in Ho. pose proof Ho as (_ & Hl & _).
    destruct (free_other p _ c (error_message m) Hs) as [Hs' ->]; [apply Hl; by left|]. split; [done|]. by apply owns_drop.
Qed.

Lemma redis_set_error_ok p0 p m c u message : redis_ok p0 p m c ->
  exists p' m' u', set_error p m u message = (p', m', u') /\ redis_ok p0 p' m' c /\ same m m'.
Proof.
  intros Hok. destruct (redis_drop_message p0 p m c Hok) as [Hs Ho]. unfold set_error. set (q := if _ : bool then p else _) in *.
  destruct (mp_alloc q (u64 (zlen (Prelude.bytes_of message) + 1))) as [p1 a] eqn:Ea.
  destruct (call1 _ _ u) as [u1 rc]. do 3 eexists. split; [done|]. split; [|done].
  destruct (alloc_other q _ c _ p1 a Hs (u64_range _) Ea) as [Hs1 Hcase]. destruct Hok as [_ _ ? ? ? ? ?].
  constructor; try done; cbn [string_buf with_message]. unfold blocks, message_block. cbn [error_message with_message at_].
  destruct Hcase as [[-> ->]|(Hne & Hfr & k & ->)]; [by rewrite decide_True|]. rewrite decide_False by done. by apply owns_add.
Qed.

(** ** What a step leaves

    [n] bytes of data; a text line is only looked at behind the first byte of a read. *)

Definition texting m : bool :=
  bool_decide (state m = VOX_REDIS_STATE_SIMPLE_STRING) || bool_decide (state m = VOX_REDIS_STATE_ERROR).
Definition work (n i : Z) m : Z := 2 * (n + 1 - i) + (if decide (state m = VOX_REDIS_STATE_BULK_STRING_DATA) then 1 else 0).

Definition step_post (p0 : P) (n i : Z) m (w : P * vox_redis_parser U * U * Z * flow) : Prop :=
  let '(p', m', _, i', f) := w in
  same m m' /\ (exists c', redis_ok p0 p' m' c') /\
  match f with
  | Stop => state m' = VOX_REDIS_STATE_ERROR_STATE
  | Go => i <= i' <= n + 1 /\ (texting m' = true -> 0 < i') /\ work n i' m' < work n i m
  end.

Lemma redis_fail_ok p0 p m0 m c u n i j message : redis_ok p0 p m c -> same m0 m -> ok (fail p m u j message) (step_post p0 n i m0).
Proof.
  intros Hok Hs. unfold fail. destruct (redis_set_error_ok p0 p m c u message Hok) as (p' & m' & u' & -> & Hok' & Hs'). cbn [ok step_post].
  split; [by eapply same_trans|]. split; [|done]. exists c. destruct Hok'. by apply (redis_ok_fields p0 p' m' c); [constructor|..].
Qed.

Lemma checked_ok p0 p m0 m c n i j r k : redis_ok p0 p m c -> same m0 m ->
  (forall u, ok (k u) (step_post p0 n i m0)) -> ok (checked p m j r k) (step_post p0 n i m0).
Proof.
  intros Hok Hs Hk. unfold checked. destruct r as [u rc]. destruct (negb _); [|done]. cbn [ok step_post].
  split; [done|]. split; [|done]. exists c. destruct Hok. by apply (redis_ok_fields p0 p m c); [constructor|..].
Qed.

Lemma gathered_ok p0 p m c : redis_ok p0 p m c -> gathered m = Some c.
Proof.
  intros [Hs _ _ _ _ _ _]. unfold gathered, vox_string_cstr, vox_string_length. rewrite (str_inv_nonnull _ _ _ Hs).
  destruct Hs as [_ [rest Hd] Hl _ _ _]. rewrite Hl, Hd. apply (arr_slice_mid [] c (0 :: rest)); [done|done].
Qed.

Lemma redis_clear_ok p0 p m c : redis_ok p0 p m c -> exists m', clear m = Some m' /\ redis_ok p0 p m' [] /\ m' = with_buf m (string_buf m').
Proof.
  intros Hok. unfold clear. destruct (str_clear_ok p (string_buf m) c) as (s' & -> & Hk); [apply Hok|]. cbn [mbind option_bind].
  eexists. split; [done|]. split; [by eapply redis_ok_buf|done].
Qed.

Lemma accumulate_ok p0 p m0 m c u n i j data q len message k : redis_ok p0 p m c -> same m0 m -> 0 <= q -> 0 <= len <= 2 ^ 62 ->
  q + len <= zlen data -> (forall p' m' c', redis_ok p0 p' m' c' -> m' = with_buf m (string_buf m') -> ok (k p' m') (step_post p0 n i m0)) ->
  ok (accumulate junk p m u j data q len message k) (step_post p0 n i m0).
Proof.
  intros Hok Hs Hq Hlen Hb Hk. unfold accumulate.
  destruct (append_data_ok junk p (string_buf m) c (Mem (drop (Z.to_nat q) data)) len) as (p' & s' & r & c' & -> & Hkeep & _);
    [apply Hok|split; [lia|rewrite zlen_drop; lia]|].
  cbn [mbind option_bind]. pose proof (redis_ok_buf _ _ _ _ _ _ _ Hok Hkeep) as Hok'.
  destruct (negb _); [by eapply redis_fail_ok|]. by apply (Hk p' _ c').
Qed.

End invariant.

(** ** Every step is defined *)

Lemma digits_range l v x : digits_loop l v = Some x -> 0 <= v <= INT64_MAX -> 0 <= x <= INT64_MAX.
Proof.
  revert v. induction l as [|ch l IH]; intros v; cbn [digits_loop]; [by intros [= <-]|].
  destruct (isdigit ch) eqn:Ec; cbn [negb]; [|done]. unfold isdigit in Ec. apply andb_true_iff in Ec as [?%Z.leb_le ?%Z.leb_le].
  destruct (Z.ltb_spec ((INT64_MAX - (ch - 48)) / 10) v) as [|Hv]; [done|]. intros E Hr. apply (IH _ E). unfold INT64_MAX in *. dlia.
Qed.

Lemma integer_range l x : parse_integer l = Some x -> - 2 ^ 63 <= x < 2 ^ 63.
Proof.
  unfold parse_integer. destruct l as [|ch l]; [done|]. set (ds := if _ : bool then l else _). destruct ds as [|d ds]; [done|].
  destruct (digits_loop (d :: ds) 0) as [v|] eqn:E; [|done]. cbn [mbind option_bind]. intros [= <-].
  pose proof (digits_range _ _ _ E) as Hr. unfold INT64_MAX in Hr. destruct (ch =? 45); lia.
Qed.

Section steps.
Context {P U : Type} `{MPoolLaws P} (junk : Z).
Implicit Types (p : P) (m : vox_redis_parser U) (u : U) (i : Z) (c data : list Z).

Lemma go_ok p0 p m0 m c u n i next : redis_ok p0 p m c -> same m0 m -> 0 <= i < next -> next <= n + 1 ->
  step_post p0 n i m0 (p, m, u, next, Go).
Proof.
  intros Hok Hs Hi Hn. split; [done|]. split; [by exists c|]. split; [lia|]. split; [lia|]. unfold work. repeat case_decide; lia.
Qed.

(** The fields of a parser after some assignments. *)
Ltac fields Hok := eapply redis_ok_fields; [exact Hok|try done; cbn; try lia; try apply Hok ..].

Lemma stack_get p0 p m c d : redis_ok p0 p m c -> 0 <= d < 64 -> exists fr, (array_stack m).[d] = Some fr.
Proof. intros Hok Hd. apply arr_get_Some. unfold zlen. rewrite (ro_stack _ _ _ _ Hok). lia. Qed.

Lemma stack_set p0 p m c d fr : redis_ok p0 p m c -> 0 <= d < 64 ->
  exists st, (array_stack m).[d <- fr] = Some st /\ length st = 64%nat.
Proof.
  intros Hok Hd. rewrite arr_set_ok by (unfold zlen; rewrite (ro_stack _ _ _ _ Hok); lia). eexists. split; [done|].
  rewrite length_insert. apply Hok.
Qed.

Lemma value_done_ok p0 p m0 m c u n i next : redis_ok p0 p m c -> same m0 m -> 0 <= i < next -> next <= n + 1 ->
  ok (value_done p m u next) (step_post p0 n i m0).
Proof.
  intros Hok Hs Hi Hn. unfold value_done. pose proof (ro_depth _ _ _ _ Hok) as Hd. destruct (Z.ltb_spec 0 (array_depth m)) as [H0'|H0'].
  2: { cbn [ok]. eapply go_ok; [|done|done|done]. fields Hok. }
  destruct (stack_get p0 p m c (array_depth m - 1) Hok) as [fr ->]; [lia|]. cbn [mbind option_bind].
  set (fr' := Frame _ _ _). destruct (stack_set p0 p m c (array_depth m - 1) fr' Hok) as (st & -> & Hst); [lia|]. cbn [mbind option_bind].
  set (m1 := with_stack m st (array_depth m)). assert (redis_ok p0 p m1 c) as Hok1 by fields Hok.
  eapply checked_ok; [exact Hok1|done|]. intros u1. destruct (_ <? _); cbn [ok]; (eapply go_ok; [|done|done|done]); fields Hok1.
Qed.

Lemma find_crlf_loop_ok data q n i : 0 <= q -> 0 <= i -> q + i + Z.of_nat n <= zlen data ->
  ok (find_crlf_loop data q n i) (fun r => match r with Some k => i <= k /\ k + 2 <= i + Z.of_nat n | None => True end).
Proof.
  intros Hq. revert i. induction n as [|n IH]; intros i Hi Hb; cbn [find_crlf_loop]; [done|].
  destruct (arr_get_Some data (q + i)) as [ch ->]; [lia|]. cbn [mbind option_bind].
  assert (ok (find_crlf_loop data q n (i + 1)) (fun r => match r with Some k => i <= k /\ k + 2 <= i + Z.of_nat (S n) | None => True end)) as Hr.
  { eapply ok_mono; [apply IH; lia|]. intros [k|]; [lia|done]. }
  destruct (ch =? 13); [|done]. destruct n as [|n']; [done|].
  destruct (arr_get_Some data (q + i + 1)) as [c2 ->]; [lia|]. cbn [mbind option_bind]. destruct (c2 =? 10); [cbn; lia|done].
Qed.

Lemma find_crlf_ok data q len : 0 <= q -> 0 <= len -> q + len <= zlen data ->
  ok (find_crlf data q len) (fun r => match r with Some k => 0 <= k /\ k + 2 <= len | None => True end).
Proof.
  intros Hq Hl Hb. eapply ok_mono; [apply find_crlf_loop_ok; lia|]. intros [k|]; [lia|done].
Qed.

Lemma start_step_ok p0 p m c u i data : redis_ok p0 p m c -> 0 <= i < zlen data ->
  ok (start_step p m u i data) (step_post p0 (zlen data) i m).
Proof.
  intros Hok Hi. unfold start_step. destruct (arr_get_Some data i Hi) as [ch ->]. cbn [mbind option_bind].
  assert (forall ty st, st <> VOX_REDIS_STATE_ARRAY_ELEMENT ->
    ok (m' ← clear (with_state (with_type m ty) st); Some (p, m', u, i + 1, Go)) (step_post p0 (zlen data) i m)) as Henter.
  { intros ty st Hne. assert (redis_ok p0 p (with_state (with_type m ty) st) c) as Hok1 by fields Hok.
    destruct (redis_clear_ok p0 p _ c Hok1) as (m' & -> & Hok' & E). cbn [mbind option_bind ok]. eapply go_ok; [exact Hok'|by rewrite E|lia|lia]. }
  repeat case_one; try (by apply Henter). by eapply redis_fail_ok.
Qed.

Lemma text_step_ok p0 p m c u i data : redis_ok p0 p m c -> 0 < i < zlen data -> zlen data < 2 ^ 62 ->
  ok (text_step junk p m u i data) (step_post p0 (zlen data) i m).
Proof.
  intros Hok Hi Hd. unfold text_step. eapply ok_bind; [apply find_crlf_ok; lia|]. intros [k|] Hk.
  - assert (forall p' m' c', redis_ok p0 p' m' c' -> m' = with_buf m (string_buf m') ->
      ok (text ← gathered m'; checked p' m' i (call1 (if bool_decide (state m' = VOX_REDIS_STATE_SIMPLE_STRING) then on_simple_string (callbacks m')
        else on_error (callbacks m')) text u) (fun u => value_done p' m' u (i + (k + 2)))) (step_post p0 (zlen data) i m)) as Hline.
    { intros p' m' c' Hok' E. rewrite (gathered_ok _ _ _ _ Hok'). cbn [mbind option_bind].
      eapply checked_ok; [exact Hok'|by rewrite E|]. intros u'. eapply value_done_ok; [exact Hok'|by rewrite E|lia|lia]. }
    cbv zeta. destruct (0 <? k); [eapply accumulate_ok; [exact Hok|done|lia..|done]|]. apply (Hline p m c Hok). by destruct m.
  - eapply accumulate_ok; [exact Hok|done|lia..|]. intros p' m' c' Hok' E. cbn [ok]. eapply go_ok; [exact Hok'|by rewrite E|lia|lia].
Qed.

Lemma number_step_ok p0 p m c u i data t1 t2 k : redis_ok p0 p m c -> 0 <= i < zlen data -> zlen data < 2 ^ 62 ->
  (forall p' m' c' value next, redis_ok p0 p' m' c' -> m' = with_buf m (string_buf m') -> - 2 ^ 63 <= value < 2 ^ 63 ->
     i < next -> next <= zlen data -> ok (k p' m' value next) (step_post p0 (zlen data) i m)) ->
  ok (number_step junk p m u i data t1 t2 k) (step_post p0 (zlen data) i m).
Proof.
  intros Hok Hi Hd Hk. unfold number_step. eapply ok_bind; [apply find_crlf_ok; lia|]. intros [q|] Hq.
  - assert (forall p' m' c', redis_ok p0 p' m' c' -> m' = with_buf m (string_buf m') ->
      ok (text ← gathered m'; match parse_integer text with None => fail p' m' u i t2 | Some value => k p' m' value (i + (q + 2)) end)
        (step_post p0 (zlen data) i m)) as Hline.
    { intros p' m' c' Hok' E. rewrite (gathered_ok _ _ _ _ Hok'). cbn [mbind option_bind].
      destruct (parse_integer c') as [v|] eqn:Ev; [|eapply redis_fail_ok; [exact Hok'|by rewrite E]].
      apply (Hk p' m' c'); [done|done| |lia|lia]. by eapply integer_range. }
    cbv zeta. destruct (0 <? q); [eapply accumulate_ok; [exact Hok|done|lia..|done]|]. apply (Hline p m c Hok). by destruct m.
  - eapply accumulate_ok; [exact Hok|done|lia..|]. intros p' m' c' Hok' E. cbn [ok]. eapply go_ok; [exact Hok'|by rewrite E|lia|lia].
Qed.

Lemma integer_step_ok p0 p m c u i data : redis_ok p0 p m c -> 0 <= i < zlen data -> zlen data < 2 ^ 62 ->
  ok (integer_step junk p m u i data) (step_post p0 (zlen data) i m).
Proof.
  intros Hok Hi Hd. unfold integer_step. eapply number_step_ok; [exact Hok|lia|lia|]. intros p' m' c' v next Hok' E _ Hn1 Hn2.
  eapply checked_ok; [exact Hok'|by rewrite E|]. intros u'. eapply value_done_ok; [exact Hok'|by rewrite E|lia|lia].
Qed.

Lemma bulk_len_step_ok p0 p m c u i data : redis_ok p0 p m c -> 0 <= i < zlen data -> zlen data < 2 ^ 62 ->
  ok (bulk_len_step junk p m u i data) (step_post p0 (zlen data) i m).
Proof.
  intros Hok Hi Hd. unfold bulk_len_step. eapply number_step_ok; [exact Hok|lia|lia|]. intros p' m' c' v next Hok' E Hv Hn1 Hn2.
  set (m1 := with_bulk m' v). assert (redis_ok p0 p' m1 c') as Hok1 by fields Hok'. assert (same m m1) as Hs1 by by (unfold m1; rewrite E).
  clearbody m1. destruct (v =? -1).
  { eapply checked_ok; [exact Hok1|done|]. intros u1. eapply checked_ok; [exact Hok1|done|]. intros u2. cbn [ok].
    eapply go_ok; [|exact Hs1|lia|lia]. fields Hok1. }
  destruct (_ && _); [by eapply redis_fail_ok|]. eapply checked_ok; [exact Hok1|done|]. intros u1.
  assert (redis_ok p0 p' (with_state m1 VOX_REDIS_STATE_BULK_STRING_DATA) c') as Hok2 by fields Hok1.
  destruct (redis_clear_ok p0 p' _ c' Hok2) as (m2 & -> & Hok3 & E3). cbn [mbind option_bind ok]. eapply go_ok; [exact Hok3|by rewrite E3|lia|lia].
Qed.

Lemma array_count_step_ok p0 p m c u i data : redis_ok p0 p m c -> 0 <= i < zlen data -> zlen data < 2 ^ 62 ->
  ok (array_count_step junk p m u i data) (step_post p0 (zlen data) i m).
Proof.
  intros Hok Hi Hd. unfold array_count_step. eapply number_step_ok; [exact Hok|lia|lia|]. intros p' m' c' v next Hok' E Hv Hn1 Hn2.
  set (m1 := with_count m' v). assert (redis_ok p0 p' m1 c') as Hok1 by fields Hok'. assert (same m m1) as Hs1 by by (unfold m1; rewrite E).
  clearbody m1. clear Hok' E. destruct (v =? -1).
  { eapply checked_ok; [exact Hok1|done|]. intros u1. eapply checked_ok; [exact Hok1|done|]. intros u2. cbn [ok].
    eapply go_ok; [|exact Hs1|lia|lia]. fields Hok1. }
  destruct (_ && _); [by eapply redis_fail_ok|]. pose proof (ro_nest _ _ _ _ Hok1). pose proof (ro_depth _ _ _ _ Hok1).
  destruct (Z.leb_spec (max_nesting_depth (config m1)) (array_depth m1)); [by eapply redis_fail_ok|].
  eapply checked_ok; [exact Hok1|done|]. intros u1.
  destruct (stack_get p0 p' m1 c' (array_depth m1) Hok1) as [fr ->]; [lia|]. cbn [mbind option_bind].
  destruct (stack_set p0 p' m1 c' (array_depth m1) (Frame v 0 (expected_len fr)) Hok1) as (st & -> & Hst); [lia|]. cbn [mbind option_bind].
  assert (forall m2 u, redis_ok p0 p' m2 c' -> same m m2 ->
    ok (m3 ← clear m2; Some (p', m3, u, next, Go)) (step_post p0 (zlen data) i m)) as Hready.
  { intros m2 u2 Hok2 Hs2. destruct (redis_clear_ok p0 p' m2 c' Hok2) as (m3 & -> & Hok3 & E3). cbn [mbind option_bind ok].
    eapply go_ok; [exact Hok3|by rewrite E3|lia|lia]. }
  cbv zeta. destruct (v =? 0); (eapply checked_ok; [|exact Hs1|intros u2; apply Hready; [|exact Hs1]]); fields Hok1.
Qed.

Lemma bulk_data_step_ok p0 p m c u i data : redis_ok p0 p m c -> 0 <= i < zlen data -> zlen data < 2 ^ 62 ->
  state m = VOX_REDIS_STATE_BULK_STRING_DATA -> ok (bulk_data_step p m u i data) (step_post p0 (zlen data) i m).
Proof.
  intros Hok Hi Hd Hst. unfold bulk_data_step. pose proof (ro_bulk _ _ _ _ Hok) as Hb. set (needed := u64 (bulk_string_len m)).
  assert (0 <= needed) as Hn by apply u64_range. set (to_read := if _ : bool then _ else _).
  assert (0 <= to_read <= zlen data - i) as Ht by (unfold to_read; destruct (Z.ltb_spec (zlen data - i) needed); lia).
  assert (to_read = 0 -> bulk_string_len m = 0) as Hz.
  { unfold to_read. destruct (Z.ltb_spec (zlen data - i) needed); [lia|]. intros Hx. unfold needed in Hx. unfold u64 in Hx. dlia. }
  set (m1 := with_bulk m _). set (m2 := if bulk_string_len m1 =? 0 then _ else m1).
  assert (redis_ok p0 p m1 c) as Hok1 by (fields Hok; unfold s64; dlia).
  assert (redis_ok p0 p m2 c) as Hok2 by (unfold m2; case_one; [fields Hok1|done]).
  assert (same m m2) as Hs2 by (unfold m2; by case_one).
  assert (forall u, step_post p0 (zlen data) i m (p, m2, u, i + to_read, Go)) as Hnext.
  { intros u1. destruct (Z.eq_dec to_read 0) as [Hr|Hr]; [|eapply go_ok; [exact Hok2|exact Hs2|lia|lia]].
    assert (state m2 = VOX_REDIS_STATE_CR) as E2 by (unfold m2, m1; cbn [bulk_string_len with_bulk]; rewrite Hr, (Hz Hr); done).
    split; [exact Hs2|]. split; [by exists c|]. split; [lia|]. unfold texting, work. rewrite E2, Hst, decide_False, decide_True by done.
    split; [done|lia]. }
  clearbody m2. clear m1 Hok1.
  destruct (on_bulk_string_data (callbacks m)) as [f|]; [|apply Hnext]. destruct (Z.ltb_spec 0 to_read); [|apply Hnext].
  assert (is_Some (arr_slice data i to_read)) as [l ->].
  { unfold arr_slice. rewrite decide_True by lia. done. }
  cbn [mbind option_bind]. eapply checked_ok; [exact Hok|done|apply Hnext].
Qed.

Lemma cr_step_ok p0 p m c u i data : redis_ok p0 p m c -> 0 <= i < zlen data -> ok (cr_step p m u i data) (step_post p0 (zlen data) i m).
Proof.
  intros Hok Hi. unfold cr_step. destruct (arr_get_Some data i Hi) as [ch ->]. cbn [mbind option_bind].
  destruct (ch =? 13); [cbn [ok]; eapply go_ok; [|done|lia|lia]; fields Hok|by eapply redis_fail_ok].
Qed.

Lemma lf_step_ok p0 p m c u i data : redis_ok p0 p m c -> 0 <= i < zlen data -> ok (lf_step p m u i data) (step_post p0 (zlen data) i m).
Proof.
  intros Hok Hi. unfold lf_step. destruct (arr_get_Some data i Hi) as [ch ->]. cbn [mbind option_bind].
  destruct (ch =? 10); [|by eapply redis_fail_ok]. eapply checked_ok; [exact Hok|done|]. intros u1. eapply value_done_ok; [exact Hok|done|lia|lia].
Qed.

Lemma step_ok' p0 p m c u i data : redis_ok p0 p m c -> 0 <= i < zlen data -> zlen data < 2 ^ 62 -> (texting m = true -> 0 < i) ->
  ended m = false -> ok (step junk p m u i data) (step_post p0 (zlen data) i m).
Proof.
  intros Hok Hi Hd Ht He. unfold step. pose proof (ro_state _ _ _ _ Hok). unfold texting, ended in *. destruct (state m) eqn:Est; try done.
  - by eapply start_step_ok.
  - eapply text_step_ok; [exact Hok|specialize (Ht eq_refl); lia|done].
  - eapply text_step_ok; [exact Hok|specialize (Ht eq_refl); lia|done].
  - by eapply integer_step_ok.
  - by eapply bulk_len_step_ok.
  - by eapply bulk_data_step_ok.
  - by eapply array_count_step_ok.
  - by eapply cr_step_ok.
  - by eapply lf_step_ok.
Qed.

End steps.

(** ** A call *)

Section call.
Context {P U : Type} `{MPoolLaws P} (junk : Z).
Implicit Types (p : P) (m : vox_redis_parser U) (u : U) (i : Z) (c data : list Z).

Ltac fields Hok := eapply redis_ok_fields; [exact Hok|try done; cbn; try lia; try apply Hok ..].

Lemma loop_ok fuel p0 p m c u i data : redis_ok p0 p m c -> 0 <= i <= zlen data + 1 -> zlen data < 2 ^ 62 ->
  (texting m = true -> 0 < i) -> 0 < Z.of_nat fuel -> work (zlen data) i m - 2 < Z.of_nat fuel ->
  ok (loop junk fuel p m u i data) (fun '(p', m', _, i', f) => same m m' /\ (exists c', redis_ok p0 p' m' c') /\
    match f with Go => 0 <= i' <= zlen data + 1 | Stop => state m' = VOX_REDIS_STATE_ERROR_STATE end).
Proof.
  revert p m c u i. induction fuel as [|fuel IH]; intros p m c u i Hok Hi Hd Ht Hf1 Hf2; [lia|]. cbn [loop].
  destruct (Z.ltb_spec i (zlen data)) as [Hlt|Hge]; cbn [andb]; [|split; [done|]; split; [by exists c|lia]].
  destruct (ended m) eqn:Ee; cbn [negb]; [split; [done|]; split; [by exists c|lia]|].
  eapply ok_bind; [eapply step_ok'; [exact Hok|lia|done|done|done]|]. intros [[[[p1 m1] u1] i1] [|]] (Hs & [c1 Hok1] & Hp).
  - destruct Hp as (Hi1 & Ht1 & Hw).
    assert (2 <= work (zlen data) i m - 2) as Hbig by (unfold work; case_decide; lia).
    eapply ok_mono; [apply (IH p1 m1 c1 u1 i1); [exact Hok1|lia|done|done|lia|lia]|].
    intros [[[[p2 m2] u2] i2] f] (Hs2 & ? & ?). split; [by eapply same_trans|done].
  - split; [done|]. split; [by exists c1|done].
Qed.

Lemma finish_ok p0 p m c u i : redis_ok p0 p m c ->
  ok (finish p m u i) (fun '(p', m', _, i', f) => same m m' /\ (exists c', redis_ok p0 p' m' c') /\
    match f with Go => i' = i | Stop => state m' = VOX_REDIS_STATE_ERROR_STATE end).
Proof.
  intros Hok. unfold finish. pose proof (ro_depth _ _ _ _ Hok) as Hd.
  assert (exists fr, (if 0 <? array_depth m then (array_stack m).[array_depth m - 1] else Some (Frame 0 0 0)) = Some fr) as [fr ->].
  { destruct (Z.ltb_spec 0 (array_depth m)); [|by eexists]. eapply stack_get; [exact Hok|lia]. }
  cbn [mbind option_bind]. set (closes := _ && (count fr <=? _)). set (m1 := if closes then _ else m).
  assert (redis_ok p0 p m1 c /\ same m m1) as [Hok1 Hs1].
  { unfold m1. destruct closes eqn:E; [|done]. split; [|done]. apply andb_true_iff in E as [E _]. apply andb_true_iff in E as [_ E%Z.ltb_lt]. fields Hok. }
  assert (forall st n, st <> VOX_REDIS_STATE_ARRAY_ELEMENT -> redis_ok p0 p (with_parsed (with_state m1 st) n) c) as Hst by (intros st n ?; fields Hok1).
  unfold checked. destruct (if closes then call0 _ u else (u, 0)) as [u1 rc1]. destruct (negb (rc1 =? 0)).
  { split; [done|]. split; [exists c; by fields Hok1|done]. }
  destruct (if bool_decide _ then call0 _ u1 else (u1, 0)) as [u2 rc2]. destruct (negb (rc2 =? 0)).
  { split; [done|]. split; [exists c; by fields Hok1|done]. }
  split; [done|]. split; [exists c; by fields Hok1|done].
Qed.

Definition redis_post (p0 : P) m (n : Z) (w : P * vox_redis_parser U * U * Z) : Prop :=
  let '(p', m', _, r) := w in
  same m m' /\ (exists c', redis_ok p0 p' m' c') /\ -1 <= r <= n + 1 /\ (r = -1 -> vox_redis_parser_has_error m' = true).

Lemma redis_call_ok p0 p m c u data : redis_ok p0 p m c -> zlen data < 2 ^ 62 -> (texting m = true -> has_error m = true) ->
  ok (vox_redis_parser_execute junk p m u data) (redis_post p0 m (zlen data)).
Proof.
  intros Hok Hd Ht. unfold vox_redis_parser_execute. pose proof (zlen_nonneg data). pose proof (ro_state _ _ _ _ Hok) as Hne.
  assert (forall r, -1 <= r <= zlen data + 1 -> (r = -1 -> vox_redis_parser_has_error m = true) -> redis_post p0 m (zlen data) (p, m, u, r)) as Hstay.
  { intros r Hr Hx. split; [done|]. split; [by exists c|done]. }
  destruct (zlen data =? 0). { apply Hstay; [destruct (has_error m); lia|]. unfold vox_redis_parser_has_error. by destruct (has_error m). }
  destruct (has_error m || _) eqn:Ee. { apply Hstay; [lia|]. intros _. exact Ee. }
  apply orb_false_iff in Ee as [Ee1 Ee2]. rewrite Ee1 in Ht.
  eapply ok_bind; [eapply (loop_ok _ p0 p m c u 0 data Hok); [lia|done|by intros E%Ht|lia|]|].
  { unfold work, zlen. destruct (decide (state m = VOX_REDIS_STATE_BULK_STRING_DATA)); lia. }
  intros [[[[p1 m1] u1] i1] [|]] (Hs1 & [c1 Hok1] & Hi1).
  2: { split; [done|]. split; [by exists c1|]. split; [lia|]. intros _. unfold vox_redis_parser_has_error. rewrite Hi1. by rewrite bool_decide_eq_true_2, orb_true_r. }
  eapply ok_bind; [by apply (finish_ok p0 p1 m1 c1 u1 i1)|]. intros [[[[p2 m2] u2] i2] f] (Hs2 & [c2 Hok2] & Hi2).
  split; [by eapply same_trans|]. split; [by exists c2|]. unfold vox_redis_parser_has_error. destruct f as [|].
  - destruct (bool_decide (state m2 = VOX_REDIS_STATE_ERROR_STATE)); [|split; lia]. split; [lia|]. by rewrite orb_true_r.
  - split; [lia|]. intros _. by rewrite Hi2, bool_decide_eq_true_2, orb_true_r.
Qed.

(** ** Life *)

Lemma redis_destroy_ok p0 p m c : redis_ok p0 p m c -> mp_live (vox_redis_parser_destroy p m) = mp_live p0.
Proof.
  intros Hok. destruct (redis_drop_message p0 p m c Hok) as [Hs Ho]. unfold vox_redis_parser_destroy. set (q := if _ : bool then p else _) in *.
  unfold vox_string_destroy. rewrite (str_inv_nonnull _ _ _ Hs). cbn [negb]. set (s := string_buf m) in *.
  pose proof Hs as [Hp _ _ _ _ Hown]. pose proof Hown as (Hat & Hself & Hne).
  destruct (mp_free_spec q (data_at s) Hp Hat) as [Hp1 Hl1].
  destruct (mp_free_spec (mp_free q (data_at s)) (self s) Hp1) as [Hp2 Hl2]; [by rewrite Hl1, lookup_delete_ne by done|].
  pose proof Ho as (_ & Hl & Hr). destruct (mp_free_spec _ (at_ m) Hp2) as [_ Hl3].
  { rewrite Hl2, Hl1. apply Hl. by left. }
  rewrite Hl3, Hl2, Hl1. exact Hr.
Qed.

End call.

(** ** Creation and reset *)

Section life.
Context {P U : Type} `{MPoolLaws P} (junk : Z).
Implicit Types (p : P) (m : vox_redis_parser U) (u : U) (data : list Z).

Definition idle m : Prop := state m = VOX_REDIS_STATE_START /\ array_depth m = 0 /\ has_error m = false.

Lemma string_capacity p p' s : vox_string_create junk p = Some (p', Some s) -> capacity s = VOX_STRING_DEFAULT_INITIAL_CAPACITY.
Proof.
  unfold vox_string_create, vox_string_create_with_config. destruct (mp_alloc p sizeof_string) as [p1 a1]. destruct (a1 =? NULL); [done|].
  destruct (alloc_cells junk p1 _ 1) as [[p2 a2] cells]. destruct (a2 =? NULL); [done|].
  destruct (cells.[0 <- 0]) as [cells'|]; [|done]. cbn [mbind option_bind]. by intros [= _ <-].
Qed.

Lemma redis_create_ok p p' cfg cbs m : mp_inv p -> vox_redis_parser_create junk p cfg cbs = Some (p', Some m) ->
  match cfg with Some c => max_nesting_depth c <= 64 | None => True end ->
  redis_ok p p' m [] /\ idle m /\ capacity (string_buf m) = VOX_STRING_DEFAULT_INITIAL_CAPACITY.
Proof.
  intros Hp. unfold vox_redis_parser_create. destruct (mp_alloc p sizeof_redis_parser) as [p1 a] eqn:Ea.
  destruct (Z.eqb_spec a NULL) as [|Ha]; [done|]. assert (0 <= sizeof_redis_parser < 2 ^ 64) as Hsz by done.
  destruct (mp_alloc_spec p _ p1 a Hp Hsz Ea) as [Hp1 Hlive].
  destruct Hlive as [[? _]|(_ & _ & Hfresh & k & _ & Hlive)]; [done|].
  destruct (str_create_ok junk p1 None Hp1) as (p2 & o & Ec & Hm); [done|]. change (vox_string_create_with_config junk p1 None) with (vox_string_create junk p1) in Ec.
  rewrite Ec. cbn [mbind option_bind]. destruct o as [s|]; [|done]. destruct Hm as [Hs Ho]. intros [= <- <-] Hcfg.
  split; [|split; [done|by eapply string_capacity]]. constructor; try done; cbn [string_buf config].
  - rewrite Ho, Hlive. unfold blocks, message_block. cbn [error_message at_]. rewrite decide_True by done. apply owns_add; [|done].
    split; [apply NoDup_nil_2|]. split; [by intros b ?%elem_of_nil|done].
  - destruct cfg; [done|]. by cbn.
Qed.

Lemma clear_capacity s s' : vox_string_clear s = Some s' -> capacity s' = capacity s.
Proof.
  unfold vox_string_clear. destruct (if negb _ then _ else _) as [cells|]; [|done]. cbn [mbind option_bind]. by intros [= <-].
Qed.

Lemma redis_reset_ok p0 p m c : redis_ok p0 p m c ->
  exists p' m', vox_redis_parser_reset p m = Some (p', m') /\ redis_ok p0 p' m' [] /\ idle m' /\ same m m' /\
    capacity (string_buf m') = capacity (string_buf m).
Proof.
  intros Hok. destruct (redis_drop_message p0 p m c Hok) as [Hs Ho]. unfold vox_redis_parser_reset. set (q := if _ : bool then p else _) in *.
  destruct (str_clear_ok q (string_buf m) c Hs) as (s' & Ec & Hk). rewrite Ec. cbn [mbind option_bind]. do 2 eexists. split; [done|].
  destruct Hk as (Hs' & Eo & _). destruct Hok as [_ _ ? ? ? ? ?].
  split; [|split; [done|split; [done|by apply clear_capacity]]]. constructor; try done; cbn [string_buf].
  unfold blocks, message_block. cbn [error_message at_]. rewrite decide_True by done. rewrite Eo. exact Ho.
Qed.

(** C34: One call of vox_redis_parser_execute on a parser whose configured nesting limit is at
    most the 64 places of its stack, with any bytes, fewer than 2^62, and any callbacks, in any
    state except in the middle of a line of text (simple string or error), ends without an access outside the
    data, the nesting stack or the buffer: the result is -1 with the error reported by the
    parser, or at most one more than the number of bytes. The invariant of the parser is kept,
    so that calls may follow each other, and vox_redis_parser_destroy gives every block back at
    any time. (The code does not check the limit: with 65 it writes behind the stack,
    stack_overflow.) *)
Theorem redis_execute_safe p0 p m c u data :
  redis_ok p0 p m c -> zlen data < 2 ^ 62 -> (texting m = true -> has_error m = true) ->
  exists p' m' u' r c', vox_redis_parser_execute junk p m u data = Some (p', m', u', r) /\ redis_ok p0 p' m' c' /\
    -1 <= r <= zlen data + 1 /\ (r = -1 -> vox_redis_parser_has_error m' = true) /\
    mp_live (vox_redis_parser_destroy p' m') = mp_live p0.
Proof.
  intros Hok Hd Ht. destruct (ok_Some _ _ (redis_call_ok junk p0 p m c u data Hok Hd Ht)) as ([[[p' m'] u'] r] & E & _ & [c' Hok'] & Hr & He).
  exists p', m', u', r, c'. split; [done|]. split; [done|]. split; [done|]. split; [done|]. by eapply redis_destroy_ok.
Qed.
End life.

(** ** A client that records the calls it gets *)

Inductive event :=
| Simple (l : list Z) | ErrorText (l : list Z) | Integer (v : Z) | BulkStart (n : Z) | BulkData (l : list Z) | BulkEnd
| ArrayStart (n : Z) | ElementStart (k : Z) | ElementEnd (k : Z) | ArrayEnd | Complete | ParseError (l : list Z).

Definition recorder : vox_redis_parser_callbacks_t (list event) :=
  let add0 e := Some (fun u => (u ++ [e], 0)) in
  let addz (e : Z -> event) := Some (fun v u => (u ++ [e v], 0)) in
  let addl (e : list Z -> event) := Some (fun l u => (u ++ [e l], 0)) in
  Callbacks (addl Simple) (addl ErrorText) (addz Integer) (addz BulkStart) (addl BulkData) (add0 BulkEnd) (addz ArrayStart)
    (addz ElementStart) (addz ElementEnd) (add0 ArrayEnd) (add0 Complete) (addl ParseError).

(** ** Replies *)

Definition CRLF : list Z := [13; 10].

(** [number t v]: the text [t] is a sign, or none, and decimal digits, and its value is [v]. *)
Definition numeral (l : list Z) : Z := foldl (fun a ch => a * 10 + (ch - 48)) 0 l.
Definition number (t : list Z) (v : Z) : Prop :=
  zlen t <= 31 /\ exists sign ds, t = sign ++ ds /\ (sign = [] \/ sign = [43] \/ sign = [45]) /\ ds <> [] /\
    forallb isdigit ds = true /\ numeral ds <= INT64_MAX /\ v = if decide (sign = [45]) then - numeral ds else numeral ds.

(** A value that is not an array, with the texts of its numbers. *)
Inductive value := VInt (t : list Z) (v : Z) | VBulk (t l : list Z).

(** A reply: a value, nothing, or an array of values. *)
Inductive reply :=
| Single (x : value)
| NullBulk (t : list Z)
| NullArray (t : list Z)
| EmptyArray (t : list Z)
| Values (t : list Z) (xs : list value).

Definition value_bytes (x : value) : list Z :=
  match x with VInt t _ => 58 :: t ++ CRLF | VBulk t l => 36 :: t ++ CRLF ++ l ++ CRLF end.
Definition reply_bytes (r : reply) : list Z :=
  match r with
  | Single x => value_bytes x
  | NullBulk t => 36 :: t ++ CRLF
  | NullArray t | EmptyArray t => 42 :: t ++ CRLF
  | Values t xs => 42 :: t ++ CRLF ++ concat (value_bytes <$> xs)
  end.

Definition value_calls (x : value) : list event :=
  match x with
  | VInt _ v => [Integer v]
  | VBulk _ l => BulkStart (zlen l) :: match l with [] => [] | _ => [BulkData l] end ++ [BulkEnd]
  end.

(** The values of an array from the element [k] on. *)
Fixpoint element_calls (k : Z) (xs : list value) : list event :=
  match xs with [] => [] | x :: xs => value_calls x ++ ElementEnd k :: element_calls (k + 1) xs end.

Definition reply_events (r : reply) : list event :=
  match r with
  | Single x => value_calls x
  | NullBulk _ => [BulkStart (-1); BulkEnd]
  | NullArray _ => [ArrayStart (-1); ArrayEnd]
  | EmptyArray _ => [ArrayStart 0; ArrayEnd]
  | Values _ xs => ArrayStart (zlen xs) :: ElementStart 0 :: element_calls 0 xs
  end.
Definition reply_calls (r : reply) : list event := reply_events r ++ [Complete].

(** The length of a bulk string is announced, and within the limit. *)
Definition value_ok (cfg : vox_redis_parser_config_t) (x : value) : Prop :=
  match x with
  | VInt t v => number t v
  | VBulk t l => number t (zlen l) /\ (0 < max_bulk_string_size cfg -> zlen l <= max_bulk_string_size cfg)
  end.
Definition reply_ok (cfg : vox_redis_parser_config_t) (r : reply) : Prop :=
  match r with
  | Single x => value_ok cfg x
  | NullBulk t => number t (-1)
  | NullArray t => number t (-1)
  | EmptyArray t => number t 0 /\ 0 < max_nesting_depth cfg
  | Values t xs => number t (zlen xs) /\ xs <> [] /\ 0 < max_nesting_depth cfg /\ Forall (value_ok cfg) xs /\
                   (0 < max_array_size cfg -> zlen xs <= max_array_size cfg)
  end.

Lemma number_digits t v : number t v -> Forall (fun ch => ch <> 13) t /\ t <> [].
Proof.
  intros (_ & sign & ds & -> & Hs & Hne & Hd & _). split.
  - apply Forall_app. split; [destruct Hs as [-> |[-> | ->]]; repeat constructor; lia|].
    apply Forall_forall. intros ch Hc ->. rewrite forallb_forall in Hd. specialize (Hd 13). rewrite <-list_elem_of_In in Hd. by specialize (Hd Hc).
  - intros [_ ?]%app_nil. done.
Qed.

Lemma numeral_mono l a : forallb isdigit l = true -> 0 <= a -> a <= foldl (fun a ch => a * 10 + (ch - 48)) a l.
Proof.
  revert a. induction l as [|ch l IH]; intros a Hd Ha; [cbn; lia|]. cbn [forallb foldl] in *. apply andb_true_iff in Hd as [Hc Hl].
  unfold isdigit in Hc. apply andb_true_iff in Hc as [?%Z.leb_le ?%Z.leb_le]. specialize (IH (a * 10 + (ch - 48)) Hl). lia.
Qed.

Lemma digits_loop_spec l a : forallb isdigit l = true -> 0 <= a -> foldl (fun a ch => a * 10 + (ch - 48)) a l <= INT64_MAX ->
  digits_loop l a = Some (foldl (fun a ch => a * 10 + (ch - 48)) a l).
Proof.
  revert a. induction l as [|ch l IH]; intros a Hd Ha Hb; [done|]. cbn [forallb foldl digits_loop] in *.
  apply andb_true_iff in Hd as [Hc Hl]. rewrite Hc. cbn [negb]. unfold isdigit in Hc. apply andb_true_iff in Hc as [?%Z.leb_le ?%Z.leb_le].
  pose proof (numeral_mono l (a * 10 + (ch - 48)) Hl ltac:(lia)) as Hm.
  rewrite (proj2 (Z.ltb_ge _ _)) by (unfold INT64_MAX in *; dlia). apply IH; [done|lia|done].
Qed.

Lemma number_parsed t v : number t v -> parse_integer t = Some v.
Proof.
  intros (_ & sign & ds & -> & Hs & Hne & Hd & Hb & ->). unfold parse_integer. destruct ds as [|d ds]; [done|].
  pose proof (digits_loop_spec _ 0 Hd ltac:(lia) Hb) as E. fold (numeral (d :: ds)) in E.
  destruct Hs as [-> |[-> | ->]]; cbn [app]; [| |].
  - cbn [forallb] in Hd. apply andb_true_iff in Hd as [Hc _]. unfold isdigit in Hc. apply andb_true_iff in Hc as [?%Z.leb_le ?%Z.leb_le].
    rewrite (proj2 (Z.eqb_neq d 45)), (proj2 (Z.eqb_neq d 43)) by lia. cbn [orb]. rewrite E. cbn [mbind option_bind]. by rewrite decide_False.
  - cbn [Z.eqb Pos.eqb orb]. rewrite E. done.
  - cbn [Z.eqb Pos.eqb orb]. rewrite E. cbn [mbind option_bind]. by rewrite decide_True.
Qed.

(** ** Reading a reply that is in one piece *)

Section reading.
Context {P : Type} `{MPoolLaws P} (junk : Z).
Implicit Types (p : P) (m : vox_redis_parser (list event)) (u : list event) (i : Z) (c data t rest : list Z).

(** A text for which the block has room is added without a new block. *)
Lemma append_fits p s c l rest : str_inv p s c -> l <> [] -> zlen l <= 2 ^ 62 -> zlen c + zlen l + 1 <= capacity s ->
  exists s', vox_string_append_data junk p s (Mem (l ++ rest)) (zlen l) = Some (p, s', 0) /\
    str_inv p s' (c ++ l) /\ capacity s' = capacity s.
Proof.
  intros Hs Hne Hsm Hroom. pose proof (str_inv_room _ _ _ Hs) as (_ & ? & ?). pose proof (zlen_nonneg l). pose proof (zlen_nonneg rest).
  assert (zlen l <> 0) as Hz by (by destruct l).
  assert (forall p' s' r, vox_string_append_data junk p s (Mem (l ++ rest)) (zlen l) = Some (p', s', r) ->
    p' = p /\ capacity s' = capacity s /\ r = 0) as Hsame.
  { intros p' s' r. unfold vox_string_append_data, ensure_capacity. cbn [is_null orb]. rewrite (proj2 (Z.eqb_neq (zlen l) 0)) by done.
    rewrite (si_len _ _ _ Hs), (u64_small (zlen c + zlen l + 1)) by lia. rewrite (proj2 (Z.leb_le (zlen c + zlen l + 1) _)) by lia. cbn [mbind option_bind negb Z.eqb].
    destruct (if zlen l <=? 16 then _ else _) as [cells|]; [|done]. cbn [mbind option_bind]. destruct (cells.[_ <- 0]) as [cells'|]; [|done].
    cbn [mbind option_bind]. by intros [= <- <- <-]. }
  destruct (append_data_ok junk p s c (Mem (l ++ rest)) (zlen l) Hs) as (p' & s' & r & c' & E & (Hs' & _) & Hc).
  { split; [|rewrite zlen_app]; lia. }
  destruct (Hsame _ _ _ E) as (-> & Hcap & ->). exists s'. split; [done|]. split; [|done]. destruct Hc as [Hc|(? & _)]; [|done].
  cbn [VString.bytes_of] in Hc. replace (Z.to_nat (zlen l)) with (length l) in Hc by (unfold zlen; lia).
  rewrite take_app_length in Hc. destruct l as [|x l]; [done|]. rewrite insert_spec_end in Hc. injection Hc as ->. exact Hs'.
Qed.

Lemma crlf_found_from pre t rest i : Forall (fun ch => ch <> 13) t -> forall n, (length t + 2 <= n)%nat ->
  find_crlf_loop (pre ++ t ++ CRLF ++ rest) (zlen pre - i) n i = Some (Some (i + zlen t)).
Proof.
  revert pre i. induction t as [|ch t IH]; intros pre i Hno [|[|n]] Hn; cbn [length] in Hn; try lia; cbn [find_crlf_loop].
  - assert ((pre ++ [] ++ CRLF ++ rest).[zlen pre - i + i] = Some 13) as -> by (apply arr_get_app; lia).
    assert ((pre ++ [] ++ CRLF ++ rest).[zlen pre - i + i + 1] = Some 10) as ->.
    { cbn [app CRLF]. rewrite (cons_middle 13 pre), app_assoc. apply arr_get_app. rewrite zlen_app, zlen_cons, zlen_nil. lia. }
    cbn [mbind option_bind Z.eqb Pos.eqb]. rewrite zlen_nil. do 2 f_equal. lia.
  - apply Forall_cons in Hno as [Hch Hno]. change ((ch :: t) ++ CRLF ++ rest) with (ch :: t ++ CRLF ++ rest).
    assert ((pre ++ ch :: t ++ CRLF ++ rest).[zlen pre - i + i] = Some ch) as -> by (apply arr_get_app; lia).
    cbn [mbind option_bind]. rewrite (proj2 (Z.eqb_neq ch 13)) by done.
    change (find_crlf_loop (pre ++ ch :: t ++ CRLF ++ rest) (zlen pre - i) (S n) (i + 1) = Some (Some (i + zlen (ch :: t)))).
    rewrite (cons_middle ch pre), app_assoc. replace (zlen pre - i) with (zlen (pre ++ [ch]) - (i + 1)) by (rewrite zlen_app, zlen_cons, zlen_nil; lia).
    rewrite IH by (done || lia). rewrite zlen_cons. do 2 f_equal. lia.
Qed.

Lemma crlf_found pre t rest : Forall (fun ch => ch <> 13) t ->
  find_crlf (pre ++ t ++ CRLF ++ rest) (zlen pre) (zlen (t ++ CRLF ++ rest)) = Some (Some (zlen t)).
Proof.
  intros Hno. unfold find_crlf. pose proof (crlf_found_from pre t rest 0 Hno (Z.to_nat (zlen (t ++ CRLF ++ rest)))) as E.
  rewrite Z.sub_0_r in E. apply E. unfold zlen. rewrite !length_app. cbn. lia.
Qed.

(** The parser between two values: its buffer has room for the text of a number. *)
Definition ready p m : Prop :=
  (exists c, str_inv p (string_buf m) c) /\ 32 <= capacity (string_buf m) /\ callbacks m = recorder.

(** What a value leaves as it was. *)
Definition same_frame m m' : Prop := same m m' /\ array_stack m' = array_stack m /\ array_depth m' = array_depth m.

Lemma same_frame_trans m m1 m2 : same_frame m m1 -> same_frame m1 m2 -> same_frame m m2.
Proof. intros (Ha & ? & ?) (Hb & ? & ?). split; [by eapply same_trans|]. split; congruence. Qed.

Lemma ready_fields p m m' : ready p m -> string_buf m' = string_buf m -> callbacks m' = callbacks m -> ready p m'.
Proof. unfold ready. by intros ? -> ->. Qed.

Lemma clear_ready p m : ready p m ->
  exists m', clear m = Some m' /\ ready p m' /\ str_inv p (string_buf m') [] /\ m' = with_buf m (string_buf m').
Proof.
  intros ([c Hs] & Hcap & Hcb). unfold clear. destruct (str_clear_ok p (string_buf m) c Hs) as (s' & E & Hs' & _).
  rewrite E. cbn [mbind option_bind]. eexists. split; [done|]. cbn [string_buf with_buf]. split; [|done].
  split; [by eexists|]. cbn [string_buf with_buf]. by rewrite (clear_capacity _ _ E).
Qed.

Lemma gathered_text p m t : str_inv p (string_buf m) t -> gathered m = Some t.
Proof.
  intros Hs. unfold gathered, vox_string_cstr, vox_string_length. rewrite (str_inv_nonnull _ _ _ Hs).
  destruct Hs as [_ [r Hd] Hl _ _ _]. rewrite Hl, Hd. by apply (arr_slice_mid [] t (0 :: r)).
Qed.

(** The line of a number. *)
Lemma number_read p m u pre t v rest k1 k2 k : ready p m -> str_inv p (string_buf m) [] -> number t v ->
  exists m', number_step junk p m u (zlen pre) (pre ++ t ++ CRLF ++ rest) k1 k2 k = k p m' v (zlen (pre ++ t ++ CRLF)) /\
    ready p m' /\ m' = with_buf m (string_buf m').
Proof.
  intros ([c0 _] & Hcap & Hcb) Hs Hn. pose proof (number_digits t v Hn) as [Hno Hne]. unfold number_step.
  assert (zlen t <> 0) by (by destruct t). pose proof (zlen_nonneg t).
  replace (zlen (pre ++ t ++ CRLF ++ rest) - zlen pre) with (zlen (t ++ CRLF ++ rest)) by (rewrite (zlen_app pre); lia).
  rewrite crlf_found by done. cbn [mbind option_bind]. rewrite (proj2 (Z.ltb_lt 0 _)) by lia. unfold accumulate.
  replace (Z.to_nat (zlen pre)) with (length pre) by (unfold zlen; lia). rewrite drop_app_length.
  destruct (append_fits p (string_buf m) [] t (CRLF ++ rest) Hs Hne) as (s' & -> & Hs' & Hc'); [destruct Hn; rewrite ?zlen_nil; lia..|].
  cbn [mbind option_bind negb Z.eqb app]. exists (with_buf m s').
  rewrite (gathered_text p (with_buf m s') t) by done.
  cbn [mbind option_bind]. rewrite (number_parsed t v Hn). split; [f_equal; unfold CRLF; zlia|]. split; [|done].
  split; [by eexists|]. cbn [string_buf with_buf callbacks]. split; [lia|done].
Qed.

(** [reaches data w w']: the loop comes from [w] to [w']. *)
Definition reaches data p m u i p' m' u' i' : Prop :=
  exists n, forall fuel, loop junk (n + fuel) p m u i data = loop junk fuel p' m' u' i' data.

Lemma reaches_refl data p m u i : reaches data p m u i p m u i.
Proof. by exists O. Qed.

Lemma reaches_trans data p m u i p1 m1 u1 i1 p2 m2 u2 i2 :
  reaches data p m u i p1 m1 u1 i1 -> reaches data p1 m1 u1 i1 p2 m2 u2 i2 -> reaches data p m u i p2 m2 u2 i2.
Proof. intros [n Hn] [k Hk]. exists (n + k)%nat. intros fuel. by rewrite <-Nat.add_assoc, Hn, Hk. Qed.

Lemma reaches_step data p m u i p1 m1 u1 i1 p2 m2 u2 i2 : i < zlen data -> ended m = false ->
  step junk p m u i data = Some (p1, m1, u1, i1, Go) -> reaches data p1 m1 u1 i1 p2 m2 u2 i2 -> reaches data p m u i p2 m2 u2 i2.
Proof.
  intros Hi He Es [n Hn]. exists (S n). intros fuel. cbn [Nat.add loop]. rewrite (proj2 (Z.ltb_lt _ _)), He by done.
  cbn [andb negb]. rewrite Es. cbn [mbind option_bind]. apply Hn.
Qed.


(** The byte of a type. *)
Definition opens (ch : Z) (st : vox_redis_parser_state_t) : Prop :=
  ch = 43 /\ st = VOX_REDIS_STATE_SIMPLE_STRING \/ ch = 45 /\ st = VOX_REDIS_STATE_ERROR \/ ch = 58 /\ st = VOX_REDIS_STATE_INTEGER \/
  ch = 36 /\ st = VOX_REDIS_STATE_BULK_STRING_LEN \/ ch = 42 /\ st = VOX_REDIS_STATE_ARRAY_COUNT.

Lemma entered p m u pre ch st rest : ready p m -> state m = VOX_REDIS_STATE_START -> opens ch st ->
  exists m', step junk p m u (zlen pre) (pre ++ ch :: rest) = Some (p, m', u, zlen (pre ++ [ch]), Go) /\
    ready p m' /\ str_inv p (string_buf m') [] /\ state m' = st /\ same_frame m m'.
Proof.
  intros Hr Hst Ho. unfold step, start_step. rewrite Hst, arr_get_app by done. cbn [mbind option_bind].
  replace (zlen (pre ++ [ch])) with (zlen pre + 1) by (rewrite zlen_app; done).
  destruct Ho as [(-> & ->)|[(-> & ->)|[(-> & ->)|[(-> & ->)|(-> & ->)]]]]; cbn [Z.eqb Pos.eqb];
    match goal with |- context [clear ?w] => destruct (clear_ready p w) as (m' & -> & Hr' & Hs' & E); [by eapply ready_fields|] end;
    cbn [mbind option_bind]; (exists m'; split; [done|]; split; [done|]; split; [done|]; rewrite E; done).
Qed.

(** One more step, from a position of the data given by what is in front of it. *)
Lemma reaches_at data pre rest p m u p1 m1 u1 i1 p2 m2 u2 i2 : data = pre ++ rest -> rest <> [] -> ended m = false ->
  step junk p m u (zlen pre) data = Some (p1, m1, u1, i1, Go) -> reaches data p1 m1 u1 i1 p2 m2 u2 i2 ->
  reaches data p m u (zlen pre) p2 m2 u2 i2.
Proof.
  intros -> Hne He Es Hr. eapply reaches_step; [|done|done|done]. rewrite zlen_app. destruct rest; [done|]. rewrite zlen_cons.
  pose proof (zlen_nonneg rest). lia.
Qed.

Lemma ended_state m : state m <> VOX_REDIS_STATE_COMPLETE -> state m <> VOX_REDIS_STATE_ERROR_STATE -> ended m = false.
Proof. intros ??. unfold ended. by rewrite !bool_decide_eq_false_2. Qed.

Lemma int_read p m u pre t v rest : ready p m -> str_inv p (string_buf m) [] -> state m = VOX_REDIS_STATE_INTEGER -> number t v ->
  exists m', step junk p m u (zlen pre) (pre ++ t ++ CRLF ++ rest) = value_done p m' (u ++ [Integer v]) (zlen (pre ++ t ++ CRLF)) /\
    ready p m' /\ same_frame m m'.
Proof.
  intros Hr Hs Hst Hn. unfold step, integer_step. rewrite Hst.
  destruct (number_read p m u pre t v rest "Failed to accumulate integer" "Invalid integer format" (fun p m value next =>
    checked p m (zlen pre) (call1 (on_integer (callbacks m)) value u) (fun u => value_done p m u next)) Hr Hs Hn) as (m' & -> & Hr' & E).
  exists m'. destruct Hr' as (? & ? & Hcb). rewrite Hcb. split; [done|]. split; [done|]. by rewrite E.
Qed.

Lemma bulk_announced p m u pre t l rest : ready p m -> str_inv p (string_buf m) [] -> state m = VOX_REDIS_STATE_BULK_STRING_LEN ->
  value_ok (config m) (VBulk t l) ->
  exists m', step junk p m u (zlen pre) (pre ++ t ++ CRLF ++ rest) = Some (p, m', u ++ [BulkStart (zlen l)], zlen (pre ++ t ++ CRLF), Go) /\
    ready p m' /\ state m' = VOX_REDIS_STATE_BULK_STRING_DATA /\ bulk_string_len m' = zlen l /\ same_frame m m'.
Proof.
  intros Hr Hs Hst [Hn Hmax]. unfold step, bulk_len_step. rewrite Hst. pose proof (zlen_nonneg l).
  pose proof (integer_range _ _ (number_parsed _ _ Hn)) as Hv.
  edestruct (number_read p m u pre t (zlen l) rest) as (m1 & -> & Hr1 & E1); [done..|].
  rewrite (proj2 (Z.eqb_neq (zlen l) (-1))) by lia. assert (config m1 = config m) as Ec by (by rewrite E1).
  destruct ((0 <? _) && _) eqn:El.
  { exfalso. apply andb_true_iff in El as [Hp%Z.ltb_lt Hl%Z.ltb_lt]. cbn [config with_bulk] in *. rewrite Ec in *. rewrite u64_small in Hl; lia. }
  pose proof Hr1 as (_ & _ & Hcb). cbn [callbacks with_bulk]. rewrite Hcb. cbn [recorder on_bulk_string_start call1 checked negb Z.eqb].
  match goal with |- context [clear ?w] => destruct (clear_ready p w) as (m' & -> & Hr' & Hs' & E); [by apply (ready_fields p m1)|] end.
  cbn [mbind option_bind]. exists m'. split; [done|]. split; [done|]. rewrite E. split; [done|]. split; [done|]. by rewrite E1.
Qed.

Lemma bulk_taken p m u pre l rest : ready p m -> state m = VOX_REDIS_STATE_BULK_STRING_DATA -> bulk_string_len m = zlen l ->
  zlen l < 2 ^ 63 ->
  exists m', step junk p m u (zlen pre) (pre ++ l ++ rest) =
      Some (p, m', u ++ match l with [] => [] | _ => [BulkData l] end, zlen (pre ++ l), Go) /\
    ready p m' /\ state m' = VOX_REDIS_STATE_CR /\ same_frame m m'.
Proof.
  intros Hr Hst Hb Hl. pose proof Hr as (_ & _ & Hcb). unfold step, bulk_data_step. rewrite Hst, Hb, Hcb.
  pose proof (zlen_nonneg l). pose proof (zlen_nonneg rest). rewrite (u64_small (zlen l)) by lia.
  rewrite (proj2 (Z.ltb_ge _ (zlen l))) by (rewrite !zlen_app; lia). rewrite Z.sub_diag. change (s64 0) with 0.
  cbn [recorder on_bulk_string_data bulk_string_len with_bulk Z.eqb]. rewrite zlen_app.
  exists (with_state (with_bulk m 0) VOX_REDIS_STATE_CR). split; [|split; [by eapply ready_fields|done]].
  destruct (Z.ltb_spec 0 (zlen l)) as [Hp|Hz].
  - rewrite (arr_slice_mid pre l rest) by done. cbn [mbind option_bind checked negb Z.eqb]. by destruct l.
  - destruct l; [by rewrite app_nil_r|]. rewrite zlen_cons in Hz. pose proof (zlen_nonneg l). lia.
Qed.

Lemma bulk_closed p m u pre rest data : ready p m -> state m = VOX_REDIS_STATE_CR -> data = pre ++ CRLF ++ rest ->
  exists m', ready p m' /\ same_frame m m' /\ forall p2 m2 u2,
    value_done p m' (u ++ [BulkEnd]) (zlen (pre ++ CRLF)) = Some (p2, m2, u2, zlen (pre ++ CRLF), Go) ->
    reaches data p m u (zlen pre) p2 m2 u2 (zlen (pre ++ CRLF)).
Proof.
  intros Hr Hst ->. set (m1 := with_state m VOX_REDIS_STATE_LF). exists m1. split; [by eapply ready_fields|]. split; [done|]. intros p2 m2 u2 Hv.
  assert (step junk p m u (zlen pre) (pre ++ CRLF ++ rest) = Some (p, m1, u, zlen pre + 1, Go)) as Es.
  { unfold step, cr_step. rewrite Hst. cbn [CRLF app]. by rewrite arr_get_app. }
  eapply (reaches_at _ pre); [done|done|by apply ended_state; rewrite Hst|exact Es|].
  replace (zlen pre + 1) with (zlen (pre ++ [13])) by (rewrite zlen_app; done).
  eapply (reaches_at _ (pre ++ [13]) (10 :: rest)); [by rewrite <-app_assoc|done|done| |apply reaches_refl].
  unfold step, lf_step. cbn [state with_state m1]. assert ((pre ++ CRLF ++ rest).[zlen (pre ++ [13])] = Some 10) as ->.
  { cbn [CRLF app]. rewrite (cons_middle 13 pre), app_assoc. by apply arr_get_app. }
  cbn [mbind option_bind Z.eqb Pos.eqb]. pose proof Hr as (_ & _ & Hcb). unfold m1. cbn [callbacks with_state]. rewrite Hcb.
  cbn [recorder on_bulk_string_complete call0 checked negb Z.eqb]. rewrite <-Hv. f_equal. unfold CRLF. zlia.
Qed.


Ltac assoc := by rewrite <-?app_assoc; cbn [app]; rewrite <-?app_assoc.

Lemma int_run p m u pre t v rest data : ready p m -> state m = VOX_REDIS_STATE_START -> number t v ->
  data = pre ++ 58 :: t ++ CRLF ++ rest ->
  exists m1, ready p m1 /\ same_frame m m1 /\ forall p2 m2 u2 i2,
    value_done p m1 (u ++ [Integer v]) (zlen (pre ++ 58 :: t ++ CRLF)) = Some (p2, m2, u2, i2, Go) ->
    reaches data p m u (zlen pre) p2 m2 u2 i2.
Proof.
  intros Hr Hst Hn D. destruct (entered p m u pre 58 VOX_REDIS_STATE_INTEGER (t ++ CRLF ++ rest) Hr Hst) as (m1 & E1 & Hr1 & Hs1 & Hst1 & Hf1);
    [unfold opens; tauto|].
  destruct (int_read p m1 u (pre ++ [58]) t v rest Hr1 Hs1 Hst1 Hn) as (m2 & E2 & Hr2 & Hf2).
  exists m2. split; [done|]. split; [by eapply same_frame_trans|]. intros p3 m3 u3 i3 Hv. rewrite <-D in E1.
  eapply reaches_at; [exact D|done|by apply ended_state; rewrite Hst|exact E1|].
  assert (data = (pre ++ [58]) ++ t ++ CRLF ++ rest) as D2 by (rewrite D; assoc). rewrite <-D2, <-app_assoc in E2. cbn [app] in E2. rewrite Hv in E2.
  eapply (reaches_at _ (pre ++ [58])); [exact D2|by destruct t|by apply ended_state; rewrite Hst1|exact E2|apply reaches_refl].
Qed.

Lemma bulk_run p m u pre t l rest data : ready p m -> state m = VOX_REDIS_STATE_START -> value_ok (config m) (VBulk t l) ->
  data = pre ++ 36 :: t ++ CRLF ++ l ++ CRLF ++ rest ->
  exists m1, ready p m1 /\ same_frame m m1 /\ forall p2 m2 u2 (i2 := zlen (pre ++ 36 :: t ++ CRLF ++ l ++ CRLF)),
    value_done p m1 (u ++ value_calls (VBulk t l)) i2 = Some (p2, m2, u2, i2, Go) ->
    reaches data p m u (zlen pre) p2 m2 u2 i2.
Proof.
  intros Hr Hst Hok D. destruct (entered p m u pre 36 VOX_REDIS_STATE_BULK_STRING_LEN (t ++ CRLF ++ l ++ CRLF ++ rest) Hr Hst)
    as (m1 & E1 & Hr1 & Hs1 & Hst1 & Hf1); [unfold opens; tauto|].
  assert (value_ok (config m1) (VBulk t l)) as Hok1 by (destruct Hf1 as ((_ & _ & ->) & _); exact Hok).
  destruct (bulk_announced p m1 u (pre ++ [36]) t l (l ++ CRLF ++ rest) Hr1 Hs1 Hst1 Hok1) as (m2 & E2 & Hr2 & Hst2 & Hb2 & Hf2).
  set (pre2 := (pre ++ [36]) ++ t ++ CRLF) in *. set (pre3 := pre2 ++ l).
  destruct (bulk_taken p m2 (u ++ [BulkStart (zlen l)]) pre2 l (CRLF ++ rest) Hr2 Hst2 Hb2) as (m3 & E3 & Hr3 & Hst3 & Hf3).
  { apply (integer_range t), number_parsed, Hok. }
  assert (data = (pre ++ [36]) ++ t ++ CRLF ++ l ++ CRLF ++ rest) as D1 by (rewrite D; assoc).
  assert (data = pre2 ++ l ++ CRLF ++ rest) as D2 by (rewrite D1; unfold pre2; assoc).
  assert (data = pre3 ++ CRLF ++ rest) as D3 by (rewrite D2; unfold pre3; assoc).
  rewrite <-D in E1. rewrite <-D1 in E2. rewrite <-D2 in E3. set (u3 := (u ++ [BulkStart (zlen l)]) ++ _) in *.
  destruct (bulk_closed p m3 u3 pre3 rest data Hr3 Hst3 D3) as (m4 & Hr4 & Hf4 & Hend).
  exists m4. split; [done|]. split; [by do 3 (eapply same_frame_trans; [first [exact Hf1|exact Hf2|exact Hf3]|])|]. intros p5 m5 u5 i5 Hv.
  assert (i5 = zlen (pre3 ++ CRLF)) as Hi by (unfold i5, pre3, pre2; f_equal; assoc).
  assert (u ++ value_calls (VBulk t l) = u3 ++ [BulkEnd]) as Hu by (unfold u3; cbn [value_calls]; assoc).
  clearbody i5. subst i5. rewrite Hu in Hv.
  eapply reaches_at; [exact D|done|by apply ended_state; rewrite Hst|exact E1|].
  eapply reaches_at; [exact D1|by destruct t|by apply ended_state; rewrite Hst1|exact E2|].
  eapply reaches_at; [exact D2|by destruct l|by apply ended_state; rewrite Hst2|exact E3|]. by apply Hend.
Qed.

Lemma value_run p m u pre x rest data : ready p m -> state m = VOX_REDIS_STATE_START -> value_ok (config m) x ->
  data = pre ++ value_bytes x ++ rest ->
  exists m1, ready p m1 /\ same_frame m m1 /\ forall p2 m2 u2 (i2 := zlen (pre ++ value_bytes x)),
    value_done p m1 (u ++ value_calls x) i2 = Some (p2, m2, u2, i2, Go) ->
    reaches data p m u (zlen pre) p2 m2 u2 i2.
Proof.
  intros Hr Hst Hok D. destruct x as [t v|t l]; cbn [value_bytes] in *.
  - destruct (int_run p m u pre t v rest data Hr Hst Hok) as (m1 & Hr1 & Hf1 & Hx); [rewrite D; assoc|]. exists m1. split; [done|]. split; [done|].
    intros. by apply Hx.
  - apply (bulk_run p m u pre t l rest data Hr Hst Hok). rewrite D. assoc.
Qed.

(** Behind a value: the end, the next element, or the end of the array. *)
Lemma done_single p m u i : array_depth m = 0 -> value_done p m u i = Some (p, with_state m VOX_REDIS_STATE_COMPLETE, u, i, Go).
Proof. intros E. unfold value_done. by rewrite E. Qed.

Lemma done_element p m u i n k e st : array_depth m = 1 -> array_stack m = Frame n k e :: st -> callbacks m = recorder ->
  0 <= k < n -> n < 2 ^ 63 ->
  let m1 := with_stack m (Frame n (k + 1) e :: st) 1 in
  value_done p m u i = Some (p, if k + 1 <? n then with_state m1 VOX_REDIS_STATE_START
    else with_state (with_stack m1 (array_stack m1) 0) VOX_REDIS_STATE_COMPLETE, u ++ [ElementEnd k], i, Go).
Proof.
  intros Hd Hs Hcb Hk Hn m1. unfold value_done. rewrite Hd, Hs. cbn [Z.ltb Z.compare]. change (1 - 1) with 0.
  change (arr_get (Frame n k e :: st) 0) with (Some (Frame n k e)). cbn [mbind option_bind count current expected_len].
  rewrite (u64_small (k + 1)) by lia. change (arr_set (Frame n k e :: st) 0 (Frame n (k + 1) e)) with (Some (Frame n (k + 1) e :: st)).
  cbn [mbind option_bind count current callbacks with_stack]. rewrite Hcb. cbn [recorder on_array_element_complete call1 checked negb Z.eqb].
  rewrite u64_small by lia. replace (k + 1 - 1) with k by lia. rewrite s64_small by lia. by destruct (k + 1 <? n).
Qed.

(** The elements of an array, from the element [k] on. *)
Lemma elements_run xs : forall p m u pre k n e st rest data, ready p m -> state m = VOX_REDIS_STATE_START ->
  Forall (value_ok (config m)) xs -> xs <> [] -> array_depth m = 1 -> array_stack m = Frame n k e :: st -> 0 <= k ->
  n = k + zlen xs -> n < 2 ^ 63 -> data = pre ++ concat (value_bytes <$> xs) ++ rest ->
  exists m', same m m' /\ state m' = VOX_REDIS_STATE_COMPLETE /\ array_depth m' = 0 /\
    reaches data p m u (zlen pre) p m' (u ++ element_calls k xs) (zlen (pre ++ concat (value_bytes <$> xs))).
Proof.
  induction xs as [|x xs IH]; intros p m u pre k n e st rest data Hr Hst Hok Hne Hd Hs Hk Hn Hm D; [done|].
  apply Forall_cons in Hok as [Hx Hok]. cbn [fmap list_fmap concat] in D |- *. rewrite zlen_cons in Hn. pose proof (zlen_nonneg xs).
  destruct (value_run p m u pre x (concat (value_bytes <$> xs) ++ rest) data Hr Hst Hx) as (m1 & Hr1 & (Hsm & Hs1 & Hd1) & Hx1); [rewrite D; assoc|].
  rewrite Hd in Hd1. rewrite Hs in Hs1. pose proof Hr1 as (_ & _ & Hcb).
  specialize (Hx1 _ _ _ (done_element p m1 _ _ n k e st Hd1 Hs1 Hcb ltac:(lia) Hm)). cbv zeta in Hx1.
  cbn [element_calls]. destruct (Z.ltb_spec (k + 1) n) as [Hlt|Hge].
  - set (m2 := with_state _ VOX_REDIS_STATE_START) in Hx1.
    assert (same m m2) as Hsm2 by exact Hsm.
    destruct (IH p m2 ((u ++ value_calls x) ++ [ElementEnd k]) (pre ++ value_bytes x) (k + 1) n e st rest data) as (m3 & Hsm3 & Hst3 & Hd3 & Hx3);
      [by eapply ready_fields|done|by destruct Hsm2 as (_ & _ & ->)|intros ->; rewrite zlen_nil in *; lia|done|done|lia|lia|done|rewrite D; assoc|].
    exists m3. split; [by eapply same_trans|]. split; [done|]. split; [done|]. eapply reaches_trans; [exact Hx1|].
    replace (u ++ value_calls x ++ ElementEnd k :: element_calls (k + 1) xs)
      with (((u ++ value_calls x) ++ [ElementEnd k]) ++ element_calls (k + 1) xs) by assoc.
    rewrite app_assoc. exact Hx3.
  - destruct xs as [|y xs]; [|rewrite zlen_cons in Hn; pose proof (zlen_nonneg xs); lia]. cbn [fmap list_fmap concat element_calls] in *.
    match type of Hx1 with reaches _ _ _ _ _ _ ?w _ _ => exists w end. split; [exact Hsm|]. split; [done|]. split; [done|]. rewrite app_nil_r. rewrite app_assoc. exact Hx1.
Qed.

(** The line that announces an array. *)
Definition count_ok (cfg : vox_redis_parser_config_t) (v : Z) : Prop :=
  v = -1 \/ 0 <= v /\ 0 < max_nesting_depth cfg /\ (0 < max_array_size cfg -> v <= max_array_size cfg).

Lemma array_announced p m u pre t v rest fr0 st : ready p m -> str_inv p (string_buf m) [] -> state m = VOX_REDIS_STATE_ARRAY_COUNT ->
  array_depth m = 0 -> array_stack m = fr0 :: st -> number t v -> count_ok (config m) v ->
  exists m', step junk p m u (zlen pre) (pre ++ t ++ CRLF ++ rest) =
      Some (p, m', u ++ ArrayStart v :: (if 0 <? v then [ElementStart 0] else [ArrayEnd]), zlen (pre ++ t ++ CRLF), Go) /\
    ready p m' /\ same m m' /\
    if 0 <? v then state m' = VOX_REDIS_STATE_START /\ array_depth m' = 1 /\ array_stack m' = Frame v 0 (expected_len fr0) :: st
    else state m' = VOX_REDIS_STATE_COMPLETE /\ array_depth m' = 0.
Proof.
  intros Hr Hs Hst Hd Hfr Hn Hv. unfold step, array_count_step. rewrite Hst.
  pose proof (integer_range _ _ (number_parsed _ _ Hn)) as Hi.
  edestruct (number_read p m u pre t v rest) as (m1 & -> & Hr1 & E1); [done..|].
  assert (config m1 = config m /\ array_depth m1 = 0 /\ array_stack m1 = fr0 :: st) as (Ec & Ed & Es) by (by rewrite E1).
  pose proof Hr1 as (_ & _ & Hcb). assert (same m m1) as Hsm by (by rewrite E1). cbv zeta.
  destruct (Z.eqb_spec v (-1)) as [->|Hv1].
  { cbn [Z.ltb Z.compare callbacks with_count]. rewrite Hcb. cbn [recorder on_array_start on_array_complete call0 call1 checked negb Z.eqb callbacks with_count].
    exists (with_state (with_count m1 (-1)) VOX_REDIS_STATE_COMPLETE). split; [by rewrite <-app_assoc|]. split; [by eapply ready_fields|done]. }
  destruct Hv as [?|(Hv0 & Hnest & Hmax)]; [done|]. cbn [config with_count array_depth array_stack callbacks]. rewrite Ec, Ed, Es, Hcb.
  destruct ((0 <? max_array_size (config m)) && _) eqn:El.
  { exfalso. apply andb_true_iff in El as [Hp%Z.ltb_lt Hl%Z.ltb_lt]. rewrite u64_small in Hl; lia. }
  rewrite (proj2 (Z.leb_gt _ _)) by lia. cbn [recorder on_array_start call1 checked negb Z.eqb].
  change (arr_get (fr0 :: st) 0) with (Some fr0). change (arr_set (fr0 :: st) 0 ?x) with (Some (x :: st)). cbn [mbind option_bind].
  destruct (Z.eqb_spec v 0) as [->|Hv2]; cbn [callbacks with_stack with_state with_count]; rewrite Hcb;
    cbn [recorder on_array_complete on_array_element_start call0 call1 checked negb Z.eqb];
    match goal with |- context [clear ?w] => destruct (clear_ready p w) as (m' & -> & Hr' & Hs' & E); [by apply (ready_fields p m1)|] end;
    cbn [mbind option_bind]; exists m'.
  - split; [by rewrite <-app_assoc|]. split; [done|]. rewrite E. done.
  - rewrite (proj2 (Z.ltb_lt 0 v)) by lia. split; [by rewrite <-app_assoc|]. split; [done|]. rewrite E. done.
Qed.


Lemma null_announced p m u pre t rest : ready p m -> str_inv p (string_buf m) [] -> state m = VOX_REDIS_STATE_BULK_STRING_LEN ->
  array_depth m = 0 -> number t (-1) ->
  exists m', step junk p m u (zlen pre) (pre ++ t ++ CRLF ++ rest) = Some (p, m', u ++ [BulkStart (-1); BulkEnd], zlen (pre ++ t ++ CRLF), Go) /\
    same m m' /\ state m' = VOX_REDIS_STATE_COMPLETE /\ array_depth m' = 0.
Proof.
  intros Hr Hs Hst Hd Hn. unfold step, bulk_len_step. rewrite Hst.
  edestruct (number_read p m u pre t (-1) rest) as (m1 & -> & (_ & _ & Hcb) & E1); [done..|].
  cbn [Z.eqb Pos.eqb callbacks with_bulk]. rewrite Hcb. cbn [recorder on_bulk_string_start on_bulk_string_complete call0 call1 checked negb Z.eqb callbacks with_bulk].
  exists (with_state (with_bulk m1 (-1)) VOX_REDIS_STATE_COMPLETE). split; [by rewrite <-app_assoc|]. by rewrite E1.
Qed.

(** A line of a type byte and a number, then [body]. *)
Lemma line_run p m u ch st t body rest data (Q : vox_redis_parser (list event) -> list event -> Prop) : ready p m ->
  state m = VOX_REDIS_STATE_START -> array_depth m = 0 -> opens ch st -> ended (with_state m st) = false -> data = ch :: t ++ CRLF ++ body ++ rest ->
  (forall m1, ready p m1 -> str_inv p (string_buf m1) [] -> state m1 = st -> same_frame m m1 ->
     exists m2 u2, step junk p m1 u (zlen [ch]) ([ch] ++ t ++ CRLF ++ body ++ rest) = Some (p, m2, u2, zlen ([ch] ++ t ++ CRLF), Go) /\
       exists m3 u3, reaches data p m2 u2 (zlen ([ch] ++ t ++ CRLF)) p m3 u3 (zlen (ch :: t ++ CRLF ++ body)) /\ Q m3 u3) ->
  exists m3 u3, reaches data p m u 0 p m3 u3 (zlen (ch :: t ++ CRLF ++ body)) /\ Q m3 u3.
Proof.
  intros Hr Hst Hd Ho He D Hk. destruct (entered p m u [] ch st (t ++ CRLF ++ body ++ rest) Hr Hst Ho) as (m1 & E1 & Hr1 & Hs1 & Hst1 & Hf1).
  destruct (Hk m1 Hr1 Hs1 Hst1 Hf1) as (m2 & u2 & E2 & m3 & u3 & Hx & HQ). exists m3, u3. split; [|done]. cbn [app] in E1, E2. rewrite <-D in E1, E2.
  change 0 with (zlen (@nil Z)). eapply (reaches_at _ []); [exact D|done|by apply ended_state; rewrite Hst|exact E1|].
  eapply (reaches_at _ [ch]); [exact D|by destruct t| |exact E2|exact Hx].
  unfold ended in *. cbn [state with_state] in He. by rewrite Hst1.
Qed.

Lemma array_run p m u t v body rest data fr0 st (Q : vox_redis_parser (list event) -> list event -> Prop) : ready p m ->
  state m = VOX_REDIS_STATE_START -> array_depth m = 0 -> array_stack m = fr0 :: st -> number t v -> count_ok (config m) v ->
  data = 42 :: t ++ CRLF ++ body ++ rest ->
  (forall m1, ready p m1 -> same m m1 ->
     (if 0 <? v then state m1 = VOX_REDIS_STATE_START /\ array_depth m1 = 1 /\ array_stack m1 = Frame v 0 (expected_len fr0) :: st
      else state m1 = VOX_REDIS_STATE_COMPLETE /\ array_depth m1 = 0) ->
     exists m3 u3, reaches data p m1 (u ++ ArrayStart v :: (if 0 <? v then [ElementStart 0] else [ArrayEnd])) (zlen ([42] ++ t ++ CRLF))
       p m3 u3 (zlen (42 :: t ++ CRLF ++ body)) /\ Q m3 u3) ->
  exists m3 u3, reaches data p m u 0 p m3 u3 (zlen (42 :: t ++ CRLF ++ body)) /\ Q m3 u3.
Proof.
  intros Hr Hst Hd Hfr Hn Hv D Hk. eapply (line_run p m u 42 VOX_REDIS_STATE_ARRAY_COUNT t body rest); [done..|unfold opens; tauto|done|done|].
  intros m1 Hr1 Hs1 Hst1 (Hsm1 & Hfr1 & Hd1).
  destruct (array_announced p m1 u [42] t v (body ++ rest) fr0 st) as (m2 & E2 & Hr2 & Hsm2 & Hcase); [done..|congruence|congruence|done| |].
  { destruct Hsm1 as (_ & _ & ->). done. }
  do 2 eexists. split; [exact E2|]. apply Hk; [done|by eapply same_trans|done].
Qed.

(** A whole reply is read. *)
Lemma reply_run p m u r rest fr0 st : ready p m -> state m = VOX_REDIS_STATE_START -> array_depth m = 0 -> array_stack m = fr0 :: st ->
  reply_ok (config m) r -> exists m' u', reaches (reply_bytes r ++ rest) p m u 0 p m' u' (zlen (reply_bytes r)) /\
    (same m m' /\ state m' = VOX_REDIS_STATE_COMPLETE /\ array_depth m' = 0 /\ u' = u ++ reply_events r).
Proof.
  intros Hr Hst Hd Hfr Hok. destruct r as [x|t|t|t|t xs]; cbn [reply_bytes reply_events reply_ok] in *.
  - destruct (value_run p m u [] x rest (value_bytes x ++ rest) Hr Hst Hok eq_refl) as (m1 & Hr1 & (Hsm & _ & Hd1) & Hx).
    rewrite Hd in Hd1. do 2 eexists. split; [by apply (Hx _ _ _ (done_single p m1 _ _ Hd1))|]. done.
  - rewrite <-(app_nil_r CRLF). eapply (line_run p m u 36 VOX_REDIS_STATE_BULK_STRING_LEN t [] rest); [done..|unfold opens; tauto|done|assoc|].
    intros m1 Hr1 Hs1 Hst1 (Hsm1 & Hfr1 & Hd1). rewrite Hd in Hd1.
    destruct (null_announced p m1 u [36] t rest Hr1 Hs1 Hst1 Hd1 Hok) as (m2 & E2 & Hsm2 & Hst2 & Hd2).
    do 2 eexists. split; [exact E2|]. do 2 eexists. split; [rewrite (app_nil_r CRLF); apply reaches_refl|]. split; [by eapply same_trans|done].
  - rewrite <-(app_nil_r CRLF). eapply (array_run p m u t (-1) [] rest); [done..|by left|assoc|].
    intros m1 _ Hsm1 (Hst1 & Hd1). do 2 eexists. split; [rewrite (app_nil_r CRLF); apply reaches_refl|done].
  - rewrite <-(app_nil_r CRLF). eapply (array_run p m u t 0 [] rest); [done..|apply Hok| |assoc|].
    { right. split; [done|]. split; [apply Hok|lia]. }
    intros m1 _ Hsm1 (Hst1 & Hd1). do 2 eexists. split; [rewrite (app_nil_r CRLF); apply reaches_refl|done].
  - destruct Hok as (Hn & Hne & Hnest & Hxs & Hmax).
    assert (0 < zlen xs) as Hz by (destruct xs; [done|rewrite zlen_cons; pose proof (zlen_nonneg xs); lia]).
    eapply (array_run p m u t (zlen xs) (concat (value_bytes <$> xs)) rest); [done..| |assoc|].
    { right. split; [lia|]. done. }
    rewrite (proj2 (Z.ltb_lt 0 _)) by done. intros m1 Hr1 Hsm1 (Hst1 & Hd1 & Hs1).
    destruct (elements_run xs p m1 (u ++ [ArrayStart (zlen xs); ElementStart 0]) ([42] ++ t ++ CRLF) 0 (zlen xs) (expected_len fr0) st rest
      (42 :: t ++ CRLF ++ concat (value_bytes <$> xs) ++ rest)) as (m2 & Hsm2 & Hst2 & Hd2 & Hx); [done..| | |done|done|lia|lia| |assoc|].
    + by destruct Hsm1 as (_ & _ & ->).
    + done.
    + apply (integer_range t), number_parsed, Hn.
    + do 2 eexists. split; [|split; [by eapply same_trans|split; [done|split; [done|]]]].
      * replace ((42 :: t ++ CRLF ++ concat (value_bytes <$> xs)) ++ rest) with (42 :: t ++ CRLF ++ concat (value_bytes <$> xs) ++ rest) by assoc.
        replace (42 :: t ++ CRLF ++ concat (value_bytes <$> xs)) with (([42] ++ t ++ CRLF) ++ concat (value_bytes <$> xs)) by assoc. exact Hx.
      * assoc.
Qed.


Lemma loop_more fuel n p m u i data r : loop junk fuel p m u i data = Some r -> loop junk (n + fuel) p m u i data = Some r.
Proof.
  rewrite Nat.add_comm. revert p m u i. induction fuel as [|fuel IH]; intros p m u i; [done|]. cbn [loop Nat.add].
  destruct ((i <? zlen data) && _); [|done]. destruct (step junk p m u i data) as [[[[[p1 m1] u1] i1] f]|]; [|done].
  cbn [mbind option_bind]. destruct f; [apply IH|done].
Qed.

(** A call that reaches the end of a reply. *)
Lemma reply_ended p m u data m' u' n : state m = VOX_REDIS_STATE_START -> has_error m = false -> data <> [] -> callbacks m = recorder ->
  reaches data p m u 0 p m' u' n -> same m m' -> state m' = VOX_REDIS_STATE_COMPLETE -> array_depth m' = 0 ->
  is_Some (loop junk (S (S (2 * length data))) p m u 0 data) ->
  vox_redis_parser_execute junk p m u data = Some (p, with_parsed m' (u64 (bytes_parsed m' + n)), u' ++ [Complete], n).
Proof.
  intros Hst He Hne Hcb [k Hk] (_ & Hcb' & _) Hst' Hd' [r Er]. unfold vox_redis_parser_execute.
  assert (zlen data <> 0) by (by destruct data). rewrite (proj2 (Z.eqb_neq _ _)), He, Hst by done.
  rewrite bool_decide_eq_false_2 by done. cbn [orb].
  pose proof (loop_more _ k _ _ _ _ _ _ Er) as Em. rewrite Hk in Em. cbn [loop] in Em.
  assert (ended m' = true) as Ee by (unfold ended; by rewrite Hst'). rewrite Ee in Em. cbn [negb] in Em. rewrite andb_false_r in Em.
  rewrite Er, <-Em. cbn [mbind option_bind]. unfold finish. rewrite Hd', Hst'. cbn [Z.ltb Z.compare mbind option_bind].
  rewrite bool_decide_eq_true_2 by done. cbn [andb]. unfold checked. cbn [negb Z.eqb]. rewrite Hcb', Hcb.
  cbn [recorder on_complete call0 negb Z.eqb mbind option_bind state with_parsed]. rewrite Hst'. by rewrite bool_decide_eq_false_2.
Qed.

(** Nothing is lost between the calls: the memory of the parser after a call that is known. *)
Lemma call_kept p0 p m c u data p' m' u' r : redis_ok p0 p m c -> zlen data < 2 ^ 62 -> state m = VOX_REDIS_STATE_START ->
  vox_redis_parser_execute junk p m u data = Some (p', m', u', r) -> exists c', redis_ok p0 p' m' c'.
Proof.
  intros Hok Hd Hst E. pose proof (redis_call_ok junk p0 p m c u data Hok Hd) as Hx. unfold texting in Hx. rewrite Hst in Hx.
  specialize (Hx ltac:(done)). rewrite E in Hx. by destruct Hx as (_ & ? & _).
Qed.

Lemma loop_some p0 p m c u data : redis_ok p0 p m c -> zlen data < 2 ^ 62 -> state m = VOX_REDIS_STATE_START ->
  is_Some (loop junk (S (S (2 * length data))) p m u 0 data).
Proof.
  intros Hok Hd Hst. pose proof (zlen_nonneg data). destruct (ok_Some _ _ (loop_ok junk (S (S (2 * length data))) p0 p m c u 0 data Hok
    ltac:(lia) Hd ltac:(unfold texting; by rewrite Hst) ltac:(lia) ltac:(unfold work; rewrite Hst, decide_False by done; unfold zlen; lia))) as (w & E & _).
  by eexists.
Qed.

Lemma reply_called p0 p m c u data m1 u1 n : redis_ok p0 p m c -> idle m -> callbacks m = recorder -> data <> [] -> zlen data < 2 ^ 62 ->
  reaches data p m u 0 p m1 u1 n -> same m m1 -> state m1 = VOX_REDIS_STATE_COMPLETE -> array_depth m1 = 0 ->
  exists m' c', vox_redis_parser_execute junk p m u data = Some (p, m', u1 ++ [Complete], n) /\
    vox_redis_parser_is_complete m' = true /\ redis_ok p0 p m' c'.
Proof.
  intros Hok (Hst & Hd & He) Hcb Hne Hlen Hx Hsm Hst1 Hd1.
  pose proof (reply_ended p m u data m1 u1 n Hst He Hne Hcb Hx Hsm Hst1 Hd1 (loop_some _ _ _ _ u _ Hok Hlen Hst)) as E.
  destruct (call_kept _ _ _ _ _ _ _ _ _ _ Hok Hlen Hst E) as [c' Hok']. do 2 eexists. split; [exact E|]. split; [|exact Hok'].
  unfold vox_redis_parser_is_complete. cbn [state with_parsed]. by rewrite Hst1, bool_decide_eq_true_2.
Qed.

(** C35: A parser that is new or was reset, with the text buffer of its creation or a greater
    one, that is given a reply and anything behind it, fewer than 2^62 bytes in all, calls the
    client with what the reply says, in order, and tells it once that the reply is complete; the result is the
    length of the reply. The pool is not used, and the parser is ready for
    vox_redis_parser_reset and the next reply. The replies: an integer, a bulk string, a null
    bulk string, a null array, an empty array, or an array of integers and of bulk strings that
    are not null - a null one ends the reply too early (null_element_ends) and an inner array
    too (nested_array_ends). Numbers have a text of any form the parser knows, at most 31 bytes
    long and within 64 bits. The nesting limit is at most 64 and, for an array that is not
    null, not 0, which refuses every array (no_nesting); lengths are within the configured
    limits, where these are not 0. *)
Theorem redis_reply_parsed p0 p m c u r rest :
  redis_ok p0 p m c -> idle m -> callbacks m = recorder -> 32 <= capacity (string_buf m) -> reply_ok (config m) r ->
  zlen (reply_bytes r ++ rest) < 2 ^ 62 ->
  exists m' c', vox_redis_parser_execute junk p m u (reply_bytes r ++ rest) = Some (p, m', u ++ reply_calls r, zlen (reply_bytes r)) /\
    vox_redis_parser_is_complete m' = true /\ redis_ok p0 p m' c'.
Proof.
  intros Hok Hidle Hcb Hcap Hr Hlen. pose proof Hidle as (Hst & Hd & _). assert (ready p m) as Hrd by (split; [exists c; apply Hok|done]).
  destruct (array_stack m) as [|fr0 st] eqn:Hfr; [by pose proof (ro_stack _ _ _ _ Hok) as E; rewrite Hfr in E|].
  destruct (reply_run p m u r rest fr0 st Hrd Hst Hd Hfr Hr) as (m1 & u1 & Hx & Hsm & Hst1 & Hd1 & ->).
  unfold reply_calls. rewrite app_assoc. assert (reply_bytes r ++ rest <> []) as Hne by (by destruct r as [[]| | | | ]). by eapply reply_called.
Qed.

Lemma start_capacity p m u i data p' m' u' i' : start_step p m u i data = Some (p', m', u', i', Go) ->
  capacity (string_buf m') = capacity (string_buf m).
Proof.
  unfold start_step. destruct (data.[i]) as [ch|]; [|done]. cbn [mbind option_bind]. unfold clear, fail.
  destruct (set_error p m u _) as [[p1 m1] u1].
  repeat case_one; try (by intros [=]); cbn [string_buf with_state with_type];
    (destruct (vox_string_clear (string_buf m)) as [s|] eqn:E; [|done]); cbn [mbind option_bind]; intros [= _ <- _ _]; by apply clear_capacity.
Qed.

Lemma text_run p m u ch t rest data : ready p m -> zlen t + 2 <= capacity (string_buf m) -> state m = VOX_REDIS_STATE_START ->
  array_depth m = 0 -> ch = 43 \/ ch = 45 -> Forall (fun b => b <> 13) t -> data = ch :: t ++ CRLF ++ rest -> zlen data < 2 ^ 62 ->
  exists m', same m m' /\ state m' = VOX_REDIS_STATE_COMPLETE /\ array_depth m' = 0 /\
    reaches data p m u 0 p m' (u ++ [(if ch =? 43 then Simple else ErrorText) (ch :: t)]) (zlen (ch :: t ++ CRLF) + 1).
Proof.
  intros Hr Hroom Hst Hd Hch Hno D Hlen. set (st := if ch =? 43 then VOX_REDIS_STATE_SIMPLE_STRING else VOX_REDIS_STATE_ERROR).
  assert (opens ch st) as Ho by (unfold st, opens; destruct Hch as [-> | ->]; tauto).
  destruct (entered p m u [] ch st (t ++ CRLF ++ rest) Hr Hst Ho) as (m1 & E1 & ([c1 _] & _ & Hcb) & Hs1 & Hst1 & Hsm1 & Hfr1 & Hd1).
  cbn [app] in E1. rewrite <-D in E1. pose proof E1 as Hcap1. unfold step in Hcap1. rewrite Hst in Hcap1. apply start_capacity in Hcap1.
  destruct (append_fits p (string_buf m1) [] (ch :: t) (CRLF ++ rest) Hs1) as (s & Ea & Hs & _); [done|..]. 1-2: pose proof (zlen_nonneg rest).
  { rewrite D in Hlen. change (ch :: t ++ CRLF ++ rest) with ((ch :: t) ++ CRLF ++ rest) in Hlen. rewrite !zlen_app in Hlen. change (zlen CRLF) with 2 in Hlen. lia. }
  { rewrite Hcap1, zlen_nil, zlen_cons. lia. }
  set (m2 := with_buf m1 s). exists (with_state m2 VOX_REDIS_STATE_COMPLETE).
  split; [done|]. split; [done|]. split; [cbn; congruence|].
  assert (step junk p m1 u 1 data = Some (p, with_state m2 VOX_REDIS_STATE_COMPLETE,
    u ++ [(if ch =? 43 then Simple else ErrorText) (ch :: t)], zlen (ch :: t ++ CRLF) + 1, Go)) as E2.
  { assert (step junk p m1 u 1 data = text_step junk p m1 u 1 data) as -> by (unfold step; rewrite Hst1; unfold st; by destruct (ch =? 43)).
    unfold text_step. change (1 - 1) with 0. replace (zlen data - 1 + 1) with (zlen data) by lia.
    rewrite D. pose proof (crlf_found [] (ch :: t) rest) as Ef. cbn [app] in Ef. change (zlen []) with 0 in Ef. rewrite Ef; [|].
    2: { constructor; [by destruct Hch as [-> | ->]|done]. }
    cbn [mbind option_bind]. rewrite (proj2 (Z.ltb_lt 0 _)) by (rewrite zlen_cons; pose proof (zlen_nonneg t); lia).
    unfold accumulate. change (Z.to_nat 0) with O. rewrite drop_0. cbn [app] in Ea. rewrite Ea. cbn [mbind option_bind negb Z.eqb]. fold m2.
    rewrite (gathered_text p m2 (ch :: t) Hs). cbn [mbind option_bind callbacks state m2 with_buf]. rewrite Hcb, Hst1.
    assert (call1 (if bool_decide (st = VOX_REDIS_STATE_SIMPLE_STRING) then on_simple_string recorder else on_error recorder) (ch :: t) u
      = (u ++ [(if ch =? 43 then Simple else ErrorText) (ch :: t)], 0)) as -> by (unfold st; by destruct (ch =? 43)).
    cbn [checked negb Z.eqb]. rewrite done_single by (cbn; congruence). do 3 f_equal. unfold CRLF. zlia. }
  change 0 with (zlen (@nil Z)). eapply (reaches_at _ [] (ch :: t ++ CRLF ++ rest)); [exact D|done|by apply ended_state; rewrite Hst|exact E1|].
  eapply (reaches_at _ [ch] (t ++ CRLF ++ rest)); [exact D|by destruct t|apply ended_state; rewrite Hst1; unfold st; by destruct (ch =? 43)|exact E2|].
  apply reaches_refl.
Qed.


(** A simple string or an error, in one read and outside an array, is reported with the byte of its type in front of the
    text, and the result of the call is one more than the length of the reply. *)
Theorem redis_text_shifted p0 p m c u ch t rest :
  redis_ok p0 p m c -> idle m -> callbacks m = recorder -> 32 <= capacity (string_buf m) -> ch = 43 \/ ch = 45 ->
  Forall (fun b => b <> 13) t -> zlen t + 2 <= capacity (string_buf m) -> zlen (ch :: t ++ CRLF ++ rest) < 2 ^ 62 ->
  exists m' c', vox_redis_parser_execute junk p m u (ch :: t ++ CRLF ++ rest) =
      Some (p, m', u ++ [(if ch =? 43 then Simple else ErrorText) (ch :: t); Complete], zlen (ch :: t ++ CRLF) + 1) /\
    vox_redis_parser_is_complete m' = true /\ redis_ok p0 p m' c'.
Proof.
  intros Hok Hidle Hcb Hcap Hch Hno Hroom Hlen. pose proof Hidle as (Hst & Hd & _).
  assert (ready p m) as Hrd by (split; [exists c; apply Hok|done]).
  destruct (text_run p m u ch t rest _ Hrd Hroom Hst Hd Hch Hno eq_refl Hlen) as (m1 & Hsm & Hst1 & Hd1 & Hx).
  change [?e; Complete] with ([e] ++ [Complete]). rewrite (app_assoc u). by eapply reply_called.
Qed.

(** A line of text that is not finished in one read cannot be continued: the byte in front of the next read is read. *)
Theorem redis_text_continued p m u data : texting m = true -> has_error m = false -> data <> [] ->
  vox_redis_parser_execute junk p m u data = None.
Proof.
  intros Ht He Hne. unfold vox_redis_parser_execute. pose proof (zlen_nonneg data). assert (zlen data <> 0) by (by destruct data).
  rewrite (proj2 (Z.eqb_neq _ _)), He by done.
  assert (ended m = false) as Hend by (unfold texting, ended in *; by destruct (state m)).
  unfold ended in Hend. apply orb_false_iff in Hend as [Hx Hy]. rewrite Hy. cbn [orb loop]. rewrite (proj2 (Z.ltb_lt _ _)) by lia.
  unfold ended. rewrite Hx, Hy. cbn [orb negb andb].
  assert (text_step junk p m u 0 data = None) as E.
  { unfold text_step, find_crlf. replace (Z.to_nat (zlen data - 0 + 1)) with (S (length data)) by (unfold zlen; lia). cbn [find_crlf_loop].
    assert (data.[0 - 1 + 0] = None) as -> by (unfold arr_get; by rewrite decide_False by lia). done. }
  assert (step junk p m u 0 data = None) as ->; [|done]. unfold step, texting in *. by destruct (state m).
Qed.
End reading.

(** ** On concrete input *)

Definition redis_pool : bump := bump_new 100000.
Definition redis_limits : vox_redis_parser_config_t := Config 1000 1000 4.
Definition redis_parser : option (bump * option (vox_redis_parser (list event))) :=
  vox_redis_parser_create 0 redis_pool (Some redis_limits) (Some recorder).

(** The reply [*2 :+7 $02 ab], with its numbers as they are written. *)
Definition ex_reply : reply :=
  Values (Prelude.bytes_of "2") [VInt (Prelude.bytes_of "+7") 7; VBulk (Prelude.bytes_of "02") (Prelude.bytes_of "ab")].

Lemma redis_parser_created : exists p m, redis_parser = Some (p, Some m) /\ redis_ok redis_pool p m [] /\ idle m /\
  callbacks m = recorder /\ config m = redis_limits /\ capacity (string_buf m) = 32.
Proof.
  destruct redis_parser as [[p [m|]]|] eqn:E; [|by vm_compute in E..]. exists p, m. split; [done|].
  assert (mp_inv redis_pool) as Hp by by apply bump_new_inv.
  destruct (redis_create_ok 0 redis_pool p (Some redis_limits) (Some recorder) m Hp E) as (Hok & Hidle & Hcap); [done|].
  split; [exact Hok|]. split; [exact Hidle|]. vm_compute in E. injection E as _ <-. done.
Qed.

Lemma ex_number t sign ds v : t = sign ++ ds -> sign = [] \/ sign = [43] \/ sign = [45] -> (zlen t <=? 31) && (0 <? zlen ds) &&
  forallb isdigit ds && (numeral ds <=? INT64_MAX) && (v =? if decide (sign = [45]) then - numeral ds else numeral ds) = true -> number t v.
Proof.
  intros -> Hs Hx. apply andb_true_iff in Hx as [Hx Hv%Z.eqb_eq]. apply andb_true_iff in Hx as [Hx Hm%Z.leb_le].
  apply andb_true_iff in Hx as [Hx Hd]. apply andb_true_iff in Hx as [Hl%Z.leb_le Hz%Z.ltb_lt].
  split; [done|]. exists sign, ds. split; [done|]. split; [done|]. split; [by intros ->|]. done.
Qed.

Lemma ex_reply_ok : reply_ok redis_limits ex_reply.
Proof.
  split; [by apply (ex_number _ [] (Prelude.bytes_of "2")); [|left|]|]. split; [done|]. split; [done|]. split; [|done].
  apply Forall_cons. split; [|apply Forall_singleton; split].
  - by apply (ex_number _ [43] (Prelude.bytes_of "7")); [|right; left|].
  - by apply (ex_number _ [] (Prelude.bytes_of "02")); [|left|].
  - done.
Qed.

Lemma redis_execute_safe_witness :
  exists p m, redis_parser = Some (p, Some m) /\
  exists p' m' u' r c', vox_redis_parser_execute 0 p m [] (reply_bytes ex_reply) = Some (p', m', u', r) /\ redis_ok redis_pool p' m' c' /\
    -1 <= r <= zlen (reply_bytes ex_reply) + 1 /\ (r = -1 -> vox_redis_parser_has_error m' = true) /\
    mp_live (vox_redis_parser_destroy p' m') = mp_live redis_pool.
Proof.
  destruct redis_parser_created as (p & m & E & Hok & (Hst & _) & _). exists p, m. split; [exact E|].
  apply (redis_execute_safe 0 redis_pool p m [] [] (reply_bytes ex_reply) Hok); [reflexivity|].
  unfold texting. rewrite Hst. discriminate.
Defined.

Lemma redis_reply_parsed_witness :
  exists p m, redis_parser = Some (p, Some m) /\
  exists m' c', vox_redis_parser_execute 0 p m [] (reply_bytes ex_reply ++ Prelude.bytes_of ":1") =
      Some (p, m', [] ++ reply_calls ex_reply, zlen (reply_bytes ex_reply)) /\
    vox_redis_parser_is_complete m' = true /\ redis_ok redis_pool p m' c'.
Proof.
  destruct redis_parser_created as (p & m & E & Hok & Hidle & Hcb & Hcfg & Hcap). exists p, m. split; [exact E|].
  apply (redis_reply_parsed 0 redis_pool p m [] [] ex_reply (Prelude.bytes_of ":1") Hok Hidle Hcb);
    [rewrite Hcap; discriminate|rewrite Hcfg; apply ex_reply_ok|reflexivity].
Defined.

Lemma redis_text_shifted_witness :
  exists p m, redis_parser = Some (p, Some m) /\
  exists m' c', vox_redis_parser_execute 0 p m [] (43 :: Prelude.bytes_of "OK" ++ CRLF ++ []) =
      Some (p, m', [] ++ [Simple (Prelude.bytes_of "+OK"); Complete], 6) /\
    vox_redis_parser_is_complete m' = true /\ redis_ok redis_pool p m' c'.
Proof.
  destruct redis_parser_created as (p & m & E & Hok & Hidle & Hcb & _ & Hcap). exists p, m. split; [exact E|].
  apply (redis_text_shifted 0 redis_pool p m [] [] 43 (Prelude.bytes_of "OK") [] Hok Hidle Hcb);
    [rewrite Hcap; discriminate|left; reflexivity|repeat constructor; discriminate|rewrite Hcap; discriminate|reflexivity].
Defined.

(** What a client gets from a new parser for the reads, and the results of the calls. *)
Fixpoint redis_feed (p : bump) (m : vox_redis_parser (list event)) (u : list event) (reads : list (list Z)) : option (list event * list Z) :=
  match reads with
  | [] => Some (u, [])
  | l :: reads =>
      '(p, m, u, r) ← vox_redis_parser_execute 0 p m u l;
      '(u, rs) ← redis_feed p m u reads;
      Some (u, r :: rs)
  end.
Definition redis_run (reads : list (list Z)) : option (list event * list Z) :=
  match redis_parser with Some (p, Some m) => redis_feed p m [] reads | _ => None end.
Definition line (s : string) : list Z := Prelude.bytes_of s ++ CRLF.

(** An array ends behind its last value without [on_array_complete], and only its first element has a start. *)
Example array_events : redis_run [line "*2" ++ line ":1" ++ line ":2"] =
  Some ([ArrayStart 2; ElementStart 0; Integer 1; ElementEnd 0; Integer 2; ElementEnd 1; Complete], [12]).
Proof. vm_compute. reflexivity. Qed.

(** The end of an inner array ends the reply: its second element is left. *)
Example nested_array_ends : redis_run [line "*2" ++ line "*1" ++ line ":1" ++ line ":2"] =
  Some ([ArrayStart 2; ElementStart 0; ArrayStart 1; ElementStart 0; Integer 1; ElementEnd 0; Complete], [12]).
Proof. vm_compute. reflexivity. Qed.

(** So does a null bulk string in an array. *)
Example null_element_ends : redis_run [line "*2" ++ line "$-1" ++ line ":2"] =
  Some ([ArrayStart 2; ElementStart 0; BulkStart (-1); BulkEnd; Complete], [9]).
Proof. vm_compute. reflexivity. Qed.

(** An end of line that comes in two reads is not one. *)
Example split_line_end : redis_run [Prelude.bytes_of ":12" ++ [13]; [10] ++ line ":13"] =
  Some ([ParseError (Prelude.bytes_of "Invalid integer format")], [4; -1]).
Proof. vm_compute. reflexivity. Qed.

(** The second of two simple strings in an array is looked for one byte too far. *)
Example array_of_text : exists l, redis_run [line "*2" ++ line "+a" ++ line "+b"] = Some (l, [-1]).
Proof. eexists. vm_compute. reflexivity. Qed.

(** A limit of 0 for the nesting lets no array pass. *)
Example no_nesting : match vox_redis_parser_create 0 redis_pool (Some (Config 0 0 0)) (Some recorder) with
  | Some (p, Some m) => redis_feed p m [] [line "*1" ++ line ":1"] | _ => None end =
  Some ([ParseError (Prelude.bytes_of "Array nesting too deep")], [-1]).
Proof. vm_compute. reflexivity. Qed.

(** The stack of the arrays has 64 places whatever the limit: one array more and a write lands behind it. *)
Definition ex_deep : option (list event * list Z) :=
  match vox_redis_parser_create 0 redis_pool (Some (Config 0 0 65)) (Some recorder) with
  | Some (p, Some m) => redis_feed p m [] [concat (replicate 65 (line "*1"))] | _ => Some ([], []) end.

Example stack_overflow : ex_deep = None.
Proof. vm_compute. reflexivity. Qed.
End Redis.
