(* ===== verification/Json.v ===== *)
(** * vox_json.c: JSON documents

    src/vox_json.c parses a text with a [vox_scanner] into a tree of blocks of the pool, whose
    strings are views of the text, writes a tree as text, and builds trees.

    A tree owns its elements: an element is in one array or object, so that the intrusive list
    of src/vox_list.h is the list of its elements, and the parent of an element is the element
    around it. A number is a binary64 of the Standard Library; reading and printing its decimal
    form, [strtod] and the format "%.15g", are arguments. *)

From Stdlib Require Import String Ascii SpecFloat.
From S2P Require Import Prelude Alloc CString Scanner VString.

Module Json.
Import CString Scanner.

(** ** Doubles *)

Definition double : Type := spec_float.
Definition double_of_int (n : Z) : double := binary_normalize 53 1024 n 0 false.
Definition isfinite (d : double) : bool := match d with S754_zero _ | S754_finite _ _ _ => true | _ => false end.
Definition VOX_JSON_INT64_MIN_AS_DOUBLE : double := double_of_int (- 2 ^ 63).
Definition VOX_JSON_INT64_MAX_EXCL_AS_DOUBLE : double := double_of_int (2 ^ 63).

(** [(int64_t)n]: the fraction is cut off; undefined where the result does not fit. *)
Definition int64_of_double (d : double) : option Z :=
  let fits n := if (- 2 ^ 63 <=? n) && (n <? 2 ^ 63) then Some n else None in
  match d with
  | S754_zero _ => Some 0
  | S754_finite s m e => fits (cond_Zopp s (Z.shiftl (Zpos m) e))
  | _ => None
  end.

(** ** Elements *)

(** src/vox_json.h:27-34: vox_json_type_t *)
Inductive vox_json_type_t :=
| VOX_JSON_NULL | VOX_JSON_BOOLEAN | VOX_JSON_NUMBER | VOX_JSON_STRING | VOX_JSON_ARRAY | VOX_JSON_OBJECT.

#[export] Instance json_type_eq_dec : EqDecision vox_json_type_t.
Proof. solve_decision. Defined.

(** The address of a member, its name and its value.

    src/vox_json.h:46-50: vox_json_member_t *)
Record vox_json_member (E : Type) := Member { m_at : Z; m_name : view; m_value : E }.
Arguments Member {E}. Arguments m_at {E}. Arguments m_name {E}. Arguments m_value {E}.

(** The type and the union. *)
Inductive content (E : Type) :=
| Null | Boolean (b : bool) | Number (d : double) | Text_ (v : view) | Array (l : list E) | Object (l : list (vox_json_member E)).
Arguments Null {E}. Arguments Boolean {E}. Arguments Number {E}. Arguments Text_ {E}. Arguments Array {E}. Arguments Object {E}.

(** An element and its address.

    src/vox_json.h:69-80: vox_json_elem *)
#[warnings="-register-all"]
Inductive vox_json_elem := Elem (e_at : Z) (u : content vox_json_elem).
Definition e_at (e : vox_json_elem) : Z := match e with Elem a _ => a end.
Definition e_u (e : vox_json_elem) : content vox_json_elem := match e with Elem _ u => u end.
Definition e_type (e : vox_json_elem) : vox_json_type_t :=
  match e_u e with
  | Null => VOX_JSON_NULL | Boolean _ => VOX_JSON_BOOLEAN | Number _ => VOX_JSON_NUMBER
  | Text_ _ => VOX_JSON_STRING | Array _ => VOX_JSON_ARRAY | Object _ => VOX_JSON_OBJECT
  end.

Definition sizeof_elem : Z := 56.
Definition sizeof_member : Z := 40.

(** src/vox_json.h:87-92: vox_json_err_info_t *)
Record vox_json_err_info := ErrInfo { line : Z; column : Z; offset : Z; message : list Z }.
Definition no_error (text : string) : vox_json_err_info := ErrInfo 0 0 0 (Prelude.bytes_of text).

(** ** The parser *)

Definition isxdigit (c : Z) : bool := isdigit c || (65 <=? c) && (c <=? 70) || (97 <=? c) && (c <=? 102).
Definition quotation : string := String (ascii_of_nat 34) EmptyString.
Definition INT_MAX : Z := 2 ^ 31 - 1.

Section parser.
Context {P : Type} `{MPool P} (mem : Z -> option Z) (strtod : list Z -> double * bool).
Implicit Types (p : P) (sc : vox_scanner) (err : option vox_json_err_info).
#[local] Abbreviation result := (P * vox_scanner * option vox_json_err_info * option vox_json_elem)%type.

(** The lines and columns up to the position.

    src/vox_json.c:30-44: set_error *)
Fixpoint locate (fuel : nat) (ptr cur line column : Z) : option (Z * Z) :=
  match fuel with
  | O => None
  | S fuel =>
      if ptr <? cur then
        ch ← mem ptr;
        if ch =? 10 then guard! line <? INT_MAX; locate fuel (ptr + 1) cur (line + 1) 1
        else guard! column <? INT_MAX; locate fuel (ptr + 1) cur line (column + 1)
      else Some (line, column)
  end.

(** src/vox_json.c: set_error *)
Definition set_error err sc (message : string) : option (option vox_json_err_info) :=
  match err with
  | None => Some None
  | Some _ =>
      '(line, column) ← locate (S (Z.to_nat (curptr sc - begin sc))) (begin sc) (curptr sc) 1 1;
      Some (Some (ErrInfo line column (vox_scanner_offset sc) (Prelude.bytes_of message)))
  end.

(** [set_error] and [return NULL]. *)
Definition fail p sc err (message : string) : option result :=
  err ← set_error err sc message; Some (p, sc, err, None).

(** [memset], and the fields of an element that is new. *)
Definition built p sc err (a : Z) (c : content vox_json_elem) : option result := Some (p, sc, err, Some (Elem a c)).

(** src/vox_json.c: parse_null *)
Definition parse_null p sc err : option result :=
  let start := vox_scanner_curptr sc in
  if vox_scanner_remaining sc <? 4 then fail p sc err "Unexpected end of input while parsing null" else
  l ← load mem start 4;
  if negb (bool_decide (l = Prelude.bytes_of "null")) then fail p sc err "Invalid null value" else
  sc ← vox_scanner_skip mem sc 4;
  let '(p, a) := mp_alloc p sizeof_elem in
  if a =? NULL then fail p sc err "Memory allocation failed" else built p sc err a Null.

(** [remaining >= n && memcmp(start, word, n) == 0] *)
Definition word_at (start remaining : Z) (word : string) : option bool :=
  let w := Prelude.bytes_of word in
  if zlen w <=? remaining then l ← load mem start (length w); Some (bool_decide (l = w)) else Some false.

(** src/vox_json.c: parse_boolean *)
Definition parse_boolean p sc err : option result :=
  let start := vox_scanner_curptr sc in
  let remaining := vox_scanner_remaining sc in
  let '(p, a) := mp_alloc p sizeof_elem in
  if a =? NULL then fail p sc err "Memory allocation failed" else
  t ← word_at start remaining "true";
  if (t : bool) then sc ← vox_scanner_skip mem sc 4; built p sc err a (Boolean true) else
  f ← word_at start remaining "false";
  if (f : bool) then sc ← vox_scanner_skip mem sc 5; built p sc err a (Boolean false) else
  err ← set_error err sc "Invalid boolean value";
  Some (mp_free p a, sc, err, None).

(** [ptr < scanner->end && f( *ptr)] *)
Definition char_at sc (f : Z -> bool) (ptr : Z) : option bool :=
  if ptr <? end_ sc then ch ← mem ptr; Some (f ch) else Some false.
Definition digits sc (ptr : Z) : option Z := run_while mem (fun ch => Some (isdigit ch)) ptr (end_ sc).

(** The sign and the integer part of a number; [inr]: the message of an error.

    src/vox_json.c:127-150: parse_number *)
Definition number_int sc (start : Z) : option (Z + string) :=
  ch ← mem start;
  let ptr := if ch =? 45 then start + 1 else start in
  ch ← mem ptr;
  r ← (if ch =? 48 then Some (Some (ptr + 1))
       else if (49 <=? ch) && (ch <=? 57) then q ← digits sc (ptr + 1); Some (Some q) else Some None);
  match r with
  | None => Some (inr "Invalid number format"%string)
  | Some ptr =>
      zero ← (if (1 <=? ptr - start) && (ptr - start <=? 2) then ch ← mem (ptr - 1); Some (ch =? 48) else Some false);
      more ← (if (zero : bool) then char_at sc isdigit ptr else Some false);
      Some (if (more : bool) then inr "Leading zeros not allowed"%string else inl ptr)
  end.

(** src/vox_json.c:152-163: parse_number *)
Definition number_frac sc (ptr : Z) : option (Z + string) :=
  dot ← char_at sc (fun ch => ch =? 46) ptr;
  if negb dot then Some (inl ptr) else
  ok ← char_at sc isdigit (ptr + 1);
  if negb ok then Some (inr "Invalid number format: missing digits after decimal point"%string) else
  ptr ← digits sc (ptr + 1); Some (inl ptr).

(** src/vox_json.c:165-179: parse_number *)
Definition number_exp sc (ptr : Z) : option (Z + string) :=
  e ← char_at sc (fun ch => (ch =? 101) || (ch =? 69)) ptr;
  if negb e then Some (inl ptr) else
  sign ← char_at sc (fun ch => (ch =? 43) || (ch =? 45)) (ptr + 1);
  let ptr := if (sign : bool) then ptr + 2 else ptr + 1 in
  ok ← char_at sc isdigit ptr;
  if negb ok then Some (inr "Invalid number format: missing digits in exponent"%string) else
  ptr ← digits sc ptr; Some (inl ptr).

(** The value of the text up to [ptr].

    src/vox_json.c:186-219: parse_number *)
Definition number_value p sc err (start ptr : Z) : option result :=
  let len := u64 (ptr - start) in
  let '(p, s) := mp_alloc p (u64 (len + 1)) in
  if s =? NULL then fail p sc err "Memory allocation failed" else
  num_str ← load mem start (Z.to_nat len);
  let '(value, erange) := strtod num_str in
  let p := mp_free p s in
  if erange || negb (isfinite value)
  then fail p sc err (if erange then "Number overflow or underflow" else "Number must be finite (no Inf/NaN)") else
  sc ← vox_scanner_skip mem sc len;
  let '(p, a) := mp_alloc p sizeof_elem in
  if a =? NULL then fail p sc err "Memory allocation failed" else built p sc err a (Number value).

(** src/vox_json.c:120-220: parse_number *)
Definition parse_number p sc err : option result :=
  let start := vox_scanner_curptr sc in
  r ← number_int sc start;
  match r with
  | inr message => fail p sc err message
  | inl ptr =>
      r ← number_frac sc ptr;
      match r with
      | inr message => fail p sc err message
      | inl ptr =>
          r ← number_exp sc ptr;
          match r with inr message => fail p sc err message | inl ptr => number_value p sc err start ptr end
      end
  end.

(** Four hexadecimal digits; [None] in the result: there are not. The character is a [char]
    passed to [isxdigit] as it is: a byte from 128 on is a negative number, for which
    [isxdigit] is not defined.

    src/vox_json.c:280-286: parse_string *)
Fixpoint hex4 (n : nat) (ptr e : Z) : option (option Z) :=
  match n with
  | O => Some (Some ptr)
  | S n =>
      if e <=? ptr then Some None else
      ch ← mem ptr;
      guard! ch <? 128;
      if negb (isxdigit ch) then Some None else hex4 n (ptr + 1) e
  end.

(** The loop to the end of a string.

    src/vox_json.c:266-294: parse_string *)
Fixpoint string_end (fuel : nat) (ptr e : Z) : option (Z + string) :=
  match fuel with
  | O => None
  | S fuel =>
      if ptr <? e then
        ch ← mem ptr;
        if ch =? 34 then Some (inl ptr)
        else if ch =? 92 then
          let ptr := ptr + 1 in
          if e <=? ptr then Some (inr "Unterminated escape sequence"%string) else
          ch ← mem ptr;
          if ch =? 117 then
            r ← hex4 4 (ptr + 1) e;
            match r with Some ptr => string_end fuel ptr e | None => Some (inr "Invalid Unicode escape sequence"%string) end
          else string_end fuel (ptr + 1) e
        else string_end fuel (ptr + 1) e
      else Some (inl ptr)
  end.

(** src/vox_json.c: parse_string *)
Definition parse_string p sc err : option result :=
  ch ← vox_scanner_peek_char mem sc;
  if negb (ch =? 34) then fail p sc err ("Expected string to start with '" ++ quotation ++ "'") else
  '(sc, _) ← vox_scanner_get_char mem sc;
  let start := vox_scanner_curptr sc in
  r ← string_end (S (Z.to_nat (end_ sc - start))) start (end_ sc);
  match r with
  | inr message => fail p sc err message
  | inl ptr =>
      if end_ sc <=? ptr then fail p sc err "Unterminated string" else
      let len := u64 (ptr - start) in
      sc ← vox_scanner_skip mem sc len;
      ch ← vox_scanner_peek_char mem sc;
      if negb (ch =? 34) then fail p sc err ("Expected string to end with '" ++ quotation ++ "'") else
      '(sc, _) ← vox_scanner_get_char mem sc;
      let '(p, a) := mp_alloc p sizeof_elem in
      if a =? NULL then fail p sc err "Memory allocation failed" else built p sc err a (Text_ (View start len))
  end.

(** What follows needs the parser of values itself. *)
Section values.
Context (parse_value : P -> vox_scanner -> option vox_json_err_info -> option result).

(** src/vox_json.c:362-385: parse_array *)
Fixpoint array_loop (fuel : nat) p sc err (a : Z) (items : list vox_json_elem) : option result :=
  match fuel with
  | O => None
  | S fuel =>
      '(p, sc, err, item) ← parse_value p sc err;
      match item with
      | None => Some (mp_free p a, sc, err, None)
      | Some item =>
          let items := items ++ [item] in
          ch ← vox_scanner_peek_char mem sc;
          if ch =? 93 then '(sc, _) ← vox_scanner_get_char mem sc; built p sc err a (Array items)
          else if ch =? 44 then '(sc, _) ← vox_scanner_get_char mem sc; array_loop fuel p sc err a items
          else err ← set_error err sc "Expected ',' or ']' in array"; Some (mp_free p a, sc, err, None)
      end
  end.

(** src/vox_json.c: parse_array *)
Definition parse_array p sc err : option result :=
  ch ← vox_scanner_peek_char mem sc;
  if negb (ch =? 91) then fail p sc err "Expected array to start with '['" else
  '(sc, _) ← vox_scanner_get_char mem sc;
  let '(p, a) := mp_alloc p sizeof_elem in
  if a =? NULL then fail p sc err "Memory allocation failed" else
  ch ← vox_scanner_peek_char mem sc;
  if ch =? 93 then '(sc, _) ← vox_scanner_get_char mem sc; built p sc err a (Array [])
  else array_loop (S (Z.to_nat (vox_scanner_remaining sc))) p sc err a [].

(** src/vox_json.c:419-480: parse_object *)
Fixpoint object_loop (fuel : nat) p sc err (a : Z) (members : list (vox_json_member vox_json_elem)) : option result :=
  match fuel with
  | O => None
  | S fuel =>
      let failed p sc err message := err ← set_error err sc message; Some (mp_free p a, sc, err, None) in
      ch ← vox_scanner_peek_char mem sc;
      if negb (ch =? 34) then failed p sc err "Expected object key to be a string"%string else
      '(p, sc, err, key) ← parse_string p sc err;
      match key with
      | Some (Elem k (Text_ name)) =>
          let p := mp_free p k in
          ch ← vox_scanner_peek_char mem sc;
          if negb (ch =? 58) then failed p sc err "Expected ':' after object key"%string else
          '(sc, _) ← vox_scanner_get_char mem sc;
          '(p, sc, err, value) ← parse_value p sc err;
          match value with
          | None => Some (mp_free p a, sc, err, None)
          | Some value =>
              let '(p, m) := mp_alloc p sizeof_member in
              if m =? NULL then failed p sc err "Memory allocation failed"%string else
              let members := members ++ [Member m name value] in
              ch ← vox_scanner_peek_char mem sc;
              if ch =? 125 then '(sc, _) ← vox_scanner_get_char mem sc; built p sc err a (Object members)
              else if ch =? 44 then '(sc, _) ← vox_scanner_get_char mem sc; object_loop fuel p sc err a members
              else failed p sc err "Expected ',' or '}' in object"%string
          end
      | _ => Some (mp_free p a, sc, err, None)
      end
  end.

(** src/vox_json.c: parse_object *)
Definition parse_object p sc err : option result :=
  ch ← vox_scanner_peek_char mem sc;
  if negb (ch =? 123) then fail p sc err "Expected object to start with '{'" else
  '(sc, _) ← vox_scanner_get_char mem sc;
  let '(p, a) := mp_alloc p sizeof_elem in
  if a =? NULL then fail p sc err "Memory allocation failed" else
  ch ← vox_scanner_peek_char mem sc;
  if ch =? 125 then '(sc, _) ← vox_scanner_get_char mem sc; built p sc err a (Object [])
  else object_loop (S (Z.to_nat (vox_scanner_remaining sc))) p sc err a [].
End values.

(** The fuel bounds the nesting.

    src/vox_json.c: parse_value *)
Fixpoint parse_value (fuel : nat) p sc err : option result :=
  match fuel with
  | O => None
  | S fuel =>
      if vox_scanner_eof sc then fail p sc err "Unexpected end of input" else
      ch ← vox_scanner_peek_char mem sc;
      if ch =? 110 then parse_null p sc err
      else if (ch =? 116) || (ch =? 102) then parse_boolean p sc err
      else if (ch =? 45) || isdigit ch then parse_number p sc err
      else if ch =? 34 then parse_string p sc err
      else if ch =? 91 then parse_array (parse_value fuel) p sc err
      else if ch =? 123 then parse_object (parse_value fuel) p sc err
      else fail p sc err "Unexpected character"
  end.

Definition VOX_SCANNER_AUTOSKIP_WS_NL : Z := 3.

(** [text] is what the cells at [buffer] hold, up to the end of their block. The length is [size],
    or up to the terminator; the result has the size that the code writes back.

    src/vox_json.c: vox_json_parse *)
Definition vox_json_parse p (buffer : Z) (text : list Z) (size : option Z) err
  : option (P * option Z * option vox_json_err_info * option vox_json_elem) :=
  let give text := (fun _ => no_error text) <$> err in
  if buffer =? NULL then Some (p, size, give "Invalid parameters"%string, None) else
  buf_len ← match size with Some n => Some n | None => strlen text end;
  r ← vox_scanner_init mem buffer buf_len VOX_SCANNER_AUTOSKIP_WS_NL;
  match r with
  | None => Some (p, size, give "Failed to initialize scanner"%string, None)
  | Some sc =>
      '(p, sc, err, elem) ← parse_value (S (Z.to_nat (end_ sc - begin sc))) p sc err;
      match elem with
      | None => Some (p, size, err, None)
      | Some elem =>
          err ← (if negb (vox_scanner_eof sc) then set_error err sc "Unexpected content after JSON value" else Some err);
          Some (p, (fun _ => vox_scanner_offset sc) <$> size, err, Some elem)
      end
  end.
End parser.


(** ** Trees *)

(** The blocks of an element. *)
Fixpoint blocks (e : vox_json_elem) : list Z :=
  match e with
  | Elem a (Array l) => a :: concat (map blocks l)
  | Elem a (Object l) => a :: concat (map (fun m => m_at m :: blocks (m_value m)) l)
  | Elem a _ => [a]
  end.

(** Every string of the tree is a view of the [n] bytes at [base]. *)
Definition inside_view (base n : Z) (v : view) : Prop := base <= v_ptr v /\ 0 <= v_len v /\ v_ptr v + v_len v <= base + n.
Fixpoint inside (base n : Z) (e : vox_json_elem) : Prop :=
  match e with
  | Elem _ (Text_ v) => inside_view base n v
  | Elem _ (Array l) => fold_right (fun e P => inside base n e /\ P) True l
  | Elem _ (Object l) => fold_right (fun m P => (inside_view base n (m_name m) /\ inside base n (m_value m)) /\ P) True l
  | Elem _ _ => True
  end.

(** The position of a text behind [l], counted in lines and columns. *)
Definition position_after (l : list Z) : Z * Z :=
  foldl (fun '(line, column) ch => if ch =? 10 then (line + 1, 1) else (line, column + 1)) (1, 1) l.

(** The error tells a position of the text. *)
Definition located (whole : list Z) (e : vox_json_err_info) : Prop :=
  exists past rest, whole = past ++ rest /\ offset e = zlen past /\ (line e, column e) = position_after past.

Definition told (whole : list Z) (err err' : option vox_json_err_info) : Prop :=
  match err with None => err' = None | Some _ => exists e, err' = Some e /\ located whole e end.

(** ** A scanner in the text of a document *)

Section reading.
Context (mem : Z -> option Z) (base : Z) (whole : list Z).
Implicit Types (sc : vox_scanner) (rest l : list Z).

(** In front of [rest]. *)
Definition stand sc rest : Prop := exists past, at_pos mem base VOX_SCANNER_AUTOSKIP_WS_NL sc (past, rest) /\ past ++ rest = whole.

(** What the scanner has in front of it after a step. *)
Definition trim rest : list Z := drop_while is_whitespace rest.

Lemma trim_le rest : zlen (trim rest) <= zlen rest.
Proof. unfold trim. rewrite <-(take_drop_while is_whitespace rest) at 2. rewrite zlen_app. pose proof (zlen_nonneg (take_while is_whitespace rest)). lia. Qed.

Lemma stand_here sc rest : stand sc rest -> exists past, past ++ rest = whole /\ begin sc = base /\ 0 < base /\ curptr sc = base + zlen past /\
  end_ sc = base + zlen whole /\ base + zlen whole < 2 ^ 64 /\ holds mem (curptr sc) rest /\ holds mem base whole /\ is_bytes whole.
Proof.
  intros (past & Hp & E). exists past. destruct (pos_bound _ _ _ _ _ Hp) as (H0 & Hc & He & Hm). destruct Hp as (Hs & Hb & _). cbn [fst snd] in *.
  pose proof (sees_rest _ _ _ _ Hs) as Hr. destruct Hs as [_ _ _ _ Hby Hmm]. rewrite E in Hby, Hmm. rewrite Hb in Hmm.
  apply (f_equal zlen) in E as El. rewrite zlen_app in El. split_and!; try done; lia.
Qed.

Lemma stand_step sc rest n : stand sc rest -> (n <= length rest)%nat ->
  exists sc', auto_skip mem (with_cur sc (curptr sc + Z.of_nat n)) = Some sc' /\ stand sc' (trim (drop n rest)).
Proof.
  intros (past & Hp & E) Hn. destruct (advance_pos mem base _ sc _ n Hp Hn) as (sc' & Es & Hp'). exists sc'. split; [done|].
  unfold spec_advance in Hp'. cbn [fst snd] in Hp'. change (skips VOX_SCANNER_AUTOSKIP_WS_NL) with is_whitespace in Hp'.
  eexists. split; [exact Hp'|]. by rewrite <-!app_assoc, take_drop_while, take_drop.
Qed.

Lemma doc_remaining sc rest : stand sc rest -> vox_scanner_remaining sc = zlen rest.
Proof.
  intros (past & E & Hb & H0 & Hc & He & Hm & _)%stand_here. unfold vox_scanner_remaining. rewrite He, Hc, <-E, zlen_app.
  pose proof (zlen_nonneg past). pose proof (zlen_nonneg rest). rewrite <-E, zlen_app in Hm.
  destruct (Z.leb_spec (base + (zlen past + zlen rest)) (base + zlen past)); [lia|]. rewrite u64_small; lia.
Qed.

Lemma stand_eof sc rest : stand sc rest -> vox_scanner_eof sc = match rest with [] => true | _ => false end.
Proof.
  intros (past & E & Hb & H0 & Hc & He & Hm & _)%stand_here. unfold vox_scanner_eof, NULL. rewrite Hb, He, Hc, <-E, zlen_app.
  pose proof (zlen_nonneg past). pose proof (zlen_nonneg rest). rewrite !(proj2 (Z.eqb_neq _ 0)) by lia. cbn [orb].
  destruct rest; [apply Z.leb_le; rewrite zlen_nil; lia|]. rewrite zlen_cons in *. apply Z.leb_gt. pose proof (zlen_nonneg rest). lia.
Qed.

Lemma stand_peek sc rest : stand sc rest -> vox_scanner_peek_char mem sc = Some (default (-1) (head rest)).
Proof.
  intros (past & E & Hb & H0 & Hc & He & Hm & Hh & _)%stand_here. unfold vox_scanner_peek_char.
  pose proof (zlen_nonneg past). rewrite He, Hc, <-E, zlen_app. destruct rest as [|ch rest]; cbn [head default].
  - rewrite zlen_nil, (proj2 (Z.leb_le _ _)) by lia. done.
  - rewrite zlen_cons, (proj2 (Z.leb_gt _ _)) by (pose proof (zlen_nonneg rest); lia). rewrite <-Hc. by apply holds_cons in Hh as [Hh _].
Qed.

Lemma doc_get sc ch rest : stand sc (ch :: rest) -> exists sc', vox_scanner_get_char mem sc = Some (sc', ch) /\ stand sc' (trim rest).
Proof.
  intros Hs. pose proof (stand_here _ _ Hs) as (past & E & Hb & H0 & Hc & He & Hm & Hh & _). unfold vox_scanner_get_char.
  pose proof (zlen_nonneg past). pose proof (zlen_nonneg rest).
  rewrite He, Hc, <-E, zlen_app, zlen_cons, (proj2 (Z.leb_gt _ _)) by lia. rewrite <-Hc. apply holds_cons in Hh as [-> _]. cbn [mbind option_bind].
  destruct (stand_step sc (ch :: rest) 1 Hs) as (sc' & Ea & Hs'); [cbn; lia|]. change (Z.of_nat 1) with 1 in Ea. rewrite Ea. cbn [mbind option_bind]. by exists sc'.
Qed.

Lemma doc_skip sc l rest : stand sc (l ++ rest) -> exists sc', vox_scanner_skip mem sc (zlen l) = Some sc' /\ stand sc' (trim rest).
Proof.
  intros Hs. unfold vox_scanner_skip. rewrite (doc_remaining _ _ Hs), zlen_app. pose proof (zlen_nonneg rest).
  rewrite (proj2 (Z.ltb_ge _ _)) by lia. destruct (stand_step sc (l ++ rest) (length l) Hs) as (sc' & E & Hs'); [rewrite length_app; lia|].
  exists sc'. split; [exact E|]. by rewrite drop_app_length in Hs'.
Qed.

Lemma stand_load sc rest n : stand sc rest -> (n <= length rest)%nat -> load mem (curptr sc) n = Some (take n rest).
Proof. intros (past & _ & _ & _ & _ & _ & _ & Hh & _)%stand_here Hn. by apply load_spec. Qed.

Lemma doc_offset sc rest : stand sc rest -> exists past, past ++ rest = whole /\ vox_scanner_offset sc = zlen past.
Proof.
  intros (past & E & Hb & H0 & Hc & He & Hm & _)%stand_here. exists past. split; [done|]. unfold vox_scanner_offset, NULL.
  rewrite Hb, (proj2 (Z.eqb_neq _ 0)) by lia. rewrite Hc. pose proof (zlen_nonneg past). pose proof (zlen_nonneg rest).
  rewrite <-E, zlen_app in Hm. rewrite u64_small; lia.
Qed.

(** Lines and columns. *)
Lemma locate_spec l : forall fuel ptr line column, holds mem ptr l -> (length l < fuel)%nat -> 0 <= line -> 0 <= column ->
  line + zlen l <= INT_MAX -> column + zlen l <= INT_MAX ->
  locate mem fuel ptr (ptr + zlen l) line column =
    Some (foldl (fun '(line, column) ch => if ch =? 10 then (line + 1, 1) else (line, column + 1)) (line, column) l).
Proof.
  induction l as [|ch l IH]; intros [|fuel] ptr ln col Hh Hf Hl0 Hc0 Hl Hc; cbn [length] in Hf; try lia; cbn [locate foldl].
  - rewrite zlen_nil. by rewrite (proj2 (Z.ltb_ge _ _)) by lia.
  - rewrite zlen_cons in *. pose proof (zlen_nonneg l). rewrite (proj2 (Z.ltb_lt _ _)) by lia.
    apply holds_cons in Hh as [-> Hh]. cbn [mbind option_bind]. rewrite Z.add_assoc.
    destruct (ch =? 10); rewrite (proj2 (Z.ltb_lt _ _)) by lia; apply IH; done || lia.
Qed.

Lemma set_error_told sc rest err message : stand sc rest -> zlen whole < INT_MAX ->
  exists err', set_error mem err sc message = Some err' /\ told whole err err'.
Proof.
  intros Hs Hw. unfold set_error. destruct err as [e|]; [|by eexists].
  pose proof (stand_here _ _ Hs) as (past & E & Hb & H0 & Hc & He & Hm & _ & Hh & _). destruct (doc_offset _ _ Hs) as (past' & E' & Ho).
  assert (past' = past) as -> by (rewrite <-E in E'; by apply app_inv_tail in E').
  assert (zlen past <= zlen whole) as Hl by (rewrite <-E, zlen_app; pose proof (zlen_nonneg rest); lia).
  rewrite Hb, Hc. rewrite locate_spec; [|by rewrite <-E in Hh; apply holds_app in Hh as [Hh _]|unfold zlen; lia|lia..].
  fold (position_after past). destruct (position_after past) as [ln col] eqn:Ep. cbn [mbind option_bind]. eexists. split; [done|]. eexists. split; [done|].
  exists past, rest. split; [done|]. split; [exact Ho|]. by rewrite Ep.
Qed.

(** Bytes of the text and its terminator. *)
Lemma byte_at a : holds mem base whole -> mem (base + zlen whole) = Some 0 -> base <= a <= base + zlen whole ->
  exists ch, mem a = Some ch /\ (a = base + zlen whole -> ch = 0).
Proof.
  intros Hh Ht Ha. destruct (Z.eq_dec a (base + zlen whole)) as [->|Hne]; [by exists 0|].
  destruct (lookup_lt_is_Some_2 whole (Z.to_nat (a - base))) as [ch E]; [unfold zlen in *; lia|]. exists ch. split; [|done].
  specialize (Hh _ _ E). by replace (base + Z.of_nat (Z.to_nat (a - base))) with a in Hh by lia.
Qed.

Lemma while_range f e : forall fuel q, (forall a, q <= a < e -> is_Some (mem a)) -> q <= e -> e - q < Z.of_nat fuel ->
  exists r, while_ mem fuel (fun ch => Some (f ch)) q e = Some r /\ q <= r <= e.
Proof.
  induction fuel as [|fuel IH]; intros q Hm Hq Hf; [lia|]. cbn [while_]. destruct (Z.ltb_spec q e) as [Hlt|Hge]; [|exists q; split; [done|lia]].
  destruct (Hm q) as [ch ->]; [lia|]. cbn [mbind option_bind]. destruct (f ch); [|exists q; split; [done|lia]].
  destruct (IH (q + 1)) as (r & -> & Hr); [intros; apply Hm; lia|lia|lia|]. exists r. split; [done|lia].
Qed.

End reading.

(** ** Escapes *)

(** An even number of backslashes at the end: the next character is not escaped. *)
Definition unescaped (past : list Z) : bool := Nat.even (length (take_while (fun c => c =? 92) (reverse past))).

(** The [n] characters that are looked at as hexadecimal digits, up to the first that is none,
    are below 128. *)
Definition digits_ascii (n : nat) (l : list Z) : Prop :=
  forall k ch, (k < n)%nat -> l !! k = Some ch -> Forall (fun c => isxdigit c = true) (take k l) -> ch < 128.

(** No escape of a code point runs into a byte from 128 on before it has four digits. *)
Definition escapes_ascii (whole : list Z) : Prop :=
  forall past l, whole = past ++ 92 :: 117 :: l -> unescaped past = true -> digits_ascii 4 l.

(** A text of ASCII characters, for one. *)
Lemma ascii_escapes whole : Forall (fun c => c < 128) whole -> escapes_ascii whole.
Proof.
  intros Hw past l -> _ k ch _ Hk _. rewrite Forall_forall in Hw. apply Hw, elem_of_app. right. right. right.
  by eapply list_elem_of_lookup_2.
Qed.

Lemma unescaped_app past l : l <> [] -> Forall (fun c => c <> 92) l -> unescaped (past ++ l) = true.
Proof.
  intros Hne Hl. destruct l as [|c l _] using rev_ind; [done|]. apply Forall_app in Hl as [_ [Hc _]%Forall_cons].
  unfold unescaped. rewrite !reverse_app. cbn [reverse rev_append app take_while]. by rewrite (proj2 (Z.eqb_neq c 92)).
Qed.

Lemma unescaped_pair past : unescaped (past ++ [92; 92]) = unescaped past.
Proof. unfold unescaped. rewrite reverse_app. reflexivity. Qed.

(** ** Parsing is safe *)

Section safe.
Context {P : Type} `{MPoolLaws P} (mem : Z -> option Z) (strtod : list Z -> double * bool) (base : Z) (whole : list Z).
Hypothesis Hend : mem (base + zlen whole) = Some 0.
Hypothesis Hwhole : zlen whole < INT_MAX.
Hypothesis Hesc : escapes_ascii whole.
Implicit Types (p : P) (sc : vox_scanner) (rest l : list Z) (err : option vox_json_err_info).
#[local] Abbreviation stand := (stand mem base whole).

(** What a parser that began in front of [n] bytes leaves; [bs] are the blocks taken before. *)
Definition parse_post (p0 : P) (bs : list Z) err (n : Z) (w : P * vox_scanner * option vox_json_err_info * option vox_json_elem) : Prop :=
  let '(p', sc', err', r) := w in
  exists rest', stand sc' rest' /\ zlen rest' <= n /\
  match r with
  | Some e => zlen rest' < n /\ err' = err /\ took p0 p' (blocks e ++ bs) /\ inside base (zlen whole) e
  | None => told whole err err' /\ exists leak, took p0 p' (leak ++ bs)
  end.

Lemma fail_told p0 p sc rest err n message leak bs : took p0 p (leak ++ bs) -> stand sc rest -> zlen rest <= n ->
  ok (fail mem p sc err message) (parse_post p0 bs err n).
Proof.
  intros Ht Hs Hn. unfold fail. destruct (set_error_told mem base whole sc rest err message Hs Hwhole) as (err' & -> & Htold).
  cbn [mbind option_bind ok parse_post]. exists rest. split; [done|]. split; [done|]. split; [done|by exists leak].
Qed.

Lemma failed_told p0 p sc rest err n message a leak bs : took p0 p (a :: leak ++ bs) -> stand sc rest -> zlen rest <= n ->
  ok (err ← set_error mem err sc message; Some (mp_free p a, sc, err, None)) (parse_post p0 bs err n).
Proof.
  intros Ht Hs Hn. destruct (set_error_told mem base whole sc rest err message Hs Hwhole) as (err' & -> & Htold).
  cbn [mbind option_bind ok parse_post]. exists rest. split; [done|]. split; [done|]. split; [done|]. exists leak. by apply took_free.
Qed.

(** A new block, or the error that there is none. *)
Lemma alloc_told p0 p sc err bs size message k (Q : P * vox_scanner * option vox_json_err_info * option vox_json_elem -> Prop) :
  took p0 p bs -> 0 <= size < 2 ^ 64 ->
  (forall p', took p0 p' bs -> ok (fail mem p' sc err message) Q) ->
  (forall p' a, took p0 p' (a :: bs) -> ok (k p' a) Q) ->
  ok (let '(p, a) := mp_alloc p size in if a =? NULL then fail mem p sc err message else k p a) Q.
Proof.
  intros Ht Hsz Hf Hk. destruct (mp_alloc p size) as [p' a] eqn:E. pose proof (tk_inv _ _ _ Ht) as Hp.
  destruct (Z.eqb_spec a NULL) as [->|Ha].
  - apply Hf. exact (took_app _ _ _ _ _ Ht (took_refused _ _ _ Hp Hsz E)).
  - apply Hk. exact (took_app _ _ _ _ _ Ht (took_alloc _ _ _ _ Hp Hsz E Ha)).
Qed.

Lemma built_told p0 p sc rest err n bs a c : stand sc rest -> zlen rest < n -> took p0 p (blocks (Elem a c) ++ bs) ->
  inside base (zlen whole) (Elem a c) -> ok (built p sc err a c) (parse_post p0 bs err n).
Proof. intros. cbn [built ok parse_post]. exists rest. split; [done|]. split; [lia|done]. Qed.

(** Bytes from the position on, and the terminator. *)
Lemma bytes_here sc rest a : stand sc rest -> curptr sc <= a <= end_ sc -> exists ch, mem a = Some ch /\ (a = end_ sc -> ch = 0).
Proof.
  intros (past & E & Hb & H0' & Hc & He & Hm & _ & Hh & _)%stand_here Ha. rewrite He in *. apply (byte_at mem base whole); [done|done|].
  pose proof (zlen_nonneg past). lia.
Qed.

Lemma skip_len sc rest len : stand sc rest -> 0 <= len <= zlen rest ->
  exists sc', vox_scanner_skip mem sc len = Some sc' /\ stand sc' (trim (drop (Z.to_nat len) rest)).
Proof.
  intros Hs Hl. rewrite <-(take_drop (Z.to_nat len) rest) in Hs. destruct (doc_skip _ _ _ _ _ _ Hs) as (sc' & E & Hs').
  rewrite zlen_take in E. replace (Z.min (Z.of_nat (Z.to_nat len)) (zlen rest)) with len in E by lia. by exists sc'.
Qed.

Lemma trim_drop rest len : 0 < len <= zlen rest -> zlen (trim (drop (Z.to_nat len) rest)) < zlen rest.
Proof. intros Hl. pose proof (trim_le (drop (Z.to_nat len) rest)) as Ht. rewrite zlen_drop in Ht. lia. Qed.

Lemma end_here sc rest : stand sc rest -> end_ sc = curptr sc + zlen rest /\ 0 < curptr sc /\ end_ sc < 2 ^ 64 /\ base <= curptr sc /\ end_ sc = base + zlen whole.
Proof.
  intros (past & E & Hb & H0' & Hc & He & Hm & _)%stand_here. apply (f_equal zlen) in E. rewrite zlen_app in E.
  pose proof (zlen_nonneg past). lia.
Qed.

Lemma null_told p0 p sc rest err bs : took p0 p bs -> stand sc rest -> ok (parse_null mem p sc err) (parse_post p0 bs err (zlen rest)).
Proof.
  intros Ht Hs. unfold parse_null, vox_scanner_curptr. rewrite (doc_remaining _ _ _ _ _ Hs).
  destruct (Z.ltb_spec (zlen rest) 4) as [|Hl]; [by eapply (fail_told _ _ _ _ _ _ _ [])|].
  rewrite (stand_load _ _ _ _ _ 4 Hs) by (unfold zlen in *; lia). cbn [mbind option_bind]. destruct (negb _); [by eapply (fail_told _ _ _ _ _ _ _ [])|].
  destruct (skip_len sc rest 4 Hs) as (sc' & -> & Hs'); [lia|]. cbn [mbind option_bind].
  eapply alloc_told; [exact Ht|done|intros; eapply (fail_told _ _ _ _ _ _ _ []); [done|exact Hs'|by apply Z.lt_le_incl, trim_drop]|]. intros p' a Ha. eapply built_told; [exact Hs'|by apply trim_drop|exact Ha|done].
Qed.

Lemma word_ok sc rest w : stand sc rest -> ok (word_at mem (curptr sc) (zlen rest) w) (fun b => b = true -> zlen (Prelude.bytes_of w) <= zlen rest).
Proof.
  intros Hs. unfold word_at. destruct (Z.leb_spec (zlen (Prelude.bytes_of w)) (zlen rest)) as [Hl|]; [|done].
  rewrite (stand_load _ _ _ _ _ _ Hs) by (unfold zlen in *; lia). by intros _.
Qed.

Lemma boolean_told p0 p sc rest err bs : took p0 p bs -> stand sc rest -> ok (parse_boolean mem p sc err) (parse_post p0 bs err (zlen rest)).
Proof.
  intros Ht Hs. unfold parse_boolean, vox_scanner_curptr. rewrite (doc_remaining _ _ _ _ _ Hs).
  eapply alloc_told; [exact Ht|done|intros; by eapply (fail_told _ _ _ _ _ _ _ [])|]. intros p' a Ha.
  eapply ok_bind; [by apply word_ok|]. intros t Hl. destruct t.
  { specialize (Hl eq_refl). change (zlen (Prelude.bytes_of "true")) with 4 in Hl.
    destruct (skip_len sc rest 4 Hs) as (sc' & -> & Hs'); [lia|]. cbn [mbind option_bind].
    eapply built_told; [exact Hs'|by apply trim_drop|exact Ha|done]. }
  eapply ok_bind; [by apply word_ok|]. intros t Hl'. destruct t; [|by eapply (failed_told _ _ _ _ _ _ _ _ [])].
  specialize (Hl' eq_refl). change (zlen (Prelude.bytes_of "false")) with 5 in Hl'.
  destruct (skip_len sc rest 5 Hs) as (sc' & -> & Hs'); [lia|]. cbn [mbind option_bind].
  eapply built_told; [exact Hs'|by apply trim_drop|exact Ha|done].
Qed.

(** *** Numbers *)

Lemma char_ok sc rest f q : stand sc rest -> curptr sc <= q -> ok (char_at mem sc f q) (fun b => b = true -> q < end_ sc).
Proof.
  intros Hs Hq. unfold char_at. destruct (Z.ltb_spec q (end_ sc)); [|done]. destruct (bytes_here sc rest q Hs) as (ch & -> & _); [lia|]. by intros _.
Qed.

Lemma digits_ok sc rest q : stand sc rest -> curptr sc <= q <= end_ sc -> ok (digits mem sc q) (fun r => q <= r <= end_ sc).
Proof.
  intros Hs Hq. unfold digits, run_while. destruct (while_range mem isdigit (end_ sc) (S (Z.to_nat (end_ sc - q))) q) as (r & -> & Hr);
    [|lia|lia|exact Hr]. intros a Ha. destruct (bytes_here sc rest a Hs) as (ch & -> & _); [lia|done].
Qed.

Definition number_post sc (q : Z) (r : Z + string) : Prop := match r with inl q' => q <= q' <= end_ sc | inr _ => True end.

Lemma int_ok sc rest : stand sc rest -> rest <> [] -> ok (number_int mem sc (curptr sc)) (number_post sc (curptr sc + 1)).
Proof.
  intros Hs Hne. destruct (end_here _ _ Hs) as (He & Hc & _). assert (0 < zlen rest) as Hp.
  { destruct rest; [done|]. rewrite zlen_cons. pose proof (zlen_nonneg rest). lia. }
  unfold number_int. destruct (bytes_here sc rest (curptr sc) Hs) as (ch & -> & _); [lia|]. cbn [mbind option_bind].
  set (q := if ch =? 45 then _ else _). assert (curptr sc <= q <= end_ sc) as Hq by (unfold q; case_one; lia). clearbody q.
  destruct (bytes_here sc rest q Hs Hq) as (c2 & -> & Hz). cbn [mbind option_bind].
  assert (ok (if c2 =? 48 then Some (Some (q + 1)) else if (49 <=? c2) && (c2 <=? 57) then q ← digits mem sc (q + 1); Some (Some q) else Some None)
    (fun r => match r with Some q' => curptr sc + 1 <= q' <= end_ sc | None => True end)) as Hr.
  { destruct (Z.eqb_spec c2 48) as [->|]; [cbn [ok]; lia|]. destruct ((49 <=? c2) && _) eqn:E; [|done].
    apply andb_true_iff in E as [E%Z.leb_le _]. assert (q <> end_ sc) by (intros ->%Hz; lia).
    eapply ok_bind; [eapply digits_ok; [exact Hs|lia]|]. intros r Hr. cbn beta in Hr. cbn [ok]. lia. }
  eapply ok_bind; [exact Hr|]. intros [q'|] Hq'; [|done]. cbn beta iota in Hq'. clear Hr.
  assert (ok (if (1 <=? q' - curptr sc) && (q' - curptr sc <=? 2) then ch ← mem (q' - 1); Some (ch =? 48) else Some false) (fun _ => True)) as Hzero.
  { destruct ((1 <=? _) && _); [|exact I]. destruct (bytes_here sc rest (q' - 1) Hs) as (c3 & -> & _); [lia|exact I]. }
  eapply ok_bind; [exact Hzero|]. intros zero _. eapply (ok_bind _ _ (fun _ => True)).
  { destruct zero; [|done]. eapply ok_mono; [eapply char_ok; [exact Hs|lia]|done]. }
  intros more _. by destruct more.
Qed.

Lemma frac_ok sc rest q : stand sc rest -> curptr sc <= q <= end_ sc -> ok (number_frac mem sc q) (number_post sc q).
Proof.
  intros Hs Hq. unfold number_frac. eapply ok_bind; [eapply char_ok; [exact Hs|lia]|]. intros [|] Hd; cbn [negb]; [|cbn [ok number_post]; lia].
  specialize (Hd eq_refl); cbn beta in Hd. eapply ok_bind; [eapply char_ok; [exact Hs|lia]|]. intros [|] _; cbn [negb]; [|done].
  eapply ok_bind; [eapply digits_ok; [exact Hs|lia]|]. intros r Hr. cbn beta in Hr. cbn [ok number_post]. lia.
Qed.

Lemma exp_ok sc rest q : stand sc rest -> curptr sc <= q <= end_ sc -> ok (number_exp mem sc q) (number_post sc q).
Proof.
  intros Hs Hq. unfold number_exp. eapply ok_bind; [eapply char_ok; [exact Hs|lia]|]. intros [|] Hd; cbn [negb]; [|cbn [ok number_post]; lia].
  specialize (Hd eq_refl); cbn beta in Hd. eapply ok_bind; [eapply char_ok; [exact Hs|lia]|]. intros sign Hsg. cbn beta in Hsg.
  eapply ok_bind; [eapply char_ok; [exact Hs|by destruct sign; lia]|]. intros [|] Hd2; cbn [negb]; [|done]. specialize (Hd2 eq_refl); cbn beta in Hd2.
  eapply ok_bind; [eapply digits_ok; [exact Hs|destruct sign; lia]|]. intros r Hr. cbn beta in Hr. cbn [ok number_post]. destruct sign; lia.
Qed.

Lemma number_told p0 p sc rest err bs : took p0 p bs -> stand sc rest -> rest <> [] ->
  ok (parse_number mem strtod p sc err) (parse_post p0 bs err (zlen rest)).
Proof.
  intros Ht Hs Hne. unfold parse_number, vox_scanner_curptr. destruct (end_here _ _ Hs) as (He & Hc & Hm & _).
  eapply ok_bind; [by eapply int_ok|]. intros [q1|?] Hq1; [|by eapply (fail_told _ _ _ _ _ _ _ [])]. cbn [number_post] in Hq1.
  eapply ok_bind; [eapply frac_ok; [exact Hs|lia]|]. intros [q2|?] Hq2; [|by eapply (fail_told _ _ _ _ _ _ _ [])]. cbn [number_post] in Hq2.
  eapply ok_bind; [eapply exp_ok; [exact Hs|lia]|]. intros [q3|?] Hq3; [|by eapply (fail_told _ _ _ _ _ _ _ [])]. cbn [number_post] in Hq3.
  unfold number_value. rewrite (u64_small (q3 - curptr sc)) by lia. set (len := q3 - curptr sc). assert (0 < len <= zlen rest) as Hlen by (unfold len; lia).
  eapply alloc_told; [exact Ht|apply u64_range|intros; by eapply (fail_told _ _ _ _ _ _ _ [])|]. intros p1 s Hs1.
  rewrite (stand_load _ _ _ _ _ _ Hs) by (unfold zlen in *; lia). cbn [mbind option_bind]. destruct (strtod _) as [v er].
  apply took_free in Hs1. destruct (er || _); [by eapply (fail_told _ _ _ _ _ _ _ [])|].
  destruct (skip_len sc rest len Hs) as (sc' & -> & Hs'); [lia|]. cbn [mbind option_bind].
  eapply alloc_told; [exact Hs1|done|intros; eapply (fail_told _ _ _ _ _ _ _ []); [done|exact Hs'|by apply Z.lt_le_incl, trim_drop]|]. intros p' a Ha. eapply built_told; [exact Hs'|by apply trim_drop|exact Ha|done].
Qed.

(** *** Strings *)

Lemma hex4_ok past l n : holds mem base whole -> whole = past ++ l -> digits_ascii n l ->
  ok (hex4 mem n (base + zlen past) (base + zlen whole)) (fun r => match r with
    | Some q => exists h l', l = h ++ l' /\ length h = n /\ q = base + zlen (past ++ h) /\ Forall (fun c => isxdigit c = true) h
    | None => True end).
Proof.
  intros Hh. revert past l. induction n as [|n IH]; intros past l El Hd; cbn [hex4].
  { exists [], l. by rewrite app_nil_r. }
  rewrite El, zlen_app. destruct l as [|ch l]; [by rewrite zlen_nil, (proj2 (Z.leb_le _ _)) by lia|].
  pose proof (zlen_nonneg l). rewrite zlen_cons, (proj2 (Z.leb_gt _ _)) by lia.
  rewrite El in Hh. apply holds_app in Hh as Hc. destruct Hc as [_ [-> _]%holds_cons]. cbn [mbind option_bind]. rewrite <-El in Hh.
  rewrite (proj2 (Z.ltb_lt ch 128)) by (apply (Hd 0%nat); [lia|done|constructor]).
  destruct (isxdigit ch) eqn:Ex; cbn [negb]; [|done].
  assert (whole = (past ++ [ch]) ++ l) as El' by (by rewrite <-app_assoc).
  eapply ok_mono.
  - replace (base + zlen past + 1) with (base + zlen (past ++ [ch])) by (rewrite zlen_app, zlen_cons, zlen_nil; lia).
    replace (base + (zlen past + (1 + zlen l))) with (base + zlen whole) by (rewrite El, zlen_app, zlen_cons; lia).
    apply (IH _ l El'). intros k c Hk E Hf. apply (Hd (S k) c); [lia|done|]. by constructor.
  - intros [q|]; [|done]. intros (h & l' & -> & Hn & -> & Hf). exists (ch :: h), l'.
    split; [done|]. split; [cbn; lia|]. split; [by rewrite <-app_assoc|by constructor].
Qed.

(** The loop over a string, from behind [past], where the next character is not escaped. *)
Lemma string_end_ok fuel : forall past l, holds mem base whole -> whole = past ++ l -> unescaped past = true -> (length l < fuel)%nat ->
  ok (string_end mem fuel (base + zlen past) (base + zlen whole)) (fun r => match r with
    | inl q => base + zlen past <= q <= base + zlen whole /\ (q < base + zlen whole -> mem q = Some 34) | inr _ => True end).
Proof.
  intros past l Hh. revert past l. induction fuel as [|fuel IH]; intros past l El Hu Hf; [lia|]. cbn [string_end].
  assert (zlen whole = zlen past + zlen l) as Ez by (by rewrite El, zlen_app). pose proof (zlen_nonneg l) as Hl0.
  destruct l as [|ch l]; [rewrite zlen_nil in Ez; rewrite (proj2 (Z.ltb_ge _ _)) by lia; cbn [ok]; lia|].
  rewrite zlen_cons in Ez. cbn [length] in Hf. pose proof (zlen_nonneg l). rewrite (proj2 (Z.ltb_lt _ _)) by lia.
  assert (forall x l', whole = (past ++ x) ++ l' -> (0 < length x)%nat -> unescaped (past ++ x) = true -> (length l' < fuel)%nat ->
    ok (string_end mem fuel (base + zlen past + zlen x) (base + zlen whole))
    (fun r => match r with inl q => base + zlen past <= q <= base + zlen whole /\ (q < base + zlen whole -> mem q = Some 34) | inr _ => True end)) as Hnext.
  { intros x l' E _ Hu' Hl'. pose proof (IH _ l' E Hu' Hl') as Hi. rewrite zlen_app, Z.add_assoc in Hi.
    eapply ok_mono; [exact Hi|]. intros [q|]; [|done]. pose proof (zlen_nonneg x). intros [? ?]. split; [lia|done]. }
  pose proof Hh as Hhc. rewrite El in Hhc. apply holds_app in Hhc as [_ [Hch Hrest]%holds_cons]. rewrite Hch. cbn [mbind option_bind].
  destruct (Z.eqb_spec ch 34) as [->|]; [cbn [ok]; split; [lia|done]|].
  destruct (Z.eqb_spec ch 92) as [->|Hb].
  2: { apply (Hnext [ch] l); [by rewrite <-app_assoc|cbn; lia| |lia]. apply unescaped_app; [done|by apply Forall_singleton]. }
  cbv zeta. destruct (Z.leb_spec (base + zlen whole) (base + zlen past + 1)); [done|].
  destruct l as [|c l]; [rewrite zlen_nil in Ez; lia|]. rewrite zlen_cons in Ez. cbn [length] in Hf. pose proof (zlen_nonneg l).
  apply holds_cons in Hrest as [Hc _]. rewrite Hc. cbn [mbind option_bind].
  destruct (Z.eqb_spec c 117) as [->|Hcu].
  - assert (whole = (past ++ [92; 117]) ++ l) as El2 by (by rewrite <-app_assoc).
    pose proof (hex4_ok _ l 4 Hh El2 (Hesc past l El Hu)) as Hx.
    rewrite zlen_app in Hx. change (zlen [92; 117]) with 2 in Hx. replace (base + (zlen past + 2)) with (base + zlen past + 1 + 1) in Hx by lia.
    eapply ok_bind; [exact Hx|]. intros [q|]; [|done]. intros (h & l' & -> & Hn & -> & Hd). rewrite length_app in Hf.
    rewrite <-(assoc_L (++)), (zlen_app past), Z.add_assoc. apply (Hnext ([92; 117] ++ h) l').
    + rewrite El2, <-!app_assoc. done.
    + cbn. lia.
    + rewrite (assoc_L (++)). apply unescaped_app; [by destruct h|].
      eapply Forall_impl; [exact Hd|]. intros x Hx2 ->. discriminate Hx2.
    + lia.
  - replace (base + zlen past + 1 + 1) with (base + zlen past + zlen [92; c]) by (change (zlen [92; c]) with 2; lia).
    apply (Hnext [92; c] l); [by rewrite <-app_assoc|cbn; lia| |lia].
    destruct (Z.eq_dec c 92) as [->|Hc92]; [by rewrite unescaped_pair|].
    change [92; c] with ([92] ++ [c]). rewrite (assoc_L (++)). apply unescaped_app; [done|by apply Forall_singleton].
Qed.

(** Behind an opening quote and the blanks after it. *)
Lemma opened_unescaped past past' rest : past ++ 34 :: rest = past' ++ trim rest -> unescaped past' = true.
Proof.
  intros E. rewrite <-(take_drop_while is_whitespace rest) in E at 1. change (drop_while is_whitespace rest) with (trim rest) in E.
  rewrite app_comm_cons, (assoc_L (++)) in E. apply app_inv_tail in E as <-. apply unescaped_app; [done|].
  constructor; [done|]. apply Forall_forall. intros c Hc ->.
  assert (Forall (fun c => is_whitespace c = true) (take_while is_whitespace rest)) as Hw.
  { clear. induction rest as [|c rest IH]; cbn [take_while]; [constructor|]. destruct (is_whitespace c) eqn:E; [by constructor|constructor]. }
  rewrite Forall_forall in Hw. specialize (Hw _ Hc). discriminate Hw.
Qed.

Lemma stand_at sc rest i ch : stand sc rest -> mem (curptr sc + i) = Some ch -> 0 <= i < zlen rest -> rest !! Z.to_nat i = Some ch.
Proof.
  intros (past & _ & _ & _ & _ & _ & _ & Hh & _)%stand_here Hm Hi.
  destruct (lookup_lt_is_Some_2 rest (Z.to_nat i)) as [x Ex]; [unfold zlen in *; lia|]. pose proof (Hh _ _ Ex) as E.
  replace (curptr sc + Z.of_nat (Z.to_nat i)) with (curptr sc + i) in E by lia. congruence.
Qed.


Lemma take_lookup rest n ch : rest !! n = Some ch -> rest = take n rest ++ ch :: drop (S n) rest.
Proof. intros E. rewrite <-(take_drop n rest) at 1. f_equal. by apply drop_S. Qed.

Lemma string_told p0 p sc rest err bs : took p0 p bs -> stand sc rest ->
  ok (parse_string mem p sc err) (fun w => parse_post p0 bs err (zlen rest) w /\
    match w.2 with Some e => exists a v, e = Elem a (Text_ v) /\ inside_view base (zlen whole) v | None => True end).
Proof.
  intros Ht Hs. unfold parse_string, vox_scanner_curptr. match goal with |- ok _ ?R => set (Q := R) end.
  assert (forall p1 sc1 rest1 m, took p0 p1 bs -> stand sc1 rest1 -> zlen rest1 <= zlen rest -> ok (fail mem p1 sc1 err m) Q) as Hfail.
  { intros p1 sc1 rest1 m Ht1 Hs1 Hle. pose proof (fail_told p0 p1 sc1 rest1 err (zlen rest) m [] bs Ht1 Hs1 Hle) as Hf. unfold fail in *.
    destruct (set_error _ _ _ _); [|done]. cbn [mbind option_bind ok] in *. by split. }
  rewrite (stand_peek _ _ _ _ _ Hs). cbn [mbind option_bind]. destruct rest as [|c rest]; cbn [head default id]; [by eapply Hfail|].
  destruct (Z.eqb_spec c 34) as [->|]; cbn [negb]; [|by eapply Hfail]. destruct (doc_get _ _ _ _ _ _ Hs) as (sc1 & -> & Hs1). cbn [mbind option_bind].
  pose proof (trim_le rest) as Htr. rewrite zlen_cons in *. set (r1 := trim rest) in *. destruct (end_here _ _ Hs1) as (He & Hc & Hm & Hbc & Heb).
  assert (ok (string_end mem (S (Z.to_nat (end_ sc1 - curptr sc1))) (curptr sc1) (end_ sc1))
    (fun r => match r with inl q => curptr sc1 <= q <= end_ sc1 /\ (q < end_ sc1 -> mem q = Some 34) | inr _ => True end)) as Hse.
  { pose proof (stand_here _ _ _ _ _ Hs1) as (past1 & E1 & _ & _ & Hc1 & He1 & _ & _ & Hhw & _). rewrite Hc1, He1.
    apply (string_end_ok _ past1 r1 Hhw (eq_sym E1)).
    - pose proof (stand_here _ _ _ _ _ Hs) as (past & E & _). apply (opened_unescaped past past1 rest). subst r1. congruence.
    - apply (f_equal zlen) in E1. rewrite zlen_app in E1. unfold zlen in *. lia. }
  eapply ok_bind; [exact Hse|]. clear Hse.
  intros [q|?] Hq; [|eapply Hfail; [done|exact Hs1|lia]]. destruct Hq as [Hq Hquote].
  destruct (Z.leb_spec (end_ sc1) q) as [|Hlt]; [eapply Hfail; [done|exact Hs1|lia]|]. specialize (Hquote Hlt).
  set (len := u64 (q - curptr sc1)). assert (len = q - curptr sc1) as Hlen by (unfold len; rewrite u64_small; lia).
  assert (r1 !! Z.to_nat len = Some 34) as Hl by (apply (stand_at sc1); [done|rewrite Hlen; by replace (curptr sc1 + (q - curptr sc1)) with q by lia|lia]).
  pose proof (take_lookup _ _ _ Hl) as Er. set (l := take (Z.to_nat len) r1) in *. set (r2 := drop (S (Z.to_nat len)) r1) in *.
  assert (zlen l = len) as Hzl by (unfold l; rewrite zlen_take; lia). rewrite Er in Hs1. destruct (doc_skip _ _ _ _ _ _ Hs1) as (sc2 & E2 & Hs2).
  rewrite Hzl in E2. rewrite E2. cbn [mbind option_bind]. change (trim (34 :: r2)) with (34 :: r2) in Hs2.
  rewrite (stand_peek _ _ _ _ _ Hs2). cbn [head default id mbind option_bind Z.eqb Pos.eqb negb].
  destruct (doc_get _ _ _ _ _ _ Hs2) as (sc3 & -> & Hs3). cbn [mbind option_bind].
  assert (zlen (trim r2) < 1 + zlen rest) as Hshort.
  { pose proof (trim_le r2) as Ht2. apply (f_equal zlen) in Er. rewrite zlen_app, zlen_cons in Er. pose proof (zlen_nonneg l). lia. }
  eapply alloc_told; [exact Ht|done|intros; eapply Hfail; [done|exact Hs3|lia]|]. intros p' a Ha.
  assert (inside_view base (zlen whole) (View (curptr sc1) len)) as Hin by (unfold inside_view; cbn [v_ptr v_len]; lia).
  split; [|by exists a, (View (curptr sc1) len)]. exists (trim r2). split; [exact Hs3|]. rewrite zlen_cons. split; [lia|]. split; [lia|]. split; [done|]. by split.
Qed.

(** *** Arrays and objects *)

Lemma swap_front (X C bs : list Z) a : X ++ a :: C ++ bs ≡ₚ a :: (C ++ X) ++ bs.
Proof. by rewrite <-Permutation_middle, app_assoc, (Permutation_app_comm X C). Qed.

Section containers.
Context (pv : P -> vox_scanner -> option vox_json_err_info ->
           option (P * vox_scanner * option vox_json_err_info * option vox_json_elem)) (depth : Z).
Hypothesis Hpv : forall p0 p sc rest err bs, took p0 p bs -> stand sc rest -> zlen rest < depth ->
  ok (pv p sc err) (parse_post p0 bs err (zlen rest)).

Lemma array_loop_told fuel : forall p0 p sc rest err bs a items n, took p0 p (a :: concat (map blocks items) ++ bs) -> stand sc rest -> zlen rest < n ->
  zlen rest < depth -> zlen rest < Z.of_nat fuel -> inside base (zlen whole) (Elem a (Array items)) ->
  ok (array_loop mem pv fuel p sc err a items) (parse_post p0 bs err n).
Proof.
  induction fuel as [|fuel IH]; intros p0 p sc rest err bs a items n Ht Hs Hn Hd Hf Hin; [pose proof (zlen_nonneg rest); lia|]. cbn [array_loop].
  eapply ok_bind; [by eapply Hpv|]. intros [[[p1 sc1] err1] [item|]] (r1 & Hs1 & Hle & Hr).
  2: { cbn [ok parse_post]. exists r1. split; [done|]. split; [lia|]. split; [apply Hr|]. destruct Hr as (_ & leak & Hl).
       exists (leak ++ concat (map blocks items)). apply took_free. rewrite <-app_assoc. by rewrite (Permutation_middle leak _ a). }
  destruct Hr as (Hlt & -> & Ht1 & Hi1).
  assert (took p0 p1 (a :: concat (map blocks (items ++ [item])) ++ bs)) as Ht2.
  { rewrite map_app, concat_app. cbn [map concat]. rewrite app_nil_r. eapply took_perm; [exact Ht1|]. apply swap_front. }
  assert (inside base (zlen whole) (Elem a (Array (items ++ [item])))) as Hin2.
  { cbn [inside] in *. clear -Hin Hi1. induction items as [|i items IHi]; cbn [fold_right app] in *; [done|]. split; [apply Hin|]. by apply IHi, Hin. }
  rewrite (stand_peek _ _ _ _ _ Hs1). cbn [mbind option_bind]. destruct r1 as [|c r1]; cbn [head default id].
  { cbn [Z.eqb]. eapply failed_told; [exact Ht2|exact Hs1|lia]. }
  rewrite zlen_cons in *. pose proof (trim_le r1). destruct (doc_get _ _ _ _ _ _ Hs1) as (sc2 & -> & Hs2). cbn [mbind option_bind].
  destruct (c =? 93); [eapply built_told; [exact Hs2|lia|exact Ht2|done]|].
  destruct (c =? 44); [|eapply failed_told; [exact Ht2|exact Hs1|rewrite zlen_cons; lia]]. eapply IH; [exact Ht2|exact Hs2|lia..|done].
Qed.

Lemma array_told p0 p sc rest err bs : took p0 p bs -> stand sc rest -> zlen rest <= depth ->
  ok (parse_array mem pv p sc err) (parse_post p0 bs err (zlen rest)).
Proof.
  intros Ht Hs Hd. unfold parse_array. rewrite (stand_peek _ _ _ _ _ Hs). cbn [mbind option_bind].
  destruct rest as [|c rest]; cbn [head default id]; [by eapply (fail_told _ _ _ _ _ _ _ [])|].
  destruct (negb (c =? 91)); [by eapply (fail_told _ _ _ _ _ _ _ [])|]. destruct (doc_get _ _ _ _ _ _ Hs) as (sc1 & -> & Hs1). cbn [mbind option_bind].
  pose proof (trim_le rest). rewrite zlen_cons in *.
  eapply alloc_told; [exact Ht|done|intros; eapply (fail_told _ _ _ _ _ _ _ []); [done|exact Hs1|lia]|]. intros p1 a Ha.
  rewrite (stand_peek _ _ _ _ _ Hs1), (doc_remaining _ _ _ _ _ Hs1). cbn [mbind option_bind].
  assert (ok (array_loop mem pv (S (Z.to_nat (zlen (trim rest)))) p1 sc1 err a []) (parse_post p0 bs err (1 + zlen rest))) as Hloop.
  { eapply array_loop_told; [exact Ha|exact Hs1|lia..|done]. }
  destruct (trim rest) as [|c2 r2] eqn:Er; cbn [head default id]; [exact Hloop|].
  destruct (c2 =? 93); [|exact Hloop]. destruct (doc_get _ _ _ _ _ _ Hs1) as (sc2 & -> & Hs2). cbn [mbind option_bind].
  eapply built_told; [exact Hs2| |exact Ha|done]. pose proof (trim_le r2). rewrite zlen_cons in *. lia.
Qed.

Definition member_blocks (m : vox_json_member vox_json_elem) : list Z := m_at m :: blocks (m_value m).

Lemma object_loop_told fuel : forall p0 p sc rest err bs a ms n, took p0 p (a :: concat (map member_blocks ms) ++ bs) -> stand sc rest -> zlen rest < n ->
  zlen rest < depth -> zlen rest < Z.of_nat fuel -> inside base (zlen whole) (Elem a (Object ms)) ->
  ok (object_loop mem pv fuel p sc err a ms) (parse_post p0 bs err n).
Proof.
  induction fuel as [|fuel IH]; intros p0 p sc rest err bs a ms n Ht Hs Hn Hd Hf Hin; [pose proof (zlen_nonneg rest); lia|]. cbn [object_loop].
  rewrite (stand_peek _ _ _ _ _ Hs). cbn [mbind option_bind]. cbv zeta.
  destruct (negb (_ =? 34)); [by eapply failed_told; [exact Ht|exact Hs|lia]|].
  eapply ok_bind; [by eapply string_told|]. intros [[[p1 sc1] err1] [key|]] [(r1 & Hs1 & Hle1 & Hr) Hkey]; cbn [snd] in Hkey.
  2: { cbn [ok parse_post]. exists r1. split; [done|]. split; [lia|]. split; [apply Hr|]. destruct Hr as (_ & leak & Hl).
       exists (leak ++ concat (map member_blocks ms)). apply took_free. rewrite <-app_assoc. by rewrite (Permutation_middle leak _ a). }
  destruct Hkey as (k & name & -> & Hname). destruct Hr as (Hlt1 & -> & Ht1 & _). cbn [blocks app] in Ht1. apply took_free in Ht1.
  set (p2 := mp_free p1 k) in *. rewrite (stand_peek _ _ _ _ _ Hs1). cbn [mbind option_bind].
  destruct r1 as [|c r1]; cbn [head default id]; [cbn [Z.eqb negb]; eapply failed_told; [exact Ht1|exact Hs1|lia]|].
  rewrite zlen_cons in *. pose proof (trim_le r1).
  destruct (negb (c =? 58)); [eapply failed_told; [exact Ht1|exact Hs1|rewrite zlen_cons; lia]|].
  destruct (doc_get _ _ _ _ _ _ Hs1) as (sc2 & -> & Hs2). cbn [mbind option_bind].
  eapply ok_bind; [eapply Hpv; [exact Ht1|exact Hs2|lia]|]. intros [[[p3 sc3] err3] [value|]] (r3 & Hs3 & Hle3 & Hr).
  2: { cbn [ok parse_post]. exists r3. split; [done|]. split; [lia|]. split; [apply Hr|]. destruct Hr as (_ & leak & Hl).
       exists (leak ++ concat (map member_blocks ms)). apply took_free. rewrite <-app_assoc. by rewrite (Permutation_middle leak _ a). }
  destruct Hr as (Hlt3 & -> & Ht3 & Hi3). destruct (mp_alloc p3 sizeof_member) as [p4 m] eqn:Em.
  pose proof (tk_inv _ _ _ Ht3) as Hp3. destruct (Z.eqb_spec m NULL) as [->|Hm].
  { pose proof (took_app _ _ _ _ _ Ht3 (took_refused _ _ sizeof_member Hp3 ltac:(done) Em)) as Ht4. cbn [app] in Ht4.
    eapply (failed_told _ _ _ _ _ _ _ _ (blocks value ++ concat (map member_blocks ms)));
      [rewrite <-app_assoc; by rewrite (Permutation_middle (blocks value) _ a)|exact Hs3|lia]. }
  pose proof (took_app _ _ _ _ _ Ht3 (took_alloc _ _ sizeof_member _ Hp3 ltac:(done) Em Hm)) as Ht4.
  set (ms' := ms ++ [Member m name value]).
  assert (took p0 p4 (a :: concat (map member_blocks ms') ++ bs)) as Ht5.
  { unfold ms'. rewrite map_app, concat_app. cbn [map concat]. rewrite app_nil_r. eapply took_perm; [exact Ht4|].
    apply (swap_front (m :: blocks value)). }
  assert (inside base (zlen whole) (Elem a (Object ms'))) as Hin5.
  { unfold ms'. cbn [inside] in *. clear -Hin Hi3 Hname. induction ms as [|i ms IHi]; cbn [fold_right app] in *; [done|]. split; [apply Hin|]. by apply IHi, Hin. }
  rewrite (stand_peek _ _ _ _ _ Hs3). cbn [mbind option_bind]. destruct r3 as [|c3 r3]; cbn [head default id].
  { cbn [Z.eqb]. eapply failed_told; [exact Ht5|exact Hs3|lia]. }
  rewrite zlen_cons in *. pose proof (trim_le r3). destruct (doc_get _ _ _ _ _ _ Hs3) as (sc4 & -> & Hs4). cbn [mbind option_bind].
  destruct (c3 =? 125); [eapply built_told; [exact Hs4|lia|exact Ht5|done]|].
  destruct (c3 =? 44); [|eapply failed_told; [exact Ht5|exact Hs3|rewrite zlen_cons; lia]]. eapply IH; [exact Ht5|exact Hs4|lia..|done].
Qed.

Lemma object_told p0 p sc rest err bs : took p0 p bs -> stand sc rest -> zlen rest <= depth ->
  ok (parse_object mem pv p sc err) (parse_post p0 bs err (zlen rest)).
Proof.
  intros Ht Hs Hd. unfold parse_object. rewrite (stand_peek _ _ _ _ _ Hs). cbn [mbind option_bind].
  destruct rest as [|c rest]; cbn [head default id]; [by eapply (fail_told _ _ _ _ _ _ _ [])|].
  destruct (negb (c =? 123)); [by eapply (fail_told _ _ _ _ _ _ _ [])|]. destruct (doc_get _ _ _ _ _ _ Hs) as (sc1 & -> & Hs1). cbn [mbind option_bind].
  pose proof (trim_le rest). rewrite zlen_cons in *.
  eapply alloc_told; [exact Ht|done|intros; eapply (fail_told _ _ _ _ _ _ _ []); [done|exact Hs1|lia]|]. intros p1 a Ha.
  rewrite (stand_peek _ _ _ _ _ Hs1), (doc_remaining _ _ _ _ _ Hs1). cbn [mbind option_bind].
  assert (ok (object_loop mem pv (S (Z.to_nat (zlen (trim rest)))) p1 sc1 err a []) (parse_post p0 bs err (1 + zlen rest))) as Hloop.
  { eapply object_loop_told; [exact Ha|exact Hs1|lia..|done]. }
  destruct (trim rest) as [|c2 r2] eqn:Er; cbn [head default id]; [exact Hloop|].
  destruct (c2 =? 125); [|exact Hloop]. destruct (doc_get _ _ _ _ _ _ Hs1) as (sc2 & -> & Hs2). cbn [mbind option_bind].
  eapply built_told; [exact Hs2| |exact Ha|done]. pose proof (trim_le r2). rewrite zlen_cons in *. lia.
Qed.
End containers.

Lemma value_told fuel : forall p0 p sc rest err bs, took p0 p bs -> stand sc rest -> zlen rest < Z.of_nat fuel ->
  ok (parse_value mem strtod fuel p sc err) (parse_post p0 bs err (zlen rest)).
Proof.
  induction fuel as [|fuel IH]; intros p0 p sc rest err bs Ht Hs Hf; [pose proof (zlen_nonneg rest); lia|]. cbn [parse_value].
  rewrite (stand_eof _ _ _ _ _ Hs), (stand_peek _ _ _ _ _ Hs). cbn [mbind option_bind].
  destruct rest as [|c rest]; [by eapply (fail_told _ _ _ _ _ _ _ [])|]. cbn [head default id].
  destruct (c =? 110); [by apply null_told|]. destruct (_ || _); [by apply boolean_told|]. destruct (_ || isdigit c); [by apply number_told|].
  destruct (c =? 34). { eapply ok_mono; [by apply string_told|]. by intros w [? _]. }
  destruct (c =? 91); [eapply (array_told _ (Z.of_nat fuel)); [|done|done|lia]; by apply IH|].
  destruct (c =? 123); [eapply (object_told _ (Z.of_nat fuel)); [|done|done|lia]; by apply IH|]. by eapply (fail_told _ _ _ _ _ _ _ []).
Qed.
End safe.

(** ** Parsing a text in memory *)

(** The document [whole], with its terminator, is the text at [buffer]. *)
Record document (mem : Z -> option Z) (buffer : Z) (whole : list Z) : Prop := {
  doc_at : 0 < buffer;
  doc_end : buffer + zlen whole < 2 ^ 64;
  doc_short : zlen whole < INT_MAX;
  doc_bytes : is_bytes whole;
  doc_mem : holds mem buffer (whole ++ [0]);
}.

(** The size is given, or found with [strlen]. *)
Definition sized (whole text : list Z) (size : option Z) : Prop :=
  match size with Some n => n = zlen whole | None => strlen text = Some (zlen whole) end.

Lemma document_init mem buffer whole : document mem buffer whole ->
  exists sc, vox_scanner_init mem buffer (zlen whole) VOX_SCANNER_AUTOSKIP_WS_NL = Some (Some sc) /\ stand mem buffer whole sc (trim whole) /\
    mem (buffer + zlen whole) = Some 0.
Proof.
  intros [H0 He _ Hb Hm]. destruct (init_at mem buffer whole VOX_SCANNER_AUTOSKIP_WS_NL H0 He Hb Hm) as (sc & E & Hp). exists sc. split; [done|].
  split; [|by apply holds_app in Hm as [_ [Hm _]%holds_cons]].
  unfold spec_advance in Hp. cbn [fst snd app take] in Hp. rewrite drop_0 in Hp. change (skips VOX_SCANNER_AUTOSKIP_WS_NL) with is_whitespace in Hp.
  eexists. split; [exact Hp|]. apply take_drop_while.
Qed.

Section parsing.
Context {P : Type} `{MPoolLaws P} (mem : Z -> option Z) (strtod : list Z -> double * bool).

Lemma parse_opened (p : P) buffer whole text size err : document mem buffer whole -> sized whole text size ->
  exists sc, stand mem buffer whole sc (trim whole) /\ mem (buffer + zlen whole) = Some 0 /\ begin sc = buffer /\ end_ sc = buffer + zlen whole /\
  vox_json_parse mem strtod p buffer text size err =
    ('(p, sc, err, elem) ← parse_value mem strtod (S (Z.to_nat (end_ sc - begin sc))) p sc err;
     match elem with
     | None => Some (p, size, err, None)
     | Some elem =>
         err ← (if negb (vox_scanner_eof sc) then set_error mem err sc "Unexpected content after JSON value" else Some err);
         Some (p, (fun _ => vox_scanner_offset sc) <$> size, err, Some elem)
     end).
Proof.
  intros Hd Hsz. destruct (document_init _ _ _ Hd) as (sc & E & Hs & Hz). exists sc. split; [done|]. split; [done|].
  pose proof (stand_here _ _ _ _ _ Hs) as (past & _ & Hb & _ & _ & He & _). split; [done|]. split; [done|]. unfold vox_json_parse.
  destruct Hd. rewrite (proj2 (Z.eqb_neq _ _)) by (unfold NULL; lia).
  assert ((match size with Some n => Some n | None => strlen text end) = Some (zlen whole)) as -> by (unfold sized in Hsz; destruct size; congruence).
  cbn [mbind option_bind]. by rewrite E.
Qed.

(** C36: vox_json_parse on any text of less than 2^31 - 1 bytes, with its terminator, and in any pool reads nothing outside the
    text and its terminator, and ends - if no escape of a code point in it has a byte from 128 on before its fourth hexadecimal digit
    (a text of ASCII characters, for one): such a byte is given to isxdigit as a negative char, which is undefined behaviour
    (escape_undefined). A tree that is returned has taken exactly its own blocks, and its strings are parts of the text. If the whole text was used the error
    information is untouched, otherwise it tells the line, the column and the offset of the rest; the size is the offset.
    Without a tree the error information tells where the parser gave up, and no block of anybody else is touched. *)
Theorem json_parse_safe (p : P) buffer whole text size err :
  mp_inv p -> document mem buffer whole -> escapes_ascii whole -> sized whole text size ->
  exists p' size' err' r, vox_json_parse mem strtod p buffer text size err = Some (p', size', err', r) /\
  match r with
  | Some e => took p p' (blocks e) /\ inside buffer (zlen whole) e /\
      exists k, size' = (fun _ => k) <$> size /\ (k = zlen whole /\ err' = err \/ 0 <= k < zlen whole /\ told whole err err')
  | None => size' = size /\ told whole err err' /\ exists leak, took p p' leak
  end.
Proof.
  intros Hp Hd Hes Hsz. destruct (parse_opened p buffer whole text size err Hd Hsz) as (sc & Hs & Hz & Hb & He & ->).
  pose proof (trim_le whole) as Htr. pose proof (doc_short _ _ _ Hd) as Hsh.
  destruct (ok_Some _ _ (value_told mem strtod buffer whole Hz Hsh Hes (S (Z.to_nat (end_ sc - begin sc))) p p sc (trim whole) err []
    (took_nil p Hp) Hs ltac:(rewrite Hb, He; lia))) as ([[[p1 sc1] err1] [e|]] & -> & r1 & Hs1 & Hle & Hr); cbn [mbind option_bind].
  2: { do 4 eexists. split; [done|]. split; [done|]. split; [apply Hr|]. destruct Hr as (_ & leak & Ht). exists leak. by rewrite app_nil_r in Ht. }
  destruct Hr as (_ & -> & Ht & Hin). rewrite app_nil_r in Ht. rewrite (stand_eof _ _ _ _ _ Hs1).
  destruct (doc_offset _ _ _ _ _ Hs1) as (past & Ep & ->). pose proof (f_equal zlen Ep) as El. rewrite zlen_app in El.
  destruct r1 as [|c r1]; cbn [negb mbind option_bind].
  - do 4 eexists. split; [done|]. split; [done|]. split; [done|]. exists (zlen past). split; [done|]. left. split; [rewrite zlen_nil in El; lia|done].
  - destruct (set_error_told mem buffer whole sc1 (c :: r1) err "Unexpected content after JSON value" Hs1 Hsh) as (err' & -> & Htold). cbn [mbind option_bind].
    do 4 eexists. split; [done|]. split; [done|]. split; [done|]. exists (zlen past). split; [done|]. right. rewrite zlen_cons in El.
    pose proof (zlen_nonneg past). pose proof (zlen_nonneg r1). split; [lia|done].
Qed.
End parsing.

(** ** Reading a tree *)

Section access.
Context (mem : Z -> option Z).
Implicit Types (e : option vox_json_elem).

(** src/vox_json.c: vox_json_get_type *)
Definition vox_json_get_type e : vox_json_type_t := match e with Some e => e_type e | None => VOX_JSON_NULL end.
(** src/vox_json.c: vox_json_is_type *)
Definition vox_json_is_type e (ty : vox_json_type_t) : bool := match e with Some e => bool_decide (e_type e = ty) | None => false end.
(** src/vox_json.c: vox_json_get_bool *)
Definition vox_json_get_bool e : bool := match e with Some (Elem _ (Boolean b)) => b | _ => false end.
(** src/vox_json.c: vox_json_get_number *)
Definition vox_json_get_number e : double := match e with Some (Elem _ (Number n)) => n | _ => S754_zero false end.

(** Not a number that an int64_t can hold. *)
Definition out_of_range (n : double) : bool :=
  negb (isfinite n) || SFltb n VOX_JSON_INT64_MIN_AS_DOUBLE || SFleb VOX_JSON_INT64_MAX_EXCL_AS_DOUBLE n.

(** src/vox_json.c: vox_json_number_is_integer *)
Definition vox_json_number_is_integer e : option bool :=
  match e with
  | Some (Elem _ (Number n)) => if out_of_range n then Some false else i ← int64_of_double n; Some (SFeqb n (double_of_int i))
  | _ => Some false
  end.
(** src/vox_json.c: vox_json_get_int *)
Definition vox_json_get_int e : option Z :=
  match e with Some (Elem _ (Number n)) => if out_of_range n then Some 0 else int64_of_double n | _ => Some 0 end.
(** src/vox_json.c: vox_json_get_string *)
Definition vox_json_get_string e : view := match e with Some (Elem _ (Text_ v)) => v | _ => View NULL 0 end.
(** src/vox_json.c: vox_json_get_array_count *)
Definition vox_json_get_array_count e : Z := match e with Some (Elem _ (Array l)) => zlen l | _ => 0 end.

(** [index] steps along the list. *)
Fixpoint nth_node (l : list vox_json_elem) (index : Z) : option vox_json_elem :=
  match l with [] => None | x :: l => if index =? 0 then Some x else nth_node l (index - 1) end.
(** src/vox_json.c: vox_json_get_array_elem *)
Definition vox_json_get_array_elem e (index : Z) : option vox_json_elem :=
  match e with Some (Elem _ (Array l)) => nth_node l index | _ => None end.
(** src/vox_json.c: vox_json_get_object_count *)
Definition vox_json_get_object_count e : Z := match e with Some (Elem _ (Object l)) => zlen l | _ => 0 end.

(** The loop over the members. *)
Fixpoint find_member (l : list (vox_json_member vox_json_elem)) (name : list Z) : option (option (vox_json_member vox_json_elem)) :=
  match l with
  | [] => Some None
  | m :: l =>
      cells ← load mem (v_ptr (m_name m)) (Z.to_nat (v_len (m_name m)));
      c ← VString.vox_strview_compare_cstr (Some (cells, v_len (m_name m))) (Some name);
      if c =? 0 then Some (Some m) else find_member l name
  end.
(** [name] is the text at the C string; NULL: [None].

    src/vox_json.c: vox_json_get_object_member *)
Definition vox_json_get_object_member e (name : option (list Z)) : option (option (vox_json_member vox_json_elem)) :=
  match e, name with Some (Elem _ (Object l)), Some name => find_member l name | _, _ => Some None end.
(** src/vox_json.c: vox_json_get_object_value *)
Definition vox_json_get_object_value e (name : option (list Z)) : option (option vox_json_elem) :=
  match vox_json_get_object_member e name with
  | Some (Some member) => Some (Some (m_value member))
  | Some None => Some None
  | None => None
  end.

(** src/vox_json.c: vox_json_array_first *)
Definition vox_json_array_first e : option vox_json_elem := match e with Some (Elem _ (Array l)) => head l | _ => None end.
(** src/vox_json.c: vox_json_object_first *)
Definition vox_json_object_first e : option (vox_json_member vox_json_elem) := match e with Some (Elem _ (Object l)) => head l | _ => None end.

(** What is linked behind the node at an address. *)
Fixpoint linked_next {A} (at_ : A -> Z) (l : list A) (a : Z) : option A :=
  match l with [] => None | x :: l => if at_ x =? a then head l else linked_next at_ l a end.
(** [parent]: the element around the element.

    src/vox_json.c: vox_json_array_next *)
Definition vox_json_array_next (parent : option vox_json_elem) e : option vox_json_elem :=
  match e, parent with Some e, Some (Elem _ (Array l)) => linked_next e_at l (e_at e) | _, _ => None end.
(** src/vox_json.c: vox_json_object_next *)
Definition vox_json_object_next (parent : option vox_json_elem) (member : option (vox_json_member vox_json_elem))
  : option (vox_json_member vox_json_elem) :=
  match member, parent with Some m, Some (Elem _ (Object l)) => linked_next m_at l (m_at m) | _, _ => None end.
End access.

(** *** Integers *)

Lemma digits_size m : digits2_pos m = Pos.size m.
Proof. induction m as [m IH|m IH|]; cbn; congruence. Qed.

Lemma mantissa_bound m e : bounded 53 1024 m e = true -> Zpos m < 2 ^ 53.
Proof.
  unfold bounded, canonical_mantissa. intros [E%Z.eqb_eq _]%andb_true_iff. unfold fexp, emin in E. rewrite digits_size in E.
  assert (Zpos (Pos.size m) <= 53) as Hs by lia. pose proof (Pos.size_gt m) as Hg.
  apply (Z.lt_le_trans _ (2 ^ Zpos (Pos.size m))); [|apply Z.pow_le_mono_r; lia]. rewrite <-Pos2Z.inj_pow. exact Hg.
Qed.

Lemma shift_bound m e : Zpos m < 2 ^ 53 -> e < 11 \/ e = 11 /\ Zpos m <= 2 ^ 52 ->
  0 <= Z.shiftl (Zpos m) e <= 2 ^ 63 /\ (e < 11 \/ Zpos m < 2 ^ 52 -> Z.shiftl (Zpos m) e < 2 ^ 63).
Proof.
  intros Hm He. destruct (Z.le_gt_cases 0 e) as [Hp|Hn].
  - rewrite Z.shiftl_mul_pow2 by done. assert (2 ^ e <= 2 ^ 10 \/ e = 11) as [Hpow| ->].
    { destruct He as [He|[-> _]]; [left; apply Z.pow_le_mono_r; lia|by right]. }
    + pose proof (Z.pow_pos_nonneg 2 e ltac:(lia) Hp). nia.
    + change (2 ^ 11) with 2048. lia.
  - replace e with (- (- e)) by lia. rewrite Z.shiftl_opp_r, Z.shiftr_div_pow2 by lia.
    pose proof (Z.pow_pos_nonneg 2 (- e) ltac:(lia) ltac:(lia)).
    assert (0 <= Zpos m / 2 ^ (- e) <= Zpos m) by (split; [apply Z.div_pos; lia|apply Z.div_le_upper_bound; nia]). lia.
Qed.

Lemma min_double : VOX_JSON_INT64_MIN_AS_DOUBLE = S754_finite true 4503599627370496 11.
Proof. vm_compute. reflexivity. Qed.
Lemma max_double : VOX_JSON_INT64_MAX_EXCL_AS_DOUBLE = S754_finite false 4503599627370496 11.
Proof. vm_compute. reflexivity. Qed.

Lemma not_below m k : match CompOpp (Pos.compare_cont Eq m k) with Lt => true | _ => false end = false -> Zpos m <= Zpos k.
Proof. change (Pos.compare_cont Eq m k) with (m ?= k)%positive. destruct (Pos.compare_spec m k); cbn; try done; lia. Qed.
Lemma not_above m k : match Pos.compare_cont Eq k m with Lt | Eq => true | _ => false end = false -> Zpos m < Zpos k.
Proof. change (Pos.compare_cont Eq k m) with (k ?= m)%positive. destruct (Pos.compare_spec k m); cbn; try done; lia. Qed.

Lemma in_range n : valid_binary 53 1024 n = true -> out_of_range n = false ->
  exists i, int64_of_double n = Some i /\ - 2 ^ 63 <= i < 2 ^ 63.
Proof.
  intros Hv Hr. unfold out_of_range in Hr. apply orb_false_iff in Hr as [[Hf Hlo]%orb_false_iff Hhi].
  destruct n as [s|s| |s m e]; [by exists 0|done|done|]. cbn [valid_binary] in Hv. pose proof (mantissa_bound m e Hv) as Hm.
  rewrite min_double in Hlo. rewrite max_double in Hhi.
  unfold SFltb, SFleb, SFcompare in Hlo, Hhi. cbn [int64_of_double].
  assert (forall i, - 2 ^ 63 <= i < 2 ^ 63 -> exists i', (if (- 2 ^ 63 <=? i) && (i <? 2 ^ 63) then Some i else None) = Some i' /\ - 2 ^ 63 <= i' < 2 ^ 63) as Hfit.
  { intros i Hi. exists i. rewrite (proj2 (Z.leb_le _ _)), (proj2 (Z.ltb_lt _ _)) by lia. done. }
  destruct s; cbn [cond_Zopp]; apply Hfit.
  - assert (e < 11 \/ e = 11 /\ Zpos m <= 2 ^ 52) as He.
    { destruct (Z.compare_spec e 11); [right; split; [done|]|by left|done].
      exact (not_below m _ Hlo). }
    pose proof (shift_bound m e Hm He). lia.
  - assert (e < 11 \/ e = 11 /\ Zpos m < 2 ^ 52) as He.
    { destruct (Z.compare_spec 11 e); [right; split; [done|]|done|by left].
      exact (not_above m _ Hhi). }
    destruct (shift_bound m e Hm) as [? Hlt]; [destruct He as [?|[? ?]]; [by left|right; lia]|]. assert (Z.shiftl (Zpos m) e < 2 ^ 63) by (apply Hlt; tauto). lia.
Qed.

(** The conversion to an integer is never undefined, whatever the number is. *)
Theorem json_int_defined e : match e with Some (Elem _ (Number n)) => valid_binary 53 1024 n = true | _ => True end ->
  exists i b, vox_json_get_int e = Some i /\ vox_json_number_is_integer e = Some b /\ - 2 ^ 63 <= i < 2 ^ 63 /\
    (b = true -> match e with Some (Elem _ (Number n)) => SFeqb n (double_of_int i) = true | _ => False end).
Proof.
  intros Hv. unfold vox_json_get_int, vox_json_number_is_integer. destruct e as [[a [| |n| | |]]|]; try (exists 0, false; done).
  destruct (out_of_range n) eqn:Hr; [by exists 0, false|]. destruct (in_range n Hv Hr) as (i & -> & Hi). cbn [mbind option_bind].
  exists i. eexists. done.
Qed.

(** *** A concrete run *)

Definition ex_document : list Z := Prelude.bytes_of "[true, [], {}, 1, null] !"%string.
Definition ex_mem : Z -> option Z := mem_of 4096 (ex_document ++ [0]).
Definition ex_strtod : list Z -> double * bool := fun _ => (double_of_int 1, false).

Lemma ex_is_document : document ex_mem 4096 ex_document.
Proof.
  split; [done..| |apply holds_mem_of]. apply (bool_decide_unpack _). by vm_compute.
Qed.

(** The tree, its blocks, and the error that tells of the rest, which begins in line 1, column 25. *)
Example ex_parsed : exists p, vox_json_parse ex_mem ex_strtod (bump_new 4096) 4096 (ex_document ++ [0]) (Some 25) (Some (no_error EmptyString)) =
  Some (p, Some 24, Some (ErrInfo 1 25 24 (Prelude.bytes_of "Unexpected content after JSON value")),
    Some (Elem 4096 (Array [Elem 4152 (Boolean true); Elem 4208 (Array []); Elem 4264 (Object []); Elem 4322 (Number (double_of_int 1)); Elem 4378 Null]))).
Proof. eexists. vm_compute. reflexivity. Qed.

Lemma json_parse_safe_witness :
  exists p' size' err' r, vox_json_parse ex_mem ex_strtod (bump_new 4096) 4096 (ex_document ++ [0]) (Some 25) None = Some (p', size', err', r) /\
  match r with
  | Some e => took (bump_new 4096) p' (blocks e) /\ inside 4096 (zlen ex_document) e /\
      exists k, size' = (fun _ => k) <$> Some 25 /\ (k = zlen ex_document /\ err' = None \/ 0 <= k < zlen ex_document /\ told ex_document None err')
  | None => size' = Some 25 /\ told ex_document None err' /\ exists leak, took (bump_new 4096) p' leak
  end.
Proof.
  apply (json_parse_safe ex_mem ex_strtod (bump_new 4096) 4096 ex_document (ex_document ++ [0]) (Some 25) None);
    [by apply bump_new_inv|exact ex_is_document|apply ascii_escapes, (bool_decide_unpack _); by vm_compute|reflexivity].
Defined.

(** A code point escape that runs into the first byte of a character of two bytes. *)
Example escape_undefined :
  vox_json_parse (mem_of 4096 ([34; 92; 117; 0xC3; 0xA9; 34] ++ [0])) ex_strtod (bump_new 4096) 4096 [] (Some 6) None = None.
Proof. vm_compute. reflexivity. Qed.

(** An array that is not closed: its first element stays allocated. *)
Example array_leaks : exists p, vox_json_parse (mem_of 4096 (Prelude.bytes_of "[true" ++ [0])) ex_strtod (bump_new 4096) 4096 [] (Some 5) None =
  Some (p, Some 5, None, None) /\ is_Some (bump_live p !! 4152).
Proof. eexists. split; [vm_compute; reflexivity|]. vm_compute. by eexists. Qed.
End Json.
