(* ===== verification/JsonText.v ===== *)
(** * vox_json.c: building trees and writing them as text

    The serializer and the functions that build trees of src/vox_json.c, and the proof of what
    the parser of Json.v reads back of what the serializer writes. *)

From Stdlib Require Import String Ascii SpecFloat.
From S2P Require Import Prelude Alloc CString Scanner VString Json.

Module JsonText.
Import CString Scanner Json.

(** ** The serializer *)

Definition MAX_SAFE_INTEGER : double := double_of_int 9007199254740991.
Definition MIN_SAFE_INTEGER : double := double_of_int (-9007199254740991).

(** The decimal digits of a number, as the conversion of "%lld" gives them. *)
Fixpoint decimal (fuel : nat) (n : Z) (acc : list Z) : list Z :=
  match fuel with
  | O => acc
  | S fuel => if n <? 10 then 48 + n :: acc else decimal fuel (n / 10) (48 + n mod 10 :: acc)
  end.
Definition print_int64 (n : Z) : list Z := if n <? 0 then 45 :: decimal 20 (- n) [] else decimal 20 n [].

(** [buf] is what the cells at the buffer hold; NULL: [None].

    src/vox_json.c:910-917: vox_json_serialize_ctx_t *)
Record vox_json_serialize_ctx := Ctx {
  buf : option (list Z);
  size : Z;
  used : Z;
  str : option VString.vox_string;
  indent : Z;
  pretty : bool;
}.

Definition with_indent (c : vox_json_serialize_ctx) (n : Z) := Ctx (buf c) (size c) (used c) (str c) n (pretty c).

(** A digit of the escapes. *)
Definition hex (d : Z) : Z := if d <? 10 then 48 + d else 87 + d.
(** The characters that are written for one.

    src/vox_json.c:947-969: serialize_string_escaped *)
Definition escape_char (c : Z) : list Z :=
  if c =? 34 then [92; 34]
  else if c =? 92 then [92; 92]
  else if c =? 8 then [92; 98]
  else if c =? 12 then [92; 102]
  else if c =? 10 then [92; 110]
  else if c =? 13 then [92; 114]
  else if c =? 9 then [92; 116]
  else if c <? 32 then [92; 117; 48; 48; hex (Z.shiftr c 4); hex (Z.land c 15)]
  else [c].

Section serialize.
Context {P : Type} `{MPool P} (junk : Z) (mem : Z -> option Z) (fmt : double -> list Z).
#[local] Abbreviation state := (P * vox_json_serialize_ctx)%type.
Implicit Types (st : state).

(** The result of the append is not looked at.

    src/vox_json.c: serialize_append *)
Definition serialize_append st (l : list Z) : option state :=
  let '(p, ctx) := st in
  let len := zlen l in
  '(p, b, s) ← match str ctx with
               | Some s => '(p, s, _) ← VString.vox_string_append_data junk p s (VString.Mem l) len; Some (p, buf ctx, Some s)
               | None =>
                   match buf ctx with
                   | Some cells =>
                       if u64 (used ctx + len) <? size ctx
                       then cells ← arr_blit cells (used ctx) l 0 len; Some (p, Some cells, None)
                       else Some (p, Some cells, None)
                   | None => Some (p, None, None)
                   end
               end;
  Some (p, Ctx b (size ctx) (u64 (used ctx + len)) s (indent ctx) (pretty ctx)).

(** src/vox_json.c: serialize_append_cstr *)
Definition serialize_append_cstr st (text : string) : option state := serialize_append st (Prelude.bytes_of text).

(** [for (i = 0; i < n; i++)] *)
Fixpoint append_times (n : nat) st (text : string) : option state :=
  match n with O => Some st | S n => st ← serialize_append_cstr st text; append_times n st text end.

(** src/vox_json.c: serialize_append_indent *)
Definition serialize_append_indent st : option state :=
  if negb (pretty st.2) then Some st else
  st ← serialize_append st [10];
  append_times (Z.to_nat (indent st.2)) st "  ".

(** The loop over the characters. *)
Fixpoint escape_loop st (l : list Z) : option state :=
  match l with [] => Some st | c :: l => st ← serialize_append st (escape_char c); escape_loop st l end.

(** src/vox_json.c: serialize_string_escaped *)
Definition serialize_string_escaped st (v : view) : option state :=
  l ← load mem (v_ptr v) (Z.to_nat (v_len v));
  st ← serialize_append st [34];
  st ← escape_loop st l;
  serialize_append st [34].

(** The integer that is written without a fraction, if it is one. *)
Definition safe_integer (n : double) : option (option Z) :=
  if isfinite n && SFleb MIN_SAFE_INTEGER n && SFleb n MAX_SAFE_INTEGER
  then match int64_of_double n with Some i => Some (if SFeqb n (double_of_int i) then Some i else None) | None => None end
  else Some None.

(** The text of a number.

    src/vox_json.c:988-1010: serialize_value *)
Definition number_text (n : double) : option (list Z) :=
  match safe_integer n with
  | None => None
  | Some (Some i) => let num := print_int64 i in Some (if (0 <? zlen num) && (zlen num <? 32) then num else [48])
  | Some None => let num := fmt n in Some (if (0 <? zlen num) && (zlen num <? 64) then num else [48])
  end.

(** [ctx->indent += (ctx->pretty ? d : 0)] *)
Definition shift_indent st (d : Z) : state := let '(p, ctx) := st in (p, if pretty ctx then with_indent ctx (indent ctx + d) else ctx).

(** The elements of an array or object: [item] writes one of them.

    src/vox_json.c:1021-1026: serialize_value *)
Fixpoint serialize_items {A} (item : A -> state -> option state) (l : list A) (first : bool) st : option (state * bool) :=
  match l with
  | [] => Some (st, first)
  | x :: l =>
      st ← (if first then Some st else serialize_append st [44]);
      st ← serialize_append_indent st;
      st ← item x st;
      serialize_items item l false st
  end.

(** The brackets around them.

    src/vox_json.c:1015-1050: serialize_value *)
Definition serialize_group (open close : Z) (items : state -> option (state * bool)) st : option state :=
  st ← serialize_append st [open];
  '(st, first) ← items (shift_indent st 1);
  let st := shift_indent st (-1) in
  st ← (if (first : bool) then Some st else serialize_append_indent st);
  serialize_append st [close].

(** src/vox_json.c: serialize_value *)
Fixpoint serialize_value (e : vox_json_elem) st : option state :=
  match e with
  | Elem _ Null => serialize_append_cstr st "null"
  | Elem _ (Boolean b) => serialize_append_cstr st (if b then "true" else "false")
  | Elem _ (Number n) => l ← number_text n; serialize_append st l
  | Elem _ (Text_ v) => serialize_string_escaped st v
  | Elem _ (Array l) => serialize_group 91 93 (serialize_items (fun e => serialize_value e) l true) st
  | Elem _ (Object l) =>
      serialize_group 123 125 (serialize_items (fun m st =>
        st ← serialize_string_escaped st (m_name m);
        st ← serialize_append_cstr st (if pretty st.2 then ": " else ":");
        serialize_value (m_value m) st) l true) st
  end.

Definition serialize_elem (e : option vox_json_elem) st : option state :=
  match e with None => serialize_append_cstr st "null" | Some e => serialize_value e st end.

(** src/vox_json.c: vox_json_to_string *)
Definition vox_json_to_string (p : P) (e : option vox_json_elem) (pretty : bool) : option (P * option VString.vox_string) :=
  '(p, s) ← VString.vox_string_create junk p;
  match s with
  | None => Some (p, None)
  | Some s => '(p, ctx) ← serialize_elem e (p, Ctx None 0 0 (Some s) 0 pretty); Some (p, str ctx)
  end.

(** The result: the cells of the buffer, the number of characters, the code; [written] is not NULL.

    src/vox_json.c: vox_json_serialize *)
Definition vox_json_serialize (p : P) (e : option vox_json_elem) (buffer : option (list Z)) (size : Z) (pretty : bool)
  : option (option (list Z) * Z * Z) :=
  '(p, ctx) ← serialize_elem e (p, Ctx buffer size 0 None 0 pretty);
  let written := used ctx in
  match buf ctx with
  | Some cells =>
      if used ctx <? size then cells ← cells.[used ctx <- 0]; Some (Some cells, written, 0)
      else if 0 <? size then cells ← cells.[0 <- 0]; Some (Some cells, written, -1)
      else Some (Some cells, written, 0)
  | None => Some (None, written, 0)
  end.
End serialize.

(** ** Building trees

    The memory is part of the state: names and strings are copied into new blocks. *)

(** The cells at [a] become [l]. *)
Definition poke (mem : Z -> option Z) (a : Z) (l : list Z) (x : Z) : option Z :=
  match (if a <=? x then l.[x - a] else None) with Some c => Some c | None => mem x end.

Section build.
Context {P : Type} `{MPool P}.
Implicit Types (p : P) (mem : Z -> option Z).

(** src/vox_json.c: new_elem *)
Definition new_elem p (c : content vox_json_elem) : P * option vox_json_elem :=
  let '(p, a) := mp_alloc p sizeof_elem in if a =? NULL then (p, None) else (p, Some (Elem a c)).

(** src/vox_json.c: vox_json_new_null *)
Definition vox_json_new_null p := new_elem p Null.
(** src/vox_json.c: vox_json_new_bool *)
Definition vox_json_new_bool p (value : bool) := new_elem p (Boolean value).
(** src/vox_json.c: vox_json_new_number *)
Definition vox_json_new_number p (value : double) := new_elem p (Number value).
(** src/vox_json.c: vox_json_new_array *)
Definition vox_json_new_array p := new_elem p (Array []).
(** src/vox_json.c: vox_json_new_object *)
Definition vox_json_new_object p := new_elem p (Object []).

(** [text] is what the cells at the argument hold; NULL: [None].

    src/vox_json.c: vox_json_new_string *)
Definition vox_json_new_string p mem (text : option (list Z)) (len : Z) : option (P * (Z -> option Z) * option vox_json_elem) :=
  if match text with None => 0 <? len | _ => false end then Some (p, mem, None) else
  let '(p, copy) := mp_alloc p (u64 (len + 1)) in
  if copy =? NULL then Some (p, mem, None) else
  l ← match text with Some cells => arr_slice cells 0 len | None => Some [] end;
  let mem := poke (poke mem copy l) (copy + len) [0] in
  let '(p, elem) := new_elem p (Text_ (View copy len)) in
  match elem with None => Some (mp_free p copy, mem, None) | Some e => Some (p, mem, Some e) end.

(** src/vox_json.c: vox_json_new_string_cstr *)
Definition vox_json_new_string_cstr p mem (cstr : option (list Z)) : option (P * (Z -> option Z) * option vox_json_elem) :=
  match cstr with
  | None => vox_json_new_string p mem None 0
  | Some l => n ← strlen l; vox_json_new_string p mem cstr n
  end.

(** The array or object as it is afterwards, and the result.

    src/vox_json.c: vox_json_array_append *)
Definition vox_json_array_append (array_elem value_elem : option vox_json_elem) : option vox_json_elem * Z :=
  match array_elem, value_elem with
  | Some (Elem a (Array l)), Some v => (Some (Elem a (Array (l ++ [v]))), 0)
  | _, _ => (array_elem, -1)
  end.

(** [vox_list_remove] of the member at an address. *)
Definition unlink_member (m : vox_json_member vox_json_elem) (l : list (vox_json_member vox_json_elem)) :=
  List.filter (fun x => negb (m_at x =? m_at m)) l.

(** src/vox_json.c: vox_json_object_set *)
Definition vox_json_object_set p mem (object_elem : option vox_json_elem) (name : option (list Z)) (value_elem : option vox_json_elem)
  : option (P * (Z -> option Z) * option vox_json_elem * Z) :=
  match object_elem, name, value_elem with
  | Some (Elem a (Object l)), Some cells, Some v =>
      name_len ← strlen cells;
      old ← (vox_json_get_object_member mem object_elem name : option (option (vox_json_member vox_json_elem)));
      let '(p, l) := match old with Some m => (mp_free p (m_at m), unlink_member m l) | None => (p, l) end in
      let '(p, key_copy) := mp_alloc p (u64 (name_len + 1)) in
      if key_copy =? NULL then Some (p, mem, Some (Elem a (Object l)), -1) else
      text ← arr_slice cells 0 (name_len + 1);
      let mem := poke mem key_copy text in
      let '(p, m) := mp_alloc p sizeof_member in
      if m =? NULL then Some (mp_free p key_copy, mem, Some (Elem a (Object l)), -1) else
      Some (p, mem, Some (Elem a (Object (l ++ [Member m (View key_copy name_len) v]))), 0)
  | _, _, _ => Some (p, mem, object_elem, -1)
  end.

(** src/vox_json.c: vox_json_object_remove *)
Definition vox_json_object_remove p mem (object_elem : option vox_json_elem) (name : option (list Z))
  : option (P * option vox_json_elem * Z) :=
  match object_elem, name with
  | Some (Elem a (Object l)), Some cells =>
      old ← (vox_json_get_object_member mem object_elem name : option (option (vox_json_member vox_json_elem)));
      match old with
      | None => Some (p, object_elem, -1)
      | Some m => Some (mp_free p (m_at m), Some (Elem a (Object (unlink_member m l))), 0)
      end
  | _, _ => Some (p, object_elem, -1)
  end.

(** The text is copied to a block of the pool, which the tree refers to. [cstr]: the cells at the C string; NULL: [None].

    src/vox_json.c: vox_json_parse_str *)
Definition vox_json_parse_str (strtod : list Z -> double * bool) p mem (cstr : option (list Z)) (err : option vox_json_err_info)
  : option (P * (Z -> option Z) * option vox_json_err_info * option vox_json_elem) :=
  let give text := (fun _ => no_error text) <$> err in
  match cstr with
  | None => Some (p, mem, give "Invalid parameters"%string, None)
  | Some cells =>
      len ← strlen cells;
      let '(p, buffer) := mp_alloc p (u64 (len + 1)) in
      if buffer =? NULL then Some (p, mem, give "Memory allocation failed"%string, None) else
      l ← arr_slice cells 0 len;
      let mem := poke mem buffer (l ++ [0]) in
      '(p, _, err, elem) ← vox_json_parse mem strtod p buffer (l ++ [0]) (Some len) err;
      match elem with
      | None => Some (mp_free p buffer, mem, err, None)
      | Some e => Some (p, mem, err, Some e)
      end
  end.
End build.


(** ** Documents as values *)

#[warnings="-register-all"]
Inductive json :=
| JNull | JBool (b : bool) | JNum (n : double) | JText (l : list Z) | JArr (js : list json) | JObj (ms : list (list Z * json)).

Section json_ind.
Context (Q : json -> Prop) (Hnull : Q JNull) (Hbool : forall b, Q (JBool b)) (Hnum : forall n, Q (JNum n)) (Htext : forall l, Q (JText l))
  (Harr : forall js, Forall Q js -> Q (JArr js)) (Hobj : forall ms, Forall (fun m => Q m.2) ms -> Q (JObj ms)).
Fixpoint json_rect' (j : json) : Q j :=
  match j with
  | JNull => Hnull | JBool b => Hbool b | JNum n => Hnum n | JText l => Htext l
  | JArr js => Harr js ((fix go js := match js return Forall Q js with [] => Forall_nil_2 _ | j :: js => Forall_cons_2 _ _ _ (json_rect' j) (go js) end) js)
  | JObj ms => Hobj ms ((fix go ms := match ms return Forall (fun m => Q m.2) ms with
                                      | [] => Forall_nil_2 _ | m :: ms => Forall_cons_2 _ m _ (json_rect' m.2) (go ms) end) ms)
  end.
End json_ind.

(** What holds of the numbers and the strings of a document. *)
Fixpoint json_all (N : double -> Prop) (S : list Z -> Prop) (j : json) : Prop :=
  match j with
  | JNum n => N n
  | JText l => S l
  | JArr js => fold_right (fun j Q => json_all N S j /\ Q) True js
  | JObj ms => fold_right (fun m Q => (S m.1 /\ json_all N S m.2) /\ Q) True ms
  | _ => True
  end.

(** The text of a document. *)
Definition quoted (l : list Z) : list Z := 34 :: concat (map escape_char l) ++ [34].
Definition newline (pretty : bool) (ind : Z) : list Z := if pretty then 10 :: concat (replicate (Z.to_nat ind) [32; 32]) else [].
Fixpoint items_text {A} (f : A -> list Z) (nl : list Z) (first : bool) (l : list A) : list Z :=
  match l with [] => [] | x :: l => (if first then [] else [44]) ++ nl ++ f x ++ items_text f nl false l end.
Definition group_text (open close : Z) (pretty : bool) (ind : Z) (items : list Z) : list Z :=
  open :: items ++ (match items with [] => [] | _ => newline pretty ind end) ++ [close].

Fixpoint render (fmt : double -> list Z) (pretty : bool) (ind : Z) (j : json) : list Z :=
  match j with
  | JNull => Prelude.bytes_of "null"
  | JBool b => Prelude.bytes_of (if b then "true" else "false")
  | JNum n => default [48] (number_text fmt n)
  | JText l => quoted l
  | JArr js => group_text 91 93 pretty ind (items_text (fun j => render fmt pretty (ind + 1) j) (newline pretty (ind + 1)) true js)
  | JObj ms => group_text 123 125 pretty ind (items_text (fun m => quoted m.1 ++ (if pretty then [58; 32] else [58]) ++ render fmt pretty (ind + 1) m.2)
                 (newline pretty (ind + 1)) true ms)
  end.

(** The tree [e] is the document [j]. *)
Definition shows (mem : Z -> option Z) (v : view) (l : list Z) : Prop := load mem (v_ptr v) (Z.to_nat (v_len v)) = Some l /\ v_len v = zlen l.
Fixpoint denotes (mem : Z -> option Z) (e : vox_json_elem) (j : json) {struct j} : Prop :=
  match j with
  | JNull => e_u e = Null
  | JBool b => e_u e = Boolean b
  | JNum n => e_u e = Number n
  | JText l => exists v, e_u e = Text_ v /\ shows mem v l
  | JArr js => exists es, e_u e = Array es /\
      (fix all es js {struct js} := match js, es with [], [] => True | j :: js, e :: es => denotes mem e j /\ all es js | _, _ => False end) es js
  | JObj ms => exists es, e_u e = Object es /\
      (fix all es ms {struct ms} := match ms, es with
                        | [], [] => True
                        | m :: ms, e :: es => (shows mem (m_name e) m.1 /\ denotes mem (m_value e) m.2) /\ all es ms
                        | _, _ => False end) es ms
  end.

Lemma denotes_array mem a es js : denotes mem (Elem a (Array es)) (JArr js) <-> Forall2 (denotes mem) es js.
Proof.
  cbn [denotes e_u]. split.
  - intros (es' & [= ->] & Hall). revert es' Hall. induction js as [|j js IH]; intros [|e es] Hall; try done. constructor; [apply Hall|]. apply IH, Hall.
  - intros Hf. exists es. split; [done|]. induction Hf; done.
Qed.

Lemma denotes_object mem a es ms : denotes mem (Elem a (Object es)) (JObj ms) <->
  Forall2 (fun e m => shows mem (m_name e) m.1 /\ denotes mem (m_value e) m.2) es ms.
Proof.
  cbn [denotes e_u]. split.
  - intros (es' & [= ->] & Hall). revert es' Hall. induction ms as [|m ms IH]; intros [|e es] Hall; try done. constructor; [apply Hall|]. apply IH, Hall.
  - intros Hf. exists es. split; [done|]. induction Hf; done.
Qed.

Lemma json_all_array N S js : json_all N S (JArr js) <-> Forall (json_all N S) js.
Proof. cbn [json_all]. induction js as [|j js IH]; cbn [fold_right]; [by split|]. by rewrite IH, Forall_cons. Qed.
Lemma json_all_object N S ms : json_all N S (JObj ms) <-> Forall (fun m => S m.1 /\ json_all N S m.2) ms.
Proof. cbn [json_all]. induction ms as [|m ms IH]; cbn [fold_right]; [by split|]. by rewrite IH, Forall_cons. Qed.

(** ** The text of a number is never undefined *)

Lemma max_safe : MAX_SAFE_INTEGER = S754_finite false 9007199254740991 0.
Proof. vm_compute. reflexivity. Qed.
Lemma min_safe : MIN_SAFE_INTEGER = S754_finite true 9007199254740991 0.
Proof. vm_compute. reflexivity. Qed.

Lemma safe_integer_defined n : valid_binary 53 1024 n = true -> exists r, safe_integer n = Some r.
Proof.
  intros Hv. unfold safe_integer. destruct (isfinite n && _ && _) eqn:E; [|by eexists].
  apply andb_true_iff in E as [E Hhi]. apply andb_true_iff in E as [Hf Hlo]. rewrite min_safe in Hlo. rewrite max_safe in Hhi.
  destruct n as [s|s| |s m e]; [by eexists|done|done|]. cbn [valid_binary] in Hv. pose proof (mantissa_bound m e Hv) as Hm.
  unfold SFleb, SFcompare in Hlo, Hhi.
  assert (e <= 0) as He.
  { destruct s; [destruct (Z.compare_spec 0 e); [lia|done|lia]|destruct (Z.compare_spec e 0); [lia|lia|done]]. }
  cbn [int64_of_double].
  assert (0 <= Z.shiftl (Zpos m) e < 2 ^ 53) as Hb.
  { replace e with (- (- e)) by lia. rewrite Z.shiftl_opp_r, Z.shiftr_div_pow2 by lia. pose proof (Z.pow_pos_nonneg 2 (- e) ltac:(lia) ltac:(lia)).
    split; [apply Z.div_pos; lia|]. apply (Z.le_lt_trans _ (Zpos m)); [apply Z.div_le_upper_bound; nia|done]. }
  assert ((- 2 ^ 63 <=? cond_Zopp s (Z.shiftl (Zpos m) e)) && (cond_Zopp s (Z.shiftl (Zpos m) e) <? 2 ^ 63) = true) as ->.
  { apply andb_true_iff. split; [apply Z.leb_le|apply Z.ltb_lt]; destruct s; cbn [cond_Zopp]; lia. }
  by eexists.
Qed.

Lemma number_text_defined fmt n : valid_binary 53 1024 n = true -> exists t, number_text fmt n = Some t.
Proof. intros Hv. unfold number_text. destruct (safe_integer_defined n Hv) as [[i|] ->]; by eexists. Qed.

(** ** The serializer writes the text of the document *)

Section writer.
Context {P : Type} `{MPool P} (junk : Z) (mem : Z -> option Z) (fmt : double -> list Z).
#[local] Abbreviation state := (P * vox_json_serialize_ctx)%type.

(** [Q st t]: the text [t] has been written. *)
Context (Q : state -> list Z -> Prop).
Hypothesis HQ : forall st t l, Q st t -> zlen (t ++ l) < 2 ^ 62 ->
  exists st', serialize_append junk st l = Some st' /\ Q st' (t ++ l) /\ indent st'.2 = indent st.2 /\ pretty st'.2 = pretty st.2.
Hypothesis HQi : forall p ctx t n, Q (p, ctx) t -> Q (p, with_indent ctx n) t.

(** [l] is written, and the layout is as before. *)
Definition writes (run : option state) (st : state) (t l : list Z) : Prop :=
  exists st', run = Some st' /\ Q st' (t ++ l) /\ indent st'.2 = indent st.2 /\ pretty st'.2 = pretty st.2.

Lemma wrote_nil st t : Q st t -> writes (Some st) st t [].
Proof. intros HQs. exists st. by rewrite app_nil_r. Qed.

Lemma wrote_bind run k st t l1 l2 : writes run st t l1 ->
  (forall st', Q st' (t ++ l1) -> indent st'.2 = indent st.2 -> pretty st'.2 = pretty st.2 -> writes (k st') st' (t ++ l1) l2) ->
  writes (st ← run; k st) st t (l1 ++ l2).
Proof.
  intros (st1 & -> & H1 & Hi & Hp) Hk. cbn [mbind option_bind]. destruct (Hk st1 H1 Hi Hp) as (st2 & -> & H2 & Hi2 & Hp2).
  exists st2. rewrite app_assoc. split_and!; congruence || done.
Qed.

Lemma short_l (t l1 l2 : list Z) : zlen (t ++ l1 ++ l2) < 2 ^ 62 -> zlen (t ++ l1) < 2 ^ 62.
Proof. rewrite !zlen_app. pose proof (zlen_nonneg l2). lia. Qed.
Lemma short_r (t l1 l2 : list Z) : zlen (t ++ l1 ++ l2) < 2 ^ 62 -> zlen ((t ++ l1) ++ l2) < 2 ^ 62.
Proof. by rewrite app_assoc. Qed.

Lemma append_writes st t l : Q st t -> zlen (t ++ l) < 2 ^ 62 -> writes (serialize_append junk st l) st t l.
Proof. intros. by apply HQ. Qed.

Lemma times_writes n : forall st t s, Q st t -> zlen (t ++ concat (replicate n (Prelude.bytes_of s))) < 2 ^ 62 ->
  writes (append_times junk n st s) st t (concat (replicate n (Prelude.bytes_of s))).
Proof.
  induction n as [|n IH]; intros st t s Hs Hl; cbn [append_times replicate concat] in *; [by apply wrote_nil|].
  eapply wrote_bind; [apply append_writes; [done|by eapply short_l]|]. intros. apply IH; [done|by apply short_r].
Qed.

(** The layout: [ind] matters only in the pretty form. *)
Definition laid (pr : bool) (ind : Z) (st : state) : Prop := pretty st.2 = pr /\ (pr = true -> indent st.2 = ind).

Lemma indent_writes st t pr ind : Q st t -> laid pr ind st -> zlen (t ++ newline pr ind) < 2 ^ 62 ->
  writes (serialize_append_indent junk st) st t (newline pr ind).
Proof.
  intros Hs [<- Hi] Hl. unfold serialize_append_indent, newline in *. destruct (pretty st.2) eqn:Ep; cbn [negb] in *; [|by apply wrote_nil].
  rewrite <-(Hi eq_refl) in *. clear Hi.
  eapply (wrote_bind _ _ st t [10]); [apply append_writes; [done|by eapply (short_l t [10]); exact Hl]|]. intros st' Hs' Hi _. rewrite Hi.
  apply (times_writes _ _ _ "  "); [done|]. by apply (short_r t [10]).
Qed.

Lemma escape_writes l : forall st t, Q st t -> zlen (t ++ concat (map escape_char l)) < 2 ^ 62 ->
  writes (escape_loop junk st l) st t (concat (map escape_char l)).
Proof.
  induction l as [|c l IH]; intros st t Hs Hl; cbn [escape_loop map concat] in *; [by apply wrote_nil|].
  eapply wrote_bind; [apply append_writes; [done|by eapply short_l]|]. intros. apply IH; [done|by apply short_r].
Qed.

Lemma string_writes st t v l : shows mem v l -> Q st t -> zlen (t ++ quoted l) < 2 ^ 62 ->
  writes (serialize_string_escaped junk mem st v) st t (quoted l).
Proof.
  intros [Hv _] Hs Hl. unfold serialize_string_escaped, quoted in *. rewrite Hv. cbn [mbind option_bind].
  change (34 :: ?x) with ([34] ++ x) in *. eapply wrote_bind; [apply append_writes; [done|by eapply short_l]|]. intros st1 Hs1 _ _. apply short_r in Hl.
  eapply wrote_bind; [apply escape_writes; [done|by eapply short_l]|]. intros st2 Hs2 _ _. apply short_r in Hl. by apply append_writes.
Qed.

Lemma laid_same pr ind st st' : laid pr ind st -> indent st'.2 = indent st.2 -> pretty st'.2 = pretty st.2 -> laid pr ind st'.
Proof. unfold laid. by intros H0 -> ->. Qed.

(** The elements of a group, each written by [item]. *)
Lemma items_writes {A B} (item : A -> state -> option state) (f : B -> list Z) (D : A -> B -> Prop) pr ind es js : Forall2 D es js ->
  forall st t first, Q st t -> laid pr ind st -> zlen (t ++ items_text f (newline pr ind) first js) < 2 ^ 62 ->
  (forall e j st' t', D e j -> j ∈ js -> Q st' t' -> laid pr ind st' -> zlen (t' ++ f j) < 2 ^ 62 -> writes (item e st') st' t' (f j)) ->
  exists st', serialize_items junk item es first st = Some (st', match js with [] => first | _ => false end) /\
    Q st' (t ++ items_text f (newline pr ind) first js) /\ indent st'.2 = indent st.2 /\ pretty st'.2 = pretty st.2.
Proof.
  induction 1 as [|e j es js Hd Hds IH]; intros st t first Hs Hlay Hl Hitem; cbn [serialize_items items_text] in *.
  { exists st. by rewrite app_nil_r. }
  set (nl := newline pr ind) in *. set (comma := if first then [] else [44]) in *.
  assert (zlen (t ++ comma ++ nl ++ f j) < 2 ^ 62) as Hl1.
  { rewrite !zlen_app in *. pose proof (zlen_nonneg (items_text f nl false js)). lia. }
  assert (writes (if first then Some st else serialize_append junk st [44]) st t comma) as (st1 & -> & Hs1 & Hi1 & Hp1).
  { unfold comma in *. destruct first; [by apply wrote_nil|]. apply append_writes; [done|by eapply short_l]. }
  cbn [mbind option_bind]. apply short_r in Hl1.
  destruct (indent_writes st1 (t ++ comma) pr ind Hs1) as (st2 & -> & Hs2 & Hi2 & Hp2); [by eapply laid_same|by eapply short_l|].
  cbn [mbind option_bind]. apply short_r in Hl1.
  assert (laid pr ind st2) as Hlay2 by (eapply laid_same; [exact Hlay|congruence..]).
  destruct (Hitem e j st2 _ Hd ltac:(by left) Hs2 Hlay2 Hl1) as (st3 & -> & Hs3 & Hi3 & Hp3). cbn [mbind option_bind].
  destruct (IH st3 _ false Hs3) as (st4 & E4 & Hs4 & Hi4 & Hp4).
  - eapply laid_same; [exact Hlay|congruence..].
  - fold nl. rewrite <-!app_assoc. exact Hl.
  - intros e' j' st' t' ? ?. apply Hitem; [done|by right].
  - exists st4. rewrite E4. split; [by destruct js|]. fold nl in Hs4. rewrite <-!app_assoc in Hs4. split; [exact Hs4|].
    split; congruence.
Qed.

Lemma group_writes {A B} (item : A -> state -> option state) (f : B -> list Z) (D : A -> B -> Prop) pr ind es js st t o c : Forall2 D es js ->
  Q st t -> laid pr ind st -> zlen (t ++ group_text o c pr ind (items_text f (newline pr (ind + 1)) true js)) < 2 ^ 62 -> (forall j, f j <> []) ->
  (forall e j st' t', D e j -> j ∈ js -> Q st' t' -> laid pr (ind + 1) st' -> zlen (t' ++ f j) < 2 ^ 62 -> writes (item e st') st' t' (f j)) ->
  writes (serialize_group junk o c (serialize_items junk item es true) st) st t
    (group_text o c pr ind (items_text f (newline pr (ind + 1)) true js)).
Proof.
  intros HD Hs Hlay Hl Hne Hitem. unfold serialize_group, group_text in *. set (its := items_text _ _ _ _) in *. change (o :: its ++ ?x) with ([o] ++ its ++ x) in *.
  assert (forall st n t, Q st t -> Q (shift_indent st n) t) as Hshift.
  { intros [p ctx] n t' Hq. unfold shift_indent. destruct (pretty ctx); [by apply HQi|done]. }
  assert (forall (st : state) n, pretty (shift_indent st n).2 = pretty st.2 /\ indent (shift_indent st n).2 = if pretty st.2 then indent st.2 + n else indent st.2) as Hsh.
  { intros [p ctx] n. unfold shift_indent. cbn [snd]. destruct ctx as [? ? ? ? ? []]; done. }
  destruct (append_writes st t [o]) as (st1 & -> & Hs1 & Hi1 & Hp1); [done|by eapply short_l|]. cbn [mbind option_bind]. apply short_r in Hl.
  destruct (items_writes item f D pr (ind + 1) es js HD (shift_indent st1 1) (t ++ [o]) true) as (st2 & -> & Hs2 & Hi2 & Hp2);
    [by apply Hshift| |by eapply short_l|done|].
  { destruct Hlay as [Hpr Hin]. destruct (Hsh st1 1) as [Hpr' Hin']. split; [congruence|]. intros Ht. rewrite Hin', Hp1, Hpr, Ht, Hi1, Hin by done. done. }
  cbn [mbind option_bind]. fold its in Hs2. apply short_r in Hl. destruct (Hsh st1 1) as [Ep1 Ei1]. destruct (Hsh st2 (-1)) as [Ep2 Ei2].
  set (st3 := shift_indent st2 (-1)) in *. assert (Q st3 ((t ++ [o]) ++ its)) as Hs3 by by apply Hshift.
  assert (laid pr ind st3) as Hlay3.
  { destruct Hlay as [Hpr Hin]. split; [congruence|]. intros Ht. rewrite Ei2, Hi2, Ei1, Hp2, Ep1, Hp1, Hpr, Ht, Hi1, Hin by done. lia. }
  assert (its = [] <-> js = []) as Hits.
  { unfold its. destruct js as [|j js]; [done|]. split; [|done]. cbn [items_text app]. intros [_ [Hx _]%app_nil]%app_nil. by destruct (Hne j). }
  assert (writes (if match js with [] => true | _ => false end then Some st3 else serialize_append_indent junk st3) st3 ((t ++ [o]) ++ its)
    (match its with [] => [] | _ => newline pr ind end)) as (st4 & -> & Hs4 & Hi4 & Hp4).
  { destruct js as [|j js]; destruct its as [|x its'] eqn:Ei; try (by destruct Hits as [Ha Hb]; discriminate (Ha eq_refl) || discriminate (Hb eq_refl)).
    - by apply wrote_nil.
    - apply indent_writes; [done|done|by eapply short_l]. }
  cbn [mbind option_bind]. apply short_r in Hl. destruct (append_writes st4 _ [c] Hs4 Hl) as (st5 & -> & Hs5 & Hi5 & Hp5). exists st5. split; [done|].
  rewrite <-!app_assoc in Hs5. split; [exact Hs5|]. split; [|congruence].
  rewrite Hi5, Hi4, Ei2, Hi2, Ei1, Hp2, Ep1, Hp1, Hi1. destruct (pretty st.2); lia.
Qed.

Lemma number_text_nonempty n t' : number_text fmt n = Some t' -> t' <> [].
Proof.
  unfold number_text. destruct (safe_integer n) as [[i|]|]; [| |done]; intros [= <-].
  - destruct (Z.ltb_spec 0 (zlen (print_int64 i))); cbn [andb]; [|done]. destruct (_ <? 32); [intros Hx%(f_equal zlen); rewrite zlen_nil in Hx; lia|done].
  - destruct (Z.ltb_spec 0 (zlen (fmt n))); cbn [andb]; [|done]. destruct (_ <? 64); [intros Hx%(f_equal zlen); rewrite zlen_nil in Hx; lia|done].
Qed.

Lemma render_nonempty pr ind j : render fmt pr ind j <> [].
Proof.
  destruct j as [|[]|n| | |]; cbn [render]; try done. destruct (number_text fmt n) as [t'|] eqn:E; [|done]. by apply number_text_nonempty in E.
Qed.

Definition numbers_valid (j : json) : Prop := json_all (fun n => valid_binary 53 1024 n = true) (fun _ => True) j.

Lemma value_writes j : forall e st t pr ind, denotes mem e j -> numbers_valid j -> Q st t -> laid pr ind st ->
  zlen (t ++ render fmt pr ind j) < 2 ^ 62 -> writes (serialize_value junk mem fmt e st) st t (render fmt pr ind j).
Proof.
  induction j as [|b|n|l|js IH|ms IH] using json_rect'; intros [a u] st t pr ind Hd Hv Hs Hlay Hl.
  - cbn in Hd. subst u. by apply append_writes.
  - cbn in Hd. subst u. destruct b; by apply append_writes.
  - cbn in Hd. subst u. cbn [serialize_value render] in *. destruct (number_text_defined fmt n Hv) as [t' E]. rewrite E in *. by apply append_writes.
  - destruct Hd as (v & Eu & Hsh). cbn in Eu. subst u. by apply string_writes.
  - pose proof Hd as (es & Eu & _). cbn [e_u] in Eu. subst u. apply denotes_array in Hd. apply json_all_array in Hv.
    cbn [serialize_value render] in *. eapply group_writes; [exact Hd|done..|intros; apply render_nonempty|].
    intros e j st' t' He Hj Hs' Hlay' Hl'. rewrite Forall_forall in IH. rewrite Forall_forall in Hv. apply (IH j Hj e); [done|by apply Hv|done..].
  - pose proof Hd as (es & Eu & _). cbn [e_u] in Eu. subst u. apply denotes_object in Hd. apply json_all_object in Hv.
    cbn [serialize_value render] in *. eapply group_writes; [exact Hd|done..|by unfold quoted|].
    intros e m st' t' [Hn He] Hj Hs' Hlay' Hl'. rewrite Forall_forall in IH. rewrite Forall_forall in Hv.
    eapply wrote_bind; [apply string_writes; [done|done|by eapply short_l]|]. intros st1 Hs1 Hi1 Hp1. apply short_r in Hl'.
    assert (laid pr (ind + 1) st1) as Hlay1 by (by eapply laid_same).
    assert (Prelude.bytes_of (if pretty st1.2 then ": " else ":") = if pr then [58; 32] else [58]) as E.
    { destruct Hlay1 as [-> _]. by destruct pr. }
    eapply wrote_bind; [unfold serialize_append_cstr; rewrite E; apply append_writes; [done|by eapply short_l]|]. intros st2 Hs2 Hi2 Hp2. apply short_r in Hl'.
    apply (IH m Hj e.(m_value)); [done|by apply Hv|done|by eapply laid_same|done].
Qed.

Lemma elem_writes e j st t pr ind : match e with Some e => denotes mem e j | None => j = JNull end -> numbers_valid j -> Q st t -> laid pr ind st ->
  zlen (t ++ render fmt pr ind j) < 2 ^ 62 -> writes (serialize_elem junk mem fmt e st) st t (render fmt pr ind j).
Proof. intros Hd. destruct e as [e|]; [by apply value_writes|]. subst j. intros. by apply append_writes. Qed.
End writer.

(** ** Into a buffer and into a string *)

Section sinks.
Context {P : Type} `{MPoolLaws P} (junk : Z) (mem : Z -> option Z) (fmt : double -> list Z).

(** The text [t] in front of the cells [cells0] of the buffer, as far as there is room. *)
Definition in_buffer (cells0 : option (list Z)) (sz : Z) (st : P * vox_json_serialize_ctx) (t : list Z) : Prop :=
  str st.2 = None /\ size st.2 = sz /\ used st.2 = zlen t /\
  match cells0 with
  | None => buf st.2 = None
  | Some cells0 => exists cells, buf st.2 = Some cells /\ zlen cells = zlen cells0 /\ drop (Z.to_nat sz) cells = drop (Z.to_nat sz) cells0 /\
      (zlen t < sz -> take (length t) cells = t)
  end.

Lemma in_buffer_append cells0 sz st t l : match cells0 with Some c => 0 <= sz <= zlen c | None => True end ->
  in_buffer cells0 sz st t -> zlen (t ++ l) < 2 ^ 62 ->
  exists st', serialize_append junk st l = Some st' /\ in_buffer cells0 sz st' (t ++ l) /\ indent st'.2 = indent st.2 /\ pretty st'.2 = pretty st.2.
Proof.
  intros Hsz (Hstr & Hs & Hu & Hb) Hl. destruct st as [p ctx]. cbn [snd] in *. unfold serialize_append. rewrite Hstr, Hu.
  pose proof (zlen_nonneg t). pose proof (zlen_nonneg l). rewrite zlen_app in Hl. rewrite u64_small by lia.
  destruct cells0 as [c0|].
  2: { rewrite Hb. cbn [mbind option_bind]. eexists. split; [done|]. split; [|done]. unfold in_buffer. cbn [snd str size used buf]. rewrite zlen_app. done. }
  destruct Hb as (cells & -> & Hz & Hd & Ht). rewrite Hs. cbv iota. destruct (Z.ltb_spec (zlen t + zlen l) sz) as [Hlt|Hge].
  - specialize (Ht ltac:(lia)). assert (cells = t ++ take (length l) (drop (length t) cells) ++ drop (length (t ++ l)) cells) as Ec.
    { rewrite length_app. rewrite <-drop_drop, take_drop. rewrite <-Ht at 1. by rewrite take_drop. }
    assert (zlen (take (length l) (drop (length t) cells)) = zlen l) as Hzt by (rewrite zlen_take, zlen_drop; unfold zlen in *; lia).
    assert (arr_blit cells (zlen t) l 0 (zlen l) = Some (t ++ l ++ drop (length (t ++ l)) cells)) as ->.
    { etransitivity; [exact (f_equal (fun c => arr_blit c (zlen t) l 0 (zlen l)) Ec)|].
      rewrite (arr_blit_app t _ _ l (zlen t) 0 (zlen l)) by (done || lia). change (Z.to_nat 0) with O. rewrite drop_0.
      do 3 f_equal. unfold zlen. by rewrite Nat2Z.id, firstn_all. }
    cbn [mbind option_bind].
    eexists. split; [done|]. split; [|done]. unfold in_buffer. cbn [snd str size used buf]. rewrite zlen_app. split_and!; try done.
    eexists. split; [done|]. split_and!.
    + rewrite !zlen_app, zlen_drop. unfold zlen in *. rewrite length_app. lia.
    + rewrite <-Hd. rewrite app_assoc, drop_app_ge by (rewrite length_app; unfold zlen in *; lia). rewrite drop_drop. f_equal. rewrite length_app. unfold zlen in *. lia.
    + intros _. rewrite app_assoc. apply take_app_length.
  - cbn [mbind option_bind]. eexists. split; [done|]. split; [|done]. unfold in_buffer. cbn [snd str size used buf]. rewrite zlen_app. split_and!; try done.
    exists cells. split_and!; try done. lia.
Qed.

Lemma buffer_filled (p : P) e j cells sz pr :
  match e with Some e => denotes mem e j | None => j = JNull end -> numbers_valid j ->
  match cells with Some c => 0 <= sz <= zlen c | None => True end -> zlen (render fmt pr 0 j) < 2 ^ 62 ->
  exists p' ctx, serialize_elem junk mem fmt e (p, Ctx cells sz 0 None 0 pr) = Some (p', ctx) /\ in_buffer cells sz (p', ctx) (render fmt pr 0 j).
Proof.
  intros Hd Hv Hc Hl.
  destruct (elem_writes junk mem fmt (in_buffer cells sz) (fun st t l => in_buffer_append cells sz st t l Hc) ltac:(done) e j
    (p, Ctx cells sz 0 None 0 pr) [] pr 0 Hd Hv) as ([p' ctx] & -> & Hb & _); [|done|done|by exists p', ctx].
  split_and!; try done. destruct cells as [c|]; [|done]. by exists c.
Qed.

(** C38: For a document whose text is shorter than 2^62 bytes, and a buffer that has at least
    the announced size, vox_json_serialize counts the characters of the text, whatever the
    buffer is. If the text and a terminator have room the buffer holds them and the result is
    0; if not, and the buffer has a size other than 0, it holds an empty string and the result
    is -1. A buffer of size 0 is left alone and the result is 0, although the header promises
    -1 for it. Nothing behind the announced size is written, and without a buffer nothing at
    all and the result is 0. *)
Theorem json_serialize_buffer (p : P) e j cells sz pr :
  match e with Some e => denotes mem e j | None => j = JNull end -> numbers_valid j ->
  match cells with Some c => 0 <= sz <= zlen c | None => True end -> zlen (render fmt pr 0 j) < 2 ^ 62 ->
  let text := render fmt pr 0 j in
  exists cells' rc, vox_json_serialize junk mem fmt p e cells sz pr = Some (cells', zlen text, rc) /\
  match cells with
  | None => cells' = None /\ rc = 0
  | Some c => exists c', cells' = Some c' /\ zlen c' = zlen c /\ drop (Z.to_nat sz) c' = drop (Z.to_nat sz) c /\
      if zlen text <? sz then rc = 0 /\ take (S (length text)) c' = text ++ [0]
      else rc = (if 0 <? sz then -1 else 0) /\ (0 < sz -> head c' = Some 0)
  end.
Proof.
  intros Hd Hv Hc Hl text. unfold vox_json_serialize. destruct (buffer_filled p e j cells sz pr Hd Hv Hc Hl) as (p' & ctx & -> & _ & _ & Hu & Hb).
  cbn [mbind option_bind snd app] in *. fold text in Hu, Hb. rewrite Hu. destruct cells as [c|]; [|rewrite Hb; by exists None, 0].
  destruct Hb as (c1 & -> & Hz & Hdr & Ht). pose proof (zlen_nonneg text). destruct (Z.ltb_spec (zlen text) sz) as [Hlt|Hge].
  - rewrite arr_set_ok by lia. cbn [mbind option_bind]. do 2 eexists. split; [done|]. eexists. split; [done|]. split; [by rewrite zlen_insert|].
    unfold zlen in *. rewrite Nat2Z.id. split; [rewrite drop_insert_lt by lia; done|]. split; [done|].
    rewrite insert_take_drop by lia. rewrite (Ht Hlt). rewrite (app_assoc text [0] _ : text ++ 0 :: _ = _).
    replace (S (length text)) with (length (text ++ [0])) at 1 by (rewrite length_app; cbn; lia).
    apply take_app_length.
  - destruct (Z.ltb_spec 0 sz) as [Hpos|Hno].
    + rewrite arr_set_ok by lia. cbn [mbind option_bind]. do 2 eexists. split; [done|]. eexists. split; [done|]. split; [by rewrite zlen_insert|].
      split; [rewrite drop_insert_lt by lia; done|]. split; [done|]. intros _. destruct c1; [unfold zlen in *; cbn in *; lia|done].
    + do 2 eexists. split; [done|]. eexists. split; [done|]. split; [done|]. split; [done|]. split; [done|lia].
Qed.

(** The text [t] in a string of the pool, unless the pool has refused a block. *)
Definition in_string (p0 : logged P) s0 (st : logged P * vox_json_serialize_ctx) (t : list Z) : Prop :=
  exists s c, str st.2 = Some s /\ VString.str_keep p0 s0 st.1 s c /\ (c = t \/ lg_refused st.1 = true).

Lemma in_string_append p0 s0 st t l : in_string p0 s0 st t -> zlen (t ++ l) < 2 ^ 62 ->
  exists st', serialize_append junk st l = Some st' /\ in_string p0 s0 st' (t ++ l) /\ indent st'.2 = indent st.2 /\ pretty st'.2 = pretty st.2.
Proof.
  intros (s & c & Hstr & Hk & Hc) Hl. destruct st as [p ctx]. cbn [fst snd] in *. unfold serialize_append. rewrite Hstr.
  pose proof (zlen_nonneg t). pose proof (zlen_nonneg l). rewrite zlen_app in Hl.
  destruct (VString.append_data_ok junk p s c (VString.Mem l) (zlen l)) as (p' & s' & r & c' & -> & Hk' & Hres); [apply Hk|cbn [VString.mem_ok]; lia|].
  cbn [mbind option_bind]. eexists. split; [done|]. split; [|done]. exists s', c'. cbn [snd fst str]. split; [done|].
  split; [by eapply VString.str_keep_trans|]. destruct Hk' as (_ & _ & _ & Hev).
  destruct Hc as [->|Hr]; [|right; by eapply refused_stays].
  cbn [VString.bytes_of] in Hres. replace (take (Z.to_nat (zlen l)) l) with l in Hres by (unfold zlen; by rewrite Nat2Z.id, firstn_all).
  destruct Hres as [Hres|(_ & _ & [(q & n & _ & _ & E)|Hbig])]; [|right; by eapply refused_logged|lia].
  left. destruct l as [|x l]; [injection Hres as ->; by rewrite app_nil_r|]. rewrite VString.insert_spec_end in Hres. by injection Hres as ->.
Qed.

(** vox_json_to_string gives a new string with the text of the document; NULL, or a string with some other text, only when the
    pool has refused a block. The string is all that is taken from the pool. *)
Theorem json_to_string_text (p : logged P) e j pr : mp_inv p ->
  match e with Some e => denotes mem e j | None => j = JNull end -> numbers_valid j -> zlen (render fmt pr 0 j) < 2 ^ 62 ->
  exists p' r, vox_json_to_string junk mem fmt p e pr = Some (p', r) /\
  match r with
  | None => mp_live p' = mp_live p
  | Some s => exists c, VString.str_inv p' s c /\ VString.others p' s = mp_live p /\ (c = render fmt pr 0 j \/ lg_refused p' = true)
  end.
Proof.
  intros Hp Hd Hv Hl. unfold vox_json_to_string. destruct (VString.str_create_ok junk p None Hp) as (p1 & o & E & Ho); [done|].
  change (VString.vox_string_create_with_config junk p None) with (VString.vox_string_create junk p) in E. rewrite E. cbn [mbind option_bind].
  destruct o as [s|]; [|exists p1, None; split; [done|apply Ho]]. destruct Ho as [Hs Ho].
  destruct (elem_writes junk mem fmt (in_string p1 s) (in_string_append p1 s) ltac:(done) e j
    (p1, Ctx None 0 0 (Some s) 0 pr) [] pr 0 Hd Hv) as ([p' ctx] & -> & (s' & c & Hstr & Hk & Hc) & _); [|done|done|].
  { exists s, []. split; [done|]. split; [by apply VString.str_keep_refl|by left]. }
  cbn [mbind option_bind fst snd app] in *. exists p', (str ctx). split; [done|]. rewrite Hstr. exists c.
  destruct Hk as (Hi & Eo & _). split; [done|]. split; [congruence|done].
Qed.
End sinks.

(** *** A concrete run *)

(** An object with an array of a number, a boolean, a null and a string that begins with a blank and has a quote. *)
Definition one : double := double_of_int 1.
Definition ex_json : json := JObj [([107], JArr [JNum one; JBool true; JNull; JText [32; 34; 120]])].
Definition ex_memory : Z -> option Z := mem_of 8192 [107; 32; 34; 120].
Definition ex_tree : vox_json_elem :=
  Elem 4096 (Object [Member 4152 (View 8192 1) (Elem 4192 (Array
    [Elem 4248 (Number one); Elem 4304 (Boolean true); Elem 4360 Null; Elem 4416 (Text_ (View 8193 3))]))]).
Definition ex_fmt : double -> list Z := fun _ => [49].

Lemma ex_denotes : denotes ex_memory ex_tree ex_json.
Proof. apply denotes_object. constructor; [|constructor]. split; [done|]. apply denotes_array. repeat constructor. by exists (View 8193 3). Qed.

Lemma ex_numbers : numbers_valid ex_json.
Proof. by vm_compute. Qed.

(** The text of the document. *)
Definition ex_rendered : list Z := [123; 34; 107; 34; 58; 91; 49; 44; 116; 114; 117; 101; 44; 110; 117; 108; 108; 44; 34; 32; 92; 34; 120; 34; 93; 125].
Example ex_text : render ex_fmt false 0 ex_json = ex_rendered.
Proof. vm_compute. reflexivity. Qed.

Lemma json_serialize_buffer_witness :
  let text := render ex_fmt false 0 ex_json in
  exists cells' rc, vox_json_serialize 0 ex_memory ex_fmt (bump_new 4096) (Some ex_tree) (Some (repeat 7 40)) 30 false = Some (cells', zlen text, rc) /\
  exists c', cells' = Some c' /\ zlen c' = zlen (repeat 7 40) /\ drop (Z.to_nat 30) c' = drop (Z.to_nat 30) (repeat 7 40) /\
    if zlen text <? 30 then rc = 0 /\ take (S (length text)) c' = text ++ [0]
    else rc = (if 0 <? 30 then -1 else 0) /\ (0 < 30 -> head c' = Some 0).
Proof.
  apply (json_serialize_buffer 0 ex_memory ex_fmt (bump_new 4096) (Some ex_tree) ex_json (Some (repeat 7 40)) 30 false);
    [exact ex_denotes|exact ex_numbers|done|reflexivity].
Defined.

Lemma json_to_string_text_witness :
  exists p' r, vox_json_to_string 0 ex_memory ex_fmt (Logged (bump_new 4096) false) (Some ex_tree) true = Some (p', r) /\
  match r with
  | None => mp_live p' = mp_live (Logged (bump_new 4096) false)
  | Some s => exists c, VString.str_inv p' s c /\ VString.others p' s = mp_live (Logged (bump_new 4096) false) /\
      (c = render ex_fmt true 0 ex_json \/ lg_refused p' = true)
  end.
Proof.
  apply (json_to_string_text 0 ex_memory ex_fmt (Logged (bump_new 4096) false) (Some ex_tree) ex_json true);
    [by apply bump_new_inv|exact ex_denotes|exact ex_numbers|reflexivity].
Defined.
End JsonText.
