(* ===== verification/JsonBack.v ===== *)
(** * vox_json.c: what the parser reads back

    The parser of Json.v on the texts that the serializer of JsonText.v writes. *)

From Stdlib Require Import String Ascii SpecFloat.
From S2P Require Import Prelude Alloc CString Scanner Json JsonText.

Module JsonBack.
Import CString Scanner Json JsonText.

(** The text of a JSON number. *)
Definition all_digits (l : list Z) : Prop := Forall (fun c => isdigit c = true) l.
Definition number_form (t : list Z) : Prop := exists sign int frac exp, t = sign ++ int ++ frac ++ exp /\
  (sign = [] \/ sign = [45]) /\
  (int = [48] \/ exists d ds, int = d :: ds /\ 49 <= d <= 57 /\ all_digits ds) /\
  (frac = [] \/ exists ds, frac = 46 :: ds /\ ds <> [] /\ all_digits ds) /\
  (exp = [] \/ exists e s ds, exp = e :: s ++ ds /\ (e = 101 \/ e = 69) /\ (s = [] \/ s = [43] \/ s = [45]) /\ ds <> [] /\ all_digits ds).

(** What may follow a number. *)
Definition stops (rest : list Z) : Prop := match rest with [] => True | c :: _ => isdigit c = false /\ c <> 46 /\ c <> 101 /\ c <> 69 end.

(** A string is kept the way it is written, escapes and all, and without the blanks in front. *)
Definition stored_text (l : list Z) : list Z := trim (concat (map escape_char l)).
Fixpoint stored (j : json) : json :=
  match j with
  | JText l => JText (stored_text l)
  | JArr js => JArr (map stored js)
  | JObj ms => JObj (map (fun m => (stored_text m.1, stored m.2)) ms)
  | _ => j
  end.

Section back.
Context {P : Type} `{MPoolLaws P} (mem : Z -> option Z) (strtod : list Z -> double * bool) (fmt : double -> list Z) (base : Z) (whole : list Z).
Hypothesis Hwhole : zlen whole < INT_MAX.
Implicit Types (p : logged P) (sc : vox_scanner) (rest l : list Z) (err : option vox_json_err_info).
#[local] Abbreviation stand := (stand mem base whole).
#[local] Abbreviation result := (logged P * vox_scanner * option vox_json_err_info * option vox_json_elem)%type.

(** An element is read, or a block was refused. *)
Definition reads (run : option result) err rest (D : vox_json_elem -> Prop) : Prop :=
  exists p' sc' err' r, run = Some (p', sc', err', r) /\
  match r with
  | None => lg_refused p' = true
  | Some e => err' = err /\ D e /\ stand sc' (trim rest)
  end.

Lemma reads_refused p sc err rest rest' message D : stand sc rest' -> lg_refused p = true -> reads (fail mem p sc err message) err rest D.
Proof.
  intros Hs Hr. unfold fail. destruct (set_error_told mem base whole sc rest' err message Hs Hwhole) as (err' & -> & _). cbn [mbind option_bind].
  by do 4 eexists.
Qed.

Lemma reads_alloc p sc err rest rest' size message k D : stand sc rest' ->
  (forall p' a, reads (k p' a) err rest D) ->
  reads (let '(p, a) := mp_alloc p size in if a =? NULL then fail mem p sc err message else k p a) err rest D.
Proof.
  intros Hs Hk. destruct (mp_alloc p size) as [p' a] eqn:E. destruct (Z.eqb_spec a NULL) as [->|]; [|apply Hk].
  eapply reads_refused; [exact Hs|]. by eapply refused_logged.
Qed.

Lemma reads_built p sc err a c rest (D : vox_json_elem -> Prop) : stand sc (trim rest) -> D (Elem a c) -> reads (built p sc err a c) err rest D.
Proof. intros. by do 4 eexists. Qed.

Lemma null_reads p sc err rest : stand sc (Prelude.bytes_of "null" ++ rest) ->
  reads (parse_null mem p sc err) err rest (fun e => denotes mem e JNull).
Proof.
  intros Hs. unfold parse_null, vox_scanner_curptr. rewrite (doc_remaining _ _ _ _ _ Hs), zlen_app.
  change (zlen (Prelude.bytes_of "null")) with 4. pose proof (zlen_nonneg rest). rewrite (proj2 (Z.ltb_ge _ _)) by lia.
  rewrite (stand_load _ _ _ _ _ 4 Hs) by (rewrite length_app; cbn; lia). change (take 4 (Prelude.bytes_of "null" ++ rest)) with (Prelude.bytes_of "null").
  cbn [mbind option_bind]. rewrite bool_decide_eq_true_2 by done. cbn [negb].
  destruct (doc_skip _ _ _ _ _ _ Hs) as (sc' & E & Hs'). change (zlen (Prelude.bytes_of "null")) with 4 in E. rewrite E. cbn [mbind option_bind].
  eapply reads_alloc; [exact Hs'|]. intros. by apply reads_built.
Qed.

Lemma word_reads sc w w' rest : stand sc (w ++ rest) -> word_at mem (curptr sc) (zlen (w ++ rest)) w' =
  Some (bool_decide (take (length (Prelude.bytes_of w')) (w ++ rest) = Prelude.bytes_of w')).
Proof.
  intros Hs. unfold word_at. destruct (Z.leb_spec (zlen (Prelude.bytes_of w')) (zlen (w ++ rest))) as [Hle|Hgt].
  - rewrite (stand_load _ _ _ _ _ _ Hs) by (unfold zlen in *; lia). done.
  - rewrite bool_decide_eq_false_2; [done|]. intros E. apply (f_equal zlen) in E. rewrite zlen_take in E. unfold zlen in *. lia.
Qed.

Lemma bool_reads p sc err b rest : stand sc (Prelude.bytes_of (if b : bool then "true" else "false") ++ rest) ->
  reads (parse_boolean mem p sc err) err rest (fun e => denotes mem e (JBool b)).
Proof.
  intros Hs. unfold parse_boolean, vox_scanner_curptr. rewrite (doc_remaining _ _ _ _ _ Hs).
  eapply reads_alloc; [exact Hs|]. intros p' a. rewrite !(word_reads _ _ _ _ Hs).
  destruct (doc_skip _ _ _ _ _ _ Hs) as (sc' & E & Hs'). destruct b.
  - cbn [mbind option_bind]. rewrite bool_decide_eq_true_2 by done. change (zlen (Prelude.bytes_of "true")) with 4 in E. rewrite E.
    cbn [mbind option_bind]. by apply reads_built.
  - cbn [mbind option_bind]. rewrite bool_decide_eq_false_2 by done. rewrite bool_decide_eq_true_2 by done.
    change (zlen (Prelude.bytes_of "false")) with 5 in E. rewrite E. cbn [mbind option_bind]. by apply reads_built.
Qed.

Lemma doc_bound sc rest : stand sc rest -> 0 < curptr sc /\ end_ sc < 2 ^ 64.
Proof. intros (past & _ & _ & H0' & Hc & He & Hm & _)%stand_here. pose proof (zlen_nonneg past). lia. Qed.

(** *** Numbers *)

Lemma char_holds sc f q l : holds mem q l -> end_ sc = q + zlen l -> char_at mem sc f q = Some (match l with [] => false | c :: _ => f c end).
Proof.
  intros Hh He. unfold char_at. rewrite He. destruct l as [|c l].
  - by rewrite zlen_nil, Z.add_0_r, Z.ltb_irrefl.
  - rewrite zlen_cons. pose proof (zlen_nonneg l). rewrite (proj2 (Z.ltb_lt _ _)) by lia. by apply holds_cons in Hh as [-> _].
Qed.

Definition no_digit l : Prop := match l with [] => True | c :: _ => isdigit c = false end.

Lemma take_digits ds l : all_digits ds -> no_digit l -> take_while isdigit (ds ++ l) = ds.
Proof.
  intros Hd Hl. induction Hd as [|d ds Hd _ IH]; cbn [app take_while].
  - destruct l as [|c l]; [done|]. cbn [take_while]. by rewrite Hl.
  - by rewrite Hd, IH.
Qed.

Lemma digits_holds sc q ds l : holds mem q (ds ++ l) -> end_ sc = q + zlen (ds ++ l) -> all_digits ds -> no_digit l ->
  digits mem sc q = Some (q + zlen ds).
Proof. intros Hh He Hd Hl. unfold digits. rewrite (run_while_spec mem _ isdigit q (end_ sc) (ds ++ l)) by done. by rewrite take_digits. Qed.

Lemma first_byte q c l : holds mem q (c :: l) -> mem q = Some c.
Proof. by intros [? _]%holds_cons. Qed.

Lemma byte_behind q l : holds mem q l -> l <> [] -> exists x, mem (q + zlen l - 1) = Some x.
Proof.
  intros Hh Hne. destruct (lookup_lt_is_Some_2 l (length l - 1)) as [x E]; [destruct l; [done|cbn; lia]|]. exists x.
  specialize (Hh _ _ E). rewrite <-Hh. f_equal. destruct l; [done|]. unfold zlen. cbn [length]. lia.
Qed.

Lemma int_reads sc sign int l : holds mem (curptr sc) (sign ++ int ++ l) -> end_ sc = curptr sc + zlen (sign ++ int ++ l) ->
  sign = [] \/ sign = [45] -> int = [48] \/ (exists d ds, int = d :: ds /\ 49 <= d <= 57 /\ all_digits ds) -> no_digit l ->
  number_int mem sc (curptr sc) = Some (inl (curptr sc + zlen (sign ++ int))).
Proof.
  intros Hh He Hsign Hint Hl. unfold number_int. set (q := curptr sc) in *.
  assert (exists c0, mem q = Some c0 /\ (if c0 =? 45 then q + 1 else q) = q + zlen sign) as (c0 & -> & Eq).
  { destruct Hsign as [-> | ->]; cbn [app] in Hh; [|exists 45; split; [by eapply first_byte|done]].
    destruct Hint as [->|(d & ds & -> & Hd & _)]; cbn [app] in Hh; eexists; (split; [by eapply first_byte|]); [cbn; by rewrite Z.add_0_r|].
    rewrite (proj2 (Z.eqb_neq d 45)) by lia. by rewrite Z.add_0_r. }
  cbn [mbind option_bind]. rewrite Eq. pose proof Hh as Hall. apply holds_app in Hh as [_ Hh]. rewrite zlen_app in He.
  set (b := q + zlen sign) in *.
  assert (exists c, mem b = Some c /\ (if c =? 48 then Some (Some (b + 1)) else if (49 <=? c) && (c <=? 57) then x ← digits mem sc (b + 1); Some (Some x) else Some None)
    = Some (Some (b + zlen int))) as (c & -> & E).
  { destruct Hint as [->|(d & ds & -> & Hd & Hds)]; cbn [app] in Hh; eexists; (split; [by eapply first_byte|]); [done|].
    rewrite (proj2 (Z.eqb_neq d 48)), (proj2 (Z.leb_le 49 d)), (proj2 (Z.leb_le d 57)) by lia. cbn [andb].
    pose proof (proj2 (proj1 (holds_cons _ _ _ _) Hh)) as Hh'. cbn [app] in He. rewrite zlen_cons in He.
    rewrite (digits_holds sc (b + 1) ds l) by (done || lia). cbn [mbind option_bind]. rewrite zlen_cons. do 2 f_equal. lia. }
  cbn [mbind option_bind]. rewrite E. cbn [mbind option_bind]. clear E Eq.
  assert (b + zlen int = q + zlen (sign ++ int)) as -> by (unfold b; rewrite zlen_app; lia).
  assert (sign ++ int <> []) as Hne by (destruct Hint as [->|(d & ds & -> & _)]; by destruct sign).
  rewrite app_assoc in Hall. apply holds_app in Hall as [Hsi Hrest].
  destruct (byte_behind q (sign ++ int) Hsi Hne) as [x Ex].
  rewrite (char_holds sc isdigit _ l) by (done || (rewrite zlen_app in *; lia)).
  assert ((match l with [] => false | c :: _ => isdigit c end) = false) as -> by (by destruct l).
  destruct ((1 <=? _) && _); [rewrite Ex|]; cbn [mbind option_bind]; [by destruct (x =? 48)|done].
Qed.

Lemma frac_reads sc q frac l : holds mem q (frac ++ l) -> end_ sc = q + zlen (frac ++ l) ->
  frac = [] \/ (exists ds, frac = 46 :: ds /\ ds <> [] /\ all_digits ds) -> no_digit l -> match l with [] => True | c :: _ => c <> 46 end ->
  number_frac mem sc q = Some (inl (q + zlen frac)).
Proof.
  intros Hh He Hf Hl Hdot. unfold number_frac. rewrite (char_holds sc _ q _ Hh He). cbn [mbind option_bind]. destruct Hf as [->|(ds & -> & Hne & Hds)].
  - cbn [app]. rewrite zlen_nil, Z.add_0_r. destruct l as [|c l]; [done|]. by rewrite (proj2 (Z.eqb_neq c 46)).
  - cbn [app Z.eqb Pos.eqb negb] in *. apply holds_cons in Hh as [_ Hh]. rewrite zlen_cons in *.
    rewrite (char_holds sc isdigit (q + 1) (ds ++ l)) by (done || lia). cbn [mbind option_bind].
    destruct ds as [|d ds]; [done|]. cbn [app] in *. pose proof (Forall_inv Hds) as Hd. rewrite Hd. cbn [negb].
    rewrite (digits_holds sc (q + 1) (d :: ds) l) by (done || (cbn [app]; lia)). cbn [mbind option_bind]. do 2 f_equal. lia.
Qed.

Lemma exp_reads sc q exp l : holds mem q (exp ++ l) -> end_ sc = q + zlen (exp ++ l) ->
  exp = [] \/ (exists e s ds, exp = e :: s ++ ds /\ (e = 101 \/ e = 69) /\ (s = [] \/ s = [43] \/ s = [45]) /\ ds <> [] /\ all_digits ds) ->
  stops l -> number_exp mem sc q = Some (inl (q + zlen exp)).
Proof.
  intros Hh He Hx Hl. unfold number_exp. rewrite (char_holds sc _ q _ Hh He). cbn [mbind option_bind]. destruct Hx as [->|(e & s & ds & -> & Hee & Hs & Hne & Hds)].
  - cbn [app]. rewrite zlen_nil, Z.add_0_r. destruct l as [|c l]; [done|]. destruct Hl as (_ & _ & ? & ?). by rewrite (proj2 (Z.eqb_neq c 101)), (proj2 (Z.eqb_neq c 69)).
  - cbn [app] in *. rewrite <-!app_assoc in *. assert ((e =? 101) || (e =? 69) = true) as -> by (destruct Hee as [-> | ->]; done). cbn [negb].
    apply holds_cons in Hh as [_ Hh]. rewrite zlen_cons in *. rewrite (char_holds sc _ (q + 1) (s ++ ds ++ l)) by (done || lia). cbn [mbind option_bind].
    assert (no_digit l) as Hnd by (destruct l; [done|apply Hl]). destruct ds as [|d ds]; [done|]. pose proof (Forall_inv Hds) as Hd.
    assert ((if match s ++ (d :: ds) ++ l with [] => false | c :: _ => (c =? 43) || (c =? 45) end then q + 2 else q + 1) = q + 1 + zlen s) as ->.
    { destruct Hs as [->|[-> | ->]]; cbn [app Z.eqb Pos.eqb orb]; [rewrite zlen_nil|rewrite zlen_cons, zlen_nil; lia..]. unfold isdigit in Hd. apply andb_true_iff in Hd as [?%Z.leb_le _].
      rewrite (proj2 (Z.eqb_neq d 43)), (proj2 (Z.eqb_neq d 45)) by lia. cbn [orb]. lia. }
    apply holds_app in Hh as [_ Hh]. rewrite !zlen_app in He. rewrite (char_holds sc isdigit (q + 1 + zlen s) ((d :: ds) ++ l)) by (done || (rewrite zlen_app; lia)).
    cbn [app mbind option_bind]. rewrite Hd. cbn [negb]. rewrite (digits_holds sc (q + 1 + zlen s) (d :: ds) l) by (done || (rewrite zlen_app; lia)).
    cbn [mbind option_bind]. do 2 f_equal. rewrite zlen_app. lia.
Qed.

Lemma number_reads p sc err t d rest : stand sc (t ++ rest) -> number_form t -> stops rest -> strtod t = (d, false) -> isfinite d = true ->
  reads (parse_number mem strtod p sc err) err rest (fun e => denotes mem e (JNum d)).
Proof.
  intros Hs Hf Hstop Hd Hfin. pose proof (stand_here _ _ _ _ _ Hs) as (past & Ep & _ & H0' & Hc & He & Hm & Hh & _).
  assert (end_ sc = curptr sc + zlen (t ++ rest)) as He' by (rewrite He, Hc, <-Ep, (zlen_app past); lia). clear He.
  destruct Hf as (sign & int & frac & exp & Et & Hsign & Hint & Hfrac & Hexp). unfold parse_number, vox_scanner_curptr.
  assert (no_digit rest) as Hnd by (destruct rest; [done|apply Hstop]).
  assert (stops (exp ++ rest) \/ exists e l, exp ++ rest = e :: l /\ (e = 101 \/ e = 69)) as Hx.
  { destruct Hexp as [->|(e & s & ds & -> & Hee & _)]; [by left|right; by eexists e, _]. }
  assert (no_digit (exp ++ rest) /\ match exp ++ rest with [] => True | c :: _ => c <> 46 end) as [Hnx Hdx].
  { destruct Hx as [Hx|(e & l & -> & [-> | ->])]; [destruct (exp ++ rest); [done|split; apply Hx]|done..]. }
  assert (no_digit (frac ++ exp ++ rest)) as Hnf by (destruct Hfrac as [->|(ds & -> & _)]; done).
  pose proof Hh as Hh1. rewrite Et, <-!app_assoc in Hh1. pose proof He' as He1. rewrite Et, <-!app_assoc in He1.
  rewrite (int_reads sc sign int (frac ++ exp ++ rest) Hh1 He1 Hsign Hint Hnf). cbn [mbind option_bind].
  rewrite app_assoc in Hh1, He1. apply holds_app in Hh1 as [_ Hh2]. rewrite (zlen_app (sign ++ int)) in He1.
  rewrite (frac_reads sc _ frac (exp ++ rest) Hh2) by (done || lia). cbn [mbind option_bind].
  apply holds_app in Hh2 as [_ Hh3]. rewrite (zlen_app frac) in He1.
  rewrite (exp_reads sc _ exp rest Hh3) by (done || lia). cbn [mbind option_bind]. unfold number_value.
  assert (curptr sc + zlen (sign ++ int) + zlen frac + zlen exp - curptr sc = zlen t) as -> by (rewrite Et, !zlen_app; lia).
  pose proof (zlen_nonneg t). rewrite (u64_small (zlen t)) by (rewrite zlen_app in He'; pose proof (zlen_nonneg rest); pose proof (doc_bound sc _ Hs); lia).
  eapply reads_alloc; [exact Hs|]. intros p1 s.
  rewrite (stand_load _ _ _ _ _ _ Hs) by (rewrite length_app; unfold zlen; lia). replace (Z.to_nat (zlen t)) with (length t) by (unfold zlen; lia).
  rewrite take_app_length. cbn [mbind option_bind]. rewrite Hd, Hfin. cbn [orb negb].
  destruct (doc_skip _ _ _ _ _ _ Hs) as (sc' & -> & Hs'). cbn [mbind option_bind]. eapply reads_alloc; [exact Hs'|]. intros. by apply reads_built.
Qed.

Lemma reads_failed p sc err rest rest' message a D : stand sc rest' -> lg_refused p = true ->
  reads (err ← set_error mem err sc message; Some (mp_free p a, sc, err, None)) err rest D.
Proof.
  intros Hs Hr. destruct (set_error_told mem base whole sc rest' err message Hs Hwhole) as (err' & -> & _). cbn [mbind option_bind].
  by do 4 eexists.
Qed.

Lemma reads_bind run k err rest rest' (D D' : vox_json_elem -> Prop) : reads run err rest D ->
  (forall p sc e, D e -> stand sc (trim rest) -> reads (k (p, sc, err, Some e)) err rest' D') ->
  (forall p sc err', lg_refused p = true -> reads (k (p, sc, err', None)) err rest' D') ->
  reads (w ← run; k w) err rest' D'.
Proof.
  intros (p & sc & err' & [e|] & -> & Hr) Hk Hn; cbn [mbind option_bind]; [|by apply Hn].
  destruct Hr as (-> & HD & Hs). by apply Hk.
Qed.

Lemma reads_mono run err rest (D D' : vox_json_elem -> Prop) : reads run err rest D -> (forall e, D e -> D' e) -> reads run err rest D'.
Proof.
  intros (p & sc & err' & r & -> & Hr) HD. do 4 eexists. split; [done|]. destruct r as [e|]; [|done]. destruct Hr as (? & ? & ?). auto.
Qed.

(** *** Blanks *)

(** A text whose first character is not a blank. *)
Definition solid l : Prop := match l with [] => False | c :: _ => is_whitespace c = false end.

Lemma trim_solid l rest : solid l -> trim (l ++ rest) = l ++ rest.
Proof. destruct l as [|c l]; [done|]. cbn [solid]. intros Hc. unfold trim. cbn [app drop_while]. by rewrite Hc. Qed.

Lemma trim_mark c rest : is_whitespace c = false -> trim (c :: rest) = c :: rest.
Proof. intros Hc. by apply (trim_solid [c]). Qed.

Lemma trim_stop c l rest : is_whitespace c = false -> trim (l ++ c :: rest) = trim l ++ c :: rest.
Proof.
  intros Hc. unfold trim. induction l as [|x l IH]; cbn [app drop_while]; [by rewrite Hc|]. by destruct (is_whitespace x).
Qed.

Lemma trim_blanks l rest : Forall (fun c => is_whitespace c = true) l -> trim (l ++ rest) = trim rest.
Proof. unfold trim. induction 1 as [|c l Hc _ IH]; cbn [app drop_while]; [done|]. by rewrite Hc. Qed.

Lemma newline_blanks pr ind : Forall (fun c => is_whitespace c = true) (newline pr ind).
Proof.
  unfold newline. destruct pr; [|done]. constructor; [done|]. induction (Z.to_nat ind) as [|n IH]; cbn [replicate concat app]; [done|].
  by constructor; [|constructor].
Qed.

(** *** Strings *)

Lemma hex_digit d : 0 <= d < 16 -> isxdigit (hex d) = true.
Proof.
  intros Hd. assert (Forall (fun d => isxdigit (hex d) = true) (seqZ 0 16)) as HF by (repeat constructor).
  rewrite Forall_forall in HF. apply HF, elem_of_seqZ. lia.
Qed.

(** How a character is written: itself, an escape of one character, or an escape of four digits. *)
Lemma escape_cases c : 0 <= c < 256 ->
  escape_char c = [c] /\ c <> 34 /\ c <> 92 \/ (exists x, escape_char c = [92; x] /\ x <> 117) \/
  (exists x y, escape_char c = [92; 117; 48; 48; x; y] /\ isxdigit x = true /\ isxdigit y = true).
Proof.
  intros Hc. unfold escape_char.
  destruct (Z.eqb_spec c 34); [right; left; by eexists|]. destruct (Z.eqb_spec c 92); [right; left; by eexists|].
  do 5 (case_one; [right; left; by eexists|]). destruct (Z.ltb_spec c 32); [|by left]. right. right.
  exists (hex (Z.shiftr c 4)), (hex (Z.land c 15)). split; [done|]. split; apply hex_digit.
  - rewrite Z.shiftr_div_pow2 by lia. change (2 ^ 4) with 16. split; [apply Z.div_pos; lia|apply Z.div_lt_upper_bound; lia].
  - change 15 with (Z.ones 4). rewrite Z.land_ones by lia. apply Z.mod_pos_bound. lia.
Qed.

Lemma xdigit_ascii c : isxdigit c = true -> c < 128.
Proof. unfold isxdigit, isdigit. intros Hc. repeat case_one; cbn in Hc; try done; lia. Qed.

Lemma hex4_holds q x y l e : holds mem q (48 :: 48 :: x :: y :: l) -> q + zlen (48 :: 48 :: x :: y :: l) <= e ->
  isxdigit x = true -> isxdigit y = true -> hex4 mem 4 q e = Some (Some (q + 4)).
Proof.
  intros Hh He Hx Hy. rewrite !zlen_cons in He. pose proof (zlen_nonneg l). apply holds_cons in Hh as [M0 Hh]. apply holds_cons in Hh as [M1 Hh].
  apply holds_cons in Hh as [M2 Hh]. apply holds_cons in Hh as [M3 _]. cbn [hex4].
  rewrite !(proj2 (Z.leb_gt e _)) by lia. rewrite M0, M1, M2, M3. cbn [mbind option_bind].
  rewrite (proj2 (Z.ltb_lt x 128)), (proj2 (Z.ltb_lt y 128)) by (by apply xdigit_ascii). rewrite Hx, Hy.
  cbn [negb isxdigit isdigit Z.ltb Z.compare Pos.compare Pos.compare_cont].
  do 2 f_equal. lia.
Qed.

Definition escaped l : list Z := concat (map escape_char l).

Lemma string_end_holds l e rest : is_bytes l -> forall fuel q, holds mem q (escaped l ++ 34 :: rest) -> q + zlen (escaped l ++ 34 :: rest) <= e ->
  (length l < fuel)%nat -> string_end mem fuel q e = Some (inl (q + zlen (escaped l))).
Proof.
  induction 1 as [|c l Hc _ IH]; intros [|fuel] q Hh He Hf; cbn [length] in Hf; try lia; unfold escaped in *; cbn [map concat string_end] in *.
  - cbn [app] in *. rewrite zlen_cons in He. pose proof (zlen_nonneg rest). rewrite (proj2 (Z.ltb_lt _ _)) by lia.
    apply holds_cons in Hh as [-> _]. cbn [mbind option_bind Z.eqb Pos.eqb]. by rewrite zlen_nil, Z.add_0_r.
  - set (es := concat (map escape_char l)) in *. rewrite <-app_assoc in Hh, He. pose proof (zlen_nonneg (es ++ 34 :: rest)).
    destruct (escape_cases c Hc) as [(Ec & Hq & Hb)|[(x & Ec & Hx)|(x & y & Ec & Hx & Hy)]]; rewrite Ec in *; cbn [app] in *; rewrite ?zlen_cons in He |- *;
      rewrite (proj2 (Z.ltb_lt q e)) by lia; apply holds_cons in Hh as [M0 Hh]; rewrite M0; cbn [mbind option_bind].
    + rewrite (proj2 (Z.eqb_neq c 34)), (proj2 (Z.eqb_neq c 92)) by done. rewrite IH by (done || lia). do 2 f_equal. lia.
    + cbn [Z.eqb Pos.eqb]. rewrite (proj2 (Z.leb_gt e _)) by lia. apply holds_cons in Hh as [M1 Hh]. rewrite M1. cbn [mbind option_bind].
      rewrite (proj2 (Z.eqb_neq x 117)) by done. rewrite IH by (done || lia). do 2 f_equal. lia.
    + cbn [Z.eqb Pos.eqb]. rewrite (proj2 (Z.leb_gt e _)) by lia. apply holds_cons in Hh as [M1 Hh]. rewrite M1. cbn [mbind option_bind Z.eqb Pos.eqb].
      rewrite (hex4_holds _ x y (es ++ 34 :: rest)) by (done || (rewrite !zlen_cons; lia)). cbn [mbind option_bind].
      do 4 (apply holds_cons in Hh as [_ Hh]). replace (q + 1 + 1 + 1 + 1 + 1 + 1) with (q + 1 + 1 + 4) in Hh by lia.
      rewrite IH by (done || lia). do 2 f_equal. lia.
Qed.

(** Only blanks are cut off, so that what is left is the escaped form of some other text. *)
Lemma stored_suffix l : is_bytes l -> exists l', stored_text l = escaped l' /\ is_bytes l'.
Proof.
  unfold stored_text, escaped. induction 1 as [|c l Hc Hl (l' & E & Hl')]; [exists []; split; [done|constructor]|]. cbn [map concat].
  destruct (is_whitespace (default 0 (head (escape_char c)))) eqn:Ew.
  - destruct (escape_cases c Hc) as [(Ec & _)|[(x & Ec & _)|(x & y & Ec & _)]]; rewrite Ec in *; cbn [head default id] in Ew; [|discriminate..].
    exists l'. split; [|done]. rewrite <-E. unfold trim. cbn [app drop_while]. by rewrite Ew.
  - exists (c :: l). split; [|by constructor]. cbn [map concat]. apply trim_solid.
    destruct (escape_cases c Hc) as [(Ec & _)|[(x & Ec & _)|(x & y & Ec & _)]]; rewrite Ec in *; exact Ew.
Qed.

(** The string that is read: its value shows what is stored of [l]. *)
Definition text_of l (e : vox_json_elem) : Prop := exists a v, e = Elem a (Text_ v) /\ shows mem v (stored_text l).

Lemma string_reads p sc err l rest : is_bytes l -> stand sc (quoted l ++ rest) -> reads (parse_string mem p sc err) err rest (text_of l).
Proof.
  intros Hl Hs. unfold quoted in Hs. cbn [app] in Hs. rewrite <-app_assoc in Hs. cbn [app] in Hs. unfold parse_string, vox_scanner_curptr.
  rewrite (stand_peek _ _ _ _ _ Hs). cbn [head default id mbind option_bind Z.eqb Pos.eqb negb].
  destruct (doc_get _ _ _ _ _ _ Hs) as (sc1 & -> & Hs1). cbn [mbind option_bind]. rewrite trim_stop in Hs1 by done. fold (stored_text l) in Hs1.
  pose proof (stand_here _ _ _ _ _ Hs1) as (past & Ep & _ & H0' & Hc & He & Hm & Hh & _). destruct (stored_suffix l Hl) as (l' & El & Hl'). rewrite El in *.
  assert (end_ sc1 = curptr sc1 + zlen (escaped l' ++ 34 :: rest)) as He1 by (rewrite He, Hc, <-Ep, (zlen_app past); lia).
  assert (zlen l' <= zlen (escaped l')) as Hle.
  { clear -Hl'. unfold escaped. induction Hl' as [|c l' Hc _ IH]; [done|]. cbn [map concat]. rewrite zlen_cons, zlen_app.
    destruct (escape_cases c Hc) as [(-> & _)|[(x & -> & _)|(x & y & -> & _)]]; rewrite ?zlen_cons, zlen_nil; lia. }
  pose proof (zlen_nonneg rest). pose proof (zlen_nonneg past). pose proof (zlen_nonneg (escaped l')).
  rewrite (string_end_holds l' (end_ sc1) rest Hl') by (done || (rewrite He1; try lia; rewrite zlen_app; unfold zlen in *; lia)).
  cbn [mbind option_bind]. rewrite He1, zlen_app, zlen_cons, (proj2 (Z.leb_gt _ _)) by lia.
  replace (curptr sc1 + zlen (escaped l') - curptr sc1) with (zlen (escaped l')) by lia.
  rewrite zlen_app, zlen_cons in He1. rewrite u64_small by lia.
  destruct (doc_skip _ _ _ _ _ _ Hs1) as (sc2 & -> & Hs2). cbn [mbind option_bind]. change (trim (34 :: rest)) with (34 :: rest) in Hs2.
  rewrite (stand_peek _ _ _ _ _ Hs2). cbn [head default id mbind option_bind Z.eqb Pos.eqb negb].
  destruct (doc_get _ _ _ _ _ _ Hs2) as (sc3 & -> & Hs3). cbn [mbind option_bind]. eapply reads_alloc; [exact Hs3|]. intros p' a.
  apply reads_built; [exact Hs3|]. do 2 eexists. split; [done|]. rewrite El. split; [|done]. cbn [v_ptr v_len].
  rewrite (stand_load _ _ _ _ _ _ Hs1) by (rewrite length_app; unfold zlen; lia). unfold zlen. by rewrite Nat2Z.id, take_app_length.
Qed.

(** *** Arrays and objects *)

Lemma closing_trim pr ind c rest : is_whitespace c = false -> trim (newline pr ind ++ c :: rest) = c :: rest.
Proof. intros Hc. rewrite trim_blanks by apply newline_blanks. by apply trim_mark. Qed.

(** Behind an item there is a comma or the closing bracket. *)
Lemma items_stop {A} (f : A -> list Z) nl (l : list A) pr ind c rest : c = 93 \/ c = 125 ->
  stops (items_text f nl false l ++ newline pr ind ++ c :: rest).
Proof. intros Hc. destruct l as [|x l]; cbn [items_text app]; [|done]. destruct pr; cbn [newline app]; [done|]. by destruct Hc as [-> | ->]. Qed.

Section containers.
Context (pv : logged P -> vox_scanner -> option vox_json_err_info -> option result).

(** The parser of values reads the text [t]. *)
Definition parses (t : list Z) (D : vox_json_elem -> Prop) : Prop :=
  forall p sc err rest, stand sc (t ++ rest) -> stops rest -> reads (pv p sc err) err rest D.

Lemma array_loop_reads (f : json -> list Z) (D : vox_json_elem -> json -> Prop) pr ind ind' rest js :
  forall j fuel p sc err a items, Forall (fun j => solid (f j) /\ parses (f j) (fun e => D e j)) (j :: js) ->
  stand sc (f j ++ items_text f (newline pr ind') false js ++ newline pr ind ++ 93 :: rest) -> (length js < fuel)%nat ->
  reads (array_loop mem pv fuel p sc err a items) err rest (fun e => exists es, e = Elem a (Array (items ++ es)) /\ Forall2 D es (j :: js)).
Proof.
  induction js as [|j2 js IH]; intros j [|fuel] p sc err a items Hall Hs Hf; cbn [length] in Hf; try lia; cbn [array_loop];
    pose proof (Forall_inv Hall) as [_ Hj]; apply Forall_inv_tail in Hall;
    (eapply reads_bind; [apply Hj; [exact Hs|apply items_stop; by left]| |by intros; do 4 eexists]).
  - intros p1 sc1 e He Hs1. cbn [items_text app] in Hs1. rewrite closing_trim in Hs1 by done. rewrite (stand_peek _ _ _ _ _ Hs1).
    cbn [head default id mbind option_bind Z.eqb Pos.eqb]. destruct (doc_get _ _ _ _ _ _ Hs1) as (sc2 & -> & Hs2). cbn [mbind option_bind].
    apply reads_built; [done|]. exists [e]. split; [done|]. by repeat constructor.
  - intros p1 sc1 e He Hs1. cbn [items_text app] in Hs1. rewrite (stand_peek _ _ _ _ _ Hs1).
    cbn [head default id mbind option_bind Z.eqb Pos.eqb]. destruct (doc_get _ _ _ _ _ _ Hs1) as (sc2 & -> & Hs2). cbn [mbind option_bind].
    rewrite <-!app_assoc, trim_blanks, trim_solid in Hs2 by (apply newline_blanks || apply (Forall_inv Hall)).
    eapply reads_mono; [eapply IH; [exact Hall|exact Hs2|lia]|]. intros e' (es & -> & Hes). exists (e :: es). rewrite <-app_assoc. split; [done|]. by constructor.
Qed.

Lemma items_length {A} (f : A -> list Z) nl (l : list A) : zlen l <= zlen (items_text f nl false l).
Proof. induction l as [|x l IH]; [done|]. cbn [items_text]. rewrite !zlen_app, !zlen_cons. pose proof (zlen_nonneg nl). pose proof (zlen_nonneg (f x)). pose proof (zlen_nonneg (@nil Z)). lia. Qed.

Lemma group_first {A} (f : A -> list Z) o c nl pr ind (x : A) (l : list A) rest : f x <> [] ->
  group_text o c pr ind (items_text f nl true (x :: l)) ++ rest = o :: nl ++ f x ++ items_text f nl false l ++ newline pr ind ++ c :: rest.
Proof.
  intros Hx. unfold group_text. cbn [items_text app]. set (its := nl ++ f x ++ items_text f nl false l).
  assert (match its with [] => [] | _ => newline pr ind end = newline pr ind) as ->.
  { unfold its. destruct nl; [|done]. by destruct (f x). }
  unfold its. rewrite <-!app_assoc. done.
Qed.

(** The start of a value: no blank, and no closing bracket. *)
Definition opens t : Prop := match t with [] => False | c :: _ => is_whitespace c = false /\ c <> 93 end.
Lemma opens_solid t : opens t -> solid t.
Proof. destruct t; [done|]. by intros [? _]. Qed.
Lemma opens_nonempty t : opens t -> t <> [].
Proof. by destruct t. Qed.

Lemma array_reads (f : json -> list Z) (D : vox_json_elem -> json -> Prop) pr ind ind' rest js p sc err :
  Forall (fun j => opens (f j) /\ parses (f j) (fun e => D e j)) js ->
  stand sc (group_text 91 93 pr ind (items_text f (newline pr ind') true js) ++ rest) ->
  reads (parse_array mem pv p sc err) err rest (fun e => exists a es, e = Elem a (Array es) /\ Forall2 D es js).
Proof.
  intros Hall Hs. unfold parse_array. destruct js as [|j js].
  - cbn [items_text group_text app] in Hs. rewrite (stand_peek _ _ _ _ _ Hs). cbn [head default id mbind option_bind Z.eqb Pos.eqb negb].
    destruct (doc_get _ _ _ _ _ _ Hs) as (sc1 & -> & Hs1). cbn [mbind option_bind]. change (trim (93 :: rest)) with (93 :: rest) in Hs1.
    eapply reads_alloc; [exact Hs1|]. intros p1 a. rewrite (stand_peek _ _ _ _ _ Hs1). cbn [head default id mbind option_bind Z.eqb Pos.eqb].
    destruct (doc_get _ _ _ _ _ _ Hs1) as (sc2 & -> & Hs2). cbn [mbind option_bind]. apply reads_built; [done|]. by exists a, [].
  - pose proof (Forall_inv Hall) as [Hop _]. rewrite group_first in Hs by by apply opens_nonempty. rewrite (stand_peek _ _ _ _ _ Hs).
    cbn [head default id mbind option_bind Z.eqb Pos.eqb negb]. destruct (doc_get _ _ _ _ _ _ Hs) as (sc1 & -> & Hs1). cbn [mbind option_bind].
    rewrite trim_blanks, trim_solid in Hs1 by (apply newline_blanks || by apply opens_solid).
    eapply reads_alloc; [exact Hs1|]. intros p1 a. rewrite (stand_peek _ _ _ _ _ Hs1), (doc_remaining _ _ _ _ _ Hs1). cbn [mbind option_bind].
    match goal with |- context [array_loop mem pv ?F _ _ _ _ _] => set (fuel := F) end. assert (length js < fuel)%nat as Hfuel.
    { unfold fuel. pose proof (items_length f (newline pr ind') js). rewrite !zlen_app. pose proof (zlen_nonneg (f j)). pose proof (zlen_nonneg (newline pr ind)).
      pose proof (zlen_nonneg (93 :: rest)). unfold zlen in *. lia. }
    clearbody fuel. destruct (f j) as [|c t] eqn:Ef; [done|]. destruct Hop as [_ Hc]. cbn [app head default id]. rewrite (proj2 (Z.eqb_neq c 93)) by done.
    eapply reads_mono; [eapply (array_loop_reads f D pr ind ind' rest js j); [|rewrite Ef; exact Hs1|done]|].
    + eapply Forall_impl; [exact Hall|]. intros x [Hx Hp]. split; [by apply opens_solid|done].
    + intros e (es & -> & Hes). by exists a, es.
Qed.

(** A member: its name, a colon, its value. *)
Definition member_text (f : json -> list Z) (colon : list Z) (m : list Z * json) : list Z := quoted m.1 ++ colon ++ f m.2.
Definition member_of (D : vox_json_elem -> json -> Prop) (e : vox_json_member vox_json_elem) (m : list Z * json) : Prop :=
  shows mem (m_name e) (stored_text m.1) /\ D (m_value e) m.2.

Definition colon (pr : bool) : list Z := if pr then [58; 32] else [58].
Lemma colon_spaced pr : exists sp, colon pr = 58 :: sp /\ Forall (fun c => is_whitespace c = true) sp.
Proof. destruct pr; eexists; (split; [done|]); by repeat constructor. Qed.

Lemma member_reads (f : json -> list Z) D D' fuel pr p sc err a members m tail rest :
  is_bytes m.1 -> solid (f m.2) -> parses (f m.2) (fun e => D e m.2) -> stand sc (member_text f (colon pr) m ++ tail) -> stops tail ->
  (forall p sc k, member_of D k m -> stand sc (trim tail) ->
    reads (ch ← vox_scanner_peek_char mem sc;
           if ch =? 125 then '(sc, _) ← vox_scanner_get_char mem sc; built p sc err a (Object (members ++ [k]))
           else if ch =? 44 then '(sc, _) ← vox_scanner_get_char mem sc; object_loop mem pv fuel p sc err a (members ++ [k])
           else err ← set_error mem err sc "Expected ',' or '}' in object"; Some (mp_free p a, sc, err, None)) err rest D') ->
  reads (object_loop mem pv (S fuel) p sc err a members) err rest D'.
Proof.
  intros Hm Hso Hj Hs Hst Hk. cbn [object_loop]. cbv zeta. unfold member_text in Hs. rewrite <-!app_assoc in Hs.
  assert (vox_scanner_peek_char mem sc = Some 34) as -> by (rewrite (stand_peek _ _ _ _ _ Hs); done). cbn [mbind option_bind Z.eqb Pos.eqb negb].
  eapply reads_bind; [by apply string_reads| |by intros; do 4 eexists]. intros p1 sc1 ? (k & v & -> & Hv) Hs1.
  destruct (colon_spaced pr) as (sp & Ecol & Hsp). rewrite Ecol in Hs1. cbn [app] in Hs1. rewrite trim_mark in Hs1 by done.
  rewrite (stand_peek _ _ _ _ _ Hs1). cbn [head default id mbind option_bind Z.eqb Pos.eqb negb].
  destruct (doc_get _ _ _ _ _ _ Hs1) as (sc2 & -> & Hs2). cbn [mbind option_bind]. rewrite trim_blanks, trim_solid in Hs2 by done.
  eapply reads_bind; [by apply Hj| |by intros; do 4 eexists]. intros p2 sc3 e He Hs3.
  destruct (mp_alloc p2 sizeof_member) as [p3 x] eqn:Ea. destruct (Z.eqb_spec x NULL) as [->|].
  - eapply reads_failed; [exact Hs3|]. by eapply refused_logged.
  - apply Hk; [|done]. by split.
Qed.

Lemma object_loop_reads (f : json -> list Z) (D : vox_json_elem -> json -> Prop) (pr : bool) ind ind' rest ms :
  forall m fuel p sc err a members, Forall (fun m => is_bytes m.1 /\ solid (f m.2) /\ parses (f m.2) (fun e => D e m.2)) (m :: ms) ->
  stand sc (member_text f (colon pr) m ++ items_text (member_text f (colon pr)) (newline pr ind') false ms ++ newline pr ind ++ 125 :: rest) -> (length ms < fuel)%nat ->
  reads (object_loop mem pv fuel p sc err a members) err rest (fun e => exists es, e = Elem a (Object (members ++ es)) /\ Forall2 (member_of D) es (m :: ms)).
Proof.
  induction ms as [|m2 ms IH]; intros m [|fuel] p sc err a members Hall Hs Hf; cbn [length] in Hf; try lia;
    pose proof (Forall_inv Hall) as (Hm & Hso & Hj); apply Forall_inv_tail in Hall;
    (eapply member_reads; [exact Hm|exact Hso|exact Hj|exact Hs|apply items_stop; by right|]); intros p1 sc1 k Hk Hs1; cbn [items_text app] in Hs1.
  - rewrite closing_trim in Hs1 by done. rewrite (stand_peek _ _ _ _ _ Hs1).
    cbn [head default id mbind option_bind Z.eqb Pos.eqb]. destruct (doc_get _ _ _ _ _ _ Hs1) as (sc2 & -> & Hs2). cbn [mbind option_bind].
    apply reads_built; [done|]. exists [k]. split; [done|]. constructor; [done|constructor].
  - rewrite trim_mark in Hs1 by done. rewrite (stand_peek _ _ _ _ _ Hs1).
    cbn [head default id mbind option_bind Z.eqb Pos.eqb]. destruct (doc_get _ _ _ _ _ _ Hs1) as (sc2 & -> & Hs2). cbn [mbind option_bind].
    rewrite <-!app_assoc, trim_blanks, trim_solid in Hs2 by (apply newline_blanks || done).
    eapply reads_mono; [eapply IH; [exact Hall|exact Hs2|lia]|]. intros e' (es & -> & Hes). exists (k :: es). rewrite <-app_assoc. split; [done|]. by constructor.
Qed.

Lemma object_reads (f : json -> list Z) (D : vox_json_elem -> json -> Prop) (pr : bool) ind ind' rest ms p sc err :
  Forall (fun m => is_bytes m.1 /\ solid (f m.2) /\ parses (f m.2) (fun e => D e m.2)) ms ->
  stand sc (group_text 123 125 pr ind (items_text (member_text f (colon pr)) (newline pr ind') true ms) ++ rest) ->
  reads (parse_object mem pv p sc err) err rest (fun e => exists a es, e = Elem a (Object es) /\ Forall2 (member_of D) es ms).
Proof.
  intros Hall Hs. unfold parse_object. destruct ms as [|m ms].
  - cbn [items_text group_text app] in Hs. rewrite (stand_peek _ _ _ _ _ Hs). cbn [head default id mbind option_bind Z.eqb Pos.eqb negb].
    destruct (doc_get _ _ _ _ _ _ Hs) as (sc1 & -> & Hs1). cbn [mbind option_bind]. change (trim (125 :: rest)) with (125 :: rest) in Hs1.
    eapply reads_alloc; [exact Hs1|]. intros p1 a. rewrite (stand_peek _ _ _ _ _ Hs1). cbn [head default id mbind option_bind Z.eqb Pos.eqb].
    destruct (doc_get _ _ _ _ _ _ Hs1) as (sc2 & -> & Hs2). cbn [mbind option_bind]. apply reads_built; [done|]. by exists a, [].
  - rewrite group_first in Hs by done. rewrite (stand_peek _ _ _ _ _ Hs).
    cbn [head default id mbind option_bind Z.eqb Pos.eqb negb]. destruct (doc_get _ _ _ _ _ _ Hs) as (sc1 & -> & Hs1). cbn [mbind option_bind].
    rewrite trim_blanks, trim_solid in Hs1 by (apply newline_blanks || done).
    eapply reads_alloc; [exact Hs1|]. intros p1 a. rewrite (stand_peek _ _ _ _ _ Hs1), (doc_remaining _ _ _ _ _ Hs1). cbn [mbind option_bind].
    match goal with |- context [object_loop mem pv ?F _ _ _ _ _] => set (fuel := F) end. assert (length ms < fuel)%nat as Hfuel.
    { unfold fuel. pose proof (items_length (member_text f (colon pr)) (newline pr ind') ms). rewrite !zlen_app. pose proof (zlen_nonneg (member_text f (colon pr) m)).
      pose proof (zlen_nonneg (newline pr ind)). pose proof (zlen_nonneg (125 :: rest)). unfold zlen in *. lia. }
    clearbody fuel. change (head (member_text f (colon pr) m ++ ?l)) with (Some 34). cbn [default id Z.eqb Pos.eqb].
    eapply reads_mono; [by eapply (object_loop_reads f D pr ind ind' rest ms m)|]. intros e (es & -> & Hes). by exists a, es.
Qed.
End containers.

(** *** Values *)

(** Every number has a text that a JSON parser takes and that [strtod] gives the number back for. *)
Definition number_read (n : double) : Prop :=
  let t := default [48] (number_text fmt n) in number_form t /\ strtod t = (n, false) /\ isfinite n = true.
Definition readable (j : json) : Prop := json_all number_read is_bytes j.

(** The first character of a number. *)
Lemma number_head t : number_form t -> exists c l, t = c :: l /\ (c = 45 \/ 48 <= c <= 57).
Proof.
  intros (sign & int & frac & exp & -> & Hsign & Hint & _). destruct Hsign as [-> | ->]; cbn [app]; [|do 2 eexists; split; [done|lia]].
  destruct Hint as [->|(d & ds & -> & Hd & _)]; cbn [app]; do 2 eexists; (split; [done|lia]).
Qed.

Lemma render_opens pr ind j : readable j -> opens (render fmt pr ind j).
Proof.
  destruct j as [|[]|n|l|js|ms]; try done. intros (Hf & _ & _). cbn [render]. destruct (number_head _ Hf) as (c & l & -> & Hc). cbn [opens].
  split; [|lia]. unfold is_whitespace. rewrite !(proj2 (Z.eqb_neq c _)) by lia. done.
Qed.

Lemma value_enters fuel p sc err c rest : stand sc (c :: rest) -> parse_value mem strtod (S fuel) p sc err =
  if c =? 110 then parse_null mem p sc err
  else if (c =? 116) || (c =? 102) then parse_boolean mem p sc err
  else if (c =? 45) || isdigit c then parse_number mem strtod p sc err
  else if c =? 34 then parse_string mem p sc err
  else if c =? 91 then parse_array mem (parse_value mem strtod fuel) p sc err
  else if c =? 123 then parse_object mem (parse_value mem strtod fuel) p sc err
  else fail mem p sc err "Unexpected character".
Proof. intros Hs. cbn [parse_value]. by rewrite (stand_eof _ _ _ _ _ Hs), (stand_peek _ _ _ _ _ Hs). Qed.

Lemma item_length {A} (f : A -> list Z) nl first (l : list A) x : x ∈ l -> zlen (f x) <= zlen (items_text f nl first l).
Proof.
  revert first. induction l as [|y l IH]; intros first Hx; [by apply elem_of_nil in Hx|]. cbn [items_text]. rewrite !zlen_app.
  pose proof (zlen_nonneg (if first then [] else [44])). pose proof (zlen_nonneg nl). pose proof (zlen_nonneg (f y)). pose proof (zlen_nonneg (items_text f nl false l)).
  apply elem_of_cons in Hx as [->|Hx]; [lia|]. specialize (IH false Hx). lia.
Qed.

Lemma group_length o c pr ind its : zlen its < zlen (group_text o c pr ind its).
Proof. unfold group_text. rewrite zlen_cons, !zlen_app. pose proof (zlen_nonneg (match its with [] => [] | _ => newline pr ind end)). pose proof (zlen_nonneg [c]). lia. Qed.

Lemma fuel_left fuel pr ind j : readable j -> zlen (render fmt pr ind j) <= Z.of_nat fuel -> exists fuel', fuel = S fuel'.
Proof.
  intros Hr Hf. pose proof (render_opens pr ind j Hr) as Ho. destruct (render fmt pr ind j) as [|c l]; [done|]. rewrite zlen_cons in Hf.
  pose proof (zlen_nonneg l). destruct fuel as [|fuel]; [lia|]. by exists fuel.
Qed.

Lemma value_reads j : forall fuel pr ind, readable j -> zlen (render fmt pr ind j) <= Z.of_nat fuel ->
  parses (parse_value mem strtod fuel) (render fmt pr ind j) (fun e => denotes mem e (stored j)).
Proof.
  induction j as [|b|n|l|js IH|ms IH] using json_rect'; intros fuel pr ind Hr Hf p sc err rest Hs Hst;
    destruct (fuel_left _ _ _ _ Hr Hf) as (fuel' & ->).
  - rewrite (value_enters fuel' p sc err 110 _ Hs). by apply null_reads.
  - assert (exists c l, Prelude.bytes_of (if b then "true" else "false") = c :: l /\ (c = 116 \/ c = 102)) as (c & l & E & Hc) by (destruct b; eexists _, _; auto).
    pose proof Hs as Hv. cbn [render] in Hv. rewrite E in Hv. rewrite (value_enters fuel' p sc err c _ Hv). destruct Hc as [-> | ->]; by apply bool_reads.
  - destruct Hr as (Hform & Hd & Hfin). cbn [render] in Hs. destruct (number_head _ Hform) as (c & l & E & Hc).
    pose proof Hs as Hv. rewrite E in Hv. rewrite (value_enters fuel' p sc err c _ Hv). rewrite !(proj2 (Z.eqb_neq c _)) by lia.
    assert ((c =? 45) || isdigit c = true) as Ed by (unfold isdigit; destruct Hc as [->|Hc]; [done|]; apply orb_true_iff; right; lia).
    cbn [orb]. rewrite Ed. exact (number_reads p sc err _ n rest Hs Hform Hst Hd Hfin).
  - rewrite (value_enters fuel' p sc err 34 _ Hs). cbn [Z.eqb Pos.eqb orb isdigit Z.leb Z.compare Pos.compare Pos.compare_cont andb].
    eapply reads_mono; [by apply string_reads|]. intros e (a & v & -> & Hv). by exists v.
  - apply json_all_array in Hr. rewrite (value_enters fuel' p sc err 91 _ Hs). cbn [Z.eqb Pos.eqb orb isdigit Z.leb Z.compare Pos.compare Pos.compare_cont andb].
    eapply reads_mono; [eapply (array_reads _ (fun j => render fmt pr (ind + 1) j) (fun e j => denotes mem e (stored j))); [|exact Hs]|].
    + apply Forall_forall. intros j Hj. rewrite Forall_forall in IH. rewrite Forall_forall in Hr. split; [by apply render_opens, Hr|].
      apply IH; [done|by apply Hr|]. cbn [render] in Hf. rename j into j0.
      pose proof (item_length (fun j => render fmt pr (ind + 1) j) (newline pr (ind + 1)) true js j0 Hj) as Hi. cbn beta in Hi.
      match type of Hf with zlen (group_text ?o ?c ?p ?i ?its) <= _ => pose proof (group_length o c p i its) end. lia.
    + intros e (a & es & -> & Hes). cbn [stored]. apply denotes_array. by apply Forall2_fmap_r.
  - apply json_all_object in Hr. rewrite (value_enters fuel' p sc err 123 _ Hs). cbn [Z.eqb Pos.eqb orb isdigit Z.leb Z.compare Pos.compare Pos.compare_cont andb].
    eapply reads_mono; [eapply (object_reads _ (fun j => render fmt pr (ind + 1) j) (fun e j => denotes mem e (stored j))); [|exact Hs]|].
    + apply Forall_forall. intros m Hm. rewrite Forall_forall in IH. rewrite Forall_forall in Hr. destruct (Hr m Hm) as [Hb Hv]. split; [done|].
      split; [by apply opens_solid, render_opens|]. apply IH; [done|done|]. cbn [render] in Hf.
      pose proof (item_length (member_text (fun j => render fmt pr (ind + 1) j) (colon pr)) (newline pr (ind + 1)) true ms m Hm) as Hi.
      unfold member_text at 1 in Hi. rewrite !zlen_app in Hi. pose proof (zlen_nonneg (quoted m.1)). pose proof (zlen_nonneg (colon pr)).
      match type of Hf with zlen (group_text ?o ?c ?p ?i ?its) <= _ => pose proof (group_length o c p i its) end.
      change (items_text (member_text (fun j => render fmt pr (ind + 1) j) (colon pr)) (newline pr (ind + 1)) true ms) with
        (items_text (fun m => quoted m.1 ++ (if pr then [58; 32] else [58]) ++ render fmt pr (ind + 1) m.2) (newline pr (ind + 1)) true ms) in Hi. lia.
    + intros e (a & es & -> & Hes). cbn [stored]. apply denotes_object. apply Forall2_fmap_r. exact Hes.
Qed.
End back.

(** ** A document that is written and read *)

Section roundtrip.
Context {P Q : Type} `{MPoolLaws P} `{MPoolLaws Q} (junk : Z) (mem mem' : Z -> option Z) (strtod : list Z -> double * bool) (fmt : double -> list Z).

Lemma buffer_text (p : P) e j cells sz pr cells' n :
  match e with Some e => denotes mem e j | None => j = JNull end -> numbers_valid j -> 0 < sz <= zlen cells -> zlen (render fmt pr 0 j) < 2 ^ 62 ->
  vox_json_serialize junk mem fmt p e (Some cells) sz pr = Some (Some cells', n, 0) ->
  n = zlen (render fmt pr 0 j) /\ take (Z.to_nat n) cells' = render fmt pr 0 j.
Proof.
  intros Hd Hv Hsz Hl E. unfold vox_json_serialize in E.
  destruct (buffer_filled junk mem fmt p e j (Some cells) sz pr Hd Hv) as (p' & ctx & Ew & _ & _ & Hu & c1 & Eb & Hz & _ & Ht); [lia|done|].
  rewrite Ew in E. cbn [mbind option_bind snd] in *. rewrite Eb, Hu in E. set (text := render fmt pr 0 j) in *. pose proof (zlen_nonneg text).
  destruct (Z.ltb_spec (zlen text) sz) as [Hlt|_].
  - rewrite arr_set_ok in E by lia. cbn [mbind option_bind] in E. injection E as <- <-. split; [done|].
    unfold zlen. rewrite Nat2Z.id, take_insert_ge by lia. by apply Ht.
  - rewrite (proj2 (Z.ltb_lt 0 sz)), arr_set_ok in E by lia. discriminate.
Qed.

(** C37: A tree that vox_json_serialize has written into a buffer and vox_json_parse reads again is the same document, with the
    same null, booleans, numbers, arrays, names and members in the same order, except that every string is the text between the quotes:
    its escapes are kept as they were written, and blanks at its start are lost. The error information is untouched and the
    size is the number of characters; NULL comes only from a pool that has refused a block. The numbers have to
    be ones whose text [strtod] reads back. *)
Theorem json_roundtrip (p : P) (q : logged Q) e j cells sz pr cells' n buffer text size err :
  denotes mem e j -> numbers_valid j -> readable strtod fmt j -> 0 < sz <= zlen cells -> zlen (render fmt pr 0 j) < 2 ^ 62 ->
  vox_json_serialize junk mem fmt p (Some e) (Some cells) sz pr = Some (Some cells', n, 0) ->
  document mem' buffer (take (Z.to_nat n) cells') -> sized (take (Z.to_nat n) cells') text size ->
  exists q' size' err' r, vox_json_parse mem' strtod q buffer text size err = Some (q', size', err', r) /\
  match r with
  | Some e' => denotes mem' e' (stored j) /\ err' = err /\ size' = (fun _ => n) <$> size
  | None => lg_refused q' = true
  end.
Proof.
  intros Hd Hv Hr Hsz Hl E Hdoc Hsize. destruct (buffer_text p (Some e) j cells sz pr cells' n Hd Hv Hsz Hl E) as [Hn Ht].
  rewrite Ht in Hdoc, Hsize. set (whole := render fmt pr 0 j) in *. pose proof (doc_short _ _ _ Hdoc) as Hshort.
  destruct (parse_opened mem' strtod q buffer whole text size err Hdoc Hsize) as (sc & Hs & _ & Hb & He & ->).
  assert (trim whole = whole ++ []) as Etr.
  { rewrite app_nil_r. rewrite <-(app_nil_r whole). apply trim_solid, opens_solid. by apply (render_opens strtod). }
  rewrite Etr in Hs.
  destruct (value_reads mem' strtod fmt buffer whole Hshort j (S (Z.to_nat (end_ sc - begin sc))) pr 0 Hr) with (p := q) (sc := sc) (err := err) (rest := @nil Z)
    as (q' & sc' & err' & [e'|] & -> & Hres); [fold whole; rewrite Hb, He; lia|exact Hs|done|..]; cbn [mbind option_bind].
  2: by do 4 eexists.
  destruct Hres as (-> & Hden & Hs'). change (trim []) with (@nil Z) in Hs'. rewrite (stand_eof _ _ _ _ _ Hs'). cbn [negb mbind option_bind].
  destruct (doc_offset _ _ _ _ _ Hs') as (past & Ep & ->). rewrite app_nil_r in Ep. do 4 eexists. split; [done|]. split; [done|]. split; [done|].
  by rewrite Ep, Hn.
Qed.
End roundtrip.

(** *** Strings that come back *)

(** A text that needs no escape and does not begin with a blank is stored as it is. *)
Definition plain l : Prop := Forall (fun c => 32 <= c /\ c <> 34 /\ c <> 92) l /\ default 0 (head l) <> 32.

Lemma plain_stored l : plain l -> stored_text l = l.
Proof.
  intros [Hp Hh]. unfold stored_text. assert (concat (map escape_char l) = l) as ->.
  { clear Hh. induction Hp as [|c l (Hc & Hq & Hb) _ IH]; [done|]. cbn [map concat]. rewrite IH. unfold escape_char.
    rewrite (proj2 (Z.ltb_ge c 32)) by lia. rewrite !(proj2 (Z.eqb_neq c _)) by lia. done. }
  destruct l as [|c l]; [done|]. cbn [head default id] in Hh. apply trim_mark. destruct (Forall_inv Hp) as [Hc _].
  unfold is_whitespace. by rewrite !(proj2 (Z.eqb_neq c _)) by lia.
Qed.

(** A document whose strings and names are all such texts is read back as it is. *)
Theorem plain_document j : json_all (fun _ => True) plain j -> stored j = j.
Proof.
  induction j as [| | |l|js IH|ms IH] using json_rect'; cbn [stored]; intros Hp; try done.
  - f_equal. by apply plain_stored.
  - apply json_all_array in Hp. f_equal. induction Hp as [|j js Hj _ IHjs]; [done|]. cbn [map]. rewrite (Forall_inv IH Hj), IHjs; [done|].
    by apply Forall_inv_tail in IH.
  - apply json_all_object in Hp. f_equal. induction Hp as [|m ms [Hn Hm] _ IHms]; [done|]. cbn [map]. rewrite (Forall_inv IH Hm), plain_stored, IHms by
      (done || by apply Forall_inv_tail in IH). by destruct m.
Qed.

(** The text of an integer is a number that the parser takes. *)
Lemma decimal_digits fuel : forall n acc, 0 <= n < 10 ^ Z.of_nat fuel -> (0 < fuel)%nat ->
  exists d ds, decimal fuel n acc = d :: ds ++ acc /\ all_digits ds /\ (n = 0 /\ d = 48 /\ ds = [] \/ 49 <= d <= 57).
Proof.
  induction fuel as [|fuel IH]; intros n acc Hn Hf; [lia|]. cbn [decimal]. destruct (Z.ltb_spec n 10) as [Hlt|Hge].
  { exists (48 + n), []. split; [done|]. split; [constructor|]. destruct (Z.eq_dec n 0) as [->|]; [by left|right; lia]. }
  rewrite Nat2Z.inj_succ, Z.pow_succ_r in Hn by lia. pose proof (Z.mod_pos_bound n 10 ltac:(lia)). pose proof (Z.div_mod n 10 ltac:(lia)).
  assert ((0 < fuel)%nat) as Hpos by (destruct fuel; [change (10 ^ Z.of_nat 0) with 1 in Hn; lia|lia]).
  destruct (IH (n / 10) (48 + n mod 10 :: acc)) as (d & ds & E & Hds & Hd); [split; [apply Z.div_pos; lia|apply Z.div_lt_upper_bound; lia]|done|].
  exists d, (ds ++ [48 + n mod 10]). rewrite E, <-app_assoc. split; [done|]. split.
  - apply Forall_app. split; [done|]. constructor; [unfold isdigit; lia|constructor].
  - right. destruct Hd as [(Hz & _)|Hd]; [|done]. lia.
Qed.

Theorem integer_form i : - 2 ^ 63 <= i < 2 ^ 63 -> number_form (print_int64 i).
Proof.
  intros Hi. unfold print_int64.
  assert (forall n, 0 <= n <= 2 ^ 63 -> exists d ds, decimal 20 n [] = d :: ds /\ all_digits ds /\ (d = 48 /\ ds = [] \/ 49 <= d <= 57)) as Hdec.
  { intros n Hn. destruct (decimal_digits 20 n []) as (d & ds & E & Hds & Hd); [change (10 ^ Z.of_nat 20) with 100000000000000000000; lia|lia|].
    rewrite app_nil_r in E. exists d, ds. split; [done|]. split; [done|]. destruct Hd as [(_ & ? & ?)|]; auto. }
  assert (forall d ds, all_digits ds -> d = 48 /\ ds = [] \/ 49 <= d <= 57 -> d :: ds = [48] \/ exists d' ds', d :: ds = d' :: ds' /\ 49 <= d' <= 57 /\ all_digits ds') as Hint.
  { intros d ds Hds [[-> ->]|Hd]; [by left|right; by exists d, ds]. }
  destruct (i <? 0) eqn:Hneg.
  - destruct (Hdec (- i)) as (d & ds & -> & Hds & Hd); [lia|]. exists [45], (d :: ds), [], []. rewrite !app_nil_r. split_and!; auto.
  - destruct (Hdec i) as (d & ds & -> & Hds & Hd); [lia|]. exists [], (d :: ds), [], []. rewrite !app_nil_r. split_and!; auto.
Qed.

(** *** A concrete run *)

Definition one_strtod (t : list Z) : double * bool := if bool_decide (t = [49]) then (one, false) else (S754_nan, true).

Lemma ex_readable : readable one_strtod ex_fmt ex_json.
Proof.
  apply json_all_object. constructor; [|constructor]. split; [apply (bool_decide_unpack _); by vm_compute|]. apply json_all_array.
  assert (number_read one_strtod ex_fmt one) as Hone.
  { split; [|by vm_compute]. exists [], [49], [], []. split_and!; [by vm_compute|by left|right; exists 49, []; by repeat constructor|by left|by left]. }
  constructor; [exact Hone|]. do 2 (constructor; [exact I|]). constructor; [|constructor]. apply (bool_decide_unpack _). by vm_compute.
Qed.

Definition ex_cells : list Z := ex_rendered ++ [0] ++ repeat 7 13.
Definition ex_copy : Z -> option Z := mem_of 16384 (ex_rendered ++ [0]).

Lemma json_roundtrip_witness :
  exists q' size' err' r, vox_json_parse ex_copy one_strtod (Logged (bump_new 4096) false) 16384 (ex_rendered ++ [0]) (Some 26) None = Some (q', size', err', r) /\
  match r with
  | Some e' => denotes ex_copy e' (stored ex_json) /\ err' = None /\ size' = (fun _ => 26) <$> Some 26
  | None => lg_refused q' = true
  end.
Proof.
  apply (json_roundtrip 0 ex_memory ex_copy one_strtod ex_fmt (bump_new 4096) (Logged (bump_new 4096) false) ex_tree ex_json (repeat 7 40) 30 false ex_cells 26
    16384 (ex_rendered ++ [0]) (Some 26) None);
    [exact ex_denotes|exact ex_numbers|exact ex_readable|done|reflexivity|by vm_compute| |reflexivity].
  split; [done..| |apply holds_mem_of]. apply (bool_decide_unpack _). by vm_compute.
Defined.

(** The string of the example is the same document no more: its blank is lost and its quote has become two characters. *)
Example string_changed : stored ex_json = JObj [([107], JArr [JNum one; JBool true; JNull; JText [92; 34; 120]])].
Proof. vm_compute. reflexivity. Qed.

(** Written and read once more it grows again. *)
Example backslashes_grow : stored_text (stored_text [34]) = [92; 92; 92; 34].
Proof. vm_compute. reflexivity. Qed.

End JsonBack.
